(* ===== verification/_CoqProject ===== *)
-Q . S2P
Prelude.v
Pmm.v
Refcount.v
Frames.v
InodePins.v
Vfs.v
Vma.v
Placement.v
WaitList.v
Pipe.v
EventFd.v
Epoll.v
TimerFd.v
Security.v
Token.v
TcpWire.v
Tcp.v
TcpReceive.v
TcpSend.v
TcpTable.v
Ramfs.v
Heap.v
Rss.v
PageTable.v
Resident.v
Fork.v
ForkWalk.v
AddressSpace.v
Tlb.v
Shootdown.v
Teardown.v
Release.v
KernelFrames.v
SpaceDemo.v
ReleaseDemo.v
Dispatcher.v
DispatcherRun.v
DispatcherWake.v
Ob.v
ObRun.v
Futex.v
FutexRun.v
FutexWake.v
Unix.v
UnixRun.v
UnixChan.v
UnixScm.v
UnixRights.v
UnixPass.v
UnixMsg.v
