(* ===== verification/Prelude.v ===== *)
(** * AstryxOS: a verification library for the kernel's memory management,
      IPC, file-system, security and TCP cores

    AstryxOS (kernel/src/) is a monolithic x86-64 kernel with a Linux
    system-call personality, an NT-style executive and a compositor. This
    library models the parts below as executable definitions and proves what
    makes each of them correct. Paths are relative to kernel/src/.

    ** Parts and their files

    - [Prelude] (this file): machine words with their wrap-around, notations
      for bit operations, list and counting lemmas, tactics.
    - [Pmm]: the frame allocator of mm/pmm.rs. State [Pmm] holds the bitmap
      and the counters; [init], [alloc_page_locked], [alloc_pages],
      [reserve_range] and the accounting snapshot are the functions of that
      name. [PmmConfig] abstracts the page limit of the build.
    - [Refcount]: the u16 reference counts of mm/refcount.rs, once as
      sequential operations and once as the step relation [ref_step] of
      concurrent increments and compare-exchange decrements.
    - [Frames]: [free_page] of mm/pmm.rs with the DMA pins and the
      deferred-free ring of mm/dma_pin.rs, which call each other, over the
      joint state [Frames].
    - [InodePins]: pins on inodes, the reap queue and the release of unlinked
      inodes of vfs/mod.rs.
    - [Vma]: the area list of mm/vma.rs ([VmSpace]) with insert, unmap and
      break, mprotect of subsys/linux/syscall.rs, fault permissions, and the
      pins that shared file areas hold in [InodePins].
    - [Placement]: address selection of mm/vma.rs against the area list and
      the lock-free table of ranges still being torn down.
    - [Heap]: the kernel heap of mm/heap.rs. Block headers and the free list
      are words of a memory, as in the source; allocation, release with its
      merges, pointer validation and the layout at boot.
    - [Rss], [Resident]: mm/rss.rs, the hash table of resident-page counters
      and the walk that recounts an address space.
    - [PageTable]: the page tables of mm/vmm.rs over word-addressed physical
      memory: the walk that creates and splits tables, mapping, the guarded
      installs of the page-fault path, unmapping, lookups. Frames come from
      the class [FrameSource]; [spaces_ok] says that the tables of all
      address spaces form disjoint trees and [leaf] is the translation they
      define.
    - [Fork], [ForkWalk], [AddressSpace]: [new_user] and [clone_for_fork] of
      mm/vma.rs. [Fork] has the definitions, [ForkWalk] follows the walk
      level by level, [AddressSpace] has the theorems. Frame references come
      from the class [FrameRefs].
    - [Teardown], [Release]: [free_vm_space] and [free_user_page_tables] of
      proc/mod.rs and [unmap_and_free_range_in] of mm/vmm.rs, with the frames
      given back through the class [FrameRelease]. [Teardown] has the
      definitions and what a list of given-up references does to the frame
      layer, [Release] the theorems.
    - [KernelFrames]: [Frames] and [Refcount] as instances of these classes.
      [SpaceDemo] and [ReleaseDemo] run the operations on a small machine.
    - [Tlb], [Shootdown]: mm/tlb.rs. [Tlb] has the masks of active CPUs, the
      request slots, the deferred flushes and the quarantine ring;
      [Shootdown] is the step relation of a sender, the handlers, the context
      switches of sched/mod.rs and the timer interrupts of all CPUs.
    - [Vfs], [Ramfs]: the file-system trait and the removal of names of
      vfs/mod.rs, and vfs/ramfs.rs with vfs/tmpfs.rs, its only instance here.
    - [WaitList]: parking and waking of threads, ipc/waitlist.rs, and the
      poll bell. A park is split where the source switches context.
    - [Pipe], [EventFd], [TimerFd]: ipc/pipe.rs, ipc/eventfd.rs and
      ipc/timerfd.rs, each its table, operations and, where it has one, its
      wait lists.
    - [Epoll]: ipc/epoll.rs and the epoll system calls, as functions of the
      instants at which the call looks at the system.
    - [Dispatcher], [DispatcherRun], [DispatcherWake]: the dispatcher objects
      of ke/ (events, mutants, semaphores, timers), their registry, and the
      waits of ke/wait.rs. [Dispatcher] has the operations; [DispatcherRun]
      is the step relation of all threads, a wait cut where the source lets
      go of the registry lock, with the theorems on ownership and counts;
      [DispatcherWake] has the one on wakes.
    - [Futex], [FutexRun], [FutexWake]: futex(2), in syscall/mod.rs and
      subsys/linux/syscall.rs, with the tick conversion of
      arch/x86_64/irq.rs. [Futex] has the queues and operations, [FutexRun]
      the step relation of all threads and its invariant, [FutexWake] the
      theorems.
    - [Unix], [UnixRun], [UnixChan]: net/unix.rs. [Unix] has the socket table
      and its operations, for any sizes of the table and its arrays (the
      kernel's are [unix_sizes]); [UnixRun] runs the calls of all holders of
      descriptors, numbering the endpoints a recycled slot holds one after
      the other; [UnixChan] has the theorems and the runs of note.
    - [UnixScm], [UnixRights], [UnixPass], [UnixMsg]: descriptors passed over
      local sockets, in syscall/mod.rs and the sendmsg and recvmsg of
      subsys/linux/syscall.rs, with the whole of close. [UnixScm] has the
      operations, which record the calls they make on other components;
      [UnixRights] has closing and sending, [UnixPass] sendmsg and recvmsg as
      operations on bytes with descriptors on them, [UnixMsg] the step
      relation and the theorems.
    - [Ob], [ObRun]: ob/mod.rs and ob/handle.rs, the namespace of objects,
      its reference counts and the handle tables; [ObRun] runs the calls of
      all processes in any order.
    - [Security], [Token]: access-control lists, descriptors, the access
      check, identifiers, privileges and the token registry of security/.
    - [TcpWire], [Tcp], [TcpReceive], [TcpSend], [TcpTable]: net/tcp.rs.
      [TcpWire] has the segments, the checksum of net/ipv4.rs and sequence
      numbers, [Tcp] the connections and every operation on their table. The
      theorems are in [TcpReceive] (reassembly and selective
      acknowledgements), [TcpSend] (segmentation, retransmission, and sender
      and receiver together) and [TcpTable] (the states of connections, the
      bound on the table, accept). Readiness edges ring the bell of
      [WaitList].

    ** How code becomes definitions

    A function that takes a lock and returns is one state-passing definition;
    what several CPUs do without a common lock is a step relation. [Result]
    is a sum with the error on the right (errno values keep their sign),
    [Option] is [option], a panic is [None]. Unsigned integers are [Z] with
    the wrap-around of the release build written out ([add64], [sub64]);
    indices and lengths are [nat]. Fixed arrays and vectors are lists. Time,
    random words, the state of other subsystems and user memory are arguments.
    Logging, trace counters and code under diagnostic features are left out.

    ** What the theorems show

    The comment of each theorem states all its conditions; here is the gist.

    - Frames: the allocator's counters agree with its bitmap in every
      reachable state; allocation finds a frame whenever one is free, the
      lowest run where a run is asked for; a pinned frame is not handed out
      again and its deferred free is carried out by the last unpin; counts
      lose no update under any interleaving.
    - Address spaces: unmap, insert, mprotect and break act on the
      address-to-page view exactly as asked and keep the list sorted and
      disjoint (the break as long as it grows over no other area); pins count the shared file areas, so that reaping frees only
      unlinked inodes nobody maps; placement finds the highest gap free of
      areas and teardowns on such a list.
    - Page tables: mapping, unmapping and the guarded installs change one
      translation of one address space and no other, at the frames a page
      walk reads; the resident counters equal the recount after every such
      step; a new address space is empty below and shares the kernel above;
      a fork gives the child the parent's translations, write-protects both,
      takes one reference per shared frame, and leaves every other address
      space alone; unmapping a range and tearing a space down give up one
      reference per mapped page that has a counted frame (device areas
      apart), release exactly the frames whose last references these were,
      and the tables once each; pages of 2 MiB are outside these. The counter
      table is a finite map.
    - TLB: for every interleaving with one sender at a time, when a shootdown has returned, a CPU holds
      an entry of the range only inside its own handler or with a flush
      posted to it; the quarantine releases a frame when, and only when,
      every CPU has flushed since.
    - Heap: live blocks are disjoint and inside the heap, the free list is
      sorted and fully merged, allocation is first fit, and once everything
      is freed the heap is one block again.
    - File systems: the tree of a ramfs stays a tree with every inode linked
      where it says; rename, create, remove, read and write act as specified,
      and an unlinked file that is open lives until its last close.
    - Waiting: pipes, where deposits and drains go with their wakes, and event
      counters never leave a thread parked on something it could proceed
      with; pipes are queues, event counters and
      timers conserve their counts, epoll is a map of watches whose wait
      returns within its contract and whose edges are exact.
    - Futexes: in every interleaving whose requeues take all waiters of an
      address, of the caller's process, a sleeping thread is on the one queue
      where a wake finds it, nobody sleeps for a value that was replaced
      before the wake, a counted wake is a wait that does not time out, and a
      timeout is not cut short.
    - Local sockets, when only sockets neither connected nor listening are
      connected: an endpoint hears one other endpoint in its life and gets
      exactly what that one sent, byte for byte or message for message,
      however often slots are reused in between; a slot stays with its
      holders until the last of them closes; what poll reports is what the
      calls would do. Descriptors sent with data on a stream, and received
      with recvmsg and room for them, ride on the first byte of their message
      and are received with it; a socket in flight stays open, and closing
      returns however deep sockets are queued on sockets.
    - Executive: in every interleaving a mutant has one owner, whose
      acquisitions are as many as it has to release; the units of a
      semaphore whose counts and releases are not negative and do not
      overflow are those released less those waits have taken; a thread
      parked by a single wait or WaitAny on a signalled object has been made
      ready, as long as signals do not fall between the steps of its wait; a
      named object keeps its name
      until no handle is open on it.
    - Security: the access check decides by the unions of deny and allow
      masks, or by the mode bits of the subject's class where there is no
      list; the text of an identifier determines it; privileges change one
      at a time; token identifiers are not reused.
    - TCP: what is handed to the application is the peer's stream, from its
      first byte on and without gaps, whatever order segments arrive in and
      however they overlap, and a segment that continues it is delivered; the
      end of the stream is reported after its last byte unless the connection
      was reset, aborted or given up;
      blocks reported as received are held; everything queued and not
      acknowledged is retained and what goes out carries the stream at the
      right numbers; a segment survives the wire; the table is bounded, its
      connections follow the state diagram, closed ones are collected.

    Where the code does not do what it means to, a lemma exhibits the
    behaviour on a concrete state (for instance [remove_range_device_shift],
    [epoll_maxevents_drops_edge], [timerfd_fires_early]), and the theorem
    about the operation carries the hypothesis that excludes it.

    ** Bounds and fuel

    [remove_loop] and [mprotect_loop] get one round per area and one to stop,
    enough since each round removes an area or steps past its pieces;
    [find_free_range] keeps the source's 65 rounds, proved to suffice because
    each conflict rules out one of the 64 teardown slots for good;
    [pipe_drain_console] gets fuel for the largest capacity and is proved to
    empty the pipe; [round_capacity] gets 16 doublings, more than lie between
    a page and the maximum; [push_loop] (decimal digits) gets the 20 digits a
    u64 can have; [evict_loop] gets one round per resident segment, [send_loop]
    one per byte, [scan_options] one per option byte, and [fold_carry] enough
    to fold a 32-bit sum. The heap walks keep the source's [MAX_WALK_ITERS],
    proved to be more than the free list can hold; [descends] (the ancestors
    of a directory) gets one round per inode; the loops over a 64-bit mask
    ([mask_loop]) get 64 rounds, one per bit; the loops over the pages of a
    range ([page_loop], [unmap_batch], [unmap_range_loop]) get one round per
    page and one to stop; [close] gets one round per descriptor in flight and
    one more, each nested close being for a descriptor taken off the queue.
    The theorems state that a result is returned. The
    receive theorems are about streams whose positions lie within [SPAN]
    (2^28) of what has been delivered, beyond which sequence numbers no
    longer tell positions apart.

    ** Not modelled

    The page cache and the file systems on disk (block devices); path
    resolution and mounts; the choice of the OOM killer, which is a parameter
    of allocation; the delivery of interrupts and IPIs (a handler may run at
    any time), devices and boot code; the scheduler and process creation
    beyond the thread fields waking touches and the address space a fork
    copies; the lock registry of address spaces; of the network stack
    everything but TCP and local sockets (socket readiness enters [Epoll] as
    a parameter, and TCP operations return the segments they hand to the IP
    layer); of the executive the locks, LPC and the I/O manager; windowing,
    shell, debugger and demos. *)

From Stdlib Require Export ZArith Lia Bool List.
From stdpp Require Export prelude gmap strings list sorting numbers.

#[global] Open Scope Z_scope.
#[global] Set Default Goal Selector "!".
#[global] Arguments Nat.div : simpl never.
#[global] Arguments Nat.modulo : simpl never.

(* ------------------------------------------------------------------ *)
(** ** Machine words

    An unsigned [w]-bit integer of the source is a [Z]; the release build
    of the kernel wraps on overflow, so [+], [-] and [*] on such a type are
    the operations below followed by a reduction modulo [2 ^ w]. *)

Declare Scope word_scope.
Delimit Scope word_scope with word.

Notation "a .& b" := (Z.land a b) (at level 40, left associativity) : word_scope.
Notation "a .| b" := (Z.lor a b) (at level 45, left associativity) : word_scope.
Notation "a .<< b" := (Z.shiftl a b) (at level 38, left associativity) : word_scope.
Notation "a .>> b" := (Z.shiftr a b) (at level 38, left associativity) : word_scope.

#[global] Open Scope word_scope.

(** Reduction to a [w]-bit unsigned integer. *)
Definition wrap (w x : Z) : Z := x mod 2 ^ w.

(** [x] is representable on [w] bits. *)
Definition in_word (w x : Z) : Prop := 0 <= x < 2 ^ w.

Definition U8_MAX : Z := 2 ^ 8 - 1.
Definition U16_MAX : Z := 2 ^ 16 - 1.
Definition U32_MAX : Z := 2 ^ 32 - 1.
Definition U64_MAX : Z := 2 ^ 64 - 1.

(** [wrapping_add] / [fetch_add] and [wrapping_sub] / [fetch_sub] on [u64]. *)
Definition add64 (a b : Z) : Z := wrap 64 (a + b).
Definition sub64 (a b : Z) : Z := wrap 64 (a - b).

(** [u64::saturating_add], [u32::saturating_add] and the
    width-independent [saturating_sub]. *)
Definition sat_add64 (a b : Z) : Z := Z.min (a + b) U64_MAX.
Definition sat_add32 (a b : Z) : Z := Z.min (a + b) U32_MAX.
Definition sat_sub (a b : Z) : Z := Z.max (a - b) 0.

(** Bitwise complement [!x] of a [w]-bit word. *)
Definition notw (w x : Z) : Z := Z.land (Z.lnot x) (Z.ones w).

Lemma wrap_small w x : in_word w x -> wrap w x = x.
Proof. intros H. apply Z.mod_small, H. Qed.

Lemma wrap_range w x : 0 <= w -> in_word w (wrap w x).
Proof. intros Hw. apply Z.mod_pos_bound, Z.pow_pos_nonneg; lia. Qed.

Lemma add64_small a b : 0 <= a + b <= U64_MAX -> add64 a b = a + b.
Proof. intros H. apply wrap_small. unfold in_word, U64_MAX in *. lia. Qed.

Lemma sub64_small a b : 0 <= a - b <= U64_MAX -> sub64 a b = a - b.
Proof. intros H. apply wrap_small. unfold in_word, U64_MAX in *. lia. Qed.

Lemma testbit_notw w x i :
  0 <= w -> 0 <= i ->
  Z.testbit (notw w x) i = bool_decide (i < w) && negb (Z.testbit x i).
Proof.
  intros Hw Hi. unfold notw.
  rewrite Z.land_spec, Z.lnot_spec, Z.testbit_ones by done.
  rewrite (proj2 (Z.leb_le 0 i)) by done. simpl. rewrite andb_comm. f_equal.
  case_bool_decide; [apply Z.ltb_lt|apply Z.ltb_ge]; lia.
Qed.

(** A one-bit mask. *)
Lemma testbit_shiftl_1 k i :
  0 <= k -> 0 <= i -> Z.testbit (1 .<< k) i = bool_decide (i = k).
Proof.
  intros Hk Hi. rewrite Z.shiftl_1_l.
  case_bool_decide as E; [subst; by apply Z.pow2_bits_true|].
  apply Z.pow2_bits_false. lia.
Qed.

Lemma land_shiftl_1_eqb x k :
  0 <= k -> (x .& (1 .<< k) =? 0) = negb (Z.testbit x k).
Proof.
  intros Hk. rewrite Z.shiftl_1_l. destruct (Z.testbit x k) eqn:E; simpl.
  - apply Z.eqb_neq. intros H. apply (f_equal (fun z => Z.testbit z k)) in H.
    rewrite Z.land_spec, E, Z.pow2_bits_true, Z.bits_0 in H by done. done.
  - apply Z.eqb_eq. apply Z.bits_inj_iff'. intros i Hi.
    rewrite Z.land_spec, Z.bits_0. destruct (decide (i = k)) as [->|Hne].
    + by rewrite E.
    + by rewrite Z.pow2_bits_false, andb_false_r by lia.
Qed.

(** A non-zero word has a bit. *)
Lemma nonzero_bit x : 0 <= x -> x <> 0 <-> exists b, 0 <= b /\ Z.testbit x b = true.
Proof.
  intros Hx. split.
  - intros Hn. exists (Z.log2 x). split; [apply Z.log2_nonneg|]. apply Z.bit_log2. lia.
  - intros (b & _ & Hb) ->. by rewrite Z.bits_0 in Hb.
Qed.

(** A word below [2 ^ w] has no bit at or above [w]. *)
Lemma testbit_word_high w x i : in_word w x -> w <= i -> Z.testbit x i = false.
Proof.
  intros [H0 H1] Hi.
  destruct (decide (x = 0)) as [->|]; [apply Z.bits_0|].
  apply Z.bits_above_log2; [done|].
  apply Z.lt_le_trans with w; [|done]. apply Z.log2_lt_pow2; lia.
Qed.

Lemma in_word_bits w x :
  0 <= w -> 0 <= x -> (forall i, w <= i -> Z.testbit x i = false) -> in_word w x.
Proof.
  intros Hw H0 Hb. split; [done|].
  destruct (decide (x = 0)) as [->|]; [apply Z.pow_pos_nonneg; lia|].
  apply Z.log2_lt_pow2; [lia|].
  destruct (decide (Z.log2 x < w)); [done|].
  specialize (Hb (Z.log2 x)). rewrite Z.bit_log2 in Hb by lia.
  by discriminate Hb; lia.
Qed.

Lemma in_word_lor w x y : 0 <= w -> in_word w x -> in_word w y -> in_word w (x .| y).
Proof.
  intros Hw Hx Hy. apply in_word_bits; [done| |].
  - apply Z.lor_nonneg. by destruct Hx, Hy.
  - intros i Hi. by rewrite Z.lor_spec, !(testbit_word_high w).
Qed.

Lemma in_word_land_l w x y : 0 <= w -> in_word w x -> in_word w (x .& y).
Proof.
  intros Hw Hx. apply in_word_bits; [done| |].
  - apply Z.land_nonneg. left. by destruct Hx.
  - intros i Hi. by rewrite Z.land_spec, (testbit_word_high w).
Qed.

Lemma land_page_mask x : in_word 64 x -> x .& notw 64 0xFFF = x / 4096 * 4096.
Proof.
  intros Hx. replace (x / 4096 * 4096) with (Z.ldiff x (Z.ones 12)).
  - apply Z.bits_inj_iff'. intros i Hi. rewrite Z.land_spec, Z.ldiff_spec.
    destruct (decide (i < 64)) as [Hlt|Hge].
    + by rewrite testbit_notw, bool_decide_eq_true_2 by lia.
    + rewrite (testbit_word_high 64 x i) by (done || lia). done.
  - rewrite Z.ldiff_ones_r by lia. rewrite Z.shiftr_div_pow2, Z.shiftl_mul_pow2 by lia. done.
Qed.

(* ------------------------------------------------------------------ *)
(** ** Counting the indices below [n] that satisfy a boolean predicate *)

Fixpoint count_upto (f : nat -> bool) (n : nat) : Z :=
  match n with
  | O => 0
  | S n' => count_upto f n' + Z.b2z (f n')
  end.

Lemma count_upto_ext f g n :
  (forall i, (i < n)%nat -> f i = g i) -> count_upto f n = count_upto g n.
Proof.
  induction n as [|n IH]; intros H; simpl; [done|].
  rewrite (H n), IH; [done| |lia]. intros i Hi. apply H. lia.
Qed.

Lemma count_upto_range f n : 0 <= count_upto f n <= Z.of_nat n.
Proof. induction n as [|n IH]; simpl; [lia|]. destruct (f n); simpl; lia. Qed.

(** Setting the predicate at one fresh index adds one. *)
Lemma count_upto_set f g n p :
  (p < n)%nat -> f p = false -> g p = true ->
  (forall q, q <> p -> f q = g q) ->
  count_upto g n = count_upto f n + 1.
Proof.
  intros Hp Hf Hg Hq. induction n as [|n IH]; [lia|]. simpl.
  destruct (decide (p = n)) as [->|Hne].
  - rewrite Hf, Hg. rewrite (count_upto_ext g f n); [simpl; lia|].
    intros i Hi. symmetry. apply Hq. lia.
  - rewrite IH, (Hq n) by lia. lia.
Qed.

Lemma count_upto_pos f n p : (p < n)%nat -> f p = true -> 1 <= count_upto f n.
Proof.
  intros Hp Hf. induction n as [|n IH]; [lia|]. simpl.
  pose proof (count_upto_range f n).
  destruct (decide (p = n)) as [->|]; [rewrite Hf; simpl; lia|].
  destruct (f n); simpl; lia.
Qed.

Lemma count_upto_pos_inv f n :
  1 <= count_upto f n -> exists p, (p < n)%nat /\ f p = true.
Proof.
  induction n as [|n IH]; simpl; [lia|]. intros H.
  destruct (f n) eqn:E; [exists n; split; [lia|done]|].
  destruct IH as (p & Hp & Hf); [simpl in H; lia|]. exists p. split; [lia|done].
Qed.

Lemma count_upto_split f g n :
  count_upto f n =
  count_upto (fun i => f i && g i) n + count_upto (fun i => f i && negb (g i)) n.
Proof. induction n as [|n IH]; simpl; [done|]. destruct (f n), (g n); simpl; lia. Qed.

Lemma count_upto_mono f g n :
  (forall i, (i < n)%nat -> f i = true -> g i = true) -> count_upto f n <= count_upto g n.
Proof.
  induction n as [|n IH]; intros H; simpl; [lia|].
  specialize (IH (fun i Hi => H i ltac:(lia))). specialize (H n ltac:(lia)).
  destruct (f n); [rewrite H by done|destruct (g n)]; simpl; lia.
Qed.

Lemma count_upto_false n : count_upto (fun _ => false) n = 0.
Proof. induction n; simpl; lia. Qed.

Lemma count_upto_add f n m :
  count_upto f (n + m) = count_upto f n + count_upto (fun i => f (n + i)%nat) m.
Proof.
  induction m as [|m IH]; simpl; [by rewrite Nat.add_0_r; lia|].
  rewrite Nat.add_succ_r. simpl. lia.
Qed.

(** Case analysis on one given proposition under [bool_decide]. *)
Tactic Notation "decide_on" constr(P) "as" ident(H) :=
  destruct (decide P) as [H|H];
  [rewrite ?(bool_decide_eq_true_2 P) by exact H
  |rewrite ?(bool_decide_eq_false_2 P) by exact H].

Lemma existsb_ext {A} (f g : A -> bool) l :
  (forall x, x ∈ l -> f x = g x) -> existsb f l = existsb g l.
Proof.
  induction l as [|x l IH]; intros H; simpl; [done|].
  rewrite (H x), IH; [done| |left]. intros y Hy. apply H. by right.
Qed.

Lemma Forall_rev_iff {A} (P : A -> Prop) l : Forall P (rev l) <-> Forall P l.
Proof.
  rewrite !List.Forall_forall. setoid_rewrite <- in_rev. done.
Qed.

Lemma count_upto_lt f g n p :
  (forall i, (i < n)%nat -> f i = true -> g i = true) ->
  (p < n)%nat -> f p = false -> g p = true -> count_upto f n < count_upto g n.
Proof.
  induction n as [|n IH]; intros Hfg Hp Hf Hg; simpl; [lia|].
  destruct (decide (p = n)) as [->|Hne].
  - rewrite Hf, Hg. pose proof (count_upto_mono f g n) as Hm. simpl.
    specialize (Hm (fun i Hi => Hfg i ltac:(lia))). lia.
  - specialize (IH (fun i Hi => Hfg i ltac:(lia)) ltac:(lia) Hf Hg).
    specialize (Hfg n ltac:(lia)). destruct (f n); [rewrite Hfg by done|destruct (g n)]; simpl; lia.
Qed.

(* ------------------------------------------------------------------ *)
(** ** Tables searched by key

    The kernel keeps most tables as a [Vec] that is searched with
    [iter().find(|x| x.key == k)] and updated through
    [iter_mut().find(..)]. *)

Lemma filter_sublist {A} (p : A -> bool) (l : list A) : List.filter p l `sublist_of` l.
Proof. induction l as [|x l IH]; cbn; [done|]. destruct (p x); by constructor. Qed.

Lemma sublist_Forall {A} (P : A -> Prop) (l l' : list A) : l' `sublist_of` l -> Forall P l -> Forall P l'.
Proof.
  induction 1 as [|x l l' _ IH|x l l' _ IH]; [done| |]; intros [Hx H]%Forall_cons_iff; [constructor|]; auto.
Qed.

Lemma sublist_map {A B} (f : A -> B) (l l' : list A) : l' `sublist_of` l -> map f l' `sublist_of` map f l.
Proof. induction 1; cbn; by constructor. Qed.

(** [f] applied to the first element selected. *)
Fixpoint update_first {A} (sel : A -> bool) (f : A -> A) (l : list A) : list A :=
  match l with
  | [] => []
  | x :: l' => if sel x then f x :: l' else x :: update_first sel f l'
  end.

Lemma update_first_keys {A B} (key : A -> B) sel f l :
  (forall x, key (f x) = key x) -> map key (update_first sel f l) = map key l.
Proof.
  intros Hf. induction l as [|x l IH]; simpl; [done|].
  destruct (sel x); simpl; [by rewrite Hf|by rewrite IH].
Qed.

Section keyed.
Context {A : Type} (key : A -> Z).
Implicit Types (l : list A) (x y : A).

Lemma key_unique l x y :
  NoDup (map key l) -> x ∈ l -> y ∈ l -> key x = key y -> x = y.
Proof.
  induction l as [|z l IH]; intros Hn Hx Hy E; [by apply not_elem_of_nil in Hx|].
  apply list.NoDup_cons in Hn as [Hni Hn].
  assert (forall w, w ∈ l -> key w <> key z) as Hz.
  { intros w Hw Ew. apply Hni. rewrite <- Ew, list_elem_of_In. apply in_map. by apply list_elem_of_In. }
  apply elem_of_cons in Hx as [->|Hx], Hy as [->|Hy]; try done.
  - by destruct (Hz y Hy).
  - by destruct (Hz x Hx).
  - by apply IH.
Qed.

Lemma find_key_some k l x :
  NoDup (map key l) -> List.find (fun y => key y =? k) l = Some x <-> x ∈ l /\ key x = k.
Proof.
  intros Hn. split.
  - intros Hf. apply find_some in Hf as [Hin Ht%Z.eqb_eq]. by rewrite list_elem_of_In.
  - intros [Hin Hk]. destruct (List.find _ l) as [y|] eqn:E.
    + apply find_some in E as [Hy Ey%Z.eqb_eq]. apply list_elem_of_In in Hy.
      f_equal. apply (key_unique l); congruence.
    + apply find_none with (x := x) in E; [|by apply list_elem_of_In]. by apply Z.eqb_neq in E.
Qed.

Lemma find_key_none k l :
  List.find (fun y => key y =? k) l = None <-> forall x, x ∈ l -> key x <> k.
Proof.
  split.
  - intros Hf x Hx. apply list_elem_of_In in Hx.
    pose proof (find_none _ _ Hf x Hx) as E. by apply Z.eqb_neq in E.
  - intros Hn. destruct (List.find _ l) as [x|] eqn:E; [|done].
    apply find_some in E as [Hin Ek%Z.eqb_eq]. apply list_elem_of_In in Hin. by destruct (Hn x).
Qed.

Lemma update_first_map k f l :
  NoDup (map key l) ->
  update_first (fun y => key y =? k) f l = map (fun y => if key y =? k then f y else y) l.
Proof.
  induction l as [|x l IH]; intros Hn; simpl; [done|].
  apply list.NoDup_cons in Hn as [Hni Hn]. destruct (Z.eqb_spec (key x) k) as [E|E].
  - f_equal. rewrite <- (map_id l) at 1. apply map_ext_in. intros y Hy.
    destruct (Z.eqb_spec (key y) k) as [E2|]; [|done]. destruct Hni.
    rewrite E, <- E2. apply list_elem_of_In. by apply in_map.
  - f_equal. by apply IH.
Qed.

Lemma update_first_none k f l :
  (forall x, x ∈ l -> key x <> k) -> update_first (fun y => key y =? k) f l = l.
Proof.
  induction l as [|x l IH]; intros Hk; simpl; [done|].
  destruct (Z.eqb_spec (key x) k) as [E|]; [by destruct (Hk x); [left|]|].
  f_equal. apply IH. intros y Hy. apply Hk. by right.
Qed.

(** Membership after an update of the element with key [k]. *)
Lemma elem_of_update_first k f l y :
  NoDup (map key l) ->
  y ∈ update_first (fun y => key y =? k) f l <->
  exists x, x ∈ l /\ y = if key x =? k then f x else x.
Proof.
  intros Hn. rewrite update_first_map by done. rewrite list_elem_of_In, in_map_iff.
  setoid_rewrite list_elem_of_In. naive_solver.
Qed.

(** Lookup by key after an update. *)
Lemma find_update_first k k' f l :
  (forall x, key (f x) = key x) ->
  List.find (fun y => key y =? k') (update_first (fun y => key y =? k) f l) =
  if k' =? k then f <$> List.find (fun y => key y =? k) l
  else List.find (fun y => key y =? k') l.
Proof.
  intros Hf. induction l as [|x l IH]; simpl; [by case_match|].
  destruct (Z.eqb_spec (key x) k) as [E|E]; simpl.
  - rewrite Hf. destruct (Z.eqb_spec k' k) as [->|Hne].
    + by rewrite (proj2 (Z.eqb_eq _ _)).
    + by rewrite (proj2 (Z.eqb_neq (key x) k')) by congruence.
  - rewrite IH. destruct (Z.eqb_spec (key x) k') as [E2|]; [|done].
    by rewrite (proj2 (Z.eqb_neq k' k)) by congruence.
Qed.
End keyed.

(* ------------------------------------------------------------------ *)
(** ** Slot tables *)

(** [iter().position(f)]: the first index whose element satisfies [f]. *)
Fixpoint position {A} (f : A -> bool) (l : list A) : option nat :=
  match l with
  | [] => None
  | x :: l => if f x then Some 0%nat else S <$> position f l
  end.

Lemma position_some {A} (f : A -> bool) l i :
  position f l = Some i <->
  (exists x, l !! i = Some x /\ f x = true) /\
  (forall j x, (j < i)%nat -> l !! j = Some x -> f x = false).
Proof.
  revert i. induction l as [|x l IH]; intros i; simpl.
  { split; [done|]. intros [(y & Hy & _) _]. by rewrite lookup_nil in Hy. }
  destruct (f x) eqn:E.
  - split.
    + intros [= <-]. split; [by exists x|]. intros j y Hj. lia.
    + intros [_ H]. destruct i as [|i]; [done|]. specialize (H 0%nat x). rewrite E in H.
      specialize (H ltac:(lia) eq_refl). done.
  - split.
    + intros (k & Hk & ->)%fmap_Some_1.
      apply IH in Hk as [(y & Hy & Hf) H]. split; [by exists y|].
      intros [|j] z Hj Hz; [by simplify_eq/=|]. apply (H j); [lia|done].
    + intros [(y & Hy & Hf) H]. destruct i as [|i]; [simplify_eq/=; congruence|].
      apply fmap_Some. exists i. split; [|done]. apply IH. split; [by exists y|].
      intros j z Hj Hz. by apply (H (S j) z); [lia|].
Qed.

Lemma position_none {A} (f : A -> bool) l :
  position f l = None <-> forall x, x ∈ l -> f x = false.
Proof.
  induction l as [|x l IH]; simpl; [split; [intros _ y Hy; by apply not_elem_of_nil in Hy|done]|].
  destruct (f x) eqn:E.
  - split; [done|]. intros H. specialize (H x ltac:(left)). congruence.
  - rewrite fmap_None, IH. split.
    + intros H y [->|Hy]%list.elem_of_cons; [done|by apply H].
    + intros H y Hy. apply H. by right.
Qed.
