(* ===== verification/Pmm.v ===== *)
(** * Physical memory manager: the frame bitmap (kernel/src/mm/pmm.rs)

    The bitmap allocator with its counters: boot-time initialisation from the
    firmware memory map, single-frame next-fit allocation, contiguous
    first-fit allocation, range reservation and the accounting snapshot.
    [free_page], whose gates consult the refcount table and the DMA-pin
    ledger, is in [Frames]. *)

From S2P Require Import Prelude.

(* ------------------------------------------------------------------ *)
(** ** Configuration

    The source fixes [MAX_PAGES = 1024 * 1024] and
    [BITMAP_SIZE = MAX_PAGES / 8]; the development is generic in the size and
    [astryx_pmm] below is the kernel's. The three facts are those the code
    relies on: the low 256 frames are indexed without a bound check, the
    accounting scan reads whole 8-byte chunks, and a frame address fits [u64]. *)
Class PmmConfig := {
  BITMAP_SIZE : nat;
  BITMAP_SIZE_min : (32 <= BITMAP_SIZE)%nat;
  BITMAP_SIZE_words : exists w, BITMAP_SIZE = (8 * w)%nat;
  BITMAP_SIZE_max : Z.of_nat BITMAP_SIZE * 8 * 4096 <= U64_MAX
}.

Definition PAGE_SIZE : Z := 4096.

Definition MAX_PAGES `{PmmConfig} : nat := (BITMAP_SIZE * 8)%nat.

(** The kernel's configuration: [1024 * 1024] frames, [131072] bitmap bytes. *)
#[program] Definition astryx_pmm : PmmConfig :=
  {| BITMAP_SIZE := (8 * Z.to_nat 16384)%nat |}.
Next Obligation. lia. Qed.
Next Obligation. by eexists. Qed.
Next Obligation. unfold U64_MAX. lia. Qed.

(** A 512-frame configuration on which the witnesses evaluate. *)
#[program] Definition small_pmm : PmmConfig := {| BITMAP_SIZE := 64%nat |}.
Next Obligation. lia. Qed.
Next Obligation. by exists 8%nat. Qed.
Next Obligation. unfold U64_MAX. lia. Qed.

(* ------------------------------------------------------------------ *)
(** ** State: the statics of pmm.rs *)

Record Pmm := mkPmm {
  BITMAP : list Z;
  TOTAL_PAGES : Z;
  USED_PAGES : Z;
  RESERVED_PAGES : Z;
  NEXT_FIT_BYTE : Z;
  KERNEL_IMAGE_PHYS_BASE : Z;
  KERNEL_IMAGE_PHYS_END : Z;
  BOOTSTRAP_STACK_PHYS_FIRST : Z;
  BOOTSTRAP_STACK_PHYS_LAST : Z;
  PMM_EXHAUSTED_TOTAL : Z;
  PMM_FREE_RESIDUAL_REFS : Z;
  PMM_FREE_KERNEL_STATIC_REFUSED : Z;
  PMM_FREE_ALREADY_FREE : Z
}.

(** The values the statics have before [init]: every frame used. *)
Definition pmm_static `{PmmConfig} : Pmm :=
  mkPmm (replicate BITMAP_SIZE 255) 0 0 0 0 0 0 0 0 0 0 0 0.

Definition with_BITMAP (bm : list Z) (s : Pmm) : Pmm :=
  let '(mkPmm _ t u r n kb ke bf bl x1 x2 x3 x4) := s in
  mkPmm bm t u r n kb ke bf bl x1 x2 x3 x4.
Definition with_USED_PAGES (u : Z) (s : Pmm) : Pmm :=
  let '(mkPmm bm t _ r n kb ke bf bl x1 x2 x3 x4) := s in
  mkPmm bm t u r n kb ke bf bl x1 x2 x3 x4.
Definition with_RESERVED_PAGES (r : Z) (s : Pmm) : Pmm :=
  let '(mkPmm bm t u _ n kb ke bf bl x1 x2 x3 x4) := s in
  mkPmm bm t u r n kb ke bf bl x1 x2 x3 x4.
Definition with_NEXT_FIT_BYTE (n : Z) (s : Pmm) : Pmm :=
  let '(mkPmm bm t u r _ kb ke bf bl x1 x2 x3 x4) := s in
  mkPmm bm t u r n kb ke bf bl x1 x2 x3 x4.

(* ------------------------------------------------------------------ *)
(** ** Bitmap bits

    [page / 8] is in range at every call site: each is guarded by
    [page < MAX_PAGES] or iterates below a bound the configuration fixes, so
    the array index of the source never panics there. *)

Definition mark_page_used (bm : list Z) (page : nat) : list Z :=
  <[(page / 8)%nat :=
      (bm !!! (page / 8)%nat) .| (1 .<< Z.of_nat (page mod 8))]> bm.

Definition mark_page_free (bm : list Z) (page : nat) : list Z :=
  <[(page / 8)%nat :=
      (bm !!! (page / 8)%nat) .& notw 8 (1 .<< Z.of_nat (page mod 8))]> bm.

Definition is_page_used_locked (bm : list Z) (page : nat) : bool :=
  negb ((bm !!! (page / 8)%nat) .& (1 .<< Z.of_nat (page mod 8)) =? 0).


(* ------------------------------------------------------------------ *)
(** ** Initialisation *)

Inductive MemoryType :=
  | Reserved | Available | AcpiReclaimable | AcpiNvs | Kernel | Bootloader
  | Framebuffer.

#[global] Instance MemoryType_eq_dec : EqDecision MemoryType.
Proof. solve_decision. Defined.

Record MemoryMapEntry := mkEntry {
  memory_type : MemoryType;
  physical_start : Z;
  page_count : Z
}.

(** The fields of [BootInfo] that [init] reads. *)
Record BootInfo := mkBootInfo {
  memory_map : list MemoryMapEntry;
  entry_count : Z;
  kernel_phys_base : Z;
  kernel_size : Z
}.

Definition BOOT_INFO_PHYS_BASE : Z := 0x1000000.
Definition KERNEL_VIRT_BASE : Z := 0xFFFF800000000000.

(** [size_of::<BootInfo>()] for the [repr(C)] layout: magic, the 32-byte
    framebuffer block, 256 memory-map entries of 24 bytes with their count,
    and three more [u64]s. *)
Definition size_of_BootInfo : Z := 8 + 32 + (256 * 24 + 8) + 3 * 8.

(** The Rust range [a..b] over [usize]. *)
Definition page_range (a b : Z) : list nat := seq (Z.to_nat a) (Z.to_nat (b - a)).

(** One iteration of the [Available] loop: a frame already clear is skipped
    so that overlapping firmware entries are counted once. *)
Definition init_available_page `{PmmConfig} (acc : list Z * Z) (page : nat)
    : list Z * Z :=
  let '(bm, total_available) := acc in
  if (page <? MAX_PAGES)%nat then
    if negb (is_page_used_locked bm page) then acc
    else (mark_page_free bm page, total_available + 1)
  else acc.

Definition init_available_entry `{PmmConfig} (acc : list Z * Z) (entry : MemoryMapEntry)
    : list Z * Z :=
  if bool_decide (memory_type entry = Available) then
    let start_page := physical_start entry / PAGE_SIZE in
    fold_left init_available_page
      (page_range start_page (add64 start_page (page_count entry))) acc
  else acc.

Definition init_available `{PmmConfig} (bm : list Z) (boot_info : BootInfo) : list Z * Z :=
  fold_left init_available_entry
    (take (Z.to_nat (entry_count boot_info)) (memory_map boot_info)) (bm, 0).

(** [if !is_page_used_locked(p) { mark_page_used(p); n += 1 }], the body
    every reservation loop shares. *)
Definition reserve_page `{PmmConfig} (acc : list Z * Z) (page : nat) : list Z * Z :=
  let '(bm, n) := acc in
  if (page <? MAX_PAGES)%nat then
    if negb (is_page_used_locked bm page) then (mark_page_used bm page, n + 1)
    else acc
  else acc.

Definition reserve_pages `{PmmConfig} (pages : list nat) (acc : list Z * Z) : list Z * Z :=
  fold_left reserve_page pages acc.

(** The kernel image extent, [__kernel_end] being the linker symbol. *)
Definition kernel_image_end (boot_info : BootInfo) (kernel_end_va : Z) : Z :=
  let bss_kernel_end_phys := sat_sub kernel_end_va KERNEL_VIRT_BASE in
  let bin_kernel_end_phys :=
    sat_add64 (kernel_phys_base boot_info) (kernel_size boot_info) in
  Z.max bin_kernel_end_phys bss_kernel_end_phys.

Definition init_kernel `{PmmConfig} (boot_info : BootInfo) (kernel_end_va : Z)
    (acc : list Z * Z) : list Z * Z :=
  let kernel_start_phys := kernel_phys_base boot_info in
  let image_bytes :=
    sat_sub (kernel_image_end boot_info kernel_end_va) kernel_start_phys in
  let kernel_start := kernel_start_phys / PAGE_SIZE in
  let kernel_pages := sub64 (add64 image_bytes PAGE_SIZE) 1 / PAGE_SIZE in
  reserve_pages
    (page_range kernel_start (add64 (add64 kernel_start kernel_pages) 256)) acc.

Definition boot_info_phys_page_span : Z * Z * Z :=
  let bytes := size_of_BootInfo in
  (BOOT_INFO_PHYS_BASE / PAGE_SIZE,
   (BOOT_INFO_PHYS_BASE + sat_sub bytes 1) / PAGE_SIZE, bytes).

Definition init_boot_info `{PmmConfig} (acc : list Z * Z) : list Z * Z :=
  let '(first, last, _) := boot_info_phys_page_span in
  reserve_pages (page_range first (last + 1)) acc.

Definition init_low `{PmmConfig} (acc : list Z * Z) : list Z * Z :=
  reserve_pages (seq 0 256) acc.

(** The bootstrap-stack window around the live [rsp]; [None] when the stack
    is already in the higher half and nothing is reserved or recorded. *)
Definition bootstrap_window (rsp : Z) : option (Z * Z) :=
  if negb (rsp =? 0) && (rsp <? KERNEL_VIRT_BASE) then
    let cur_page := rsp / PAGE_SIZE in
    Some (sat_sub cur_page 128, sat_add64 cur_page 4)
  else None.

Definition init_bootstrap_stack `{PmmConfig} (rsp : Z) (acc : list Z * Z) : list Z * Z :=
  match bootstrap_window rsp with
  | Some (first, last) =>
      reserve_pages
        (filter (fun p => p <> 0%nat) (page_range first (last + 1))) acc
  | None => acc
  end.

Definition init `{PmmConfig} (boot_info : BootInfo) (kernel_end_va rsp : Z) (s : Pmm) : Pmm :=
  let '(bm, total_available) := init_available (BITMAP s) boot_info in
  let acc := init_kernel boot_info kernel_end_va (bm, 0) in
  let acc := init_boot_info acc in
  let acc := init_low acc in
  let '(bm, boot_reserved) := init_bootstrap_stack rsp acc in
  let '(first, last) :=
    match bootstrap_window rsp with
    | Some (first, last) => (first * PAGE_SIZE, last * PAGE_SIZE)
    | None => (BOOTSTRAP_STACK_PHYS_FIRST s, BOOTSTRAP_STACK_PHYS_LAST s)
    end in
  {| BITMAP := bm;
     TOTAL_PAGES := total_available;
     USED_PAGES := boot_reserved;
     RESERVED_PAGES := boot_reserved;
     NEXT_FIT_BYTE := NEXT_FIT_BYTE s;
     KERNEL_IMAGE_PHYS_BASE := kernel_phys_base boot_info;
     KERNEL_IMAGE_PHYS_END := kernel_image_end boot_info kernel_end_va;
     BOOTSTRAP_STACK_PHYS_FIRST := first;
     BOOTSTRAP_STACK_PHYS_LAST := last;
     PMM_EXHAUSTED_TOTAL := PMM_EXHAUSTED_TOTAL s;
     PMM_FREE_RESIDUAL_REFS := PMM_FREE_RESIDUAL_REFS s;
     PMM_FREE_KERNEL_STATIC_REFUSED := PMM_FREE_KERNEL_STATIC_REFUSED s;
     PMM_FREE_ALREADY_FREE := PMM_FREE_ALREADY_FREE s |}.

Definition is_kernel_static_phys (s : Pmm) (phys : Z) : bool :=
  let base := KERNEL_IMAGE_PHYS_BASE s in
  let end_ := KERNEL_IMAGE_PHYS_END s in
  negb (base =? 0) && negb (end_ =? 0) && (base <=? phys) && (phys <? end_).

(* ------------------------------------------------------------------ *)
(** ** Allocation *)

(** [for bit in 0..8]: the first clear bit of a byte. *)
Fixpoint scan_bits (b : Z) (bits : list nat) : option nat :=
  match bits with
  | [] => None
  | bit :: bits' =>
      if b .& (1 .<< Z.of_nat bit) =? 0 then Some bit else scan_bits b bits'
  end.

(** [for byte_idx in begin..begin+n]: the first frame whose bit is clear. *)
Fixpoint scan_bytes (bm : list Z) (byte_idx n : nat) : option nat :=
  match n with
  | O => None
  | S n' =>
      if negb (bm !!! byte_idx =? 255) then
        match scan_bits (bm !!! byte_idx) (seq 0 8) with
        | Some bit => Some (byte_idx * 8 + bit)%nat
        | None => scan_bytes bm (S byte_idx) n'
        end
      else scan_bytes bm (S byte_idx) n'
  end.

(** The two passes from the next-fit cursor. *)
Definition alloc_scan `{PmmConfig} (s : Pmm) : option nat :=
  let start_byte := Z.to_nat (NEXT_FIT_BYTE s) in
  match scan_bytes (BITMAP s) start_byte (BITMAP_SIZE - start_byte) with
  | Some page => Some page
  | None => scan_bytes (BITMAP s) 0 start_byte
  end.

Definition alloc_page_locked `{PmmConfig} (s : Pmm) : option Z * Pmm :=
  match alloc_scan s with
  | Some page =>
      let s := with_BITMAP (mark_page_used (BITMAP s) page) s in
      let s := with_USED_PAGES (add64 (USED_PAGES s) 1) s in
      let next := ((page / 8 + 1) mod BITMAP_SIZE)%nat in
      let s := with_NEXT_FIT_BYTE (Z.of_nat next) s in
      (Some (Z.of_nat page * PAGE_SIZE), s)
  | None => (None, s)
  end.

(** The scan of [alloc_pages]: [pages] are the frames left, [found] the
    length of the current run of clear bits and [start] its first frame. *)
Fixpoint scan_run (bm : list Z) (count : nat) (pages : list nat) (start found : nat)
    : option nat :=
  match pages with
  | [] => None
  | page :: pages' =>
      if (bm !!! (page / 8)%nat) .& (1 .<< Z.of_nat (page mod 8)) =? 0 then
        let start := if (found =? 0)%nat then page else start in
        let found := S found in
        if (found =? count)%nat then Some start
        else scan_run bm count pages' start found
      else scan_run bm count pages' start 0
  end.

Definition alloc_pages `{PmmConfig} (count : nat) (s : Pmm) : option Z * Pmm :=
  if (count =? 0)%nat then (None, s)
  else
    match scan_run (BITMAP s) count (seq 0 MAX_PAGES) 0 0 with
    | Some start =>
        let s := with_BITMAP
                   (fold_left mark_page_used (seq start count) (BITMAP s)) s in
        let s := with_USED_PAGES (add64 (USED_PAGES s) (Z.of_nat count)) s in
        (Some (Z.of_nat start * PAGE_SIZE), s)
    | None => (None, s)
    end.

Definition reserve_range `{PmmConfig} (start end_ : Z) (s : Pmm) : Pmm :=
  let start_page := start / PAGE_SIZE in
  let end_page := sub64 (add64 end_ PAGE_SIZE) 1 / PAGE_SIZE in
  let '(bm, newly_reserved) :=
    reserve_pages (page_range start_page end_page) (BITMAP s, 0) in
  let s := with_BITMAP bm s in
  if 0 <? newly_reserved then
    let s := with_USED_PAGES (add64 (USED_PAGES s) newly_reserved) s in
    with_RESERVED_PAGES (add64 (RESERVED_PAGES s) newly_reserved) s
  else s.

(* ------------------------------------------------------------------ *)
(** ** Accounting *)

Record Accounting := mkAccounting {
  acc_total : Z;
  acc_used : Z;
  acc_reserved : Z;
  counter_free : Z;
  bitmap_free : Z
}.

(** [counter_free as i64 - bitmap_free as i64]. *)
Definition to_i64 (x : Z) : Z := if x <? 2 ^ 63 then x else x - 2 ^ 64.
Definition drift (a : Accounting) : Z :=
  to_i64 (counter_free a) - to_i64 (bitmap_free a).

(** [u64::from_le_bytes]. *)
Fixpoint from_le_bytes (bs : list Z) : Z :=
  match bs with
  | [] => 0
  | b :: bs' => b .| (from_le_bytes bs' .<< 8)
  end.

(** [u64::count_zeros]. *)
Definition count_zeros (w : Z) : Z :=
  count_upto (fun i => negb (Z.testbit w (Z.of_nat i))) 64.

(** [for chunk in bitmap.chunks_exact(8)]; a trailing partial chunk is
    dropped, as [chunks_exact] does. *)
Fixpoint scan_chunks (n : nat) (bm : list Z) (bitmap_free : Z) : Z :=
  match n with
  | O => bitmap_free
  | S n' =>
      scan_chunks n' (drop 8 bm) (bitmap_free + count_zeros (from_le_bytes (take 8 bm)))
  end.

Definition free_page_count (s : Pmm) : Z := sat_sub (TOTAL_PAGES s) (USED_PAGES s).

Definition accounting_snapshot_locked (s : Pmm) : Accounting :=
  {| acc_total := TOTAL_PAGES s;
     acc_used := USED_PAGES s;
     acc_reserved := RESERVED_PAGES s;
     counter_free := sat_sub (TOTAL_PAGES s) (USED_PAGES s);
     bitmap_free := scan_chunks (length (BITMAP s) / 8) (BITMAP s) 0 |}.

(* ------------------------------------------------------------------ *)
(** ** The bitmap as a set of frames *)

(** [bm] has the array's length and holds bytes. *)
Record bitmap_ok `{PmmConfig} (bm : list Z) : Prop := {
  bitmap_len : length bm = BITMAP_SIZE;
  bitmap_bytes : Forall (in_word 8) bm
}.

(** The frame is clear, i.e. the allocator may hand it out. *)
Definition page_free (bm : list Z) (page : nat) : bool :=
  negb (is_page_used_locked bm page).

Section bitmap.
Context `{PmmConfig}.
Implicit Types (bm : list Z) (p q page : nat).

Lemma is_page_used_testbit bm p :
  is_page_used_locked bm p = Z.testbit (bm !!! (p / 8)%nat) (Z.of_nat (p mod 8)).
Proof.
  unfold is_page_used_locked. rewrite land_shiftl_1_eqb by lia.
  apply negb_involutive.
Qed.

Lemma page_index_lt p : (p < MAX_PAGES)%nat -> (p / 8 < BITMAP_SIZE)%nat.
Proof. unfold MAX_PAGES. intros. apply Nat.Div0.div_lt_upper_bound. lia. Qed.

Lemma page_index_inj p q :
  (p / 8 = q / 8)%nat -> (p mod 8 = q mod 8)%nat -> p = q.
Proof. intros H1 H2. rewrite (Nat.div_mod_eq p 8), (Nat.div_mod_eq q 8). lia. Qed.

Lemma bitmap_byte bm i : bitmap_ok bm -> (i < BITMAP_SIZE)%nat -> in_word 8 (bm !!! i).
Proof.
  intros [Hl Hb] Hi. rewrite <- Hl in Hi.
  destruct (lookup_lt_is_Some_2 bm i Hi) as [x Hx].
  rewrite (list_lookup_total_correct _ _ _ Hx). by eapply Forall_lookup_1.
Qed.

(** Writing one byte changes only the eight frames of that byte, and one
    bit of it only one frame. *)
Lemma is_page_used_insert bm p q b :
  bitmap_ok bm -> (p < MAX_PAGES)%nat ->
  (forall k, 0 <= k < 8 -> k <> Z.of_nat (p mod 8) ->
     Z.testbit b k = Z.testbit (bm !!! (p / 8)%nat) k) ->
  is_page_used_locked (<[(p / 8)%nat := b]> bm) q =
    if bool_decide (q = p) then Z.testbit b (Z.of_nat (p mod 8))
    else is_page_used_locked bm q.
Proof.
  intros Hok Hp Hb. rewrite !is_page_used_testbit.
  rewrite list_lookup_total_insert, (bitmap_len _ Hok).
  pose proof (page_index_lt p Hp). case_bool_decide as Hq.
  - subst q. by rewrite decide_True.
  - case_decide as Hd; [|done]. destruct Hd as [Hd _]. rewrite <- Hd.
    apply Hb; [pose proof (Nat.mod_upper_bound q 8); lia|].
    intros Hm. apply Hq, page_index_inj; [done|lia].
Qed.

Lemma is_page_used_mark_used bm p q :
  bitmap_ok bm -> (p < MAX_PAGES)%nat ->
  is_page_used_locked (mark_page_used bm p) q =
    bool_decide (q = p) || is_page_used_locked bm q.
Proof.
  intros Hok Hp. unfold mark_page_used. rewrite is_page_used_insert; [|done..|].
  - rewrite Z.lor_spec, testbit_shiftl_1, (bool_decide_eq_true_2 (Z.of_nat _ = _)) by lia.
    rewrite orb_true_r. by case_bool_decide.
  - intros k Hk Hne. rewrite Z.lor_spec, testbit_shiftl_1 by lia.
    by rewrite bool_decide_eq_false_2, orb_false_r.
Qed.

Lemma is_page_used_mark_free bm p q :
  bitmap_ok bm -> (p < MAX_PAGES)%nat ->
  is_page_used_locked (mark_page_free bm p) q =
    negb (bool_decide (q = p)) && is_page_used_locked bm q.
Proof.
  intros Hok Hp. unfold mark_page_free. rewrite is_page_used_insert; [|done..|].
  - rewrite Z.land_spec, testbit_notw, testbit_shiftl_1 by lia.
    rewrite (bool_decide_eq_true_2 (Z.of_nat _ = _)) by done.
    rewrite andb_false_r, andb_false_r. by case_bool_decide.
  - intros k Hk Hne. rewrite Z.land_spec, testbit_notw, testbit_shiftl_1 by lia.
    rewrite bool_decide_eq_true_2, bool_decide_eq_false_2 by lia.
    by rewrite andb_true_r.
Qed.

Lemma bitmap_ok_insert bm i b :
  bitmap_ok bm -> in_word 8 b -> bitmap_ok (<[i := b]> bm).
Proof.
  intros [Hl Hb] Hw. split; [by rewrite length_insert|].
  by apply Forall_insert.
Qed.

Lemma bitmap_ok_mark_used bm p :
  bitmap_ok bm -> (p < MAX_PAGES)%nat -> bitmap_ok (mark_page_used bm p).
Proof.
  intros Hok Hp. apply bitmap_ok_insert; [done|]. apply in_word_lor; [done| |].
  - apply bitmap_byte; [done|]. by apply page_index_lt.
  - rewrite Z.shiftl_1_l. split; [apply Z.pow_nonneg; lia|].
    apply Z.pow_lt_mono_r; pose proof (Nat.mod_upper_bound p 8); lia.
Qed.

Lemma bitmap_ok_mark_free bm p :
  bitmap_ok bm -> (p < MAX_PAGES)%nat -> bitmap_ok (mark_page_free bm p).
Proof.
  intros Hok Hp. apply bitmap_ok_insert; [done|]. apply in_word_land_l; [done|].
  apply bitmap_byte; [done|]. by apply page_index_lt.
Qed.

Lemma bitmap_ok_static : bitmap_ok (BITMAP pmm_static).
Proof.
  split; simpl; [apply length_replicate|].
  apply Forall_replicate. unfold in_word. lia.
Qed.

Lemma static_all_used p : (p < MAX_PAGES)%nat -> is_page_used_locked (BITMAP pmm_static) p = true.
Proof.
  intros Hp. rewrite is_page_used_testbit. simpl.
  rewrite lookup_total_replicate_2 by by apply page_index_lt.
  pose proof (Nat.mod_upper_bound p 8). replace 255 with (Z.ones 8) by done.
  apply Z.ones_spec_low. lia.
Qed.

End bitmap.

Create HintDb pmm discriminated.
#[export] Hint Resolve bitmap_ok_mark_used bitmap_ok_mark_free bitmap_ok_static
  page_index_lt : pmm.

(* ------------------------------------------------------------------ *)
(** ** The allocator's scans find the first clear bit of their interval *)

(** [r] is the least frame of [[lo, hi)] that [f] selects. *)
Definition first_in (f : nat -> bool) (lo hi : nat) (r : option nat) : Prop :=
  match r with
  | Some p => (lo <= p < hi)%nat /\ f p = true /\
              forall q, (lo <= q < p)%nat -> f q = false
  | None => forall q, (lo <= q < hi)%nat -> f q = false
  end.

Section scans.
Context `{PmmConfig}.
Implicit Types (bm : list Z) (p q page : nat).

Lemma first_in_app f lo mid hi r :
  (lo <= mid <= hi)%nat ->
  (forall q, (lo <= q < mid)%nat -> f q = false) ->
  first_in f mid hi r -> first_in f lo hi r.
Proof.
  intros Hm Hlo Hr. destruct r as [p|]; simpl in *.
  - destruct Hr as (Hp & Hf & Hq). split_and!; [lia|lia|done|].
    intros q Hq'. destruct (decide (q < mid)%nat); [apply Hlo|apply Hq]; lia.
  - intros q Hq'. destruct (decide (q < mid)%nat); [apply Hlo|apply Hr]; lia.
Qed.

Lemma first_in_weaken f lo mid hi p :
  (mid <= hi)%nat -> first_in f lo mid (Some p) -> first_in f lo hi (Some p).
Proof. intros Hm (Hp & Hf & Hq). by split_and!; [lia|lia| |]. Qed.

Lemma scan_bits_first b lo n :
  first_in (fun k => negb (Z.testbit b (Z.of_nat k))) lo (lo + n)
    (scan_bits b (seq lo n)).
Proof.
  revert lo. induction n as [|n IH]; intros lo; simpl; [intros q Hq; lia|].
  rewrite land_shiftl_1_eqb by lia.
  destruct (Z.testbit b (Z.of_nat lo)) eqn:E; simpl.
  - apply first_in_app with (mid := S lo); [lia| |].
    + intros q Hq. replace q with lo by lia. by rewrite E.
    + replace (lo + S n)%nat with (S lo + n)%nat by lia. apply IH.
  - split_and!; [lia|lia|by rewrite E|lia].
Qed.

Lemma page_free_testbit bm p :
  page_free bm p = negb (Z.testbit (bm !!! (p / 8)%nat) (Z.of_nat (p mod 8))).
Proof. unfold page_free. by rewrite is_page_used_testbit. Qed.

Lemma page_free_split bm i k :
  (k < 8)%nat ->
  page_free bm (i * 8 + k) = negb (Z.testbit (bm !!! i) (Z.of_nat k)).
Proof.
  intros Hk. rewrite page_free_testbit.
  rewrite Nat.div_add_l, Nat.div_small, Nat.add_0_r by lia.
  by rewrite Nat.add_comm, Nat.Div0.mod_add, Nat.mod_small by lia.
Qed.

Lemma page_split p i : (i * 8 <= p < i * 8 + 8)%nat -> exists k, (k < 8)%nat /\ p = (i * 8 + k)%nat.
Proof. intros Hp. exists (p - i * 8)%nat. lia. Qed.

(** One byte: the bit scan restated on frames. *)
Lemma scan_byte_first bm i :
  first_in (page_free bm) (i * 8) (i * 8 + 8)
    ((fun k => (i * 8 + k)%nat) <$> scan_bits (bm !!! i) (seq 0 8)).
Proof.
  pose proof (scan_bits_first (bm !!! i) 0 8) as Hs. simpl Nat.add in Hs.
  destruct (scan_bits _ _) as [k|]; simpl in *.
  - destruct Hs as (Hk & Hf & Hq). split_and!; [lia|lia|by rewrite page_free_split by lia|].
    intros q Hq'. destruct (page_split q i) as (j & Hj & ->); [lia|].
    rewrite page_free_split by done. apply Hq. lia.
  - intros q Hq'. destruct (page_split q i) as (j & Hj & ->); [lia|].
    rewrite page_free_split by done. apply Hs. lia.
Qed.

Lemma full_byte_used bm i q :
  bm !!! i = 255 -> (i * 8 <= q < i * 8 + 8)%nat -> page_free bm q = false.
Proof.
  intros Hb Hq. destruct (page_split q i) as (k & Hk & ->); [lia|].
  rewrite page_free_split, Hb by done. replace 255 with (Z.ones 8) by done.
  rewrite Z.ones_spec_low by lia. done.
Qed.

Lemma scan_bytes_first bm i n :
  first_in (page_free bm) (i * 8) ((i + n) * 8) (scan_bytes bm i n).
Proof.
  revert i. induction n as [|n IH]; intros i; cbn [scan_bytes]; [intros q Hq; lia|].
  specialize (IH (S i)). replace (S i + n)%nat with (i + S n)%nat in IH by lia.
  destruct (bm !!! i =? 255) eqn:E; cbn [negb].
  - apply Z.eqb_eq in E. apply first_in_app with (mid := (S i * 8)%nat); [lia| |done].
    intros q Hq. eapply full_byte_used; [done|lia].
  - pose proof (scan_byte_first bm i) as Hs.
    destruct (scan_bits _ _) as [k|].
    + apply first_in_weaken with (mid := (i * 8 + 8)%nat); [lia|done].
    + apply first_in_app with (mid := (S i * 8)%nat); [lia| |done].
      intros q Hq. apply Hs. lia.
Qed.

(** The allocator scans the whole bitmap: it fails only if no frame is free,
    and what it returns is free and in range. *)
Lemma alloc_scan_spec s :
  0 <= NEXT_FIT_BYTE s < Z.of_nat BITMAP_SIZE ->
  match alloc_scan s with
  | Some p => (p < MAX_PAGES)%nat /\ page_free (BITMAP s) p = true
  | None => forall q, (q < MAX_PAGES)%nat -> page_free (BITMAP s) q = false
  end.
Proof.
  intros Hc. unfold alloc_scan, MAX_PAGES. set (i := Z.to_nat (NEXT_FIT_BYTE s)).
  pose proof (scan_bytes_first (BITMAP s) i (BITMAP_SIZE - i)) as H1.
  pose proof (scan_bytes_first (BITMAP s) 0 i) as H2. simpl in H2.
  replace (i + (BITMAP_SIZE - i))%nat with BITMAP_SIZE in H1 by lia.
  destruct (scan_bytes _ i _) as [p|]; simpl in H1; [by destruct H1 as (? & ? & ?); split; [lia|]|].
  destruct (scan_bytes _ 0 _) as [p|]; simpl in H2; [by destruct H2 as (? & ? & ?); split; [lia|]|].
  intros q Hq. destruct (decide (q < i * 8)%nat); [apply H2|apply H1]; lia.
Qed.

(** [start .. start + count] is a run of free frames below [hi]. *)
Definition free_run bm (count start hi : nat) : Prop :=
  (start + count <= hi)%nat /\
  forall q, (start <= q < start + count)%nat -> page_free bm q = true.

(** Loop invariant of [alloc_pages]: the last [found] frames scanned are
    free, and no run starts before them. *)
Lemma scan_run_spec bm count n page start found :
  (found < count)%nat -> (found <= page)%nat ->
  ((0 < found)%nat -> start = (page - found)%nat) ->
  (forall q, (page - found <= q < page)%nat -> page_free bm q = true) ->
  (forall s hi, (s < page - found)%nat -> ~ free_run bm count s hi) ->
  match scan_run bm count (seq page n) start found with
  | Some s => free_run bm count s (page + n) /\
              forall s' hi, (s' < s)%nat -> ~ free_run bm count s' hi
  | None => forall s, ~ free_run bm count s (page + n)
  end.
Proof.
  revert page start found.
  induction n as [|n IH]; intros page start found Hf Hfp Hst Hfree Hno; cbn [seq scan_run].
  { intros s [Hb Hr]. destruct (decide (s < page - found)%nat) as [Hs|Hs]; [|lia].
    by apply (Hno s (page + 0)%nat Hs). }
  specialize (IH (S page)). replace (S page + n)%nat with (page + S n)%nat in IH by lia.
  rewrite land_shiftl_1_eqb by lia. rewrite <- page_free_testbit.
  destruct (page_free bm page) eqn:Ep.
  - assert ((if (found =? 0)%nat then page else start) = (page - found)%nat) as ->.
    { destruct (Nat.eqb_spec found 0); [subst; lia|apply Hst; lia]. }
    assert (forall q, (page - found <= q < S page)%nat -> page_free bm q = true) as Hfree'.
    { intros q Hq. destruct (decide (q = page)) as [->|]; [done|]. apply Hfree. lia. }
    destruct (Nat.eqb_spec (S found) count) as [<-|Hne].
    + split; [|done]. split; [lia|]. intros q Hq. apply Hfree'. lia.
    + apply IH; [lia|lia|by intros _|done|done].
  - apply IH; [lia|lia|lia|intros q Hq; lia|].
    intros s hi Hs [Hb Hr]. destruct (decide (s < page - found)%nat) as [Hlt|Hge].
    + by apply (Hno s hi Hlt).
    + rewrite Hr in Ep; [done|lia].
Qed.

Lemma alloc_pages_scan_spec s count :
  (0 < count)%nat ->
  match scan_run (BITMAP s) count (seq 0 MAX_PAGES) 0 0 with
  | Some start => free_run (BITMAP s) count start MAX_PAGES /\
                  forall s' hi, (s' < start)%nat -> ~ free_run (BITMAP s) count s' hi
  | None => forall start, ~ free_run (BITMAP s) count start MAX_PAGES
  end.
Proof. intros Hc. apply (scan_run_spec _ _ MAX_PAGES 0); [lia..| |]; intros; lia. Qed.

End scans.

(* ------------------------------------------------------------------ *)
(** ** Marking and the reservation loops, frame by frame *)

Section reservation.
Context `{PmmConfig}.
Implicit Types (bm : list Z) (p q page : nat).

Lemma page_free_mark_used bm p q :
  bitmap_ok bm -> (p < MAX_PAGES)%nat ->
  page_free (mark_page_used bm p) q = negb (bool_decide (q = p)) && page_free bm q.
Proof.
  intros. unfold page_free. rewrite is_page_used_mark_used by done. apply negb_orb.
Qed.

Lemma page_free_mark_free bm p q :
  bitmap_ok bm -> (p < MAX_PAGES)%nat ->
  page_free (mark_page_free bm p) q = bool_decide (q = p) || page_free bm q.
Proof.
  intros. unfold page_free. rewrite is_page_used_mark_free by done.
  rewrite negb_andb. by rewrite negb_involutive.
Qed.

Lemma page_free_used bm p : page_free bm p = true <-> is_page_used_locked bm p = false.
Proof. unfold page_free. by rewrite negb_true_iff. Qed.

Lemma MAX_PAGES_u64 : Z.of_nat MAX_PAGES * PAGE_SIZE <= U64_MAX.
Proof. unfold MAX_PAGES, PAGE_SIZE. pose proof BITMAP_SIZE_max. lia. Qed.

Lemma reserve_page_spec bm n page :
  bitmap_ok bm ->
  bitmap_ok (fst (reserve_page (bm, n) page)) /\
  forall q, (q < MAX_PAGES)%nat ->
    page_free (fst (reserve_page (bm, n) page)) q =
      negb (bool_decide (q = page)) && page_free bm q.
Proof.
  intros Hok. unfold reserve_page. destruct (Nat.ltb_spec page MAX_PAGES).
  - fold (page_free bm page). destruct (page_free bm page) eqn:E; simpl.
    + split; [auto with pmm|]. intros q _. by apply page_free_mark_used.
    + split; [done|]. intros q _. case_bool_decide; [by subst|done].
  - split; [done|]. intros q Hq. rewrite bool_decide_eq_false_2; [done|lia].
Qed.

Lemma reserve_pages_cons page pages acc :
  reserve_pages (page :: pages) acc = reserve_pages pages (reserve_page acc page).
Proof. done. Qed.

Lemma reserve_pages_spec pages bm n :
  bitmap_ok bm ->
  bitmap_ok (fst (reserve_pages pages (bm, n))) /\
  forall q, (q < MAX_PAGES)%nat ->
    page_free (fst (reserve_pages pages (bm, n))) q =
      page_free bm q && negb (bool_decide (q ∈ pages)).
Proof.
  revert bm n. induction pages as [|page pages IH]; intros bm n Hok.
  - split; [done|]. intros q Hq. rewrite bool_decide_eq_false_2 by set_solver.
    by rewrite andb_true_r.
  - rewrite reserve_pages_cons. pose proof (reserve_page_spec bm n page Hok) as [Hok' Hq'].
    destruct (reserve_page (bm, n) page) as [bm' n']. simpl in *.
    destruct (IH bm' n' Hok') as [Hok'' Hq'']. split; [done|]. intros q Hq.
    rewrite Hq'', Hq' by done. rewrite (andb_comm (negb _)), <- andb_assoc. f_equal.
    rewrite <- negb_orb. f_equal.
    rewrite (bool_decide_ext (q ∈ page :: pages) (q = page \/ q ∈ pages)) by set_solver.
    symmetry. apply bool_decide_or.
Qed.

(** Reserving counts on top of any starting value of the accumulator. *)
Lemma reserve_pages_shift pages bm n k :
  fst (reserve_pages pages (bm, n + k)) = fst (reserve_pages pages (bm, n)) /\
  snd (reserve_pages pages (bm, n + k)) = snd (reserve_pages pages (bm, n)) + k.
Proof.
  revert bm n. induction pages as [|page pages IH]; intros bm n; [done|].
  rewrite !reserve_pages_cons. unfold reserve_page.
  destruct (page <? MAX_PAGES)%nat; [|apply IH].
  destruct (is_page_used_locked bm page); simpl; [apply IH|].
  replace (n + k + 1) with (n + 1 + k) by lia. apply IH.
Qed.

Lemma reserve_pages_nonneg pages bm n :
  0 <= n -> 0 <= snd (reserve_pages pages (bm, n)).
Proof.
  revert bm n. induction pages as [|page pages IH]; intros bm n Hn; [done|].
  rewrite reserve_pages_cons. unfold reserve_page. repeat case_match; apply IH; lia.
Qed.

End reservation.

(* ------------------------------------------------------------------ *)
(** ** The ledger: counters against the bitmap

    [managed] is the allocator's domain, the frames the firmware offered. *)

Record ledger `{PmmConfig} (managed : nat -> bool) (bm : list Z) (used : Z) : Prop := {
  ledger_ok : bitmap_ok bm;
  ledger_dom : forall p, (p < MAX_PAGES)%nat -> page_free bm p = true -> managed p = true;
  ledger_used :
    used = count_upto (fun p => managed p && is_page_used_locked bm p) MAX_PAGES
}.

(** The invariant documented on [USED_PAGES], with the next-fit cursor in
    range. *)
Record accounted `{PmmConfig} (managed : nat -> bool) (s : Pmm) : Prop := {
  accounted_ledger : ledger managed (BITMAP s) (USED_PAGES s);
  accounted_total : TOTAL_PAGES s = count_upto managed MAX_PAGES;
  accounted_cursor : 0 <= NEXT_FIT_BYTE s < Z.of_nat BITMAP_SIZE
}.

Section ledger.
Context `{PmmConfig} (managed : nat -> bool).
Implicit Types (bm : list Z) (p q page : nat) (s : Pmm).

(** Setting the bit of a free frame adds one to the used count. *)
Lemma ledger_mark_used bm n p :
  ledger managed bm n -> (p < MAX_PAGES)%nat -> page_free bm p = true ->
  ledger managed (mark_page_used bm p) (n + 1).
Proof.
  intros [Hok Hdom ->] Hp Hfree. split; [auto with pmm| |].
  - intros q Hq. rewrite page_free_mark_used by done.
    intros [_ Hq']%andb_true_iff. auto.
  - symmetry. apply count_upto_set with p; [done| | |].
    + apply page_free_used in Hfree. by rewrite Hfree, andb_false_r.
    + rewrite (Hdom p Hp Hfree), is_page_used_mark_used by done.
      by rewrite bool_decide_eq_true_2.
    + intros q Hq. rewrite is_page_used_mark_used by done.
      by rewrite bool_decide_eq_false_2.
Qed.

(** Clearing the bit of a used frame of the domain subtracts one. *)
Lemma ledger_mark_free bm n p :
  ledger managed bm n -> (p < MAX_PAGES)%nat -> managed p = true ->
  is_page_used_locked bm p = true ->
  ledger managed (mark_page_free bm p) (n - 1) /\ 1 <= n.
Proof.
  intros [Hok Hdom ->] Hp Hm Hu. split; [split; [auto with pmm| |]|].
  - intros q Hq. rewrite page_free_mark_free by done.
    case_bool_decide; [by subst|]. auto.
  - rewrite (count_upto_set
      (fun q => managed q && is_page_used_locked (mark_page_free bm p) q)
      (fun q => managed q && is_page_used_locked bm q) MAX_PAGES p); [lia|done| | |].
    + rewrite is_page_used_mark_free, bool_decide_eq_true_2 by done.
      apply andb_false_r.
    + by rewrite Hm, Hu.
    + intros q Hq. rewrite is_page_used_mark_free by done.
      by rewrite bool_decide_eq_false_2.
  - apply count_upto_pos with p; [done|]. by rewrite Hm, Hu.
Qed.

(** The domain splits into the used and the free frames. *)
Lemma ledger_split bm n :
  ledger managed bm n ->
  count_upto managed MAX_PAGES = n + count_upto (page_free bm) MAX_PAGES.
Proof.
  intros [Hok Hdom ->].
  rewrite (count_upto_split managed (is_page_used_locked bm)).
  f_equal. apply count_upto_ext. intros p Hp.
  change (negb (is_page_used_locked bm p)) with (page_free bm p).
  destruct (page_free bm p) eqn:E; [by rewrite (Hdom p)|apply andb_false_r].
Qed.

Lemma accounted_bounds s :
  accounted managed s ->
  0 <= USED_PAGES s <= TOTAL_PAGES s /\ TOTAL_PAGES s <= Z.of_nat MAX_PAGES /\
  TOTAL_PAGES s - USED_PAGES s = count_upto (page_free (BITMAP s)) MAX_PAGES.
Proof.
  intros [Hl -> _]. pose proof (ledger_split _ _ Hl).
  pose proof (count_upto_range managed MAX_PAGES).
  pose proof (count_upto_range (page_free (BITMAP s)) MAX_PAGES).
  destruct Hl as [_ _ Hu].
  pose proof (count_upto_range
    (fun p => managed p && is_page_used_locked (BITMAP s) p) MAX_PAGES).
  rewrite <- Hu in *. lia.
Qed.

(** *** Reservation loops *)

Lemma ledger_reserve_page bm n page :
  ledger managed bm n ->
  ledger managed (fst (reserve_page (bm, n) page)) (snd (reserve_page (bm, n) page)).
Proof.
  intros Hl. unfold reserve_page. destruct (Nat.ltb_spec page MAX_PAGES); [|done].
  fold (page_free bm page). destruct (page_free bm page) eqn:E; [|done].
  by apply ledger_mark_used.
Qed.

Lemma ledger_reserve_pages pages bm n :
  ledger managed bm n ->
  ledger managed (fst (reserve_pages pages (bm, n))) (snd (reserve_pages pages (bm, n))).
Proof.
  revert bm n. induction pages as [|page pages IH]; intros bm n Hl; [done|].
  rewrite reserve_pages_cons. pose proof (ledger_reserve_page bm n page Hl) as Hl'.
  destruct (reserve_page (bm, n) page). by apply IH.
Qed.

End ledger.

(* ------------------------------------------------------------------ *)
(** ** The accounting snapshot counts the clear bits *)

Section snapshot.
Context `{PmmConfig}.
Implicit Types (bm : list Z).

Lemma from_le_bytes_nonneg bs : Forall (in_word 8) bs -> 0 <= from_le_bytes bs.
Proof.
  induction 1 as [|b bs [Hb _] _ IH]; simpl; [done|].
  apply Z.lor_nonneg. split; [done|]. by apply Z.shiftl_nonneg.
Qed.

(** Bit [8 i + k] of the little-endian word is bit [k] of byte [i]. *)
Lemma from_le_bytes_testbit bs i k :
  Forall (in_word 8) bs -> (i < length bs)%nat -> (k < 8)%nat ->
  Z.testbit (from_le_bytes bs) (Z.of_nat (i * 8 + k)) =
  Z.testbit (bs !!! i) (Z.of_nat k).
Proof.
  intros Hb. revert i. induction Hb as [|b bs Hb Hbs IH]; intros i Hi Hk; [simpl in Hi; lia|].
  cbn [from_le_bytes]. rewrite Z.lor_spec. destruct i as [|i].
  - rewrite Z.shiftl_spec_low by lia. rewrite orb_false_r. done.
  - rewrite (testbit_word_high 8 b), Z.shiftl_spec by (done || lia). simpl orb.
    change ((b :: bs) !!! S i) with (bs !!! i). rewrite <- IH by (simpl in *; lia).
    f_equal. lia.
Qed.

Lemma count_zeros_chunk bm :
  Forall (in_word 8) bm -> (8 <= length bm)%nat ->
  count_zeros (from_le_bytes (take 8 bm)) = count_upto (page_free bm) 64.
Proof.
  intros Hb Hl. apply count_upto_ext. intros p Hp.
  destruct (page_split p (p / 8)%nat) as (k & Hk & Hpk).
  { pose proof (Nat.div_mod_eq p 8). pose proof (Nat.mod_upper_bound p 8). lia. }
  rewrite Hpk. rewrite page_free_split by done. f_equal.
  rewrite from_le_bytes_testbit; [|by apply Forall_take| |done].
  - rewrite !list_lookup_total_alt, lookup_take_lt; [done|].
    apply Nat.Div0.div_lt_upper_bound. lia.
  - rewrite length_take. assert (p / 8 < 8)%nat by (apply Nat.Div0.div_lt_upper_bound; lia). lia.
Qed.

Lemma page_free_drop bm p : page_free (drop 8 bm) p = page_free bm (64 + p).
Proof.
  rewrite !page_free_testbit. replace (64 + p)%nat with (p + 8 * 8)%nat by lia.
  rewrite Nat.div_add, Nat.Div0.mod_add by lia.
  rewrite !list_lookup_total_alt, lookup_drop. by rewrite Nat.add_comm.
Qed.

Lemma scan_chunks_count n bm acc :
  Forall (in_word 8) bm -> (8 * n <= length bm)%nat ->
  scan_chunks n bm acc = acc + count_upto (page_free bm) (64 * n).
Proof.
  revert bm acc. induction n as [|n IH]; intros bm acc Hb Hl; cbn [scan_chunks].
  { by rewrite Nat.mul_0_r, Z.add_0_r. }
  rewrite IH; [|by apply Forall_drop|rewrite length_drop; lia].
  rewrite count_zeros_chunk by (done || lia).
  replace (64 * S n)%nat with (64 + 64 * n)%nat by lia.
  rewrite count_upto_add, Z.add_assoc. f_equal. apply count_upto_ext.
  intros i _. apply page_free_drop.
Qed.

Lemma bitmap_free_count s :
  bitmap_ok (BITMAP s) ->
  bitmap_free (accounting_snapshot_locked s) =
  count_upto (page_free (BITMAP s)) MAX_PAGES.
Proof.
  intros [Hl Hb]. simpl. rewrite Hl. destruct BITMAP_SIZE_words as [w Hw].
  replace (BITMAP_SIZE / 8)%nat with w
    by (rewrite Hw, Nat.mul_comm, Nat.div_mul by lia; done).
  rewrite scan_chunks_count by (done || lia). rewrite Z.add_0_l.
  f_equal. unfold MAX_PAGES. lia.
Qed.

Lemma accounted_drift managed s :
  accounted managed s -> drift (accounting_snapshot_locked s) = 0.
Proof.
  intros Ha. pose proof (accounted_bounds managed s Ha) as (Hu & Ht & Hd).
  unfold drift. rewrite bitmap_free_count by apply (ledger_ok _ _ _ (accounted_ledger _ _ Ha)).
  simpl. unfold sat_sub. rewrite Z.max_l, Hd by lia. lia.
Qed.

End snapshot.

(* ------------------------------------------------------------------ *)
(** ** Every operation keeps the ledger *)

Section preservation.
Context `{PmmConfig} (managed : nat -> bool).
Implicit Types (s : Pmm).

Lemma accounted_alloc_page s :
  accounted managed s -> accounted managed (snd (alloc_page_locked s)).
Proof.
  intros Ha. pose proof (accounted_bounds _ _ Ha) as (Hu & Ht & _).
  pose proof MAX_PAGES_u64. unfold PAGE_SIZE in *. destruct Ha as [Hl Htot Hc].
  pose proof (alloc_scan_spec s Hc) as Hs. unfold alloc_page_locked.
  destruct (alloc_scan s) as [p|]; [|by split].
  destruct Hs as [Hp Hf]. destruct s; simpl in *. split; simpl; [|done|].
  - rewrite add64_small by (unfold U64_MAX in *; lia). by apply ledger_mark_used.
  - pose proof (Nat.mod_upper_bound (p / 8 + 1) BITMAP_SIZE).
    pose proof BITMAP_SIZE_min. lia.
Qed.

Lemma mark_run_ledger bm n start count :
  ledger managed bm n -> (start + count <= MAX_PAGES)%nat ->
  (forall q, (start <= q < start + count)%nat -> page_free bm q = true) ->
  ledger managed (fold_left mark_page_used (seq start count) bm) (n + Z.of_nat count).
Proof.
  revert bm n start. induction count as [|count IH]; intros bm n start Hl Hb Hf.
  { simpl. by rewrite Z.add_0_r. }
  cbn [seq fold_left]. rewrite Nat2Z.inj_succ.
  replace (n + Z.succ (Z.of_nat count)) with (n + 1 + Z.of_nat count) by lia.
  apply IH; [|lia|].
  - apply ledger_mark_used; [done|lia|]. apply Hf. lia.
  - intros q Hq. rewrite page_free_mark_used by (apply Hl || lia).
    rewrite bool_decide_eq_false_2 by lia. simpl. apply Hf. lia.
Qed.

Lemma accounted_alloc_pages s count :
  accounted managed s -> accounted managed (snd (alloc_pages count s)).
Proof.
  intros Ha. pose proof (accounted_bounds _ _ Ha) as (Hu & Ht & _).
  pose proof MAX_PAGES_u64. unfold PAGE_SIZE in *. destruct Ha as [Hl Htot Hc].
  unfold alloc_pages. destruct (Nat.eqb_spec count 0); [by split|].
  pose proof (alloc_pages_scan_spec s count ltac:(lia)) as Hs.
  destruct (scan_run _ _ _ _ _) as [start|]; [|by split].
  destruct Hs as [[Hb Hr] _]. destruct s; simpl in *. split; simpl; [|done|done].
  rewrite add64_small by (unfold U64_MAX in *; lia). by apply mark_run_ledger.
Qed.

Lemma accounted_reserve_range s a b :
  accounted managed s -> accounted managed (reserve_range a b s).
Proof.
  intros Ha. destruct Ha as [Hl Htot Hc]. unfold reserve_range.
  set (pages := page_range _ _).
  pose proof (ledger_reserve_pages managed pages _ _ Hl) as Hl'.
  pose proof (reserve_pages_shift pages (BITMAP s) 0 (USED_PAGES s)) as [E1 E2].
  rewrite Z.add_0_l in E1, E2. rewrite E1, E2 in Hl'.
  destruct (reserve_pages pages (BITMAP s, 0)) as [bm k] eqn:E. simpl in Hl'.
  assert (accounted managed (with_BITMAP bm (with_USED_PAGES (k + USED_PAGES s) s))) as Ha'.
  { destruct s. by split. }
  pose proof (accounted_bounds _ _ Ha') as (Hu & Ht & _).
  pose proof MAX_PAGES_u64. unfold PAGE_SIZE in *.
  pose proof (reserve_pages_nonneg pages (BITMAP s) 0 ltac:(lia)) as Hk.
  rewrite E in Hk. simpl in Hk.
  destruct (Z.ltb_spec 0 k); destruct s; simpl in *.
  - split; simpl; [|done|done]. rewrite add64_small by (unfold U64_MAX in *; lia).
    by rewrite Z.add_comm.
  - replace k with 0 in Hl' by lia. by split.
Qed.

End preservation.

(* ------------------------------------------------------------------ *)
(** ** Initialisation *)

(** The firmware offers frame [p] in some [Available] entry. *)
Definition firmware_available (boot_info : BootInfo) (p : nat) : bool :=
  existsb (fun e =>
    let start_page := physical_start e / PAGE_SIZE in
    bool_decide (memory_type e = Available) &&
    (start_page <=? Z.of_nat p) && (Z.of_nat p <? add64 start_page (page_count e)))
    (take (Z.to_nat (entry_count boot_info)) (memory_map boot_info)).

(** Frames the boot reservations withdraw: the kernel image with its 256
    frames of slack, the [BootInfo] block, the low 1 MiB and the bootstrap
    stack window. *)
Definition kernel_frame (boot_info : BootInfo) (kernel_end_va : Z) (p : nat) : bool :=
  let base := kernel_phys_base boot_info in
  let image_bytes := sat_sub (kernel_image_end boot_info kernel_end_va) base in
  (base / PAGE_SIZE <=? Z.of_nat p) &&
  (Z.of_nat p <? base / PAGE_SIZE + (image_bytes + PAGE_SIZE - 1) / PAGE_SIZE + 256).

Definition boot_info_frame (p : nat) : bool :=
  (BOOT_INFO_PHYS_BASE / PAGE_SIZE <=? Z.of_nat p) &&
  (Z.of_nat p <=? (BOOT_INFO_PHYS_BASE + size_of_BootInfo - 1) / PAGE_SIZE).

Definition low_frame (p : nat) : bool := (p <? 256)%nat.

Definition stack_frame (rsp : Z) (p : nat) : bool :=
  match bootstrap_window rsp with
  | Some (first, last) =>
      negb (p =? 0)%nat && (first <=? Z.of_nat p) && (Z.of_nat p <=? last)
  | None => false
  end.

Definition boot_reserved (boot_info : BootInfo) (kernel_end_va rsp : Z) (p : nat) : bool :=
  kernel_frame boot_info kernel_end_va p || boot_info_frame p || low_frame p ||
  stack_frame rsp p.

(** What [init] assumes of its inputs: addresses far below the top of the
    64-bit space. *)
Record boot_info_ok (boot_info : BootInfo) (kernel_end_va : Z) : Prop := {
  boot_base_ok : 0 <= kernel_phys_base boot_info;
  boot_image_ok : kernel_image_end boot_info kernel_end_va < 2 ^ 56;
  boot_base_image : kernel_phys_base boot_info < 2 ^ 56;
  boot_entries_ok :
    Forall (fun e => 0 <= physical_start e < 2 ^ 64) (memory_map boot_info)
}.

Section init.
Context `{PmmConfig}.
Implicit Types (bm : list Z) (p q page : nat).

Lemma elem_of_page_range a b p :
  0 <= a -> p ∈ page_range a b <-> a <= Z.of_nat p < b.
Proof. intros Ha. unfold page_range. rewrite elem_of_seq. lia. Qed.

Definition free_count bm : Z := count_upto (page_free bm) MAX_PAGES.

(** The domain loop clears exactly the given frames and counts the newly
    clear ones. *)
Definition clears (P : nat -> bool) bm (acc : list Z * Z) (n : Z) : Prop :=
  bitmap_ok (fst acc) /\
  (forall q, (q < MAX_PAGES)%nat -> page_free (fst acc) q = page_free bm q || P q) /\
  snd acc = n + free_count (fst acc) - free_count bm.

Lemma clears_trans P Q bm acc acc' n :
  clears P bm acc n -> clears Q (fst acc) acc' (snd acc) ->
  clears (fun q => P q || Q q) bm acc' n.
Proof.
  intros (H1 & H2 & H3) (H4 & H5 & H6). split_and!; [done| |lia].
  intros q Hq. by rewrite H5, H2, orb_assoc.
Qed.

Lemma clears_ext P Q bm acc n :
  (forall q, (q < MAX_PAGES)%nat -> P q = Q q) -> clears P bm acc n -> clears Q bm acc n.
Proof.
  intros HPQ (H1 & H2 & H3). split_and!; [done| |done].
  intros q Hq. by rewrite H2, HPQ.
Qed.

Lemma clears_refl bm n : bitmap_ok bm -> clears (fun _ => false) bm (bm, n) n.
Proof. intros. split_and!; simpl; [done| |lia]. intros q _. by rewrite orb_false_r. Qed.

Lemma init_available_page_spec bm n page :
  bitmap_ok bm ->
  clears (fun q => bool_decide (q = page)) bm (init_available_page (bm, n) page) n.
Proof.
  intros Hok. unfold init_available_page. destruct (Nat.ltb_spec page MAX_PAGES) as [Hp|Hp].
  - fold (page_free bm page). destruct (page_free bm page) eqn:E.
    + split_and!; simpl; [done| |lia]. intros q Hq.
      case_bool_decide; [subst; by rewrite E|by rewrite orb_false_r].
    + split_and!; simpl; [auto with pmm| |].
      * intros q Hq. by rewrite page_free_mark_free, orb_comm.
      * unfold free_count.
        rewrite (count_upto_set (page_free bm) (page_free (mark_page_free bm page)) MAX_PAGES page);
          [lia|done|done| |].
        -- by rewrite page_free_mark_free, bool_decide_eq_true_2.
        -- intros q Hq. by rewrite page_free_mark_free, bool_decide_eq_false_2.
  - eapply clears_ext, clears_refl; [|done]. intros q Hq. symmetry.
    apply bool_decide_eq_false_2. lia.
Qed.

(** A left fold of clearing steps clears the union of what they clear. *)
Lemma clears_fold {A} (f : list Z * Z -> A -> list Z * Z) (P : A -> nat -> bool) l bm n :
  (forall bm n x, x ∈ l -> bitmap_ok bm -> clears (P x) bm (f (bm, n) x) n) ->
  bitmap_ok bm ->
  clears (fun q => existsb (fun x => P x q) l) bm (fold_left f l (bm, n)) n.
Proof.
  revert bm n. induction l as [|x l IH]; intros bm n Hf Hok; simpl; [by apply clears_refl|].
  pose proof (Hf bm n x ltac:(set_solver) Hok) as Hx.
  eapply (clears_trans _ (fun q => existsb (fun x => P x q) l)); [exact Hx|].
  destruct (f (bm, n) x) as [bm' n'] eqn:E. simpl. apply IH; [|apply Hx].
  intros. apply Hf; [set_solver|done].
Qed.

Lemma existsb_eq_elem l q : existsb (fun x => bool_decide (q = x)) l = bool_decide (q ∈ l).
Proof.
  induction l as [|x l IH]; cbn [existsb].
  { symmetry. apply bool_decide_eq_false_2. set_solver. }
  rewrite IH, <- bool_decide_or. apply bool_decide_ext. set_solver.
Qed.

Lemma init_available_spec bm boot_info kend :
  boot_info_ok boot_info kend -> bitmap_ok bm ->
  clears (firmware_available boot_info) bm (init_available bm boot_info) 0.
Proof.
  intros Hbi Hok. unfold init_available, firmware_available.
  apply (clears_fold init_available_entry); [|done]. clear bm Hok.
  intros bm n e He Hok. unfold init_available_entry.
  case_bool_decide; [|eapply clears_ext, clears_refl; [|done]; done]. simpl.
  eapply clears_ext, (clears_fold init_available_page (fun x q => bool_decide (q = x))); [|intros; by apply init_available_page_spec|done].
  intros q Hq. cbv beta. rewrite existsb_eq_elem.
  assert (0 <= physical_start e) as Hs.
  { apply elem_of_take in He as (i & He & _). destruct Hbi as [_ _ _ Hall].
    by apply (Forall_lookup_1 _ _ _ _ Hall He). }
  apply eq_bool_prop_intro. rewrite bool_decide_spec, elem_of_page_range.
  - rewrite andb_True, !Is_true_true, Z.leb_le, Z.ltb_lt. done.
  - apply Z.div_pos; [done|]. unfold PAGE_SIZE. lia.
Qed.

Lemma count_free_zero bm :
  (forall q, (q < MAX_PAGES)%nat -> page_free bm q = false) -> free_count bm = 0.
Proof.
  intros Hq. unfold free_count. rewrite (count_upto_ext _ (fun _ => false)) by done.
  apply count_upto_false.
Qed.

Lemma static_none_free q : (q < MAX_PAGES)%nat -> page_free (BITMAP pmm_static) q = false.
Proof. intros Hq. unfold page_free. by rewrite static_all_used. Qed.

(** The four reservation loops as one list of frames. *)
Definition boot_reserved_pages (boot_info : BootInfo) (kernel_end_va rsp : Z) : list nat :=
  let base := kernel_phys_base boot_info in
  let image_bytes := sat_sub (kernel_image_end boot_info kernel_end_va) base in
  page_range (base / PAGE_SIZE)
    (add64 (add64 (base / PAGE_SIZE) (sub64 (add64 image_bytes PAGE_SIZE) 1 / PAGE_SIZE)) 256)
  ++ page_range (BOOT_INFO_PHYS_BASE / PAGE_SIZE)
       ((BOOT_INFO_PHYS_BASE + sat_sub size_of_BootInfo 1) / PAGE_SIZE + 1)
  ++ seq 0 256
  ++ match bootstrap_window rsp with
     | Some (first, last) => filter (fun p => p <> 0%nat) (page_range first (last + 1))
     | None => []
     end.

Lemma reserve_pages_app l1 l2 acc :
  reserve_pages (l1 ++ l2) acc = reserve_pages l2 (reserve_pages l1 acc).
Proof. apply fold_left_app. Qed.

Lemma reserve_pages_nil acc : reserve_pages [] acc = acc.
Proof. done. Qed.

#[local] Opaque reserve_pages.

Lemma init_reserve_all boot_info kend rsp acc :
  init_bootstrap_stack rsp (init_low (init_boot_info (init_kernel boot_info kend acc))) =
  reserve_pages (boot_reserved_pages boot_info kend rsp) acc.
Proof.
  unfold boot_reserved_pages. rewrite !reserve_pages_app.
  unfold init_bootstrap_stack, init_low, init_boot_info, init_kernel,
    boot_info_phys_page_span. cbv beta zeta iota.
  destruct (bootstrap_window rsp) as [[]|]; [|rewrite reserve_pages_nil]; reflexivity.
Qed.

Lemma div_page_bound a b : 0 <= a -> a < b * PAGE_SIZE -> 0 <= a / PAGE_SIZE < b.
Proof.
  intros H0 H1. split; [apply Z.div_pos; [done|unfold PAGE_SIZE; lia]|].
  apply Z.div_lt_upper_bound; unfold PAGE_SIZE in *; lia.
Qed.

Lemma elem_of_kernel_range boot_info kend q :
  boot_info_ok boot_info kend ->
  let base := kernel_phys_base boot_info in
  let image_bytes := sat_sub (kernel_image_end boot_info kend) base in
  q ∈ page_range (base / PAGE_SIZE)
    (add64 (add64 (base / PAGE_SIZE) (sub64 (add64 image_bytes PAGE_SIZE) 1 / PAGE_SIZE)) 256)
  <-> Is_true (kernel_frame boot_info kend q).
Proof.
  intros [Hb1 Hb2 Hb3 _] base image_bytes. unfold kernel_frame.
  fold base image_bytes. fold base in Hb1, Hb3.
  assert (0 <= image_bytes < 2 ^ 56) as Hi by (unfold image_bytes, sat_sub; lia).
  assert (sub64 (add64 image_bytes PAGE_SIZE) 1 = image_bytes + PAGE_SIZE - 1) as ->.
  { rewrite add64_small, sub64_small; unfold PAGE_SIZE, U64_MAX; lia. }
  pose proof (div_page_bound base (2 ^ 44) ltac:(lia) ltac:(unfold PAGE_SIZE; lia)) as Hk.
  pose proof (div_page_bound (image_bytes + PAGE_SIZE - 1) (2 ^ 45)
    ltac:(unfold PAGE_SIZE; lia) ltac:(unfold PAGE_SIZE; lia)) as Hj.
  generalize dependent (base / PAGE_SIZE). intros b Hb.
  generalize dependent ((image_bytes + PAGE_SIZE - 1) / PAGE_SIZE). intros n Hn.
  rewrite (add64_small b n), add64_small, elem_of_page_range by (unfold U64_MAX; lia).
  by rewrite Is_true_true, andb_true_iff, Z.leb_le, Z.ltb_lt.
Qed.

Lemma elem_of_boot_info_range q :
  q ∈ page_range (BOOT_INFO_PHYS_BASE / PAGE_SIZE)
        ((BOOT_INFO_PHYS_BASE + sat_sub size_of_BootInfo 1) / PAGE_SIZE + 1)
  <-> Is_true (boot_info_frame q).
Proof.
  unfold boot_info_frame. rewrite Is_true_true, andb_true_iff, !Z.leb_le.
  rewrite elem_of_page_range by done.
  change (BOOT_INFO_PHYS_BASE / PAGE_SIZE) with 4096.
  change ((BOOT_INFO_PHYS_BASE + sat_sub size_of_BootInfo 1) / PAGE_SIZE) with 4097.
  change ((BOOT_INFO_PHYS_BASE + size_of_BootInfo - 1) / PAGE_SIZE) with 4097. lia.
Qed.

Lemma elem_of_stack_range rsp q :
  q ∈ match bootstrap_window rsp with
      | Some (first, last) => filter (fun p => p <> 0%nat) (page_range first (last + 1))
      | None => []
      end <-> Is_true (stack_frame rsp q).
Proof.
  unfold stack_frame. destruct (bootstrap_window rsp) as [[first last]|] eqn:Ew; [|set_solver].
  assert (0 <= first).
  { unfold bootstrap_window in Ew. case_match; simplify_eq. unfold sat_sub. lia. }
  rewrite list_elem_of_filter, elem_of_page_range by done.
  rewrite Is_true_true, !andb_true_iff, negb_true_iff, Nat.eqb_neq, !Z.leb_le. lia.
Qed.

Lemma elem_of_boot_reserved boot_info kend rsp q :
  boot_info_ok boot_info kend ->
  bool_decide (q ∈ boot_reserved_pages boot_info kend rsp) =
  boot_reserved boot_info kend rsp q.
Proof.
  intros Hok. unfold boot_reserved_pages, boot_reserved.
  apply eq_bool_prop_intro. rewrite bool_decide_spec, !elem_of_app, !orb_True.
  rewrite elem_of_stack_range, elem_of_boot_info_range, elem_of_kernel_range by done.
  assert (q ∈ seq 0 256 <-> Is_true (low_frame q)) as ->.
  { unfold low_frame. rewrite elem_of_seq, Is_true_true, Nat.ltb_lt. lia. }
  tauto.
Qed.

Lemma init_fields boot_info kend rsp s :
  let avail := init_available (BITMAP s) boot_info in
  let res := reserve_pages (boot_reserved_pages boot_info kend rsp) (fst avail, 0) in
  let s' := init boot_info kend rsp s in
  BITMAP s' = fst res /\ USED_PAGES s' = snd res /\ TOTAL_PAGES s' = snd avail /\
  NEXT_FIT_BYTE s' = NEXT_FIT_BYTE s.
Proof.
  cbv zeta. unfold init.
  destruct (init_available (BITMAP s) boot_info) as [bm total].
  rewrite init_reserve_all. cbn [fst snd].
  destruct (reserve_pages _ _) as [bm' n'].
  by destruct (bootstrap_window rsp) as [[first last]|].
Qed.

(** [init] establishes the ledger over the firmware's domain. *)
Lemma init_accounted boot_info kend rsp :
  boot_info_ok boot_info kend ->
  accounted (firmware_available boot_info) (init boot_info kend rsp pmm_static).
Proof.
  intros Hbi.
  pose proof (init_fields boot_info kend rsp pmm_static) as (E1 & E2 & E3 & E4).
  pose proof (init_available_spec _ _ _ Hbi bitmap_ok_static) as (Hok & Hfree & Hn).
  destruct (init_available (BITMAP pmm_static) boot_info) as [bm total].
  cbn [fst snd] in *.
  assert (forall q, (q < MAX_PAGES)%nat -> page_free bm q = firmware_available boot_info q) as Hdom.
  { intros q Hq. by rewrite Hfree, static_none_free. }
  split; [rewrite E1, E2; apply ledger_reserve_pages; split; [done| |] |rewrite E3|rewrite E4].
  - by intros p Hp; rewrite Hdom.
  - rewrite (count_upto_ext _ (fun _ => false)); [by rewrite count_upto_false|].
    intros p Hp. rewrite <- Hdom by done. unfold page_free. apply andb_negb_l.
  - rewrite Hn, (count_free_zero (BITMAP pmm_static)) by apply static_none_free.
    rewrite Z.sub_0_r, Z.add_0_l. by apply count_upto_ext.
  - cbn. pose proof BITMAP_SIZE_min. lia.
Qed.

(** After [init] a frame is allocatable exactly if the firmware offered it
    and no boot reservation covers it. *)
Lemma init_page_free boot_info kend rsp p :
  boot_info_ok boot_info kend -> (p < MAX_PAGES)%nat ->
  page_free (BITMAP (init boot_info kend rsp pmm_static)) p =
  firmware_available boot_info p && negb (boot_reserved boot_info kend rsp p).
Proof.
  intros Hbi Hp.
  pose proof (init_fields boot_info kend rsp pmm_static) as (-> & _).
  pose proof (init_available_spec _ _ _ Hbi bitmap_ok_static) as (Hok & Hfree & _).
  destruct (init_available (BITMAP pmm_static) boot_info) as [bm total].
  cbn [fst snd] in *.
  pose proof (reserve_pages_spec (boot_reserved_pages boot_info kend rsp) bm 0 Hok) as [_ Hr].
  by rewrite Hr, Hfree, static_none_free, elem_of_boot_reserved.
Qed.

End init.

(* ------------------------------------------------------------------ *)
(** ** What the allocator entry points do, frame by frame *)

Section operations.
Context `{PmmConfig}.
Implicit Types (s : Pmm) (p q : nat).

Lemma alloc_page_locked_cases s :
  bitmap_ok (BITMAP s) -> 0 <= NEXT_FIT_BYTE s < Z.of_nat BITMAP_SIZE ->
  match alloc_page_locked s with
  | (Some addr, s') => exists p,
      addr = Z.of_nat p * PAGE_SIZE /\ (p < MAX_PAGES)%nat /\
      page_free (BITMAP s) p = true /\
      forall q, page_free (BITMAP s') q = negb (bool_decide (q = p)) && page_free (BITMAP s) q
  | (None, s') => s' = s /\ forall q, (q < MAX_PAGES)%nat -> page_free (BITMAP s) q = false
  end.
Proof.
  intros Hok Hc. pose proof (alloc_scan_spec s Hc) as Hs. unfold alloc_page_locked.
  destruct (alloc_scan s) as [p|]; [|done]. destruct Hs as [Hp Hf].
  exists p. split_and!; [done..|]. intros q. destruct s. by apply page_free_mark_used.
Qed.

Lemma page_free_mark_run bm start count q :
  bitmap_ok bm -> (start + count <= MAX_PAGES)%nat ->
  page_free (fold_left mark_page_used (seq start count) bm) q =
  negb (bool_decide (start <= q < start + count)%nat) && page_free bm q.
Proof.
  revert bm start. induction count as [|count IH]; intros bm start Hok Hb; cbn [seq fold_left].
  { rewrite bool_decide_eq_false_2 by lia. done. }
  rewrite IH by (auto with pmm lia). rewrite page_free_mark_used by (done || lia).
  rewrite andb_assoc, <- negb_orb, <- bool_decide_or. do 2 f_equal.
  apply bool_decide_ext. lia.
Qed.

Lemma alloc_pages_cases s count :
  bitmap_ok (BITMAP s) ->
  match alloc_pages count s with
  | (Some addr, s') => exists start,
      addr = Z.of_nat start * PAGE_SIZE /\ (0 < count)%nat /\
      free_run (BITMAP s) count start MAX_PAGES /\
      (forall start', (start' < start)%nat -> ~ free_run (BITMAP s) count start' MAX_PAGES) /\
      forall q, page_free (BITMAP s') q =
        negb (bool_decide (start <= q < start + count)%nat) && page_free (BITMAP s) q
  | (None, s') => s' = s /\
      (count = 0%nat \/ forall start, ~ free_run (BITMAP s) count start MAX_PAGES)
  end.
Proof.
  intros Hok. unfold alloc_pages. destruct (Nat.eqb_spec count 0); [by auto|].
  pose proof (alloc_pages_scan_spec s count ltac:(lia)) as Hs.
  destruct (scan_run _ _ _ _ _) as [start|]; [|by auto].
  destruct Hs as [Hr Hmin]. exists start. split_and!; [done|lia|done|by auto|].
  intros q. destruct s. apply page_free_mark_run; [done|apply Hr].
Qed.

Lemma reserve_range_free s a b q :
  bitmap_ok (BITMAP s) -> (q < MAX_PAGES)%nat ->
  page_free (BITMAP (reserve_range a b s)) q =
  page_free (BITMAP s) q &&
  negb (bool_decide (q ∈ page_range (a / PAGE_SIZE) (sub64 (add64 b PAGE_SIZE) 1 / PAGE_SIZE))).
Proof.
  intros Hok Hq. unfold reserve_range.
  pose proof (reserve_pages_spec
    (page_range (a / PAGE_SIZE) (sub64 (add64 b PAGE_SIZE) 1 / PAGE_SIZE)) _ 0 Hok) as [_ Hr].
  destruct (reserve_pages _ _) as [bm k]. rewrite <- Hr by done. destruct s. by case_match.
Qed.
End operations.

(* ------------------------------------------------------------------ *)
(** ** Properties *)

Section properties.
Context `{PmmConfig} (managed : nat -> bool).

(** [alloc_page_locked] is sound and complete. It fails only when every
    frame is in use, and then changes nothing; otherwise it returns the
    address of a frame that was free and inside the allocator's domain, that
    frame and no other becomes used, [USED_PAGES] grows by one and the ledger
    stays exact. *)
Theorem alloc_page_locked_correct (s : Pmm) :
  accounted managed s ->
  match alloc_page_locked s with
  | (Some addr, s') => exists p,
      addr = Z.of_nat p * PAGE_SIZE /\ (p < MAX_PAGES)%nat /\ managed p = true /\
      is_page_used_locked (BITMAP s) p = false /\
      (forall q, is_page_used_locked (BITMAP s') q =
                 bool_decide (q = p) || is_page_used_locked (BITMAP s) q) /\
      USED_PAGES s' = USED_PAGES s + 1 /\ accounted managed s'
  | (None, s') => s' = s /\
      forall q, (q < MAX_PAGES)%nat -> is_page_used_locked (BITMAP s) q = true
  end.
Proof.
  intros Ha. pose proof (accounted_alloc_page managed s Ha) as Ha'.
  pose proof (accounted_bounds _ _ Ha) as (Hu & Ht & _). pose proof MAX_PAGES_u64.
  destruct Ha as [[Hok Hdom Hused] Htot Hc].
  pose proof (alloc_page_locked_cases s Hok Hc) as Hs.
  assert (USED_PAGES (snd (alloc_page_locked s)) =
          if alloc_scan s then add64 (USED_PAGES s) 1 else USED_PAGES s) as Eu.
  { unfold alloc_page_locked. destruct (alloc_scan s), s; done. }
  unfold alloc_page_locked in *. destruct (alloc_scan s) as [p|]; simpl fst in *.
  - destruct Hs as (p' & E & Hp & Hf & Hq). exists p'.
    split_and!; [done|done|by apply Hdom|by apply page_free_used| | |done].
    + intros q. specialize (Hq q). unfold page_free in Hq.
      apply (f_equal negb) in Hq. rewrite negb_andb, !negb_involutive in Hq. exact Hq.
    + etrans; [exact Eu|]. apply add64_small. unfold PAGE_SIZE in *. lia.
  - destruct Hs as [E Hq]. split; [done|]. intros q Hlt. specialize (Hq q Hlt).
    by apply negb_false_iff.
Qed.

(** [alloc_pages] is first-fit and complete. For a positive count it
    returns the lowest run of that many consecutive free frames whenever one
    exists, marks exactly that run used and charges [USED_PAGES] for it; for a
    zero count, or when there is no such run, it fails and changes nothing. *)
Theorem alloc_pages_first_fit (s : Pmm) (count : nat) :
  accounted managed s ->
  match alloc_pages count s with
  | (Some addr, s') => exists start,
      addr = Z.of_nat start * PAGE_SIZE /\ (0 < count)%nat /\
      free_run (BITMAP s) count start MAX_PAGES /\
      (forall start', (start' < start)%nat -> ~ free_run (BITMAP s) count start' MAX_PAGES) /\
      (forall q, page_free (BITMAP s') q =
         negb (bool_decide (start <= q < start + count)%nat) && page_free (BITMAP s) q) /\
      USED_PAGES s' = USED_PAGES s + Z.of_nat count /\ accounted managed s'
  | (None, s') => s' = s /\
      (count = 0%nat \/ forall start, ~ free_run (BITMAP s) count start MAX_PAGES)
  end.
Proof.
  intros Ha. pose proof (accounted_alloc_pages managed s count Ha) as Ha'.
  pose proof (alloc_pages_cases s count (ledger_ok _ _ _ (accounted_ledger _ _ Ha))) as Hc.
  pose proof (accounted_bounds _ _ Ha) as (Hu & Ht & _). pose proof MAX_PAGES_u64.
  assert (fst (alloc_pages count s) <> None ->
          USED_PAGES (snd (alloc_pages count s)) = add64 (USED_PAGES s) (Z.of_nat count)) as Eu.
  { unfold alloc_pages. destruct s. repeat case_match; simpl; done. }
  destruct (alloc_pages count s) as [[addr|] s']; [|done]. simpl in *.
  destruct Hc as (start & E & Hpos & Hr & Hmin & Hq). exists start.
  split_and!; [done..| |done]. rewrite Eu by done. pose proof (proj1 Hr).
  apply add64_small. unfold PAGE_SIZE in *. lia.
Qed.

(** After [init] on the boot image's all-used bitmap, a frame is
    allocatable exactly if some firmware [Available] entry covers it and it is
    neither in the kernel image with its slack, nor in the [BootInfo] block,
    nor in the low 1 MiB, nor in the bootstrap-stack window; [TOTAL_PAGES]
    counts the firmware's frames once each, overlapping entries included, and
    the counters agree with the bitmap. *)
Theorem init_correct (boot_info : BootInfo) (kernel_end_va rsp : Z) :
  boot_info_ok boot_info kernel_end_va ->
  let s := init boot_info kernel_end_va rsp pmm_static in
  (forall p, (p < MAX_PAGES)%nat ->
     page_free (BITMAP s) p =
     firmware_available boot_info p && negb (boot_reserved boot_info kernel_end_va rsp p)) /\
  TOTAL_PAGES s = count_upto (firmware_available boot_info) MAX_PAGES /\
  USED_PAGES s = count_upto (fun p => firmware_available boot_info p &&
                               boot_reserved boot_info kernel_end_va rsp p) MAX_PAGES /\
  drift (accounting_snapshot_locked s) = 0.
Proof.
  intros Hb s. pose proof (init_accounted boot_info kernel_end_va rsp Hb) as Ha.
  pose proof (fun p => init_page_free boot_info kernel_end_va rsp p Hb) as Hf.
  split_and!; [exact Hf|apply Ha| |by apply (accounted_drift _ _ Ha)].
  etrans; [apply (ledger_used _ _ _ (accounted_ledger _ _ Ha))|].
  apply count_upto_ext. intros p Hp. specialize (Hf p Hp). unfold page_free in Hf.
  apply (f_equal negb) in Hf. rewrite negb_involutive in Hf. rewrite Hf.
  by destruct (firmware_available boot_info p); simpl; rewrite ?negb_involutive.
Qed.

(** [reserve_range] withdraws every frame its byte range touches from the
    free list and no other frame, and charges [USED_PAGES] only for the frames
    that were free, so that the ledger stays exact. *)
Theorem reserve_range_correct (s : Pmm) (start end_ : Z) :
  accounted managed s -> 0 <= start -> 0 <= end_ < 2 ^ 63 ->
  let s' := reserve_range start end_ s in
  (forall q, (q < MAX_PAGES)%nat ->
     page_free (BITMAP s') q =
     page_free (BITMAP s) q &&
     negb (bool_decide (start / PAGE_SIZE <= Z.of_nat q /\ Z.of_nat q * PAGE_SIZE < end_))) /\
  accounted managed s' /\ USED_PAGES s <= USED_PAGES s'.
Proof.
  intros Ha Hs He s'. pose proof (accounted_reserve_range managed s start end_ Ha) as Ha'. fold s' in Ha'.
  assert (forall q, (q < MAX_PAGES)%nat -> page_free (BITMAP s') q =
     page_free (BITMAP s) q &&
     negb (bool_decide (start / PAGE_SIZE <= Z.of_nat q /\ Z.of_nat q * PAGE_SIZE < end_))) as Hf.
  { intros q Hq. unfold s'. rewrite reserve_range_free
      by (done || apply (ledger_ok _ _ _ (accounted_ledger _ _ Ha))).
    do 2 f_equal. apply bool_decide_ext. unfold PAGE_SIZE in *.
    rewrite elem_of_page_range by (apply Z.div_pos; lia).
    rewrite add64_small, sub64_small by (unfold U64_MAX; lia).
    pose proof (Z.div_mod (end_ + 4096 - 1) 4096 ltac:(done)).
    pose proof (Z.mod_pos_bound (end_ + 4096 - 1) 4096 ltac:(done)). lia. }
  split_and!; [done|done|].
  rewrite (ledger_used _ _ _ (accounted_ledger _ _ Ha)).
  rewrite (ledger_used _ _ _ (accounted_ledger _ _ Ha')).
  apply count_upto_mono. intros p Hp. specialize (Hf p Hp). unfold page_free in Hf.
  destruct (managed p), (is_page_used_locked (BITMAP s) p), (is_page_used_locked (BITMAP s') p);
    simpl in *; done.
Qed.
End properties.

(** ** Witnesses: a 512-frame machine *)

Definition demo_boot_info : BootInfo :=
  mkBootInfo [mkEntry Available 0 300; mkEntry Reserved 0 512; mkEntry Available 0x120000 212] 3 0 0.

Definition demo_pmm : Pmm := @init small_pmm demo_boot_info 0 0 (@pmm_static small_pmm).

Lemma demo_pmm_eq : demo_pmm = @init small_pmm demo_boot_info 0 0 (@pmm_static small_pmm).
Proof. unfold demo_pmm. reflexivity. Qed.

Lemma demo_boot_info_ok : boot_info_ok demo_boot_info 0.
Proof. split; [done..|]. repeat constructor; simpl; done. Qed.

Lemma demo_accounted : @accounted small_pmm (firmware_available demo_boot_info) demo_pmm.
Proof. apply (@init_accounted small_pmm), demo_boot_info_ok. Qed.

Lemma alloc_page_locked_correct_witness :
  fst (@alloc_page_locked small_pmm demo_pmm) = Some 0x100000 /\
  @accounted small_pmm (firmware_available demo_boot_info)
    (snd (@alloc_page_locked small_pmm demo_pmm)).
Proof.
  pose proof (@alloc_page_locked_correct small_pmm _ demo_pmm demo_accounted) as Hw.
  assert (fst (@alloc_page_locked small_pmm demo_pmm) = Some 0x100000) as E
    by (vm_compute; reflexivity).
  destruct (@alloc_page_locked small_pmm demo_pmm) as [[a|] s']; [|discriminate E].
  destruct Hw as (p & _ & _ & _ & _ & _ & _ & Ha). split; [exact E|exact Ha].
Defined.

Lemma alloc_pages_first_fit_witness :
  fst (@alloc_pages small_pmm 200 demo_pmm) = Some 0x100000 /\
  USED_PAGES (snd (@alloc_pages small_pmm 200 demo_pmm)) = USED_PAGES demo_pmm + 200.
Proof.
  pose proof (@alloc_pages_first_fit small_pmm _ demo_pmm 200 demo_accounted) as Hw.
  assert (fst (@alloc_pages small_pmm 200 demo_pmm) = Some 0x100000) as E
    by (vm_compute; reflexivity).
  destruct (@alloc_pages small_pmm 200 demo_pmm) as [[a|] s']; [|discriminate E].
  destruct Hw as (p & _ & _ & _ & _ & _ & Hu & _). split; [exact E|exact Hu].
Defined.

Lemma init_correct_witness :
  page_free (BITMAP demo_pmm) 256 = true /\ page_free (BITMAP demo_pmm) 255 = false /\
  TOTAL_PAGES demo_pmm = 500 /\ drift (accounting_snapshot_locked demo_pmm) = 0.
Proof.
  destruct (@init_correct small_pmm demo_boot_info 0 0 demo_boot_info_ok) as (_ & _ & _ & Hd).
  split; [vm_compute; reflexivity|]. split; [vm_compute; reflexivity|].
  split; [vm_compute; reflexivity|exact Hd].
Defined.

Lemma reserve_range_correct_witness :
  page_free (BITMAP demo_pmm) 257 = true /\
  page_free (BITMAP (@reserve_range small_pmm 0x101800 0x102001 demo_pmm)) 257 = false.
Proof.
  destruct (@reserve_range_correct small_pmm _ demo_pmm 0x101800 0x102001 demo_accounted
    ltac:(lia) ltac:(lia)) as (Hf & _).
  split; [vm_compute; reflexivity|]. rewrite Hf; [vm_compute; reflexivity|].
  vm_compute. lia.
Defined.
