(* ===== verification/Refcount.v ===== *)
(** * Physical-frame reference counts (kernel/src/mm/refcount.rs)

    The [u16] table indexed by frame number, its sequential operations, and
    an interleaving model of the lock-free slot: [fetch_add] increments
    racing the compare-exchange loop of [page_ref_dec]. *)

From S2P Require Import Prelude Pmm.

(* ------------------------------------------------------------------ *)
(** ** The table

    [REFCOUNTS] is a [Once]: [None] until [init] runs. [refcounts()] panics
    before that, so the operations that go through it return [None] for the
    panic; [page_ref_count] and [page_ref_set] go through [refcounts_opt()]. *)

Definition refcount_init `{PmmConfig} (rc : option (list Z)) : option (list Z) :=
  match rc with
  | Some t => Some t
  | None => Some (replicate MAX_PAGES 0)
  end.

Definition pfn (phys_addr : Z) : nat := Z.to_nat (phys_addr / PAGE_SIZE).

Lemma pfn_page (q : nat) : pfn (Z.of_nat q * PAGE_SIZE) = q.
Proof. unfold pfn, PAGE_SIZE. rewrite Z.div_mul by done. lia. Qed.

Definition RESERVED_LOW_END : Z := 0x100000.

Definition is_refcountable_frame `{PmmConfig} (phys_addr : Z) : bool :=
  (RESERVED_LOW_END <=? phys_addr) && (pfn phys_addr <? MAX_PAGES)%nat.

(** [fetch_add(1)] on an [AtomicU16] wraps. *)
Definition page_ref_inc (phys_addr : Z) (rc : option (list Z)) : option (option (list Z)) :=
  match rc with
  | None => None
  | Some t =>
      let idx := pfn phys_addr in
      Some (Some (if (idx <? length t)%nat
                  then <[idx := wrap 16 (t !!! idx + 1)]> t else t))
  end.

(** The compare-exchange loop run without interference: the value loaded is
    the value the exchange finds. *)
Definition page_ref_dec (phys_addr : Z) (rc : option (list Z))
    : option (Z * option (list Z)) :=
  match rc with
  | None => None
  | Some t =>
      let idx := pfn phys_addr in
      if (length t <=? idx)%nat then Some (0, Some t)
      else
        let cur := t !!! idx in
        if cur =? 0 then Some (0, Some t)
        else Some (cur - 1, Some (<[idx := cur - 1]> t))
  end.

Definition page_ref_count (phys_addr : Z) (rc : option (list Z)) : Z :=
  match rc with
  | None => 0
  | Some t =>
      let idx := pfn phys_addr in
      if (idx <? length t)%nat then t !!! idx else 0
  end.

Definition pte_share_count (phys_addr : Z) (rc : option (list Z)) : Z :=
  page_ref_count phys_addr rc.

Definition page_ref_set (phys_addr count : Z) (rc : option (list Z)) : option (list Z) :=
  match rc with
  | None => None
  | Some t =>
      let idx := pfn phys_addr in
      Some (if (idx <? length t)%nat then <[idx := count]> t else t)
  end.

(* ------------------------------------------------------------------ *)
(** ** One slot under concurrent increments and decrements *)

(** Program counter of a thread running [page_ref_inc] or [page_ref_dec] on
    the slot. [DecLoop cur] is the head of the loop with the value last
    observed; [DecRefused] is the [return 0] of the underflow guard. *)
Inductive ref_pc :=
  | IncStart
  | IncDone
  | DecStart
  | DecLoop (cur : Z)
  | DecRet (new : Z)
  | DecRefused.

Record ref_state := mkRef { slot : Z; pcs : list ref_pc }.

(** One atomic action of one thread. [cas_fail] is the weak exchange: it may
    fail although the slot still holds [cur]. *)
Inductive ref_step : ref_state -> ref_state -> Prop :=
  | step_inc v ts i :
      ts !! i = Some IncStart ->
      ref_step (mkRef v ts) (mkRef (wrap 16 (v + 1)) (<[i := IncDone]> ts))
  | step_load v ts i :
      ts !! i = Some DecStart ->
      ref_step (mkRef v ts) (mkRef v (<[i := DecLoop v]> ts))
  | step_refuse v ts i :
      ts !! i = Some (DecLoop 0) ->
      ref_step (mkRef v ts) (mkRef v (<[i := DecRefused]> ts))
  | step_cas_ok v ts i :
      ts !! i = Some (DecLoop v) -> v <> 0 ->
      ref_step (mkRef v ts) (mkRef (v - 1) (<[i := DecRet (v - 1)]> ts))
  | step_cas_fail v ts i cur :
      ts !! i = Some (DecLoop cur) -> cur <> 0 ->
      ref_step (mkRef v ts) (mkRef v (<[i := DecLoop v]> ts)).

(** How many threads have taken effect, and how many increments are still to
    come. *)
Fixpoint tally (f : ref_pc -> Z) (ts : list ref_pc) : Z :=
  match ts with
  | [] => 0
  | t :: ts' => f t + tally f ts'
  end.

Definition is_inc_done (t : ref_pc) : Z := match t with IncDone => 1 | _ => 0 end.
Definition is_dec_ret (t : ref_pc) : Z := match t with DecRet _ => 1 | _ => 0 end.
Definition is_inc (t : ref_pc) : Z := match t with IncStart | IncDone => 1 | _ => 0 end.

Lemma tally_insert f ts i t t' :
  ts !! i = Some t -> tally f (<[i := t']> ts) = tally f ts - f t + f t'.
Proof.
  revert i. induction ts as [|u ts IH]; intros [|i] Hi; simplify_eq/=; [lia|].
  rewrite IH by done. lia.
Qed.

Lemma tally_le f g ts : (forall t, f t <= g t) -> tally f ts <= tally g ts.
Proof. intros Hfg. induction ts as [|t ts IH]; simpl; [lia|]. specialize (Hfg t). lia. Qed.

Lemma tally_nonneg f ts : (forall t, 0 <= f t) -> 0 <= tally f ts.
Proof. intros Hf. induction ts as [|t ts IH]; simpl; [lia|]. specialize (Hf t). lia. Qed.

(** Invariant: the slot holds exactly the initial count plus the increments
    that ran minus the decrements that succeeded. *)
Definition conserved (v0 : Z) (s : ref_state) : Prop :=
  slot s = v0 + tally is_inc_done (pcs s) - tally is_dec_ret (pcs s) /\ 0 <= slot s.

Lemma ref_step_is_inc s s' :
  ref_step s s' -> tally is_inc (pcs s') = tally is_inc (pcs s).
Proof. destruct 1; simpl; erewrite tally_insert by done; simpl; lia. Qed.

Lemma ref_step_conserved v0 s s' :
  v0 + tally is_inc (pcs s) <= U16_MAX ->
  conserved v0 s -> ref_step s s' -> conserved v0 s'.
Proof.
  intros Hb [Hs Hp] Hstep. unfold conserved.
  pose proof (tally_nonneg is_dec_ret (pcs s) ltac:(by intros [])) as Hd.
  destruct Hstep as [v ts i Hi|v ts i Hi|v ts i Hi|v ts i Hi Hv|v ts i cur Hi Hc]; simpl in *;
    rewrite !(tally_insert _ _ _ _ _ Hi); simpl; [|lia..].
  assert (tally is_inc_done (<[i:=IncDone]> ts) <= tally is_inc (<[i:=IncDone]> ts)) as Hle.
  { apply tally_le. by intros []. }
  rewrite !(tally_insert _ _ _ _ _ Hi) in Hle. simpl in Hle.
  unfold U16_MAX in *. rewrite wrap_small; unfold in_word; lia.
Qed.

(** A thread that has not started yet. *)
Definition fresh_thread (t : ref_pc) : Prop := t = IncStart \/ t = DecStart.

Lemma fresh_tally f ts :
  (forall t, fresh_thread t -> f t = 0) -> Forall fresh_thread ts -> tally f ts = 0.
Proof. intros Hf. induction 1 as [|t ts Ht _ IH]; simpl; [done|]. by rewrite Hf, IH. Qed.

(** No update of a reference-count slot is ever lost. Any number of CPUs
    run [page_ref_inc] and [page_ref_dec] on one slot, interleaved at the
    granularity of the atomic accesses and with spuriously failing exchanges;
    as long as the count cannot exceed [u16::MAX], in every reachable state
    the slot holds the initial count plus the increments that ran minus the
    decrements whose exchange succeeded, and it is never negative. *)
Theorem refcount_no_lost_update v0 ts s :
  0 <= v0 -> v0 + tally is_inc ts <= U16_MAX -> Forall fresh_thread ts ->
  rtc ref_step (mkRef v0 ts) s ->
  slot s = v0 + tally is_inc_done (pcs s) - tally is_dec_ret (pcs s) /\ 0 <= slot s.
Proof.
  intros Hv Hb Hf Hr.
  enough (tally is_inc (pcs s) = tally is_inc ts /\ conserved v0 s) as [_ ?] by done.
  remember (mkRef v0 ts) as s0. assert (tally is_inc (pcs s0) = tally is_inc ts /\ conserved v0 s0) as H0.
  { subst. split; [done|]. split; simpl; [|done].
    rewrite !fresh_tally; [lia|by intros ? [-> | ->]|done|by intros ? [-> | ->]|done]. }
  clear Heqs0. induction Hr as [|s1 s2 s3 Hstep _ IH]; [done|]. apply IH. destruct H0 as [Hi Hc].
  split; [by rewrite (ref_step_is_inc _ _ Hstep)|].
  eapply ref_step_conserved; [|done..]. by rewrite Hi.
Qed.

(** *** Decrements only: exactly one of them observes zero *)

Definition ret_value (t : ref_pc) : option Z :=
  match t with DecRet r => Some r | _ => None end.
Definition finished (t : ref_pc) : bool :=
  match t with IncDone | DecRet _ | DecRefused => true | _ => false end.
Definition rets (ts : list ref_pc) : list Z := omap ret_value ts.

Lemma rets_insert_same ts i t t' :
  ts !! i = Some t -> ret_value t = ret_value t' -> rets (<[i := t']> ts) = rets ts.
Proof.
  intros Hi Ht. revert i Hi. induction ts as [|u ts IH]; intros [|i] Hi; simplify_eq/=.
  - by rewrite Ht.
  - by rewrite (IH i).
Qed.

Lemma rets_insert_new ts i t r :
  ts !! i = Some t -> ret_value t = None -> rets (<[i := DecRet r]> ts) ≡ₚ r :: rets ts.
Proof.
  intros Hi Ht. revert i Hi. induction ts as [|u ts IH]; intros [|i] Hi; simplify_eq/=.
  - by rewrite Ht.
  - destruct (ret_value u); rewrite (IH i Hi); [apply perm_swap|done].
Qed.

Lemma rets_length_lt ts i t :
  ts !! i = Some t -> ret_value t = None -> (length (rets ts) < length ts)%nat.
Proof.
  assert (forall l, length (rets l) <= length l)%nat as Hle.
  { induction l as [|u l IH]; simpl; [done|]. destruct (ret_value u); simpl; lia. }
  intros Hi Ht. revert i Hi. induction ts as [|u ts IH]; intros [|i] Hi; simplify_eq/=.
  - rewrite Ht. specialize (Hle ts). lia.
  - specialize (IH i Hi). destruct (ret_value u); simpl; lia.
Qed.

(** The values returned so far are [slot .. n-1], and every thread in the
    loop has observed a value at least the current one. *)
Record dec_inv (n : nat) (s : ref_state) : Prop := {
  dec_len : length (pcs s) = n;
  dec_rets : rets (pcs s) ≡ₚ seqZ (slot s) (Z.of_nat n - slot s);
  dec_slot : 0 <= slot s <= Z.of_nat n;
  dec_pcs : Forall (fun t => match t with
                             | DecStart | DecRet _ => True
                             | DecLoop cur => slot s <= cur
                             | _ => False end) (pcs s)
}.

Lemma dec_inv_unfinished n s i t :
  dec_inv n s -> pcs s !! i = Some t -> ret_value t = None -> 1 <= slot s.
Proof.
  intros [Hl Hr Hs _] Hi Ht. pose proof (rets_length_lt _ _ _ Hi Ht) as Hlt.
  rewrite Hr, length_seqZ in Hlt. lia.
Qed.

Lemma dec_step_inv n s s' : dec_inv n s -> ref_step s s' -> dec_inv n s'.
Proof.
  intros Hinv Hstep. pose proof (fun i t => dec_inv_unfinished n s i t Hinv) as Hun.
  destruct Hinv as [Hl Hr Hs Hp].
  destruct Hstep as [v ts i Hi|v ts i Hi|v ts i Hi|v ts i Hi Hv|v ts i cur Hi Hc]; simpl in *;
    pose proof (Forall_lookup_1 _ _ _ _ Hp Hi) as Ht; simpl in Ht; [done| | | |].
  - split; simpl; [by rewrite length_insert| |done|by apply Forall_insert].
    by erewrite rets_insert_same.
  - specialize (Hun i _ Hi eq_refl). lia.
  - specialize (Hun i _ Hi eq_refl). split; simpl; [by rewrite length_insert| |lia|].
    + rewrite rets_insert_new, Hr by done. rewrite (seqZ_cons (v - 1)) by lia.
      replace (Z.succ (v - 1)) with v by lia.
      by replace (Z.pred (Z.of_nat n - (v - 1))) with (Z.of_nat n - v) by lia.
    + apply Forall_insert; [|done]. eapply Forall_impl; [|exact Hp].
      intros []; try done. lia.
  - split; simpl; [by rewrite length_insert| |done|by apply Forall_insert].
    by erewrite rets_insert_same.
Qed.

(** Concurrent teardown frees a frame exactly once. [n] CPUs each drop one
    of the [n] references of a frame by [page_ref_dec]; whatever the
    interleaving, no decrement is refused as an underflow, and once all have
    returned the slot is 0 and the returned counts are [0 .. n-1], each
    exactly once, so exactly one caller is told that the frame is free. *)
Theorem page_ref_dec_exactly_once n s :
  rtc ref_step (mkRef (Z.of_nat n) (replicate n DecStart)) s ->
  Forall (fun t => t <> DecRefused) (pcs s) /\
  (Forall (fun t => finished t = true) (pcs s) ->
   slot s = 0 /\ rets (pcs s) ≡ₚ seqZ 0 (Z.of_nat n)).
Proof.
  intros Hr. assert (dec_inv n s) as [Hl Hrets Hs Hp].
  { remember (mkRef _ _) as s0 eqn:E0.
    assert (dec_inv n s0) as H0.
    { subst. split; simpl; [apply length_replicate| |lia|by apply Forall_replicate].
      rewrite seqZ_nil by lia. clear Hr. induction n; simpl; [done|]. exact IHn. }
    clear E0. induction Hr; eauto using dec_step_inv. }
  split; [eapply Forall_impl; [|exact Hp]; by intros []|]. intros Hdone.
  assert (length (rets (pcs s)) = length (pcs s)) as Hlen.
  { clear -Hdone Hp. induction (pcs s) as [|t ts IH]; [done|].
    inversion Hdone; inversion Hp; subst. destruct t; try done.
    simpl. f_equal. by apply IH. }
  rewrite Hrets, length_seqZ in Hlen.
  assert (slot s = 0) as Hz by lia. split; [done|]. by rewrite Hrets, Hz, Z.sub_0_r.
Qed.

(* ------------------------------------------------------------------ *)
(** ** Witnesses *)

Lemma refcount_no_lost_update_witness :
  slot (mkRef 1 [IncDone; DecRet 1]) = 1 + 1 - 1.
Proof.
  apply (refcount_no_lost_update 1 [IncStart; DecStart] (mkRef 1 [IncDone; DecRet 1])).
  - lia.
  - unfold U16_MAX. simpl. lia.
  - constructor; [by left|]. constructor; [by right|]. constructor.
  - eapply rtc_l; [apply (step_load _ _ 1); reflexivity|].
    eapply rtc_l; [apply (step_inc _ _ 0); reflexivity|].
    eapply rtc_l; [apply (step_cas_fail _ _ 1 1); [reflexivity|lia]|].
    eapply rtc_l; [apply (step_cas_ok _ _ 1); [reflexivity|vm_compute; discriminate]|].
    apply rtc_refl.
Defined.

Lemma page_ref_dec_exactly_once_witness :
  slot (mkRef 0 [DecRet 0; DecRet 1]) = 0.
Proof.
  apply (page_ref_dec_exactly_once 2 (mkRef 0 [DecRet 0; DecRet 1])).
  - eapply rtc_l; [apply (step_load _ _ 0); reflexivity|].
    eapply rtc_l; [apply (step_load _ _ 1); reflexivity|].
    eapply rtc_l; [apply (step_cas_ok _ _ 1); [reflexivity|lia]|].
    eapply rtc_l; [apply (step_cas_fail _ _ 0 2); [reflexivity|lia]|].
    eapply rtc_l; [apply (step_cas_ok _ _ 0); [reflexivity|lia]|].
    apply rtc_refl.
  - repeat constructor.
Defined.
