(* ===== verification/Frames.v ===== *)
(** * Returning frames: free gates and the DMA-pin ledger
      (kernel/src/mm/pmm.rs, kernel/src/mm/dma_pin.rs)

    [free_page] consults the kernel-image range, the refcount table and the
    DMA-pin ledger before it clears a bit; the last unpin of a frame whose
    free was deferred calls back into [free_page]. The two modules share one
    state here. *)

From S2P Require Import Prelude Pmm Refcount.

(* ------------------------------------------------------------------ *)
(** ** State *)

Definition COUNT_MASK : Z := 0x7FFFFFFF.
Definition FREE_PENDING : Z := 0x80000000.
Definition DEFERRED_CAP : nat := 256.
Definition IDLE_DRAIN_INTERVAL_TICKS : Z := 100.

Record Frames := mkFrames {
  pmm : Pmm;
  REFCOUNTS : option (list Z);
  PINS : option (list Z);
  DEFERRED : list Z;
  DEFERRED_OVERFLOW : Z;
  DEFERRED_FREED : Z;
  FREES_DEFERRED : Z;
  DEFERRED_CURSOR : Z;
  LAST_IDLE_DRAIN_TICK : Z
}.

Definition with_pmm (p : Pmm) (s : Frames) : Frames :=
  let '(mkFrames _ r pi d o f fd c l) := s in mkFrames p r pi d o f fd c l.
Definition with_REFCOUNTS (r : option (list Z)) (s : Frames) : Frames :=
  let '(mkFrames p _ pi d o f fd c l) := s in mkFrames p r pi d o f fd c l.
Definition with_PINS (pi : option (list Z)) (s : Frames) : Frames :=
  let '(mkFrames p r _ d o f fd c l) := s in mkFrames p r pi d o f fd c l.
Definition with_DEFERRED (d : list Z) (s : Frames) : Frames :=
  let '(mkFrames p r pi _ o f fd c l) := s in mkFrames p r pi d o f fd c l.
Definition with_DEFERRED_OVERFLOW (o : Z) (s : Frames) : Frames :=
  let '(mkFrames p r pi d _ f fd c l) := s in mkFrames p r pi d o f fd c l.
Definition with_DEFERRED_FREED (f : Z) (s : Frames) : Frames :=
  let '(mkFrames p r pi d o _ fd c l) := s in mkFrames p r pi d o f fd c l.
Definition with_FREES_DEFERRED (fd : Z) (s : Frames) : Frames :=
  let '(mkFrames p r pi d o f _ c l) := s in mkFrames p r pi d o f fd c l.
Definition with_DEFERRED_CURSOR (c : Z) (s : Frames) : Frames :=
  let '(mkFrames p r pi d o f fd _ l) := s in mkFrames p r pi d o f fd c l.
Definition with_LAST_IDLE_DRAIN_TICK (l : Z) (s : Frames) : Frames :=
  let '(mkFrames p r pi d o f fd c _) := s in mkFrames p r pi d o f fd c l.

(** [dma_pin::init]: the [Once] keeps a table that is already there. *)
Definition dma_pin_init `{PmmConfig} (s : Frames) : Frames :=
  match PINS s with
  | Some _ => s
  | None => with_PINS (Some (replicate MAX_PAGES 0)) s
  end.

(* ------------------------------------------------------------------ *)
(** ** The pin ledger *)

(** [page_span]: first frame and number of frames of a byte range. *)
Definition page_span (phys : Z) (len : nat) : nat * nat :=
  if (len =? 0)%nat then (pfn phys, 0%nat)
  else
    let first := pfn phys in
    let last := pfn (sub64 (add64 phys (Z.of_nat len)) 1) in
    (first, (last - first + 1)%nat).

Definition pin (phys : Z) (s : Frames) : Frames :=
  match PINS s with
  | None => s
  | Some pins =>
      let idx := pfn phys in
      if (idx <? length pins)%nat
      then with_PINS (Some (<[idx := wrap 32 (pins !!! idx + 1)]> pins)) s
      else s
  end.

Definition pin_range (phys : Z) (len : nat) (s : Frames) : Frames :=
  let '(first, count) := page_span phys len in
  fold_left (fun s i => pin (Z.of_nat (first + i) * PAGE_SIZE) s) (seq 0 count) s.

Definition pin_count (phys : Z) (s : Frames) : Z :=
  match PINS s with
  | None => 0
  | Some pins =>
      let idx := pfn phys in
      if (idx <? length pins)%nat then (pins !!! idx) .& COUNT_MASK else 0
  end.

Definition is_pinned (phys : Z) (s : Frames) : bool := 0 <? pin_count phys s.

(** The compare-exchange loops of the ledger run without interference. *)
Definition mark_free_pending_if_pinned (phys : Z) (s : Frames) : bool * Frames :=
  match PINS s with
  | None => (false, s)
  | Some pins =>
      let idx := pfn phys in
      if (length pins <=? idx)%nat then (false, s)
      else
        let cur := pins !!! idx in
        if cur .& COUNT_MASK =? 0 then (false, s)
        else if negb (cur .& FREE_PENDING =? 0) then (true, s)
        else
          let s := with_PINS (Some (<[idx := cur .| FREE_PENDING]> pins)) s in
          (true, with_FREES_DEFERRED (add64 (FREES_DEFERRED s) 1) s)
  end.

Inductive UnpinResult := NoFree | FreeDue | Underflow.

Definition unpin_ledger (phys : Z) (s : Frames) : UnpinResult * Frames :=
  match PINS s with
  | None => (NoFree, s)
  | Some pins =>
      let idx := pfn phys in
      if (length pins <=? idx)%nat then (NoFree, s)
      else
        let cur := pins !!! idx in
        let count := cur .& COUNT_MASK in
        if count =? 0 then (Underflow, s)
        else
          let pending := cur .& FREE_PENDING in
          let new_count := count - 1 in
          let new_val := if new_count =? 0 then 0 else pending .| new_count in
          let s := with_PINS (Some (<[idx := new_val]> pins)) s in
          if (new_count =? 0) && negb (pending =? 0) then (FreeDue, s) else (NoFree, s)
  end.

(* ------------------------------------------------------------------ *)
(** ** [pmm::free_page] *)

Definition bump_KERNEL_STATIC (s : Pmm) : Pmm :=
  let '(mkPmm bm t u r n kb ke bf bl x1 x2 x3 x4) := s in
  mkPmm bm t u r n kb ke bf bl x1 x2 (add64 x3 1) x4.
Definition bump_RESIDUAL (s : Pmm) : Pmm :=
  let '(mkPmm bm t u r n kb ke bf bl x1 x2 x3 x4) := s in
  mkPmm bm t u r n kb ke bf bl x1 (add64 x2 1) x3 x4.
Definition bump_ALREADY_FREE (s : Pmm) : Pmm :=
  let '(mkPmm bm t u r n kb ke bf bl x1 x2 x3 x4) := s in
  mkPmm bm t u r n kb ke bf bl x1 x2 x3 (add64 x4 1).
Definition bump_EXHAUSTED (s : Pmm) : Pmm :=
  let '(mkPmm bm t u r n kb ke bf bl x1 x2 x3 x4) := s in
  mkPmm bm t u r n kb ke bf bl (add64 x1 1) x2 x3 x4.

(** The part of [free_page] under [PMM_LOCK]. *)
Definition clear_page_locked (page : nat) (s : Pmm) : Pmm :=
  if is_page_used_locked (BITMAP s) page then
    let s := with_BITMAP (mark_page_free (BITMAP s) page) s in
    with_USED_PAGES (sub64 (USED_PAGES s) 1) s
  else bump_ALREADY_FREE s.

Definition free_page `{PmmConfig} (phys_addr : Z) (s : Frames) : Frames :=
  let page := pfn phys_addr in
  if (MAX_PAGES <=? page)%nat then s
  else if is_kernel_static_phys (pmm s) phys_addr then
    with_pmm (bump_KERNEL_STATIC (pmm s)) s
  else if 0 <? pte_share_count phys_addr (REFCOUNTS s) then
    with_pmm (bump_RESIDUAL (pmm s)) s
  else
    let '(deferred, s) := mark_free_pending_if_pinned phys_addr s in
    if deferred then s
    else with_pmm (clear_page_locked page (pmm s)) s.

(* ------------------------------------------------------------------ *)
(** ** Deferred frees *)

(** [for i in 0..DEFERRED_CAP]: the first empty ring slot from the cursor. *)
Fixpoint push_deferred_loop (phys start : Z) (idxs : list nat) (s : Frames) : Frames :=
  match idxs with
  | [] => with_DEFERRED_OVERFLOW (add64 (DEFERRED_OVERFLOW s) 1) s
  | i :: idxs' =>
      let k := Z.to_nat (add64 start (Z.of_nat i) mod Z.of_nat DEFERRED_CAP) in
      if DEFERRED s !!! k =? 0 then with_DEFERRED (<[k := phys]> (DEFERRED s)) s
      else push_deferred_loop phys start idxs' s
  end.

Definition push_deferred (phys : Z) (s : Frames) : Frames :=
  if phys =? 0 then s
  else
    let start := DEFERRED_CURSOR s in
    let s := with_DEFERRED_CURSOR (add64 start 1) s in
    push_deferred_loop phys start (seq 0 DEFERRED_CAP) s.

Definition drain_slot `{PmmConfig} (s : Frames) (k : nat) : Frames :=
  let phys := DEFERRED s !!! k in
  if phys =? 0 then s
  else
    let s := with_DEFERRED (<[k := 0]> (DEFERRED s)) s in
    let s := with_DEFERRED_FREED (add64 (DEFERRED_FREED s) 1) s in
    free_page phys s.

Definition drain_deferred `{PmmConfig} (s : Frames) : Frames :=
  fold_left drain_slot (seq 0 DEFERRED_CAP) s.

Definition drain_deferred_if_due `{PmmConfig} (now : Z) (s : Frames) : Frames :=
  let last := LAST_IDLE_DRAIN_TICK s in
  if sub64 now last <? IDLE_DRAIN_INTERVAL_TICKS then s
  else drain_deferred (with_LAST_IDLE_DRAIN_TICK now s).

Definition unpin `{PmmConfig} (phys : Z) (can_free_now : bool) (s : Frames) : Frames :=
  let '(r, s) := unpin_ledger phys s in
  match r with
  | FreeDue =>
      if can_free_now then
        free_page phys (with_DEFERRED_FREED (add64 (DEFERRED_FREED s) 1) s)
      else push_deferred phys s
  | Underflow => s
  | NoFree => s
  end.

Definition unpin_range `{PmmConfig} (phys : Z) (len : nat) (can_free_now : bool) (s : Frames)
    : Frames :=
  let '(first, count) := page_span phys len in
  let s := if can_free_now then drain_deferred s else s in
  fold_left (fun s i => unpin (Z.of_nat (first + i) * PAGE_SIZE) can_free_now s)
    (seq 0 count) s.

(* ------------------------------------------------------------------ *)
(** ** Allocation entry points

    [oom] is [oom::invoke_oom_killer(1)] together with what the killed
    process's exit path does while the caller spins. *)

Definition try_alloc_page `{PmmConfig} (now : Z) (s : Frames) : option Z * Frames :=
  let s := drain_deferred_if_due now s in
  let '(r, p) := alloc_page_locked (pmm s) in
  (r, with_pmm p s).

Definition alloc_page `{PmmConfig} (oom : Frames -> bool * Frames) (now : Z) (s : Frames)
    : option Z * Frames :=
  let '(r, s) := try_alloc_page now s in
  match r with
  | Some addr => (Some addr, s)
  | None =>
      let s := with_pmm (bump_EXHAUSTED (pmm s)) s in
      let '(killed, s) := oom s in
      if killed then
        let '(r, p) := alloc_page_locked (pmm s) in (r, with_pmm p s)
      else (None, s)
  end.

(* ------------------------------------------------------------------ *)
(** ** Ledger words: a 31-bit count and the free-pending flag *)

Definition wcount (w : Z) : Z := w .& COUNT_MASK.
Definition wpending (w : Z) : bool := 2 ^ 31 <=? w.

Lemma wcount_mod w : wcount w = w mod 2 ^ 31.
Proof. unfold wcount. change COUNT_MASK with (Z.ones 31). by apply Z.land_ones. Qed.

Lemma testbit_31 w : in_word 32 w -> Z.testbit w 31 = wpending w.
Proof.
  intros [H0 H1]. unfold wpending. destruct (Z.leb_spec (2 ^ 31) w).
  - apply Z.testbit_true; [done|]. replace (w / 2 ^ 31) with 1; [done|].
    apply Z.div_unique with (w - 2 ^ 31); lia.
  - apply Z.testbit_false; [done|]. by rewrite Z.div_small.
Qed.

Lemma land_FREE_PENDING w :
  in_word 32 w -> w .& FREE_PENDING = if wpending w then 2 ^ 31 else 0.
Proof.
  intros Hw. apply Z.bits_inj_iff'. intros i Hi.
  change FREE_PENDING with (1 .<< 31). rewrite Z.land_spec, testbit_shiftl_1 by done.
  rewrite <- testbit_31 by done. case_bool_decide as E.
  - subst. rewrite andb_true_r. by destruct (Z.testbit w 31).
  - rewrite andb_false_r. destruct (Z.testbit w 31); [|by rewrite Z.bits_0].
    symmetry. apply Z.pow2_bits_false. lia.
Qed.

Lemma lor_FREE_PENDING w :
  in_word 32 w -> wpending w = false -> w .| FREE_PENDING = w + 2 ^ 31.
Proof.
  intros [H0 H1] Hp. unfold wpending in Hp. apply Z.leb_gt in Hp.
  rewrite <- Z.add_nocarry_lor; [done|].
  change FREE_PENDING with (1 .<< 31). apply Z.eqb_eq.
  rewrite land_shiftl_1_eqb, testbit_31 by done. unfold wpending.
  rewrite (proj2 (Z.leb_gt _ _)); done.
Qed.

Lemma lor_pending_count (b : bool) c :
  0 <= c < 2 ^ 31 -> (if b then 2 ^ 31 else 0) .| c = (if b then 2 ^ 31 else 0) + c.
Proof.
  intros Hc. destruct b; [|done]. rewrite Z.lor_comm, Z.add_comm.
  apply (lor_FREE_PENDING c); [unfold in_word; lia|]. apply Z.leb_gt. lia.
Qed.

Lemma word_split w : in_word 32 w -> w = (if wpending w then 2 ^ 31 else 0) + wcount w.
Proof.
  intros [H0 H1]. rewrite wcount_mod. unfold wpending. destruct (Z.leb_spec (2 ^ 31) w).
  - rewrite <- (Z.mod_unique w (2 ^ 31) 1 (w - 2 ^ 31)); lia.
  - rewrite Z.mod_small; lia.
Qed.

Lemma wcount_range w : 0 <= wcount w < 2 ^ 31.
Proof. rewrite wcount_mod. by apply Z.mod_pos_bound. Qed.

(** A word is determined by its two fields. *)
Lemma word_make (b : bool) c :
  0 <= c < 2 ^ 31 ->
  let w := (if b then 2 ^ 31 else 0) + c in
  in_word 32 w /\ wcount w = c /\ wpending w = b.
Proof.
  intros Hc w. split; [|split].
  - unfold w, in_word. destruct b; lia.
  - rewrite wcount_mod. unfold w. destruct b.
    + by rewrite <- (Z.mod_unique (2 ^ 31 + c) (2 ^ 31) 1 c) by lia.
    + rewrite Z.mod_small; lia.
  - unfold w, wpending. destruct b; [apply Z.leb_le|apply Z.leb_gt]; lia.
Qed.

(* ------------------------------------------------------------------ *)
(** ** Frame-wise view of the ledger *)

(** The ledger word of frame [q]; an absent table or slot reads as zero. *)
Definition pin_word (s : Frames) (q : nat) : Z :=
  match PINS s with
  | Some t => if (q <? length t)%nat then t !!! q else 0
  | None => 0
  end.

(** A ledger word with no pins carries no pending free. *)
Definition word_ok (w : Z) : Prop := in_word 32 w /\ (wcount w = 0 -> w = 0).

Definition pins_ok `{PmmConfig} (s : Frames) : Prop :=
  match PINS s with
  | Some t => length t = MAX_PAGES /\ Forall word_ok t
  | None => True
  end.

(** The two states agree on everything the ledger does not own. *)
Definition same_frames (s s' : Frames) : Prop :=
  pmm s' = pmm s /\ REFCOUNTS s' = REFCOUNTS s /\ DEFERRED s' = DEFERRED s.

Section pins.
Context `{PmmConfig}.
Implicit Types (s : Frames) (q : nat) (phys : Z).

Lemma word_ok_0 : word_ok 0.
Proof. by split; [unfold in_word; lia|]. Qed.

Lemma pin_word_ok s q : pins_ok s -> word_ok (pin_word s q).
Proof.
  unfold pins_ok, pin_word. destruct (PINS s) as [t|]; [|intros; apply word_ok_0].
  intros [_ Ht]. destruct (Nat.ltb_spec q (length t)) as [Hq|]; [|apply word_ok_0].
  destruct (lookup_lt_is_Some_2 t q Hq) as [w Hw].
  rewrite (list_lookup_total_correct _ _ _ Hw). by eapply Forall_lookup_1.
Qed.

Lemma pin_count_word phys s : pin_count phys s = wcount (pin_word s (pfn phys)).
Proof.
  unfold pin_count, pin_word. destruct (PINS s) as [t|]; [|done].
  by destruct (pfn phys <? length t)%nat.
Qed.

(** Writing slot [i] of the table. *)
Lemma pin_write s t i w :
  PINS s = Some t -> pins_ok s -> (i < length t)%nat -> word_ok w ->
  let s' := with_PINS (Some (<[i := w]> t)) s in
  pins_ok s' /\ same_frames s s' /\
  forall q, pin_word s' q = if bool_decide (q = i) then w else pin_word s q.
Proof.
  intros Ht Hok Hi Hw s'. unfold pins_ok in *. rewrite Ht in Hok. destruct Hok as [Hl Hall].
  unfold s', same_frames, pin_word. rewrite Ht. destruct s; simpl in *.
  split_and!; [by rewrite length_insert|by apply Forall_insert|done..|].
  intros q. rewrite length_insert, list_lookup_total_insert.
  case_bool_decide as Hq.
  - subst. by rewrite (proj2 (Nat.ltb_lt _ _)), decide_True.
  - rewrite decide_False; [done|]. intros [? _]. congruence.
Qed.

(** Either frame [q] has no slot, and reads as zero, or it has one. *)
Lemma pin_slot s q :
  (pin_word s q = 0 /\
   match PINS s with Some t => (length t <=? q)%nat = true | None => True end) \/
  exists t, PINS s = Some t /\ (q < length t)%nat /\ (length t <=? q)%nat = false /\
            (q <? length t)%nat = true /\ t !!! q = pin_word s q.
Proof.
  unfold pin_word. destruct (PINS s) as [t|]; [|by left].
  destruct (Nat.ltb_spec q (length t)); [right|left].
  - exists t. split_and!; [done|done|by apply Nat.leb_gt|by apply Nat.ltb_lt|done].
  - split; [done|]. by apply Nat.leb_le.
Qed.

Lemma word_ok_make (b : bool) c :
  0 < c < 2 ^ 31 -> word_ok ((if b then 2 ^ 31 else 0) + c).
Proof.
  intros Hc. destruct (word_make b c) as (M1 & M2 & _); [lia|].
  split; [done|]. rewrite M2. lia.
Qed.

Lemma word_ok_pending w : word_ok w -> wcount w = 0 -> wpending w = false.
Proof. intros [_ H0] E. by rewrite (H0 E). Qed.

Lemma mark_pending_word w :
  word_ok w -> wcount w <> 0 -> wpending w = false ->
  let w' := w .| FREE_PENDING in
  word_ok w' /\ wcount w' = wcount w /\ wpending w' = true.
Proof.
  intros [Hw _] Hc Hp w'. pose proof (wcount_range w).
  assert (w' = 2 ^ 31 + wcount w) as ->.
  { unfold w'. rewrite lor_FREE_PENDING by done. rewrite (word_split w) at 1 by done.
    rewrite Hp. lia. }
  destruct (word_make true (wcount w)) as (_ & M2 & M3); [lia|].
  split; [|done]. apply (word_ok_make true). lia.
Qed.

Lemma unpin_word w :
  word_ok w -> wcount w <> 0 ->
  let w' := if wcount w - 1 =? 0 then 0 else (w .& FREE_PENDING) .| (wcount w - 1) in
  word_ok w' /\ wcount w' = wcount w - 1 /\ wpending w' = wpending w && (1 <? wcount w).
Proof.
  intros [Hw _] Hc w'. unfold w'. pose proof (wcount_range w).
  rewrite land_FREE_PENDING, lor_pending_count by (done || lia).
  destruct (word_make (wpending w) (wcount w - 1)) as (_ & M2 & M3); [lia|].
  destruct (Z.eqb_spec (wcount w - 1) 0) as [E|E].
  - rewrite E, (proj2 (Z.ltb_ge _ _)), andb_false_r by lia.
    split_and!; [apply word_ok_0|done|done].
  - rewrite (proj2 (Z.ltb_lt _ _)), andb_true_r by lia.
    split_and!; [apply word_ok_make; lia|done|done].
Qed.

Lemma mark_free_pending_spec phys s :
  pins_ok s ->
  let '(d, s') := mark_free_pending_if_pinned phys s in
  d = negb (wcount (pin_word s (pfn phys)) =? 0) /\ pins_ok s' /\ same_frames s s' /\
  (forall q, wcount (pin_word s' q) = wcount (pin_word s q)) /\
  (forall q, wpending (pin_word s' q) =
             wpending (pin_word s q) || (d && bool_decide (q = pfn phys))).
Proof.
  intros Hok. pose proof (pin_word_ok s (pfn phys) Hok) as Hw.
  unfold mark_free_pending_if_pinned.
  destruct (pin_slot s (pfn phys)) as [[-> Hn]|(t & Ht & Hi & Hle & _ & Hpw)].
  { destruct (PINS s); [rewrite Hn|]; split_and!; try done; intros; by rewrite orb_false_r. }
  rewrite Ht, Hle, Hpw. set (w := pin_word s (pfn phys)) in *. fold (wcount w).
  destruct (Z.eqb_spec (wcount w) 0) as [Hc|Hc].
  { split_and!; try done. intros. by rewrite orb_false_r. }
  rewrite land_FREE_PENDING by apply Hw. destruct (wpending w) eqn:Hp.
  { split_and!; try done. intros q. simpl. case_bool_decide; [|by rewrite orb_false_r].
    subst. by unfold w in Hp; rewrite Hp. }
  destruct (mark_pending_word w Hw Hc Hp) as (M1 & M2 & M3). simpl.
  destruct (pin_write s t (pfn phys) _ Ht Hok Hi M1) as (P1 & (P2 & P3 & P4) & P5).
  set (s1 := with_PINS _ s) in *.
  assert (forall q, pin_word (with_FREES_DEFERRED (add64 (FREES_DEFERRED s1) 1) s1) q
                    = pin_word s1 q) as E by (by destruct s1).
  split_and!; [done|by destruct s1|by destruct s1..| |].
  - intros q. rewrite E, P5. case_bool_decide; [|done]. by subst.
  - intros q. rewrite E, P5. case_bool_decide; [|by rewrite orb_false_r].
    by rewrite M3, orb_true_r.
Qed.

Lemma pin_spec phys s :
  pins_ok s -> pin_count phys s < COUNT_MASK ->
  let s' := pin phys s in
  pins_ok s' /\ same_frames s s' /\
  (forall q, wpending (pin_word s' q) = wpending (pin_word s q)) /\
  (forall q, q <> pfn phys -> pin_word s' q = pin_word s q) /\
  wcount (pin_word s (pfn phys)) <= wcount (pin_word s' (pfn phys)).
Proof.
  intros Hok. rewrite pin_count_word. unfold pin.
  pose proof (pin_word_ok s (pfn phys) Hok) as [Hw _].
  destruct (pin_slot s (pfn phys)) as [[_ Hn]|(t & Ht & Hi & _ & Hlt & Hpw)].
  { intros _. destruct (PINS s); [|done].
    by rewrite (proj2 (Nat.ltb_ge _ _)) by by apply Nat.leb_le. }
  rewrite Ht, Hlt, Hpw. set (w := pin_word s (pfn phys)) in *. intros Hcnt.
  pose proof (wcount_range w). unfold COUNT_MASK in Hcnt.
  destruct (word_make (wpending w) (wcount w + 1)) as (M1 & M2 & M3); [lia|].
  assert (wrap 32 (w + 1) = (if wpending w then 2 ^ 31 else 0) + (wcount w + 1)) as ->.
  { rewrite (word_split w) at 1 by done. rewrite <- Z.add_assoc. by apply wrap_small. }
  destruct (pin_write s t (pfn phys) _ Ht Hok Hi (word_ok_make (wpending w) (wcount w + 1) ltac:(lia)))
    as (P1 & P2 & P3).
  split_and!; [done|apply P2..| | |].
  - intros q. rewrite P3. case_bool_decide; [by subst|done].
  - intros q Hq. by rewrite P3, bool_decide_eq_false_2.
  - rewrite P3, bool_decide_eq_true_2, M2 by done. lia.
Qed.

Lemma unpin_ledger_spec phys s :
  pins_ok s ->
  let '(r, s') := unpin_ledger phys s in
  let w := pin_word s (pfn phys) in
  pins_ok s' /\ same_frames s s' /\
  (forall q, q <> pfn phys -> pin_word s' q = pin_word s q) /\
  wcount (pin_word s' (pfn phys)) = Z.max 0 (wcount w - 1) /\
  wpending (pin_word s' (pfn phys)) = wpending w && (1 <? wcount w) /\
  (r = FreeDue <-> wcount w = 1 /\ wpending w = true).
Proof.
  intros Hok. pose proof (pin_word_ok s (pfn phys) Hok) as Hw. unfold unpin_ledger.
  destruct (pin_slot s (pfn phys)) as [[Hz Hn]|(t & Ht & Hi & Hle & _ & Hpw)].
  { destruct (PINS s); [rewrite Hn|]; cbv zeta; rewrite Hz; split_and!; try done; by split; [|intros []]. }
  rewrite Ht, Hle, Hpw. set (w := pin_word s (pfn phys)) in *. fold (wcount w).
  destruct (Z.eqb_spec (wcount w) 0) as [Hc|Hc].
  { fold w. rewrite (word_ok_pending w Hw Hc), Hc. split_and!; try done; by split; [|intros []]. }
  pose proof (unpin_word w Hw Hc) as (W1 & W2 & W3). pose proof (wcount_range w).
  destruct (pin_write s t (pfn phys) _ Ht Hok Hi W1) as (P1 & P2 & P3).
  rewrite land_FREE_PENDING in * by apply Hw.
  assert ((wcount w - 1 =? 0) && negb ((if wpending w then 2 ^ 31 else 0) =? 0) =
          (wcount w =? 1) && wpending w) as ->.
  { f_equal; [|by destruct (wpending w)].
    destruct (Z.eqb_spec (wcount w - 1) 0), (Z.eqb_spec (wcount w) 1); (done || lia). }
  assert ((wcount w =? 1) && wpending w = true <-> wcount w = 1 /\ wpending w = true) as Hr
    by (rewrite andb_true_iff, Z.eqb_eq; done).
  destruct ((wcount w =? 1) && wpending w); cbv zeta;
    (split_and!; [done|apply P2..| | | |by rewrite <- Hr]).
  all: try by intros q Hq; rewrite P3, bool_decide_eq_false_2.
  all: rewrite P3, bool_decide_eq_true_2 by done; fold w; rewrite ?W2, ?W3; (done || lia).
Qed.

End pins.

(* ------------------------------------------------------------------ *)
(** ** What [free_page] does *)

(** The allocator fields of two PMM states agree (diagnostic counters may
    differ). *)
Definition same_alloc (a b : Pmm) : Prop :=
  BITMAP a = BITMAP b /\ USED_PAGES a = USED_PAGES b /\ TOTAL_PAGES a = TOTAL_PAGES b /\
  NEXT_FIT_BYTE a = NEXT_FIT_BYTE b /\
  KERNEL_IMAGE_PHYS_BASE a = KERNEL_IMAGE_PHYS_BASE b /\
  KERNEL_IMAGE_PHYS_END a = KERNEL_IMAGE_PHYS_END b.

#[global] Instance same_alloc_equiv : Equivalence same_alloc.
Proof.
  unfold same_alloc. split; [by intros ?|by intros ? ? (?&?&?&?&?&?)|].
  intros ? ? ? (?&?&?&?&?&?) (?&?&?&?&?&?). split_and!; etrans; eauto.
Qed.

(** The frame passes every refusal of [free_page] but the DMA pin. *)
Definition free_gate `{PmmConfig} (phys : Z) (s : Frames) : bool :=
  (pfn phys <? MAX_PAGES)%nat && negb (is_kernel_static_phys (pmm s) phys) &&
  negb (0 <? pte_share_count phys (REFCOUNTS s)).

Definition free_passes `{PmmConfig} (phys : Z) (s : Frames) : bool :=
  free_gate phys s && (wcount (pin_word s (pfn phys)) =? 0).

Section free.
Context `{PmmConfig}.
Implicit Types (s : Frames) (q : nat) (phys : Z).

Lemma free_page_spec phys s :
  pins_ok s ->
  let s' := free_page phys s in
  pins_ok s' /\ REFCOUNTS s' = REFCOUNTS s /\ DEFERRED s' = DEFERRED s /\
  same_alloc (pmm s')
    (if free_passes phys s then clear_page_locked (pfn phys) (pmm s) else pmm s) /\
  (forall q, wcount (pin_word s' q) = wcount (pin_word s q)) /\
  (forall q, wpending (pin_word s' q) =
     wpending (pin_word s q) ||
     (free_gate phys s && negb (wcount (pin_word s (pfn phys)) =? 0) &&
      bool_decide (q = pfn phys))).
Proof.
  intros Hok. unfold free_page, free_passes, free_gate.
  destruct (Nat.leb_spec MAX_PAGES (pfn phys)) as [Hp|Hp].
  { rewrite (proj2 (Nat.ltb_ge _ _)) by done. simpl.
    split_and!; try done. intros. by rewrite orb_false_r. }
  rewrite (proj2 (Nat.ltb_lt _ _)) by done. simpl.
  destruct (is_kernel_static_phys (pmm s) phys); simpl.
  { destruct s as [[] ? ? ? ? ? ? ? ?]. split_and!; try done. intros. by rewrite orb_false_r. }
  destruct (0 <? pte_share_count phys (REFCOUNTS s)); simpl.
  { destruct s as [[] ? ? ? ? ? ? ? ?]. split_and!; try done. intros. by rewrite orb_false_r. }
  pose proof (mark_free_pending_spec phys s Hok) as Hm.
  destruct (mark_free_pending_if_pinned phys s) as [d s1].
  destruct Hm as (-> & H1 & (H2 & H3 & H4) & H5 & H6).
  destruct (wcount (pin_word s (pfn phys)) =? 0); simpl in *.
  - destruct s1 as [p1 ? ? ? ? ? ? ? ?]; simpl in *; subst p1. by split_and!.
  - split_and!; try done. by rewrite H2.
Qed.

Lemma clear_page_alloc page (p : Pmm) :
  same_alloc (clear_page_locked page p)
    (if is_page_used_locked (BITMAP p) page
     then with_USED_PAGES (sub64 (USED_PAGES p) 1)
            (with_BITMAP (mark_page_free (BITMAP p) page) p)
     else p).
Proof. unfold clear_page_locked. destruct p; simpl. by case_match. Qed.

(** A bit is cleared only by a free of that frame which passes every gate. *)
Lemma free_page_used phys s q :
  pins_ok s -> bitmap_ok (BITMAP (pmm s)) ->
  is_page_used_locked (BITMAP (pmm (free_page phys s))) q =
  is_page_used_locked (BITMAP (pmm s)) q &&
  negb (free_passes phys s && bool_decide (q = pfn phys)).
Proof.
  intros Hok Hbm. pose proof (free_page_spec phys s Hok) as (_ & _ & _ & (-> & _) & _).
  destruct (free_passes phys s) eqn:Ef; [|by rewrite andb_true_r]. simpl.
  assert (pfn phys < MAX_PAGES)%nat as Hp.
  { unfold free_passes, free_gate in Ef. apply andb_true_iff in Ef as [Ef _].
    apply andb_true_iff in Ef as [Ef _]. apply andb_true_iff in Ef as [Ef _].
    by apply Nat.ltb_lt. }
  pose proof (clear_page_alloc (pfn phys) (pmm s)) as (-> & _).
  destruct (is_page_used_locked (BITMAP (pmm s)) (pfn phys)) eqn:Eu.
  - replace (BITMAP _) with (mark_page_free (BITMAP (pmm s)) (pfn phys)) by (by destruct (pmm s)).
    rewrite is_page_used_mark_free by done. apply andb_comm.
  - case_bool_decide; [subst; by rewrite Eu|by rewrite andb_true_r].
Qed.

End free.

(* ------------------------------------------------------------------ *)
(** ** The system invariant *)

Record frames_inv `{PmmConfig} (managed : nat -> bool) (s : Frames) : Prop := {
  fi_alloc : accounted managed (pmm s);
  fi_pins : pins_ok s;
  fi_pending : forall q, wpending (pin_word s q) = true -> managed q = true;
  fi_ring : Forall (fun e => e = 0 \/ managed (pfn e) = true) (DEFERRED s);
  fi_ring_len : length (DEFERRED s) = DEFERRED_CAP
}.

Section invariant.
Context `{PmmConfig} (managed : nat -> bool).
Implicit Types (s : Frames) (q : nat) (phys : Z).

#[global] Instance accounted_proper : Proper (same_alloc ==> iff) (accounted managed).
Proof.
  assert (forall a b, same_alloc a b -> accounted managed a -> accounted managed b) as Hd.
  { intros a b (H1 & H2 & H3 & H4 & _) [Hl Ht Hc].
    split; [by rewrite <- H1, <- H2|by rewrite <- H3|by rewrite <- H4]. }
  intros a b Hab. split; [by apply Hd|]. apply Hd. by symmetry.
Qed.

Lemma accounted_clear p page :
  accounted managed p -> (page < MAX_PAGES)%nat -> managed page = true ->
  accounted managed (clear_page_locked page p).
Proof.
  intros Ha Hp Hm. rewrite clear_page_alloc.
  destruct (is_page_used_locked (BITMAP p) page) eqn:Eu; [|done].
  destruct (ledger_mark_free managed _ _ page (accounted_ledger _ _ Ha) Hp Hm Eu) as [Hl H1].
  pose proof (accounted_bounds _ _ Ha) as (Hu & Ht & _). pose proof MAX_PAGES_u64.
  unfold PAGE_SIZE in *. destruct Ha as [_ Htot Hc]. destruct p; simpl in *.
  split; simpl; [|done|done].
  rewrite sub64_small by (unfold U64_MAX in *; lia). done.
Qed.

Lemma free_passes_lt phys s : free_passes phys s = true -> (pfn phys < MAX_PAGES)%nat.
Proof. unfold free_passes, free_gate. rewrite !andb_true_iff, Nat.ltb_lt. tauto. Qed.

Lemma frames_inv_free phys s :
  frames_inv managed s -> managed (pfn phys) = true -> frames_inv managed (free_page phys s).
Proof.
  intros [Ha Hp Hpend Hr Hl] Hm.
  pose proof (free_page_spec phys s Hp) as (H1 & H2 & H3 & H4 & H5 & H6).
  split; [|done| |by rewrite H3..].
  - rewrite H4. destruct (free_passes phys s) eqn:Ef; [|done].
    apply accounted_clear; [done|by apply free_passes_lt in Ef|done].
  - intros q. rewrite H6. intros [Hq|Hq]%orb_true_iff; [by apply Hpend|].
    apply andb_true_iff in Hq as [_ Hq%bool_decide_eq_true]. by subst.
Qed.

(** Changes that keep the allocator, and only lose pending marks. *)
Lemma frames_inv_same s s' :
  frames_inv managed s -> same_frames s s' -> pins_ok s' ->
  (forall q, wpending (pin_word s' q) = true -> wpending (pin_word s q) = true) ->
  frames_inv managed s'.
Proof.
  intros [Ha Hp Hpend Hr Hl] (E1 & _ & E2) Hp' Hw.
  split; [by rewrite E1|done|by intros q Hq; apply Hpend, Hw|by rewrite E2..].
Qed.

Lemma frames_inv_ring k e s :
  frames_inv managed s -> e = 0 \/ managed (pfn e) = true ->
  frames_inv managed (with_DEFERRED (<[k := e]> (DEFERRED s)) s).
Proof.
  intros [Ha Hp Hpend Hr Hl] He. destruct s. split; [done..| |].
  - by apply Forall_insert.
  - by simpl; rewrite length_insert.
Qed.

Lemma frames_inv_pmm p s :
  frames_inv managed s -> accounted managed p -> frames_inv managed (with_pmm p s).
Proof. intros [Ha Hp Hpend Hr Hl] Ha'. destruct s. by split. Qed.

Lemma ring_lookup s k :
  frames_inv managed s -> (k < DEFERRED_CAP)%nat ->
  DEFERRED s !!! k = 0 \/ managed (pfn (DEFERRED s !!! k)) = true.
Proof.
  intros Hi Hk. rewrite <- (fi_ring_len _ _ Hi) in Hk.
  destruct (lookup_lt_is_Some_2 _ _ Hk) as [e He].
  rewrite (list_lookup_total_correct _ _ _ He).
  apply (Forall_lookup_1 _ _ _ _ (fi_ring _ _ Hi) He).
Qed.

(** ** Transitions that add no pin

    Such a transition keeps the invariant, never raises a pin count, and
    clears the bit of no frame that is pinned afterwards. *)

Definition used s q : bool := is_page_used_locked (BITMAP (pmm s)) q.

Definition keeps_pinned s s' : Prop :=
  forall q, (q < MAX_PAGES)%nat -> used s q = true -> 0 < wcount (pin_word s' q) ->
            used s' q = true.

Definition no_new_pin s s' : Prop :=
  frames_inv managed s ->
  frames_inv managed s' /\ keeps_pinned s s' /\
  forall q, wcount (pin_word s' q) <= wcount (pin_word s q).

#[global] Instance no_new_pin_preorder : PreOrder no_new_pin.
Proof.
  split; [by intros s Hs; split_and!; [|intros ?|]|].
  intros a b c Hab Hbc Ha. destruct (Hab Ha) as (Hb & H1 & H2).
  destruct (Hbc Hb) as (Hc & H3 & H4). split_and!; [done| |].
  - intros q Hlt Hq Hn. apply H3; [done| |done]. apply H1; [done..|]. specialize (H4 q). lia.
  - intros q. etrans; [apply H4|apply H2].
Qed.

Lemma no_new_pin_intro s s' : (frames_inv managed s -> no_new_pin s s') -> no_new_pin s s'.
Proof. intros Hn Hs. by apply Hn. Qed.

Lemma no_new_pin_fold {A} (f : Frames -> A -> Frames) (l : list A) s :
  (forall s x, x ∈ l -> no_new_pin s (f s x)) -> no_new_pin s (fold_left f l s).
Proof.
  revert s. induction l as [|x l IH]; intros s Hf; [by simpl|]. cbn [fold_left].
  etrans; [apply Hf; left|]. apply IH. intros s' y Hy. apply Hf. by right.
Qed.

(** The allocator and the ledger are untouched, or the allocator only gains
    used frames. *)
Lemma no_new_pin_mono s s' :
  (frames_inv managed s -> frames_inv managed s') ->
  (frames_inv managed s ->
     forall q, (q < MAX_PAGES)%nat -> used s q = true -> used s' q = true) ->
  PINS s' = PINS s -> no_new_pin s s'.
Proof.
  intros Hi Hu Hp Hs. split_and!; [by apply Hi|intros q Hlt Hq _; by apply Hu|].
  intros q. unfold pin_word. by rewrite Hp.
Qed.

Lemma no_new_pin_free phys s : managed (pfn phys) = true -> no_new_pin s (free_page phys s).
Proof.
  intros Hm Hs. split; [by apply frames_inv_free|].
  pose proof (free_page_spec phys s (fi_pins _ _ Hs)) as (_ & _ & _ & _ & H5 & _).
  split; [|intros q; by rewrite H5].
  intros q _ Hq Hc. unfold used. rewrite free_page_used
    by (apply Hs || apply (ledger_ok _ _ _ (accounted_ledger _ _ (fi_alloc _ _ Hs)))).
  unfold used in Hq. rewrite Hq. simpl. apply negb_true_iff.
  case_bool_decide; [subst|by rewrite andb_false_r].
  unfold free_passes. rewrite H5 in Hc. rewrite (proj2 (Z.eqb_neq _ _)) by lia.
  by rewrite andb_false_r.
Qed.
End invariant.

(* ------------------------------------------------------------------ *)
(** ** The ring of deferred frees, unpinning and allocation *)

Section transitions.
Context `{PmmConfig} (managed : nat -> bool).
Implicit Types (s : Frames) (q : nat) (phys : Z).

Lemma push_deferred_loop_pins phys start idxs s :
  PINS (push_deferred_loop phys start idxs s) = PINS s /\
  pmm (push_deferred_loop phys start idxs s) = pmm s /\
  REFCOUNTS (push_deferred_loop phys start idxs s) = REFCOUNTS s.
Proof.
  induction idxs as [|i idxs IH]; simpl; [by destruct s|].
  case_match; [by destruct s|done].
Qed.

Lemma push_deferred_loop_inv phys start idxs s :
  managed (pfn phys) = true -> frames_inv managed s ->
  frames_inv managed (push_deferred_loop phys start idxs s).
Proof.
  intros Hm Hs. induction idxs as [|i idxs IH]; simpl.
  { destruct Hs. destruct s. by split. }
  case_match; [|done]. apply frames_inv_ring; [done|by right].
Qed.

Lemma no_new_pin_push phys s : managed (pfn phys) = true -> no_new_pin managed s (push_deferred phys s).
Proof.
  intros Hm. unfold push_deferred. case_match; [reflexivity|].
  set (s1 := with_DEFERRED_CURSOR _ s).
  pose proof (push_deferred_loop_pins phys (DEFERRED_CURSOR s) (seq 0 DEFERRED_CAP) s1)
    as (E1 & E2 & _).
  apply no_new_pin_mono.
  - intros Hs. apply push_deferred_loop_inv; [done|]. destruct Hs. by destruct s; split.
  - intros _ q _. unfold used. rewrite E2. by destruct s.
  - rewrite E1. by destruct s.
Qed.

Lemma no_new_pin_DEFERRED_FREED f s : no_new_pin managed s (with_DEFERRED_FREED f s).
Proof. apply no_new_pin_mono; [by intros []; destruct s; split|by destruct s..]. Qed.

Lemma no_new_pin_drain_slot s k :
  (k < DEFERRED_CAP)%nat -> no_new_pin managed s (drain_slot s k).
Proof.
  intros Hk. apply no_new_pin_intro. intros Hs. unfold drain_slot.
  destruct (Z.eqb_spec (DEFERRED s !!! k) 0) as [E|E]; [reflexivity|].
  destruct (ring_lookup managed s k Hs Hk) as [|Hm]; [done|].
  etrans; [|by apply no_new_pin_free]. etrans; [|apply no_new_pin_DEFERRED_FREED].
  apply no_new_pin_mono; [intros; apply frames_inv_ring; by eauto|by destruct s|by destruct s].
Qed.

Lemma no_new_pin_drain s : no_new_pin managed s (drain_deferred s).
Proof.
  apply no_new_pin_fold. intros s' k Hk. apply no_new_pin_drain_slot.
  apply elem_of_seq in Hk. lia.
Qed.

Lemma no_new_pin_drain_if_due now s : no_new_pin managed s (drain_deferred_if_due now s).
Proof.
  unfold drain_deferred_if_due. case_match; [reflexivity|].
  etrans; [|apply no_new_pin_drain].
  apply no_new_pin_mono; [by intros []; destruct s; split|by destruct s..].
Qed.

Lemma unpin_ledger_pins phys s :
  let '(r, s') := unpin_ledger phys s in
  no_new_pin managed s s' /\
  (frames_inv managed s -> r = FreeDue -> managed (pfn phys) = true).
Proof.
  pose proof (unpin_ledger_spec phys s) as Hl. destruct (unpin_ledger phys s) as [r s'].
  split; intros Hs; specialize (Hl (fi_pins _ _ Hs)) as (H1 & H2 & H3 & H4 & H5 & H6).
  - split_and!.
    + apply (frames_inv_same managed s); [done..|]. intros q.
      destruct (decide (q = pfn phys)) as [->|Hq]; [|by rewrite H3].
      rewrite H5. by intros [? _]%andb_true_iff.
    + intros q _ Hq _. unfold used in *. by destruct H2 as [-> _].
    + intros q. destruct (decide (q = pfn phys)) as [->|Hq]; [|by rewrite H3].
      rewrite H4. pose proof (wcount_range (pin_word s (pfn phys))). lia.
  - intros Hr. apply (fi_pending _ _ Hs). by apply H6.
Qed.

Lemma no_new_pin_unpin phys can s : no_new_pin managed s (unpin phys can s).
Proof.
  unfold unpin. pose proof (unpin_ledger_pins phys s) as Hl.
  destruct (unpin_ledger phys s) as [r s']. destruct Hl as [Hl Hm].
  destruct r; [done| |done]. apply no_new_pin_intro. intros Hs. specialize (Hm Hs eq_refl).
  etrans; [exact Hl|]. destruct can.
  - etrans; [apply no_new_pin_DEFERRED_FREED|by apply no_new_pin_free].
  - by apply no_new_pin_push.
Qed.

Lemma no_new_pin_unpin_range phys len can s :
  no_new_pin managed s (unpin_range phys len can s).
Proof.
  unfold unpin_range. destruct (page_span phys len) as [first count].
  etrans; [|apply no_new_pin_fold; intros; apply no_new_pin_unpin].
  destruct can; [apply no_new_pin_drain|reflexivity].
Qed.

(** Allocator operations that only set bits. *)
Lemma no_new_pin_pmm p s :
  (accounted managed (pmm s) -> accounted managed p) ->
  (accounted managed (pmm s) -> forall q, (q < MAX_PAGES)%nat ->
     page_free (BITMAP p) q = true -> page_free (BITMAP (pmm s)) q = true) ->
  no_new_pin managed s (with_pmm p s).
Proof.
  intros Ha Hu. apply no_new_pin_mono; [| |by destruct s].
  - intros Hs. apply frames_inv_pmm; [done|]. apply Ha, Hs.
  - intros Hs q Hq. specialize (Hu (fi_alloc _ _ Hs) q Hq). unfold used, page_free in *.
    replace (pmm (with_pmm p s)) with p by (by destruct s).
    destruct (is_page_used_locked (BITMAP p) q); [done|]. intros Hx. rewrite Hx in Hu. by specialize (Hu eq_refl).
Qed.

Lemma no_new_pin_alloc_page s :
  no_new_pin managed s (with_pmm (snd (alloc_page_locked (pmm s))) s).
Proof.
  apply no_new_pin_pmm; [by apply accounted_alloc_page|]. intros [[Hok _ _] _ Hc] q Hq.
  pose proof (alloc_page_locked_cases (pmm s) Hok Hc) as Hs.
  destruct (alloc_page_locked (pmm s)) as [[a|] p]; simpl.
  - destruct Hs as (? & _ & _ & _ & Hf). rewrite Hf. by intros [_ ?]%andb_true_iff.
  - by destruct Hs as [-> _].
Qed.

Lemma no_new_pin_alloc_pages count s :
  no_new_pin managed s (with_pmm (snd (alloc_pages count (pmm s))) s).
Proof.
  apply no_new_pin_pmm; [by apply accounted_alloc_pages|]. intros [[Hok _ _] _ _] q Hq.
  pose proof (alloc_pages_cases (pmm s) count Hok) as Hs.
  destruct (alloc_pages count (pmm s)) as [[a|] p]; simpl.
  - destruct Hs as (? & _ & _ & _ & _ & Hf). rewrite Hf. by intros [_ ?]%andb_true_iff.
  - by destruct Hs as [-> _].
Qed.

Lemma no_new_pin_reserve a b s :
  no_new_pin managed s (with_pmm (reserve_range a b (pmm s)) s).
Proof.
  apply no_new_pin_pmm; [by apply accounted_reserve_range|]. intros [[Hok _ _] _ _] q Hq.
  rewrite reserve_range_free by done. by intros [? _]%andb_true_iff.
Qed.

Lemma no_new_pin_try_alloc now s : no_new_pin managed s (snd (try_alloc_page now s)).
Proof.
  unfold try_alloc_page. etrans; [apply (no_new_pin_drain_if_due now)|].
  pose proof (no_new_pin_alloc_page (drain_deferred_if_due now s)) as Ha.
  by destruct (alloc_page_locked _).
Qed.

Lemma no_new_pin_REFCOUNTS r s : no_new_pin managed s (with_REFCOUNTS r s).
Proof. apply no_new_pin_mono; [by intros []; destruct s; split|by destruct s..]. Qed.

Lemma frames_inv_pin phys s :
  frames_inv managed s -> pin_count phys s < COUNT_MASK -> frames_inv managed (pin phys s).
Proof.
  intros Hs Hc. destruct (pin_spec phys s (fi_pins _ _ Hs) Hc) as (H1 & H2 & H3 & _).
  apply (frames_inv_same managed s); [done..|]. intros q. by rewrite H3.
Qed.

Lemma frames_inv_pin_init s : frames_inv managed s -> frames_inv managed (dma_pin_init s).
Proof.
  intros [Ha Hp Hpend Hr Hl]. unfold dma_pin_init. destruct (PINS s) eqn:E; [by split|].
  assert (forall q, pin_word (with_PINS (Some (replicate MAX_PAGES 0)) s) q = 0) as Hz.
  { intros q. unfold pin_word. destruct s; simpl. rewrite length_replicate.
    destruct (Nat.ltb_spec q MAX_PAGES); [|done]. by rewrite lookup_total_replicate_2. }
  split; try by destruct s.
  - unfold pins_ok. destruct s; simpl. rewrite length_replicate. split; [done|].
    apply Forall_replicate, word_ok_0.
  - intros q. by rewrite Hz.
Qed.
End transitions.

(* ------------------------------------------------------------------ *)
(** ** Reachable states

    One step is one call of the frame layer. A caller frees only frames of
    the allocator's domain, and the 31-bit pin count of a frame never
    overflows into the pending flag: these are the two obligations the code
    leaves to its callers. *)

Inductive frames_step `{PmmConfig} (managed : nat -> bool) : Frames -> Frames -> Prop :=
  | fs_try_alloc now s : frames_step managed s (snd (try_alloc_page now s))
  | fs_alloc_retry s :
      frames_step managed s (with_pmm (snd (alloc_page_locked (pmm s))) s)
  | fs_alloc_pages count s :
      frames_step managed s (with_pmm (snd (alloc_pages count (pmm s))) s)
  | fs_reserve_range a b s :
      frames_step managed s (with_pmm (reserve_range a b (pmm s)) s)
  | fs_free_page phys s :
      managed (pfn phys) = true -> frames_step managed s (free_page phys s)
  | fs_pin_init s : frames_step managed s (dma_pin_init s)
  | fs_pin phys s :
      pin_count phys s < COUNT_MASK -> frames_step managed s (pin phys s)
  | fs_unpin phys can_free_now s : frames_step managed s (unpin phys can_free_now s)
  | fs_unpin_range phys len can_free_now s :
      frames_step managed s (unpin_range phys len can_free_now s)
  | fs_drain_deferred s : frames_step managed s (drain_deferred s)
  | fs_drain_if_due now s : frames_step managed s (drain_deferred_if_due now s)
  | fs_refcount_init s :
      frames_step managed s (with_REFCOUNTS (refcount_init (REFCOUNTS s)) s)
  | fs_page_ref_inc phys r s :
      page_ref_inc phys (REFCOUNTS s) = Some r ->
      frames_step managed s (with_REFCOUNTS r s)
  | fs_page_ref_dec phys n r s :
      page_ref_dec phys (REFCOUNTS s) = Some (n, r) ->
      frames_step managed s (with_REFCOUNTS r s)
  | fs_page_ref_set phys count s :
      frames_step managed s (with_REFCOUNTS (page_ref_set phys count (REFCOUNTS s)) s).

(** The statics before any call: no tables, an empty ring. *)
Definition frames_boot (p : Pmm) : Frames :=
  mkFrames p None None (replicate DEFERRED_CAP 0) 0 0 0 0 0.

Section reachable.
Context `{PmmConfig} (managed : nat -> bool).
Implicit Types (s : Frames) (q : nat).

Lemma frames_boot_inv p : accounted managed p -> frames_inv managed (frames_boot p).
Proof.
  intros Ha. split; [done..| |done]. apply (Forall_replicate _ DEFERRED_CAP). by left.
Qed.

(** Every step keeps the invariant and every frame that is pinned after it. *)
Lemma frames_step_keeps s s' :
  frames_step managed s s' -> frames_inv managed s ->
  frames_inv managed s' /\ keeps_pinned s s'.
Proof.
  intros Hst Hs.
  assert (no_new_pin managed s s' -> frames_inv managed s' /\ keeps_pinned s s') as Hn.
  { intros Hn. destruct (Hn Hs) as (? & ? & _). done. }
  destruct Hst.
  all: try by apply Hn; eauto using no_new_pin_try_alloc, no_new_pin_alloc_page,
    no_new_pin_alloc_pages, no_new_pin_reserve, no_new_pin_free, no_new_pin_unpin,
    no_new_pin_unpin_range, no_new_pin_drain, no_new_pin_drain_if_due, no_new_pin_REFCOUNTS.
  - split; [by apply frames_inv_pin_init|]. intros q _ Hq _. unfold used, dma_pin_init in *.
    by destruct s as [p r [pi|] d o f fd c l].
  - split; [by apply frames_inv_pin|]. intros q _ Hq _. unfold used in *.
    destruct (pin_spec phys s (fi_pins _ _ Hs) ltac:(done)) as (_ & [-> _] & _). done.
Qed.

Lemma frames_reachable_inv s s' :
  frames_inv managed s -> rtc (frames_step managed) s s' -> frames_inv managed s'.
Proof. intros Hs Hr. induction Hr; [done|]. by apply IHHr, frames_step_keeps with x. Qed.
End reachable.

(* ------------------------------------------------------------------ *)
(** ** Completion of deferred frees *)

Section deferred.
Context `{PmmConfig} (managed : nat -> bool).
Implicit Types (s : Frames) (q k : nat) (phys : Z).

(** [free_gate] depends on the refcount table and the kernel-image range
    only. *)
Lemma free_gate_same phys s s' :
  REFCOUNTS s' = REFCOUNTS s ->
  KERNEL_IMAGE_PHYS_BASE (pmm s') = KERNEL_IMAGE_PHYS_BASE (pmm s) ->
  KERNEL_IMAGE_PHYS_END (pmm s') = KERNEL_IMAGE_PHYS_END (pmm s) ->
  free_gate phys s' = free_gate phys s.
Proof. intros E1 E2 E3. unfold free_gate, is_kernel_static_phys. by rewrite E1, E2, E3. Qed.

Lemma clear_page_image n (p : Pmm) :
  KERNEL_IMAGE_PHYS_BASE (clear_page_locked n p) = KERNEL_IMAGE_PHYS_BASE p /\
  KERNEL_IMAGE_PHYS_END (clear_page_locked n p) = KERNEL_IMAGE_PHYS_END p.
Proof. unfold clear_page_locked. destruct p; simpl. by case_match. Qed.

Lemma free_page_gate phys phys' s :
  pins_ok s -> free_gate phys (free_page phys' s) = free_gate phys s.
Proof.
  intros Hp. pose proof (free_page_spec phys' s Hp) as (_ & Hr & _ & (_&_&_&_&E1&E2) & _).
  apply free_gate_same; [done|rewrite E1|rewrite E2];
    destruct (free_passes phys' s); try done; apply clear_page_image.
Qed.

Lemma free_page_passes phys phys' s :
  pins_ok s -> free_passes phys (free_page phys' s) = free_passes phys s.
Proof.
  intros Hp. unfold free_passes. rewrite free_page_gate by done.
  pose proof (free_page_spec phys' s Hp) as (_ & _ & _ & _ & Hc & _). by rewrite Hc.
Qed.

Lemma free_page_clears phys s :
  frames_inv managed s -> free_passes phys s = true -> used (free_page phys s) (pfn phys) = false.
Proof.
  intros Hs Hp. unfold used. rewrite free_page_used, Hp, bool_decide_eq_true_2
    by (done || apply Hs || apply (ledger_ok _ _ _ (accounted_ledger _ _ (fi_alloc _ _ Hs)))).
  apply andb_false_r.
Qed.

Lemma free_page_stays_free phys s q :
  frames_inv managed s -> used s q = false -> used (free_page phys s) q = false.
Proof.
  intros Hs Hq. unfold used in *. rewrite free_page_used, Hq
    by (apply Hs || apply (ledger_ok _ _ _ (accounted_ledger _ _ (fi_alloc _ _ Hs)))). done.
Qed.

Lemma drain_slot_eq s k :
  DEFERRED s !!! k <> 0 ->
  exists s1, drain_slot s k = free_page (DEFERRED s !!! k) s1 /\
    pmm s1 = pmm s /\ REFCOUNTS s1 = REFCOUNTS s /\ PINS s1 = PINS s /\
    DEFERRED s1 = <[k := 0]> (DEFERRED s).
Proof.
  intros Hk. unfold drain_slot. rewrite (proj2 (Z.eqb_neq _ _)) by done.
  eexists. split; [done|]. by destruct s.
Qed.

(** A drain of the slots [idxs] frees the frame parked in slot [k]. *)
Lemma drain_slots_free phys k idxs s :
  frames_inv managed s -> Forall (fun i => (i < DEFERRED_CAP)%nat) idxs ->
  free_passes phys s = true ->
  used s (pfn phys) = false \/ (k ∈ idxs /\ DEFERRED s !!! k = phys /\ phys <> 0) ->
  used (fold_left drain_slot idxs s) (pfn phys) = false.
Proof.
  revert s. induction idxs as [|i idxs IH]; intros s Hs Hi Hp Hor; cbn [fold_left].
  { destruct Hor as [?|[Hk _]]; [done|]. by apply elem_of_nil in Hk. }
  apply Forall_cons_iff in Hi as [Hi Hidx].
  destruct (no_new_pin_drain_slot managed s i Hi Hs) as (Hs' & _ & _).
  destruct (decide (DEFERRED s !!! i = 0)) as [E0|E0].
  { assert (drain_slot s i = s) as E by (unfold drain_slot; by rewrite E0).
    rewrite E in *. apply IH; [done..|]. destruct Hor as [?|(Hk & Ek & Hn)]; [by left|].
    apply elem_of_cons in Hk as [->|Hk]; [congruence|by right]. }
  destruct (drain_slot_eq s i E0) as (s1 & E & E1 & E2 & E3 & E4). rewrite E in *.
  assert (frames_inv managed s1) as Hs1.
  { destruct Hs as [Ha Hpo Hpe Hr Hl]. split.
    - by rewrite E1.
    - unfold pins_ok in *. by rewrite E3.
    - intros q. unfold pin_word. rewrite E3. apply Hpe.
    - rewrite E4. apply Forall_insert; [done|by left].
    - by rewrite E4, length_insert. }
  assert (free_passes phys s1 = true) as Hp1.
  { revert Hp. unfold free_passes, pin_word, free_gate, is_kernel_static_phys.
    by rewrite E1, E2, E3. }
  apply IH; [done|done|by rewrite free_page_passes by apply Hs1|].
  destruct Hor as [Hu|(Hk & Ek & Hn)].
  { left. apply free_page_stays_free; [done|]. unfold used in *. by rewrite E1. }
  destruct (decide (i = k)) as [->|Hik].
  { left. rewrite Ek. by apply free_page_clears. }
  right. split; [by apply elem_of_cons in Hk as [->|?]|]. split; [|done].
  pose proof (free_page_spec (DEFERRED s !!! i) s1 (fi_pins _ _ Hs1)) as (_ & _ & -> & _).
  rewrite E4, list_lookup_total_insert_ne; done.
Qed.

(** An unpin that is not the last one only lowers the count. *)
Lemma unpin_not_last phys can s :
  pins_ok s -> 1 < wcount (pin_word s (pfn phys)) ->
  let s' := unpin phys can s in
  pins_ok s' /\ same_frames s s' /\
  wcount (pin_word s' (pfn phys)) = wcount (pin_word s (pfn phys)) - 1 /\
  wpending (pin_word s' (pfn phys)) = wpending (pin_word s (pfn phys)).
Proof.
  intros Hp Hc. unfold unpin. pose proof (unpin_ledger_spec phys s Hp) as Hl.
  destruct (unpin_ledger phys s) as [r s']. destruct Hl as (H1 & H2 & _ & H4 & H5 & H6).
  rewrite (proj2 (Z.ltb_lt _ _)), andb_true_r in H5 by lia.
  assert (r <> FreeDue) by (intros E; apply H6 in E; lia).
  destruct r; [|done|]; (split_and!; [done|apply H2..|lia|done]).
Qed.

Lemma unpin_iter phys k s :
  pins_ok s -> Z.of_nat k < wcount (pin_word s (pfn phys)) ->
  let s' := Nat.iter k (unpin phys true) s in
  pins_ok s' /\ same_frames s s' /\
  wcount (pin_word s' (pfn phys)) = wcount (pin_word s (pfn phys)) - Z.of_nat k /\
  wpending (pin_word s' (pfn phys)) = wpending (pin_word s (pfn phys)).
Proof.
  intros Hp. induction k as [|k IH]; intros Hk; [by split_and!; [|done..|simpl; lia|]|].
  destruct IH as (H1 & (E1 & E2 & E3) & H3 & H4); [lia|].
  rewrite Nat.iter_succ. set (s1 := Nat.iter k _ s) in *.
  destruct (unpin_not_last phys true s1 H1 ltac:(lia)) as (G1 & (F1 & F2 & F3) & G3 & G4).
  unfold same_frames. rewrite F1, F2, F3, E1, E2, E3, G3, G4, H3, H4.
  split_and!; [done..|lia|done].
Qed.

(** The last unpin of a frame with a pending free. *)
Lemma unpin_last phys can s :
  pins_ok s -> wcount (pin_word s (pfn phys)) = 1 -> wpending (pin_word s (pfn phys)) = true ->
  exists s1, same_frames s s1 /\ no_new_pin managed s s1 /\
    wcount (pin_word s1 (pfn phys)) = 0 /\
    unpin phys can s = if can then free_page phys s1 else push_deferred phys s1.
Proof.
  intros Hp Hc Hpe. unfold unpin. pose proof (unpin_ledger_spec phys s Hp) as Hl.
  pose proof (unpin_ledger_pins managed phys s) as Hn.
  destruct (unpin_ledger phys s) as [r s']. destruct Hn as [Hn _].
  destruct Hl as (_ & H2 & _ & H4 & _ & H6).
  rewrite (proj2 H6 (conj Hc Hpe)). destruct can.
  - exists (with_DEFERRED_FREED (add64 (DEFERRED_FREED s') 1) s').
    split_and!; try by destruct s'; apply H2.
    + etrans; [exact Hn|apply no_new_pin_DEFERRED_FREED].
    + destruct s'; unfold pin_word in *; simpl in *. lia.
    + done.
  - exists s'. split_and!; [apply H2..|done| |done]. lia.
Qed.

(** A ring with an empty slot takes the frame. *)
Lemma push_deferred_loop_stores phys start idxs s :
  let slot i := Z.to_nat (add64 start (Z.of_nat i) mod Z.of_nat DEFERRED_CAP) in
  length (DEFERRED s) = DEFERRED_CAP ->
  (exists i, i ∈ idxs /\ DEFERRED s !!! slot i = 0) ->
  exists k, (k < DEFERRED_CAP)%nat /\
    DEFERRED (push_deferred_loop phys start idxs s) !!! k = phys.
Proof.
  intros slot Hl (i & Hi & Hz). induction idxs as [|j idxs IH]; [by apply elem_of_nil in Hi|].
  simpl. fold (slot j). destruct (Z.eqb_spec (DEFERRED s !!! slot j) 0) as [E|E].
  - assert (slot j < DEFERRED_CAP)%nat as Hj.
    { unfold slot. pose proof (Z.mod_pos_bound (add64 start (Z.of_nat j)) (Z.of_nat DEFERRED_CAP)
        ltac:(done)). lia. }
    exists (slot j). split; [done|]. destruct s; simpl in *.
    apply list_lookup_total_insert_eq. lia.
  - apply IH. apply elem_of_cons in Hi as [->|]; done.
Qed.

Lemma ring_slot_hit start k :
  (k < DEFERRED_CAP)%nat -> exists i, i ∈ seq 0 DEFERRED_CAP /\
    Z.to_nat (add64 start (Z.of_nat i) mod Z.of_nat DEFERRED_CAP) = k.
Proof.
  intros Hk. change (Z.of_nat DEFERRED_CAP) with 256.
  unfold DEFERRED_CAP in *. exists (Z.to_nat ((Z.of_nat k - start) mod 256)).
  pose proof (Z.mod_pos_bound (Z.of_nat k - start) 256 ltac:(done)).
  split; [apply elem_of_seq; lia|]. rewrite Z2Nat.id by lia.
  unfold add64, wrap. rewrite <- Znumtheory.Zmod_div_mod by (done || by exists (2 ^ 56)).
  rewrite Zplus_mod_idemp_r. replace (start + (Z.of_nat k - start)) with (Z.of_nat k) by lia.
  rewrite Z.mod_small; lia.
Qed.

Lemma push_deferred_stores phys s :
  length (DEFERRED s) = DEFERRED_CAP -> phys <> 0 ->
  (exists k, (k < DEFERRED_CAP)%nat /\ DEFERRED s !!! k = 0) ->
  let s' := push_deferred phys s in
  pmm s' = pmm s /\ PINS s' = PINS s /\ REFCOUNTS s' = REFCOUNTS s /\
  exists k, (k < DEFERRED_CAP)%nat /\ DEFERRED s' !!! k = phys.
Proof.
  intros Hl Hn (k & Hk & Hz). unfold push_deferred. rewrite (proj2 (Z.eqb_neq _ _)) by done.
  set (s1 := with_DEFERRED_CURSOR _ s).
  destruct (push_deferred_loop_pins phys (DEFERRED_CURSOR s) (seq 0 DEFERRED_CAP) s1)
    as (E1 & E2 & E3).
  split_and!; [rewrite E2; by destruct s|rewrite E1; by destruct s|rewrite E3; by destruct s|].
  apply push_deferred_loop_stores; [by destruct s|].
  destruct (ring_slot_hit (DEFERRED_CURSOR s) k Hk) as (i & Hi & Ei).
  exists i. split; [done|]. rewrite Ei. by destruct s.
Qed.

(** The states between a deferred free and the last unpin. *)
Lemma deferred_free_pending phys s (n k : nat) :
  frames_inv managed s -> managed (pfn phys) = true ->
  used s (pfn phys) = true -> free_gate phys s = true ->
  wcount (pin_word s (pfn phys)) = Z.of_nat (S n) -> (k <= n)%nat ->
  let t := Nat.iter k (unpin phys true) (free_page phys s) in
  frames_inv managed t /\ used t (pfn phys) = true /\ free_gate phys t = true /\
  wcount (pin_word t (pfn phys)) = Z.of_nat (S n - k) /\
  wpending (pin_word t (pfn phys)) = true /\ DEFERRED t = DEFERRED s.
Proof.
  intros Hs Hm Hu Hg Hc Hk t.
  pose proof (free_page_spec phys s (fi_pins _ _ Hs)) as (P1 & P2 & P3 & P4 & P5 & P6).
  assert (free_passes phys s = false) as Hfp.
  { unfold free_passes. rewrite Hc. apply andb_false_r. }
  rewrite Hfp in P4.
  destruct (unpin_iter phys k (free_page phys s) P1) as (_ & (E1 & E2 & E3) & Hcn & Hpn);
    [rewrite P5; lia|]. fold t in E1, E2, E3, Hcn, Hpn.
  split_and!.
  - unfold t. clear -Hs Hm. induction k as [|k IH]; [by apply frames_inv_free|].
    by apply (no_new_pin_unpin managed phys true) in IH as [? _].
  - unfold used. rewrite E1. by destruct P4 as (-> & _).
  - rewrite <- Hg, <- (free_page_gate phys phys s) by apply Hs.
    apply free_gate_same; by rewrite ?E1, ?E2.
  - rewrite Hcn, P5. lia.
  - rewrite Hpn, P6, Hg, Hc, bool_decide_eq_true_2 by done. apply orb_true_r.
  - by rewrite E3.
Qed.
End deferred.

(* ------------------------------------------------------------------ *)
(** ** Properties *)

Section frames_properties.
Context `{PmmConfig} (managed : nat -> bool).
Implicit Types (s : Frames) (q : nat) (phys : Z).

(** C1: the accounting of the frame layer never drifts. In every state
    reachable from boot by allocations, frees of managed frames, pins, unpins,
    drains, reservations and refcount updates in any order, the bitmap
    population and the counters agree, so [drift()] reads zero, and
    [USED_PAGES] never exceeds [TOTAL_PAGES]. *)
Theorem frames_drift_zero (boot_info : BootInfo) (kernel_end_va rsp : Z) s :
  boot_info_ok boot_info kernel_end_va ->
  rtc (frames_step (firmware_available boot_info))
      (frames_boot (init boot_info kernel_end_va rsp pmm_static)) s ->
  drift (accounting_snapshot_locked (pmm s)) = 0 /\
  0 <= USED_PAGES (pmm s) <= TOTAL_PAGES (pmm s).
Proof.
  intros Hb Hr. apply frames_reachable_inv in Hr; [|by apply frames_boot_inv, init_accounted].
  split; [by apply (accounted_drift _ _ (fi_alloc _ _ Hr))|].
  by apply (accounted_bounds _ _ (fi_alloc _ _ Hr)).
Qed.

(** No DMA into a reused frame. Along any sequence of frame-layer calls
    during which frame [q] stays pinned, a frame that was in use when the
    sequence began is still in use at its end, whatever was freed, drained or
    reclaimed meanwhile, and the allocator does not hand it out. *)
Theorem pinned_frame_not_reused s s' q :
  frames_inv managed s -> (q < MAX_PAGES)%nat -> used s q = true ->
  rtc (fun a b => frames_step managed a b /\ is_pinned (Z.of_nat q * PAGE_SIZE) b = true) s s' ->
  used s' q = true /\ fst (alloc_page_locked (pmm s')) <> Some (Z.of_nat q * PAGE_SIZE).
Proof.
  intros Hs Hq Hu Hr. assert (frames_inv managed s' /\ used s' q = true) as [Hs' Hu'].
  { induction Hr as [x|x y z [Hst Hpin] Hr IH]; [done|].
    destruct (frames_step_keeps managed x y Hst Hs) as [Hy Hk]. apply IH; [done|].
    apply Hk; [done..|]. unfold is_pinned in Hpin. rewrite pin_count_word, pfn_page in Hpin.
    by apply Z.ltb_lt. }
  split; [done|]. destruct (fi_alloc _ _ Hs') as [[Hok _ _] _ Hc].
  pose proof (alloc_page_locked_cases (pmm s') Hok Hc) as Ha.
  destruct (alloc_page_locked (pmm s')) as [[a|] p]; simpl; [|done].
  destruct Ha as (p' & -> & _ & Hf & _). intros [= E].
  assert (p' = q) as -> by (unfold PAGE_SIZE in E; lia).
  apply page_free_used in Hf. unfold used in Hu'. congruence.
Qed.

(** A free that arrives while a frame has [n + 1] DMA pins is carried out
    by the last unpin and not before. After [free_page] and any [k <= n]
    unpins the frame is still in use; the last unpin returns it to the free
    list, or, in a context that may not free, parks it in a ring with an empty
    slot, from which the next drain returns it. *)
Theorem deferred_free_completes phys s (n : nat) :
  frames_inv managed s -> managed (pfn phys) = true ->
  used s (pfn phys) = true -> free_gate phys s = true ->
  pin_count phys s = Z.of_nat (S n) ->
  let after k := Nat.iter k (unpin phys true) (free_page phys s) in
  (forall k, (k <= n)%nat -> used (after k) (pfn phys) = true) /\
  used (after (S n)) (pfn phys) = false /\
  (phys <> 0 -> (exists k, (k < DEFERRED_CAP)%nat /\ DEFERRED s !!! k = 0) ->
   let parked := unpin phys false (after n) in
   used parked (pfn phys) = true /\ used (drain_deferred parked) (pfn phys) = false).
Proof.
  intros Hs Hm Hu Hg Hc after. rewrite pin_count_word in Hc.
  pose proof (fun k Hk => deferred_free_pending managed phys s n k Hs Hm Hu Hg Hc Hk) as Hmid.
  fold after in Hmid.
  destruct (Hmid n ltac:(lia)) as (Hi & Hun & Hgn & Hcn & Hpn & Hdn). fold (after n) in *.
  replace (S n - n)%nat with 1%nat in Hcn by lia.
  assert (forall t, same_frames (after n) t -> wcount (pin_word t (pfn phys)) = 0 ->
            free_passes phys t = true) as Hpass.
  { intros t (E1 & E2 & _) Ht. unfold free_passes. rewrite Ht, andb_true_r, <- Hgn.
    apply free_gate_same; by rewrite ?E1, ?E2. }
  split_and!.
  - intros k Hkn. by apply Hmid.
  - unfold after. rewrite Nat.iter_succ. fold (after n).
    destruct (unpin_last managed phys true (after n) (fi_pins _ _ Hi) Hcn Hpn)
      as (t & Ht & Hnt & Hct & ->).
    apply (free_page_clears managed); [by apply Hnt|by apply Hpass].
  - intros Hnz (k & Hk & Hz) parked. unfold parked.
    destruct (unpin_last managed phys false (after n) (fi_pins _ _ Hi) Hcn Hpn)
      as (t & Ht & Hnt & Hct & ->). destruct (Hnt Hi) as (Hit & _).
    destruct (push_deferred_stores phys t (fi_ring_len _ _ Hit) Hnz) as (E1 & E2 & E3 & j & Hj & Ej).
    { exists k. destruct Ht as (_ & _ & ->). by rewrite Hdn. }
    split; [unfold used in *; rewrite E1; by destruct Ht as (-> & _)|].
    apply (drain_slots_free managed phys j).
    + by apply (no_new_pin_push managed phys t Hm).
    + apply Forall_forall. intros i [_ Hi']%in_seq. lia.
    + rewrite <- (Hpass t Ht Hct). unfold free_passes, pin_word. rewrite E2. f_equal.
      apply free_gate_same; by rewrite ?E1, ?E3.
    + right. split_and!; [apply elem_of_seq; lia|done|done].
Qed.

(** [free_page] clears a frame's bit exactly when the frame is inside the
    bitmap, outside the kernel image, referenced by no page table and not
    pinned for DMA. No other frame's bit changes, and [USED_PAGES] falls by
    one exactly if the frame was in use. *)
Theorem free_page_correct phys s :
  frames_inv managed s -> managed (pfn phys) = true ->
  let s' := free_page phys s in
  let passes := (pfn phys < MAX_PAGES)%nat /\ is_kernel_static_phys (pmm s) phys = false /\
                page_ref_count phys (REFCOUNTS s) <= 0 /\ is_pinned phys s = false in
  (forall q, used s' q = false <-> used s q = false \/ (q = pfn phys /\ passes)) /\
  (passes -> used s (pfn phys) = true -> USED_PAGES (pmm s') = USED_PAGES (pmm s) - 1) /\
  (~ passes \/ used s (pfn phys) = false -> USED_PAGES (pmm s') = USED_PAGES (pmm s)) /\
  frames_inv managed s'.
Proof.
  intros Hs Hm s' passes.
  assert (passes <-> free_passes phys s = true) as Hp.
  { unfold passes, free_passes, free_gate, is_pinned, pte_share_count.
    rewrite pin_count_word, !andb_true_iff, !negb_true_iff, Nat.ltb_lt, !Z.ltb_ge, Z.eqb_eq.
    pose proof (wcount_range (pin_word s (pfn phys))). intuition lia. }
  pose proof (accounted_bounds _ _ (fi_alloc _ _ Hs)) as (Hub & Htb & _).
  pose proof (ledger_ok _ _ _ (accounted_ledger _ _ (fi_alloc _ _ Hs))) as Hok.
  pose proof (free_page_spec phys s (fi_pins _ _ Hs)) as (_ & _ & _ & (_ & Eu & _) & _).
  pose proof MAX_PAGES_u64. split_and!.
  - intros q. unfold s', used. rewrite free_page_used, andb_false_iff, negb_false_iff
      by (apply Hs || done).
    rewrite andb_true_iff, bool_decide_eq_true, Hp. intuition.
  - intros Hpp Huse. unfold s'. rewrite Eu, (proj1 Hp Hpp).
    destruct (clear_page_alloc (pfn phys) (pmm s)) as (_ & -> & _). unfold used in Huse.
    rewrite Huse. assert (1 <= USED_PAGES (pmm s)).
    { rewrite (ledger_used _ _ _ (accounted_ledger _ _ (fi_alloc _ _ Hs))).
      apply (count_upto_pos _ _ (pfn phys)); [by destruct Hpp|]. by rewrite Hm, Huse. }
    etrans; [|apply sub64_small; unfold PAGE_SIZE in *; lia]. by destruct (pmm s).
  - intros Hor. unfold s'. rewrite Eu. destruct (free_passes phys s) eqn:Ef; [|done].
    destruct (clear_page_alloc (pfn phys) (pmm s)) as (_ & -> & _).
    destruct Hor as [Hn|Hn]; [tauto|]. unfold used in Hn. by rewrite Hn.
  - by apply frames_inv_free.
Qed.
End frames_properties.

(** ** Witnesses *)

Definition demo_alloc (s : Frames) : Frames :=
  with_pmm (snd (@alloc_page_locked small_pmm (pmm s))) s.

(** One frame allocated and pinned twice. *)
Definition demo_pinned : Frames :=
  pin 0x100000 (pin 0x100000 (@dma_pin_init small_pmm (demo_alloc (frames_boot demo_pmm)))).

Lemma demo_pinned_reachable :
  rtc (@frames_step small_pmm (firmware_available demo_boot_info))
    (frames_boot demo_pmm) demo_pinned.
Proof.
  eapply rtc_l; [apply fs_alloc_retry|]. eapply rtc_l; [apply fs_pin_init|].
  eapply rtc_l; [apply (fs_pin _ 0x100000); vm_compute; reflexivity|].
  eapply rtc_l; [apply (fs_pin _ 0x100000); vm_compute; reflexivity|]. apply rtc_refl.
Qed.

Lemma demo_pinned_inv :
  @frames_inv small_pmm (firmware_available demo_boot_info) demo_pinned.
Proof.
  eapply frames_reachable_inv; [|exact demo_pinned_reachable].
  apply frames_boot_inv, demo_accounted.
Qed.

Lemma frames_drift_zero_witness :
  drift (accounting_snapshot_locked (pmm demo_pinned)) = 0.
Proof.
  pose proof (@frames_drift_zero small_pmm demo_boot_info 0 0 demo_pinned demo_boot_info_ok) as Hw.
  rewrite <- demo_pmm_eq in Hw. exact (proj1 (Hw demo_pinned_reachable)).
Defined.

Lemma pinned_frame_not_reused_witness :
  used (@free_page small_pmm 0x100000 demo_pinned) 256 = true.
Proof.
  refine (proj1 (@pinned_frame_not_reused small_pmm _ demo_pinned _ 256%nat demo_pinned_inv
    ltac:(vm_compute; lia) ltac:(vm_compute; reflexivity) _)).
  eapply rtc_l; [|apply rtc_refl].
  split; [apply (fs_free_page _ 0x100000); vm_compute; reflexivity|vm_compute; reflexivity].
Defined.

Lemma deferred_free_completes_witness :
  used (Nat.iter 2 (@unpin small_pmm 0x100000 true) (@free_page small_pmm 0x100000 demo_pinned))
    (pfn 0x100000) = false.
Proof.
  destruct (@deferred_free_completes small_pmm (firmware_available demo_boot_info)
    0x100000 demo_pinned 1 demo_pinned_inv) as (_ & Hw & _);
    [vm_compute; reflexivity..|]. exact Hw.
Defined.

Lemma free_page_correct_witness :
  USED_PAGES (pmm (@free_page small_pmm 0x100000 (demo_alloc (frames_boot demo_pmm)))) =
  USED_PAGES (pmm (demo_alloc (frames_boot demo_pmm))) - 1.
Proof.
  assert (@frames_inv small_pmm (firmware_available demo_boot_info) (demo_alloc (frames_boot demo_pmm))) as Hi.
  { eapply frames_reachable_inv; [apply frames_boot_inv, demo_accounted|].
    eapply rtc_l; [apply fs_alloc_retry|apply rtc_refl]. }
  destruct (@free_page_correct small_pmm _ 0x100000 (demo_alloc (frames_boot demo_pmm)) Hi)
    as (_ & Hw & _); [vm_compute; reflexivity|]. apply Hw; [|vm_compute; reflexivity].
  split; [vm_compute; lia|]. split; [vm_compute; reflexivity|].
  split; [vm_compute; discriminate|vm_compute; reflexivity].
Defined.
