(* ===== verification/InodePins.v ===== *)
(** * Kernel pins on inodes (kernel/src/vfs/mod.rs)

    A file unlinked while it is still in use is put on a deletion list and
    its inode is freed when the last reference goes. References that are not
    descriptors (shared mappings, descriptors in flight) are pins counted
    here; a pin dropped under the process-table lock queues the final check
    for [reap_pending_inodes]. *)

From S2P Require Import Prelude.

(** [mount_idx] of a descriptor without an inode. *)
Definition USIZE_MAX : Z := U64_MAX.

(** [FREED] records the [remove_inode] calls made on the mounted file
    systems. *)
Record VfsPins := mkVfsPins {
  PINNED_INODES : list (Z * Z * Z);
  DELETED_INODES : list (Z * Z);
  PENDING_INODE_REAP : list (Z * Z);
  FREED : list (Z * Z)
}.

Definition with_PINNED (l : list (Z * Z * Z)) (v : VfsPins) : VfsPins :=
  mkVfsPins l (DELETED_INODES v) (PENDING_INODE_REAP v) (FREED v).
Definition with_DELETED (l : list (Z * Z)) (v : VfsPins) : VfsPins :=
  mkVfsPins (PINNED_INODES v) l (PENDING_INODE_REAP v) (FREED v).
Definition with_PENDING (l : list (Z * Z)) (v : VfsPins) : VfsPins :=
  mkVfsPins (PINNED_INODES v) (DELETED_INODES v) l (FREED v).
Definition with_FREED (l : list (Z * Z)) (v : VfsPins) : VfsPins :=
  mkVfsPins (PINNED_INODES v) (DELETED_INODES v) (PENDING_INODE_REAP v) l.

Definition same_inode (mount_idx inode : Z) (e : Z * Z) : bool :=
  (fst e =? mount_idx) && (snd e =? inode).

(** The [iter_mut().find] of [pin_inode], adding one to the entry found or
    pushing a new one. *)
Fixpoint pin_list (mount_idx inode : Z) (p : list (Z * Z * Z)) : list (Z * Z * Z) :=
  match p with
  | [] => [(mount_idx, inode, 1)]
  | e :: p' =>
      if same_inode mount_idx inode (fst e) then (fst e, sat_add32 (snd e) 1) :: p'
      else e :: pin_list mount_idx inode p'
  end.

Definition pin_inode (mount_idx inode : Z) (v : VfsPins) : VfsPins :=
  if mount_idx =? USIZE_MAX then v
  else with_PINNED (pin_list mount_idx inode (PINNED_INODES v)) v.

(** [dec_pin] on the table: the new table, and whether the last pin went. *)
Fixpoint dec_pin_list (mount_idx inode : Z) (p : list (Z * Z * Z)) : bool * list (Z * Z * Z) :=
  match p with
  | [] => (false, [])
  | e :: p' =>
      if same_inode mount_idx inode (fst e) then
        if 1 <? snd e then (false, (fst e, snd e - 1) :: p') else (true, p')
      else let '(last, p'') := dec_pin_list mount_idx inode p' in (last, e :: p'')
  end.

Definition dec_pin (mount_idx inode : Z) (v : VfsPins) : bool * VfsPins :=
  let '(last, p) := dec_pin_list mount_idx inode (PINNED_INODES v) in
  (last, with_PINNED p v).

Definition inode_is_pinned (mount_idx inode : Z) (v : VfsPins) : bool :=
  existsb (fun e => same_inode mount_idx inode (fst e) && (0 <? snd e)) (PINNED_INODES v).

Section vfs.

(** [open m n]: some process holds a descriptor of the inode; [mounted m]:
    [fs_at(m)] finds a file system. *)
Context (open : Z -> Z -> bool) (mounted : Z -> bool).

Definition try_free_orphan_inode (mount_idx inode : Z) (v : VfsPins) : bool * VfsPins :=
  let still_open := open mount_idx inode in
  if still_open || inode_is_pinned mount_idx inode v then (false, v)
  else
    let before := length (DELETED_INODES v) in
    let v := with_DELETED
      (List.filter (fun e => negb (same_inode mount_idx inode e)) (DELETED_INODES v)) v in
    let was_deleted := (length (DELETED_INODES v) <? before)%nat in
    if was_deleted then
      if mounted mount_idx then (true, with_FREED (FREED v ++ [(mount_idx, inode)]) v)
      else (false, v)
    else (false, v).

Definition unpin_inode (mount_idx inode : Z) (v : VfsPins) : bool * VfsPins :=
  if mount_idx =? USIZE_MAX then (false, v)
  else
    let '(last, v) := dec_pin mount_idx inode v in
    if negb last then (false, v) else try_free_orphan_inode mount_idx inode v.

Definition unpin_inode_deferred (mount_idx inode : Z) (v : VfsPins) : VfsPins :=
  if mount_idx =? USIZE_MAX then v
  else
    let '(last, v) := dec_pin mount_idx inode v in
    if last then with_PENDING (PENDING_INODE_REAP v ++ [(mount_idx, inode)]) v else v.

Definition reap_pending_inodes (v : VfsPins) : VfsPins :=
  match PENDING_INODE_REAP v with
  | [] => v
  | pending =>
      fold_left (fun v e => snd (try_free_orphan_inode (fst e) (snd e) v)) pending
        (with_PENDING [] v)
  end.
End vfs.

(* ------------------------------------------------------------------ *)
(** ** Pin counts *)

(** The number of pins on an inode, zero without an entry. *)
Fixpoint pin_of (p : list (Z * Z * Z)) (k : Z * Z) : Z :=
  match p with
  | [] => 0
  | e :: p' => if bool_decide (fst e = k) then snd e else pin_of p' k
  end.

(** One entry per inode, with a positive count. *)
Record pin_table_ok (p : list (Z * Z * Z)) : Prop := {
  pin_nodup : NoDup (map fst p);
  pin_pos : Forall (fun e => 1 <= snd e <= U32_MAX) p
}.

Section pins.
Implicit Types (p : list (Z * Z * Z)) (k : Z * Z) (v : VfsPins).

Lemma same_inode_eq m n k : same_inode m n k = bool_decide (k = (m, n)).
Proof.
  destruct k as [a b]. unfold same_inode; simpl.
  destruct (Z.eqb_spec a m), (Z.eqb_spec b n); simpl; case_bool_decide; naive_solver.
Qed.

Lemma pin_of_notin p k : k ∉ map fst p -> pin_of p k = 0.
Proof.
  induction p as [|e p IH]; simpl; [done|]. rewrite not_elem_of_cons. intros [H1 H2].
  rewrite bool_decide_eq_false_2 by congruence. by apply IH.
Qed.

Lemma pin_of_nonneg p k : pin_table_ok p -> 0 <= pin_of p k <= U32_MAX.
Proof.
  intros [_ Hp]. induction p as [|e p IH]; simpl; [unfold U32_MAX; lia|].
  apply Forall_cons_iff in Hp as [He Hp]. case_bool_decide; [lia|by apply IH].
Qed.

Lemma pin_list_keys m n p : map fst (pin_list m n p) =
  if bool_decide ((m, n) ∈ map fst p) then map fst p else map fst p ++ [(m, n)].
Proof.
  induction p as [|e p IH]; simpl; [done|].
  rewrite same_inode_eq. decide_on (fst e = (m, n)) as E; simpl.
  - rewrite bool_decide_eq_true_2; [done|]. rewrite E. left.
  - rewrite IH. rewrite (bool_decide_ext ((m, n) ∈ fst e :: map fst p) ((m, n) ∈ map fst p)).
    + by case_bool_decide.
    + rewrite elem_of_cons. naive_solver.
Qed.

Lemma pin_list_ok m n p : pin_table_ok p -> pin_table_ok (pin_list m n p).
Proof.
  intros [Hn Hp]. split.
  - rewrite pin_list_keys. case_bool_decide; [done|]. apply list.NoDup_app.
    split_and!; [done| |apply NoDup_singleton].
    intros x Hx ->%list_elem_of_singleton. done.
  - clear Hn. induction p as [|e p IH]; simpl.
    { repeat constructor; unfold U32_MAX; simpl; lia. }
    apply Forall_cons_iff in Hp as [He Hp]. case_match; constructor; auto.
    simpl. unfold sat_add32, U32_MAX in *. lia.
Qed.

Lemma pin_list_of m n p k :
  pin_of p (m, n) < U32_MAX ->
  pin_of (pin_list m n p) k = pin_of p k + Z.b2z (bool_decide (k = (m, n))).
Proof.
  induction p as [|e p IH]; simpl.
  { intros _. rewrite (bool_decide_ext ((m, n) = k) (k = (m, n))) by naive_solver.
    by case_bool_decide. }
  rewrite same_inode_eq. decide_on (fst e = (m, n)) as E; simpl; intros Hlt.
  - rewrite E. rewrite (bool_decide_ext ((m, n) = k) (k = (m, n))) by naive_solver.
    case_bool_decide; simpl; [|lia]. unfold sat_add32. lia.
  - rewrite IH by done. decide_on (fst e = k) as E2; [|done].
    rewrite bool_decide_eq_false_2 by congruence. simpl. lia.
Qed.

Lemma dec_pin_list_spec m n p :
  pin_table_ok p ->
  let '(last, p') := dec_pin_list m n p in
  pin_table_ok p' /\ (forall k, k ∈ map fst p' -> k ∈ map fst p) /\
  last = (pin_of p (m, n) =? 1) /\
  forall k, pin_of p' k = if bool_decide (k = (m, n)) then Z.max 0 (pin_of p k - 1) else pin_of p k.
Proof.
  induction p as [|e p IH]; intros [Hn Hp]; simpl.
  { split_and!; [done|done|done|]. intros k. by case_bool_decide. }
  simpl in Hn. apply list.NoDup_cons in Hn as [Hni Hn]. apply Forall_cons_iff in Hp as [He Hp].
  rewrite same_inode_eq. decide_on (fst e = (m, n)) as E.
  - pose proof (pin_of_notin p (fst e) Hni) as Hz.
    destruct (Z.ltb_spec 1 (snd e)) as [Hl|Hl].
    + split_and!; simpl; [|done|by destruct (Z.eqb_spec (snd e) 1); [lia|]|].
      * split; [by constructor|]. constructor; [simpl; lia|done].
      * intros k. rewrite E. case_bool_decide as E1; case_bool_decide as E2; try done; try congruence.
        lia.
    + split_and!; [by split|by intros k ?; right|by destruct (Z.eqb_spec (snd e) 1); [|lia]|].
      intros k. case_bool_decide as E1.
      * subst k. rewrite <- E, Hz. rewrite bool_decide_eq_true_2 by done. lia.
      * rewrite bool_decide_eq_false_2 by congruence. done.
  - specialize (IH ltac:(by split)). destruct (dec_pin_list m n p) as [last p'].
    destruct IH as ([Hn' Hp'] & Hsub & -> & Hk). split_and!; simpl; [| |done|].
    + split; [|by constructor]. constructor; [|done]. intros Hin. by apply Hni, Hsub.
    + intros k. rewrite !elem_of_cons. naive_solver.
    + intros k. rewrite Hk. case_bool_decide as E1; [|done].
      case_bool_decide; [congruence|done].
Qed.

Lemma inode_is_pinned_of m n v :
  pin_table_ok (PINNED_INODES v) ->
  inode_is_pinned m n v = (0 <? pin_of (PINNED_INODES v) (m, n)).
Proof.
  intros [_ Hp]. unfold inode_is_pinned. induction (PINNED_INODES v) as [|e p IH]; [done|].
  apply Forall_cons_iff in Hp as [He Hp]. simpl. rewrite same_inode_eq.
  case_bool_decide; simpl; [|by apply IH]. by rewrite (proj2 (Z.ltb_lt _ _)) by lia.
Qed.
End pins.

(* ------------------------------------------------------------------ *)
(** ** Reaping *)

Section reaping.
Context (open : Z -> Z -> bool) (mounted : Z -> bool).
Implicit Types (v : VfsPins).

(** The inode is unreferenced: no descriptor, no pin. *)
Definition orphan v (k : Z * Z) : Prop :=
  open (fst k) (snd k) = false /\ pin_of (PINNED_INODES v) k = 0.

Lemma filter_shorter {A} (f : A -> bool) l :
  (length (List.filter f l) <? length l)%nat = existsb (fun x => negb (f x)) l.
Proof.
  induction l as [|x l IH]; simpl; [done|]. pose proof (List.filter_length_le f l).
  destruct (f x); simpl; [by rewrite <- IH|]. apply Nat.ltb_lt. lia.
Qed.

Lemma existsb_same_inode m n l : existsb (same_inode m n) l = bool_decide ((m, n) ∈ l).
Proof.
  induction l as [|k l IH]; simpl; [done|]. rewrite same_inode_eq, IH.
  rewrite <- bool_decide_or. apply bool_decide_ext. rewrite elem_of_cons. naive_solver.
Qed.

Lemma try_free_spec m n v :
  pin_table_ok (PINNED_INODES v) ->
  let '(freed, v') := try_free_orphan_inode open mounted m n v in
  PINNED_INODES v' = PINNED_INODES v /\ PENDING_INODE_REAP v' = PENDING_INODE_REAP v /\
  (freed = true <-> orphan v (m, n) /\ (m, n) ∈ DELETED_INODES v /\ mounted m = true) /\
  FREED v' = FREED v ++ (if freed then [(m, n)] else []) /\
  (forall k, k ∈ DELETED_INODES v' <->
     k ∈ DELETED_INODES v /\ ~ (k = (m, n) /\ orphan v (m, n))).
Proof.
  intros Hok. unfold try_free_orphan_inode, orphan. cbn [fst snd].
  rewrite (inode_is_pinned_of m n v Hok). pose proof (pin_of_nonneg _ (m, n) Hok) as Hnn.
  set (c := pin_of (PINNED_INODES v) (m, n)) in *.
  destruct (open m n); simpl.
  { rewrite app_nil_r. split_and!; try done; naive_solver. }
  destruct (Z.ltb_spec 0 c); simpl.
  { rewrite app_nil_r. split_and!; try done; [naive_solver lia|]. intros k. naive_solver lia. }
  rewrite filter_shorter.
  rewrite (existsb_ext _ (same_inode m n)) by (intros; by rewrite negb_involutive).
  rewrite existsb_same_inode. set (d := List.filter _ _).
  assert (forall k, k ∈ d <-> k ∈ DELETED_INODES v /\ ~ (k = (m, n) /\ false = false /\ c = 0)) as Hd.
  { intros k. unfold d. rewrite !list_elem_of_In, List.filter_In, same_inode_eq.
    rewrite negb_true_iff, bool_decide_eq_false. naive_solver lia. }
  case_bool_decide as Hin; [destruct (mounted m)|]; simpl; rewrite ?app_nil_r;
    (split_and!; [done|done| |done|exact Hd]); naive_solver lia.
Qed.

(** Draining a list of candidates. *)
Lemma reap_fold l v :
  pin_table_ok (PINNED_INODES v) ->
  let v' := fold_left (fun v e => snd (try_free_orphan_inode open mounted (fst e) (snd e) v)) l v in
  PINNED_INODES v' = PINNED_INODES v /\
  exists new, FREED v' = FREED v ++ new /\
    forall k, k ∈ new <-> k ∈ l /\ orphan v k /\ k ∈ DELETED_INODES v /\ mounted (fst k) = true.
Proof.
  revert v. induction l as [|[m n] l IH]; intros v Hok; simpl.
  { split; [done|]. exists []. rewrite app_nil_r. split; [done|]. intros k.
    split; [by intros ?%not_elem_of_nil|]. by intros [?%not_elem_of_nil _]. }
  pose proof (try_free_spec m n v Hok) as Ht.
  destruct (try_free_orphan_inode open mounted m n v) as [freed v1]. simpl.
  destruct Ht as (E1 & E2 & Hf & E3 & Hd).
  destruct (IH v1) as (E4 & new & E5 & Hnew); [by rewrite E1|].
  split; [by rewrite E4|]. exists ((if freed then [(m, n)] else []) ++ new).
  split; [by rewrite E5, E3, app_assoc|]. intros k.
  assert (orphan v1 k <-> orphan v k) as Ho by (unfold orphan; by rewrite E1).
  rewrite elem_of_app, Hnew, elem_of_cons, Hd, Ho.
  assert (k ∈ (if freed then [(m, n)] else []) <-> k = (m, n) /\ freed = true) as ->.
  { destruct freed; [rewrite list_elem_of_singleton; naive_solver|].
    split; [by intros ?%not_elem_of_nil|naive_solver]. }
  rewrite Hf. clear. destruct (decide (k = (m, n))) as [->|Hk]; simpl; tauto.
Qed.

Lemma reap_spec v :
  pin_table_ok (PINNED_INODES v) ->
  let v' := reap_pending_inodes open mounted v in
  PINNED_INODES v' = PINNED_INODES v /\
  exists new, FREED v' = FREED v ++ new /\
    forall k, k ∈ new <-> k ∈ PENDING_INODE_REAP v /\ orphan v k /\
                          k ∈ DELETED_INODES v /\ mounted (fst k) = true.
Proof.
  intros Hok. unfold reap_pending_inodes. destruct (PENDING_INODE_REAP v) as [|e l] eqn:E.
  - split; [done|]. exists []. rewrite app_nil_r. split; [done|]. intros k.
    split; [by intros ?%not_elem_of_nil|]. by intros [?%not_elem_of_nil _].
  - exact (reap_fold (e :: l) (with_PENDING [] v) Hok).
Qed.
End reaping.
