(* ===== verification/Vfs.v ===== *)
(** * The file-system interface (kernel/src/vfs/mod.rs)

    The types every file system answers in, the trait [FileSystemOps] as a
    type class over the state of a file system, and the unlink path of the
    VFS layer, which is written against that trait and the table of inodes
    unlinked while in use ([InodePins]). Names and link targets are the bytes
    of the source's strings. The clock is an argument. *)

From S2P Require Import Prelude.
From S2P Require Import InodePins.

Inductive VfsError :=
  | NotFound | PermissionDenied | FileExists | NotADirectory | IsADirectory | InvalidArg
  | TooManyOpenFiles | NoSpace | BadFd | VfsFault | NotEmpty | Unsupported | VfsIo | WouldBlock
  | TimedOut.

Inductive FileType :=
  | RegularFile | Directory | SymLink | CharDevice | BlockDevice | PipeFd | EventFdFile | Socket
  | TimerFdFile | SignalFdFile | InotifyFdFile | PtyMaster | PtySlave.

Record FileStat := mkFileStat {
  st_inode : Z;
  st_type : FileType;
  st_size : Z;
  st_permissions : Z;
  st_created : Z;
  st_modified : Z;
  st_accessed : Z
}.

Notation Name := (list Z) (only parsing).
Definition VfsResult (A : Type) : Type := A + VfsError.

#[global] Instance FileType_eq : EqDecision FileType.
Proof. solve_decision. Defined.
#[global] Instance VfsError_eq : EqDecision VfsError.
Proof. solve_decision. Defined.

(** The trait. A method that takes the file system's lock and may change it
    returns the new state; [now] is the tick count. [fs_write] is [None] where
    the source panics. *)
Class FileSystemOps (F : Type) := {
  fs_create_file : Z -> Name -> Z -> F -> VfsResult Z * F;
  fs_create_dir : Z -> Name -> Z -> F -> VfsResult Z * F;
  fs_remove : Z -> Name -> F -> VfsResult unit * F;
  fs_lookup : Z -> Name -> F -> VfsResult Z;
  fs_read : Z -> Z -> nat -> Z -> F -> VfsResult (list Z) * F;
  fs_write : Z -> Z -> list Z -> Z -> F -> option (VfsResult Z * F);
  fs_stat : Z -> F -> VfsResult FileStat;
  fs_readdir : Z -> F -> VfsResult (list (Name * Z * FileType));
  fs_truncate : Z -> Z -> Z -> F -> VfsResult unit * F;
  fs_rename : Z -> Name -> Z -> Name -> Z -> F -> VfsResult unit * F;
  fs_symlink : Z -> Name -> Name -> Z -> F -> VfsResult Z * F;
  fs_readlink : Z -> F -> VfsResult Name;
  fs_chmod : Z -> Z -> F -> VfsResult unit * F;
  fs_unlink_entry : Z -> Name -> Z -> F -> VfsResult unit * F;
  fs_remove_inode : Z -> F -> VfsResult unit * F
}.

(** [remove]: the parent has been resolved; [is_open] is the scan of the
    descriptor tables. The path cache and the notification of watchers are
    not part of the model. *)
Definition vfs_remove {F} `{FileSystemOps F} (is_open : Z -> Z -> bool) (mount_idx parent : Z)
    (name : Name) (now : Z) (v : VfsPins) (fs : F) : VfsResult unit * VfsPins * F :=
  match fs_lookup parent name fs with
  | inr e => (inr e, v, fs)
  | inl target =>
      if is_open mount_idx target then
        match fs_unlink_entry parent name now fs with
        | (inr e, fs) => (inr e, v, fs)
        | (inl _, fs) => (inl tt, with_DELETED (DELETED_INODES v ++ [(mount_idx, target)]) v, fs)
        end
      else
        match fs_remove parent name fs with
        | (inr e, fs) => (inr e, v, fs)
        | (inl _, fs) => (inl tt, v, fs)
        end
  end.

(** The end of [close] for a regular file, after the descriptor has left its
    table: free the inode if it was unlinked and nothing refers to it. *)
Definition close_last {F} `{FileSystemOps F} (is_open : Z -> Z -> bool) (mount_idx inode : Z)
    (v : VfsPins) (fs : F) : VfsPins * F :=
  if negb (is_open mount_idx inode) && negb (inode_is_pinned mount_idx inode v) then
    let before := length (DELETED_INODES v) in
    let v := with_DELETED
      (List.filter (fun e => negb (same_inode mount_idx inode e)) (DELETED_INODES v)) v in
    if (length (DELETED_INODES v) <? before)%nat
    then (with_FREED (FREED v ++ [(mount_idx, inode)]) v, snd (fs_remove_inode inode fs))
    else (v, fs)
  else (v, fs).
