(* ===== verification/Vma.v ===== *)
(** * Virtual memory areas (kernel/src/mm/vma.rs, mprotect in
      kernel/src/subsys/linux/syscall.rs)

    The sorted list of areas of an address space: insertion, removal of a
    range with splitting, the protection change of [sys_mprotect] and the
    program break, together with the inode pins that shared file mappings
    hold. *)

From S2P Require Import Prelude InodePins.

(* ------------------------------------------------------------------ *)
(** ** Data *)

Definition PROT_NONE : Z := 0.
Definition PROT_READ : Z := 1 .<< 0.
Definition PROT_WRITE : Z := 1 .<< 1.
Definition PROT_EXEC : Z := 1 .<< 2.
Definition MAP_SHARED : Z := 1 .<< 0.
Definition MAP_PRIVATE : Z := 1 .<< 1.
Definition MAP_ANONYMOUS : Z := 1 .<< 5.

Inductive VmBacking :=
  | Anonymous
  | File (mount_idx inode offset elf_load_delta : Z)
  | Device (phys_base : Z).

Record VmArea := mkArea {
  vm_base : Z;
  vm_length : Z;
  vm_prot : Z;
  vm_flags : Z;
  vm_backing : VmBacking;
  vm_name : string
}.

#[global] Instance VmBacking_eq_dec : EqDecision VmBacking.
Proof. solve_decision. Defined.
#[global] Instance VmArea_eq_dec : EqDecision VmArea.
Proof. solve_decision. Defined.
#[global] Instance VmArea_inhabited : Inhabited VmArea :=
  populate (mkArea 0 0 0 0 Anonymous "").

(** The address space; [mm_sem] only serialises the operations. *)
Record VmSpace := mkSpace {
  cr3 : Z;
  areas : list VmArea;
  mmap_hint : Z;
  stack_aslr_base : Z;
  brk : Z;
  brk_start : Z;
  generation : Z
}.

Definition with_areas (l : list VmArea) (s : VmSpace) : VmSpace :=
  mkSpace (cr3 s) l (mmap_hint s) (stack_aslr_base s) (brk s) (brk_start s) (generation s).
Definition with_mmap_hint (h : Z) (s : VmSpace) : VmSpace :=
  mkSpace (cr3 s) (areas s) h (stack_aslr_base s) (brk s) (brk_start s) (generation s).
Definition with_brk (b : Z) (s : VmSpace) : VmSpace :=
  mkSpace (cr3 s) (areas s) (mmap_hint s) (stack_aslr_base s) b (brk_start s) (generation s).
Definition bump_generation (s : VmSpace) : VmSpace :=
  mkSpace (cr3 s) (areas s) (mmap_hint s) (stack_aslr_base s) (brk s) (brk_start s)
    (add64 (generation s) 1).

Inductive VmaError := Overlap | NoSpace | OutOfMemory | InvalidArg | PermissionDenied.

Definition vm_end (v : VmArea) : Z := add64 (vm_base v) (vm_length v).

Definition contains (v : VmArea) (addr : Z) : bool :=
  (vm_base v <=? addr) && (addr <? vm_end v).

Definition overlaps (v : VmArea) (base length : Z) : bool :=
  (vm_base v <? add64 base length) && (base <? vm_end v).

Definition PAGE_PRESENT : Z := 1 .<< 0.
Definition PAGE_WRITABLE : Z := 1 .<< 1.
Definition PAGE_USER : Z := 1 .<< 2.
Definition PAGE_NO_EXECUTE : Z := 1 .<< 63.

Definition to_page_flags (v : VmArea) : Z :=
  let flags := PAGE_PRESENT in
  let flags := if negb (vm_prot v .& PROT_WRITE =? 0) then flags .| PAGE_WRITABLE else flags in
  let flags := if vm_prot v .& PROT_EXEC =? 0 then flags .| PAGE_NO_EXECUTE else flags in
  if vm_base v <? 0x800000000000 then flags .| PAGE_USER else flags.

Inductive FaultAccess := InstructionFetch | FaultWrite | FaultRead.

Definition from_error_code (err : Z) : FaultAccess :=
  if negb (err .& 0x10 =? 0) then InstructionFetch
  else if negb (err .& 0x02 =? 0) then FaultWrite
  else FaultRead.

Definition fault_access_permitted (prot : Z) (access : FaultAccess) : bool :=
  if prot =? PROT_NONE then false
  else match access with
       | InstructionFetch => negb (prot .& PROT_EXEC =? 0)
       | FaultWrite => negb (prot .& PROT_WRITE =? 0)
       | FaultRead => negb (prot .& (PROT_READ .| PROT_WRITE .| PROT_EXEC) =? 0)
       end.

Inductive WriteFaultAction := WriteThrough | CopyOnWrite.

Definition write_fault_action (vma_flags : Z) : WriteFaultAction :=
  if negb (vma_flags .& MAP_SHARED =? 0) then WriteThrough else CopyOnWrite.

Definition page_align_up (addr : Z) : Z := add64 addr 0xFFF .& notw 64 0xFFF.
Definition page_align_down (addr : Z) : Z := addr .& notw 64 0xFFF.

(* ------------------------------------------------------------------ *)
(** ** [vfs::vma_pin_if_shared_file] and [vma_unpin_if_shared_file] *)

Definition vma_pin_if_shared_file (flags : Z) (backing : VmBacking) (v : VfsPins) : VfsPins :=
  if flags .& MAP_SHARED =? 0 then v
  else match backing with
       | File mount_idx inode _ _ => pin_inode mount_idx inode v
       | _ => v
       end.

Definition vma_unpin_if_shared_file (flags : Z) (backing : VmBacking) (v : VfsPins) : VfsPins :=
  if flags .& MAP_SHARED =? 0 then v
  else match backing with
       | File mount_idx inode _ _ => unpin_inode_deferred mount_idx inode v
       | _ => v
       end.

(* ------------------------------------------------------------------ *)
(** ** Lookup and insertion *)

(** [Vec::insert] and [Vec::remove] at an index in range. *)
Definition vec_insert {A} (i : nat) (x : A) (l : list A) : list A := take i l ++ x :: drop i l.
Definition vec_remove {A} (i : nat) (l : list A) : list A := take i l ++ drop (S i) l.

Definition find_vma (s : VmSpace) (addr : Z) : option VmArea :=
  List.find (fun v => contains v addr) (areas s).

Definition note_mmap_placement (base : Z) (is_fixed is_stack_alloc : bool) (s : VmSpace)
    : VmSpace :=
  if negb is_fixed && negb is_stack_alloc && (base <? mmap_hint s)
  then with_mmap_hint base s else s.

(** [iter().position(..).unwrap_or(len)]. *)
Fixpoint position_above (b : Z) (l : list VmArea) : nat :=
  match l with
  | [] => 0
  | v :: l' => if b <? vm_base v then 0 else S (position_above b l')
  end.

Definition insert_vma (vma : VmArea) (s : VmSpace) (p : VfsPins)
    : (() + VmaError) * VmSpace * VfsPins :=
  if existsb (fun existing => overlaps existing (vm_base vma) (vm_length vma)) (areas s)
  then (inr Overlap, s, p)
  else
    let pos := position_above (vm_base vma) (areas s) in
    let p := vma_pin_if_shared_file (vm_flags vma) (vm_backing vma) p in
    let s := with_areas (vec_insert pos vma (areas s)) s in
    (inl tt, bump_generation s, p).

(* ------------------------------------------------------------------ *)
(** ** [remove_range] *)

(** The right piece of a split, or the piece kept by a cut on the left. *)
Definition advance_backing (b : VmBacking) (delta : Z) : VmBacking :=
  match b with
  | File mount_idx inode offset elf_load_delta =>
      File mount_idx inode (add64 offset delta) elf_load_delta
  | other => other
  end.

(** The [while] loop, [None] when [fuel] is too small. *)
Fixpoint remove_loop (fuel : nat) (base length : Z) (i : nat) (l : list VmArea) (p : VfsPins)
    : option (list VmArea * VfsPins) :=
  match fuel with
  | O => None
  | S fuel =>
      let end_ := add64 base length in
      if negb (i <? List.length l)%nat then Some (l, p)
      else
        let vma := l !!! i in
        if negb (overlaps vma base length) then remove_loop fuel base length (S i) l p
        else if (base <=? vm_base vma) && (vm_end vma <=? end_) then
          let p := vma_unpin_if_shared_file (vm_flags vma) (vm_backing vma) p in
          remove_loop fuel base length i (vec_remove i l) p
        else if (vm_base vma <? base) && (end_ <? vm_end vma) then
          let right_delta := sub64 end_ (vm_base vma) in
          let left := mkArea (vm_base vma) (sub64 base (vm_base vma)) (vm_prot vma)
                        (vm_flags vma) (vm_backing vma) (vm_name vma) in
          let right := mkArea end_ (sub64 (vm_end vma) end_) (vm_prot vma)
                         (vm_flags vma) (advance_backing (vm_backing vma) right_delta)
                         (vm_name vma) in
          let l := vec_remove i l in
          let p := vma_unpin_if_shared_file (vm_flags vma) (vm_backing vma) p in
          let p := vma_pin_if_shared_file (vm_flags right) (vm_backing right) p in
          let p := vma_pin_if_shared_file (vm_flags left) (vm_backing left) p in
          let l := vec_insert i left (vec_insert i right l) in
          remove_loop fuel base length (i + 2) l p
        else if vm_base vma <? base then
          let vma' := mkArea (vm_base vma) (sub64 base (vm_base vma)) (vm_prot vma)
                        (vm_flags vma) (vm_backing vma) (vm_name vma) in
          remove_loop fuel base length (S i) (vec_insert i vma' (vec_remove i l)) p
        else
          let left_delta := sub64 end_ (vm_base vma) in
          let vma' := mkArea end_ (sub64 (vm_length vma) left_delta) (vm_prot vma)
                        (vm_flags vma) (advance_backing (vm_backing vma) left_delta)
                        (vm_name vma) in
          remove_loop fuel base length (S i) (vec_insert i vma' (vec_remove i l)) p
  end.

(** Every iteration brings [i] one closer to the end of the list, so one
    iteration per area and the final test are enough
    ([remove_loop_total]). *)
Definition remove_range (base length : Z) (s : VmSpace) (p : VfsPins)
    : option (VmSpace * VfsPins) :=
  let s := bump_generation s in
  match remove_loop (S (List.length (areas s))) base length 0 (areas s) p with
  | Some (l, p) => Some (with_areas l s, p)
  | None => None
  end.

(* ------------------------------------------------------------------ *)
(** ** [sys_mprotect]: the area list *)

(** The two or three pieces a partially covered area becomes. *)
Definition mprotect_pieces (base end_ new_prot : Z) (vma : VmArea) : list VmArea :=
  let vma_base := vm_base vma in
  let vma_end := vm_end vma in
  let overlap_start := Z.max vma_base base in
  let overlap_end := Z.min vma_end end_ in
  let piece piece_base len prot :=
    mkArea piece_base len prot (vm_flags vma)
      (advance_backing (vm_backing vma) (sub64 piece_base vma_base)) (vm_name vma) in
  (if vma_base <? base then [piece vma_base (sub64 base vma_base) (vm_prot vma)] else []) ++
  [piece overlap_start (sub64 overlap_end overlap_start) new_prot] ++
  (if end_ <? vma_end then [piece end_ (sub64 vma_end end_) (vm_prot vma)] else []).

(** [for piece in pieces.into_iter().rev()]: pin and insert at [i]. *)
Definition insert_pieces (i : nat) (pieces : list VmArea) (l : list VmArea) (p : VfsPins)
    : list VmArea * VfsPins :=
  fold_left (fun acc piece =>
    (vec_insert i piece (fst acc),
     vma_pin_if_shared_file (vm_flags piece) (vm_backing piece) (snd acc)))
    (rev pieces) (l, p).

Definition set_prot (prot : Z) (v : VmArea) : VmArea :=
  mkArea (vm_base v) (vm_length v) prot (vm_flags v) (vm_backing v) (vm_name v).

Fixpoint mprotect_loop (fuel : nat) (base end_ new_prot : Z) (i : nat) (l : list VmArea)
    (p : VfsPins) : option (list VmArea * VfsPins) :=
  match fuel with
  | O => None
  | S fuel =>
      if negb (i <? List.length l)%nat then Some (l, p)
      else
        let vma := l !!! i in
        if (vm_end vma <=? base) || (end_ <=? vm_base vma) then
          mprotect_loop fuel base end_ new_prot (S i) l p
        else if (base <=? vm_base vma) && (vm_end vma <=? end_) then
          mprotect_loop fuel base end_ new_prot (S i) (<[i := set_prot new_prot vma]> l) p
        else
          let l := vec_remove i l in
          let p := vma_unpin_if_shared_file (vm_flags vma) (vm_backing vma) p in
          let pieces := mprotect_pieces base end_ new_prot vma in
          let n := List.length pieces in
          let '(l, p) := insert_pieces i pieces l p in
          mprotect_loop fuel base end_ new_prot (i + n) l p
  end.

Definition mprotect_areas (base end_ new_prot : Z) (s : VmSpace) (p : VfsPins)
    : option (VmSpace * VfsPins) :=
  let s := bump_generation s in
  match mprotect_loop (S (List.length (areas s))) base end_ new_prot 0 (areas s) p with
  | Some (l, p) => Some (with_areas l s, p)
  | None => None
  end.

(** One iteration of the page-table walk that follows: a present entry is
    rewritten with the flags of [prot]. *)
Definition PTE_PHYS_MASK : Z := 0x000FFFFFFFFFF000.

Definition retag_pte (prot pte : Z) : Z :=
  if negb (pte .& PAGE_PRESENT =? 0) then
    let phys := pte .& PTE_PHYS_MASK in
    let new_flags := PAGE_PRESENT .| PAGE_USER in
    let new_flags := if negb (prot .& PROT_WRITE =? 0) then new_flags .| PAGE_WRITABLE
                     else new_flags in
    let new_flags := if prot .& PROT_EXEC =? 0 then new_flags .| PAGE_NO_EXECUTE
                     else new_flags in
    phys .| new_flags
  else pte.

(** [sys_mprotect] up to the page-table walk. [identity_hit] is the outcome
    of the identity-map guard; [vm_space] is absent for a kernel process. *)
Definition sys_mprotect (addr len prot : Z) (identity_hit : Z -> Z -> bool)
    (reap : VfsPins -> VfsPins) (vm_space : option VmSpace) (p : VfsPins)
    : option (Z * option VmSpace * VfsPins) :=
  if len =? 0 then Some (0, vm_space, p)
  else if negb (addr .& 0xFFF =? 0) then Some (-22, vm_space, p)
  else
    let base := page_align_down addr in
    let end_ := page_align_up (add64 addr len) in
    match vm_space with
    | None => Some (-22, None, p)
    | Some space =>
        if identity_hit base end_ then Some (-22, Some space, p)
        else match mprotect_areas base end_ (wrap 32 prot) space p with
             | Some (space, p) => Some (0, Some space, reap p)
             | None => None
             end
    end.

(* ------------------------------------------------------------------ *)
(** ** The program break *)

Definition is_heap (v : VmArea) : bool := bool_decide (vm_name v = "[heap]").

(** [iter_mut().find(|v| v.name == "[heap]")] with the length of the area
    found set to [new_brk - base]. *)
Fixpoint resize_heap (new_brk : Z) (l : list VmArea) : list VmArea :=
  match l with
  | [] => []
  | v :: l' =>
      if is_heap v then
        mkArea (vm_base v) (sub64 new_brk (vm_base v)) (vm_prot v) (vm_flags v)
          (vm_backing v) (vm_name v) :: l'
      else v :: resize_heap new_brk l'
  end.

(** The result is the break returned and the range handed to
    [unmap_and_free_range_in], if any. *)
Definition adjust_brk (new_brk : Z) (s : VmSpace) (p : VfsPins)
    : Z * option (Z * Z) * VmSpace * VfsPins :=
  let new_brk := page_align_up new_brk in
  if new_brk <? brk_start s then (brk s, None, s, p)
  else if new_brk =? brk s then (brk s, None, s, p)
  else
    let s := bump_generation s in
    if brk s <? new_brk then
      let '(s, p) :=
        if existsb is_heap (areas s) then (with_areas (resize_heap new_brk (areas s)) s, p)
        else
          let heap_vma := mkArea (brk_start s) (sub64 new_brk (brk_start s))
                            (PROT_READ .| PROT_WRITE) (MAP_PRIVATE .| MAP_ANONYMOUS)
                            Anonymous "[heap]" in
          let '(_, s, p) := insert_vma heap_vma s p in (s, p) in
      (new_brk, None, with_brk new_brk s, p)
    else
      let old_brk := brk s in
      let s :=
        if existsb is_heap (areas s) then
          if new_brk <=? brk_start s
          then with_areas (List.filter (fun v => negb (is_heap v)) (areas s)) s
          else with_areas (resize_heap new_brk (areas s)) s
        else s in
      let unmapped := if new_brk <? old_brk then Some (new_brk, sub64 old_brk new_brk) else None in
      (new_brk, unmapped, with_brk new_brk s, p).

(* ------------------------------------------------------------------ *)
(** ** Well-formed area lists *)

Definition backing_ok (b : VmBacking) : Prop :=
  match b with File _ _ offset _ => in_word 64 offset | _ => True end.

Record area_ok (v : VmArea) : Prop := {
  area_base : 0 <= vm_base v;
  area_len : 0 < vm_length v;
  area_top : vm_base v + vm_length v <= U64_MAX;
  area_backing : backing_ok (vm_backing v)
}.

Definition before (a b : VmArea) : Prop := vm_base a + vm_length a <= vm_base b.

(** Sorted by base and pairwise disjoint. *)
Definition areas_ok (l : list VmArea) : Prop := Forall area_ok l /\ StronglySorted before l.

(** What a fault at [addr] in [v] resolves to. *)
Inductive Content :=
  | AnonPage
  | FilePage (mount_idx inode offset elf_load_delta : Z)
  | DevicePage (phys : Z).

Definition content (v : VmArea) (addr : Z) : Content :=
  let delta := sub64 addr (vm_base v) in
  match vm_backing v with
  | Anonymous => AnonPage
  | File m n offset d => FilePage m n (add64 offset delta) d
  | Device phys_base => DevicePage (add64 phys_base delta)
  end.

Definition view (v : VmArea) (addr : Z) : Z * Z * string * Content :=
  (vm_prot v, vm_flags v, vm_name v, content v addr).

(** The address space as a function from addresses. *)
Definition resolve (l : list VmArea) (addr : Z) : option (Z * Z * string * Content) :=
  (fun v => view v addr) <$> List.find (fun v => contains v addr) l.

(** The part [lo, hi) of an area. *)
Definition slice (v : VmArea) (lo hi prot : Z) : VmArea :=
  mkArea lo (hi - lo) prot (vm_flags v) (advance_backing (vm_backing v) (lo - vm_base v))
    (vm_name v).

Definition cut_left (base : Z) (v : VmArea) : list VmArea :=
  if vm_base v <? base then [slice v (vm_base v) (Z.min (vm_end v) base) (vm_prot v)] else [].
Definition cut_right (end_ : Z) (v : VmArea) : list VmArea :=
  if end_ <? vm_end v then [slice v (Z.max (vm_base v) end_) (vm_end v) (vm_prot v)] else [].
Definition cut_mid (base end_ prot : Z) (v : VmArea) : list VmArea :=
  if (vm_base v <? end_) && (base <? vm_end v)
  then [slice v (Z.max (vm_base v) base) (Z.min (vm_end v) end_) prot] else [].

(** Reference definitions: what is left of an area after the removal of
    [base, end_), and what it becomes under a protection change. *)
Definition cut (base end_ : Z) (v : VmArea) : list VmArea := cut_left base v ++ cut_right end_ v.
Definition recolour (base end_ prot : Z) (v : VmArea) : list VmArea :=
  cut_left base v ++ cut_mid base end_ prot v ++ cut_right end_ v.

(** No device area has its head cut off at [end_]. *)
Definition no_device_cut (end_ : Z) (l : list VmArea) : Prop :=
  Forall (fun v => match vm_backing v with
                   | Device _ => ~ (vm_base v < end_ < vm_end v)
                   | _ => True end) l.

Section areas.
Implicit Types (v : VmArea) (l : list VmArea) (addr : Z).

Lemma area_end v : area_ok v -> vm_end v = vm_base v + vm_length v.
Proof. intros []. apply add64_small. lia. Qed.

Lemma contains_iff v addr :
  area_ok v -> contains v addr = true <-> vm_base v <= addr < vm_base v + vm_length v.
Proof. intros Hv. unfold contains. rewrite (area_end v Hv), andb_true_iff. lia. Qed.

Lemma add64_0 x : in_word 64 x -> add64 x 0 = x.
Proof. intros [? ?]. rewrite add64_small; unfold U64_MAX; lia. Qed.

Lemma add64_assoc x a b : add64 (add64 x a) b = add64 x (a + b).
Proof. unfold add64, wrap. rewrite Zplus_mod_idemp_l. f_equal. lia. Qed.

Lemma slice_whole v : area_ok v -> slice v (vm_base v) (vm_end v) (vm_prot v) = v.
Proof.
  intros Hv. unfold slice. rewrite area_end, Z.sub_diag by done.
  replace (vm_base v + vm_length v - vm_base v) with (vm_length v) by lia.
  destruct v as [b len pr fl bk nm]; simpl. f_equal. destruct bk; simpl; [done| |done].
  f_equal. apply add64_0. apply Hv.
Qed.

Lemma slice_ok v lo hi prot :
  area_ok v -> vm_base v <= lo < hi -> hi <= vm_end v -> area_ok (slice v lo hi prot).
Proof.
  intros Hv Hlo Hhi. rewrite area_end in Hhi by done. destruct Hv as [H1 H2 H3 H4].
  split; simpl; [lia|lia|lia|]. destruct (vm_backing v); simpl; try done. apply wrap_range. lia.
Qed.

Lemma slice_contains v lo hi prot addr :
  area_ok v -> vm_base v <= lo < hi -> hi <= vm_end v ->
  contains (slice v lo hi prot) addr = true <-> lo <= addr < hi.
Proof. intros. rewrite contains_iff by by apply slice_ok. simpl. lia. Qed.

Lemma slice_view v lo hi prot addr :
  area_ok v -> vm_base v <= lo <= addr -> addr < vm_end v ->
  (match vm_backing v with Device _ => lo = vm_base v | _ => True end) ->
  view (slice v lo hi prot) addr = (prot, vm_flags v, vm_name v, content v addr).
Proof.
  intros Hv Hlo Hend Hd. rewrite area_end in Hend by done. destruct Hv as [H1 H2 H3 H4].
  unfold view, content, slice. simpl. f_equal.
  rewrite !sub64_small by (unfold U64_MAX in *; lia).
  destruct (vm_backing v) as [|m n off d|pb]; simpl; [done| |by subst lo].
  rewrite add64_assoc. do 2 f_equal. lia.
Qed.

Lemma before_trans a b c : area_ok b -> before a b -> before b c -> before a c.
Proof. intros [] ? ?. unfold before in *. lia. Qed.

(** At most one area contains an address. *)
Lemma find_area l addr v :
  areas_ok l ->
  List.find (fun v => contains v addr) l = Some v <-> v ∈ l /\ contains v addr = true.
Proof.
  intros [Hok Hs]. induction l as [|w l IH]; simpl.
  { split; [done|]. intros [Hin _]. by apply not_elem_of_nil in Hin. }
  apply Forall_cons_iff in Hok as [Hw Hok]. apply StronglySorted_inv in Hs as [Hs Hb].
  rewrite elem_of_cons. destruct (contains w addr) eqn:Ew.
  - split; [intros [= ->]; auto|]. intros [[->|Hin] Hc]; [done|].
    rewrite list.Forall_forall in Hb, Hok. specialize (Hb _ Hin). specialize (Hok _ Hin).
    apply (contains_iff w) in Ew; [|done]. apply (contains_iff v) in Hc; [|done].
    unfold before in Hb. lia.
  - rewrite IH by done. naive_solver congruence.
Qed.

Lemma resolve_iff l addr x :
  areas_ok l ->
  resolve l addr = Some x <-> exists v, v ∈ l /\ contains v addr = true /\ x = view v addr.
Proof.
  intros Hl. unfold resolve. rewrite fmap_Some. setoid_rewrite find_area; [|done..].
  naive_solver.
Qed.

Lemma resolve_none l addr :
  resolve l addr = None <-> forall v, v ∈ l -> contains v addr = false.
Proof.
  unfold resolve. rewrite fmap_None. induction l as [|w l IH]; simpl.
  { split; [|done]. intros _ v Hv. by apply not_elem_of_nil in Hv. }
  destruct (contains w addr) eqn:E.
  - split; [done|]. intros H. specialize (H w ltac:(left)). congruence.
  - rewrite IH. split; intros H v Hv; [apply elem_of_cons in Hv as [->|Hv]; auto|].
    apply H. by right.
Qed.
End areas.

(* ------------------------------------------------------------------ *)
(** ** Replacing each area by pieces of itself *)

Definition inside (v w : VmArea) : Prop :=
  vm_base v <= vm_base w /\ vm_base w + vm_length w <= vm_base v + vm_length v.

(** [f] turns a well-formed area into a well-formed list of parts of it. *)
Definition subdivides (f : VmArea -> list VmArea) : Prop :=
  forall v, area_ok v -> areas_ok (f v) /\ Forall (inside v) (f v).

Section pieces.
Implicit Types (v w : VmArea) (l : list VmArea) (addr : Z) (f : VmArea -> list VmArea).

Lemma areas_ok_app l1 l2 :
  areas_ok (l1 ++ l2) <->
  areas_ok l1 /\ areas_ok l2 /\ (forall a b, a ∈ l1 -> b ∈ l2 -> before a b).
Proof.
  unfold areas_ok. rewrite list.Forall_app, StronglySorted_app. naive_solver.
Qed.

Lemma areas_ok_one v : area_ok v -> areas_ok [v].
Proof. intros Hv. split; [by apply Forall_singleton|]. repeat constructor. Qed.

Lemma areas_ok_nil : areas_ok [].
Proof. split; constructor. Qed.

Lemma flat_map_ok f l : subdivides f -> areas_ok l -> areas_ok (flat_map f l).
Proof.
  intros Hf. induction l as [|v l IH]; intros Hl; simpl; [apply areas_ok_nil|].
  apply (areas_ok_app [v] l) in Hl as (Hv & Hl & Hb).
  assert (area_ok v) as Hva by (destruct Hv as [Hv _]; by apply Forall_cons_iff in Hv as [? _]).
  apply areas_ok_app. split_and!; [by apply Hf|by apply IH|].
  intros a b Ha Hin. apply list_elem_of_In, in_flat_map in Hin as (w & Hw & Hbw).
  apply list_elem_of_In in Hw, Hbw. specialize (Hb v w ltac:(left) Hw).
  assert (area_ok w) as Hwa by (destruct Hl as [Hl _]; rewrite list.Forall_forall in Hl; by apply Hl).
  destruct (Hf v Hva) as [_ Hiv]. destruct (Hf w Hwa) as [_ Hiw].
  rewrite list.Forall_forall in Hiv, Hiw. specialize (Hiv a Ha). specialize (Hiw b Hbw).
  unfold inside, before in *. lia.
Qed.

Lemma resolve_flat_map f l addr :
  subdivides f -> areas_ok l ->
  resolve (flat_map f l) addr =
  match List.find (fun v => contains v addr) l with
  | Some v => resolve (f v) addr
  | None => None
  end.
Proof.
  intros Hf Hl. pose proof (flat_map_ok f l Hf Hl) as Hfl.
  assert (forall v w, v ∈ l -> w ∈ f v -> contains w addr = true -> contains v addr = true) as Hin.
  { intros v w Hv Hw Hc. destruct Hl as [Hl _]. rewrite list.Forall_forall in Hl.
    destruct (Hf v (Hl v Hv)) as [[Hok _] Hi]. rewrite list.Forall_forall in Hok, Hi.
    specialize (Hi w Hw). apply (contains_iff w) in Hc; [|by apply Hok].
    apply contains_iff; [by apply Hl|]. unfold inside in Hi. lia. }
  destruct (List.find _ l) as [v|] eqn:E.
  - apply find_area in E as [Hv Hc]; [|done].
    assert (areas_ok (f v)) as Hfv.
    { apply Hf. destruct Hl as [Hl _]. rewrite list.Forall_forall in Hl. by apply Hl. }
    apply option_eq. intros x. rewrite !resolve_iff by done. split.
    + intros (w & Hw & Hcw & ->). apply list_elem_of_In, in_flat_map in Hw as (u & Hu & Hwu).
      apply list_elem_of_In in Hu, Hwu. exists w. split_and!; [|done|done].
      assert (u = v) as ->; [|done].
      assert (Some u = Some v) as [=]; [|done].
      rewrite <- (proj2 (find_area l addr u Hl)) by eauto.
      by apply find_area.
    + intros (w & Hw & Hcw & ->). exists w. split_and!; [|done|done].
      apply list_elem_of_In, in_flat_map. exists v. by rewrite <- !list_elem_of_In.
  - apply resolve_none. intros w Hw. apply list_elem_of_In, in_flat_map in Hw as (v & Hv & Hwv).
    apply list_elem_of_In in Hv, Hwv. destruct (contains w addr) eqn:Ec; [|done].
    pose proof (Hin v w Hv Hwv Ec) as Hc.
    by rewrite (proj2 (find_area l addr v Hl)) in E.
Qed.

Lemma slice_inside v lo hi prot :
  area_ok v -> vm_base v <= lo -> hi <= vm_end v -> inside v (slice v lo hi prot).
Proof. intros Hv. rewrite area_end by done. unfold inside; simpl. lia. Qed.

(** Each optional piece on its own. *)
Lemma cut_left_ok base v : area_ok v -> areas_ok (cut_left base v) /\ Forall (inside v) (cut_left base v).
Proof.
  intros Hv. unfold cut_left. destruct (Z.ltb_spec (vm_base v) base); [|by split; [apply areas_ok_nil|]].
  assert (vm_base v < vm_end v) by (rewrite area_end by done; destruct Hv; lia).
  split; [apply areas_ok_one, slice_ok; [done|lia|lia]|].
  apply Forall_singleton, slice_inside; [done|lia|lia].
Qed.

Lemma cut_right_ok end_ v : area_ok v -> areas_ok (cut_right end_ v) /\ Forall (inside v) (cut_right end_ v).
Proof.
  intros Hv. unfold cut_right. destruct (Z.ltb_spec end_ (vm_end v)); [|by split; [apply areas_ok_nil|]].
  assert (vm_base v < vm_end v) by (rewrite area_end by done; destruct Hv; lia).
  split; [apply areas_ok_one, slice_ok; [done|lia|lia]|].
  apply Forall_singleton, slice_inside; [done|lia|lia].
Qed.

Lemma cut_mid_ok base end_ prot v :
  base < end_ -> area_ok v ->
  areas_ok (cut_mid base end_ prot v) /\ Forall (inside v) (cut_mid base end_ prot v).
Proof.
  intros Hb Hv. unfold cut_mid.
  destruct (Z.ltb_spec (vm_base v) end_), (Z.ltb_spec base (vm_end v));
    try (by split; [apply areas_ok_nil|]).
  assert (vm_base v < vm_end v) by (rewrite area_end by done; destruct Hv; lia). simpl.
  split; [apply areas_ok_one, slice_ok; [done|lia|lia]|].
  apply Forall_singleton, slice_inside; [done|lia|lia].
Qed.

Lemma elem_of_if_singleton {A} (b : bool) (x a : A) : a ∈ (if b then [x] else []) -> b = true /\ a = x.
Proof. destruct b; [intros ->%list_elem_of_singleton; done|by intros ?%not_elem_of_nil]. Qed.

Lemma cut_subdivides base end_ : base <= end_ -> subdivides (cut base end_).
Proof.
  intros Hb v Hv. pose proof (cut_left_ok base v Hv) as [L1 L2].
  pose proof (cut_right_ok end_ v Hv) as [R1 R2]. unfold cut.
  rewrite areas_ok_app, list.Forall_app. split_and!; [done..| |done|done].
  intros a b [_ ->]%elem_of_if_singleton [_ ->]%elem_of_if_singleton.
  unfold before; simpl. lia.
Qed.

Lemma recolour_subdivides base end_ prot : base < end_ -> subdivides (recolour base end_ prot).
Proof.
  intros Hb v Hv. pose proof (cut_left_ok base v Hv) as [L1 L2].
  pose proof (cut_right_ok end_ v Hv) as [R1 R2].
  pose proof (cut_mid_ok base end_ prot v Hb Hv) as [M1 M2]. unfold recolour.
  rewrite !areas_ok_app, !list.Forall_app. split_and!; try done.
  - intros a b [_ ->]%elem_of_if_singleton [_ ->]%elem_of_if_singleton. unfold before; simpl. lia.
  - intros a b [_ ->]%elem_of_if_singleton Hin. apply elem_of_app in Hin as [Hin|Hin];
      apply elem_of_if_singleton in Hin as [_ ->]; unfold before; simpl; lia.
Qed.
End pieces.

(* ------------------------------------------------------------------ *)
(** ** The loops against their reference definitions *)

Definition vma_pin (v : VmArea) : VfsPins -> VfsPins :=
  vma_pin_if_shared_file (vm_flags v) (vm_backing v).
Definition vma_unpin (v : VmArea) : VfsPins -> VfsPins :=
  vma_unpin_if_shared_file (vm_flags v) (vm_backing v).

(** One pin dropped, [n] pins placed. *)
Definition repin (v : VmArea) (n : nat) (p : VfsPins) : VfsPins :=
  Nat.iter n (vma_pin v) (vma_unpin v p).

Definition remove_pins (base end_ : Z) (p : VfsPins) (v : VmArea) : VfsPins :=
  if (vm_base v <? end_) && (base <? vm_end v) then
    if (base <=? vm_base v) && (vm_end v <=? end_) then repin v 0 p
    else if (vm_base v <? base) && (end_ <? vm_end v) then repin v 2 p
    else p
  else p.

Definition mprotect_pins (base end_ new_prot : Z) (p : VfsPins) (v : VmArea) : VfsPins :=
  if (vm_end v <=? base) || (end_ <=? vm_base v) then p
  else if (base <=? vm_base v) && (vm_end v <=? end_) then p
  else repin v (length (recolour base end_ new_prot v)) p.

Section loops.
Implicit Types (v w : VmArea) (l pre rest : list VmArea) (p : VfsPins).

Lemma vec_at {A} `{Inhabited A} (pre rest : list A) (x : A) :
  (pre ++ x :: rest) !!! length pre = x.
Proof. by rewrite list_lookup_total_middle. Qed.

Lemma vec_remove_at {A} (pre rest : list A) (x : A) :
  vec_remove (length pre) (pre ++ x :: rest) = pre ++ rest.
Proof.
  unfold vec_remove. rewrite take_app_length. f_equal.
  replace (S (length pre)) with (length pre + 1)%nat by lia.
  by rewrite <- drop_drop, drop_app_length.
Qed.

Lemma vec_insert_at {A} (pre rest : list A) (x : A) :
  vec_insert (length pre) x (pre ++ rest) = pre ++ x :: rest.
Proof. unfold vec_insert. by rewrite take_app_length, drop_app_length. Qed.

Lemma vec_in {A} (pre rest : list A) (x : A) :
  (length pre <? length (pre ++ x :: rest))%nat = true.
Proof. rewrite length_app. simpl. apply Nat.ltb_lt. lia. Qed.

Lemma advance_0 b : backing_ok b -> advance_backing b 0 = b.
Proof. destruct b; simpl; [done| |done]. intros. f_equal. by apply add64_0. Qed.

Lemma pin_advance fl b d : vma_pin_if_shared_file fl (advance_backing b d) = vma_pin_if_shared_file fl b.
Proof. by destruct b. Qed.

(** [cut] by cases, in the order of the code. *)
Lemma cut_cases base end_ v :
  area_ok v -> base <= end_ ->
  cut base end_ v =
    if negb ((vm_base v <? end_) && (base <? vm_end v)) then [v]
    else if (base <=? vm_base v) && (vm_end v <=? end_) then []
    else if (vm_base v <? base) && (end_ <? vm_end v) then
      [slice v (vm_base v) base (vm_prot v); slice v end_ (vm_end v) (vm_prot v)]
    else if vm_base v <? base then [slice v (vm_base v) base (vm_prot v)]
    else [slice v end_ (vm_end v) (vm_prot v)].
Proof.
  intros Hv Hb. pose proof (slice_whole v Hv) as Hw. pose proof (area_end v Hv) as He.
  destruct Hv. unfold cut, cut_left, cut_right.
  destruct (Z.ltb_spec (vm_base v) end_), (Z.ltb_spec base (vm_end v)),
    (Z.ltb_spec (vm_base v) base), (Z.ltb_spec end_ (vm_end v)),
    (Z.leb_spec base (vm_base v)), (Z.leb_spec (vm_end v) end_); simpl; try lia;
    rewrite ?Z.min_l, ?Z.min_r, ?Z.max_l, ?Z.max_r by lia; rewrite ?Hw; try done; try lia.
Qed.

Lemma remove_loop_eq base len fuel pre rest p :
  Forall area_ok rest -> 0 <= base -> 0 <= len -> base + len <= U64_MAX ->
  (length rest < fuel)%nat ->
  remove_loop fuel base len (length pre) (pre ++ rest) p =
  Some (pre ++ flat_map (cut base (base + len)) rest,
        fold_left (remove_pins base (base + len)) rest p).
Proof.
  intros Hok Hb Hl Ht. revert fuel pre p.
  induction rest as [|v rest IH]; intros fuel pre p Hfuel; (destruct fuel as [|fuel]; [simpl in *; lia|]).
  { simpl. rewrite app_nil_r, Nat.ltb_irrefl. done. }
  apply Forall_cons_iff in Hok as [Hv Hok]. specialize (IH Hok). simpl in Hfuel.
  cbn [remove_loop]. rewrite vec_in, vec_at, vec_remove_at. cbn [negb flat_map fold_left].
  rewrite cut_cases by (done || lia). unfold remove_pins at 2. unfold overlaps.
  pose proof (area_end v Hv) as He. pose proof Hv as [A1 A2 A3 A4].
  rewrite !add64_small by lia. remember (base + len) as end_ eqn:Eend.
  assert (forall x p', remove_loop fuel base len (S (length pre)) (pre ++ x :: rest) p' =
    Some (pre ++ x :: flat_map (cut base end_) rest, fold_left (remove_pins base end_) rest p')) as IH1.
  { intros x p'. specialize (IH fuel (pre ++ [x]) p' ltac:(lia)).
    rewrite length_app, <- !app_assoc, Nat.add_1_r in IH. exact IH. }
  destruct ((vm_base v <? end_) && (base <? vm_end v)) eqn:Eov; cbn [negb].
  2: { by rewrite IH1. }
  apply andb_true_iff in Eov as [E1%Z.ltb_lt E2%Z.ltb_lt].
  destruct ((base <=? vm_base v) && (vm_end v <=? end_)) eqn:Ec.
  { rewrite IH by lia. done. }
  assert (forall hi, mkArea (vm_base v) (hi - vm_base v) (vm_prot v) (vm_flags v) (vm_backing v)
    (vm_name v) = slice v (vm_base v) hi (vm_prot v)) as Hleft.
  { intros hi. unfold slice. by rewrite Z.sub_diag, advance_0. }
  assert (forall lo hi prot, mkArea lo (hi - lo) prot (vm_flags v)
    (advance_backing (vm_backing v) (lo - vm_base v)) (vm_name v) = slice v lo hi prot) as Hs by done.
  destruct ((vm_base v <? base) && (end_ <? vm_end v)) eqn:Es.
  { apply andb_true_iff in Es as [E3%Z.ltb_lt E4%Z.ltb_lt].
    rewrite !sub64_small by (unfold U64_MAX in *; lia).
    cbn [vm_flags vm_backing]. rewrite pin_advance, Hs, Hleft, !vec_insert_at.
    specialize (IH fuel (pre ++ [slice v (vm_base v) base (vm_prot v);
      slice v end_ (vm_end v) (vm_prot v)]) (repin v 2 p) ltac:(lia)).
    rewrite length_app, <- !app_assoc in IH. exact IH. }
  destruct (vm_base v <? base) eqn:E3.
  { apply Z.ltb_lt in E3. rewrite !sub64_small by (unfold U64_MAX in *; lia).
    by rewrite vec_insert_at, IH1, Hleft. }
  apply Z.ltb_ge in E3.
  assert (end_ < vm_end v) by (apply andb_false_iff in Ec as [?%Z.leb_gt|?%Z.leb_gt]; lia).
  rewrite vec_insert_at, (sub64_small end_ (vm_base v)) by (unfold U64_MAX in *; lia).
  rewrite (sub64_small (vm_length v)) by (unfold U64_MAX in *; lia).
  replace (vm_length v - (end_ - vm_base v)) with (vm_end v - end_) by lia.
  by rewrite IH1, Hs.
Qed.

(** [recolour] by cases, in the order of the code. *)
Lemma recolour_cases base end_ prot v :
  area_ok v -> base < end_ ->
  recolour base end_ prot v =
    if (vm_end v <=? base) || (end_ <=? vm_base v) then [v]
    else if (base <=? vm_base v) && (vm_end v <=? end_) then [set_prot prot v]
    else mprotect_pieces base end_ prot v.
Proof.
  intros Hv Hb. pose proof (slice_whole v Hv) as Hw. pose proof (area_end v Hv) as He.
  assert (slice v (vm_base v) (vm_end v) prot = set_prot prot v) as Hset.
  { unfold slice, set_prot. rewrite Z.sub_diag, advance_0 by apply Hv. f_equal. lia. }
  destruct Hv. unfold recolour, cut_left, cut_mid, cut_right, mprotect_pieces.
  destruct (Z.ltb_spec (vm_base v) end_), (Z.ltb_spec base (vm_end v)),
    (Z.ltb_spec (vm_base v) base), (Z.ltb_spec end_ (vm_end v)),
    (Z.leb_spec base (vm_base v)), (Z.leb_spec (vm_end v) end_), (Z.leb_spec (vm_end v) base),
    (Z.leb_spec end_ (vm_base v)); simpl; try lia;
    rewrite ?Z.min_l, ?Z.min_r, ?Z.max_l, ?Z.max_r by lia; rewrite ?Hw, ?Hset; try done;
    unfold slice; rewrite !sub64_small by (unfold U64_MAX in *; lia); done.
Qed.

Lemma insert_pieces_eq v pieces pre rest p :
  Forall (fun w => vma_pin w = vma_pin v) pieces ->
  insert_pieces (length pre) pieces (pre ++ rest) p =
  (pre ++ pieces ++ rest, Nat.iter (length pieces) (vma_pin v) p).
Proof.
  intros Hp. unfold insert_pieces. rewrite <- fold_left_rev_right, rev_involutive.
  induction pieces as [|w pieces IH]; [done|]. apply Forall_cons_iff in Hp as [Hw Hp].
  cbn [fold_right]. rewrite IH by done. cbn [fst snd app length]. rewrite vec_insert_at.
  f_equal. fold (vma_pin w). by rewrite Hw.
Qed.

Lemma slice_pin v lo hi prot : vma_pin (slice v lo hi prot) = vma_pin v.
Proof. unfold vma_pin. simpl. apply pin_advance. Qed.

Lemma recolour_pin base end_ prot v :
  Forall (fun w => vma_pin w = vma_pin v) (recolour base end_ prot v).
Proof.
  unfold recolour, cut_left, cut_mid, cut_right. rewrite !list.Forall_app.
  split_and!; case_match; try done; apply Forall_singleton, slice_pin.
Qed.

Lemma mprotect_loop_eq base end_ prot fuel pre rest p :
  Forall area_ok rest -> base < end_ -> (length rest < fuel)%nat ->
  mprotect_loop fuel base end_ prot (length pre) (pre ++ rest) p =
  Some (pre ++ flat_map (recolour base end_ prot) rest,
        fold_left (mprotect_pins base end_ prot) rest p).
Proof.
  intros Hok Hb. revert fuel pre p.
  induction rest as [|v rest IH]; intros fuel pre p Hfuel; (destruct fuel as [|fuel]; [simpl in *; lia|]).
  { simpl. rewrite app_nil_r, Nat.ltb_irrefl. done. }
  apply Forall_cons_iff in Hok as [Hv Hok]. specialize (IH Hok). simpl in Hfuel.
  cbn [mprotect_loop]. rewrite vec_in, vec_at. cbn [negb flat_map fold_left].
  unfold mprotect_pins at 2. pose proof (recolour_pin base end_ prot v) as Hpin.
  rewrite recolour_cases in * by done.
  assert (forall x p', mprotect_loop fuel base end_ prot (S (length pre)) (pre ++ x :: rest) p' =
    Some (pre ++ x :: flat_map (recolour base end_ prot) rest,
          fold_left (mprotect_pins base end_ prot) rest p')) as IH1.
  { intros x p'. specialize (IH fuel (pre ++ [x]) p' ltac:(lia)).
    rewrite length_app, <- !app_assoc, Nat.add_1_r in IH. exact IH. }
  destruct ((vm_end v <=? base) || (end_ <=? vm_base v)); [by rewrite IH1|].
  destruct ((base <=? vm_base v) && (vm_end v <=? end_)).
  { rewrite insert_app_r_alt, Nat.sub_diag by lia. cbn [list_insert insert]. by rewrite IH1. }
  rewrite vec_remove_at. rewrite (insert_pieces_eq v) by done.
  rewrite app_assoc, <- length_app, IH by lia. by rewrite <- app_assoc.
Qed.

Lemma remove_range_eq base len s p :
  Forall area_ok (areas s) -> 0 <= base -> 0 <= len -> base + len <= U64_MAX ->
  remove_range base len s p =
  Some (with_areas (flat_map (cut base (base + len)) (areas s)) (bump_generation s),
        fold_left (remove_pins base (base + len)) (areas s) p).
Proof.
  intros Hl Hb Hlen Ht. unfold remove_range. cbn [areas bump_generation].
  pose proof (remove_loop_eq base len (S (length (areas s))) [] (areas s) p Hl Hb Hlen Ht
    ltac:(lia)) as E. cbn [length app] in E. by rewrite E.
Qed.

Lemma mprotect_areas_eq base end_ prot s p :
  Forall area_ok (areas s) -> base < end_ ->
  mprotect_areas base end_ prot s p =
  Some (with_areas (flat_map (recolour base end_ prot) (areas s)) (bump_generation s),
        fold_left (mprotect_pins base end_ prot) (areas s) p).
Proof.
  intros Hl Hb. unfold mprotect_areas. cbn [areas bump_generation].
  pose proof (mprotect_loop_eq base end_ prot (S (length (areas s))) [] (areas s) p Hl Hb
    ltac:(lia)) as E. cbn [length app] in E. by rewrite E.
Qed.
End loops.

(* ------------------------------------------------------------------ *)
(** ** One pin per shared file area *)

(** The inode a shared file area pins. *)
Definition shared_key (v : VmArea) : option (Z * Z) :=
  if vm_flags v .& MAP_SHARED =? 0 then None
  else match vm_backing v with
       | File m n _ _ => if m =? USIZE_MAX then None else Some (m, n)
       | _ => None
       end.

Fixpoint shared_count (l : list VmArea) (k : Z * Z) : Z :=
  match l with
  | [] => 0
  | v :: l' => Z.b2z (bool_decide (shared_key v = Some k)) + shared_count l' k
  end.

(** [ext] counts the pins that are not mappings of this address space. *)
Record pins_balanced (ext : Z * Z -> Z) (l : list VmArea) (p : VfsPins) : Prop := {
  balanced_table : pin_table_ok (PINNED_INODES p);
  balanced_ext : forall k, 0 <= ext k;
  balanced_count : forall k, pin_of (PINNED_INODES p) k = ext k + shared_count l k
}.

Section balance.
Implicit Types (v w : VmArea) (l pre rest : list VmArea) (p : VfsPins) (k : Z * Z).

Lemma shared_count_app l1 l2 k :
  shared_count (l1 ++ l2) k = shared_count l1 k + shared_count l2 k.
Proof. induction l1 as [|v l1 IH]; simpl; lia. Qed.

Lemma shared_count_range l k : 0 <= shared_count l k <= Z.of_nat (length l).
Proof. induction l as [|v l IH]; simpl; [lia|]. destruct (bool_decide _); simpl; lia. Qed.

Lemma shared_count_pos l k v : v ∈ l -> shared_key v = Some k -> 0 < shared_count l k.
Proof.
  induction l as [|w l IH]; [by intros ?%not_elem_of_nil|].
  intros [->|Hv]%elem_of_cons Hk; simpl.
  - rewrite bool_decide_eq_true_2 by done. pose proof (shared_count_range l k). simpl. lia.
  - specialize (IH Hv Hk). destruct (bool_decide _); simpl; lia.
Qed.

(** Pieces of one area all hold its pin. *)
Lemma shared_count_pieces v pieces k :
  Forall (fun w => shared_key w = shared_key v) pieces ->
  shared_count pieces k =
  Z.of_nat (length pieces) * Z.b2z (bool_decide (shared_key v = Some k)).
Proof.
  induction pieces as [|w pieces IH]; intros Hk; simpl; [done|].
  apply Forall_cons_iff in Hk as [E Hk]. rewrite IH by done. rewrite E. lia.
Qed.

Lemma slice_key v lo hi prot : shared_key (slice v lo hi prot) = shared_key v.
Proof. unfold shared_key. simpl. by destruct (vm_backing v). Qed.

Lemma vma_pin_spec v p :
  pin_table_ok (PINNED_INODES p) ->
  (forall k, pin_of (PINNED_INODES p) k < U32_MAX) ->
  pin_table_ok (PINNED_INODES (vma_pin v p)) /\
  forall k, pin_of (PINNED_INODES (vma_pin v p)) k =
            pin_of (PINNED_INODES p) k + Z.b2z (bool_decide (shared_key v = Some k)).
Proof.
  intros Hok Hlt. unfold vma_pin, vma_pin_if_shared_file, shared_key, pin_inode.
  destruct (_ =? 0); [split; [done|]; intros k; simpl; lia|].
  destruct (vm_backing v) as [|m n off d|]; try (split; [done|]; intros k; simpl; lia).
  destruct (m =? USIZE_MAX); [split; [done|]; intros k; simpl; lia|].
  simpl. split; [by apply pin_list_ok|]. intros k. rewrite pin_list_of by apply Hlt.
  do 2 f_equal. apply bool_decide_ext. naive_solver.
Qed.

Lemma vma_unpin_spec v p :
  pin_table_ok (PINNED_INODES p) ->
  pin_table_ok (PINNED_INODES (vma_unpin v p)) /\
  forall k, pin_of (PINNED_INODES (vma_unpin v p)) k =
            if bool_decide (shared_key v = Some k) then Z.max 0 (pin_of (PINNED_INODES p) k - 1)
            else pin_of (PINNED_INODES p) k.
Proof.
  intros Hok. unfold vma_unpin, vma_unpin_if_shared_file, shared_key, unpin_inode_deferred, dec_pin.
  destruct (_ =? 0); [by split|].
  destruct (vm_backing v) as [|m n off d|]; try by split.
  destruct (m =? USIZE_MAX); [by split|].
  pose proof (dec_pin_list_spec m n _ Hok) as Hd.
  destruct (dec_pin_list m n (PINNED_INODES p)) as [last q].
  destruct Hd as (H1 & _ & _ & H2).
  assert (PINNED_INODES (if last then with_PENDING (PENDING_INODE_REAP (with_PINNED q p) ++ [(m, n)])
    (with_PINNED q p) else with_PINNED q p) = q) as -> by (by destruct last).
  split; [done|]. intros k. rewrite H2.
  by rewrite (bool_decide_ext (Some (m, n) = Some k) (k = (m, n))) by naive_solver.
Qed.

Lemma vma_pin_iter v n p :
  pin_table_ok (PINNED_INODES p) ->
  (forall k, pin_of (PINNED_INODES p) k + Z.of_nat n <= U32_MAX) ->
  pin_table_ok (PINNED_INODES (Nat.iter n (vma_pin v) p)) /\
  forall k, pin_of (PINNED_INODES (Nat.iter n (vma_pin v) p)) k =
    pin_of (PINNED_INODES p) k + Z.of_nat n * Z.b2z (bool_decide (shared_key v = Some k)).
Proof.
  intros Hok. induction n as [|n IH]; intros Hb; [split; [done|]; intros; simpl; lia|].
  destruct IH as [H1 H2]; [intros k; specialize (Hb k); lia|].
  destruct (vma_pin_spec v _ H1) as [H3 H4].
  { intros k. rewrite H2. specialize (Hb k). destruct (bool_decide _); simpl; lia. }
  split; [exact H3|]. intros k. simpl Nat.iter. rewrite H4, H2. lia.
Qed.

(** Replacing one area by [n] areas with the same inode. *)
Lemma repin_balanced ext pre v pieces rest p :
  pins_balanced ext (pre ++ v :: rest) p ->
  (forall k, ext k + shared_count (pre ++ v :: rest) k + Z.of_nat (length pieces) <= U32_MAX) ->
  Forall (fun w => shared_key w = shared_key v) pieces ->
  pins_balanced ext (pre ++ pieces ++ rest) (repin v (length pieces) p).
Proof.
  intros [Hok Hext Hc] Hb Hk. destruct (vma_unpin_spec v p Hok) as [U1 U2].
  pose proof (fun k => shared_count_pieces v pieces k Hk) as Hp.
  unfold repin. destruct (vma_pin_iter v (length pieces) (vma_unpin v p) U1) as [P1 P2].
  { intros k. rewrite U2, Hc. specialize (Hb k).
    pose proof (shared_count_range (pre ++ v :: rest) k). specialize (Hext k).
    case_bool_decide; lia. }
  split; [done|done|]. intros k. rewrite P2, U2, Hc, !shared_count_app, Hp. simpl.
  pose proof (shared_count_range pre k). pose proof (shared_count_range rest k).
  specialize (Hext k). case_bool_decide; simpl; lia.
Qed.

(** A pass over the list that, at each area, either keeps its pin and leaves
    one piece, or repins for the pieces it leaves. *)
Lemma balanced_fold ext f g pre rest p :
  (forall v p, area_ok v ->
     g p v = p /\ length (f v) = 1%nat \/ g p v = repin v (length (f v)) p) ->
  (forall v, Forall (fun w => shared_key w = shared_key v) (f v) /\ (length (f v) <= 3)%nat) ->
  Forall area_ok rest ->
  pins_balanced ext (pre ++ rest) p ->
  (forall k, ext k + shared_count (pre ++ rest) k + 3 * Z.of_nat (length rest) <= U32_MAX) ->
  pins_balanced ext (pre ++ flat_map f rest) (fold_left g rest p).
Proof.
  intros Hg Hf. revert pre p. induction rest as [|v rest IH]; intros pre p Hok Hbal Hb; simpl; [done|].
  apply Forall_cons_iff in Hok as [Hv Hok]. destruct (Hf v) as [Hkey Hlen]. rewrite app_assoc.
  assert (pins_balanced ext (pre ++ f v ++ rest) (g p v)) as Hbal'.
  { destruct (Hg v p Hv) as [[-> Hone]| ->].
    - destruct (f v) as [|w [|? ?]]; try done. apply Forall_cons_iff in Hkey as [E _].
      destruct Hbal as [B1 B2 B3]. split; [done|done|]. intros k. rewrite B3, !shared_count_app.
      simpl. rewrite E. lia.
    - apply repin_balanced; [done| |done]. intros k. specialize (Hb k). simpl in Hb. lia. }
  apply IH; [done|by rewrite <- app_assoc|]. intros k. specialize (Hb k).
  rewrite <- app_assoc. rewrite !shared_count_app in *. simpl in Hb.
  rewrite (shared_count_pieces v (f v)) by done. destruct (bool_decide _); simpl in *; lia.
Qed.

Lemma cut_keys base end_ v :
  Forall (fun w => shared_key w = shared_key v) (cut base end_ v) /\ (length (cut base end_ v) <= 3)%nat.
Proof.
  unfold cut, cut_left, cut_right. rewrite list.Forall_app, length_app.
  split; [split|]; repeat case_match; simpl; try lia; try done; apply Forall_singleton, slice_key.
Qed.

Lemma recolour_keys base end_ prot v :
  Forall (fun w => shared_key w = shared_key v) (recolour base end_ prot v) /\
  (length (recolour base end_ prot v) <= 3)%nat.
Proof.
  unfold recolour, cut_left, cut_mid, cut_right. rewrite !list.Forall_app, !length_app.
  split; [split_and!|]; repeat case_match; simpl; try lia; try done; apply Forall_singleton, slice_key.
Qed.

Lemma remove_pins_cases base end_ v p :
  base <= end_ -> area_ok v ->
  remove_pins base end_ p v = p /\ length (cut base end_ v) = 1%nat \/
  remove_pins base end_ p v = repin v (length (cut base end_ v)) p.
Proof.
  intros Hb Hv. rewrite cut_cases by done. unfold remove_pins.
  destruct ((vm_base v <? end_) && (base <? vm_end v)); [|by left]. cbn [negb].
  destruct ((base <=? vm_base v) && (vm_end v <=? end_)); [by right|].
  destruct ((vm_base v <? base) && (end_ <? vm_end v)); [by right|].
  left. by destruct (vm_base v <? base).
Qed.

Lemma mprotect_pins_cases base end_ prot v p :
  base < end_ -> area_ok v ->
  mprotect_pins base end_ prot p v = p /\ length (recolour base end_ prot v) = 1%nat \/
  mprotect_pins base end_ prot p v = repin v (length (recolour base end_ prot v)) p.
Proof.
  intros Hb Hv. unfold mprotect_pins. rewrite recolour_cases by done.
  destruct ((vm_end v <=? base) || (end_ <=? vm_base v)); [by left|].
  destruct ((base <=? vm_base v) && (vm_end v <=? end_)); [by left|by right].
Qed.
End balance.

(* ------------------------------------------------------------------ *)
(** ** Resolving an address in the pieces of an area *)

Section resolve.
Implicit Types (v w : VmArea) (l : list VmArea) (addr : Z).

Lemma resolve_app l1 l2 addr :
  resolve (l1 ++ l2) addr =
  match resolve l1 addr with Some x => Some x | None => resolve l2 addr end.
Proof.
  unfold resolve. induction l1 as [|v l1 IH]; simpl; [done|]. by destruct (contains v addr).
Qed.

(** An optional slice. *)
Lemma resolve_slice (b : bool) v lo hi prot addr :
  area_ok v -> (b = true -> vm_base v <= lo < hi /\ hi <= vm_end v) ->
  (match vm_backing v with Device _ => b = true -> lo = vm_base v | _ => True end) ->
  resolve (if b then [slice v lo hi prot] else []) addr =
  if b && bool_decide (lo <= addr < hi)
  then Some (prot, vm_flags v, vm_name v, content v addr) else None.
Proof.
  intros Hv Hb Hd. destruct b; [|done]. destruct (Hb eq_refl) as [Hlo Hhi].
  unfold resolve. cbn [List.find]. pose proof (slice_contains v lo hi prot addr Hv Hlo Hhi) as Hc.
  case_bool_decide as E; simpl.
  - rewrite (proj2 Hc) by done. simpl. f_equal. apply slice_view; [done|lia|lia|].
    destruct (vm_backing v); auto.
  - destruct (contains _ addr); [|done]. destruct E. by apply Hc.
Qed.

Lemma resolve_cut base end_ v addr :
  area_ok v -> base <= end_ -> contains v addr = true ->
  (match vm_backing v with Device _ => ~ (vm_base v < end_ < vm_end v) | _ => True end) ->
  resolve (cut base end_ v) addr =
  if bool_decide (base <= addr < end_) then None else Some (view v addr).
Proof.
  intros Hv Hb Hc Hd. apply contains_iff in Hc; [|done]. pose proof (area_end v Hv) as He.
  pose proof (area_len v Hv). unfold cut, cut_left, cut_right.
  rewrite resolve_app. rewrite !resolve_slice; try done; rewrite ?Z.ltb_lt; try lia;
    try (destruct (vm_backing v); try done; rewrite ?Z.ltb_lt; lia).
  destruct (Z.ltb_spec (vm_base v) base), (Z.ltb_spec end_ (vm_end v)); simpl;
    repeat case_bool_decide; try done; exfalso; lia.
Qed.

Lemma resolve_recolour base end_ prot v addr :
  area_ok v -> base < end_ -> contains v addr = true ->
  (match vm_backing v with
   | Device _ => ~ (vm_base v < base < vm_end v) /\ ~ (vm_base v < end_ < vm_end v)
   | _ => True end) ->
  resolve (recolour base end_ prot v) addr =
  Some (if bool_decide (base <= addr < end_)
        then (prot, vm_flags v, vm_name v, content v addr) else view v addr).
Proof.
  intros Hv Hb Hc Hd. apply contains_iff in Hc; [|done]. pose proof (area_end v Hv) as He.
  pose proof (area_len v Hv). unfold recolour, cut_left, cut_mid, cut_right.
  rewrite !resolve_app. rewrite !resolve_slice; try done;
    rewrite ?andb_true_iff, ?Z.ltb_lt; try lia;
    try (destruct (vm_backing v); try done; rewrite ?andb_true_iff, ?Z.ltb_lt; lia).
  destruct (Z.ltb_spec (vm_base v) base), (Z.ltb_spec end_ (vm_end v)),
    (Z.ltb_spec (vm_base v) end_), (Z.ltb_spec base (vm_end v)); simpl;
    repeat case_bool_decide; try done; exfalso; lia.
Qed.
End resolve.

(* ------------------------------------------------------------------ *)
(** ** Insertion *)

Section insertion.
Implicit Types (v w : VmArea) (l : list VmArea) (addr : Z).

Lemma overlaps_iff v w :
  area_ok v -> area_ok w ->
  overlaps v (vm_base w) (vm_length w) = true <->
  exists addr, contains v addr = true /\ contains w addr = true.
Proof.
  intros Hv Hw. setoid_rewrite contains_iff; [|done|done].
  unfold overlaps. rewrite area_end by done. destruct Hv, Hw.
  rewrite add64_small, andb_true_iff, !Z.ltb_lt by lia. split.
  - intros [? ?]. exists (Z.max (vm_base v) (vm_base w)). lia.
  - intros (addr & ? & ?). lia.
Qed.

Lemma overlaps_before v w :
  area_ok v -> area_ok w -> overlaps v (vm_base w) (vm_length w) = false ->
  before v w \/ before w v.
Proof.
  intros Hv Hw. unfold overlaps, before. rewrite area_end by done. destruct Hv, Hw.
  rewrite add64_small, andb_false_iff, !Z.ltb_ge by lia. lia.
Qed.

Lemma position_above_spec b l :
  areas_ok l ->
  Forall (fun v => vm_base v <= b) (take (position_above b l) l) /\
  Forall (fun v => b < vm_base v) (drop (position_above b l) l).
Proof.
  induction l as [|v l IH]; intros Hl; simpl; [by split|].
  apply (areas_ok_app [v] l) in Hl as (Hv & Hl & Hb).
  destruct (Z.ltb_spec b (vm_base v)); simpl.
  - split; [done|]. constructor; [done|]. apply list.Forall_forall. intros w Hw.
    specialize (Hb v w ltac:(left) Hw). destruct Hv as [Hv _].
    apply Forall_cons_iff in Hv as [[] _]. unfold before in Hb. lia.
  - destruct (IH Hl) as [H1 H2]. split; [by constructor|done].
Qed.

Lemma vec_insert_elem {A} i (x y : A) (l : list A) : y ∈ vec_insert i x l <-> y = x \/ y ∈ l.
Proof.
  unfold vec_insert. rewrite elem_of_app, elem_of_cons.
  rewrite <- (take_drop i l) at 3. rewrite elem_of_app. naive_solver.
Qed.

Lemma insert_areas_ok w l :
  areas_ok l -> area_ok w ->
  existsb (fun v => overlaps v (vm_base w) (vm_length w)) l = false ->
  areas_ok (vec_insert (position_above (vm_base w) l) w l).
Proof.
  intros Hl Hw Hno. unfold vec_insert. set (i := position_above _ _).
  pose proof (position_above_spec (vm_base w) l Hl) as [Hpre Hpost]. fold i in Hpre, Hpost.
  assert (forall v, v ∈ l -> area_ok v /\ (before v w \/ before w v)) as Hd.
  { intros v Hv. assert (area_ok v) as Hva.
    { destruct Hl as [Hl _]. rewrite list.Forall_forall in Hl. by apply Hl. }
    split; [done|]. apply overlaps_before; [done..|].
    destruct (overlaps v _ _) eqn:E; [|done]. rewrite <- Hno. symmetry. apply existsb_exists.
    exists v. by rewrite <- list_elem_of_In. }
  pose proof Hl as Hl2. rewrite <- (take_drop i l) in Hl2.
  apply areas_ok_app in Hl2 as (H1 & H2 & H12). rewrite list.Forall_forall in Hpre, Hpost.
  assert (forall v, v ∈ take i l -> before v w) as Hbw.
  { intros v Hv. destruct (Hd v) as [[] [?|?]]; [|done|].
    - rewrite <- (take_drop i l), elem_of_app. by left.
    - specialize (Hpre v Hv). destruct Hw. unfold before in *. lia. }
  assert (forall v, v ∈ drop i l -> before w v) as Hwb.
  { intros v Hv. destruct (Hd v) as [[] [?|?]]; [| |done].
    - rewrite <- (take_drop i l), elem_of_app. by right.
    - specialize (Hpost v Hv). destruct Hw. unfold before in *. lia. }
  apply areas_ok_app. split_and!; [done| |].
  - apply (areas_ok_app [w]). split_and!; [by apply areas_ok_one|done|].
    intros a b ->%list_elem_of_singleton Hin. by apply Hwb.
  - intros a b Ha [->|Hin]%elem_of_cons; [by apply Hbw|by apply H12].
Qed.

Lemma resolve_insert i w l addr :
  areas_ok (vec_insert i w l) -> areas_ok l ->
  resolve (vec_insert i w l) addr =
  if contains w addr then Some (view w addr) else resolve l addr.
Proof.
  intros Hi Hl. apply option_eq. intros x. rewrite resolve_iff by done.
  setoid_rewrite vec_insert_elem. destruct (contains w addr) eqn:E.
  - split; [|intros [= <-]; exists w; auto]. intros (v & Hv & Hc & ->). f_equal.
    assert (Some w = Some v) as [= ->]; [|done].
    rewrite <- (proj2 (find_area _ addr w Hi)) by (split; [apply vec_insert_elem; by left|done]).
    apply find_area; [done|]. by rewrite vec_insert_elem.
  - rewrite resolve_iff by done. split; intros (v & Hv & Hc & ->); exists v; split_and!; auto.
    destruct Hv as [->|]; [congruence|done].
Qed.
End insertion.

(* ------------------------------------------------------------------ *)
(** ** The heap area *)

Definition heap_area (lo hi : Z) : VmArea :=
  mkArea lo (hi - lo) (PROT_READ .| PROT_WRITE) (MAP_PRIVATE .| MAP_ANONYMOUS) Anonymous "[heap]".

(** The heap area, if the break is above its start, is the only area of that
    name and ends at the break. *)
Record heap_ok (s : VmSpace) : Prop := {
  heap_start : 0 <= brk_start s <= brk s;
  heap_top : brk s <= U64_MAX;
  heap_only : List.filter is_heap (areas s) =
              if brk s =? brk_start s then [] else [heap_area (brk_start s) (brk s)]
}.

(** No other area lies in [lo, hi). *)
Definition heap_room (lo hi : Z) (l : list VmArea) : Prop :=
  Forall (fun v => is_heap v = false -> ~ (vm_base v < hi /\ lo < vm_base v + vm_length v)) l.

Section heap.
Implicit Types (v : VmArea) (l pre post : list VmArea).

Lemma heap_split l h :
  List.filter is_heap l = [h] ->
  exists pre post, l = pre ++ h :: post /\ List.filter is_heap pre = [] /\
                   List.filter is_heap post = [] /\ is_heap h = true.
Proof.
  induction l as [|v l IH]; simpl; [done|]. destruct (is_heap v) eqn:E.
  - intros [= -> Hn]. by exists [], l.
  - intros H. destruct (IH H) as (pre & post & -> & H1 & H2 & H3).
    exists (v :: pre), post. simpl. by rewrite E.
Qed.

Lemma filter_nil_not l v : List.filter is_heap l = [] -> v ∈ l -> is_heap v = false.
Proof.
  intros Hf Hv. destruct (is_heap v) eqn:E; [|done].
  assert (v ∈ List.filter is_heap l) as Hin.
  { apply list_elem_of_In, List.filter_In. by rewrite <- list_elem_of_In. }
  rewrite Hf in Hin. by apply not_elem_of_nil in Hin.
Qed.

Lemma existsb_heap l : existsb is_heap l = negb (length (List.filter is_heap l) =? 0)%nat.
Proof. induction l as [|v l IH]; simpl; [done|]. by destruct (is_heap v). Qed.

Lemma resize_heap_app new_brk pre h post :
  List.filter is_heap pre = [] -> is_heap h = true ->
  resize_heap new_brk (pre ++ h :: post) =
  pre ++ mkArea (vm_base h) (sub64 new_brk (vm_base h)) (vm_prot h) (vm_flags h) (vm_backing h)
           (vm_name h) :: post.
Proof.
  intros Hf Hh. induction pre as [|v pre IH]; simpl in *; [by rewrite Hh|].
  destruct (is_heap v); [done|]. by rewrite IH.
Qed.

Lemma is_heap_area lo hi : is_heap (heap_area lo hi) = true.
Proof. done. Qed.

Lemma heap_area_ok lo hi : 0 <= lo < hi -> hi <= U64_MAX -> area_ok (heap_area lo hi).
Proof. intros. by split; simpl; try lia. Qed.

(** Moving the end of the only heap area. *)
Lemma resize_heap_ok lo hi hi' l :
  areas_ok l -> List.filter is_heap l = [heap_area lo hi] ->
  0 <= lo < hi' -> hi' <= U64_MAX -> heap_room lo hi' l ->
  areas_ok (resize_heap hi' l) /\ List.filter is_heap (resize_heap hi' l) = [heap_area lo hi'].
Proof.
  intros Hl Hf Hlo Hhi Hroom. destruct (heap_split l _ Hf) as (pre & post & -> & H1 & H2 & _).
  rewrite resize_heap_app by done. cbn [vm_base vm_prot vm_flags vm_backing vm_name heap_area].
  rewrite sub64_small by (unfold U64_MAX in *; lia). fold (heap_area lo hi').
  split.
  - apply areas_ok_app in Hl as (Hp & Hq & Hpq). apply (areas_ok_app [_]) in Hq as (Hh & Hpost & Hhp).
    destruct Hh as [Hh _]. apply Forall_cons_iff in Hh as [[_ Hlen _ _] _]. simpl in Hlen.
    apply areas_ok_app. split_and!; [done| |].
    + apply (areas_ok_app [_]). split_and!; [by apply areas_ok_one, heap_area_ok|done|].
      intros a b ->%list_elem_of_singleton Hb. unfold heap_room in Hroom.
      rewrite list.Forall_forall in Hroom.
      specialize (Hroom b ltac:(rewrite elem_of_app, elem_of_cons; auto) (filter_nil_not _ _ H2 Hb)).
      specialize (Hhp (heap_area lo hi) b ltac:(left) Hb).
      destruct Hpost as [Hpost _]. rewrite list.Forall_forall in Hpost.
      destruct (Hpost b Hb). unfold before in *; simpl in *. lia.
    + intros a b Ha [->|Hb]%elem_of_cons; [|by apply Hpq; [|right]].
      exact (Hpq a (heap_area lo hi) Ha ltac:(left)).
  - rewrite filter_app. simpl. by rewrite H1, H2.
Qed.

(** Creating the heap area. *)
Lemma insert_heap_ok lo hi s p :
  areas_ok (areas s) -> List.filter is_heap (areas s) = [] ->
  0 <= lo < hi -> hi <= U64_MAX -> heap_room lo hi (areas s) ->
  let '(_, s', _) := insert_vma (heap_area lo hi) s p in
  areas_ok (areas s') /\ List.filter is_heap (areas s') = [heap_area lo hi] /\
  brk_start s' = brk_start s.
Proof.
  intros Hl Hf Hlo Hhi Hroom. pose proof (heap_area_ok lo hi Hlo Hhi) as Hh. unfold insert_vma.
  assert (existsb (fun e => overlaps e lo (hi - lo)) (areas s) = false) as E.
  { apply not_true_iff_false. rewrite existsb_exists. intros (v & Hin & Ho).
    apply list_elem_of_In in Hin. unfold heap_room in Hroom. rewrite list.Forall_forall in Hroom.
    destruct Hl as [Hl _]. rewrite list.Forall_forall in Hl. specialize (Hl v Hin).
    apply (Hroom v Hin (filter_nil_not _ _ Hf Hin)). revert Ho. unfold overlaps.
    rewrite area_end by done. rewrite add64_small, andb_true_iff, !Z.ltb_lt by lia. lia. }
  cbn [vm_base vm_length heap_area]. rewrite E.
  cbn [areas bump_generation with_areas brk_start].
  pose proof (insert_areas_ok (heap_area lo hi) (areas s) Hl Hh E) as Hok. split_and!; [done| |done].
  unfold vec_insert. cbn [vm_base heap_area] in *. set (i := position_above _ _).
  rewrite <- (take_drop i (areas s)), filter_app in Hf. apply app_eq_nil in Hf as [F1 F2].
  rewrite filter_app. cbn [List.filter]. by rewrite is_heap_area, F1, F2.
Qed.

Lemma filter_heap_ok l :
  areas_ok l -> areas_ok (List.filter (fun v => negb (is_heap v)) l) /\
                List.filter is_heap (List.filter (fun v => negb (is_heap v)) l) = [].
Proof.
  induction l as [|v l IH]; intros Hl; simpl; [by split; [apply areas_ok_nil|]|].
  apply (areas_ok_app [v]) in Hl as (Hv & Hl & Hb). destruct (IH Hl) as [H1 H2].
  destruct (is_heap v) eqn:E; simpl; [done|]. rewrite E. split; [|done].
  apply (areas_ok_app [v]). split_and!; [done|done|]. intros a b Ha Hin. apply Hb; [done|].
  apply list_elem_of_In, List.filter_In in Hin as [Hin _]. by apply list_elem_of_In.
Qed.
End heap.

(* ------------------------------------------------------------------ *)
(** ** Properties *)

(** C2: [remove_range] terminates on every well-formed address space and
    implements unmapping: addresses in the range resolve to nothing
    afterwards, every other address resolves to exactly what it did before
    (protection, flags, name, file offset), the list stays sorted and
    disjoint, and the generation counter moves on. Device areas must not lose
    their head to the range, see [remove_range_device_shift]. *)
Theorem remove_range_correct (base len : Z) (s : VmSpace) (p : VfsPins) :
  areas_ok (areas s) -> 0 <= base -> 0 <= len -> base + len <= U64_MAX ->
  no_device_cut (base + len) (areas s) ->
  exists s' p', remove_range base len s p = Some (s', p') /\
    areas_ok (areas s') /\ generation s' = add64 (generation s) 1 /\
    forall addr, resolve (areas s') addr =
      if bool_decide (base <= addr < base + len) then None else resolve (areas s) addr.
Proof.
  intros Hl Hb Hlen Htop Hd.
  rewrite remove_range_eq by (apply Hl || lia).
  eexists _, _. split; [done|]. cbn [app areas with_areas generation bump_generation].
  pose proof (cut_subdivides base (base + len) ltac:(lia)) as Hsub.
  split_and!; [by apply flat_map_ok|done|]. intros addr.
  rewrite resolve_flat_map by done. unfold resolve at 2.
  destruct (List.find _ (areas s)) as [v|] eqn:E; simpl; [|by case_bool_decide].
  apply find_area in E as [Hv Hc]; [|done]. destruct Hl as [Hl _].
  unfold no_device_cut in Hd. rewrite list.Forall_forall in Hl, Hd.
  apply resolve_cut; [by apply Hl|lia|done|]. specialize (Hd v Hv).
  by destruct (vm_backing v).
Qed.

(** The area loop of [sys_mprotect] terminates and changes the protection
    of exactly the addresses of the range: everything else about every
    address, its file offset across the splits included, is unchanged. *)
Theorem mprotect_areas_correct (base end_ prot : Z) (s : VmSpace) (p : VfsPins) :
  areas_ok (areas s) -> base < end_ ->
  no_device_cut base (areas s) -> no_device_cut end_ (areas s) ->
  exists s' p', mprotect_areas base end_ prot s p = Some (s', p') /\
    areas_ok (areas s') /\
    forall addr, resolve (areas s') addr =
      (fun x => let '(old, flags, name, c) := x in
         (if bool_decide (base <= addr < end_) then prot else old, flags, name, c)) <$>
      resolve (areas s) addr.
Proof.
  intros Hl Hb Hd1 Hd2.
  rewrite mprotect_areas_eq by (apply Hl || lia).
  eexists _, _. split; [done|]. cbn [app areas with_areas bump_generation].
  pose proof (recolour_subdivides base end_ prot Hb) as Hsub.
  split; [by apply flat_map_ok|]. intros addr.
  rewrite resolve_flat_map by done. unfold resolve at 2.
  destruct (List.find _ (areas s)) as [v|] eqn:E; simpl; [|done].
  apply find_area in E as [Hv Hc]; [|done]. destruct Hl as [Hl _].
  unfold no_device_cut in Hd1, Hd2. rewrite list.Forall_forall in Hl, Hd1, Hd2.
  rewrite resolve_recolour; [by case_bool_decide|by apply Hl|lia|done|].
  specialize (Hd1 v Hv). specialize (Hd2 v Hv). by destruct (vm_backing v).
Qed.

(** [insert_vma] refuses a new area with [Overlap] exactly when some
    address is already mapped by another area, and then changes nothing;
    otherwise it adds precisely the new area's addresses and keeps the list
    sorted and disjoint. *)
Theorem insert_vma_correct (vma : VmArea) (s : VmSpace) (p : VfsPins) :
  areas_ok (areas s) -> area_ok vma ->
  let taken := exists addr, contains vma addr = true /\ resolve (areas s) addr <> None in
  let '(r, s', p') := insert_vma vma s p in
  (r = inr Overlap <-> taken) /\
  (taken -> s' = s /\ p' = p) /\
  (~ taken -> r = inl tt /\ areas_ok (areas s') /\
     forall addr, resolve (areas s') addr =
       if contains vma addr then Some (view vma addr) else resolve (areas s) addr).
Proof.
  intros Hl Hv taken. unfold insert_vma.
  assert (existsb (fun e => overlaps e (vm_base vma) (vm_length vma)) (areas s) = true <-> taken) as Ht.
  { rewrite existsb_exists. unfold taken. split.
    - intros (v & Hin & Ho). apply list_elem_of_In in Hin.
      assert (area_ok v) by (destruct Hl as [Hl _]; rewrite list.Forall_forall in Hl; by apply Hl).
      apply overlaps_iff in Ho as (addr & H1 & H2); [|done..]. exists addr. split; [done|].
      rewrite resolve_none. intros Hn. rewrite Hn in H1; done.
    - intros (addr & Hc & Hr). destruct (resolve (areas s) addr) as [x|] eqn:E; [|done].
      apply resolve_iff in E as (v & Hin & Hcv & _); [|done]. exists v.
      rewrite <- list_elem_of_In. split; [done|]. apply overlaps_iff; [|done|by eauto].
      destruct Hl as [Hl _]. rewrite list.Forall_forall in Hl. by apply Hl. }
  destruct (existsb _ (areas s)) eqn:E.
  - split_and!; [by split; [intros _; apply Ht|]|done|]. intros Hn. by destruct Hn; apply Ht.
  - pose proof (insert_areas_ok vma (areas s) Hl Hv E) as Hok.
    split_and!; [split; [done|]|..]; try (intros Hx; apply Ht in Hx; done).
    intros _. split_and!; [done|done|]. intros addr. by apply resolve_insert.
Qed.

(** One inode pin per shared file mapping. If the pin table counts
    exactly the shared file areas of the list (on top of [ext] other pins),
    it still does after [insert_vma], [remove_range] and [mprotect_areas],
    whatever is split or dropped, as long as the [u32] counts cannot
    saturate. *)
Theorem mapping_pins_balanced (ext : Z * Z -> Z) (s : VmSpace) (p : VfsPins) :
  areas_ok (areas s) -> pins_balanced ext (areas s) p ->
  (forall k, ext k + 4 * Z.of_nat (length (areas s)) < U32_MAX) ->
  (forall vma r s' p', insert_vma vma s p = (r, s', p') -> pins_balanced ext (areas s') p') /\
  (forall base len s' p', 0 <= base -> 0 <= len -> base + len <= U64_MAX ->
     remove_range base len s p = Some (s', p') -> pins_balanced ext (areas s') p') /\
  (forall base end_ prot s' p', base < end_ ->
     mprotect_areas base end_ prot s p = Some (s', p') -> pins_balanced ext (areas s') p').
Proof.
  intros Hl Hbal Hb.
  assert (forall k, ext k + shared_count (areas s) k + 3 * Z.of_nat (length (areas s)) <= U32_MAX) as Hb'.
  { intros k. specialize (Hb k). pose proof (shared_count_range (areas s) k). lia. }
  split_and!.
  - intros vma r s' p'. unfold insert_vma. destruct (existsb _ _); [by intros [= <- <- <-]|].
    intros [= <- <- <-]. cbn [areas bump_generation with_areas]. fold (vma_pin vma).
    destruct Hbal as [B1 B2 B3]. destruct (vma_pin_spec vma p B1) as [P1 P2].
    { intros k. rewrite B3. specialize (Hb k). pose proof (shared_count_range (areas s) k). lia. }
    split; [done|done|]. intros k. rewrite P2, B3. unfold vec_insert.
    set (i := position_above _ _). rewrite <- (take_drop i (areas s)) at 1.
    rewrite !shared_count_app. simpl. lia.
  - intros base len s' p' H0 H1 H2.
    rewrite remove_range_eq by (apply Hl || lia). intros [= <- <-].
    apply (balanced_fold ext _ _ []); [|intros; apply cut_keys|apply Hl|done|done].
    intros v q Hv. apply remove_pins_cases; [lia|done].
  - intros base end_ prot s' p' H0.
    rewrite mprotect_areas_eq by (apply Hl || lia). intros [= <- <-].
    apply (balanced_fold ext _ _ []); [|intros; apply recolour_keys|apply Hl|done|done].
    intros v q Hv. by apply mprotect_pins_cases.
Qed.

(** Reaping is exact. When the pin table counts the shared mappings, the
    reaper frees, out of the inodes queued, precisely those that were unlinked,
    whose file system is mounted, that no descriptor holds and that no pin
    keeps; in particular it frees no inode that a live shared mapping still
    uses. *)
Theorem reap_frees_exactly_orphans (open : Z -> Z -> bool) (mounted : Z -> bool)
    (ext : Z * Z -> Z) (l : list VmArea) (p : VfsPins) :
  pins_balanced ext l p ->
  let p' := reap_pending_inodes open mounted p in
  pins_balanced ext l p' /\
  exists new, FREED p' = FREED p ++ new /\
    (forall m n, (m, n) ∈ new <->
       (m, n) ∈ PENDING_INODE_REAP p /\ (m, n) ∈ DELETED_INODES p /\ mounted m = true /\
       open m n = false /\ ext (m, n) = 0 /\ shared_count l (m, n) = 0) /\
    (forall v k, v ∈ l -> shared_key v = Some k -> k ∉ new).
Proof.
  intros [B1 B2 B3] p'. destruct (reap_spec open mounted p B1) as (E1 & new & E2 & Hnew).
  fold p' in E1, E2.
  split; [by split; [rewrite E1|..|intros k; rewrite E1]|].
  assert (forall k, orphan open p k <-> open (fst k) (snd k) = false /\ ext k = 0 /\ shared_count l k = 0) as Ho.
  { intros k. unfold orphan. rewrite B3. specialize (B2 k).
    pose proof (shared_count_range l k). intuition lia. }
  exists new. split_and!; [done| |].
  - intros m n. rewrite Hnew, Ho. simpl. tauto.
  - intros v k Hv Hk Hin. apply Hnew in Hin as (_ & Hor & _). apply Ho in Hor as (_ & _ & Hz).
    pose proof (shared_count_pos l k v Hv Hk). lia.
Qed.

(** With room above the heap, [adjust_brk] moves the break to the
    page-aligned address asked for (or leaves it, below the start of the
    heap), keeps exactly one heap area ending at the break, keeps the list
    sorted and disjoint, and on a shrink hands exactly the abandoned range to
    the unmapper. *)
Theorem adjust_brk_correct (new_brk : Z) (s : VmSpace) (p : VfsPins) :
  areas_ok (areas s) -> heap_ok s ->
  let nb := page_align_up new_brk in
  nb <= U64_MAX -> heap_room (brk_start s) nb (areas s) ->
  let '(r, unmapped, s', p') := adjust_brk new_brk s p in
  r = brk s' /\ brk s' = (if nb <? brk_start s then brk s else nb) /\
  areas_ok (areas s') /\ heap_ok s' /\
  unmapped = (if (brk_start s <=? nb) && (nb <? brk s) then Some (nb, brk s - nb) else None).
Proof.
  intros Hl [Hs Ht Hf] nb Hnb Hroom. unfold adjust_brk. fold nb. clearbody nb.
  destruct (Z.ltb_spec nb (brk_start s)) as [Hlt|Hge].
  { rewrite (proj2 (Z.leb_gt _ _)) by done. by split_and!. }
  rewrite (proj2 (Z.leb_le (brk_start s) nb)) by done.
  destruct (Z.eqb_spec nb (brk s)) as [->|Hne].
  { rewrite (Z.ltb_irrefl (brk s)). by split_and!. }
  cbn [brk areas bump_generation brk_start]. rewrite existsb_heap, Hf.
  destruct (Z.ltb_spec (brk s) nb) as [Hgrow|Hshrink].
  - rewrite (proj2 (Z.ltb_ge nb (brk s))) by lia.
    destruct (Z.eqb_spec (brk s) (brk_start s)) as [Eb|Eb]; cbn [length Nat.eqb negb].
    + rewrite sub64_small by (unfold U64_MAX in *; lia). fold (heap_area (brk_start s) nb).
      pose proof (insert_heap_ok (brk_start s) nb (bump_generation s) p Hl Hf ltac:(lia) Hnb Hroom) as Hi.
      destruct (insert_vma _ (bump_generation s) p) as [[r s1] p1].
      destruct Hi as (H1 & H2 & H3). cbn [brk areas with_brk]. split_and!; try done.
      split; cbn [brk areas with_brk brk_start]; rewrite ?H3; cbn [brk_start bump_generation]; [lia|done|].
      rewrite H2. by rewrite (proj2 (Z.eqb_neq _ _)) by lia.
    + destruct (resize_heap_ok (brk_start s) (brk s) nb (areas s)) as [H1 H2]; try done; [lia|].
      split_and!; try done. split; cbn [brk areas with_brk with_areas brk_start bump_generation]; [lia|done|].
      rewrite H2. by rewrite (proj2 (Z.eqb_neq _ _)) by lia.
  - rewrite (proj2 (Z.ltb_lt nb (brk s))) by lia.
    rewrite (proj2 (Z.eqb_neq _ _)) by lia. cbn [length Nat.eqb negb].
    rewrite (proj2 (Z.eqb_neq (brk s) (brk_start s))) in Hf by lia.
    rewrite sub64_small by (unfold U64_MAX in *; lia).
    destruct (Z.leb_spec nb (brk_start s)) as [Hz|Hz].
    + destruct (filter_heap_ok (areas s) Hl) as [H1 H2].
      split_and!; try done. split; cbn [brk areas with_brk with_areas brk_start bump_generation]; [lia|lia|].
      rewrite H2. by rewrite (proj2 (Z.eqb_eq _ _)) by lia.
    + destruct (resize_heap_ok (brk_start s) (brk s) nb (areas s)) as [H1 H2]; try done; [lia|].
      split_and!; try done. split; cbn [brk areas with_brk with_areas brk_start bump_generation]; [lia|lia|].
      rewrite H2. by rewrite (proj2 (Z.eqb_neq _ _)) by lia.
Qed.

(* ------------------------------------------------------------------ *)
(** ** Witnesses *)

Definition demo_file : VmArea :=
  mkArea 0x1000 0x4000 PROT_READ MAP_SHARED (File 1 7 0x10000 0) "[mmap]".
Definition demo_anon : VmArea :=
  mkArea 0x8000 0x2000 (PROT_READ .| PROT_WRITE) MAP_PRIVATE Anonymous "[mmap]".
Definition demo_space : VmSpace :=
  mkSpace 0x7000 [demo_file; demo_anon] 0x7F0000000000 0x7F0000000000 0x4000000000 0x4000000000 0.
Definition demo_pins : VfsPins := mkVfsPins [(1, 7, 1)] [(1, 7)] [] [].
Definition no_ext (_ : Z * Z) : Z := 0.

Lemma demo_areas_ok : areas_ok (areas demo_space).
Proof.
  split.
  - repeat (apply Forall_cons_iff; split); [| |done]; split; simpl; unfold in_word, U64_MAX; lia.
  - repeat constructor. unfold before; simpl. lia.
Qed.

Lemma demo_balanced : pins_balanced no_ext (areas demo_space) demo_pins.
Proof.
  split; [split| |].
  - apply NoDup_singleton.
  - repeat constructor; simpl; unfold U32_MAX; lia.
  - done.
  - intros k. simpl. unfold no_ext. change (shared_key demo_file) with (Some (1, 7)).
    change (shared_key demo_anon) with (@None (Z * Z)).
    rewrite (bool_decide_ext (Some (1, 7) = Some k) ((1, 7) = k)) by naive_solver.
    by case_bool_decide.
Qed.

Lemma demo_no_device e : no_device_cut e (areas demo_space).
Proof. repeat (apply Forall_cons_iff; split); done. Qed.

Lemma remove_range_correct_witness :
  exists s' p', remove_range 0x2000 0x1000 demo_space demo_pins = Some (s', p') /\
    resolve (areas s') 0x2000 = None /\
    resolve (areas s') 0x3000 = Some (PROT_READ, MAP_SHARED, "[mmap]", FilePage 1 7 0x12000 0).
Proof.
  destruct (remove_range_correct 0x2000 0x1000 demo_space demo_pins demo_areas_ok
    ltac:(lia) ltac:(lia) ltac:(unfold U64_MAX; lia) (demo_no_device _)) as (s' & p' & E & _ & _ & H).
  exists s', p'. split; [exact E|]. rewrite !H. split; vm_compute; reflexivity.
Defined.

Lemma mprotect_areas_correct_witness :
  exists s' p', mprotect_areas 0x2000 0x3000 PROT_NONE demo_space demo_pins = Some (s', p') /\
    resolve (areas s') 0x2000 = Some (PROT_NONE, MAP_SHARED, "[mmap]", FilePage 1 7 0x11000 0).
Proof.
  destruct (mprotect_areas_correct 0x2000 0x3000 PROT_NONE demo_space demo_pins demo_areas_ok
    ltac:(lia) (demo_no_device _) (demo_no_device _)) as (s' & p' & E & _ & H).
  exists s', p'. split; [exact E|]. rewrite H. vm_compute; reflexivity.
Defined.

Lemma insert_vma_correct_witness :
  fst (fst (insert_vma demo_anon demo_space demo_pins)) = inr Overlap.
Proof.
  pose proof (insert_vma_correct demo_anon demo_space demo_pins demo_areas_ok) as Hw.
  assert (area_ok demo_anon) as Ha by (split; simpl; unfold U64_MAX; lia || done).
  specialize (Hw Ha). cbv zeta in Hw.
  destruct (insert_vma demo_anon demo_space demo_pins) as [[r s'] p']. simpl.
  apply Hw. exists 0x8000. split; [reflexivity|]. vm_compute. discriminate.
Defined.

Lemma mapping_pins_balanced_witness :
  exists s' p', remove_range 0x2000 0x1000 demo_space demo_pins = Some (s', p') /\
    pins_balanced no_ext (areas s') p' /\ shared_count (areas s') (1, 7) = 2.
Proof.
  destruct (mapping_pins_balanced no_ext demo_space demo_pins demo_areas_ok demo_balanced)
    as (_ & Hw & _); [intros k; unfold no_ext, U32_MAX; simpl; lia|].
  eexists _, _. split; [vm_compute; reflexivity|]. split; [|vm_compute; reflexivity].
  apply (Hw 0x2000 0x1000); [lia|lia|unfold U64_MAX; lia|vm_compute; reflexivity].
Defined.

Lemma reap_frees_exactly_orphans_witness :
  FREED (reap_pending_inodes (fun _ _ => false) (fun _ => true)
           (with_PENDING [(1, 7)] demo_pins)) = [].
Proof.
  assert (pins_balanced no_ext (areas demo_space) (with_PENDING [(1, 7)] demo_pins)) as Hb
    by (destruct demo_balanced; split; assumption).
  destruct (reap_frees_exactly_orphans (fun _ _ => false) (fun _ => true) _ _ _ Hb)
    as (_ & new & E & _ & Hk).
  destruct new as [|k new]; [exact E|]. exfalso.
  assert (k = (1, 7)) as -> by (vm_compute in E; congruence).
  apply (Hk demo_file (1, 7)); [left|reflexivity|left].
Defined.

Lemma adjust_brk_correct_witness :
  brk (snd (fst (adjust_brk 0x4000001234 demo_space demo_pins))) = 0x4000002000.
Proof.
  pose proof (adjust_brk_correct 0x4000001234 demo_space demo_pins demo_areas_ok) as Hw.
  assert (heap_ok demo_space) as Hh by (split; simpl; unfold U64_MAX; lia || reflexivity).
  specialize (Hw Hh). cbv zeta in Hw.
  assert (page_align_up 0x4000001234 = 0x4000002000) as E by reflexivity. rewrite E in Hw.
  specialize (Hw ltac:(unfold U64_MAX; lia)).
  assert (heap_room (brk_start demo_space) 0x4000002000 (areas demo_space)) as Hr.
  { repeat (apply Forall_cons_iff; split); [simpl; lia..|done]. }
  specialize (Hw Hr). destruct (adjust_brk _ _ _) as [[[r u] s'] p']. simpl.
  destruct Hw as (_ & Hb & _). exact Hb.
Defined.

(* ------------------------------------------------------------------ *)
(** ** Where the code departs from its contract *)

(** A device mapping whose first page is unmapped keeps the physical base of
    the whole mapping, so its second page now resolves to the frame of its
    first. *)
Lemma remove_range_device_shift :
  let v := mkArea 0x10000 0x2000 PROT_READ MAP_SHARED (Device 0xE0000000) "[fb0]" in
  let s := mkSpace 0x7000 [v] 0 0 0 0 0 in
  areas_ok (areas s) /\
  resolve (areas s) 0x11000 = Some (PROT_READ, MAP_SHARED, "[fb0]", DevicePage 0xE0001000) /\
  exists s', remove_range 0x10000 0x1000 s demo_pins = Some (s', demo_pins) /\
    resolve (areas s') 0x11000 = Some (PROT_READ, MAP_SHARED, "[fb0]", DevicePage 0xE0000000).
Proof.
  intros v s. split; [|split; [vm_compute; reflexivity|]].
  2: { eexists. split; [vm_compute; reflexivity|vm_compute; reflexivity]. }
  apply areas_ok_one. split; simpl; unfold U64_MAX; lia || done.
Qed.

(** Growing the break over an existing mapping: the list is no longer
    disjoint. *)
Lemma adjust_brk_overlap :
  let other := mkArea 0x4000002000 0x1000 PROT_READ MAP_PRIVATE Anonymous "[mmap]" in
  let s := mkSpace 0x7000 [heap_area 0x4000000000 0x4000001000; other] 0 0
             0x4000001000 0x4000000000 0 in
  areas_ok (areas s) /\ heap_ok s /\
  ~ areas_ok (areas (snd (fst (adjust_brk 0x4000003000 s demo_pins)))).
Proof.
  intros other s. split; [|split].
  - split; [|repeat constructor; unfold before; simpl; lia].
    repeat (apply Forall_cons_iff; split); [| |done]; split; simpl; unfold U64_MAX; lia || done.
  - split; simpl; unfold U64_MAX; lia || reflexivity.
  - vm_compute. intros [_ Hs]. apply StronglySorted_inv in Hs as [_ Hs].
    apply Forall_cons_iff in Hs as [Hs _]. vm_compute in Hs. by apply Hs.
Qed.

(** [mprotect] to [PROT_NONE] leaves a present page present and accessible
    from user mode. *)
Lemma retag_prot_none_accessible pte :
  pte .& PAGE_PRESENT <> 0 ->
  Z.testbit (retag_pte PROT_NONE pte) 0 = true /\ Z.testbit (retag_pte PROT_NONE pte) 2 = true.
Proof.
  intros Hp. unfold retag_pte. rewrite (proj2 (Z.eqb_neq _ _)) by done. cbn [negb].
  rewrite !Z.lor_spec, !Z.land_spec. split; by rewrite orb_true_r.
Qed.

(** [mprotect] with [PROT_WRITE] makes any present page writable in place,
    a frame shared copy-on-write included. *)
Lemma retag_write_in_place prot pte :
  pte .& PAGE_PRESENT <> 0 -> prot .& PROT_WRITE <> 0 ->
  Z.testbit (retag_pte prot pte) 1 = true.
Proof.
  intros Hp%Z.eqb_neq Hw%Z.eqb_neq. unfold retag_pte. rewrite Hp, Hw. cbn [negb].
  rewrite Z.lor_spec. apply orb_true_iff. right. by destruct (prot .& PROT_EXEC =? 0).
Qed.
