(* ===== verification/Placement.v ===== *)
(** * Choosing addresses for new mappings (kernel/src/mm/vma.rs)

    The table of address ranges whose page-table teardown is in flight, and
    the top-down searches that keep clear of both the mapped areas and those
    ranges. *)

From S2P Require Import Prelude InodePins Vma.

(* ------------------------------------------------------------------ *)
(** ** Teardown reservations *)

Definition TEARDOWN_SLOTS : nat := 64.
Definition TEARDOWN_NO_SLOT : Z := U64_MAX.

Record Teardown := mkTeardown {
  TEARDOWN_CR3 : list Z;
  TEARDOWN_LO : list Z;
  TEARDOWN_HI : list Z;
  TEARDOWN_UNRESERVED : Z;
  TEARDOWN_LIVE : Z;
  TEARDOWN_PUBLISHED : Z
}.

Definition teardown_static : Teardown :=
  mkTeardown (replicate TEARDOWN_SLOTS 0) (replicate TEARDOWN_SLOTS 0)
    (replicate TEARDOWN_SLOTS 0) 0 0 0.

(** [for i in 0..TEARDOWN_SLOTS]: claim the first free slot. *)
Fixpoint publish_loop (cr3 lo hi : Z) (idxs : list nat) (t : Teardown) : option (nat * Teardown) :=
  match idxs with
  | [] => None
  | i :: idxs' =>
      if TEARDOWN_CR3 t !!! i =? 0 then
        Some (i, mkTeardown (<[i := cr3]> (TEARDOWN_CR3 t)) (<[i := lo]> (TEARDOWN_LO t))
                   (<[i := hi]> (TEARDOWN_HI t)) (TEARDOWN_UNRESERVED t)
                   (add64 (TEARDOWN_LIVE t) 1) (add64 (TEARDOWN_PUBLISHED t) 1))
      else publish_loop cr3 lo hi idxs' t
  end.

Definition teardown_publish (cr3 lo hi : Z) (t : Teardown) : Z * Teardown :=
  if (cr3 =? 0) || (hi <=? lo) then (TEARDOWN_NO_SLOT, t)
  else match publish_loop cr3 lo hi (seq 0 TEARDOWN_SLOTS) t with
       | Some (i, t) => (Z.of_nat i, t)
       | None =>
           (TEARDOWN_NO_SLOT,
            mkTeardown (TEARDOWN_CR3 t) (TEARDOWN_LO t) (TEARDOWN_HI t)
              (add64 (TEARDOWN_UNRESERVED t) 1) (TEARDOWN_LIVE t) (TEARDOWN_PUBLISHED t))
       end.

Definition teardown_retire (slot : Z) (t : Teardown) : Teardown :=
  if slot <? Z.of_nat TEARDOWN_SLOTS then
    let i := Z.to_nat slot in
    mkTeardown (<[i := 0]> (TEARDOWN_CR3 t)) (<[i := 0]> (TEARDOWN_LO t))
      (<[i := 0]> (TEARDOWN_HI t)) (TEARDOWN_UNRESERVED t) (sub64 (TEARDOWN_LIVE t) 1)
      (TEARDOWN_PUBLISHED t)
  else t.

(** One iteration of the scan of [teardown_conflict]. *)
Definition conflict_slot (cr3 lo hi : Z) (t : Teardown) (lowest : option Z) (i : nat) : option Z :=
  if negb (TEARDOWN_CR3 t !!! i =? cr3) then lowest
  else
    let t_lo := TEARDOWN_LO t !!! i in
    let t_hi := TEARDOWN_HI t !!! i in
    if (lo <? t_hi) && (t_lo <? hi) then
      Some (match lowest with None => t_lo | Some c => Z.min c t_lo end)
    else lowest.

Definition teardown_conflict (cr3 lo hi : Z) (t : Teardown) : option Z :=
  if (cr3 =? 0) || (cr3 =? U64_MAX) then None
  else if TEARDOWN_LIVE t =? 0 then None
  else fold_left (conflict_slot cr3 lo hi t) (seq 0 TEARDOWN_SLOTS) None.

Definition conflict_extent_slot (cr3 lo hi : Z) (t : Teardown) (widest : option (Z * Z)) (i : nat)
    : option (Z * Z) :=
  if negb (TEARDOWN_CR3 t !!! i =? cr3) then widest
  else
    let t_lo := TEARDOWN_LO t !!! i in
    let t_hi := TEARDOWN_HI t !!! i in
    if (lo <? t_hi) && (t_lo <? hi) then
      let span := sat_sub t_hi t_lo in
      match widest with
      | Some (w_lo, w_hi) =>
          if span <=? sat_sub w_hi w_lo then Some (w_lo, w_hi) else Some (t_lo, t_hi)
      | None => Some (t_lo, t_hi)
      end
    else widest.

Definition teardown_conflict_extent (cr3 lo hi : Z) (t : Teardown) : option (Z * Z) :=
  if (cr3 =? 0) || (cr3 =? U64_MAX) || (TEARDOWN_LIVE t =? 0) then None
  else fold_left (conflict_extent_slot cr3 lo hi t) (seq 0 TEARDOWN_SLOTS) None.

(* ------------------------------------------------------------------ *)
(** ** Searches *)

Definition MMAP_BASE : Z := 0x7F0000000000.
Definition STACK_ASLR_MIN : Z := MMAP_BASE.
Definition STACK_ASLR_MAX : Z := 0x7F4000000000.
Definition STACK_ASLR_BITS : Z := 16.
Definition FLOOR : Z := 0x1000.

(** The descending sweep: [l] is the reversed area list. *)
Fixpoint sweep (size : Z) (l : list VmArea) (ceiling : Z) : option Z :=
  match l with
  | [] =>
      if (FLOOR <? ceiling) && (size <=? sub64 ceiling FLOOR) then Some (sub64 ceiling size)
      else None
  | vma :: l' =>
      if ceiling <=? vm_base vma then sweep size l' ceiling
      else
        let gap_top := ceiling in
        let gap_bot := Z.max (Z.min (vm_end vma) ceiling) FLOOR in
        if (gap_bot <=? gap_top) && (size <=? sub64 gap_top gap_bot)
        then Some (sub64 gap_top size)
        else sweep size l' (Z.min (vm_base vma) ceiling)
  end.

Definition find_free_range_below (size start_ceiling : Z) (s : VmSpace) : option Z :=
  let size := page_align_up size in
  sweep size (rev (areas s)) (Z.min start_ceiling MMAP_BASE).

(** [for _ in 0..=TEARDOWN_SLOTS], [n] iterations left. *)
Fixpoint free_range_loop (n : nat) (size ceiling : Z) (s : VmSpace) (t : Teardown) : option Z :=
  match n with
  | O => None
  | S n =>
      match find_free_range_below size ceiling s with
      | None => None
      | Some cand =>
          match teardown_conflict (cr3 s) cand (sat_add64 cand size) t with
          | None => Some cand
          | Some t_lo => free_range_loop n size t_lo s t
          end
      end
  end.

Definition find_free_range (size : Z) (s : VmSpace) (t : Teardown) : option Z :=
  let size := page_align_up size in
  free_range_loop (S TEARDOWN_SLOTS) size MMAP_BASE s t.

(** [aslr_page_offset(entropy_bits)] for the random word [r]. *)
Definition aslr_page_offset (entropy_bits r : Z) : Z :=
  r .& (((1 .<< entropy_bits) - 1) .<< 12).

(** One placement attempt of [find_free_stack_range]. *)
Definition stack_candidate (size jitter : Z) (s : VmSpace) : Z :=
  let raw := sat_add64 (stack_aslr_base s) jitter in
  let max_base := sat_sub STACK_ASLR_MAX size in
  Z.max (Z.min raw max_base) STACK_ASLR_MIN.

(** [rands] are the words [rand_u64] returns, one per attempt. *)
Fixpoint stack_loop (size : Z) (rands : list Z) (s : VmSpace) (t : Teardown) : option Z :=
  match rands with
  | [] => None
  | r :: rands' =>
      let candidate := stack_candidate size (aslr_page_offset STACK_ASLR_BITS r) s in
      if existsb (fun vma => overlaps vma candidate size) (areas s) ||
         bool_decide (is_Some (teardown_conflict (cr3 s) candidate (sat_add64 candidate size) t))
      then stack_loop size rands' s t
      else Some candidate
  end.

Definition STACK_PLACE_RETRIES : nat := 16.

Definition find_free_stack_range (size : Z) (rands : list Z) (s : VmSpace) (t : Teardown)
    : option Z :=
  let size := page_align_up size in
  if (size =? 0) || (sub64 STACK_ASLR_MAX STACK_ASLR_MIN <? size) then None
  else match stack_loop size (take STACK_PLACE_RETRIES rands) s t with
       | Some candidate => Some candidate
       | None => find_free_range size s t
       end.

(* ------------------------------------------------------------------ *)
(** ** Page alignment *)

Lemma page_align_up_spec x :
  0 <= x -> x + 0xFFF <= U64_MAX ->
  x <= page_align_up x < x + 4096 /\ page_align_up x mod 4096 = 0.
Proof.
  intros H0 H1. unfold page_align_up. rewrite add64_small by lia.
  rewrite land_page_mask by (unfold in_word, U64_MAX in *; lia).
  pose proof (Z.div_mod (x + 4095) 4096 ltac:(done)).
  pose proof (Z.mod_pos_bound (x + 4095) 4096 ltac:(done)).
  split; [lia|]. apply Z.mod_mul. done.
Qed.

Lemma page_align_up_id x : 0 <= x -> x + 0xFFF <= U64_MAX -> x mod 4096 = 0 -> page_align_up x = x.
Proof.
  intros H0 H1 Hm. destruct (page_align_up_spec x H0 H1) as [Hr Hm'].
  pose proof (Z.div_mod x 4096 ltac:(done)). pose proof (Z.div_mod (page_align_up x) 4096 ltac:(done)).
  lia.
Qed.

(* ------------------------------------------------------------------ *)
(** ** The sweep finds the highest gap *)

(** [p .. p + size] lies in the window below [ceiling] and in no area. *)
Definition gap (l : list VmArea) (size ceiling p : Z) : Prop :=
  FLOOR <= p /\ p + size <= ceiling /\
  Forall (fun v => ~ (vm_base v < p + size /\ p < vm_base v + vm_length v)) l.

(** [r] is the highest address satisfying [P], if there is one. *)
Definition highest (P : Z -> Prop) (r : option Z) : Prop :=
  match r with
  | Some p => P p /\ forall p', P p' -> p' <= p
  | None => forall p', ~ P p'
  end.

Lemma highest_ext (P Q : Z -> Prop) r : (forall p, P p <-> Q p) -> highest P r -> highest Q r.
Proof. intros HPQ. destruct r; simpl; intros H; [destruct H as [? H]; split|]; naive_solver. Qed.

#[local] Definition after (a b : VmArea) : Prop := before b a.

Lemma sweep_highest size l c :
  Forall area_ok l -> StronglySorted after l -> 0 < size <= U64_MAX -> 0 <= c <= U64_MAX ->
  highest (gap l size c) (sweep size l c) /\
  forall p, sweep size l c = Some p -> p + size = c \/ exists v, v ∈ l /\ p + size = vm_base v.
Proof.
  intros Hok Hs Hsz. revert c. induction l as [|v l IH]; intros c Hc; simpl.
  - unfold FLOOR. destruct (Z.ltb_spec 0x1000 c); simpl.
    + rewrite sub64_small by (unfold U64_MAX in *; lia). destruct (Z.leb_spec size (c - 0x1000)).
      * rewrite sub64_small by (unfold U64_MAX in *; lia). split.
        -- split; [by split_and!; [unfold FLOOR; lia|lia|]|]. intros p' (? & ? & _). lia.
        -- intros p [= <-]. left. lia.
      * split; [|done]. intros p' (? & ? & _). unfold FLOOR in *. lia.
    + split; [|done]. intros p' (? & ? & _). unfold FLOOR in *. lia.
  - apply Forall_cons_iff in Hok as [Hv Hok]. apply StronglySorted_inv in Hs as [Hs Hb].
    pose proof (area_end v Hv) as He. specialize (IH Hok Hs). pose proof Hv as [V1 V2 V3 _].
    destruct (Z.leb_spec c (vm_base v)) as [Hcv|Hcv].
    + destruct (IH c Hc) as [Hh Hp]. split; [|intros p Hsw; destruct (Hp p Hsw) as [?|(w & ? & ?)];
        [by left|right; exists w; split; [by right|done]]].
      revert Hh. apply highest_ext. intros p. unfold gap. rewrite Forall_cons_iff. intuition lia.
    + rewrite (Z.min_l (vm_base v) c) by lia.
      set (bot := Z.max (Z.min (vm_end v) c) FLOOR).
      assert ((bot <=? c) && (size <=? sub64 c bot) = bool_decide (bot + size <= c)) as ->.
      { destruct (Z.leb_spec bot c); simpl.
        - rewrite sub64_small by (unfold bot, FLOOR, U64_MAX in *; lia).
          case_bool_decide; [apply Z.leb_le|apply Z.leb_gt]; lia.
        - rewrite bool_decide_eq_false_2; [done|lia]. }
      rewrite list.Forall_forall in Hb.
      case_bool_decide as Hfit.
      * rewrite sub64_small by (unfold bot, FLOOR, U64_MAX in *; lia). split; [split|].
        -- split_and!; [unfold bot in *; lia|lia|]. apply Forall_cons_iff.
           split; [unfold bot in *; lia|]. apply list.Forall_forall. intros w Hw.
           specialize (Hb w Hw). unfold after, before, bot in *. lia.
        -- intros p' (? & ? & _). lia.
        -- intros p [= <-]. left. lia.
      * destruct (IH (vm_base v) ltac:(lia)) as [Hh Hp]. split.
        -- revert Hh. apply highest_ext. intros p. unfold gap. rewrite Forall_cons_iff.
           unfold bot in Hfit. intuition lia.
        -- intros p Hsw. right. destruct (Hp p Hsw) as [?|(w & ? & ?)];
             [exists v; split; [left|done]|exists w; split; [by right|done]].
Qed.

Lemma sorted_rev l : StronglySorted before l -> StronglySorted after (rev l).
Proof.
  induction 1 as [|v l Hs IH Hb]; simpl; [constructor|]. apply StronglySorted_app.
  split_and!; [|done|repeat constructor]. intros a b Ha ->%list_elem_of_singleton.
  rewrite list.Forall_forall in Hb. apply Hb. rewrite list_elem_of_In in *. by apply in_rev.
Qed.

Lemma gap_rev l size c p : gap (rev l) size c p <-> gap l size c p.
Proof. unfold gap. by rewrite Forall_rev_iff. Qed.

(** The search below a ceiling. *)
Lemma find_free_range_below_highest size c s :
  areas_ok (areas s) -> 0 < size -> size + 0xFFF <= U64_MAX -> size mod 4096 = 0 -> 0 <= c ->
  highest (gap (areas s) size (Z.min c MMAP_BASE)) (find_free_range_below size c s) /\
  forall p, find_free_range_below size c s = Some p ->
    p + size = Z.min c MMAP_BASE \/ exists v, v ∈ areas s /\ p + size = vm_base v.
Proof.
  intros [Hok Hs] H0 H1 Hm Hc. unfold find_free_range_below. rewrite page_align_up_id by (done || lia).
  destruct (sweep_highest size (rev (areas s)) (Z.min c MMAP_BASE)) as [Hh Hp].
  - by apply Forall_rev_iff.
  - by apply sorted_rev.
  - lia.
  - unfold MMAP_BASE, U64_MAX. lia.
  - split.
    + revert Hh. apply highest_ext. intros p. apply gap_rev.
    + intros p Hsw. destruct (Hp p Hsw) as [?|(v & Hv & E)]; [by left|right].
      exists v. split; [|done]. rewrite list_elem_of_In in *. by apply in_rev.
Qed.

(* ------------------------------------------------------------------ *)
(** ** The teardown table *)

Record teardown_ok (t : Teardown) : Prop := {
  td_cr3 : length (TEARDOWN_CR3 t) = TEARDOWN_SLOTS;
  td_lo : length (TEARDOWN_LO t) = TEARDOWN_SLOTS;
  td_hi : length (TEARDOWN_HI t) = TEARDOWN_SLOTS;
  td_live : TEARDOWN_LIVE t =
    count_upto (fun i => negb (TEARDOWN_CR3 t !!! i =? 0)) TEARDOWN_SLOTS;
  td_nonneg : Forall (fun x => 0 <= x) (TEARDOWN_LO t)
}.

(** Slot [i] reserves a range of address space [c] that meets [lo, hi). *)
Definition conflicts (t : Teardown) (c lo hi : Z) (i : nat) : Prop :=
  (i < TEARDOWN_SLOTS)%nat /\ TEARDOWN_CR3 t !!! i = c /\
  lo < TEARDOWN_HI t !!! i /\ TEARDOWN_LO t !!! i < hi.

Definition clear_of_teardown (t : Teardown) (c lo hi : Z) : Prop :=
  forall i, ~ conflicts t c lo hi i.

Lemma conflict_fold c lo hi t idxs acc :
  Forall (fun i => (i < TEARDOWN_SLOTS)%nat) idxs ->
  match fold_left (conflict_slot c lo hi t) idxs acc with
  | None => acc = None /\ forall i, i ∈ idxs -> ~ conflicts t c lo hi i
  | Some x => acc = Some x \/ exists i, conflicts t c lo hi i /\ TEARDOWN_LO t !!! i = x
  end.
Proof.
  revert acc. induction idxs as [|i idxs IH]; intros acc Hi; simpl.
  { destruct acc; [by left|]. split; [done|]. by intros i ?%not_elem_of_nil. }
  apply Forall_cons_iff in Hi as [Hi Hidx].
  specialize (IH (conflict_slot c lo hi t acc i) Hidx).
  assert ((conflicts t c lo hi i /\ exists x, conflict_slot c lo hi t acc i = Some x /\
             (acc = Some x \/ TEARDOWN_LO t !!! i = x)) \/
          (~ conflicts t c lo hi i /\ conflict_slot c lo hi t acc i = acc)) as Hc.
  { unfold conflict_slot, conflicts. destruct (Z.eqb_spec (TEARDOWN_CR3 t !!! i) c); simpl; [|right; tauto].
    destruct (Z.ltb_spec lo (TEARDOWN_HI t !!! i)), (Z.ltb_spec (TEARDOWN_LO t !!! i) hi);
      simpl; try (right; split; [lia|done]).
    left. split; [done|]. destruct acc as [a|]; [|by eauto]. eexists. split; [done|].
    destruct (Z.min_spec a (TEARDOWN_LO t !!! i)) as [[_ ->]|[_ ->]]; auto. }
  destruct (fold_left _ idxs _) as [x|].
  - destruct IH as [IH|IH]; [|by right]. destruct Hc as [(Hcf & y & Ey & Hy)|(_ & E)].
    + rewrite Ey in IH. injection IH as ->. destruct Hy as [->|Hy]; [by left|right]. by exists i.
    + rewrite E in IH. by left.
  - destruct IH as [IH1 IH2]. destruct Hc as [(_ & y & Ey & _)|(Hn & E)]; [congruence|].
    rewrite E in IH1. split; [done|]. intros j [->|Hj]%elem_of_cons; [done|by apply IH2].
Qed.

Lemma teardown_conflict_spec c lo hi t :
  teardown_ok t -> c <> 0 -> c <> U64_MAX ->
  match teardown_conflict c lo hi t with
  | None => clear_of_teardown t c lo hi
  | Some x => exists i, conflicts t c lo hi i /\ TEARDOWN_LO t !!! i = x
  end.
Proof.
  intros Ht H0 H1. unfold teardown_conflict.
  rewrite (proj2 (Z.eqb_neq c 0)), (proj2 (Z.eqb_neq c U64_MAX)) by done. cbn [orb].
  destruct (Z.eqb_spec (TEARDOWN_LIVE t) 0) as [E|E].
  - intros i (Hi & Hc & _). rewrite (td_live t Ht) in E.
    pose proof (count_upto_pos (fun i => negb (TEARDOWN_CR3 t !!! i =? 0)) TEARDOWN_SLOTS i Hi) as Hp.
    cbn beta in Hp. rewrite Hc, (proj2 (Z.eqb_neq _ _)) in Hp by done. specialize (Hp eq_refl). lia.
  - pose proof (conflict_fold c lo hi t (seq 0 TEARDOWN_SLOTS) None ltac:(apply Forall_seq; lia)) as Hf.
    destruct (fold_left _ _ None) as [x|]; [by destruct Hf|].
    destruct Hf as [_ Hf]. intros i Hi. apply (Hf i); [|done].
    apply elem_of_seq. destruct Hi. lia.
Qed.

(** Slots of address space [c] that start below [ceiling]. *)
Definition live_below (t : Teardown) (c ceiling : Z) : Z :=
  count_upto (fun i => (TEARDOWN_CR3 t !!! i =? c) && (TEARDOWN_LO t !!! i <? ceiling)) TEARDOWN_SLOTS.

Lemma live_below_range t c ceiling : 0 <= live_below t c ceiling <= Z.of_nat TEARDOWN_SLOTS.
Proof. apply count_upto_range. Qed.

(** A free placement: a gap between the areas that no teardown meets. *)
Definition placement (s : VmSpace) (t : Teardown) (size ceiling p : Z) : Prop :=
  gap (areas s) size (Z.min ceiling MMAP_BASE) p /\ clear_of_teardown t (cr3 s) p (p + size).

Definition page_aligned (x : Z) : Prop := x mod 4096 = 0.

Section search.
Context (s : VmSpace) (t : Teardown) (size : Z).
Context (Hareas : areas_ok (areas s)) (Htable : teardown_ok t).
Context (Hcr3 : cr3 s <> 0 /\ cr3 s <> U64_MAX).
Context (Hsize : 0 < size /\ size + 0xFFF <= U64_MAX /\ size mod 4096 = 0).

Lemma placement_lower c i p cand :
  (forall p', gap (areas s) size (Z.min c MMAP_BASE) p' -> p' <= cand) ->
  conflicts t (cr3 s) cand (cand + size) i -> TEARDOWN_LO t !!! i <= Z.min c MMAP_BASE ->
  placement s t size (TEARDOWN_LO t !!! i) p <-> placement s t size c p.
Proof.
  intros Hmax (Hi & Hc & Hhi & Hlo) Hle. unfold placement, gap. split.
  - intros ((? & ? & ?) & ?). split; [|done]. split_and!; [done|lia|done].
  - intros ((G1 & G2 & G3) & Hclear). split; [|done]. split_and!; [done| |done].
    destruct (decide (TEARDOWN_LO t !!! i < p + size)) as [Hx|]; [|lia].
    destruct (Hclear i). split_and!; try done. specialize (Hmax p ltac:(done)). lia.
Qed.

Lemma slot_lo_nonneg i : (i < TEARDOWN_SLOTS)%nat -> 0 <= TEARDOWN_LO t !!! i.
Proof.
  intros Hi. rewrite <- (td_lo t Htable) in Hi.
  destruct (lookup_lt_is_Some_2 _ _ Hi) as [x Hx].
  rewrite (list_lookup_total_correct _ _ _ Hx). apply (Forall_lookup_1 _ _ _ _ (td_nonneg t Htable) Hx).
Qed.

Lemma free_range_loop_highest n c :
  0 <= c -> live_below t (cr3 s) c < Z.of_nat n ->
  highest (placement s t size c) (free_range_loop n size c s t) /\
  (Forall (fun v => page_aligned (vm_base v)) (areas s) ->
   (forall i, (i < TEARDOWN_SLOTS)%nat -> page_aligned (TEARDOWN_LO t !!! i)) ->
   page_aligned c -> forall p, free_range_loop n size c s t = Some p -> page_aligned p).
Proof.
  destruct Hsize as (Hs1 & Hs2 & Hs3). destruct Hcr3 as [Hc0 Hc1].
  revert c. induction n as [|n IH]; intros c Hc Hlive.
  { pose proof (live_below_range t (cr3 s) c). lia. }
  destruct (find_free_range_below_highest size c s Hareas Hs1 Hs2 Hs3 Hc) as [Hh Hend].
  cbn [free_range_loop]. destruct (find_free_range_below size c s) as [cand|].
  2: { split; [|done]. intros p [Hg _]. by apply (Hh p). }
  destruct Hh as [(G1 & G2 & G3) Hmax].
  assert (sat_add64 cand size = cand + size) as ->.
  { unfold sat_add64. apply Z.min_l. unfold MMAP_BASE, U64_MAX in *. lia. }
  pose proof (teardown_conflict_spec (cr3 s) cand (cand + size) t Htable Hc0 Hc1) as Htc.
  destruct (teardown_conflict _ _ _ t) as [x|].
  - destruct Htc as (i & Hcf & <-). pose proof Hcf as (Hi & Hci & Hhi & Hlo).
    pose proof (slot_lo_nonneg i Hi) as Hnn.
    destruct (IH (TEARDOWN_LO t !!! i) Hnn) as [IH1 IH2].
    { enough (live_below t (cr3 s) (TEARDOWN_LO t !!! i) < live_below t (cr3 s) c) by lia.
      apply (count_upto_lt _ _ _ i); [|done|by rewrite Z.ltb_irrefl, andb_false_r|].
      - intros j _. rewrite !andb_true_iff, !Z.ltb_lt. lia.
      - rewrite Hci, Z.eqb_refl. apply Z.ltb_lt. lia. }
    split; [|intros Ha Ht _; by apply IH2; [| |apply Ht]].
    revert IH1. apply highest_ext. intros p. apply (placement_lower c i p cand); [done..|lia].
  - split.
    + split; [by split|]. intros p' [Hg _]. by apply Hmax.
    + intros Ha Ht Hcal p [= <-]. unfold page_aligned in *.
      replace cand with (cand + size - size) by lia. rewrite Zminus_mod, Hs3, Z.sub_0_r, Z.mod_mod by done.
      destruct (Hend cand eq_refl) as [->|(v & Hv & ->)].
      * destruct (Z.min_spec c MMAP_BASE) as [[_ ->]|[_ ->]]; done.
      * rewrite list.Forall_forall in Ha. by apply Ha.
Qed.
End search.

(* ------------------------------------------------------------------ *)
(** ** Publishing and retiring reservations *)

Section table.
Implicit Types (t : Teardown) (i : nat).

(** Writing all three fields of a slot. *)
Definition set_slot t i (c lo hi live pub : Z) : Teardown :=
  mkTeardown (<[i := c]> (TEARDOWN_CR3 t)) (<[i := lo]> (TEARDOWN_LO t))
    (<[i := hi]> (TEARDOWN_HI t)) (TEARDOWN_UNRESERVED t) live pub.

Lemma lookup_slot (l : list Z) i j x :
  length l = TEARDOWN_SLOTS -> (i < TEARDOWN_SLOTS)%nat ->
  <[i := x]> l !!! j = if bool_decide (j = i) then x else l !!! j.
Proof.
  intros Hl Hi. rewrite list_lookup_total_insert. case_bool_decide as E.
  - subst. rewrite decide_True; [done|lia].
  - rewrite decide_False; [done|]. intros [? _]. congruence.
Qed.

Lemma conflicts_set_slot t i c lo hi live pub c' a b j :
  teardown_ok t -> (i < TEARDOWN_SLOTS)%nat ->
  conflicts (set_slot t i c lo hi live pub) c' a b j <->
  if bool_decide (j = i) then c = c' /\ a < hi /\ lo < b else conflicts t c' a b j.
Proof.
  intros [L1 L2 L3 _ _] Hi. unfold conflicts, set_slot. cbn [TEARDOWN_CR3 TEARDOWN_LO TEARDOWN_HI].
  rewrite !lookup_slot by done. case_bool_decide; subst; tauto.
Qed.

Lemma set_slot_ok t i c lo hi live pub :
  teardown_ok t -> (i < TEARDOWN_SLOTS)%nat -> 0 <= lo ->
  live = TEARDOWN_LIVE t + Z.b2z (negb (c =? 0)) - Z.b2z (negb (TEARDOWN_CR3 t !!! i =? 0)) ->
  teardown_ok (set_slot t i c lo hi live pub).
Proof.
  intros [L1 L2 L3 Hlive Hnn] Hi Hlo ->. unfold set_slot.
  split; cbn [TEARDOWN_CR3 TEARDOWN_LO TEARDOWN_HI TEARDOWN_LIVE]; rewrite ?length_insert; try done.
  2: { by apply Forall_insert. }
  rewrite Hlive. set (f := fun j => negb (TEARDOWN_CR3 t !!! j =? 0)).
  set (g := fun j => negb (<[i := c]> (TEARDOWN_CR3 t) !!! j =? 0)).
  assert (forall j, g j = if bool_decide (j = i) then negb (c =? 0) else f j) as Hg.
  { intros j. unfold g, f. rewrite lookup_slot by done. by case_bool_decide. }
  assert (g i = negb (c =? 0)) as Hgi by (by rewrite Hg, bool_decide_eq_true_2).
  assert (forall j, j <> i -> f j = g j) as Hne by (intros; by rewrite Hg, bool_decide_eq_false_2).
  change (negb (TEARDOWN_CR3 t !!! i =? 0)) with (f i). rewrite <- Hgi.
  destruct (f i) eqn:Ef, (g i) eqn:Eg; cbn [Z.b2z].
  - rewrite (count_upto_ext g f); [lia|]. intros j _. destruct (decide (j = i)) as [->|]; [congruence|].
    symmetry. by apply Hne.
  - rewrite (count_upto_set g f _ i); try done; [lia|]. intros q Hq. symmetry. by apply Hne.
  - rewrite (count_upto_set f g _ i); try done. lia.
  - rewrite (count_upto_ext g f); [lia|]. intros j _. destruct (decide (j = i)) as [->|]; [congruence|].
    symmetry. by apply Hne.
Qed.

Lemma live_range t : teardown_ok t -> 0 <= TEARDOWN_LIVE t <= 64.
Proof. intros Ht. rewrite (td_live t Ht). apply (count_upto_range _ TEARDOWN_SLOTS). Qed.

Lemma publish_loop_spec c lo hi idxs t :
  match publish_loop c lo hi idxs t with
  | Some (i, t') => i ∈ idxs /\ TEARDOWN_CR3 t !!! i = 0 /\
      t' = set_slot t i c lo hi (add64 (TEARDOWN_LIVE t) 1) (add64 (TEARDOWN_PUBLISHED t) 1)
  | None => forall i, i ∈ idxs -> TEARDOWN_CR3 t !!! i <> 0
  end.
Proof.
  induction idxs as [|i idxs IH]; simpl; [by intros i ?%not_elem_of_nil|].
  destruct (Z.eqb_spec (TEARDOWN_CR3 t !!! i) 0); [by split_and!; [left|..]|].
  destruct (publish_loop c lo hi idxs t) as [[j t']|].
  - destruct IH as (? & ? & ?). split_and!; [by right|done|done].
  - intros j [->|Hj]%elem_of_cons; [done|by apply IH].
Qed.

Lemma publish_slot_clear t i c lo hi live pub c' a b :
  teardown_ok t -> (i < TEARDOWN_SLOTS)%nat -> TEARDOWN_CR3 t !!! i = 0 -> 0 < c' ->
  clear_of_teardown (set_slot t i c lo hi live pub) c' a b <->
  clear_of_teardown t c' a b /\ ~ (c' = c /\ a < hi /\ lo < b).
Proof.
  intros Ht Hi Hz Hc'. unfold clear_of_teardown.
  assert (~ conflicts t c' a b i) as Hni by (intros (_ & E & _); lia).
  setoid_rewrite conflicts_set_slot; [|done..]. split.
  - intros H. split.
    + intros j Hj. apply (H j). case_bool_decide; [subst; done|done].
    + intros (-> & ?). apply (H i). by rewrite bool_decide_eq_true_2.
  - intros [H1 H2] j Hj. case_bool_decide; [apply H2; naive_solver|by apply (H1 j)].
Qed.

Lemma retire_slot_clear t i c lo hi live pub live' pub' c' a b :
  teardown_ok t -> teardown_ok (set_slot t i c lo hi live pub) ->
  (i < TEARDOWN_SLOTS)%nat -> TEARDOWN_CR3 t !!! i = 0 -> 0 < c' ->
  clear_of_teardown (set_slot (set_slot t i c lo hi live pub) i 0 0 0 live' pub') c' a b <->
  clear_of_teardown t c' a b.
Proof.
  intros Ht Ht1 Hi Hz Hc'. unfold clear_of_teardown.
  split; intros H j Hj; apply (H j).
  - rewrite conflicts_set_slot by done. decide_on (j = i) as E.
    + subst j. destruct Hj as (_ & E & _). lia.
    + rewrite conflicts_set_slot by done. by rewrite bool_decide_eq_false_2.
  - rewrite conflicts_set_slot in Hj by done. revert Hj. decide_on (j = i) as E; [lia|].
    intros Hj. rewrite conflicts_set_slot in Hj by done. by rewrite bool_decide_eq_false_2 in Hj.
Qed.
End table.

(* ------------------------------------------------------------------ *)
(** ** Properties *)

(** C37: the search for an address range is exact, on a list of areas that is
    sorted and disjoint (as the operations on areas keep it, except that the
    break can grow over another area, [adjust_brk_overlap]), with a teardown
    table of the right lengths and live count, for a real page table and a
    size from 1 to 2^63 - 1. [find_free_range] returns the highest start
    between the floor and [MMAP_BASE] at which the size, rounded up to pages,
    meets no mapping and no teardown still in flight for this address space,
    and fails only if there is no such start; that start is page-aligned when
    the bases of the areas and the lower ends of the reservations are. The 65
    retries always suffice, since each conflict rules out one reservation for
    good. *)
Theorem find_free_range_highest (size : Z) (s : VmSpace) (t : Teardown) :
  areas_ok (areas s) -> teardown_ok t -> cr3 s <> 0 -> cr3 s <> U64_MAX ->
  0 < size < 2 ^ 63 ->
  highest (placement s t (page_align_up size) MMAP_BASE) (find_free_range size s t) /\
  (Forall (fun v => page_aligned (vm_base v)) (areas s) ->
   (forall i, (i < TEARDOWN_SLOTS)%nat -> page_aligned (TEARDOWN_LO t !!! i)) ->
   forall p, find_free_range size s t = Some p -> page_aligned p).
Proof.
  intros Ha Ht Hc0 Hc1 Hsz. unfold find_free_range.
  destruct (page_align_up_spec size ltac:(lia) ltac:(unfold U64_MAX; lia)) as [Hr Hm].
  assert (0 < page_align_up size /\ page_align_up size + 0xFFF <= U64_MAX /\
          page_align_up size mod 4096 = 0) as Hs by (unfold U64_MAX; lia).
  destruct (free_range_loop_highest s t (page_align_up size) Ha Ht (conj Hc0 Hc1) Hs
    (S TEARDOWN_SLOTS) MMAP_BASE) as [H1 H2].
  - done.
  - pose proof (live_below_range t (cr3 s) MMAP_BASE). lia.
  - split; [done|]. intros Hal Htl. by apply H2.
Qed.

(** Publishing a teardown with a free slot withholds exactly its range
    from the searches of its address space, adding to what was withheld
    before; without a free slot nothing is withheld and the miss is counted;
    retiring the slot releases exactly that range. Both keep the live count
    exact. *)
Theorem teardown_publish_retire (c lo hi : Z) (t : Teardown) :
  teardown_ok t -> 0 < c < U64_MAX -> 0 <= lo < hi ->
  let '(slot, t') := teardown_publish c lo hi t in
  teardown_ok t' /\
  (slot = TEARDOWN_NO_SLOT ->
     (forall i, (i < TEARDOWN_SLOTS)%nat -> TEARDOWN_CR3 t !!! i <> 0) /\
     TEARDOWN_UNRESERVED t' = add64 (TEARDOWN_UNRESERVED t) 1 /\
     forall c' a b, clear_of_teardown t' c' a b <-> clear_of_teardown t c' a b) /\
  (slot <> TEARDOWN_NO_SLOT ->
     (forall c' a b, 0 < c' -> (clear_of_teardown t' c' a b <->
        clear_of_teardown t c' a b /\ ~ (c' = c /\ a < hi /\ lo < b))) /\
     teardown_ok (teardown_retire slot t') /\
     forall c' a b, 0 < c' -> (clear_of_teardown (teardown_retire slot t') c' a b <->
                               clear_of_teardown t c' a b)).
Proof.
  intros Ht Hc Hlo. unfold teardown_publish.
  rewrite (proj2 (Z.eqb_neq c 0)), (proj2 (Z.leb_gt hi lo)) by lia. cbn [orb].
  pose proof (publish_loop_spec c lo hi (seq 0 TEARDOWN_SLOTS) t) as Hp.
  pose proof (live_range t Ht) as Hlr.
  destruct (publish_loop _ _ _ _ t) as [[i t']|].
  - destruct Hp as (Hi & Hz & ->). apply elem_of_seq in Hi as [_ Hi]. rewrite Nat.add_0_l in Hi.
    rewrite !add64_small by (unfold U64_MAX; lia).
    assert (teardown_ok (set_slot t i c lo hi (TEARDOWN_LIVE t + 1) (add64 (TEARDOWN_PUBLISHED t) 1))) as Hok.
    { apply set_slot_ok; [done|done|lia|]. rewrite Hz, (proj2 (Z.eqb_neq c 0)) by lia. cbn. lia. }
    set (t1 := set_slot t i _ _ _ _ _) in *.
    assert (Z.of_nat i < 64) as Hi64 by (unfold TEARDOWN_SLOTS in Hi; lia).
    split_and!; [done|unfold TEARDOWN_NO_SLOT, U64_MAX; intros; lia|]. intros _.
    split; [by intros; apply publish_slot_clear|]. unfold teardown_retire.
    rewrite (proj2 (Z.ltb_lt _ _)), Nat2Z.id by done.
    change (mkTeardown (<[i := 0]> (TEARDOWN_CR3 t1)) _ _ _ ?l ?p) with (set_slot t1 i 0 0 0 l p).
    split; [|by intros; apply retire_slot_clear].
    apply set_slot_ok; [done|done|lia|]. unfold t1, set_slot.
    cbn [TEARDOWN_CR3 TEARDOWN_LIVE]. rewrite lookup_slot by (apply Ht || done).
    rewrite bool_decide_eq_true_2, (proj2 (Z.eqb_neq c 0)) by (done || lia).
    rewrite sub64_small by (unfold U64_MAX; lia). cbn. lia.
  - split_and!; [by destruct Ht; split|intros _|done].
    split_and!; [|done|done]. intros i Hi. apply Hp. apply elem_of_seq. lia.
Qed.

(** A stack placement keeps out of every mapping and every teardown in
    flight, whatever random words are drawn: an address it returns starts a
    range of the rounded-up size inside user space that is free in both
    senses, and it fails only if the size does not fit the stack window or the
    general search finds no place either. *)
Theorem find_free_stack_range_sound (size : Z) (rands : list Z) (s : VmSpace) (t : Teardown) :
  areas_ok (areas s) -> teardown_ok t -> cr3 s <> 0 -> cr3 s <> U64_MAX ->
  0 < size < 2 ^ 63 -> 0 <= stack_aslr_base s ->
  let sz := page_align_up size in
  match find_free_stack_range size rands s t with
  | Some p => gap (areas s) sz STACK_ASLR_MAX p /\ clear_of_teardown t (cr3 s) p (p + sz)
  | None => STACK_ASLR_MAX - STACK_ASLR_MIN < sz \/ forall p, ~ placement s t sz MMAP_BASE p
  end.
Proof.
  intros Ha Ht Hc0 Hc1 Hsz Hbase sz. unfold find_free_stack_range. fold sz.
  destruct (page_align_up_spec size ltac:(lia) ltac:(unfold U64_MAX; lia)) as [Hr Hm]. fold sz in Hr, Hm.
  rewrite (proj2 (Z.eqb_neq sz 0)) by lia. cbn [orb].
  change (sub64 STACK_ASLR_MAX STACK_ASLR_MIN) with (STACK_ASLR_MAX - STACK_ASLR_MIN).
  destruct (Z.ltb_spec (STACK_ASLR_MAX - STACK_ASLR_MIN) sz) as [Hbig|Hfit]; [by left|].
  assert (forall rs p, stack_loop sz rs s t = Some p ->
    gap (areas s) sz STACK_ASLR_MAX p /\ clear_of_teardown t (cr3 s) p (p + sz)) as Hloop.
  { intros rs p. induction rs as [|r rs IH]; [done|]. cbn [stack_loop].
    set (cand := stack_candidate _ _ s).
    assert (STACK_ASLR_MIN <= cand /\ cand + sz <= STACK_ASLR_MAX) as [Hc2 Hc3].
    { unfold cand, stack_candidate, sat_sub, STACK_ASLR_MAX, STACK_ASLR_MIN, MMAP_BASE in *. lia. }
    assert (sat_add64 cand sz = cand + sz) as ->.
    { unfold sat_add64. apply Z.min_l. unfold STACK_ASLR_MAX, U64_MAX in *. lia. }
    pose proof (teardown_conflict_spec (cr3 s) cand (cand + sz) t Ht Hc0 Hc1) as Htc.
    destruct (existsb _ (areas s)) eqn:Eo; [done|]. cbn [orb].
    destruct (teardown_conflict _ _ _ t); [done|]. cbn. intros [= <-]. split; [|done].
    split_and!; [unfold STACK_ASLR_MIN, MMAP_BASE, FLOOR in *; lia|done|].
    apply list.Forall_forall. intros v Hv Hov. rewrite <- not_true_iff_false, existsb_exists in Eo.
    destruct Eo. exists v. split; [by apply list_elem_of_In|].
    destruct Ha as [Ha _]. rewrite list.Forall_forall in Ha. specialize (Ha v Hv).
    unfold overlaps. rewrite area_end by done.
    rewrite add64_small by (unfold STACK_ASLR_MIN, STACK_ASLR_MAX, MMAP_BASE, U64_MAX in *; lia).
    rewrite andb_true_iff, !Z.ltb_lt. lia. }
  destruct (stack_loop _ _ s t) as [p|] eqn:E; [by eapply Hloop|].
  assert (page_align_up sz = sz) as Hid by (apply page_align_up_id; unfold U64_MAX; lia || done).
  assert (highest (placement s t sz MMAP_BASE) (find_free_range sz s t)) as Hh.
  { unfold find_free_range. rewrite Hid.
    assert (0 < sz /\ sz + 0xFFF <= U64_MAX /\ sz mod 4096 = 0) as Hs by (unfold U64_MAX; lia).
    apply (free_range_loop_highest s t sz Ha Ht (conj Hc0 Hc1) Hs); [done|].
    pose proof (live_below_range t (cr3 s) MMAP_BASE). lia. }
  destruct (find_free_range sz s t) as [p|]; simpl in Hh; [|by right].
  destruct Hh as [[(G1 & G2 & G3) Hcl] _]. split; [|done].
  split_and!; [done| |done]. unfold STACK_ASLR_MAX, MMAP_BASE in *. lia.
Qed.

(* ------------------------------------------------------------------ *)
(** ** Witnesses *)

(** A reservation just below the top of the mmap region. *)
Definition demo_teardown : Teardown :=
  snd (teardown_publish 0x7000 0x7EFFFFFFF000 0x7F0000000000 teardown_static).

Lemma teardown_static_ok : teardown_ok teardown_static.
Proof. split; [done|done|done|vm_compute; reflexivity|]. apply (Forall_replicate _ TEARDOWN_SLOTS). lia. Qed.

Lemma demo_teardown_ok : teardown_ok demo_teardown.
Proof.
  split; [vm_compute; reflexivity..|]. unfold demo_teardown. cbn.
  repeat (apply Forall_cons_iff; split; [lia|]). done.
Qed.

Lemma find_free_range_highest_witness :
  find_free_range 0x1800 demo_space demo_teardown = Some 0x7EFFFFFFD000 /\
  placement demo_space demo_teardown 0x2000 MMAP_BASE 0x7EFFFFFFD000.
Proof.
  assert (find_free_range 0x1800 demo_space demo_teardown = Some 0x7EFFFFFFD000) as E
    by (vm_compute; reflexivity).
  destruct (find_free_range_highest 0x1800 demo_space demo_teardown demo_areas_ok demo_teardown_ok
    ltac:(discriminate) ltac:(discriminate) ltac:(lia)) as [Hw _].
  rewrite E in Hw. destruct Hw as [Hw _]. split; [exact E|exact Hw].
Defined.

Lemma teardown_publish_retire_witness :
  fst (teardown_publish 0x7000 0x1000 0x2000 teardown_static) = 0 /\
  teardown_ok (snd (teardown_publish 0x7000 0x1000 0x2000 teardown_static)).
Proof.
  pose proof (teardown_publish_retire 0x7000 0x1000 0x2000 teardown_static teardown_static_ok
    ltac:(unfold U64_MAX; lia) ltac:(lia)) as Hw.
  assert (fst (teardown_publish 0x7000 0x1000 0x2000 teardown_static) = 0) as E
    by (vm_compute; reflexivity).
  destruct (teardown_publish 0x7000 0x1000 0x2000 teardown_static) as [slot t'].
  split; [exact E|]. destruct Hw as [Hw _]. exact Hw.
Defined.

Lemma find_free_stack_range_sound_witness :
  find_free_stack_range 0x1800 [0x3000] demo_space teardown_static = Some 0x7F0000003000 /\
  gap (areas demo_space) 0x2000 STACK_ASLR_MAX 0x7F0000003000.
Proof.
  pose proof (find_free_stack_range_sound 0x1800 [0x3000] demo_space teardown_static demo_areas_ok
    teardown_static_ok ltac:(discriminate) ltac:(discriminate) ltac:(lia)
    ltac:(vm_compute; discriminate)) as Hw.
  assert (find_free_stack_range 0x1800 [0x3000] demo_space teardown_static = Some 0x7F0000003000) as E
    by (vm_compute; reflexivity).
  cbv zeta in Hw. rewrite E in Hw. split; [exact E|]. destruct Hw as [Hw _]. exact Hw.
Defined.
