(* ===== verification/WaitList.v ===== *)
(** * Wait lists and the poll bell (kernel/src/ipc/waitlist.rs)

    Lists of parked threads, the transition of a drained batch from blocked
    to ready, and the global bell that pollers park on. *)

From S2P Require Import Prelude.

(* ------------------------------------------------------------------ *)
(** ** Threads, as far as waking touches them (kernel/src/proc/mod.rs) *)

Inductive ThreadState := Ready | Running | Blocked | Sleeping | Dead.

#[global] Instance ThreadState_eq_dec : EqDecision ThreadState.
Proof. solve_decision. Defined.

Record Thread := mkThread {
  tid : Z;
  state : ThreadState;
  wake_tick : Z;
  priority : Z;
  ctx_rsp_valid : bool
}.

Definition PRIORITY_MAX : Z := 31.
Definition PRIORITY_BOOST_WAIT : Z := 2.

Definition apply_wake_boost (t : Thread) : Thread :=
  mkThread (tid t) (state t) (wake_tick t)
    (Z.min (wrap 8 (priority t + PRIORITY_BOOST_WAIT)) PRIORITY_MAX) (ctx_rsp_valid t).

(** [iter_mut().find(|t| t.tid == id)] with [f] applied to the thread found. *)
Definition update_thread (id : Z) (f : Thread -> Thread) (l : list Thread) : list Thread :=
  update_first (fun t => tid t =? id) f l.

Definition find_thread (id : Z) (l : list Thread) : option Thread :=
  List.find (fun t => tid t =? id) l.

(* ------------------------------------------------------------------ *)
(** ** [WaitList] *)

Definition WaitList := list Z.

(** [enqueue_self_blocked]: park, then block the thread. *)
Definition block_thread (wake : Z) (t : Thread) : Thread :=
  mkThread (tid t) Blocked wake (priority t) false.

Definition enqueue_self_blocked (id wake : Z) (w : WaitList) (threads : list Thread)
    : WaitList * list Thread :=
  (w ++ [id], update_thread id (block_thread wake) threads).

Definition drain (max : nat) (w : WaitList) : list Z * WaitList :=
  if bool_decide (w = []) || (max =? 0)%nat then ([], w)
  else let n := Nat.min (length w) max in (take n w, drop n w).

Definition drain_all (w : WaitList) : list Z * WaitList := (w, []).

Definition remove_tid (id : Z) (w : WaitList) : bool * WaitList :=
  let before := length w in
  let w := List.filter (fun t => negb (t =? id)) w in
  ((length w <? before)%nat, w).

(* ------------------------------------------------------------------ *)
(** ** Waking a batch *)

Definition ready_thread (t : Thread) : Thread :=
  apply_wake_boost (mkThread (tid t) Ready 0 (priority t) (ctx_rsp_valid t)).

(** The loop of [wake_tids]: threads, highest priority woken, any woken. *)
Definition wake_one (acc : list Thread * Z * bool) (id : Z) : list Thread * Z * bool :=
  let '(threads, max_woken_prio, any_woken) := acc in
  match find_thread id threads with
  | Some th =>
      if bool_decide (state th = Blocked) then
        let th' := ready_thread th in
        (update_thread id ready_thread threads,
         if max_woken_prio <? priority th' then priority th' else max_woken_prio, true)
      else acc
  | None => acc
  end.

(** The thread table and whether [request_reschedule] is called. *)
Definition wake_tids (cur_tid : Z) (tids : list Z) (threads : list Thread)
    : list Thread * bool :=
  match tids with
  | [] => (threads, false)
  | _ =>
      let cur_prio := match find_thread cur_tid threads with
                      | Some th => priority th | None => 0 end in
      let '(threads, max_woken_prio, any_woken) := fold_left wake_one tids (threads, 0, false) in
      (threads, any_woken && (cur_prio <? max_woken_prio))
  end.

(* ------------------------------------------------------------------ *)
(** ** The poll bell *)

Inductive PollBellSource :=
  | BellPipe | BellEventfd | BellUnixWrite | BellUnixShutdown | BellTimerfd | BellSignalfd
  | BellInotify | BellSignalInject | BellInetRx | BellUnixRead | BellInetTx | BellOther.

Definition source_index (s : PollBellSource) : nat :=
  match s with
  | BellPipe => 0 | BellEventfd => 1 | BellUnixWrite => 2 | BellUnixShutdown => 3
  | BellTimerfd => 4 | BellSignalfd => 5 | BellInotify => 6 | BellSignalInject => 7
  | BellInetRx => 8 | BellUnixRead => 9 | BellInetTx => 10 | BellOther => 11
  end.

Definition N_BELL_SOURCES : nat := 12.

(** The shared wake state: thread table, current thread, bell and its
    statistics, reschedule requests. *)
Record Wake := mkWake {
  THREAD_TABLE : list Thread;
  current_tid : Z;
  POLL_BELL : WaitList;
  BELL_RINGS_BY_SOURCE : list Z;
  POLL_BELL_BELL_WAKES : Z;
  POLL_BELL_RESYNC_WAKES : Z;
  reschedule_requests : Z
}.

Definition with_threads (l : list Thread) (w : Wake) : Wake :=
  mkWake l (current_tid w) (POLL_BELL w) (BELL_RINGS_BY_SOURCE w) (POLL_BELL_BELL_WAKES w)
    (POLL_BELL_RESYNC_WAKES w) (reschedule_requests w).
Definition with_POLL_BELL (b : WaitList) (w : Wake) : Wake :=
  mkWake (THREAD_TABLE w) (current_tid w) b (BELL_RINGS_BY_SOURCE w) (POLL_BELL_BELL_WAKES w)
    (POLL_BELL_RESYNC_WAKES w) (reschedule_requests w).
Definition with_BELL_RINGS (r : list Z) (w : Wake) : Wake :=
  mkWake (THREAD_TABLE w) (current_tid w) (POLL_BELL w) r (POLL_BELL_BELL_WAKES w)
    (POLL_BELL_RESYNC_WAKES w) (reschedule_requests w).
Definition with_bell_stats (bell resync : Z) (w : Wake) : Wake :=
  mkWake (THREAD_TABLE w) (current_tid w) (POLL_BELL w) (BELL_RINGS_BY_SOURCE w) bell resync
    (reschedule_requests w).
Definition request_reschedule (w : Wake) : Wake :=
  mkWake (THREAD_TABLE w) (current_tid w) (POLL_BELL w) (BELL_RINGS_BY_SOURCE w)
    (POLL_BELL_BELL_WAKES w) (POLL_BELL_RESYNC_WAKES w) (reschedule_requests w + 1).

Definition wake_all (tids : list Z) (w : Wake) : Wake :=
  let '(threads, kick) := wake_tids (current_tid w) tids (THREAD_TABLE w) in
  let w := with_threads threads w in
  if kick then request_reschedule w else w.

Definition ring_poll_bell_for (source : PollBellSource) (w : Wake) : Wake :=
  let i := source_index source in
  let w := with_BELL_RINGS
    (<[i := add64 (BELL_RINGS_BY_SOURCE w !!! i) 1]> (BELL_RINGS_BY_SOURCE w)) w in
  let '(drained, bell) := drain_all (POLL_BELL w) in
  wake_all drained (with_POLL_BELL bell w).

Definition RESYNC_INTERVAL_TICKS : Z := 100.

(** [wait_poll_event] up to the call of [schedule]: [None] when the condition
    already holds, otherwise the state with the caller parked. *)
Definition wait_poll_park (caller_deadline now : Z) (ready_now : bool) (w : Wake) : option Wake :=
  let wake_tick := Z.min caller_deadline (sat_add64 now RESYNC_INTERVAL_TICKS) in
  if ready_now then None
  else
    let '(bell, threads) :=
      enqueue_self_blocked (current_tid w) wake_tick (POLL_BELL w) (THREAD_TABLE w) in
    Some (with_POLL_BELL bell (with_threads threads w)).

(** The rest of [wait_poll_event], run when thread [id] is scheduled again. *)
Definition wait_poll_resume (id : Z) (w : Wake) : Wake :=
  let '(still_parked, bell) := remove_tid id (POLL_BELL w) in
  let w := with_POLL_BELL bell w in
  if still_parked
  then with_bell_stats (POLL_BELL_BELL_WAKES w) (add64 (POLL_BELL_RESYNC_WAKES w) 1) w
  else with_bell_stats (add64 (POLL_BELL_BELL_WAKES w) 1) (POLL_BELL_RESYNC_WAKES w) w.

(* ------------------------------------------------------------------ *)
(** ** Wait lists keyed by an object id *)

(** Enqueue the running thread on the list of [id] and block it. *)
Definition park (id wake_tick : Z) (m : gmap Z WaitList) (w : Wake) : gmap Z WaitList * Wake :=
  let entry := default [] (m !! id) in
  let '(entry, threads) := enqueue_self_blocked (current_tid w) wake_tick entry (THREAD_TABLE w) in
  (<[id := entry]> m, with_threads threads w).

(** [drain_all] on the list of [id], whose entry goes with it. *)
Definition drain_waiters (id : Z) (m : gmap Z WaitList) : list Z * gmap Z WaitList :=
  match m !! id with
  | Some list => let '(v, _) := drain_all list in (v, delete id m)
  | None => ([], m)
  end.

(** Take one thread off the list of [id], and the entry with the last. *)
Definition cleanup (id t : Z) (m : gmap Z WaitList) : gmap Z WaitList :=
  match m !! id with
  | Some list =>
      let '(_, list) := remove_tid t list in
      if bool_decide (list = []) then delete id m else <[id := list]> m
  | None => m
  end.

(* ------------------------------------------------------------------ *)
(** ** What waking does to the table *)

Definition thread_ok (t : Thread) : Prop := 0 <= priority t <= PRIORITY_MAX.

(** Thread ids are unique and priorities in range. *)
Record threads_ok (l : list Thread) : Prop := {
  threads_nodup : NoDup (map tid l);
  threads_prio : Forall thread_ok l
}.

(** The reference: every blocked thread named in [tids] becomes ready. *)
Definition wake_ref (tids : list Z) (t : Thread) : Thread :=
  if bool_decide (tid t ∈ tids) && bool_decide (state t = Blocked) then ready_thread t else t.

Section waking.
Implicit Types (l : list Thread) (t : Thread) (id : Z).

(** One iteration: the table, and for every bound [c] whether the maximum
    passes it. *)
Lemma wake_one_spec l m b id :
  NoDup (map tid l) ->
  let '(l', m', b') := wake_one (l, m, b) id in
  l' = map (wake_ref [id]) l /\
  (b' = true <-> b = true \/ exists t, t ∈ l /\ tid t = id /\ state t = Blocked) /\
  (forall c, c < m' <-> c < m \/ exists t, t ∈ l /\ tid t = id /\ state t = Blocked /\
                                   c < priority (ready_thread t)).
Proof.
  intros Hn. unfold wake_one.
  assert (forall t, wake_ref [id] t = if tid t =? id then (if bool_decide (state t = Blocked) then
    ready_thread t else t) else t) as Href.
  { intros t. unfold wake_ref. destruct (Z.eqb_spec (tid t) id).
    - rewrite bool_decide_eq_true_2 by (by apply list_elem_of_singleton). done.
    - rewrite bool_decide_eq_false_2; [done|]. by intros ?%list_elem_of_singleton. }
  destruct (find_thread id l) as [t|] eqn:Ef.
  - apply (find_key_some tid) in Ef as [Ht Et]; [|done].
    assert (forall u, u ∈ l -> tid u = id -> u = t) as Hu
      by (intros u ? ?; apply (key_unique tid l); congruence).
    case_bool_decide as Eb.
    + split_and!.
      * unfold update_thread. rewrite update_first_map by done. apply map_ext_in. intros u Hin. rewrite Href.
        destruct (Z.eqb_spec (tid u) id) as [E|]; [|done].
        rewrite (Hu u) by (done || by apply list_elem_of_In). by rewrite bool_decide_eq_true_2.
      * naive_solver.
      * intros c. destruct (Z.ltb_spec m (priority (ready_thread t))).
        -- split; [intros; right; exists t; naive_solver|].
           intros [?|(u & Hin & E & _ & ?)]; [lia|]. rewrite (Hu u Hin E) in *. done.
        -- split; [by left|]. intros [?|(u & Hin & E & _ & ?)]; [lia|].
           rewrite (Hu u Hin E) in *. lia.
    + split_and!.
      * rewrite <- (map_id l) at 1. apply map_ext_in. intros u Hin. rewrite Href.
        destruct (Z.eqb_spec (tid u) id) as [E|]; [|done].
        rewrite (Hu u) by (done || by apply list_elem_of_In). by rewrite bool_decide_eq_false_2.
      * naive_solver.
      * intros c. split; [by left|]. intros [?|(u & Hin & E & Ebl & _)]; [done|].
        rewrite (Hu u Hin E) in Ebl. done.
  - pose proof (proj1 (find_key_none tid id l) Ef) as Hno. split_and!.
    + rewrite <- (map_id l) at 1. apply map_ext_in. intros u Hin. rewrite Href.
      destruct (Z.eqb_spec (tid u) id) as [E|]; [|done].
      by destruct (Hno u ltac:(by apply list_elem_of_In)).
    + naive_solver.
    + naive_solver.
Qed.

Lemma wake_ref_tid tids t : tid (wake_ref tids t) = tid t.
Proof. unfold wake_ref. by case_match. Qed.

Lemma wake_ref_tids tids l : map tid (map (wake_ref tids) l) = map tid l.
Proof. rewrite map_map. apply map_ext, wake_ref_tid. Qed.

Lemma wake_ref_cons id tids t : wake_ref tids (wake_ref [id] t) = wake_ref (id :: tids) t.
Proof.
  unfold wake_ref at 2 3. destruct (decide (tid t = id)) as [E|E].
  - rewrite (bool_decide_eq_true_2 (tid t ∈ [id])) by (rewrite E; left).
    rewrite (bool_decide_eq_true_2 (tid t ∈ id :: tids)) by (rewrite E; left). simpl.
    case_bool_decide as Eb.
    + unfold wake_ref. rewrite (bool_decide_eq_false_2 (state (ready_thread t) = Blocked)) by done.
      by rewrite andb_false_r.
    + unfold wake_ref. by rewrite (bool_decide_eq_false_2 (state t = Blocked)), andb_false_r.
  - rewrite (bool_decide_eq_false_2 (tid t ∈ [id])) by (by intros ?%list_elem_of_singleton). simpl.
    unfold wake_ref. rewrite (bool_decide_ext (tid t ∈ id :: tids) (tid t ∈ tids)); [done|].
    rewrite elem_of_cons. tauto.
Qed.

(** A blocked member of the list after the first wake was blocked before. *)
Lemma wake_ref_blocked id l t :
  t ∈ map (wake_ref [id]) l /\ state t = Blocked <-> t ∈ l /\ state t = Blocked /\ tid t <> id.
Proof.
  rewrite list_elem_of_In, in_map_iff. setoid_rewrite <- list_elem_of_In. unfold wake_ref. split.
  - intros [(u & E & Hu) Hb]. revert E. case_bool_decide as E1; case_bool_decide as E2; simpl.
    all: intros <-; try done; rewrite list_elem_of_singleton in E1; done.
  - intros (Ht & Hb & Hne). split; [|done]. exists t. split; [|done].
    by rewrite bool_decide_eq_false_2 by (by rewrite list_elem_of_singleton).
Qed.

Lemma wake_fold tids l m b :
  NoDup (map tid l) ->
  let '(l', m', b') := fold_left wake_one tids (l, m, b) in
  l' = map (wake_ref tids) l /\
  (b' = true <-> b = true \/ exists t, t ∈ l /\ tid t ∈ tids /\ state t = Blocked) /\
  (forall c, c < m' <-> c < m \/ exists t, t ∈ l /\ tid t ∈ tids /\ state t = Blocked /\
                                   c < priority (ready_thread t)).
Proof.
  revert l m b. induction tids as [|id tids IH]; intros l m b Hn; cbn [fold_left].
  { assert (forall x : Z, ~ x ∈ []) as Hnil by (intros x; apply not_elem_of_nil).
    split_and!; [|naive_solver|naive_solver]. rewrite <- (map_id l) at 1. apply map_ext.
    intros t. unfold wake_ref. by rewrite bool_decide_eq_false_2 by apply not_elem_of_nil. }
  pose proof (wake_one_spec l m b id Hn) as H1. destruct (wake_one (l, m, b) id) as [[l1 m1] b1].
  destruct H1 as (-> & Hb1 & Hm1).
  specialize (IH (map (wake_ref [id]) l) m1 b1 ltac:(by rewrite wake_ref_tids)).
  destruct (fold_left wake_one tids _) as [[l2 m2] b2]. destruct IH as (-> & Hb2 & Hm2).
  pose proof (fun t => wake_ref_blocked id l t) as Hbl.
  split_and!.
  - rewrite map_map. apply map_ext. intros t. apply wake_ref_cons.
  - rewrite Hb2, Hb1. setoid_rewrite elem_of_cons. split.
    + intros [[?|(t & ? & ? & ?)]|(t & Ht & Hin & Eb)]; [by left|right; exists t; tauto|].
      destruct (proj1 (Hbl t) (conj Ht Eb)) as (? & _ & _). right. exists t. tauto.
    + intros [?|(t & Ht & [E|Hin] & Eb)]; [tauto|left; right; exists t; tauto|].
      destruct (decide (tid t = id)); [left; right; exists t; tauto|]. right. exists t.
      destruct (proj2 (Hbl t) ltac:(tauto)). tauto.
  - intros c. rewrite Hm2, Hm1. setoid_rewrite elem_of_cons. split.
    + intros [[?|(t & ? & ? & ? & ?)]|(t & Ht & Hin & Eb & ?)]; [by left|right; exists t; tauto|].
      destruct (proj1 (Hbl t) (conj Ht Eb)) as (? & _ & _). right. exists t. tauto.
    + intros [?|(t & Ht & [E|Hin] & Eb & ?)]; [tauto|left; right; exists t; tauto|].
      destruct (decide (tid t = id)); [left; right; exists t; tauto|]. right. exists t.
      destruct (proj2 (Hbl t) ltac:(tauto)). tauto.
Qed.

Lemma wake_tids_threads cur tids l :
  NoDup (map tid l) -> fst (wake_tids cur tids l) = map (wake_ref tids) l.
Proof.
  intros Hn. unfold wake_tids. pose proof (wake_fold tids l 0 false Hn) as Hw.
  destruct tids as [|id tids]; [by destruct Hw as [<- _]|].
  destruct (fold_left _ _ _) as [[l' m'] b']. by destruct Hw as [-> _].
Qed.
End waking.

(** [wake_tids] makes exactly the blocked threads named in the batch
    ready, each once even if it is named twice: its deadline is cleared and
    its priority raised by the wait boost up to the maximum. Every other
    thread, one that already timed out included, is left as it is. The
    current CPU is asked to reschedule exactly if some woken thread now
    outranks the running one. *)
Theorem wake_tids_correct (cur : Z) (tids : list Z) (l : list Thread) :
  threads_ok l ->
  let '(l', kick) := wake_tids cur tids l in
  threads_ok l' /\ length l' = length l /\
  (forall i t, l !! i = Some t ->
     l' !! i = Some (if bool_decide (tid t ∈ tids) && bool_decide (state t = Blocked)
                     then mkThread (tid t) Ready 0
                            (Z.min (priority t + PRIORITY_BOOST_WAIT) PRIORITY_MAX)
                            (ctx_rsp_valid t)
                     else t)) /\
  (kick = true <-> exists t, t ∈ l /\ tid t ∈ tids /\ state t = Blocked /\
     from_option priority 0 (find_thread cur l) <
     Z.min (priority t + PRIORITY_BOOST_WAIT) PRIORITY_MAX).
Proof.
  intros [Hn Hp]. rewrite list.Forall_forall in Hp.
  assert (forall t, t ∈ l -> ready_thread t = mkThread (tid t) Ready 0
    (Z.min (priority t + PRIORITY_BOOST_WAIT) PRIORITY_MAX) (ctx_rsp_valid t)) as Hr.
  { intros t Ht. specialize (Hp t Ht). unfold thread_ok, PRIORITY_MAX, PRIORITY_BOOST_WAIT in *.
    unfold ready_thread, apply_wake_boost, PRIORITY_BOOST_WAIT; simpl.
    rewrite wrap_small; [done|unfold in_word; lia]. }
  pose proof (wake_tids_threads cur tids l Hn) as Hl.
  assert (snd (wake_tids cur tids l) = true <-> exists t, t ∈ l /\ tid t ∈ tids /\ state t = Blocked /\
     from_option priority 0 (find_thread cur l) < priority (ready_thread t)) as Hk.
  { unfold wake_tids. pose proof (wake_fold tids l 0 false Hn) as Hw.
    assert (0 <= from_option priority 0 (find_thread cur l)) as Hc.
    { destruct (find_thread cur l) as [t|] eqn:E; [|done]. simpl.
      apply (find_key_some tid) in E as [Ht _]; [|done]. apply (Hp t Ht). }
    destruct tids as [|id tids].
    - split; [done|]. intros (t & _ & Hin & _). by apply not_elem_of_nil in Hin.
    - set (c := match find_thread cur l with Some th => priority th | None => 0 end).
      assert (c = from_option priority 0 (find_thread cur l)) as <-
        by (unfold c; by destruct (find_thread cur l)).
      destruct (fold_left _ _ _) as [[l' m'] b']. destruct Hw as (_ & Hb & Hm). simpl.
      rewrite andb_true_iff, Hb, Z.ltb_lt, Hm. fold c in Hc.
      assert (~ c < 0) by (unfold c; destruct (find_thread cur l); simpl in Hc; lia).
      naive_solver. }
  destruct (wake_tids cur tids l) as [l' kick]. cbn [fst snd] in *. subst l'. split_and!.
  - split; [by rewrite wake_ref_tids|]. apply list.Forall_forall. intros t Ht.
    apply list_elem_of_In, in_map_iff in Ht as (u & <- & Hu). apply list_elem_of_In in Hu.
    unfold wake_ref. case_match; [|by apply Hp]. rewrite Hr by done.
    specialize (Hp u Hu). unfold thread_ok, PRIORITY_MAX, PRIORITY_BOOST_WAIT in *; simpl. lia.
  - apply length_map.
  - intros i t Ht. rewrite list_lookup_fmap, Ht. simpl. f_equal. unfold wake_ref.
    case_match; [|done]. apply Hr. by eapply list_elem_of_lookup_2.
  - rewrite Hk. split; intros (t & Ht & H1 & H2 & H3); exists t;
      [rewrite (Hr t Ht) in H3|rewrite (Hr t Ht)]; done.
Qed.

Definition demo_threads : list Thread :=
  [mkThread 1 Running 0 8 true; mkThread 2 Blocked 50 8 false; mkThread 3 Ready 0 30 true].

Lemma wake_tids_correct_witness :
  wake_tids 1 [2; 2; 3] demo_threads =
    ([mkThread 1 Running 0 8 true; mkThread 2 Ready 0 10 false; mkThread 3 Ready 0 30 true], true) /\
  threads_ok (fst (wake_tids 1 [2; 2; 3] demo_threads)).
Proof.
  assert (threads_ok demo_threads) as Hd.
  { split; [by apply (bool_decide_unpack _); vm_compute|].
    repeat (apply Forall_cons_iff; split); try done;
      unfold thread_ok, PRIORITY_MAX; simpl; lia. }
  split; [vm_compute; reflexivity|].
  pose proof (wake_tids_correct 1 [2; 2; 3] demo_threads Hd) as Hw.
  destruct (wake_tids 1 [2; 2; 3] demo_threads) as [l' k]. exact (proj1 Hw).
Defined.

(* ------------------------------------------------------------------ *)
(** ** Who is parked on an object *)

Definition parked (m : gmap Z WaitList) (id : Z) : Prop := exists w, m !! id = Some w /\ w <> [].

Section parked.
Implicit Types (m : gmap Z WaitList) (id k : Z).

Lemma parked_delete m id k : parked (delete id m) k <-> k <> id /\ parked m k.
Proof. unfold parked. setoid_rewrite lookup_delete_Some. naive_solver. Qed.

Lemma parked_drain id m k : parked (snd (drain_waiters id m)) k <-> k <> id /\ parked m k.
Proof.
  unfold drain_waiters. destruct (m !! id) as [w|] eqn:E; simpl; [apply parked_delete|].
  split; [|tauto]. intros (w & Hw & Hn). split; [|by exists w].
  intros ->. by pose proof (eq_trans (eq_sym E) Hw).
Qed.

Lemma parked_park id tick m w k :
  parked (fst (park id tick m w)) k -> k = id \/ parked m k.
Proof.
  unfold park. destruct (enqueue_self_blocked _ _ _ _) as [e th]. simpl. intros (l & Hl & Hn).
  destruct (decide (k = id)) as [|Hne]; [by left|right].
  rewrite lookup_insert_ne in Hl by done. by exists l.
Qed.

Lemma parked_cleanup id t m k : parked (cleanup id t m) k -> parked m k.
Proof.
  unfold cleanup. destruct (m !! id) as [l|] eqn:E; [|done].
  destruct (remove_tid t l) as [b l'] eqn:Er. decide_on (l' = []) as Hl.
  - intros [_ H]%parked_delete. done.
  - intros (x & Hx & Hn). destruct (decide (k = id)) as [->|Hne].
    + exists l. split; [done|]. intros ->. unfold remove_tid in Er. simplify_eq/=.
    + rewrite lookup_insert_ne in Hx by done. by exists x.
Qed.

End parked.
