(* ===== verification/Pipe.v ===== *)
(** * Pipes (kernel/src/ipc/pipe.rs)

    The ring buffer of one pipe, the table of pipes, and the parking and
    waking of readers and writers. *)

From S2P Require Import Prelude WaitList.

(* ------------------------------------------------------------------ *)
(** ** The ring buffer *)

Definition PIPE_BUF_SIZE : nat := Z.to_nat 4096.
Definition PIPE_BUF : nat := PIPE_BUF_SIZE.
Definition PIPE_DEFAULT_CAPACITY : nat := Z.to_nat 65536.
Definition PIPE_MAX_CAPACITY : nat := Z.to_nat (2 ^ 20).

Record Pipe := mkPipe {
  pipe_id : Z;
  buffer : list Z;
  read_pos : nat;
  write_pos : nat;
  count : nat;
  writers : Z;
  readers : Z;
  closed : bool
}.

Definition pipe_new (id : Z) : Pipe :=
  mkPipe id (replicate PIPE_DEFAULT_CAPACITY 0) 0 0 0 1 1 false.

Definition capacity (p : Pipe) : nat := length (buffer p).
Definition space (p : Pipe) : nat := (length (buffer p) - count p)%nat.
Definition available (p : Pipe) : nat := count p.
Definition has_data (p : Pipe) : bool := (0 <? count p)%nat.
Definition is_eof (p : Pipe) : bool := (writers p =? 0) && (count p =? 0)%nat.
Definition writer_closed (p : Pipe) : bool := writers p =? 0.
Definition reader_closed (p : Pipe) : bool := readers p =? 0.

Definition with_ring (b : list Z) (r w c : nat) (p : Pipe) : Pipe :=
  mkPipe (pipe_id p) b r w c (writers p) (readers p) (closed p).
Definition with_writers (n : Z) (p : Pipe) : Pipe :=
  mkPipe (pipe_id p) (buffer p) (read_pos p) (write_pos p) (count p) n (readers p) (closed p).
Definition with_readers (n : Z) (p : Pipe) : Pipe :=
  mkPipe (pipe_id p) (buffer p) (read_pos p) (write_pos p) (count p) (writers p) n (closed p).

(** [while cap < want { cap <<= 1; if cap > MAX { return Err(-1) } }]. *)
Fixpoint round_capacity (fuel cap want : nat) : option (nat + Z) :=
  match fuel with
  | O => None
  | S fuel =>
      if (cap <? want)%nat then
        let cap := (2 * cap)%nat in
        if (PIPE_MAX_CAPACITY <? cap)%nat then Some (inr (-1)) else round_capacity fuel cap want
      else Some (inl cap)
  end.

(** Sixteen doublings pass [PIPE_MAX_CAPACITY]. *)
Definition set_capacity (want : nat) (p : Pipe) : option ((nat + Z) * Pipe) :=
  match round_capacity 16 PIPE_BUF_SIZE want with
  | None => None
  | Some (inr e) => Some (inr e, p)
  | Some (inl cap) =>
      if (cap <? count p)%nat then Some (inr (-16), p)
      else
        let old_len := length (buffer p) in
        let nb := fold_left (fun nb i =>
          <[i := buffer p !!! ((read_pos p + i) mod old_len)%nat]> nb)
          (seq 0 (count p)) (replicate cap 0) in
        Some (inl cap, with_ring nb 0 (count p mod cap)%nat (count p) p)
  end.

(** The copy loop of [read]: [n] bytes out of the ring. *)
Fixpoint read_loop (n : nat) (b : list Z) (pos : nat) : list Z * nat :=
  match n with
  | O => ([], pos)
  | S n =>
      let '(out, pos') := read_loop n b ((pos + 1) mod length b)%nat in
      (b !!! pos :: out, pos')
  end.

(** [read(buf)] for a buffer of [len] bytes: the bytes copied out. *)
Definition read (len : nat) (p : Pipe) : list Z * Pipe :=
  let to_read := Nat.min len (count p) in
  let '(out, pos) := read_loop to_read (buffer p) (read_pos p) in
  (out, with_ring (buffer p) pos (write_pos p) (count p - to_read)%nat p).

Fixpoint write_loop (data : list Z) (b : list Z) (pos : nat) : list Z * nat :=
  match data with
  | [] => (b, pos)
  | x :: data => write_loop data (<[pos := x]> b) ((pos + 1) mod length b)%nat
  end.

Definition write (data : list Z) (p : Pipe) : nat * Pipe :=
  let to_write := Nat.min (length data) (capacity p - count p)%nat in
  let '(b, pos) := write_loop (take to_write data) (buffer p) (write_pos p) in
  (to_write, with_ring b (read_pos p) pos (count p + to_write)%nat p).

(* ------------------------------------------------------------------ *)
(** ** The pipe table *)

Record PipeSys := mkPipeSys {
  PIPE_TABLE : list Pipe;
  PIPE_READ_WAITERS : gmap Z WaitList;
  PIPE_WRITE_WAITERS : gmap Z WaitList;
  NEXT_PIPE_ID : Z;
  wk : Wake
}.

Definition with_TABLE (l : list Pipe) (s : PipeSys) : PipeSys :=
  mkPipeSys l (PIPE_READ_WAITERS s) (PIPE_WRITE_WAITERS s) (NEXT_PIPE_ID s) (wk s).
Definition with_RW (m : gmap Z WaitList) (s : PipeSys) : PipeSys :=
  mkPipeSys (PIPE_TABLE s) m (PIPE_WRITE_WAITERS s) (NEXT_PIPE_ID s) (wk s).
Definition with_WW (m : gmap Z WaitList) (s : PipeSys) : PipeSys :=
  mkPipeSys (PIPE_TABLE s) (PIPE_READ_WAITERS s) m (NEXT_PIPE_ID s) (wk s).
Definition with_wk (w : Wake) (s : PipeSys) : PipeSys :=
  mkPipeSys (PIPE_TABLE s) (PIPE_READ_WAITERS s) (PIPE_WRITE_WAITERS s) (NEXT_PIPE_ID s) w.

Definition find_pipe (id : Z) (l : list Pipe) : option Pipe :=
  List.find (fun p => pipe_id p =? id) l.

Definition update_pipe (id : Z) (f : Pipe -> Pipe) (l : list Pipe) : list Pipe :=
  update_first (fun p => pipe_id p =? id) f l.

Definition create_pipe (s : PipeSys) : Z * PipeSys :=
  let id := NEXT_PIPE_ID s in
  (id, mkPipeSys (PIPE_TABLE s ++ [pipe_new id]) (PIPE_READ_WAITERS s) (PIPE_WRITE_WAITERS s)
         (add64 id 1) (wk s)).

Definition wake_readers_all (id : Z) (s : PipeSys) : PipeSys :=
  let '(drained, m) := drain_waiters id (PIPE_READ_WAITERS s) in
  let s := with_RW m s in
  with_wk (ring_poll_bell_for BellPipe (wake_all drained (wk s))) s.

Definition wake_writers_all (id : Z) (s : PipeSys) : PipeSys :=
  let '(drained, m) := drain_waiters id (PIPE_WRITE_WAITERS s) in
  let s := with_WW m s in
  with_wk (ring_poll_bell_for BellPipe (wake_all drained (wk s))) s.

Definition pipe_read (id : Z) (len : nat) (s : PipeSys) : option (list Z) * PipeSys :=
  match find_pipe id (PIPE_TABLE s) with
  | None => (None, s)
  | Some p =>
      (Some (fst (read len p)),
       with_TABLE (update_pipe id (fun p => snd (read len p)) (PIPE_TABLE s)) s)
  end.

Definition pipe_read_and_wake (id : Z) (len : nat) (s : PipeSys) : option (list Z) * PipeSys :=
  match pipe_read id len s with
  | (None, s) => (None, s)
  | (Some out, s) =>
      (Some out, if (0 <? length out)%nat then wake_writers_all id s else s)
  end.

Definition pipe_write (id : Z) (data : list Z) (s : PipeSys) : option nat * PipeSys :=
  match find_pipe id (PIPE_TABLE s) with
  | None => (None, s)
  | Some p =>
      (Some (fst (write data p)),
       with_TABLE (update_pipe id (fun p => snd (write data p)) (PIPE_TABLE s)) s)
  end.

Inductive AtomicWrite := Wrote | AtomicNoSpace | AtomicGone.

Definition pipe_write_atomic (id : Z) (data : list Z) (s : PipeSys) : AtomicWrite * PipeSys :=
  match find_pipe id (PIPE_TABLE s) with
  | None => (AtomicGone, s)
  | Some p =>
      if (space p <? length data)%nat then (AtomicNoSpace, s)
      else (Wrote, with_TABLE (update_pipe id (fun p => snd (write data p)) (PIPE_TABLE s)) s)
  end.

Definition pipe_query {A} (f : Pipe -> A) (default : A) (id : Z) (s : PipeSys) : A :=
  match find_pipe id (PIPE_TABLE s) with Some p => f p | None => default end.

Definition pipe_reader_closed : Z -> PipeSys -> bool := pipe_query reader_closed true.
Definition pipe_space : Z -> PipeSys -> nat := pipe_query space 0%nat.
Definition pipe_capacity : Z -> PipeSys -> option nat :=
  pipe_query (fun p => Some (capacity p)) None.
Definition pipe_has_data : Z -> PipeSys -> bool := pipe_query has_data false.
Definition pipe_is_eof : Z -> PipeSys -> bool := pipe_query is_eof true.
Definition pipe_writer_closed : Z -> PipeSys -> bool := pipe_query writer_closed true.

Definition pipe_add_writer (id : Z) (s : PipeSys) : PipeSys :=
  with_TABLE (update_pipe id (fun p => with_writers (sat_add32 (writers p) 1) p) (PIPE_TABLE s)) s.

Definition pipe_add_reader (id : Z) (s : PipeSys) : PipeSys :=
  with_TABLE (update_pipe id (fun p => with_readers (sat_add32 (readers p) 1) p) (PIPE_TABLE s)) s.

Definition pipe_close_writer (id : Z) (s : PipeSys) : PipeSys :=
  let became_eof :=
    match find_pipe id (PIPE_TABLE s) with
    | Some p => sat_sub (writers p) 1 =? 0
    | None => false
    end in
  let s := with_TABLE
    (update_pipe id (fun p => with_writers (sat_sub (writers p) 1) p) (PIPE_TABLE s)) s in
  if became_eof then wake_writers_all id (wake_readers_all id s) else s.

Definition pipe_close_reader (id : Z) (s : PipeSys) : PipeSys :=
  let no_readers :=
    match find_pipe id (PIPE_TABLE s) with
    | Some p => sat_sub (readers p) 1 =? 0
    | None => false
    end in
  let l := update_pipe id (fun p => with_readers (sat_sub (readers p) 1) p) (PIPE_TABLE s) in
  let l := List.filter (fun p => (0 <? readers p) || (0 <? writers p)) l in
  let s := with_TABLE l s in
  if no_readers then wake_readers_all id (wake_writers_all id s) else s.

Definition pipe_set_capacity (id : Z) (want : nat) (s : PipeSys) : option ((nat + Z) * PipeSys) :=
  match find_pipe id (PIPE_TABLE s) with
  | None => Some (inr (-9), s)
  | Some p =>
      match set_capacity want p with
      | None => None
      | Some (res, p') =>
          let grew := match res with inl c => (capacity p <? c)%nat | inr _ => false end in
          let s := with_TABLE (update_pipe id (fun _ => p') (PIPE_TABLE s)) s in
          Some (res, if grew then wake_writers_all id s else s)
      end
  end.

(** [pipe_drain_console]: reads of [PIPE_BUF_SIZE] bytes until a short one. *)
Fixpoint drain_console_loop (fuel : nat) (id : Z) (total : nat) (s : PipeSys)
    : option (nat * PipeSys) :=
  match fuel with
  | O => None
  | S fuel =>
      match pipe_read id PIPE_BUF_SIZE s with
      | (None, s) => Some (total, s)
      | (Some out, s) =>
          let n := length out in
          if (n =? 0)%nat then Some (total, s)
          else if (n <? PIPE_BUF_SIZE)%nat then Some ((total + n)%nat, s)
          else drain_console_loop fuel id (total + n)%nat s
      end
  end.

(** A full pipe of the largest capacity takes 256 reads and one empty one. *)
Definition pipe_drain_console (id : Z) (s : PipeSys) : option (nat * PipeSys) :=
  drain_console_loop 258 id 0 s.

Inductive WaitOutcome := WaitReady | WaitEnqueued | WaitGone.

Definition wait_readable (id wake_tick : Z) (s : PipeSys) : WaitOutcome * PipeSys :=
  match find_pipe id (PIPE_TABLE s) with
  | None => (WaitGone, s)
  | Some p =>
      if has_data p || writer_closed p then (WaitReady, s)
      else
        let '(m, w) := park id wake_tick (PIPE_READ_WAITERS s) (wk s) in
        (WaitEnqueued, with_wk w (with_RW m s))
  end.

Definition wait_writable (id : Z) (need : nat) (wake_tick : Z) (s : PipeSys)
    : WaitOutcome * PipeSys :=
  match find_pipe id (PIPE_TABLE s) with
  | None => (WaitGone, s)
  | Some p =>
      if (need <=? space p)%nat || (readers p =? 0) then (WaitReady, s)
      else
        let '(m, w) := park id wake_tick (PIPE_WRITE_WAITERS s) (wk s) in
        (WaitEnqueued, with_wk w (with_WW m s))
  end.

Definition waiter_cleanup_reader (id t : Z) (s : PipeSys) : PipeSys :=
  with_RW (cleanup id t (PIPE_READ_WAITERS s)) s.
Definition waiter_cleanup_writer (id t : Z) (s : PipeSys) : PipeSys :=
  with_WW (cleanup id t (PIPE_WRITE_WAITERS s)) s.

(** The deposits of [sys_write] on a pipe, each followed by its wake: the
    large arm and the atomic arm. *)
Definition write_and_wake (id : Z) (data : list Z) (s : PipeSys) : option nat * PipeSys :=
  match pipe_write id data s with
  | (Some n, s) => (Some n, if (0 <? n)%nat then wake_readers_all id s else s)
  | (None, s) => (None, s)
  end.

Definition atomic_write_and_wake (id : Z) (data : list Z) (s : PipeSys) : AtomicWrite * PipeSys :=
  match pipe_write_atomic id data s with
  | (Wrote, s) => (Wrote, wake_readers_all id s)
  | (r, s) => (r, s)
  end.

(* ------------------------------------------------------------------ *)
(** ** The ring as a queue of bytes *)

Record pipe_ok (p : Pipe) : Prop := {
  ring_cap : (0 < capacity p)%nat;
  ring_read : (read_pos p < capacity p)%nat;
  ring_count : (count p <= capacity p)%nat;
  ring_write : write_pos p = ((read_pos p + count p) mod capacity p)%nat
}.

(** [n] bytes of a ring from [pos] on. *)
Definition ring_bytes (b : list Z) (pos n : nat) : list Z :=
  map (fun i => b !!! ((pos + i) mod length b)%nat) (seq 0 n).

Definition contents (p : Pipe) : list Z := ring_bytes (buffer p) (read_pos p) (count p).

Lemma pipe_constants :
  (exists k, PIPE_MAX_CAPACITY = PIPE_BUF_SIZE * 2 ^ k)%nat /\
  (PIPE_MAX_CAPACITY < PIPE_BUF_SIZE * 2 ^ 16)%nat /\
  (0 < PIPE_BUF_SIZE <= PIPE_DEFAULT_CAPACITY)%nat /\ (PIPE_BUF_SIZE <= PIPE_MAX_CAPACITY)%nat.
Proof.
  unfold PIPE_BUF_SIZE, PIPE_MAX_CAPACITY, PIPE_DEFAULT_CAPACITY.
  assert (forall k, Z.of_nat (2 ^ k)%nat = 2 ^ Z.of_nat k) as Hp by (intros; apply Nat2Z.inj_pow).
  split_and!; [exists 8%nat|..]; try lia.
  - pose proof (Hp 8%nat) as E. change (2 ^ Z.of_nat 8) with 256 in E. lia.
  - pose proof (Hp 16%nat) as E. change (2 ^ Z.of_nat 16) with 65536 in E. lia.
Qed.

Lemma pipe_max_pages : PIPE_MAX_CAPACITY = (256 * PIPE_BUF_SIZE)%nat.
Proof. unfold PIPE_BUF_SIZE, PIPE_MAX_CAPACITY. lia. Qed.

#[local] Opaque PIPE_BUF_SIZE PIPE_MAX_CAPACITY PIPE_DEFAULT_CAPACITY.

Section ring.
Implicit Types (b data : list Z) (pos n i : nat).

Lemma ring_bytes_length b pos n : length (ring_bytes b pos n) = n.
Proof. unfold ring_bytes. by rewrite length_map, length_seq. Qed.

Lemma ring_bytes_S b pos n :
  (pos < length b)%nat ->
  ring_bytes b pos (S n) = b !!! pos :: ring_bytes b ((pos + 1) mod length b) n.
Proof.
  intros Hp. unfold ring_bytes. cbn [seq map]. rewrite Nat.add_0_r, Nat.mod_small by done.
  f_equal. rewrite <- seq_shift, map_map. apply map_ext. intros i.
  rewrite Nat.Div0.add_mod_idemp_l. do 2 f_equal. lia.
Qed.

Lemma ring_bytes_app b pos n m :
  ring_bytes b pos (n + m) = ring_bytes b pos n ++ ring_bytes b ((pos + n) mod length b) m.
Proof.
  unfold ring_bytes. rewrite seq_app, map_app. f_equal.
  replace (seq (0 + n) m) with (map (Nat.add n) (seq 0 m))
    by (etrans; [apply fmap_add_seq|f_equal; lia]).
  rewrite map_map. apply map_ext. intros i.
  rewrite Nat.Div0.add_mod_idemp_l. do 2 f_equal. lia.
Qed.

Lemma read_loop_eq n b pos :
  (pos < length b)%nat ->
  read_loop n b pos = (ring_bytes b pos n, ((pos + n) mod length b)%nat).
Proof.
  revert pos. induction n as [|n IH]; intros pos Hp.
  - simpl. by rewrite Nat.add_0_r, Nat.mod_small.
  - cbn [read_loop]. rewrite IH by (apply Nat.mod_upper_bound; lia).
    rewrite ring_bytes_S by done. f_equal. rewrite Nat.Div0.add_mod_idemp_l. f_equal. lia.
Qed.

Lemma ring_index pos i j cap :
  (i < cap)%nat -> (j < cap)%nat -> ((pos + i) mod cap = (pos + j) mod cap)%nat -> i = j.
Proof.
  intros Hi Hj E.
  pose proof (Nat.div_mod_eq (pos + i) cap). pose proof (Nat.div_mod_eq (pos + j) cap).
  pose proof (Nat.mod_upper_bound (pos + i) cap ltac:(lia)).
  destruct (decide ((pos + i) / cap = (pos + j) / cap)%nat) as [Eq|Ne]; [rewrite Eq in *; lia|].
  assert ((pos + i) / cap < (pos + j) / cap \/ (pos + j) / cap < (pos + i) / cap)%nat as [Hl|Hl] by lia;
    nia.
Qed.

(** The copy loop of [write]: the first bytes after [pos] become the data. *)
Lemma write_loop_spec data b pos :
  (pos < length b)%nat -> (length data <= length b)%nat ->
  let '(b', pos') := write_loop data b pos in
  length b' = length b /\ pos' = ((pos + length data) mod length b)%nat /\
  forall i, (i < length b)%nat ->
    b' !!! ((pos + i) mod length b)%nat =
    if (i <? length data)%nat then data !!! i else b !!! ((pos + i) mod length b)%nat.
Proof.
  revert b pos. induction data as [|x data IH]; intros b pos Hp Hl; simpl.
  { rewrite Nat.add_0_r, Nat.mod_small by done. split_and!; [done|done|]. intros i Hi. done. }
  simpl in Hl. specialize (IH (<[pos := x]> b) ((pos + 1) mod length b)%nat).
  rewrite length_insert in IH. specialize (IH ltac:(apply Nat.mod_upper_bound; lia) ltac:(lia)).
  destruct (write_loop data _ _) as [b' pos']. destruct IH as (H1 & H2 & H3).
  split_and!; [done| |].
  { rewrite H2, Nat.Div0.add_mod_idemp_l. f_equal. lia. }
  intros i Hi. destruct i as [|i].
  - specialize (H3 (length b - 1)%nat ltac:(lia)).
    rewrite Nat.Div0.add_mod_idemp_l in H3.
    replace (pos + 1 + (length b - 1))%nat with (pos + 1 * length b)%nat in H3 by lia.
    rewrite Nat.Div0.mod_add, Nat.mod_small in H3 by done.
    rewrite Nat.add_0_r, Nat.mod_small by done. rewrite H3.
    rewrite (proj2 (Nat.ltb_ge _ _)) by lia. by rewrite list_lookup_total_insert_eq.
  - specialize (H3 i ltac:(lia)). rewrite Nat.Div0.add_mod_idemp_l in H3.
    replace (pos + S i)%nat with (pos + 1 + i)%nat by lia. rewrite H3.
    destruct (Nat.ltb_spec i (length data)), (Nat.ltb_spec (S i) (S (length data))); try lia; [done|].
    apply list_lookup_total_insert_ne. intros E.
    assert (0 = S i)%nat; [|done]. apply (ring_index pos _ _ (length b)); [lia|lia|].
    rewrite Nat.add_0_r, Nat.mod_small by done. rewrite E. f_equal. lia.
Qed.

Lemma ring_bytes_ext b b' pos n :
  length b' = length b -> (n <= length b)%nat ->
  (forall i, (i < n)%nat -> b' !!! ((pos + i) mod length b)%nat = b !!! ((pos + i) mod length b)%nat) ->
  ring_bytes b' pos n = ring_bytes b pos n.
Proof.
  intros Hl Hn H. unfold ring_bytes. apply map_ext_in. intros i Hi%in_seq. rewrite Hl.
  apply H. lia.
Qed.

Lemma ring_bytes_data b pos n data :
  length data = n ->
  (forall i, (i < n)%nat -> b !!! ((pos + i) mod length b)%nat = data !!! i) ->
  ring_bytes b pos n = data.
Proof.
  intros <- H. apply list_eq. intros i. unfold ring_bytes. rewrite list_lookup_fmap.
  destruct (decide (i < length data)%nat) as [Hi|Hi].
  - rewrite lookup_seq_lt by done. simpl. rewrite H by done. symmetry. by apply list_lookup_lookup_total_lt.
  - rewrite lookup_seq_ge by lia. symmetry. apply lookup_ge_None_2. lia.
Qed.
End ring.

Section pipe.
Implicit Types (p : Pipe) (data : list Z) (n len : nat).

Lemma contents_length p : length (contents p) = count p.
Proof. apply ring_bytes_length. Qed.

Lemma read_spec len p :
  pipe_ok p ->
  let '(out, p') := read len p in
  pipe_ok p' /\ out = take len (contents p) /\ contents p' = drop len (contents p) /\
  capacity p' = capacity p /\ count p' = (count p - len)%nat /\
  readers p' = readers p /\ writers p' = writers p /\ pipe_id p' = pipe_id p.
Proof.
  intros [H1 H2 H3 H4]. unfold read. set (m := Nat.min len (count p)).
  rewrite read_loop_eq by done. unfold contents, capacity in *. cbn [buffer read_pos count with_ring].
  assert (ring_bytes (buffer p) (read_pos p) (count p) =
    ring_bytes (buffer p) (read_pos p) m ++
    ring_bytes (buffer p) ((read_pos p + m) mod length (buffer p)) (count p - m)) as Hc.
  { rewrite <- ring_bytes_app. f_equal. lia. }
  assert (forall k, take len (ring_bytes (buffer p) (read_pos p) m ++ k) =
    ring_bytes (buffer p) (read_pos p) m \/ m <> len) as Ht.
  { intros k. destruct (decide (m = len)); [left|by right].
    rewrite take_app_le, take_ge by (rewrite ring_bytes_length; lia). done. }
  split_and!; try done; try lia.
  - split; unfold capacity; cbn; [done|by apply Nat.mod_upper_bound; lia|lia|].
    rewrite H4, Nat.Div0.add_mod_idemp_l. f_equal. lia.
  - rewrite Hc. destruct (decide (m = len)) as [E|E].
    + rewrite <- E. by rewrite take_app_length' by (by rewrite ring_bytes_length).
    + assert (count p - m = 0)%nat as -> by lia. unfold ring_bytes at 3. simpl.
      rewrite app_nil_r, take_ge; [done|]. rewrite ring_bytes_length. lia.
  - rewrite Hc. destruct (decide (m = len)) as [E|E].
    + rewrite <- E. by rewrite drop_app_length' by (by rewrite ring_bytes_length).
    + assert (count p - m = 0)%nat as -> by lia. unfold ring_bytes at 1 3. simpl.
      rewrite app_nil_r, drop_ge; [done|]. rewrite ring_bytes_length. lia.
Qed.

Lemma write_spec data p :
  pipe_ok p ->
  let '(n, p') := write data p in
  pipe_ok p' /\ n = Nat.min (length data) (space p) /\
  contents p' = contents p ++ take n data /\
  capacity p' = capacity p /\ count p' = (count p + n)%nat /\
  readers p' = readers p /\ writers p' = writers p /\ pipe_id p' = pipe_id p.
Proof.
  intros [H1 H2 H3 H4]. unfold write. set (m := Nat.min _ _).
  assert (length (take m data) = m) as Hm by (rewrite length_take; lia).
  pose proof (write_loop_spec (take m data) (buffer p) (write_pos p)) as Hw.
  destruct (write_loop _ _ _) as [b' pos']. unfold contents, capacity, space in *.
  destruct Hw as (W1 & W2 & W3); [rewrite H4; apply Nat.mod_upper_bound; lia|lia|].
  cbn [buffer read_pos count with_ring]. rewrite W1. rewrite Hm in W2, W3.
  set (cap := length (buffer p)) in *.
  split_and!; try done.
  - split; unfold capacity; cbn; rewrite ?W1; fold cap; [done|done|lia|].
    rewrite W2, H4, Nat.Div0.add_mod_idemp_l. f_equal. lia.
  - rewrite ring_bytes_app. f_equal.
    + apply ring_bytes_ext; [done|fold cap; lia|]. intros i Hi. fold cap.
      specialize (W3 (cap - count p + i)%nat ltac:(lia)).
      rewrite H4, Nat.Div0.add_mod_idemp_l in W3.
      replace (read_pos p + count p + (cap - count p + i))%nat
        with (read_pos p + i + 1 * cap)%nat in W3 by lia.
      rewrite Nat.Div0.mod_add in W3. rewrite W3. by rewrite (proj2 (Nat.ltb_ge _ _)) by lia.
    + apply ring_bytes_data; [done|]. intros i Hi. rewrite W1. fold cap.
      specialize (W3 i ltac:(lia)). rewrite H4 in W3. rewrite W3.
      by rewrite (proj2 (Nat.ltb_lt _ _)) by lia.
Qed.

(** The rounded capacity: the least power-of-two multiple that fits. *)
Lemma round_capacity_spec fuel cap want :
  (0 < cap)%nat -> (cap <= PIPE_MAX_CAPACITY)%nat -> (PIPE_MAX_CAPACITY < cap * 2 ^ fuel)%nat ->
  (exists k, PIPE_MAX_CAPACITY = cap * 2 ^ k)%nat ->
  (exists c, round_capacity fuel cap want = Some (inl c) /\ (want <= PIPE_MAX_CAPACITY)%nat /\
     (want <= c)%nat /\ (cap <= c <= PIPE_MAX_CAPACITY)%nat /\ (c = cap \/ c < 2 * want)%nat) \/
  (round_capacity fuel cap want = Some (inr (-1)) /\ (PIPE_MAX_CAPACITY < want)%nat).
Proof.
  revert cap. induction fuel as [|fuel IH]; intros cap H0 H1 H2 (k & Hk); [simpl in H2; lia|].
  cbn [round_capacity]. destruct (Nat.ltb_spec cap want).
  - destruct k as [|k].
    { right. simpl in Hk. rewrite (proj2 (Nat.ltb_lt _ _)) by lia. split; [done|lia]. }
    rewrite Nat.pow_succ_r' in Hk, H2. pose proof (Nat.pow_nonzero 2 k ltac:(done)).
    rewrite (proj2 (Nat.ltb_ge _ _)) by nia.
    destruct (IH (2 * cap)%nat) as [(c & E & ? & ? & ? & ?)|[E ?]]; [lia|nia|lia|exists k; lia| |].
    + left. exists c. split_and!; try done; lia.
    + by right.
  - left. exists cap. split_and!; try done; lia.
Qed.
End pipe.

(* ------------------------------------------------------------------ *)
(** ** Resizing *)

Lemma fill_spec (f : nat -> Z) n start nb :
  (start + n <= length nb)%nat ->
  let nb' := fold_left (fun nb i => <[i := f i]> nb) (seq start n) nb in
  length nb' = length nb /\
  forall j, nb' !!! j = if decide (start <= j < start + n)%nat then f j else nb !!! j.
Proof.
  revert start nb. induction n as [|n IH]; intros start nb Hl; cbn [seq fold_left].
  { split; [done|]. intros j. rewrite decide_False by lia. done. }
  destruct (IH (S start) (<[start := f start]> nb)) as [H1 H2]; [rewrite length_insert; lia|].
  rewrite length_insert in H1. split; [done|]. intros j. rewrite H2, list_lookup_total_insert.
  repeat case_decide; try done; try lia. destruct H0 as [-> _]. done.
Qed.

Lemma set_capacity_spec want p :
  pipe_ok p ->
  exists r p', set_capacity want p = Some (r, p') /\
    match r with
    | inl c => (want <= c)%nat /\ (PIPE_BUF_SIZE <= c <= PIPE_MAX_CAPACITY)%nat /\
        (c = PIPE_BUF_SIZE \/ c < 2 * want)%nat /\
        pipe_ok p' /\ contents p' = contents p /\ capacity p' = c /\ count p' = count p /\
        readers p' = readers p /\ writers p' = writers p /\ pipe_id p' = pipe_id p
    | inr e => p' = p /\ (e = -1 /\ (PIPE_MAX_CAPACITY < want)%nat \/
                          e = -16 /\ (want < count p)%nat)
    end.
Proof.
  intros [H1 H2 H3 H4]. destruct pipe_constants as (C1 & C2 & C3 & C4). unfold set_capacity.
  destruct (round_capacity_spec 16 PIPE_BUF_SIZE want) as [(c & E & R1 & R2 & R3 & R4)|[E R1]];
    [lia|exact C4|exact C2|exact C1| |].
  2: { rewrite E. exists (inr (-1)), p. split; [done|]. split; [done|]. by left. }
  rewrite E. destruct (Nat.ltb_spec c (count p)) as [Hb|Hb].
  { exists (inr (-16)), p. split; [done|]. split; [done|]. right. split; [done|lia]. }
  set (f := fun i => buffer p !!! ((read_pos p + i) mod length (buffer p))%nat).
  destruct (fill_spec f (count p) 0 (replicate c 0)) as [F1 F2]; [by rewrite length_replicate|].
  rewrite length_replicate in F1. set (nb := fold_left _ _ _) in *. fold nb.
  exists (inl c), (with_ring nb 0 (count p mod c) (count p) p). split; [done|].
  assert (contents (with_ring nb 0 (count p mod c) (count p) p) = contents p) as Ec.
  { unfold contents, ring_bytes. cbn [with_ring buffer read_pos count]. rewrite F1.
    apply map_ext_in. intros i Hi%in_seq. rewrite Nat.add_0_l, Nat.mod_small by lia.
    rewrite F2, decide_True by lia. done. }
  split_and!; try exact R4; try lia; try done.
  split; unfold capacity; cbn [with_ring buffer read_pos count write_pos]; rewrite ?F1; [lia|lia|lia|done].
Qed.

(* ------------------------------------------------------------------ *)
(** ** A history of operations on one pipe *)

Inductive pipe_op := OpRead (len : nat) | OpWrite (data : list Z) | OpResize (want : nat).

(** The bytes read, the bytes accepted and the final pipe. *)
Fixpoint pipe_run (ops : list pipe_op) (p : Pipe) : option (list Z * list Z * Pipe) :=
  match ops with
  | [] => Some ([], [], p)
  | OpRead len :: ops =>
      let '(out, p) := read len p in
      match pipe_run ops p with
      | Some (outs, ins, p) => Some (out ++ outs, ins, p)
      | None => None
      end
  | OpWrite data :: ops =>
      let '(n, p) := write data p in
      match pipe_run ops p with
      | Some (outs, ins, p) => Some (outs, take n data ++ ins, p)
      | None => None
      end
  | OpResize want :: ops =>
      match set_capacity want p with
      | Some (_, p) => pipe_run ops p
      | None => None
      end
  end.

(** C26: a pipe is a first-in first-out byte stream. For any sequence of reads,
    writes and capacity changes, the bytes read followed by the bytes still
    buffered are exactly the bytes initially buffered followed by the bytes
    accepted from the writers, in order; nothing is lost, duplicated or
    reordered when the ring wraps or is resized, and every operation
    returns. *)
Theorem pipe_fifo (ops : list pipe_op) (p : Pipe) :
  pipe_ok p ->
  exists outs ins p', pipe_run ops p = Some (outs, ins, p') /\ pipe_ok p' /\
    outs ++ contents p' = contents p ++ ins /\ (length (contents p') <= capacity p')%nat.
Proof.
  revert p. induction ops as [|[len|data|want] ops IH]; intros p Hp; cbn [pipe_run].
  - exists [], [], p. split_and!; [done|done|by rewrite app_nil_r|].
    rewrite contents_length. apply Hp.
  - pose proof (read_spec len p Hp) as Hr. destruct (read len p) as [out p1].
    destruct Hr as (Hp1 & -> & Hc & _). destruct (IH p1 Hp1) as (outs & ins & p' & -> & H1 & H2 & H3).
    eexists _, _, p'. split_and!; [done|done| |done].
    rewrite <- app_assoc, H2, Hc, app_assoc. by rewrite take_drop.
  - pose proof (write_spec data p Hp) as Hw. destruct (write data p) as [n p1].
    destruct Hw as (Hp1 & _ & Hc & _). destruct (IH p1 Hp1) as (outs & ins & p' & -> & H1 & H2 & H3).
    eexists _, _, p'. split_and!; [done|done| |done]. by rewrite H2, Hc, app_assoc.
  - destruct (set_capacity_spec want p Hp) as (r & p1 & -> & Hr).
    assert (pipe_ok p1 /\ contents p1 = contents p) as [Hp1 Hc].
    { destruct r; [naive_solver|]. by destruct Hr as [-> _]. }
    destruct (IH p1 Hp1) as (outs & ins & p' & -> & H1 & H2 & H3).
    eexists _, _, p'. split_and!; [done|done| |done]. by rewrite H2, Hc.
Qed.

(** Resizing follows [F_SETPIPE_SZ]: the new capacity is the least
    doubling of a page that holds the request, a request beyond the maximum
    is refused with EPERM, one too small for the unread bytes with EBUSY, and
    in every case the unread bytes stay the same. *)
Theorem set_capacity_correct (want : nat) (p : Pipe) :
  pipe_ok p ->
  exists r p', set_capacity want p = Some (r, p') /\ pipe_ok p' /\ contents p' = contents p /\
    match r with
    | inl c => capacity p' = c /\ (want <= c)%nat /\
        (PIPE_BUF_SIZE <= c <= PIPE_MAX_CAPACITY)%nat /\ (c = PIPE_BUF_SIZE \/ c < 2 * want)%nat
    | inr e => p' = p /\ (e = -1 /\ (PIPE_MAX_CAPACITY < want)%nat \/
                          e = -16 /\ (want < count p)%nat)
    end.
Proof.
  intros Hp. destruct (set_capacity_spec want p Hp) as (r & p' & E & Hr).
  exists r, p'. split; [done|]. destruct r as [c|e].
  - destruct Hr as (? & ? & ? & ? & ? & ? & _). done.
  - destruct Hr as [-> Hr]. done.
Qed.

(* ------------------------------------------------------------------ *)
(** ** No thread stays parked on a ready pipe *)

Record pipe_wf (p : Pipe) : Prop := {
  wf_ring : pipe_ok p;
  wf_cap : (PIPE_BUF_SIZE <= capacity p)%nat;
  wf_writers : 0 <= writers p;
  wf_readers : 0 <= readers p
}.

(** A parked reader has nothing to read and a writer to wait for; a parked
    writer has unread bytes before it and a reader to wait for. *)
Definition reader_waits (l : list Pipe) (id : Z) : Prop :=
  exists p, find_pipe id l = Some p /\ count p = 0%nat /\ 0 < writers p.
Definition writer_waits (l : list Pipe) (id : Z) : Prop :=
  exists p, find_pipe id l = Some p /\ (0 < count p)%nat /\ 0 < readers p.

(** [deaf] and [dry] are pipes whose readers or writers may have been left on
    their lists. *)
Record psys_ok_but (deaf dry : gset Z) (s : PipeSys) : Prop := {
  ps_ids : NoDup (map pipe_id (PIPE_TABLE s));
  ps_fresh : Forall (fun p => pipe_id p < NEXT_PIPE_ID s) (PIPE_TABLE s);
  ps_wf : Forall pipe_wf (PIPE_TABLE s);
  ps_readers : forall id, id ∉ deaf -> parked (PIPE_READ_WAITERS s) id -> reader_waits (PIPE_TABLE s) id;
  ps_writers : forall id, id ∉ dry -> parked (PIPE_WRITE_WAITERS s) id -> writer_waits (PIPE_TABLE s) id
}.

(** One call on the pipe layer with the wakes that belong to it. A writer asks
    for at most [PIPE_BUF] bytes of room at once, as the write path does. *)
Inductive pipe_call : PipeSys -> PipeSys -> Prop :=
  | ps_create s : 0 <= NEXT_PIPE_ID s < U64_MAX -> pipe_call s (snd (create_pipe s))
  | ps_read id len s : pipe_call s (snd (pipe_read_and_wake id len s))
  | ps_write id data s : pipe_call s (snd (write_and_wake id data s))
  | ps_write_atomic id data s : pipe_call s (snd (atomic_write_and_wake id data s))
  | ps_add_writer id s : pipe_call s (pipe_add_writer id s)
  | ps_add_reader id s : pipe_call s (pipe_add_reader id s)
  | ps_close_writer id s : pipe_call s (pipe_close_writer id s)
  | ps_close_reader id s : pipe_call s (pipe_close_reader id s)
  | ps_set_capacity id want r s s' :
      pipe_set_capacity id want s = Some (r, s') -> pipe_call s s'
  | ps_wait_readable id tick s : pipe_call s (snd (wait_readable id tick s))
  | ps_wait_writable id need tick s :
      (need <= PIPE_BUF)%nat -> pipe_call s (snd (wait_writable id need tick s))
  | ps_cleanup_reader id t s : pipe_call s (waiter_cleanup_reader id t s)
  | ps_cleanup_writer id t s : pipe_call s (waiter_cleanup_writer id t s)
  | ps_schedule w s : pipe_call s (with_wk w s).

(** A run, with the pipes that were written to and read from without a wake. *)
Record PipeRun := mkPipeRun { psys : PipeSys; deaf : gset Z; dry : gset Z }.

(** Every call the kernel makes: those above; [pipe_write] alone, by sendfile
    and the native write; [pipe_read] alone, by the demos; and the inline
    drain of the console pipe. *)
Inductive pipe_step : PipeRun -> PipeRun -> Prop :=
  | ps_call s s' de dr : pipe_call s s' -> pipe_step (mkPipeRun s de dr) (mkPipeRun s' de dr)
  | ps_write_alone id data s de dr :
      pipe_step (mkPipeRun s de dr) (mkPipeRun (snd (pipe_write id data s)) ({[id]} ∪ de) dr)
  | ps_read_alone id len s de dr :
      pipe_step (mkPipeRun s de dr) (mkPipeRun (snd (pipe_read id len s)) de ({[id]} ∪ dr))
  | ps_drain_console id n s s' de dr :
      pipe_drain_console id s = Some (n, s') ->
      pipe_step (mkPipeRun s de dr) (mkPipeRun s' de ({[id]} ∪ dr)).

Section parking.
Context {deaf dry : gset Z}.
Abbreviation psys_ok := (psys_ok_but deaf dry).
Implicit Types (s : PipeSys) (id k : Z) (p : Pipe) (l : list Pipe).

Lemma find_pipe_some id l p :
  NoDup (map pipe_id l) -> find_pipe id l = Some p <-> p ∈ l /\ pipe_id p = id.
Proof. apply (find_key_some pipe_id). Qed.

Lemma find_update_pipe id k f l :
  (forall p, pipe_id (f p) = pipe_id p) ->
  find_pipe k (update_pipe id f l) = if k =? id then f <$> find_pipe id l else find_pipe k l.
Proof. apply (find_update_first pipe_id). Qed.

Lemma update_pipe_at id f l :
  update_pipe id f l = update_pipe id (fun p => if pipe_id p =? id then f p else p) l.
Proof.
  unfold update_pipe. induction l as [|p l IH]; simpl; [done|].
  destruct (pipe_id p =? id) eqn:E; [by rewrite ?E|by rewrite IH].
Qed.

(** Changing one pipe keeps the invariant when the threads still parked on it
    still have to wait. *)
Lemma update_pipe_keeps id f s s' :
  psys_ok s -> PIPE_TABLE s' = update_pipe id f (PIPE_TABLE s) ->
  NEXT_PIPE_ID s' = NEXT_PIPE_ID s ->
  (forall p, pipe_id p = id -> pipe_id (f p) = id) ->
  (forall p, find_pipe id (PIPE_TABLE s) = Some p -> pipe_wf p -> pipe_wf (f p)) ->
  (forall k, k ∉ deaf -> parked (PIPE_READ_WAITERS s') k -> parked (PIPE_READ_WAITERS s) k /\
     (k = id -> forall p, find_pipe id (PIPE_TABLE s) = Some p -> pipe_wf p ->
        count p = 0%nat -> 0 < writers p -> count (f p) = 0%nat /\ 0 < writers (f p))) ->
  (forall k, k ∉ dry -> parked (PIPE_WRITE_WAITERS s') k -> parked (PIPE_WRITE_WAITERS s) k /\
     (k = id -> forall p, find_pipe id (PIPE_TABLE s) = Some p -> pipe_wf p ->
        (0 < count p)%nat -> 0 < readers p -> (0 < count (f p))%nat /\ 0 < readers (f p))) ->
  psys_ok s'.
Proof.
  intros [H1 H2 H3 H4 H5] Et En Hid Hwf Hr Hw. rewrite update_pipe_at in Et.
  set (g := fun p => if pipe_id p =? id then f p else p) in *.
  assert (forall p, pipe_id (g p) = pipe_id p) as Hg.
  { intros p. unfold g. destruct (Z.eqb_spec (pipe_id p) id) as [E|]; [|done]. rewrite E. by apply Hid. }
  assert (forall p, find_pipe id (PIPE_TABLE s) = Some p -> g p = f p /\ pipe_wf p) as Hgf.
  { intros p [Hp E]%find_pipe_some; [|done]. unfold g. rewrite E, Z.eqb_refl.
    split; [done|]. by rewrite list.Forall_forall in H3; apply H3. }
  rewrite list.Forall_forall in H2, H3. split; rewrite ?Et, ?En.
  - unfold update_pipe. by rewrite (update_first_keys pipe_id).
  - apply list.Forall_forall. intros p Hp.
    apply (elem_of_update_first pipe_id) in Hp as (q & Hq & ->); [|done].
    case_match; [rewrite Hg|]; by apply H2.
  - apply list.Forall_forall. intros p Hp.
    apply (elem_of_update_first pipe_id) in Hp as (q & Hq & ->); [|done].
    destruct (Z.eqb_spec (pipe_id q) id); [|by apply H3].
    assert (find_pipe id (PIPE_TABLE s) = Some q) as Hf by (by apply find_pipe_some).
    destruct (Hgf q Hf) as [-> ?]. by apply Hwf.
  - intros k Hd Hk. destruct (Hr k Hd Hk) as [Hk' Hnew]. destruct (H4 k Hd Hk') as (p & Hf & Hc & Hwr).
    unfold reader_waits. rewrite find_update_pipe by done.
    destruct (Z.eqb_spec k id) as [->|]; [|by exists p].
    destruct (Hgf p Hf) as [Eg ?]. rewrite Hf. exists (g p). split; [done|]. rewrite Eg. by apply Hnew.
  - intros k Hd Hk. destruct (Hw k Hd Hk) as [Hk' Hnew]. destruct (H5 k Hd Hk') as (p & Hf & Hc & Hwr).
    unfold writer_waits. rewrite find_update_pipe by done.
    destruct (Z.eqb_spec k id) as [->|]; [|by exists p].
    destruct (Hgf p Hf) as [Eg ?]. rewrite Hf. exists (g p). split; [done|]. rewrite Eg. by apply Hnew.
Qed.

Lemma update_pipe_ok id f s s' :
  psys_ok s -> PIPE_TABLE s' = update_pipe id f (PIPE_TABLE s) ->
  NEXT_PIPE_ID s' = NEXT_PIPE_ID s ->
  (forall p, pipe_id p = id -> pipe_id (f p) = id) ->
  (forall p, find_pipe id (PIPE_TABLE s) = Some p -> pipe_wf p -> pipe_wf (f p)) ->
  (forall k, parked (PIPE_READ_WAITERS s') k -> parked (PIPE_READ_WAITERS s) k /\
     (k = id -> forall p, find_pipe id (PIPE_TABLE s) = Some p -> pipe_wf p ->
        count p = 0%nat -> 0 < writers p -> count (f p) = 0%nat /\ 0 < writers (f p))) ->
  (forall k, parked (PIPE_WRITE_WAITERS s') k -> parked (PIPE_WRITE_WAITERS s) k /\
     (k = id -> forall p, find_pipe id (PIPE_TABLE s) = Some p -> pipe_wf p ->
        (0 < count p)%nat -> 0 < readers p -> (0 < count (f p))%nat /\ 0 < readers (f p))) ->
  psys_ok s'.
Proof. intros ? ? ? ? ? Hr Hw. by apply (update_pipe_keeps id f s); [..|intros k _; apply Hr|intros k _; apply Hw]. Qed.

Lemma wake_readers_parked id s k :
  parked (PIPE_READ_WAITERS (wake_readers_all id s)) k <->
  k <> id /\ parked (PIPE_READ_WAITERS s) k.
Proof.
  unfold wake_readers_all. rewrite <- parked_drain.
  by destruct (drain_waiters id (PIPE_READ_WAITERS s)).
Qed.

Lemma wake_writers_parked id s k :
  parked (PIPE_WRITE_WAITERS (wake_writers_all id s)) k <->
  k <> id /\ parked (PIPE_WRITE_WAITERS s) k.
Proof.
  unfold wake_writers_all. rewrite <- parked_drain.
  by destruct (drain_waiters id (PIPE_WRITE_WAITERS s)).
Qed.

Lemma wake_readers_fields id s :
  let s' := wake_readers_all id s in
  PIPE_TABLE s' = PIPE_TABLE s /\ PIPE_WRITE_WAITERS s' = PIPE_WRITE_WAITERS s /\
  NEXT_PIPE_ID s' = NEXT_PIPE_ID s.
Proof. unfold wake_readers_all. by destruct (drain_waiters _ _). Qed.

Lemma wake_writers_fields id s :
  let s' := wake_writers_all id s in
  PIPE_TABLE s' = PIPE_TABLE s /\ PIPE_READ_WAITERS s' = PIPE_READ_WAITERS s /\
  NEXT_PIPE_ID s' = NEXT_PIPE_ID s.
Proof. unfold wake_writers_all. by destruct (drain_waiters _ _). Qed.

Lemma pipe_wf_eq p q :
  pipe_wf p -> pipe_ok q -> capacity q = capacity p -> writers q = writers p ->
  readers q = readers p -> pipe_wf q.
Proof. intros [H1 H2 H3 H4] ? Ec Ew Er. split; rewrite ?Ec, ?Ew, ?Er; done. Qed.

(** The pipe layer with nothing but the wake state changed. *)
Lemma same_tables_ok s s' :
  psys_ok s -> PIPE_TABLE s' = PIPE_TABLE s -> NEXT_PIPE_ID s' = NEXT_PIPE_ID s ->
  (forall k, parked (PIPE_READ_WAITERS s') k -> parked (PIPE_READ_WAITERS s) k \/ reader_waits (PIPE_TABLE s) k) ->
  (forall k, parked (PIPE_WRITE_WAITERS s') k -> parked (PIPE_WRITE_WAITERS s) k \/ writer_waits (PIPE_TABLE s) k) ->
  psys_ok s'.
Proof.
  intros [H1 H2 H3 H4 H5] Et En Hr Hw. split; rewrite ?Et, ?En; [done..| |].
  - intros k Hd Hk. destruct (Hr k Hk); auto.
  - intros k Hd Hk. destruct (Hw k Hk); auto.
Qed.

Lemma read_facts len q :
  pipe_wf q ->
  let q' := snd (read len q) in
  pipe_wf q' /\ count q' = (count q - len)%nat /\ readers q' = readers q /\ writers q' = writers q /\
  length (fst (read len q)) = Nat.min len (count q).
Proof.
  intros Hq. pose proof (read_spec len q (wf_ring _ Hq)) as H.
  destruct (read len q) as [out q']. destruct H as (? & -> & ? & ? & ? & ? & ? & ?). cbn [fst snd].
  split_and!; try done; [by eapply pipe_wf_eq|]. by rewrite length_take, contents_length.
Qed.

(** A drain: its wake may be left out for the pipes of [dry]. *)
Lemma read_table_ok id len s s' :
  psys_ok s ->
  PIPE_TABLE s' = update_pipe id (fun p => snd (read len p)) (PIPE_TABLE s) ->
  NEXT_PIPE_ID s' = NEXT_PIPE_ID s -> PIPE_READ_WAITERS s' = PIPE_READ_WAITERS s ->
  (forall k, k ∉ dry -> parked (PIPE_WRITE_WAITERS s') k -> parked (PIPE_WRITE_WAITERS s) k /\
     (k = id -> forall p, find_pipe id (PIPE_TABLE s) = Some p -> length (fst (read len p)) = 0%nat)) ->
  psys_ok s'.
Proof.
  intros Hs Et En Er Hw.
  apply (update_pipe_keeps id (fun p => snd (read len p)) s); [done|done|done| | | |].
  - intros q <-. unfold read. by destruct (read_loop _ _ _).
  - intros q _ Hq. apply (read_facts len q Hq).
  - intros k _. rewrite Er. intros Hk. split; [done|]. intros -> q _ Hq. destruct (read_facts len q Hq) as (_ & -> & _ & -> & _). lia.
  - intros k Hd Hk. destruct (Hw k Hd Hk) as [? H0]. split; [done|]. intros -> q Hf Hq.
    destruct (read_facts len q Hq) as (_ & -> & -> & _ & Hl). rewrite (H0 eq_refl q Hf) in Hl. lia.
Qed.

Lemma read_ok id len s : psys_ok s -> psys_ok (snd (pipe_read_and_wake id len s)).
Proof.
  intros Hs. unfold pipe_read_and_wake, pipe_read.
  destruct (find_pipe id (PIPE_TABLE s)) as [p|] eqn:Hf; [|done]. cbn [fst snd].
  set (s1 := with_TABLE _ _).
  destruct (Nat.ltb_spec 0 (length (fst (read len p)))) as [Hn|Hn].
  - destruct (wake_writers_fields id s1) as (Et & Er & En).
    apply (read_table_ok id len s); [done|by rewrite Et|by rewrite En|by rewrite Er|].
    intros k _ [Hne Hk]%wake_writers_parked. done.
  - apply (read_table_ok id len s); [done..|].
    intros k _ Hk. split; [done|]. intros -> q Hq. simplify_eq. lia.
Qed.

Lemma read_alone_ok id len s : id ∈ dry -> psys_ok s -> psys_ok (snd (pipe_read id len s)).
Proof.
  intros Hid Hs. unfold pipe_read. destruct (find_pipe id (PIPE_TABLE s)) as [p|] eqn:Hf; [|done]. cbn [snd].
  apply (read_table_ok id len s); [done..|]. intros k Hd Hk. split; [done|]. by intros ->.
Qed.

Lemma drain_console_ok fuel id total s n s' :
  id ∈ dry -> psys_ok s -> drain_console_loop fuel id total s = Some (n, s') -> psys_ok s'.
Proof.
  intros Hid. revert total s. induction fuel as [|fuel IH]; intros total s Hs; cbn [drain_console_loop]; [done|].
  pose proof (read_alone_ok id PIPE_BUF_SIZE s Hid Hs) as H1. repeat case_match; simplify_eq/=; try (by intros [= <- <-]); by apply IH.
Qed.

Lemma write_facts data q :
  pipe_wf q ->
  let q' := snd (write data q) in
  pipe_wf q' /\ count q' = (count q + fst (write data q))%nat /\
  readers q' = readers q /\ writers q' = writers q.
Proof.
  intros Hq. pose proof (write_spec data q (wf_ring _ Hq)) as H.
  destruct (write data q) as [n q']. destruct H as (? & -> & ? & ? & ? & ? & ? & ?). cbn [fst snd].
  split_and!; try done. by eapply pipe_wf_eq.
Qed.

Lemma write_table_ok id data s s' :
  psys_ok s ->
  PIPE_TABLE s' = update_pipe id (fun p => snd (write data p)) (PIPE_TABLE s) ->
  NEXT_PIPE_ID s' = NEXT_PIPE_ID s -> PIPE_WRITE_WAITERS s' = PIPE_WRITE_WAITERS s ->
  (forall k, k ∉ deaf -> parked (PIPE_READ_WAITERS s') k -> parked (PIPE_READ_WAITERS s) k /\
     (k = id -> forall p, find_pipe id (PIPE_TABLE s) = Some p -> fst (write data p) = 0%nat)) ->
  psys_ok s'.
Proof.
  intros Hs Et En Ew Hr.
  apply (update_pipe_keeps id (fun p => snd (write data p)) s); [done|done|done| | | |].
  - intros q <-. unfold write. by destruct (write_loop _ _ _).
  - intros q _ Hq. apply (write_facts data q Hq).
  - intros k Hd Hk. destruct (Hr k Hd Hk) as [? H0]. split; [done|]. intros -> q Hf Hq.
    destruct (write_facts data q Hq) as (_ & -> & _ & ->). rewrite (H0 eq_refl q Hf). lia.
  - intros k _. rewrite Ew. intros Hk. split; [done|]. intros -> q Hf Hq.
    destruct (write_facts data q Hq) as (_ & -> & -> & _). lia.
Qed.

Lemma write_ok id data s : psys_ok s -> psys_ok (snd (write_and_wake id data s)).
Proof.
  intros Hs. unfold write_and_wake, pipe_write.
  destruct (find_pipe id (PIPE_TABLE s)) as [p|] eqn:Hf; [|done]. cbn [fst snd].
  set (s1 := with_TABLE _ _).
  destruct (Nat.ltb_spec 0 (fst (write data p))) as [Hn|Hn].
  - destruct (wake_readers_fields id s1) as (Et & Er & En).
    apply (write_table_ok id data s); [done|by rewrite Et|by rewrite En|by rewrite Er|].
    intros k _ [Hne Hk]%wake_readers_parked. done.
  - apply (write_table_ok id data s); [done..|].
    intros k _ Hk. split; [done|]. intros -> q Hq. simplify_eq. lia.
Qed.

Lemma write_atomic_ok id data s : psys_ok s -> psys_ok (snd (atomic_write_and_wake id data s)).
Proof.
  intros Hs. unfold atomic_write_and_wake, pipe_write_atomic.
  destruct (find_pipe id (PIPE_TABLE s)) as [p|] eqn:Hf; [|done].
  destruct (space p <? length data)%nat; [done|]. cbn [fst snd].
  match goal with |- psys_ok (wake_readers_all _ ?x) =>
    destruct (wake_readers_fields id x) as (Et & Er & En) end.
  apply (write_table_ok id data s); [done|by rewrite Et|by rewrite En|by rewrite Er|].
  intros k _ [Hne Hk]%wake_readers_parked. done.
Qed.

Lemma write_alone_ok id data s : id ∈ deaf -> psys_ok s -> psys_ok (snd (pipe_write id data s)).
Proof.
  intros Hid Hs. unfold pipe_write. destruct (find_pipe id (PIPE_TABLE s)) as [p|] eqn:Hf; [|done]. cbn [snd].
  apply (write_table_ok id data s); [done..|]. intros k Hd Hk. split; [done|]. by intros ->.
Qed.

Lemma writers_ok id n s s' :
  psys_ok s ->
  PIPE_TABLE s' = update_pipe id (fun p => with_writers (n (writers p)) p) (PIPE_TABLE s) ->
  NEXT_PIPE_ID s' = NEXT_PIPE_ID s ->
  (forall w, 0 <= w -> 0 <= n w) ->
  (forall k, parked (PIPE_READ_WAITERS s') k -> parked (PIPE_READ_WAITERS s) k /\
     (k = id -> forall p, find_pipe id (PIPE_TABLE s) = Some p -> 0 < writers p -> 0 < n (writers p))) ->
  (forall k, parked (PIPE_WRITE_WAITERS s') k -> parked (PIPE_WRITE_WAITERS s) k) ->
  psys_ok s'.
Proof.
  intros Hs Et En Hn Hr Hw.
  apply (update_pipe_ok id (fun p => with_writers (n (writers p)) p) s); [done|done|done|done| | |].
  - intros q _ [[] ? ? ?]. split; cbn; auto. by split.
  - intros k Hk. destruct (Hr k Hk). naive_solver.
  - intros k Hk. split; [auto|]. done.
Qed.

Lemma close_writer_ok id s : psys_ok s -> psys_ok (pipe_close_writer id s).
Proof.
  intros Hs. unfold pipe_close_writer. set (s1 := with_TABLE _ _).
  destruct (wake_readers_fields id s1) as (Et & Er & En).
  destruct (wake_writers_fields id (wake_readers_all id s1)) as (Et' & Er' & En').
  destruct (match find_pipe id (PIPE_TABLE s) with Some p => _ | None => _ end) eqn:Hb.
  - apply (writers_ok id (fun w => sat_sub w 1) s);
      [done|by rewrite Et', Et|by rewrite En', En|unfold sat_sub; lia| |].
    + intros k. rewrite Er'. intros [Hne Hk]%wake_readers_parked. done.
    + intros k [Hne Hk]%wake_writers_parked. by rewrite Er in Hk.
  - apply (writers_ok id (fun w => sat_sub w 1) s); [done|done|done|unfold sat_sub; lia| |done].
    intros k Hk. split; [done|]. intros -> p Hp Hw. rewrite Hp in Hb.
    apply Z.eqb_neq in Hb. unfold sat_sub in *. lia.
Qed.

Lemma readers_update_ok id n s s' :
  psys_ok s ->
  PIPE_TABLE s' = update_pipe id (fun p => with_readers (n (readers p)) p) (PIPE_TABLE s) ->
  NEXT_PIPE_ID s' = NEXT_PIPE_ID s ->
  (forall w, 0 <= w -> 0 <= n w) ->
  (forall k, parked (PIPE_READ_WAITERS s') k -> parked (PIPE_READ_WAITERS s) k) ->
  (forall k, parked (PIPE_WRITE_WAITERS s') k -> parked (PIPE_WRITE_WAITERS s) k /\
     (k = id -> forall p, find_pipe id (PIPE_TABLE s) = Some p -> 0 < readers p -> 0 < n (readers p))) ->
  psys_ok s'.
Proof.
  intros Hs Et En Hn Hr Hw.
  apply (update_pipe_ok id (fun p => with_readers (n (readers p)) p) s); [done|done|done|done| | |].
  - intros q _ [[] ? ? ?]. split; cbn; auto. by split.
  - intros k Hk. split; [auto|]. done.
  - intros k Hk. destruct (Hw k Hk). naive_solver.
Qed.

(** Dropping the pipes nobody has open: no thread is parked on one. *)
Lemma drop_dead_ok s :
  psys_ok s ->
  psys_ok (with_TABLE (List.filter (fun p => (0 <? readers p) || (0 <? writers p)) (PIPE_TABLE s)) s).
Proof.
  intros [H1 H2 H3 H4 H5]. set (keep := fun p => (0 <? readers p) || (0 <? writers p)).
  assert (NoDup (map pipe_id (List.filter keep (PIPE_TABLE s)))) as Hn.
  { clear -H1. induction (PIPE_TABLE s) as [|p l IH]; simpl; [constructor|].
    apply list.NoDup_cons in H1 as [Hp Hl]. destruct (keep p); simpl; [|by apply IH].
    apply list.NoDup_cons. split; [|by apply IH]. contradict Hp.
    apply list_elem_of_In, in_map_iff in Hp as (q & <- & [Hq _]%filter_In).
    by apply list_elem_of_In, in_map. }
  assert (forall id p, find_pipe id (PIPE_TABLE s) = Some p -> keep p = true ->
    find_pipe id (List.filter keep (PIPE_TABLE s)) = Some p) as Hk.
  { intros id p [Hp E]%find_pipe_some Hp'; [|done]. apply find_pipe_some; [done|].
    split; [|done]. apply list_elem_of_In, filter_In. by rewrite <- list_elem_of_In. }
  assert (forall P : Pipe -> Prop, Forall P (PIPE_TABLE s) -> Forall P (List.filter keep (PIPE_TABLE s))) as Hall.
  { intros P HP. rewrite list.Forall_forall in *. intros p [Hp _]%list_elem_of_In%filter_In.
    apply HP. by apply list_elem_of_In. }
  split; cbn; auto.
  - intros id Hd Hp. destruct (H4 id Hd Hp) as (p & Hf & Hc & Hw). exists p. split; [|done].
    apply Hk; [done|]. unfold keep. lia.
  - intros id Hd Hp. destruct (H5 id Hd Hp) as (p & Hf & Hc & Hw). exists p. split; [|done].
    apply Hk; [done|]. unfold keep. lia.
Qed.

Lemma close_reader_ok id s : psys_ok s -> psys_ok (pipe_close_reader id s).
Proof.
  intros Hs. unfold pipe_close_reader.
  set (s1 := with_TABLE (update_pipe id (fun p => with_readers (sat_sub (readers p) 1) p)
               (PIPE_TABLE s)) s).
  set (keep := fun p => (0 <? readers p) || (0 <? writers p)).
  destruct (match find_pipe id (PIPE_TABLE s) with Some p => _ | None => _ end) eqn:Hb.
  - set (s2 := with_RW (delete id (PIPE_READ_WAITERS s)) (with_WW (delete id (PIPE_WRITE_WAITERS s)) s1)).
    assert (psys_ok s2) as H2.
    { apply (readers_update_ok id (fun r => sat_sub r 1) s); [done|done|done|unfold sat_sub; lia| |];
        intros k [Hne Hk]%parked_delete; done. }
    pose proof (drop_dead_ok s2 H2) as H3.
    match goal with |- psys_ok (wake_readers_all _ (wake_writers_all _ ?x)) => set (s3 := x) end.
    destruct (wake_writers_fields id s3) as (Et & Er & En).
    destruct (wake_readers_fields id (wake_writers_all id s3)) as (Et' & Er' & En').
    apply (same_tables_ok _ _ H3); [by rewrite Et', Et|by rewrite En', En| |].
    + intros k [Hne Hk]%wake_readers_parked. left. rewrite Er in Hk. by apply parked_delete.
    + intros k. rewrite Er'. intros [Hne Hk]%wake_writers_parked. left. by apply parked_delete.
  - apply (drop_dead_ok s1).
    apply (readers_update_ok id (fun r => sat_sub r 1) s); [done|done|done|unfold sat_sub; lia|done|].
    intros k Hk. split; [done|]. intros -> p Hp Hr. rewrite Hp in Hb.
    apply Z.eqb_neq in Hb. unfold sat_sub in *. lia.
Qed.

Lemma resize_ok id want r s s' :
  psys_ok s -> pipe_set_capacity id want s = Some (r, s') -> psys_ok s'.
Proof.
  intros Hs. unfold pipe_set_capacity.
  destruct (find_pipe id (PIPE_TABLE s)) as [p|] eqn:Hf; [|by intros [= <- <-]].
  assert (pipe_wf p /\ pipe_id p = id) as [Hp Hid].
  { apply find_pipe_some in Hf as [Hin E]; [|apply Hs]. split; [|done].
    pose proof (ps_wf _ _ _ Hs) as H. rewrite list.Forall_forall in H. by apply H. }
  destruct (set_capacity_spec want p (wf_ring _ Hp)) as (res & p' & -> & Hres).
  assert (pipe_wf p' /\ count p' = count p /\ readers p' = readers p /\ writers p' = writers p /\
    pipe_id p' = pipe_id p) as (Hwf & Hc & Hr & Hw & Hi).
  { destruct res as [c|e]; [|by destruct Hres as [-> _]].
    destruct Hres as (? & ? & ? & ? & ? & Hcap & ? & Er & Ew & ?). split_and!; try done.
    destruct Hp. split; [done|rewrite Hcap; lia|by rewrite Ew|by rewrite Er]. }
  set (s1 := with_TABLE _ s). intros [= <- <-].
  assert (psys_ok s1) as H1.
  { apply (update_pipe_ok id (fun _ => p') s); [done|done|done|by intros; rewrite Hi|done| |];
      intros k Hk; (split; [done|]); intros -> q Hq; simplify_eq; rewrite Hc, ?Hr, ?Hw; done. }
  destruct (match res with inl c => _ | inr _ => _ end); [|done].
  destruct (wake_writers_fields id s1) as (Et & Er & En).
  apply (same_tables_ok s1); [done|done|done| |].
  - intros k. rewrite Er. by left.
  - intros k [_ Hk]%wake_writers_parked. by left.
Qed.

Lemma wait_readable_ok id tick s : psys_ok s -> psys_ok (snd (wait_readable id tick s)).
Proof.
  intros Hs. unfold wait_readable. destruct (find_pipe id (PIPE_TABLE s)) as [p|] eqn:Hf; [|done].
  destruct (has_data p || writer_closed p) eqn:Hb; [done|].
  pose proof (parked_park id tick (PIPE_READ_WAITERS s) (wk s)) as Hk.
  destruct (park _ _ _ _) as [m w]. apply (same_tables_ok s); [done|done|done| |by left].
  intros k [->|H]%Hk; [right|by left]. exists p. split; [done|].
  apply orb_false_iff in Hb as [Hd Hw]. unfold has_data, writer_closed in *.
  assert (0 <= writers p).
  { apply find_pipe_some in Hf as [Hin _]; [|apply Hs].
    pose proof (ps_wf _ _ _ Hs) as H. rewrite list.Forall_forall in H. by apply H. }
  apply Nat.ltb_ge in Hd. lia.
Qed.

Lemma wait_writable_ok id need tick s :
  psys_ok s -> (need <= PIPE_BUF)%nat -> psys_ok (snd (wait_writable id need tick s)).
Proof.
  intros Hs Hneed. unfold wait_writable.
  destruct (find_pipe id (PIPE_TABLE s)) as [p|] eqn:Hf; [|done].
  destruct ((need <=? space p)%nat || (readers p =? 0)) eqn:Hb; [done|].
  pose proof (parked_park id tick (PIPE_WRITE_WAITERS s) (wk s)) as Hk.
  destruct (park _ _ _ _) as [m w]. apply (same_tables_ok s); [done|done|done|by left|].
  intros k [->|H]%Hk; [right|by left]. exists p. split; [done|].
  apply orb_false_iff in Hb as [Hd Hw]. apply Nat.leb_gt in Hd. unfold space, PIPE_BUF in *.
  assert (pipe_wf p) as [_ Hcap _ Hr].
  { apply find_pipe_some in Hf as [Hin _]; [|apply Hs].
    pose proof (ps_wf _ _ _ Hs) as H. rewrite list.Forall_forall in H. by apply H. }
  unfold capacity in Hcap. lia.
Qed.

Lemma pipe_new_wf id : pipe_wf (pipe_new id).
Proof.
  destruct pipe_constants as (_ & _ & H & _).
  split; [split|..]; unfold capacity; cbn; rewrite ?length_replicate; try lia.
  by rewrite Nat.Div0.mod_0_l.
Qed.

Lemma pipe_create_ok s : psys_ok s -> 0 <= NEXT_PIPE_ID s < U64_MAX -> psys_ok (snd (create_pipe s)).
Proof.
  intros [H1 H2 H3 H4 H5] Hlt. unfold create_pipe. cbn [snd].
  set (id := NEXT_PIPE_ID s) in *.
  assert (forall k p, find_pipe k (PIPE_TABLE s) = Some p ->
    find_pipe k (PIPE_TABLE s ++ [pipe_new id]) = Some p) as Hk.
  { intros k p. unfold find_pipe. generalize (PIPE_TABLE s). intros l.
    induction l as [|q l IH]; simpl; [done|]. by destruct (pipe_id q =? k). }
  split; cbn [PIPE_TABLE NEXT_PIPE_ID PIPE_READ_WAITERS PIPE_WRITE_WAITERS].
  - rewrite map_app. apply list.NoDup_app. split_and!; [done| |apply NoDup_singleton].
    intros k Hin ->%list_elem_of_singleton. apply list_elem_of_In, in_map_iff in Hin as (p & E & Hp).
    rewrite list.Forall_forall in H2. apply list_elem_of_In, H2 in Hp. cbn in E. lia.
  - rewrite add64_small by lia. apply list.Forall_app. split; [|apply Forall_singleton; cbn; lia].
    eapply list.Forall_impl; [exact H2|]. intros p. cbn beta. lia.
  - apply list.Forall_app. split; [done|]. apply Forall_singleton, pipe_new_wf.
  - intros k Hd Hp. destruct (H4 k Hd Hp) as (p & Hf & ?). exists p. split; [by apply Hk|done].
  - intros k Hd Hp. destruct (H5 k Hd Hp) as (p & Hf & ?). exists p. split; [by apply Hk|done].
Qed.

Lemma pipe_call_ok s s' : pipe_call s s' -> psys_ok s -> psys_ok s'.
Proof.
  destruct 1 as [s|id len s|id data s|id data s|id s|id s|id s|id s|id want r s s'|id t s|id n t s|id t s
    |id t s|w s]; intros Hs.
  - by apply pipe_create_ok.
  - by apply read_ok.
  - by apply write_ok.
  - by apply write_atomic_ok.
  - apply (writers_ok id (fun w => sat_add32 w 1) s); [done..|unfold sat_add32, U32_MAX; lia| |done].
    intros k Hk. split; [done|]. intros _ p _ Hw. unfold sat_add32, U32_MAX. lia.
  - apply (readers_update_ok id (fun w => sat_add32 w 1) s); [done..|unfold sat_add32, U32_MAX; lia|done|].
    intros k Hk. split; [done|]. intros _ p _ Hw. unfold sat_add32, U32_MAX. lia.
  - by apply close_writer_ok.
  - by apply close_reader_ok.
  - by eapply resize_ok.
  - by apply wait_readable_ok.
  - by apply wait_writable_ok.
  - apply (same_tables_ok s); [done..| |by left]. intros k Hk%parked_cleanup. by left.
  - apply (same_tables_ok s); [done..|by left|]. intros k Hk%parked_cleanup. by left.
  - apply (same_tables_ok s); [done..|by left|by left].
Qed.
End parking.

Definition pipe_boot (w : Wake) : PipeSys := mkPipeSys [] ∅ ∅ 1 w.

Lemma pipe_boot_ok de dr w : psys_ok_but de dr (pipe_boot w).
Proof.
  split; try constructor; intros id _ (x & Hx & _); cbn in Hx; by rewrite lookup_empty in Hx.
Qed.

Lemma psys_ok_mono de dr de' dr' s : de ⊆ de' -> dr ⊆ dr' -> psys_ok_but de dr s -> psys_ok_but de' dr' s.
Proof. intros Hde Hdr [H1 H2 H3 H4 H5]. split; [done..| |]; intros id Hid; [apply H4|apply H5]; set_solver. Qed.

Definition pipe_run_ok (x : PipeRun) : Prop := psys_ok_but (deaf x) (dry x) (psys x).

Lemma pipe_step_ok x x' : pipe_step x x' -> pipe_run_ok x -> pipe_run_ok x'.
Proof.
  unfold pipe_run_ok. destruct 1 as [s s' de dr Hc|id data s de dr|id len s de dr|id n s s' de dr Hd]; cbn; intros Hs.
  - by apply (pipe_call_ok s).
  - apply write_alone_ok; [set_solver|]. by apply (psys_ok_mono de dr); [set_solver..|].
  - apply read_alone_ok; [set_solver|]. by apply (psys_ok_mono de dr); [set_solver..|].
  - apply (drain_console_ok 258 id 0 s n); [set_solver| |done]. by apply (psys_ok_mono de dr); [set_solver..|].
Qed.

Lemma pipe_steps_ok x x' : rtc pipe_step x x' -> pipe_run_ok x -> pipe_run_ok x'.
Proof. induction 1; eauto using pipe_step_ok. Qed.

(** C27: no pipe wake-up is lost, after any sequence of pipe calls from boot.
    On a pipe that has not been written to without a wake, a thread still on
    the read list has an empty pipe with a live writer before it; on one that
    has not been read without a wake, a thread still on the write list has
    unread bytes and a live reader before it. So every deposit, drain, resize
    and close that goes with its wake and makes a pipe ready has emptied the
    list of the side it makes ready. The other calls are steps too, and mark
    the pipe: [pipe_write] alone (sendfile, the native write;
    [pipe_write_alone_strands_reader]), [pipe_read] alone (the demos) and
    [pipe_drain_console] ([drain_console_strands_writer]). Pipe identifiers do
    not run out, and a writer waits for at most [PIPE_BUF] bytes of room, as
    the write path does. *)
Theorem no_lost_pipe_wakeup (w : Wake) (x : PipeRun) (id : Z) :
  rtc pipe_step (mkPipeRun (pipe_boot w) ∅ ∅) x ->
  (id ∉ deaf x -> parked (PIPE_READ_WAITERS (psys x)) id ->
     pipe_has_data id (psys x) = false /\ pipe_is_eof id (psys x) = false /\ pipe_writer_closed id (psys x) = false) /\
  (id ∉ dry x -> parked (PIPE_WRITE_WAITERS (psys x)) id ->
     pipe_has_data id (psys x) = true /\ pipe_reader_closed id (psys x) = false).
Proof.
  intros Hs. pose proof (pipe_steps_ok _ _ Hs (pipe_boot_ok _ _ w)) as Hok.
  unfold pipe_has_data, pipe_is_eof, pipe_writer_closed, pipe_reader_closed, pipe_query,
    has_data, is_eof, writer_closed, reader_closed. split; intros Hid.
  - intros (p & -> & Hc & Hw)%(ps_readers _ _ _ Hok); [|done]. rewrite Hc, (proj2 (Z.eqb_neq _ _)) by lia. done.
  - intros (p & -> & Hc & Hw)%(ps_writers _ _ _ Hok); [|done]. rewrite (proj2 (Nat.ltb_lt _ _)) by done. lia.
Qed.

(** A deposit of the atomic path is all or nothing: with room for the
    whole message it appends exactly the message and leaves every other pipe
    alone, without room (or without the pipe) it changes nothing, so messages
    of two writers never interleave. *)
Theorem pipe_write_atomic_correct (id : Z) (data : list Z) (s : PipeSys) :
  NoDup (map pipe_id (PIPE_TABLE s)) -> Forall pipe_ok (PIPE_TABLE s) ->
  let '(r, s') := pipe_write_atomic id data s in
  match r with
  | AtomicGone => s' = s /\ find_pipe id (PIPE_TABLE s) = None
  | AtomicNoSpace => s' = s /\ (pipe_space id s < length data)%nat
  | Wrote => exists p p', find_pipe id (PIPE_TABLE s) = Some p /\
      find_pipe id (PIPE_TABLE s') = Some p' /\ pipe_ok p' /\
      contents p' = contents p ++ data /\
      (forall k, k <> id -> find_pipe k (PIPE_TABLE s') = find_pipe k (PIPE_TABLE s)) /\
      map pipe_id (PIPE_TABLE s') = map pipe_id (PIPE_TABLE s)
  end.
Proof.
  intros Hn Hok. unfold pipe_write_atomic, pipe_space, pipe_query.
  destruct (find_pipe id (PIPE_TABLE s)) as [p|] eqn:Hf; [|done].
  destruct (Nat.ltb_spec (space p) (length data)) as [Hsp|Hsp]; [done|].
  assert (forall q, pipe_id (snd (write data q)) = pipe_id q) as Hid.
  { intros q. unfold write. by destruct (write_loop _ _ _). }
  assert (pipe_ok p) as Hp.
  { rewrite list.Forall_forall in Hok. apply Hok. by apply find_pipe_some in Hf as [? _]. }
  pose proof (write_spec data p Hp) as Hw. exists p, (snd (write data p)).
  cbn [PIPE_TABLE with_TABLE]. rewrite find_update_pipe, Z.eqb_refl, Hf by done.
  destruct (write data p) as [n p'] eqn:E. destruct Hw as (H1 & -> & H2 & _). cbn [snd].
  split_and!; [done|cbn; by rewrite E|done| | |].
  - rewrite H2, Nat.min_l by done. by rewrite firstn_all.
  - intros k Hk. rewrite find_update_pipe by done. by rewrite (proj2 (Z.eqb_neq _ _)).
  - by apply (update_first_keys pipe_id).
Qed.

Lemma drain_console_loop_spec fuel id total s p :
  find_pipe id (PIPE_TABLE s) = Some p -> pipe_ok p -> (count p < fuel * PIPE_BUF_SIZE)%nat ->
  exists s' p', drain_console_loop fuel id total s = Some ((total + count p)%nat, s') /\
    find_pipe id (PIPE_TABLE s') = Some p' /\ pipe_ok p' /\ contents p' = [].
Proof.
  destruct pipe_constants as (_ & _ & Hc & _).
  revert total s p. induction fuel as [|fuel IH]; intros total s p Hf Hp Hlt; [lia|].
  cbn [drain_console_loop]. unfold pipe_read. rewrite Hf.
  pose proof (read_spec PIPE_BUF_SIZE p Hp) as Hr.
  destruct (read PIPE_BUF_SIZE p) as [out p1] eqn:E. destruct Hr as (H1 & -> & H2 & H3 & H4 & _).
  set (s1 := with_TABLE _ s).
  assert (find_pipe id (PIPE_TABLE s1) = Some p1) as Hf1.
  { unfold s1. cbn [PIPE_TABLE with_TABLE]. rewrite find_update_pipe, Z.eqb_refl, Hf.
    - cbn. by rewrite E.
    - intros q. unfold read. by destruct (read_loop _ _ _). }
  cbn [fst]. rewrite length_take, contents_length.
  destruct (Nat.eqb_spec (Nat.min PIPE_BUF_SIZE (count p)) 0) as [E0|E0].
  { exists s1, p1. split_and!; [do 2 f_equal; lia|done|done|]. apply nil_length_inv.
    rewrite contents_length. lia. }
  destruct (Nat.ltb_spec (Nat.min PIPE_BUF_SIZE (count p)) PIPE_BUF_SIZE) as [El|El].
  { exists s1, p1. split_and!; [do 2 f_equal; lia|done|done|]. apply nil_length_inv.
    rewrite contents_length. lia. }
  destruct (IH (total + Nat.min PIPE_BUF_SIZE (count p))%nat s1 p1 Hf1 H1 ltac:(lia))
    as (s' & p' & -> & ?). exists s', p'. split; [do 2 f_equal; lia|done].
Qed.

(** The console drain returns for every pipe the kernel can hold, having
    taken every unread byte. *)
Theorem pipe_drain_console_total (id : Z) (s : PipeSys) (p : Pipe) :
  find_pipe id (PIPE_TABLE s) = Some p -> pipe_ok p -> (capacity p <= PIPE_MAX_CAPACITY)%nat ->
  exists s' p', pipe_drain_console id s = Some (count p, s') /\
    find_pipe id (PIPE_TABLE s') = Some p' /\ pipe_ok p' /\ contents p' = [].
Proof.
  intros Hf Hp Hm. pose proof (ring_count _ Hp). pose proof pipe_max_pages as E.
  destruct pipe_constants as (_ & _ & Hc & _).
  assert (count p < 258 * PIPE_BUF_SIZE)%nat as Hlt by lia.
  destruct (drain_console_loop_spec 258 id 0 s p Hf Hp Hlt) as (s' & p' & Hd & ?).
  exists s', p'. split; [exact Hd|assumption].
Qed.

(* ------------------------------------------------------------------ *)
(** ** Concrete runs *)

(** A ring of four bytes whose two unread bytes wrap around its end. *)
Definition small_pipe : Pipe := mkPipe 1 [22; 0; 0; 11] 3 1 2 1 1 false.
Definition demo_wake : Wake :=
  mkWake [mkThread 7 Running 0 8 false; mkThread 9 Running 0 8 false] 7 [] (replicate 12 0) 0 0 0.

Lemma small_pipe_ok : pipe_ok small_pipe.
Proof. split; cbn; [lia..|reflexivity]. Qed.

Lemma pipe_fifo_witness :
  contents small_pipe = [11; 22] /\
  exists outs ins p',
    pipe_run [OpWrite [33; 44; 55]; OpRead 3; OpResize 5000; OpWrite [66]] small_pipe
      = Some (outs, ins, p') /\ pipe_ok p' /\
    outs ++ contents p' = contents small_pipe ++ ins /\ (length (contents p') <= capacity p')%nat.
Proof. split; [reflexivity|]. exact (pipe_fifo _ small_pipe small_pipe_ok). Defined.

Lemma set_capacity_correct_witness :
  exists r p', set_capacity 5000 small_pipe = Some (r, p') /\ pipe_ok p' /\
    contents p' = contents small_pipe /\
    match r with
    | inl c => capacity p' = c /\ (5000 <= c)%nat /\
        (PIPE_BUF_SIZE <= c <= PIPE_MAX_CAPACITY)%nat /\ (c = PIPE_BUF_SIZE \/ c < 2 * 5000)%nat
    | inr e => p' = small_pipe /\ (e = -1 /\ (PIPE_MAX_CAPACITY < 5000)%nat \/
                          e = -16 /\ (5000 < count small_pipe)%nat)
    end.
Proof. exact (set_capacity_correct 5000 small_pipe small_pipe_ok). Defined.

(** Thread 7 creates a pipe and blocks reading it. *)
Definition demo_parked : PipeSys :=
  snd (wait_readable 1 U64_MAX (snd (create_pipe (pipe_boot demo_wake)))).

(** Another pipe is written to without a wake. *)
Definition demo_run : PipeRun := mkPipeRun (snd (pipe_write 2 [5] demo_parked)) ({[2]} ∪ ∅) ∅.

Lemma demo_run_reachable : rtc pipe_step (mkPipeRun (pipe_boot demo_wake) ∅ ∅) demo_run.
Proof.
  eapply rtc_l; [apply ps_call, ps_create; cbn; unfold U64_MAX; lia|]. eapply rtc_l; [apply ps_call, (ps_wait_readable 1 U64_MAX)|].
  eapply rtc_l; [apply ps_write_alone|apply rtc_refl].
Qed.

Lemma demo_run_waiters : PIPE_READ_WAITERS (psys demo_run) !! 1 = Some [7].
Proof. vm_compute. reflexivity. Qed.

Lemma no_lost_pipe_wakeup_witness :
  parked (PIPE_READ_WAITERS (psys demo_run)) 1 /\ pipe_has_data 1 (psys demo_run) = false /\
  pipe_is_eof 1 (psys demo_run) = false /\ pipe_writer_closed 1 (psys demo_run) = false.
Proof.
  assert (parked (PIPE_READ_WAITERS (psys demo_run)) 1) as H by (exists [7]; split; [exact demo_run_waiters|done]).
  assert (1 ∉ deaf demo_run) as Hd by (unfold demo_run; cbn [deaf]; set_solver).
  split; [exact H|]. exact (proj1 (no_lost_pipe_wakeup demo_wake demo_run 1 demo_run_reachable) Hd H).
Defined.

Definition small_sys : PipeSys := mkPipeSys [small_pipe] ∅ ∅ 2 demo_wake.

Lemma pipe_write_atomic_correct_witness :
  exists p p', find_pipe 1 (PIPE_TABLE small_sys) = Some p /\
    find_pipe 1 (PIPE_TABLE (snd (pipe_write_atomic 1 [5; 6] small_sys))) = Some p' /\
    contents p' = contents p ++ [5; 6].
Proof.
  assert (NoDup (map pipe_id (PIPE_TABLE small_sys))) as Hn by apply NoDup_singleton.
  assert (Forall pipe_ok (PIPE_TABLE small_sys)) as Hf by (apply Forall_singleton, small_pipe_ok).
  pose proof (pipe_write_atomic_correct 1 [5; 6] small_sys Hn Hf) as H.
  destruct (pipe_write_atomic 1 [5; 6] small_sys) as [r s'] eqn:E.
  assert (r = Wrote) as -> by (apply (f_equal fst) in E; vm_compute in E; done).
  destruct H as (p & p' & H1 & H2 & _ & H3 & _). exists p, p'. done.
Defined.

Lemma pipe_drain_console_total_witness :
  exists s' p', pipe_drain_console 1 small_sys = Some (2%nat, s') /\
    find_pipe 1 (PIPE_TABLE s') = Some p' /\ pipe_ok p' /\ contents p' = [].
Proof.
  assert (capacity small_pipe <= PIPE_MAX_CAPACITY)%nat as Hc by (apply Nat.leb_le; vm_compute; reflexivity).
  exact (pipe_drain_console_total 1 small_sys small_pipe eq_refl small_pipe_ok Hc).
Defined.

(** A deposit without its wake, as [sendfile] and the native [write] call
    make it, leaves the reader parked on a pipe that now has data. *)
Lemma pipe_write_alone_strands_reader :
  let s := snd (pipe_write 1 [5] demo_parked) in
  parked (PIPE_READ_WAITERS s) 1 /\ pipe_has_data 1 s = true.
Proof. split; [exists [7]; split; [vm_compute; reflexivity|done]|vm_compute; reflexivity]. Qed.

(** Thread 7 waits without a deadline for more room than a pipe has; the drain
    of the console by another writer makes that room and leaves the thread
    where it is. *)
Definition demo_full : PipeSys := snd (wait_writable 1 3 U64_MAX small_sys).

Lemma drain_console_strands_writer :
  pipe_space 1 demo_full = 2%nat /\
  exists s, pipe_drain_console 1 demo_full = Some (2%nat, s) /\ pipe_space 1 s = 4%nat /\ parked (PIPE_WRITE_WAITERS s) 1.
Proof.
  split; [vm_compute; reflexivity|]. eexists. split; [vm_compute; reflexivity|]. split; [vm_compute; reflexivity|].
  exists [7]. split; [vm_compute; reflexivity|done].
Qed.
