(* ===== verification/EventFd.v ===== *)
(** The event counters of kernel/src/ipc/eventfd.rs: the slot table with its
    counters, reference counts and rise generations, the read and write
    primitives and the reader wait lists. Proved: the counter is conserved
    by any interleaving of reads and writes on any slots, the slot lives until
    its last close, and no reader stays parked on a readable or dead slot. *)

From S2P Require Import Prelude.
From S2P Require Import WaitList.

Definition MAX_EVENTFDS : nat := 64.
Definition EFD_SEMAPHORE : Z := 1.

Record EventFdEntry := mkEventFdEntry {
  counter : Z;
  flags : Z;
  in_use : bool;
  refs : Z;
  rise_seq : Z
}.

Definition entry_empty : EventFdEntry := mkEventFdEntry 0 0 false 0 0.
#[export] Instance entry_inhabited : Inhabited EventFdEntry := populate entry_empty.

Definition with_counter (c : Z) (e : EventFdEntry) : EventFdEntry :=
  mkEventFdEntry c (flags e) (in_use e) (refs e) (rise_seq e).
Definition with_refs (r : Z) (e : EventFdEntry) : EventFdEntry :=
  mkEventFdEntry (counter e) (flags e) (in_use e) r (rise_seq e).
Definition with_rise (c r : Z) (e : EventFdEntry) : EventFdEntry :=
  mkEventFdEntry c (flags e) (in_use e) (refs e) r.

Record EventFds := mkEventFds {
  TABLE : list EventFdEntry;
  EVENTFD_READ_WAITERS : gmap Z WaitList;
  wk : Wake
}.

Definition with_TABLE (t : list EventFdEntry) (s : EventFds) : EventFds :=
  mkEventFds t (EVENTFD_READ_WAITERS s) (wk s).
Definition with_waiters (m : gmap Z WaitList) (w : Wake) (s : EventFds) : EventFds :=
  mkEventFds (TABLE s) m w.

Inductive WaitOutcome := Ready | Enqueued | Gone.

(** [table.get(id as usize)], live slots only. *)
Definition live (id : Z) (s : EventFds) : option EventFdEntry :=
  match TABLE s !! Z.to_nat id with
  | Some e => if in_use e then Some e else None
  | None => None
  end.

Definition set_slot (id : Z) (e : EventFdEntry) (s : EventFds) : EventFds :=
  with_TABLE (<[Z.to_nat id := e]> (TABLE s)) s.

Definition create (initval fl : Z) (s : EventFds) : Z * EventFds :=
  match position (fun e => negb (in_use e)) (TABLE s) with
  | Some i =>
      let slot := TABLE s !!! i in
      (Z.of_nat i,
       with_TABLE (<[i := mkEventFdEntry initval fl true 1 (rise_seq slot)]> (TABLE s)) s)
  | None => (U64_MAX, s)
  end.

Definition inc_ref (id : Z) (s : EventFds) : EventFds :=
  match live id s with
  | Some slot => set_slot id (with_refs (sat_add32 (refs slot) 1) slot) s
  | None => s
  end.

Definition is_semaphore (e : EventFdEntry) : bool := negb (flags e .& EFD_SEMAPHORE =? 0).

(** The value or the negated errno. *)
Definition try_read (id : Z) (s : EventFds) : (Z + Z) * EventFds :=
  match live id s with
  | None => (inr (-9), s)
  | Some slot =>
      if counter slot =? 0 then (inr (-11), s)
      else
        let v := counter slot in
        (inl v, set_slot id
          (with_counter (if is_semaphore slot then sub64 (counter slot) 1 else 0) slot) s)
  end.

Definition peek_counter (id : Z) (s : EventFds) : option Z := counter <$> live id s.
Definition get_rise_seq (id : Z) (s : EventFds) : option Z := rise_seq <$> live id s.
Definition is_readable (id : Z) (s : EventFds) : bool :=
  match live id s with Some e => 0 <? counter e | None => false end.

Definition write (id val : Z) (s : EventFds) : (unit + Z) * EventFds :=
  match live id s with
  | None => (inr (-9), s)
  | Some slot =>
      if sub64 (U64_MAX - 1) (counter slot) <? val then (inr (-27), s)
      else
        let was_zero := counter slot =? 0 in
        let rise := if was_zero && (0 <? val) then add64 (rise_seq slot) 1 else rise_seq slot in
        (inl tt, set_slot id (with_rise (add64 (counter slot) val) rise slot) s)
  end.

Definition wake_readers_all (id : Z) (s : EventFds) : EventFds :=
  let '(drained, m) := drain_waiters id (EVENTFD_READ_WAITERS s) in
  with_waiters m (ring_poll_bell_for BellEventfd (wake_all drained (wk s))) s.

Definition close (id : Z) (s : EventFds) : EventFds :=
  match live id s with
  | Some slot =>
      if 1 <? refs slot then set_slot id (with_refs (refs slot - 1) slot) s
      else wake_readers_all id (set_slot id entry_empty s)
  | None => s
  end.

Definition wait_readable (id wake_tick : Z) (s : EventFds) : WaitOutcome * EventFds :=
  match live id s with
  | None => (Gone, s)
  | Some slot =>
      if 0 <? counter slot then (Ready, s)
      else
        let '(m, w) := park id wake_tick (EVENTFD_READ_WAITERS s) (wk s) in
        (Enqueued, with_waiters m w s)
  end.

Definition waiter_cleanup (id t : Z) (s : EventFds) : EventFds :=
  with_waiters (cleanup id t (EVENTFD_READ_WAITERS s)) (wk s) s.

(** [write(2)] on an event descriptor: the post and the wake that follows it,
    with the byte count or errno. *)
Definition sys_write (id val : Z) (s : EventFds) : Z * EventFds :=
  match write id val s with
  | (inl _, s) => (8, wake_readers_all id s)
  | (inr e, s) => (e, s)
  end.

(* ------------------------------------------------------------------ *)
(** ** Slots *)

Definition efd_boot (w : Wake) : EventFds :=
  mkEventFds (replicate MAX_EVENTFDS entry_empty) ∅ w.

(** Counters stay below the reserved value, free slots are blank, live slots
    are referenced. *)
Record entry_ok (e : EventFdEntry) : Prop := {
  eo_counter : 0 <= counter e <= U64_MAX - 1;
  eo_refs : if in_use e then 1 <= refs e <= U32_MAX else e = entry_empty
}.

Section slots.
Implicit Types (s : EventFds) (id k : Z) (e : EventFdEntry).

Lemma live_some id s e :
  live id s = Some e <-> TABLE s !! Z.to_nat id = Some e /\ in_use e = true.
Proof.
  unfold live. destruct (TABLE s !! Z.to_nat id) as [e'|]; [|naive_solver].
  destruct (in_use e') eqn:E; split; [naive_solver..|done|]. intros [[= ->] ?]. congruence.
Qed.

Lemma live_set_slot id k e s :
  0 <= id -> 0 <= k -> is_Some (live id s) ->
  live k (set_slot id e s) = if k =? id then (if in_use e then Some e else None) else live k s.
Proof.
  intros Hid Hk [e' [He' _]%live_some]. unfold live, set_slot. cbn [TABLE with_TABLE].
  destruct (Z.eqb_spec k id) as [->|Hne].
  - rewrite list_lookup_insert_eq; [done|]. by apply lookup_lt_Some in He'.
  - rewrite list_lookup_insert_ne by lia. done.
Qed.

Lemma live_ok id s e : Forall entry_ok (TABLE s) -> live id s = Some e -> entry_ok e /\ in_use e = true.
Proof. intros H [He Hu]%live_some. split; [|done]. by eapply Forall_lookup_1. Qed.

Lemma efd_set_slot_ok id e s :
  Forall entry_ok (TABLE s) -> entry_ok e -> Forall entry_ok (TABLE (set_slot id e s)).
Proof. intros. by apply Forall_insert. Qed.

Lemma try_read_cases id s :
  match live id s with
  | None => try_read id s = (inr (-9), s)
  | Some e =>
      (counter e = 0 /\ try_read id s = (inr (-11), s)) \/
      (counter e <> 0 /\ try_read id s =
        (inl (counter e), set_slot id (with_counter
          (if is_semaphore e then sub64 (counter e) 1 else 0) e) s))
  end.
Proof.
  unfold try_read. destruct (live id s) as [e|]; [|done].
  destruct (Z.eqb_spec (counter e) 0); [left|right]; done.
Qed.

Lemma write_cases id val s :
  Forall entry_ok (TABLE s) -> 0 <= val ->
  match live id s with
  | None => write id val s = (inr (-9), s)
  | Some e =>
      (U64_MAX - 1 < counter e + val /\ write id val s = (inr (-27), s)) \/
      (counter e + val <= U64_MAX - 1 /\ write id val s =
        (inl tt, set_slot id (with_rise (counter e + val)
          (if (counter e =? 0) && (0 <? val) then add64 (rise_seq e) 1 else rise_seq e) e) s))
  end.
Proof.
  intros Hok Hv. unfold write. destruct (live id s) as [e|] eqn:E; [|done].
  destruct (live_ok _ _ _ Hok E) as [[Hc _] _].
  rewrite sub64_small by (unfold U64_MAX in *; lia).
  destruct (Z.ltb_spec (U64_MAX - 1 - counter e) val); [left; split; [lia|done]|right].
  split; [lia|]. by rewrite add64_small by (unfold U64_MAX in *; lia).
Qed.
End slots.

(* ------------------------------------------------------------------ *)
(** ** Conservation *)

Inductive efd_op := ERead (id : Z) | EWrite (id val : Z).

Definition op_ok (o : efd_op) : Prop :=
  match o with ERead id => 0 <= id | EWrite id val => 0 <= id /\ 0 <= val end.

(** One operation with the value it moved: taken out by a successful read,
    put in by an accepted write, 0 on error. *)
Definition efd_exec (o : efd_op) (s : EventFds) : Z * EventFds :=
  match o with
  | ERead id => let '(r, s) := try_read id s in (match r with inl v => v | inr _ => 0 end, s)
  | EWrite id val => let '(r, s) := write id val s in (match r with inl _ => val | inr _ => 0 end, s)
  end.

Fixpoint efd_run (ops : list efd_op) (s : EventFds) : list (efd_op * Z) * EventFds :=
  match ops with
  | [] => ([], s)
  | o :: ops => let '(v, s) := efd_exec o s in let '(tr, s) := efd_run ops s in ((o, v) :: tr, s)
  end.

Definition sum_of (f : efd_op * Z -> Z) (tr : list (efd_op * Z)) : Z := foldr (fun ov a => f ov + a) 0 tr.

(** Of slot [k]: added by writes, taken by reads, and successful reads. *)
Definition put_in (k : Z) (ov : efd_op * Z) : Z :=
  match ov with (EWrite id _, v) => if id =? k then v else 0 | _ => 0 end.
Definition taken_out (k : Z) (ov : efd_op * Z) : Z :=
  match ov with (ERead id, v) => if id =? k then v else 0 | _ => 0 end.
Definition read_done (k : Z) (ov : efd_op * Z) : Z :=
  match ov with (ERead id, v) => if (id =? k) && negb (v =? 0) then 1 else 0 | _ => 0 end.

Lemma efd_exec_slot (o : efd_op) (s : EventFds) (k : Z) (e : EventFdEntry) :
  Forall entry_ok (TABLE s) -> op_ok o -> 0 <= k -> live k s = Some e ->
  let '(v, s') := efd_exec o s in
  Forall entry_ok (TABLE s') /\
  exists e', live k s' = Some e' /\ flags e' = flags e /\ refs e' = refs e /\
    rise_seq e' = (if (counter e =? 0) && negb (counter e' =? 0)
                   then add64 (rise_seq e) 1 else rise_seq e) /\
    counter e + put_in k (o, v) =
      counter e' + (if is_semaphore e then read_done k (o, v) else taken_out k (o, v)).
Proof.
  intros Hs Ho Hk He. destruct o as [id|id val]; cbn [efd_exec].
  - pose proof (try_read_cases id s) as Hc. simpl in Ho.
    destruct (live id s) as [ei|] eqn:Ei.
    2: { rewrite Hc. split; [done|]. exists e. split_and!; [done..|by destruct (counter e =? 0)|]. simpl.
         destruct (is_semaphore e), (id =? k); simpl; lia. }
    destruct (live_ok _ _ _ Hs Ei) as [[Hr1 Hr2] Hu]. rewrite Hu in Hr2.
    destruct Hc as [[E0 ->]|[E0 ->]].
    { split; [done|]. exists e. split_and!; [done..|by destruct (counter e =? 0)|]. simpl.
      destruct (is_semaphore e), (id =? k); simpl; lia. }
    rewrite sub64_small by (unfold U64_MAX in *; lia). split.
    { apply efd_set_slot_ok; [done|]. split; cbn; [destruct (is_semaphore ei); lia|by rewrite Hu]. }
    rewrite live_set_slot by (done || eauto). simpl. rewrite (Z.eqb_sym id k).
    destruct (Z.eqb_spec k id) as [->|Hne]; [|exists e; split_and!; [done..|by destruct (counter e =? 0)|]; simpl; destruct (is_semaphore e); lia].
    simplify_eq. rewrite Hu. exists (with_counter (if is_semaphore e then counter e - 1 else 0) e).
    rewrite (proj2 (Z.eqb_neq (counter e) 0)) by done. split_and!; [done..|]. simpl.
    destruct (is_semaphore e); lia.
  - destruct Ho as [Hid Hval]. pose proof (write_cases id val s Hs Hval) as Hc.
    destruct (live id s) as [ei|] eqn:Ei.
    2: { rewrite Hc. split; [done|]. exists e. split_and!; [done..|by destruct (counter e =? 0)|]. simpl.
         destruct (is_semaphore e), (id =? k); lia. }
    destruct (live_ok _ _ _ Hs Ei) as [[Hr1 Hr2] Hu]. rewrite Hu in Hr2.
    destruct Hc as [[E0 ->]|[E0 ->]].
    { split; [done|]. exists e. split_and!; [done..|by destruct (counter e =? 0)|]. simpl. destruct (is_semaphore e), (id =? k); lia. }
    split. { apply efd_set_slot_ok; [done|]. split; cbn; [lia|by rewrite Hu]. }
    rewrite live_set_slot by (done || eauto). simpl. rewrite (Z.eqb_sym id k).
    destruct (Z.eqb_spec k id) as [->|Hne]; [|exists e; split_and!; [done..|by destruct (counter e =? 0)|]; simpl; destruct (is_semaphore e); lia].
    simplify_eq. rewrite Hu. eexists. split_and!; [done|done|done| |].
    { simpl. destruct (Z.eqb_spec (counter e) 0) as [->|]; [|done]. rewrite Z.add_0_l.
      destruct (Z.ltb_spec 0 val), (Z.eqb_spec val 0); simpl; done || lia. }
    simpl. destruct (is_semaphore e); lia.
Qed.

(** An event counter is conserved. Over any interleaving of reads and
    writes on any slots, a slot's counter is its initial value plus what the
    accepted writes to it added, less what reads took: the values they
    returned, or one per successful read in semaphore mode. The counter never
    reaches the reserved maximum, and the slot's mode and references stay. *)
Theorem eventfd_conserved (ops : list efd_op) (s : EventFds) (k : Z) (e : EventFdEntry) :
  Forall entry_ok (TABLE s) -> Forall op_ok ops -> 0 <= k -> live k s = Some e ->
  let '(tr, s') := efd_run ops s in
  exists e', live k s' = Some e' /\ 0 <= counter e' <= U64_MAX - 1 /\
    flags e' = flags e /\ refs e' = refs e /\
    counter e + sum_of (put_in k) tr =
      counter e' + sum_of (if is_semaphore e then read_done k else taken_out k) tr.
Proof.
  intros Hs Hops Hk. revert s e Hs. induction Hops as [|o ops Ho Hops IH]; intros s e Hs He.
  { exists e. destruct (live_ok _ _ _ Hs He) as [[Hc _] _]. split_and!; [done|lia..|done|done|done]. }
  cbn [efd_run]. pose proof (efd_exec_slot o s k e Hs Ho Hk He) as H1.
  destruct (efd_exec o s) as [v s1]. destruct H1 as (Hs1 & e1 & He1 & Hf1 & Hr1 & _ & E1).
  specialize (IH s1 e1 Hs1 He1). destruct (efd_run ops s1) as [tr s'].
  destruct IH as (e' & He' & Hc' & Hf' & Hr' & E'). exists e'.
  split_and!; [done|lia..|congruence|congruence|]. cbn [sum_of foldr].
  assert (is_semaphore e1 = is_semaphore e) as Hsem by (unfold is_semaphore; by rewrite Hf1).
  rewrite Hsem in E'. unfold sum_of in *. destruct (is_semaphore e); lia.
Qed.

(** Was slot [k] at zero at some point of the run? *)
Fixpoint hits_zero (ops : list efd_op) (k : Z) (s : EventFds) : bool :=
  match live k s with Some e => counter e =? 0 | None => false end ||
  match ops with
  | [] => false
  | o :: ops => hits_zero ops k (snd (efd_exec o s))
  end.

(** The rise generation counts the zero-to-ready transitions. *)
Lemma efd_run_rises (ops : list efd_op) (s : EventFds) (k : Z) (e : EventFdEntry) :
  Forall entry_ok (TABLE s) -> Forall op_ok ops -> 0 <= k -> live k s = Some e ->
  exists e' n, live k (snd (efd_run ops s)) = Some e' /\ 0 <= n <= Z.of_nat (length ops) /\
    rise_seq e' = (if n =? 0 then rise_seq e else add64 (rise_seq e) n) /\
    (counter e' <> 0 -> hits_zero ops k s = (0 <? n)).
Proof.
  intros Hs Hops Hk. revert s e Hs. induction Hops as [|o ops Ho Hops IH]; intros s e Hs He.
  { exists e, 0. split_and!; [done|done|done|done|]. simpl. rewrite He. intros H.
    by rewrite (proj2 (Z.eqb_neq _ _)). }
  cbn [efd_run hits_zero]. pose proof (efd_exec_slot o s k e Hs Ho Hk He) as H1.
  destruct (efd_exec o s) as [v s1]. destruct H1 as (Hs1 & e1 & He1 & _ & _ & Hr1 & _).
  destruct (IH s1 e1 Hs1 He1) as (e' & n & He' & Hn & Hr & Hz). cbn [snd].
  destruct (efd_run ops s1) as [tr s']. cbn [snd] in *. rewrite He. cbn [length].
  exists e', (n + if (counter e =? 0) && negb (counter e1 =? 0) then 1 else 0).
  split_and!; [done|destruct ((counter e =? 0) && negb (counter e1 =? 0)); lia..| |].
  - rewrite Hr, Hr1. destruct ((counter e =? 0) && negb (counter e1 =? 0)).
    + rewrite (proj2 (Z.eqb_neq (n + 1) 0)) by lia. destruct (Z.eqb_spec n 0) as [->|]; [done|].
      unfold add64, wrap. rewrite Zplus_mod_idemp_l. f_equal. lia.
    + by rewrite Z.add_0_r.
  - intros Hc. rewrite (Hz Hc). destruct (Z.eqb_spec (counter e) 0) as [E|E]; simpl; [|by rewrite Z.add_0_r].
    destruct (Z.eqb_spec (counter e1) 0) as [E1|E1]; simpl; symmetry; apply Z.ltb_lt; [|lia].
    rewrite Z.add_0_r. apply Z.ltb_lt. rewrite <- (Hz Hc). destruct ops; cbn; by rewrite He1, E1.
Qed.

(* ------------------------------------------------------------------ *)
(** ** Parked readers and references *)

Record efds_ok (s : EventFds) : Prop := {
  ef_entries : Forall entry_ok (TABLE s);
  ef_parked : forall k, parked (EVENTFD_READ_WAITERS s) k ->
    0 <= k /\ exists e, live k s = Some e /\ counter e = 0
}.

Inductive efd_step : EventFds -> EventFds -> Prop :=
  | es_create v fl s : 0 <= v <= U64_MAX - 1 -> efd_step s (snd (create v fl s))
  | es_inc_ref id s : 0 <= id -> efd_step s (inc_ref id s)
  | es_read id s : 0 <= id -> efd_step s (snd (try_read id s))
  | es_write id v s : 0 <= id -> 0 <= v -> efd_step s (snd (sys_write id v s))
  | es_close id s : 0 <= id -> efd_step s (close id s)
  | es_wait id tick s : 0 <= id -> efd_step s (snd (wait_readable id tick s))
  | es_cleanup id t s : efd_step s (waiter_cleanup id t s)
  | es_schedule w s : efd_step s (with_waiters (EVENTFD_READ_WAITERS s) w s).

Section readers.
Implicit Types (s : EventFds) (id k : Z) (e : EventFdEntry).

Lemma wake_readers_ok id s :
  TABLE (wake_readers_all id s) = TABLE s /\
  forall k, parked (EVENTFD_READ_WAITERS (wake_readers_all id s)) k <->
    k <> id /\ parked (EVENTFD_READ_WAITERS s) k.
Proof.
  unfold wake_readers_all. pose proof (parked_drain id (EVENTFD_READ_WAITERS s)) as H.
  by destruct (drain_waiters _ _).
Qed.

(** Replacing a live slot keeps the invariant when whoever is still parked
    on it still finds it live and empty. *)
Lemma set_slot_efds_ok id e e' s s' :
  efds_ok s -> 0 <= id -> live id s = Some e -> entry_ok e' ->
  TABLE s' = TABLE (set_slot id e' s) ->
  (forall k, parked (EVENTFD_READ_WAITERS s') k -> parked (EVENTFD_READ_WAITERS s) k /\
     (k = id -> counter e = 0 -> in_use e' = true /\ counter e' = 0)) ->
  efds_ok s'.
Proof.
  intros [H1 H2] Hid He He' Et Hp.
  assert (forall k, live k s' = live k (set_slot id e' s)) as El.
  { intros k. unfold live. by rewrite Et. }
  split; [rewrite Et; by apply efd_set_slot_ok|]. intros k Hk. destruct (Hp k Hk) as [Hk' Hnew].
  destruct (H2 k Hk') as (Hk0 & e0 & He0 & Hc). split; [done|].
  rewrite El, live_set_slot by (done || eauto). destruct (Z.eqb_spec k id) as [->|]; [|by exists e0].
  simplify_eq. destruct (Hnew eq_refl Hc) as [-> ?]. by exists e'.
Qed.

Lemma efd_create_ok v fl s : efds_ok s -> 0 <= v <= U64_MAX - 1 -> efds_ok (snd (create v fl s)).
Proof.
  intros [H1 H2] Hv. unfold create. destruct (position _ _) as [i|] eqn:Hp; [|by split].
  apply position_some in Hp as [(e & He & Hu%negb_true_iff) _]. cbn [snd]. split.
  - cbn. apply Forall_insert; [done|]. split; cbn; [lia|unfold U32_MAX; lia].
  - intros k Hk. destruct (H2 k Hk) as (Hk0 & e0 & [He0 Hu0]%live_some & Hc). split; [done|].
    exists e0. split; [|done]. apply live_some. split; [|done]. cbn.
    rewrite list_lookup_insert_ne; [done|]. intros ->. congruence.
Qed.

Lemma close_ok id s : efds_ok s -> 0 <= id -> efds_ok (close id s).
Proof.
  intros Hs Hid. unfold close. destruct (live id s) as [e|] eqn:He; [|done].
  destruct (live_ok _ _ _ (ef_entries _ Hs) He) as [[Hc Hr] Hu]. rewrite Hu in Hr.
  destruct (Z.ltb_spec 1 (refs e)).
  - eapply (set_slot_efds_ok id e); [done..| |done|]; [split; cbn; [done|rewrite Hu; lia]|].
    intros k Hk. split; [done|]. by intros _ ?.
  - destruct (wake_readers_ok id (set_slot id entry_empty s)) as [Et Hp].
    eapply (set_slot_efds_ok id e _ _ _ Hs Hid He); [|exact Et|].
    + split; cbn; [unfold U64_MAX; lia|done].
    + intros k [Hne Hk]%Hp. done.
Qed.

Lemma efd_step_ok s s' : efd_step s s' -> efds_ok s -> efds_ok s'.
Proof.
  destruct 1 as [v fl s Hv|id s Hid|id s Hid|id v s Hid Hv|id s Hid|id tick s Hid|id t s|w s]; intros Hs.
  - by apply efd_create_ok.
  - unfold inc_ref. destruct (live id s) as [e|] eqn:He; [|done].
    destruct (live_ok _ _ _ (ef_entries _ Hs) He) as [[Hc Hr] Hu]. rewrite Hu in Hr.
    eapply (set_slot_efds_ok id e); [done..| |done|].
    + split; cbn; [done|]. rewrite Hu. unfold sat_add32, U32_MAX in *. lia.
    + intros k Hk. split; [done|]. by intros _ ?.
  - pose proof (try_read_cases id s) as Hc. destruct (live id s) as [e|] eqn:He; [|by rewrite Hc].
    destruct (live_ok _ _ _ (ef_entries _ Hs) He) as [[Hr1 Hr2] Hu]. rewrite Hu in Hr2.
    destruct Hc as [[E0 ->]|[E0 ->]]; [done|]. cbn [snd].
    rewrite sub64_small by (unfold U64_MAX in *; lia).
    eapply (set_slot_efds_ok id e); [done..| |done|].
    + split; cbn; [destruct (is_semaphore e); lia|by rewrite Hu].
    + intros k Hk. done.
  - unfold sys_write. pose proof (write_cases id v s (ef_entries _ Hs) Hv) as Hc.
    destruct (live id s) as [e|] eqn:He; [|by rewrite Hc].
    destruct (live_ok _ _ _ (ef_entries _ Hs) He) as [[Hr1 Hr2] Hu]. rewrite Hu in Hr2.
    destruct Hc as [[E0 ->]|[E0 ->]]; [done|]. cbn [snd].
    match goal with |- efds_ok (wake_readers_all _ ?x) => destruct (wake_readers_ok id x) as [Et Hp] end.
    eapply (set_slot_efds_ok id e _ _ _ Hs Hid He); [|exact Et|].
    + split; cbn; [lia|by rewrite Hu].
    + intros k [Hne Hk]%Hp. done.
  - by apply close_ok.
  - unfold wait_readable. destruct (live id s) as [e|] eqn:He; [|done].
    destruct (live_ok _ _ _ (ef_entries _ Hs) He) as [[Hc _] _].
    destruct (Z.ltb_spec 0 (counter e)); [done|].
    pose proof (parked_park id tick (EVENTFD_READ_WAITERS s) (wk s)) as Hk.
    destruct (park _ _ _ _) as [m w]. destruct Hs as [H1 H2]. split; [done|].
    intros k [->|Hp]%Hk; [|by apply H2]. split; [done|]. exists e. split; [done|lia].
  - destruct Hs as [H1 H2]. split; [done|]. intros k Hk%parked_cleanup. by apply H2.
  - by destruct Hs.
Qed.
End readers.

Lemma efd_boot_ok w : efds_ok (efd_boot w).
Proof.
  split; [apply Forall_replicate; split; cbn; [unfold U64_MAX; lia|done]|].
  intros k (l & Hl & _). cbn in Hl. by rewrite lookup_empty in Hl.
Qed.

(** No event wake-up is lost. After any sequence of event-descriptor calls
    from boot, a thread still on a slot's wait list waits for a live slot
    whose counter is zero: every post and every final close has emptied the
    list. *)
Theorem no_lost_eventfd_wakeup (w : Wake) (s : EventFds) (k : Z) :
  rtc efd_step (efd_boot w) s -> parked (EVENTFD_READ_WAITERS s) k ->
  is_readable k s = false /\ peek_counter k s = Some 0.
Proof.
  intros Hs Hk. assert (efds_ok s) as [_ Hp].
  { assert (forall a b, rtc efd_step a b -> efds_ok a -> efds_ok b) as H.
    { induction 1; eauto using efd_step_ok. }
    eapply H; [exact Hs|apply efd_boot_ok]. }
  destruct (Hp k Hk) as (_ & e & He & Hc). unfold is_readable, peek_counter. rewrite He. simpl. by rewrite Hc.
Qed.

(** A slot lives until its last reference goes. With [n] further
    references, [n] closes leave the counter, mode and generation as they
    were; one more frees the slot, blank for the next owner, and wakes every
    reader parked on it. Other slots are untouched throughout. *)
Theorem eventfd_last_close (id : Z) (n : nat) (s : EventFds) (e : EventFdEntry) :
  0 <= id -> live id s = Some e -> refs e = Z.of_nat n + 1 ->
  let s1 := Nat.iter n (close id) s in
  live id s1 = Some (with_refs 1 e) /\
  live id (close id s1) = None /\ TABLE (close id s1) !! Z.to_nat id = Some entry_empty /\
  ~ parked (EVENTFD_READ_WAITERS (close id s1)) id /\
  forall k, 0 <= k -> k <> id -> live k s1 = live k s /\ live k (close id s1) = live k s.
Proof.
  intros Hid He Hr.
  assert (forall m : nat, (m <= n)%nat ->
    live id (Nat.iter m (close id) s) = Some (with_refs (refs e - Z.of_nat m) e) /\
    forall k, 0 <= k -> k <> id -> live k (Nat.iter m (close id) s) = live k s) as Hiter.
  { induction m as [|m IH]; intros Hm; cbn [Nat.iter nat_rect].
    { split; [|done]. rewrite He. replace (refs e - Z.of_nat 0) with (refs e) by lia. by destruct e. }
    destruct (IH ltac:(lia)) as [IH1 IH2]. unfold Nat.iter in IH1, IH2. unfold close at 1 3.
    rewrite !IH1. cbn [refs with_refs]. rewrite (proj2 (Z.ltb_lt _ _)) by lia.
    pose proof (proj1 (live_some _ _ _) He) as [_ Hu]. split.
    - rewrite live_set_slot by (done || eauto). rewrite Z.eqb_refl.
      replace (refs e - Z.of_nat (S m)) with (refs e - Z.of_nat m - 1) by lia.
      cbn [in_use with_refs]. by rewrite Hu.
    - intros k Hk Hne. rewrite live_set_slot by (done || eauto).
      rewrite (proj2 (Z.eqb_neq _ _)) by done. by apply IH2. }
  destruct (Hiter n ltac:(lia)) as [H1 H2]. intros s1. fold s1 in H1, H2.
  replace (refs e - Z.of_nat n) with 1 in H1 by lia. split; [done|].
  unfold close. rewrite H1. cbn [refs with_refs]. rewrite (proj2 (Z.ltb_ge _ _)) by lia.
  destruct (wake_readers_ok id (set_slot id entry_empty s1)) as [Et Hp].
  assert (forall k, live k (wake_readers_all id (set_slot id entry_empty s1)) =
    live k (set_slot id entry_empty s1)) as El by (intros k; unfold live; by rewrite Et).
  split_and!.
  - rewrite El, live_set_slot by (done || eauto). by rewrite Z.eqb_refl.
  - rewrite Et. cbn. apply list_lookup_insert_eq.
    apply live_some in H1 as [H1 _]. by apply lookup_lt_Some in H1.
  - intros [? _]%Hp. done.
  - intros k Hk Hne. split; [by apply H2|].
    rewrite El, live_set_slot by (done || eauto). rewrite (proj2 (Z.eqb_neq _ _)) by done. by apply H2.
Qed.

(* ------------------------------------------------------------------ *)
(** ** Concrete runs *)

Definition demo_threads : Wake :=
  mkWake [mkThread 7 Running 0 8 false] 7 [] (replicate N_BELL_SOURCES 0) 0 0 0.

(** Slot 0 is a counter, slot 1 a semaphore with three units. *)
Definition demo_efds : EventFds :=
  snd (create 3 EFD_SEMAPHORE (snd (create 0 0 (efd_boot demo_threads)))).

Lemma demo_efds_reachable : rtc efd_step (efd_boot demo_threads) demo_efds.
Proof.
  eapply rtc_l; [apply (es_create 0 0); unfold U64_MAX; lia|].
  eapply rtc_l; [apply (es_create 3 EFD_SEMAPHORE); unfold U64_MAX; lia|]. apply rtc_refl.
Qed.

Lemma demo_efds_ok : Forall entry_ok (TABLE demo_efds).
Proof.
  assert (efds_ok demo_efds) as H; [|apply H].
  apply efd_create_ok; [apply efd_create_ok; [apply efd_boot_ok|]|]; unfold U64_MAX; lia.
Qed.

Definition demo_ops : list efd_op := [EWrite 0 5; ERead 1; EWrite 0 2; ERead 0; ERead 0; ERead 1].

Lemma demo_ops_ok : Forall op_ok demo_ops.
Proof. repeat constructor; cbn; lia. Qed.

Lemma eventfd_conserved_witness :
  let '(tr, s') := efd_run demo_ops demo_efds in
  exists e', live 1 s' = Some e' /\ 0 <= counter e' <= U64_MAX - 1 /\
    flags e' = EFD_SEMAPHORE /\ refs e' = 1 /\
    3 + sum_of (put_in 1) tr = counter e' + sum_of (read_done 1) tr.
Proof.
  exact (eventfd_conserved demo_ops demo_efds 1 (mkEventFdEntry 3 EFD_SEMAPHORE true 1 0)
    demo_efds_ok demo_ops_ok ltac:(lia) ltac:(vm_compute; reflexivity)).
Defined.

Lemma no_lost_eventfd_wakeup_witness :
  is_readable 0 (snd (wait_readable 0 U64_MAX demo_efds)) = false /\
  peek_counter 0 (snd (wait_readable 0 U64_MAX demo_efds)) = Some 0.
Proof.
  apply (no_lost_eventfd_wakeup demo_threads).
  - eapply rtc_r; [exact demo_efds_reachable|]. by apply es_wait.
  - exists [7]. split; [vm_compute; reflexivity|done].
Defined.

Lemma eventfd_last_close_witness :
  let s := inc_ref 1 demo_efds in
  live 1 (close 1 s) = Some (mkEventFdEntry 3 EFD_SEMAPHORE true 1 0) /\
  live 1 (close 1 (close 1 s)) = None.
Proof.
  destruct (eventfd_last_close 1 1 (inc_ref 1 demo_efds) (mkEventFdEntry 3 EFD_SEMAPHORE true 2 0)
    ltac:(lia) ltac:(vm_compute; reflexivity) ltac:(reflexivity)) as (H1 & H2 & _).
  split; [exact H1|exact H2].
Defined.

(** An initial value at the reserved maximum defeats the overflow guard: the
    next write is accepted and wraps the counter to zero. *)
Lemma eventfd_initval_wraps :
  let s := snd (create U64_MAX 0 (efd_boot demo_threads)) in
  let '(r, s') := write 0 1 s in
  peek_counter 0 s = Some U64_MAX /\ r = inl tt /\ peek_counter 0 s' = Some 0.
Proof. vm_compute. done. Qed.

(** A semaphore read hands out the whole count although it takes one unit. *)
Lemma semaphore_read_value :
  let '(r, s') := try_read 1 demo_efds in r = inl 3 /\ peek_counter 1 s' = Some 2.
Proof. vm_compute. done. Qed.
