(* ===== verification/Epoll.v ===== *)
(** Event polling: the interest lists of kernel/src/ipc/epoll.rs and the
    epoll system calls of kernel/src/subsys/linux/syscall.rs that read and
    commit them. Readiness is what the descriptor table and the queried
    subsystems say at the instants the call looks at them, so a call is a
    function of those instants. Proved: the interest list is a map from
    descriptors to watches, one polling pass is a filter of it in order, the
    wait returns what its contract allows, and an edge-triggered watch
    reports exactly the transitions since its last commit, an event counter's
    drain and rise between two calls included. *)

From S2P Require Import Prelude.
From S2P Require Import InodePins.
From S2P Require Import Vfs.
From S2P Require Import WaitList.
From S2P Require Import EventFd.

Definition EPOLL_CTL_ADD : Z := 1.
Definition EPOLL_CTL_DEL : Z := 2.
Definition EPOLL_CTL_MOD : Z := 3.

Definition EPOLLIN : Z := 0x0001.
Definition EPOLLOUT : Z := 0x0004.
Definition EPOLLERR : Z := 0x0008.
Definition EPOLLHUP : Z := 0x0010.
Definition EPOLLRDHUP : Z := 0x2000.
Definition EPOLLET : Z := 2 ^ 31.

Record EpollWatch := mkEpollWatch {
  w_fd : Z;
  w_events : Z;
  w_data : Z;
  last_ready : Z;
  et_rise : Z
}.

Record EpollInstance := mkEpollInstance {
  ep_id : Z;
  ep_fd : Z;
  watches : list EpollWatch
}.

Record EpollEvent := mkEpollEvent { ev_events : Z; ev_data : Z }.

Definition with_watches (l : list EpollWatch) (e : EpollInstance) : EpollInstance :=
  mkEpollInstance (ep_id e) (ep_fd e) l.

Definition find_watch (fd : Z) (l : list EpollWatch) : option EpollWatch :=
  List.find (fun w => w_fd w =? fd) l.

Definition add (fd events data : Z) (e : EpollInstance) : bool * EpollInstance :=
  if existsb (fun w => w_fd w =? fd) (watches e) then (false, e)
  else (true, with_watches (watches e ++ [mkEpollWatch fd events data 0 0]) e).

Definition del (fd : Z) (e : EpollInstance) : bool * EpollInstance :=
  let before := length (watches e) in
  let l := List.filter (fun w => negb (w_fd w =? fd)) (watches e) in
  ((length l <? before)%nat, with_watches l e).

Definition modify (fd events data : Z) (e : EpollInstance) : bool * EpollInstance :=
  match find_watch fd (watches e) with
  | Some _ =>
      (true, with_watches (update_first (fun w => w_fd w =? fd)
        (fun w => mkEpollWatch (w_fd w) events data 0 0) (watches e)) e)
  | None => (false, e)
  end.

Definition is_et (events : Z) : bool := negb (events .& EPOLLET =? 0).

Definition commit_edge (l : list EpollWatch) (d : Z * Z * Z) : list EpollWatch :=
  let '(fd, level, rise) := d in
  update_first (fun w => w_fd w =? fd)
    (fun w => if is_et (w_events w)
              then mkEpollWatch (w_fd w) (w_events w) (w_data w) level rise else w) l.

Definition commit_edges (delivered : list (Z * Z * Z)) (e : EpollInstance) : EpollInstance :=
  with_watches (fold_left commit_edge delivered (watches e)) e.

(* ------------------------------------------------------------------ *)
(** ** Readiness of a descriptor *)

(** The fields of a descriptor the poll reads; [is_epoll] is
    [open_path == "[epoll]"]. *)
Record FileDescriptor := mkFileDescriptor {
  fd_inode : Z;
  fd_flags : Z;
  is_console : bool;
  is_epoll : bool;
  file_type : FileType;
  mount_idx : Z
}.

(** The readiness queries of the subsystems behind descriptors. *)
Record Sources := mkSources {
  eventfd_is_readable : Z -> bool;
  timerfd_is_readable : Z -> bool;
  signalfd_is_readable : Z -> bool;
  master_readable : Z -> bool;
  slave_readable : Z -> bool;
  src_pipe_has_data : Z -> bool;
  src_pipe_is_eof : Z -> bool;
  unix_writable : Z -> bool;
  unix_has_data : Z -> bool;
  scm_deliverable : Z -> bool;
  unix_has_pending : Z -> bool;
  unix_read_shutdown : Z -> bool;
  unix_fully_hung_up : Z -> bool;
  socket_read_ready : Z -> bool;
  socket_hangup_status : Z -> bool * bool;
  socket_write_ready : Z -> bool
}.

Definition SOCKET_FD_BIT : Z := 0x40000000.
Definition UNIX_SOCK_BIT : Z := 0x00800000.
Definition PIPE_FD_BIT : Z := 0x80000000.
Definition O_WRONLY_BIT : Z := 1.

Definition has (fl bit : Z) : bool := negb (fl .& bit =? 0).

Definition unix_events (src : Sources) (inode : Z) : Z :=
  let ev := if unix_writable src inode then EPOLLOUT else 0 in
  let ev := if unix_has_data src inode || scm_deliverable src inode || unix_has_pending src inode
            then ev .| EPOLLIN else ev in
  let ev := if unix_read_shutdown src inode then ev .| (EPOLLIN .| EPOLLRDHUP) else ev in
  if unix_fully_hung_up src inode then ev .| EPOLLHUP else ev.

Definition inet_events (src : Sources) (inode : Z) : Z :=
  let ev := if socket_read_ready src inode then EPOLLIN else 0 in
  let '(rdhup, hup) := socket_hangup_status src inode in
  let ev := if rdhup then ev .| (EPOLLIN .| EPOLLRDHUP) else ev in
  if hup then ev .| (EPOLLHUP .| EPOLLIN)
  else if socket_write_ready src inode then ev .| EPOLLOUT else ev.

Definition other_events (src : Sources) (f : FileDescriptor) : Z :=
  if has (fd_flags f) PIPE_FD_BIT then
    if negb (has (fd_flags f) O_WRONLY_BIT) then
      if src_pipe_has_data src (fd_inode f) then EPOLLIN
      else if src_pipe_is_eof src (fd_inode f) then EPOLLHUP else 0
    else EPOLLOUT
  else if (mount_idx f =? U64_MAX) && has (fd_flags f) SOCKET_FD_BIT then
    if has (fd_flags f) UNIX_SOCK_BIT then unix_events src (fd_inode f)
    else inet_events src (fd_inode f)
  else EPOLLIN .| EPOLLOUT.

Definition epoll_poll_events (src : Sources) (fds : list (option FileDescriptor)) (fd : Z) : Z :=
  match fds !! Z.to_nat fd with
  | Some (Some f) =>
      if is_epoll f then 0
      else if is_console f then EPOLLOUT
      else match file_type f with
      | EventFdFile => if eventfd_is_readable src (fd_inode f) then EPOLLIN else 0
      | TimerFdFile => if timerfd_is_readable src (fd_inode f) then EPOLLIN else 0
      | SignalFdFile => if signalfd_is_readable src (fd_inode f) then EPOLLIN else 0
      | InotifyFdFile => 0
      | PtyMaster =>
          if master_readable src (wrap 8 (fd_inode f)) then EPOLLIN .| EPOLLOUT else EPOLLOUT
      | PtySlave =>
          if slave_readable src (wrap 8 (fd_inode f)) then EPOLLIN .| EPOLLOUT else EPOLLOUT
      | _ => other_events src f
      end
  | _ => if fd =? 0 then 0 else if (fd =? 1) || (fd =? 2) then EPOLLOUT else EPOLLERR
  end.

(* ------------------------------------------------------------------ *)
(** ** The system calls *)

(** The part of a process the calls touch. *)
Record Process := mkProcess {
  file_descriptors : list (option FileDescriptor);
  epoll_sets : list EpollInstance
}.

Definition with_sets (l : list EpollInstance) (p : Process) : Process :=
  mkProcess (file_descriptors p) l.

(** [fetch_add] on the id counter, then the lowest free descriptor. *)
Definition sys_epoll_create1 (next : Z) (p : Process) : Z * Z * Process :=
  let fds := file_descriptors p in
  let slot := match position (fun f => match f with None => true | Some _ => false end) fds with
              | Some i => i | None => length fds end in
  let fds := match position (fun f => match f with None => true | Some _ => false end) fds with
             | Some _ => fds | None => fds ++ [None] end in
  let fd := mkFileDescriptor next 0 false true CharDevice 0 in
  (Z.of_nat slot, add64 next 1,
   mkProcess (<[slot := Some fd]> fds)
     (epoll_sets p ++ [mkEpollInstance next (Z.of_nat slot) []])).

Definition epoll_id_of (epfd : Z) (p : Process) : option Z :=
  match file_descriptors p !! Z.to_nat epfd with
  | Some (Some f) => if is_epoll f then Some (fd_inode f) else None
  | _ => None
  end.

Definition find_set (id : Z) (l : list EpollInstance) : option EpollInstance :=
  List.find (fun e => ep_id e =? id) l.

Definition update_set (id : Z) (f : EpollInstance -> EpollInstance) (p : Process) : Process :=
  with_sets (update_first (fun e => ep_id e =? id) f (epoll_sets p)) p.

(** [event] is the caller's [epoll_event], [None] for a null pointer. *)
Definition sys_epoll_ctl (epfd op fd : Z) (event : option EpollEvent) (p : Process) : Z * Process :=
  let '(events, data) :=
    match event with
    | Some ev => if op =? EPOLL_CTL_DEL then (0, 0) else (ev_events ev, ev_data ev)
    | None => (0, 0)
    end in
  match epoll_id_of epfd p with
  | None => (-9, p)
  | Some id =>
      match find_set id (epoll_sets p) with
      | None => (-9, p)
      | Some inst =>
          if op =? EPOLL_CTL_ADD then
            (if fst (add fd events data inst) then 0 else -17,
             update_set id (fun e => snd (add fd events data e)) p)
          else if op =? EPOLL_CTL_DEL then
            (if fst (del fd inst) then 0 else -2, update_set id (fun e => snd (del fd e)) p)
          else if op =? EPOLL_CTL_MOD then
            (if fst (modify fd events data inst) then 0 else -2,
             update_set id (fun e => snd (modify fd events data e)) p)
          else (-22, p)
      end
  end.

(** What the wait sees at one instant: the process, the subsystems and the
    rise generations of the event counters. *)
Record Instant := mkInstant {
  at_proc : Process;
  at_src : Sources;
  at_rise : Z -> option Z
}.

(** One watch as the wait snapshots it, with the event-counter slot its
    descriptor named at that time. *)
Record Snap := mkSnap { s_watch : EpollWatch; evfd_slot : option Z }.

Definition snap_of (p : Process) (w : EpollWatch) : Snap :=
  mkSnap w
    match file_descriptors p !! Z.to_nat (w_fd w) with
    | Some (Some f) => match file_type f with EventFdFile => Some (fd_inode f) | _ => None end
    | _ => None
    end.

Definition snapshot (p : Process) (inst : EpollInstance) : list Snap :=
  map (snap_of p) (watches inst).

(** The delivered mask, the asserted level and the rise generation. *)
Definition watch_events (i : Instant) (sn : Snap) : Z * Z * Z :=
  let w := s_watch sn in
  let subscribed := w_events w in
  let ready_ev := epoll_poll_events (at_src i) (file_descriptors (at_proc i)) (w_fd w) in
  let level := (subscribed .& ready_ev) .| (ready_ev .& (EPOLLERR .| EPOLLHUP)) in
  let current_rise := match evfd_slot sn with
                      | Some slot => default 0 (at_rise i slot) | None => 0 end in
  let delivered :=
    if is_et subscribed then
      let d := level .& notw 32 (last_ready w) in
      match evfd_slot sn with
      | Some _ => if negb (current_rise =? et_rise w) && negb (level .& EPOLLIN =? 0)
                  then d .| EPOLLIN else d
      | None => d
      end
    else level in
  (delivered, level, current_rise).

Definition delivered (i : Instant) (sn : Snap) : Z := fst (fst (watch_events i sn)).
Definition level (i : Instant) (sn : Snap) : Z := snd (fst (watch_events i sn)).
Definition current_rise (i : Instant) (sn : Snap) : Z := snd (watch_events i sn).

Fixpoint poll_loop (i : Instant) (maxevents : nat) (fired : list EpollEvent) (snaps : list Snap)
    : list EpollEvent :=
  match snaps with
  | [] => fired
  | sn :: snaps =>
      if (maxevents <=? length fired)%nat then fired
      else
        let fired := if delivered i sn =? 0 then fired
                     else fired ++ [mkEpollEvent (delivered i sn) (w_data (s_watch sn))] in
        poll_loop i maxevents fired snaps
  end.

Definition do_poll (i : Instant) (maxevents : nat) (snaps : list Snap) : list EpollEvent :=
  poll_loop i maxevents [] snaps.

Definition probe_ready (i : Instant) (snaps : list Snap) : bool :=
  existsb (fun sn => negb (delivered i sn =? 0)) snaps.

(** One turn of the wait loop: the recheck under the bell lock, the poll
    after a positive recheck, the poll after the wake, and the signal and
    clock it then reads. *)
Record Turn := mkTurn {
  t_probe : Instant;
  t_ready : Instant;
  t_poll : Instant;
  t_signal : bool;
  t_now : Z
}.

(** The events to return or the errno; [None] while the call still waits. *)
Fixpoint wait_loop (deadline : Z) (maxevents : nat) (snaps : list Snap) (turns : list Turn)
    : option (list EpollEvent + Z) :=
  match turns with
  | [] => None
  | t :: turns =>
      let fired := if probe_ready (t_probe t) snaps then do_poll (t_ready t) maxevents snaps else [] in
      match fired with
      | _ :: _ => Some (inl fired)
      | [] =>
          match do_poll (t_poll t) maxevents snaps with
          | (_ :: _) as fired => Some (inl fired)
          | [] =>
              if t_signal t then Some (inr (-4))
              else if deadline <=? t_now t then Some (inl [])
              else wait_loop deadline maxevents snaps turns
          end
      end
  end.

Definition et_levels (i : Instant) (snaps : list Snap) : list (Z * Z * Z) :=
  flat_map (fun sn => if is_et (w_events (s_watch sn))
                      then [(w_fd (s_watch sn), level i sn, current_rise i sn)] else []) snaps.

Definition deadline_of (timeout_ms now : Z) : Z :=
  if timeout_ms <? 0 then U64_MAX else sat_add64 now (Z.max (timeout_ms / 10) 1).

(** The call, given the instant of the snapshot and first poll, the instant of
    the poll before waiting with the clock read there, the turns of the wait
    and the instant of the commit. *)
Definition sys_epoll_wait (epfd : Z) (maxevents : nat) (timeout_ms : Z)
    (i0 i1 : Instant) (now : Z) (turns : list Turn) (ic : Instant)
    : option (Z * list EpollEvent * Process) :=
  let p := at_proc i0 in
  if (maxevents =? 0)%nat then Some (-22, [], at_proc ic)
  else match epoll_id_of epfd p with
  | None => Some (-9, [], at_proc ic)
  | Some id =>
      match find_set id (epoll_sets p) with
      | None => Some (-9, [], at_proc ic)
      | Some inst =>
          let snaps := snapshot p inst in
          let fired :=
            match do_poll i0 maxevents snaps with
            | (_ :: _) as fired => Some (inl fired)
            | [] =>
                if timeout_ms =? 0 then Some (inl [])
                else match do_poll i1 maxevents snaps with
                | (_ :: _) as fired => Some (inl fired)
                | [] => wait_loop (deadline_of timeout_ms now) maxevents snaps turns
                end
            end in
          match fired with
          | None => None
          | Some (inr e) => Some (e, [], at_proc ic)
          | Some (inl fired) =>
              Some (Z.of_nat (length fired), fired,
                    update_set id (commit_edges (et_levels ic snaps)) (at_proc ic))
          end
      end
  end.

(* ------------------------------------------------------------------ *)
(** ** The interest list as a map *)

Section interest.
Implicit Types (e : EpollInstance) (l : list EpollWatch) (fd k events data : Z).

Lemma find_watch_app k l l' :
  find_watch k (l ++ l') = match find_watch k l with Some w => Some w | None => find_watch k l' end.
Proof. unfold find_watch. induction l as [|w l IH]; simpl; [done|]. by destruct (w_fd w =? k). Qed.

Lemma existsb_watch fd l :
  existsb (fun w => w_fd w =? fd) l = match find_watch fd l with Some _ => true | None => false end.
Proof. unfold find_watch. induction l as [|w l IH]; simpl; [done|]. by destruct (w_fd w =? fd). Qed.

Lemma find_watch_none fd l : find_watch fd l = None <-> fd ∉ map w_fd l.
Proof.
  unfold find_watch. rewrite (find_key_none w_fd). split.
  - intros H Hin. apply list_elem_of_In, in_map_iff in Hin as (w & <- & Hw%list_elem_of_In). by eapply H.
  - intros H w Hw <-. apply H. apply list_elem_of_In, in_map. by apply list_elem_of_In.
Qed.

Lemma find_watch_some fd l w :
  NoDup (map w_fd l) -> find_watch fd l = Some w <-> w ∈ l /\ w_fd w = fd.
Proof. apply (find_key_some w_fd). Qed.

(** Each operation returns whether it applied, keeps the keys distinct and
    changes the watch of its own descriptor only. *)
Lemma add_spec fd events data e :
  NoDup (map w_fd (watches e)) ->
  let '(b, e') := add fd events data e in
  b = match find_watch fd (watches e) with Some _ => false | None => true end /\
  ep_id e' = ep_id e /\ NoDup (map w_fd (watches e')) /\
  forall k, find_watch k (watches e') =
    if (k =? fd) && b then Some (mkEpollWatch fd events data 0 0) else find_watch k (watches e).
Proof.
  intros Hn. unfold add. rewrite existsb_watch.
  destruct (find_watch fd (watches e)) as [w|] eqn:E.
  { split_and!; [done..|]. intros k. by rewrite andb_false_r. }
  split_and!; [done|done| |].
  - cbn. rewrite map_app. apply list.NoDup_app. split_and!; [done| |apply NoDup_singleton].
    intros x Hx ->%list_elem_of_singleton. by apply find_watch_none in E.
  - intros k. cbn [watches with_watches]. rewrite find_watch_app, andb_true_r. unfold find_watch at 2. simpl.
    rewrite (Z.eqb_sym fd k). destruct (Z.eqb_spec k fd) as [->|]; [by rewrite E|].
    by destruct (find_watch k (watches e)).
Qed.

Lemma filter_find fd k l :
  find_watch k (List.filter (fun w => negb (w_fd w =? fd)) l) = if k =? fd then None else find_watch k l.
Proof.
  unfold find_watch. induction l as [|w l IH]; simpl; [by destruct (k =? fd)|].
  destruct (Z.eqb_spec (w_fd w) fd) as [E|E]; simpl.
  - rewrite IH. destruct (Z.eqb_spec k fd), (Z.eqb_spec (w_fd w) k); done || lia.
  - rewrite IH. destruct (Z.eqb_spec k fd), (Z.eqb_spec (w_fd w) k); done || lia.
Qed.

Lemma filter_watch_shorter fd l :
  (length (List.filter (fun w => negb (w_fd w =? fd)%Z) l) <? length l)%nat =
  match find_watch fd l with Some _ => true | None => false end.
Proof.
  assert (forall l', (length (List.filter (fun w => negb (w_fd w =? fd)%Z) l') <= length l')%nat) as Hle.
  { induction l' as [|w l' IH]; simpl; [done|]. destruct (negb _); simpl; lia. }
  unfold find_watch. induction l as [|w l IH]; simpl; [done|].
  destruct (w_fd w =? fd); simpl; [apply Nat.ltb_lt; specialize (Hle l); lia|]. by rewrite <- IH.
Qed.

Lemma del_spec fd e :
  NoDup (map w_fd (watches e)) ->
  let '(b, e') := del fd e in
  b = match find_watch fd (watches e) with Some _ => true | None => false end /\
  ep_id e' = ep_id e /\ NoDup (map w_fd (watches e')) /\
  forall k, find_watch k (watches e') = if (k =? fd) && b then None else find_watch k (watches e).
Proof.
  intros Hn. unfold del. rewrite filter_watch_shorter. split_and!; [done|done| |].
  - cbn. induction (watches e) as [|w l IH]; simpl; [constructor|].
    apply list.NoDup_cons in Hn as [Hw Hn]. destruct (negb _); simpl; [|by apply IH].
    apply list.NoDup_cons. split; [|by apply IH]. contradict Hw.
    apply list_elem_of_In, in_map_iff in Hw as (q & <- & [Hq _]%filter_In).
    by apply list_elem_of_In, in_map.
  - intros k. cbn [watches with_watches]. rewrite filter_find.
    destruct (Z.eqb_spec k fd) as [->|]; simpl; [|done]. by destruct (find_watch fd (watches e)).
Qed.

Lemma modify_spec fd events data e :
  NoDup (map w_fd (watches e)) ->
  let '(b, e') := modify fd events data e in
  b = match find_watch fd (watches e) with Some _ => true | None => false end /\
  ep_id e' = ep_id e /\ NoDup (map w_fd (watches e')) /\
  forall k, find_watch k (watches e') =
    if (k =? fd) && b then Some (mkEpollWatch fd events data 0 0) else find_watch k (watches e).
Proof.
  intros Hn. unfold modify. destruct (find_watch fd (watches e)) as [w|] eqn:E.
  2: { split_and!; [done..|]. intros k. by rewrite andb_false_r. }
  split_and!; [done|done| |].
  - cbn. by rewrite (update_first_keys w_fd).
  - intros k. cbn [watches with_watches]. rewrite andb_true_r. unfold find_watch.
    rewrite (find_update_first w_fd) by done. fold (find_watch fd (watches e)). rewrite E.
    destruct (k =? fd); [|done]. cbn. apply find_watch_some in E as [_ E]; [|done]. by rewrite E.
Qed.
End interest.

Definition registered (fd : Z) (e : EpollInstance) : bool :=
  match find_watch fd (watches e) with Some _ => true | None => false end.

Definition set_wf (e : EpollInstance) : Prop := NoDup (map w_fd (watches e)).

Lemma find_update_set id k f p :
  (forall e, ep_id (f e) = ep_id e) ->
  find_set k (epoll_sets (update_set id f p)) =
  if k =? id then f <$> find_set id (epoll_sets p) else find_set k (epoll_sets p).
Proof. apply (find_update_first ep_id). Qed.

(** One operation on the instance [id] of a process. *)
Lemma ctl_apply id p inst (g : EpollInstance -> bool * EpollInstance) fd (w : option EpollWatch) b0 :
  find_set id (epoll_sets p) = Some inst -> (forall e, ep_id (snd (g e)) = ep_id e) ->
  (let '(b, e') := g inst in b = b0 /\ ep_id e' = ep_id inst /\ NoDup (map w_fd (watches e')) /\
   forall k, find_watch k (watches e') = if (k =? fd) && b then w else find_watch k (watches inst)) ->
  let p' := update_set id (fun e => snd (g e)) p in
  fst (g inst) = b0 /\ file_descriptors p' = file_descriptors p /\
  (forall k, k <> id -> find_set k (epoll_sets p') = find_set k (epoll_sets p)) /\
  exists inst', find_set id (epoll_sets p') = Some inst' /\ set_wf inst' /\
    forall k, find_watch k (watches inst') = if (k =? fd) && b0 then w else find_watch k (watches inst).
Proof.
  intros Hf Hg Hspec p'. destruct (g inst) as [b e'] eqn:E. destruct Hspec as (-> & _ & Hn & Hk).
  split_and!; [done|done| |].
  - intros k Hne. unfold p'. rewrite find_update_set by done. by rewrite (proj2 (Z.eqb_neq _ _)).
  - exists e'. split_and!; [|done|done]. unfold p'. rewrite find_update_set, Z.eqb_refl, Hf by done.
    simpl. by rewrite E.
Qed.

(** C10: [epoll_ctl] edits the interest list as a map from descriptors to
    watches: ADD refuses a registered descriptor with EEXIST, DEL and MOD an
    unregistered one with ENOENT, any other operation gives EINVAL; a
    successful call changes the watch of its descriptor only, arming a fresh
    edge, and no other instance. Any descriptor that carries the instance's
    id, a duplicate included, reaches the same list. *)
Theorem epoll_ctl_correct (epfd op fd id : Z) (ev : EpollEvent) (p : Process) (inst : EpollInstance) :
  epoll_id_of epfd p = Some id -> find_set id (epoll_sets p) = Some inst -> set_wf inst ->
  let '(r, p') := sys_epoll_ctl epfd op fd (Some ev) p in
  r = (if op =? EPOLL_CTL_ADD then (if registered fd inst then -17 else 0)
       else if (op =? EPOLL_CTL_DEL) || (op =? EPOLL_CTL_MOD) then (if registered fd inst then 0 else -2)
       else -22) /\
  file_descriptors p' = file_descriptors p /\
  (forall k, k <> id -> find_set k (epoll_sets p') = find_set k (epoll_sets p)) /\
  exists inst', find_set id (epoll_sets p') = Some inst' /\ set_wf inst' /\
    forall k, find_watch k (watches inst') =
      if (k =? fd) && (r =? 0)
      then (if op =? EPOLL_CTL_DEL then None else Some (mkEpollWatch fd (ev_events ev) (ev_data ev) 0 0))
      else find_watch k (watches inst).
Proof.
  intros Hid Hf Hwf. unfold sys_epoll_ctl. rewrite Hid, Hf. unfold registered.
  destruct (Z.eqb_spec op EPOLL_CTL_ADD) as [->|N1].
  { change (EPOLL_CTL_ADD =? EPOLL_CTL_DEL) with false. cbv beta iota zeta.
    assert (forall e, ep_id (snd (add fd (ev_events ev) (ev_data ev) e)) = ep_id e) as Hg
      by (intros e; unfold add; by case_match).
    destruct (ctl_apply id p inst _ fd _ _ Hf Hg (add_spec fd (ev_events ev) (ev_data ev) inst Hwf)) as (-> & ? & ? & He).
    by destruct (find_watch fd (watches inst)). }
  destruct (Z.eqb_spec op EPOLL_CTL_DEL) as [->|N2].
  { destruct (ctl_apply id p inst (del fd) fd _ _ Hf ltac:(done) (del_spec fd inst Hwf)) as (-> & ? & ? & He).
    cbn [orb]. by destruct (find_watch fd (watches inst)). }
  destruct (Z.eqb_spec op EPOLL_CTL_MOD) as [->|N3]; cbn [orb].
  { assert (forall e, ep_id (snd (modify fd (ev_events ev) (ev_data ev) e)) = ep_id e) as Hg
      by (intros e; unfold modify; by case_match).
    destruct (ctl_apply id p inst _ fd _ _ Hf Hg (modify_spec fd (ev_events ev) (ev_data ev) inst Hwf)) as (-> & ? & ? & He).
    by destruct (find_watch fd (watches inst)). }
  split_and!; [done|done|done|]. exists inst. split_and!; [done|done|]. intros k. by rewrite andb_false_r.
Qed.

(* ------------------------------------------------------------------ *)
(** ** One polling pass *)

(** Everything deliverable at an instant, in registration order. *)
Definition deliverable (i : Instant) (snaps : list Snap) : list EpollEvent :=
  map (fun sn => mkEpollEvent (delivered i sn) (w_data (s_watch sn)))
    (List.filter (fun sn => negb (delivered i sn =? 0)) snaps).

Lemma poll_loop_eq i maxevents fired snaps :
  (length fired <= maxevents)%nat ->
  poll_loop i maxevents fired snaps = take maxevents (fired ++ deliverable i snaps).
Proof.
  unfold deliverable. revert fired. induction snaps as [|sn snaps IH]; intros fired Hl; simpl.
  { rewrite app_nil_r, take_ge; [done|lia]. }
  destruct (Nat.leb_spec maxevents (length fired)).
  { rewrite take_app_le by lia. rewrite take_ge by lia. done. }
  destruct (delivered i sn =? 0); simpl; [by apply IH|].
  rewrite IH by (rewrite length_app; simpl; lia). by rewrite <- app_assoc.
Qed.

Lemma do_poll_eq i maxevents snaps : do_poll i maxevents snaps = take maxevents (deliverable i snaps).
Proof. apply poll_loop_eq. simpl. lia. Qed.

Lemma probe_ready_eq i snaps :
  probe_ready i snaps = negb (bool_decide (deliverable i snaps = [])).
Proof.
  unfold probe_ready, deliverable. induction snaps as [|sn snaps IH]; simpl; [done|].
  destruct (delivered i sn =? 0); simpl; [done|]. done.
Qed.

(** What a finished wait may report. *)
Definition wait_result (deadline : Z) (maxevents : nat) (snaps : list Snap) (turns : list Turn)
    (r : list EpollEvent + Z) : Prop :=
  match r with
  | inl [] => exists t, t ∈ turns /\ deadline <= t_now t /\ deliverable (t_poll t) snaps = []
  | inl fired => exists t i, t ∈ turns /\ i ∈ [t_ready t; t_poll t] /\
      fired = take maxevents (deliverable i snaps)
  | inr e => e = -4 /\ exists t, t ∈ turns /\ t_signal t = true /\ deliverable (t_poll t) snaps = []
  end.

Lemma take_nil_inv {A} n (l : list A) : (0 < n)%nat -> take n l = [] -> l = [].
Proof. destruct n, l; simpl; done || lia. Qed.

Lemma wait_loop_spec deadline maxevents snaps turns :
  (0 < maxevents)%nat ->
  ((exists t, t ∈ turns /\ (t_signal t = true \/ deadline <= t_now t)) ->
    is_Some (wait_loop deadline maxevents snaps turns)) /\
  forall r, wait_loop deadline maxevents snaps turns = Some r ->
    wait_result deadline maxevents snaps turns r.
Proof.
  intros Hm. induction turns as [|t turns [IH1 IH2]]; cbn [wait_loop].
  { split; [|done]. intros (t & Ht & _). by apply not_elem_of_nil in Ht. }
  rewrite !do_poll_eq.
  destruct (if probe_ready (t_probe t) snaps then _ else _) as [|ev l] eqn:E1.
  2: { split; [done|]. intros r [= <-]. exists t, (t_ready t). split_and!; [set_solver|set_solver|].
       by destruct (probe_ready _ _). }
  destruct (take maxevents (deliverable (t_poll t) snaps)) as [|ev l] eqn:E2.
  2: { split; [done|]. intros r [= <-]. exists t, (t_poll t). split_and!; [set_solver|set_solver|done]. }
  apply take_nil_inv in E2; [|done].
  destruct (t_signal t) eqn:E3.
  { split; [done|]. intros r [= <-]. split; [done|]. exists t. split_and!; [set_solver|done|done]. }
  destruct (Z.leb_spec deadline (t_now t)) as [Hd|Hd].
  { split; [done|]. intros r [= <-]. exists t. split_and!; [set_solver|done|done]. }
  split.
  - intros (t' & [->|Ht]%list.elem_of_cons & Hor); [destruct Hor; [congruence|lia]|]. apply IH1. by exists t'.
  - intros r Hr. specialize (IH2 r Hr). destruct r as [[|ev l]|e]; simpl in *.
    + destruct IH2 as (t' & ? & ?). exists t'. split; [set_solver|done].
    + destruct IH2 as (t' & i & ? & ?). exists t', i. split; [set_solver|done].
    + destruct IH2 as (? & t' & ? & ?). split; [done|]. exists t'. split; [set_solver|done].
Qed.

(** C39: [epoll_wait] keeps its contract. It returns at once when something is
    deliverable or the timeout is zero, and at the latest at the first turn
    that sees a signal or the deadline. What it returns is the first
    [maxevents] deliverable events of one instant it looked at; or EINTR after
    a pending signal with nothing deliverable; or nothing, and then only with
    a zero timeout or past the deadline, with nothing deliverable. *)
Theorem epoll_wait_contract (epfd : Z) (maxevents : nat) (timeout_ms : Z) (i0 i1 : Instant) (now : Z)
    (turns : list Turn) (ic : Instant) (id : Z) (inst : EpollInstance) :
  (0 < maxevents)%nat -> epoll_id_of epfd (at_proc i0) = Some id ->
  find_set id (epoll_sets (at_proc i0)) = Some inst ->
  let snaps := snapshot (at_proc i0) inst in
  let deadline := deadline_of timeout_ms now in
  let call := sys_epoll_wait epfd maxevents timeout_ms i0 i1 now turns ic in
  (deliverable i0 snaps <> [] \/ timeout_ms = 0 \/
   (exists t, t ∈ turns /\ (t_signal t = true \/ deadline <= t_now t)) -> is_Some call) /\
  forall r fired p', call = Some (r, fired, p') ->
    (length fired <= maxevents)%nat /\
    ((fired <> [] /\ r = Z.of_nat (length fired) /\
       exists i, i ∈ i0 :: i1 :: flat_map (fun t => [t_ready t; t_poll t]) turns /\
         fired = take maxevents (deliverable i snaps)) \/
     (fired = [] /\ r = -4 /\
       exists t, t ∈ turns /\ t_signal t = true /\ deliverable (t_poll t) snaps = []) \/
     (fired = [] /\ r = 0 /\ deliverable i0 snaps = [] /\
       (timeout_ms = 0 \/ exists t, t ∈ turns /\ deadline <= t_now t /\ deliverable (t_poll t) snaps = []))).
Proof.
  intros Hm Hid Hf snaps deadline. unfold sys_epoll_wait. rewrite Hid, Hf.
  rewrite (proj2 (Nat.eqb_neq _ _)) by lia. fold snaps deadline. rewrite !do_poll_eq.
  destruct (wait_loop_spec deadline maxevents snaps turns Hm) as [Hw1 Hw2].
  assert (forall i l, take maxevents (deliverable i snaps) = l -> (length l <= maxevents)%nat) as Hlen.
  { intros i l <-. rewrite length_take. lia. }
  destruct (take maxevents (deliverable i0 snaps)) as [|ev l] eqn:E0.
  2: { split; [done|]. intros r fired p' [= <- <- <-]. split; [by eapply Hlen|]. left.
       split_and!; [done|done|]. exists i0. split; [set_solver|done]. }
  apply take_nil_inv in E0; [|done].
  destruct (Z.eqb_spec timeout_ms 0) as [->|Ht].
  { split; [done|]. intros r fired p' [= <- <- <-]. split; [simpl; lia|]. right; right. naive_solver. }
  destruct (take maxevents (deliverable i1 snaps)) as [|ev l] eqn:E1.
  2: { split; [done|]. intros r fired p' [= <- <- <-]. split; [by eapply Hlen|]. left.
       split_and!; [done|done|]. exists i1. split; [set_solver|done]. }
  split.
  - intros [?|[?|H]]; [done|done|]. destruct (Hw1 H) as [[fired|e] ->]; done.
  - intros r fired p'. destruct (wait_loop deadline maxevents snaps turns) as [[l|e]|]; [| |done].
    + intros [= <- <- <-]. specialize (Hw2 (inl l) eq_refl). destruct l as [|ev l]; simpl in Hw2.
      { split; [simpl; lia|]. right; right. naive_solver. }
      destruct Hw2 as (t & i & Ht' & Hi & E). split; [by eapply Hlen|]. left. split_and!; [done|done|].
      exists i. split; [|done]. do 2 right. apply list_elem_of_In, in_flat_map. exists t.
      by rewrite <- !list_elem_of_In.
    + intros [= <- <- <-]. destruct (Hw2 (inr e) eq_refl) as [-> H]. split; [simpl; lia|]. right; left. done.
Qed.

(* ------------------------------------------------------------------ *)
(** ** Edges *)

Section edges.
Implicit Types (i ic : Instant) (sn : Snap) (b : Z).

Lemma poll_events_word src fds fd : in_word 32 (epoll_poll_events src fds fd).
Proof.
  assert (forall f, in_word 32 (other_events src f)) as Hother.
  { intros f. unfold other_events, unix_events, inet_events, in_word.
    destruct (socket_hangup_status src (fd_inode f)) as [rd hup]; repeat case_match; vm_compute; split; done. }
  unfold epoll_poll_events. repeat case_match; try apply Hother; unfold in_word; vm_compute; split; done.
Qed.

Definition ready i sn : Z :=
  epoll_poll_events (at_src i) (file_descriptors (at_proc i)) (w_fd (s_watch sn)).

Lemma level_bits i sn b :
  0 <= b ->
  Z.testbit (level i sn) b =
  Z.testbit (ready i sn) b && (Z.testbit (w_events (s_watch sn)) b || (b =? 3) || (b =? 4)).
Proof.
  intros Hb. unfold level, watch_events. cbn [fst snd]. fold (ready i sn).
  rewrite Z.lor_spec, !Z.land_spec, Z.lor_spec.
  change EPOLLERR with (2 ^ 3). change EPOLLHUP with (2 ^ 4). rewrite !Z.pow2_bits_eqb by lia.
  rewrite (Z.eqb_sym 3), (Z.eqb_sym 4).
  by destruct (Z.testbit (w_events _) b), (Z.testbit (ready i sn) b), (b =? 3), (b =? 4).
Qed.

Lemma level_word i sn b : 32 <= b -> Z.testbit (level i sn) b = false.
Proof.
  intros Hb. rewrite level_bits by lia.
  by rewrite (testbit_word_high 32) by (apply poll_events_word || done).
Qed.

(** A generation that moved since the watch was last committed. *)
Definition rise_moved i sn : bool :=
  match evfd_slot sn with Some _ => negb (current_rise i sn =? et_rise (s_watch sn)) | None => false end.

Lemma delivered_et_bits i sn b :
  0 <= b -> is_et (w_events (s_watch sn)) = true ->
  Z.testbit (delivered i sn) b =
  Z.testbit (level i sn) b &&
    (negb (Z.testbit (last_ready (s_watch sn)) b) || (b =? 0) && rise_moved i sn).
Proof.
  intros Hb Het.
  assert (delivered i sn =
    let d := level i sn .& notw 32 (last_ready (s_watch sn)) in
    if rise_moved i sn && negb (level i sn .& EPOLLIN =? 0) then d .| EPOLLIN else d) as ->.
  { unfold delivered, rise_moved, level, current_rise, watch_events. cbn [fst snd]. rewrite Het.
    by destruct (evfd_slot sn). }
  assert (Z.testbit (level i sn .& notw 32 (last_ready (s_watch sn))) b =
    Z.testbit (level i sn) b && negb (Z.testbit (last_ready (s_watch sn)) b)) as Hd.
  { rewrite Z.land_spec, testbit_notw by lia. decide_on (b < 32) as Hlt; [done|].
    by rewrite level_word by lia. }
  assert ((level i sn .& EPOLLIN =? 0) = negb (Z.testbit (level i sn) 0)) as Hin.
  { by apply (land_shiftl_1_eqb (level i sn) 0). }
  cbv zeta. rewrite Hin, negb_involutive.
  destruct (rise_moved i sn); cbn [andb]; [|by rewrite andb_false_r, orb_false_r].
  rewrite andb_true_r.
  destruct (Z.testbit (level i sn) 0) eqn:E0.
  - rewrite Z.lor_spec, Hd. change EPOLLIN with (2 ^ 0). rewrite Z.pow2_bits_eqb by lia.
    destruct (Z.eqb_spec 0 b) as [<-|].
    + rewrite E0, Z.eqb_refl. by rewrite !orb_true_r.
    + rewrite (proj2 (Z.eqb_neq b 0)) by done. by rewrite !orb_false_r.
  - rewrite Hd. destruct (Z.eqb_spec b 0) as [->|]; [by rewrite E0|]. by rewrite orb_false_r.
Qed.

(** The watch as a commit at [ic] leaves it. *)
Definition committed ic sn : EpollWatch :=
  let w := s_watch sn in
  if is_et (w_events w) then mkEpollWatch (w_fd w) (w_events w) (w_data w) (level ic sn) (current_rise ic sn)
  else w.

Lemma commit_fold ic snaps l k :
  NoDup (map (fun sn => w_fd (s_watch sn)) snaps) ->
  find_watch k (fold_left commit_edge (et_levels ic snaps) l) =
  match List.find (fun sn => (w_fd (s_watch sn) =? k) && is_et (w_events (s_watch sn))) snaps with
  | Some sn => (fun w => if is_et (w_events w)
      then mkEpollWatch (w_fd w) (w_events w) (w_data w) (level ic sn) (current_rise ic sn) else w)
      <$> find_watch k l
  | None => find_watch k l
  end.
Proof.
  revert l. induction snaps as [|sn snaps IH]; intros l Hn; [done|].
  apply list.NoDup_cons in Hn as [Hni Hn]. cbn [et_levels flat_map List.find].
  destruct (is_et (w_events (s_watch sn))) eqn:Het; cbn [app fold_left];
    [|rewrite andb_false_r; by apply IH].
  fold (et_levels ic snaps).
  rewrite IH by done. rewrite andb_true_r.
  assert (find_watch k (commit_edge l (w_fd (s_watch sn), level ic sn, current_rise ic sn)) =
    if k =? w_fd (s_watch sn) then (fun w => if is_et (w_events w)
      then mkEpollWatch (w_fd w) (w_events w) (w_data w) (level ic sn) (current_rise ic sn) else w)
      <$> find_watch (w_fd (s_watch sn)) l else find_watch k l) as ->.
  { unfold commit_edge, find_watch. apply (find_update_first w_fd). intros w.
    by destruct (is_et (w_events w)). }
  rewrite (Z.eqb_sym (w_fd (s_watch sn)) k).
  destruct (Z.eqb_spec k (w_fd (s_watch sn))) as [->|Hne]; [|done].
  destruct (List.find _ snaps) as [sn'|] eqn:E; [|done].
  apply find_some in E as [Hin Hk]. apply andb_true_iff in Hk as [Hk%Z.eqb_eq _].
  destruct Hni. apply list_elem_of_In, in_map_iff. by exists sn'.
Qed.

Lemma find_snap p k l w :
  NoDup (map w_fd l) -> find_watch k l = Some w ->
  List.find (fun sn => (w_fd (s_watch sn) =? k) && is_et (w_events (s_watch sn))) (map (snap_of p) l) =
  if is_et (w_events w) then Some (snap_of p w) else None.
Proof.
  unfold find_watch. induction l as [|x l IH]; [done|].
  intros [Hni Hn]%list.NoDup_cons. cbn [map List.find s_watch snap_of].
  destruct (Z.eqb_spec (w_fd x) k) as [<-|Hne]; [|by apply IH].
  intros [= ->]. cbn [andb]. destruct (is_et (w_events w)); [done|].
  destruct (List.find _ (map _ l)) as [sn|] eqn:E; [|done].
  apply find_some in E as [Hin [Hk%Z.eqb_eq _]%andb_true_iff].
  apply in_map_iff in Hin as (y & <- & Hy). destruct Hni. apply list_elem_of_In, in_map_iff. by exists y.
Qed.

(** The commit of a finished wait writes every edge-triggered watch of the
    snapshot, when the list is still the one snapshotted. *)
Lemma commit_snapshot p ic inst w :
  set_wf inst -> w ∈ watches inst ->
  find_watch (w_fd w) (watches (commit_edges (et_levels ic (snapshot p inst)) inst)) =
  Some (committed ic (snap_of p w)).
Proof.
  intros Hwf Hw. cbn [commit_edges watches with_watches].
  assert (map (fun sn => w_fd (s_watch sn)) (snapshot p inst) = map w_fd (watches inst)) as Hm.
  { unfold snapshot. by rewrite map_map. }
  assert (find_watch (w_fd w) (watches inst) = Some w) as Hf by (by apply find_watch_some).
  rewrite commit_fold by (by rewrite Hm). unfold snapshot. rewrite (find_snap p _ _ w Hwf Hf), Hf.
  unfold committed. cbn [s_watch snap_of]. destruct (is_et (w_events w)) eqn:E; [|done].
  simpl. by rewrite E.
Qed.
End edges.

(** An edge-triggered watch reports exactly the changes since its last
    commit. After a wait that returned events or timed out, with the interest
    list unchanged meanwhile, a later poll delivers a readiness bit exactly
    when it is asserted then and either was not asserted at the commit or, for
    the input bit of an event counter, the counter's rise generation moved
    since the commit: a level that stays high is not reported again, and one
    that fell is reported when it rises. *)
Theorem epoll_edge_exact (epfd : Z) (maxevents : nat) (timeout_ms : Z) (i0 i1 : Instant) (now : Z)
    (turns : list Turn) (ic : Instant) (id : Z) (inst : EpollInstance) (w : EpollWatch)
    (r : Z) (fired : list EpollEvent) (p' : Process) :
  epoll_id_of epfd (at_proc i0) = Some id -> find_set id (epoll_sets (at_proc i0)) = Some inst ->
  find_set id (epoll_sets (at_proc ic)) = Some inst -> set_wf inst -> w ∈ watches inst ->
  is_et (w_events w) = true ->
  sys_epoll_wait epfd maxevents timeout_ms i0 i1 now turns ic = Some (r, fired, p') -> 0 <= r ->
  exists inst' w', find_set id (epoll_sets p') = Some inst' /\
    find_watch (w_fd w) (watches inst') = Some w' /\
    w_events w' = w_events w /\ w_data w' = w_data w /\
    forall i b, 0 <= b ->
      let sn := snap_of (at_proc i) w' in
      Z.testbit (delivered i sn) b =
      Z.testbit (level i sn) b &&
        (negb (Z.testbit (level ic (snap_of (at_proc i0) w)) b) ||
         (b =? 0) && match evfd_slot sn with
                     | Some _ => negb (current_rise i sn =? current_rise ic (snap_of (at_proc i0) w))
                     | None => false
                     end).
Proof.
  intros Hid Hf Hfc Hwf Hw Het Hcall Hr.
  assert (p' = update_set id (commit_edges (et_levels ic (snapshot (at_proc i0) inst))) (at_proc ic)) as ->.
  { unfold sys_epoll_wait in Hcall. rewrite Hid, Hf in Hcall.
    destruct (maxevents =? 0)%nat; [naive_solver lia|].
    destruct (match do_poll i0 _ _ with [] => _ | _ => _ end) as [[l|e]|] eqn:E; [naive_solver| |done].
    exfalso. injection Hcall as <- <- _. enough (e = -4) by lia.
    destruct (do_poll i0 _ _); [|done]. destruct (timeout_ms =? 0); [done|].
    destruct (do_poll i1 _ _); [|done]. clear -E. induction turns as [|t turns IH]; cbn [wait_loop] in E; [done|].
    repeat case_match; naive_solver. }
  exists (commit_edges (et_levels ic (snapshot (at_proc i0) inst)) inst), (committed ic (snap_of (at_proc i0) w)).
  assert (w_events (committed ic (snap_of (at_proc i0) w)) = w_events w) as Hev.
  { unfold committed. cbn [s_watch snap_of]. by destruct (is_et (w_events w)). }
  split_and!.
  - rewrite find_update_set, Z.eqb_refl, Hfc by done. done.
  - by apply commit_snapshot.
  - done.
  - unfold committed. cbn [s_watch snap_of]. by destruct (is_et (w_events w)).
  - intros i b Hb sn. rewrite delivered_et_bits by (done || (unfold sn; cbn [s_watch snap_of]; by rewrite Hev)).
    assert (last_ready (s_watch sn) = level ic (snap_of (at_proc i0) w) /\
      et_rise (s_watch sn) = current_rise ic (snap_of (at_proc i0) w)) as [El Er].
    { unfold sn, committed. cbn [s_watch snap_of]. by rewrite Het. }
    unfold rise_moved. by rewrite El, Er.
Qed.

(** The instant at which the event counters are in state [s]. *)
Definition efd_instant (p : Process) (src : Sources) (s : EventFds) : Instant :=
  mkInstant p
    (mkSources (fun id => is_readable id s) (timerfd_is_readable src) (signalfd_is_readable src)
       (master_readable src) (slave_readable src) (src_pipe_has_data src) (src_pipe_is_eof src)
       (unix_writable src) (unix_has_data src) (scm_deliverable src) (unix_has_pending src)
       (unix_read_shutdown src) (unix_fully_hung_up src) (socket_read_ready src)
       (socket_hangup_status src) (socket_write_ready src))
    (fun id => get_rise_seq id s).

Definition names_eventfd (p : Process) (fd k : Z) : Prop :=
  exists f, file_descriptors p !! Z.to_nat fd = Some (Some f) /\
    file_type f = EventFdFile /\ is_console f = false /\ is_epoll f = false /\ fd_inode f = k.

Lemma efd_level p src s w k :
  names_eventfd p (w_fd w) k -> Z.testbit (w_events w) 0 = true ->
  evfd_slot (snap_of p w) = Some k /\
  Z.testbit (level (efd_instant p src s) (snap_of p w)) 0 = is_readable k s.
Proof.
  intros (f & Hf & Ht & Hc & He & Hi) Hin. split.
  - unfold snap_of. cbn [evfd_slot]. by rewrite Hf, Ht, Hi.
  - rewrite level_bits by lia. cbn [s_watch snap_of]. rewrite Hin, andb_true_r.
    unfold ready. cbn [s_watch snap_of efd_instant at_src at_proc]. unfold epoll_poll_events.
    rewrite Hf, He, Hc, Ht, Hi. cbn [eventfd_is_readable]. by destruct (is_readable k s).
Qed.

(** An edge-triggered watch on an event counter misses no edge and repeats
    none. Committed in one state, and polled after any reads and writes on any
    counters, it reports input exactly when the counter is non-zero and was
    zero at some point since the commit, even when no wait ran in between. *)
Theorem eventfd_edge_exact (p : Process) (src src' : Sources) (w : EpollWatch) (k : Z)
    (ops : list efd_op) (s : EventFds) (e : EventFdEntry) :
  names_eventfd p (w_fd w) k -> is_et (w_events w) = true -> Z.testbit (w_events w) 0 = true ->
  Forall entry_ok (TABLE s) -> Forall op_ok ops -> 0 <= k -> live k s = Some e ->
  Z.of_nat (length ops) < 2 ^ 64 ->
  let w' := committed (efd_instant p src s) (snap_of p w) in
  let s' := snd (efd_run ops s) in
  Z.testbit (delivered (efd_instant p src' s') (snap_of p w')) 0 =
  is_readable k s' && hits_zero ops k s.
Proof.
  intros Hn Het Hin Hs Hops Hk He Hlen w' s'.
  assert (w_fd w' = w_fd w /\ w_events w' = w_events w /\
    last_ready w' = level (efd_instant p src s) (snap_of p w) /\
    et_rise w' = current_rise (efd_instant p src s) (snap_of p w)) as (E1 & E2 & E3 & E4).
  { unfold w', committed. cbn [s_watch snap_of]. by rewrite Het. }
  destruct (efd_level p src s w k Hn Hin) as [Hslot Hlev].
  destruct (efd_level p src' s' w' k) as [Hslot' Hlev']; [by rewrite E1|by rewrite E2|].
  rewrite delivered_et_bits by (lia || (cbn [s_watch snap_of]; by rewrite E2)).
  rewrite Hlev'. cbn [s_watch snap_of]. rewrite E3, Hlev. unfold rise_moved. rewrite Hslot'.
  cbn [s_watch snap_of]. rewrite E4. unfold current_rise, watch_events. cbn [snd]. rewrite Hslot, Hslot'.
  cbn [efd_instant at_rise]. destruct (efd_run_rises ops s k e Hs Hops Hk He) as (e' & n & He' & Hn' & Hr & Hz).
  fold s' in He'. unfold get_rise_seq, is_readable. rewrite He, He'. simpl.
  destruct (live_ok _ _ _ Hs He) as [[Hc _] _].
  destruct (Z.ltb_spec 0 (counter e')) as [Hc'|]; [|done]. simpl. rewrite Hz by lia.
  destruct (Z.ltb_spec 0 (counter e)) as [Hpos|Hzero].
  - simpl. rewrite Hr. destruct (Z.eqb_spec n 0) as [->|]; [by rewrite Z.eqb_refl|].
    rewrite (proj2 (Z.ltb_lt 0 n)) by lia. apply negb_true_iff, Z.eqb_neq. unfold add64, wrap. intros E.
    pose proof (Z.mod_pos_bound (rise_seq e + n) (2 ^ 64) ltac:(lia)).
    pose proof (Z.div_mod (rise_seq e + n) (2 ^ 64) ltac:(lia)). nia.
  - assert (hits_zero ops k s = true) as Hz1; [|rewrite <- Hz by lia; by rewrite Hz1].
    destruct ops; cbn [hits_zero]; rewrite He, (proj2 (Z.eqb_eq (counter e) 0)) by lia; done.
Qed.

(* ------------------------------------------------------------------ *)
(** ** Concrete runs *)

Definition quiet : Sources :=
  mkSources (fun _ => false) (fun _ => false) (fun _ => false) (fun _ => false) (fun _ => false)
    (fun _ => false) (fun _ => false) (fun _ => false) (fun _ => false) (fun _ => false)
    (fun _ => false) (fun _ => false) (fun _ => false) (fun _ => false) (fun _ => (false, false))
    (fun _ => false).

Definition efd_file (slot : Z) : FileDescriptor := mkFileDescriptor slot 0 false false EventFdFile 0.

(** Descriptor 0 is the instance with id 9; descriptors 1 and 2 name the event
    counters 0 and 1, both watched edge-triggered. *)
Definition demo_inst : EpollInstance :=
  mkEpollInstance 9 0 [mkEpollWatch 1 (EPOLLIN .| EPOLLET) 100 0 0;
                       mkEpollWatch 2 (EPOLLIN .| EPOLLET) 200 0 0].
Definition demo_proc : Process :=
  mkProcess [Some (mkFileDescriptor 9 0 false true CharDevice 0); Some (efd_file 0); Some (efd_file 1)]
    [demo_inst].

(** Both counters posted. *)
Definition demo_posted : EventFds :=
  snd (sys_write 1 1 (snd (sys_write 0 1 (snd (create 0 0 (snd (create 0 0 (efd_boot demo_threads)))))))).
Definition demo_now : Instant := efd_instant demo_proc quiet demo_posted.

Definition demo_call (maxevents : nat) (p : Process) : option (Z * list EpollEvent * Process) :=
  sys_epoll_wait 0 maxevents 0 (efd_instant p quiet demo_posted) (efd_instant p quiet demo_posted) 0 []
    (efd_instant p quiet demo_posted).

Lemma demo_inst_wf : set_wf demo_inst.
Proof. unfold set_wf. simpl. apply list.NoDup_cons. split; [set_solver|apply NoDup_singleton]. Qed.

Lemma epoll_ctl_correct_witness :
  let '(r, p') := sys_epoll_ctl 0 EPOLL_CTL_ADD 1 (Some (mkEpollEvent EPOLLIN 7)) demo_proc in
  r = -17 /\ file_descriptors p' = file_descriptors demo_proc.
Proof.
  pose proof (epoll_ctl_correct 0 EPOLL_CTL_ADD 1 9 (mkEpollEvent EPOLLIN 7) demo_proc demo_inst
    eq_refl eq_refl demo_inst_wf) as H.
  destruct (sys_epoll_ctl 0 EPOLL_CTL_ADD 1 _ demo_proc) as [r p']. destruct H as (H1 & H2 & _).
  split; [exact H1|exact H2].
Defined.

Lemma epoll_wait_contract_witness :
  is_Some (sys_epoll_wait 0 1 100 demo_now demo_now 0 [] demo_now).
Proof.
  apply (epoll_wait_contract 0 1 100 demo_now demo_now 0 [] demo_now 9 demo_inst);
    [lia|reflexivity|reflexivity|]. left. vm_compute. discriminate.
Defined.

Lemma epoll_edge_exact_witness :
  exists inst' w' p', demo_call 4 demo_proc = Some (2, [mkEpollEvent EPOLLIN 100; mkEpollEvent EPOLLIN 200], p') /\
    find_set 9 (epoll_sets p') = Some inst' /\ find_watch 1 (watches inst') = Some w' /\
    w_data w' = 100.
Proof.
  destruct (demo_call 4 demo_proc) as [[[r fired] p']|] eqn:E; [|vm_compute in E; discriminate].
  assert (r = 2 /\ fired = [mkEpollEvent EPOLLIN 100; mkEpollEvent EPOLLIN 200]) as [-> ->]
    by (vm_compute in E; injection E; intros; subst; done).
  destruct (epoll_edge_exact 0 4 0 demo_now demo_now 0 [] demo_now 9 demo_inst
    (mkEpollWatch 1 (EPOLLIN .| EPOLLET) 100 0 0) 2 _ p' eq_refl eq_refl eq_refl demo_inst_wf
    ltac:(left) eq_refl E ltac:(lia)) as (inst' & w' & H1 & H2 & _ & H3 & _).
  exists inst', w', p'. split_and!; [done|done|exact H2|exact H3].
Defined.

Lemma demo_posted_ok : Forall entry_ok (TABLE demo_posted).
Proof.
  assert (efds_ok demo_posted) as H; [|apply H].
  do 2 (eapply efd_step_ok; [apply es_write; lia|]).
  do 2 (eapply efd_step_ok; [apply es_create; unfold U64_MAX; lia|]). apply efd_boot_ok.
Qed.

(** Drained and posted again between two waits, counter 0 fires again. *)
Lemma eventfd_edge_exact_witness :
  let w := mkEpollWatch 1 (EPOLLIN .| EPOLLET) 100 0 0 in
  let w' := committed (efd_instant demo_proc quiet demo_posted) (snap_of demo_proc w) in
  let s' := snd (efd_run [ERead 0; EWrite 0 1] demo_posted) in
  Z.testbit (delivered (efd_instant demo_proc quiet s') (snap_of demo_proc w')) 0 =
  is_readable 0 s' && hits_zero [ERead 0; EWrite 0 1] 0 demo_posted /\
  is_readable 0 s' && hits_zero [ERead 0; EWrite 0 1] 0 demo_posted = true.
Proof.
  split; [|vm_compute; reflexivity].
  apply (eventfd_edge_exact demo_proc quiet quiet (mkEpollWatch 1 (EPOLLIN .| EPOLLET) 100 0 0) 0
    [ERead 0; EWrite 0 1] demo_posted (mkEventFdEntry 1 0 true 1 1)).
  - exists (efd_file 0). done.
  - reflexivity.
  - reflexivity.
  - exact demo_posted_ok.
  - repeat constructor; simpl; lia.
  - lia.
  - vm_compute. reflexivity.
  - simpl. lia.
Defined.

(** With room for one event only, the second ready watch is committed without
    being returned: the next call, nothing having changed, reports nothing. *)
Lemma epoll_maxevents_drops_edge :
  exists p', demo_call 1 demo_proc = Some (1, [mkEpollEvent EPOLLIN 100], p') /\
    match demo_call 4 p' with Some (r, fired, _) => r = 0 /\ fired = [] | None => False end.
Proof.
  destruct (demo_call 1 demo_proc) as [[[r fired] p']|] eqn:E; vm_compute in E; [|discriminate].
  injection E as <- <- <-. eexists. split; [reflexivity|]. vm_compute. done.
Qed.

(** A descriptor that becomes ready between the last poll and the commit is
    committed too, and not reported by the next call. *)
Lemma epoll_commit_race_drops_edge :
  let calm := efd_instant demo_proc quiet (efd_boot demo_threads) in
  exists p', sys_epoll_wait 0 4 0 calm calm 0 [] demo_now = Some (0, [], p') /\
    match demo_call 4 p' with Some (r, fired, _) => r = 0 /\ fired = [] | None => False end.
Proof.
  intros calm.
  destruct (sys_epoll_wait 0 4 0 calm calm 0 [] demo_now) as [[[r fired] p']|] eqn:E;
    vm_compute in E; [|discriminate].
  injection E as <- <- <-. eexists. split; [reflexivity|]. vm_compute. done.
Qed.

(** An inotify descriptor is never ready for [epoll]. *)
Lemma epoll_ignores_inotify src fds fd f :
  fds !! Z.to_nat fd = Some (Some f) -> file_type f = InotifyFdFile -> is_console f = false ->
  epoll_poll_events src fds fd = 0.
Proof. intros Hf Ht Hc. unfold epoll_poll_events. rewrite Hf, Ht, Hc. by destruct (is_epoll f). Qed.
