(* ===== verification/TimerFd.v ===== *)
(** The interval timers of kernel/src/ipc/timerfd.rs: the slot table, the lazy
    expiry count that reads and polls bring up to date, and the
    earliest-expiry hint the timer interrupt consults. Proved: whatever the
    times of the reads and polls, the expirations a periodic timer hands out
    are exactly the scheduled ones it has passed, each once; arming computes
    the hint of the earliest armed slot. *)

From S2P Require Import Prelude.
From S2P Require Import WaitList.

Definition MAX_TIMERFDS : nat := 64.
Definition NS_PER_TICK : Z := 10000000.
Definition TFD_TIMER_ABSTIME : Z := 1.

Record TimerFdEntry := mkTimerFdEntry {
  in_use : bool;
  clockid : Z;
  next_expiry : Z;
  interval_ticks : Z;
  expirations : Z
}.

Definition entry_empty : TimerFdEntry := mkTimerFdEntry false 0 0 0 0.
#[export] Instance entry_inhabited : Inhabited TimerFdEntry := populate entry_empty.

Record TimerFds := mkTimerFds {
  TABLE : list TimerFdEntry;
  EARLIEST_TIMERFD_EXPIRY : Z;
  wk : Wake
}.

Definition mul64 (a b : Z) : Z := wrap 64 (a * b).

Definition live (id : Z) (s : TimerFds) : option TimerFdEntry :=
  match TABLE s !! Z.to_nat id with
  | Some e => if in_use e then Some e else None
  | None => None
  end.

Definition set_slot (id : Z) (e : TimerFdEntry) (s : TimerFds) : TimerFds :=
  mkTimerFds (<[Z.to_nat id := e]> (TABLE s)) (EARLIEST_TIMERFD_EXPIRY s) (wk s).
Definition with_hint (h : Z) (s : TimerFds) : TimerFds := mkTimerFds (TABLE s) h (wk s).

Definition create (clock : Z) (s : TimerFds) : Z * TimerFds :=
  match position (fun e => negb (in_use e)) (TABLE s) with
  | Some i => (Z.of_nat i, mkTimerFds (<[i := mkTimerFdEntry true clock 0 0 0]> (TABLE s))
                             (EARLIEST_TIMERFD_EXPIRY s) (wk s))
  | None => (U64_MAX, s)
  end.

(** The scan that recomputes the hint. *)
Definition earliest (table : list TimerFdEntry) : Z :=
  fold_left (fun acc e =>
    if in_use e && negb (next_expiry e =? 0) && (next_expiry e <? acc) then next_expiry e else acc)
    table U64_MAX.

Definition recompute_hint (s : TimerFds) : TimerFds := with_hint (earliest (TABLE s)) s.

(** The nanoseconds left, 0 when disarmed. *)
Definition remaining_ns (e : TimerFdEntry) (now : Z) : Z :=
  if next_expiry e =? 0 then 0 else mul64 (sat_sub (next_expiry e) now) NS_PER_TICK.

(** The slot as armed by [settime] at tick [now]. *)
Definition arm (fl value_ns interval_ns now : Z) (e : TimerFdEntry) : TimerFdEntry :=
  if value_ns =? 0 then mkTimerFdEntry (in_use e) (clockid e) 0 0 0
  else
    let value_ticks := Z.max (value_ns / NS_PER_TICK) 1 in
    let next := if negb (fl .& TFD_TIMER_ABSTIME =? 0)
                then Z.max (value_ns / NS_PER_TICK) (add64 now 1)
                else add64 now value_ticks in
    mkTimerFdEntry (in_use e) (clockid e) next (interval_ns / NS_PER_TICK) 0.

Definition settime (id fl value_ns interval_ns now : Z) (s : TimerFds) : option (Z * Z) * TimerFds :=
  match live id s with
  | None => (None, s)
  | Some slot =>
      let old_interval := mul64 (interval_ticks slot) NS_PER_TICK in
      let old_value := remaining_ns slot now in
      (Some (old_interval, old_value),
       recompute_hint (set_slot id (arm fl value_ns interval_ns now slot) s))
  end.

(** The slot brought up to [now] and the hint it may lower. *)
Definition update_expirations (now : Z) (slot : TimerFdEntry) (hint : Z) : TimerFdEntry * Z :=
  if (next_expiry slot =? 0) || (now <? next_expiry slot) then (slot, hint)
  else if 0 <? interval_ticks slot then
    let elapsed := add64 (sub64 now (next_expiry slot)) 1 in
    let count := add64 (elapsed / interval_ticks slot) 1 in
    let next := add64 (next_expiry slot) (mul64 count (interval_ticks slot)) in
    (mkTimerFdEntry (in_use slot) (clockid slot) next (interval_ticks slot)
       (add64 (expirations slot) count),
     if next <? hint then next else hint)
  else
    (mkTimerFdEntry (in_use slot) (clockid slot) 0 (interval_ticks slot) (add64 (expirations slot) 1), hint).

Definition flush (id now : Z) (slot : TimerFdEntry) (s : TimerFds) : TimerFdEntry * TimerFds :=
  let '(slot, hint) := update_expirations now slot (EARLIEST_TIMERFD_EXPIRY s) in
  (slot, with_hint hint (set_slot id slot s)).

Definition gettime (id now : Z) (s : TimerFds) : (Z * Z) * TimerFds :=
  match live id s with
  | None => ((0, 0), s)
  | Some slot =>
      let '(slot, s) := flush id now slot s in
      ((mul64 (interval_ticks slot) NS_PER_TICK, remaining_ns slot now), s)
  end.

Definition read (id now : Z) (s : TimerFds) : (Z + Z) * TimerFds :=
  match live id s with
  | None => (inr (-9), s)
  | Some slot =>
      let '(slot, s) := flush id now slot s in
      if expirations slot =? 0 then (inr (-11), s)
      else
        (inl (expirations slot),
         set_slot id (mkTimerFdEntry (in_use slot) (clockid slot) (next_expiry slot)
                        (interval_ticks slot) 0) s)
  end.

Definition is_readable (id now : Z) (s : TimerFds) : bool * TimerFds :=
  match live id s with
  | None => (false, s)
  | Some slot => let '(slot, s) := flush id now slot s in (0 <? expirations slot, s)
  end.

Definition close (id : Z) (s : TimerFds) : TimerFds :=
  recompute_hint (match TABLE s !! Z.to_nat id with Some _ => set_slot id entry_empty s | None => s end).

Definition maybe_ring_from_tick (now : Z) (s : TimerFds) : TimerFds :=
  let hint := EARLIEST_TIMERFD_EXPIRY s in
  if (hint =? U64_MAX) || (now <? hint) then s
  else mkTimerFds (TABLE s) U64_MAX (ring_poll_bell_for BellTimerfd (wk s)).

(* ------------------------------------------------------------------ *)
(** ** Every scheduled expiration once *)

(** Ticks far below the wrap: 2^60 ticks are 365 million years. *)
Definition HORIZON : Z := 2 ^ 60.

Record periodic (e : TimerFdEntry) : Prop := {
  pe_live : in_use e = true;
  pe_interval : 1 <= interval_ticks e <= HORIZON;
  pe_next : 0 < next_expiry e <= 2 * HORIZON + 1;
  pe_count : 0 <= expirations e <= HORIZON + next_expiry e
}.

(** One catch-up advances by whole periods to the first tick after the next
    one, counting each. *)
Lemma update_expirations_spec now e hint :
  periodic e -> 0 <= now <= HORIZON ->
  let '(e', _) := update_expirations now e hint in
  periodic e' /\ interval_ticks e' = interval_ticks e /\ now < next_expiry e' /\
  exists j, 0 <= j /\ next_expiry e' = next_expiry e + j * interval_ticks e /\
    expirations e' = expirations e + j /\
    (0 < j -> next_expiry e' - interval_ticks e <= now + 1).
Proof.
  intros [H1 H2 H3 H4] Hnow. unfold update_expirations. rewrite (proj2 (Z.eqb_neq _ 0)) by lia. simpl.
  destruct (Z.ltb_spec now (next_expiry e)) as [Hlt|Hge].
  { split_and!; [by split|done|done|]. exists 0. split_and!; lia. }
  rewrite (proj2 (Z.ltb_lt 0 _)) by lia. unfold HORIZON in *.
  rewrite (sub64_small now) by (unfold U64_MAX; lia).
  rewrite (add64_small (now - next_expiry e) 1) by (unfold U64_MAX; lia).
  set (I := interval_ticks e) in *. set (el := now - next_expiry e + 1) in *.
  assert (0 <= el / I <= el) as Hdiv.
  { split; [apply Z.div_pos; lia|]. apply Z.div_le_upper_bound; nia. }
  pose proof (Z.div_mod el I ltac:(lia)) as Hdm. pose proof (Z.mod_pos_bound el I ltac:(lia)) as Hmb.
  remember (el / I) as q eqn:Hq. clear Hq.
  rewrite (add64_small q 1) by (unfold U64_MAX; lia).
  unfold mul64. rewrite (wrap_small 64 ((q + 1) * I)) by (unfold in_word; nia).
  rewrite (add64_small (next_expiry e)) by (unfold U64_MAX; nia).
  rewrite (add64_small (expirations e)) by (unfold U64_MAX; nia).
  split_and!; [split; cbn; unfold HORIZON; [done|nia..]|done|cbn; nia|].
  exists (q + 1). cbn. split_and!; [lia|lia|lia|]. intros _. nia.
Qed.

Inductive tfd_op := TRead (id now : Z) | TPoll (id now : Z) | TGet (id now : Z).

Definition op_id (o : tfd_op) : Z := match o with TRead id _ | TPoll id _ | TGet id _ => id end.
Definition op_now (o : tfd_op) : Z := match o with TRead _ n | TPoll _ n | TGet _ n => n end.

(** One access with the expirations it hands out. *)
Definition tfd_exec (o : tfd_op) (s : TimerFds) : Z * TimerFds :=
  match o with
  | TRead id now => let '(r, s) := read id now s in (match r with inl v => v | inr _ => 0 end, s)
  | TPoll id now => (0, snd (is_readable id now s))
  | TGet id now => (0, snd (gettime id now s))
  end.

(** The expirations handed out for slot [k], and the final state. *)
Fixpoint tfd_run (ops : list tfd_op) (k : Z) (s : TimerFds) : Z * TimerFds :=
  match ops with
  | [] => (0, s)
  | o :: ops =>
      let '(v, s) := tfd_exec o s in
      let '(sum, s) := tfd_run ops k s in
      ((if op_id o =? k then v else 0) + sum, s)
  end.

Section timers.
Implicit Types (s : TimerFds) (id k now : Z) (e : TimerFdEntry).

Lemma tfd_live_some id s e : live id s = Some e <-> TABLE s !! Z.to_nat id = Some e /\ in_use e = true.
Proof.
  unfold live. destruct (TABLE s !! Z.to_nat id) as [e'|]; [|naive_solver].
  destruct (in_use e') eqn:E; split; [naive_solver..|done|]. intros [[= ->] ?]. congruence.
Qed.

Lemma tfd_live_set_slot id k e s :
  0 <= id -> 0 <= k -> is_Some (live id s) -> in_use e = true ->
  live k (set_slot id e s) = if k =? id then Some e else live k s.
Proof.
  intros Hid Hk [e' [He' _]%tfd_live_some] Hu. unfold live, set_slot. cbn [TABLE].
  destruct (Z.eqb_spec k id) as [->|Hne].
  - rewrite list_lookup_insert_eq, Hu; [done|]. by apply lookup_lt_Some in He'.
  - rewrite list_lookup_insert_ne by lia. done.
Qed.

(** An access of slot [id] brings it up to date; the read also empties it. *)
Lemma tfd_exec_slot o s e :
  0 <= op_id o -> live (op_id o) s = Some e ->
  let e1 := fst (update_expirations (op_now o) e (EARLIEST_TIMERFD_EXPIRY s)) in
  in_use e1 = true ->
  let '(v, s') := tfd_exec o s in
  exists e', live (op_id o) s' = Some e' /\ in_use e' = true /\
    next_expiry e' = next_expiry e1 /\ interval_ticks e' = interval_ticks e1 /\
    v + expirations e' = expirations e1 /\ (v = 0 \/ expirations e' = 0) /\
    forall k, 0 <= k -> k <> op_id o -> live k s' = live k s.
Proof.
  intros Hid He e1 Hu.
  assert (forall k, 0 <= k -> live k (snd (flush (op_id o) (op_now o) e s)) =
    if k =? op_id o then Some e1 else live k s) as Hflush.
  { intros k Hk. unfold flush. unfold e1 in *. destruct (update_expirations _ _ _) as [e2 h]. cbn [fst] in *.
    rewrite <- (tfd_live_set_slot (op_id o) k e2 s) by (done || eauto). done. }
  assert (fst (flush (op_id o) (op_now o) e s) = e1) as Ef.
  { unfold flush, e1. by destruct (update_expirations _ _ _). }
  destruct o as [id now|id now|id now]; cbn [op_id op_now tfd_exec] in *.
  - unfold read. rewrite He. destruct (flush id now e s) as [e2 s2]. cbn [fst snd] in *. subst e2.
    destruct (Z.eqb_spec (expirations e1) 0) as [E0|E0].
    + exists e1. rewrite Hflush, Z.eqb_refl by done. split_and!; [done..|lia|by left|].
      intros k Hk Hne. rewrite Hflush by done. by rewrite (proj2 (Z.eqb_neq _ _)).
    + exists (mkTimerFdEntry (in_use e1) (clockid e1) (next_expiry e1) (interval_ticks e1) 0).
      assert (is_Some (live id s2)) by (rewrite Hflush, Z.eqb_refl; eauto).
      rewrite tfd_live_set_slot, Z.eqb_refl by done. split_and!; [done..|cbn; lia|by right|].
      intros k Hk Hne. rewrite tfd_live_set_slot, Hflush by done. by rewrite (proj2 (Z.eqb_neq _ _)).
  - unfold is_readable. rewrite He. destruct (flush id now e s) as [e2 s2]. cbn [fst snd] in *. subst e2.
    exists e1. rewrite Hflush, Z.eqb_refl by done. split_and!; [done..|by left|].
    intros k Hk Hne. rewrite Hflush by done. by rewrite (proj2 (Z.eqb_neq _ _)).
  - unfold gettime. rewrite He. destruct (flush id now e s) as [e2 s2]. cbn [fst snd] in *. subst e2.
    exists e1. rewrite Hflush, Z.eqb_refl by done. split_and!; [done..|by left|].
    intros k Hk Hne. rewrite Hflush by done. by rewrite (proj2 (Z.eqb_neq _ _)).
Qed.
Lemma update_live now e hint : in_use (fst (update_expirations now e hint)) = in_use e.
Proof. unfold update_expirations. by repeat case_match. Qed.

(** One access as slot [k] sees it. *)
Lemma tfd_exec_periodic o k s e :
  periodic e -> 0 <= k -> live k s = Some e -> 0 <= op_id o -> 0 <= op_now o <= HORIZON ->
  let '(v, s') := tfd_exec o s in
  exists e' j, live k s' = Some e' /\ periodic e' /\ interval_ticks e' = interval_ticks e /\
    0 <= j /\ next_expiry e' = next_expiry e + j * interval_ticks e /\
    (if op_id o =? k then v else 0) + expirations e' = expirations e + j /\
    (op_id o = k -> op_now o < next_expiry e') /\
    (0 < j -> op_id o = k /\ next_expiry e' - interval_ticks e <= op_now o + 1).
Proof.
  intros He Hk Hlive Hid Hnow.
  destruct (decide (op_id o = k)) as [<-|Hne].
  - pose proof (update_expirations_spec (op_now o) e (EARLIEST_TIMERFD_EXPIRY s) He Hnow) as Hu.
    pose proof (tfd_exec_slot o s e Hid Hlive) as Hx. cbv zeta in Hx. rewrite update_live in Hx.
    specialize (Hx (pe_live _ He)). destruct (update_expirations _ _ _) as [e1 h]. cbn [fst] in Hx.
    destruct Hu as ([P1 P2 P3 P4] & HI & Hlt & j & Hj & Hn & Hc & He1).
    destruct (tfd_exec o s) as [v s']. destruct Hx as (e' & Hl & Hu' & Hn' & Hi' & Hv & Hz & _).
    exists e', j. rewrite Z.eqb_refl, Hn', Hi'. split_and!; [done| |done|done|done|lia|done|].
    + split; rewrite ?Hn', ?Hi'; [done..|]. destruct Hz; lia.
    + intros Hj'. split; [done|]. by apply He1.
  - assert (live k (snd (tfd_exec o s)) = Some e) as Hl'.
    { destruct (live (op_id o) s) as [e0|] eqn:E0.
      - pose proof (tfd_exec_slot o s e0 Hid E0) as Hx. cbv zeta in Hx. rewrite update_live in Hx.
        specialize (Hx (proj2 (proj1 (tfd_live_some _ _ _) E0))). destruct (tfd_exec o s) as [v s'].
        destruct Hx as (e' & _ & _ & _ & _ & _ & _ & Hother). cbn [snd]. rewrite Hother; done.
      - destruct o as [id now|id now|id now]; cbn [op_id tfd_exec] in *;
          unfold read, is_readable, gettime; by rewrite E0. }
    destruct (tfd_exec o s) as [v s']. exists e, 0. rewrite (proj2 (Z.eqb_neq _ _)) by done.
    split_and!; [done..|lia|lia|done|lia].
Qed.
End timers.

(** A periodic timer hands out each scheduled expiration exactly once.
    However reads, polls and queries of any timers interleave and at whatever
    ticks, the expirations read from a timer plus those pending are its
    initial ones plus the whole periods its next expiry advanced by; the next
    expiry is beyond every tick at which the timer was accessed, and the last
    expiration counted was due at the latest one tick after an access. *)
Theorem timerfd_exactly_once (ops : list tfd_op) (k : Z) (s : TimerFds) (e : TimerFdEntry) :
  periodic e -> 0 <= k -> live k s = Some e ->
  Forall (fun o => 0 <= op_id o /\ 0 <= op_now o <= HORIZON) ops ->
  let '(sum, s') := tfd_run ops k s in
  exists e' j, live k s' = Some e' /\ 0 <= j /\
    next_expiry e' = next_expiry e + j * interval_ticks e /\
    sum + expirations e' = expirations e + j /\
    (forall o, o ∈ ops -> op_id o = k -> op_now o < next_expiry e') /\
    (0 < j -> exists o, o ∈ ops /\ op_id o = k /\
       next_expiry e' - interval_ticks e <= op_now o + 1).
Proof.
  intros He Hk Hl Hops. revert s e He Hl.
  induction Hops as [|o ops [Hid Hnow] Hops IH]; intros s e He Hl; cbn [tfd_run].
  { exists e, 0. split_and!; [done|lia|lia|lia| |lia]. intros o Ho. by apply not_elem_of_nil in Ho. }
  pose proof (tfd_exec_periodic o k s e He Hk Hl Hid Hnow) as Hx.
  destruct (tfd_exec o s) as [v s1]. destruct Hx as (e1 & j1 & Hl1 & He1 & HI1 & Hj1 & Hn1 & Hc1 & Ho1 & Hx1).
  specialize (IH s1 e1 He1 Hl1). destruct (tfd_run ops k s1) as [sum s'].
  destruct IH as (e' & j & Hl' & Hj & Hn & Hc & Ho & Hx). rewrite HI1 in *.
  pose proof (pe_interval _ He). exists e', (j1 + j). split_and!; [done|lia|nia|lia| |].
  - intros o' [->|Ho']%list.elem_of_cons Hk'; [|by apply Ho]. specialize (Ho1 Hk'). nia.
  - intros Hpos. destruct (decide (0 < j)) as [Hj0|Hj0].
    + destruct (Hx Hj0) as (o' & Ho' & ?). exists o'. split; [set_solver|done].
    + destruct (Hx1 ltac:(lia)) as [Hk' Hle]. exists o. split_and!; [set_solver|done|].
      assert (j = 0) as -> by lia. lia.
Qed.

(* ------------------------------------------------------------------ *)
(** ** The hint *)

Definition armed (e : TimerFdEntry) : bool := in_use e && negb (next_expiry e =? 0).

Lemma earliest_fold l acc :
  let m := fold_left (fun acc e =>
    if in_use e && negb (next_expiry e =? 0) && (next_expiry e <? acc) then next_expiry e else acc) l acc in
  m <= acc /\ (forall e, e ∈ l -> armed e = true -> m <= next_expiry e) /\
  (m = acc \/ exists e, e ∈ l /\ armed e = true /\ m = next_expiry e).
Proof.
  revert acc. induction l as [|x l IH]; intros acc; cbn [fold_left].
  { split_and!; [lia| |by left]. intros e He. by apply not_elem_of_nil in He. }
  set (acc' := if in_use x && _ && _ then _ else _). destruct (IH acc') as (H1 & H2 & H3).
  assert (acc' <= acc /\ (armed x = true -> acc' <= next_expiry x) /\
    (acc' = acc \/ armed x = true /\ acc' = next_expiry x)) as (A1 & A2 & A3).
  { unfold acc', armed. destruct (in_use x && negb (next_expiry x =? 0)); simpl; [|naive_solver lia].
    destruct (Z.ltb_spec (next_expiry x) acc); naive_solver lia. }
  split_and!; [lia| |].
  - intros e [->|He]%list.elem_of_cons Ha; [specialize (A2 Ha); lia|by apply H2].
  - destruct H3 as [->|(e & He & Ha & ->)]; [|right; exists e; set_solver].
    destruct A3 as [->|[Ha ->]]; [by left|]. right. exists x. set_solver.
Qed.

(** Arming, disarming and closing leave the hint at the earliest expiry of an
    armed slot, or at its maximum when none is armed. *)
Lemma hint_exact s :
  let s' := recompute_hint s in
  (forall e, e ∈ TABLE s' -> armed e = true -> EARLIEST_TIMERFD_EXPIRY s' <= next_expiry e) /\
  (EARLIEST_TIMERFD_EXPIRY s' = U64_MAX \/
   exists e, e ∈ TABLE s' /\ armed e = true /\ EARLIEST_TIMERFD_EXPIRY s' = next_expiry e).
Proof. cbn. destruct (earliest_fold (TABLE s) U64_MAX) as (_ & H2 & H3). split; [exact H2|exact H3]. Qed.

(* ------------------------------------------------------------------ *)
(** ** Concrete runs *)

Definition demo_threads : Wake :=
  mkWake [mkThread 7 Running 0 8 false] 7 [] (replicate N_BELL_SOURCES 0) 0 0 0.

Definition tfd_boot : TimerFds := mkTimerFds (replicate MAX_TIMERFDS entry_empty) U64_MAX demo_threads.

(** Slot 0 every 10 ticks from tick 100, slot 1 once at tick 200. *)
Definition demo_tfds : TimerFds :=
  let s := snd (create 1 (snd (create 1 tfd_boot))) in
  let s := snd (settime 0 0 (100 * NS_PER_TICK) (10 * NS_PER_TICK) 0 s) in
  snd (settime 1 0 (200 * NS_PER_TICK) 0 0 s).

Definition demo_accesses : list tfd_op := [TPoll 0 50; TRead 0 104; TPoll 1 150; TRead 0 130].

Lemma timerfd_exactly_once_witness :
  let '(sum, s') := tfd_run demo_accesses 0 demo_tfds in
  exists e' j, live 0 s' = Some e' /\ 0 <= j /\ next_expiry e' = 100 + j * 10 /\
    sum + expirations e' = j.
Proof.
  pose proof (timerfd_exactly_once demo_accesses 0 demo_tfds (mkTimerFdEntry true 1 100 10 0)
    ltac:(split; cbn; unfold HORIZON; [reflexivity|lia..]) ltac:(lia) ltac:(vm_compute; reflexivity)
    ltac:(unfold HORIZON; repeat constructor; cbn; lia)) as H.
  destruct (tfd_run demo_accesses 0 demo_tfds) as [sum s'].
  destruct H as (e' & j & H1 & H2 & H3 & H4 & _). exists e', j. cbn in H3, H4. repeat split; assumption.
Defined.

(** One tick before its second expiration, at tick 109 of the schedule 100,
    110, ..., the timer already reports two. *)
Lemma timerfd_fires_early : fst (read 0 109 demo_tfds) = inl 2.
Proof. vm_compute. reflexivity. Qed.

(** The interrupt that rings for slot 0 forgets slot 1: at the tick slot 1
    expires, and ever after, no bell rings for it. *)
Lemma timerfd_hint_forgets :
  let s := maybe_ring_from_tick 100 demo_tfds in
  EARLIEST_TIMERFD_EXPIRY demo_tfds = 100 /\ EARLIEST_TIMERFD_EXPIRY s = U64_MAX /\
  (exists e, live 1 s = Some e /\ next_expiry e = 200) /\
  forall now, maybe_ring_from_tick now s = s.
Proof.
  split_and!; [vm_compute; reflexivity..| |].
  - eexists. split; vm_compute; reflexivity.
  - intros now. unfold maybe_ring_from_tick at 1. reflexivity.
Qed.
