(* ===== verification/Security.v ===== *)
(** Access control of kernel/src/security/mod.rs: masks, access-control lists,
    security descriptors and subjects, and the access check. Proved: the check
    decides exactly by the union of the matching deny and allow masks, or by
    the mode bits where there is no list, so the order of the entries does
    not matter and a deny always wins; a descriptor's owner, group and mode
    edits keep the list in step; and the list built from mode bits grants
    everything the mode bits do. *)

From S2P Require Import Prelude.

(** [SecurityId(pub u32)]. *)
Definition SecurityId : Type := Z.
Definition SYSTEM : SecurityId := 0.
Definition WHEEL : SecurityId := 0.

Definition AccessMask : Type := Z.
Definition READ_CONTROL : AccessMask := 1 .<< 17.
Definition FILE_READ_DATA : AccessMask := 1 .<< 0.
Definition FILE_WRITE_DATA : AccessMask := 1 .<< 1.
Definition FILE_APPEND_DATA : AccessMask := 1 .<< 2.
Definition FILE_EXECUTE : AccessMask := 1 .<< 3.
Definition FILE_READ_ATTRIBUTES : AccessMask := 1 .<< 4.
Definition FILE_WRITE_ATTRIBUTES : AccessMask := 1 .<< 5.
Definition FILE_READ_EA : AccessMask := 1 .<< 6.
Definition FILE_WRITE_EA : AccessMask := 1 .<< 7.

Inductive AceType := Allow | Deny | Audit.

Record AccessControlEntry := mkAce {
  ace_type : AceType;
  ace_sid : SecurityId;
  ace_mask : AccessMask;
  ace_flags : Z
}.

Definition ACE_INHERIT_ONLY : Z := 4.

(** [Acl]: its entries. *)
Definition Acl : Type := list AccessControlEntry.

Definition SID_EVERYONE : SecurityId := 0xFFFFFFFF.

Definition mode_to_mask (rwx : Z) : AccessMask :=
  let mask := 0 in
  let mask := if negb (rwx .& 4 =? 0)
    then mask .| (FILE_READ_DATA .| FILE_READ_ATTRIBUTES .| FILE_READ_EA .| READ_CONTROL) else mask in
  let mask := if negb (rwx .& 2 =? 0)
    then mask .| (FILE_WRITE_DATA .| FILE_APPEND_DATA .| FILE_WRITE_ATTRIBUTES .| FILE_WRITE_EA)
    else mask in
  if negb (rwx .& 1 =? 0) then mask .| FILE_EXECUTE else mask.


Definition allow_unless_empty (sid : SecurityId) (mask : AccessMask) : Acl :=
  if mask =? 0 then [] else [mkAce Allow sid mask 0].

Definition from_mode (owner group : SecurityId) (mode : Z) : Acl :=
  allow_unless_empty owner (mode_to_mask ((mode .>> 6) .& 7)) ++
  allow_unless_empty group (mode_to_mask ((mode .>> 3) .& 7)) ++
  allow_unless_empty SID_EVERYONE (mode_to_mask (mode .& 7)).

Definition add_ace (ace : AccessControlEntry) (a : Acl) : Acl := a ++ [ace].

Record SecurityDescriptor := mkSd {
  sd_owner : SecurityId;
  sd_group : SecurityId;
  dacl : option Acl;
  sacl : option Acl;
  mode : Z
}.

Definition sd_new (owner group : SecurityId) (m : Z) : SecurityDescriptor :=
  mkSd owner group (Some (from_mode owner group m)) None m.
Definition user_file (uid gid : Z) : SecurityDescriptor := sd_new uid gid 420. (* 0o644 *)

Definition set_mode (m : Z) (sd : SecurityDescriptor) : SecurityDescriptor :=
  mkSd (sd_owner sd) (sd_group sd) (Some (from_mode (sd_owner sd) (sd_group sd) m)) (sacl sd) m.
Definition set_owner (o : SecurityId) (sd : SecurityDescriptor) : SecurityDescriptor :=
  mkSd o (sd_group sd) (Some (from_mode o (sd_group sd) (mode sd))) (sacl sd) (mode sd).
Definition set_group (g : SecurityId) (sd : SecurityDescriptor) : SecurityDescriptor :=
  mkSd (sd_owner sd) g (Some (from_mode (sd_owner sd) g (mode sd))) (sacl sd) (mode sd).

Record SecuritySubject := mkSubject {
  uid : SecurityId;
  gid : SecurityId;
  groups : list SecurityId;
  is_privileged : bool
}.

Definition system : SecuritySubject := mkSubject SYSTEM WHEEL [] true.
Definition from_credentials (u g : Z) (gs : list Z) : SecuritySubject := mkSubject u g gs (u =? 0).

Definition is_member_of (s : SecuritySubject) (g : SecurityId) : bool :=
  (gid s =? g) || existsb (Z.eqb g) (groups s).

Definition ace_matches_subject (ace : AccessControlEntry) (s : SecuritySubject) (sd : SecurityDescriptor)
    : bool :=
  if (ace_sid ace =? sd_owner sd) && (uid s =? sd_owner sd) then true
  else if (ace_sid ace =? sd_group sd) && is_member_of s (sd_group sd) then true
  else if ace_sid ace =? SID_EVERYONE then true
  else if ace_sid ace =? uid s then true
  else is_member_of s (ace_sid ace).

Definition is_deny (a : AccessControlEntry) : bool := match ace_type a with Deny => true | _ => false end.
Definition is_allow (a : AccessControlEntry) : bool := match ace_type a with Allow => true | _ => false end.
Definition inherit_only (a : AccessControlEntry) : bool := negb (ace_flags a .& ACE_INHERIT_ONLY =? 0).

(** The deny pass: true when some entry refuses. *)
Fixpoint deny_loop (s : SecuritySubject) (sd : SecurityDescriptor) (desired : AccessMask) (l : Acl) : bool :=
  match l with
  | [] => false
  | ace :: l =>
      if negb (is_deny ace) then deny_loop s sd desired l
      else if inherit_only ace then deny_loop s sd desired l
      else if ace_matches_subject ace s sd && negb (ace_mask ace .& desired =? 0) then true
      else deny_loop s sd desired l
  end.

(** The allow pass over what is still wanted. *)
Fixpoint allow_loop (s : SecuritySubject) (sd : SecurityDescriptor) (remaining : AccessMask) (l : Acl) : bool :=
  match l with
  | [] => false
  | ace :: l =>
      if negb (is_allow ace) then allow_loop s sd remaining l
      else if inherit_only ace then allow_loop s sd remaining l
      else if ace_matches_subject ace s sd then
        let remaining := remaining .& notw 32 (ace_mask ace) in
        if remaining =? 0 then true else allow_loop s sd remaining l
      else allow_loop s sd remaining l
  end.

Definition evaluate_dacl (s : SecuritySubject) (l : Acl) (sd : SecurityDescriptor) (desired : AccessMask)
    : bool :=
  if deny_loop s sd desired l then false else allow_loop s sd desired l.

Definition check_mode_bits (s : SecuritySubject) (sd : SecurityDescriptor) (desired : AccessMask) : bool :=
  let mode_bits :=
    if uid s =? sd_owner sd then (mode sd .>> 6) .& 7
    else if is_member_of s (sd_group sd) then (mode sd .>> 3) .& 7
    else mode sd .& 7 in
  let allowed := mode_to_mask mode_bits in
  desired .& allowed =? desired.

Definition check_access (s : SecuritySubject) (sd : SecurityDescriptor) (desired : AccessMask) : bool :=
  if is_privileged s then
    if negb (desired .& FILE_EXECUTE =? 0) && (mode sd .& 73 =? 0) then false (* 0o111 *) else true
  else match dacl sd with
  | Some l => evaluate_dacl s l sd desired
  | None => check_mode_bits s sd desired
  end.

(* ------------------------------------------------------------------ *)
(** ** What the check decides *)

(** The entries that count for a subject: effective on the object itself and
    naming the subject. *)
Definition denies (s : SecuritySubject) (sd : SecurityDescriptor) (a : AccessControlEntry) : bool :=
  is_deny a && negb (inherit_only a) && ace_matches_subject a s sd.
Definition allows (s : SecuritySubject) (sd : SecurityDescriptor) (a : AccessControlEntry) : bool :=
  is_allow a && negb (inherit_only a) && ace_matches_subject a s sd.

(** Does some bit of [desired] occur in the mask? *)
Definition wanted_bit (desired mask : AccessMask) : Prop :=
  exists b, 0 <= b /\ Z.testbit desired b = true /\ Z.testbit mask b = true.

(** The permission of a class (2 read, 1 write, 0 execute) that an access bit
    needs, and where the class of a subject starts in the mode. *)
Definition mode_right (b : Z) : option Z :=
  match b with 0 | 4 | 6 | 17 => Some 2 | 1 | 2 | 5 | 7 => Some 1 | 3 => Some 0 | _ => None end.
Definition class_shift (s : SecuritySubject) (sd : SecurityDescriptor) : Z :=
  if uid s =? sd_owner sd then 6 else if is_member_of s (sd_group sd) then 3 else 0.

Section decide.
Implicit Types (s : SecuritySubject) (sd : SecurityDescriptor) (l : Acl) (a : AccessControlEntry).

Lemma land_wanted m desired : 0 <= desired -> (m .& desired =? 0) = false <-> wanted_bit desired m.
Proof.
  intros Hd. rewrite Z.eqb_neq, nonzero_bit by (apply Z.land_nonneg; by right).
  unfold wanted_bit. setoid_rewrite Z.land_spec. setoid_rewrite andb_true_iff. naive_solver.
Qed.

Lemma deny_loop_spec s sd desired l :
  0 <= desired ->
  deny_loop s sd desired l = true <->
  exists a, a ∈ l /\ denies s sd a = true /\ wanted_bit desired (ace_mask a).
Proof.
  intros Hd. induction l as [|a l IH]; simpl.
  { split; [done|]. intros (a & Ha & _). by apply not_elem_of_nil in Ha. }
  assert ((exists a', a' ∈ a :: l /\ denies s sd a' = true /\ wanted_bit desired (ace_mask a')) <->
    denies s sd a = true /\ wanted_bit desired (ace_mask a) \/
    exists a', a' ∈ l /\ denies s sd a' = true /\ wanted_bit desired (ace_mask a')) as ->.
  { setoid_rewrite list.elem_of_cons. naive_solver. }
  rewrite <- IH. unfold denies at 1. rewrite <- land_wanted by done.
  destruct (is_deny a), (inherit_only a), (ace_matches_subject a s sd), (ace_mask a .& desired =? 0);
    simpl; naive_solver.
Qed.

(** The allow pass succeeds when the masks that count cover the wish. *)
Lemma allow_loop_spec s sd remaining l :
  in_word 32 remaining ->
  allow_loop s sd remaining l = true <->
  (exists a, a ∈ l /\ allows s sd a = true) /\
  forall b, 0 <= b -> Z.testbit remaining b = true ->
    exists a, a ∈ l /\ allows s sd a = true /\ Z.testbit (ace_mask a) b = true.
Proof.
  revert remaining. induction l as [|a l IH]; intros rem Hw.
  { split; [done|]. intros [(a & Ha & _) _]. by apply not_elem_of_nil in Ha. }
  set (rem' := rem .& notw 32 (ace_mask a)).
  assert (allow_loop s sd rem (a :: l) =
    if allows s sd a then if rem' =? 0 then true else allow_loop s sd rem' l else allow_loop s sd rem l) as ->.
  { unfold allows, rem'. simpl. by destruct (is_allow a), (inherit_only a), (ace_matches_subject a s sd). }
  setoid_rewrite list.elem_of_cons.
  destruct (allows s sd a) eqn:Ha.
  2: { rewrite IH by done. split.
    - intros [(x & Hx & ?) Hc]. split; [exists x; auto|]. intros b Hb Ht.
      destruct (Hc b Hb Ht) as (y & ? & ? & ?). exists y; auto.
    - intros [(x & [->|Hx] & ?) Hc]; [congruence|]. split; [by exists x|]. intros b Hb Ht.
      destruct (Hc b Hb Ht) as (y & [->|Hy] & ? & ?); [congruence|]. by exists y. }
  assert (forall b, 0 <= b -> Z.testbit rem' b = Z.testbit rem b && negb (Z.testbit (ace_mask a) b)) as Hbits.
  { intros b Hb. unfold rem'. rewrite Z.land_spec, testbit_notw by lia. decide_on (b < 32) as Hlt; [done|].
    by rewrite (testbit_word_high 32 rem) by (done || lia). }
  assert (in_word 32 rem') as Hw' by (by apply in_word_land_l).
  destruct (Z.eqb_spec rem' 0) as [E|E].
  { split; [|done]. intros _. split; [exists a; naive_solver|]. intros b Hb Ht. exists a.
    specialize (Hbits b Hb). rewrite E, Z.bits_0, Ht in Hbits.
    destruct (Z.testbit (ace_mask a) b); naive_solver. }
  rewrite IH by done. split.
  - intros [(x & Hx & Hax) Hc]. split; [exists a; naive_solver|]. intros b Hb Ht.
    destruct (Z.testbit (ace_mask a) b) eqn:Em; [exists a; naive_solver|].
    destruct (Hc b Hb) as (y & ? & ? & ?); [by rewrite Hbits, Ht, Em|]. exists y. naive_solver.
  - intros [_ Hc]. assert (forall b, 0 <= b -> Z.testbit rem' b = true ->
      exists y, y ∈ l /\ allows s sd y = true /\ Z.testbit (ace_mask y) b = true) as Hl.
    { intros b Hb Ht. rewrite Hbits in Ht by done. apply andb_true_iff in Ht as [Ht Hm%negb_true_iff].
      destruct (Hc b Hb Ht) as (y & [->|Hy] & Hay & Hby); [congruence|]. by exists y. }
    split; [|done]. apply nonzero_bit in E as (b & Hb & Ht); [|apply Hw'].
    destruct (Hl b Hb Ht) as (y & ? & ? & _). by exists y.
Qed.
Lemma mode_to_mask_bits rwx b :
  0 <= b ->
  Z.testbit (mode_to_mask rwx) b = true <-> exists k, mode_right b = Some k /\ Z.testbit rwx k = true.
Proof.
  intros Hb. assert (mode_to_mask rwx = let mask := if Z.testbit rwx 2 then 0x20051 else 0 in
    let mask := if Z.testbit rwx 1 then mask .| 0xA6 else mask in if Z.testbit rwx 0 then mask .| 8 else mask) as ->.
  { unfold mode_to_mask. change 4 with (1 .<< 2). change (rwx .& 2) with (rwx .& (1 .<< 1)). change (rwx .& 1) with (rwx .& (1 .<< 0)).
    rewrite !land_shiftl_1_eqb, !negb_involutive by lia. done. }
  destruct (decide (b < 18)) as [Hlt|Hge].
  - assert (b = 0 \/ b = 1 \/ b = 2 \/ b = 3 \/ b = 4 \/ b = 5 \/ b = 6 \/ b = 7 \/ b = 8 \/ b = 9 \/ b = 10 \/ b = 11 \/ b = 12 \/ b = 13 \/ b = 14 \/ b = 15 \/ b = 16 \/ b = 17) as Hc by lia. clear Hb Hlt.
    destruct (Z.testbit rwx 2) eqn:E2, (Z.testbit rwx 1) eqn:E1, (Z.testbit rwx 0) eqn:E0; repeat destruct Hc as [Hc|Hc]; subst b; cbn;
      (split; [intros Ht; first [discriminate Ht|eexists; split; [reflexivity|eassumption]]
              |intros (k & Hk & Ht); first [discriminate Hk|injection Hk as <-; first [reflexivity|congruence]]]).
  - assert (mode_right b = None) as ->.
    { unfold mode_right. repeat (case_match; try done); lia. }
    assert (forall m, in_word 18 m -> Z.testbit m b = false) as Hh by (intros m Hm; apply (testbit_word_high 18); [done|lia]).
    destruct (Z.testbit rwx 2), (Z.testbit rwx 1), (Z.testbit rwx 0); rewrite Hh by (vm_compute; done); naive_solver.
Qed.

(** The mode bits allow what the class of the subject has. *)
Lemma check_mode_bits_spec s sd desired :
  0 <= desired ->
  check_mode_bits s sd desired = true <->
  forall b, 0 <= b -> Z.testbit desired b = true ->
    exists k, mode_right b = Some k /\ Z.testbit (mode sd) (class_shift s sd + k) = true.
Proof.
  intros Hd. assert (check_mode_bits s sd desired = (desired .& mode_to_mask ((mode sd .>> class_shift s sd) .& 7) =? desired)) as ->.
  { unfold check_mode_bits, class_shift. destruct (uid s =? _); [done|]. by destruct (is_member_of s _). }
  assert (0 <= class_shift s sd) as Hsh by (unfold class_shift; repeat case_match; lia).
  assert (forall b k, mode_right b = Some k -> Z.testbit ((mode sd .>> class_shift s sd) .& 7) k = Z.testbit (mode sd) (class_shift s sd + k)) as Hk.
  { intros b k Hr. assert (k = 0 \/ k = 1 \/ k = 2) as Hc by (unfold mode_right in Hr; repeat case_match; naive_solver).
    rewrite Z.land_spec, Z.shiftr_spec, Z.add_comm by lia. by destruct Hc as [->|[->| ->]]; rewrite andb_true_r. }
  rewrite Z.eqb_eq. split.
  - intros E b Hb Ht. apply (f_equal (fun z => Z.testbit z b)) in E. rewrite Z.land_spec, Ht in E. apply mode_to_mask_bits in E as (k & Hr & E); [|done].
    exists k. by rewrite <- (Hk b).
  - intros Hc. apply Z.bits_inj'. intros b Hb. rewrite Z.land_spec. destruct (Z.testbit desired b) eqn:Ht; [|done].
    apply mode_to_mask_bits; [done|]. destruct (Hc b Hb Ht) as (k & Hr & E). exists k. by rewrite (Hk b).
Qed.
End decide.

(** C35: the access check decides exactly by masks, for a non-empty wish. An
    unprivileged subject gets it on an object with a list exactly when no
    effective deny entry that names it shares a bit with the wish and every
    bit of the wish is in an effective allow entry that names it; entries that
    only apply to children and audit entries never count. On an object without
    a list it gets it exactly when every bit of the wish is one that a read,
    write or execute permission covers and the mode gives that permission to
    its class: the owner's for the owner, else the group's for a member of the
    group, else that of others. A privileged subject gets everything but
    execution of an object with no execute bit, list or not. *)
Theorem check_access_exact (s : SecuritySubject) (sd : SecurityDescriptor) (desired : AccessMask) :
  in_word 32 desired -> desired <> 0 ->
  check_access s sd desired = true <->
  if is_privileged s
  then Z.testbit desired 3 = true -> mode sd .& 73 <> 0
  else match dacl sd with
       | Some l => (forall a, a ∈ l -> denies s sd a = true -> ~ wanted_bit desired (ace_mask a)) /\
           (forall b, 0 <= b -> Z.testbit desired b = true ->
              exists a, a ∈ l /\ allows s sd a = true /\ Z.testbit (ace_mask a) b = true)
       | None => forall b, 0 <= b -> Z.testbit desired b = true ->
           exists k, mode_right b = Some k /\ Z.testbit (mode sd) (class_shift s sd + k) = true
       end.
Proof.
  intros Hw Hne. unfold check_access. destruct (is_privileged s).
  - unfold FILE_EXECUTE. rewrite (land_shiftl_1_eqb desired 3) by lia. rewrite negb_involutive.
    destruct (Z.testbit desired 3), (Z.eqb_spec (mode sd .& 73) 0); simpl; naive_solver.
  - destruct (dacl sd) as [l|]; [|apply check_mode_bits_spec, Hw].
    unfold evaluate_dacl. pose proof (deny_loop_spec s sd desired l ltac:(apply Hw)) as Hd.
    destruct (deny_loop s sd desired l).
    + split; [done|]. intros [Hno _]. destruct Hd as [(a & Ha & Hda & Hb) _]; [done|]. by destruct (Hno a).
    + rewrite allow_loop_spec by done. split.
      * intros [_ Hc]. split; [|done]. intros a Ha Hda Hb. destruct Hd as [_ Hd].
        discriminate Hd. by exists a.
      * intros [_ Hc]. split; [|done]. apply nonzero_bit in Hne as (b & Hb & Ht); [|apply Hw].
        destruct (Hc b Hb Ht) as (a & ? & ? & _). by exists a.
Qed.

Definition with_dacl (l : Acl) (sd : SecurityDescriptor) : SecurityDescriptor :=
  mkSd (sd_owner sd) (sd_group sd) (Some l) (sacl sd) (mode sd).

Lemma evaluate_dacl_mono s sd desired l l' :
  in_word 32 desired ->
  (forall a, a ∈ l' -> denies s sd a = true -> a ∈ l) ->
  (forall a, a ∈ l -> allows s sd a = true -> a ∈ l') ->
  evaluate_dacl s l sd desired = true -> evaluate_dacl s l' sd desired = true.
Proof.
  intros Hw Hd Ha. unfold evaluate_dacl.
  destruct (deny_loop s sd desired l) eqn:E; [done|].
  destruct (deny_loop s sd desired l') eqn:E'.
  { apply deny_loop_spec in E' as (a & Hin & Hda & Hb); [|apply Hw].
    assert (deny_loop s sd desired l = true) as E''; [|congruence].
    apply deny_loop_spec; [apply Hw|]. exists a. auto. }
  rewrite !allow_loop_spec by done. intros [(x & Hx & Hax) Hc]. split; [exists x; auto|].
  intros b Hb Ht. destruct (Hc b Hb Ht) as (y & ? & ? & ?). exists y. auto.
Qed.

(** Only the owner and group of the descriptor matter to an entry. *)
Lemma evaluate_with_dacl s sd desired l m : evaluate_dacl s l (with_dacl m sd) desired = evaluate_dacl s l sd desired.
Proof.
  unfold evaluate_dacl.
  assert (deny_loop s (with_dacl m sd) desired l = deny_loop s sd desired l) as ->
    by (induction l as [|a l IH]; simpl; [done|]; by rewrite IH).
  destruct (deny_loop s sd desired l); [done|]. revert desired.
  induction l as [|a l IH]; intros desired; simpl; [done|]. by rewrite !IH.
Qed.

(** Deny entries have precedence wherever they stand. Reordering a list
    never changes a decision; adding a deny entry anywhere never grants, and
    adding an allow entry anywhere never takes away. *)
Theorem acl_order_and_monotone (s : SecuritySubject) (sd : SecurityDescriptor) (l l' : Acl)
    (a : AccessControlEntry) (desired : AccessMask) :
  in_word 32 desired -> l ≡ₚ l' ->
  check_access s (with_dacl l sd) desired = check_access s (with_dacl l' sd) desired /\
  (is_deny a = true -> check_access s (with_dacl (a :: l) sd) desired = true ->
     check_access s (with_dacl l' sd) desired = true) /\
  (is_allow a = true -> check_access s (with_dacl l sd) desired = true ->
     check_access s (with_dacl (a :: l') sd) desired = true).
Proof.
  intros Hw Hp.
  assert (forall m m', (forall x, x ∈ m' -> denies s sd x = true -> x ∈ m) ->
    (forall x, x ∈ m -> allows s sd x = true -> x ∈ m') ->
    check_access s (with_dacl m sd) desired = true -> check_access s (with_dacl m' sd) desired = true) as Hmono.
  { intros m m' H1 H2. unfold check_access. cbn [mode dacl with_dacl]. destruct (is_privileged s); [done|].
    rewrite !evaluate_with_dacl. by apply evaluate_dacl_mono. }
  assert (forall x, x ∈ l <-> x ∈ l') as Hin by (intros x; by rewrite Hp).
  split_and!.
  - apply eq_iff_eq_true. split; apply Hmono; naive_solver.
  - intros Ht. apply Hmono.
    + intros x Hx _. right. by apply Hin.
    + intros x [->|Hx]%list.elem_of_cons Hax; [|by apply Hin].
      unfold allows, is_allow, is_deny in *. by destruct (ace_type a).
  - intros Ht. apply Hmono.
    + intros x [->|Hx]%list.elem_of_cons Hdx; [|by apply Hin].
      unfold denies, is_allow, is_deny in *. by destruct (ace_type a).
    + intros x Hx _. right. by apply Hin.
Qed.

(* ------------------------------------------------------------------ *)
(** ** Lists and mode bits *)

(** The edits of a descriptor, as [chmod] and [chown] make them. *)
Inductive sd_edit := SetMode (m : Z) | SetOwner (o : SecurityId) | SetGroup (g : SecurityId).

Definition apply_edit (sd : SecurityDescriptor) (e : sd_edit) : SecurityDescriptor :=
  match e with SetMode m => set_mode m sd | SetOwner o => set_owner o sd | SetGroup g => set_group g sd end.

Definition in_step (sd : SecurityDescriptor) : Prop :=
  dacl sd = Some (from_mode (sd_owner sd) (sd_group sd) (mode sd)).

Lemma edits_in_step owner group m edits : in_step (fold_left apply_edit edits (sd_new owner group m)).
Proof.
  assert (forall sd, in_step sd -> in_step (fold_left apply_edit edits sd)) as H; [|by apply H].
  induction edits as [|e edits IH]; intros sd Hsd; simpl; [done|]. apply IH. by destruct e.
Qed.

Lemma from_mode_allow owner group m a : a ∈ from_mode owner group m -> ace_type a = Allow /\ ace_flags a = 0.
Proof.
  unfold from_mode, allow_unless_empty. intros H.
  repeat (apply elem_of_app in H as [H|H] || destruct (_ =? _)); set_solver.
Qed.

(** The entry that carries the class of the subject. *)
Lemma from_mode_class s sd b :
  0 <= b ->
  Z.testbit (mode_to_mask
    (if uid s =? sd_owner sd then (mode sd .>> 6) .& 7
     else if is_member_of s (sd_group sd) then (mode sd .>> 3) .& 7 else mode sd .& 7)) b = true ->
  exists a, a ∈ from_mode (sd_owner sd) (sd_group sd) (mode sd) /\ allows s sd a = true /\
    Z.testbit (ace_mask a) b = true.
Proof.
  intros Hb.
  assert (forall sid m, Z.testbit m b = true -> mkAce Allow sid m 0 ∈ allow_unless_empty sid m) as Hin.
  { intros sid m Ht. unfold allow_unless_empty. destruct (Z.eqb_spec m 0) as [->|]; [|set_solver].
    by rewrite Z.bits_0 in Ht. }
  destruct (Z.eqb_spec (uid s) (sd_owner sd)) as [Eu|Nu]; [|destruct (is_member_of s (sd_group sd)) eqn:Eg];
    intros Ht; apply Hin with (sid := if uid s =? sd_owner sd then sd_owner sd else
      if is_member_of s (sd_group sd) then sd_group sd else SID_EVERYONE) in Ht as Hi.
  all: eexists (mkAce Allow _ _ 0); split_and!; [|..|exact Ht].
  all: unfold from_mode, allows, ace_matches_subject; cbn [is_allow ace_type inherit_only ace_flags ace_sid].
  - rewrite Eu, Z.eqb_refl in Hi. rewrite !elem_of_app. left. exact Hi.
  - by rewrite Eu, !Z.eqb_refl.
  - rewrite (proj2 (Z.eqb_neq _ _) Nu), Eg in Hi. rewrite !elem_of_app. right. left. exact Hi.
  - rewrite Z.eqb_refl, Eg. simpl. by destruct (sd_group sd =? sd_owner sd), (uid s =? sd_owner sd).
  - rewrite (proj2 (Z.eqb_neq _ _) Nu), Eg in Hi. rewrite !elem_of_app. right. right. exact Hi.
  - rewrite Z.eqb_refl, Eg, (proj2 (Z.eqb_neq _ _) Nu), !andb_false_r. done.
Qed.

(** The list kept for a descriptor never takes away what its mode bits
    give: after any sequence of mode, owner and group changes, a request the
    mode bits of the subject's class allow passes the access check. *)
Theorem dacl_grants_mode (owner group : SecurityId) (m : Z) (edits : list sd_edit)
    (s : SecuritySubject) (desired : AccessMask) :
  let sd := fold_left apply_edit edits (sd_new owner group m) in
  in_word 32 desired -> desired <> 0 -> is_privileged s = false ->
  check_mode_bits s sd desired = true -> check_access s sd desired = true.
Proof.
  intros sd Hw Hne Hp Hm. assert (in_step sd) as Hs by apply edits_in_step.
  unfold check_access. rewrite Hp, Hs. unfold evaluate_dacl.
  destruct (deny_loop _ _ _ _) eqn:E.
  { apply deny_loop_spec in E as (a & Ha & Hd & _); [|apply Hw]. apply from_mode_allow in Ha as [Ha _].
    unfold denies, is_deny in Hd. by rewrite Ha in Hd. }
  apply allow_loop_spec; [done|].
  assert (forall b, 0 <= b -> Z.testbit desired b = true ->
    exists a, a ∈ from_mode (sd_owner sd) (sd_group sd) (mode sd) /\ allows s sd a = true /\
      Z.testbit (ace_mask a) b = true) as Hc.
  { intros b Hb Ht. apply from_mode_class; [done|]. unfold check_mode_bits in Hm. apply Z.eqb_eq in Hm.
    apply (f_equal (fun z => Z.testbit z b)) in Hm. rewrite Z.land_spec, Ht in Hm. exact Hm. }
  split; [|done]. apply nonzero_bit in Hne as (b & Hb & Ht); [|apply Hw].
  destruct (Hc b Hb Ht) as (a & ? & ? & _). by exists a.
Qed.

(* ------------------------------------------------------------------ *)
(** ** Concrete cases *)

(** User 1000 of group 50, and a file of user 1000 with a deny for the user. *)
Definition alice : SecuritySubject := from_credentials 1000 50 [].
Definition denied_file : SecurityDescriptor :=
  with_dacl [mkAce Deny 1000 FILE_WRITE_DATA 0; mkAce Allow 1000 (FILE_READ_DATA .| FILE_WRITE_DATA) 0]
    (user_file 1000 50).

(** Without a list: mode 0o640, of which the group may read. *)
Definition listless_file : SecurityDescriptor := mkSd 7 50 None None 416.

Lemma check_access_exact_witness :
  check_access alice denied_file FILE_READ_DATA = true /\ check_access alice listless_file FILE_READ_DATA = true.
Proof.
  assert (in_word 32 FILE_READ_DATA) as Hw by (unfold in_word; vm_compute; split; done).
  assert (FILE_READ_DATA <> 0) as Hne by (vm_compute; discriminate).
  assert (forall b, Z.testbit FILE_READ_DATA b = true -> b = 0) as Hb0.
  { intros b Ht. destruct (decide (0 <= b)) as [Hb|Hb]; [|by rewrite Z.testbit_neg_r in Ht by lia].
    unfold FILE_READ_DATA in Ht. rewrite testbit_shiftl_1 in Ht by lia. by apply bool_decide_eq_true in Ht. }
  split.
  - apply (check_access_exact alice denied_file FILE_READ_DATA Hw Hne). cbv [is_privileged alice from_credentials denied_file with_dacl dacl].
    split.
    + intros a Ha Hd (b & Hb & Ht & Hm). apply Hb0 in Ht. subst b.
      repeat (apply list.elem_of_cons in Ha as [->|Ha]); [discriminate Hm|discriminate Hd|].
      by apply not_elem_of_nil in Ha.
    + intros b Hb Ht. exists (mkAce Allow 1000 (FILE_READ_DATA .| FILE_WRITE_DATA) 0).
      split; [set_solver|]. split; [reflexivity|]. apply Hb0 in Ht. subst b. reflexivity.
  - apply (check_access_exact alice listless_file FILE_READ_DATA Hw Hne). cbv [is_privileged alice from_credentials listless_file dacl].
    intros b Hb Ht. apply Hb0 in Ht. subst b. exists 2. split; reflexivity.
Defined.

Lemma acl_order_and_monotone_witness :
  let deny := mkAce Deny 1000 FILE_WRITE_DATA 0 in
  let allow := mkAce Allow 1000 (FILE_READ_DATA .| FILE_WRITE_DATA) 0 in
  check_access alice (with_dacl [deny; allow] (user_file 1000 50)) FILE_WRITE_DATA =
  check_access alice (with_dacl [allow; deny] (user_file 1000 50)) FILE_WRITE_DATA.
Proof.
  exact (proj1 (acl_order_and_monotone alice (user_file 1000 50) _ _ (mkAce Deny 1 0 0) FILE_WRITE_DATA
    ltac:(unfold in_word; vm_compute; split; done) ltac:(apply Permutation_swap))).
Defined.

Lemma dacl_grants_mode_witness :
  check_access alice (fold_left apply_edit [SetMode 384; SetOwner 1000] (sd_new 5 50 0)) FILE_WRITE_DATA = true.
Proof.
  apply (dacl_grants_mode 5 50 0 [SetMode 384; SetOwner 1000] alice FILE_WRITE_DATA);
    [unfold in_word; vm_compute; split; done|vm_compute; discriminate|reflexivity|vm_compute; reflexivity].
Defined.

(** The other way round fails: with mode 0o007 the owner is refused by the
    mode bits and admitted by the list, whose last entry names everyone. *)
Lemma owner_gets_other_bits :
  let sd := sd_new 1000 50 7 in
  check_mode_bits alice sd FILE_READ_DATA = false /\ check_access alice sd FILE_READ_DATA = true.
Proof. vm_compute. done. Qed.

(** User and group ids share one name space in entries: a member of group 5
    passes as user 5, here on a file only its owner may touch (mode 0o700). *)
Lemma group_id_passes_as_owner :
  let bob := from_credentials 1001 5 [] in
  let sd := sd_new 5 50 448 in
  check_mode_bits bob sd FILE_WRITE_DATA = false /\ check_access bob sd FILE_WRITE_DATA = true.
Proof. vm_compute. done. Qed.
