(* ===== verification/Token.v ===== *)
(** Security identifiers, privileges and access tokens: sid.rs, privilege.rs
    and token.rs of kernel/src/security, and the token access check of its
    mod.rs. Strings are lists of byte values. Proved: the text of an
    identifier determines it, adjusting one privilege changes that one only,
    and the id of a destroyed token is never given to another. *)

From S2P Require Import Prelude.
From S2P Require Import Security.

(* ------------------------------------------------------------------ *)
(** ** Identifiers *)

Record Sid := mkSid {
  revision : Z;
  authority : list Z;
  sub_authorities : list Z
}.

#[export] Instance sid_eq_dec : EqDecision Sid.
Proof. solve_decision. Defined.

Definition sid_eqb (a b : Sid) : bool := bool_decide (a = b).

Definition from_components (auth subs : list Z) : Sid := mkSid 1 auth subs.

(** The digits [push_u64] pushes, least significant first. *)
Fixpoint push_loop (fuel : nat) (s : list Z) (val : Z) : option (list Z) :=
  if 0 <? val then
    match fuel with
    | O => None
    | S fuel => push_loop fuel (s ++ [val mod 10 + 48]) (val / 10)
    end
  else Some s.

(** A 64-bit value has at most 20 digits. *)
Definition push_u64 (s : list Z) (val : Z) : option (list Z) :=
  if val =? 0 then Some (s ++ [48])
  else
    let start := length s in
    match push_loop 20 s val with
    | Some s => Some (take start s ++ rev (drop start s))
    | None => None
    end.

Definition authority_value (a : list Z) : Z :=
  ((a !!! 0%nat) .<< 40) .| ((a !!! 1%nat) .<< 32) .| ((a !!! 2%nat) .<< 24)
  .| ((a !!! 3%nat) .<< 16) .| ((a !!! 4%nat) .<< 8) .| (a !!! 5%nat).

Definition push_sub (s : option (list Z)) (sa : Z) : option (list Z) :=
  match s with Some s => push_u64 (s ++ [45]) sa | None => None end.

Definition to_string_repr (sid : Sid) : option (list Z) :=
  match push_u64 [83; 45] (revision sid) with
  | None => None
  | Some s =>
      let s := s ++ [45] in
      fold_left push_sub (sub_authorities sid) (push_u64 s (authority_value (authority sid)))
  end.

Definition nt (val : Z) : list Z := [0; 0; 0; 0; 0; val].
Definition sid_null : Sid := from_components (nt 0) [0].
Definition sid_world : Sid := from_components (nt 1) [0].
Definition sid_local_system : Sid := from_components (nt 5) [18].
Definition sid_builtin_admins : Sid := from_components (nt 5) [32; 544].
Definition sid_builtin_users : Sid := from_components (nt 5) [32; 545].
Definition sid_user (rid : Z) : Sid := from_components (nt 5) [21; rid].


Record sid_ok (s : Sid) : Prop := {
  so_rev : 0 <= revision s <= U8_MAX;
  so_len : length (authority s) = 6%nat;
  so_auth : Forall (fun b => 0 <= b <= U8_MAX) (authority s);
  so_subs : Forall (fun x => 0 <= x <= U32_MAX) (sub_authorities s)
}.

(* ------------------------------------------------------------------ *)
(** ** Decimal text *)

(** The decimal text of a value, most significant digit first. *)
Fixpoint digits (fuel : nat) (v : Z) : list Z :=
  match fuel with
  | O => []
  | S fuel => if 0 <? v then digits fuel (v / 10) ++ [v mod 10 + 48] else []
  end.

Definition dec (v : Z) : list Z := if v =? 0 then [48] else digits 20 v.

(** Reading it back. *)
Definition undec (l : list Z) : Z := fold_left (fun a c => a * 10 + (c - 48)) l 0.

Lemma push_loop_eq fuel s v :
  0 <= v < 10 ^ Z.of_nat fuel -> push_loop fuel s v = Some (s ++ rev (digits fuel v)).
Proof.
  revert s v. induction fuel as [|fuel IH]; intros s v Hv; cbn [push_loop digits].
  { change (10 ^ Z.of_nat 0) with 1 in Hv. assert (v = 0) as -> by lia. by rewrite app_nil_r. }
  destruct (Z.ltb_spec 0 v); [|by rewrite app_nil_r].
  rewrite IH.
  - by rewrite rev_app_distr, <- app_assoc.
  - rewrite Nat2Z.inj_succ, Z.pow_succ_r in Hv by lia.
    split; [apply Z.div_pos; lia|]. apply Z.div_lt_upper_bound; lia.
Qed.

Lemma push_u64_eq s v : 0 <= v <= U64_MAX -> push_u64 s v = Some (s ++ dec v).
Proof.
  intros Hv. unfold push_u64, dec. destruct (v =? 0); [done|].
  rewrite push_loop_eq by (change (10 ^ Z.of_nat 20) with 100000000000000000000; unfold U64_MAX in Hv; lia).
  by rewrite take_app_length, drop_app_length, rev_involutive.
Qed.

Lemma undec_app l c : undec (l ++ [c]) = undec l * 10 + (c - 48).
Proof. unfold undec. by rewrite fold_left_app. Qed.

Lemma undec_digits fuel v : 0 <= v < 10 ^ Z.of_nat fuel -> undec (digits fuel v) = v.
Proof.
  revert v. induction fuel as [|fuel IH]; intros v Hv; cbn [digits].
  { change (10 ^ Z.of_nat 0) with 1 in Hv. unfold undec. simpl. lia. }
  destruct (Z.ltb_spec 0 v); [|unfold undec; simpl; lia].
  rewrite undec_app, IH.
  - pose proof (Z.div_mod v 10 ltac:(lia)). lia.
  - rewrite Nat2Z.inj_succ, Z.pow_succ_r in Hv by lia.
    split; [apply Z.div_pos; lia|]. apply Z.div_lt_upper_bound; lia.
Qed.

Lemma undec_dec v : 0 <= v <= U64_MAX -> undec (dec v) = v.
Proof.
  intros Hv. unfold dec. destruct (Z.eqb_spec v 0) as [->|]; [done|].
  apply undec_digits. change (10 ^ Z.of_nat 20) with 100000000000000000000. unfold U64_MAX in Hv. lia.
Qed.

(** No digit is the separator. *)
Lemma dec_no_dash v : Forall (fun c => c <> 45) (dec v).
Proof.
  assert (forall fuel v, Forall (fun c => c <> 45) (digits fuel v)) as H.
  { induction fuel as [|fuel IH]; intros x; cbn [digits]; [constructor|].
    destruct (0 <? x); [|constructor]. apply list.Forall_app. split; [apply IH|].
    apply Forall_singleton. pose proof (Z.mod_pos_bound x 10 ltac:(lia)). lia. }
  unfold dec. destruct (v =? 0); [apply Forall_singleton; lia|apply H].
Qed.

(** The text as dash-separated fields. *)
Definition join (fields : list (list Z)) : list Z := flat_map (fun f => 45 :: f) fields.

Lemma join_inj (xs ys : list (list Z)) :
  Forall (Forall (fun c => c <> 45)) xs -> Forall (Forall (fun c => c <> 45)) ys ->
  join xs = join ys -> xs = ys.
Proof.
  assert (forall (f g r r' : list Z), Forall (fun c => c <> 45) f -> Forall (fun c => c <> 45) g ->
    (r = [] \/ exists t, r = 45 :: t) -> (r' = [] \/ exists t, r' = 45 :: t) ->
    f ++ r = g ++ r' -> f = g /\ r = r') as Hsplit.
  { intros f. induction f as [|c f IH]; intros g r r' Hf Hg Hr Hr' E; destruct g as [|d g]; simpl in E.
    - done.
    - apply Forall_cons_iff in Hg as [Hd _]. destruct Hr as [->|[t ->]]; simplify_eq.
    - apply Forall_cons_iff in Hf as [Hd _]. destruct Hr' as [->|[t ->]]; simplify_eq.
    - apply Forall_cons_iff in Hf as [_ Hf]. apply Forall_cons_iff in Hg as [_ Hg].
      injection E as -> E. destruct (IH g r r' Hf Hg Hr Hr' E) as [-> ->]. done. }
  assert (forall l, join l = [] \/ exists t, join l = 45 :: t) as Hj.
  { intros [|x l]; [by left|right]. by eexists. }
  intros Hx. revert ys. induction Hx as [|x xs Hx Hxs IH]; intros ys Hy E.
  - destruct ys; [done|]. discriminate E.
  - destruct ys as [|y ys]; [discriminate E|]. apply Forall_cons_iff in Hy as [Hy Hys].
    injection E as E. destruct (Hsplit x y _ _ Hx Hy (Hj xs) (Hj ys) E) as [-> E'].
    f_equal. by apply IH.
Qed.

Lemma lor_shiftl_add x y k : 0 <= k -> 0 <= y < 2 ^ k -> (x .<< k) .| y = x * 2 ^ k + y.
Proof.
  intros Hk Hy. rewrite <- Z.shiftl_mul_pow2 by done. rewrite <- Z.add_nocarry_lor; [done|].
  apply Z.bits_inj_iff'. intros i Hi. rewrite Z.land_spec, Z.bits_0.
  destruct (decide (i < k)) as [Hlt|Hge].
  - by rewrite Z.shiftl_spec_low.
  - by rewrite (testbit_word_high k y), andb_false_r by (done || lia).
Qed.

Lemma authority_value_sum (a0 a1 a2 a3 a4 a5 : Z) :
  Forall (fun b => 0 <= b <= U8_MAX) [a0; a1; a2; a3; a4; a5] ->
  authority_value [a0; a1; a2; a3; a4; a5] =
  a0 * 2 ^ 40 + (a1 * 2 ^ 32 + (a2 * 2 ^ 24 + (a3 * 2 ^ 16 + (a4 * 2 ^ 8 + a5)))).
Proof.
  intros H. repeat (apply Forall_cons_iff in H as [? H]). unfold U8_MAX in *.
  unfold authority_value. cbn [lookup_total list_lookup_total]. rewrite <- !Z.lor_assoc.
  rewrite (lor_shiftl_add a4 a5) by lia. rewrite (lor_shiftl_add a3) by lia.
  rewrite (lor_shiftl_add a2) by lia. rewrite (lor_shiftl_add a1) by lia.
  rewrite (lor_shiftl_add a0) by lia. done.
Qed.

Lemma base_split K x y x' y' :
  0 <= y < K -> 0 <= y' < K -> x * K + y = x' * K + y' -> x = x' /\ y = y'.
Proof. intros. assert (x = x') as -> by nia. split; [done|lia]. Qed.

Definition fields (s : Sid) : list (list Z) :=
  dec (revision s) :: dec (authority_value (authority s)) :: map dec (sub_authorities s).

Lemma to_string_fields s : sid_ok s -> to_string_repr s = Some ([83] ++ join (fields s)).
Proof.
  intros [H1 H2 H3 H4]. unfold to_string_repr.
  rewrite push_u64_eq by (unfold U8_MAX, U64_MAX in *; lia).
  destruct (authority s) as [|a0 [|a1 [|a2 [|a3 [|a4 [|a5 [|? ?]]]]]]] eqn:Ea; try discriminate H2.
  pose proof (authority_value_sum a0 a1 a2 a3 a4 a5 H3) as Hv.
  repeat (apply Forall_cons_iff in H3 as [? H3]). unfold U8_MAX in *.
  rewrite push_u64_eq by (rewrite Hv; unfold U64_MAX; lia). clear Hv.
  assert (forall l acc, Forall (fun x => 0 <= x <= U32_MAX) l ->
    fold_left push_sub l (Some acc) = Some (acc ++ join (map dec l))) as Hfold.
  { induction l as [|x l IH]; intros acc Hl; simpl; [by rewrite app_nil_r|].
    apply Forall_cons_iff in Hl as [Hx Hl].
    rewrite push_u64_eq by (unfold U32_MAX, U64_MAX in *; lia). rewrite IH by done.
    by rewrite <- !app_assoc. }
  rewrite Hfold by done. unfold fields. rewrite Ea. simpl. by rewrite <- !app_assoc.
Qed.

(** The text of an identifier determines it: every well-formed identifier
    has one, and two with the same text are the same identifier. *)
Theorem sid_string_injective (a b : Sid) :
  sid_ok a -> sid_ok b ->
  is_Some (to_string_repr a) /\ (to_string_repr a = to_string_repr b -> a = b).
Proof.
  intros Ha Hb. rewrite !to_string_fields by done. split; [done|]. intros E0.
  assert ([83] ++ join (fields a) = [83] ++ join (fields b)) as E by congruence. apply app_inv_head in E.
  assert (forall s, Forall (Forall (fun c => c <> 45)) (fields s)) as Hf.
  { intros s. unfold fields. do 2 (apply Forall_cons_iff; split; [apply dec_no_dash|]).
    apply list.Forall_forall. intros x Hx. apply list_elem_of_In, in_map_iff in Hx as (y & <- & _).
    apply dec_no_dash. }
  apply join_inj in E; [|apply Hf..]. unfold fields in E. injection E as Er Eauth Es.
  destruct Ha as [A1 A2 A3 A4], Hb as [B1 B2 B3 B4].
  destruct a as [ra la sa], b as [rb lb sb]; cbn in *.
  apply (f_equal undec) in Er. rewrite !undec_dec in Er by (unfold U8_MAX, U64_MAX in *; lia).
  assert (sa = sb) as ->.
  { apply (f_equal (map undec)) in Es. rewrite !map_map in Es.
    rewrite (map_ext_in _ (fun x => x) sa), (map_ext_in _ (fun x => x) sb), !map_id in Es; [done|..];
      intros x Hx%list_elem_of_In; apply undec_dec; rewrite list.Forall_forall in A4, B4;
      [specialize (B4 x Hx)|specialize (A4 x Hx)]; unfold U32_MAX, U64_MAX in *; lia. }
  destruct la as [|a0 [|a1 [|a2 [|a3 [|a4 [|a5 [|? ?]]]]]]]; try discriminate A2.
  destruct lb as [|b0 [|b1 [|b2 [|b3 [|b4 [|b5 [|? ?]]]]]]]; try discriminate B2.
  apply (f_equal undec) in Eauth. rewrite !authority_value_sum in Eauth by done.
  repeat (apply Forall_cons_iff in A3 as [? A3]). repeat (apply Forall_cons_iff in B3 as [? B3]).
  unfold U8_MAX in *. rewrite !undec_dec in Eauth by (unfold U64_MAX; lia).
  apply base_split in Eauth as [<- Eauth]; [|lia..]. apply base_split in Eauth as [<- Eauth]; [|lia..].
  apply base_split in Eauth as [<- Eauth]; [|lia..]. apply base_split in Eauth as [<- Eauth]; [|lia..].
  apply base_split in Eauth as [<- <-]; [|lia..]. by rewrite Er.
Qed.

(* ------------------------------------------------------------------ *)
(** ** Privileges *)

Inductive Privilege :=
  | SeAssignPrimaryTokenPrivilege | SeIncreaseQuotaPrivilege | SeTcbPrivilege | SeSecurityPrivilege
  | SeTakeOwnershipPrivilege | SeLoadDriverPrivilege | SeSystemProfilePrivilege | SeSystemtimePrivilege
  | SeProfileSingleProcessPrivilege | SeIncreaseBasePriorityPrivilege | SeCreatePagefilePrivilege
  | SeCreatePermanentPrivilege | SeBackupPrivilege | SeRestorePrivilege | SeShutdownPrivilege
  | SeDebugPrivilege | SeAuditPrivilege | SeSystemEnvironmentPrivilege | SeChangeNotifyPrivilege
  | SeUndockPrivilege | SeManageVolumePrivilege | SeImpersonatePrivilege | SeCreateGlobalPrivilege.

#[export] Instance privilege_eq_dec : EqDecision Privilege.
Proof. solve_decision. Defined.

Definition priv_eqb (a b : Privilege) : bool := bool_decide (a = b).

Record PrivilegeAttributes := mkPrivAttr { p_enabled : bool; enabled_by_default : bool }.
Record TokenPrivilege := mkTokenPrivilege { privilege : Privilege; attributes : PrivilegeAttributes }.

Definition ALL_PRIVILEGES : list Privilege :=
  [SeAssignPrimaryTokenPrivilege; SeIncreaseQuotaPrivilege; SeTcbPrivilege; SeSecurityPrivilege;
   SeTakeOwnershipPrivilege; SeLoadDriverPrivilege; SeSystemProfilePrivilege; SeSystemtimePrivilege;
   SeProfileSingleProcessPrivilege; SeIncreaseBasePriorityPrivilege; SeCreatePagefilePrivilege;
   SeCreatePermanentPrivilege; SeBackupPrivilege; SeRestorePrivilege; SeShutdownPrivilege;
   SeDebugPrivilege; SeAuditPrivilege; SeSystemEnvironmentPrivilege; SeChangeNotifyPrivilege;
   SeUndockPrivilege; SeManageVolumePrivilege; SeImpersonatePrivilege; SeCreateGlobalPrivilege].

Definition all_admin_privileges : list TokenPrivilege :=
  map (fun p => mkTokenPrivilege p (mkPrivAttr true true)) ALL_PRIVILEGES.

Definition default_user_privileges : list TokenPrivilege :=
  map (fun p => let b := priv_eqb p SeChangeNotifyPrivilege in mkTokenPrivilege p (mkPrivAttr b b))
    ALL_PRIVILEGES.

(* ------------------------------------------------------------------ *)
(** ** Tokens *)

Inductive TokenType := Primary | Impersonation.
Inductive ImpersonationLevel :=
  | SecurityAnonymous | SecurityIdentification | SecurityImpersonation | SecurityDelegation.

Record TokenGroup := mkTokenGroup {
  g_sid : Sid; g_enabled : bool; mandatory : bool; g_owner : bool; deny_only : bool }.
Record TokenSource := mkTokenSource { ts_name : list Z; ts_id : Z }.

Record AccessToken := mkAccessToken {
  tok_id : Z;
  token_type : TokenType;
  impersonation_level : option ImpersonationLevel;
  user : Sid;
  tok_groups : list TokenGroup;
  privileges : list TokenPrivilege;
  primary_group : Sid;
  default_dacl : option (list AccessControlEntry);
  source : TokenSource;
  session_id : Z
}.

(** The constructors take the id [alloc_token_id] returned. *)
Definition new_system_token (id : Z) : AccessToken :=
  mkAccessToken id Primary None sid_local_system
    [mkTokenGroup sid_builtin_admins true true true false; mkTokenGroup sid_world true true false false]
    all_admin_privileges sid_local_system None
    (mkTokenSource [42; 83; 89; 83; 84; 69; 77; 42] 0) 0.

Definition new_user_token (id : Z) (user_sid : Sid) (gs : list TokenGroup) : AccessToken :=
  let primary := match gs with g :: _ => g_sid g | [] => sid_builtin_users end in
  mkAccessToken id Primary None user_sid gs default_user_privileges primary None
    (mkTokenSource [85; 115; 101; 114; 51; 50; 0; 0] 0) 1.

Definition token_has_privilege (t : AccessToken) (p : Privilege) : bool :=
  existsb (fun tp => priv_eqb (privilege tp) p && p_enabled (attributes tp)) (privileges t).

Definition with_privileges (l : list TokenPrivilege) (t : AccessToken) : AccessToken :=
  mkAccessToken (tok_id t) (token_type t) (impersonation_level t) (user t) (tok_groups t) l
    (primary_group t) (default_dacl t) (source t) (session_id t).

Definition set_privilege (b : bool) (p : Privilege) (t : AccessToken) : bool * AccessToken :=
  if existsb (fun tp => priv_eqb (privilege tp) p) (privileges t) then
    (true, with_privileges (update_first (fun tp => priv_eqb (privilege tp) p)
       (fun tp => mkTokenPrivilege (privilege tp) (mkPrivAttr b (enabled_by_default (attributes tp))))
       (privileges t)) t)
  else (false, t).

Definition token_enable_privilege : Privilege -> AccessToken -> bool * AccessToken := set_privilege true.
Definition token_disable_privilege : Privilege -> AccessToken -> bool * AccessToken := set_privilege false.

Definition token_check_membership (t : AccessToken) (sid : Sid) : bool :=
  sid_eqb (user t) sid ||
  existsb (fun g => g_enabled g && negb (deny_only g) && sid_eqb (g_sid g) sid) (tok_groups t).

Definition duplicate_token (id : Z) (t : AccessToken) (new_type : TokenType)
    (lvl : option ImpersonationLevel) : AccessToken :=
  mkAccessToken id new_type lvl (user t) (tok_groups t) (privileges t) (primary_group t)
    (default_dacl t) (source t) (session_id t).

(** The registry and the id counter. *)
Record Tokens := mkTokens {
  NEXT_TOKEN_ID : Z;
  TOKEN_REGISTRY : option (gmap Z AccessToken)
}.

Definition ensure_registry (r : option (gmap Z AccessToken)) : gmap Z AccessToken :=
  match r with Some m => m | None => ∅ end.

Definition create_system_token (s : Tokens) : Z * Tokens :=
  let id := NEXT_TOKEN_ID s in
  (id, mkTokens (add64 id 1) (Some (<[id := new_system_token id]> (ensure_registry (TOKEN_REGISTRY s))))).

Definition create_user_token (user_sid : Sid) (gs : list TokenGroup) (s : Tokens) : Z * Tokens :=
  let id := NEXT_TOKEN_ID s in
  (id, mkTokens (add64 id 1)
         (Some (<[id := new_user_token id user_sid gs]> (ensure_registry (TOKEN_REGISTRY s))))).

Definition with_token {R} (id : Z) (f : AccessToken -> R) (s : Tokens) : option R :=
  match TOKEN_REGISTRY s with Some m => f <$> (m !! id) | None => None end.

Definition with_token_mut {R} (id : Z) (f : AccessToken -> R * AccessToken) (s : Tokens) : option R * Tokens :=
  let m := ensure_registry (TOKEN_REGISTRY s) in
  match m !! id with
  | Some t => let '(r, t) := f t in (Some r, mkTokens (NEXT_TOKEN_ID s) (Some (<[id := t]> m)))
  | None => (None, mkTokens (NEXT_TOKEN_ID s) (Some m))
  end.

Definition destroy_token (id : Z) (s : Tokens) : Tokens :=
  mkTokens (NEXT_TOKEN_ID s) (delete id <$> TOKEN_REGISTRY s).

(** [Vec::last]. *)
Definition last_of {A} (l : list A) : option A := l !! (length l - 1)%nat.

(** The subject [check_token_access] builds: an identifier stands for its last
    sub-authority. *)
Definition last_sub (s : Sid) : Z := match last_of (sub_authorities s) with Some x => x | None => U32_MAX end.

Definition token_subject (t : AccessToken) : SecuritySubject :=
  let group_ids := flat_map (fun g => match last_of (sub_authorities (g_sid g)) with Some x => [x] | None => [] end)
    (List.filter (fun g => g_enabled g && negb (deny_only g)) (tok_groups t)) in
  mkSubject (last_sub (user t)) (last_sub (primary_group t)) group_ids
    ((last_sub (user t) =? 0) || sid_eqb (user t) sid_local_system).

Definition check_token_access (t : AccessToken) (sd : SecurityDescriptor) (desired : AccessMask) : bool :=
  if sid_eqb (user t) sid_local_system then true
  else check_access (token_subject t) sd desired.

(* ------------------------------------------------------------------ *)
(** ** Adjusting privileges *)

Lemma ALL_PRIVILEGES_NoDup : NoDup ALL_PRIVILEGES.
Proof. apply (bool_decide_unpack _). vm_compute. exact I. Qed.

(** Tokens carry each privilege at most once. *)
Definition privs_ok (t : AccessToken) : Prop := NoDup (map privilege (privileges t)).

Lemma has_privilege_spec t p :
  token_has_privilege t p = true <->
  exists tp, tp ∈ privileges t /\ privilege tp = p /\ p_enabled (attributes tp) = true.
Proof.
  unfold token_has_privilege. rewrite existsb_exists. setoid_rewrite <- list_elem_of_In.
  setoid_rewrite andb_true_iff. unfold priv_eqb. setoid_rewrite bool_decide_eq_true. done.
Qed.

Lemma set_privilege_spec b p t :
  privs_ok t ->
  let '(found, t') := set_privilege b p t in
  found = bool_decide (p ∈ map privilege (privileges t)) /\
  map privilege (privileges t') = map privilege (privileges t) /\
  forall q, token_has_privilege t' q =
    if found && priv_eqb q p then b else token_has_privilege t q.
Proof.
  intros Hn. unfold set_privilege, privs_ok, token_has_privilege in *.
  destruct t as [id ty lvl us gs l pg dd so se]; cbn [privileges with_privileges] in *.
  assert (existsb (fun tp => priv_eqb (privilege tp) p) l = bool_decide (p ∈ map privilege l)) as E.
  { clear Hn. induction l as [|x l IH]; simpl; [done|]. rewrite IH. unfold priv_eqb.
    repeat case_bool_decide; set_solver. }
  rewrite E. case_bool_decide as Hin; cbn [privileges with_privileges].
  2: { split_and!; [done..|]. intros q. done. }
  split_and!; [done| |].
  - clear E Hin Hn. induction l as [|x l IH]; simpl; [done|]. destruct (priv_eqb _ _); simpl; [done|by rewrite IH].
  - intros q. cbn [andb]. unfold priv_eqb. clear E.
    induction l as [|x l IH]; [by apply not_elem_of_nil in Hin|].
    cbn [map] in Hn, Hin. apply list.NoDup_cons in Hn as [Hx Hn]. cbn [update_first].
    destruct (decide (privilege x = p)) as [<-|Ex].
    + rewrite bool_decide_true by done. simpl. destruct (decide (q = privilege x)) as [->|Hne].
      * rewrite !bool_decide_true by done. simpl.
        destruct (existsb _ l) eqn:Ee; [|by rewrite orb_false_r].
        apply existsb_exists in Ee as (y & Hy & [Hy' _]%andb_true_iff). destruct Hx.
        apply bool_decide_eq_true in Hy'. rewrite <- Hy'. by apply list_elem_of_In, in_map.
      * by rewrite !bool_decide_false by done.
    + rewrite (bool_decide_false (privilege x = p)) by done. simpl. rewrite IH by (done || set_solver).
      destruct (decide (q = p)) as [->|Hne].
      * by rewrite !bool_decide_false, bool_decide_true by done.
      * by rewrite (bool_decide_false (q = p)) by done.
Qed.

(** Adjusting one privilege of a token changes that one only: enabling or
    disabling a privilege the token carries makes exactly it held or not held,
    every other privilege, and the set the token carries, stay; a privilege it
    does not carry is refused and nothing changes. *)
Theorem privilege_adjust_exact (p : Privilege) (t : AccessToken) :
  privs_ok t ->
  (let '(found, t') := token_enable_privilege p t in
   found = bool_decide (p ∈ map privilege (privileges t)) /\ privs_ok t' /\
   (forall q, token_has_privilege t' q = (found && priv_eqb q p) || token_has_privilege t q)) /\
  (let '(found, t') := token_disable_privilege p t in
   found = bool_decide (p ∈ map privilege (privileges t)) /\ privs_ok t' /\
   (forall q, token_has_privilege t' q = negb (found && priv_eqb q p) && token_has_privilege t q)).
Proof.
  intros Hn. unfold token_enable_privilege, token_disable_privilege, privs_ok.
  pose proof (set_privilege_spec true p t Hn) as He. pose proof (set_privilege_spec false p t Hn) as Hd.
  destruct (set_privilege true p t) as [f1 t1], (set_privilege false p t) as [f2 t2].
  destruct He as (-> & E1 & H1), Hd as (-> & E2 & H2). rewrite E1, E2. split; (split_and!; [done..|]).
  - intros q. rewrite H1. by destruct (_ && _).
  - intros q. rewrite H2. by destruct (_ && _).
Qed.

(* ------------------------------------------------------------------ *)
(** ** Token ids *)

(** The calls on the registry. A duplicate takes an id without being
    registered; a mutation edits a registered token in place. *)
Inductive tok_step : Tokens -> Tokens -> Prop :=
  | ts_system s : 0 <= NEXT_TOKEN_ID s < U64_MAX -> tok_step s (snd (create_system_token s))
  | ts_user u gs s : 0 <= NEXT_TOKEN_ID s < U64_MAX -> tok_step s (snd (create_user_token u gs s))
  | ts_duplicate s : 0 <= NEXT_TOKEN_ID s < U64_MAX ->
      tok_step s (mkTokens (add64 (NEXT_TOKEN_ID s) 1) (TOKEN_REGISTRY s))
  | ts_mut id (f : AccessToken -> unit * AccessToken) s : tok_step s (snd (with_token_mut id f s))
  | ts_destroy id s : tok_step s (destroy_token id s).

(** Issued and no longer registered. *)
Definition retired (id : Z) (s : Tokens) : Prop :=
  id < NEXT_TOKEN_ID s /\ with_token id (fun t => t) s = None.

Lemma with_token_lookup id s :
  with_token id (fun t => t) s = ensure_registry (TOKEN_REGISTRY s) !! id.
Proof. unfold with_token, ensure_registry. destruct (TOKEN_REGISTRY s); [by rewrite option_fmap_id|by rewrite lookup_empty]. Qed.

Lemma tok_step_retired id s s' : tok_step s s' -> retired id s -> retired id s'.
Proof.
  unfold retired. rewrite !with_token_lookup.
  destruct 1 as [s Hn|u gs s Hn|s Hn|k f s|k s]; intros [Hlt Hno]; cbn [snd].
  - unfold create_system_token. cbn. rewrite add64_small by lia. split; [lia|].
    by rewrite lookup_insert_ne by lia.
  - unfold create_user_token. cbn. rewrite add64_small by lia. split; [lia|].
    by rewrite lookup_insert_ne by lia.
  - cbn. rewrite add64_small by lia. split; [lia|done].
  - unfold with_token_mut. destruct (_ !! k) as [t|] eqn:E; [|done].
    destruct (f t) as [r t']. cbn. split; [done|].
    rewrite lookup_insert_ne; [done|]. intros ->. congruence.
  - unfold destroy_token. cbn. split; [done|]. destruct (TOKEN_REGISTRY s); [|done]. cbn in *.
    rewrite lookup_delete_None. by right.
Qed.

(** A token id names one token for ever. A fresh token is registered under
    an id not issued before; once destroyed, an id names no token in any later
    state, whatever is created, duplicated, edited or destroyed meanwhile. *)
Theorem token_ids_never_reused (s s' : Tokens) (u : Sid) (gs : list TokenGroup) (id : Z) :
  0 <= NEXT_TOKEN_ID s < U64_MAX ->
  (let '(fresh, s1) := create_user_token u gs s in
   fresh = NEXT_TOKEN_ID s /\ with_token fresh (fun t => t) s1 = Some (new_user_token fresh u gs) /\
   NEXT_TOKEN_ID s1 = fresh + 1) /\
  (id < NEXT_TOKEN_ID s -> rtc tok_step (destroy_token id s) s' -> with_token id (fun t => t) s' = None).
Proof.
  intros Hn. split.
  - unfold create_user_token. split_and!; [done| |by rewrite add64_small by lia].
    rewrite with_token_lookup. cbn. by rewrite lookup_insert_eq.
  - intros Hlt Hrtc. assert (retired id (destroy_token id s)) as Hret.
    { split; [done|]. rewrite with_token_lookup. unfold destroy_token. cbn.
      destruct (TOKEN_REGISTRY s); cbn; [by rewrite lookup_delete_eq|by rewrite lookup_empty]. }
    assert (retired id s') as [_ ?]; [|done]. clear -Hret Hrtc.
    induction Hrtc; [done|]. eauto using tok_step_retired.
Qed.

(* ------------------------------------------------------------------ *)
(** ** Concrete cases *)

Definition demo_token : AccessToken :=
  new_user_token 1 (sid_user 1001) [mkTokenGroup sid_builtin_users true true false false].

Lemma demo_token_privs : privs_ok demo_token.
Proof. unfold privs_ok. apply (bool_decide_unpack _). vm_compute. exact I. Qed.

Lemma privilege_adjust_exact_witness :
  let '(found, t') := token_enable_privilege SeDebugPrivilege demo_token in
  found = true /\ token_has_privilege t' SeDebugPrivilege = true /\
  token_has_privilege t' SeTcbPrivilege = false.
Proof.
  destruct (privilege_adjust_exact SeDebugPrivilege demo_token demo_token_privs) as [H _].
  destruct (token_enable_privilege SeDebugPrivilege demo_token) as [found t'].
  destruct H as (H1 & _ & H2). rewrite !H2, H1. vm_compute. done.
Defined.

Lemma sid_string_injective_witness :
  is_Some (to_string_repr (sid_user 1001)) /\
  (to_string_repr (sid_user 1001) = to_string_repr sid_local_system -> sid_user 1001 = sid_local_system).
Proof.
  apply sid_string_injective; (split; [unfold U8_MAX; cbn; lia|reflexivity|..]);
    unfold U8_MAX, U32_MAX; repeat constructor; cbn; lia.
Defined.

Lemma token_ids_never_reused_witness :
  let s := snd (create_user_token (sid_user 1001) [] (mkTokens 1 None)) in
  with_token 1 (fun t => t) (snd (create_system_token (destroy_token 1 s))) = None.
Proof.
  intros s. apply (token_ids_never_reused s _ (sid_user 1) [] 1).
  - unfold U64_MAX. vm_compute. split; congruence.
  - vm_compute. reflexivity.
  - eapply rtc_l; [|apply rtc_refl]. apply ts_system. unfold U64_MAX. vm_compute. split; congruence.
Defined.

(** An identifier stands for its last sub-authority, and those of the
    well-known S-1-0-0, S-1-1-0, S-1-2-0 and S-1-3-0 are 0: a token whose user
    is the null identifier passes as root. *)
Lemma null_sid_passes_as_root :
  let t := new_user_token 1 sid_null [] in
  is_privileged (token_subject t) = true /\ check_token_access t (sd_new 5 5 0) FILE_WRITE_DATA = true.
Proof. vm_compute. done. Qed.

(** The world group makes every holder a member of group 0. *)
Lemma world_group_is_wheel :
  let t := new_user_token 1 (sid_user 1001) [mkTokenGroup sid_world true true false false] in
  is_member_of (token_subject t) WHEEL = true.
Proof. vm_compute. done. Qed.

(** A deny-only group does not take part in deny entries either. *)
Lemma deny_only_group_ignored :
  let g := mkTokenGroup sid_builtin_admins true false false true in
  let t := new_user_token 1 (sid_user 1001) [mkTokenGroup sid_builtin_users true true false false; g] in
  let sd := with_dacl [mkAce Deny 544 FILE_WRITE_DATA 0; mkAce Allow 1001 FILE_WRITE_DATA 0] (user_file 1001 545) in
  check_token_access t sd FILE_WRITE_DATA = true.
Proof. vm_compute. done. Qed.
