(* ===== verification/TcpWire.v ===== *)
(** * TCP segments on the wire (kernel/src/net/tcp.rs, checksum of
      kernel/src/net/ipv4.rs)

    The Internet checksum, the header codec, the option codec and the serial
    arithmetic of sequence numbers. Proved: a built segment parses back to its
    fields and its payload, and the receiver's checksum over it is zero; the
    option scan finds a well-formed SACK-permitted option exactly when there
    is one; the comparisons order sequence numbers less than half the space
    apart as the positions they stand for. *)

From S2P Require Import Prelude.

(* ------------------------------------------------------------------ *)
(** ** Words and bytes *)

(** [u32::wrapping_add] and [u32::wrapping_sub]. *)
Definition add32 (a b : Z) : Z := wrap 32 (a + b).
Definition sub32 (a b : Z) : Z := wrap 32 (a - b).

(** [as i32] of a [u32]. *)
Definition as_i32 (x : Z) : Z := if x <? 2 ^ 31 then x else x - 2 ^ 32.

(** [to_be_bytes] and [from_be_bytes]. *)
Definition be16 (v : Z) : list Z := [v / 256; v mod 256].
Definition be32 (v : Z) : list Z :=
  [v / 2 ^ 24; v / 2 ^ 16 mod 256; v / 256 mod 256; v mod 256].
Definition from_be16 (a b : Z) : Z := a * 256 + b.
Definition from_be32 (a b c d : Z) : Z := ((a * 256 + b) * 256 + c) * 256 + d.

(** [type Ipv4Address = [u8; 4]]. *)
Definition Ipv4Address : Type := list Z.

(** [type Bytes = Vec<u8>]. *)
Notation Bytes := (list Z).

Definition FIN : Z := 0x01.
Definition SYN : Z := 0x02.
Definition RST : Z := 0x04.
Definition PSH : Z := 0x08.
Definition ACK : Z := 0x10.
Definition PROTO_TCP : Z := 6.

Definition OPT_EOL : Z := 0.
Definition OPT_NOP : Z := 1.
Definition OPT_SACK_PERMITTED : Z := 4.
Definition OPT_SACK : Z := 5.
Definition SACK_MAX_BLOCKS : nat := 4.

(* ------------------------------------------------------------------ *)
(** ** The checksum *)

(** [while i + 1 < data.len() { sum += word }], then the odd byte. *)
Fixpoint sum_words (data : Bytes) (sum : Z) : Z :=
  match data with
  | a :: b :: data => sum_words data (add32 sum (from_be16 a b))
  | [a] => add32 sum (wrap 32 (a .<< 8))
  | [] => sum
  end.

(** [while sum >> 16 != 0 { sum = (sum & 0xFFFF) + (sum >> 16) }]; the
    rounds are bounded by [fold_carry_spec]. *)
Fixpoint fold_carry (fuel : nat) (sum : Z) : Z :=
  match fuel with
  | O => sum
  | S fuel => if sum .>> 16 =? 0 then sum else fold_carry fuel ((sum .& 0xFFFF) + (sum .>> 16))
  end.

Definition checksum (data : Bytes) : Z := notw 16 (wrap 16 (fold_carry 3 (sum_words data 0))).

(** The pseudo header a segment of [len] bytes is summed with. *)
Definition pseudo_header (src dst : Ipv4Address) (len : nat) : Bytes :=
  src ++ dst ++ [0; PROTO_TCP] ++ be16 (wrap 16 (Z.of_nat len)).

Definition tcp_checksum (src dst : Ipv4Address) (tcp : Bytes) : Z :=
  let buf := pseudo_header src dst (length tcp) ++ tcp in
  let off := (12 + 16)%nat in
  let buf := if (off + 1 <? length buf)%nat then <[(off + 1)%nat := 0]> (<[off := 0]> buf) else buf in
  checksum buf.

(* ------------------------------------------------------------------ *)
(** ** Segments *)

Definition build_segment_opts (src_port dst_port seq ack flags : Z) (src_ip dst_ip : Ipv4Address)
    (options payload : Bytes) : Bytes :=
  let hlen_words := Z.of_nat ((20 + length options) / 4) in
  let s := be16 src_port ++ be16 dst_port ++ be32 seq ++ be32 ack ++
           [wrap 8 ((wrap 8 hlen_words .& 0x0F) .<< 4); flags] ++ be16 65535 ++
           [0; 0] ++ [0; 0] ++ options ++ payload in
  let ck := tcp_checksum src_ip dst_ip s in
  <[17%nat := ck .& 0xFF]> (<[16%nat := wrap 8 (ck .>> 8)]> s).

Definition build_segment (src_port dst_port seq ack flags : Z) (src_ip dst_ip : Ipv4Address)
    (payload : Bytes) : Bytes :=
  build_segment_opts src_port dst_port seq ack flags src_ip dst_ip [] payload.

Definition build_sack_option (blocks : list (Z * Z)) : Bytes :=
  match blocks with
  | [] => []
  | _ =>
      let n := Nat.min (length blocks) SACK_MAX_BLOCKS in
      [OPT_NOP; OPT_NOP; OPT_SACK; wrap 8 (2 + 8 * Z.of_nat n)] ++
      flat_map (fun '(l, r) => be32 l ++ be32 r) (take n blocks)
  end.

Definition build_syn_segment (src_port dst_port seq ack flags : Z) (src_ip dst_ip : Ipv4Address)
    (sack : bool) : Bytes :=
  let opts := if sack then [OPT_NOP; OPT_NOP; OPT_SACK_PERMITTED; 2] else [] in
  build_segment_opts src_port dst_port seq ack flags src_ip dst_ip opts [].

Record TcpHeader := mkTcpHeader {
  src_port : Z;
  dst_port : Z;
  seq_num : Z;
  ack_num : Z;
  data_offset : Z;
  flags : Z;
  window : Z;
  hdr_checksum : Z
}.

Definition parse (d : Bytes) : option TcpHeader :=
  if (length d <? 20)%nat then None
  else Some (mkTcpHeader
    (from_be16 (d !!! 0%nat) (d !!! 1%nat)) (from_be16 (d !!! 2%nat) (d !!! 3%nat))
    (from_be32 (d !!! 4%nat) (d !!! 5%nat) (d !!! 6%nat) (d !!! 7%nat))
    (from_be32 (d !!! 8%nat) (d !!! 9%nat) (d !!! 10%nat) (d !!! 11%nat))
    (d !!! 12%nat .>> 4) (d !!! 13%nat)
    (from_be16 (d !!! 14%nat) (d !!! 15%nat)) (from_be16 (d !!! 16%nat) (d !!! 17%nat))).

Definition header_len (h : TcpHeader) : nat := Z.to_nat (data_offset h) * 4.

(** The scan of the option area; [opts] is what is left from [i] on. *)
Fixpoint scan_options (fuel : nat) (opts : Bytes) : bool :=
  match fuel, opts with
  | S fuel, kind :: rest =>
      if kind =? OPT_EOL then false
      else if kind =? OPT_NOP then scan_options fuel rest
      else if kind =? OPT_SACK_PERMITTED then
        match rest with len :: _ => len =? 2 | [] => false end
      else
        match rest with
        | [] => false
        | len :: _ =>
            if (len <? 2) || (Z.of_nat (length opts) <? len) then false
            else scan_options fuel (drop (Z.to_nat len) opts)
        end
  | _, _ => false
  end.

Definition syn_offers_sack (segment : Bytes) (data_offset : Z) : bool :=
  let hlen := (Z.to_nat data_offset * 4)%nat in
  if (hlen <=? 20)%nat || (length segment <? hlen)%nat then false
  else
    let opts := drop 20 (take hlen segment) in
    scan_options (length opts) opts.

(* ------------------------------------------------------------------ *)
(** ** Sequence numbers *)

Definition seq_le (a b : Z) : bool := as_i32 (sub32 a b) <=? 0.
Definition seq_gt (a b : Z) : bool := as_i32 (sub32 b a) <? 0.
Definition seq_lt (a b : Z) : bool := as_i32 (sub32 a b) <? 0.
Definition seq_ge (a b : Z) : bool := 0 <=? as_i32 (sub32 a b).

(* ------------------------------------------------------------------ *)
(** ** Serial arithmetic *)

Lemma as_i32_wrap d : - 2 ^ 31 <= d < 2 ^ 31 -> as_i32 (wrap 32 d) = d.
Proof.
  intros Hd. unfold as_i32, wrap. destruct (Z.ltb_spec (d mod 2 ^ 32) (2 ^ 31)) as [H|H];
    pose proof (Z.div_mod d (2 ^ 32)); pose proof (Z.mod_pos_bound d (2 ^ 32)); lia.
Qed.

Lemma wrap_add_l w a b : wrap w (wrap w a + b) = wrap w (a + b).
Proof. apply Zplus_mod_idemp_l. Qed.

Lemma wrap_sub_l w a b : wrap w (wrap w a - b) = wrap w (a - b).
Proof. apply Zminus_mod_idemp_l. Qed.

Lemma add32_wrap b x d : add32 (wrap 32 (b + x)) d = wrap 32 (b + (x + d)).
Proof. unfold add32. rewrite wrap_add_l. f_equal. lia. Qed.

(** The distance between two positions counted from the same origin. *)
Lemma sub32_wrap b x y : sub32 (wrap 32 (b + x)) (wrap 32 (b + y)) = wrap 32 (x - y).
Proof.
  unfold sub32, wrap. rewrite <- Zminus_mod. f_equal. lia.
Qed.

Lemma sub32_pos b x y : 0 <= x - y < 2 ^ 32 -> sub32 (wrap 32 (b + x)) (wrap 32 (b + y)) = x - y.
Proof. intros H. rewrite sub32_wrap. by apply wrap_small. Qed.

Section positions.
Context (b x y : Z) (Hxy : - 2 ^ 31 < x - y < 2 ^ 31).

Lemma seq_lt_pos : seq_lt (wrap 32 (b + x)) (wrap 32 (b + y)) = (x <? y).
Proof. unfold seq_lt. rewrite sub32_wrap, as_i32_wrap by lia. apply eq_iff_eq_true. lia. Qed.

Lemma seq_le_pos : seq_le (wrap 32 (b + x)) (wrap 32 (b + y)) = (x <=? y).
Proof. unfold seq_le. rewrite sub32_wrap, as_i32_wrap by lia. apply eq_iff_eq_true. lia. Qed.

Lemma seq_gt_pos : seq_gt (wrap 32 (b + x)) (wrap 32 (b + y)) = (y <? x).
Proof. unfold seq_gt. rewrite sub32_wrap, as_i32_wrap by lia. apply eq_iff_eq_true. lia. Qed.

Lemma seq_ge_pos : seq_ge (wrap 32 (b + x)) (wrap 32 (b + y)) = (y <=? x).
Proof. unfold seq_ge. rewrite sub32_wrap, as_i32_wrap by lia. apply eq_iff_eq_true. lia. Qed.

Lemma seq_eq_pos : (wrap 32 (b + x) =? wrap 32 (b + y)) = (x =? y).
Proof.
  apply eq_iff_eq_true. rewrite !Z.eqb_eq. split; [|by intros ->]. intros E.
  assert (as_i32 (sub32 (wrap 32 (b + x)) (wrap 32 (b + y))) = 0) as H.
  { unfold sub32. rewrite E, Z.sub_diag. reflexivity. }
  rewrite sub32_wrap, as_i32_wrap in H by lia. lia.
Qed.
End positions.

(* ------------------------------------------------------------------ *)
(** ** The checksum is the complement of the sum modulo 65535 *)

Definition is_byte (x : Z) : Prop := 0 <= x < 256.

(** A list of bytes written out. *)
Ltac bytes_of_list :=
  repeat (apply Forall_cons_iff; split); [unfold is_byte, in_word in *; Z.to_euclidean_division_equations; lia..|exact (List.Forall_nil _)].

(** The sum of the big-endian words, an odd byte padded with zero. *)
Fixpoint word_sum (l : Bytes) : Z :=
  match l with
  | a :: b :: l => a * 256 + b + word_sum l
  | [a] => a * 256
  | [] => 0
  end.

Lemma pair_ind (P : Bytes -> Prop) :
  P [] -> (forall a, P [a]) -> (forall a b l, P l -> P (a :: b :: l)) -> forall l, P l.
Proof.
  intros H0 H1 H2 l. enough (P l /\ forall a, P (a :: l)) by tauto.
  induction l as [|x l [IH1 IH2]]; split; auto.
Qed.

Lemma word_sum_bound l : Forall is_byte l -> 0 <= word_sum l <= 32768 * (Z.of_nat (length l) + 1).
Proof.
  induction l as [|a|a b l IH] using pair_ind; intros Hl; simpl length; cbn [word_sum]; [lia| |].
  - apply Forall_cons_iff in Hl as [Hl _]. unfold is_byte in Hl. lia.
  - apply Forall_cons_iff in Hl as [Ha [Hb Hl]%Forall_cons_iff].
    specialize (IH Hl). unfold is_byte in *. lia.
Qed.

Lemma word_sum_app l1 l2 : Nat.even (length l1) = true -> word_sum (l1 ++ l2) = word_sum l1 + word_sum l2.
Proof.
  induction l1 as [|a|a b l IH] using pair_ind; intros He; simpl in *; [done|done|].
  rewrite IH by done. lia.
Qed.

Lemma sum_words_spec l s :
  Forall is_byte l -> 0 <= s -> s + word_sum l < 2 ^ 32 -> sum_words l s = s + word_sum l.
Proof.
  revert s. induction l as [|a|a b l IH] using pair_ind; intros s Hl Hs Hb; cbn [sum_words word_sum] in *.
  - lia.
  - apply Forall_cons_iff in Hl as [Hl _]. unfold is_byte in Hl.
    rewrite Z.shiftl_mul_pow2 by lia. unfold add32.
    rewrite (wrap_small 32 (a * 2 ^ 8)) by (unfold in_word; lia).
    apply wrap_small. unfold in_word. lia.
  - apply Forall_cons_iff in Hl as [Ha [Hb' Hl]%Forall_cons_iff].
    pose proof (word_sum_bound l Hl). unfold is_byte, from_be16, add32 in *.
    rewrite (wrap_small 32) by (unfold in_word; lia). rewrite IH; [lia|done|lia|lia].
Qed.

(** One round of carry folding. *)
Lemma fold_round s :
  0 <= s < 2 ^ 32 -> s .>> 16 <> 0 ->
  exists k, (s .& 0xFFFF) + (s .>> 16) = s - 65535 * k /\ 0 < k <= 65535 /\
    s = 65536 * k + (s .& 0xFFFF) /\ 0 <= s .& 0xFFFF < 65536.
Proof.
  intros Hs Hn. exists (s .>> 16).
  change 0xFFFF with (Z.ones 16). rewrite Z.land_ones by lia.
  rewrite Z.shiftr_div_pow2 in * by lia.
  change (2 ^ 16) with 65536 in *. change (Z.ones 16) with 65535.
  pose proof (Z.div_mod s 65536 ltac:(lia)). pose proof (Z.mod_pos_bound s 65536 ltac:(lia)). lia.
Qed.

Lemma shiftr16_zero s : 0 <= s -> s .>> 16 = 0 -> s <= 65535.
Proof.
  intros Hs H. rewrite Z.shiftr_div_pow2 in H by lia.
  apply Z.div_small_iff in H; lia.
Qed.

Lemma fold_carry_spec s :
  0 <= s < 2 ^ 32 ->
  exists k, fold_carry 3 s = s - 65535 * k /\ 0 <= fold_carry 3 s <= 65535 /\
    0 <= k /\ (0 < s -> 0 < fold_carry 3 s).
Proof.
  intros Hs. cbn [fold_carry]. destruct (Z.eqb_spec (s .>> 16) 0) as [E|E].
  { apply shiftr16_zero in E; [|lia]. exists 0. lia. }
  destruct (fold_round s Hs E) as (k & -> & Hk & Ek & Hl).
  remember (s - 65535 * k) as s1 eqn:E1. assert (0 < s1 <= 131070) by lia.
  destruct (Z.eqb_spec (s1 .>> 16) 0) as [E2|E2].
  { apply shiftr16_zero in E2; [|lia]. exists k. lia. }
  destruct (fold_round s1 ltac:(lia) E2) as (k2 & -> & Hk2 & Ek2 & Hl2).
  assert (k2 = 1) as -> by lia. remember (s1 - 65535 * 1) as s2 eqn:E3.
  assert (0 < s2 <= 65535) by lia.
  exists (k + 1). destruct (Z.eqb_spec (s2 .>> 16) 0) as [E4|E4]; [lia|].
  destruct (fold_round s2 ltac:(lia) E4) as (k3 & _ & Hk3 & Ek3 & Hl3). lia.
Qed.

Lemma notw16 x : 0 <= x <= 65535 -> notw 16 x = 65535 - x.
Proof.
  intros Hx. unfold notw. rewrite Z.land_ones by lia. unfold Z.lnot.
  replace (Z.pred (- x)) with (65535 - x + (-1) * 2 ^ 16) by lia.
  rewrite Z_mod_plus_full. apply Z.mod_small. lia.
Qed.

(** [checksum] complements a number in the class of the word sum, zero only
    for the zero sum. *)
Lemma checksum_spec l :
  Forall is_byte l -> Z.of_nat (length l) <= 100000 ->
  exists k, checksum l = 65535 - (word_sum l - 65535 * k) /\ 0 <= checksum l <= 65535 /\
    0 <= k /\ (0 < word_sum l -> checksum l < 65535).
Proof.
  intros Hl Hn. pose proof (word_sum_bound l Hl). unfold checksum.
  rewrite sum_words_spec by (try done; lia).
  destruct (fold_carry_spec (0 + word_sum l) ltac:(lia)) as (k & E & Hr & Hk & Hp).
  rewrite wrap_small by (unfold in_word; lia). rewrite notw16 by lia.
  exists k. lia.
Qed.

(** Filling a zeroed checksum field at an even offset with the checksum makes
    the checksum of the whole zero. *)
Lemma checksum_field pre post :
  Nat.even (length pre) = true -> Forall is_byte (pre ++ [0; 0] ++ post) ->
  Z.of_nat (length (pre ++ [0; 0] ++ post)) <= 100000 ->
  let ck := checksum (pre ++ [0; 0] ++ post) in
  0 <= ck <= 65535 /\ checksum (pre ++ [ck / 256; ck mod 256] ++ post) = 0.
Proof.
  intros He Hb Hn ck. subst ck.
  destruct (checksum_spec _ Hb Hn) as (k & E & Hr & Hk & Hp).
  remember (checksum (pre ++ [0; 0] ++ post)) as ck eqn:Eck. clear Eck. split; [done|].
  pose proof (word_sum_bound _ Hb) as Hw0.
  rewrite word_sum_app in * by done. change (word_sum ([0; 0] ++ post)) with (0 + word_sum post) in *.
  apply list.Forall_app in Hb as [Hpre [_ Hpost]%list.Forall_app].
  pose proof (Z.div_mod ck 256 ltac:(lia)) as Hd. pose proof (Z.mod_pos_bound ck 256 ltac:(lia)).
  assert (Forall is_byte (pre ++ [ck / 256; ck mod 256] ++ post)) as Hb'.
  { apply list.Forall_app. split; [done|]. apply list.Forall_app. split; [|done].
    bytes_of_list. }
  destruct (checksum_spec _ Hb') as (k' & E' & Hr' & Hk' & Hp').
  { rewrite !length_app in *. simpl in *. lia. }
  rewrite word_sum_app in * by done.
  change (word_sum ([ck / 256; ck mod 256] ++ post)) with (ck / 256 * 256 + ck mod 256 + word_sum post) in *.
  assert (0 <= word_sum pre) by (by apply word_sum_bound).
  assert (0 <= word_sum post) by (by apply word_sum_bound). lia.
Qed.

(* ------------------------------------------------------------------ *)
(** ** The header codec *)

Lemma be16_bytes v : in_word 16 v -> Forall is_byte (be16 v).
Proof. intros Hv. unfold be16, be32. bytes_of_list. Qed.

Lemma be32_bytes v : in_word 32 v -> Forall is_byte (be32 v).
Proof. intros Hv. unfold be16, be32. bytes_of_list. Qed.

Lemma from_be16_be16 v : from_be16 (v / 256) (v mod 256) = v.
Proof. unfold from_be16. Z.to_euclidean_division_equations. lia. Qed.

Lemma from_be32_be32 v :
  from_be32 (v / 2 ^ 24) (v / 2 ^ 16 mod 256) (v / 256 mod 256) (v mod 256) = v.
Proof. unfold from_be32. Z.to_euclidean_division_equations. lia. Qed.

(** The first 16 bytes of a header. *)
Definition header16 (sp dp seq ack fl : Z) (nopts : nat) : Bytes :=
  be16 sp ++ be16 dp ++ be32 seq ++ be32 ack ++
  [wrap 8 ((wrap 8 (Z.of_nat ((20 + nopts) / 4)) .& 0x0F) .<< 4); fl] ++ be16 65535.

Definition fields_ok (sp dp seq ack fl : Z) : Prop :=
  in_word 16 sp /\ in_word 16 dp /\ in_word 32 seq /\ in_word 32 ack /\ in_word 8 fl.

Definition ip_ok (a : Ipv4Address) : Prop := length a = 4%nat /\ Forall is_byte a.

(** The data-offset byte of a header with [n] bytes of options. *)
Lemma offset_byte (n : nat) :
  (n <= 40)%nat -> (n mod 4 = 0)%nat ->
  let b := wrap 8 ((wrap 8 (Z.of_nat ((20 + n) / 4)) .& 0x0F) .<< 4) in
  is_byte b /\ b .>> 4 = Z.of_nat ((20 + n) / 4).
Proof.
  intros Hn _ b. subst b. assert ((20 + n) / 4 <= 15)%nat as Hle.
  { apply Nat.lt_succ_r, Nat.Div0.div_lt_upper_bound. lia. }
  remember ((20 + n) / 4)%nat as q. clear Heqq.
  do 16 (destruct q as [|q]; [split; [split; vm_compute; congruence|reflexivity]|]). lia.
Qed.

Lemma header16_ok sp dp seq ack fl nopts :
  fields_ok sp dp seq ack fl -> (nopts <= 40)%nat -> (nopts mod 4 = 0)%nat ->
  length (header16 sp dp seq ack fl nopts) = 16%nat /\ Forall is_byte (header16 sp dp seq ack fl nopts).
Proof.
  intros (H1 & H2 & H3 & H4 & H5) Hn Hm. split; [done|]. unfold header16.
  destruct (offset_byte nopts Hn Hm) as [Ho _].
  repeat (apply list.Forall_app; split); auto using be16_bytes, be32_bytes.
  bytes_of_list.
Qed.

(** Overwriting two bytes. *)
Lemma insert_field (l1 l2 : Bytes) a b x y n :
  length l1 = n -> <[S n := y]> (<[n := x]> (l1 ++ [a; b] ++ l2)) = l1 ++ [x; y] ++ l2.
Proof.
  intros <-. rewrite <- (Nat.add_0_r (length l1)) at 2. rewrite <- Nat.add_1_r.
  by rewrite !insert_app_r.
Qed.

(** The segment in the order of its bytes. *)
Lemma build_segment_bytes sp dp seq ack fl src dst options payload :
  fields_ok sp dp seq ack fl -> ip_ok src -> ip_ok dst ->
  (length options <= 40)%nat -> (length options mod 4 = 0)%nat ->
  Forall is_byte options -> Forall is_byte payload ->
  Z.of_nat (20 + length options + length payload) <= 65535 ->
  exists ck, in_word 16 ck /\
    let seg := header16 sp dp seq ack fl (length options) ++ [ck / 256; ck mod 256] ++
               [0; 0] ++ options ++ payload in
    build_segment_opts sp dp seq ack fl src dst options payload = seg /\
    checksum (pseudo_header src dst (length seg) ++ seg) = 0.
Proof.
  intros Hf [Hs4 Hsb] [Hd4 Hdb] Ho Hom Hob Hpb Hlen.
  destruct (header16_ok _ _ _ _ _ _ Hf Ho Hom) as [Hl16 Hb16].
  set (h := header16 sp dp seq ack fl (length options)) in *.
  set (post := [0; 0] ++ options ++ payload).
  set (n := length (h ++ [0; 0] ++ post)).
  assert (n = 20 + length options + length payload)%nat as En.
  { subst n post. rewrite !length_app, Hl16. simpl. lia. }
  assert (Forall is_byte (pseudo_header src dst n)) as Hps.
  { unfold pseudo_header. repeat (apply list.Forall_app; split); [done|done| |].
    - unfold PROTO_TCP. bytes_of_list.
    - apply be16_bytes, wrap_range. lia. }
  assert (length (pseudo_header src dst n) = 12%nat) as Hpl.
  { unfold pseudo_header. rewrite !length_app, Hs4, Hd4. done. }
  destruct (checksum_field (pseudo_header src dst n ++ h) post) as [Hr Hz].
  { by rewrite length_app, Hpl, Hl16. }
  { subst post. rewrite !list.Forall_app. split_and!; try done; bytes_of_list. }
  { rewrite <- app_assoc, length_app, Hpl. fold n. lia. }
  pose proof (app_assoc (pseudo_header src dst n) h ([0; 0] ++ post)) as Ha.
  rewrite <- Ha in Hz, Hr. rewrite <- app_assoc in Hz. clear Ha.
  exists (checksum (pseudo_header src dst n ++ h ++ [0; 0] ++ post)).
  split; [unfold in_word; lia|].
  assert (length (h ++ [checksum (pseudo_header src dst n ++ h ++ [0; 0] ++ post) / 256;
    checksum (pseudo_header src dst n ++ h ++ [0; 0] ++ post) mod 256] ++ post) = n) as Hn'.
  { subst n. by rewrite !length_app. }
  split; [|cbv zeta; fold post; rewrite Hn'; exact Hz].
  unfold build_segment_opts, tcp_checksum.
  assert (be16 sp ++ be16 dp ++ be32 seq ++ be32 ack ++
    [wrap 8 ((wrap 8 (Z.of_nat ((20 + length options) / 4)) .& 0x0F) .<< 4); fl] ++
    be16 65535 ++ [0; 0] ++ [0; 0] ++ options ++ payload = h ++ [0; 0] ++ post) as ->.
  { done. }
  fold n.
  change (12 + 16 + 1)%nat with (S 28). change (12 + 16)%nat with 28%nat.
  rewrite (app_assoc _ h), (insert_field (pseudo_header src dst n ++ h)), <- app_assoc
    by (rewrite length_app; lia).
  rewrite (proj2 (Nat.ltb_lt _ _)).
  2:{ rewrite !length_app, Hpl, Hl16. simpl. lia. }
  remember (checksum (pseudo_header src dst n ++ h ++ [0; 0] ++ post)) as ck. rewrite Z.shiftr_div_pow2 by lia.
  rewrite (wrap_small 8) by (unfold in_word; Z.to_euclidean_division_equations; lia).
  replace (ck .& 0xFF) with (ck mod 256) by (change 0xFF with (Z.ones 8); by rewrite Z.land_ones).
  by rewrite (insert_field h).
Qed.

(** A built segment, read back. *)
Lemma segment_fields (sp dp seq ack fl : Z) (src dst : Ipv4Address) (options payload : Bytes) :
  fields_ok sp dp seq ack fl -> ip_ok src -> ip_ok dst ->
  (length options <= 40)%nat -> (length options mod 4 = 0)%nat ->
  Forall is_byte options -> Forall is_byte payload ->
  Z.of_nat (20 + length options + length payload) <= 65535 ->
  let seg := build_segment_opts sp dp seq ack fl src dst options payload in
  exists h, parse seg = Some h /\
    src_port h = sp /\ dst_port h = dp /\ seq_num h = seq /\ ack_num h = ack /\
    flags h = fl /\ window h = 65535 /\
    take (header_len h - 20) (drop 20 seg) = options /\ drop (header_len h) seg = payload /\
    checksum (pseudo_header src dst (length seg) ++ seg) = 0.
Proof.
  intros Hf Hs Hd Ho Hom Hob Hpb Hlen seg. subst seg.
  destruct (build_segment_bytes _ _ _ _ _ _ _ _ _ Hf Hs Hd Ho Hom Hob Hpb Hlen) as (ck & Hck & -> & Hz).
  destruct (offset_byte _ Ho Hom) as [_ Hoff].
  assert (((20 + length options) / 4 * 4 = 20 + length options)%nat) as Hq.
  { pose proof (Nat.div_mod_eq (20 + length options) 4) as E.
    rewrite <- (Nat.Div0.add_mod_idemp_r 20), Hom in E. change ((20 + 0) mod 4)%nat with 0%nat in E. lia. }
  exists (mkTcpHeader sp dp seq ack (Z.of_nat ((20 + length options) / 4)) fl 65535 ck). split.
  { rewrite <- Hoff. rewrite <- (from_be16_be16 sp) at 2. rewrite <- (from_be16_be16 dp) at 2.
    rewrite <- (from_be32_be32 seq) at 2. rewrite <- (from_be32_be32 ack) at 2.
    rewrite <- (from_be16_be16 ck) at 3. reflexivity. }
  unfold header_len. cbn [src_port dst_port seq_num ack_num flags window data_offset].
  rewrite Nat2Z.id, Hq. split_and!; try done.
  - replace (20 + length options - 20)%nat with (length options) by lia.
    change (drop 20 _) with (options ++ payload). by rewrite take_app_length.
  - rewrite <- drop_drop. change (drop 20 _) with (options ++ payload). by rewrite drop_app_length.
Qed.

(** C40: what one side builds the other side reads. A segment built from field
    values, options (at most 40 bytes, whole words) and a payload parses back
    to those field values with the window 65535; the header length it carries
    splits it into the options and the payload; and the checksum taken over
    the pseudo header and the segment is zero, as a receiver requires. *)
Theorem segment_roundtrip (sp dp seq ack fl : Z) (src dst : Ipv4Address) (options payload : Bytes) :
  fields_ok sp dp seq ack fl -> ip_ok src -> ip_ok dst ->
  (length options <= 40)%nat -> (length options mod 4 = 0)%nat ->
  Forall is_byte options -> Forall is_byte payload ->
  Z.of_nat (20 + length options + length payload) <= 65535 ->
  let seg := build_segment_opts sp dp seq ack fl src dst options payload in
  exists h, parse seg = Some h /\
    src_port h = sp /\ dst_port h = dp /\ seq_num h = seq /\ ack_num h = ack /\
    flags h = fl /\ window h = 65535 /\
    take (header_len h - 20) (drop 20 seg) = options /\ drop (header_len h) seg = payload /\
    checksum (pseudo_header src dst (length seg) ++ seg) = 0.
Proof. apply segment_fields. Qed.

Lemma segment_roundtrip_witness :
  exists h, parse (build_segment_opts 80 49152 7 9 (ACK .| PSH) [10; 0; 2; 15] [10; 0; 2; 2]
                     [1; 1; 4; 2] [72; 105; 33]) = Some h /\ flags h = 24 /\
    drop (header_len h) (build_segment_opts 80 49152 7 9 (ACK .| PSH) [10; 0; 2; 15] [10; 0; 2; 2]
                     [1; 1; 4; 2] [72; 105; 33]) = [72; 105; 33].
Proof.
  destruct (segment_roundtrip 80 49152 7 9 (ACK .| PSH) [10; 0; 2; 15] [10; 0; 2; 2] [1; 1; 4; 2] [72; 105; 33])
    as (h & Hp & _ & _ & _ & _ & Hfl & _ & _ & Hd & _).
  - unfold fields_ok, in_word. vm_compute. split_and!; congruence.
  - split; [done|bytes_of_list].
  - split; [done|bytes_of_list].
  - simpl. lia.
  - done.
  - bytes_of_list.
  - bytes_of_list.
  - simpl. lia.
  - exists h. done.
Defined.

(* ------------------------------------------------------------------ *)
(** ** The option scan *)

(** Options the scan passes over: padding, and options of other kinds with
    their length. *)
Inductive skipped : Bytes -> Prop :=
| skipped_nil : skipped []
| skipped_nop l : skipped l -> skipped (OPT_NOP :: l)
| skipped_tlv kind len body l :
    kind <> OPT_EOL -> kind <> OPT_NOP -> kind <> OPT_SACK_PERMITTED ->
    Z.of_nat (length body) + 2 = len -> skipped l ->
    skipped (kind :: len :: body ++ l).

Lemma scan_options_sound fuel opts :
  scan_options fuel opts = true ->
  exists pre rest, skipped pre /\ opts = pre ++ OPT_SACK_PERMITTED :: 2 :: rest.
Proof.
  revert opts. induction fuel as [|fuel IH]; intros [|kind rest]; [done..|]. cbn [scan_options].
  destruct (Z.eqb_spec kind OPT_EOL) as [|He]; [done|].
  destruct (Z.eqb_spec kind OPT_NOP) as [->|Hn].
  { intros (pre & tl & Hp & ->)%IH. exists (OPT_NOP :: pre), tl. split; [by constructor|done]. }
  destruct (Z.eqb_spec kind OPT_SACK_PERMITTED) as [->|Hs].
  { destruct rest as [|len rest]; [done|]. intros ->%Z.eqb_eq. exists [], rest. split; [constructor|done]. }
  destruct rest as [|len rest]; [done|].
  destruct (Z.ltb_spec len 2); [done|]. destruct (Z.ltb_spec (Z.of_nat (length (kind :: len :: rest))) len); [done|].
  cbn [orb]. intros (pre & tl & Hp & E)%IH.
  replace (Z.to_nat len) with (S (S (Z.to_nat (len - 2)))) in E by lia. cbn [drop] in E.
  exists (kind :: len :: take (Z.to_nat (len - 2)) rest ++ pre), tl. split.
  - constructor; try done. rewrite length_take. simpl in *. lia.
  - cbn [app]. rewrite <- app_assoc, <- E, take_drop. done.
Qed.

Lemma scan_options_complete pre rest fuel :
  skipped pre -> (length (pre ++ OPT_SACK_PERMITTED :: 2%Z :: rest) <= fuel)%nat ->
  scan_options fuel (pre ++ OPT_SACK_PERMITTED :: 2 :: rest) = true.
Proof.
  intros Hp. revert fuel. induction Hp as [|l Hl IH|kind len body l He Hn Hs Hlen Hl IH]; intros [|fuel] Hf;
    cbn [app length] in Hf; try lia; cbn [app scan_options].
  - done.
  - apply IH. lia.
  - rewrite (proj2 (Z.eqb_neq kind OPT_EOL)), (proj2 (Z.eqb_neq kind OPT_NOP)),
      (proj2 (Z.eqb_neq kind OPT_SACK_PERMITTED)) by done.
    rewrite (proj2 (Z.ltb_ge len 2)) by lia.
    rewrite (proj2 (Z.ltb_ge _ len)) by (cbn [length]; rewrite !length_app; lia). cbn [orb].
    replace (Z.to_nat len) with (S (S (length body))) by lia. cbn [drop].
    rewrite <- app_assoc, drop_app_length. apply IH. rewrite <- app_assoc, !length_app in Hf. rewrite length_app. lia.
Qed.

(** The option scan is exact. It answers yes exactly when the option area
    holds the two bytes of a well-formed SACK-permitted option at a place that
    is reached over padding and options of other kinds with their lengths;
    and it finds the option in the SYN segments this kernel builds, and only
    in those that offer it. *)
Theorem syn_offers_sack_exact (segment : Bytes) (off : Z) :
  (syn_offers_sack segment off = true <->
   (20 < Z.to_nat off * 4 <= length segment)%nat /\
   exists pre rest, skipped pre /\
     drop 20 (take (Z.to_nat off * 4) segment) = pre ++ OPT_SACK_PERMITTED :: 2 :: rest) /\
  (forall sp dp seq ack fl src dst sack, let syn := build_syn_segment sp dp seq ack fl src dst sack in
     forall h, parse syn = Some h -> syn_offers_sack syn (data_offset h) = sack).
Proof.
  split.
  - unfold syn_offers_sack. destruct (Nat.leb_spec (Z.to_nat off * 4) 20) as [Hle|Hlt]; cbn [orb].
    { split; [done|]. intros [? _]. lia. }
    destruct (Nat.ltb_spec (length segment) (Z.to_nat off * 4)) as [Hs|Hs].
    { split; [done|]. intros [? _]. lia. }
    split.
    + intros H%scan_options_sound. split; [lia|done].
    + intros [_ (pre & rest & Hp & ->)]. by apply scan_options_complete.
  - intros sp dp seq ack fl src dst sack syn h Hp. subst syn. unfold build_syn_segment, build_segment_opts in *.
    destruct sack; cbn [length app be16 be32] in *; injection Hp as <-; vm_compute; done.
Qed.
