(* ===== verification/Tcp.v ===== *)
(** * TCP connections (kernel/src/net/tcp.rs)

    The connection table and everything that changes it: segments that
    arrive, the timer, and the calls of the socket layer. Segments handed to
    the IP layer are returned by the operations in the order of the calls.
    The tick counter, the time-stamp counter and the address of the interface
    are arguments. The file holds the definitions; the theorems about
    reassembly are in [TcpReceive], those about the send queue in [TcpSend]
    and those about the table in [TcpTable]. *)

From S2P Require Import Prelude.
From S2P Require Import WaitList.
From S2P Require Import TcpWire.

(* ------------------------------------------------------------------ *)
(** ** Ordered maps

    A [BTreeMap<u32, V>] is the list of its entries in key order. *)

Definition BTreeMap (V : Type) : Type := list (Z * V).

Fixpoint bt_insert {V} (k : Z) (v : V) (m : BTreeMap V) : BTreeMap V :=
  match m with
  | [] => [(k, v)]
  | (k', v') :: m' =>
      if k <? k' then (k, v) :: m
      else if k =? k' then (k, v) :: m'
      else (k', v') :: bt_insert k v m'
  end.

(** [keys().next_back()] with its value, and the map without it. *)
Fixpoint bt_pop_last {V} (m : BTreeMap V) : option (Z * V * BTreeMap V) :=
  match m with
  | [] => None
  | [(k, v)] => Some (k, v, [])
  | e :: m' =>
      match bt_pop_last m' with
      | Some (k, v, m'') => Some (k, v, e :: m'')
      | None => None
      end
  end.

(* ------------------------------------------------------------------ *)
(** ** Constants and data *)

Definition MSS : Z := 1460.
Definition RTO_INITIAL : Z := 200.
Definition RTO_MAX : Z := 6400.
Definition MAX_RETRIES : Z := 5.
Definition TIMEWAIT_TICKS : Z := 200.
Definition MAX_TCP_CONNECTIONS : nat := 1024.
Definition OOO_MAX_BYTES : Z := 65535.
Definition OOO_MAX_SEGS : nat := 64.
Definition CLOSED_GC_GRACE_TICKS : Z := 50.

Record RetransmitEntry := mkRetransmit {
  rt_seq : Z;
  rt_data : Bytes;
  sent_ticks : Z;
  rt_rto : Z;
  retries : Z
}.

Record OooSeg := mkOooSeg {
  ooo_seq : Z;
  ooo_data : Bytes;
  ooo_fin : bool
}.

(** [OooSeg::end]. *)
Definition ooo_end (s : OooSeg) : Z := add32 (ooo_seq s) (wrap 32 (Z.of_nat (length (ooo_data s)))).

Inductive TcpState :=
  | Closed | Listen | SynSent | SynReceived | Established
  | FinWait1 | FinWait2 | CloseWait | LastAck | TimeWait.

#[global] Instance TcpState_eq_dec : EqDecision TcpState.
Proof. solve_decision. Defined.

Record TcpConnection := mkTcb {
  local_ip : Ipv4Address;
  local_port : Z;
  remote_ip : Ipv4Address;
  remote_port : Z;
  state : TcpState;
  send_next : Z;
  send_unack : Z;
  recv_next : Z;
  recv_buffer : Bytes;
  send_buffer : Bytes;
  retransmit_queue : list RetransmitEntry;
  rto : Z;
  srtt : Z;
  cwnd : Z;
  ssthresh : Z;
  dup_acks : Z;
  peer_window : Z;
  ooo_queue : BTreeMap OooSeg;
  ooo_bytes : Z;
  sack_permitted : bool;
  ooo_fin_seq : option Z;
  reuseaddr : bool;
  nodelay : bool;
  rcvbuf : Z;
  sndbuf : Z;
  timewait_start : Z;
  closed_tick : Z;
  accepted : bool;
  close_pending : bool
}.

(** Field assignments. *)
Definition set_state (x : TcpState) (c : TcpConnection) : TcpConnection :=
  mkTcb (local_ip c) (local_port c) (remote_ip c) (remote_port c) x (send_next c)
    (send_unack c) (recv_next c) (recv_buffer c) (send_buffer c) (retransmit_queue c) (rto c)
    (srtt c) (cwnd c) (ssthresh c) (dup_acks c) (peer_window c) (ooo_queue c) (ooo_bytes c)
    (sack_permitted c) (ooo_fin_seq c) (reuseaddr c) (nodelay c) (rcvbuf c) (sndbuf c)
    (timewait_start c) (closed_tick c) (accepted c) (close_pending c).
Definition set_send_next (x : Z) (c : TcpConnection) : TcpConnection :=
  mkTcb (local_ip c) (local_port c) (remote_ip c) (remote_port c) (state c) x (send_unack c)
    (recv_next c) (recv_buffer c) (send_buffer c) (retransmit_queue c) (rto c) (srtt c) (cwnd c)
    (ssthresh c) (dup_acks c) (peer_window c) (ooo_queue c) (ooo_bytes c) (sack_permitted c)
    (ooo_fin_seq c) (reuseaddr c) (nodelay c) (rcvbuf c) (sndbuf c) (timewait_start c)
    (closed_tick c) (accepted c) (close_pending c).
Definition set_send_unack (x : Z) (c : TcpConnection) : TcpConnection :=
  mkTcb (local_ip c) (local_port c) (remote_ip c) (remote_port c) (state c) (send_next c) x
    (recv_next c) (recv_buffer c) (send_buffer c) (retransmit_queue c) (rto c) (srtt c) (cwnd c)
    (ssthresh c) (dup_acks c) (peer_window c) (ooo_queue c) (ooo_bytes c) (sack_permitted c)
    (ooo_fin_seq c) (reuseaddr c) (nodelay c) (rcvbuf c) (sndbuf c) (timewait_start c)
    (closed_tick c) (accepted c) (close_pending c).
Definition set_recv_next (x : Z) (c : TcpConnection) : TcpConnection :=
  mkTcb (local_ip c) (local_port c) (remote_ip c) (remote_port c) (state c) (send_next c)
    (send_unack c) x (recv_buffer c) (send_buffer c) (retransmit_queue c) (rto c) (srtt c)
    (cwnd c) (ssthresh c) (dup_acks c) (peer_window c) (ooo_queue c) (ooo_bytes c)
    (sack_permitted c) (ooo_fin_seq c) (reuseaddr c) (nodelay c) (rcvbuf c) (sndbuf c)
    (timewait_start c) (closed_tick c) (accepted c) (close_pending c).
Definition set_recv_buffer (x : Bytes) (c : TcpConnection) : TcpConnection :=
  mkTcb (local_ip c) (local_port c) (remote_ip c) (remote_port c) (state c) (send_next c)
    (send_unack c) (recv_next c) x (send_buffer c) (retransmit_queue c) (rto c) (srtt c)
    (cwnd c) (ssthresh c) (dup_acks c) (peer_window c) (ooo_queue c) (ooo_bytes c)
    (sack_permitted c) (ooo_fin_seq c) (reuseaddr c) (nodelay c) (rcvbuf c) (sndbuf c)
    (timewait_start c) (closed_tick c) (accepted c) (close_pending c).
Definition set_send_buffer (x : Bytes) (c : TcpConnection) : TcpConnection :=
  mkTcb (local_ip c) (local_port c) (remote_ip c) (remote_port c) (state c) (send_next c)
    (send_unack c) (recv_next c) (recv_buffer c) x (retransmit_queue c) (rto c) (srtt c)
    (cwnd c) (ssthresh c) (dup_acks c) (peer_window c) (ooo_queue c) (ooo_bytes c)
    (sack_permitted c) (ooo_fin_seq c) (reuseaddr c) (nodelay c) (rcvbuf c) (sndbuf c)
    (timewait_start c) (closed_tick c) (accepted c) (close_pending c).
Definition set_retransmit_queue (x : list RetransmitEntry) (c : TcpConnection) : TcpConnection :=
  mkTcb (local_ip c) (local_port c) (remote_ip c) (remote_port c) (state c) (send_next c)
    (send_unack c) (recv_next c) (recv_buffer c) (send_buffer c) x (rto c) (srtt c) (cwnd c)
    (ssthresh c) (dup_acks c) (peer_window c) (ooo_queue c) (ooo_bytes c) (sack_permitted c)
    (ooo_fin_seq c) (reuseaddr c) (nodelay c) (rcvbuf c) (sndbuf c) (timewait_start c)
    (closed_tick c) (accepted c) (close_pending c).
Definition set_rto (x : Z) (c : TcpConnection) : TcpConnection :=
  mkTcb (local_ip c) (local_port c) (remote_ip c) (remote_port c) (state c) (send_next c)
    (send_unack c) (recv_next c) (recv_buffer c) (send_buffer c) (retransmit_queue c) x (srtt c)
    (cwnd c) (ssthresh c) (dup_acks c) (peer_window c) (ooo_queue c) (ooo_bytes c)
    (sack_permitted c) (ooo_fin_seq c) (reuseaddr c) (nodelay c) (rcvbuf c) (sndbuf c)
    (timewait_start c) (closed_tick c) (accepted c) (close_pending c).
Definition set_cwnd (x : Z) (c : TcpConnection) : TcpConnection :=
  mkTcb (local_ip c) (local_port c) (remote_ip c) (remote_port c) (state c) (send_next c)
    (send_unack c) (recv_next c) (recv_buffer c) (send_buffer c) (retransmit_queue c) (rto c)
    (srtt c) x (ssthresh c) (dup_acks c) (peer_window c) (ooo_queue c) (ooo_bytes c)
    (sack_permitted c) (ooo_fin_seq c) (reuseaddr c) (nodelay c) (rcvbuf c) (sndbuf c)
    (timewait_start c) (closed_tick c) (accepted c) (close_pending c).
Definition set_ssthresh (x : Z) (c : TcpConnection) : TcpConnection :=
  mkTcb (local_ip c) (local_port c) (remote_ip c) (remote_port c) (state c) (send_next c)
    (send_unack c) (recv_next c) (recv_buffer c) (send_buffer c) (retransmit_queue c) (rto c)
    (srtt c) (cwnd c) x (dup_acks c) (peer_window c) (ooo_queue c) (ooo_bytes c)
    (sack_permitted c) (ooo_fin_seq c) (reuseaddr c) (nodelay c) (rcvbuf c) (sndbuf c)
    (timewait_start c) (closed_tick c) (accepted c) (close_pending c).
Definition set_dup_acks (x : Z) (c : TcpConnection) : TcpConnection :=
  mkTcb (local_ip c) (local_port c) (remote_ip c) (remote_port c) (state c) (send_next c)
    (send_unack c) (recv_next c) (recv_buffer c) (send_buffer c) (retransmit_queue c) (rto c)
    (srtt c) (cwnd c) (ssthresh c) x (peer_window c) (ooo_queue c) (ooo_bytes c)
    (sack_permitted c) (ooo_fin_seq c) (reuseaddr c) (nodelay c) (rcvbuf c) (sndbuf c)
    (timewait_start c) (closed_tick c) (accepted c) (close_pending c).
Definition set_peer_window (x : Z) (c : TcpConnection) : TcpConnection :=
  mkTcb (local_ip c) (local_port c) (remote_ip c) (remote_port c) (state c) (send_next c)
    (send_unack c) (recv_next c) (recv_buffer c) (send_buffer c) (retransmit_queue c) (rto c)
    (srtt c) (cwnd c) (ssthresh c) (dup_acks c) x (ooo_queue c) (ooo_bytes c) (sack_permitted c)
    (ooo_fin_seq c) (reuseaddr c) (nodelay c) (rcvbuf c) (sndbuf c) (timewait_start c)
    (closed_tick c) (accepted c) (close_pending c).
Definition set_ooo_queue (x : BTreeMap OooSeg) (c : TcpConnection) : TcpConnection :=
  mkTcb (local_ip c) (local_port c) (remote_ip c) (remote_port c) (state c) (send_next c)
    (send_unack c) (recv_next c) (recv_buffer c) (send_buffer c) (retransmit_queue c) (rto c)
    (srtt c) (cwnd c) (ssthresh c) (dup_acks c) (peer_window c) x (ooo_bytes c)
    (sack_permitted c) (ooo_fin_seq c) (reuseaddr c) (nodelay c) (rcvbuf c) (sndbuf c)
    (timewait_start c) (closed_tick c) (accepted c) (close_pending c).
Definition set_ooo_bytes (x : Z) (c : TcpConnection) : TcpConnection :=
  mkTcb (local_ip c) (local_port c) (remote_ip c) (remote_port c) (state c) (send_next c)
    (send_unack c) (recv_next c) (recv_buffer c) (send_buffer c) (retransmit_queue c) (rto c)
    (srtt c) (cwnd c) (ssthresh c) (dup_acks c) (peer_window c) (ooo_queue c) x
    (sack_permitted c) (ooo_fin_seq c) (reuseaddr c) (nodelay c) (rcvbuf c) (sndbuf c)
    (timewait_start c) (closed_tick c) (accepted c) (close_pending c).
Definition set_sack_permitted (x : bool) (c : TcpConnection) : TcpConnection :=
  mkTcb (local_ip c) (local_port c) (remote_ip c) (remote_port c) (state c) (send_next c)
    (send_unack c) (recv_next c) (recv_buffer c) (send_buffer c) (retransmit_queue c) (rto c)
    (srtt c) (cwnd c) (ssthresh c) (dup_acks c) (peer_window c) (ooo_queue c) (ooo_bytes c) x
    (ooo_fin_seq c) (reuseaddr c) (nodelay c) (rcvbuf c) (sndbuf c) (timewait_start c)
    (closed_tick c) (accepted c) (close_pending c).
Definition set_ooo_fin_seq (x : option Z) (c : TcpConnection) : TcpConnection :=
  mkTcb (local_ip c) (local_port c) (remote_ip c) (remote_port c) (state c) (send_next c)
    (send_unack c) (recv_next c) (recv_buffer c) (send_buffer c) (retransmit_queue c) (rto c)
    (srtt c) (cwnd c) (ssthresh c) (dup_acks c) (peer_window c) (ooo_queue c) (ooo_bytes c)
    (sack_permitted c) x (reuseaddr c) (nodelay c) (rcvbuf c) (sndbuf c) (timewait_start c)
    (closed_tick c) (accepted c) (close_pending c).
Definition set_reuseaddr (x : bool) (c : TcpConnection) : TcpConnection :=
  mkTcb (local_ip c) (local_port c) (remote_ip c) (remote_port c) (state c) (send_next c)
    (send_unack c) (recv_next c) (recv_buffer c) (send_buffer c) (retransmit_queue c) (rto c)
    (srtt c) (cwnd c) (ssthresh c) (dup_acks c) (peer_window c) (ooo_queue c) (ooo_bytes c)
    (sack_permitted c) (ooo_fin_seq c) x (nodelay c) (rcvbuf c) (sndbuf c) (timewait_start c)
    (closed_tick c) (accepted c) (close_pending c).
Definition set_nodelay (x : bool) (c : TcpConnection) : TcpConnection :=
  mkTcb (local_ip c) (local_port c) (remote_ip c) (remote_port c) (state c) (send_next c)
    (send_unack c) (recv_next c) (recv_buffer c) (send_buffer c) (retransmit_queue c) (rto c)
    (srtt c) (cwnd c) (ssthresh c) (dup_acks c) (peer_window c) (ooo_queue c) (ooo_bytes c)
    (sack_permitted c) (ooo_fin_seq c) (reuseaddr c) x (rcvbuf c) (sndbuf c) (timewait_start c)
    (closed_tick c) (accepted c) (close_pending c).
Definition set_rcvbuf (x : Z) (c : TcpConnection) : TcpConnection :=
  mkTcb (local_ip c) (local_port c) (remote_ip c) (remote_port c) (state c) (send_next c)
    (send_unack c) (recv_next c) (recv_buffer c) (send_buffer c) (retransmit_queue c) (rto c)
    (srtt c) (cwnd c) (ssthresh c) (dup_acks c) (peer_window c) (ooo_queue c) (ooo_bytes c)
    (sack_permitted c) (ooo_fin_seq c) (reuseaddr c) (nodelay c) x (sndbuf c) (timewait_start c)
    (closed_tick c) (accepted c) (close_pending c).
Definition set_sndbuf (x : Z) (c : TcpConnection) : TcpConnection :=
  mkTcb (local_ip c) (local_port c) (remote_ip c) (remote_port c) (state c) (send_next c)
    (send_unack c) (recv_next c) (recv_buffer c) (send_buffer c) (retransmit_queue c) (rto c)
    (srtt c) (cwnd c) (ssthresh c) (dup_acks c) (peer_window c) (ooo_queue c) (ooo_bytes c)
    (sack_permitted c) (ooo_fin_seq c) (reuseaddr c) (nodelay c) (rcvbuf c) x (timewait_start c)
    (closed_tick c) (accepted c) (close_pending c).
Definition set_timewait_start (x : Z) (c : TcpConnection) : TcpConnection :=
  mkTcb (local_ip c) (local_port c) (remote_ip c) (remote_port c) (state c) (send_next c)
    (send_unack c) (recv_next c) (recv_buffer c) (send_buffer c) (retransmit_queue c) (rto c)
    (srtt c) (cwnd c) (ssthresh c) (dup_acks c) (peer_window c) (ooo_queue c) (ooo_bytes c)
    (sack_permitted c) (ooo_fin_seq c) (reuseaddr c) (nodelay c) (rcvbuf c) (sndbuf c) x
    (closed_tick c) (accepted c) (close_pending c).
Definition set_closed_tick (x : Z) (c : TcpConnection) : TcpConnection :=
  mkTcb (local_ip c) (local_port c) (remote_ip c) (remote_port c) (state c) (send_next c)
    (send_unack c) (recv_next c) (recv_buffer c) (send_buffer c) (retransmit_queue c) (rto c)
    (srtt c) (cwnd c) (ssthresh c) (dup_acks c) (peer_window c) (ooo_queue c) (ooo_bytes c)
    (sack_permitted c) (ooo_fin_seq c) (reuseaddr c) (nodelay c) (rcvbuf c) (sndbuf c)
    (timewait_start c) x (accepted c) (close_pending c).
Definition set_accepted (x : bool) (c : TcpConnection) : TcpConnection :=
  mkTcb (local_ip c) (local_port c) (remote_ip c) (remote_port c) (state c) (send_next c)
    (send_unack c) (recv_next c) (recv_buffer c) (send_buffer c) (retransmit_queue c) (rto c)
    (srtt c) (cwnd c) (ssthresh c) (dup_acks c) (peer_window c) (ooo_queue c) (ooo_bytes c)
    (sack_permitted c) (ooo_fin_seq c) (reuseaddr c) (nodelay c) (rcvbuf c) (sndbuf c)
    (timewait_start c) (closed_tick c) x (close_pending c).
Definition set_close_pending (x : bool) (c : TcpConnection) : TcpConnection :=
  mkTcb (local_ip c) (local_port c) (remote_ip c) (remote_port c) (state c) (send_next c)
    (send_unack c) (recv_next c) (recv_buffer c) (send_buffer c) (retransmit_queue c) (rto c)
    (srtt c) (cwnd c) (ssthresh c) (dup_acks c) (peer_window c) (ooo_queue c) (ooo_bytes c)
    (sack_permitted c) (ooo_fin_seq c) (reuseaddr c) (nodelay c) (rcvbuf c) (sndbuf c)
    (timewait_start c) (closed_tick c) (accepted c) x.

(** The connection table, the ephemeral-port counter, and the state pollers
    are woken through. *)
Record Tcp := mkTcp {
  TCP_CONNECTIONS : list TcpConnection;
  NEXT_EPHEMERAL : Z;
  tcp_wk : Wake
}.

Definition with_conns (l : list TcpConnection) (s : Tcp) : Tcp :=
  mkTcp l (NEXT_EPHEMERAL s) (tcp_wk s).
Definition with_ephemeral (p : Z) (s : Tcp) : Tcp := mkTcp (TCP_CONNECTIONS s) p (tcp_wk s).
Definition with_tcp_wk (w : Wake) (s : Tcp) : Tcp := mkTcp (TCP_CONNECTIONS s) (NEXT_EPHEMERAL s) w.

(** A segment for the IP layer: [send_ipv4(out_ip, PROTO_TCP, out_seg)]. *)
Record OutSeg := mkOutSeg {
  out_ip : Ipv4Address;
  out_seg : Bytes
}.

Definition is_state (st : TcpState) (c : TcpConnection) : bool := bool_decide (state c = st).
Definition same_ip (a b : Ipv4Address) : bool := bool_decide (a = b).

(** The 4-tuple of a connection, as far as the table is searched by it. *)
Definition is_flow (lp : Z) (rip : Ipv4Address) (rp : Z) (c : TcpConnection) : bool :=
  (local_port c =? lp) && same_ip (remote_ip c) rip && (remote_port c =? rp).

Definition new_isn (tsc : Z) : Z :=
  let folded := wrap 32 (Z.lxor tsc (tsc .>> 32)) in
  add32 (wrap 32 (folded * 1000003)) 0xDEADBEEF.

Definition mark_closed (now : Z) (c : TcpConnection) : TcpConnection :=
  let c := set_closed_tick (Z.max now 1) (set_state Closed c) in
  let c := match ooo_queue c with [] => c | _ => set_ooo_bytes 0 (set_ooo_queue [] c) end in
  set_ooo_fin_seq None c.

Definition gc_expired (now : Z) (c : TcpConnection) : bool :=
  is_state Closed c && negb (closed_tick c =? 0) &&
  (CLOSED_GC_GRACE_TICKS <=? sub64 now (closed_tick c)).

Definition gc_closed_in (now : Z) (l : list TcpConnection) : list TcpConnection :=
  List.filter (fun c => negb (gc_expired now c)) l.

(* ------------------------------------------------------------------ *)
(** ** Out-of-order reassembly *)

(** The walk over the residents: the cursor it ends at and the gaps found. *)
Fixpoint frag_loop (end_ cursor : Z) (frags : list (Z * Z)) (residents : list (Z * Z))
    : Z * list (Z * Z) :=
  match residents with
  | [] => (cursor, frags)
  | (s1, e1) :: residents =>
      if seq_ge cursor end_ then (cursor, frags)
      else if seq_le e1 cursor then frag_loop end_ cursor frags residents
      else if seq_ge s1 end_ then (cursor, frags)
      else
        let frags := if seq_lt cursor s1
                     then frags ++ [(cursor, if seq_lt s1 end_ then s1 else end_)] else frags in
        let cursor := if seq_gt e1 cursor then e1 else cursor in
        frag_loop end_ cursor frags residents
  end.

Definition fragments (seq end_ : Z) (residents : list (Z * Z)) : list (Z * Z) :=
  let '(cursor, frags) := frag_loop end_ seq [] residents in
  if seq_lt cursor end_ then frags ++ [(cursor, end_)] else frags.

(** [r.wrapping_sub(l) as usize]. *)
Definition range_len (f : Z * Z) : Z := sub32 (snd f) (fst f).

Definition total_new (frags : list (Z * Z)) : Z := foldr (fun f n => range_len f + n) 0 frags.

(** The eviction loop: [true] when the newcomer is dropped. One round per
    resident and one to see the empty queue. *)
Fixpoint evict_loop (fuel : nat) (nfrags : nat) (total new_off : Z) (c : TcpConnection)
    : bool * TcpConnection :=
  match fuel with
  | O => (false, c)
  | S fuel =>
      if (OOO_MAX_SEGS <? length (ooo_queue c) + nfrags)%nat || (OOO_MAX_BYTES <? ooo_bytes c + total)
      then match bt_pop_last (ooo_queue c) with
           | None => (false, c)
           | Some (hi_key, ev, q) =>
               if hi_key <=? new_off then (true, c)
               else
                 let c := set_ooo_bytes (sat_sub (ooo_bytes c) (Z.of_nat (length (ooo_data ev))))
                            (set_ooo_queue q c) in
                 let c := if bool_decide (ooo_fin_seq c = Some (ooo_end ev))
                          then set_ooo_fin_seq None c else c in
                 evict_loop fuel nfrags total new_off c
           end
      else (false, c)
  end.

(** [data[off..off + flen]]. *)
Definition sub_bytes (off flen : Z) (data : Bytes) : Bytes :=
  take (Z.to_nat flen) (drop (Z.to_nat off) data).

(** One new fragment goes into the queue. *)
Definition insert_frag (seq : Z) (data : Bytes) (fin : bool) (fin_seq : Z) (c : TcpConnection)
    (f : Z * Z) : TcpConnection :=
  let '(l, r) := f in
  let bytes := sub_bytes (sub32 l seq) (sub32 r l) data in
  let frag_fin := fin && (r =? fin_seq) in
  let c := if frag_fin then set_ooo_fin_seq (Some fin_seq) c else c in
  let c := set_ooo_queue (bt_insert (sub32 l (recv_next c)) (mkOooSeg l bytes frag_fin) (ooo_queue c)) c in
  set_ooo_bytes (ooo_bytes c + sub32 r l) c.

Definition ooo_insert (seq : Z) (data : Bytes) (fin : bool) (c : TcpConnection)
    : bool * TcpConnection :=
  let end_ := add32 seq (wrap 32 (Z.of_nat (length data))) in
  let frags := fragments seq end_ (map (fun e => (ooo_seq (snd e), ooo_end (snd e))) (ooo_queue c)) in
  match frags with
  | [] => (false, c)
  | (first, _) :: _ =>
      let total := total_new frags in
      let new_off := sub32 first (recv_next c) in
      let '(dropped, c) :=
        evict_loop (S (length (ooo_queue c))) (length frags) total new_off c in
      if dropped then (false, c)
      else if OOO_MAX_BYTES <? ooo_bytes c + total then (false, c)
      else (true, foldl (insert_frag seq data fin end_) c frags)
  end.

(** The splice loop over the queue [q], lowest key first. *)
Fixpoint drain_loop (q : BTreeMap OooSeg) (fin_reached : bool) (c : TcpConnection)
    : bool * TcpConnection :=
  match q with
  | [] => (fin_reached, c)
  | (_, seg) :: q' =>
      if seq_gt (ooo_seq seg) (recv_next c) then (fin_reached, c)
      else
        let c := set_ooo_queue q' c in
        let c := set_ooo_bytes (sat_sub (ooo_bytes c) (Z.of_nat (length (ooo_data seg)))) c in
        if seq_le (ooo_end seg) (recv_next c) then
          let c := if bool_decide (ooo_fin_seq c = Some (ooo_end seg))
                   then set_ooo_fin_seq None c else c in
          drain_loop q' fin_reached c
        else
          let skip := Z.to_nat (sub32 (recv_next c) (ooo_seq seg)) in
          let c := set_recv_buffer (recv_buffer c ++ drop skip (ooo_data seg)) c in
          let c := set_recv_next (ooo_end seg) c in
          if ooo_fin seg && bool_decide (ooo_fin_seq c = Some (ooo_end seg))
          then drain_loop q' true (set_ooo_fin_seq None c)
          else drain_loop q' fin_reached c
  end.

(** The keys are offsets from [recv_next] and follow it. *)
Definition rebase (c : TcpConnection) : TcpConnection :=
  set_ooo_queue
    (foldl (fun m e => bt_insert (sub32 (ooo_seq (snd e)) (recv_next c)) (snd e) m) [] (ooo_queue c)) c.

Definition ooo_drain (c : TcpConnection) : bool * TcpConnection :=
  let '(fin_reached, c) := drain_loop (ooo_queue c) false c in
  (fin_reached, match ooo_queue c with [] => c | _ => rebase c end).

(** Ranges that touch become one. *)
Definition push_run (runs : list (Z * Z)) (s : OooSeg) : list (Z * Z) :=
  match List.rev runs with
  | (l, r) :: before =>
      if r =? ooo_seq s then List.rev before ++ [(l, ooo_end s)] else runs ++ [(ooo_seq s, ooo_end s)]
  | [] => [(ooo_seq s, ooo_end s)]
  end.

Definition sack_blocks (c : TcpConnection) (most_recent_seq : Z) : list (Z * Z) :=
  let runs := foldl (fun runs e => push_run runs (snd e)) [] (ooo_queue c) in
  let runs :=
    match position (fun '(l, r) => seq_ge most_recent_seq l && seq_lt most_recent_seq r) runs with
    | Some pos => runs !!! pos :: (take pos runs ++ drop (S pos) runs)
    | None => runs
    end in
  take SACK_MAX_BLOCKS runs.

Definition build_ack_reply (c : TcpConnection) (trigger_seq : Z) : Bytes :=
  let plain := build_segment (local_port c) (remote_port c) (send_next c) (recv_next c) ACK
                 (local_ip c) (remote_ip c) [] in
  match ooo_queue c with
  | [] => plain
  | _ =>
      if sack_permitted c then
        match build_sack_option (sack_blocks c trigger_seq) with
        | [] => plain
        | opts => build_segment_opts (local_port c) (remote_port c) (send_next c) (recv_next c) ACK
                    (local_ip c) (remote_ip c) opts []
        end
      else plain
  end.

(* ------------------------------------------------------------------ *)
(** ** Receiving text *)

(** The ACK pushed to [out]. *)
Definition ack_reply (c : TcpConnection) (trigger_seq : Z) : OutSeg :=
  mkOutSeg (remote_ip c) (build_ack_reply c trigger_seq).

(** In-order text ending at [seg_end] has been appended: splice, and take the
    segment's own FIN if nothing followed it. *)
Definition after_text (has_fin : bool) (seg_end : Z) (c : TcpConnection) : bool * TcpConnection :=
  let '(spliced_fin, c) := ooo_drain c in
  let '(fin_consumed, c) :=
    if has_fin && (recv_next c =? seg_end) then (true, set_recv_next (add32 (recv_next c) 1) c)
    else (false, c) in
  (fin_consumed || spliced_fin, c).

Definition receive_segment_data (hdr : TcpHeader) (payload : Bytes) (c : TcpConnection)
    : bool * list OutSeg * TcpConnection :=
  let seg_seq := seq_num hdr in
  let has_fin := negb (flags hdr .& FIN =? 0) in
  let seg_end := add32 seg_seq (wrap 32 (Z.of_nat (length payload))) in
  match payload with
  | [] =>
      if has_fin && (seg_seq =? recv_next c) then
        let c := set_recv_next (add32 (recv_next c) 1) c in
        (true, [ack_reply c seg_seq], c)
      else if has_fin then
        let c := set_ooo_fin_seq (Some seg_seq) c in
        (false, [ack_reply c seg_seq], c)
      else (false, [], c)
  | _ =>
      if seg_seq =? recv_next c then
        let c := set_recv_buffer (recv_buffer c ++ payload) c in
        let c := set_recv_next (add32 (recv_next c) (wrap 32 (Z.of_nat (length payload)))) c in
        let '(fin_consumed, c) := after_text has_fin seg_end c in
        (fin_consumed, [ack_reply c seg_seq], c)
      else if seq_lt seg_seq (recv_next c) then
        let '(fin_consumed, c) :=
          if seq_gt seg_end (recv_next c) then
            let skip := Z.to_nat (sub32 (recv_next c) seg_seq) in
            let c := set_recv_buffer (recv_buffer c ++ drop skip payload) c in
            let c := set_recv_next seg_end c in
            after_text has_fin seg_end c
          else (false, c) in
        (fin_consumed, [ack_reply c seg_seq], c)
      else
        let win_end := add32 (recv_next c) 65535 in
        let c :=
          if seq_lt seg_seq win_end then
            let buf := if seq_gt seg_end win_end
                       then take (Z.to_nat (sub32 win_end seg_seq)) payload else payload in
            let fin_in_window := has_fin && negb (seq_gt seg_end win_end) in
            snd (ooo_insert seg_seq buf fin_in_window c)
          else c in
        (false, [ack_reply c seg_seq], c)
  end.

(* ------------------------------------------------------------------ *)
(** ** Acknowledgements *)

(** [RetransmitEntry] end: [e.seq.wrapping_add(e.data.len() as u32)]. *)
Definition rt_end (e : RetransmitEntry) : Z := add32 (rt_seq e) (wrap 32 (Z.of_nat (length (rt_data e)))).

Fixpoint drain_acked (ack_num : Z) (q : list RetransmitEntry) : list RetransmitEntry :=
  match q with
  | e :: q' => if seq_le (rt_end e) ack_num then drain_acked ack_num q' else q
  | [] => []
  end.

Definition drain_retransmit (ack_num : Z) (c : TcpConnection) : TcpConnection :=
  set_retransmit_queue (drain_acked ack_num (retransmit_queue c)) c.

Definition update_cwnd (acked : Z) (c : TcpConnection) : TcpConnection :=
  if cwnd c <? ssthresh c then set_cwnd (sat_add32 (cwnd c) (Z.min acked MSS)) c
  else
    let inc := MSS * MSS / Z.max (cwnd c) 1 in
    set_cwnd (sat_add32 (cwnd c) (Z.max inc 1)) c.

(** [e.sent_ticks = 0] on the front of the queue. *)
Definition force_front (q : list RetransmitEntry) : list RetransmitEntry :=
  match q with
  | e :: q' => mkRetransmit (rt_seq e) (rt_data e) 0 (rt_rto e) (retries e) :: q'
  | [] => []
  end.

Definition handle_ack (ack_num : Z) (c : TcpConnection) : TcpConnection :=
  if ack_num =? send_unack c then
    let c := set_dup_acks (Z.min (dup_acks c + 1) U8_MAX) c in
    if 3 <=? dup_acks c then
      let c := set_ssthresh (Z.max (cwnd c / 2) (2 * MSS)) c in
      let c := set_cwnd (add32 (ssthresh c) (3 * MSS)) c in
      let c := set_dup_acks 0 c in
      set_retransmit_queue (force_front (retransmit_queue c)) c
    else c
  else if seq_gt ack_num (send_unack c) then
    let acked := sub32 ack_num (send_unack c) in
    let c := set_rto RTO_INITIAL (set_dup_acks 0 (set_send_unack ack_num c)) in
    update_cwnd acked (drain_retransmit ack_num c)
  else c.

(* ------------------------------------------------------------------ *)
(** ** Segments that arrive *)

Definition has_flag (hdr : TcpHeader) (f : Z) : bool := negb (flags hdr .& f =? 0).

(** The states whose entry a poller observes. *)
Definition edge_state (st : TcpState) : bool :=
  match st with Established | CloseWait | FinWait2 | TimeWait | Closed => true | _ => false end.

(** The [match conn.state] of [process_segment]. *)
Definition segment_arrives (now : Z) (hdr : TcpHeader) (payload : Bytes) (seg_offers_sack : bool)
    (c : TcpConnection) : list OutSeg * TcpConnection :=
  match state c with
  | SynSent =>
      if flags hdr .& (SYN .| ACK) =? SYN .| ACK then
        let c := set_recv_next (add32 (seq_num hdr) 1) c in
        let c := set_send_unack (ack_num hdr) c in
        let c := drain_retransmit (ack_num hdr) c in
        let c := set_state Established (set_sack_permitted seg_offers_sack c) in
        ([mkOutSeg (remote_ip c) (build_segment (local_port c) (remote_port c) (send_next c)
            (recv_next c) ACK (local_ip c) (remote_ip c) [])], c)
      else ([], c)
  | SynReceived =>
      if has_flag hdr ACK then
        let c := set_send_unack (ack_num hdr) c in
        ([], set_state Established (drain_retransmit (ack_num hdr) c))
      else ([], c)
  | Established =>
      let c := if has_flag hdr ACK then handle_ack (ack_num hdr) c else c in
      let '(fin_consumed, out, c) := receive_segment_data hdr payload c in
      (out, if fin_consumed then set_state CloseWait c else c)
  | FinWait1 =>
      let c := if has_flag hdr ACK then handle_ack (ack_num hdr) c else c in
      let '(fin_consumed, out, c) := receive_segment_data hdr payload c in
      (out, if fin_consumed then set_timewait_start now (set_state TimeWait c)
            else if has_flag hdr ACK then set_state FinWait2 c else c)
  | FinWait2 =>
      let '(fin_consumed, out, c) := receive_segment_data hdr payload c in
      (out, if fin_consumed then set_timewait_start now (set_state TimeWait c) else c)
  | LastAck =>
      ([], if has_flag hdr ACK then set_retransmit_queue [] (mark_closed now c) else c)
  | _ => ([], c)
  end.

Definition process_segment (now : Z) (hdr : TcpHeader) (payload : Bytes) (seg_offers_sack : bool)
    (c : TcpConnection) : bool * list OutSeg * TcpConnection :=
  let c0 := set_peer_window (window hdr) c in
  let '(out, c1) := segment_arrives now hdr payload seg_offers_sack c0 in
  let data_arrived := (length (recv_buffer c0) <? length (recv_buffer c1))%nat in
  let edge := negb (bool_decide (state c0 = state c1)) && edge_state (state c1) in
  (data_arrived || edge, out, c1).

(** The fields every new connection starts with. *)
Definition new_connection (lip : Ipv4Address) (lp : Z) (rip : Ipv4Address) (rp : Z) (st : TcpState)
    (snd_nxt snd_una rcv_nxt peer_wnd : Z) (sack : bool) : TcpConnection :=
  mkTcb lip lp rip rp st snd_nxt snd_una rcv_nxt [] [] [] RTO_INITIAL (RTO_INITIAL / 2) MSS 65535 0
    peer_wnd [] 0 sack None false false 87380 131072 0 0 false false.

(** The bound on the table: sweep when full; [None] when still full. *)
Definition make_room (now : Z) (l : list TcpConnection) : option (list TcpConnection) :=
  if (MAX_TCP_CONNECTIONS <=? length l)%nat then
    let l := gc_closed_in now l in
    if (MAX_TCP_CONNECTIONS <=? length l)%nat then None else Some l
  else Some l.

Definition send_syn_options (src_ip : Ipv4Address) (sp : Z) (dst_ip : Ipv4Address) (dp seq ack fl : Z)
    (sack : bool) : OutSeg :=
  mkOutSeg dst_ip (build_syn_segment sp dp seq ack fl src_ip dst_ip sack).

Definition send_flags (src_ip : Ipv4Address) (sp : Z) (dst_ip : Ipv4Address) (dp seq ack fl : Z) : OutSeg :=
  mkOutSeg dst_ip (build_segment sp dp seq ack fl src_ip dst_ip []).

(** The arm of [handle_tcp] for a SYN that belongs to no connection. *)
Definition handle_syn (src_ip dst_ip : Ipv4Address) (data : Bytes) (hdr : TcpHeader) (now tsc : Z)
    (s : Tcp) : list OutSeg * Tcp :=
  match List.find (fun c => (local_port c =? dst_port hdr) && is_state Listen c) (TCP_CONNECTIONS s) with
  | Some listener =>
      let isn := new_isn tsc in
      let peer_sack := syn_offers_sack data (data_offset hdr) in
      let rcv_nxt := add32 (seq_num hdr) 1 in
      match make_room now (TCP_CONNECTIONS s) with
      | None => ([], with_conns (gc_closed_in now (TCP_CONNECTIONS s)) s)
      | Some l =>
          let c := new_connection dst_ip (local_port listener) src_ip (src_port hdr) SynReceived
                     (add32 isn 1) isn rcv_nxt (window hdr) peer_sack in
          ([send_syn_options dst_ip (local_port listener) src_ip (src_port hdr) isn rcv_nxt
              (SYN .| ACK) peer_sack],
           with_conns (l ++ [c]) s)
      end
  | None =>
      ([send_flags dst_ip (dst_port hdr) src_ip (src_port hdr) 0 (add32 (seq_num hdr) 1) (RST .| ACK)], s)
  end.

Definition handle_tcp (src_ip dst_ip : Ipv4Address) (data : Bytes) (now tsc : Z) (s : Tcp)
    : list OutSeg * Tcp :=
  match parse data with
  | None => ([], s)
  | Some hdr =>
      let hlen := Nat.min (header_len hdr) (length data) in
      let payload := drop hlen data in
      let flow := is_flow (dst_port hdr) src_ip (src_port hdr) in
      if has_flag hdr RST then
        ([], with_conns (update_first
               (fun c => flow c && negb (is_state Closed c || is_state TimeWait c))
               (fun c => set_retransmit_queue [] (mark_closed now c)) (TCP_CONNECTIONS s)) s)
      else
        match List.find flow (TCP_CONNECTIONS s) with
        | Some c =>
            let seg_offers_sack := syn_offers_sack data (data_offset hdr) in
            let '(readiness_edge, out, c') := process_segment now hdr payload seg_offers_sack c in
            let s := with_conns (update_first flow (fun _ => c') (TCP_CONNECTIONS s)) s in
            (out, if readiness_edge then with_tcp_wk (ring_poll_bell_for BellInetRx (tcp_wk s)) s else s)
        | None =>
            if has_flag hdr SYN && negb (has_flag hdr ACK)
            then handle_syn src_ip dst_ip data hdr now tsc s
            else ([], s)
        end
  end.

(* ------------------------------------------------------------------ *)
(** ** Sending *)

(** A data or flag segment of a connection. *)
Definition conn_segment (c : TcpConnection) (seq ack fl : Z) (payload : Bytes) : OutSeg :=
  mkOutSeg (remote_ip c)
    (build_segment (local_port c) (remote_port c) seq ack fl (local_ip c) (remote_ip c) payload).

(** [send_next - send_unack], the window the peer and the network allow, and
    what may still be sent. *)
Definition in_flight (c : TcpConnection) : Z := sub32 (send_next c) (send_unack c).
Definition eff_window (c : TcpConnection) : Z := Z.min (cwnd c) (Z.max (peer_window c) MSS).
Definition can_send (c : TcpConnection) : nat :=
  if in_flight c <? eff_window c then Z.to_nat (eff_window c - in_flight c) else 0%nat.

(** [chunk] goes out as the next segment and onto the retransmit queue. *)
Definition transmit (now : Z) (chunk : Bytes) (c : TcpConnection) : OutSeg * TcpConnection :=
  let seq := send_next c in
  let out := conn_segment c seq (recv_next c) (PSH .| ACK) chunk in
  let c := set_retransmit_queue
             (retransmit_queue c ++ [mkRetransmit seq chunk now (rto c) 0]) c in
  (out, set_send_next (add32 seq (wrap 32 (Z.of_nat (length chunk)))) c).

(** The segmentation loop; each round sends at least one byte, so [fuel] is
    the length of the data. *)
Fixpoint send_loop (fuel : nat) (now : Z) (can offset : nat) (data : Bytes) (c : TcpConnection)
    : nat * list OutSeg * TcpConnection :=
  match fuel with
  | O => (offset, [], c)
  | S fuel =>
      if (offset <? length data)%nat && (offset <? can)%nat then
        let end_ := Nat.min (Nat.min (offset + Z.to_nat MSS) (length data)) (offset + can - offset)%nat in
        let chunk := take (end_ - offset) (drop offset data) in
        let '(o, c) := transmit now chunk c in
        let '(offset, out, c) := send_loop fuel now can end_ data c in
        (offset, o :: out, c)
      else (offset, [], c)
  end.

Definition send_on (now : Z) (data : Bytes) (c : TcpConnection) : list OutSeg * TcpConnection :=
  let '(offset, out, c) := send_loop (length data) now (can_send c) 0 data c in
  (out, if (offset <? length data)%nat then set_send_buffer (send_buffer c ++ drop offset data) c else c).

Definition send_data_inner (port : Z) (peer : option (Ipv4Address * Z)) (data : Bytes) (now : Z)
    (s : Tcp) : (Z + string) * list OutSeg * Tcp :=
  match data with
  | [] => (inl 0, [], s)
  | _ =>
      let sel c := (local_port c =? port) && is_state Established c &&
        match peer with Some (rip, rp) => same_ip (remote_ip c) rip && (remote_port c =? rp) | None => true end in
      match List.find sel (TCP_CONNECTIONS s) with
      | None => (inr "no established connection on port", [], s)
      | Some c =>
          let '(out, c') := send_on now data c in
          (inl (Z.of_nat (length data)), out,
           with_conns (update_first sel (fun _ => c') (TCP_CONNECTIONS s)) s)
      end
  end.

Definition send_data (port : Z) (data : Bytes) := send_data_inner port None data.
Definition send_data_to (local_port : Z) (remote_ip : Ipv4Address) (remote_port : Z) (data : Bytes) :=
  send_data_inner local_port (Some (remote_ip, remote_port)) data.

(* ------------------------------------------------------------------ *)
(** ** The timer *)

(** Retransmission of the front entry; the flag says the connection is given
    up. *)
Definition tick_retransmit (now : Z) (c : TcpConnection) : bool * list OutSeg * TcpConnection :=
  match retransmit_queue c with
  | e :: q =>
      if rt_rto e <=? sub64 now (sent_ticks e) then
        if MAX_RETRIES <=? retries e then
          (true, [conn_segment c (send_next c) 0 RST []],
           set_retransmit_queue [] (mark_closed now c))
        else
          let e' := mkRetransmit (rt_seq e) (rt_data e) now (Z.min (wrap 32 (rt_rto e * 2)) RTO_MAX)
                      (retries e + 1) in
          let c := set_retransmit_queue (e' :: q) c in
          let c := set_ssthresh (Z.max (cwnd c / 2) (2 * MSS)) c in
          let c := set_cwnd MSS c in
          (false, [conn_segment c (rt_seq e) (recv_next c) (PSH .| ACK) (rt_data e)], c)
      else (false, [], c)
  | [] => (false, [], c)
  end.

(** One segment of the send buffer if the window is open; the flag is the
    rising write-space edge. *)
Definition tick_send (now : Z) (c : TcpConnection) : bool * list OutSeg * TcpConnection :=
  match send_buffer c with
  | [] => (false, [], c)
  | buf =>
      if in_flight c <? eff_window c then
        let n := Nat.min (Nat.min (can_send c) (length buf)) (Z.to_nat MSS) in
        let edge := (is_state Established c || is_state CloseWait c) &&
                    (sndbuf c <=? wrap 32 (Z.of_nat (length buf))) &&
                    (wrap 32 (Z.of_nat (length buf - n)) <? sndbuf c) in
        let '(o, c) := transmit now (take n buf) (set_send_buffer (drop n buf) c) in
        (edge, [o], c)
      else (false, [], c)
  end.

(** The FIN of a close that waited for the send buffer. *)
Definition tick_close (c : TcpConnection) : list OutSeg * TcpConnection :=
  match send_buffer c with
  | [] =>
      if close_pending c then
        let c := set_close_pending false c in
        let c := set_state (if is_state CloseWait c then LastAck else FinWait1) c in
        ([conn_segment c (send_next c) (recv_next c) (FIN .| ACK) []], c)
      else ([], c)
  | _ => ([], c)
  end.

(** The states the timer works on. *)
Definition timed_state (st : TcpState) : bool :=
  match st with
  | SynSent | SynReceived | Established | FinWait1 | CloseWait | LastAck => true
  | _ => false
  end.

Record Tick := mkTick {
  tick_conn : TcpConnection;
  tick_out : list OutSeg;
  tick_aborted : bool;
  tick_edge : bool
}.

(** The body of the loop over the connections. *)
Definition tick_one (now : Z) (c : TcpConnection) : Tick :=
  if is_state TimeWait c then
    mkTick (if TIMEWAIT_TICKS <=? sub64 now (timewait_start c) then mark_closed now c else c) [] false false
  else if negb (timed_state (state c)) then mkTick c [] false false
  else
    let '(aborted, out1, c) := tick_retransmit now c in
    let '(edge, out2, c) := tick_send now c in
    let '(out3, c) := tick_close c in
    mkTick c (out1 ++ out2 ++ out3) aborted edge.

Definition tcp_timer_tick (now : Z) (s : Tcp) : list OutSeg * Tcp :=
  let ticks := map (tick_one now) (TCP_CONNECTIONS s) in
  let aborted := map (fun t => local_port (tick_conn t)) (List.filter tick_aborted ticks) in
  let conns := List.filter
    (fun c => negb (is_state Closed c && existsb (Z.eqb (local_port c)) aborted)) (map tick_conn ticks) in
  let s := with_conns (gc_closed_in now conns) s in
  (flat_map tick_out ticks,
   if existsb tick_edge ticks then with_tcp_wk (ring_poll_bell_for BellInetTx (tcp_wk s)) s else s).

(* ------------------------------------------------------------------ *)
(** ** Queries *)

Definition get_state_for (lp : Z) (rip : Ipv4Address) (rp : Z) (s : Tcp) : option TcpState :=
  state <$> List.find (is_flow lp rip rp) (TCP_CONNECTIONS s).

(** The states reported as the end of the stream. *)
Definition read_closed (st : TcpState) : bool :=
  match st with CloseWait | LastAck | TimeWait | Closed => true | _ => false end.

Definition peer_fin_received (lp : Z) (rip : Ipv4Address) (rp : Z) (s : Tcp) : bool :=
  match get_state_for lp rip rp s with
  | Some st => read_closed st
  | None => true
  end.

Definition is_fully_closed (lp : Z) (rip : Ipv4Address) (rp : Z) (s : Tcp) : bool :=
  match get_state_for lp rip rp s with Some Closed | None => true | _ => false end.

Definition send_space_available (lp : Z) (rip : Ipv4Address) (rp : Z) (s : Tcp) : bool :=
  match List.find (is_flow lp rip rp) (TCP_CONNECTIONS s) with
  | Some c =>
      if is_state Established c || is_state CloseWait c
      then wrap 32 (Z.of_nat (length (send_buffer c))) <? sndbuf c
      else true
  | None => true
  end.

Definition is_listening (port : Z) (s : Tcp) : bool :=
  existsb (fun c => (local_port c =? port) && is_state Listen c) (TCP_CONNECTIONS s).

(** Connections whose receive buffer the socket layer may read. *)
Definition readable_state (c : TcpConnection) : bool := is_state Established c || is_state CloseWait c.

Definition has_data_for (lp : Z) (rip : Ipv4Address) (rp : Z) (s : Tcp) : bool :=
  existsb (fun c => is_flow lp rip rp c && readable_state c && negb (length (recv_buffer c) =? 0)%nat)
    (TCP_CONNECTIONS s).

Definition drain_recv (max_len : nat) (c : TcpConnection) : Bytes * TcpConnection :=
  let n := Nat.min max_len (length (recv_buffer c)) in
  if (n =? 0)%nat then ([], c) else (take n (recv_buffer c), set_recv_buffer (drop n (recv_buffer c)) c).

(** [drain_recv] on the first connection selected. *)
Definition read_where (sel : TcpConnection -> bool) (max_len : nat) (s : Tcp) : Bytes * Tcp :=
  match List.find sel (TCP_CONNECTIONS s) with
  | Some c =>
      let '(out, c') := drain_recv max_len c in
      (out, with_conns (update_first sel (fun _ => c') (TCP_CONNECTIONS s)) s)
  | None => ([], s)
  end.

Definition read (port : Z) : nat -> Tcp -> Bytes * Tcp :=
  read_where (fun c => (local_port c =? port) && readable_state c).
Definition read_from (lp : Z) (rip : Ipv4Address) (rp : Z) : nat -> Tcp -> Bytes * Tcp :=
  read_where (fun c => is_flow lp rip rp c && readable_state c).

(** A child of a listener that [accept] has not handed out. *)
Definition accept_pending (lp : Z) (c : TcpConnection) : bool :=
  (local_port c =? lp) && is_state Established c && negb (remote_port c =? 0) && negb (accepted c).

Definition take_pending_accept (lp : Z) (s : Tcp) : option (Ipv4Address * Z) * Tcp :=
  match List.find (accept_pending lp) (TCP_CONNECTIONS s) with
  | Some c =>
      (Some (remote_ip c, remote_port c),
       with_conns (update_first (accept_pending lp) (set_accepted true) (TCP_CONNECTIONS s)) s)
  | None => (None, s)
  end.

Definition has_pending_accept (lp : Z) (s : Tcp) : bool := existsb (accept_pending lp) (TCP_CONNECTIONS s).

(* ------------------------------------------------------------------ *)
(** ** Control operations *)

Definition listen (port now tsc : Z) (our_ip : Ipv4Address) (s : Tcp) : (unit + string) * Tcp :=
  if is_listening port s then (inr "port already listening", s)
  else
    let isn := new_isn tsc in
    match make_room now (TCP_CONNECTIONS s) with
    | None => (inr "TCP_CONNECTIONS cap reached", with_conns (gc_closed_in now (TCP_CONNECTIONS s)) s)
    | Some l =>
        (inl tt, with_conns (l ++ [new_connection our_ip port [0; 0; 0; 0] 0 Listen isn isn 0 65535 false]) s)
    end.

Definition connect (rip : Ipv4Address) (rp now tsc : Z) (our_ip : Ipv4Address) (s : Tcp)
    : (Z + string) * list OutSeg * Tcp :=
  let lp := NEXT_EPHEMERAL s in
  let s := with_ephemeral (wrap 16 (lp + 1)) s in
  let isn := new_isn tsc in
  match make_room now (TCP_CONNECTIONS s) with
  | None => (inr "TCP_CONNECTIONS cap reached", [], with_conns (gc_closed_in now (TCP_CONNECTIONS s)) s)
  | Some l =>
      (inl lp, [send_syn_options our_ip lp rip rp isn 0 SYN true],
       with_conns (l ++ [new_connection our_ip lp rip rp SynSent (add32 isn 1) isn 0 65535 true]) s)
  end.

Definition abort (port now : Z) (s : Tcp) : list OutSeg * Tcp :=
  match List.find (fun c => local_port c =? port) (TCP_CONNECTIONS s) with
  | None => ([], s)
  | Some c =>
      (if negb (remote_port c =? 0) && negb (is_state Listen c)
       then [send_flags (local_ip c) (local_port c) (remote_ip c) (remote_port c) (send_next c)
               (recv_next c) (RST .| ACK)] else [],
       with_conns (update_first (fun c => local_port c =? port)
         (fun c => set_retransmit_queue [] (mark_closed now c)) (TCP_CONNECTIONS s)) s)
  end.

Definition close_listener (port : Z) (s : Tcp) : Tcp :=
  with_conns (List.filter (fun c => negb ((local_port c =? port) && is_state Listen c)) (TCP_CONNECTIONS s)) s.

(** [Some] of the FIN to send, [None] when it waits for the send buffer. *)
Definition request_close (c : TcpConnection) : option OutSeg * TcpConnection :=
  match send_buffer c with
  | [] =>
      let c := set_state (if is_state CloseWait c then LastAck else FinWait1) c in
      (Some (send_flags (local_ip c) (local_port c) (remote_ip c) (remote_port c) (send_next c)
               (recv_next c) (FIN .| ACK)), c)
  | _ => (None, set_close_pending true c)
  end.

(** [request_close] on the first connection selected, if there is one. *)
Definition close_where (sel : TcpConnection -> bool) (s : Tcp) : option (list OutSeg * Tcp) :=
  match List.find sel (TCP_CONNECTIONS s) with
  | None => None
  | Some c =>
      let '(info, c') := request_close c in
      Some (match info with Some o => [o] | None => [] end,
            with_conns (update_first sel (fun _ => c') (TCP_CONNECTIONS s)) s)
  end.

Definition tcp_close (port : Z) (s : Tcp) : (unit + string) * list OutSeg * Tcp :=
  match close_where (fun c => (local_port c =? port) && readable_state c) s with
  | Some (out, s) => (inl tt, out, s)
  | None => (inr "no connection to close", [], s)
  end.

Definition close_connection (lp : Z) (rip : Ipv4Address) (rp : Z) (s : Tcp)
    : (unit + string) * list OutSeg * Tcp :=
  match close_where (fun c => is_flow lp rip rp c && readable_state c) s with
  | Some (out, s) => (inl tt, out, s)
  | None => (inr "no connection to close", [], s)
  end.

Definition shutdown_write (lp : Z) (rip : Ipv4Address) (rp : Z) (s : Tcp)
    : (unit + string) * list OutSeg * Tcp :=
  match close_where (fun c => is_flow lp rip rp c && readable_state c) s with
  | Some (out, s) => (inl tt, out, s)
  | None => (inl tt, [], s)
  end.

(** [if let Some(v) = o { c.field = v }]. *)
Definition set_if {A} (set : A -> TcpConnection -> TcpConnection) (o : option A) (c : TcpConnection)
    : TcpConnection := match o with Some v => set v c | None => c end.

Definition set_option (port : Z) (reuse nodel : option bool) (rbuf sbuf : option Z) (s : Tcp) : Tcp :=
  with_conns (update_first (fun c => local_port c =? port)
    (fun c => set_if set_sndbuf sbuf (set_if set_rcvbuf rbuf (set_if set_nodelay nodel (set_if set_reuseaddr reuse c))))
    (TCP_CONNECTIONS s)) s.
