(* ===== verification/TcpReceive.v ===== *)
(** * TCP reassembly (receive path of kernel/src/net/tcp.rs)

    The peer's byte stream is a function from positions to bytes with a
    length; sequence numbers are positions counted from the initial sequence
    number, modulo [2 ^ 32]. Proved: whatever the order, duplication, overlap
    and loss of the segments that arrive, what the application reads is the
    stream from its start without gap or repetition, the end of the stream is
    signalled only when all of it has been delivered or the connection was
    reset, aborted or given up, and a segment at the
    expected position is always delivered. *)

From S2P Require Import Prelude.
From S2P Require Import WaitList.
From S2P Require Import TcpWire.
From S2P Require Import Tcp.

Section receive.
Context (stream : Z -> Z) (L base : Z).

(** The sequence number of a position. *)
Definition sq (p : Z) : Z := wrap 32 (base + p).

(** The bytes of the stream in [[a, b)]. *)
Definition slice (a b : Z) : Bytes := map stream (seqZ a (b - a)).

Lemma length_slice a b : a <= b -> Z.of_nat (length (slice a b)) = b - a.
Proof. intros H. unfold slice. rewrite length_map, length_seqZ. lia. Qed.

Lemma slice_nil a b : b <= a -> slice a b = [].
Proof. intros H. unfold slice. by rewrite seqZ_nil by lia. Qed.

Lemma slice_app a b c : a <= b <= c -> slice a c = slice a b ++ slice b c.
Proof.
  intros H. unfold slice. rewrite <- map_app. f_equal.
  replace (c - a) with ((b - a) + (c - b)) by lia. rewrite seqZ_app by lia. do 2 f_equal. lia.
Qed.

Lemma drop_slice k a b : a <= k <= b -> drop (Z.to_nat (k - a)) (slice a b) = slice k b.
Proof.
  intros H. rewrite (slice_app a k b) by lia.
  replace (Z.to_nat (k - a)) with (length (slice a k)); [apply drop_app_length|].
  pose proof (length_slice a k). lia.
Qed.

Lemma take_slice k a b : a <= k <= b -> take (Z.to_nat (k - a)) (slice a b) = slice a k.
Proof.
  intros H. rewrite (slice_app a k b) by lia.
  replace (Z.to_nat (k - a)) with (length (slice a k)); [apply take_app_length|].
  pose proof (length_slice a k). lia.
Qed.

(** Positions less than this apart are ordered by their sequence numbers. *)
Definition SPAN : Z := 2 ^ 28.

Lemma sq_add p (l : Bytes) :
  Z.of_nat (length l) < 2 ^ 32 -> add32 (sq p) (wrap 32 (Z.of_nat (length l))) = sq (p + Z.of_nat (length l)).
Proof. intros H. unfold sq. rewrite (wrap_small 32 (Z.of_nat _)) by (unfold in_word; lia). apply add32_wrap. Qed.

Section order.
Context (x y : Z) (Hxy : - 2 ^ 31 < x - y < 2 ^ 31).
Lemma sq_lt : seq_lt (sq x) (sq y) = (x <? y).
Proof. by apply seq_lt_pos. Qed.
Lemma sq_le : seq_le (sq x) (sq y) = (x <=? y).
Proof. by apply seq_le_pos. Qed.
Lemma sq_gt : seq_gt (sq x) (sq y) = (y <? x).
Proof. by apply seq_gt_pos. Qed.
Lemma sq_ge : seq_ge (sq x) (sq y) = (y <=? x).
Proof. by apply seq_ge_pos. Qed.
Lemma sq_eq : (sq x =? sq y) = (x =? y).
Proof. by apply seq_eq_pos. Qed.
End order.

Lemma sq_sub x y : 0 <= x - y < 2 ^ 32 -> sub32 (sq x) (sq y) = x - y.
Proof. apply sub32_pos. Qed.

(* ------------------------------------------------------------------ *)
(** ** The queue as a list of position ranges *)

(** A buffered range [[lo, hi)] and whether it carries the FIN. *)
Definition Range : Type := Z * Z * bool.

(** Ranges in order between [lo] and [hi], none empty, a FIN only at the end
    of the stream. *)
Fixpoint chain (lo hi : Z) (ps : list Range) : Prop :=
  match ps with
  | [] => True
  | (p, e, f) :: ps => lo <= p /\ p < e /\ e <= hi /\ (f = true -> e = L) /\ chain e hi ps
  end.

Definition seg_of (x : Range) : OooSeg := let '(p, e, f) := x in mkOooSeg (sq p) (slice p e) f.

Definition queue_of (n : Z) (ps : list Range) : BTreeMap OooSeg :=
  map (fun x => (fst (fst x) - n, seg_of x)) ps.

Fixpoint bytes_of (ps : list Range) : Z :=
  match ps with [] => 0 | (p, e, _) :: ps => (e - p) + bytes_of ps end.

Lemma chain_weaken lo lo' hi hi' ps : lo' <= lo -> hi <= hi' -> chain lo hi ps -> chain lo' hi' ps.
Proof.
  revert lo lo'. induction ps as [|[[p e] f] ps IH]; intros lo lo' Hl Hh; simpl; [done|].
  intros (H1 & H2 & H3 & H4 & H5). split_and!; try lia; [done|]. by apply (IH e e).
Qed.

Lemma chain_elem lo hi ps p e f :
  chain lo hi ps -> (p, e, f) ∈ ps -> lo <= p /\ p < e /\ e <= hi /\ (f = true -> e = L).
Proof.
  revert lo. induction ps as [|[[p' e'] f'] ps IH]; intros lo; simpl; [by intros _ ?%not_elem_of_nil|].
  intros (H1 & H2 & H3 & H4 & H5) [E|Hin]%list.elem_of_cons; [simplify_eq; done|].
  destruct (IH e' H5 Hin) as (? & ? & ? & ?). split_and!; try lia; done.
Qed.

Lemma chain_bytes lo hi ps : chain lo hi ps -> 0 <= bytes_of ps.
Proof.
  revert lo. induction ps as [|[[p e] f] ps IH]; intros lo; simpl; [lia|].
  intros (H1 & H2 & H3 & H4 & H5). specialize (IH e H5). lia.
Qed.

Lemma seg_end p e f : p < e -> e - p < 2 ^ 32 -> ooo_end (seg_of (p, e, f)) = sq e.
Proof.
  intros H1 H2. unfold ooo_end, seg_of. cbn [ooo_seq ooo_data].
  rewrite sq_add; rewrite length_slice by lia; [f_equal; lia|lia].
Qed.

Lemma seg_len p e f : p < e -> Z.of_nat (length (ooo_data (seg_of (p, e, f)))) = e - p.
Proof. intros H. unfold seg_of. cbn [ooo_data]. apply length_slice. lia. Qed.

(** The receive side of a connection, replaced as a whole. *)
Definition with_rx (rn : Z) (rb : Bytes) (q : BTreeMap OooSeg) (n : Z) (f : option Z) (c : TcpConnection)
    : TcpConnection :=
  set_ooo_fin_seq f (set_ooo_bytes n (set_ooo_queue q (set_recv_buffer rb (set_recv_next rn c)))).

(** [n] bytes of the stream have been delivered. *)
Record rx_ok (n : Z) (c : TcpConnection) : Prop := {
  rx_next : recv_next c = sq n;
  rx_range : 0 <= n <= L;
  rx_queue : exists ps, ooo_queue c = queue_of n ps /\ chain (n + 1) (Z.min L (n + 65535)) ps /\
    ooo_bytes c = bytes_of ps;
  rx_bytes : ooo_bytes c <= OOO_MAX_BYTES;
  rx_fin : forall q, ooo_fin_seq c = Some q -> q = sq L
}.

Lemma with_rx_id rn rb q n f c :
  recv_next c = rn -> recv_buffer c = rb -> ooo_queue c = q -> ooo_bytes c = n -> ooo_fin_seq c = f ->
  c = with_rx rn rb q n f c.
Proof. intros <- <- <- <- <-. by destruct c. Qed.

(* ------------------------------------------------------------------ *)
(** ** Splicing *)

(** The splice loop delivers the buffered ranges the delivered part reaches,
    and stops at the first gap. *)
Lemma drain_loop_spec k lo hi ps fin m c :
  chain lo hi ps -> hi <= L -> m - SPAN <= lo -> hi <= m + SPAN ->
  ooo_queue c = queue_of k ps -> ooo_bytes c = bytes_of ps -> recv_next c = sq m ->
  (forall q, ooo_fin_seq c = Some q -> q = sq L) ->
  exists m' ps' f' fin',
    drain_loop (queue_of k ps) fin c =
      (fin', with_rx (sq m') (recv_buffer c ++ slice m m') (queue_of k ps') (bytes_of ps') f' c) /\
    m <= m' <= Z.max m hi /\ chain (m' + 1) hi ps' /\ bytes_of ps' <= bytes_of ps /\ (fin' = true -> fin = true \/ m' = L) /\
    (forall q, f' = Some q -> q = sq L).
Proof.
  revert lo fin m c. induction ps as [|[[p e] f] ps IH]; intros lo fin m c Hc HL Hlo Hhi Hq Hb Hm Hf.
  { exists m, [], (ooo_fin_seq c), fin. simpl. split_and!; [|lia|lia|done|lia|by left|done].
    f_equal. apply with_rx_id; try done. by rewrite slice_nil, app_nil_r by lia. }
  destruct Hc as (H1 & H2 & H3 & H4 & H5). unfold SPAN in *.
  change (queue_of k ((p, e, f) :: ps)) with ((p - k, seg_of (p, e, f)) :: queue_of k ps) in Hq |- *.
  cbn [drain_loop].
  change (ooo_seq (seg_of (p, e, f))) with (sq p). rewrite Hm.
  rewrite (sq_gt p m) by lia. destruct (Z.ltb_spec m p) as [Hgt|Hle].
  { exists m, ((p, e, f) :: ps), (ooo_fin_seq c), fin.
    refine (conj _ (conj _ (conj _ (conj _ (conj _ Hf))))); [|lia|split_and!; try lia; done|apply Z.le_refl|by left].
    f_equal. apply with_rx_id; try done. by rewrite slice_nil, app_nil_r by lia. }
  rewrite !seg_end by lia.
  cbn [set_ooo_queue set_ooo_bytes recv_next ooo_fin_seq recv_buffer ooo_bytes]. rewrite Hm.
  rewrite Hb, seg_len by done. cbn [bytes_of].
  replace (sat_sub (e - p + bytes_of ps) (e - p)) with (bytes_of ps)
    by (unfold sat_sub; pose proof (chain_bytes _ _ _ H5); lia).
  change (recv_next (set_ooo_bytes (bytes_of ps) (set_ooo_queue (queue_of k ps) c))) with (recv_next c).
  rewrite (sq_le e m) by lia. destruct (Z.leb_spec e m) as [Hst|Hnew].
  - match goal with |- context [drain_loop _ fin ?c1] => set (c1' := c1) end.
    assert (exists f1, c1' = with_rx (sq m) (recv_buffer c) (queue_of k ps) (bytes_of ps) f1 c /\
              forall q, f1 = Some q -> q = sq L) as (f1 & E1 & Hf1).
    { subst c1'. match goal with |- context [bool_decide ?P] => destruct (bool_decide P) end;
        eexists; (split; [unfold with_rx; rewrite <- Hm; destruct c; reflexivity|done]). }
    rewrite E1.
    destruct (IH e fin m (with_rx (sq m) (recv_buffer c) (queue_of k ps) (bytes_of ps) f1 c))
      as (m' & ps' & f' & fin' & E & Hr & Hch & Hby & Hfin & Hf'); try done; try lia.
    exists m', ps', f', fin'. rewrite E. split_and!; try done; lia.
  - rewrite (sq_sub m p) by lia.
    change (ooo_data (seg_of (p, e, f))) with (slice p e). rewrite drop_slice by lia.
    match goal with |- context [if ?b then drain_loop _ true ?c1 else drain_loop _ fin ?c2] =>
      set (b' := b); set (c1' := c1); set (c2' := c2) end.
    assert (exists f1 g, (if b' then drain_loop (queue_of k ps) true c1' else drain_loop (queue_of k ps) fin c2') =
        drain_loop (queue_of k ps) g (with_rx (sq e) (recv_buffer c ++ slice m e) (queue_of k ps) (bytes_of ps) f1 c) /\
        (forall q, f1 = Some q -> q = sq L) /\ (g = true -> fin = true \/ e = L)) as (f1 & g & E1 & Hf1 & Hg).
    { destruct b' eqn:Eb.
      - exists None, true. split; [by destruct c|]. split; [done|]. intros _. right.
        subst b'. apply andb_true_iff in Eb as [Eb _]. by apply H4.
      - exists (ooo_fin_seq c), fin. split; [by destruct c|]. split; [done|]. by left. }
    rewrite E1.
    destruct (IH e g e (with_rx (sq e) (recv_buffer c ++ slice m e) (queue_of k ps) (bytes_of ps) f1 c))
      as (m' & ps' & f' & fin' & E & Hr & Hch & Hby & Hfin & Hf'); try done; try lia.
    exists m', ps', f', fin'. rewrite E. split_and!; try done; try lia.
    + change (recv_buffer (with_rx _ ?rb _ _ _ _)) with rb. by rewrite <- app_assoc, <- slice_app by lia.
    + intros [Hg'|]%Hfin; [|by right]. destruct (Hg Hg') as [|He]; [by left|].
      right. lia.
Qed.

Lemma bt_insert_append {V} (k : Z) (v : V) (m : BTreeMap V) :
  Forall (fun e => fst e < k) m -> bt_insert k v m = m ++ [(k, v)].
Proof.
  induction m as [|[k' v'] m IH]; intros Hm; simpl; [done|].
  apply Forall_cons_iff in Hm as [Hk Hm]. simpl in Hk.
  rewrite (proj2 (Z.ltb_ge _ _)), (proj2 (Z.eqb_neq _ _)) by lia. by rewrite IH.
Qed.

(** Re-keying keeps the ranges. *)
Lemma rebase_loop n k lo hi pre ps :
  chain lo hi (pre ++ ps) -> n <= lo -> hi < n + 2 ^ 32 ->
  foldl (fun m e => bt_insert (sub32 (ooo_seq (snd e)) (sq n)) (snd e) m) (queue_of n pre) (queue_of k ps) =
  queue_of n (pre ++ ps).
Proof.
  revert pre. induction ps as [|[[p e] f] ps IH]; intros pre Hc Hlo Hhi; [by rewrite app_nil_r|].
  change (queue_of k ((p, e, f) :: ps)) with ((p - k, seg_of (p, e, f)) :: queue_of k ps). cbn [foldl snd].
  assert ((p, e, f) ∈ pre ++ (p, e, f) :: ps) as Hin by (apply elem_of_app; right; left).
  destruct (chain_elem _ _ _ _ _ _ Hc Hin) as (H1 & H2 & H3 & _).
  change (ooo_seq (seg_of (p, e, f))) with (sq p). rewrite sq_sub by lia.
  rewrite bt_insert_append.
  - replace (queue_of n pre ++ [(p - n, seg_of (p, e, f))]) with (queue_of n (pre ++ [(p, e, f)]))
      by (unfold queue_of; by rewrite map_app).
    rewrite IH; rewrite <- ?app_assoc; done.
  - clear IH Hhi. apply List.Forall_map. revert lo Hc Hlo H1 Hin.
    induction pre as [|[[p' e'] f'] pre IHp]; intros lo Hc Hlo H1 Hin; [done|].
    destruct Hc as (G1 & G2 & G3 & G4 & G5).
    assert ((p, e, f) ∈ pre ++ (p, e, f) :: ps) as Hin' by (apply elem_of_app; right; left).
    destruct (chain_elem _ _ _ _ _ _ G5 Hin') as (J1 & _).
    apply Forall_cons_iff. split; [simpl; lia|]. apply (IHp e'); [done|lia|done|done].
Qed.

(** The splice as a whole. *)
Lemma ooo_drain_spec k hi ps lo m c :
  chain lo hi ps -> hi <= L -> m - SPAN <= lo -> hi <= m + 65535 ->
  ooo_queue c = queue_of k ps -> ooo_bytes c = bytes_of ps -> recv_next c = sq m ->
  (forall q, ooo_fin_seq c = Some q -> q = sq L) ->
  exists m' ps' f' fin',
    ooo_drain c =
      (fin', with_rx (sq m') (recv_buffer c ++ slice m m') (queue_of m' ps') (bytes_of ps') f' c) /\
    m <= m' <= Z.max m hi /\ chain (m' + 1) hi ps' /\ bytes_of ps' <= bytes_of ps /\
    (fin' = true -> m' = L) /\ (forall q, f' = Some q -> q = sq L).
Proof.
  intros Hc HL Hlo Hhi Hq Hb Hm Hf. unfold SPAN in *. unfold ooo_drain. rewrite Hq.
  destruct (drain_loop_spec k lo hi ps false m c) as (m' & ps' & f' & fin' & E & Hr & Hch & Hby & Hfin & Hf');
    try done; unfold SPAN; try lia.
  rewrite E. exists m', ps', f', fin'. split_and!; try done; try lia.
  2:{ by intros [|]%Hfin. }
  f_equal. destruct ps' as [|x ps']; [done|].
  change (ooo_queue (with_rx _ _ ?q _ _ _)) with q. cbv iota beta.
  change (queue_of k (x :: ps')) with ((fst (fst x) - k, seg_of x) :: queue_of k ps') at 1. cbv iota beta.
  unfold rebase. change (recv_next (with_rx ?rn _ _ _ _ _)) with rn.
  change (ooo_queue (with_rx _ _ ?q _ _ _)) with q.
  change (@nil (Z * OooSeg)) with (queue_of m' []).
  rewrite (rebase_loop m' k (m' + 1) hi [] (x :: ps')) by (done || lia). by destruct c.
Qed.

(** Only the receive side differs. *)
Definition rx_frame (c c' : TcpConnection) : Prop :=
  exists rn rb q n f, c' = with_rx rn rb q n f c.

Lemma rx_frame_trans c1 c2 c3 : rx_frame c1 c2 -> rx_frame c2 c3 -> rx_frame c1 c3.
Proof.
  intros (? & ? & ? & ? & ? & ->) (rn & rb & q & n & f & ->). by exists rn, rb, q, n, f.
Qed.

Lemma rx_frame_with rn rb q n f c : rx_frame c (with_rx rn rb q n f c).
Proof. by exists rn, rb, q, n, f. Qed.

Lemma rx_frame_refl c : rx_frame c c.
Proof. unfold rx_frame. repeat eexists. by apply with_rx_id. Qed.

(** What a step of the receive path may do after [n] delivered bytes: deliver
    the stream up to some [n'], and report the end of the stream only there. *)
Definition delivers (n n' : Z) (fin : bool) (c c' : TcpConnection) : Prop :=
  n <= n' <= L /\ recv_buffer c' = recv_buffer c ++ slice n n' /\
  (fin = false -> rx_ok n' c') /\
  (fin = true -> n' = L /\ (recv_next c' = sq L \/ recv_next c' = sq (L + 1))) /\
  rx_frame c c'.

Lemma after_text_spec k lo hi ps has_fin m c :
  chain lo hi ps -> hi <= L -> m - SPAN <= lo -> hi <= m + 65535 -> 0 <= m <= L ->
  ooo_queue c = queue_of k ps -> ooo_bytes c = bytes_of ps -> ooo_bytes c <= OOO_MAX_BYTES ->
  recv_next c = sq m -> (forall q, ooo_fin_seq c = Some q -> q = sq L) -> (has_fin = true -> m = L) ->
  exists n' fin c', after_text has_fin (sq m) c = (fin, c') /\ delivers m n' fin c c'.
Proof.
  intros Hc HL Hlo Hhi Hm0 Hq Hb Hmax Hm Hf Hfin. unfold after_text.
  destruct (ooo_drain_spec k hi ps lo m c) as (m' & ps' & f' & fin' & E & Hr & Hch & Hby & Hfin' & Hf'); try done.
  rewrite E. change (recv_next (with_rx ?rn _ _ _ _ _)) with rn.
  destruct has_fin eqn:Ehf; cbn [andb].
  - assert (m' = m) as -> by (specialize (Hfin eq_refl); lia).
    rewrite Z.eqb_refl. exists m, true. eexists. split; [reflexivity|].
    refine (conj _ (conj eq_refl (conj _ (conj _ _)))); [lia|done| |exists (add32 (sq m) 1); do 4 eexists; reflexivity].
    intros _. split; [by apply Hfin|]. right. rewrite (Hfin eq_refl).
    unfold sq. cbn [set_recv_next recv_next]. rewrite add32_wrap. done.
  - exists m', fin'. eexists. split; [reflexivity|].
    refine (conj _ (conj eq_refl (conj _ (conj _ _)))); [lia| | |apply rx_frame_with].
    + intros _. split; [reflexivity|lia| |cbn; lia|exact Hf'].
      exists ps'. split; [reflexivity|]. split; [|reflexivity]. apply (chain_weaken (m' + 1) _ hi); [lia|lia|done].
    + intros ->. split; [by apply Hfin'|]. left. change (sq m' = sq L). by rewrite Hfin'.
Qed.

(* ------------------------------------------------------------------ *)
(** ** Buffering *)

Definition pos2 (f : Z * Z) : Z * Z := (sq (fst f), sq (snd f)).

(** New ranges in order between [lo] and [hi]. *)
Fixpoint gaps (lo hi : Z) (fs : list (Z * Z)) : Prop :=
  match fs with
  | [] => True
  | (l, r) :: fs => lo <= l /\ l < r /\ r <= hi /\ gaps r hi fs
  end.

Lemma gaps_app lo mid hi fs gs : lo <= mid <= hi -> gaps lo mid fs -> gaps mid hi gs -> gaps lo hi (fs ++ gs).
Proof.
  revert lo. induction fs as [|[l r] fs IH]; intros lo Hm; simpl.
  - intros _. destruct gs as [|[l r] gs]; simpl; [done|]. intros (? & ? & ? & ?). split_and!; try lia; done.
  - intros (H1 & H2 & H3 & H4) Hg. split_and!; try lia. apply IH; [lia|done|done].
Qed.

Lemma gaps_elem lo hi fs l r : gaps lo hi fs -> (l, r) ∈ fs -> lo <= l /\ l < r /\ r <= hi.
Proof.
  revert lo. induction fs as [|[l' r'] fs IH]; intros lo; simpl; [by intros _ ?%not_elem_of_nil|].
  intros (H1 & H2 & H3 & H4) [E|Hin]%list.elem_of_cons; [simplify_eq; lia|].
  destruct (IH r' H4 Hin). lia.
Qed.

(** No byte of [[l, r)] is in a buffered range. *)
Definition clear_of (ps : list Range) (l r : Z) : Prop :=
  forall p e f, (p, e, f) ∈ ps -> e <= l \/ r <= p.

Lemma clear_of_cons p e f ps l r :
  e <= l \/ r <= p -> clear_of ps l r -> clear_of ((p, e, f) :: ps) l r.
Proof. intros H Hc p' e' f' [E|Hin]%list.elem_of_cons; [by simplify_eq|by apply (Hc _ _ _ Hin)]. Qed.

(** The resident ranges as [ooo_insert] lists them. *)
Lemma residents_of n lo hi ps :
  chain lo hi ps -> hi - lo < 2 ^ 32 ->
  map (fun e => (ooo_seq (snd e), ooo_end (snd e))) (queue_of n ps) =
  map (fun x => (sq (fst (fst x)), sq (snd (fst x)))) ps.
Proof.
  revert lo. induction ps as [|[[p e] f] ps IH]; intros lo Hc Hs; [done|].
  destruct Hc as (H1 & H2 & H3 & H4 & H5). cbn [queue_of map fst snd]. rewrite seg_end by lia.
  f_equal. apply (IH e); [done|lia].
Qed.

(** The walk finds the gaps: in order, clear of the residents, and together
    with the residents covering everything up to the cursor. *)
Lemma frag_loop_spec lo hi ps x e0 acc :
  chain lo hi ps -> lo - SPAN <= x -> x <= hi + SPAN -> lo - SPAN <= e0 <= hi + SPAN -> hi - lo <= SPAN ->
  exists x' fs,
    frag_loop (sq e0) (sq x) acc (map (fun y => (sq (fst (fst y)), sq (snd (fst y)))) ps) =
      (sq x', acc ++ map pos2 fs) /\
    x <= x' /\ (x' <= hi \/ x' = x) /\ (length fs <= length ps)%nat /\ gaps x (Z.min x' e0) fs /\
    (forall l r, (l, r) ∈ fs -> clear_of ps l r) /\
    (x' < e0 -> clear_of ps x' e0) /\
    (forall y, x <= y < Z.min x' e0 ->
       (exists l r, (l, r) ∈ fs /\ l <= y < r) \/ exists p e f, (p, e, f) ∈ ps /\ p <= y < e).
Proof.
  revert lo x acc. induction ps as [|[[p e] f] ps IH]; intros lo x acc Hc Hx1 Hx2 He Hs; cbn [map frag_loop].
  { exists x, []. simpl. rewrite app_nil_r. split_and!; try done; try lia.
    - intros l r Hin. by apply not_elem_of_nil in Hin.
    - intros _ p e f Hin. by apply not_elem_of_nil in Hin. }
  destruct Hc as (H1 & H2 & H3 & H4 & H5). unfold SPAN in *. cbn [fst snd].
  assert (forall l r, r <= p -> clear_of ((p, e, f) :: ps) l r) as Hbelow.
  { intros l r Hr p' e' f' [E|Hin]%list.elem_of_cons; [simplify_eq; lia|].
    destruct (chain_elem _ _ _ _ _ _ H5 Hin). lia. }
  rewrite sq_ge by lia. destruct (Z.leb_spec e0 x) as [Hd|Hd].
  { exists x, []. simpl. rewrite app_nil_r. split_and!; try done; try lia.
    intros l r Hin. by apply not_elem_of_nil in Hin. }
  rewrite sq_le by lia. destruct (Z.leb_spec e x) as [Hb|Hb].
  { destruct (IH e x acc) as (x' & fs & E & G1 & G2 & G0 & G3 & G4 & G5 & G6); try done; try lia.
    exists x', fs. split_and!; try done; try (cbn [length]; lia).
    - intros l r Hin. apply clear_of_cons; [|by apply G4]. destruct (gaps_elem _ _ _ _ _ G3 Hin). lia.
    - intros Hlt. apply clear_of_cons; [lia|by apply G5].
    - intros y Hy. destruct (G6 y Hy) as [?|(p' & e' & f' & Hin & ?)]; [by left|].
      right. exists p', e', f'. split; [by right|done]. }
  rewrite sq_ge by lia. destruct (Z.leb_spec e0 p) as [Hp|Hp].
  { exists x, []. simpl. rewrite app_nil_r. split_and!; try done; try lia.
    - intros l r Hin. by apply not_elem_of_nil in Hin.
    - intros _. by apply Hbelow. }
  rewrite !sq_lt, sq_gt by lia. rewrite (proj2 (Z.ltb_lt x e)), (proj2 (Z.ltb_lt p e0)) by lia.
  destruct (Z.ltb_spec x p) as [Hxp|Hxp].
  - destruct (IH e e (acc ++ [(sq x, sq p)])) as (x' & fs & E & G1 & G2 & G0 & G3 & G4 & G5 & G6); try done; try lia.
    exists x', ((x, p) :: fs). rewrite E, <- app_assoc. split_and!; try done; try (cbn [length]; lia).
    + simpl. split_and!; try lia. destruct fs as [|[l r] fs]; [done|].
      simpl in *. destruct G3 as (? & ? & ? & ?). split_and!; try lia; done.
    + intros l r [E'|Hin]%list.elem_of_cons; [simplify_eq; by apply Hbelow|].
      destruct (gaps_elem _ _ _ _ _ G3 Hin). apply clear_of_cons; [lia|by apply G4].
    + intros Hlt. apply clear_of_cons; [lia|by apply G5].
    + intros y Hy. destruct (decide (y < p)) as [|Hyp].
      { left. exists x, p. split; [left|lia]. }
      destruct (decide (y < e)) as [|Hye]; [right; exists p, e, f; split; [left|lia]|].
      destruct (G6 y ltac:(lia)) as [(l & r & Hin & ?)|(p' & e' & f' & Hin & ?)].
      * left. exists l, r. split; [by right|done].
      * right. exists p', e', f'. split; [by right|done].
  - destruct (IH e e acc) as (x' & fs & E & G1 & G2 & G0 & G3 & G4 & G5 & G6); try done; try lia.
    exists x', fs. split_and!; try done; try (cbn [length]; lia).
    + destruct fs as [|[l r] fs]; [done|]. simpl in *. destruct G3 as (? & ? & ? & ?). split_and!; try lia; done.
    + intros l r Hin. destruct (gaps_elem _ _ _ _ _ G3 Hin). apply clear_of_cons; [lia|by apply G4].
    + intros Hlt. apply clear_of_cons; [lia|by apply G5].
    + intros y Hy. destruct (decide (y < e)) as [|Hye]; [right; exists p, e, f; split; [left|lia]|].
      destruct (G6 y ltac:(lia)) as [?|(p' & e' & f' & Hin & ?)]; [by left|].
      right. exists p', e', f'. split; [by right|done].
Qed.

Fixpoint gap_bytes (fs : list (Z * Z)) : Z :=
  match fs with [] => 0 | (l, r) :: fs => (r - l) + gap_bytes fs end.

(** The fragments of a newcomer [[p, e0)]: its bytes that are not buffered. *)
Lemma fragments_spec lo hi ps p e0 :
  chain lo hi ps -> lo <= p < e0 -> e0 <= hi -> hi - lo <= SPAN ->
  exists fs,
    fragments (sq p) (sq e0) (map (fun y => (sq (fst (fst y)), sq (snd (fst y)))) ps) = map pos2 fs /\
    (length fs <= S (length ps))%nat /\ gaps p e0 fs /\ (forall l r, (l, r) ∈ fs -> clear_of ps l r) /\
    (forall y, p <= y < e0 ->
       (exists l r, (l, r) ∈ fs /\ l <= y < r) \/ exists p' e f, (p', e, f) ∈ ps /\ p' <= y < e).
Proof.
  intros Hc Hp He Hs. unfold fragments.
  destruct (frag_loop_spec lo hi ps p e0 []) as (x' & fs & E & G1 & G2 & G0 & G3 & G4 & G5 & G6);
    try done; unfold SPAN in *; try lia.
  rewrite E. cbn [app]. rewrite sq_lt by lia. destruct (Z.ltb_spec x' e0) as [Hx|Hx].
  - exists (fs ++ [(x', e0)]). rewrite map_app. split_and!; [done|rewrite length_app; simpl; lia| | |].
    + apply (gaps_app p x' e0); [lia| |simpl; lia]. by replace (Z.min x' e0) with x' in G3 by lia.
    + intros l r [Hin|[E'|[]%not_elem_of_nil]%list.elem_of_cons]%elem_of_app; [by apply G4|].
      simplify_eq. by apply G5.
    + intros y Hy. destruct (decide (y < x')) as [Hlt|Hge].
      * destruct (G6 y ltac:(lia)) as [(l & r & Hin & ?)|?]; [|by right].
        left. exists l, r. split; [apply elem_of_app; by left|done].
      * left. exists x', e0. split; [apply elem_of_app; right; left|lia].
  - exists fs. replace (Z.min x' e0) with e0 in * by lia. split_and!; try done; lia.
Qed.

Lemma total_new_gaps lo hi fs : gaps lo hi fs -> hi - lo < 2 ^ 32 -> total_new (map pos2 fs) = gap_bytes fs.
Proof.
  revert lo. induction fs as [|[l r] fs IH]; intros lo Hg Hs; [done|].
  destruct Hg as (H1 & H2 & H3 & H4). 
  change (total_new (map pos2 ((l, r) :: fs))) with (sub32 (sq r) (sq l) + total_new (map pos2 fs)).
  cbn [gap_bytes]. rewrite sq_sub by lia. rewrite (IH r); [done|done|lia].
Qed.

(** *** Eviction *)

Lemma bt_pop_last_snoc {V} (m : BTreeMap V) k v : bt_pop_last (m ++ [(k, v)]) = Some (k, v, m).
Proof.
  induction m as [|e m IH]; [done|]. change ((e :: m) ++ [(k, v)]) with (e :: (m ++ [(k, v)])).
  destruct m as [|e2 m]; [by destruct e|].
  change ((e2 :: m) ++ [(k, v)]) with (e2 :: (m ++ [(k, v)])) in *.
  destruct e as [ke ve]. cbn [bt_pop_last] in *. by rewrite IH.
Qed.

Lemma chain_prefix lo hi pre suf : chain lo hi (pre ++ suf) -> chain lo hi pre.
Proof.
  revert lo. induction pre as [|[[p e] f] pre IH]; intros lo; simpl; [done|].
  intros (H1 & H2 & H3 & H4 & H5). split_and!; try done. by apply IH.
Qed.

Lemma bytes_of_app ps qs : bytes_of (ps ++ qs) = bytes_of ps + bytes_of qs.
Proof. induction ps as [|[[p e] f] ps IH]; simpl; [done|]. lia. Qed.

Lemma queue_of_app n ps qs : queue_of n (ps ++ qs) = queue_of n ps ++ queue_of n qs.
Proof. apply map_app. Qed.

Lemma length_queue_of n ps : length (queue_of n ps) = length ps.
Proof. apply length_map. Qed.

(** Eviction takes ranges from the far end only, none when there is room. *)
Lemma evict_loop_spec fuel nfrags total new_off n lo hi ps c :
  chain lo hi ps -> ooo_queue c = queue_of n ps -> ooo_bytes c = bytes_of ps ->
  (forall q, ooo_fin_seq c = Some q -> q = sq L) ->
  exists b pre suf f',
    evict_loop fuel nfrags total new_off c =
      (b, with_rx (recv_next c) (recv_buffer c) (queue_of n pre) (bytes_of pre) f' c) /\
    ps = pre ++ suf /\ (forall q, f' = Some q -> q = sq L) /\
    ((length ps + nfrags <= OOO_MAX_SEGS)%nat -> bytes_of ps + total <= OOO_MAX_BYTES ->
     b = false /\ suf = []).
Proof.
  revert ps c. induction fuel as [|fuel IH]; intros ps c Hc Hq Hb Hf.
  { exists false, ps, [], (ooo_fin_seq c). rewrite app_nil_r. split_and!; try done.
    f_equal. by apply with_rx_id. }
  cbn [evict_loop]. rewrite Hq, Hb, length_queue_of.
  destruct (_ || _) eqn:Ecap.
  2:{ exists false, ps, [], (ooo_fin_seq c). rewrite app_nil_r. split_and!; try done.
      f_equal. by apply with_rx_id. }
  assert (~ ((length ps + nfrags <= OOO_MAX_SEGS)%nat /\ bytes_of ps + total <= OOO_MAX_BYTES)) as Hfull.
  { apply orb_true_iff in Ecap as [E%Nat.ltb_lt|E%Z.ltb_lt]; lia. }
  destruct ps as [|x ps] using rev_ind.
  { exists false, [], [], (ooo_fin_seq c). split_and!; try done; [|tauto..]. f_equal. by apply with_rx_id. }
  clear IHps. rewrite queue_of_app. destruct x as [[p e] f]. cbn [queue_of map]. rewrite bt_pop_last_snoc.
  destruct (_ <=? new_off).
  { exists true, (ps ++ [(p, e, f)]), [], (ooo_fin_seq c). rewrite app_nil_r. split_and!; try done; [|tauto..].
    f_equal. by apply with_rx_id. }
  assert (p < e) as Hpe.
  { destruct (chain_elem _ _ _ p e f Hc) as (_ & ? & _); [apply elem_of_app; right; left|done]. }
  rewrite seg_len, bytes_of_app by done. cbn [bytes_of].
  match goal with |- context [evict_loop fuel _ _ _ ?c1] => set (c1' := c1) end.
  pose proof (chain_prefix _ _ _ _ Hc) as Hc'. pose proof (chain_bytes _ _ _ Hc').
  assert (exists f1, c1' = with_rx (recv_next c) (recv_buffer c) (queue_of n ps) (bytes_of ps) f1 c /\
            forall q, f1 = Some q -> q = sq L) as (f1 & E1 & Hf1).
  { subst c1'. replace (sat_sub (bytes_of ps + (e - p + 0)) (e - p)) with (bytes_of ps) by (unfold sat_sub; lia).
    match goal with |- context [bool_decide ?P] => destruct (bool_decide P) end.
    - exists None. split; [by destruct c|done].
    - exists (ooo_fin_seq c). split; [by destruct c|done]. }
  rewrite E1. destruct (IH ps (with_rx (recv_next c) (recv_buffer c) (queue_of n ps) (bytes_of ps) f1 c))
    as (b & pre & suf & f' & E & -> & Hf' & _); try done.
  exists b, pre, (suf ++ [(p, e, f)]), f'. rewrite E. split_and!; [done|by rewrite <- app_assoc|done|].
  intros G1 G2. destruct Hfull. split; [done|]. rewrite bytes_of_app. cbn [bytes_of]. lia.
Qed.

(** *** Insertion *)

(** A range that is clear of the others takes its place among them. *)
Lemma bt_insert_chain n lo hi ps l r f :
  chain lo hi ps -> lo <= l -> l < r -> r <= hi -> clear_of ps l r -> (f = true -> r = L) ->
  exists ps', bt_insert (l - n) (seg_of (l, r, f)) (queue_of n ps) = queue_of n ps' /\ chain lo hi ps' /\
    bytes_of ps' = bytes_of ps + (r - l) /\ (forall x, x ∈ ps' <-> x = (l, r, f) \/ x ∈ ps).
Proof.
  revert lo. induction ps as [|[[p e] f0] ps IH]; intros lo Hc Hlo Hlr Hr Hcl Hf.
  { exists [(l, r, f)]. split_and!; [done|by split_and!|simpl; lia|]. intros x. rewrite list_elem_of_singleton.
    split; [by left|]. by intros [?|?%not_elem_of_nil]. }
  destruct Hc as (H1 & H2 & H3 & H4 & H5).
  change (queue_of n ((p, e, f0) :: ps)) with ((p - n, seg_of (p, e, f0)) :: queue_of n ps). cbn [bt_insert].
  destruct (Hcl p e f0 ltac:(left)) as [Hc|Hc].
  - rewrite (proj2 (Z.ltb_ge _ _)), (proj2 (Z.eqb_neq _ _)) by lia.
    destruct (IH e) as (ps' & E & G1 & G2 & G3); try done.
    { intros p' e' f' Hin. apply (Hcl p' e' f'). by right. }
    exists ((p, e, f0) :: ps'). rewrite E. split_and!; [done|by split_and!|cbn [bytes_of]; lia|].
    intros x. rewrite !list.elem_of_cons, G3. tauto.
  - rewrite (proj2 (Z.ltb_lt _ _)) by lia.
    exists ((l, r, f) :: (p, e, f0) :: ps). split_and!; [done|by split_and!|cbn [bytes_of]; lia|].
    intros x. by rewrite !list.elem_of_cons.
Qed.

Lemma insert_frags_spec n lo hi ps p e0 fin lo' fs c :
  chain lo hi ps -> n < lo -> hi - n < 2 ^ 28 -> p < e0 -> e0 <= hi -> lo <= p ->
  ooo_queue c = queue_of n ps -> ooo_bytes c = bytes_of ps -> recv_next c = sq n ->
  (forall q, ooo_fin_seq c = Some q -> q = sq L) -> (fin = true -> e0 = L) ->
  p <= lo' -> gaps lo' e0 fs -> (forall l r, (l, r) ∈ fs -> clear_of ps l r) ->
  exists ps' f',
    foldl (insert_frag (sq p) (slice p e0) fin (sq e0)) c (map pos2 fs) =
      with_rx (sq n) (recv_buffer c) (queue_of n ps') (bytes_of ps') f' c /\
    chain lo hi ps' /\ bytes_of ps' = bytes_of ps + gap_bytes fs /\ (forall q, f' = Some q -> q = sq L) /\
    (forall x, x ∈ ps' <-> x ∈ ps \/ exists l r, (l, r) ∈ fs /\ x = (l, r, fin && (r =? e0))).
Proof.
  revert ps lo' c. induction fs as [|[l r] fs IH];
    intros ps lo' c Hc Hn Hs Hp He Hlop Hq Hb Hm Hf Hfin Hlo' Hg Hcl; cbn [map foldl].
  { exists ps, (ooo_fin_seq c). split_and!; try done; [by apply with_rx_id|simpl; lia|].
    intros x. split; [by left|]. intros [?|(l & r & Hin & _)]; [done|by apply not_elem_of_nil in Hin]. }
  destruct Hg as (G1 & G2 & G3 & G4).
  assert (insert_frag (sq p) (slice p e0) fin (sq e0) c (pos2 (l, r)) =
    with_rx (sq n) (recv_buffer c) (bt_insert (l - n) (seg_of (l, r, fin && (r =? e0))) (queue_of n ps))
      (bytes_of ps + (r - l)) (if fin && (r =? e0) then Some (sq e0) else ooo_fin_seq c) c) as E0.
  { unfold insert_frag, pos2. cbn [fst snd]. rewrite sq_eq, !sq_sub by lia. unfold sub_bytes.
    rewrite drop_slice, take_slice by lia. destruct (fin && (r =? e0));
      (unfold with_rx; cbn [set_ooo_fin_seq recv_next ooo_queue ooo_bytes set_ooo_queue];
       rewrite Hm, Hq, Hb, sq_sub by lia; rewrite <- Hm; by destruct c). }
  rewrite E0.
  destruct (bt_insert_chain n lo hi ps l r (fin && (r =? e0))) as (ps1 & E1 & C1 & B1 & M1); try done; try lia.
  { apply Hcl. left. }
  { intros [Hfi Hr%Z.eqb_eq]%andb_true_iff. subst r. by apply Hfin. }
  destruct (IH ps1 r (with_rx (sq n) (recv_buffer c) (queue_of n ps1) (bytes_of ps1)
     (if fin && (r =? e0) then Some (sq e0) else ooo_fin_seq c) c))
    as (ps' & f' & E & C & B & F & M); try done; try lia.
  { intros q. change (ooo_fin_seq (with_rx _ _ _ _ ?f _)) with f.
    destruct (fin && _) eqn:Ef; [|apply Hf]. apply andb_true_iff in Ef as [Efi _].
    rewrite (Hfin Efi). by intros [= <-]. }
  { intros l' r' Hin p' e' f'. rewrite M1. intros [Ex|Hin'].
    - simplify_eq. destruct (gaps_elem _ _ _ _ _ G4 Hin). lia.
    - by apply (Hcl l' r' ltac:(by right) p' e' f'). }
  exists ps', f'. rewrite E1, <- B1, E. split_and!; try done; [cbn [gap_bytes]; lia|].
  intros x. rewrite M, M1. setoid_rewrite list.elem_of_cons. split.
  - intros [[->|?]|(l' & r' & Hin & ->)]; [right; exists l, r; split; [by left|done]|by left|].
    right. exists l', r'. split; [by right|done].
  - intros [?|(l' & r' & [[= -> ->]|Hin] & ->)]; [tauto|by left; left|]. right. by exists l', r'.
Qed.

Lemma gap_bytes_le lo hi fs : lo <= hi -> gaps lo hi fs -> 0 <= gap_bytes fs <= hi - lo.
Proof.
  revert lo. induction fs as [|[l r] fs IH]; intros lo H; simpl; [lia|].
  intros (H1 & H2 & H3 & H4). specialize (IH r H3 H4). lia.
Qed.

(** A position in a buffered range. *)
Definition in_ranges (ps : list Range) (y : Z) : Prop := exists p e f, (p, e, f) ∈ ps /\ p <= y < e.

Lemma queue_of_inj n lo hi ps qs :
  chain lo hi ps -> chain lo hi qs -> queue_of n ps = queue_of n qs -> ps = qs.
Proof.
  revert lo qs. induction ps as [|[[p1 e1] f1] ps IH]; intros lo [|[[p2 e2] f2] qs] C1 C2 E; try done.
  destruct C1 as (? & ? & ? & ? & C1), C2 as (? & ? & ? & ? & C2). unfold queue_of in E. cbn [map fst seg_of] in E.
  injection E as E1 E2 E3 E4 E5. assert (p1 = p2) as -> by lia.
  assert (e1 = e2) as ->.
  { apply (f_equal (fun l => Z.of_nat (length l))) in E3. rewrite !length_slice in E3 by lia. lia. }
  subst. f_equal. by apply (IH e2).
Qed.

Lemma bytes_of_prefix lo hi pre suf : chain lo hi (pre ++ suf) -> bytes_of pre <= bytes_of (pre ++ suf).
Proof.
  revert lo. induction pre as [|[[p e] f] pre IH]; intros lo; [apply chain_bytes|].
  intros (? & ? & ? & ? & C). specialize (IH _ C). simpl. lia.
Qed.

(** Ranges together with the gaps of [[p, e0)] cover both. *)
Lemma in_ranges_union ps ps' fs p e0 (g : Z -> bool) :
  gaps p e0 fs ->
  (forall x, x ∈ ps' <-> x ∈ ps \/ exists l r, (l, r) ∈ fs /\ x = (l, r, g r)) ->
  (forall y, p <= y < e0 ->
     (exists l r, (l, r) ∈ fs /\ l <= y < r) \/ exists p' e f, (p', e, f) ∈ ps /\ p' <= y < e) ->
  forall y, in_ranges ps' y <-> in_ranges ps y \/ p <= y < e0.
Proof.
  intros Hg M Hcov y. unfold in_ranges. split.
  - intros (p' & e' & g' & [Hin|(l' & r' & Hin & [= -> -> ->])]%M & Hy); [left; by exists p', e', g'|].
    right. destruct (gaps_elem _ _ _ _ _ Hg Hin). lia.
  - intros [(p' & e' & g' & Hin & Hy)|Hy].
    + exists p', e', g'. split; [apply M; by left|done].
    + destruct (Hcov y Hy) as [(l' & r' & Hin & Hy')|(p' & e' & g' & Hin & Hy')].
      * exists l', r', (g r'). split; [apply M; right; by exists l', r'|done].
      * exists p', e', g'. split; [apply M; by left|done].
Qed.

(** Buffering keeps the receive side in order and, when there is room, adds
    exactly the newcomer's bytes. *)
Lemma ooo_insert_spec n p e0 fin c ps :
  rx_ok n c -> ooo_queue c = queue_of n ps -> chain (n + 1) (Z.min L (n + 65535)) ps ->
  n < p < e0 -> e0 <= Z.min L (n + 65535) -> (fin = true -> e0 = L) ->
  exists b c' ps', ooo_insert (sq p) (slice p e0) fin c = (b, c') /\ rx_ok n c' /\
    recv_buffer c' = recv_buffer c /\ rx_frame c c' /\ ooo_queue c' = queue_of n ps' /\
    chain (n + 1) (Z.min L (n + 65535)) ps' /\
    ((2 * length ps + 1 <= OOO_MAX_SEGS)%nat -> bytes_of ps + (e0 - p) <= OOO_MAX_BYTES ->
     forall y, in_ranges ps' y <-> in_ranges ps y \/ p <= y < e0).
Proof.
  intros [Hm Hr (ps0 & Hq0 & Hc0 & Hb0) Hmax Hf] Hq Hc Hp He Hfin.
  assert (ps0 = ps) as -> by (apply (queue_of_inj n (n + 1) (Z.min L (n + 65535))); congruence).
  unfold ooo_insert. rewrite Hq, (residents_of n (n + 1) (Z.min L (n + 65535))) by (done || lia).
  rewrite sq_add by (rewrite length_slice; lia). rewrite length_slice by lia.
  replace (p + (e0 - p)) with e0 by lia.
  destruct (fragments_spec (n + 1) (Z.min L (n + 65535)) ps p e0) as (fs & E & Hlen & Hg & Hcl & Hcov);
    try done; unfold SPAN; try lia.
  rewrite E, length_map, (total_new_gaps p e0), length_queue_of by (done || lia).
  pose proof (gap_bytes_le p e0 fs ltac:(lia) Hg) as Hgb.
  assert (forall y, p <= y < e0 -> fs = [] -> in_ranges ps y) as Hdup.
  { intros y Hy ->. destruct (Hcov y Hy) as [(l & r & Hin & _)|?]; [by apply not_elem_of_nil in Hin|done]. }
  destruct fs as [|[l r] fs0] eqn:Efs.
  { exists false, c, ps. split_and!; try done; [by split; eauto|apply rx_frame_refl|].
    intros _ _ y. split; [by left|]. intros [?|Hy]; [done|by apply Hdup]. }
  cbn [map]. change (pos2 (l, r)) with (sq l, sq r) at 1. cbv iota beta.
  change (pos2 (l, r) :: map pos2 fs0) with (map pos2 ((l, r) :: fs0)). rewrite <- Efs in *. rewrite Hm.
  destruct (evict_loop_spec (Datatypes.S (length ps)) (length fs) (gap_bytes fs) (sub32 (sq l) (sq n)) n
    (n + 1) (Z.min L (n + 65535)) ps c) as (b & pre & suf & f' & E1 & Hps & Hf' & Hroom); try done.
  rewrite E1, Hm. clear E1. set (c1 := with_rx _ _ _ _ _ c).
  assert (chain (n + 1) (Z.min L (n + 65535)) pre) as Hpre by (eapply chain_prefix; by rewrite <- Hps).
  assert (bytes_of pre <= bytes_of ps) as Hbp.
  { subst ps. by eapply bytes_of_prefix. }
  assert (rx_ok n c1) as Hok1.
  { split; [reflexivity|done|by exists pre|change (ooo_bytes c1) with (bytes_of pre); lia|done]. }
  destruct b.
  { exists false, c1, pre. refine (conj eq_refl (conj Hok1 (conj eq_refl (conj _ (conj eq_refl (conj Hpre _))))));
      [apply rx_frame_with|].
    intros G1 G2. destruct Hroom; [lia|lia|done]. }
  change (ooo_bytes c1) with (bytes_of pre).
  destruct (Z.ltb_spec OOO_MAX_BYTES (bytes_of pre + gap_bytes fs)) as [Hbig|Hsmall].
  { exists false, c1, pre. refine (conj eq_refl (conj Hok1 (conj eq_refl (conj _ (conj eq_refl (conj Hpre _))))));
      [apply rx_frame_with|]. intros G1 G2. lia. }
  destruct (insert_frags_spec n (n + 1) (Z.min L (n + 65535)) pre p e0 fin p fs c1)
    as (ps' & f2 & E2 & C2 & B2 & F2 & M2); try done; try lia.
  { intros l' r' Hin p' e' g' Hin'. apply (Hcl l' r' Hin p' e' g'). rewrite Hps. apply elem_of_app. by left. }
  rewrite E2. eexists true, _, ps'. split; [reflexivity|].
  refine (conj _ (conj eq_refl (conj _ (conj eq_refl (conj C2 _))))); [|eapply rx_frame_trans; apply rx_frame_with|].
  { split; [reflexivity|done|by exists ps'|cbn; lia|done]. }
  intros G1 G2 y. destruct Hroom as [_ ->]; [lia|lia|]. rewrite app_nil_r in Hps. subst pre.
  by apply (in_ranges_union ps ps' fs p e0 (fun r => fin && (r =? e0))).
Qed.

(* ------------------------------------------------------------------ *)
(** ** One segment *)

(** A segment of the stream: its text is the stream at position [p], not
    further than [SPAN] from the delivered part, and its FIN, if any, is at
    the end. *)
Record arrival (n : Z) (hdr : TcpHeader) (payload : Bytes) (p : Z) : Prop := {
  arr_seq : seq_num hdr = sq p;
  arr_near : 0 <= p /\ n - SPAN <= p <= n + SPAN;
  arr_len : Z.of_nat (length payload) <= 65535;
  arr_text : payload = slice p (p + Z.of_nat (length payload));
  arr_end : p + Z.of_nat (length payload) <= L;
  arr_fin : has_flag hdr FIN = true -> p + Z.of_nat (length payload) = L
}.

Lemma delivers_app n m n' fin c c1 c' :
  n <= m -> recv_buffer c1 = recv_buffer c ++ slice n m -> rx_frame c c1 ->
  delivers m n' fin c1 c' -> delivers n n' fin c c'.
Proof.
  intros Hm Hb Hfr (H1 & H2 & H3 & H4 & H5). split_and!; try done; try lia.
  - by rewrite H2, Hb, <- app_assoc, <- slice_app by lia.
  - by eapply rx_frame_trans.
Qed.

Lemma delivers_none n c c' : rx_ok n c' -> recv_buffer c' = recv_buffer c -> rx_frame c c' -> delivers n n false c c'.
Proof.
  intros Hok Hb Hf. pose proof (rx_range _ _ Hok). split_and!; try done; try lia.
  by rewrite Hb, slice_nil, app_nil_r by lia.
Qed.

(** Text up to [m] has been appended to the delivered part. *)
Lemma receive_text n m has_fin c :
  rx_ok n c -> n <= m <= n + 65535 -> m <= L -> (has_fin = true -> m = L) ->
  let c1 := set_recv_next (sq m) (set_recv_buffer (recv_buffer c ++ slice n m) c) in
  exists n' fin c', after_text has_fin (sq m) c1 = (fin, c') /\ delivers n n' fin c c' /\ m <= n'.
Proof.
  intros [Hm Hr (ps & Hq & Hc & Hb) Hmax Hf] Hnm HmL Hfin c1.
  destruct (after_text_spec n (n + 1) (Z.min L (n + 65535)) ps has_fin m c1) as (n' & fin & c' & E & Hd);
    try done; unfold SPAN; try lia.
  exists n', fin, c'. split; [done|]. split; [|by destruct Hd as [? _]; lia].
  apply (delivers_app n m n' fin c c1 c'); [lia|done| |done].
  exists (sq m), (recv_buffer c ++ slice n m), (ooo_queue c), (ooo_bytes c), (ooo_fin_seq c). by destruct c.
Qed.

Lemma rx_frame_next x c : rx_frame c (set_recv_next x c).
Proof. exists x, (recv_buffer c), (ooo_queue c), (ooo_bytes c), (ooo_fin_seq c). by destruct c. Qed.

Lemma rx_frame_fin x c : rx_frame c (set_ooo_fin_seq x c).
Proof. exists (recv_next c), (recv_buffer c), (ooo_queue c), (ooo_bytes c), x. by destruct c. Qed.

(** What [receive_segment_data] makes of a segment. *)
Definition received (n p : Z) (hdr : TcpHeader) (payload : Bytes) (c : TcpConnection) : Prop :=
  exists n' fin out c', receive_segment_data hdr payload c = (fin, out, c') /\ delivers n n' fin c c' /\
    (p <= n < p + Z.of_nat (length payload) -> p + Z.of_nat (length payload) <= n') /\
    (payload <> [] -> out = [ack_reply c' (seq_num hdr)]).

Lemma receive_no_text n p hdr c : rx_ok n c -> arrival n hdr [] p -> received n p hdr [] c.
Proof.
  intros Hok [Hseq Hnear _ _ Hend Hfin]. unfold SPAN, received in *. simpl length in *.
  unfold receive_segment_data. fold (has_flag hdr FIN).
  pose proof (rx_next _ _ Hok) as Hm. pose proof (rx_range _ _ Hok) as Hr.
  rewrite Hseq, Hm, sq_eq by lia. destruct (has_flag hdr FIN); cbn [andb].
  - specialize (Hfin eq_refl). destruct (Z.eqb_spec p n) as [->|Hne].
    + exists L, true. do 2 eexists. split; [reflexivity|]. split_and!; [|lia|done].
      refine (conj _ (conj _ (conj _ (conj _ (rx_frame_next _ _))))); [lia| |done|].
      * cbn. by rewrite slice_nil, app_nil_r by lia.
      * intros _. split; [done|]. right. cbn. unfold sq. rewrite add32_wrap. do 2 f_equal. lia.
    + exists n, false. do 2 eexists. split; [reflexivity|]. split_and!; [|lia|done].
      destruct Hok as [_ _ Hq Hmax Hf]. apply delivers_none; [|done|apply rx_frame_fin].
      split; try done. intros q [= <-]. f_equal. lia.
  - exists n, false. do 2 eexists. split; [reflexivity|]. split_and!; [|lia|done].
    apply delivers_none; [done|done|apply rx_frame_refl].
Qed.

Section text.
Context (n p : Z) (hdr : TcpHeader) (x : Z) (xs : Bytes) (c : TcpConnection).
Notation payload := (x :: xs).
Notation e := (p + Z.of_nat (length payload)).
Context (Hok : rx_ok n c) (Harr : arrival n hdr payload p).

(** Text that reaches over the delivered part. *)
Lemma receive_over : p <= n < e -> received n p hdr payload c.
Proof.
  intros Hpn. destruct Harr as [Hseq Hnear Hlen Htext Hend Hfin]. unfold SPAN, received in *.
  pose proof (rx_next _ _ Hok) as Hm. pose proof (rx_range _ _ Hok) as Hr.
  destruct (receive_text n e (has_flag hdr FIN) c) as (n' & fin & c' & E & Hd & He); try done; try lia.
  unfold receive_segment_data. fold (has_flag hdr FIN). rewrite Hseq, Hm, sq_add, sq_eq by lia.
  exists n', fin, [ack_reply c' (sq p)], c'. split; [|split_and!; [done|lia|done]].
  destruct (Z.eqb_spec p n) as [->|Hne].
  - rewrite (wrap_small 32) by (unfold in_word; lia).
    cbn [set_recv_buffer recv_next]. rewrite Hm.
    replace (add32 (sq n) (Z.of_nat (length payload))) with (sq (n + Z.of_nat (length payload)))
      by (unfold sq; by rewrite add32_wrap).
    rewrite <- Htext in E. by rewrite E.
  - rewrite sq_lt, sq_gt, (proj2 (Z.ltb_lt p n)), (proj2 (Z.ltb_lt n e)), sq_sub by lia.
    rewrite <- (drop_slice n p e), <- Htext in E by lia. by rewrite E.
Qed.

(** Text that has been delivered before. *)
Lemma receive_stale : e <= n -> received n p hdr payload c.
Proof.
  intros Hpn. destruct Harr as [Hseq Hnear Hlen Htext Hend Hfin]. unfold SPAN, received in *.
  pose proof (rx_next _ _ Hok) as Hm. pose proof (rx_range _ _ Hok) as Hr. simpl length in *.
  unfold receive_segment_data. rewrite Hseq, Hm, sq_add, sq_eq by (simpl length; lia).
  rewrite (proj2 (Z.eqb_neq p n)), sq_lt, sq_gt, (proj2 (Z.ltb_lt p n)), (proj2 (Z.ltb_ge n _)) by (simpl length; lia).
  exists n, false. do 2 eexists. split; [reflexivity|]. split_and!; [|lia|done].
  apply delivers_none; [done|done|apply rx_frame_refl].
Qed.

(** Text above a gap. *)
Lemma receive_above : n < p -> received n p hdr payload c.
Proof.
  intros Hpn. destruct Harr as [Hseq Hnear Hlen Htext Hend Hfin]. unfold SPAN, received in *.
  pose proof (rx_next _ _ Hok) as Hm. pose proof (rx_range _ _ Hok) as Hr.
  destruct (rx_queue _ _ Hok) as (ps & Hq & Hc & Hb).
  assert (0 < Z.of_nat (length payload)) by (simpl length; lia).
  unfold receive_segment_data. fold (has_flag hdr FIN). rewrite Hseq, Hm, sq_add, sq_eq by lia.
  replace (add32 (sq n) 65535) with (sq (n + 65535)) by (unfold sq; by rewrite add32_wrap).
  rewrite (proj2 (Z.eqb_neq p n)), !sq_lt, (sq_gt e (n + 65535)), (proj2 (Z.ltb_ge p n)) by lia.
  destruct (Z.ltb_spec p (n + 65535)) as [Hin|Hout].
  2:{ exists n, false. do 2 eexists. split; [reflexivity|]. split_and!; [|lia|done].
      apply delivers_none; [done|done|apply rx_frame_refl]. }
  assert ((if n + 65535 <? e then take (Z.to_nat (sub32 (sq (n + 65535)) (sq p))) payload else payload) =
          slice p (Z.min e (n + 65535))) as ->.
  { rewrite sq_sub by lia. destruct (Z.ltb_spec (n + 65535) e).
    - replace (Z.min e (n + 65535)) with (n + 65535) by lia.
      by rewrite <- (take_slice (n + 65535) p e), <- Htext by lia.
    - by replace (Z.min e (n + 65535)) with e by lia. }
  destruct (ooo_insert_spec n p (Z.min e (n + 65535)) (has_flag hdr FIN && negb (n + 65535 <? e)) c ps)
    as (b & c' & ps' & E & Hok' & Hrb & Hfr & _); try done; try lia.
  { intros [Hf Hw]%andb_true_iff. apply negb_true_iff, Z.ltb_ge in Hw. specialize (Hfin Hf). lia. }
  rewrite E. exists n, false. do 2 eexists. split; [reflexivity|]. split_and!; [|lia|done].
  by apply delivers_none.
Qed.
End text.

Lemma receive_spec n p hdr payload c :
  rx_ok n c -> arrival n hdr payload p -> received n p hdr payload c.
Proof.
  intros Hok Harr. destruct payload as [|x xs]; [by apply receive_no_text|].
  destruct (decide (n < p)); [by apply receive_above|].
  destruct (decide (p + Z.of_nat (length (x :: xs)) <= n)); [by apply receive_stale|].
  apply receive_over; [done|done|lia].
Qed.

(* ------------------------------------------------------------------ *)
(** ** A connection over time *)

(** Either the stream is still coming in, or all of it has been delivered and
    its end consumed. *)
Definition rx_inv (n : Z) (c : TcpConnection) : Prop :=
  rx_ok n c \/ (n = L /\ (recv_next c = sq L \/ recv_next c = sq (L + 1))).

Definition same_rx (c c' : TcpConnection) : Prop :=
  recv_next c' = recv_next c /\ recv_buffer c' = recv_buffer c /\ ooo_queue c' = ooo_queue c /\
  ooo_bytes c' = ooo_bytes c /\ ooo_fin_seq c' = ooo_fin_seq c.

Lemma same_rx_trans c1 c2 c3 : same_rx c1 c2 -> same_rx c2 c3 -> same_rx c1 c3.
Proof. intros (? & ? & ? & ? & ?) (? & ? & ? & ? & ?). split_and!; congruence. Qed.

Lemma rx_inv_same n c c' : same_rx c c' -> rx_inv n c -> rx_inv n c'.
Proof.
  intros (E1 & E2 & E3 & E4 & E5) [[H1 H2 H3 H4 H5]|[-> H]]; [left|right; by rewrite E1].
  split; [by rewrite E1|done|by rewrite E3, E4|by rewrite E4|by rewrite E5].
Qed.

(** After the end of the stream nothing is delivered any more. *)
Lemma receive_done p hdr payload c :
  0 <= L -> recv_next c = sq L \/ recv_next c = sq (L + 1) -> arrival L hdr payload p ->
  exists fin out c', receive_segment_data hdr payload c = (fin, out, c') /\
    recv_buffer c' = recv_buffer c /\ (recv_next c' = sq L \/ recv_next c' = sq (L + 1)) /\ rx_frame c c'.
Proof.
  intros HL Hn [Hseq Hnear Hlen Htext Hend Hfin]. unfold SPAN in *.
  unfold receive_segment_data. fold (has_flag hdr FIN). rewrite Hseq, sq_add by lia.
  assert (exists k, (k = L \/ k = L + 1) /\ recv_next c = sq k) as (k & Hk & ->)
    by (destruct Hn; [exists L|exists (L + 1)]; auto).
  destruct payload as [|x xs].
  - rewrite sq_eq by lia. simpl length in *. destruct (has_flag hdr FIN); cbn [andb].
    + destruct (Z.eqb_spec p k) as [->|].
      * do 3 eexists. split; [reflexivity|]. split_and!; [done| |apply rx_frame_next].
        right. cbn. unfold sq. rewrite add32_wrap. do 2 f_equal. specialize (Hfin eq_refl). lia.
      * do 3 eexists. split; [reflexivity|]. split_and!; [done|done|apply rx_frame_fin].
    + do 3 eexists. split; [reflexivity|]. split_and!; [done|done|apply rx_frame_refl].
  - remember (Z.of_nat (length (x :: xs))) as len. assert (0 < len) by (subst; simpl length; lia).
    rewrite sq_eq, sq_lt, sq_gt by lia.
    rewrite (proj2 (Z.eqb_neq p k)), (proj2 (Z.ltb_lt p k)), (proj2 (Z.ltb_ge k _)) by lia.
    do 3 eexists. split; [reflexivity|]. split_and!; [done|done|apply rx_frame_refl].
Qed.

Lemma receive_inv n p hdr payload c :
  rx_inv n c -> 0 <= L -> arrival n hdr payload p ->
  exists n' fin out c', receive_segment_data hdr payload c = (fin, out, c') /\ n <= n' <= L /\
    recv_buffer c' = recv_buffer c ++ slice n n' /\ rx_inv n' c' /\ (fin = true -> n' = L) /\
    state c' = state c.
Proof.
  intros [Hok|[-> Hn]] HL Harr.
  - destruct (receive_spec n p hdr payload c Hok Harr) as (n' & fin & out & c' & E & (D1 & D2 & D3 & D4 & D5) & _).
    exists n', fin, out, c'. split_and!; try done; try lia.
    + destruct fin; [right; by apply D4|left; by apply D3].
    + intros ->. by apply D4.
    + by destruct D5 as (? & ? & ? & ? & ? & ->).
  - destruct (receive_done p hdr payload c HL Hn Harr) as (fin & out & c' & E & Hb & Hn' & Hfr).
    exists L, fin, out, c'. split_and!; try done; try lia.
    + by rewrite slice_nil, app_nil_r by lia.
    + by right.
    + by destruct Hfr as (? & ? & ? & ? & ? & ->).
Qed.

Lemma handle_ack_same ack c : same_rx c (handle_ack ack c) /\ state (handle_ack ack c) = state c.
Proof.
  unfold handle_ack, drain_retransmit, update_cwnd.
  repeat match goal with |- context [if ?b then _ else _] => destruct b end; done.
Qed.

Lemma mark_closed_inv now n c : rx_inv n c -> rx_inv n (mark_closed now c).
Proof.
  intros [[H1 H2 (ps & Hq & Hc & Hb) H4 H5]|[-> Hn]]; unfold mark_closed; cbn [ooo_queue set_closed_tick set_state].
  - left. destruct (ooo_queue c) as [|x q] eqn:E.
    + destruct ps; [|done]. split; cbn; try done. exists []. by rewrite E.
    + split; cbn; try done. by exists [].
  - right. split; [done|]. by destruct (ooo_queue c).
Qed.

Lemma mark_closed_buffer now c : recv_buffer (mark_closed now c) = recv_buffer c.
Proof. unfold mark_closed. cbn [ooo_queue set_closed_tick set_state]. by destruct (ooo_queue c). Qed.

Lemma mark_closed_state now c : state (mark_closed now c) = Closed.
Proof. unfold mark_closed. cbn [ooo_queue set_closed_tick set_state]. by destruct (ooo_queue c). Qed.

Lemma transmit_same now chunk c : same_rx c (snd (transmit now chunk c)) /\ state (snd (transmit now chunk c)) = state c.
Proof. done. Qed.

Lemma send_loop_same fuel now can offset data c :
  same_rx c (snd (send_loop fuel now can offset data c)) /\ state (snd (send_loop fuel now can offset data c)) = state c.
Proof.
  revert offset c. induction fuel as [|fuel IH]; intros offset c; cbn [send_loop]; [done|].
  destruct (_ && _); [|done].
  destruct (transmit now _ c) as [o c1] eqn:E1.
  match goal with |- context [send_loop fuel now can ?e data c1] => specialize (IH e c1);
    destruct (send_loop fuel now can e data c1) as [[? ?] c2] eqn:E2 end.
  cbn [snd] in *. match type of E1 with transmit now ?ch c = _ => pose proof (transmit_same now ch c) as Ht end.
  rewrite E1 in Ht. cbn [snd] in Ht. destruct Ht as [Ht1 Ht2], IH as [IH1 IH2].
  split; [by eapply same_rx_trans|congruence].
Qed.

Lemma send_on_same now data c : same_rx c (snd (send_on now data c)) /\ state (snd (send_on now data c)) = state c.
Proof.
  unfold send_on. pose proof (send_loop_same (length data) now (can_send c) 0 data c) as H.
  destruct (send_loop _ _ _ _ _ _) as [[offset out] c1]. cbn [snd] in *. by destruct (_ <? _)%nat.
Qed.

(** The states after the handshake. *)
Definition synchronized (st : TcpState) : bool :=
  match st with Listen | SynSent | SynReceived => false | _ => true end.

(** The timer changes nothing the application has yet to read. *)
Lemma tick_one_inv now n c :
  rx_inv n c -> synchronized (state c) = true ->
  let c' := tick_conn (tick_one now c) in
  rx_inv n c' /\ recv_buffer c' = recv_buffer c /\ synchronized (state c') = true /\
  (read_closed (state c') = true -> read_closed (state c) = true \/ tick_aborted (tick_one now c) = true).
Proof.
  intros Hi Hs. unfold tick_one. destruct (is_state TimeWait c) eqn:Etw.
  { apply bool_decide_eq_true in Etw. cbn [tick_conn]. destruct (_ <=? _).
    - split_and!; [by apply mark_closed_inv|apply mark_closed_buffer|by rewrite mark_closed_state|].
      left. by rewrite Etw.
    - split_and!; auto. }
  destruct (negb (timed_state (state c))) eqn:Ets; [cbn [tick_conn]; split_and!; auto|].
  assert (exists a o c1, tick_retransmit now c = (a, o, c1) /\ rx_inv n c1 /\ recv_buffer c1 = recv_buffer c /\
    (state c1 = state c \/ (state c1 = Closed /\ a = true))) as (a & o1 & c1 & -> & Hi1 & Hb1 & Hs1).
  { unfold tick_retransmit. destruct (retransmit_queue c) as [|e q]; [by do 3 eexists; eauto|].
    destruct (_ <=? _); [|by do 3 eexists; eauto].
    destruct (_ <=? _); do 3 eexists; (split; [reflexivity|]).
    - split_and!; [by apply (rx_inv_same n (mark_closed now c)); [|apply mark_closed_inv]|apply mark_closed_buffer|].
      right. split; [apply (mark_closed_state now c)|done].
    - split_and!; [by apply (rx_inv_same n c)|done|by left]. }
  assert (exists a o c2, tick_send now c1 = (a, o, c2) /\ same_rx c1 c2 /\ state c2 = state c1)
    as (a2 & o2 & c2 & -> & Hx2 & Hs2).
  { unfold tick_send. destruct (send_buffer c1); [by do 3 eexists|].
    destruct (_ <? _); [|by do 3 eexists]. by do 3 eexists. }
  assert (exists o c3, tick_close c2 = (o, c3) /\ same_rx c2 c3 /\
    (state c3 = state c2 \/ state c3 = if is_state CloseWait c2 then LastAck else FinWait1))
    as (o3 & c3 & -> & Hx3 & Hs3).
  { unfold tick_close. destruct (send_buffer c2); [|exists [], c2; split_and!; [done|done|by left]].
    destruct (close_pending c2); [|exists [], c2; split_and!; [done|done|by left]].
    do 2 eexists. split; [reflexivity|]. split; [done|]. right. unfold is_state.
    cbn [set_close_pending state]. done. }
  cbn [tick_conn tick_aborted]. pose proof (same_rx_trans _ _ _ Hx2 Hx3) as Hx.
  split_and!.
  - by apply (rx_inv_same n c1).
  - destruct Hx as (_ & Hb & _). congruence.
  - destruct Hs3 as [->| ->]; [|by destruct (is_state CloseWait c2)]. rewrite Hs2. by destruct Hs1 as [->|[-> _]].
  - destruct Hs1 as [Hs1|[_ ->]]; [|by right]. left. destruct Hs3 as [Hs3|Hs3]; rewrite Hs3 in *; [congruence|].
    destruct (is_state CloseWait c2) eqn:Ecw; [|done]. apply bool_decide_eq_true in Ecw. by rewrite <- Hs1, <- Hs2, Ecw.
Qed.

(** A segment in any state after the handshake. *)
Lemma process_segment_inv now n p hdr payload offers c :
  rx_inv n c -> 0 <= L -> n <= L -> synchronized (state c) = true -> arrival n hdr payload p ->
  let c' := snd (process_segment now hdr payload offers c) in
  exists n', n <= n' <= L /\ recv_buffer c' = recv_buffer c ++ slice n n' /\ rx_inv n' c' /\
    synchronized (state c') = true /\
    (read_closed (state c') = true -> read_closed (state c) = true \/ n' = L).
Proof.
  intros Hi HL Hn Hs Harr. unfold process_segment.
  set (c0 := set_peer_window (window hdr) c).
  assert (rx_inv n c0) as Hi0 by (by apply (rx_inv_same n c)).
  assert (forall c1, same_rx c c1 -> state c1 = state c ->
    exists n', n <= n' <= L /\ recv_buffer c1 = recv_buffer c ++ slice n n' /\ rx_inv n' c1 /\
      synchronized (state c1) = true /\
      (read_closed (state c1) = true -> read_closed (state c) = true \/ n' = L)) as Hsame.
  { intros c1 Hx Hst. exists n. split; [lia|]. split.
    - destruct Hx as (_ & -> & _). by rewrite slice_nil, app_nil_r by lia.
    - split; [by apply (rx_inv_same n c)|]. rewrite Hst. split; [done|]. by left. }
  assert (forall (upd : bool -> TcpConnection -> TcpConnection) c1, same_rx c c1 -> state c1 = state c ->
    (forall b c2, same_rx c2 (upd b c2) /\
       (state (upd b c2) = state c2 \/ (b = true /\ synchronized (state (upd b c2)) = true) \/ state (upd b c2) = FinWait2)) ->
    let '(fin, out, c2) := receive_segment_data hdr payload c1 in
    exists n', n <= n' <= L /\ recv_buffer (upd fin c2) = recv_buffer c ++ slice n n' /\ rx_inv n' (upd fin c2) /\
      synchronized (state (upd fin c2)) = true /\
      (read_closed (state (upd fin c2)) = true -> read_closed (state c) = true \/ n' = L)) as Hrecv.
  { intros upd c1 Hx Hst Hupd.
    destruct (receive_inv n p hdr payload c1) as (n' & fin & out & c2 & -> & Hr & Hb & Hi2 & Hfin & Hst2); try done.
    { by apply (rx_inv_same n c). }
    destruct (Hupd fin c2) as [Hx2 Hs2]. exists n'. split; [lia|]. split_and!.
    - destruct Hx2 as (_ & -> & _). rewrite Hb. destruct Hx as (_ & -> & _). done.
    - by apply (rx_inv_same n' c2).
    - destruct Hs2 as [E|[[_ E]|E]]; rewrite E; try done. congruence.
    - destruct Hs2 as [E|[[E _]|E]]; [rewrite E, Hst2, Hst; by left|right; by apply Hfin|by rewrite E]. }
  destruct (segment_arrives now hdr payload offers c0) as [out c1] eqn:E. cbn [snd].
  unfold segment_arrives in E. change (state c0) with (state c) in E. destruct (state c) eqn:Est; try done.
  all: try (injection E as <- <-; rewrite <- Est in *; by apply Hsame).
  - (* Established *)
    match type of E with context [receive_segment_data hdr payload ?cc] =>
      specialize (Hrecv (fun b c2 => if b then set_state CloseWait c2 else c2) cc);
      destruct (receive_segment_data hdr payload cc) as [[fin o] c2] end.
    injection E as <- <-. apply Hrecv.
    + destruct (has_flag hdr ACK); [apply (same_rx_trans _ c0); [done|apply handle_ack_same]|done].
    + destruct (has_flag hdr ACK); [|done]. by rewrite (proj2 (handle_ack_same _ _)).
    + intros [] c3; (split; [done|]); [right; left; done|by left].
  - (* FinWait1 *)
    match type of E with context [receive_segment_data hdr payload ?cc] =>
      specialize (Hrecv (fun b c2 => if b then set_timewait_start now (set_state TimeWait c2)
                           else if has_flag hdr ACK then set_state FinWait2 c2 else c2) cc);
      destruct (receive_segment_data hdr payload cc) as [[fin o] c2] end.
    injection E as <- <-. apply Hrecv.
    + destruct (has_flag hdr ACK); [apply (same_rx_trans _ c0); [done|apply handle_ack_same]|done].
    + destruct (has_flag hdr ACK); [|done]. by rewrite (proj2 (handle_ack_same _ _)).
    + intros [] c3; [split; [done|]; right; left; done|].
      destruct (has_flag hdr ACK); (split; [done|]); [by right; right|by left].
  - (* FinWait2 *)
    specialize (Hrecv (fun b c2 => if b then set_timewait_start now (set_state TimeWait c2) else c2) c0).
    destruct (receive_segment_data hdr payload c0) as [[fin o] c2]. injection E as <- <-. apply Hrecv; [done|done|].
    intros [] c3; (split; [done|]); [right; left; done|by left].
  - (* LastAck *)
    injection E as <- <-. destruct (has_flag hdr ACK); [|rewrite <- Est in *; by apply Hsame].
    exists n. split; [lia|]. split.
    { change (recv_buffer (set_retransmit_queue [] ?x)) with (recv_buffer x).
      rewrite mark_closed_buffer, slice_nil, app_nil_r by lia. done. }
    split; [by apply (rx_inv_same n (mark_closed now c0)); [|apply mark_closed_inv]|].
    change (state (set_retransmit_queue [] ?x)) with (state x). rewrite mark_closed_state. split; [done|by left].
Qed.

(** What can happen to a connection after the handshake, with the bytes the
    application has read so far and whether the connection was cut: segments
    of the stream arrive in any order, any number of times, with any overlap;
    the application reads, sends and closes; the timer ticks, and may give
    the connection up; a reset arrives or the connection is aborted. *)
Inductive rx_reach : Bytes -> bool -> TcpConnection -> Prop :=
| rx_begin c :
    state c = Established -> recv_next c = sq 0 -> recv_buffer c = [] ->
    ooo_queue c = [] -> ooo_bytes c = 0 -> ooo_fin_seq c = None -> rx_reach [] false c
| rx_segment taken cut c now hdr payload offers p :
    rx_reach taken cut c -> arrival (Z.of_nat (length taken + length (recv_buffer c))) hdr payload p ->
    rx_reach taken cut (snd (process_segment now hdr payload offers c))
| rx_read taken cut c k :
    rx_reach taken cut c -> rx_reach (taken ++ fst (drain_recv k c)) cut (snd (drain_recv k c))
| rx_send taken cut c now data : rx_reach taken cut c -> rx_reach taken cut (snd (send_on now data c))
| rx_close taken cut c :
    rx_reach taken cut c -> readable_state c = true -> rx_reach taken cut (snd (request_close c))
| rx_tick taken cut c now :
    rx_reach taken cut c -> rx_reach taken (cut || tick_aborted (tick_one now c)) (tick_conn (tick_one now c))
| rx_cut taken cut c now :
    rx_reach taken cut c -> rx_reach taken true (set_retransmit_queue [] (mark_closed now c)).

Lemma drain_recv_app k c : fst (drain_recv k c) ++ recv_buffer (snd (drain_recv k c)) = recv_buffer c.
Proof. unfold drain_recv. destruct (_ =? _)%nat; [done|]. apply take_drop. Qed.

Lemma rx_reach_inv taken cut c :
  0 <= L -> rx_reach taken cut c ->
  exists n, 0 <= n <= L /\ taken ++ recv_buffer c = slice 0 n /\ rx_inv n c /\
    synchronized (state c) = true /\ (read_closed (state c) = true -> n = L \/ cut = true).
Proof.
  intros HL. induction 1 as [c Hst Hrn Hrb Hq Hb Hf|taken cut c now hdr payload offers p Hr IH Harr
    |taken cut c k Hr IH|taken cut c now data Hr IH|taken cut c Hr IH Hread|taken cut c now Hr IH|taken cut c now Hr IH].
  - exists 0. rewrite Hrb, Hst. split_and!; try done; try lia.
    left. split; try done; [|by rewrite Hb|by rewrite Hf]. exists []. by rewrite Hq, Hb.
  - destruct IH as (n & Hn & Htk & Hi & Hs & Hc).
    assert (Z.of_nat (length taken + length (recv_buffer c)) = n) as En.
    { rewrite <- length_app, Htk, length_slice; lia. }
    rewrite En in Harr.
    destruct (process_segment_inv now n p hdr payload offers c) as (n' & Hn' & Hb' & Hi' & Hs' & Hc'); try done; try lia.
    exists n'. split_and!; try done; try lia.
    + rewrite Hb', app_assoc, Htk, <- slice_app by lia. done.
    + intros H. destruct (Hc' H) as [H'|]; [|by left]. destruct (Hc H'); [left; lia|by right].
  - destruct IH as (n & Hn & Htk & Hi & Hs & Hc). exists n.
    rewrite <- app_assoc, drain_recv_app. unfold drain_recv. destruct (_ =? _)%nat; [done|]. cbn [snd].
    split_and!; try done; try lia. destruct Hi as [[H1 H2 H3 H4 H5]|[-> Hi]]; [left; by split|by right].
  - destruct IH as (n & Hn & Htk & Hi & Hs & Hc). destruct (send_on_same now data c) as [Hx Hst].
    exists n. rewrite Hst. split_and!; try done; try lia; [|by apply (rx_inv_same n c)].
    by destruct Hx as (_ & -> & _).
  - destruct IH as (n & Hn & Htk & Hi & Hs & Hc). exists n. unfold request_close.
    destruct (send_buffer c); cbn [snd]; [|split_and!; try done; try lia; by apply (rx_inv_same n c)].
    split_and!; try done; try lia; [by apply (rx_inv_same n c)|by destruct (is_state CloseWait c)|].
    cbn. destruct (is_state CloseWait c) eqn:Ecw; [|done]. apply bool_decide_eq_true in Ecw.
    intros _. apply Hc. by rewrite Ecw.
  - destruct IH as (n & Hn & Htk & Hi & Hs & Hc).
    destruct (tick_one_inv now n c Hi Hs) as (Hi' & Hb & Hs' & Hc'). exists n. rewrite Hb.
    split_and!; try done; try lia. intros H. destruct (Hc' H) as [H'| ->]; [|by rewrite orb_true_r; right].
    destruct (Hc H') as [?| ->]; auto.
  - destruct IH as (n & Hn & Htk & Hi & _). exists n.
    change (recv_buffer (set_retransmit_queue [] ?x)) with (recv_buffer x).
    change (state (set_retransmit_queue [] ?x)) with (state x). rewrite mark_closed_buffer, mark_closed_state.
    split_and!; try done; try lia; try (by right). by apply (rx_inv_same n (mark_closed now c)); [|apply mark_closed_inv].
Qed.

(** C7: TCP delivers the byte stream. From the end of the handshake on,
    whatever segments of the peer's stream arrive whose position lies within
    2^28 of what has been delivered, in any order, repeated, overlapping or
    with losses, and however reads, sends, closes, timer ticks and resets come
    in between, what the application has read followed by what is waiting for
    it is the stream from its first byte, nothing missing, nothing twice;
    while more is to come the next expected sequence number is that of the
    first byte not yet delivered; and the connection enters a state that is
    reported as the end of the stream (CloseWait, LastAck, TimeWait or Closed)
    only when all of the stream has been delivered or the connection was cut:
    a reset came, it was aborted, or its retransmissions were given up. *)
Theorem tcp_stream_delivery (taken : Bytes) (cut : bool) (c : TcpConnection) :
  0 <= L -> rx_reach taken cut c ->
  let n := Z.of_nat (length taken + length (recv_buffer c)) in
  taken ++ recv_buffer c = slice 0 n /\ n <= L /\
  (n < L -> recv_next c = sq n) /\ (read_closed (state c) = true -> n = L \/ cut = true).
Proof.
  intros HL Hr n. destruct (rx_reach_inv taken cut c HL Hr) as (n' & Hn & Htk & Hi & _ & Hc).
  assert (n = n') as -> by (subst n; rewrite <- length_app, Htk, length_slice; lia).
  split_and!; try done; [lia|]. intros Hlt. destruct Hi as [Hok|[-> _]]; [by apply rx_next|lia].
Qed.

(** A segment that starts at or below the next expected byte and reaches
    beyond it is delivered at once: the receive buffer grows at least to the
    segment's end, pollers are told, and the segment is answered with an
    acknowledgement that carries the new expected sequence number. *)
Theorem tcp_in_order_delivered (now n p : Z) (hdr : TcpHeader) (payload : Bytes) (offers : bool)
    (c : TcpConnection) :
  state c = Established -> rx_ok n c -> arrival n hdr payload p ->
  p <= n < p + Z.of_nat (length payload) ->
  let '(edge, out, c') := process_segment now hdr payload offers c in
  edge = true /\ (exists n', p + Z.of_nat (length payload) <= n' /\ recv_buffer c' = recv_buffer c ++ slice n n') /\
  exists c1, out = [ack_reply c1 (seq_num hdr)] /\ recv_next c1 = recv_next c'.
Proof.
  intros Hst Hok Harr Hp. unfold process_segment, segment_arrives.
  change (state (set_peer_window (window hdr) c)) with (state c). rewrite Hst.
  set (c0 := if has_flag hdr ACK then _ else _).
  assert (same_rx c c0) as Hx.
  { subst c0. destruct (has_flag hdr ACK); [|done].
    apply (same_rx_trans _ (set_peer_window (window hdr) c)); [done|apply handle_ack_same]. }
  destruct Hx as (E1 & E2 & E3 & E4 & E5).
  assert (rx_ok n c0) as Hok0.
  { destruct Hok as [H1 H2 H3 H4 H5]. split; [by rewrite E1|done|by rewrite E3, E4|by rewrite E4|by rewrite E5]. }
  destruct (receive_spec n p hdr payload c0 Hok0 Harr)
    as (n' & fin & out & c' & -> & (D1 & D2 & D3 & D4 & D5) & Hpr & Hout).
  specialize (Hpr Hp). rewrite Hout by (intros ->; simpl in Hp; lia).
  assert (recv_buffer (if fin then set_state CloseWait c' else c') = recv_buffer c ++ slice n n') as Hb.
  { rewrite <- E2, <- D2. by destruct fin. }
  rewrite Hb. split_and!.
  - change (recv_buffer (set_peer_window (window hdr) c)) with (recv_buffer c). rewrite length_app.
    pose proof (length_slice n n' ltac:(lia)). apply orb_true_iff. left. apply Nat.ltb_lt. lia.
  - by exists n'.
  - exists c'. split; [done|by destruct fin].
Qed.

(* ------------------------------------------------------------------ *)
(** ** What is buffered, and what is reported *)

(** Position [y] of the stream is held in the queue. *)
Definition buffered (c : TcpConnection) (y : Z) : Prop :=
  exists k s d, (k, s) ∈ ooo_queue c /\ 0 <= d < Z.of_nat (length (ooo_data s)) /\
    add32 (ooo_seq s) d = sq y /\ ooo_data s !! Z.to_nat d = Some (stream y).

Lemma lookup_slice a b y : a <= y < b -> slice a b !! Z.to_nat (y - a) = Some (stream y).
Proof.
  intros H. unfold slice. rewrite list_lookup_fmap.
  rewrite (proj2 (lookup_seqZ a (b - a) (Z.to_nat (y - a)) y)); [done|lia].
Qed.

Lemma buffered_iff n ps c y :
  ooo_queue c = queue_of n ps -> chain (n + 1) (Z.min L (n + 65535)) ps -> n - SPAN <= y <= n + SPAN ->
  buffered c y <-> in_ranges ps y.
Proof.
  intros Hq Hc Hy. unfold SPAN in Hy. split.
  - intros (k & s & d & Hin & Hd & Ha & _). rewrite Hq in Hin. unfold queue_of in Hin.
    apply list_elem_of_fmap in Hin as ([[p e] f] & E & Hin). apply pair_equal_spec in E as [-> ->].
    destruct (chain_elem _ _ _ _ _ _ Hc Hin) as (H1 & H2 & H3 & _).
    rewrite seg_len in Hd by done. cbn [seg_of ooo_seq] in Ha. unfold sq in Ha. rewrite add32_wrap in Ha.
    apply Z.eqb_eq in Ha. rewrite (seq_eq_pos base (p + d) y) in Ha by lia. apply Z.eqb_eq in Ha.
    exists p, e, f. split; [done|lia].
  - intros (p & e & f & Hin & Hpe).
    destruct (chain_elem _ _ _ _ _ _ Hc Hin) as (H1 & H2 & H3 & _).
    exists (p - n), (seg_of (p, e, f)), (y - p). split_and!.
    + rewrite Hq. unfold queue_of. apply list_elem_of_fmap. by exists (p, e, f).
    + lia.
    + rewrite seg_len; lia.
    + cbn [seg_of ooo_seq]. unfold sq. rewrite add32_wrap. do 2 f_equal. lia.
    + by apply lookup_slice.
Qed.

(** Text above a gap is kept. A segment inside the receive window that
    starts above the next expected byte is added to what is buffered: unless
    the queue is near its limits, afterwards the buffered positions are
    exactly the old ones and those of the segment, each with its byte of the
    stream, and nothing is delivered. *)
Theorem out_of_order_kept (n p : Z) (hdr : TcpHeader) (payload : Bytes) (c : TcpConnection) :
  rx_ok n c -> arrival n hdr payload p -> payload <> [] ->
  n < p -> p + Z.of_nat (length payload) <= n + 65535 ->
  (2 * length (ooo_queue c) + 1 <= OOO_MAX_SEGS)%nat ->
  ooo_bytes c + Z.of_nat (length payload) <= OOO_MAX_BYTES ->
  let '(fin, _, c') := receive_segment_data hdr payload c in
  fin = false /\ recv_buffer c' = recv_buffer c /\ rx_ok n c' /\
  forall y, n - SPAN <= y <= n + SPAN ->
    (buffered c' y <-> buffered c y \/ p <= y < p + Z.of_nat (length payload)).
Proof.
  intros Hok [Hseq Hnear Hlen Htext Hend Hfin] Hne Hpn Hwin Hroom1 Hroom2.
  destruct (rx_queue _ _ Hok) as (ps & Hq & Hc & Hb).
  pose proof (rx_next _ _ Hok) as Hm. unfold SPAN in Hnear.
  unfold receive_segment_data. fold (has_flag hdr FIN). rewrite Hseq, Hm, sq_add by lia.
  replace (add32 (sq n) 65535) with (sq (n + 65535)) by (unfold sq; by rewrite add32_wrap).
  destruct payload as [|x xs]; [done|].
  remember (p + Z.of_nat (length (x :: xs))) as e eqn:Ee.
  rewrite sq_eq, !sq_lt, (sq_gt e (n + 65535)) by lia.
  rewrite (proj2 (Z.eqb_neq p n)), (proj2 (Z.ltb_ge p n)), (proj2 (Z.ltb_ge (n + 65535) e)) by lia.
  assert (p < e) by (subst e; simpl length; lia). rewrite (proj2 (Z.ltb_lt p (n + 65535))) by lia.
  destruct (ooo_insert_spec n p e (has_flag hdr FIN && negb false) c ps)
    as (b & c' & ps' & E & Hok' & Hrb & _ & Hq' & Hc' & Hcov); try done; try lia.
  { intros [Hf _]%andb_true_iff. by apply Hfin. }
  rewrite Htext, E. cbn [snd]. split_and!; try done. intros y Hy.
  rewrite (buffered_iff n ps' c'), (buffered_iff n ps c) by done.
  rewrite Hq, length_queue_of in Hroom1. apply Hcov; lia.
Qed.

(** *** Selective acknowledgements *)

(** Adjacent ranges joined. *)
Fixpoint join_runs (rs : list (Z * Z)) (ps : list Range) : list (Z * Z) :=
  match ps with
  | [] => rs
  | (p, e, _) :: ps =>
      match List.rev rs with
      | (l, r) :: before => if r =? p then join_runs (List.rev before ++ [(l, e)]) ps
                            else join_runs (rs ++ [(p, e)]) ps
      | [] => join_runs [(p, e)] ps
      end
  end.

Lemma rev_snoc_case {A} (l : list A) :
  List.rev l = [] /\ l = [] \/ exists l' x, l = l' ++ [x] /\ List.rev l = x :: List.rev l'.
Proof.
  destruct l as [|x l _] using rev_ind; [by left|]. right. exists l, x. split; [done|]. apply rev_app_distr.
Qed.

Lemma runs_of n a lo hi ps rs :
  chain lo hi ps -> a <= lo -> hi - a <= SPAN -> (forall l r, (l, r) ∈ rs -> a <= r <= hi) ->
  foldl (fun runs e => push_run runs (snd e)) (map pos2 rs) (queue_of n ps) = map pos2 (join_runs rs ps).
Proof.
  unfold SPAN. revert lo rs. induction ps as [|[[p e] f] ps IH]; intros lo rs Hc Ha Hs Hrs; [done|].
  destruct Hc as (H1 & H2 & H3 & H4 & H5).
  change (queue_of n ((p, e, f) :: ps)) with ((p - n, seg_of (p, e, f)) :: queue_of n ps).
  cbn [foldl snd join_runs]. unfold push_run at 2. rewrite seg_end by lia.
  change (ooo_seq (seg_of (p, e, f))) with (sq p).
  destruct (rev_snoc_case rs) as [[-> ->]|(rs0 & [l r] & -> & ->)].
  - change [(sq p, sq e)] with (map pos2 [(p, e)]). apply (IH e); [done|lia|lia|].
    intros l r [= -> ->]%list_elem_of_singleton. lia.
  - rewrite map_app, rev_app_distr. cbn [map List.rev app].
    change (pos2 (l, r)) with (sq l, sq r). cbv iota beta.
    assert (a <= r <= hi) by (apply (Hrs l r); apply elem_of_app; right; left).
    rewrite sq_eq by lia. rewrite !rev_involutive. destruct (Z.eqb_spec r p) as [->|Hne].
    + change [(sq l, sq e)] with (map pos2 [(l, e)]). rewrite <- map_app. apply (IH e); [done|lia|lia|].
      intros l' r' [Hin|[= -> ->]%list_elem_of_singleton]%elem_of_app; [|lia].
      specialize (Hrs l' r' ltac:(apply elem_of_app; by left)). lia.
    + change [(sq l, sq r)] with (map pos2 [(l, r)]). change [(sq p, sq e)] with (map pos2 [(p, e)]).
      rewrite <- !map_app. apply (IH e); [done|lia|lia|].
      intros l' r' [Hin|[= -> ->]%list_elem_of_singleton]%elem_of_app; [|lia].
      specialize (Hrs l' r' Hin). lia.
Qed.

(** The joined runs cover what the ranges cover. *)
Lemma join_runs_cover lo hi ps rs :
  chain lo hi ps -> (forall l r, (l, r) ∈ rs -> l < r) ->
  (forall l r, (l, r) ∈ join_runs rs ps -> l < r) /\
  forall y, (exists l r, (l, r) ∈ join_runs rs ps /\ l <= y < r) <->
    (exists l r, (l, r) ∈ rs /\ l <= y < r) \/ in_ranges ps y.
Proof.
  revert lo rs. induction ps as [|[[p e] f] ps IH]; intros lo rs Hc Hrs; cbn [join_runs].
  { split; [done|]. intros y. split; [by left|].
    intros [?|(p & e & f & Hin & _)]; [done|by apply not_elem_of_nil in Hin]. }
  destruct Hc as (H1 & H2 & H3 & H4 & H5).
  assert (forall y, in_ranges ((p, e, f) :: ps) y <-> p <= y < e \/ in_ranges ps y) as Hin.
  { intros y. unfold in_ranges. setoid_rewrite list.elem_of_cons. split.
    - intros (p' & e' & f' & [[= -> -> ->]|?] & ?); [by left|]. right. by exists p', e', f'.
    - intros [?|(p' & e' & f' & ? & ?)]; [exists p, e, f; auto|]. exists p', e', f'. auto. }
  assert (forall rs', (forall l r, (l, r) ∈ rs' -> l < r) ->
    (forall y, (exists l r, (l, r) ∈ rs' /\ l <= y < r) <->
       (exists l r, (l, r) ∈ rs /\ l <= y < r) \/ p <= y < e) ->
    (forall l r, (l, r) ∈ join_runs rs' ps -> l < r) /\
    forall y, (exists l r, (l, r) ∈ join_runs rs' ps /\ l <= y < r) <->
      (exists l r, (l, r) ∈ rs /\ l <= y < r) \/ in_ranges ((p, e, f) :: ps) y) as Hstep.
  { intros rs' G1 G2. destruct (IH e rs' H5 G1) as [J1 J2]. split; [done|]. intros y. rewrite J2, G2, Hin. tauto. }
  destruct (rev_snoc_case rs) as [[-> ->]|(rs0 & [l r] & -> & ->)]; [|destruct (Z.eqb_spec r p) as [->|Hne]]; apply Hstep.
  - intros l r [= -> ->]%list_elem_of_singleton. lia.
  - intros y. setoid_rewrite list_elem_of_singleton. split.
    + intros (l & r & [= -> ->] & ?). by right.
    + intros [(l & r & ?%not_elem_of_nil & _)|?]; [done|by exists p, e].
  - rewrite rev_involutive. intros l' r' [Hl|[= -> ->]%list_elem_of_singleton]%elem_of_app.
    + apply Hrs, elem_of_app. by left.
    + assert (l < p) by (apply Hrs, elem_of_app; right; left). lia.
  - assert (l < p) by (apply Hrs, elem_of_app; right; left).
    intros y. rewrite rev_involutive. setoid_rewrite elem_of_app. setoid_rewrite list_elem_of_singleton. split.
    + intros (l' & r' & [Hl|[= -> ->]] & ?); [left; exists l', r'; auto|].
      destruct (decide (y < p)); [left; exists l, p; split; [by right|lia]|right; lia].
    + intros [(l' & r' & [Hl|[= -> ->]] & ?)|?]; [exists l', r'; auto|exists l, e; split; [by right|lia]..].
  - intros l' r' [Hl|[= -> ->]%list_elem_of_singleton]%elem_of_app; [by apply Hrs|lia].
  - intros y. setoid_rewrite elem_of_app at 1. setoid_rewrite list_elem_of_singleton. split.
    + intros (l' & r' & [Hl|[= -> ->]] & ?); [left; by exists l', r'|by right].
    + intros [(l' & r' & Hl & ?)|?]; [exists l', r'; auto|exists p, e; auto].
Qed.

Lemma position_front {A} (f : A -> bool) (l : list A) i `{Inhabited A} :
  position f l = Some i -> forall x, x ∈ (l !!! i) :: (take i l ++ drop (Datatypes.S i) l) <-> x ∈ l.
Proof.
  intros [(y & Hy & _) _]%position_some x. rewrite (list_lookup_total_correct _ _ _ Hy).
  rewrite <- (take_drop_middle l i y Hy) at 3.
  rewrite list.elem_of_cons, !elem_of_app, list.elem_of_cons. tauto.
Qed.

(** Selective acknowledgements are truthful. The blocks reported are at
    most four, each is a range of positions every one of which is buffered,
    and when the segment being answered lies in a buffered run, that run is
    the first block. *)
Theorem sack_blocks_truthful (n q : Z) (c : TcpConnection) :
  rx_ok n c -> n - SPAN <= q <= n + SPAN ->
  let blocks := sack_blocks c (sq q) in
  (length blocks <= SACK_MAX_BLOCKS)%nat /\
  (forall l r, (l, r) ∈ blocks ->
     exists a b, l = sq a /\ r = sq b /\ a < b /\ forall y, a <= y < b -> buffered c y) /\
  (buffered c q -> exists a b, blocks !! 0%nat = Some (sq a, sq b) /\ a <= q < b).
Proof.
  intros [Hm Hr (ps & Hq & Hc & Hb) Hmax Hf] Hnear blocks.
  destruct (join_runs_cover _ _ ps [] Hc) as [Hlt Hcov]; [by intros l r ?%not_elem_of_nil|].
  pose proof (runs_of n (n + 1) _ _ ps [] Hc) as Hruns. cbn [map] in Hruns.
  set (rs := join_runs [] ps) in *.
  assert (forall l r, (l, r) ∈ rs -> n < l /\ l < r /\ r <= n + 65535) as Hrange.
  { intros l r Hin. specialize (Hlt l r Hin).
    assert (forall y, l <= y < r -> n < y < n + 65535) as Hy.
    { intros y Hy. destruct (proj1 (Hcov y)) as [(? & ? & ?%not_elem_of_nil & _)|(p & e & f & Hin' & ?)];
        [by exists l, r|done|]. destruct (chain_elem _ _ _ _ _ _ Hc Hin'). lia. }
    pose proof (Hy l ltac:(lia)). pose proof (Hy (r - 1) ltac:(lia)). lia. }
  assert (forall l r y, (l, r) ∈ rs -> l <= y < r -> buffered c y) as Hbuf.
  { intros l r y Hin Hy. apply (buffered_iff n ps c y Hq Hc); [unfold SPAN; specialize (Hrange l r Hin); lia|].
    destruct (proj1 (Hcov y)) as [(? & ? & ?%not_elem_of_nil & _)|?]; [by exists l, r|done|done]. }
  subst blocks. unfold sack_blocks. rewrite Hq, Hruns by (unfold SPAN; try lia; by intros l r ?%not_elem_of_nil).
  set (g := fun '(l, r) => seq_ge (sq q) l && seq_lt (sq q) r).
  assert (forall l r, (l, r) ∈ rs -> g (pos2 (l, r)) = (l <=? q) && (q <? r)) as Hg.
  { intros l r Hin. specialize (Hrange l r Hin). unfold SPAN in Hnear. unfold g, pos2. cbn [fst snd].
    rewrite sq_ge, sq_lt by lia. done. }
  split_and!.
  - rewrite length_take. lia.
  - intros l r Hin%elem_of_take. destruct Hin as (i & Hin & _). apply list_elem_of_lookup_2 in Hin.
    assert ((l, r) ∈ map pos2 rs) as Hin'.
    { destruct (position g (map pos2 rs)) eqn:Ep; [by apply (position_front g _ _ Ep)|done]. }
    apply list_elem_of_fmap in Hin' as ([a b] & [= -> ->] & Hab).
    exists a, b. split_and!; try done; [by apply Hlt|]. intros y Hy. by apply (Hbuf a b).
  - intros Hbq. apply (buffered_iff n ps c q Hq Hc Hnear) in Hbq.
    destruct (proj2 (Hcov q) (or_intror Hbq)) as (l & r & Hin & Hlr).
    destruct (position g (map pos2 rs)) as [i|] eqn:Ep.
    + pose proof Ep as Ep'. apply position_some in Ep' as [(x & Hx & Hgx) _].
      rewrite (list_lookup_total_correct _ _ _ Hx).
      assert (x ∈ map pos2 rs) as Hxin by (by eapply list_elem_of_lookup_2).
      apply list_elem_of_fmap in Hxin as ([a b] & -> & Hab). exists a, b. split; [done|].
      rewrite Hg in Hgx by done. lia.
    + exfalso. rewrite position_none in Ep. specialize (Ep (pos2 (l, r))).
      rewrite Hg in Ep by done. assert (pos2 (l, r) ∈ map pos2 rs) as Hm' by (apply list_elem_of_fmap; by exists (l, r)).
      specialize (Ep Hm'). lia.
Qed.
End receive.

(* ------------------------------------------------------------------ *)
(** ** Examples

    A stream of six bytes whose sequence numbers wrap after the second. *)

Definition demo_bytes (p : Z) : Z := 65 + p.
Definition demo_isn : Z := 2 ^ 32 - 2.
Definition demo_conn : TcpConnection :=
  new_connection [10; 0; 2; 15] 80 [10; 0; 2; 2] 5000 Established 101 101 (sq demo_isn 0) 65535 true.
Definition demo_hdr (p fl : Z) : TcpHeader := mkTcpHeader 5000 80 (sq demo_isn p) 101 5 fl 65535 0.

(** The last three bytes come first, with the FIN; then the first four. *)
Definition demo_late : TcpConnection :=
  snd (process_segment 7 (demo_hdr 3 (ACK .| FIN)) [68; 69; 70] false demo_conn).
Definition demo_filled : TcpConnection :=
  snd (process_segment 8 (demo_hdr 0 ACK) [65; 66; 67; 68] false demo_late).

Ltac arrival_tac := split; vm_compute; first [reflexivity|congruence|split_and!; congruence|done].

Lemma tcp_stream_delivery_witness :
  let c := snd (drain_recv 4 demo_filled) in
  rx_reach demo_bytes 6 demo_isn [65; 66; 67; 68] false c /\ state c = CloseWait /\
  [65; 66; 67; 68] ++ recv_buffer c = slice demo_bytes 0 6 /\
  (read_closed (state c) = true -> Z.of_nat (4 + length (recv_buffer c)) = 6 \/ false = true).
Proof.
  intros c.
  assert (rx_reach demo_bytes 6 demo_isn ([] ++ fst (drain_recv 4 demo_filled)) false c) as Hr.
  { apply rx_read, (rx_segment _ _ _ _ _ _ _ _ _ _ 0); [apply (rx_segment _ _ _ _ _ _ _ _ _ _ 3)|].
    - by apply rx_begin.
    - arrival_tac.
    - arrival_tac. }
  assert ([] ++ fst (drain_recv 4 demo_filled) = [65; 66; 67; 68]) as E by (vm_compute; reflexivity).
  rewrite E in Hr.
  destruct (tcp_stream_delivery demo_bytes 6 demo_isn [65; 66; 67; 68] false c ltac:(lia) Hr) as (H1 & H2 & _ & H4).
  split; [done|]. split; [vm_compute; reflexivity|]. split; [|exact H4].
  assert (length (recv_buffer c) = 2%nat) as El by (vm_compute; reflexivity). rewrite El in *. exact H1.
Defined.

Lemma demo_rx_ok : rx_ok demo_bytes 6 demo_isn 0 demo_conn.
Proof.
  split; [reflexivity|lia| |vm_compute; congruence|done]. exists []. done.
Qed.

Lemma tcp_in_order_delivered_witness :
  let '(edge, out, c') := process_segment 8 (demo_hdr 0 ACK) [65; 66] false demo_conn in
  edge = true /\ length out = 1%nat.
Proof.
  pose proof (tcp_in_order_delivered demo_bytes 6 demo_isn 8 0 0 (demo_hdr 0 ACK) [65; 66] false demo_conn
    eq_refl demo_rx_ok ltac:(arrival_tac) ltac:(vm_compute; split; congruence)) as H.
  destruct (process_segment 8 (demo_hdr 0 ACK) [65; 66] false demo_conn) as [[edge out] c'].
  destruct H as (-> & _ & c1 & -> & _). done.
Defined.

Lemma out_of_order_kept_witness :
  let '(fin, _, c') := receive_segment_data (demo_hdr 3 ACK) [68; 69] demo_conn in
  fin = false /\ forall y, - SPAN <= y <= SPAN -> (buffered demo_bytes demo_isn c' y <-> 3 <= y < 5).
Proof.
  pose proof (out_of_order_kept demo_bytes 6 demo_isn 0 3 (demo_hdr 3 ACK) [68; 69] demo_conn
    demo_rx_ok ltac:(arrival_tac) ltac:(done) ltac:(lia) ltac:(simpl; lia) ltac:(vm_compute; lia)
    ltac:(vm_compute; congruence)) as H.
  destruct (receive_segment_data (demo_hdr 3 ACK) [68; 69] demo_conn) as [[fin out] c'].
  destruct H as (-> & _ & _ & H). split; [done|]. intros y Hy. rewrite (H y) by lia.
  split; [|by right]. intros [(k & s & d & ?%not_elem_of_nil & _)|?]; done.
Defined.

Lemma sack_blocks_truthful_witness :
  exists a b, sack_blocks demo_late (sq demo_isn 4) !! 0%nat = Some (sq demo_isn a, sq demo_isn b) /\ a <= 4 < b.
Proof.
  destruct (sack_blocks_truthful demo_bytes 6 demo_isn 0 4 demo_late) as (_ & _ & H).
  - split; [vm_compute; reflexivity|lia| |vm_compute; congruence|].
    + exists [(3, 6, true)]. split; [vm_compute; reflexivity|]. split; [|vm_compute; reflexivity].
      cbn [chain]. split_and!; try lia; done.
    + intros q. vm_compute. congruence.
  - unfold SPAN. lia.
  - apply H. exists 3, (mkOooSeg (sq demo_isn 3) [68; 69; 70] true), 1.
    split_and!; [vm_compute; left|lia|simpl; lia|vm_compute; reflexivity..].
Defined.

(** A FIN that was buffered with its text is consumed without its sequence
    number: the connection is half closed, yet the peer's FIN, whose number is
    6 past the start, is never acknowledged. *)
Lemma spliced_fin_not_acknowledged :
  state demo_filled = CloseWait /\ recv_next demo_filled = sq demo_isn 6 /\
  recv_buffer demo_filled = [65; 66; 67; 68; 69; 70].
Proof. vm_compute. done. Qed.

(** A bare FIN that comes before the last text is noted and forgotten: with
    all text delivered the connection stays open. *)
Lemma bare_fin_forgotten :
  let c := snd (process_segment 7 (demo_hdr 6 (ACK .| FIN)) [] false demo_conn) in
  let c := snd (process_segment 8 (demo_hdr 0 ACK) [65; 66; 67; 68; 69; 70] false c) in
  ooo_fin_seq c = Some (recv_next c) /\ recv_next c = sq demo_isn 6 /\ state c = Established.
Proof. vm_compute. done. Qed.

(** A reset with nothing of the stream delivered is reported like the peer's
    FIN. *)
Lemma reset_reads_as_end (w : Wake) :
  let rst := build_segment 5000 80 (sq demo_isn 0) 0 RST [10; 0; 2; 2] [10; 0; 2; 15] [] in
  let s := snd (handle_tcp [10; 0; 2; 2] [10; 0; 2; 15] rst 7 0 (mkTcp [demo_conn] 49152 w)) in
  recv_buffer <$> TCP_CONNECTIONS s = [[]] /\ peer_fin_received 80 [10; 0; 2; 2] 5000 s = true.
Proof. split; vm_compute; reflexivity. Qed.
