(* ===== verification/TcpSend.v ===== *)
(** * The TCP send queue (send path of kernel/src/net/tcp.rs)

    The application's byte stream is the list of all bytes it has queued.
    Proved: every byte that the peer has not acknowledged is held, in order,
    in the retransmit queue or the send buffer; every data segment that goes
    out, for the first time or again, carries the bytes of the stream at its
    sequence number; what is in flight stays within the window; and an open
    window makes progress. A send while older bytes wait in the send buffer
    and the window is open is excluded ([in_turn]), see
    [send_overtakes_buffer]. *)

From S2P Require Import Prelude.
From S2P Require Import WaitList.
From S2P Require Import TcpWire.
From S2P Require Import Tcp.
From S2P Require Import TcpReceive.

Section send.
Context (isn : Z).

(** The sequence number of a position of the outgoing stream. *)
Notation tq := (sq isn).

(** [len] bytes of the stream from position [p]. *)
Definition part (sent : Bytes) (p len : nat) : Bytes := take len (drop p sent).

Lemma part_length sent p len : (p + len <= length sent)%nat -> length (part sent p len) = len.
Proof. intros H. unfold part. rewrite length_take, length_drop. lia. Qed.

Lemma part_app sent data p len : (p + len <= length sent)%nat -> part (sent ++ data) p len = part sent p len.
Proof. intros H. unfold part. rewrite drop_app_le, take_app_le; [done|rewrite length_drop; lia|lia]. Qed.

Lemma part_drop sent p len : part sent p len ++ drop (p + len) sent = drop p sent.
Proof. unfold part. by rewrite <- drop_drop, take_drop. Qed.

(** The queue holds the stream from [s] to [m] in consecutive pieces of at
    most one segment. *)
Fixpoint rt_chain (sent : Bytes) (s m : nat) (q : list RetransmitEntry) : Prop :=
  match q with
  | [] => s = m
  | e :: q =>
      let len := length (rt_data e) in
      rt_seq e = tq (Z.of_nat s) /\ (0 < len)%nat /\ Z.of_nat len <= MSS /\ (s + len <= m)%nat /\
      rt_data e = part sent s len /\ rt_chain sent (s + len) m q
  end.

(** The oldest piece is not acknowledged to its end. *)
Definition front_ok (s a : nat) (q : list RetransmitEntry) : Prop :=
  match q with [] => s = a | e :: _ => (s <= a < s + length (rt_data e))%nat end.

(** [m] bytes have been transmitted, [a] of them are acknowledged; the queue
    starts at [s]. *)
Record tx_ok (sent : Bytes) (s a m : nat) (c : TcpConnection) : Prop := {
  tx_unack : send_unack c = tq (Z.of_nat a);
  tx_next : send_next c = tq (Z.of_nat m);
  tx_chain : rt_chain sent s m (retransmit_queue c);
  tx_front : front_ok s a (retransmit_queue c);
  tx_order : (a <= m <= length sent)%nat;
  tx_flight : Z.of_nat (m - a) <= 65535;
  tx_window : 0 <= peer_window c <= 65535
}.

Lemma rt_chain_le sent s m q : rt_chain sent s m q -> (s <= m)%nat.
Proof.
  revert s. induction q as [|e q IH]; intros s; cbn [rt_chain]; [lia|].
  intros (_ & ? & _ & _ & _ & H). specialize (IH _ H). lia.
Qed.

Lemma rt_chain_app_stream sent data s m q : (m <= length sent)%nat -> rt_chain sent s m q -> rt_chain (sent ++ data) s m q.
Proof.
  intros Hm. revert s. induction q as [|e q IH]; intros s; cbn [rt_chain]; [done|].
  intros (H1 & H2 & H3 & H4 & H5 & H6). split_and!; try done; [|by apply IH].
  by rewrite part_app by lia.
Qed.

(** The queued bytes and what has not been transmitted are the stream from
    [s] on. *)
Lemma rt_chain_bytes sent s m q :
  rt_chain sent s m q -> concat (map rt_data q) ++ drop m sent = drop s sent.
Proof.
  revert s. induction q as [|e q IH]; intros s; cbn [rt_chain map concat]; [by intros ->|].
  intros (H1 & H2 & H3 & H4 & H5 & H6). rewrite <- app_assoc, (IH _ H6), H5 at 1. apply part_drop.
Qed.

Lemma rt_chain_snoc sent s m q now rt len :
  rt_chain sent s m q -> (0 < len)%nat -> Z.of_nat len <= MSS -> (m + len <= length sent)%nat ->
  rt_chain sent s (m + len) (q ++ [mkRetransmit (tq (Z.of_nat m)) (part sent m len) now rt 0]).
Proof.
  intros Hq Hl Hm Hs. revert s Hq. induction q as [|e q IH]; intros s; cbn [rt_chain app].
  - intros ->. cbn [rt_seq rt_data]. rewrite part_length by done. split_and!; done || lia.
  - intros (H1 & H2 & H3 & H4 & H5 & H6). split_and!; try done; [lia|]. by apply IH.
Qed.

(* ------------------------------------------------------------------ *)
(** ** Acknowledgements *)

(** An acknowledgement up to [b] removes the pieces that end at or before it. *)
Lemma drain_acked_spec sent s a m q b :
  rt_chain sent s m q -> front_ok s a q -> (a <= b <= m)%nat -> Z.of_nat (m - s) < 2 ^ 20 ->
  exists s', (s <= s')%nat /\ rt_chain sent s' m (drain_acked (tq (Z.of_nat b)) q) /\
    front_ok s' b (drain_acked (tq (Z.of_nat b)) q).
Proof.
  revert s a. induction q as [|e q IH]; intros s a Hq Hf Hb Hs; cbn [drain_acked].
  { exists s. simpl in *. split_and!; lia. }
  destruct Hq as (H1 & H2 & H3 & H4 & H5 & H6). cbn [front_ok] in Hf. unfold MSS in *.
  assert (rt_end e = tq (Z.of_nat (s + length (rt_data e)))) as ->.
  { unfold rt_end. rewrite H1, sq_add by lia. f_equal. lia. }
  rewrite sq_le by lia. destruct (Z.leb_spec (Z.of_nat (s + length (rt_data e))) (Z.of_nat b)) as [Hle|Hgt].
  - destruct (IH (s + length (rt_data e))%nat (s + length (rt_data e))%nat) as (s' & G1 & G2 & G3); try done; try lia.
    { destruct q as [|e2 q]; [simpl in *; lia|]. destruct H6 as (_ & ? & _). cbn [front_ok]. lia. }
    exists s'. split_and!; try done. lia.
  - exists s. split_and!; [lia|by split_and!|]. cbn [front_ok]. lia.
Qed.

Lemma force_front_spec sent s a m q : rt_chain sent s m q -> front_ok s a q ->
  rt_chain sent s m (force_front q) /\ front_ok s a (force_front q).
Proof. destruct q as [|e q]; [done|]. cbn. done. Qed.

Lemma tx_flight_seq sent s a m c : tx_ok sent s a m c -> in_flight c = Z.of_nat (m - a).
Proof.
  intros [H1 H2 _ _ H3 H4 _]. unfold in_flight. rewrite H1, H2, sq_sub by lia. lia.
Qed.

Lemma tx_span sent s a m c : tx_ok sent s a m c -> (s <= a)%nat /\ Z.of_nat (m - s) < 2 ^ 20.
Proof.
  intros [_ _ H1 H2 H3 H4 _]. destruct (retransmit_queue c) as [|e q]; cbn [front_ok] in H2; [lia|].
  destruct H1 as (_ & _ & H1 & _). unfold MSS in *. lia.
Qed.

Lemma handle_ack_tx sent s a m c (b : nat) :
  tx_ok sent s a m c -> (b <= m)%nat -> Z.of_nat (m - b) < 2 ^ 20 ->
  exists s', tx_ok sent s' (Nat.max a b) m (handle_ack (tq (Z.of_nat b)) c) /\
    send_buffer (handle_ack (tq (Z.of_nat b)) c) = send_buffer c.
Proof.
  intros Htx Hbm Hspan. destruct (tx_span _ _ _ _ _ Htx) as [Hsa Hms]. destruct Htx as [H1 H2 H3 H4 H5 H6 H7].
  unfold handle_ack. rewrite H1, sq_eq, sq_gt by lia. destruct (Z.eqb_spec (Z.of_nat b) (Z.of_nat a)) as [Eb|Hne].
  - exists s. replace (Nat.max a b) with a by lia. destruct (force_front_spec _ _ _ _ _ H3 H4) as [G1 G2].
    destruct (_ <=? _); (split; [|done]); split; done.
  - destruct (Z.ltb_spec (Z.of_nat a) (Z.of_nat b)) as [Hlt|Hge].
    + destruct (drain_acked_spec sent s a m (retransmit_queue c) b) as (s' & G1 & G2 & G3); try done; try lia.
      exists s'. replace (Nat.max a b) with b by lia. unfold update_cwnd, drain_retransmit.
      destruct (_ <? _); (split; [|done]); split; try done; cbn; lia.
    + exists s. replace (Nat.max a b) with a by lia. split; [by split|done].
Qed.

(* ------------------------------------------------------------------ *)
(** ** The receive path leaves the send side alone *)

Lemma rx_frame_queue x c : rx_frame c (set_ooo_queue x c).
Proof. exists (recv_next c), (recv_buffer c), x, (ooo_bytes c), (ooo_fin_seq c). by destruct c. Qed.

Lemma rx_frame_bytes x c : rx_frame c (set_ooo_bytes x c).
Proof. exists (recv_next c), (recv_buffer c), (ooo_queue c), x, (ooo_fin_seq c). by destruct c. Qed.

Lemma rx_frame_buffer x c : rx_frame c (set_recv_buffer x c).
Proof. exists (recv_next c), x, (ooo_queue c), (ooo_bytes c), (ooo_fin_seq c). by destruct c. Qed.

#[local] Hint Resolve rx_frame_next rx_frame_fin rx_frame_queue rx_frame_bytes rx_frame_buffer rx_frame_refl : rxf.

(** Assignments to receive fields one after the other. *)
Ltac rx_steps := repeat match goal with
  | |- rx_frame ?c ?c => apply rx_frame_refl
  | |- rx_frame ?c (set_recv_next _ ?d) => apply (rx_frame_trans c d); [|auto with rxf]
  | |- rx_frame ?c (set_recv_buffer _ ?d) => apply (rx_frame_trans c d); [|auto with rxf]
  | |- rx_frame ?c (set_ooo_queue _ ?d) => apply (rx_frame_trans c d); [|auto with rxf]
  | |- rx_frame ?c (set_ooo_bytes _ ?d) => apply (rx_frame_trans c d); [|auto with rxf]
  | |- rx_frame ?c (set_ooo_fin_seq _ ?d) => apply (rx_frame_trans c d); [|auto with rxf]
  | |- rx_frame ?c (if ?b then _ else _) => destruct b
  end.

Lemma drain_loop_frame q fin c : rx_frame c (snd (drain_loop q fin c)).
Proof.
  revert fin c. induction q as [|[k seg] q IH]; intros fin c; cbn [drain_loop]; [apply rx_frame_refl|].
  destruct (seq_gt _ _); [apply rx_frame_refl|].
  destruct (seq_le _ _); [|destruct (_ && _)]; (eapply rx_frame_trans; [|apply IH]); rx_steps.
Qed.

Lemma ooo_drain_frame c : rx_frame c (snd (ooo_drain c)).
Proof.
  unfold ooo_drain. pose proof (drain_loop_frame (ooo_queue c) false c) as H.
  destruct (drain_loop _ _ _) as [fin c1]. cbn [snd] in *. destruct (ooo_queue c1); [done|].
  eapply rx_frame_trans; [exact H|]. unfold rebase. rx_steps.
Qed.

Lemma after_text_frame fin e c : rx_frame c (snd (after_text fin e c)).
Proof.
  unfold after_text. pose proof (ooo_drain_frame c) as H. destruct (ooo_drain c) as [f c1]. cbn [snd] in H.
  destruct (_ && _); cbn [snd]; [|done]. eapply rx_frame_trans; [exact H|]. rx_steps.
Qed.

Lemma evict_loop_frame fuel k t o c : rx_frame c (snd (evict_loop fuel k t o c)).
Proof.
  revert c. induction fuel as [|fuel IH]; intros c; cbn [evict_loop]; [apply rx_frame_refl|].
  destruct (_ || _); [|apply rx_frame_refl].
  destruct (bt_pop_last _) as [[[hi ev] q]|]; [|apply rx_frame_refl].
  destruct (_ <=? _); [apply rx_frame_refl|]. eapply rx_frame_trans; [|apply IH]. rx_steps.
Qed.

Lemma insert_frags_frame seq data fin fs fs' c : rx_frame c (foldl (insert_frag seq data fin fs) c fs').
Proof.
  revert c. induction fs' as [|[l r] fs' IH]; intros c; cbn [foldl]; [apply rx_frame_refl|].
  eapply rx_frame_trans; [|apply IH]. unfold insert_frag. rx_steps.
Qed.

Lemma ooo_insert_frame seq data fin c : rx_frame c (snd (ooo_insert seq data fin c)).
Proof.
  unfold ooo_insert. destruct (fragments _ _ _) as [|[l r] fs]; [apply rx_frame_refl|].
  match goal with |- context [evict_loop ?f ?k ?t ?o c] => pose proof (evict_loop_frame f k t o c) as H;
    destruct (evict_loop f k t o c) as [b c1] end.
  cbn [snd] in H. destruct b; [done|]. destruct (_ <? _); [done|]. cbn [snd].
  eapply rx_frame_trans; [exact H|apply insert_frags_frame].
Qed.

Lemma receive_frame hdr payload c : rx_frame c (snd (receive_segment_data hdr payload c)).
Proof.
  unfold receive_segment_data. destruct payload as [|x xs].
  { destruct (_ && _); [cbn [snd]; rx_steps|]. destruct (negb _); cbn [snd]; rx_steps. }
  destruct (_ =? _).
  - match goal with |- context [after_text ?f ?e ?d] => pose proof (after_text_frame f e d) as H;
      destruct (after_text f e d) as [b c1] end. cbn [snd] in *. eapply rx_frame_trans; [|exact H]. rx_steps.
  - destruct (seq_lt _ _); [destruct (seq_gt _ _)|].
    + match goal with |- context [after_text ?f ?e ?d] => pose proof (after_text_frame f e d) as H;
        destruct (after_text f e d) as [b c1] end. cbn [snd] in *. eapply rx_frame_trans; [|exact H]. rx_steps.
    + apply rx_frame_refl.
    + cbn [snd]. destruct (seq_lt _ _); [apply ooo_insert_frame|apply rx_frame_refl].
Qed.

Lemma tx_ok_frame sent s a m c c' : rx_frame c c' -> tx_ok sent s a m c -> tx_ok sent s a m c'.
Proof. intros (? & ? & ? & ? & ? & ->) [? ? ? ? ? ? ?]. by split. Qed.

(** A segment that acknowledges no more than was sent, in ESTABLISHED. *)
Lemma process_segment_tx sent s a m now hdr payload offers c (b : nat) :
  tx_ok sent s a m c -> state c = Established -> has_flag hdr ACK = true -> ack_num hdr = tq (Z.of_nat b) ->
  0 <= window hdr <= 65535 -> (b <= m)%nat -> Z.of_nat (m - b) < 2 ^ 20 ->
  let c' := snd (process_segment now hdr payload offers c) in
  exists s', tx_ok sent s' (Nat.max a b) m c' /\ send_buffer c' = send_buffer c.
Proof.
  intros Htx Hst Hack Hnum Hw Hb Hspan. unfold process_segment, segment_arrives.
  set (c0 := set_peer_window (window hdr) c).
  change (state c0) with (state c). rewrite Hst, Hack, Hnum.
  assert (tx_ok sent s a m c0) as Htx0 by (destruct Htx; by split).
  destruct (handle_ack_tx sent s a m c0 b Htx0 Hb Hspan) as (s' & Htx1 & Hsb).
  pose proof (receive_frame hdr payload (handle_ack (tq (Z.of_nat b)) c0)) as Hfr.
  destruct (receive_segment_data hdr payload _) as [[fin out] c1]. cbn [snd] in *.
  exists s'. destruct (tx_ok_frame _ _ _ _ _ _ Hfr Htx1) as [? ? ? ? ? ? ?].
  destruct Hfr as (? & ? & ? & ? & ? & E). split; [by destruct fin; split|].
  change (send_buffer c0) with (send_buffer c) in Hsb. rewrite <- Hsb. subst c1. by destruct fin.
Qed.

(* ------------------------------------------------------------------ *)
(** ** Transmission *)

(** Everything of a connection but its queue and [send_next]. *)
Definition same_peer (c c' : TcpConnection) : Prop :=
  local_ip c' = local_ip c /\ local_port c' = local_port c /\ remote_ip c' = remote_ip c /\
  remote_port c' = remote_port c /\ recv_next c' = recv_next c /\ send_buffer c' = send_buffer c /\
  cwnd c' = cwnd c /\ peer_window c' = peer_window c /\ state c' = state c /\ close_pending c' = close_pending c.

(** A data segment carries the stream's bytes at its sequence number. *)
Definition carries (sent : Bytes) (c : TcpConnection) (o : OutSeg) : Prop :=
  exists p len, (p + len <= length sent)%nat /\ Z.of_nat len <= MSS /\
    o = conn_segment c (tq (Z.of_nat p)) (recv_next c) (PSH .| ACK) (part sent p len).

Lemma carries_peer sent c c' o : same_peer c c' -> carries sent c' o -> carries sent c o.
Proof.
  intros (E1 & E2 & E3 & E4 & E5 & _) (p & len & Hp & Hl & ->). exists p, len. split_and!; [done|done|].
  unfold conn_segment. by rewrite E1, E2, E3, E4, E5.
Qed.

Lemma transmit_spec sent s a m now len c :
  tx_ok sent s a m c -> (0 < len)%nat -> Z.of_nat len <= MSS -> (m + len <= length sent)%nat ->
  Z.of_nat (m + len - a) <= 65535 ->
  let '(o, c') := transmit now (part sent m len) c in
  tx_ok sent s a (m + len) c' /\ carries sent c o /\ same_peer c c'.
Proof.
  intros Htx Hl Hmss Hlen Hfl. destruct Htx as [H1 H2 H3 H4 H5 H6 H7]. unfold transmit.
  split; [|split; [|done]].
  - split; try done; try lia.
    + cbn. rewrite H2, sq_add; rewrite part_length by done; [f_equal; lia|unfold MSS in *; lia].
    + cbn. rewrite H2. by apply rt_chain_snoc.
    + cbn. destruct (retransmit_queue c) as [|e q]; [|done]. cbn in *. rewrite part_length by done. lia.
  - exists m, len. by rewrite H2.
Qed.

Lemma same_peer_trans c1 c2 c3 : same_peer c1 c2 -> same_peer c2 c3 -> same_peer c1 c3.
Proof. unfold same_peer. intros. destruct_and!. split_and!; congruence. Qed.

Lemma part_snoc sent0 data off n : part (sent0 ++ data) (length sent0 + off) n = take n (drop off data).
Proof. unfold part. by rewrite <- drop_drop, drop_app_length. Qed.

(** Segmentation: as much of [data] goes out as fits, in order. *)
Lemma send_loop_spec fuel now can offset data sent0 s a c :
  tx_ok (sent0 ++ data) s a (length sent0 + offset) c ->
  (offset <= length data <= fuel + offset)%nat ->
  Z.of_nat (length sent0 + can) - Z.of_nat a <= 65535 ->
  let '(off', out, c') := send_loop fuel now can offset data c in
  tx_ok (sent0 ++ data) s a (length sent0 + off') c' /\
  off' = Nat.max offset (Nat.min (length data) can) /\
  Forall (carries (sent0 ++ data) c) out /\ same_peer c c'.
Proof.
  revert offset c. induction fuel as [|fuel IH]; intros offset c Htx Hoff Hcan; cbn [send_loop].
  { split_and!; [done|lia|constructor|done]. }
  destruct (Nat.ltb_spec offset (length data)) as [H1|H1]; cbn [andb];
    [destruct (Nat.ltb_spec offset can) as [H2|H2]|].
  2,3: split_and!; [done|lia|constructor|done].
  set (end_ := Nat.min _ _). assert (offset < end_ <= length data)%nat as He by (subst end_; unfold MSS; lia).
  assert (end_ <= can)%nat by (subst end_; lia).
  assert (end_ - offset <= Z.to_nat MSS)%nat by (subst end_; lia). clearbody end_.
  rewrite <- (part_snoc sent0). pose proof (tx_order _ _ _ _ _ Htx).
  pose proof (transmit_spec (sent0 ++ data) s a (length sent0 + offset) now (end_ - offset) c Htx) as Ht.
  destruct (transmit now _ c) as [o c1] eqn:E1.
  destruct Ht as (Htx1 & Ho & Hp1); [lia|unfold MSS in *; lia|rewrite length_app; lia|lia|].
  specialize (IH end_ c1). replace (length sent0 + offset + (end_ - offset))%nat with (length sent0 + end_)%nat in Htx1 by lia.
  specialize (IH Htx1 ltac:(lia) Hcan).
  destruct (send_loop fuel now can end_ data c1) as [[off' out] c2].
  destruct IH as (G1 & G2 & G3 & G4). split_and!; [done|lia| |by eapply same_peer_trans].
  constructor; [done|]. eapply list.Forall_impl; [exact G3|]. intros x. by apply carries_peer.
Qed.

Lemma eff_window_bound c : 0 <= peer_window c <= 65535 -> eff_window c <= 65535.
Proof. unfold eff_window, MSS. lia. Qed.

Lemma send_on_spec sent s a c now data :
  tx_ok sent s a (length sent) c -> send_buffer c = [] ->
  let '(out, c') := send_on now data c in
  exists m', tx_ok (sent ++ data) s a m' c' /\ send_buffer c' = drop m' (sent ++ data) /\
    Forall (carries (sent ++ data) c) out /\ in_flight c' <= Z.max (in_flight c) (eff_window c) /\ state c' = state c.
Proof.
  intros Htx Hsb. unfold send_on. pose proof (tx_flight_seq _ _ _ _ _ Htx) as Hfl.
  pose proof (eff_window_bound c (tx_window _ _ _ _ _ Htx)) as Hw. pose proof (tx_order _ _ _ _ _ Htx) as Ho.
  assert (tx_ok (sent ++ data) s a (length sent + 0) c) as Htx'.
  { rewrite Nat.add_0_r. destruct Htx as [H1 H2 H3 H4 H5 H6 H7]. split; try done.
    - by apply rt_chain_app_stream.
    - rewrite length_app. lia. }
  assert (Z.of_nat (can_send c) = Z.max 0 (eff_window c - in_flight c)) as Hcan.
  { unfold can_send. destruct (Z.ltb_spec (in_flight c) (eff_window c)); lia. }
  pose proof (tx_flight _ _ _ _ _ Htx) as Hf6.
  pose proof (send_loop_spec (length data) now (can_send c) 0 data sent s a c Htx' ltac:(lia) ltac:(lia)) as H.
  destruct (send_loop _ _ _ _ _ _) as [[off' out] c1]. destruct H as (G1 & G2 & G3 & G4).
  rewrite Nat.max_0_l in G2.
  assert (drop (length sent + off') (sent ++ data) = drop off' data) as Hd.
  { by rewrite <- drop_drop, drop_app_length. }
  exists (length sent + off')%nat. rewrite Hd.
  pose proof (tx_flight_seq _ _ _ _ _ G1) as Hfl1. unfold same_peer in G4. destruct_and! G4.
  assert (send_buffer c1 = []) as Hsb1 by congruence.
  destruct (Nat.ltb_spec off' (length data)) as [Hlt|Hge].
  - split_and!; [destruct G1; by split|cbn; by rewrite Hsb1|done|change (in_flight (set_send_buffer ?x c1)) with (in_flight c1); lia|done].
  - split_and!; [done| |done|lia|done]. rewrite drop_ge by lia. congruence.
Qed.

(** *** The timer *)

Lemma tick_retransmit_spec sent s a m now c :
  tx_ok sent s a m c -> fst (fst (tick_retransmit now c)) = false ->
  let '(_, out, c') := tick_retransmit now c in
  tx_ok sent s a m c' /\ Forall (carries sent c) out /\ send_buffer c' = send_buffer c /\
  state c' = state c /\ close_pending c' = close_pending c /\
  (forall o, carries sent c' o -> carries sent c o) /\
  (retransmit_queue c = [] -> c' = c).
Proof.
  intros [H1 H2 H3 H4 H5 H6 H7] Hab. unfold tick_retransmit in *.
  destruct (retransmit_queue c) as [|e q] eqn:Eq.
  { rewrite <- Eq in *. split_and!; done. }
  destruct (_ <=? _); [destruct (_ <=? _); [done|]|].
  - destruct H3 as (G1 & G2 & G3 & G4 & G5 & G6). split_and!; try done.
    constructor; [|constructor]. exists s, (length (rt_data e)). split_and!; [lia|done|].
    unfold conn_segment. cbn. by rewrite G1, <- G5.
  - split_and!; try done; split; try done; by rewrite Eq.
Qed.

Lemma tick_send_spec sent s a m now c :
  tx_ok sent s a m c -> send_buffer c = drop m sent ->
  let '(_, out, c') := tick_send now c in
  exists m', tx_ok sent s a m' c' /\ send_buffer c' = drop m' sent /\ Forall (carries sent c) out /\
    state c' = state c /\ close_pending c' = close_pending c /\ (m <= m')%nat /\
    (retransmit_queue c = [] -> send_buffer c <> [] -> 0 < cwnd c -> (m < m')%nat).
Proof.
  intros Htx Hsb. unfold tick_send. pose proof (tx_flight_seq _ _ _ _ _ Htx) as Hfl.
  pose proof (eff_window_bound c (tx_window _ _ _ _ _ Htx)) as Hw.
  pose proof (tx_order _ _ _ _ _ Htx) as Ho. pose proof (tx_flight _ _ _ _ _ Htx) as Hf6.
  destruct (send_buffer c) as [|x xs] eqn:Eb.
  { exists m. rewrite Eb. split_and!; try done; constructor. }
  rewrite <- Eb in *. assert (length (send_buffer c) = length sent - m)%nat as Hlen by (by rewrite Hsb, length_drop).
  assert (0 < length (send_buffer c))%nat by (rewrite Eb; simpl; lia).
  destruct (Z.ltb_spec (in_flight c) (eff_window c)) as [Hopen|Hshut].
  2:{ exists m. split_and!; try done. intros Hq _ Hc.
      destruct Htx as [_ _ G3 G4 _ _ G7]. rewrite Hq in G3, G4. cbn in G3, G4. unfold eff_window, MSS in *. lia. }
  set (n := Nat.min _ _). assert (0 < n <= length (send_buffer c))%nat as Hn.
  { subst n. unfold can_send. rewrite (proj2 (Z.ltb_lt _ _)) by done. unfold MSS. lia. }
  assert (Z.of_nat n <= eff_window c - in_flight c) as Hnw.
  { subst n. unfold can_send. rewrite (proj2 (Z.ltb_lt _ _)) by done. lia. }
  assert (Z.of_nat n <= MSS) as Hnm by (subst n; unfold MSS; lia). clearbody n.
  assert (tx_ok sent s a m (set_send_buffer (drop n (send_buffer c)) c)) as Htx' by (destruct Htx; by split).
  replace (take n (send_buffer c)) with (part sent m n) by (unfold part; by rewrite Hsb).
  pose proof (transmit_spec sent s a m now n _ Htx' ltac:(lia) Hnm ltac:(lia) ltac:(lia)) as Ht.
  destruct (transmit now _ _) as [o c1] eqn:E1. destruct Ht as (G1 & G2 & G3).
  unfold same_peer in G3. destruct_and! G3.
  exists (m + n)%nat. split_and!; try done; try lia.
  - transitivity (drop n (send_buffer c)); [done|]. by rewrite Hsb, drop_drop.
  - constructor; [|constructor]. exact G2.
Qed.

Lemma tick_one_spec sent s a m now c :
  tx_ok sent s a m c -> send_buffer c = drop m sent -> state c = Established -> close_pending c = false ->
  let t := tick_one now c in tick_aborted t = false ->
  exists m', tx_ok sent s a m' (tick_conn t) /\ send_buffer (tick_conn t) = drop m' sent /\
    state (tick_conn t) = Established /\ close_pending (tick_conn t) = false /\
    Forall (carries sent c) (tick_out t) /\ (m <= m')%nat /\
    (retransmit_queue c = [] -> send_buffer c <> [] -> 0 < cwnd c -> (m < m')%nat).
Proof.
  intros Htx Hsb Hst Hcp t. subst t. unfold tick_one, is_state. rewrite Hst. cbn [timed_state negb].
  rewrite bool_decide_eq_false_2 by done.
  pose proof (tick_retransmit_spec sent s a m now c Htx) as H1.
  destruct (tick_retransmit now c) as [[ab out1] c1]. cbn [fst] in H1.
  pose proof (fun Htx1 Hsb1 => tick_send_spec sent s a m now c1 Htx1 Hsb1) as H2.
  destruct (tick_send now c1) as [[edge out2] c2].
  destruct (tick_close c2) as [out3 c3] eqn:E3. cbn [tick_aborted tick_conn tick_out]. intros ->.
  destruct (H1 eq_refl) as (G1 & G2 & G3 & G4 & G5 & G6 & G7).
  destruct H2 as (m' & J1 & J2 & J3 & J4 & J5 & J6 & J7); [done|congruence|].
  assert (out3 = [] /\ c3 = c2) as [-> ->].
  { unfold tick_close in E3. rewrite J5, G5, Hcp in E3. destruct (send_buffer c2); by injection E3 as <- <-. }
  exists m'. rewrite app_nil_r. split_and!; try done; [congruence|congruence| |].
  - apply list.Forall_app. split; [done|]. eapply list.Forall_impl; [exact J3|]. exact G6.
  - intros Hq Hne Hc. rewrite (G7 Hq) in J7. by apply J7.
Qed.

(* ------------------------------------------------------------------ *)
(** ** An established connection over time *)

(** A send does not overtake older bytes: none wait, or the window is shut. *)
Definition in_turn (c : TcpConnection) : Prop := send_buffer c = [] \/ can_send c = 0%nat.

Lemma send_shut now data c :
  can_send c = 0%nat ->
  send_on now data c = ([], match data with [] => c | _ => set_send_buffer (send_buffer c ++ data) c end).
Proof. intros E. unfold send_on. rewrite E. by destruct data. Qed.

(** A send in turn keeps the stream in order, and what it puts out carries
    it. *)
Lemma send_in_turn sent s a m now data c :
  tx_ok sent s a m c -> send_buffer c = drop m sent -> in_turn c ->
  let '(out, c') := send_on now data c in
  exists m', tx_ok (sent ++ data) s a m' c' /\ send_buffer c' = drop m' (sent ++ data) /\
    Forall (carries (sent ++ data) c) out /\ in_flight c' <= Z.max (in_flight c) (eff_window c) /\ state c' = state c.
Proof.
  intros Htx Hsb [Hb|Hcan]; pose proof (tx_order _ _ _ _ _ Htx) as Ho.
  - assert (m = length sent) as ->.
    { rewrite Hb in Hsb. apply (f_equal length) in Hsb. rewrite length_drop in Hsb. simpl in Hsb. lia. }
    by apply (send_on_spec sent s a).
  - rewrite send_shut by done. exists m. destruct Htx as [H1 H2 H3 H4 H5 H6 H7].
    assert (tx_ok (sent ++ data) s a m c) as Htx'.
    { split; try done; [by apply rt_chain_app_stream; [lia|]|rewrite length_app; lia]. }
    destruct data as [|b data]; [rewrite app_nil_r in *; split_and!; try done; lia|].
    split_and!; [by destruct Htx'; split|cbn [set_send_buffer send_buffer]|constructor|apply Z.le_max_l|done].
    by rewrite Hsb, drop_app_le by lia.
Qed.

(** [sent] is everything the application has queued so far. Segments of the
    peer arrive and acknowledge some part of what was transmitted, not older
    than a megabyte. *)
Inductive tx_reach : Bytes -> TcpConnection -> Prop :=
| tx_begin c :
    state c = Established -> send_unack c = tq 0 -> send_next c = tq 0 -> retransmit_queue c = [] ->
    send_buffer c = [] -> close_pending c = false -> 0 <= peer_window c <= 65535 -> tx_reach [] c
| tx_send sent c now data :
    tx_reach sent c -> in_turn c -> tx_reach (sent ++ data) (snd (send_on now data c))
| tx_segment sent c now hdr payload offers (b : nat) :
    tx_reach sent c -> has_flag hdr ACK = true -> ack_num hdr = tq (Z.of_nat b) ->
    0 <= window hdr <= 65535 -> (b + length (send_buffer c) <= length sent)%nat ->
    Z.of_nat (length sent - length (send_buffer c) - b) < 2 ^ 20 ->
    state (snd (process_segment now hdr payload offers c)) = Established ->
    tx_reach sent (snd (process_segment now hdr payload offers c))
| tx_tick sent c now :
    tx_reach sent c -> tick_aborted (tick_one now c) = false -> tx_reach sent (tick_conn (tick_one now c)).

Lemma process_segment_close_pending now hdr payload offers c :
  state c = Established -> close_pending (snd (process_segment now hdr payload offers c)) = close_pending c.
Proof.
  intros Hst. unfold process_segment, segment_arrives. change (state (set_peer_window ?w c)) with (state c).
  rewrite Hst. set (c1 := if has_flag hdr ACK then _ else _).
  pose proof (receive_frame hdr payload c1) as Hfr. destruct (receive_segment_data hdr payload c1) as [[fin out] c2].
  cbn [snd] in *. destruct Hfr as (? & ? & ? & ? & ? & ->).
  transitivity (close_pending c1); [by destruct fin|]. subst c1. destruct (has_flag hdr ACK); [|done].
  unfold handle_ack, update_cwnd, drain_retransmit.
  repeat match goal with |- context [if ?b then _ else _] => destruct b end; done.
Qed.

Lemma send_on_close_pending now data c : close_pending (snd (send_on now data c)) = close_pending c.
Proof.
  unfold send_on. assert (forall fuel can off d, close_pending (snd (send_loop fuel now can off data d)) = close_pending d) as H.
  { induction fuel as [|fuel IH]; intros can off d; cbn [send_loop]; [done|]. destruct (_ && _); [|done].
    destruct (transmit now _ d) as [o d1] eqn:E. specialize (IH can). unfold transmit in E. injection E as <- <-.
    match goal with |- context [send_loop fuel now can ?e data ?d1] => specialize (IH e d1);
      destruct (send_loop fuel now can e data d1) as [[? ?] ?] end. exact IH. }
  specialize (H (length data) (can_send c) 0%nat c). destruct (send_loop _ _ _ _ _ _) as [[? ?] ?].
  by destruct (_ <? _)%nat.
Qed.

Lemma tx_reach_ok sent c :
  tx_reach sent c ->
  exists s a m, tx_ok sent s a m c /\ send_buffer c = drop m sent /\ state c = Established /\ close_pending c = false.
Proof.
  induction 1 as [c Hst Hu Hn Hq Hb Hcp Hw|sent c now data Hr IH Hb
    |sent c now hdr payload offers b Hr IH Hack Hnum Hw Hbm Hnear Hst|sent c now Hr IH Hab].
  - exists 0%nat, 0%nat, 0%nat. split_and!; try done. split; try done; by rewrite Hq.
  - destruct IH as (s & a & m & Htx & Hsb & Hst & Hcp).
    pose proof (send_on_close_pending now data c) as Hcp'.
    pose proof (send_in_turn sent s a m now data c Htx Hsb Hb) as Hs. destruct (send_on now data c) as [out c'].
    destruct Hs as (m' & G1 & G2 & _ & _ & G3). exists s, a, m'. cbn [snd] in *. split_and!; try done; congruence.
  - destruct IH as (s & a & m & Htx & Hsb & Hst0 & Hcp).
    assert (length (send_buffer c) = length sent - m)%nat as Hl by (by rewrite Hsb, length_drop).
    pose proof (tx_order _ _ _ _ _ Htx).
    destruct (process_segment_tx sent s a m now hdr payload offers c b) as (s' & G1 & G2); try done; try lia.
    exists s', (Nat.max a b), m. split_and!; try done; [congruence|].
    by rewrite process_segment_close_pending.
  - destruct IH as (s & a & m & Htx & Hsb & Hst & Hcp).
    destruct (tick_one_spec sent s a m now c Htx Hsb Hst Hcp Hab) as (m' & G1 & G2 & G3 & G4 & _).
    by exists s, a, m'.
Qed.

(** C34: Nothing unacknowledged is lost. On an established connection whose
    sends never overtook waiting bytes (each was made with the send buffer
    empty or the window shut; see send_overtakes_buffer for the others), whose
    peer acknowledges only what was sent, at most a megabyte behind, and which
    the timer has not given up: of everything the application has queued, the
    pieces in the retransmit queue followed by the send buffer are exactly the
    part from some position at or below the first unacknowledged byte; the
    next sequence number is that of the first byte still in the send buffer;
    and what is in flight never exceeds the largest window a header can
    announce. *)
Theorem tcp_unacked_retained (sent : Bytes) (c : TcpConnection) :
  tx_reach sent c ->
  exists s a : nat, (s <= a <= length sent)%nat /\ send_unack c = tq (Z.of_nat a) /\
    concat (map rt_data (retransmit_queue c)) ++ send_buffer c = drop s sent /\
    send_next c = tq (Z.of_nat (length sent - length (send_buffer c))) /\ 0 <= in_flight c <= 65535.
Proof.
  intros Hr. destruct (tx_reach_ok sent c Hr) as (s & a & m & Htx & Hsb & _).
  destruct (tx_span _ _ _ _ _ Htx) as [Hsa _]. rewrite (tx_flight_seq _ _ _ _ _ Htx), Hsb, length_drop.
  destruct Htx as [H1 H2 H3 H4 H5 H6 H7]. exists s, a. split_and!; try done; try lia.
  - by apply rt_chain_bytes.
  - rewrite H2. do 2 f_equal. lia.
Qed.

(** What goes out is the stream. From any state of an established
    connection, the segments of a send and those of a timer tick each carry
    the application's bytes at the position their sequence number stands for;
    a send keeps what is in flight within the window; and a tick with nothing
    in flight and an open congestion window moves waiting bytes out. *)
Theorem tcp_transmits_stream (sent : Bytes) (c : TcpConnection) :
  tx_reach sent c ->
  (forall now data, in_turn c ->
     let '(out, c') := send_on now data c in
     Forall (carries (sent ++ data) c) out /\ in_flight c' <= Z.max (in_flight c) (eff_window c)) /\
  (forall now, tick_aborted (tick_one now c) = false ->
     Forall (carries sent c) (tick_out (tick_one now c)) /\
     (retransmit_queue c = [] -> send_buffer c <> [] -> 0 < cwnd c ->
      (length (send_buffer (tick_conn (tick_one now c))) < length (send_buffer c))%nat)).
Proof.
  intros Hr. destruct (tx_reach_ok sent c Hr) as (s & a & m & Htx & Hsb & Hst & Hcp).
  pose proof (tx_order _ _ _ _ _ Htx) as Ho. split.
  - intros now data Hb.
    pose proof (send_in_turn sent s a m now data c Htx Hsb Hb) as Hs. destruct (send_on now data c) as [out c'].
    by destruct Hs as (m' & _ & _ & G1 & G2 & _).
  - intros now Hab.
    destruct (tick_one_spec sent s a m now c Htx Hsb Hst Hcp Hab) as (m' & G1 & G2 & _ & _ & G3 & G4 & G5).
    split; [done|]. intros Hq Hne Hc. specialize (G5 Hq Hne Hc). pose proof (tx_order _ _ _ _ _ G1).
    rewrite G2, Hsb, !length_drop. lia.
Qed.

(** The bytes of a list as a stream. *)
Definition stream_of (sent : Bytes) (i : Z) : Z := sent !!! Z.to_nat i.

Lemma slice_stream_of sent p len :
  (p + len <= length sent)%nat -> slice (stream_of sent) (Z.of_nat p) (Z.of_nat p + Z.of_nat len) = part sent p len.
Proof.
  intros H. apply list_eq. intros i. unfold slice, part, stream_of. rewrite list_lookup_fmap.
  replace (Z.of_nat p + Z.of_nat len - Z.of_nat p) with (Z.of_nat len) by lia.
  destruct (decide (i < len)%nat) as [Hi|Hi].
  - rewrite lookup_take_lt, lookup_drop by done.
    rewrite (proj2 (lookup_seqZ (Z.of_nat p) (Z.of_nat len) i (Z.of_nat p + Z.of_nat i))) by lia. cbn.
    replace (Z.to_nat (Z.of_nat p + Z.of_nat i)) with (p + i)%nat by lia.
    symmetry. apply list_lookup_lookup_total_lt. lia.
  - rewrite lookup_take_ge by lia. rewrite lookup_seqZ_ge by lia. done.
Qed.

(** The network-layer fields of a connection are machine values. *)
Record addr_ok (c : TcpConnection) : Prop := {
  ad_lport : in_word 16 (local_port c);
  ad_rport : in_word 16 (remote_port c);
  ad_recv : in_word 32 (recv_next c);
  ad_lip : ip_ok (local_ip c);
  ad_rip : ip_ok (remote_ip c) }.

Lemma carried_arrives (sent : Bytes) (c : TcpConnection) (o : OutSeg) (n : Z) :
  carries sent c o -> Forall is_byte sent -> addr_ok c ->
  0 <= n <= Z.of_nat (length sent) -> Z.of_nat (length sent) <= SPAN ->
  out_ip o = remote_ip c /\
  exists hdr p, parse (out_seg o) = Some hdr /\ src_port hdr = local_port c /\ dst_port hdr = remote_port c /\
    arrival (stream_of sent) (Z.of_nat (length sent)) isn n hdr (drop (header_len hdr) (out_seg o)) p /\
    checksum (pseudo_header (local_ip c) (remote_ip c) (length (out_seg o)) ++ out_seg o) = 0.
Proof.
  intros (p & len & Hp & Hl & ->) Hby [Hlp Hrp Hrn Hli Hri] Hn Hs. split; [done|].
  unfold conn_segment, build_segment. cbn [out_seg].
  assert (Forall is_byte (part sent p len)) as Hpb by (unfold part; by apply Forall_take, Forall_drop).
  destruct (segment_fields (local_port c) (remote_port c) (tq (Z.of_nat p)) (recv_next c) (PSH .| ACK)
    (local_ip c) (remote_ip c) [] (part sent p len)) as (hdr & G1 & G2 & G3 & G4 & G5 & G6 & G7 & G8 & G9 & G10); try done.
  - assert (in_word 32 (tq (Z.of_nat p))) by (unfold tq; apply wrap_range; lia).
    assert (0 <= PSH .| ACK < 64) by (vm_compute; split; congruence).
    repeat split; try done; unfold in_word in *; try lia.
  - simpl. lia.
  - simpl length. rewrite part_length by done. unfold MSS in Hl. lia.
  - exists hdr, (Z.of_nat p). split_and!; try done. rewrite G9. unfold SPAN in *.
    split; try done; rewrite ?part_length by done; unfold SPAN, MSS in *; try lia.
    + by rewrite slice_stream_of.
    + unfold has_flag. rewrite G6. done.
Qed.

(** The segments a connection puts out, with what has been queued by then. *)
Inductive emits (sent : Bytes) (c : TcpConnection) : Bytes -> OutSeg -> Prop :=
| emit_send now data o :
    in_turn c -> o ∈ fst (send_on now data c) -> emits sent c (sent ++ data) o
| emit_tick now o :
    tick_aborted (tick_one now c) = false -> o ∈ tick_out (tick_one now c) -> emits sent c sent o.

(** C22: Sender, wire and receiver fit together. On an established connection
    whose sends never overtook waiting bytes (each was made with the send
    buffer empty or the window shut; see send_overtakes_buffer for the
    others), whose peer acknowledges only what was sent, at most a megabyte
    behind, and which the timer has not given up: every segment put out by
    such a send, or by a timer tick that does not give the connection up, is
    addressed to the peer, has a zero checksum over its pseudo-header, and
    parses there to a header and a text that are a segment of the sender's
    stream in exactly the sense in which the receive path is shown to
    reassemble it, for a stream of bytes no longer than 2^28 and addresses and
    ports in range. *)
Theorem tcp_end_to_end (sent sent' : Bytes) (c : TcpConnection) (o : OutSeg) (n : Z) :
  tx_reach sent c -> emits sent c sent' o -> Forall is_byte sent' -> addr_ok c ->
  0 <= n <= Z.of_nat (length sent') -> Z.of_nat (length sent') <= SPAN ->
  out_ip o = remote_ip c /\
  exists hdr p, parse (out_seg o) = Some hdr /\ src_port hdr = local_port c /\ dst_port hdr = remote_port c /\
    arrival (stream_of sent') (Z.of_nat (length sent')) isn n hdr (drop (header_len hdr) (out_seg o)) p /\
    checksum (pseudo_header (local_ip c) (remote_ip c) (length (out_seg o)) ++ out_seg o) = 0.
Proof.
  intros Hr He Hby Had Hn Hs. apply carried_arrives; try done.
  destruct (tcp_transmits_stream sent c Hr) as [Hsend Htick].
  destruct He as [now data o Hb Ho|now o Hab Ho].
  - specialize (Hsend now data Hb). destruct (send_on now data c) as [out c'].
    by apply (proj1 (list.Forall_forall _ _) (proj1 Hsend)).
  - by apply (proj1 (list.Forall_forall _ _) (proj1 (Htick now Hab))).
Qed.
End send.

(* ------------------------------------------------------------------ *)
(** ** Examples *)

(** Seven bytes queued with a congestion window of one segment's worth of
    four: four go out, three wait. *)
Definition demo_out : TcpConnection :=
  set_cwnd 4 (new_connection [10; 0; 2; 15] 80 [10; 0; 2; 2] 5000 Established (sq demo_isn 0) (sq demo_isn 0) 7 65535 true).
Definition demo_sent : TcpConnection := snd (send_on 1 [1; 2; 3; 4; 5; 6; 7] demo_out).

Lemma demo_sent_reach : tx_reach demo_isn [1; 2; 3; 4; 5; 6; 7] demo_sent.
Proof. apply (tx_send demo_isn [] demo_out); [|by left]. by apply tx_begin. Qed.

(** The window is shut: two more bytes wait behind the three. *)
Lemma tcp_unacked_retained_witness :
  let c := snd (send_on 2 [8; 9] demo_sent) in
  send_buffer c = [5; 6; 7; 8; 9] /\
  exists s a : nat, (s <= a)%nat /\
    concat (map rt_data (retransmit_queue c)) ++ send_buffer c = drop s [1; 2; 3; 4; 5; 6; 7; 8; 9].
Proof.
  intros c. split; [vm_compute; reflexivity|].
  destruct (tcp_unacked_retained demo_isn ([1; 2; 3; 4; 5; 6; 7] ++ [8; 9]) c) as (s & a & H1 & _ & H2 & _).
  - apply (tx_send demo_isn [1; 2; 3; 4; 5; 6; 7] demo_sent); [apply demo_sent_reach|right; vm_compute; reflexivity].
  - exists s, a. split; [lia|exact H2].
Defined.

Lemma tcp_end_to_end_witness :
  exists o hdr, o ∈ fst (send_on 1 [1; 2; 3; 4; 5; 6; 7] demo_out) /\ parse (out_seg o) = Some hdr /\
    drop (header_len hdr) (out_seg o) = [1; 2; 3; 4].
Proof.
  assert (tx_reach demo_isn [] demo_out) as Hr by (by apply tx_begin).
  set (o := conn_segment demo_out (sq demo_isn 0) 7 (PSH .| ACK) [1; 2; 3; 4]).
  assert (o ∈ fst (send_on 1 [1; 2; 3; 4; 5; 6; 7] demo_out)) as Ho by (vm_compute; by left).
  assert (Forall is_byte ([] ++ [1; 2; 3; 4; 5; 6; 7])) as Hby
    by (repeat constructor; vm_compute; congruence).
  assert (addr_ok demo_out) as Had by (split; vm_compute; repeat split; try (repeat constructor); congruence).
  destruct (tcp_end_to_end demo_isn [] ([] ++ [1; 2; 3; 4; 5; 6; 7]) demo_out o 0 Hr
    (emit_send [] demo_out 1 [1; 2; 3; 4; 5; 6; 7] o (or_introl eq_refl) Ho) Hby Had) as (_ & hdr & p & Hp & _); [simpl; lia|simpl; unfold SPAN; lia|].
  exists o, hdr. split; [done|]. split; [done|].
  revert Hp. vm_compute. intros [= <-]. reflexivity.
Defined.

(** With bytes 5 to 7 waiting in the send buffer and the window open again, a
    send of the byte 8 puts it on the wire at once, at the position of
    byte 5. *)
Lemma send_overtakes_buffer :
  let c := handle_ack (sq demo_isn 4) demo_sent in
  let '(out, c') := send_on 2 [8] c in
  send_buffer c = [5; 6; 7] /\ out = [conn_segment c (sq demo_isn 4) 7 (PSH .| ACK) [8]] /\
  send_buffer c' = [5; 6; 7].
Proof. vm_compute. done. Qed.

(** In CLOSE-WAIT acknowledgements are ignored: the retransmit queue and the
    first unacknowledged number stay, whatever arrives. *)
Lemma close_wait_ignores_acks now hdr payload offers c :
  state c = CloseWait ->
  let c' := snd (process_segment now hdr payload offers c) in
  send_unack c' = send_unack c /\ retransmit_queue c' = retransmit_queue c.
Proof.
  intros Hst. unfold process_segment, segment_arrives. change (state (set_peer_window ?w c)) with (state c).
  by rewrite Hst.
Qed.

(** Any acknowledgement, one of no sent byte included, moves FIN-WAIT-1 on to
    FIN-WAIT-2, where the timer sends nothing again. *)
Lemma fin_wait_2_stops_retransmission :
  let hdr := mkTcpHeader 5000 80 (sq demo_isn 0) (sq demo_isn 0) 5 ACK 65535 0 in
  let c := set_state FinWait1 (set_recv_next (sq demo_isn 0) (set_send_buffer [] demo_sent)) in
  let c' := snd (process_segment 3 hdr [] false c) in
  state c' = FinWait2 /\ concat (map rt_data (retransmit_queue c')) = [1; 2; 3; 4] /\
  forall now, tick_one now c' = mkTick c' [] false false.
Proof. split_and!; [vm_compute; reflexivity..|]. intros now. reflexivity. Qed.

(** In LAST-ACK any acknowledgement closes the connection and drops what is
    not acknowledged. *)
Lemma last_ack_drops_unacked now hdr payload offers c :
  state c = LastAck -> has_flag hdr ACK = true ->
  let c' := snd (process_segment now hdr payload offers c) in
  state c' = Closed /\ retransmit_queue c' = [].
Proof.
  intros Hst Hack. unfold process_segment, segment_arrives. change (state (set_peer_window ?w c)) with (state c).
  rewrite Hst, Hack. cbn [snd]. split; [|done]. apply mark_closed_state.
Qed.

(** A connection given up by the timer while its close waits for the last
    bytes comes back to life in FIN-WAIT-1. *)
Lemma aborted_close_comes_back :
  let e := mkRetransmit (sq demo_isn 0) [1] 0 200 5 in
  let c := set_close_pending true (set_send_buffer [2] (set_retransmit_queue [e] (set_cwnd 1460 demo_out))) in
  let t := tick_one 300 c in
  tick_aborted t = true /\ state (tick_conn t) = FinWait1 /\ closed_tick (tick_conn t) = 300.
Proof. vm_compute. done. Qed.
