(* ===== verification/TcpTable.v ===== *)
(** * The TCP connection table (kernel/src/net/tcp.rs)

    Every operation on the table, taken together: which states a connection
    may go through, how many entries the table holds, that a port has one
    listener, that closed entries are collected, and that [accept] hands each
    child of a listener out once. The operations are those of [Tcp]. *)

From S2P Require Import Prelude.
From S2P Require Import WaitList.
From S2P Require Import TcpWire.
From S2P Require Import Tcp.
From S2P Require Import TcpReceive.
From S2P Require Import TcpSend.

(* ------------------------------------------------------------------ *)
(** ** What a connection may become *)

(** The diagram of the protocol, an abort from any state, and one edge the
    diagram does not have: a timer tick that gives a connection up while its
    close waits for the last bytes of the send buffer sends the FIN all the
    same. *)
Inductive legal : TcpState -> TcpState -> Prop :=
| legal_stay st : legal st st
| legal_abort st : legal st Closed
| legal_syn_sent : legal SynSent Established
| legal_syn_received : legal SynReceived Established
| legal_peer_fin : legal Established CloseWait
| legal_our_fin : legal Established FinWait1
| legal_fin_acked : legal FinWait1 FinWait2
| legal_fin_both : legal FinWait1 TimeWait
| legal_fin_wait_2 : legal FinWait2 TimeWait
| legal_close_wait : legal CloseWait LastAck
| legal_given_up : legal CloseWait FinWait1.

(** A closed entry carries the tick it was closed at, so that it can be
    collected; and a close waits only on an open connection that has bytes to
    send. *)
Record conn_ok (c : TcpConnection) : Prop := {
  ok_closed : state c = Closed -> 1 <= closed_tick c;
  ok_pending : close_pending c = true ->
    (state c = Established \/ state c = CloseWait \/ state c = Closed) /\ send_buffer c <> [] }.

Definition same_address (c c' : TcpConnection) : Prop :=
  local_ip c' = local_ip c /\ local_port c' = local_port c /\
  remote_ip c' = remote_ip c /\ remote_port c' = remote_port c.

Definition moves (c c' : TcpConnection) : Prop :=
  conn_ok c -> same_address c c' /\ legal (state c) (state c') /\ conn_ok c'.

(** The fields [moves] speaks of, but for the send buffer, and their staying
    the same while the send buffer does not run empty. *)
Definition core (c : TcpConnection) :=
  (local_ip c, local_port c, remote_ip c, remote_port c, state c, closed_tick c, close_pending c).
Definition keeps (c c' : TcpConnection) : Prop :=
  core c' = core c /\ (send_buffer c <> [] -> send_buffer c' <> []).

Ltac core_eqs H :=
  unfold core in H; injection H as ? ? ? ? ?Est ?Etick ?Epend.

Lemma keeps_trans c c1 c' : keeps c c1 -> keeps c1 c' -> keeps c c'.
Proof. intros [E1 H1] [E2 H2]. split; [congruence|auto]. Qed.

Lemma keeps_moves c c' : keeps c c' -> moves c c'.
Proof.
  intros [E Hb] [H1 H2]. core_eqs E. split; [done|]. rewrite Est. split; [constructor|].
  split; rewrite Est; [by rewrite Etick|]. rewrite Epend. intros Hp. destruct (H2 Hp). auto.
Qed.

Lemma moves_keeps c c1 c' : keeps c c1 -> moves c1 c' -> moves c c'.
Proof.
  intros Hk Hm Hok. destruct (keeps_moves c c1 Hk Hok) as (Ha & _ & Hok1).
  destruct (Hm Hok1) as (Ha' & Hl & Hok'). destruct Hk as [E _]. core_eqs E.
  split_and!; [|by rewrite <- Est|done]. unfold same_address in *. destruct_and!. split_and!; congruence.
Qed.

Lemma rx_frame_keeps c c' : rx_frame c c' -> keeps c c'.
Proof. by intros (? & ? & ? & ? & ? & ->). Qed.

Lemma mark_closed_core now c :
  core (mark_closed now c) =
  (local_ip c, local_port c, remote_ip c, remote_port c, Closed, Z.max now 1, close_pending c).
Proof. unfold mark_closed. by destruct (ooo_queue _). Qed.

Lemma mark_closed_send_buffer now c : send_buffer (mark_closed now c) = send_buffer c.
Proof. unfold mark_closed. by destruct (ooo_queue _). Qed.

(** Closing, with or without dropping the retransmit queue. *)
Lemma closed_moves now c c' : keeps (mark_closed now c) c' -> moves c c'.
Proof.
  intros [E Hb] [H1 H2]. rewrite mark_closed_core in E. rewrite mark_closed_send_buffer in Hb. core_eqs E.
  split; [done|]. rewrite Est. split; [constructor|]. split; rewrite Est; [rewrite Etick; lia|].
  rewrite Epend. intros Hp. destruct (H2 Hp). auto.
Qed.

Lemma handle_ack_keeps ack c : keeps c (handle_ack ack c).
Proof.
  unfold handle_ack, update_cwnd, drain_retransmit.
  repeat match goal with |- context [if ?b then _ else _] => destruct b end; done.
Qed.

(** An entry into an open state other than the present one. *)
Lemma enter_moves st c c' :
  keeps (set_state st c) c' -> legal (state c) st -> st <> Closed ->
  (close_pending c = true -> state c = Established \/ state c = CloseWait -> st = Established \/ st = CloseWait) ->
  state c <> Closed -> moves c c'.
Proof.
  intros [E Hb] Hl Hst Hp Hc [H1 H2]. core_eqs E. cbn in *. split; [done|]. rewrite Est. split; [done|].
  split; rewrite Est; [done|]. rewrite Epend. intros Hcp. destruct (H2 Hcp) as [[|[|]] ?]; split; try tauto.
Qed.

Lemma segment_arrives_moves now hdr payload offers c : moves c (snd (segment_arrives now hdr payload offers c)).
Proof.
  assert (forall c1, keeps c c1 -> let '(fin, out, c2) := receive_segment_data hdr payload c1 in keeps c c2) as Hrx.
  { intros c1 E. pose proof (receive_frame hdr payload c1) as Hf.
    destruct (receive_segment_data hdr payload c1) as [[fin out] c2]. cbn [snd] in Hf.
    apply (keeps_trans c c1); [done|]. by apply rx_frame_keeps. }
  assert (keeps c (if has_flag hdr ACK then handle_ack (ack_num hdr) c else c)) as Hack.
  { destruct (has_flag hdr ACK); [apply handle_ack_keeps|done]. }
  unfold segment_arrives. destruct (state c) eqn:Hst; try by apply keeps_moves.
  - destruct (_ =? _); [|by apply keeps_moves]. apply (enter_moves Established); rewrite ?Hst; try done; [constructor|tauto].
  - destruct (has_flag hdr ACK); [|by apply keeps_moves].
    apply (enter_moves Established); rewrite ?Hst; try done; [constructor|tauto].
  - specialize (Hrx _ Hack). destruct (receive_segment_data _ _ _) as [[[] out] c2]; cbn [snd]; [|by apply keeps_moves].
    apply (moves_keeps c c2); [done|]. destruct Hrx as [E _]. core_eqs E.
    apply (enter_moves CloseWait); rewrite ?Est, ?Hst; try done; [constructor|tauto].
  - specialize (Hrx _ Hack). destruct (receive_segment_data _ _ _) as [[fin out] c2]. cbn [snd].
    apply (moves_keeps c c2); [done|]. destruct Hrx as [E _]. core_eqs E. rewrite Hst in Est.
    destruct fin; [|destruct (has_flag hdr ACK); [|by apply keeps_moves]].
    + apply (enter_moves TimeWait); rewrite ?Est; try done; [constructor|intros _ []; done].
    + apply (enter_moves FinWait2); rewrite ?Est; try done; [constructor|intros _ []; done].
  - specialize (Hrx c). destruct (receive_segment_data _ _ _) as [[[] out] c2]; cbn [snd]; [|by apply keeps_moves, Hrx].
    apply (moves_keeps c c2); [by apply Hrx|]. destruct Hrx as [E _]; [done|]. core_eqs E. rewrite Hst in Est.
    apply (enter_moves TimeWait); rewrite ?Est; try done; [constructor|intros _ []; done].
  - cbn [snd]. destruct (has_flag hdr ACK); [by apply (closed_moves now)|by apply keeps_moves].
Qed.

Lemma process_segment_moves now hdr payload offers c : moves c (snd (process_segment now hdr payload offers c)).
Proof.
  unfold process_segment. apply (moves_keeps c (set_peer_window (window hdr) c)); [done|].
  pose proof (segment_arrives_moves now hdr payload offers (set_peer_window (window hdr) c)) as H.
  by destruct (segment_arrives _ _ _ _ _) as [out c1].
Qed.

Lemma send_on_keeps now data c : keeps c (snd (send_on now data c)).
Proof.
  assert (forall fuel can off d, keeps d (snd (send_loop fuel now can off data d))) as H.
  { induction fuel as [|fuel IH]; intros can off d; cbn [send_loop]; [done|]. destruct (_ && _); [|done].
    cbn [transmit]. match goal with |- context [send_loop fuel now can ?e data ?d] => pose proof (IH can e d) as Hi;
      destruct (send_loop fuel now can e data d) as [[? ?] ?] end. done. }
  unfold send_on. specialize (H (length data) (can_send c) 0%nat c).
  destruct (send_loop _ _ _ _ _ _) as [[off out] d]. cbn [snd] in *. destruct (off <? length data)%nat; [|done].
  apply (keeps_trans c d); [done|]. split; [done|]. intros Hb. cbn. by destruct (send_buffer d).
Qed.

Lemma tick_send_core now c : core (snd (tick_send now c)) = core c.
Proof. unfold tick_send. destruct (send_buffer c); [done|]. by destruct (_ <? _). Qed.

Lemma tick_retransmit_core now c :
  let '(aborted, out, c') := tick_retransmit now c in
  core c' = core (if aborted then mark_closed now c else c).
Proof.
  unfold tick_retransmit. destruct (retransmit_queue c) as [|e q]; [done|].
  destruct (_ <=? _); [|done]. by destruct (_ <=? _).
Qed.

(** The FIN of a waiting close, after a tick that may have given up and may
    have emptied the send buffer. *)
Lemma tick_close_moves (aborted : bool) now c c1 :
  state c <> Closed -> core c1 = core (if aborted then mark_closed now c else c) -> moves c (snd (tick_close c1)).
Proof.
  intros Hnc E Hok.
  assert (close_pending c1 = close_pending c /\ same_address c c1 /\
    ((state c1 = Closed /\ 1 <= closed_tick c1) \/ state c1 = state c)) as (Hc & Ha & Hs).
  { destruct aborted; [rewrite mark_closed_core in E|]; core_eqs E; (split_and!; [done|done|]); [left|by right].
    split; [done|lia]. }
  assert (legal (state c) (state c1) /\ (state c1 = Closed -> 1 <= closed_tick c1)) as [Hl Ht].
  { destruct Hs as [[-> ?]| ->]; split; try constructor; done. }
  unfold tick_close. destruct (send_buffer c1) as [|b buf] eqn:Hb.
  - destruct (close_pending c1) eqn:Hcp; [|cbn [snd]; split_and!; try done; split; [done|by rewrite Hcp]].
    split; [done|]. cbn [snd]. unfold is_state. cbn [state set_close_pending set_state].
    destruct (ok_pending c Hok (eq_sym Hc)) as [[Hst|[Hst|Hst]] _]; [| |done]; destruct Hs as [[Hs _]|Hs]; rewrite Hs, ?Hst;
      case_bool_decide; try done; (split; [constructor|split; cbn; done]).
  - cbn [snd]. split_and!; try done. split; [done|]. intros Hcp. rewrite Hb. split; [|done].
    destruct (ok_pending c Hok) as [Hst _]; [congruence|]. destruct Hs as [[-> _]| ->]; tauto.
Qed.

Lemma tick_one_moves now c : moves c (tick_conn (tick_one now c)).
Proof.
  unfold tick_one. destruct (is_state TimeWait c).
  { cbn [tick_conn]. destruct (_ <=? _); [by apply (closed_moves now)|by apply keeps_moves]. }
  destruct (timed_state (state c)) eqn:Ht; [|by apply keeps_moves]. cbn [negb].
  pose proof (tick_retransmit_core now c) as H1. destruct (tick_retransmit now c) as [[aborted out1] c1].
  pose proof (tick_send_core now c1) as H2. destruct (tick_send now c1) as [[edge out2] c2]. cbn [snd] in H2.
  pose proof (tick_close_moves aborted now c c2) as H3. destruct (tick_close c2) as [out3 c3]. cbn [snd tick_conn] in *.
  apply H3; [by intros Hc; rewrite Hc in Ht|congruence].
Qed.

Lemma request_close_moves c : readable_state c = true -> moves c (snd (request_close c)).
Proof.
  unfold readable_state, is_state. intros Hr%orb_true_iff Hok. rewrite !bool_decide_eq_true in Hr. unfold request_close.
  destruct (send_buffer c) as [|b buf] eqn:Hb; cbn [snd]; (split; [done|]).
  - assert (close_pending c = false) as Hp.
    { destruct (close_pending c) eqn:Hp; [|done]. by destruct (ok_pending c Hok Hp). }
    unfold is_state. destruct Hr as [Hst|Hst]; rewrite Hst; case_bool_decide; try done;
      (split; [constructor|split; cbn; by rewrite ?Hp]).
  - split; [constructor|]. split; cbn; [apply ok_closed, Hok|]. rewrite Hb. intros _. split; [tauto|done].
Qed.

(* ------------------------------------------------------------------ *)
(** ** What a table may become *)

(** Connections move and may be dropped; none is added. *)
Definition evolves (l l' : list TcpConnection) : Prop :=
  exists l1, Forall2 moves l l1 /\ l' `sublist_of` l1.

(** The ports with a listener, in table order. *)
Definition listeners (l : list TcpConnection) : list Z := map local_port (List.filter (is_state Listen) l).

(** A connection as [listen], [connect] and a SYN enter it. *)
Definition fresh (c : TcpConnection) : Prop :=
  exists lip lp rip rp st nxt una rcv wnd sack,
    c = new_connection lip lp rip rp st nxt una rcv wnd sack /\ (st = Listen \/ st = SynSent \/ st = SynReceived).

(** The abstract step of the table. *)
Inductive table_step (l : list TcpConnection) : list TcpConnection -> Prop :=
| ts_evolve l' : evolves l l' -> table_step l l'
| ts_new l1 c :
    l1 `sublist_of` l -> (length l1 < MAX_TCP_CONNECTIONS)%nat -> fresh c ->
    (state c = Listen -> local_port c ∉ listeners l) -> table_step l (l1 ++ [c]).

Lemma moves_refl c : moves c c.
Proof. by apply keeps_moves. Qed.

Lemma Forall2_moves_refl l : Forall2 moves l l.
Proof. induction l; constructor; [apply moves_refl|done]. Qed.

Lemma evolves_sublist l l' : l' `sublist_of` l -> evolves l l'.
Proof. intros H. exists l. split; [apply Forall2_moves_refl|done]. Qed.

Lemma evolves_moves l l' : Forall2 moves l l' -> evolves l l'.
Proof. intros H. by exists l'. Qed.

Lemma update_first_moves p f l :
  (forall c, p c = true -> moves c (f c)) -> evolves l (update_first p f l).
Proof.
  intros H. apply evolves_moves. induction l as [|c l IH]; cbn; [constructor|].
  destruct (p c) eqn:Hp; constructor; auto using moves_refl, Forall2_moves_refl.
Qed.

Lemma replace_moves p c c' l :
  List.find p l = Some c -> moves c c' -> evolves l (update_first p (fun _ => c') l).
Proof.
  intros Hf Hm. apply evolves_moves. induction l as [|d l IH]; cbn in *; [done|].
  destruct (p d) eqn:Hp; [injection Hf as ->|]; constructor; auto using moves_refl, Forall2_moves_refl.
Qed.

Lemma gc_sublist now l : gc_closed_in now l `sublist_of` l.
Proof. apply filter_sublist. Qed.

Lemma make_room_spec now l :
  match make_room now l with
  | Some l1 => l1 `sublist_of` l /\ (length l1 < MAX_TCP_CONNECTIONS)%nat
  | None => (MAX_TCP_CONNECTIONS <= length (gc_closed_in now l))%nat
  end.
Proof.
  unfold make_room. destruct (_ <=? _)%nat eqn:E1; [|by apply Nat.leb_gt in E1].
  destruct (MAX_TCP_CONNECTIONS <=? length (gc_closed_in now l))%nat eqn:E2.
  - by apply Nat.leb_le in E2.
  - apply Nat.leb_gt in E2. split; [apply gc_sublist|done].
Qed.

Lemma is_listening_listeners port s :
  is_listening port s = false -> port ∉ listeners (TCP_CONNECTIONS s).
Proof.
  unfold is_listening, listeners. intros Hn. rewrite list_elem_of_In, in_map_iff. intros (c & <- & Hc).
  apply filter_In in Hc as [Hc Hl]. rewrite <- not_true_iff_false, existsb_exists in Hn.
  apply Hn. exists c. split; [done|]. by rewrite Z.eqb_refl.
Qed.

(** One operation on the table, whoever calls it. *)
Inductive tcp_step (s : Tcp) : Tcp -> Prop :=
| do_segment src dst data now tsc : tcp_step s (snd (handle_tcp src dst data now tsc s))
| do_tick now : tcp_step s (snd (tcp_timer_tick now s))
| do_send port peer data now : tcp_step s (snd (send_data_inner port peer data now s))
| do_read port n : tcp_step s (snd (read port n s))
| do_read_from lp rip rp n : tcp_step s (snd (read_from lp rip rp n s))
| do_accept lp : tcp_step s (snd (take_pending_accept lp s))
| do_listen port now tsc ip : tcp_step s (snd (listen port now tsc ip s))
| do_connect rip rp now tsc ip : tcp_step s (snd (connect rip rp now tsc ip s))
| do_abort port now : tcp_step s (snd (abort port now s))
| do_close_listener port : tcp_step s (close_listener port s)
| do_close port : tcp_step s (snd (tcp_close port s))
| do_close_connection lp rip rp : tcp_step s (snd (close_connection lp rip rp s))
| do_shutdown lp rip rp : tcp_step s (snd (shutdown_write lp rip rp s))
| do_set_option port reuse nodel rbuf sbuf : tcp_step s (set_option port reuse nodel rbuf sbuf s).

Inductive tcp_reach : Tcp -> Prop :=
| tcp_boot w : tcp_reach (mkTcp [] 49152 w)
| tcp_next s s' : tcp_reach s -> tcp_step s s' -> tcp_reach s'.

Notation steps s s' := (table_step (TCP_CONNECTIONS s) (TCP_CONNECTIONS s')).

Lemma with_wk_steps s l w b :
  table_step (TCP_CONNECTIONS s) l ->
  steps s (if b : bool then with_tcp_wk w (with_conns l s) else with_conns l s).
Proof. by destruct b. Qed.

Lemma steps_refl s : steps s s.
Proof. apply ts_evolve, evolves_sublist. done. Qed.

Lemma gc_steps now s : steps s (with_conns (gc_closed_in now (TCP_CONNECTIONS s)) s).
Proof. apply ts_evolve, evolves_sublist, gc_sublist. Qed.

Lemma handle_syn_steps src dst data hdr now tsc s : steps s (snd (handle_syn src dst data hdr now tsc s)).
Proof.
  unfold handle_syn. destruct (List.find _ _) as [listener|]; [|apply steps_refl].
  pose proof (make_room_spec now (TCP_CONNECTIONS s)) as Hr. destruct (make_room _ _) as [l|]; [|apply gc_steps].
  destruct Hr. apply ts_new; try done. unfold fresh. repeat eexists. tauto.
Qed.

Lemma handle_tcp_steps src dst data now tsc s : steps s (snd (handle_tcp src dst data now tsc s)).
Proof.
  unfold handle_tcp. destruct (parse data) as [hdr|]; [|apply steps_refl].
  destruct (has_flag hdr RST).
  { apply ts_evolve, update_first_moves. intros c _. by apply (closed_moves now). }
  destruct (List.find _ _) as [c|] eqn:Hf.
  - match goal with |- context [process_segment now hdr ?p ?o c] =>
      pose proof (process_segment_moves now hdr p o c) as Hm; destruct (process_segment now hdr p o c) as [[edge out] c'] end.
    apply with_wk_steps, ts_evolve. by apply (replace_moves _ c).
  - destruct (_ && _); [apply handle_syn_steps|apply steps_refl].
Qed.

Lemma tcp_timer_tick_steps now s : steps s (snd (tcp_timer_tick now s)).
Proof.
  unfold tcp_timer_tick. apply with_wk_steps, ts_evolve.
  exists (map tick_conn (map (tick_one now) (TCP_CONNECTIONS s))). split.
  - induction (TCP_CONNECTIONS s); cbn; constructor; [apply tick_one_moves|done].
  - etransitivity; [apply gc_sublist|apply filter_sublist].
Qed.

Lemma read_where_steps sel n s : steps s (snd (read_where sel n s)).
Proof.
  unfold read_where. destruct (List.find _ _) as [c|] eqn:Hf; [|apply steps_refl].
  destruct (drain_recv n c) as [out c'] eqn:E. apply ts_evolve. apply (replace_moves _ c); [done|].
  apply keeps_moves. unfold drain_recv in E. by destruct (_ =? _)%nat; injection E as <- <-.
Qed.

Lemma close_where_steps sel s out s' :
  (forall c, sel c = true -> readable_state c = true) -> close_where sel s = Some (out, s') -> steps s s'.
Proof.
  intros Hs. unfold close_where. destruct (List.find _ _) as [c|] eqn:Hf; [|done].
  pose proof (request_close_moves c) as Hm. destruct (request_close c) as [info c']. intros [= _ <-].
  apply ts_evolve. apply (replace_moves _ c); [done|]. apply Hm, Hs. by apply find_some in Hf as [_ ?].
Qed.

Lemma close_result_steps {A} sel s (ok : A) (fail : A) :
  (forall c, sel c = true -> readable_state c = true) ->
  steps s (snd (match close_where sel s with Some (out, s) => (ok, out, s) | None => (fail, [], s) end)).
Proof.
  intros Hs. destruct (close_where sel s) as [[out s']|] eqn:E; [|apply steps_refl].
  by apply (close_where_steps sel s out).
Qed.

(** Every operation is a step of the abstract table. *)
Lemma tcp_step_steps s s' : tcp_step s s' -> steps s s'.
Proof.
  intros H. destruct H.
  - apply handle_tcp_steps.
  - apply tcp_timer_tick_steps.
  - unfold send_data_inner. destruct data as [|b data]; [apply steps_refl|].
    destruct (List.find _ _) as [c|] eqn:Hf; [|apply steps_refl].
    pose proof (send_on_keeps now (b :: data) c) as Hk. destruct (send_on _ _ _) as [out c'].
    apply ts_evolve, (replace_moves _ c); [done|]. by apply keeps_moves.
  - apply read_where_steps.
  - apply read_where_steps.
  - unfold take_pending_accept. destruct (List.find _ _) as [c|]; [|apply steps_refl].
    apply ts_evolve, update_first_moves. intros d _. by apply keeps_moves.
  - unfold listen. destruct (is_listening port s) eqn:Hl; [apply steps_refl|].
    pose proof (make_room_spec now (TCP_CONNECTIONS s)) as Hr. destruct (make_room _ _) as [l|]; [|apply gc_steps].
    destruct Hr. apply ts_new; try done; [unfold fresh; repeat eexists; tauto|]. intros _. by apply is_listening_listeners.
  - unfold connect. cbn [TCP_CONNECTIONS with_ephemeral].
    pose proof (make_room_spec now (TCP_CONNECTIONS s)) as Hr. destruct (make_room _ _) as [l|]; [|apply ts_evolve, evolves_sublist, gc_sublist].
    destruct Hr. apply ts_new; try done. unfold fresh. repeat eexists. tauto.
  - unfold abort. destruct (List.find _ _) as [c|]; [|apply steps_refl].
    apply ts_evolve, update_first_moves. intros d _. by apply (closed_moves now).
  - apply ts_evolve, evolves_sublist, filter_sublist.
  - apply close_result_steps. by intros c [_ ?]%andb_true_iff.
  - apply close_result_steps. by intros c [_ ?]%andb_true_iff.
  - apply close_result_steps. by intros c [_ ?]%andb_true_iff.
  - apply ts_evolve, update_first_moves. intros d _. apply keeps_moves. by destruct reuse, nodel, rbuf, sbuf.
Qed.

(* ------------------------------------------------------------------ *)
(** ** The table's invariant *)

Record table_ok (l : list TcpConnection) : Prop := {
  tab_bound : (length l <= MAX_TCP_CONNECTIONS)%nat;
  tab_conns : Forall conn_ok l;
  tab_listeners : NoDup (listeners l) }.

Lemma fresh_ok c : fresh c -> conn_ok c.
Proof. intros (? & ? & ? & ? & st & ? & ? & ? & ? & ? & -> & [->|[->| ->]]); by split. Qed.

Lemma legal_listen st : legal st Listen -> st = Listen.
Proof. by inversion 1. Qed.

Lemma listeners_moves l l' : Forall conn_ok l -> Forall2 moves l l' -> listeners l' `sublist_of` listeners l.
Proof.
  intros Hok H. induction H as [|c c' l l' Hm _ IH]; [done|]. apply Forall_cons_iff in Hok as [Hc Hok].
  destruct (Hm Hc) as ((_ & Hp & _) & Hl & _). specialize (IH Hok). unfold listeners in *. cbn.
  destruct (is_state Listen c') eqn:E'.
  - apply bool_decide_eq_true in E'. rewrite E' in Hl. apply legal_listen in Hl.
    assert (is_state Listen c = true) as -> by by apply bool_decide_eq_true. cbn. rewrite Hp. by constructor.
  - destruct (is_state Listen c); [|done]. cbn. by constructor.
Qed.

Lemma listeners_sublist l l' : l' `sublist_of` l -> listeners l' `sublist_of` listeners l.
Proof.
  induction 1 as [|c l l' _ IH|c l l' _ IH]; [done| |]; unfold listeners in *; cbn; destruct (is_state Listen c); cbn;
    try done; by constructor.
Qed.

Lemma Forall2_moves_ok l l' : Forall conn_ok l -> Forall2 moves l l' -> Forall conn_ok l'.
Proof.
  intros Hok H. induction H as [|c c' l l' Hm _ IH]; [done|]. apply Forall_cons_iff in Hok as [Hc Hok].
  constructor; [by apply Hm|by apply IH].
Qed.

Lemma sublist_ok l l' : l' `sublist_of` l -> table_ok l -> table_ok l'.
Proof.
  intros Hs [H1 H2 H3]. split.
  - apply sublist_length in Hs. lia.
  - by apply (sublist_Forall _ _ _ Hs).
  - apply (sublist_NoDup _ (listeners l)); [done|]. by apply listeners_sublist.
Qed.

Lemma moves_ok l l' : Forall2 moves l l' -> table_ok l -> table_ok l'.
Proof.
  intros Hm [H1 H2 H3]. split.
  - by rewrite <- (Forall2_length Hm).
  - by apply (Forall2_moves_ok l).
  - apply (sublist_NoDup _ (listeners l)); [done|]. by apply listeners_moves.
Qed.

Lemma table_step_ok l l' : table_step l l' -> table_ok l -> table_ok l'.
Proof.
  intros [l1 (l2 & Hm & Hs)|l1 c Hs Hlen Hf Hnew] Hok.
  - apply (sublist_ok l2); [done|]. by apply (moves_ok l).
  - destruct (sublist_ok l l1 Hs Hok) as [G1 G2 G3]. split.
    + rewrite length_app. cbn. lia.
    + apply list.Forall_app. split; [done|]. constructor; [by apply fresh_ok|done].
    + unfold listeners. rewrite List.filter_app, map_app. cbn. fold (listeners l1).
      destruct (is_state Listen c) eqn:E; [|by rewrite app_nil_r]. apply bool_decide_eq_true in E.
      apply list.NoDup_app. split_and!; [done| |apply NoDup_singleton].
      intros p Hp ->%list_elem_of_singleton. apply (Hnew E).
      by apply (elem_of_sublist (listeners l1)); [|apply listeners_sublist].
Qed.

Lemma tcp_reach_ok s : tcp_reach s -> table_ok (TCP_CONNECTIONS s).
Proof.
  induction 1 as [w|s s' _ IH Hs].
  - split; cbn; [unfold MAX_TCP_CONNECTIONS; lia|constructor|constructor].
  - by apply (table_step_ok (TCP_CONNECTIONS s)); [apply tcp_step_steps|].
Qed.

(** C29: The table stays bounded and well formed. Through every operation,
    from the empty table on: it holds at most 1024 connections; a port has at
    most one listener; a close waits only on a connection with bytes left to
    send that is open (Established or CloseWait) or has since been closed by a
    reset, an abort or the timer; and a timer tick leaves no entry that has
    been closed for the grace period, so that every closed entry is collected.
    *)
Theorem tcp_table_invariant (s : Tcp) :
  tcp_reach s ->
  (length (TCP_CONNECTIONS s) <= MAX_TCP_CONNECTIONS)%nat /\
  NoDup (listeners (TCP_CONNECTIONS s)) /\
  (forall c, c ∈ TCP_CONNECTIONS s -> close_pending c = true ->
     (state c = Established \/ state c = CloseWait \/ state c = Closed) /\ send_buffer c <> []) /\
  (forall now c, c ∈ TCP_CONNECTIONS (snd (tcp_timer_tick now s)) -> state c = Closed ->
     sub64 now (closed_tick c) < CLOSED_GC_GRACE_TICKS).
Proof.
  intros Hr. destruct (tcp_reach_ok s Hr) as [H1 H2 H3]. rewrite list.Forall_forall in H2.
  split_and!; [done|done| |].
  - intros c Hc. by apply ok_pending, H2.
  - intros now c Hc Hst. pose proof (tcp_reach_ok _ (tcp_next s _ Hr (do_tick s now))) as [_ Hok _].
    rewrite list.Forall_forall in Hok. pose proof (ok_closed c (Hok c Hc) Hst) as Ht.
    rewrite list_elem_of_In in Hc. unfold tcp_timer_tick in Hc.
    match type of Hc with context [gc_closed_in now ?l] =>
      assert (In c (gc_closed_in now l)) as Hc'%filter_In by (by destruct (existsb _ _)) end.
    destruct Hc' as [_ Hg]. unfold gc_expired, is_state in Hg.
    rewrite bool_decide_eq_true_2 in Hg by done. lia.
Qed.

(** Connections follow the protocol's state diagram. Whatever the
    operation, every connection in the table afterwards is either one just
    entered, in LISTEN, SYN-SENT or SYN-RECEIVED and with nothing buffered or
    accepted, or comes from a connection that was in the table, with the same
    addresses and ports, along an edge of [legal]. *)
Theorem tcp_follows_diagram (s s' : Tcp) (c' : TcpConnection) :
  tcp_reach s -> tcp_step s s' -> c' ∈ TCP_CONNECTIONS s' ->
  (fresh c' /\ recv_buffer c' = [] /\ send_buffer c' = [] /\ accepted c' = false) \/
  (exists c, c ∈ TCP_CONNECTIONS s /\ same_address c c' /\ legal (state c) (state c')).
Proof.
  intros Hr Hs%tcp_step_steps Hc. destruct (tcp_reach_ok s Hr) as [_ Hok _]. rewrite list.Forall_forall in Hok.
  destruct Hs as [l' (l2 & Hm & Hsub)|l1 c Hsub _ Hf _].
  - right. apply (elem_of_sublist _ l2) in Hc; [|done]. apply list_elem_of_lookup in Hc as [i Hi].
    destruct (Forall2_lookup_r _ _ _ _ _ Hm Hi) as (c & Hci & Hmv). apply list_elem_of_lookup_2 in Hci.
    exists c. destruct (Hmv (Hok c Hci)) as (? & ? & _). done.
  - apply elem_of_app in Hc as [Hc| ->%list_elem_of_singleton].
    + right. exists c'. split; [by apply (elem_of_sublist l1)|]. split; [done|constructor].
    + left. split; [done|]. by destruct Hf as (? & ? & ? & ? & ? & ? & ? & ? & ? & ? & -> & _).
Qed.

(** The children of a listener that wait for [accept]. *)
Definition pending (lp : Z) (l : list TcpConnection) : list TcpConnection := List.filter (accept_pending lp) l.

Lemma accept_first lp l c :
  List.find (accept_pending lp) l = Some c ->
  exists rest, pending lp l = c :: rest /\ pending lp (update_first (accept_pending lp) (set_accepted true) l) = rest.
Proof.
  intros Hf. induction l as [|d l IH]; cbn in *; [done|]. destruct (accept_pending lp d) eqn:Hp.
  - injection Hf as ->. exists (pending lp l). split; [done|]. unfold pending. cbn.
    assert (accept_pending lp (set_accepted true c) = false) as ->; [|done].
    unfold accept_pending. cbn. by rewrite !andb_false_r.
  - destruct (IH Hf) as (rest & E1 & E2). exists rest. unfold pending in *. cbn. by rewrite Hp, E1.
Qed.

(** [accept] hands the children of a listener out in order and once. It
    answers with the peer of the first waiting child and takes exactly that
    one off the list of waiting children; it answers nothing, and changes
    nothing, exactly when none waits, which is when the poll reports none. *)
Theorem accept_in_order_once (lp : Z) (s : Tcp) :
  let '(r, s') := take_pending_accept lp s in
  match pending lp (TCP_CONNECTIONS s) with
  | c :: rest =>
      r = Some (remote_ip c, remote_port c) /\ pending lp (TCP_CONNECTIONS s') = rest /\
      map core (TCP_CONNECTIONS s') = map core (TCP_CONNECTIONS s) /\ has_pending_accept lp s = true
  | [] => r = None /\ s' = s /\ has_pending_accept lp s = false
  end.
Proof.
  unfold take_pending_accept. destruct (List.find _ _) as [c|] eqn:Hf.
  - destruct (accept_first lp _ c Hf) as (rest & -> & E). split_and!; [done|done| |].
    + cbn. by apply (update_first_keys core).
    + apply existsb_exists. exists c. by apply find_some in Hf.
  - pose proof (find_none _ _ Hf) as Hn. destruct (pending lp (TCP_CONNECTIONS s)) as [|c rest] eqn:E.
    + split_and!; [done|done|]. apply not_true_is_false. intros (c & Hc & Hp)%existsb_exists. by rewrite (Hn c Hc) in Hp.
    + assert (In c (pending lp (TCP_CONNECTIONS s))) as [Hc Hp]%filter_In by (rewrite E; by left).
      by rewrite (Hn c Hc) in Hp.
Qed.

(* ------------------------------------------------------------------ *)
(** ** Examples *)

(** A listener on port 80, and a peer's SYN and ACK. *)
Definition demo_boot : Tcp := mkTcp [] 49152 (mkWake [] 0 [] (replicate N_BELL_SOURCES 0) 0 0 0).
Definition demo_listen : Tcp := snd (listen 80 1 5 [10; 0; 2; 15] demo_boot).
Definition demo_peer (seq ack fl : Z) : Bytes :=
  build_segment 5000 80 seq ack fl [10; 0; 2; 2] [10; 0; 2; 15] [].
Definition demo_syn : Tcp := snd (handle_tcp [10; 0; 2; 2] [10; 0; 2; 15] (demo_peer 7 0 SYN) 2 9 demo_listen).
Definition demo_open : Tcp := snd (handle_tcp [10; 0; 2; 2] [10; 0; 2; 15] (demo_peer 8 (add32 (new_isn 9) 1) ACK) 3 11 demo_syn).

Lemma demo_listen_reach : tcp_reach demo_listen.
Proof. apply (tcp_next demo_boot); [apply tcp_boot|apply do_listen]. Qed.

Lemma demo_open_reach : tcp_reach demo_open.
Proof. apply (tcp_next demo_syn); [apply (tcp_next demo_listen); [apply demo_listen_reach|]|]; apply do_segment. Qed.

Lemma tcp_table_invariant_witness :
  NoDup (listeners (TCP_CONNECTIONS demo_open)) /\ map state (TCP_CONNECTIONS demo_open) = [Listen; Established].
Proof.
  split; [|by vm_compute]. apply (tcp_table_invariant demo_open demo_open_reach).
Defined.

Lemma tcp_follows_diagram_witness :
  exists c c', TCP_CONNECTIONS demo_syn !! 1%nat = Some c /\ TCP_CONNECTIONS demo_open !! 1%nat = Some c' /\
    ((fresh c' /\ recv_buffer c' = [] /\ send_buffer c' = [] /\ accepted c' = false) \/
     (exists d, d ∈ TCP_CONNECTIONS demo_syn /\ same_address d c' /\ legal (state d) (state c'))).
Proof.
  assert (tcp_reach demo_syn) as Hr by (apply (tcp_next demo_listen); [apply demo_listen_reach|apply do_segment]).
  destruct (TCP_CONNECTIONS demo_syn !! 1%nat) as [c|] eqn:E1; [|by vm_compute in E1].
  destruct (TCP_CONNECTIONS demo_open !! 1%nat) as [c'|] eqn:E2; [|by vm_compute in E2].
  exists c, c'. split; [done|]. split; [done|].
  apply (tcp_follows_diagram demo_syn demo_open c' Hr); [apply do_segment|].
  by apply (list_elem_of_lookup_2 _ 1%nat).
Defined.

(** [accept] on the open table hands the child out, once. *)
Lemma accept_demo :
  let '(r, s) := take_pending_accept 80 demo_open in
  r = Some ([10; 0; 2; 2], 5000) /\ fst (take_pending_accept 80 s) = None.
Proof. vm_compute. done. Qed.

(** A connection as it is entered, a half-open one in particular, is left
    alone by every timer tick: its SYN is not sent again and it is never
    given up. *)
Lemma half_open_never_times_out now c : fresh c -> tick_one now c = mkTick c [] false false.
Proof. by intros (? & ? & ? & ? & ? & ? & ? & ? & ? & ? & -> & [->|[->| ->]]). Qed.

(** The FIN of a close with nothing in flight is not sent again either. *)
Lemma fin_never_resent now c :
  readable_state c = true -> send_buffer c = [] -> retransmit_queue c = [] -> close_pending c = false ->
  let c' := snd (request_close c) in tick_one now c' = mkTick c' [] false false.
Proof.
  intros _ Hb Hq Hp. unfold request_close. rewrite Hb. cbn [snd]. set (st := if is_state CloseWait c then _ else _).
  assert (st = LastAck \/ st = FinWait1) as Hst by (subst st; destruct (is_state CloseWait c); tauto).
  unfold tick_one, is_state. cbn [state set_state]. 
  rewrite bool_decide_eq_false_2 by (destruct Hst as [->| ->]; done).
  replace (timed_state st) with true by (destruct Hst as [->| ->]; done). cbn [negb].
  unfold tick_retransmit. cbn [retransmit_queue set_state]. rewrite Hq.
  unfold tick_send. cbn [send_buffer set_state]. rewrite Hb.
  unfold tick_close. cbn [send_buffer close_pending set_state]. by rewrite Hb, Hp.
Qed.
