(* ===== verification/Ramfs.v ===== *)
(** * The in-memory file systems (kernel/src/vfs/ramfs.rs, vfs/tmpfs.rs)

    A file system is a vector of inodes found by number; directories list
    names with inode numbers. The theorems show that the directory graph
    stays a forest under every operation, rename included, that names behave
    as a map, and that files hold what was written to them. *)

From S2P Require Import Prelude.
From S2P Require Import InodePins.
From S2P Require Import Vfs.

Record DirEntry := mkDirEntry { de_name : Name; de_inode : Z }.

Inductive RamInode :=
  | RamFile (inode : Z) (data : list Z) (permissions created modified accessed : Z)
  | RamDir (inode : Z) (entries : list DirEntry) (permissions created modified accessed : Z)
  | RamSymLink (inode : Z) (target : Name) (permissions created modified accessed : Z).

Definition inode_number (n : RamInode) : Z :=
  match n with RamFile i _ _ _ _ _ | RamDir i _ _ _ _ _ | RamSymLink i _ _ _ _ _ => i end.

Definition ram_file_type (n : RamInode) : FileType :=
  match n with RamFile _ _ _ _ _ _ => RegularFile | RamDir _ _ _ _ _ _ => Directory | RamSymLink _ _ _ _ _ _ => SymLink end.

Definition is_dir (n : RamInode) : bool := match n with RamDir _ _ _ _ _ _ => true | _ => false end.

(** [NEXT_INODE] is the counter of the VFS layer, which all file systems
    share. *)
Record RamFs := mkRamFs {
  inodes : list RamInode;
  root_inode : Z;
  NEXT_INODE : Z
}.

Definition with_inodes (l : list RamInode) (fs : RamFs) : RamFs := mkRamFs l (root_inode fs) (NEXT_INODE fs).

Definition now_secs (ticks : Z) : Z := ticks / 100.

Definition alloc_inode_number (fs : RamFs) : Z * RamFs :=
  (NEXT_INODE fs, mkRamFs (inodes fs) (root_inode fs) (add64 (NEXT_INODE fs) 1)).

Definition ramfs_new (ticks next : Z) : RamFs :=
  let now := now_secs ticks in mkRamFs [RamDir 1 [] 0x1ED now now now] 1 next.

Definition find_inode_idx (l : list RamInode) (inode : Z) : option nat :=
  fst <$> list_find (fun n => inode_number n = inode) l.

(** [entries.iter().find(|e| e.name == name).map(|e| e.inode)]. *)
Definition entry_inode (name : Name) (entries : list DirEntry) : option Z :=
  de_inode <$> List.find (fun e => bool_decide (de_name e = name)) entries.

(** [entries.push], with the directory's time of change where it is set. *)
Definition push_entry (e : DirEntry) (touch : option Z) (n : RamInode) : RamInode :=
  match n with
  | RamDir i es p c m a => RamDir i (es ++ [e]) p c (default m touch) a
  | _ => n
  end.

(** [entries.retain(|e| e.name != name)]. *)
Definition drop_entry (name : Name) (touch : option Z) (n : RamInode) : RamInode :=
  match n with
  | RamDir i es p c m a =>
      RamDir i (List.filter (fun e => negb (bool_decide (de_name e = name))) es) p c (default m touch) a
  | _ => n
  end.

(** [inodes.retain(|n| n.inode_number() != inode)]. *)
Definition retain_not (inode : Z) (l : list RamInode) : list RamInode :=
  List.filter (fun n => negb (inode_number n =? inode)) l.

(** What [create_file], [create_dir] and [symlink] share: [mk] is the new
    inode, [touch] the parent's new time of change. *)
Definition create_node (mk : Z -> RamInode) (touch : option Z) (parent : Z) (name : Name) (fs : RamFs)
    : VfsResult Z * RamFs :=
  match find_inode_idx (inodes fs) parent with
  | None => (inr NotFound, fs)
  | Some idx =>
      match inodes fs !! idx with
      | Some (RamDir _ entries _ _ _ _) =>
          if existsb (fun e => bool_decide (de_name e = name)) entries then (inr FileExists, fs)
          else
            let '(ino, fs) := alloc_inode_number fs in
            (inl ino, with_inodes (alter (push_entry (mkDirEntry name ino) touch) idx (inodes fs ++ [mk ino])) fs)
      | _ => (inr NotADirectory, fs)
      end
  end.

Definition create_file (parent : Z) (name : Name) (ticks : Z) : RamFs -> VfsResult Z * RamFs :=
  let now := now_secs ticks in
  create_node (fun ino => RamFile ino [] 0x1A4 now now now) None parent name.

Definition create_dir (parent : Z) (name : Name) (ticks : Z) : RamFs -> VfsResult Z * RamFs :=
  let now := now_secs ticks in
  create_node (fun ino => RamDir ino [] 0x1ED now now now) None parent name.

Definition symlink (parent : Z) (name target : Name) (ticks : Z) : RamFs -> VfsResult Z * RamFs :=
  let now := now_secs ticks in
  create_node (fun ino => RamSymLink ino target 0x1FF now now now) (Some now) parent name.

(** [NotEmpty] for a directory with entries. *)
Definition nonempty_dir (n : RamInode) : bool :=
  match n with RamDir _ (_ :: _) _ _ _ _ => true | _ => false end.

Definition ram_lookup (parent : Z) (name : Name) (fs : RamFs) : VfsResult Z :=
  match find_inode_idx (inodes fs) parent with
  | None => inr NotFound
  | Some idx =>
      match inodes fs !! idx with
      | Some (RamDir _ entries _ _ _ _) =>
          match entry_inode name entries with Some i => inl i | None => inr NotFound end
      | _ => inr NotADirectory
      end
  end.

Definition ram_remove (parent : Z) (name : Name) (fs : RamFs) : VfsResult unit * RamFs :=
  match find_inode_idx (inodes fs) parent with
  | None => (inr NotFound, fs)
  | Some idx =>
      match inodes fs !! idx with
      | Some (RamDir _ entries _ _ _ _) =>
          match entry_inode name entries with
          | None => (inr NotFound, fs)
          | Some target =>
              match find_inode_idx (inodes fs) target with
              | None => (inr NotFound, fs)
              | Some tidx =>
                  if match inodes fs !! tidx with Some n => nonempty_dir n | None => false end
                  then (inr NotEmpty, fs)
                  else (inl tt, with_inodes (retain_not target (alter (drop_entry name None) idx (inodes fs))) fs)
              end
          end
      | _ => (inr NotADirectory, fs)
      end
  end.

(** [buf[..to_read].copy_from_slice(&data[off..off + to_read])]. *)
Definition read_bytes (data : list Z) (offset : Z) (len : nat) : list Z :=
  if Z.of_nat (length data) <=? offset then []
  else take (Nat.min (length data - Z.to_nat offset) len) (drop (Z.to_nat offset) data).

(** The inode after an access and the bytes read; the result is their
    number in the source. *)
Definition ram_read (inode offset : Z) (len : nat) (ticks : Z) (fs : RamFs) : VfsResult (list Z) * RamFs :=
  match find_inode_idx (inodes fs) inode with
  | None => (inr NotFound, fs)
  | Some idx =>
      match inodes fs !! idx with
      | Some (RamFile i data p c m a) =>
          if Z.of_nat (length data) <=? offset then (inl [], fs)
          else (inl (read_bytes data offset len),
                with_inodes (<[idx := RamFile i data p c m (now_secs ticks)]> (inodes fs)) fs)
      | Some (RamSymLink _ target _ _ _ _) => (inl (read_bytes target offset len), fs)
      | _ => (inr IsADirectory, fs)
      end
  end.

(** [Vec::resize(n, 0)]. *)
Definition resize (n : nat) (data : list Z) : list Z := take n data ++ replicate (n - length data) 0.

(** A slice whose end wraps below its start panics. *)
Definition write_bytes (data : list Z) (offset : Z) (data_in : list Z) : option (list Z) :=
  let end_ := add64 offset (Z.of_nat (length data_in)) in
  let data := if Z.of_nat (length data) <? end_ then resize (Z.to_nat end_) data else data in
  if end_ <? offset then None
  else Some (take (Z.to_nat offset) data ++ data_in ++ drop (Z.to_nat end_) data).

Definition ram_write (inode offset : Z) (data_in : list Z) (ticks : Z) (fs : RamFs)
    : option (VfsResult Z * RamFs) :=
  match find_inode_idx (inodes fs) inode with
  | None => Some (inr NotFound, fs)
  | Some idx =>
      match inodes fs !! idx with
      | Some (RamFile i data p c m a) =>
          data' ← write_bytes data offset data_in;
          Some (inl (Z.of_nat (length data_in)),
                with_inodes (<[idx := RamFile i data' p c (now_secs ticks) a]> (inodes fs)) fs)
      | Some (RamSymLink _ _ _ _ _ _) => Some (inr InvalidArg, fs)
      | _ => Some (inr IsADirectory, fs)
      end
  end.

Definition ram_stat (inode : Z) (fs : RamFs) : VfsResult FileStat :=
  match find_inode_idx (inodes fs) inode with
  | None => inr NotFound
  | Some idx =>
      match inodes fs !! idx with
      | Some (RamFile i data p c m a) => inl (mkFileStat i RegularFile (Z.of_nat (length data)) p c m a)
      | Some (RamDir i entries p c m a) => inl (mkFileStat i Directory (Z.of_nat (length entries)) p c m a)
      | Some (RamSymLink i target p c m a) => inl (mkFileStat i SymLink (Z.of_nat (length target)) p c m a)
      | None => inr NotFound
      end
  end.

Definition ram_readdir (inode : Z) (fs : RamFs) : VfsResult (list (Name * Z * FileType)) :=
  match find_inode_idx (inodes fs) inode with
  | None => inr NotFound
  | Some idx =>
      match inodes fs !! idx with
      | Some (RamDir _ entries _ _ _ _) =>
          inl (map (fun e =>
            (de_name e, de_inode e,
             match find_inode_idx (inodes fs) (de_inode e) with
             | Some eidx => match inodes fs !! eidx with Some n => ram_file_type n | None => RegularFile end
             | None => RegularFile
             end)) entries)
      | _ => inr NotADirectory
      end
  end.

Definition ram_truncate (inode size ticks : Z) (fs : RamFs) : VfsResult unit * RamFs :=
  match find_inode_idx (inodes fs) inode with
  | None => (inr NotFound, fs)
  | Some idx =>
      match inodes fs !! idx with
      | Some (RamFile i data p c m a) =>
          (inl tt, with_inodes (<[idx := RamFile i (resize (Z.to_nat size) data) p c (now_secs ticks) a]> (inodes fs)) fs)
      | _ => (inr IsADirectory, fs)
      end
  end.

(** The directories among the children of a directory, last one first: the
    order in which they come off the stack. *)
Definition dir_children (l : list RamInode) (inode : Z) : list Z :=
  match find_inode_idx l inode with
  | Some idx =>
      match l !! idx with
      | Some (RamDir _ entries _ _ _ _) =>
          rev (List.filter (fun i => match find_inode_idx l i with
                                     | Some ei => match l !! ei with Some n => is_dir n | None => false end
                                     | None => false
                                     end) (map de_inode entries))
      | _ => []
      end
  | None => []
  end.

(** The search for [new_parent] below the stack's directories; [cap] counts
    the inodes it may still visit. *)
Fixpoint descends (cap : nat) (l : list RamInode) (new_parent : Z) (stack : list Z) : bool :=
  match stack with
  | [] => false
  | cur :: stack =>
      match cap with
      | O => false
      | S cap =>
          if cur =? new_parent then true
          else descends cap l new_parent (dir_children l cur ++ stack)
      end
  end.

(** The entry [new_name] that is to be replaced: [None] when the replacement
    is not allowed, with the error. *)
Definition displace (target_is_dir : bool) (new_parent_idx : nat) (new_name : Name) (l : list RamInode)
    : VfsResult (list RamInode) :=
  match match l !! new_parent_idx with Some (RamDir _ es _ _ _ _) => entry_inode new_name es | _ => None end with
  | None => inl l
  | Some existing =>
      match find_inode_idx l existing with
      | None => inr NotFound
      | Some eidx =>
          match l !! eidx with
          | None => inr NotFound
          | Some n =>
              if target_is_dir && negb (is_dir n) then inr NotADirectory
              else if negb target_is_dir && is_dir n then inr IsADirectory
              else if nonempty_dir n then inr NotEmpty
              else inl (retain_not existing (alter (drop_entry new_name None) new_parent_idx l))
          end
      end
  end.

(** The two changes of a rename, each after finding its directory again. *)
Definition relink (old_parent : Z) (old_name : Name) (new_parent : Z) (new_name : Name) (target now : Z)
    (l : list RamInode) : VfsResult unit * list RamInode :=
  match find_inode_idx l old_parent with
  | None => (inr NotFound, l)
  | Some oidx =>
      let l := alter (drop_entry old_name (Some now)) oidx l in
      match find_inode_idx l new_parent with
      | None => (inr NotFound, l)
      | Some nidx => (inl tt, alter (push_entry (mkDirEntry new_name target) (Some now)) nidx l)
      end
  end.

Definition DOT : Name := [46].
Definition DOTDOT : Name := [46; 46].

(** [true] for the names a rename refuses. *)
Definition bad_name (n : Name) : bool :=
  bool_decide (n = DOT) || bool_decide (n = DOTDOT) || bool_decide (n = []).

Definition ram_rename (old_parent : Z) (old_name : Name) (new_parent : Z) (new_name : Name) (ticks : Z)
    (fs : RamFs) : VfsResult unit * RamFs :=
  let l := inodes fs in
  if bad_name old_name || bad_name new_name then (inr InvalidArg, fs)
  else
    match find_inode_idx l old_parent with
    | None => (inr NotFound, fs)
    | Some oidx =>
        match l !! oidx with
        | Some (RamDir _ entries _ _ _ _) =>
            match entry_inode old_name entries with
            | None => (inr NotFound, fs)
            | Some target =>
                match find_inode_idx l new_parent with
                | None => (inr NotFound, fs)
                | Some nidx =>
                    if negb (match l !! nidx with Some n => is_dir n | None => false end) then (inr NotADirectory, fs)
                    else if (old_parent =? new_parent) && bool_decide (old_name = new_name) then (inl tt, fs)
                    else
                      match find_inode_idx l target with
                      | None => (inr NotFound, fs)
                      | Some tidx =>
                          let target_is_dir := match l !! tidx with Some n => is_dir n | None => false end in
                          if target_is_dir &&
                             ((new_parent =? target) || descends (length l + 1) l new_parent [target])
                          then (inr InvalidArg, fs)
                          else
                            match displace target_is_dir nidx new_name l with
                            | inr e => (inr e, fs)
                            | inl l =>
                                let '(r, l) := relink old_parent old_name new_parent new_name target (now_secs ticks) l in
                                (r, with_inodes l fs)
                            end
                      end
                end
            end
        | _ => (inr NotADirectory, fs)
        end
    end.

Definition ram_readlink (inode : Z) (fs : RamFs) : VfsResult Name :=
  match find_inode_idx (inodes fs) inode with
  | None => inr NotFound
  | Some idx => match inodes fs !! idx with Some (RamSymLink _ target _ _ _ _) => inl target | _ => inr InvalidArg end
  end.

Definition set_permissions (mode : Z) (n : RamInode) : RamInode :=
  match n with
  | RamFile i d _ c m a => RamFile i d mode c m a
  | RamDir i es _ c m a => RamDir i es mode c m a
  | RamSymLink i t _ c m a => RamSymLink i t mode c m a
  end.

Definition ram_chmod (inode mode : Z) (fs : RamFs) : VfsResult unit * RamFs :=
  match find_inode_idx (inodes fs) inode with
  | None => (inr NotFound, fs)
  | Some idx => (inl tt, with_inodes (alter (set_permissions mode) idx (inodes fs)) fs)
  end.

Definition unlink_entry (parent : Z) (name : Name) (ticks : Z) (fs : RamFs) : VfsResult unit * RamFs :=
  match find_inode_idx (inodes fs) parent with
  | None => (inr NotFound, fs)
  | Some idx =>
      match inodes fs !! idx with
      | Some (RamDir i entries p c m a) =>
          if existsb (fun e => bool_decide (de_name e = name)) entries
          then (inl tt, with_inodes (alter (drop_entry name (Some (now_secs ticks))) idx (inodes fs)) fs)
          else (inr NotFound, fs)
      | _ => (inr NotADirectory, fs)
      end
  end.

Definition remove_inode (inode : Z) (fs : RamFs) : VfsResult unit * RamFs :=
  (inl tt, with_inodes (retain_not inode (inodes fs)) fs).

#[global] Instance RamFs_ops : FileSystemOps RamFs := {
  fs_create_file := create_file;
  fs_create_dir := create_dir;
  fs_remove := ram_remove;
  fs_lookup := ram_lookup;
  fs_read := ram_read;
  fs_write := ram_write;
  fs_stat := ram_stat;
  fs_readdir := ram_readdir;
  fs_truncate := ram_truncate;
  fs_rename := ram_rename;
  fs_symlink := symlink;
  fs_readlink := ram_readlink;
  fs_chmod := ram_chmod;
  fs_unlink_entry := unlink_entry;
  fs_remove_inode := remove_inode
}.

(* ------------------------------------------------------------------ *)
(** ** tmpfs *)

Record TmpFs := mkTmpFs { inner : RamFs; rdonly : bool }.

Definition tmpfs_new (rdonly : bool) (ticks next : Z) : TmpFs := mkTmpFs (ramfs_new ticks next) rdonly.

(** The result of a method of the inner file system. *)
Definition tmp_inner {A} (op : RamFs -> A * RamFs) (t : TmpFs) : A * TmpFs :=
  let '(r, fs) := op (inner t) in (r, mkTmpFs fs (rdonly t)).

(** [self.check_writable()?] before it. *)
Definition check_writable {A} (op : RamFs -> VfsResult A * RamFs) (t : TmpFs) : VfsResult A * TmpFs :=
  if rdonly t then (inr PermissionDenied, t) else tmp_inner op t.

#[global] Instance TmpFs_ops : FileSystemOps TmpFs := {
  fs_create_file parent name ticks := check_writable (create_file parent name ticks);
  fs_create_dir parent name ticks := check_writable (create_dir parent name ticks);
  fs_remove parent name := check_writable (ram_remove parent name);
  fs_lookup parent name t := ram_lookup parent name (inner t);
  fs_read inode offset len ticks := tmp_inner (ram_read inode offset len ticks);
  fs_write inode offset data ticks t :=
    if rdonly t then Some (inr PermissionDenied, t)
    else '(r, fs) ← ram_write inode offset data ticks (inner t); Some (r, mkTmpFs fs (rdonly t));
  fs_stat inode t := ram_stat inode (inner t);
  fs_readdir inode t := ram_readdir inode (inner t);
  fs_truncate inode size ticks := check_writable (ram_truncate inode size ticks);
  fs_rename op on np nn ticks := check_writable (ram_rename op on np nn ticks);
  fs_symlink parent name target ticks := check_writable (symlink parent name target ticks);
  fs_readlink inode t := ram_readlink inode (inner t);
  fs_chmod inode mode := check_writable (ram_chmod inode mode);
  fs_unlink_entry parent name ticks := check_writable (unlink_entry parent name ticks);
  fs_remove_inode inode := tmp_inner (remove_inode inode)
}.

(* ------------------------------------------------------------------ *)
(** ** Inodes by number *)

Definition get (l : list RamInode) (i : Z) : option RamInode := List.find (fun n => inode_number n =? i) l.
Definition update (i : Z) (f : RamInode -> RamInode) (l : list RamInode) : list RamInode :=
  update_first (fun n => inode_number n =? i) f l.
Definition dir_at (l : list RamInode) (i : Z) : bool := match get l i with Some n => is_dir n | None => false end.
Definition entries_of (l : list RamInode) (i : Z) : list DirEntry :=
  match get l i with Some (RamDir _ es _ _ _ _) => es | _ => [] end.

Arguments get : simpl never.
Arguments update : simpl never.
Arguments dir_at : simpl never.
Arguments entries_of : simpl never.
Arguments retain_not : simpl never.

Lemma find_idx_cons n l i :
  find_inode_idx (n :: l) i = if decide (inode_number n = i) then Some 0%nat else S <$> find_inode_idx l i.
Proof.
  unfold find_inode_idx. simpl. destruct (decide _) as [E|E]; [done|].
  destruct (list_find _ l) as [[j m]|]; done.
Qed.

(** An index the search returns stands for the inode, also in updates. *)
Lemma find_idx_spec l i :
  match find_inode_idx l i with
  | Some idx => exists n, l !! idx = Some n /\ get l i = Some n /\ (forall f, alter f idx l = update i f l) /\
      (forall f m, alter f idx (l ++ [m]) = update i f l ++ [m])
  | None => get l i = None
  end.
Proof.
  induction l as [|n l IH]; [done|]. rewrite find_idx_cons. unfold get, update in *. cbn.
  destruct (decide (inode_number n = i)) as [E|E].
  - rewrite (proj2 (Z.eqb_eq _ _) E). exists n. done.
  - rewrite (proj2 (Z.eqb_neq _ _) E). destruct (find_inode_idx l i) as [idx|]; [|done].
    destruct IH as (m & H1 & H2 & H3 & H4). exists m. cbn. split_and!; try done.
    + intros f. by rewrite <- H3.
    + intros f x. by rewrite <- H4.
Qed.

Lemma get_number l i n : get l i = Some n -> inode_number n = i.
Proof. unfold get. intros [_ H%Z.eqb_eq]%find_some. done. Qed.

Lemma get_elem l i n : get l i = Some n -> n ∈ l.
Proof. unfold get. intros [H _]%find_some. by apply list_elem_of_In. Qed.

Lemma get_app l m i : get (l ++ [m]) i = match get l i with Some n => Some n | None => if inode_number m =? i then Some m else None end.
Proof. unfold get. induction l as [|n l IH]; cbn; [done|]. by destruct (inode_number n =? i). Qed.

Lemma get_update i j f l : (forall n, inode_number (f n) = inode_number n) ->
  get (update i f l) j = if j =? i then f <$> get l i else get l j.
Proof. intros Hf. by apply (find_update_first inode_number). Qed.

Lemma get_retain i j l : get (retain_not i l) j = if j =? i then None else get l j.
Proof.
  unfold get, retain_not. induction l as [|n l IH]; cbn; [by destruct (j =? i)|].
  destruct (Z.eqb_spec (inode_number n) i) as [E|E]; cbn.
  - rewrite IH. destruct (Z.eqb_spec j i) as [->|Hj]; [done|]. by rewrite (proj2 (Z.eqb_neq _ _)) by congruence.
  - destruct (Z.eqb_spec (inode_number n) j) as [E2|E2]; [|done].
    by rewrite (proj2 (Z.eqb_neq j i)) by congruence.
Qed.

Lemma push_entry_number e t n : inode_number (push_entry e t n) = inode_number n.
Proof. by destruct n. Qed.
Lemma drop_entry_number e t n : inode_number (drop_entry e t n) = inode_number n.
Proof. by destruct n. Qed.

#[local] Hint Resolve push_entry_number drop_entry_number : core.

(** Destructs a search by number into the inode found. *)
Ltac find_inode l i n Hn Hup Hupa :=
  let idx := fresh "idx" in let Hidx := fresh "Hidx" in
  pose proof (find_idx_spec l i) as Hn;
  destruct (find_inode_idx l i) as [idx|];
  [destruct Hn as (n & Hidx & Hn & Hup & Hupa); rewrite ?Hidx|].

(** [ram_lookup] by [get]. *)
Lemma ram_lookup_get parent name fs :
  ram_lookup parent name fs =
  match get (inodes fs) parent with
  | None => inr NotFound
  | Some (RamDir _ es _ _ _ _) => match entry_inode name es with Some i => inl i | None => inr NotFound end
  | Some _ => inr NotADirectory
  end.
Proof.
  unfold ram_lookup. find_inode (inodes fs) parent n Hn Hup Hupa; rewrite Hn; by try destruct n.
Qed.

Lemma dir_children_get l i :
  dir_children l i = rev (List.filter (dir_at l) (map de_inode (entries_of l i))).
Proof.
  unfold dir_children, entries_of. find_inode l i n Hn Hup Hupa; rewrite Hn; [|done].
  destruct n; try done. f_equal. apply filter_ext. intros j. unfold dir_at.
  find_inode l j m Hm Hup' Hupa'; by rewrite Hm.
Qed.

Lemma entry_inode_some name es i :
  entry_inode name es = Some i -> exists e, e ∈ es /\ de_name e = name /\ de_inode e = i.
Proof.
  unfold entry_inode. destruct (List.find _ es) as [e|] eqn:E; [|done]. intros [= <-].
  apply find_some in E as [E1 E2%bool_decide_eq_true]. exists e. by rewrite list_elem_of_In.
Qed.

Lemma entry_inode_none name es : entry_inode name es = None <-> name ∉ map de_name es.
Proof.
  unfold entry_inode. rewrite list_elem_of_In, in_map_iff. split.
  - destruct (List.find _ es) eqn:E; [done|]. intros _ (e & <- & He).
    pose proof (find_none _ _ E e He) as H%bool_decide_eq_false. done.
  - intros Hn. destruct (List.find _ es) as [e|] eqn:E; [|done]. apply find_some in E as [He E%bool_decide_eq_true].
    destruct Hn. by exists e.
Qed.

Lemma existsb_name name es :
  existsb (fun e => bool_decide (de_name e = name)) es = negb (bool_decide (entry_inode name es = None)).
Proof.
  unfold entry_inode. induction es as [|e es IH]; cbn; [done|]. by destruct (bool_decide (de_name e = name)).
Qed.

(* ------------------------------------------------------------------ *)
(** ** Forests

    The directory graph, abstractly: [E p] are the entries of inode [p] and
    [D] the inodes there are. *)

Definition child (E : Z -> list DirEntry) (p c : Z) : Prop := exists e, e ∈ E p /\ de_inode e = c.

Record forest (E : Z -> list DirEntry) (D : Z -> Prop) (root : Z) : Prop := {
  f_names p : NoDup (map de_name (E p));
  f_targets p e : e ∈ E p -> D (de_inode e);
  f_dirs p : E p <> [] -> D p;
  f_parent p1 p2 e1 e2 : e1 ∈ E p1 -> e2 ∈ E p2 -> de_inode e1 = de_inode e2 -> p1 = p2 /\ e1 = e2;
  f_root : D root;
  f_top p e : e ∈ E p -> de_inode e <> root;
  f_acyclic x : ~ tc (child E) x x }.

Lemma tc_mono {A} (R S : A -> A -> Prop) x y : (forall a b, R a b -> S a b) -> tc R x y -> tc S x y.
Proof. intros H. induction 1; [constructor|eapply tc_l]; eauto. Qed.

(** Fewer entries, and inodes enough for those left. *)
Lemma forest_sub E E' (D D' : Z -> Prop) root :
  forest E D root -> (forall p, E' p `sublist_of` E p) -> D' root ->
  (forall p e, e ∈ E' p -> D' (de_inode e)) -> (forall p, E' p <> [] -> D' p) -> forest E' D' root.
Proof.
  intros [H1 H2 H3 H4 H5 H6 H7] Hs Hr Ht Hd.
  assert (forall p e, e ∈ E' p -> e ∈ E p) as Hin by (intros p e He; by apply (elem_of_sublist (E' p))).
  split; try done.
  - intros p. apply (sublist_NoDup _ (map de_name (E p))); [done|]. by apply sublist_map.
  - intros p1 p2 e1 e2 He1 He2. apply H4; by apply Hin.
  - intros p e He. by apply (H6 p), Hin.
  - intros x Hx. apply (H7 x). revert Hx. apply tc_mono. intros a b (e & He & <-). exists e. auto.
Qed.

(** More inodes. *)
Lemma forest_more E (D D' : Z -> Prop) root : forest E D root -> (forall i, D i -> D' i) -> forest E D' root.
Proof. intros [H1 H2 H3 H4 H5 H6 H7] Hm. split; eauto. Qed.

(** A path that uses a new edge [p -> t] comes back to [p] below [t]. *)
Lemma tc_new_edge {A} (R : A -> A -> Prop) (p t : A) x y :
  tc (fun a b => R a b \/ (a = p /\ b = t)) x y ->
  tc R x y \/ (rtc R x p /\ rtc R t y) \/ rtc R t p.
Proof.
  induction 1 as [x y [H|[-> ->]]|x y z [H|[-> ->]] _ IH].
  - left. by constructor.
  - right; left. done.
  - destruct IH as [IH|[[IH1 IH2]|IH]]; [left; by eapply tc_l|right; left|by right; right].
    split; [by eapply rtc_l|done].
  - destruct IH as [IH|[[IH1 IH2]|IH]]; [right; left|by right; right|by right; right].
    split; [done|by apply tc_rtc].
Qed.

(** A new entry for an inode that has none, from a directory that is not
    below it. *)
Lemma forest_link E E' (D : Z -> Prop) root p name t :
  forest E D root -> D p -> D t -> t <> root -> (forall q e, e ∈ E q -> de_inode e <> t) ->
  ~ rtc (child E) t p -> name ∉ map de_name (E p) ->
  (forall q, E' q = if q =? p then E p ++ [mkDirEntry name t] else E q) -> forest E' D root.
Proof.
  intros [H1 H2 H3 H4 H5 H6 H7] Hp Ht Hroot Hfree Hbelow Hname HE.
  assert (forall q e, e ∈ E' q -> e ∈ E q \/ (q = p /\ e = mkDirEntry name t)) as Hin.
  { intros q e. rewrite HE. destruct (Z.eqb_spec q p) as [->|]; [|by left].
    rewrite elem_of_app, list_elem_of_singleton. tauto. }
  split; try done.
  - intros q. rewrite HE. destruct (q =? p); [|done]. rewrite map_app. apply list.NoDup_app.
    split_and!; [done| |apply NoDup_singleton]. intros x Hx ->%list_elem_of_singleton. done.
  - intros q e [He|[_ ->]]%Hin; [by apply (H2 q)|done].
  - intros q. rewrite HE. destruct (Z.eqb_spec q p) as [->|]; [done|apply H3].
  - intros p1 p2 e1 e2 [He1|[-> ->]]%Hin [He2|[-> ->]]%Hin Heq; cbn in *; [by apply H4| | |done].
    + by destruct (Hfree _ _ He1).
    + by destruct (Hfree _ _ He2).
  - intros q e [He|[_ ->]]%Hin; [by apply (H6 q)|done].
  - intros x Hx. destruct (tc_new_edge (child E) p t x x) as [Hc|[[Ha Hb]|Hc]]; [|by apply (H7 x)| |done].
    + revert Hx. apply tc_mono. intros a b (e & [He|[-> ->]]%Hin & <-); [left; by exists e|by right].
    + apply Hbelow. by etransitivity.
Qed.

(* ------------------------------------------------------------------ *)
(** ** The descendant search of rename *)

Section search.
Context (l : list RamInode) (D : Z -> Prop) (root t np : Z).
Context (Hforest : forest (entries_of l) D root) (Ht : dir_at l t = true) (Hnp : dir_at l np = true).
Notation below := (rtc (child (entries_of l))).

Lemma dir_at_elem i : dir_at l i = true -> i ∈ map inode_number l.
Proof.
  unfold dir_at. destruct (get l i) as [n|] eqn:E; [|done]. intros _.
  rewrite <- (get_number _ _ _ E), list_elem_of_In. apply in_map. by apply list_elem_of_In, (get_elem l i).
Qed.

Lemma entries_dir i : entries_of l i <> [] -> dir_at l i = true.
Proof. unfold entries_of, dir_at. destruct (get l i) as [[]|]; done. Qed.

Lemma elem_dir_children p c : c ∈ dir_children l p <-> child (entries_of l) p c /\ dir_at l c = true.
Proof.
  rewrite dir_children_get, list_elem_of_In, <- in_rev, filter_In, in_map_iff. unfold child.
  setoid_rewrite list_elem_of_In. naive_solver.
Qed.

Lemma dir_children_nodup p : NoDup (dir_children l p).
Proof.
  rewrite dir_children_get. apply NoDup_ListNoDup, NoDup_rev, List.NoDup_filter, NoDup_ListNoDup.
  assert (forall es, es `sublist_of` entries_of l p -> NoDup (map de_inode es)) as H; [|by apply H].
  induction es as [|e es IH]; intros Hs; [constructor|]. cbn. apply list.NoDup_cons. split.
  - rewrite list_elem_of_In, in_map_iff. intros (e' & He & Hin).
    assert (NoDup (map de_name (e :: es))) as Hn.
    { apply (sublist_NoDup _ (map de_name (entries_of l p))); [apply (f_names _ _ _ Hforest)|by apply sublist_map]. }
    destruct (f_parent _ _ _ Hforest p p e' e) as [_ ->]; [| |done|].
    + apply (elem_of_sublist (e :: es)); [|done]. right. by apply list_elem_of_In.
    + apply (elem_of_sublist (e :: es)); [|done]. by left.
    + cbn in Hn. apply list.NoDup_cons in Hn as [Hn _]. apply Hn. rewrite list_elem_of_In. by apply in_map.
  - apply IH. etransitivity; [|exact Hs]. by constructor.
Qed.

(** What the loop maintains: [seen] has been popped, and each inode is put
    on the stack once, by its only parent. *)
Record search_inv (seen stack : list Z) : Prop := {
  s_nodup : NoDup (seen ++ stack);
  s_below x : x ∈ seen ++ stack -> below t x /\ dir_at l x = true;
  s_from x : x ∈ seen ++ stack -> x = t \/ exists p, p ∈ seen /\ child (entries_of l) p x;
  s_start : t ∈ seen ++ stack;
  s_closed p c : p ∈ seen -> child (entries_of l) p c -> dir_at l c = true -> c ∈ seen ++ stack;
  s_miss : np ∉ seen }.

Lemma search_visited seen stack : search_inv seen stack -> (length seen + length stack <= length l)%nat.
Proof.
  intros Hi. rewrite <- length_app, <- (length_map inode_number l). apply submseteq_length, NoDup_submseteq.
  - apply (s_nodup _ _ Hi).
  - intros x Hx. by apply dir_at_elem, (s_below _ _ Hi).
Qed.

Lemma search_end seen : search_inv seen [] -> ~ below t np.
Proof.
  intros Hi Hb. apply (s_miss _ _ Hi). revert Hb Hnp. generalize np. intros x Hb.
  pose proof (s_start _ _ Hi) as Hs. rewrite app_nil_r in Hs.
  revert x Hb. apply (rtc_ind_r (fun x => dir_at l x = true -> x ∈ seen) t); [done|]. intros x y Hb Hc IH Hd.
  pose proof (s_closed _ _ Hi x y) as Hy. rewrite app_nil_r in Hy. apply Hy; [|done..]. apply IH.
  apply entries_dir. destruct Hc as (e & He & _). by intros E; rewrite E in He; apply not_elem_of_nil in He.
Qed.

Lemma search_step seen cur stack :
  search_inv seen (cur :: stack) -> cur <> np -> search_inv (seen ++ [cur]) (dir_children l cur ++ stack).
Proof.
  intros Hi Hne. pose proof (s_nodup _ _ Hi) as Hnd.
  assert (seen ++ cur :: stack ≡ₚ (seen ++ [cur]) ++ stack) as Hp by (by rewrite <- app_assoc).
  assert (forall c, c ∈ dir_children l cur -> c ∉ seen ++ cur :: stack) as Hnew.
  { intros c [Hc Hd]%elem_dir_children Hin. destruct (s_from _ _ Hi c Hin) as [->|(p & Hps & Hpc)].
    - apply (f_acyclic _ _ _ Hforest t). eapply tc_rtc_l; [apply (s_below _ _ Hi cur); set_solver|by constructor].
    - destruct Hc as (e & He & Hec), Hpc as (e' & He' & Hec').
      destruct (f_parent _ _ _ Hforest p cur e' e) as [-> _]; [done|done|congruence|].
      apply list.NoDup_app in Hnd as (_ & Hnd & _). apply (Hnd cur Hps). by left. }
  assert (forall x, x ∈ (seen ++ [cur]) ++ dir_children l cur ++ stack <-> x ∈ dir_children l cur \/ x ∈ seen ++ cur :: stack) as Hm
    by set_solver.
  split.
  - assert ((seen ++ [cur]) ++ dir_children l cur ++ stack ≡ₚ dir_children l cur ++ (seen ++ cur :: stack)) as -> by solve_Permutation.
    apply list.NoDup_app. split_and!; [apply dir_children_nodup|done|done].
  - intros x [Hx|Hx]%Hm; [|by apply (s_below _ _ Hi)]. apply elem_dir_children in Hx as [Hc Hd]. split; [|done].
    eapply rtc_r; [apply (s_below _ _ Hi cur); set_solver|done].
  - intros x [Hx|Hx]%Hm.
    + right. exists cur. apply elem_dir_children in Hx as [Hc _]. set_solver.
    + destruct (s_from _ _ Hi x Hx) as [->|(p & Hps & Hpc)]; [by left|right]. exists p. set_solver.
  - apply Hm. right. apply (s_start _ _ Hi).
  - intros p c Hps Hc Hd. apply Hm. apply elem_of_app in Hps as [Hps| ->%list_elem_of_singleton].
    + right. by apply (s_closed _ _ Hi p).
    + left. by apply elem_dir_children.
  - pose proof (s_miss _ _ Hi). set_solver.
Qed.

Lemma descends_inv cap seen stack :
  search_inv seen stack -> (length l < cap + length seen)%nat ->
  descends cap l np stack = true <-> below t np.
Proof.
  revert seen stack. induction cap as [|cap IH]; intros seen stack Hi Hcap; (destruct stack as [|cur stack]; cbn [descends]).
  - split; [done|]. intros Hb. by destruct (search_end seen Hi).
  - pose proof (search_visited _ _ Hi). cbn in *. lia.
  - split; [done|]. intros Hb. by destruct (search_end seen Hi).
  - destruct (Z.eqb_spec cur np) as [->|Hne].
    + split; [intros _|done]. apply (s_below _ _ Hi). set_solver.
    + apply (IH (seen ++ [cur])); [by apply search_step|]. rewrite length_app. cbn. lia.
Qed.

(** The search finds [np] exactly if it is below [t], and its bound on the
    number of inodes visited is never reached. *)
Lemma descends_spec : descends (length l + 1) l np [t] = true <-> below t np.
Proof.
  apply (descends_inv _ []); [|cbn; lia]. split; cbn.
  - apply NoDup_singleton.
  - intros x ->%list_elem_of_singleton. done.
  - intros x ->%list_elem_of_singleton. by left.
  - by apply list_elem_of_singleton.
  - intros p c Hp. by apply not_elem_of_nil in Hp.
  - apply not_elem_of_nil.
Qed.
End search.

(* ------------------------------------------------------------------ *)
(** ** The operations by inode number *)

Lemma create_node_get mk touch parent name fs :
  create_node mk touch parent name fs =
  match get (inodes fs) parent with
  | None => (inr NotFound, fs)
  | Some (RamDir _ es _ _ _ _) =>
      match entry_inode name es with
      | Some _ => (inr FileExists, fs)
      | None =>
          let ino := NEXT_INODE fs in
          (inl ino, mkRamFs (update parent (push_entry (mkDirEntry name ino) touch) (inodes fs) ++ [mk ino])
                      (root_inode fs) (add64 ino 1))
      end
  | Some _ => (inr NotADirectory, fs)
  end.
Proof.
  unfold create_node. find_inode (inodes fs) parent n Hn Hup Hupa; rewrite Hn; [|done].
  destruct n as [|i es p c m a|]; try done. rewrite existsb_name.
  destruct (entry_inode name es); [done|]. cbn. unfold with_inodes. cbn. by rewrite Hupa.
Qed.

Lemma ram_remove_get parent name fs :
  ram_remove parent name fs =
  match get (inodes fs) parent with
  | None => (inr NotFound, fs)
  | Some (RamDir _ es _ _ _ _) =>
      match entry_inode name es with
      | None => (inr NotFound, fs)
      | Some target =>
          match get (inodes fs) target with
          | None => (inr NotFound, fs)
          | Some n =>
              if nonempty_dir n then (inr NotEmpty, fs)
              else (inl tt, with_inodes (retain_not target (update parent (drop_entry name None) (inodes fs))) fs)
          end
      end
  | Some _ => (inr NotADirectory, fs)
  end.
Proof.
  unfold ram_remove. find_inode (inodes fs) parent n Hn Hup Hupa; rewrite Hn; [|done].
  destruct n as [|i es p c m a|]; try done. destruct (entry_inode name es) as [target|]; [|done].
  find_inode (inodes fs) target n' Hn' Hup' Hupa'; rewrite Hn'; [|done]. by rewrite Hup.
Qed.

Lemma unlink_entry_get parent name ticks fs :
  unlink_entry parent name ticks fs =
  match get (inodes fs) parent with
  | None => (inr NotFound, fs)
  | Some (RamDir _ es _ _ _ _) =>
      match entry_inode name es with
      | None => (inr NotFound, fs)
      | Some _ => (inl tt, with_inodes (update parent (drop_entry name (Some (now_secs ticks))) (inodes fs)) fs)
      end
  | Some _ => (inr NotADirectory, fs)
  end.
Proof.
  unfold unlink_entry. find_inode (inodes fs) parent n Hn Hup Hupa; rewrite Hn; [|done].
  destruct n as [|i es p c m a|]; try done. rewrite existsb_name. destruct (entry_inode name es); [|done]. by rewrite Hup.
Qed.

(** The replacement [displace] makes, by number. *)
Lemma displace_get target_is_dir np nidx new_name l n :
  l !! nidx = Some n -> get l np = Some n -> (forall f, alter f nidx l = update np f l) ->
  displace target_is_dir nidx new_name l =
  match entry_inode new_name (entries_of l np) with
  | None => inl l
  | Some existing =>
      match get l existing with
      | None => inr NotFound
      | Some m =>
          if target_is_dir && negb (is_dir m) then inr NotADirectory
          else if negb target_is_dir && is_dir m then inr IsADirectory
          else if nonempty_dir m then inr NotEmpty
          else inl (retain_not existing (update np (drop_entry new_name None) l))
      end
  end.
Proof.
  intros Hi Hg Hup. unfold displace, entries_of. rewrite Hi, Hg. destruct n as [|i es p c m a|]; try done.
  destruct (entry_inode new_name es) as [existing|]; [|done].
  find_inode l existing n' Hn' Hup' Hupa'; rewrite Hn'; [|done]. by rewrite Hup.
Qed.

Lemma relink_get op on np nn target now l :
  is_Some (get l op) -> is_Some (get l np) ->
  relink op on np nn target now l =
  (inl tt, update np (push_entry (mkDirEntry nn target) (Some now)) (update op (drop_entry on (Some now)) l)).
Proof.
  intros [n1 H1] [n2 H2]. unfold relink. find_inode l op n Hn Hup Hupa; [|congruence]. rewrite Hup.
  match goal with |- context [find_inode_idx ?l' np] => find_inode l' np m Hm Hup' Hupa' end; [by rewrite Hup'|].
  rewrite get_update in Hm by auto. destruct (Z.eqb_spec np op) as [->|]; [|congruence]. by rewrite Hn in Hm.
Qed.

(** The checks of a rename, in order, up to the replacement. *)
Definition rename_check (op : Z) (on : Name) (np : Z) (nn : Name) (l : list RamInode) : VfsResult (option Z) :=
  if bad_name on || bad_name nn then inr InvalidArg
  else
    match get l op with
    | None => inr NotFound
    | Some (RamDir _ es _ _ _ _) =>
        match entry_inode on es with
        | None => inr NotFound
        | Some target =>
            match get l np with
            | None => inr NotFound
            | Some n =>
                if negb (is_dir n) then inr NotADirectory
                else if (op =? np) && bool_decide (on = nn) then inl None
                else
                  match get l target with
                  | None => inr NotFound
                  | Some t =>
                      if is_dir t && ((np =? target) || descends (length l + 1) l np [target]) then inr InvalidArg
                      else
                        match entry_inode nn (entries_of l np) with
                        | None => inl (Some target)
                        | Some existing =>
                            match get l existing with
                            | None => inr NotFound
                            | Some m =>
                                if is_dir t && negb (is_dir m) then inr NotADirectory
                                else if negb (is_dir t) && is_dir m then inr IsADirectory
                                else if nonempty_dir m then inr NotEmpty
                                else inl (Some target)
                            end
                        end
                  end
            end
        end
    | Some _ => inr NotADirectory
    end.

(** The inodes after the entry [nn] of [np], if there is one, is gone. *)
Definition displaced (np : Z) (nn : Name) (l : list RamInode) : list RamInode :=
  match entry_inode nn (entries_of l np) with
  | None => l
  | Some existing => retain_not existing (update np (drop_entry nn None) l)
  end.

Lemma ram_rename_get op on np nn ticks fs :
  (forall t e, rename_check op on np nn (inodes fs) = inl (Some t) ->
     entry_inode nn (entries_of (inodes fs) np) = Some e -> e <> op /\ e <> np) ->
  ram_rename op on np nn ticks fs =
  match rename_check op on np nn (inodes fs) with
  | inr e => (inr e, fs)
  | inl None => (inl tt, fs)
  | inl (Some target) =>
      (inl tt, with_inodes
         (update np (push_entry (mkDirEntry nn target) (Some (now_secs ticks)))
            (update op (drop_entry on (Some (now_secs ticks))) (displaced np nn (inodes fs)))) fs)
  end.
Proof.
  intros Hsafe. unfold ram_rename, rename_check in *. destruct (bad_name on || bad_name nn); [done|].
  find_inode (inodes fs) op n Hn Hup Hupa; rewrite Hn in *; [|done]. destruct n as [|i es p c m a|]; try done.
  destruct (entry_inode on es) as [target|]; [|done].
  find_inode (inodes fs) np n' Hn' Hup' Hupa'; rewrite Hn' in *; [|done].
  destruct (negb (is_dir n')); [done|]. destruct (_ && bool_decide (on = nn)); [done|].
  find_inode (inodes fs) target t Ht Hupt Hupat; rewrite Ht in *; [|done].
  destruct (is_dir t && _); [done|]. rewrite (displace_get _ np _ _ _ n') by done. unfold displaced.
  destruct (entry_inode nn (entries_of (inodes fs) np)) as [existing|]; [|by rewrite relink_get].
  destruct (get (inodes fs) existing) as [x|]; [|done].
  repeat match goal with |- context [if ?b then inr _ else _] => destruct b; [done|] end.
  destruct (Hsafe target existing eq_refl eq_refl) as [He1 He2].
  rewrite relink_get; [done| |]; rewrite get_retain, get_update by auto.
  - rewrite (proj2 (Z.eqb_neq _ _)) by done. destruct (Z.eqb_spec op np) as [->|]; [by rewrite Hn'|by rewrite Hn].
  - rewrite (proj2 (Z.eqb_neq _ _)) by done. by rewrite Z.eqb_refl, Hn'.
Qed.

(* ------------------------------------------------------------------ *)
(** ** The invariant *)

Record ram_ok (fs : RamFs) : Prop := {
  ok_keys : NoDup (map inode_number (inodes fs));
  ok_range n : n ∈ inodes fs -> 1 <= inode_number n < NEXT_INODE fs;
  ok_next : NEXT_INODE fs <= U64_MAX;
  ok_root : dir_at (inodes fs) (root_inode fs) = true;
  ok_forest : forest (entries_of (inodes fs)) (fun i => is_Some (get (inodes fs) i)) (root_inode fs) }.

Definition not_named (name : Name) (es : list DirEntry) : list DirEntry :=
  List.filter (fun e => negb (bool_decide (de_name e = name))) es.

Lemma entries_push p e t l q :
  dir_at l p = true ->
  entries_of (update p (push_entry e t) l) q = if q =? p then entries_of l p ++ [e] else entries_of l q.
Proof.
  unfold entries_of, dir_at. intros Hd. rewrite get_update by auto. destruct (q =? p); [|done].
  by destruct (get l p) as [[]|].
Qed.

Lemma entries_drop p name t l q :
  entries_of (update p (drop_entry name t) l) q = if q =? p then not_named name (entries_of l p) else entries_of l q.
Proof.
  unfold entries_of. rewrite get_update by auto. destruct (q =? p); [|done]. by destruct (get l p) as [[]|].
Qed.

Lemma entries_retain i l q : entries_of (retain_not i l) q = if q =? i then [] else entries_of l q.
Proof. unfold entries_of. rewrite get_retain. by destruct (q =? i). Qed.

Lemma entries_app l m q : entries_of (l ++ [m]) q = match get l q with
  | Some _ => entries_of l q
  | None => if inode_number m =? q then match m with RamDir _ es _ _ _ _ => es | _ => [] end else []
  end.
Proof. unfold entries_of. rewrite get_app. destruct (get l q); [done|]. by destruct (_ =? _). Qed.

Lemma dom_update p f l i : (forall n, inode_number (f n) = inode_number n) ->
  is_Some (get (update p f l) i) <-> is_Some (get l i).
Proof.
  intros Hf. rewrite get_update by done. destruct (Z.eqb_spec i p) as [->|]; [|done]. by rewrite fmap_is_Some.
Qed.

Lemma dir_at_update p f l i : (forall n, inode_number (f n) = inode_number n) -> (forall n, is_dir (f n) = is_dir n) ->
  dir_at (update p f l) i = dir_at l i.
Proof.
  intros Hf Hd. unfold dir_at. rewrite get_update by done. destruct (Z.eqb_spec i p) as [->|]; [|done].
  destruct (get l p); [apply Hd|done].
Qed.

Lemma push_entry_dir e t n : is_dir (push_entry e t n) = is_dir n.
Proof. by destruct n. Qed.
Lemma drop_entry_dir e t n : is_dir (drop_entry e t n) = is_dir n.
Proof. by destruct n. Qed.
#[local] Hint Resolve push_entry_dir drop_entry_dir : core.

Lemma not_named_sublist name es : not_named name es `sublist_of` es.
Proof. apply filter_sublist. Qed.

Lemma elem_not_named name es e : e ∈ not_named name es <-> e ∈ es /\ de_name e <> name.
Proof.
  unfold not_named. rewrite list_elem_of_In, filter_In, <- list_elem_of_In, negb_true_iff, bool_decide_eq_false. done.
Qed.

Lemma drop_sublist p name t l q : entries_of (update p (drop_entry name t) l) q `sublist_of` entries_of l q.
Proof.
  rewrite entries_drop. destruct (Z.eqb_spec q p) as [->|]; [apply not_named_sublist|done].
Qed.

Lemma elem_update p f l n : (forall n, inode_number (f n) = inode_number n) ->
  n ∈ update p f l -> exists m, m ∈ l /\ inode_number n = inode_number m.
Proof.
  intros Hf. unfold update. induction l as [|m l IH]; cbn; [by intros ?%not_elem_of_nil|].
  destruct (_ =? _); rewrite !list.elem_of_cons; intros [->|Hn].
  - exists m. split; [by left|apply Hf].
  - exists n. split; [by right|done].
  - exists m. split; [by left|done].
  - destruct (IH Hn) as (x & ? & ?). exists x. split; [by right|done].
Qed.

(** Updates that keep the numbers keep everything but the graph. *)
Lemma ram_ok_update p f fs :
  (forall n, inode_number (f n) = inode_number n) -> (forall n, is_dir (f n) = is_dir n) -> ram_ok fs ->
  forest (entries_of (update p f (inodes fs))) (fun i => is_Some (get (inodes fs) i)) (root_inode fs) ->
  ram_ok (with_inodes (update p f (inodes fs)) fs).
Proof.
  intros Hf Hd [H1 H2 H3 H4 H5] Hfo. split; cbn; try done.
  - unfold update. by rewrite (update_first_keys inode_number).
  - intros n (m & Hm & ->)%elem_update; [|done]. by apply H2.
  - by rewrite dir_at_update.
  - apply (forest_more _ _ _ _ Hfo). intros i Hi. by apply dom_update.
Qed.

(** Removing an inode no entry names. *)
Lemma ram_ok_retain i fs :
  ram_ok fs -> i <> root_inode fs -> (forall p e, e ∈ entries_of (inodes fs) p -> de_inode e <> i) ->
  ram_ok (with_inodes (retain_not i (inodes fs)) fs).
Proof.
  intros [H1 H2 H3 H4 H5] Hr Hfree.
  assert (forall j, j <> i -> get (retain_not i (inodes fs)) j = get (inodes fs) j) as Hg.
  { intros j Hj. rewrite get_retain. by rewrite (proj2 (Z.eqb_neq j i)). }
  split; cbn; try done.
  - apply (sublist_NoDup _ (map inode_number (inodes fs))); [done|]. apply sublist_map, filter_sublist.
  - intros n Hn. apply H2. by apply (elem_of_sublist _ _ _ Hn), filter_sublist.
  - unfold dir_at. by rewrite Hg.
  - apply (forest_sub (entries_of (inodes fs)) _ (fun i => is_Some (get (inodes fs) i))); [done| | | |].
    + intros p. rewrite entries_retain. destruct (p =? i); [apply sublist_nil_l|done].
    + cbv beta. rewrite Hg by done. apply (f_root _ _ _ H5).
    + intros p e. rewrite entries_retain. destruct (Z.eqb_spec p i) as [->|]; [by intros ?%not_elem_of_nil|]. intros He. cbv beta.
      rewrite Hg by by apply (Hfree p). by apply (f_targets _ _ _ H5 p).
    + intros p. rewrite entries_retain. destruct (Z.eqb_spec p i) as [->|]; [done|]. intros He. cbv beta.
      rewrite Hg by done. by apply (f_dirs _ _ _ H5).
Qed.

Lemma ram_ok_drop p name t fs :
  ram_ok fs -> ram_ok (with_inodes (update p (drop_entry name t) (inodes fs)) fs).
Proof.
  intros Hok. apply ram_ok_update; auto. pose proof (ok_forest fs Hok) as Hf.
  apply (forest_sub _ _ _ _ _ Hf); [apply drop_sublist|apply (f_root _ _ _ Hf)| |].
  - intros q e He. apply (f_targets _ _ _ Hf q). by apply (elem_of_sublist _ _ _ He), drop_sublist.
  - intros q Hq. apply (f_dirs _ _ _ Hf). intros E. apply Hq.
    pose proof (drop_sublist p name t (inodes fs) q) as Hs. rewrite E in Hs. by apply sublist_nil_r in Hs.
Qed.

(** A new entry for an inode without one. *)
Lemma ram_ok_push p name t touch fs :
  ram_ok fs -> dir_at (inodes fs) p = true -> is_Some (get (inodes fs) t) -> t <> root_inode fs ->
  (forall q e, e ∈ entries_of (inodes fs) q -> de_inode e <> t) ->
  ~ rtc (child (entries_of (inodes fs))) t p -> name ∉ map de_name (entries_of (inodes fs) p) ->
  ram_ok (with_inodes (update p (push_entry (mkDirEntry name t) touch) (inodes fs)) fs).
Proof.
  intros Hok Hp Ht Hr Hfree Hb Hn. apply ram_ok_update; auto.
  apply (forest_link (entries_of (inodes fs)) _ _ _ p name t); try done.
  - apply ok_forest, Hok.
  - unfold dir_at in Hp. by destruct (get (inodes fs) p).
  - intros q. by apply entries_push.
Qed.

(** The number allocated next is not in use. *)
Lemma fresh_number fs : ram_ok fs -> get (inodes fs) (NEXT_INODE fs) = None.
Proof.
  intros Hok. destruct (get _ _) as [n|] eqn:E; [|done]. pose proof (ok_range fs Hok n (get_elem _ _ _ E)).
  pose proof (get_number _ _ _ E). lia.
Qed.

(** A fresh inode without entries. *)
Lemma ram_ok_new mk fs :
  ram_ok fs -> NEXT_INODE fs < U64_MAX -> inode_number mk = NEXT_INODE fs ->
  match mk with RamDir _ (_ :: _) _ _ _ _ => False | _ => True end ->
  ram_ok (mkRamFs (inodes fs ++ [mk]) (root_inode fs) (add64 (NEXT_INODE fs) 1)).
Proof.
  intros Hok Hlt Hmk He. pose proof (fresh_number fs Hok) as Hnone. destruct Hok as [H1 H2 H3 H4 H5].
  assert (forall q, entries_of (inodes fs ++ [mk]) q = entries_of (inodes fs) q) as HE.
  { intros q. rewrite entries_app. unfold entries_of. destruct (get (inodes fs) q); [done|].
    destruct (_ =? q); [|done]. by destruct mk as [| ? [|] |]. }
  assert (1 <= NEXT_INODE fs) as Hpos.
  { unfold dir_at in H4. destruct (get (inodes fs) (root_inode fs)) as [n|] eqn:E; [|done].
    pose proof (H2 n (get_elem _ _ _ E)). lia. }
  split; cbn.
  - rewrite map_app. apply list.NoDup_app. split_and!; [done| |apply NoDup_singleton].
    intros x Hx ->%list_elem_of_singleton. rewrite list_elem_of_In in Hx. apply in_map_iff in Hx as (n & Hn & Hin).
    apply list_elem_of_In, H2 in Hin. lia.
  - rewrite add64_small by (unfold U64_MAX in *; lia). intros n [Hn| ->%list_elem_of_singleton]%elem_of_app; [|lia].
    apply H2 in Hn. lia.
  - rewrite add64_small by (unfold U64_MAX in *; lia). lia.
  - unfold dir_at in *. rewrite get_app. by destruct (get (inodes fs) (root_inode fs)).
  - apply (forest_sub (entries_of (inodes fs)) _ (fun i => is_Some (get (inodes fs) i))); [done| | | |].
    + intros p. by rewrite HE.
    + cbv beta. rewrite get_app. by destruct (f_root _ _ _ H5) as [n ->].
    + intros p e. rewrite HE. intros Hpe. cbv beta. rewrite get_app. by destruct (f_targets _ _ _ H5 p e Hpe) as [n ->].
    + intros p. rewrite HE. intros Hpe. cbv beta. rewrite get_app. by destruct (f_dirs _ _ _ H5 p Hpe) as [n ->].
Qed.

Lemma dir_entries l p i es pm c m a : get l p = Some (RamDir i es pm c m a) -> entries_of l p = es /\ dir_at l p = true.
Proof. intros E. unfold entries_of, dir_at. by rewrite E. Qed.

Lemma dir_at_get l p : dir_at l p = true -> is_Some (get l p).
Proof. unfold dir_at. by destruct (get l p). Qed.

Lemma update_app p f l m : is_Some (get l p) -> update p f (l ++ [m]) = update p f l ++ [m].
Proof.
  unfold get, update. intros [n Hn]. induction l as [|x l IH]; cbn in *; [done|].
  destruct (inode_number x =? p); [done|]. by rewrite IH.
Qed.

(** Below an inode without entries there is only itself. *)
Lemma below_leaf E x y : E x = [] -> rtc (child E) x y -> y = x.
Proof.
  intros He H. destruct H as [|x z y (e & Hin & _) _]; [done|]. rewrite He in Hin. by apply not_elem_of_nil in Hin.
Qed.

(** Each inode has one entry at most: dropping it leaves none. *)
Lemma dropped_unnamed fs p name e t q e' :
  ram_ok fs -> e ∈ entries_of (inodes fs) p -> de_name e = name ->
  e' ∈ entries_of (update p (drop_entry name t) (inodes fs)) q -> de_inode e' <> de_inode e.
Proof.
  intros Hok He Hn He' Heq. rewrite entries_drop in He'.
  assert (e' ∈ entries_of (inodes fs) q) as Hin.
  { destruct (Z.eqb_spec q p) as [->|]; [|done]. by apply elem_not_named in He' as [? _]. }
  destruct (f_parent _ _ _ (ok_forest fs Hok) q p e' e Hin He Heq) as [-> ->].
  rewrite Z.eqb_refl in He'. by apply elem_not_named in He' as [_ ?].
Qed.

Lemma create_node_ok mk touch parent name fs :
  ram_ok fs -> NEXT_INODE fs < U64_MAX -> (forall i, inode_number (mk i) = i) ->
  (forall i, match mk i with RamDir _ (_ :: _) _ _ _ _ => False | _ => True end) ->
  ram_ok (snd (create_node mk touch parent name fs)).
Proof.
  intros Hok Hlt Hnum Hemp. rewrite create_node_get.
  destruct (get (inodes fs) parent) as [[|i es p c m a|]|] eqn:Hg; try done.
  destruct (entry_inode name es) eqn:He; [done|]. cbn [snd].
  destruct (dir_entries _ _ _ _ _ _ _ _ Hg) as [Hes Hd]. set (ino := NEXT_INODE fs).
  pose proof (ram_ok_new (mk ino) fs Hok Hlt (Hnum ino) (Hemp ino)) as Hok1.
  set (fs1 := mkRamFs (inodes fs ++ [mk ino]) (root_inode fs) (add64 ino 1)) in *.
  assert (get (inodes fs) ino = None) as Hnone.
  { apply fresh_number, Hok. }
  assert (forall q, entries_of (inodes fs1) q = entries_of (inodes fs) q) as HE.
  { intros q. cbn. rewrite entries_app. unfold entries_of. destruct (get (inodes fs) q); [done|].
    destruct (_ =? q); [|done]. specialize (Hemp ino). by destruct (mk ino) as [| ? [|] |]. }
  rewrite <- update_app by by rewrite Hg.
  change (ram_ok (with_inodes (update parent (push_entry (mkDirEntry name ino) touch) (inodes fs1)) fs1)).
  apply ram_ok_push; try done.
  - cbn. unfold dir_at. rewrite get_app, Hg. done.
  - cbn. rewrite get_app, Hnone, Hnum, Z.eqb_refl. done.
  - intros Hr. cbn in Hr. destruct (dir_at_get _ _ (ok_root fs Hok)) as [n Hn]. congruence.
  - intros q e. rewrite HE. intros Hq <-. destruct (f_targets _ _ _ (ok_forest fs Hok) q e Hq). congruence.
  - intros Hb. apply below_leaf in Hb as ->; [congruence|]. rewrite HE. unfold entries_of. by rewrite Hnone.
  - rewrite HE, Hes. by apply entry_inode_none.
Qed.

(** What [remove] and the replacement in [rename] do to the graph. *)
Lemma take_out_ok p name e fs :
  ram_ok fs -> e ∈ entries_of (inodes fs) p -> de_name e = name ->
  ram_ok (with_inodes (retain_not (de_inode e) (update p (drop_entry name None) (inodes fs))) fs).
Proof.
  intros Hok He Hn. pose proof (ram_ok_drop p name None fs Hok) as Hok1.
  apply (ram_ok_retain (de_inode e) _ Hok1); cbn.
  - by apply (f_top _ _ _ (ok_forest fs Hok) p).
  - intros q e' He'. by apply (dropped_unnamed fs p name e None q e').
Qed.

Lemma ram_remove_ok parent name fs : ram_ok fs -> ram_ok (snd (ram_remove parent name fs)).
Proof.
  intros Hok. rewrite ram_remove_get. destruct (get (inodes fs) parent) as [[|i es p c m a|]|] eqn:Hg; try done.
  destruct (entry_inode name es) as [target|] eqn:He; [|done]. destruct (get (inodes fs) target) as [n|]; [|done].
  destruct (nonempty_dir n); [done|]. destruct (entry_inode_some _ _ _ He) as (e & Hin & Hn & <-).
  destruct (dir_entries _ _ _ _ _ _ _ _ Hg) as [Hes _]. apply (take_out_ok parent name e); [done|by rewrite Hes|done].
Qed.

(** Names in a directory are distinct, so a name finds its entry. *)
Lemma entry_inode_elem fs p e :
  ram_ok fs -> e ∈ entries_of (inodes fs) p -> entry_inode (de_name e) (entries_of (inodes fs) p) = Some (de_inode e).
Proof.
  intros Hok He. destruct (entry_inode (de_name e) (entries_of (inodes fs) p)) as [i|] eqn:E.
  - apply entry_inode_some in E as (e' & He' & Hn & <-).
    assert (e' = e) as ->; [|done]. pose proof (f_names _ _ _ (ok_forest fs Hok) p) as Hnd.
    apply list_elem_of_lookup in He as [j1 H1], He' as [j2 H2].
    assert (j2 = j1) as ->; [|congruence]. eapply (NoDup_lookup _ _ _ (de_name e) Hnd).
    + change (map de_name) with (fmap (M := list) de_name). rewrite list_lookup_fmap, H2. cbn. by rewrite Hn.
    + change (map de_name) with (fmap (M := list) de_name). by rewrite list_lookup_fmap, H1.
  - apply entry_inode_none in E. destruct E. rewrite list_elem_of_In. by apply in_map, list_elem_of_In.
Qed.

(** What a rename that goes ahead has checked. *)
Record rename_pre (fs : RamFs) (op : Z) (on : Name) (np : Z) (nn : Name) (target : Z) : Prop := {
  rp_entry : mkDirEntry on target ∈ entries_of (inodes fs) op;
  rp_target : is_Some (get (inodes fs) target);
  rp_parent : dir_at (inodes fs) np = true;
  rp_below : ~ rtc (child (entries_of (inodes fs))) target np;
  rp_moved : ~ (op = np /\ on = nn);
  rp_over e : e ∈ entries_of (inodes fs) np -> de_name e = nn ->
    dir_at (inodes fs) (de_inode e) = dir_at (inodes fs) target /\ entries_of (inodes fs) (de_inode e) = [] }.

Lemma rename_check_pre fs op on np nn target :
  ram_ok fs -> rename_check op on np nn (inodes fs) = inl (Some target) -> rename_pre fs op on np nn target.
Proof.
  intros Hok. unfold rename_check. destruct (bad_name on || bad_name nn); [done|].
  destruct (get (inodes fs) op) as [[|i es p c m a|]|] eqn:Hg; try done.
  destruct (dir_entries _ _ _ _ _ _ _ _ Hg) as [Hes _].
  destruct (entry_inode on es) as [target'|] eqn:He; [|done].
  destruct (get (inodes fs) np) as [n|] eqn:Hnp; [|done]. destruct (is_dir n) eqn:Hd; [|done]. cbn [negb].
  destruct (_ && _) eqn:Hsame; [done|]. destruct (get (inodes fs) target') as [t|] eqn:Ht; [|done].
  destruct (is_dir t && _) eqn:Hb; [done|]. intros Hover.
  assert (target' = target) as ->.
  { destruct (entry_inode nn _); [|congruence]. destruct (get _ z); [|done]. repeat case_match; congruence. }
  assert (dir_at (inodes fs) np = true) as Hdnp by (unfold dir_at; by rewrite Hnp).
  split; try done.
  - rewrite Hes. apply entry_inode_some in He as ([] & ? & ? & ?). cbn in *. congruence.
  - destruct (is_dir t) eqn:Hdt; cbn in Hb.
    + apply orb_false_iff in Hb as [_ Hb]. rewrite <- not_true_iff_false in Hb. rewrite <- (descends_spec (inodes fs) _ _ target np (ok_forest fs Hok)); [done| |done].
      unfold dir_at. by rewrite Ht.
    + intros Hb'. apply below_leaf in Hb' as ->; [congruence|]. unfold entries_of. rewrite Ht. by destruct t.
  - intros [-> ->]. by rewrite Z.eqb_refl, bool_decide_eq_true_2 in Hsame.
  - intros e Hin <-. rewrite (entry_inode_elem fs np e Hok Hin) in Hover. unfold dir_at, entries_of. rewrite Ht.
    destruct (get (inodes fs) (de_inode e)) as [m'|]; [|done].
    destruct (is_dir t), (is_dir m') eqn:Hm; cbn in Hover; try done; (split; [done|]); destruct m' as [|? []|]; done.
Qed.

(** The entry a rename replaces is neither of the two directories. *)
Lemma rename_pre_safe fs op on np nn target e :
  ram_ok fs -> rename_pre fs op on np nn target -> e ∈ entries_of (inodes fs) np -> de_name e = nn ->
  de_inode e <> op /\ de_inode e <> np /\ de_inode e <> target.
Proof.
  intros Hok [H1 H2 H3 H4 H5 H6] He Hn. destruct (H6 e He Hn) as [_ Hemp]. split_and!.
  - intros E. rewrite E in Hemp. rewrite Hemp in H1. by apply not_elem_of_nil in H1.
  - intros E. rewrite E in Hemp. rewrite Hemp in He. by apply not_elem_of_nil in He.
  - intros E. destruct (f_parent _ _ _ (ok_forest fs Hok) np op e (mkDirEntry on target) He H1 E) as [-> ->]. by apply H5.
Qed.

Lemma ram_rename_check op on np nn ticks fs :
  ram_ok fs ->
  ram_rename op on np nn ticks fs =
  match rename_check op on np nn (inodes fs) with
  | inr e => (inr e, fs)
  | inl None => (inl tt, fs)
  | inl (Some target) =>
      (inl tt, with_inodes
         (update np (push_entry (mkDirEntry nn target) (Some (now_secs ticks)))
            (update op (drop_entry on (Some (now_secs ticks))) (displaced np nn (inodes fs)))) fs)
  end.
Proof.
  intros Hok. apply ram_rename_get. intros t e Hc (e' & He & Hn & <-)%entry_inode_some.
  pose proof (rename_check_pre _ _ _ _ _ _ Hok Hc) as Hp.
  destruct (rename_pre_safe _ _ _ _ _ _ e' Hok Hp He Hn) as (? & ? & _). done.
Qed.

Lemma not_named_none name es : name ∉ map de_name es -> not_named name es = es.
Proof.
  intros Hn. unfold not_named. rewrite forallb_filter_id; [done|]. apply forallb_forall. intros e He.
  rewrite bool_decide_eq_false_2; [done|]. intros <-. apply Hn. rewrite list_elem_of_In. by apply in_map.
Qed.

(** The file system once the entry a rename replaces is gone. *)
Lemma displaced_spec fs op on np nn target :
  ram_ok fs -> rename_pre fs op on np nn target ->
  let l := displaced np nn (inodes fs) in
  ram_ok (with_inodes l fs) /\
  (forall q, entries_of l q = if q =? np then not_named nn (entries_of (inodes fs) np) else entries_of (inodes fs) q) /\
  (forall q, dir_at (inodes fs) q = true -> entry_inode nn (entries_of (inodes fs) np) <> Some q -> dir_at l q = true) /\
  (forall i, entry_inode nn (entries_of (inodes fs) np) <> Some i -> is_Some (get (inodes fs) i) -> is_Some (get l i)).
Proof.
  intros Hok Hp. cbv zeta. unfold displaced.
  destruct (entry_inode nn (entries_of (inodes fs) np)) as [ex|] eqn:E.
  - destruct (entry_inode_some _ _ _ E) as (e & He & Hn & <-). split_and!.
    + by apply take_out_ok.
    + intros q. rewrite entries_retain, entries_drop. destruct (Z.eqb_spec q (de_inode e)) as [->|]; [|done].
      destruct (rename_pre_safe _ _ _ _ _ _ e Hok Hp He Hn) as (_ & Hne & _).
      rewrite (proj2 (Z.eqb_neq _ _)) by done. symmetry. by apply (rp_over _ _ _ _ _ _ Hp).
    + intros q Hq Hne. unfold dir_at. rewrite get_retain, (proj2 (Z.eqb_neq q _)) by congruence.
      change (dir_at (update np (drop_entry nn None) (inodes fs)) q = true). by rewrite dir_at_update by auto.
    + intros i Hne Hi. rewrite get_retain, (proj2 (Z.eqb_neq i _)) by congruence. apply dom_update; auto.
  - split_and!; [by destruct fs| |done|done]. intros q. rewrite not_named_none by by apply entry_inode_none.
    by destruct (Z.eqb_spec q np) as [->|].
Qed.

(** The graph after a rename. *)
Definition renamed (E : Z -> list DirEntry) (op : Z) (on : Name) (np : Z) (nn : Name) (target q : Z) : list DirEntry :=
  let E1 q := if q =? np then not_named nn (E np) else E q in
  let E2 q := if q =? op then not_named on (E1 op) else E1 q in
  if q =? np then E2 np ++ [mkDirEntry nn target] else E2 q.

Lemma ram_rename_ok op on np nn ticks fs target :
  ram_ok fs -> rename_check op on np nn (inodes fs) = inl (Some target) ->
  ram_ok (snd (ram_rename op on np nn ticks fs)) /\
  forall q, entries_of (inodes (snd (ram_rename op on np nn ticks fs))) q =
            renamed (entries_of (inodes fs)) op on np nn target q.
Proof.
  intros Hok Hc. rewrite (ram_rename_check _ _ _ _ _ _ Hok), Hc. cbn [snd inodes with_inodes].
  pose proof (rename_check_pre _ _ _ _ _ _ Hok Hc) as Hp. pose proof Hp as [P1 P2 P3 P4 P5 P6].
  destruct (displaced_spec _ _ _ _ _ _ Hok Hp) as (Hok1 & HE1 & Hd1 & Hg1). set (l1 := displaced np nn (inodes fs)) in *.
  set (now := now_secs ticks).
  pose proof (ram_ok_drop op on (Some now) _ Hok1) as Hok2. cbn [inodes with_inodes] in Hok2.
  assert (forall e, e ∈ entries_of (inodes fs) np -> de_name e = nn -> de_inode e <> target /\ de_inode e <> np) as Hsafe.
  { intros e He Hn. by destruct (rename_pre_safe _ _ _ _ _ _ e Hok Hp He Hn) as (_ & ? & ?). }
  assert (forall i, (forall e, e ∈ entries_of (inodes fs) np -> de_name e = nn -> de_inode e <> i) ->
    entry_inode nn (entries_of (inodes fs) np) <> Some i) as Hno.
  { intros i Hi (e & He & Hn & Hx)%entry_inode_some. by apply (Hi e). }
  assert (mkDirEntry on target ∈ entries_of l1 op) as Hent.
  { rewrite HE1. destruct (Z.eqb_spec op np) as [->|]; [|done]. apply elem_not_named. split; [done|].
    intros ?. by apply P5. }
  assert (dir_at l1 np = true) as Hdnp by (apply Hd1; [done|]; apply Hno; naive_solver).
  assert (dir_at (update op (drop_entry on (Some now)) l1) np = true) as Hdnp2 by (by rewrite dir_at_update by auto).
  split.
  - apply (ram_ok_push np nn target (Some now) _ Hok2); cbn [inodes with_inodes root_inode]; try done.
    + apply dom_update; [auto|]. apply Hg1; [|done]. apply Hno. naive_solver.
    + apply (f_top _ _ _ (ok_forest fs Hok) op _ P1).
    + intros q e He. by apply (dropped_unnamed (with_inodes l1 fs) op on (mkDirEntry on target) (Some now) q e).
    + intros Hb. apply P4. revert Hb. apply rtc_subrel. intros a b (e & He & <-). exists e. split; [|done].
      apply (elem_of_sublist _ _ _ He). etransitivity; [apply drop_sublist|]. rewrite HE1.
      destruct (Z.eqb_spec a np) as [->|]; [apply not_named_sublist|done].
    + rewrite entries_drop. intros Hin.
      assert (nn ∈ map de_name (entries_of l1 np)) as Hin'.
      { destruct (Z.eqb_spec np op) as [->|]; [|done]. apply (elem_of_sublist _ _ _ Hin), sublist_map, not_named_sublist. }
      rewrite HE1, Z.eqb_refl in Hin'. rewrite list_elem_of_In in Hin'. apply in_map_iff in Hin' as (e & He & Hin').
      apply list_elem_of_In, elem_not_named in Hin' as [_ ?]. done.
  - intros q. rewrite (entries_push _ _ _ _ _ Hdnp2). unfold renamed. rewrite !entries_drop, !HE1. done.
Qed.

(* ------------------------------------------------------------------ *)
(** ** Every operation keeps the invariant *)

(** One call on the file system. Number allocation by the other file systems
    moves the shared counter, and [remove_inode] is called for inodes that
    were unlinked before. *)
Inductive ram_step (fs : RamFs) : RamFs -> Prop :=
| rs_file parent name ticks : NEXT_INODE fs < U64_MAX -> ram_step fs (snd (create_file parent name ticks fs))
| rs_dir parent name ticks : NEXT_INODE fs < U64_MAX -> ram_step fs (snd (create_dir parent name ticks fs))
| rs_symlink parent name target ticks :
    NEXT_INODE fs < U64_MAX -> ram_step fs (snd (symlink parent name target ticks fs))
| rs_remove parent name : ram_step fs (snd (ram_remove parent name fs))
| rs_read inode offset len ticks : ram_step fs (snd (ram_read inode offset len ticks fs))
| rs_write inode offset data ticks r fs' : ram_write inode offset data ticks fs = Some (r, fs') -> ram_step fs fs'
| rs_truncate inode size ticks : ram_step fs (snd (ram_truncate inode size ticks fs))
| rs_rename op on np nn ticks : ram_step fs (snd (ram_rename op on np nn ticks fs))
| rs_chmod inode mode : ram_step fs (snd (ram_chmod inode mode fs))
| rs_unlink parent name ticks : ram_step fs (snd (unlink_entry parent name ticks fs))
| rs_remove_inode inode :
    inode <> root_inode fs -> (forall p e, e ∈ entries_of (inodes fs) p -> de_inode e <> inode) ->
    ram_step fs (snd (remove_inode inode fs))
| rs_other next : NEXT_INODE fs <= next <= U64_MAX -> ram_step fs (mkRamFs (inodes fs) (root_inode fs) next).

Inductive ram_reach : RamFs -> Prop :=
| rr_new ticks next : 2 <= next <= U64_MAX -> ram_reach (ramfs_new ticks next)
| rr_step fs fs' : ram_reach fs -> ram_step fs fs' -> ram_reach fs'.

(** Changes to one inode that leave its number and entries. *)
Lemma ram_ok_inner p f fs :
  (forall n, inode_number (f n) = inode_number n) -> (forall n, is_dir (f n) = is_dir n) ->
  (forall i es p c m a, exists p' c' m' a', f (RamDir i es p c m a) = RamDir i es p' c' m' a') ->
  ram_ok fs -> ram_ok (with_inodes (update p f (inodes fs)) fs).
Proof.
  intros Hf Hd He Hok. apply ram_ok_update; try done. pose proof (ok_forest fs Hok) as Hfo.
  assert (forall q, entries_of (update p f (inodes fs)) q = entries_of (inodes fs) q) as HE.
  { intros q. unfold entries_of. rewrite get_update by done. destruct (Z.eqb_spec q p) as [->|]; [|done].
    destruct (get (inodes fs) p) as [n|]; [|done]. cbn. specialize (Hd n). destruct n as [|i es pm c m a|]; cbn in *.
    - by destruct (f _).
    - by destruct (He i es pm c m a) as (? & ? & ? & ? & ->).
    - by destruct (f _). }
  apply (forest_sub _ _ _ _ _ Hfo).
  - intros q. by rewrite HE.
  - apply (f_root _ _ _ Hfo).
  - intros q e. rewrite HE. apply (f_targets _ _ _ Hfo).
  - intros q. rewrite HE. apply (f_dirs _ _ _ Hfo).
Qed.

(** The inode of a file put back with other data and times. *)
Definition set_file (data : list Z) (modified accessed : Z) (n : RamInode) : RamInode :=
  match n with RamFile i _ p c _ _ => RamFile i data p c modified accessed | _ => n end.

Lemma insert_file l inode idx i data p c m a data' m' a' :
  l !! idx = Some (RamFile i data p c m a) -> (forall f, alter f idx l = update inode f l) ->
  <[idx := RamFile i data' p c m' a']> l = update inode (set_file data' m' a') l.
Proof.
  intros Hidx Hup. rewrite <- Hup. clear Hup. revert idx Hidx.
  induction l as [|n l IH]; intros [|idx] H; cbn in *; [done|done| |].
  - by injection H as ->.
  - f_equal. by apply IH.
Qed.

Lemma ram_ok_file p data m a fs : ram_ok fs -> ram_ok (with_inodes (update p (set_file data m a) (inodes fs)) fs).
Proof. apply ram_ok_inner; [by intros []|by intros []|]. intros i es pm c m' a'. cbn. by exists pm, c, m', a'. Qed.

Lemma ram_read_get inode offset len ticks fs :
  ram_read inode offset len ticks fs =
  match get (inodes fs) inode with
  | None => (inr NotFound, fs)
  | Some (RamFile _ data _ _ m _) =>
      (inl (read_bytes data offset len),
       if Z.of_nat (length data) <=? offset then fs
       else with_inodes (update inode (set_file data m (now_secs ticks)) (inodes fs)) fs)
  | Some (RamSymLink _ target _ _ _ _) => (inl (read_bytes target offset len), fs)
  | Some _ => (inr IsADirectory, fs)
  end.
Proof.
  unfold ram_read. find_inode (inodes fs) inode n Hn Hup Hupa; rewrite Hn; [|done].
  destruct n as [i data p c m a| |]; try done. unfold read_bytes. destruct (_ <=? offset); [done|].
  by rewrite (insert_file _ inode _ _ _ _ _ _ _ _ _ _ Hidx Hup).
Qed.

Lemma ram_write_get inode offset data_in ticks fs :
  ram_write inode offset data_in ticks fs =
  match get (inodes fs) inode with
  | None => Some (inr NotFound, fs)
  | Some (RamFile _ data _ _ _ a) =>
      data' ← write_bytes data offset data_in;
      Some (inl (Z.of_nat (length data_in)),
            with_inodes (update inode (set_file data' (now_secs ticks) a) (inodes fs)) fs)
  | Some (RamSymLink _ _ _ _ _ _) => Some (inr InvalidArg, fs)
  | Some _ => Some (inr IsADirectory, fs)
  end.
Proof.
  unfold ram_write. find_inode (inodes fs) inode n Hn Hup Hupa; rewrite Hn; [|done].
  destruct n as [i data p c m a| |]; try done. destruct (write_bytes data offset data_in) as [d|]; [|done]. cbn.
  by rewrite (insert_file _ inode _ _ _ _ _ _ _ _ _ _ Hidx Hup).
Qed.

Lemma ram_truncate_get inode size ticks fs :
  ram_truncate inode size ticks fs =
  match get (inodes fs) inode with
  | None => (inr NotFound, fs)
  | Some (RamFile _ data _ _ _ a) =>
      (inl tt, with_inodes (update inode (set_file (resize (Z.to_nat size) data) (now_secs ticks) a) (inodes fs)) fs)
  | Some _ => (inr IsADirectory, fs)
  end.
Proof.
  unfold ram_truncate. find_inode (inodes fs) inode n Hn Hup Hupa; rewrite Hn; [|done].
  destruct n as [i data p c m a| |]; try done. by rewrite (insert_file _ inode _ _ _ _ _ _ _ _ _ _ Hidx Hup).
Qed.

Lemma ram_step_ok fs fs' : ram_step fs fs' -> ram_ok fs -> ram_ok fs'.
Proof.
  intros Hs Hok. destruct Hs.
  - by apply create_node_ok.
  - by apply create_node_ok.
  - by apply create_node_ok.
  - by apply ram_remove_ok.
  - rewrite ram_read_get. destruct (get (inodes fs) inode) as [[]|]; try done. cbn. destruct (_ <=? _); [done|].
    by apply ram_ok_file.
  - rewrite ram_write_get in H. destruct (get (inodes fs) inode) as [[]|]; try (by injection H as <- <-).
    destruct (write_bytes _ _ _); [|done]. injection H as <- <-. by apply ram_ok_file.
  - rewrite ram_truncate_get. destruct (get (inodes fs) inode) as [[]|]; try done. by apply ram_ok_file.
  - destruct (rename_check op on np nn (inodes fs)) as [[target|]|e] eqn:Hc.
    + by apply (ram_rename_ok _ _ _ _ _ _ target).
    + by rewrite (ram_rename_check _ _ _ _ _ _ Hok), Hc.
    + by rewrite (ram_rename_check _ _ _ _ _ _ Hok), Hc.
  - unfold ram_chmod. find_inode (inodes fs) inode n Hn Hup Hupa; [|done]. cbn. rewrite Hup.
    apply ram_ok_inner; [by intros []|by intros []| |done]. intros i es pm c m a. cbn. by exists mode, c, m, a.
  - rewrite unlink_entry_get. destruct (get (inodes fs) parent) as [[]|]; try done.
    destruct (entry_inode _ _); [|done]. by apply ram_ok_drop.
  - by apply ram_ok_retain.
  - destruct Hok as [H1 H2 H3 H4 H5]. split; cbn; try done; [|lia]. intros n Hn. apply H2 in Hn. lia.
Qed.

Lemma ram_reach_ok fs : ram_reach fs -> ram_ok fs.
Proof.
  induction 1 as [ticks next Hn|fs fs' _ IH Hs]; [|by apply (ram_step_ok fs)].
  assert (forall q, entries_of (inodes (ramfs_new ticks next)) q = []) as HE.
  { intros q. unfold entries_of, get. cbn. by destruct q as [|[]|]. }
  split; cbn [inodes NEXT_INODE root_inode ramfs_new].
  - apply NoDup_singleton.
  - intros n ->%list_elem_of_singleton. cbn. lia.
  - lia.
  - done.
  - assert (forall q e, e ∈ entries_of (inodes (ramfs_new ticks next)) q -> False) as Hno.
    { intros q e. rewrite HE. apply not_elem_of_nil. }
    split.
    + intros p. change (NoDup (map de_name (entries_of (inodes (ramfs_new ticks next)) p))). rewrite HE. constructor.
    + intros p e He. by destruct (Hno p e).
    + intros p Hp. by destruct Hp.
    + intros p1 p2 e1 e2 He. by destruct (Hno p1 e1).
    + done.
    + intros p e He. by destruct (Hno p e).
    + intros x Hx. destruct Hx as [? ? (e & He & _)|? ? ? (e & He & _) _]; by eapply Hno.
Qed.

(* ------------------------------------------------------------------ *)
(** ** Names and contents after an operation *)

Definition contents (fs : RamFs) (i : Z) : option (list Z) :=
  match get (inodes fs) i with Some (RamFile _ d _ _ _ _) => Some d | _ => None end.

(** An inode that is still there, of the same kind, and unchanged unless it
    is a directory. *)
Definition same_shape (o o' : option RamInode) : Prop :=
  match o, o' with
  | None, None => True
  | Some n, Some n' => is_dir n' = is_dir n /\ (is_dir n = false -> n' = n)
  | _, _ => False
  end.

Lemma same_shape_refl o : same_shape o o.
Proof. by destruct o. Qed.

Lemma same_shape_trans a b c : same_shape a b -> same_shape b c -> same_shape a c.
Proof. destruct a, b, c; cbn; try done. intros [H1 H2] [H3 H4]. split; [congruence|]. intros H. rewrite H4, H2; congruence. Qed.

Lemma update_shape p f l i :
  (forall n, inode_number (f n) = inode_number n) -> (forall n, is_dir (f n) = is_dir n) ->
  (forall n, is_dir n = false -> f n = n) -> same_shape (get l i) (get (update p f l) i).
Proof.
  intros Hf Hd Hs. rewrite get_update by done. destruct (Z.eqb_spec i p) as [->|]; [|apply same_shape_refl].
  destruct (get l p) as [n|]; [|done]. cbn. auto.
Qed.

Lemma push_shape p e t l i : same_shape (get l i) (get (update p (push_entry e t) l) i).
Proof. apply update_shape; auto. by intros []. Qed.
Lemma drop_shape p e t l i : same_shape (get l i) (get (update p (drop_entry e t) l) i).
Proof. apply update_shape; auto. by intros []. Qed.

Lemma shape_contents fs fs' i : same_shape (get (inodes fs) i) (get (inodes fs') i) -> contents fs' i = contents fs i.
Proof.
  unfold contents. destruct (get (inodes fs) i) as [n|], (get (inodes fs') i) as [n'|]; try done.
  intros [H1 H2]. destruct n as [| |]; cbn in *; [by rewrite H2| |by rewrite H2]. by destruct n'.
Qed.

Lemma shape_lookup fs fs' q name :
  same_shape (get (inodes fs) q) (get (inodes fs') q) ->
  entry_inode name (entries_of (inodes fs') q) = entry_inode name (entries_of (inodes fs) q) ->
  ram_lookup q name fs' = ram_lookup q name fs.
Proof.
  rewrite !ram_lookup_get. unfold entries_of.
  destruct (get (inodes fs) q) as [n|], (get (inodes fs') q) as [n'|]; try done.
  intros [H1 H2]. destruct n, n'; try done. cbn. by intros ->.
Qed.

Lemma shape_dir l l' i : same_shape (get l i) (get l' i) -> dir_at l' i = dir_at l i.
Proof. unfold dir_at. destruct (get l i), (get l' i); try done. by intros [-> _]. Qed.

Lemma lookup_dir q name fs : dir_at (inodes fs) q = true ->
  ram_lookup q name fs = match entry_inode name (entries_of (inodes fs) q) with Some i => inl i | None => inr NotFound end.
Proof. rewrite ram_lookup_get. unfold dir_at, entries_of. by destruct (get (inodes fs) q) as [[]|]. Qed.

Lemma lookup_inl q name fs i :
  ram_lookup q name fs = inl i <-> dir_at (inodes fs) q = true /\ entry_inode name (entries_of (inodes fs) q) = Some i.
Proof.
  rewrite ram_lookup_get. unfold dir_at, entries_of. destruct (get (inodes fs) q) as [[]|]; cbn; try naive_solver.
  destruct (entry_inode name entries); naive_solver.
Qed.

Lemma entry_not_named name x es :
  entry_inode name (not_named x es) = if bool_decide (name = x) then None else entry_inode name es.
Proof.
  unfold entry_inode, not_named. induction es as [|e es IH]; cbn; [by case_match|].
  destruct (bool_decide (de_name e = x)) eqn:E1; cbn.
  - rewrite IH. apply bool_decide_eq_true in E1. case_bool_decide; [done|].
    rewrite bool_decide_eq_false_2 by congruence. done.
  - apply bool_decide_eq_false in E1. destruct (bool_decide (de_name e = name)) eqn:E2; [|done].
    apply bool_decide_eq_true in E2. rewrite bool_decide_eq_false_2 by congruence. done.
Qed.

Lemma entry_snoc name es e :
  entry_inode name (es ++ [e]) =
  match entry_inode name es with Some i => Some i | None => if bool_decide (de_name e = name) then Some (de_inode e) else None end.
Proof.
  unfold entry_inode. induction es as [|x es IH]; cbn; [by case_match|].
  by destruct (bool_decide (de_name x = name)).
Qed.

(** The name space after a rename. *)
Lemma entry_renamed E op on np nn target q name :
  ~ (op = np /\ on = nn) -> entry_inode on (E op) = Some target ->
  entry_inode name (renamed E op on np nn target q) =
  if bool_decide (q = np /\ name = nn) then Some target
  else if bool_decide (q = op /\ name = on) then None
  else entry_inode name (E q).
Proof.
  intros Hne Ht. unfold renamed. destruct (Z.eqb_spec q np) as [->|Hq].
  - rewrite entry_snoc. cbn [de_name de_inode].
    assert (entry_inode name (if np =? op then not_named on (if op =? np then not_named nn (E np) else E op)
              else if np =? np then not_named nn (E np) else E np) =
            if bool_decide (name = nn) then None else if bool_decide (np = op /\ name = on) then None else entry_inode name (E np)) as ->.
    { destruct (Z.eqb_spec np op) as [->|Hop]; rewrite Z.eqb_refl, !entry_not_named.
      - repeat case_bool_decide; naive_solver.
      - case_bool_decide; [done|]. by rewrite bool_decide_eq_false_2 by naive_solver. }
    repeat case_bool_decide; try naive_solver. by destruct (entry_inode name (E np)).
  - rewrite (bool_decide_eq_false_2 (q = np /\ name = nn)) by naive_solver.
    destruct (Z.eqb_spec q op) as [->|Hop].
    + rewrite (proj2 (Z.eqb_neq _ _)) by done. rewrite entry_not_named. repeat case_bool_decide; naive_solver.
    + by rewrite bool_decide_eq_false_2 by naive_solver.
Qed.

(** When a rename is allowed. *)
Definition rename_allowed (fs : RamFs) (op : Z) (on : Name) (np : Z) (nn : Name) (target : Z) : Prop :=
  bad_name on = false /\ bad_name nn = false /\ ram_lookup op on fs = inl target /\ dir_at (inodes fs) np = true /\
  ((op = np /\ on = nn) \/
   (~ rtc (child (entries_of (inodes fs))) target np /\
    forall ex, ram_lookup np nn fs = inl ex ->
      dir_at (inodes fs) ex = dir_at (inodes fs) target /\ entries_of (inodes fs) ex = [])).

Lemma dir_at_eq l i n : get l i = Some n -> dir_at l i = is_dir n.
Proof. intros E. unfold dir_at. by rewrite E. Qed.

Lemma rename_check_allowed fs op on np nn target :
  ram_ok fs -> rename_allowed fs op on np nn target ->
  rename_check op on np nn (inodes fs) = inl (if (op =? np) && bool_decide (on = nn) then None else Some target).
Proof.
  intros Hok (Hb1 & Hb2 & Hl & Hnp & Hcase). unfold rename_check. rewrite Hb1, Hb2. cbn [orb].
  rewrite ram_lookup_get in Hl. destruct (get (inodes fs) op) as [[|i es p c m a|]|] eqn:Hg; try done.
  destruct (dir_entries _ _ _ _ _ _ _ _ Hg) as [Hes _].
  destruct (entry_inode on es) as [t|] eqn:He; [|done]. injection Hl as ->.
  destruct (dir_at_get _ _ Hnp) as [n Hn]. rewrite Hn. rewrite (dir_at_eq _ _ _ Hn) in Hnp. rewrite Hnp. cbn [negb].
  destruct ((op =? np) && bool_decide (on = nn)) eqn:Hs; [done|].
  destruct Hcase as [[-> ->]|[Hb Hover]]; [by rewrite Z.eqb_refl, bool_decide_eq_true_2 in Hs|].
  destruct (entry_inode_some _ _ _ He) as (e & Hin & _ & <-).
  destruct (f_targets _ _ _ (ok_forest fs Hok) op e) as [x Hx]; [by rewrite Hes|]. rewrite Hx.
  assert (is_dir x && ((np =? de_inode e) || descends (length (inodes fs) + 1) (inodes fs) np [de_inode e]) = false) as ->.
  { destruct (is_dir x) eqn:Hd; [|done]. cbn. apply orb_false_iff. split.
    - apply Z.eqb_neq. intros ->. by apply Hb.
    - apply not_true_iff_false. rewrite (descends_spec (inodes fs) _ _ (de_inode e) np (ok_forest fs Hok)); [done| |].
      + by rewrite (dir_at_eq _ _ _ Hx).
      + by rewrite (dir_at_eq _ _ _ Hn). }
  destruct (entry_inode nn (entries_of (inodes fs) np)) as [ex|] eqn:Hex; [|done].
  destruct (Hover ex) as [Hd Hemp]; [apply lookup_inl; by rewrite (dir_at_eq _ _ _ Hn)|].
  destruct (entry_inode_some _ _ _ Hex) as (e' & Hin' & _ & <-).
  destruct (f_targets _ _ _ (ok_forest fs Hok) np e' Hin') as [y Hy]. rewrite Hy.
  rewrite (dir_at_eq _ _ _ Hx), (dir_at_eq _ _ _ Hy) in Hd. rewrite Hd. unfold entries_of in Hemp. rewrite Hy in Hemp.
  destruct (is_dir x); cbn; by destruct y as [|? []|].
Qed.

Lemma rename_check_none fs op on np nn :
  rename_check op on np nn (inodes fs) = inl None ->
  op = np /\ on = nn /\ bad_name on = false /\ bad_name nn = false /\ dir_at (inodes fs) np = true /\
  exists target, ram_lookup op on fs = inl target.
Proof.
  unfold rename_check. rewrite ram_lookup_get. destruct (bad_name on || bad_name nn) eqn:Hb; [done|].
  apply orb_false_iff in Hb as [Hb1 Hb2].
  destruct (get (inodes fs) op) as [[|i es p c m a|]|] eqn:Hg; try done.
  destruct (entry_inode on es) as [t|]; [|done]. destruct (get (inodes fs) np) as [n|] eqn:Hn; [|done].
  destruct (is_dir n) eqn:Hd; [|done]. cbn [negb]. destruct (_ && bool_decide (on = nn)) eqn:Hs.
  - apply andb_true_iff in Hs as [->%Z.eqb_eq ->%bool_decide_eq_true]. intros _. split_and!; try done; [|by exists t].
    by rewrite (dir_at_eq _ _ _ Hn).
  - destruct (get (inodes fs) t); [|done]. destruct (is_dir _ && _); [done|]. destruct (entry_inode nn _); [|done].
    destruct (get _ _); [|done]. repeat case_match; done.
Qed.

Lemma rename_check_some fs op on np nn target :
  ram_ok fs -> rename_check op on np nn (inodes fs) = inl (Some target) -> rename_allowed fs op on np nn target.
Proof.
  intros Hok Hc. pose proof (rename_check_pre _ _ _ _ _ _ Hok Hc) as [P1 P2 P3 P4 P5 P6].
  assert (bad_name on = false /\ bad_name nn = false) as [Hb1 Hb2].
  { unfold rename_check in Hc. destruct (bad_name on), (bad_name nn); done. }
  split_and!; try done.
  - apply lookup_inl. split; [apply entries_dir; intros E; rewrite E in P1; by apply not_elem_of_nil in P1|].
    by apply (entry_inode_elem fs op (mkDirEntry on target) Hok).
  - right. split; [done|]. intros ex [_ (e & He & Hn & <-)%entry_inode_some]%lookup_inl. by apply P6.
Qed.

(** The inodes after a rename that went ahead. *)
Lemma rename_inodes op on np nn ticks fs target :
  ram_ok fs -> rename_check op on np nn (inodes fs) = inl (Some target) ->
  let fs' := snd (ram_rename op on np nn ticks fs) in
  (forall i, ram_lookup np nn fs <> inl i -> same_shape (get (inodes fs) i) (get (inodes fs') i)) /\
  (forall ex, ram_lookup np nn fs = inl ex -> get (inodes fs') ex = None).
Proof.
  intros Hok Hc. pose proof (rename_check_pre _ _ _ _ _ _ Hok Hc) as Hp.
  rewrite (ram_rename_check _ _ _ _ _ _ Hok), Hc. cbn [snd inodes with_inodes]. set (now := Some (now_secs ticks)).
  assert (forall i, same_shape (get (displaced np nn (inodes fs)) i) (get (update np (push_entry (mkDirEntry nn target) now)
    (update op (drop_entry on now) (displaced np nn (inodes fs)))) i)) as Hs.
  { intros i. eapply same_shape_trans; [apply drop_shape|apply push_shape]. }
  split.
  - intros i Hi. eapply same_shape_trans; [|apply Hs]. unfold displaced.
    destruct (entry_inode nn (entries_of (inodes fs) np)) as [ex|] eqn:E; [|apply same_shape_refl].
    rewrite get_retain, (proj2 (Z.eqb_neq i ex)); [apply drop_shape|]. intros ->. apply Hi. apply lookup_inl.
    split; [apply (rp_parent _ _ _ _ _ _ Hp)|done].
  - intros ex [_ E]%lookup_inl. specialize (Hs ex). unfold displaced in *. rewrite E in *.
    rewrite get_retain, Z.eqb_refl in Hs. cbn in Hs. by destruct (get _ ex).
Qed.

(** C24: rename moves exactly one name. It succeeds exactly when it is allowed:
    both names are proper, the source exists, the destination's parent is a
    directory that is not the source or below it, and what is replaced is of
    the same kind and empty. Then the new name denotes the inode of the old
    one, the old name is gone, what was replaced is gone, and every other
    name and every other file is as before. A rename that fails changes
    nothing. *)
Theorem ramfs_rename_correct (fs : RamFs) (op : Z) (on : Name) (np : Z) (nn : Name) (ticks : Z) :
  ram_reach fs ->
  let '(r, fs') := ram_rename op on np nn ticks fs in
  (r = inl tt <-> exists target, rename_allowed fs op on np nn target) /\
  (forall e, r = inr e -> fs' = fs) /\
  (r = inl tt -> op = np /\ on = nn -> fs' = fs) /\
  (r = inl tt -> ~ (op = np /\ on = nn) ->
     (exists target, ram_lookup op on fs = inl target /\ ram_lookup np nn fs' = inl target) /\
     ram_lookup op on fs' = inr NotFound /\
     (forall ex, ram_lookup np nn fs = inl ex -> get (inodes fs') ex = None) /\
     (forall q name, ~ (q = op /\ name = on) -> ~ (q = np /\ name = nn) -> ram_lookup np nn fs <> inl q ->
        ram_lookup q name fs' = ram_lookup q name fs) /\
     (forall i, ram_lookup np nn fs <> inl i -> contents fs' i = contents fs i)).
Proof.
  intros Hok%ram_reach_ok. pose proof (ram_rename_check op on np nn ticks fs Hok) as Heq.
  destruct (rename_check op on np nn (inodes fs)) as [[target|]|err] eqn:Hc.
  - pose proof (rename_inodes op on np nn ticks fs target Hok Hc) as [Hshape Hgone].
    pose proof (ram_rename_ok op on np nn ticks fs target Hok Hc) as [_ HE].
    pose proof (rename_check_some _ _ _ _ _ _ Hok Hc) as Hal. destruct Hal as (Hb1 & Hb2 & Hl & Hd & Hcase).
    rewrite Heq in Hshape, Hgone, HE. rewrite Heq. cbn [snd] in *.
    assert (~ (op = np /\ on = nn)) as Hne by apply (rename_check_pre _ _ _ _ _ _ Hok Hc).
    pose proof (proj1 (lookup_inl _ _ _ _) Hl) as [Hdop Hent].
    pose proof (rename_check_pre _ _ _ _ _ _ Hok Hc) as Hp.
    assert (ram_lookup np nn fs <> inl np /\ ram_lookup np nn fs <> inl op) as [Hnp Hop].
    { split; intros [_ (e & He & Hn & Hx)%entry_inode_some]%lookup_inl;
        destruct (rename_pre_safe _ _ _ _ _ _ e Hok Hp He Hn) as (? & ? & _); done. }
    split_and!; try done; [split; [intros _; exists target; by split_and!|done]|]. intros _ _. split_and!.
    + exists target. split; [done|]. apply lookup_inl. split; [by rewrite (shape_dir _ _ _ (Hshape np Hnp))|].
      rewrite HE, entry_renamed by done. by rewrite bool_decide_eq_true_2.
    + rewrite lookup_dir by by rewrite (shape_dir _ _ _ (Hshape op Hop)). rewrite HE, entry_renamed by done.
      rewrite bool_decide_eq_false_2 by naive_solver. by rewrite bool_decide_eq_true_2.
    + done.
    + intros q name H1 H2 Hq. apply shape_lookup; [by apply Hshape|]. rewrite HE, entry_renamed by done.
      by rewrite !bool_decide_eq_false_2.
    + intros i Hi. by apply shape_contents, Hshape.
  - rewrite Heq. destruct (rename_check_none _ _ _ _ _ Hc) as (-> & -> & Hb1 & Hb2 & Hd & t & Ht).
    split_and!; try done; [|tauto]. split; [|done]. intros _. exists t. split_and!; try done. by left.
  - rewrite Heq. split_and!; try done. split; [done|]. intros (t & Hal).
    rewrite (rename_check_allowed _ _ _ _ _ _ Hok Hal) in Hc. done.
Qed.

(** C25: the directories form a forest. However files, directories and links
    are created, removed, unlinked and renamed: every entry names an inode
    that exists, and only one entry names it; names in a directory are
    distinct; the root is a directory no entry names; no directory is below
    itself; and inode numbers are distinct. A listing reports each entry with
    the type its inode has. *)
Theorem ramfs_forest (fs : RamFs) :
  ram_reach fs ->
  NoDup (map inode_number (inodes fs)) /\ dir_at (inodes fs) (root_inode fs) = true /\
  (forall p e, e ∈ entries_of (inodes fs) p -> is_Some (get (inodes fs) (de_inode e)) /\ de_inode e <> root_inode fs) /\
  (forall p1 p2 e1 e2, e1 ∈ entries_of (inodes fs) p1 -> e2 ∈ entries_of (inodes fs) p2 ->
     de_inode e1 = de_inode e2 -> p1 = p2 /\ e1 = e2) /\
  (forall p, NoDup (map de_name (entries_of (inodes fs) p))) /\
  (forall x, ~ tc (child (entries_of (inodes fs))) x x) /\
  (forall p l name i ft, ram_readdir p fs = inl l -> (name, i, ft) ∈ l ->
     exists n, get (inodes fs) i = Some n /\ ft = ram_file_type n).
Proof.
  intros [H1 H2 H3 H4 [F1 F2 F3 F4 F5 F6 F7]]%ram_reach_ok. split_and!; try done.
  - intros p e He. split; [by apply (F2 p)|by apply (F6 p)].
  - intros p l name i ft. unfold ram_readdir. find_inode (inodes fs) p n Hn Hup Hupa; [|done].
    destruct n as [|d es pm c m a|]; try done. intros [= <-] Hin. rewrite list_elem_of_In in Hin.
    apply in_map_iff in Hin as (e & [= <- <- <-] & Hin). destruct (F2 p e) as [x Hx].
    { unfold entries_of. rewrite Hn. by apply list_elem_of_In. }
    exists x. split; [done|]. find_inode (inodes fs) (de_inode e) y Hy Hup' Hupa'; [|congruence]. congruence.
Qed.

(* ------------------------------------------------------------------ *)
(** ** Creation and removal *)

(** What a creation does; [mk] is the inode it enters. *)
Definition creates (mk : Z -> RamInode) (parent : Z) (name : Name) (fs : RamFs) (res : VfsResult Z * RamFs) : Prop :=
  let '(r, fs') := res in
  match r with
  | inl ino =>
      ram_lookup parent name fs = inr NotFound /\ get (inodes fs) ino = None /\
      get (inodes fs') ino = Some (mk ino) /\ ram_lookup parent name fs' = inl ino /\
      (forall q x, q <> ino -> ~ (q = parent /\ x = name) -> ram_lookup q x fs' = ram_lookup q x fs) /\
      (forall i, i <> ino -> contents fs' i = contents fs i)
  | inr e =>
      fs' = fs /\ (e = FileExists <-> exists i, ram_lookup parent name fs = inl i) /\
      (e <> FileExists -> ram_lookup parent name fs = inr e)
  end.

Lemma create_node_creates mk touch parent name fs :
  ram_ok fs -> (forall i, inode_number (mk i) = i) -> creates mk parent name fs (create_node mk touch parent name fs).
Proof.
  intros Hok Hnum. unfold creates. rewrite create_node_get, ram_lookup_get. pose proof (fresh_number fs Hok) as Hnone.
  destruct (get (inodes fs) parent) as [[|i es p c m a|]|] eqn:Hg; try (split_and!; [done|naive_solver|done]).
  destruct (dir_entries _ _ _ _ _ _ _ _ Hg) as [Hes Hd].
  destruct (entry_inode name es) as [j|] eqn:He; [split_and!; [done|naive_solver|done]|].
  set (ino := NEXT_INODE fs) in *.
  assert (parent <> ino) as Hne by (intros ->; congruence).
  assert (forall q, q <> ino -> get (inodes fs ++ [mk ino]) q = get (inodes fs) q) as Hsame.
  { intros q Hq. rewrite get_app, Hnum, (proj2 (Z.eqb_neq _ _)) by done. by destruct (get (inodes fs) q). }
  cbv beta iota zeta. fold ino. rewrite <- update_app by by rewrite Hg.
  set (f := push_entry (mkDirEntry name ino) touch). set (l' := inodes fs ++ [mk ino]) in *.
  assert (forall q, q <> ino -> same_shape (get (inodes fs) q) (get (update parent f l') q)) as Hshape.
  { intros q Hq. rewrite <- (Hsame q Hq). apply push_shape. }
  assert (dir_at l' parent = true) as Hd' by (unfold dir_at; rewrite Hsame by done; done).
  assert (forall q, q <> ino -> entries_of l' q = entries_of (inodes fs) q) as HE by (intros q Hq; unfold entries_of; by rewrite Hsame).
  split_and!; try done.
  - cbn. rewrite get_update by apply push_entry_number. rewrite (proj2 (Z.eqb_neq ino parent)) by congruence. unfold l'. by rewrite get_app, Hnone, Hnum, Z.eqb_refl.
  - apply lookup_inl. cbn. rewrite (shape_dir _ _ _ (Hshape parent Hne)). split; [done|].
    unfold f. rewrite (entries_push _ _ _ _ _ Hd'), Z.eqb_refl, HE, Hes, entry_snoc, He by done. cbn. by rewrite bool_decide_eq_true_2.
  - intros q x Hq Hqx. apply shape_lookup; [by apply Hshape|]. cbn.
    unfold f. rewrite (entries_push _ _ _ _ _ Hd'). destruct (Z.eqb_spec q parent) as [->|]; rewrite HE by done; [|done].
    rewrite entry_snoc. cbn. rewrite bool_decide_eq_false_2 by naive_solver. by destruct (entry_inode x _).
  - intros j Hj. by apply shape_contents, Hshape.
Qed.

Lemma ram_remove_spec parent name fs :
  ram_ok fs ->
  let '(r, fs') := ram_remove parent name fs in
  match r with
  | inl _ => exists t, ram_lookup parent name fs = inl t /\ entries_of (inodes fs) t = [] /\
      get (inodes fs') t = None /\ ram_lookup parent name fs' = inr NotFound /\
      (forall q x, q <> t -> ~ (q = parent /\ x = name) -> ram_lookup q x fs' = ram_lookup q x fs) /\
      (forall i, i <> t -> contents fs' i = contents fs i)
  | inr e => fs' = fs /\ (e = NotEmpty <-> exists t, ram_lookup parent name fs = inl t /\ entries_of (inodes fs) t <> []) /\
      (e <> NotEmpty -> ram_lookup parent name fs = inr e)
  end.
Proof.
  intros Hok. rewrite ram_remove_get, ram_lookup_get.
  destruct (get (inodes fs) parent) as [[|i es p c m a|]|] eqn:Hg; try (split_and!; [done|naive_solver|done]).
  destruct (dir_entries _ _ _ _ _ _ _ _ Hg) as [Hes Hd].
  destruct (entry_inode name es) as [t|] eqn:He; [|split_and!; [done|naive_solver|done]].
  destruct (entry_inode_some _ _ _ He) as (e & Hin & Hn & Ht). rewrite <- Hes in Hin.
  destruct (f_targets _ _ _ (ok_forest fs Hok) parent e Hin) as [n Hgt]. rewrite Ht in Hgt. rewrite Hgt.
  assert (entries_of (inodes fs) t = [] <-> nonempty_dir n = false) as Hemp.
  { unfold entries_of. rewrite Hgt. by destruct n as [|? []|]. }
  destruct (nonempty_dir n) eqn:Hne.
  { split_and!; [done| |done]. split; [intros _|done]. exists t. split; [done|]. by intros ?%Hemp. }
  assert (t <> parent) as Htp.
  { intros ->. apply (f_acyclic _ _ _ (ok_forest fs Hok) parent). apply tc_once. exists e. done. }
  set (f := drop_entry name None).
  assert (forall q, q <> t -> get (retain_not t (update parent f (inodes fs))) q = get (update parent f (inodes fs)) q) as Hr.
  { intros q Hq. by rewrite get_retain, (proj2 (Z.eqb_neq _ _)). }
  assert (forall q, q <> t -> same_shape (get (inodes fs) q) (get (retain_not t (update parent f (inodes fs))) q)) as Hshape.
  { intros q Hq. rewrite Hr by done. apply drop_shape. }
  assert (forall q, q <> t -> entries_of (retain_not t (update parent f (inodes fs))) q =
    if q =? parent then not_named name (entries_of (inodes fs) parent) else entries_of (inodes fs) q) as HE.
  { intros q Hq. rewrite entries_retain, (proj2 (Z.eqb_neq _ _)) by done. apply entries_drop. }
  exists t. split_and!; [done|by apply Hemp|cbn; by rewrite get_retain, Z.eqb_refl| | |].
  - rewrite lookup_dir by (cbn; by rewrite (shape_dir _ _ _ (Hshape parent (not_eq_sym Htp)))). cbn.
    rewrite HE, Z.eqb_refl, entry_not_named, bool_decide_eq_true_2 by done. done.
  - intros q x Hq Hqx. apply shape_lookup; [by apply Hshape|]. cbn. rewrite HE by done.
    destruct (Z.eqb_spec q parent) as [->|]; [|done]. rewrite entry_not_named. by rewrite bool_decide_eq_false_2 by naive_solver.
  - intros j Hj. by apply shape_contents, Hshape.
Qed.

(** Creating and removing change one name. A file, directory or link is
    created, with a number not in use, exactly when its parent is a directory
    without the name; a name is removed, with its inode, exactly when it
    exists and is not a directory with entries. All other names and all other
    files are as before, and a call that fails changes nothing. *)
Theorem ramfs_create_remove (fs : RamFs) (parent : Z) (name : Name) (ticks : Z) :
  ram_reach fs ->
  let now := now_secs ticks in
  creates (fun i => RamFile i [] 0x1A4 now now now) parent name fs (create_file parent name ticks fs) /\
  creates (fun i => RamDir i [] 0x1ED now now now) parent name fs (create_dir parent name ticks fs) /\
  (forall target, creates (fun i => RamSymLink i target 0x1FF now now now) parent name fs (symlink parent name target ticks fs)) /\
  let '(r, fs') := ram_remove parent name fs in
  match r with
  | inl _ => exists t, ram_lookup parent name fs = inl t /\ entries_of (inodes fs) t = [] /\
      get (inodes fs') t = None /\ ram_lookup parent name fs' = inr NotFound /\
      (forall q x, q <> t -> ~ (q = parent /\ x = name) -> ram_lookup q x fs' = ram_lookup q x fs) /\
      (forall i, i <> t -> contents fs' i = contents fs i)
  | inr e => fs' = fs /\ (e = NotEmpty <-> exists t, ram_lookup parent name fs = inl t /\ entries_of (inodes fs) t <> []) /\
      (e <> NotEmpty -> ram_lookup parent name fs = inr e)
  end.
Proof.
  intros Hok%ram_reach_ok. cbv zeta. split; [by apply create_node_creates|].
  split; [by apply create_node_creates|]. split; [intros target; by apply create_node_creates|].
  by apply ram_remove_spec.
Qed.

(* ------------------------------------------------------------------ *)
(** ** Contents *)

(** The bytes of a file after a write at [off]. *)
Definition overwritten (old data : list Z) (off i : nat) : option Z :=
  if (off <=? i)%nat && (i <? off + length data)%nat then data !! (i - off)%nat
  else if (i <? length old)%nat then old !! i
  else if (i <? off + length data)%nat then Some 0 else None.

Lemma resize_length n d : length (resize n d) = n.
Proof. unfold resize. rewrite length_app, length_take, length_replicate. lia. Qed.

Lemma resize_lookup n d i : resize n d !! i = if (i <? n)%nat then Some (default 0 (d !! i)) else None.
Proof.
  destruct (Nat.ltb_spec i n) as [Hi|Hi]; [|apply lookup_ge_None; by rewrite resize_length].
  unfold resize. destruct (decide (i < length d)%nat) as [Hd|Hd].
  - rewrite lookup_app_l, lookup_take_lt by (rewrite ?length_take; lia). destruct (lookup_lt_is_Some_2 d i Hd) as [x ->]. done.
  - rewrite lookup_app_r, length_take, lookup_ge_None_2 with (l := d) by (rewrite ?length_take; lia).
    rewrite lookup_replicate_2 by lia. done.
Qed.

Lemma write_bytes_spec old (off : nat) data :
  Z.of_nat off + Z.of_nat (length data) <= U64_MAX ->
  exists new, write_bytes old (Z.of_nat off) data = Some new /\
    length new = Nat.max (length old) (off + length data) /\ (forall i, new !! i = overwritten old data off i) /\
    take (length data) (drop off new) = data.
Proof.
  intros Hb. unfold write_bytes. rewrite add64_small by (unfold U64_MAX in *; lia).
  replace (Z.of_nat off + Z.of_nat (length data) <? Z.of_nat off) with false by (symmetry; apply Z.ltb_ge; lia).
  rewrite Nat2Z.id. replace (Z.to_nat (Z.of_nat off + Z.of_nat (length data))) with (off + length data)%nat by lia.
  set (d := if _ <? _ then _ else _).
  assert (length d = Nat.max (length old) (off + length data) /\
    forall i, d !! i = if (i <? length old)%nat then old !! i else if (i <? off + length data)%nat then Some 0 else None) as [Hlen Hd].
  { subst d. destruct (Z.ltb_spec (Z.of_nat (length old)) (Z.of_nat off + Z.of_nat (length data))) as [Hl|Hl].
    - rewrite resize_length. split; [lia|]. intros i. rewrite resize_lookup.
      destruct (Nat.ltb_spec i (length old)) as [Hi|Hi].
      + rewrite (proj2 (Nat.ltb_lt _ _)) by lia. by destruct (lookup_lt_is_Some_2 old i Hi) as [x ->].
      + by rewrite lookup_ge_None_2 with (l := old) by lia.
    - split; [lia|]. intros i. destruct (Nat.ltb_spec i (length old)) as [Hi|Hi]; [done|].
      rewrite lookup_ge_None_2 by lia. by rewrite (proj2 (Nat.ltb_ge _ _)) by lia. }
  exists (take off d ++ data ++ drop (off + length data) d). split_and!; [done| | |].
  - rewrite !length_app, length_take, length_drop. lia.
  - intros i. unfold overwritten. destruct (Nat.leb_spec off i) as [H1|H1]; cbn [andb].
    + rewrite lookup_app_r by (rewrite length_take; lia). rewrite length_take, Nat.min_l by lia.
      destruct (Nat.ltb_spec i (off + length data)) as [H2|H2].
      * rewrite lookup_app_l by lia. done.
      * rewrite lookup_app_r, lookup_drop, Hd by lia. replace (off + length data + (i - off - length data))%nat with i by lia.
        destruct (_ <? length old)%nat; [done|]. by rewrite (proj2 (Nat.ltb_ge _ _)) by lia.
    + rewrite lookup_app_l, lookup_take_lt, Hd by (rewrite ?length_take; lia). done.
  - rewrite drop_app_length' by (rewrite length_take; lia). apply take_app_length.
Qed.

Lemma get_set_file p data m a l i :
  get (update p (set_file data m a) l) i = if i =? p then set_file data m a <$> get l p else get l i.
Proof. apply get_update. by intros []. Qed.

(** C36: files hold what is written. A write that fits the address range
    succeeds whole: the file's bytes are the new ones where it wrote, the old
    ones elsewhere, zero in a gap between the old end and the place of
    writing, and reading the range gives the bytes back; truncation keeps the
    bytes up to the new size and pads with zero. No other inode changes. *)
Theorem ramfs_write_read (fs : RamFs) (inode : Z) (off : nat) (data old : list Z) (ticks : Z) :
  contents fs inode = Some old -> Z.of_nat off + Z.of_nat (length data) <= U64_MAX ->
  (exists fs' new, ram_write inode (Z.of_nat off) data ticks fs = Some (inl (Z.of_nat (length data)), fs') /\
     contents fs' inode = Some new /\ (forall i, new !! i = overwritten old data off i) /\
     (forall t, fst (ram_read inode (Z.of_nat off) (length data) t fs') = inl data) /\
     (forall j, j <> inode -> get (inodes fs') j = get (inodes fs) j)) /\
  (forall size : nat, let '(r, fs') := ram_truncate inode (Z.of_nat size) ticks fs in
     r = inl tt /\ (exists new, contents fs' inode = Some new /\ length new = size /\
       forall i, (i < size)%nat -> new !! i = Some (default 0 (old !! i))) /\
     (forall j, j <> inode -> get (inodes fs') j = get (inodes fs) j)).
Proof.
  unfold contents. intros Hc Hb. destruct (get (inodes fs) inode) as [[i d p c m a| |]|] eqn:Hg; try done. injection Hc as ->.
  split.
  - destruct (write_bytes_spec old off data Hb) as (new & Hw & Hlen & Hnew & Hread).
    rewrite ram_write_get, Hg, Hw. cbn. do 2 eexists. split; [done|]. cbn.
    rewrite get_set_file, Z.eqb_refl, Hg. cbn. split_and!; [done|done| |].
    + intros t. rewrite ram_read_get. cbn. rewrite get_set_file, Z.eqb_refl, Hg. cbn. f_equal. unfold read_bytes.
      rewrite Nat2Z.id. destruct (Z.leb_spec (Z.of_nat (length new)) (Z.of_nat off)) as [Hle|Hle].
      * destruct data; [done|]. cbn in *. lia.
      * by rewrite Nat.min_r by lia.
    + intros j Hj. by rewrite get_set_file, (proj2 (Z.eqb_neq _ _)).
  - intros size. rewrite ram_truncate_get, Hg. cbn. rewrite get_set_file, Z.eqb_refl, Hg. cbn. split_and!; [done| |].
    + rewrite Nat2Z.id. exists (resize size old). split_and!; [done|apply resize_length|]. intros i' Hi.
      by rewrite resize_lookup, (proj2 (Nat.ltb_lt _ _)).
    + intros j Hj. by rewrite get_set_file, (proj2 (Z.eqb_neq _ _)).
Qed.

(* ------------------------------------------------------------------ *)
(** ** Unlinking a file in use *)

Lemma close_last_frees {F} `{FileSystemOps F} is_open m t v (fs : F) :
  (m, t) ∈ DELETED_INODES v -> is_open m t = false -> inode_is_pinned m t v = false ->
  let '(v', fs') := close_last is_open m t v fs in
  fs' = snd (fs_remove_inode t fs) /\ (m, t) ∉ DELETED_INODES v' /\ FREED v' = FREED v ++ [(m, t)].
Proof.
  intros Hin Ho Hp. unfold close_last. rewrite Ho, Hp. cbn [negb andb]. cbv zeta. cbn [DELETED_INODES with_DELETED].
  rewrite filter_shorter.
  assert (existsb (fun e => negb (negb (same_inode m t e))) (DELETED_INODES v) = true) as ->.
  { apply existsb_exists. exists (m, t). rewrite same_inode_eq, bool_decide_eq_true_2 by done. by rewrite list_elem_of_In in Hin. }
  split_and!; try done. cbn.
  rewrite list_elem_of_In, filter_In, same_inode_eq, bool_decide_eq_true_2 by done. by intros [_ ?].
Qed.

(** C38: an unlinked file of a ram file system lives as long as it is in use
    by descriptors. Removing the name of a file some process has open takes
    the name away at once and leaves its contents; while it is open or pinned
    by a mapping a close frees nothing, and the close that ends its last use
    frees the inode. A file that is neither open nor pinned is gone with its
    name. A file that is pinned by a mapping but not open is outside: it is
    freed too, although the documentation of [vma_pin_if_shared_file] says
    that a shared mapping keeps an unlinked file alive
    ([remove_ignores_pins]). *)
Theorem unlinked_while_open (fs : RamFs) (v : VfsPins) (is_open : Z -> Z -> bool) (m parent : Z) (name : Name)
    (ticks t : Z) (d : list Z) :
  ram_reach fs -> ram_lookup parent name fs = inl t -> contents fs t = Some d ->
  let '(r, v', fs') := vfs_remove is_open m parent name ticks v fs in
  r = inl tt /\ ram_lookup parent name fs' = inr NotFound /\
  (is_open m t = false -> inode_is_pinned m t v = false -> get (inodes fs') t = None) /\
  (is_open m t = true ->
     contents fs' t = Some d /\
     (forall still, still m t || inode_is_pinned m t v' = true -> close_last still m t v' fs' = (v', fs')) /\
     (forall still, still m t || inode_is_pinned m t v' = false ->
        let '(v'', fs'') := close_last still m t v' fs' in
        get (inodes fs'') t = None /\ (m, t) ∉ DELETED_INODES v'')).
Proof.
  intros Hok%ram_reach_ok Hl Hd. unfold vfs_remove. cbn [fs_lookup RamFs_ops]. rewrite Hl.
  destruct (is_open m t) eqn:Ho; cbn [fs_unlink_entry fs_remove RamFs_ops].
  - pose proof (proj1 (lookup_inl _ _ _ _) Hl) as [Hdir Hent]. rewrite unlink_entry_get.
    destruct (get (inodes fs) parent) as [[|i es p c m' a|]|] eqn:Hg; try (unfold dir_at in Hdir; by rewrite Hg in Hdir).
    destruct (dir_entries _ _ _ _ _ _ _ _ Hg) as [Hes _]. rewrite Hes in Hent. rewrite Hent.
    set (f := drop_entry name (Some (now_secs ticks))).
    assert (contents (with_inodes (update parent f (inodes fs)) fs) t = Some d) as Hd'.
    { rewrite <- Hd. apply shape_contents. apply drop_shape. }
    split_and!; [done| |done|]; [|intros _; split_and!; [done| |]].
    + rewrite lookup_dir by (cbn; rewrite (shape_dir (inodes fs)); [done|apply drop_shape]). cbn. unfold f.
      by rewrite entries_drop, Z.eqb_refl, entry_not_named, bool_decide_eq_true_2.
    + intros still Hs. unfold close_last. by destruct (still m t), (inode_is_pinned m t _).
    + intros still [Hs Hp]%orb_false_iff.
      match goal with |- context [close_last still m t ?v ?fs] => pose proof (close_last_frees still m t v fs) as Hf;
        destruct (close_last still m t v fs) as [v'' fs''] end.
      destruct Hf as (-> & Hn & _); [cbn; set_solver|done|done|]. split; [|done]. cbn. by rewrite get_retain, Z.eqb_refl.
  - pose proof (ram_remove_spec parent name fs Hok) as Hr. destruct (ram_remove parent name fs) as [[[]|e] fs'].
    + destruct Hr as (t' & Hl' & _ & Hgone & Hlook & _). rewrite Hl in Hl'. injection Hl' as <-. done.
    + destruct Hr as (_ & He & Hne). destruct (decide (e = NotEmpty)) as [->|Hx]; [|by rewrite Hne in Hl].
      destruct (proj1 He eq_refl) as (t' & Hl' & Hes). rewrite Hl in Hl'. injection Hl' as <-.
      unfold contents in Hd. unfold entries_of in Hes. by destruct (get (inodes fs) t) as [[]|].
Qed.

(* ------------------------------------------------------------------ *)
(** ** tmpfs *)

(** One call through the interface. *)
Inductive fs_call {F} `{FileSystemOps F} (fs : F) : F -> Prop :=
| call_create_file p n t : fs_call fs (snd (fs_create_file p n t fs))
| call_create_dir p n t : fs_call fs (snd (fs_create_dir p n t fs))
| call_remove p n : fs_call fs (snd (fs_remove p n fs))
| call_read i o l t : fs_call fs (snd (fs_read i o l t fs))
| call_write i o d t r fs' : fs_write i o d t fs = Some (r, fs') -> fs_call fs fs'
| call_truncate i s t : fs_call fs (snd (fs_truncate i s t fs))
| call_rename op on np nn t : fs_call fs (snd (fs_rename op on np nn t fs))
| call_symlink p n tg t : fs_call fs (snd (fs_symlink p n tg t fs))
| call_chmod i m : fs_call fs (snd (fs_chmod i m fs))
| call_unlink p n t : fs_call fs (snd (fs_unlink_entry p n t fs)).

(** A read-only tmpfs answers every call but leaves names and contents as
    they are; a read moves a time of access at most. *)
Lemma tmpfs_readonly (t t' : TmpFs) :
  rdonly t = true -> fs_call t t' ->
  rdonly t' = true /\ (forall i, contents (inner t') i = contents (inner t) i) /\
  (forall q name, ram_lookup q name (inner t') = ram_lookup q name (inner t)).
Proof.
  intros Hr Hc. destruct Hc as [p n k|p n k|p n|i o len k|i o d k r fs' Hw|i s k|op on np nn k|p n tg k|i md|p n k].
  all: try (cbn; unfold check_writable; rewrite Hr; done).
  - cbn. unfold tmp_inner. rewrite ram_read_get. destruct (get (inodes (inner t)) i) as [[j d p c m a| |]|] eqn:Hg; try done.
    destruct (_ <=? o); [done|]. cbn [snd inner rdonly]. split_and!; [done| |].
    + intros q. unfold contents. cbn. rewrite get_set_file. destruct (Z.eqb_spec q i) as [->|]; [|done]. by rewrite Hg.
    + intros q name. rewrite !ram_lookup_get. cbn. rewrite get_set_file. destruct (Z.eqb_spec q i) as [->|]; [|done]. by rewrite Hg.
  - cbn in Hw. rewrite Hr in Hw. by injection Hw as <- <-.
Qed.

(* ------------------------------------------------------------------ *)
(** ** Examples *)

(** A directory [a] with a file [f] holding three bytes, and a file [g]. *)
Definition demo_a : RamFs := snd (create_dir 1 [97] 100 (ramfs_new 0 2)).
Definition demo_f : RamFs := snd (create_file 2 [102] 200 demo_a).
Definition demo_g : RamFs := snd (create_file 1 [103] 300 demo_f).
Definition demo_fs : RamFs := match ram_write 3 0 [7; 8; 9] 400 demo_g with Some (_, fs) => fs | None => demo_g end.

Lemma demo_fs_reach : ram_reach demo_fs.
Proof.
  apply (rr_step demo_g); [|by apply (rs_write demo_g 3 0 [7; 8; 9] 400 (inl 3))].
  apply (rr_step demo_f); [|by apply rs_file]. apply (rr_step demo_a); [|by apply rs_file].
  apply (rr_step (ramfs_new 0 2)); [|by apply rs_dir]. apply rr_new. unfold U64_MAX. lia.
Qed.

Lemma ramfs_rename_correct_witness :
  fst (ram_rename 2 [102] 1 [104] 500 demo_fs) = inl tt /\
  contents (snd (ram_rename 2 [102] 1 [104] 500 demo_fs)) 3 = Some [7; 8; 9].
Proof.
  pose proof (ramfs_rename_correct demo_fs 2 [102] 1 [104] 500 demo_fs_reach) as H.
  destruct (ram_rename 2 [102] 1 [104] 500 demo_fs) as [r fs'] eqn:E.
  assert (r = inl tt) as -> by (vm_compute in E; congruence). split; [done|].
  destruct H as (_ & _ & _ & H). destruct (H eq_refl) as (_ & _ & _ & _ & H5); [by intros []|]. cbn [snd].
  rewrite H5; [by vm_compute|by vm_compute].
Defined.

Lemma ramfs_forest_witness : NoDup (map inode_number (inodes demo_fs)) /\ map inode_number (inodes demo_fs) = [1; 2; 3; 4].
Proof. split; [apply (ramfs_forest demo_fs demo_fs_reach)|by vm_compute]. Defined.

Lemma ramfs_create_remove_witness :
  creates (fun i => RamFile i [] 0x1A4 5 5 5) 2 [103] demo_fs (create_file 2 [103] 500 demo_fs) /\
  fst (create_file 2 [103] 500 demo_fs) = inl 5.
Proof.
  destruct (ramfs_create_remove demo_fs 2 [103] 500 demo_fs_reach) as [H _].
  change (now_secs 500) with 5 in H. split; [exact H|by vm_compute].
Defined.

Lemma ramfs_write_read_witness :
  exists fs' new, ram_write 3 5 [1; 2] 500 demo_fs = Some (inl 2, fs') /\ contents fs' 3 = Some new /\
    forall i, new !! i = overwritten [7; 8; 9] [1; 2] 5 i.
Proof.
  destruct (ramfs_write_read demo_fs 3 5 [1; 2] [7; 8; 9] 500) as [(fs' & new & H1 & H2 & H3 & _) _];
    [by vm_compute|unfold U64_MAX; simpl length; lia|]. exists fs', new.
  change (Z.of_nat 5) with 5 in H1. change (Z.of_nat (length [1; 2])) with 2 in H1. exact (conj H1 (conj H2 H3)).
Defined.

Lemma unlinked_while_open_witness :
  let '(r, v', fs') := vfs_remove (fun _ _ => true) 0 2 [102] 500 (mkVfsPins [] [] [] []) demo_fs in
  r = inl tt /\ contents fs' 3 = Some [7; 8; 9].
Proof.
  pose proof (unlinked_while_open demo_fs (mkVfsPins [] [] [] []) (fun _ _ => true) 0 2 [102] 500 3 [7; 8; 9] demo_fs_reach) as H.
  destruct (vfs_remove _ _ _ _ _ _ _) as [[r v'] fs'].
  destruct H as (Hr & _ & _ & H); [by vm_compute|by vm_compute|]. split; [done|]. by apply H.
Defined.

(** A directory some process has open is unlinked although it has entries,
    which are then out of reach of every path. *)
Lemma open_directory_removed_nonempty :
  let '(r, _, fs') := vfs_remove (fun _ i => i =? 2) 0 1 [97] 500 (mkVfsPins [] [] [] []) demo_fs in
  r = inl tt /\ ram_lookup 1 [97] fs' = inr NotFound /\ ram_lookup 2 [102] fs' = inl 3 /\
  fst (ram_remove 1 [97] demo_fs) = inr NotEmpty.
Proof. vm_compute. done. Qed.

(** A rename over a file destroys it, whoever has it open. *)
Lemma rename_destroys_open_file :
  let '(r, fs') := ram_rename 1 [103] 2 [102] 500 demo_fs in
  r = inl tt /\ contents demo_fs 3 = Some [7; 8; 9] /\ contents fs' 3 = None.
Proof. vm_compute. done. Qed.

(** A file that is mapped, but not open, is freed with its name: its pin is
    not looked at. *)
Lemma remove_ignores_pins :
  let v := pin_inode 0 3 (mkVfsPins [] [] [] []) in
  let '(r, v', fs') := vfs_remove (fun _ _ => false) 0 2 [102] 500 v demo_fs in
  r = inl tt /\ inode_is_pinned 0 3 v' = true /\ contents fs' 3 = None.
Proof. vm_compute. done. Qed.
