(* ===== verification/Heap.v ===== *)
(** * The kernel heap (kernel/src/mm/heap.rs)

    A first-fit allocator over a list of free blocks that is threaded through
    the free memory itself: a free block starts with its size and the address
    of the next one, a block in use has a header just below the address
    handed out. Memory is a map from word addresses to words, so that headers
    and the data of the clients share one store. The theorems show that the
    blocks tile the heap, so that allocations never overlap, and that the
    checks for corruption never fire as long as clients stay within what they
    were given; where the heap is put at boot, that the frame allocator never
    gives out the memory under it. The canary words and the occupancy marks
    of the diagnostics are left out. *)

From S2P Require Import Prelude Pmm.

(** The size of the heap, a constant of the build (256 MiB). *)
Class HeapConfig := { HEAP_SIZE : Z }.

Definition MIN_BLOCK_SIZE : Z := 16.
Definition BLOCK_ALIGN : Z := 8.
Definition ALLOC_HEADER_SIZE : Z := 16.

(** The words of memory; one never written reads as zero. *)
Definition ld (m : gmap Z Z) (a : Z) : Z := default 0 (m !! a).

(** [LinkedListAllocator] with the memory behind its pointers and the base
    the heap was given; 0 is the null pointer. *)
Record Heap := mkHeap {
  mem : gmap Z Z;
  head : Z;
  initialized : bool;
  total_bytes : Z;
  allocated_bytes : Z;
  HEAP_START_VA : Z
}.

Definition store (a v : Z) (h : Heap) : Heap :=
  mkHeap (<[a := v]> (mem h)) (head h) (initialized h) (total_bytes h) (allocated_bytes h) (HEAP_START_VA h).
Definition with_head (p : Z) (h : Heap) : Heap :=
  mkHeap (mem h) p (initialized h) (total_bytes h) (allocated_bytes h) (HEAP_START_VA h).
Definition with_allocated (n : Z) (h : Heap) : Heap :=
  mkHeap (mem h) (head h) (initialized h) (total_bytes h) n (HEAP_START_VA h).

(** [block.size = size; block.next = next]: a [FreeBlock] at [a]. *)
Definition store_block (a size next : Z) (h : Heap) : Heap := store (a + 8) next (store a size h).

(** The [AllocHeader] below the data at [p]. *)
Definition store_header (p block_start block_size : Z) (h : Heap) : Heap :=
  store (p - 8) block_size (store (p - 16) block_start h).

Definition align_up (value align : Z) : Z := wrap 64 (value + align - 1) .& notw 64 (align - 1).

Section heap.
Context `{HeapConfig}.

Definition MAX_WALK_ITERS : Z := HEAP_SIZE / MIN_BLOCK_SIZE + 16.

Definition heap_init (heap_start : Z) (m : gmap Z Z) : Heap :=
  store_block heap_start HEAP_SIZE 0 (mkHeap m heap_start true HEAP_SIZE 0 heap_start).

(** [Ok] for null and for a plausible block start. *)
Definition validate_block_ptr (h : Heap) (p : Z) : bool :=
  if p =? 0 then true
  else if negb (p .& (BLOCK_ALIGN - 1) =? 0) then false
  else
    let base := HEAP_START_VA h in
    if base =? 0 then false
    else
      let end_ := add64 base HEAP_SIZE in
      negb ((p <? base) || (sat_sub end_ MIN_BLOCK_SIZE <? p)).

(** [self.head] or [prev.next]. *)
Definition set_link (prev p : Z) (h : Heap) : Heap :=
  if prev =? 0 then with_head p h else store (prev + 8) p h.

(** Where the data of a block at [block_addr] would start, and the bytes the
    request would take of it. *)
Definition data_at (align block_addr : Z) : Z := align_up (add64 block_addr ALLOC_HEADER_SIZE) align.
Definition needed (size align block_addr : Z) : Z :=
  align_up (sub64 (add64 (data_at align block_addr) size) block_addr) BLOCK_ALIGN.

(** The body of the walk for a block that fits; [None] is [heap_corrupt]. *)
Definition carve (size align prev current : Z) (h : Heap) : option (Z * Heap) :=
  let block_size := ld (mem h) current in
  let data_start := data_at align current in
  let total_needed := needed size align current in
  let remainder := block_size - total_needed in
  let next_block := ld (mem h) (current + 8) in
  if negb (validate_block_ptr h next_block) then None
  else
    let '(header_block_size, h) :=
      if MIN_BLOCK_SIZE + 16 <=? remainder then
        let new_free := add64 current total_needed in
        (total_needed, set_link prev new_free (store_block new_free remainder next_block h))
      else (block_size, set_link prev next_block h) in
    let h := with_allocated (add64 (allocated_bytes h) header_block_size) h in
    Some (data_start, store_header data_start current header_block_size h).

(** The first-fit walk; [fuel] is what is left of [MAX_WALK_ITERS]. *)
Fixpoint alloc_walk (fuel : nat) (size align prev current : Z) (h : Heap) : option (Z * Heap) :=
  if current =? 0 then Some (0, h)
  else
    match fuel with
    | O => None
    | S fuel =>
        if needed size align current <=? ld (mem h) current then carve size align prev current h
        else
          let next := ld (mem h) (current + 8) in
          if validate_block_ptr h next then alloc_walk fuel size align current next h else None
    end.

Definition heap_alloc (size align : Z) (h : Heap) : option (Z * Heap) :=
  if negb (initialized h) then Some (0, h)
  else
    let align := Z.max align 8 in
    if validate_block_ptr h (head h) then alloc_walk (Z.to_nat MAX_WALK_ITERS) size align 0 (head h) h else None.

(** The walk to the place of a block by its address. *)
Fixpoint insert_walk (fuel : nat) (addr prev current : Z) (h : Heap) : option (Z * Z) :=
  if (current =? 0) || (addr <=? current) then Some (prev, current)
  else
    match fuel with
    | O => None
    | S fuel =>
        let next := ld (mem h) (current + 8) in
        if validate_block_ptr h next then insert_walk fuel addr current next h else None
    end.

Definition merge_next (addr size current : Z) (h : Heap) : Heap :=
  if negb (current =? 0) && (add64 addr size =? current) then
    store_block addr (add64 (ld (mem h) addr) (ld (mem h) current)) (ld (mem h) (current + 8)) h
  else h.

Definition merge_prev (addr prev : Z) (h : Heap) : Heap :=
  if negb (prev =? 0) then
    let prev_end := add64 prev (ld (mem h) prev) in
    if prev_end =? addr then
      store_block prev (add64 (ld (mem h) prev) (ld (mem h) addr)) (ld (mem h) (addr + 8)) h
    else h
  else h.

Definition insert_free_block (addr size : Z) (h : Heap) : option Heap :=
  if negb (validate_block_ptr h (head h)) then None
  else
    '(prev, current) ← insert_walk (Z.to_nat MAX_WALK_ITERS) addr 0 (head h) h;
    let h := set_link prev addr (store_block addr size current h) in
    Some (merge_prev addr prev (merge_next addr size current h)).

Definition heap_dealloc (ptr : Z) (h : Heap) : option Heap :=
  if (ptr =? 0) || negb (initialized h) then Some h
  else
    let block_start := ld (mem h) (ptr - 16) in
    let block_size := ld (mem h) (ptr - 8) in
    if negb (validate_block_ptr h block_start) then None
    else insert_free_block block_start block_size (with_allocated (sat_sub (allocated_bytes h) block_size) h).
End heap.

(** The heap the kernel is built with. *)
#[global] Instance kernel_heap : HeapConfig := {| HEAP_SIZE := 256 * 1024 * 1024 |}.

(** ** Where the heap is *)

Definition HEAP_START_MIN_VA : Z := 0xFFFF800000800000.
Definition HUGE_PAGE_SIZE : Z := 2 * 1024 * 1024.
Definition PHYS_OFF : Z := 0xFFFF800000000000.

(** [kernel_end_va] is the address of the linker's [__kernel_end]. *)
Definition compute_heap_layout `{HeapConfig} (kernel_end_va : Z) : Z * Z * Z :=
  let kernel_end_phys := sat_sub kernel_end_va PHYS_OFF in
  let candidate_phys :=
    wrap 64 (kernel_end_phys + 0x1000 + HUGE_PAGE_SIZE - 1) .& notw 64 (HUGE_PAGE_SIZE - 1) in
  let min_phys := sat_sub HEAP_START_MIN_VA PHYS_OFF in
  let phys_start := Z.max candidate_phys min_phys in
  let phys_end := add64 phys_start HEAP_SIZE in
  let va_start := add64 phys_start PHYS_OFF in
  (va_start, phys_start, phys_end).

Definition compute_guard_phys `{HeapConfig} (kernel_end_va : Z) : Z * Z :=
  let '(_, phys_start, phys_end) := compute_heap_layout kernel_end_va in
  (sat_sub phys_start 0x1000, phys_end).

(** The reservations [vmm::init] makes before anything is allocated. *)
Definition reserve_heap `{HeapConfig, PmmConfig} (kernel_end_va : Z) (s : Pmm) : Pmm :=
  let '(_, heap_phys_start, heap_phys_end) := compute_heap_layout kernel_end_va in
  let s := reserve_range heap_phys_start heap_phys_end s in
  let '(below_guard_phys, above_guard_phys) := compute_guard_phys kernel_end_va in
  let s := reserve_range below_guard_phys (add64 below_guard_phys 0x1000) s in
  reserve_range above_guard_phys (add64 above_guard_phys 0x1000) s.

(** [heap::init]; [None] is the failed assertion. *)
Definition init_heap `{HeapConfig} (kernel_end_va : Z) (m : gmap Z Z) : option Heap :=
  let '(va_start, phys_start, phys_end) := compute_heap_layout kernel_end_va in
  if phys_end <=? 0x40000000 then Some (heap_init va_start m) else None.

(* ------------------------------------------------------------------ *)
(** ** Alignment *)

Lemma align_up_spec v k :
  0 <= k < 64 -> 0 <= v -> v + 2 ^ k - 1 < 2 ^ 64 ->
  v <= align_up v (2 ^ k) < v + 2 ^ k /\ align_up v (2 ^ k) mod 2 ^ k = 0.
Proof.
  intros Hk Hv Hb. assert (0 < 2 ^ k) as Hp by (apply Z.pow_pos_nonneg; lia).
  assert (align_up v (2 ^ k) = (v + 2 ^ k - 1) / 2 ^ k * 2 ^ k) as ->.
  { unfold align_up. rewrite wrap_small by (unfold in_word; lia).
    unfold notw. replace (2 ^ k - 1) with (Z.ones k) by (rewrite Z.ones_equiv; lia).
    rewrite Z.land_assoc. change (Z.land (Z.land (v + 2 ^ k - 1) (Z.lnot (Z.ones k))) (Z.ones 64) = (v + 2 ^ k - 1) / 2 ^ k * 2 ^ k).
    rewrite Z.land_ones by lia. rewrite <- Z.ldiff_land, Z.ldiff_ones_r, Z.shiftl_mul_pow2, Z.shiftr_div_pow2 by lia.
    apply Z.mod_small. pose proof (Z.mul_div_le (v + 2 ^ k - 1) (2 ^ k) Hp). split; [|lia].
    apply Z.mul_nonneg_nonneg; [apply Z.div_pos; lia|lia]. }
  split; [|by apply Z.mod_mul; lia].
  pose proof (Z.div_mod (v + 2 ^ k - 1) (2 ^ k)). pose proof (Z.mod_pos_bound (v + 2 ^ k - 1) (2 ^ k) Hp). lia.
Qed.

(* ------------------------------------------------------------------ *)
(** ** Blocks

    What the memory holds, block by block in address order: free blocks and
    blocks handed out as [usz] bytes at [p], which hold [data]. *)

Inductive Use := Free | Live (p usz : Z) (data : Z -> Z).
Record Block := mkBlock { b_at : Z; b_len : Z; b_use : Use }.

Definition is_free (b : Block) : bool := match b_use b with Free => true | Live _ _ _ => false end.
Definition frees (bs : list Block) : list Block := List.filter is_free bs.

(** [bs] covers the bytes from [a] to [e] without gap or overlap. *)
Fixpoint tiles (a : Z) (bs : list Block) (e : Z) : Prop :=
  match bs with
  | [] => a = e
  | b :: bs => b_at b = a /\ 16 <= b_len b /\ b_len b mod 8 = 0 /\ tiles (a + b_len b) bs e
  end.

Fixpoint live_bytes (bs : list Block) : Z :=
  match bs with [] => 0 | b :: bs => (if is_free b then 0 else b_len b) + live_bytes bs end.

(** No two free blocks touch. *)
Fixpoint coalesced (bs : list Block) : Prop :=
  match bs with
  | b1 :: (b2 :: _) as bs' => ~ (is_free b1 = true /\ is_free b2 = true) /\ coalesced bs'
  | _ => True
  end.

(** The free list from [p] through the blocks [l], ending in the link [q]. *)
Fixpoint lseg (m : gmap Z Z) (p : Z) (l : list Block) (q : Z) : Prop :=
  match l with
  | [] => p = q
  | b :: l => p = b_at b /\ ld m (b_at b) = b_len b /\ lseg m (ld m (b_at b + 8)) l q
  end.

(** The header and the place of a block in use. *)
Definition live_ok (m : gmap Z Z) (b : Block) : Prop :=
  match b_use b with
  | Free => True
  | Live p usz data =>
      b_at b + 16 <= p /\ p mod 8 = 0 /\ 0 <= usz /\ p + usz <= b_at b + b_len b /\
      ld m (p - 16) = b_at b /\ ld m (p - 8) = b_len b /\
      (forall a, p <= a < p + usz -> ld m a = data a)
  end.

Lemma tiles_app a B1 B2 e : tiles a (B1 ++ B2) e <-> exists m, tiles a B1 m /\ tiles m B2 e.
Proof.
  revert a. induction B1 as [|b B1 IH]; intros a; cbn.
  - split; [intros Ht; by exists a|by intros (m & -> & ?)].
  - rewrite IH. naive_solver.
Qed.

Lemma tiles_le a bs e : tiles a bs e -> a <= e.
Proof. revert a. induction bs as [|b bs IH]; intros a; cbn; [lia|]. intros (_ & ? & _ & Ht%IH). lia. Qed.

Lemma tiles_mod a bs e : a mod 8 = 0 -> tiles a bs e -> e mod 8 = 0.
Proof.
  revert a. induction bs as [|b bs IH]; intros a Ha; cbn; [by intros <-|]. intros (_ & _ & Hm & Ht).
  apply (IH (a + b_len b)); [|done]. rewrite Z.add_mod, Ha, Hm by lia. done.
Qed.

Lemma tiles_in a bs e b : tiles a bs e -> b ∈ bs -> a <= b_at b /\ b_at b + b_len b <= e /\ 16 <= b_len b.
Proof.
  revert a. induction bs as [|x bs IH]; intros a; cbn; [by intros _ ?%not_elem_of_nil|].
  intros (Hx & Hl & _ & Ht) [->|Hb]%list.elem_of_cons; [pose proof (tiles_le _ _ _ Ht); lia|].
  specialize (IH _ Ht Hb). lia.
Qed.

Lemma tiles_in_mod a bs e b : a mod 8 = 0 -> tiles a bs e -> b ∈ bs -> b_at b mod 8 = 0.
Proof.
  intros Ha Ht Hb. apply list_elem_of_split in Hb as (B1 & B2 & ->).
  apply tiles_app in Ht as (m & H1 & H2). cbn in H2. destruct H2 as (-> & _). by apply (tiles_mod a B1).
Qed.

(** Blocks before and after one are apart from it. *)
Lemma tiles_apart a B1 b B2 e x :
  tiles a (B1 ++ b :: B2) e -> (x ∈ B1 -> b_at x + b_len x <= b_at b) /\ (x ∈ B2 -> b_at b + b_len b <= b_at x).
Proof.
  intros (m & H1 & H2)%tiles_app. cbn in H2. destruct H2 as (Hb & Hl & _ & H2). split; intros Hx.
  - pose proof (tiles_in _ _ _ _ H1 Hx). lia.
  - pose proof (tiles_in _ _ _ _ H2 Hx). lia.
Qed.

Lemma tiles_count a bs e : tiles a bs e -> 16 * Z.of_nat (length bs) <= e - a.
Proof.
  revert a. induction bs as [|b bs IH]; intros a; cbn [tiles length]; [lia|]. intros (_ & ? & _ & Ht%IH). lia.
Qed.

Lemma frees_app B1 B2 : frees (B1 ++ B2) = frees B1 ++ frees B2.
Proof. apply List.filter_app. Qed.

Lemma elem_frees b bs : b ∈ frees bs <-> b ∈ bs /\ is_free b = true.
Proof. unfold frees. by rewrite list_elem_of_In, filter_In, <- list_elem_of_In. Qed.

Lemma live_bytes_app B1 B2 : live_bytes (B1 ++ B2) = live_bytes B1 + live_bytes B2.
Proof. induction B1 as [|b B1 IH]; cbn; [done|]. rewrite IH. lia. Qed.

Lemma live_bytes_bound a bs e : tiles a bs e -> 0 <= live_bytes bs <= e - a.
Proof.
  revert a. induction bs as [|b bs IH]; intros a; cbn; [lia|]. intros (_ & ? & _ & Ht%IH). destruct (is_free b); lia.
Qed.

Lemma lseg_app m p l1 l2 q : lseg m p (l1 ++ l2) q <-> exists r, lseg m p l1 r /\ lseg m r l2 q.
Proof.
  revert p. induction l1 as [|b l1 IH]; intros p; cbn.
  - split; [intros Hl; by exists p|by intros (r & -> & ?)].
  - rewrite IH. naive_solver.
Qed.

(** The list depends on the first two words of its blocks only. *)
Lemma lseg_frame m m' p l q :
  (forall b, b ∈ l -> ld m' (b_at b) = ld m (b_at b) /\ ld m' (b_at b + 8) = ld m (b_at b + 8)) ->
  lseg m p l q -> lseg m' p l q.
Proof.
  revert p. induction l as [|b l IH]; intros p Hf; cbn; [done|]. intros (-> & Hs & Hl).
  destruct (Hf b) as [E1 E2]; [by left|]. rewrite E1, E2. split_and!; [done|done|]. apply IH; [|done].
  intros x Hx. apply Hf. by right.
Qed.

Lemma live_frame m m' b :
  (forall a, b_at b <= a < b_at b + b_len b -> ld m' a = ld m a) -> live_ok m b -> live_ok m' b.
Proof.
  unfold live_ok. intros Hf. destruct (b_use b) as [|p usz data]; [done|]. intros (H1 & H2 & H3 & H4 & H5 & H6 & H7).
  rewrite !Hf by lia. split_and!; try done. intros a Ha. rewrite Hf by lia. by apply H7.
Qed.

Definition last_at (l : list Block) : Z := match rev l with b :: _ => b_at b | [] => 0 end.
Definition first_at (l : list Block) : Z := match l with b :: _ => b_at b | [] => 0 end.

Lemma lseg_first m p l : lseg m p l 0 -> p = first_at l.
Proof. destruct l; cbn; [done|]. by intros [? _]. Qed.

Lemma ld_store a v h x : ld (mem (store a v h)) x = if x =? a then v else ld (mem h) x.
Proof.
  unfold ld. cbn. destruct (Z.eqb_spec x a) as [->|Hn]; [by rewrite lookup_insert_eq|]. by rewrite lookup_insert_ne by done.
Qed.

Lemma last_at_snoc l b : last_at (l ++ [b]) = b_at b.
Proof. unfold last_at. by rewrite rev_app_distr. Qed.

Lemma ld_store_block a s n h x :
  ld (mem (store_block a s n h)) x = if x =? a + 8 then n else if x =? a then s else ld (mem h) x.
Proof. unfold store_block. by rewrite !ld_store. Qed.

Lemma ld_store_header p s n h x :
  ld (mem (store_header p s n h)) x = if x =? p - 8 then n else if x =? p - 16 then s else ld (mem h) x.
Proof. unfold store_header. by rewrite !ld_store. Qed.

Arguments store : simpl never.
Arguments store_block : simpl never.
Arguments store_header : simpl never.
Arguments ld : simpl never.

(** Decides the address comparisons of a load after stores. *)
Ltac ld_cases :=
  repeat match goal with
  | |- context [?x =? ?y] => destruct (Z.eqb_spec x y); try lia
  end.

Section proofs.
Context `{HeapConfig}.

(** The heap as the blocks [bs]. *)
Record heap_wf (h : Heap) (bs : list Block) : Prop := {
  hw_init : initialized h = true;
  hw_size : 16 <= HEAP_SIZE;
  hw_base : 0 < HEAP_START_VA h /\ HEAP_START_VA h mod 8 = 0 /\ HEAP_START_VA h + HEAP_SIZE + 2 ^ 33 <= 2 ^ 64;
  hw_tiles : tiles (HEAP_START_VA h) bs (HEAP_START_VA h + HEAP_SIZE);
  hw_chain : lseg (mem h) (head h) (frees bs) 0;
  hw_live : Forall (live_ok (mem h)) bs;
  hw_total : total_bytes h = HEAP_SIZE;
  hw_alloc : allocated_bytes h = live_bytes bs }.

(** Every block start is a plausible block pointer. *)
Lemma block_valid h bs b : heap_wf h bs -> b ∈ bs -> validate_block_ptr h (b_at b) = true.
Proof.
  intros [H1 Hs (B1 & B2 & B3) Ht Hc Hl Htot Ha] Hb. pose proof (tiles_in _ _ _ _ Ht Hb) as (L1 & L2 & L3).
  pose proof (tiles_in_mod _ _ _ _ B2 Ht Hb) as Hm. unfold validate_block_ptr.
  rewrite (proj2 (Z.eqb_neq (b_at b) 0)) by lia.
  replace (b_at b .& (BLOCK_ALIGN - 1)) with 0.
  - cbn [Z.eqb negb]. rewrite (proj2 (Z.eqb_neq (HEAP_START_VA h) 0)) by lia.
    rewrite add64_small by (unfold U64_MAX; lia). unfold sat_sub, MIN_BLOCK_SIZE.
    apply negb_true_iff, orb_false_iff. split; [apply Z.ltb_ge; lia|apply Z.ltb_ge; lia].
  - change (BLOCK_ALIGN - 1) with (Z.ones 3). by rewrite Z.land_ones by lia.
Qed.

Lemma first_valid h bs l : heap_wf h bs -> (forall b, b ∈ l -> b ∈ bs) -> validate_block_ptr h (first_at l) = true.
Proof. intros Hw Hl. destruct l as [|b l]; [done|]. apply (block_valid h bs); [done|]. apply Hl. by left. Qed.

(** Moving the link after the blocks [l] of the list. *)
Lemma set_link_lseg h l q q' :
  lseg (mem h) (head h) l q ->
  (forall b, b ∈ l -> b_at b <> 0) ->
  (forall l1 b l2 x, l = l1 ++ b :: l2 -> x ∈ l1 -> b_at x + 16 <= b_at b) ->
  let h' := set_link (last_at l) q' h in
  lseg (mem h') (head h') l q' /\
  (forall a, (forall l1 b, l = l1 ++ [b] -> a <> b_at b + 8) -> ld (mem h') a = ld (mem h) a).
Proof.
  intros Hl Hnz Hap. cbv zeta. destruct l as [|b l1 _] using rev_ind; [done|].
  rewrite last_at_snoc. unfold set_link. rewrite (proj2 (Z.eqb_neq (b_at b) 0)) by (apply Hnz; set_solver).
  split.
  - apply lseg_app in Hl as (r & Hl1 & Hb). apply lseg_app. exists r. split.
    + apply (lseg_frame (mem h)); [|done]. intros x Hx. specialize (Hap l1 b [] x eq_refl Hx). rewrite !ld_store. by ld_cases.
    + cbn in *. destruct Hb as (-> & Hs & _). rewrite !ld_store. split_and!; [done| |].
      * by ld_cases.
      * by rewrite Z.eqb_refl.
  - intros a Ha. rewrite ld_store. specialize (Ha l1 b eq_refl). by rewrite (proj2 (Z.eqb_neq _ _)).
Qed.

(** The free blocks among tiling blocks are apart. *)
Lemma frees_apart a bs e l1 b l2 x :
  tiles a bs e -> frees bs = l1 ++ b :: l2 -> x ∈ l1 -> b_at x + 16 <= b_at b.
Proof.
  revert a l1. induction bs as [|y bs IH]; intros a l1; [by destruct l1|]. cbn [tiles]. intros (Hy & Hlen & _ & Ht).
  change (frees (y :: bs)) with (if is_free y then y :: frees bs else frees bs).
  destruct (is_free y); [|by apply (IH _ l1 Ht)]. destruct l1 as [|z l1]; [by intros _ ?%not_elem_of_nil|].
  intros [= <- Hf] [->|Hx]%list.elem_of_cons; [|by apply (IH _ l1 Ht)].
  assert (b ∈ frees bs) as [Hb _]%elem_frees by (rewrite Hf; set_solver).
  pose proof (tiles_in _ _ _ _ Ht Hb). lia.
Qed.

Lemma tiles_disjoint a bs e x y :
  tiles a bs e -> x ∈ bs -> y ∈ bs -> x <> y -> b_at x + b_len x <= b_at y \/ b_at y + b_len y <= b_at x.
Proof.
  revert a. induction bs as [|b bs IH]; intros a; [by intros _ ?%not_elem_of_nil|]. cbn [tiles].
  intros (Hb & Hl & _ & Ht) [->|Hx]%list.elem_of_cons [->|Hy]%list.elem_of_cons Hne; [done| | |by apply (IH _ Ht)].
  - pose proof (tiles_in _ _ _ _ Ht Hy). lia.
  - pose proof (tiles_in _ _ _ _ Ht Hx). lia.
Qed.

(** The word a link after the free blocks of [B1] is in, if it is in memory. *)
Definition link_word (B1 : list Block) (a : Z) : Prop := exists l x, frees B1 = l ++ [x] /\ a = b_at x + 8.

(** Replacing the blocks [S] from [sa] to [se] by blocks [M]. *)
Lemma heap_wf_replace h h' B1 S B2 M sa se q :
  heap_wf h (B1 ++ S ++ B2) ->
  tiles (HEAP_START_VA h) B1 sa -> tiles sa S se -> tiles se B2 (HEAP_START_VA h + HEAP_SIZE) ->
  initialized h' = true -> HEAP_START_VA h' = HEAP_START_VA h -> total_bytes h' = total_bytes h ->
  (forall a, ~ (sa <= a < se) -> ~ link_word B1 a -> ld (mem h') a = ld (mem h) a) ->
  lseg (mem h') (head h') (frees B1) q -> lseg (mem h') q (frees M) (first_at (frees B2)) ->
  tiles sa M se -> Forall (live_ok (mem h')) M ->
  allocated_bytes h' = live_bytes B1 + live_bytes M + live_bytes B2 ->
  heap_wf h' (B1 ++ M ++ B2).
Proof.
  intros [W1 W2 W3 W4 W5 W6 W7 W8] T1 TS T2 Hi Hb Ht Hf Hpre Hmid Htile Hlive Halloc.
  pose proof (tiles_le _ _ _ TS) as Hle.
  assert (forall a, link_word B1 a -> a + 8 <= sa) as Hlink.
  { intros a (l & y & Hl & ->). assert (y ∈ frees B1) as [Hy _]%elem_frees by (rewrite Hl; set_solver).
    pose proof (tiles_in _ _ _ y T1 Hy). lia. }
  assert (forall x a, x ∈ B2 -> b_at x <= a < b_at x + b_len x -> ld (mem h') a = ld (mem h) a) as F2.
  { intros x a Hx Ha. pose proof (tiles_in _ _ _ x T2 Hx). apply Hf; [lia|]. intros Hl%Hlink. lia. }
  assert (forall x a, x ∈ B1 -> is_free x = false -> b_at x <= a < b_at x + b_len x -> ld (mem h') a = ld (mem h) a) as F1.
  { intros x a Hx Hfx Ha. pose proof (tiles_in _ _ _ x T1 Hx). apply Hf; [lia|]. intros (l & y & Hl & ->).
    assert (y ∈ frees B1) as [Hy Hfy]%elem_frees by (rewrite Hl; set_solver).
    pose proof (tiles_in _ _ _ y T1 Hy). destruct (tiles_disjoint _ _ _ x y T1) as [?|?]; [done|done|congruence|lia|lia]. }
  split; try done.
  - by rewrite Hb.
  - rewrite Hb. apply tiles_app. exists sa. split; [done|]. apply tiles_app. by exists se.
  - rewrite !frees_app. apply lseg_app. exists q. split; [done|]. apply lseg_app. exists (first_at (frees B2)). split; [done|].
    rewrite !frees_app in W5. apply lseg_app in W5 as (r & _ & W5). apply lseg_app in W5 as (r' & _ & W5).
    rewrite (lseg_first _ _ _ W5) in W5. apply (lseg_frame (mem h)); [|done].
    intros x [Hx _]%elem_frees. pose proof (tiles_in _ _ _ x T2 Hx). split; apply (F2 x); try done; lia.
  - rewrite !list.Forall_app in *. destruct W6 as [L1 [_ L2]].
    split; [|split; [done|]]; apply list.Forall_forall; intros x Hx; rewrite list.Forall_forall in *.
    + destruct (is_free x) eqn:Hfx; [unfold live_ok, is_free in *; by destruct (b_use x)|].
      apply (live_frame (mem h)); [|by apply L1]. intros a. by apply F1.
    + apply (live_frame (mem h)); [|by apply L2]. intros a. by apply F2.
  - by rewrite Ht.
  - rewrite !live_bytes_app, Halloc. lia.
Qed.

(** The same for one block. *)
Lemma heap_wf_replace1 h h' B1 b B2 M q :
  heap_wf h (B1 ++ b :: B2) ->
  initialized h' = true -> HEAP_START_VA h' = HEAP_START_VA h -> total_bytes h' = total_bytes h ->
  (forall a, ~ (b_at b <= a < b_at b + b_len b) -> ~ link_word B1 a -> ld (mem h') a = ld (mem h) a) ->
  lseg (mem h') (head h') (frees B1) q -> lseg (mem h') q (frees M) (first_at (frees B2)) ->
  tiles (b_at b) M (b_at b + b_len b) -> Forall (live_ok (mem h')) M ->
  allocated_bytes h' = live_bytes B1 + live_bytes M + live_bytes B2 ->
  heap_wf h' (B1 ++ M ++ B2).
Proof.
  intros Hw. pose proof (hw_tiles _ _ Hw) as Ht. apply tiles_app in Ht as (m & T1 & T2).
  cbn in T2. destruct T2 as (<- & T3 & T4 & T2).
  apply (heap_wf_replace h h' B1 [b] B2 M (b_at b) (b_at b + b_len b) q); try done.
Qed.

(** A request: a power of two from a word up to 4 GiB, and a size an object
    can have. *)
Definition request_ok (size align : Z) : Prop := 0 <= size < 2 ^ 63 /\ exists k, 0 <= k <= 32 /\ align = 2 ^ k.

Lemma max_align k : 0 <= k -> exists k', 3 <= k' /\ k <= k' /\ k' <= Z.max k 3 /\ Z.max (2 ^ k) 8 = 2 ^ k'.
Proof.
  intros Hk. destruct (Z.le_gt_cases k 3) as [H3|H3].
  - exists 3. pose proof (Z.pow_le_mono_r 2 k 3). split_and!; lia.
  - exists k. pose proof (Z.pow_le_mono_r 2 3 k). split_and!; lia.
Qed.

Lemma needed_spec size k a :
  3 <= k <= 32 -> 0 <= size < 2 ^ 63 -> 0 <= a -> a + 16 + 2 ^ 33 <= 2 ^ 64 ->
  let data := data_at (2 ^ k) a in let need := needed size (2 ^ k) a in
  a + 16 <= data < a + 16 + 2 ^ k /\ data mod 2 ^ k = 0 /\ data mod 8 = 0 /\
  data + size - a <= need < data + size - a + 8 /\ need mod 8 = 0.
Proof.
  intros Hk Hs Ha Hb. cbv zeta.
  assert (2 ^ k <= 2 ^ 32) as Hk32 by (apply Z.pow_le_mono_r; lia).
  assert (add64 a ALLOC_HEADER_SIZE = a + 16) as E by (apply add64_small; unfold U64_MAX, ALLOC_HEADER_SIZE; lia).
  destruct (align_up_spec (a + 16) k) as [D1 D2]; [lia|lia|lia|].
  assert (data_at (2 ^ k) a = align_up (a + 16) (2 ^ k)) as Ed by (unfold data_at; by rewrite E).
  rewrite <- Ed in D1, D2.
  assert (data_at (2 ^ k) a mod 8 = 0) as D8.
  { apply Z.mod_divide in D2 as [c Hc]; [|lia]. rewrite Hc. replace (2 ^ k) with (2 ^ (k - 3) * 8).
    - rewrite Z.mul_assoc. by apply Z.mod_mul.
    - change 8 with (2 ^ 3). rewrite <- Z.pow_add_r by lia. f_equal. lia. }
  assert (sub64 (add64 (data_at (2 ^ k) a) size) a = data_at (2 ^ k) a + size - a) as Er.
  { unfold sub64, add64, wrap. rewrite Zminus_mod_idemp_l. apply Z.mod_small. lia. }
  unfold needed. rewrite Er. destruct (align_up_spec (data_at (2 ^ k) a + size - a) 3) as [N1 N2]; [lia|lia|lia|].
  change (2 ^ 3) with BLOCK_ALIGN in *. unfold BLOCK_ALIGN in *. split_and!; try done; lia.
Qed.

(** Stores inside [b] leave the list before it. *)
Lemma lseg_before h m m' B1 b B2 p q :
  heap_wf h (B1 ++ b :: B2) -> (forall a, ~ (b_at b <= a < b_at b + b_len b) -> ld m' a = ld m a) ->
  lseg m p (frees B1) q -> lseg m' p (frees B1) q.
Proof.
  intros Hw Hf. apply lseg_frame. intros x [Hx _]%elem_frees.
  destruct (tiles_apart _ _ _ _ _ x (hw_tiles _ _ Hw)) as [Hap _]. specialize (Hap Hx).
  pose proof (tiles_in _ _ _ x (hw_tiles _ _ Hw) ltac:(set_solver)). split; apply Hf; lia.
Qed.

Lemma link_word_before h B1 b B2 a : heap_wf h (B1 ++ b :: B2) -> link_word B1 a -> a < b_at b.
Proof.
  intros Hw (l & x & Hl & ->). assert (x ∈ frees B1) as [Hx _]%elem_frees by (rewrite Hl; set_solver).
  destruct (tiles_apart _ _ _ _ _ x (hw_tiles _ _ Hw)) as [Hap _]. specialize (Hap Hx).
  pose proof (tiles_in _ _ _ x (hw_tiles _ _ Hw) ltac:(set_solver)). lia.
Qed.

(** The link that leads to [b], or past its place. *)
Lemma lseg_split h B1 b B2 :
  heap_wf h (B1 ++ b :: B2) -> lseg (mem h) (head h) (frees B1) (first_at (frees (b :: B2))) /\
  (is_free b = true -> ld (mem h) (b_at b) = b_len b /\ ld (mem h) (b_at b + 8) = first_at (frees B2)).
Proof.
  intros Hw. pose proof (hw_chain _ _ Hw) as Hc. rewrite frees_app in Hc. apply lseg_app in Hc as (r & H1 & H2).
  rewrite (lseg_first _ _ _ H2) in H1. split; [done|]. intros Hfr.
  change (frees (b :: B2)) with (if is_free b then b :: frees B2 else frees B2) in H2. rewrite Hfr in H2.
  cbn in H2. destruct H2 as (_ & H2 & H3). split; [done|]. by apply lseg_first in H3.
Qed.

(** Moving the link before [b], after stores inside [b]. *)
Lemma relink_before h h1 B1 b B2 q q' :
  heap_wf h (B1 ++ b :: B2) -> head h1 = head h ->
  (forall a, ~ (b_at b <= a < b_at b + b_len b) -> ld (mem h1) a = ld (mem h) a) ->
  lseg (mem h) (head h) (frees B1) q ->
  let h2 := set_link (last_at (frees B1)) q' h1 in
  lseg (mem h2) (head h2) (frees B1) q' /\ (forall a, ~ link_word B1 a -> ld (mem h2) a = ld (mem h1) a) /\
  initialized h2 = initialized h1 /\ HEAP_START_VA h2 = HEAP_START_VA h1 /\ total_bytes h2 = total_bytes h1 /\
  allocated_bytes h2 = allocated_bytes h1.
Proof.
  intros Hw Hh Hf Hl. cbv zeta. pose proof (hw_tiles _ _ Hw) as Ht. pose proof (hw_base _ _ Hw) as (Hpos & _).
  destruct (set_link_lseg h1 (frees B1) q q') as [G1 G2].
  - rewrite Hh. by apply (lseg_before h (mem h) _ B1 b B2).
  - intros x [Hx _]%elem_frees. pose proof (tiles_in _ _ _ x Ht ltac:(set_solver)). lia.
  - intros l1 x l2 y Hy Hin. apply tiles_app in Ht as (m & T1 & _). by apply (frees_apart _ _ _ _ _ _ _ T1 Hy).
  - split; [done|]. split; [|unfold set_link; by destruct (_ =? 0)].
    intros a Ha. apply G2. intros l x Hx ->. apply Ha. by exists l, x.
Qed.

(** The facts about a block that the arithmetic needs. *)
Lemma block_bounds h B1 b B2 :
  heap_wf h (B1 ++ b :: B2) ->
  0 < b_at b /\ b_at b mod 8 = 0 /\ 16 <= b_len b /\ b_len b mod 8 = 0 /\ b_at b + b_len b + 2 ^ 33 <= 2 ^ 64 /\
  0 <= live_bytes B1 /\ 0 <= live_bytes B2 /\ live_bytes B1 + b_len b + live_bytes B2 <= HEAP_SIZE /\ HEAP_SIZE < 2 ^ 64.
Proof.
  intros Hw. pose proof (hw_tiles _ _ Hw) as Ht. pose proof (hw_base _ _ Hw) as (P1 & P2 & P3).
  pose proof (tiles_in _ _ _ b Ht ltac:(set_solver)). pose proof (tiles_in_mod _ _ _ b P2 Ht ltac:(set_solver)).
  apply tiles_app in Ht as (m & T1 & T2). cbn in T2. destruct T2 as (T3 & T4 & T5 & T2).
  pose proof (live_bytes_bound _ _ _ T1). pose proof (live_bytes_bound _ _ _ T2). split_and!; try done; lia.
Qed.

(** The blocks that take the place of [b] when [usz] bytes at [p], [n] of its
    bytes in all, are handed out of it; [m] is the memory then. *)
Definition carved (b : Block) (n p usz : Z) (m : gmap Z Z) : list Block :=
  if 32 <=? b_len b - n then [mkBlock (b_at b) n (Live p usz (ld m)); mkBlock (b_at b + n) (b_len b - n) Free]
  else [mkBlock (b_at b) (b_len b) (Live p usz (ld m))].

Lemma carve_spec h B1 b B2 size k :
  heap_wf h (B1 ++ b :: B2) -> is_free b = true -> 3 <= k <= 32 -> 0 <= size < 2 ^ 63 ->
  needed size (2 ^ k) (b_at b) <= b_len b ->
  let p := data_at (2 ^ k) (b_at b) in
  exists h', carve size (2 ^ k) (last_at (frees B1)) (b_at b) h = Some (p, h') /\
    heap_wf h' (B1 ++ carved b (needed size (2 ^ k) (b_at b)) p size (mem h') ++ B2).
Proof.
  intros Hw Hfr Hk Hs Hfit. cbv zeta. destruct (block_bounds _ _ _ _ Hw) as (P1 & P2 & P3 & P4 & P5 & P6 & P7 & P8 & P9).
  destruct (needed_spec size k (b_at b) Hk Hs) as (N1 & N2 & N3 & N4 & N5); [lia|lia|].
  destruct (lseg_split _ _ _ _ Hw) as [Hpre Hb]. destruct (Hb Hfr) as [Hlen Hnext].
  assert (forall b0, b0 ∈ frees B2 -> b0 ∈ B1 ++ b :: B2) as Hsub by (intros b0 [? _]%elem_frees; set_solver).
  pose proof (hw_alloc _ _ Hw) as Ha. rewrite live_bytes_app in Ha. cbn [live_bytes] in Ha. rewrite Hfr in Ha.
  unfold carve. rewrite Hlen, Hnext, (first_valid _ _ _ Hw Hsub). cbn [negb].
  set (need := needed size (2 ^ k) (b_at b)) in *. set (p := data_at (2 ^ k) (b_at b)) in *.
  unfold carved. change (MIN_BLOCK_SIZE + 16) with 32.
  destruct (Z.leb_spec 32 (b_len b - need)) as [Hr|Hr].
  - rewrite (add64_small (b_at b) need) by (unfold U64_MAX; lia).
    set (h1 := store_block (b_at b + need) (b_len b - need) (first_at (frees B2)) h).
    assert (forall a, ~ (b_at b <= a < b_at b + b_len b) -> ld (mem h1) a = ld (mem h) a) as Hf1.
    { intros a Hna. unfold h1. rewrite ld_store_block. by ld_cases. }
    destruct (relink_before h h1 B1 b B2 _ (b_at b + need) Hw eq_refl Hf1 Hpre) as (G1 & G2 & G3 & G4 & G5 & G6).
    set (h2 := set_link _ _ h1) in *. eexists. split; [reflexivity|].
    apply (heap_wf_replace1 h _ _ b _ _ (b_at b + need) Hw).
    + exact (eq_trans G3 (hw_init _ _ Hw)).
    + exact G4.
    + exact G5.
    + intros a Hna Hnl. rewrite ld_store_header. ld_cases. cbn. rewrite G2, Hf1 by done. done.
    + apply (lseg_before h (mem h2) _ B1 b B2); [done| |done]. intros a Hna. rewrite ld_store_header. by ld_cases.
    + cbn. rewrite !ld_store_header. ld_cases. cbn.
      rewrite !G2 by (intros ?%(link_word_before _ _ _ _ _ Hw); lia). unfold h1. rewrite !ld_store_block. by ld_cases.
    + cbn. split_and!; try done; try lia. rewrite Zminus_mod, P4, N5. done.
    + constructor; [|constructor; [done|constructor]]. unfold live_ok. cbn. rewrite !ld_store_header.
      split_and!; try done; try lia; by ld_cases.
    + change (add64 (allocated_bytes h2) need = live_bytes B1 + (need + (0 + 0)) + live_bytes B2).
      rewrite G6. change (allocated_bytes h1) with (allocated_bytes h). rewrite Ha, add64_small by (unfold U64_MAX; lia). lia.
  - destruct (relink_before h h B1 b B2 _ (first_at (frees B2)) Hw eq_refl ltac:(done) Hpre) as (G1 & G2 & G3 & G4 & G5 & G6).
    set (h2 := set_link _ _ h) in *. eexists. split; [reflexivity|].
    apply (heap_wf_replace1 h _ _ b _ _ (first_at (frees B2)) Hw).
    + exact (eq_trans G3 (hw_init _ _ Hw)).
    + exact G4.
    + exact G5.
    + intros a Hna Hnl. rewrite ld_store_header. ld_cases. cbn. by rewrite G2.
    + apply (lseg_before h (mem h2) _ B1 b B2); [done| |done]. intros a Hna. rewrite ld_store_header. by ld_cases.
    + done.
    + cbn. split_and!; try done; lia.
    + constructor; [|constructor]. unfold live_ok. cbn. rewrite !ld_store_header.
      split_and!; try done; try lia; by ld_cases.
    + change (add64 (allocated_bytes h2) (b_len b) = live_bytes B1 + (b_len b + 0) + live_bytes B2).
      rewrite G6, Ha, add64_small by (unfold U64_MAX; lia). lia.
Qed.

(* ------------------------------------------------------------------ *)
(** ** The first-fit walk *)

Lemma frees_cons b bs : frees (b :: bs) = if is_free b then b :: frees bs else frees bs.
Proof. done. Qed.

Lemma frees_snoc bs b : frees (bs ++ [b]) = if is_free b then frees bs ++ [b] else frees bs.
Proof. rewrite frees_app, frees_cons. destruct (is_free b); [done|by rewrite app_nil_r]. Qed.

Lemma alloc_walk_spec fuel size k h B1 B2 :
  heap_wf h (B1 ++ B2) -> 3 <= k <= 32 -> 0 <= size < 2 ^ 63 -> (length (frees B2) <= fuel)%nat ->
  exists p h', alloc_walk fuel size (2 ^ k) (last_at (frees B1)) (first_at (frees B2)) h = Some (p, h') /\
    ((p = 0 /\ h' = h /\ forall x, x ∈ frees B2 -> b_len x < needed size (2 ^ k) (b_at x)) \/
     (exists C1 b C2, B2 = C1 ++ b :: C2 /\ is_free b = true /\
        (forall x, x ∈ frees C1 -> b_len x < needed size (2 ^ k) (b_at x)) /\
        needed size (2 ^ k) (b_at b) <= b_len b /\ p = data_at (2 ^ k) (b_at b) /\
        heap_wf h' (B1 ++ C1 ++ carved b (needed size (2 ^ k) (b_at b)) p size (mem h') ++ C2))).
Proof.
  intros Hw Hk Hs. revert fuel B1 Hw. induction B2 as [|b B2 IH]; intros fuel B1 Hw Hf.
  { exists 0, h. split; [by destruct fuel|]. left. split_and!; [done|done|]. by intros x ?%not_elem_of_nil. }
  rewrite frees_cons in *. pose proof Hw as Hw'. rewrite (cons_middle b B1 B2), app_assoc in Hw'.
  destruct (is_free b) eqn:Hfr.
  - destruct fuel as [|fuel]; [cbn in Hf; lia|]. destruct (block_bounds _ _ _ _ Hw) as (P1 & _).
    destruct (lseg_split _ _ _ _ Hw) as [_ Hb]. destruct (Hb Hfr) as [Hlen Hnext].
    cbn [alloc_walk first_at]. rewrite (proj2 (Z.eqb_neq (b_at b) 0)) by lia. rewrite Hlen, Hnext.
    destruct (Z.leb_spec (needed size (2 ^ k) (b_at b)) (b_len b)) as [Hfit|Hfit].
    + destruct (carve_spec h B1 b B2 size k Hw Hfr Hk Hs Hfit) as (h' & Hc & Hw2).
      exists (data_at (2 ^ k) (b_at b)), h'. split; [done|]. right. exists [], b, B2.
      split_and!; try done. by intros x ?%not_elem_of_nil.
    + rewrite (first_valid h _ (frees B2) Hw) by (intros x [? _]%elem_frees; set_solver).
      destruct (IH fuel (B1 ++ [b]) Hw') as (p & h' & He & Hr); [cbn in Hf; lia|].
      rewrite frees_snoc, Hfr, last_at_snoc in He. exists p, h'. split; [done|]. destruct Hr as [(-> & -> & Hn)|Hr].
      * left. split_and!; try done. intros x [->|Hx]%list.elem_of_cons; [done|by apply Hn].
      * right. destruct Hr as (C1 & c & C2 & -> & G1 & G2 & G3 & G4 & G5). exists (b :: C1), c, C2.
        split_and!; try done.
        -- intros x. rewrite frees_cons, Hfr. intros [->|Hx]%list.elem_of_cons; [done|by apply G2].
        -- by rewrite <- app_assoc in G5.
  - destruct (IH fuel (B1 ++ [b]) Hw' Hf) as (p & h' & He & Hr).
    rewrite frees_snoc, Hfr in He. exists p, h'. split; [done|]. destruct Hr as [Hn|Hr]; [by left|].
    right. destruct Hr as (C1 & c & C2 & -> & G1 & G2 & G3 & G4 & G5). exists (b :: C1), c, C2.
    split_and!; try done; [by rewrite frees_cons, Hfr|by rewrite <- app_assoc in G5].
Qed.

(** [MAX_WALK_ITERS] steps pass over every block. *)
Lemma walk_enough h bs : heap_wf h bs -> (length bs <= Z.to_nat MAX_WALK_ITERS)%nat.
Proof.
  intros Hw. pose proof (tiles_count _ _ _ (hw_tiles _ _ Hw)). pose proof (hw_size _ _ Hw). unfold MAX_WALK_ITERS, MIN_BLOCK_SIZE.
  assert (Z.of_nat (length bs) <= HEAP_SIZE / 16) by (apply Z.div_le_lower_bound; lia). lia.
Qed.

Lemma frees_length bs : (length (frees bs) <= length bs)%nat.
Proof. apply List.filter_length_le. Qed.

Lemma head_first h bs : heap_wf h bs -> head h = first_at (frees bs).
Proof. intros Hw. apply (lseg_first (mem h)), Hw. Qed.

Lemma head_valid h bs : heap_wf h bs -> validate_block_ptr h (head h) = true.
Proof. intros Hw. rewrite (head_first _ _ Hw). apply (first_valid h bs); [done|]. by intros b [? _]%elem_frees. Qed.

(* ------------------------------------------------------------------ *)
(** ** Coalescing *)

Lemma coalesced_split B1 b B2 : coalesced (B1 ++ b :: B2) <-> coalesced (B1 ++ [b]) /\ coalesced (b :: B2).
Proof.
  induction B1 as [|x [|y B1] IH]; [cbn; tauto|cbn in *; tauto|].
  cbn [app coalesced] in *. tauto.
Qed.

(** A block may take the place of another that is free whenever it is. *)
Lemma coalesced_swap_last B1 x y : (is_free y = true -> is_free x = true) -> coalesced (B1 ++ [x]) -> coalesced (B1 ++ [y]).
Proof. intros Hi. induction B1 as [|a [|b B1] IH]; cbn [app coalesced] in *; tauto. Qed.

Lemma coalesced_swap_head B2 x y : (is_free y = true -> is_free x = true) -> coalesced (x :: B2) -> coalesced (y :: B2).
Proof. intros Hi. destruct B2; cbn [coalesced]; tauto. Qed.

Lemma coalesced_cons_live x y B2 : is_free y = false -> coalesced (y :: B2) -> coalesced (x :: y :: B2).
Proof. intros Hy Hc. split; [|done]. rewrite Hy. by intros []. Qed.

Lemma coalesced_live_cons x y B2 : is_free x = false -> coalesced (y :: B2) -> coalesced (x :: y :: B2).
Proof. intros Hy Hc. split; [|done]. rewrite Hy. by intros []. Qed.

Lemma coalesced_app B1 B2 : coalesced (B1 ++ B2) -> coalesced B1 /\ coalesced B2.
Proof. induction B1 as [|x [|y B1] IH]; cbn [app coalesced] in *; [done| |tauto]. destruct B2; cbn; tauto. Qed.

Lemma coalesced_carved B1 b B2 n p usz m :
  is_free b = true -> coalesced (B1 ++ b :: B2) -> coalesced (B1 ++ carved b n p usz m ++ B2).
Proof.
  intros Hf [H1 H2]%coalesced_split. unfold carved.
  destruct (32 <=? _); cbn [app]; apply coalesced_split; (split; [by apply (coalesced_swap_last _ b)|]).
  - change (coalesced ([mkBlock (b_at b) n (Live p usz (ld m))] ++ mkBlock (b_at b + n) (b_len b - n) Free :: B2)).
    apply coalesced_split. split; [cbn; intuition done|]. by apply (coalesced_swap_head _ b).
  - by apply (coalesced_swap_head _ b).
Qed.

(** The heap as blocks of which no two free ones touch. *)
Definition heap_ok (h : Heap) (bs : list Block) : Prop := heap_wf h bs /\ coalesced bs.

Lemma heap_init_ok base m :
  16 <= HEAP_SIZE -> HEAP_SIZE mod 8 = 0 -> 0 < base -> base mod 8 = 0 -> base + HEAP_SIZE + 2 ^ 33 <= 2 ^ 64 ->
  heap_ok (heap_init base m) [mkBlock base HEAP_SIZE Free].
Proof.
  intros H1 H2 H3 H4 H5. split; [|done]. split; try done.
  - cbn. unfold heap_init. rewrite !ld_store_block. split_and!; try done; by ld_cases.
  - by repeat constructor.
Qed.

Lemma heap_alloc_spec h bs size align :
  heap_ok h bs -> request_ok size align ->
  exists p h', heap_alloc size align h = Some (p, h') /\
    ((p = 0 /\ h' = h /\ forall x, x ∈ frees bs -> b_len x < needed size (Z.max align 8) (b_at x)) \/
     (exists C1 b C2, bs = C1 ++ b :: C2 /\ is_free b = true /\
        (forall x, x ∈ frees C1 -> b_len x < needed size (Z.max align 8) (b_at x)) /\
        needed size (Z.max align 8) (b_at b) <= b_len b /\ p = data_at (Z.max align 8) (b_at b) /\
        p mod align = 0 /\ b_at b + 16 <= p /\ p + size <= b_at b + b_len b /\
        heap_ok h' (C1 ++ carved b (needed size (Z.max align 8) (b_at b)) p size (mem h') ++ C2))).
Proof.
  intros [Hw Hc] [Hs (k & Hk & ->)]. destruct (max_align k) as (k' & K1 & K2 & K3 & Em); [lia|].
  unfold heap_alloc. rewrite (hw_init _ _ Hw), (head_valid _ _ Hw). cbv zeta. rewrite Em. cbn [negb].
  destruct (alloc_walk_spec (Z.to_nat MAX_WALK_ITERS) size k' h [] bs Hw) as (p & h' & He & Hr); [lia|done| |].
  { etrans; [apply frees_length|by apply (walk_enough h)]. }
  rewrite (head_first _ _ Hw). exists p, h'. split; [done|]. destruct Hr as [Hr|Hr]; [by left|]. right.
  destruct Hr as (C1 & b & C2 & -> & G1 & G2 & G3 & -> & G5). exists C1, b, C2.
  destruct (block_bounds _ _ _ _ Hw) as (P1 & P2 & P3 & P4 & P5 & _).
  destruct (needed_spec size k' (b_at b)) as (N1 & N2 & N3 & N4 & N5); [lia|done|lia|lia|].
  split_and!; try done; try lia.
  - apply Z.mod_divide; [lia|]. apply Z.mod_divide in N2; [|lia]. etrans; [|exact N2].
    exists (2 ^ (k' - k)). rewrite <- Z.pow_add_r by lia. f_equal. lia.
  - split; [done|]. by apply coalesced_carved.
Qed.

(* ------------------------------------------------------------------ *)
(** ** Freeing *)

(** What is handed out: address, size and contents of each allocation. *)
Fixpoint allocs (bs : list Block) : list (Z * Z * (Z -> Z)) :=
  match bs with
  | [] => []
  | b :: bs => match b_use b with Free => allocs bs | Live p usz data => (p, usz, data) :: allocs bs end
  end.

Lemma allocs_app B1 B2 : allocs (B1 ++ B2) = allocs B1 ++ allocs B2.
Proof. induction B1 as [|b B1 IH]; cbn; [done|]. destruct (b_use b); [done|]. by rewrite IH. Qed.

Lemma allocs_free b bs : is_free b = true -> allocs (b :: bs) = allocs bs.
Proof. unfold is_free. cbn. by destruct (b_use b). Qed.

Lemma free_words h bs b : heap_wf h bs -> b ∈ frees bs -> ld (mem h) (b_at b) = b_len b.
Proof.
  intros Hw [Hb Hf]%elem_frees. apply list_elem_of_split in Hb as (B1 & B2 & ->).
  by apply (lseg_split _ _ _ _ Hw).
Qed.

Lemma insert_walk_allocated fuel addr prev current n h :
  insert_walk fuel addr prev current (with_allocated n h) = insert_walk fuel addr prev current h.
Proof. revert prev current. induction fuel as [|fuel IH]; intros prev current; cbn; [done|]. by rewrite IH. Qed.

(** The walk stops between the free blocks before and after the block. *)
Lemma insert_walk_spec fuel h C1 C2 b B2 :
  heap_wf h (C1 ++ C2 ++ b :: B2) -> is_free b = false -> (length C2 <= fuel)%nat ->
  insert_walk fuel (b_at b) (last_at (frees C1)) (first_at (frees (C2 ++ b :: B2))) h =
    Some (last_at (frees (C1 ++ C2)), first_at (frees B2)).
Proof.
  intros Hw Hb. revert fuel C1 Hw. induction C2 as [|x C2 IH]; intros fuel C1 Hw Hf.
  - rewrite app_nil_r. cbn [app] in *. rewrite frees_cons, Hb. destruct (frees B2) as [|x l] eqn:E; [by destruct fuel|].
    assert (x ∈ frees B2) as [Hx _]%elem_frees by (rewrite E; set_solver).
    destruct (tiles_apart _ _ _ _ _ x (hw_tiles _ _ Hw)) as [_ Ha]. specialize (Ha Hx).
    destruct (block_bounds _ _ _ _ Hw) as (_ & _ & Hl & _).
    cbn [first_at]. assert ((b_at x =? 0) || (b_at b <=? b_at x) = true) as Hs by (apply orb_true_iff; right; apply Z.leb_le; lia).
    destruct fuel; cbn [insert_walk]; by rewrite Hs.
  - cbn [length] in Hf. destruct fuel as [|fuel]; [lia|].
    assert (heap_wf h ((C1 ++ [x]) ++ C2 ++ b :: B2)) as Hw2 by (by rewrite <- app_assoc).
    cbn [app]. rewrite frees_cons, (cons_middle x C1 C2), (app_assoc C1 [x] C2). destruct (is_free x) eqn:Hx.
    + destruct (lseg_split h C1 x (C2 ++ b :: B2) Hw) as [_ Hn]. destruct (Hn Hx) as [_ Hn'].
      destruct (block_bounds h C1 x (C2 ++ b :: B2) Hw) as (Hp & _ & Hl & _).
      destruct (tiles_apart _ _ _ _ _ b (hw_tiles h (C1 ++ x :: C2 ++ b :: B2) Hw)) as [_ Ha]. specialize (Ha ltac:(set_solver)).
      cbn [insert_walk first_at]. rewrite (proj2 (Z.eqb_neq (b_at x) 0)), (proj2 (Z.leb_gt (b_at b) (b_at x))) by lia. cbn [orb].
      rewrite Hn', (first_valid h _ _ Hw2) by (intros y [? _]%elem_frees; set_solver).
      rewrite <- (IH fuel (C1 ++ [x]) Hw2) by lia. by rewrite frees_snoc, Hx, last_at_snoc.
    + rewrite <- (IH (S fuel) (C1 ++ [x]) Hw2) by lia. by rewrite frees_snoc, Hx.
Qed.

(** The block freed, linked in its place. *)
Lemma link_spec h B1 b B2 :
  heap_wf h (B1 ++ b :: B2) -> is_free b = false ->
  heap_wf (set_link (last_at (frees B1)) (b_at b)
             (store_block (b_at b) (b_len b) (first_at (frees B2)) (with_allocated (sat_sub (allocated_bytes h) (b_len b)) h)))
    (B1 ++ mkBlock (b_at b) (b_len b) Free :: B2).
Proof.
  intros Hw Hb. destruct (block_bounds _ _ _ _ Hw) as (P1 & P2 & P3 & P4 & P5 & P6 & P7 & P8 & P9).
  destruct (lseg_split _ _ _ _ Hw) as [Hpre _].
  pose proof (hw_alloc _ _ Hw) as Ha. rewrite live_bytes_app in Ha. cbn [live_bytes] in Ha. rewrite Hb in Ha.
  set (h1 := store_block _ _ _ _).
  assert (forall a, ~ (b_at b <= a < b_at b + b_len b) -> ld (mem h1) a = ld (mem h) a) as Hf1.
  { intros a Hna. unfold h1. rewrite ld_store_block. by ld_cases. }
  destruct (relink_before h h1 B1 b B2 _ (b_at b) Hw eq_refl Hf1 Hpre) as (G1 & G2 & G3 & G4 & G5 & G6).
  set (h2 := set_link _ _ h1) in *.
  apply (heap_wf_replace1 h _ _ b _ [mkBlock (b_at b) (b_len b) Free] (b_at b) Hw).
  - exact (eq_trans G3 (hw_init _ _ Hw)).
  - exact G4.
  - exact G5.
  - intros a Hna Hnl. by rewrite G2, Hf1.
  - done.
  - cbn. rewrite !G2 by (intros ?%(link_word_before _ _ _ _ _ Hw); lia). unfold h1. rewrite !ld_store_block. by ld_cases.
  - by cbn.
  - by repeat constructor.
  - rewrite G6. change (sat_sub (allocated_bytes h) (b_len b) = live_bytes B1 + (0 + 0) + live_bytes B2). unfold sat_sub. lia.
Qed.

(** Two free blocks that touch, as one. *)
Lemma join_spec h B1 f g B2 :
  heap_wf h (B1 ++ f :: g :: B2) -> is_free f = true -> is_free g = true ->
  heap_wf (store_block (b_at f) (add64 (ld (mem h) (b_at f)) (ld (mem h) (b_at g))) (ld (mem h) (b_at g + 8)) h)
    (B1 ++ mkBlock (b_at f) (b_len f + b_len g) Free :: B2) /\ b_at g = b_at f + b_len f.
Proof.
  intros Hw Hf Hg. pose proof (hw_tiles _ _ Hw) as Ht. apply tiles_app in Ht as (m & T1 & T2).
  cbn in T2. destruct T2 as (<- & T3 & T4 & T5 & T6 & T7 & T2). rewrite <- T5 in T2.
  destruct (lseg_split _ _ _ _ Hw) as [Hpre Hfw]. rewrite frees_cons, Hf in Hpre. destruct (Hfw Hf) as [Hfl _].
  assert (heap_wf h ((B1 ++ [f]) ++ g :: B2)) as Hw2 by (by rewrite <- app_assoc).
  destruct (lseg_split _ _ _ _ Hw2) as [_ Hgw]. destruct (Hgw Hg) as [Hgl Hgn].
  pose proof (tiles_le _ _ _ T2). destruct (block_bounds _ _ _ _ Hw) as (P1 & P2 & P3 & P4 & P5 & _).
  destruct (block_bounds _ _ _ _ Hw2) as (_ & _ & _ & _ & Q5 & _).
  rewrite Hfl, Hgl, Hgn, add64_small by (unfold U64_MAX; lia). split; [|done].
  apply (heap_wf_replace h _ B1 [f; g] B2 [mkBlock (b_at f) (b_len f + b_len g) Free] (b_at f) (b_at g + b_len g) (b_at f) Hw);
    try done.
  - cbn. split_and!; try done; lia.
  - exact (hw_init _ _ Hw).
  - intros a Hna _. rewrite ld_store_block. by ld_cases.
  - apply (lseg_before h (mem h) _ B1 f (g :: B2)); [done| |done]. intros a Hna. rewrite ld_store_block. by ld_cases.
  - cbn. rewrite !ld_store_block. split_and!; try done; by ld_cases.
  - cbn. split_and!; try done; [lia| |lia]. rewrite Z.add_mod, T4, T7 by lia. done.
  - by repeat constructor.
  - change (allocated_bytes h = live_bytes B1 + (0 + 0) + live_bytes B2).
    rewrite (hw_alloc _ _ Hw), live_bytes_app. cbn. rewrite Hf, Hg. lia.
Qed.

Lemma merge_next_spec h B1 f B2 :
  heap_wf h (B1 ++ f :: B2) -> is_free f = true ->
  exists f' B2', heap_wf (merge_next (b_at f) (b_len f) (first_at (frees B2)) h) (B1 ++ f' :: B2') /\
    is_free f' = true /\ b_at f' = b_at f /\ allocs B2' = allocs B2 /\ (coalesced B2 -> coalesced (f' :: B2')).
Proof.
  intros Hw Hf. destruct (block_bounds _ _ _ _ Hw) as (P1 & P2 & P3 & P4 & P5 & _).
  unfold merge_next. rewrite add64_small by (unfold U64_MAX; lia). destruct B2 as [|g B2]; [by exists f, []|].
  destruct (is_free g) eqn:Hg.
  - rewrite frees_cons, Hg. cbn [first_at]. destruct (join_spec _ _ _ _ _ Hw Hf Hg) as [Hj Hat].
    rewrite (proj2 (Z.eqb_neq (b_at g) 0)), (proj2 (Z.eqb_eq _ (b_at g))) by lia. cbn [negb andb].
    eexists _, B2. split_and!; [exact Hj|done|done|by rewrite allocs_free|by apply coalesced_swap_head].
  - exists f, (g :: B2). split_and!; try done; [|by apply coalesced_cons_live].
    rewrite frees_cons, Hg. destruct (frees B2) as [|x l] eqn:E; [done|]. cbn [first_at].
    assert (x ∈ frees B2) as [Hx _]%elem_frees by (rewrite E; set_solver).
    pose proof (hw_tiles _ _ Hw) as Ht. apply tiles_app in Ht as (m & _ & T2). cbn in T2. destruct T2 as (<- & _ & _ & T3 & T4 & _ & T2).
    pose proof (tiles_in _ _ _ _ T2 Hx). rewrite (proj2 (Z.eqb_neq _ (b_at x))) by lia. by rewrite andb_false_r.
Qed.

Lemma merge_prev_spec h B1 f B2 :
  heap_wf h (B1 ++ f :: B2) -> is_free f = true ->
  exists bs', heap_wf (merge_prev (b_at f) (last_at (frees B1)) h) bs' /\
    allocs bs' = allocs B1 ++ allocs B2 /\ (coalesced B1 -> coalesced (f :: B2) -> coalesced bs').
Proof.
  intros Hw Hf. unfold merge_prev. destruct B1 as [|g B1 _] using rev_ind.
  { exists (f :: B2). by rewrite (allocs_free f B2 Hf). }
  assert (heap_wf h (B1 ++ g :: f :: B2)) as Hw2 by (by rewrite <- app_assoc in Hw).
  rewrite frees_snoc. destruct (is_free g) eqn:Hg.
  - rewrite last_at_snoc. destruct (join_spec _ _ _ _ _ Hw2 Hg Hf) as [Hj Hat].
    destruct (block_bounds _ _ _ _ Hw2) as (P1 & P2 & P3 & P4 & P5 & _).
    assert (ld (mem h) (b_at g) = b_len g) as Hl by (apply (free_words _ _ _ Hw2), elem_frees; set_solver).
    rewrite (proj2 (Z.eqb_neq (b_at g) 0)) by lia. cbn [negb].
    rewrite Hl, (add64_small (b_at g) (b_len g)), <- Hat, Z.eqb_refl by (unfold U64_MAX; lia). rewrite Hl in Hj.
    eexists. split_and!; [exact Hj| |].
    + by rewrite !allocs_app, (allocs_free g), app_nil_r, allocs_free.
    + intros Hc1 Hc2. apply coalesced_split. split; [by apply (coalesced_swap_last _ g)|by apply (coalesced_swap_head _ f)].
  - exists ((B1 ++ [g]) ++ f :: B2). split_and!.
    + destruct (frees B1) as [|x l _] eqn:E using rev_ind; [done|]. rewrite last_at_snoc.
      assert (x ∈ frees B1) as Hx by (rewrite E; set_solver). pose proof Hx as [Hx' _]%elem_frees.
      rewrite (free_words _ _ x Hw2) by (rewrite frees_app; set_solver).
      pose proof (hw_tiles _ _ Hw2) as Ht. destruct (tiles_apart _ _ _ _ _ x Ht) as [Ha _]. specialize (Ha Hx').
      apply tiles_app in Ht as (m & T1 & T2). cbn in T2. destruct T2 as (_ & T3 & _ & T4 & T5 & _ & T6%tiles_le).
      pose proof (hw_base _ _ Hw2) as (Q1 & _ & Q2). pose proof (tiles_in _ _ _ _ T1 Hx').
      rewrite add64_small by (unfold U64_MAX; lia). destruct (b_at x =? 0); [done|]. cbn [negb].
      by rewrite (proj2 (Z.eqb_neq _ (b_at f))) by lia.
    + by rewrite allocs_app, allocs_free.
    + intros Hc1 Hc2. rewrite <- app_assoc. apply coalesced_split. split; [done|]. by apply coalesced_live_cons.
Qed.

Lemma heap_dealloc_spec h B1 a n p usz data B2 :
  heap_ok h (B1 ++ mkBlock a n (Live p usz data) :: B2) ->
  exists h' bs', heap_dealloc p h = Some h' /\ heap_ok h' bs' /\ allocs bs' = allocs B1 ++ allocs B2.
Proof.
  intros [Hw Hc]. pose proof (hw_live _ _ Hw) as Hl. apply list.Forall_app in Hl as [_ Hl]. apply Forall_cons_iff in Hl as [Hl _].
  unfold live_ok in Hl. cbn in Hl. destruct Hl as (L1 & L2 & L3 & L4 & L5 & L6 & _).
  destruct (block_bounds _ _ _ _ Hw) as (P1 & P2 & P3 & P4 & P5 & _). cbn [b_at b_len] in *.
  pose proof (block_valid _ _ _ Hw ltac:(apply elem_of_app; right; by left)) as Hv. cbn [b_at] in Hv.
  unfold heap_dealloc. rewrite L5, L6, (proj2 (Z.eqb_neq p 0)), (hw_init _ _ Hw), Hv by lia. cbn [negb orb].
  unfold insert_free_block. set (h0 := with_allocated _ h).
  change (validate_block_ptr h0 (head h0)) with (validate_block_ptr h (head h)). rewrite (head_valid _ _ Hw). cbn [negb].
  assert (forall f x y z, insert_walk f x y z h0 = insert_walk f x y z h) as Ei by (intros; apply insert_walk_allocated).
  rewrite Ei. change (head h0) with (head h). rewrite (head_first _ _ Hw).
  pose proof (insert_walk_spec (Z.to_nat MAX_WALK_ITERS) h [] B1 _ B2 Hw eq_refl) as Hi.
  cbn [b_at app] in Hi. change (last_at (frees [])) with 0 in Hi. rewrite Hi by (pose proof (walk_enough _ _ Hw) as He; rewrite length_app in He; lia).
  cbn [mbind option_bind]. pose proof (link_spec _ _ _ _ Hw eq_refl) as Hw1. cbn [b_at b_len] in Hw1. fold h0 in Hw1.
  destruct (merge_next_spec _ _ _ _ Hw1 eq_refl) as (f & B2' & Hw2 & Hf & Hat & Ha2 & Hc2). cbn [b_at b_len] in *.
  destruct (merge_prev_spec _ _ _ _ Hw2 Hf) as (bs' & Hw3 & Ha3 & Hc3). rewrite Hat in Hw3.
  eexists _, bs'. split; [reflexivity|]. apply coalesced_app in Hc as [Hc1 Hc4]. apply (coalesced_app [_]) in Hc4 as [_ Hc4].
  split; [split; auto|]. by rewrite Ha3, Ha2.
Qed.

(* ------------------------------------------------------------------ *)
(** ** Clients *)

Lemma allocs_in bs l1 p usz data l2 :
  allocs bs = l1 ++ (p, usz, data) :: l2 ->
  exists B1 a n B2, bs = B1 ++ mkBlock a n (Live p usz data) :: B2 /\ allocs B1 = l1 /\ allocs B2 = l2.
Proof.
  revert l1. induction bs as [|[a n [|q t e]] bs IH]; intros l1 He; cbn in He; [by destruct l1| |].
  - destruct (IH _ He) as (B1 & a' & n' & B2 & -> & H1 & H2). by exists (mkBlock a n Free :: B1), a', n', B2.
  - destruct l1 as [|x l1]; [injection He as -> -> -> He; by exists [], a, n, bs|]. injection He as <- He.
    destruct (IH _ He) as (B1 & a' & n' & B2 & -> & <- & H2). by exists (mkBlock a n (Live q t e) :: B1), a', n', B2.
Qed.

Lemma allocs_elem bs p usz data : (p, usz, data) ∈ allocs bs -> exists a n, mkBlock a n (Live p usz data) ∈ bs.
Proof.
  intros (l1 & l2 & He)%list_elem_of_split. destruct (allocs_in _ _ _ _ _ _ He) as (B1 & a & n & B2 & -> & _).
  exists a, n. set_solver.
Qed.

Lemma allocs_carved b n p usz m : allocs (carved b n p usz m) = [(p, usz, ld m)].
Proof. unfold carved. by destruct (32 <=? _). Qed.

(** A client writes a word of its allocation. *)
Lemma heap_write_ok h B1 a n p usz data B2 w v :
  heap_ok h (B1 ++ mkBlock a n (Live p usz data) :: B2) -> p <= w < p + usz ->
  heap_ok (store w v h) (B1 ++ mkBlock a n (Live p usz (fun x => if x =? w then v else data x)) :: B2).
Proof.
  intros [Hw Hc] Hin. pose proof (hw_live _ _ Hw) as Hl. apply list.Forall_app in Hl as [_ Hl]. apply Forall_cons_iff in Hl as [Hl _].
  unfold live_ok in Hl. cbn in Hl. destruct Hl as (L1 & L2 & L3 & L4 & L5 & L6 & L7).
  destruct (block_bounds _ _ _ _ Hw) as (_ & _ & P3 & P4 & _). cbn in P3, P4.
  pose proof (hw_alloc _ _ Hw) as Ha. rewrite live_bytes_app in Ha. cbn in Ha.
  destruct (lseg_split _ _ _ _ Hw) as [Hpre _].
  assert (forall x, ~ (a <= x < a + n) -> ld (mem (store w v h)) x = ld (mem h) x) as Hf by (intros x Hx; rewrite ld_store; by ld_cases).
  split; [|apply coalesced_split in Hc as [Hc1 Hc2]; apply coalesced_split; split; [by apply (coalesced_swap_last _ (mkBlock a n (Live p usz data)))
    |by apply (coalesced_swap_head _ (mkBlock a n (Live p usz data)))]].
  apply (heap_wf_replace1 h (store w v h) B1 _ B2 [mkBlock a n (Live p usz (fun x => if x =? w then v else data x))] (first_at (frees B2)) Hw);
    try done.
  - exact (hw_init _ _ Hw).
  - intros x Hx _. by apply Hf.
  - by apply (lseg_before h (mem h) _ B1 _ B2 _ _ Hw).
  - constructor; [|constructor]. unfold live_ok. cbn. split_and!; try done; [rewrite ld_store; by ld_cases..|].
    intros x Hx. rewrite ld_store. destruct (x =? w); [done|]. by apply L7.
  - change (allocated_bytes (store w v h)) with (allocated_bytes h). cbn. lia.
Qed.

(** The heap with its clients: [L] lists what they hold, with the contents
    they gave it. *)
Inductive heap_reach : Heap -> list (Z * Z * (Z -> Z)) -> Prop :=
| hr_init base m :
    16 <= HEAP_SIZE -> HEAP_SIZE mod 8 = 0 -> 0 < base -> base mod 8 = 0 -> base + HEAP_SIZE + 2 ^ 33 <= 2 ^ 64 ->
    heap_reach (heap_init base m) []
| hr_alloc h L size align p h' :
    heap_reach h L -> request_ok size align -> heap_alloc size align h = Some (p, h') ->
    heap_reach h' (if p =? 0 then L else (p, size, ld (mem h')) :: L)
| hr_free h L p size data L' h' :
    heap_reach h L -> L ≡ₚ (p, size, data) :: L' -> heap_dealloc p h = Some h' -> heap_reach h' L'
| hr_write h L p size data L' a v :
    heap_reach h L -> L ≡ₚ (p, size, data) :: L' -> p <= a < p + size -> a mod 8 = 0 ->
    heap_reach (store a v h) ((p, size, fun x => if x =? a then v else data x) :: L').

(** A block for an entry of the list of the clients. *)
Lemma held_block bs L p usz data L' :
  allocs bs ≡ₚ L -> L ≡ₚ (p, usz, data) :: L' ->
  exists B1 a n B2, bs = B1 ++ mkBlock a n (Live p usz data) :: B2 /\ allocs B1 ++ allocs B2 ≡ₚ L'.
Proof.
  intros Hp HL. rewrite HL in Hp. pose proof Hp as Hp'.
  assert ((p, usz, data) ∈ allocs bs) as (l1 & l2 & He)%list_elem_of_split by (rewrite Hp; set_solver).
  destruct (allocs_in _ _ _ _ _ _ He) as (B1 & a & n & B2 & -> & <- & <-). exists B1, a, n, B2. split; [done|].
  rewrite He in Hp'. by apply (Permutation_cons_inv (a := (p, usz, data))); rewrite Permutation_middle.
Qed.

Lemma heap_reach_ok h L : heap_reach h L -> exists bs, heap_ok h bs /\ allocs bs ≡ₚ L.
Proof.
  induction 1 as [base m H1 H2 H3 H4 H5|h L size align p h' _ (bs & Hok & Hp) Hq He|h L p size data L' h' _ (bs & Hok & Hp) HL He
    |h L p size data L' a v _ (bs & Hok & Hp) HL Ha _].
  - eexists. split; [by apply heap_init_ok|done].
  - destruct (heap_alloc_spec _ _ _ _ Hok Hq) as (p' & h2 & He' & Hr). rewrite He in He'. injection He' as <- <-.
    destruct Hr as [(-> & -> & _)|(C1 & b & C2 & -> & Hf & _ & _ & _ & _ & G1 & _ & G2)]; [by exists bs|].
    eexists. split; [exact G2|]. destruct Hok as [Hw _]. destruct (block_bounds _ _ _ _ Hw) as (P1 & _).
    rewrite (proj2 (Z.eqb_neq p 0)) by lia. rewrite !allocs_app, allocs_carved, <- Hp, allocs_app, allocs_free by done.
    cbn. by rewrite Permutation_middle.
  - destruct (held_block _ _ _ _ _ _ Hp HL) as (B1 & b & n & B2 & -> & Hp').
    destruct (heap_dealloc_spec _ _ _ _ _ _ _ _ Hok) as (h2 & bs' & He' & Hok' & Hal). rewrite He in He'. injection He' as <-.
    exists bs'. split; [done|]. by rewrite Hal.
  - destruct (held_block _ _ _ _ _ _ Hp HL) as (B1 & b & n & B2 & -> & Hp').
    eexists. split; [by apply (heap_write_ok _ _ _ _ _ _ _ _ a v Hok)|].
    rewrite allocs_app. cbn. by rewrite <- Hp', Permutation_middle.
Qed.

Lemma live_facts h bs a n p usz data :
  heap_ok h bs -> mkBlock a n (Live p usz data) ∈ bs -> live_ok (mem h) (mkBlock a n (Live p usz data)).
Proof. intros [Hw _] Hb. pose proof (hw_live _ _ Hw) as Hl. rewrite list.Forall_forall in Hl. by apply Hl. Qed.

(** C8: In every state the heap can reach through allocations, frees and
    writes of its clients within what they hold, each allocation lies inside
    the heap, holds what its owner last wrote there, and is apart from every
    other one and from the header of every other one; freeing it succeeds, and
    every request is answered with an address that has the alignment asked for
    or with null. So no walk runs into its bound and no check for corruption
    ever fires on behalf of well-behaved clients. *)
Theorem heap_safety h L :
  heap_reach h L ->
  (forall p size data L', L ≡ₚ (p, size, data) :: L' ->
     HEAP_START_VA h + 16 <= p /\ p + size <= HEAP_START_VA h + HEAP_SIZE /\
     (forall a, p <= a < p + size -> ld (mem h) a = data a) /\
     (forall q size' data', (q, size', data') ∈ L' -> p + size <= q - 16 \/ q + size' <= p - 16) /\
     (exists h', heap_dealloc p h = Some h')) /\
  (forall size align, request_ok size align -> exists p h', heap_alloc size align h = Some (p, h') /\ p mod align = 0).
Proof.
  intros (bs & Hok & Hp)%heap_reach_ok. split.
  - intros p size data L' HL. destruct (held_block _ _ _ _ _ _ Hp HL) as (B1 & a & n & B2 & -> & Hp').
    pose proof (live_facts _ _ a n p size data Hok ltac:(set_solver)) as (L1 & L2 & L3 & L4 & L5 & L6 & L7). cbn in L1, L4.
    pose proof (hw_tiles _ _ (proj1 Hok)) as Ht. pose proof (tiles_in _ _ _ (mkBlock a n (Live p size data)) Ht ltac:(set_solver)) as (T1 & T2 & T3).
    cbn in T1, T2. split_and!; [lia|lia|done| |].
    + intros q size' data' Hq. rewrite <- Hp' in Hq.
      assert (exists c m, (mkBlock c m (Live q size' data') ∈ B1) \/ mkBlock c m (Live q size' data') ∈ B2) as (c & m & Hc).
      { apply elem_of_app in Hq as [Hq|Hq]; apply allocs_elem in Hq as (c & m & Hc); exists c, m; tauto. }
      pose proof (live_facts _ _ c m q size' data' Hok ltac:(set_solver)) as (M1 & M2 & M3 & M4 & _). cbn in M1, M4.
      destruct (tiles_apart _ _ _ _ _ (mkBlock c m (Live q size' data')) Ht) as [A1 A2]. cbn in A1, A2.
      destruct Hc as [Hc|Hc]; [specialize (A1 Hc)|specialize (A2 Hc)]; lia.
    + destruct (heap_dealloc_spec _ _ _ _ _ _ _ _ Hok) as (h' & _ & He & _). by exists h'.
  - intros size align Hq. destruct (heap_alloc_spec _ _ _ _ Hok Hq) as (p & h' & He & Hr). exists p, h'. split; [done|].
    destruct Hr as [(-> & _)|(C1 & b & C2 & _ & _ & _ & _ & _ & Hm & _)]; [|done].
    destruct Hq as (_ & k & Hk & ->). apply Z.mod_0_l. lia.
Qed.

Lemma no_allocs_one_block a bs e : tiles a bs e -> a < e -> coalesced bs -> allocs bs = [] -> bs = [mkBlock a (e - a) Free].
Proof.
  assert (forall b l, allocs (b :: l) = [] -> b_use b = Free /\ allocs l = []) as Hnil by (intros [? ? []] l; cbn; by intros).
  destruct bs as [|[a1 n1 u1] [|b2 bs]]; cbn [tiles]; intros Ht Hlt Hc Ha; [lia| |].
  - apply Hnil in Ha as [Hu _]. cbn in *. destruct Ht as (-> & _ & _ & He). subst. f_equal. f_equal. lia.
  - apply Hnil in Ha as [Hu1 Ha]. apply Hnil in Ha as [Hu2 _]. destruct Hc as [Hc _]. exfalso. apply Hc.
    unfold is_free. by rewrite Hu1, Hu2.
Qed.

(** C30: When the clients have freed everything they were given, in whatever
    order, the heap is again the one block it started as: the free list is that
    block alone, no byte is counted as allocated, and a request that fits in
    the empty heap is granted. So freeing loses no memory and merging undoes
    every split. *)
Theorem heap_all_freed h :
  heap_reach h [] ->
  head h = HEAP_START_VA h /\ ld (mem h) (head h) = HEAP_SIZE /\ ld (mem h) (head h + 8) = 0 /\ allocated_bytes h = 0 /\
  (forall size align, request_ok size align -> needed size (Z.max align 8) (HEAP_START_VA h) <= HEAP_SIZE ->
     exists h', heap_alloc size align h = Some (data_at (Z.max align 8) (HEAP_START_VA h), h')).
Proof.
  intros (bs & Hok & Hp)%heap_reach_ok. pose proof Hok as [Hw Hc]. pose proof (hw_size _ _ Hw).
  apply Permutation_nil_r in Hp. apply (no_allocs_one_block _ _ _ (hw_tiles _ _ Hw)) in Hp; [|lia|done].
  replace (HEAP_START_VA h + HEAP_SIZE - HEAP_START_VA h) with HEAP_SIZE in Hp by lia. subst bs.
  pose proof (hw_chain _ _ Hw) as (E1 & E2 & E3). pose proof (hw_alloc _ _ Hw) as E4. cbn in E1, E2, E3, E4.
  rewrite E1. split_and!; try done. intros size align Hq Hfit.
  destruct (heap_alloc_spec _ _ _ _ Hok Hq) as (p & h' & He & Hr). exists h'. rewrite He.
  destruct Hr as [(_ & _ & Hno)|(C1 & b & C2 & Hb & _ & _ & _ & -> & _)].
  - specialize (Hno (mkBlock (HEAP_START_VA h) HEAP_SIZE Free)). cbn in Hno. specialize (Hno ltac:(set_solver)). lia.
  - destruct C1 as [|? [|??]]; [by injection Hb as <- _|by injection Hb..].
Qed.

(** [alloc] is first fit: on a heap made of the blocks [bs] in address
    order it takes the first free block the request fits in with its header
    and its padding, and returns null, leaving the heap as it is, only if
    there is none. The data lies at the first aligned address past the header;
    the block is split exactly when 32 bytes or more would be left over; no two
    free blocks touch before or after. *)
Theorem heap_alloc_first_fit h bs size align :
  heap_ok h bs -> request_ok size align ->
  match List.find (fun b => is_free b && (needed size (Z.max align 8) (b_at b) <=? b_len b)) bs with
  | Some b => exists h' B1 B2,
      let p := data_at (Z.max align 8) (b_at b) in
      let n := needed size (Z.max align 8) (b_at b) in
      heap_alloc size align h = Some (p, h') /\ bs = B1 ++ b :: B2 /\ p mod align = 0 /\
      b_at b + 16 <= p /\ p + size <= b_at b + b_len b /\
      heap_ok h' (B1 ++ (if 32 <=? b_len b - n
                         then [mkBlock (b_at b) n (Live p size (ld (mem h'))); mkBlock (b_at b + n) (b_len b - n) Free]
                         else [mkBlock (b_at b) (b_len b) (Live p size (ld (mem h')))]) ++ B2)
  | None => heap_alloc size align h = Some (0, h)
  end.
Proof.
  intros Hok Hq. destruct (heap_alloc_spec _ _ _ _ Hok Hq) as (p & h' & He & Hr). set (fit := fun b => _).
  assert (forall l, (forall x, x ∈ frees l -> b_len x < needed size (Z.max align 8) (b_at x)) -> List.find fit l = None) as Hnone.
  { intros l Hl. destruct (List.find fit l) as [x|] eqn:E; [|done]. apply find_some in E as [Hx Hf]. exfalso.
    apply list_elem_of_In in Hx. unfold fit in Hf. apply andb_true_iff in Hf as [Hf Hle%Z.leb_le].
    assert (x ∈ frees l) as Hx' by (by apply elem_frees). specialize (Hl x Hx'). lia. }
  destruct Hr as [(-> & -> & Hno)|(C1 & b & C2 & -> & Hf & Hno & Hfit & -> & G1 & G2 & G3 & G4)].
  - by rewrite (Hnone bs Hno).
  - assert (List.find fit (C1 ++ b :: C2) = Some b) as ->.
    { apply Hnone in Hno. clear -Hno Hf Hfit fit. induction C1 as [|x C1 IH]; cbn in *.
      - assert (fit b = true) as -> by (unfold fit; rewrite Hf; by apply Z.leb_le). done.
      - destruct (fit x); [done|]. by apply IH. }
    by exists h', C1, C2.
Qed.
End proofs.

(* ------------------------------------------------------------------ *)
(** ** The region of the kernel's heap *)

Lemma layout_spec end_va :
  PHYS_OFF <= end_va <= 2 ^ 64 - 2 ^ 22 ->
  let '(va, start, end_) := compute_heap_layout end_va in
  va = start + PHYS_OFF /\ end_ = start + HEAP_SIZE /\ end_va - PHYS_OFF + 0x1000 <= start /\ 0x800000 <= start < 2 ^ 48 /\
  start mod HUGE_PAGE_SIZE = 0.
Proof.
  intros He. unfold compute_heap_layout. unfold PHYS_OFF in *.
  assert (sat_sub end_va 0xFFFF800000000000 = end_va - 0xFFFF800000000000) as -> by (unfold sat_sub; lia).
  set (e := end_va - 0xFFFF800000000000) in *. assert (0 <= e < 2 ^ 47) as He' by lia.
  destruct (align_up_spec (e + 0x1000) 21) as [A1 A2]; [lia|lia|lia|]. unfold align_up in A1, A2. unfold HUGE_PAGE_SIZE.
  change (2 * 1024 * 1024) with (2 ^ 21). set (c := _ .& _) in *.
  change (sat_sub HEAP_START_MIN_VA 0xFFFF800000000000) with 0x800000.
  assert (HEAP_SIZE = 0x10000000) as Eh by done.
  rewrite !add64_small by (unfold U64_MAX; lia). split_and!; try lia.
  destruct (Z.max_spec c 0x800000) as [[_ ->]|[_ ->]]; [done|exact A2].
Qed.

Lemma init_heap_reach end_va m h :
  PHYS_OFF <= end_va <= 2 ^ 64 - 2 ^ 22 -> init_heap end_va m = Some h -> heap_reach h [].
Proof.
  intros He. pose proof (layout_spec end_va He) as Hl. unfold init_heap.
  destruct (compute_heap_layout end_va) as [[va start] end_]. destruct Hl as (-> & -> & _ & H1 & H2).
  destruct (Z.leb_spec (start + HEAP_SIZE) 0x40000000) as [Hle|]; [|done]. intros [= <-].
  assert (HEAP_SIZE = 0x10000000) as Eh by done. unfold PHYS_OFF, HUGE_PAGE_SIZE in *.
  apply hr_init; try done; try lia. apply Z.mod_divide in H2 as [k ->]; [|done].
  apply Z.mod_divide; [done|]. exists (k * 262144 + 0x1FFFF00000000000). lia.
Qed.

(** Where the heap is put at boot is nobody else's memory. Wherever
    in the kernel's half of the address space (but for its last 4 MiB) the
    linker puts the end of the kernel, the heap and the guard page
    below it lie past the kernel's image, and after the reservations of
    [vmm::init] no frame the physical allocator holds free overlaps the heap
    or either guard page, while all other frames keep their state and the
    counters stay exact. Unless the image is so large that the heap would pass
    1 GiB, where it stops, [heap::init] then starts the allocator there. *)
Theorem heap_region_private `{PmmConfig} managed s end_va m :
  accounted managed s -> PHYS_OFF <= end_va <= 2 ^ 64 - 2 ^ 22 ->
  let '(va, start, end_) := compute_heap_layout end_va in
  let s' := reserve_heap end_va s in
  end_va <= va - 0x1000 /\
  (forall q, (q < MAX_PAGES)%nat ->
     page_free (BITMAP s') q =
     page_free (BITMAP s) q &&
       bool_decide (Z.of_nat q * PAGE_SIZE + PAGE_SIZE <= start - 0x1000 \/ end_ + 0x1000 <= Z.of_nat q * PAGE_SIZE)) /\
  accounted managed s' /\
  match init_heap end_va m with
  | Some h => end_ <= 0x40000000 /\ heap_reach h [] /\ HEAP_START_VA h = va
  | None => 0x40000000 < end_
  end.
Proof.
  intros Ha He. pose proof (layout_spec end_va He) as Hl. pose proof (init_heap_reach end_va m) as Hr.
  unfold reserve_heap, compute_guard_phys, init_heap in *.
  destruct (compute_heap_layout end_va) as [[va start] end_]. destruct Hl as (-> & -> & H0 & H1 & H2).
  assert (HEAP_SIZE = 65536 * 4096) as Eh by done. apply Z.mod_divide in H2 as [k Hk]; [|done]. unfold HUGE_PAGE_SIZE in Hk.
  assert (sat_sub start 0x1000 = start - 0x1000) as -> by (unfold sat_sub; lia).
  rewrite !add64_small by (unfold U64_MAX; lia).
  destruct (reserve_range_correct managed s start (start + HEAP_SIZE) Ha) as (F1 & A1 & _); [lia|lia|].
  destruct (reserve_range_correct managed _ (start - 0x1000) (start - 0x1000 + 0x1000) A1) as (F2 & A2 & _); [lia|lia|].
  destruct (reserve_range_correct managed _ (start + HEAP_SIZE) (start + HEAP_SIZE + 0x1000) A2) as (F3 & A3 & _); [lia|lia|].
  unfold PAGE_SIZE, PHYS_OFF in *. split_and!; [lia| |done|].
  - intros q Hq. rewrite F3, F2, F1 by done. rewrite <- !andb_assoc. f_equal. apply Bool.eq_iff_eq_true.
    rewrite !andb_true_iff, !negb_true_iff, !bool_decide_eq_false, bool_decide_eq_true.
    replace (start / 4096) with (512 * k) by (rewrite Hk; apply Z.div_unique_exact; lia).
    replace ((start - 0x1000) / 4096) with (512 * k - 1) by (rewrite Hk; apply Z.div_unique_exact; lia).
    replace ((start + HEAP_SIZE) / 4096) with (512 * k + 65536) by (rewrite Hk, Eh; apply Z.div_unique_exact; lia).
    lia.
  - destruct (Z.leb_spec (start + HEAP_SIZE) 0x40000000) as [Hle|Hgt]; [|done]. split_and!; [done|by apply Hr|done].
Qed.

(* ------------------------------------------------------------------ *)
(** ** Witnesses: a 1 KiB heap

    A client takes 100 bytes at a 64-byte boundary and 40 bytes more, writes
    a word of the latter and frees both, the first one first. *)

Definition small_heap : HeapConfig := {| HEAP_SIZE := 1024 |}.

Definition run0 : Heap := @heap_init small_heap 4096 ∅.
Definition run1 : Heap := snd (default (0, run0) (@heap_alloc small_heap 100 64 run0)).
Definition run2 : Heap := snd (default (0, run1) (@heap_alloc small_heap 40 8 run1)).
Definition run3 : Heap := store 4288 7 run2.
Definition run4 : Heap := default run3 (@heap_dealloc small_heap 4160 run3).
Definition run5 : Heap := default run4 (@heap_dealloc small_heap 4280 run4).

Lemma run_alloc1 : @heap_alloc small_heap 100 64 run0 = Some (4160, run1).
Proof. vm_compute. reflexivity. Qed.

Lemma run_alloc2 : @heap_alloc small_heap 40 8 run1 = Some (4280, run2).
Proof. vm_compute. reflexivity. Qed.

Lemma run_request1 : request_ok 100 64.
Proof. split; [lia|]. by exists 6. Qed.

Lemma run_request2 : request_ok 40 8.
Proof. split; [lia|]. by exists 3. Qed.

Lemma run_request3 : request_ok 900 8.
Proof. split; [lia|]. by exists 3. Qed.

Definition run_data (x : Z) : Z := if x =? 4288 then 7 else ld (mem run2) x.

Lemma run0_reach : @heap_reach small_heap run0 [].
Proof. by apply (@hr_init small_heap). Qed.

Lemma run3_reach : @heap_reach small_heap run3 [(4280, 40, run_data); (4160, 100, ld (mem run1))].
Proof.
  pose proof (@hr_alloc small_heap _ _ _ _ _ _ run0_reach run_request1 run_alloc1) as H1.
  pose proof (@hr_alloc small_heap _ _ _ _ _ _ H1 run_request2 run_alloc2) as H2.
  apply (@hr_write small_heap _ _ _ _ _ _ 4288 7 H2); [done|lia|done].
Qed.

Lemma run5_reach : @heap_reach small_heap run5 [].
Proof.
  apply (@hr_free small_heap run4 [(4280, 40, run_data)] 4280 40 run_data []); [|done|vm_compute; reflexivity].
  apply (@hr_free small_heap run3 _ 4160 100 (ld (mem run1)) _ _ run3_reach); [apply Permutation_swap|vm_compute; reflexivity].
Qed.

Lemma heap_safety_witness :
  ld (mem run3) 4288 = 7 /\ (4160 + 100 <= 4280 - 16 \/ 4280 + 40 <= 4160 - 16) /\
  (exists h', @heap_dealloc small_heap 4160 run3 = Some h').
Proof.
  destruct (@heap_safety small_heap run3 _ run3_reach) as [Hs _].
  destruct (Hs 4160 100 (ld (mem run1)) [(4280, 40, run_data)]) as (_ & _ & _ & Hd & Hf); [apply Permutation_swap|].
  destruct (Hs 4280 40 run_data [(4160, 100, ld (mem run1))]) as (_ & _ & Hr & _); [done|].
  split; [rewrite (Hr 4288 ltac:(lia)); reflexivity|]. split; [|exact Hf]. apply (Hd 4280 40 run_data). by left.
Defined.

Lemma heap_all_freed_witness :
  head run5 = HEAP_START_VA run5 /\ allocated_bytes run5 = 0 /\
  exists h', @heap_alloc small_heap 900 8 run5 = Some (data_at 8 (HEAP_START_VA run5), h').
Proof.
  destruct (@heap_all_freed small_heap run5 run5_reach) as (Hh & _ & _ & Ha & Hr).
  split; [exact Hh|]. split; [exact Ha|]. apply (Hr 900 8 run_request3).
  vm_compute. discriminate.
Defined.

Lemma heap_alloc_first_fit_witness :
  exists h' bs, @heap_alloc small_heap 100 64 run0 = Some (4160, h') /\ @heap_ok small_heap h' bs.
Proof.
  destruct (@heap_alloc_first_fit small_heap run0 [mkBlock 4096 1024 Free] 100 64
    ltac:(by apply (@heap_init_ok small_heap)) run_request1) as (h' & B1 & B2 & He & _ & _ & _ & _ & Hok).
  eexists h', _. split; [exact He|exact Hok].
Defined.

Lemma heap_region_private_witness :
  exists s', @reserve_heap kernel_heap small_pmm 0xFFFF800000400000 demo_pmm = s' /\
    @accounted small_pmm (firmware_available demo_boot_info) s' /\
    @compute_heap_layout kernel_heap 0xFFFF800000400000 = (0xFFFF800000800000, 0x800000, 0x10800000).
Proof.
  destruct (@heap_region_private small_pmm _ demo_pmm 0xFFFF800000400000 ∅ demo_accounted ltac:(unfold PHYS_OFF; lia)) as (_ & _ & Ha & _).
  eexists. split; [reflexivity|]. split; [exact Ha|]. vm_compute. reflexivity.
Defined.
