(* ===== verification/Rss.v ===== *)
(** * Resident-set counters (kernel/src/mm/rss.rs)

    A table with open addressing from address spaces, named by the physical
    address of their top-level page table, to the number of pages they have
    present. Slots of released entries keep a tombstone so that the probes of
    other entries go on past them. The theorem shows that the table is a
    partial map. *)

From S2P Require Import Prelude.

Definition RSS_SLOTS : nat := 256.
Definition KEY_EMPTY : Z := 0.
Definition KEY_TOMBSTONE : Z := U64_MAX.
Definition KEY_CLAIMING : Z := U64_MAX - 1.

Record Rss := mkRss {
  RSS_KEYS : list Z;
  RSS_PAGES : list Z;
  RSS_ATTACH_FAILURES : Z;
  RSS_UNDERFLOWS : Z
}.

Definition rss_static : Rss := mkRss (replicate RSS_SLOTS KEY_EMPTY) (replicate RSS_SLOTS 0) 0 0.

(** [i64] arithmetic wraps. *)
Definition wrap_i64 (x : Z) : Z := (x + 2 ^ 63) mod 2 ^ 64 - 2 ^ 63.

Definition slot_for (cr3 : Z) : nat := Z.to_nat (wrap 64 ((cr3 .>> 12) * 2654435761) mod Z.of_nat RSS_SLOTS).

(** The slots in the order in which they are looked at. *)
Definition probe (cr3 : Z) : list nat := map (fun i => ((slot_for cr3 + i) mod RSS_SLOTS)%nat) (seq 0 RSS_SLOTS).

Fixpoint find_loop (cr3 : Z) (keys : list Z) (slots : list nat) : option nat :=
  match slots with
  | [] => None
  | idx :: slots =>
      let k := keys !!! idx in
      if k =? KEY_EMPTY then None else if k =? cr3 then Some idx else find_loop cr3 keys slots
  end.

Definition find (cr3 : Z) (t : Rss) : option nat := find_loop cr3 (RSS_KEYS t) (probe cr3).

(** The claim of a slot without interference: the exchange succeeds. *)
Fixpoint claim_loop (keys : list Z) (slots : list nat) : option nat :=
  match slots with
  | [] => None
  | idx :: slots =>
      let cur := keys !!! idx in
      if negb (cur =? KEY_EMPTY) && negb (cur =? KEY_TOMBSTONE) then claim_loop keys slots else Some idx
  end.

Definition attach (cr3 : Z) (t : Rss) : bool * Rss :=
  if cr3 =? 0 then (false, t)
  else
    match find cr3 t with
    | Some _ => (true, t)
    | None =>
        match claim_loop (RSS_KEYS t) (probe cr3) with
        | Some idx =>
            (true, mkRss (<[idx := cr3]> (RSS_KEYS t)) (<[idx := 0]> (RSS_PAGES t)) (RSS_ATTACH_FAILURES t) (RSS_UNDERFLOWS t))
        | None => (false, mkRss (RSS_KEYS t) (RSS_PAGES t) (add64 (RSS_ATTACH_FAILURES t) 1) (RSS_UNDERFLOWS t))
        end
    end.

Definition detach (cr3 : Z) (t : Rss) : Rss :=
  if cr3 =? 0 then t
  else
    match find cr3 t with
    | Some idx =>
        mkRss (<[idx := KEY_TOMBSTONE]> (RSS_KEYS t)) (<[idx := 0]> (RSS_PAGES t)) (RSS_ATTACH_FAILURES t) (RSS_UNDERFLOWS t)
    | None => t
    end.

Definition account (cr3 delta : Z) (t : Rss) : Rss :=
  if (cr3 =? 0) || (delta =? 0) then t
  else
    match find cr3 t with
    | Some idx =>
        let prev := RSS_PAGES t !!! idx in
        mkRss (RSS_KEYS t) (<[idx := wrap_i64 (prev + delta)]> (RSS_PAGES t)) (RSS_ATTACH_FAILURES t)
          (if wrap_i64 (prev + delta) <? 0 then add64 (RSS_UNDERFLOWS t) 1 else RSS_UNDERFLOWS t)
    | None => t
    end.

Definition resident_pages (cr3 : Z) (t : Rss) : option Z :=
  idx ← find cr3 t; let v := RSS_PAGES t !!! idx in Some (if 0 <? v then v else 0).

(* ------------------------------------------------------------------ *)
(** ** The table as a map *)

(** A physical page address can be a key. *)
Definition real_key (k : Z) : Prop := 0 < k < KEY_CLAIMING.

(** The signed count of an address space that is tracked. *)
Definition counter (t : Rss) (cr3 : Z) : option Z := idx ← find cr3 t; Some (RSS_PAGES t !!! idx).

(** Keys are unique and no probe for one meets a slot that was never used. *)
Record rss_ok (t : Rss) : Prop := {
  ro_keys : length (RSS_KEYS t) = RSS_SLOTS;
  ro_pages : length (RSS_PAGES t) = RSS_SLOTS;
  ro_unique : forall i j k, real_key k -> RSS_KEYS t !! i = Some k -> RSS_KEYS t !! j = Some k -> i = j;
  ro_chain : forall k idx pre post, real_key k -> RSS_KEYS t !! idx = Some k -> probe k = pre ++ idx :: post ->
    Forall (fun j => RSS_KEYS t !!! j <> KEY_EMPTY) pre }.

Lemma probe_in cr3 idx : (idx < RSS_SLOTS)%nat <-> idx ∈ probe cr3.
Proof.
  unfold probe. rewrite list_elem_of_In, in_map_iff. split.
  - intros Hi. exists ((idx + RSS_SLOTS - slot_for cr3 mod RSS_SLOTS) mod RSS_SLOTS)%nat.
    pose proof (Nat.mod_upper_bound (slot_for cr3) RSS_SLOTS ltac:(done)) as Hs.
    split; [|apply in_seq; split; [lia|apply Nat.mod_upper_bound; done]].
    rewrite Nat.Div0.add_mod_idemp_r, <- Nat.Div0.add_mod_idemp_l.
    replace (slot_for cr3 mod RSS_SLOTS + (idx + RSS_SLOTS - slot_for cr3 mod RSS_SLOTS))%nat with (idx + 1 * RSS_SLOTS)%nat by lia.
    rewrite Nat.Div0.mod_add. by apply Nat.mod_small.
  - intros (i & <- & _). by apply Nat.mod_upper_bound.
Qed.

Lemma probe_NoDup cr3 : NoDup (probe cr3).
Proof.
  apply (NoDup_fmap_2_strong (fun i => ((slot_for cr3 + i) mod RSS_SLOTS)%nat)); [|apply NoDup_seq].
  assert (slot_for cr3 < RSS_SLOTS)%nat as Hs.
  { unfold slot_for. pose proof (Z.mod_pos_bound (wrap 64 ((cr3 .>> 12) * 2654435761)) (Z.of_nat RSS_SLOTS) ltac:(done)). lia. }
  assert (forall i, (i < RSS_SLOTS)%nat -> ((slot_for cr3 + i) mod RSS_SLOTS =
    if (slot_for cr3 + i <? RSS_SLOTS) then slot_for cr3 + i else slot_for cr3 + i - RSS_SLOTS)%nat) as Hm.
  { intros i Hi. destruct (Nat.ltb_spec (slot_for cr3 + i) RSS_SLOTS); [by apply Nat.mod_small|].
    symmetry. apply Nat.mod_unique with 1%nat; lia. }
  intros i j [_ Hi]%elem_of_seq [_ Hj]%elem_of_seq. rewrite !Hm by lia.
  destruct (Nat.ltb_spec (slot_for cr3 + i) RSS_SLOTS), (Nat.ltb_spec (slot_for cr3 + j) RSS_SLOTS); lia.
Qed.

Lemma find_loop_some cr3 keys slots idx :
  find_loop cr3 keys slots = Some idx -> idx ∈ slots /\ keys !!! idx = cr3 /\ cr3 <> KEY_EMPTY.
Proof.
  induction slots as [|i slots IH]; cbn; [done|]. destruct (Z.eqb_spec (keys !!! i) KEY_EMPTY) as [|Hne]; [done|].
  destruct (Z.eqb_spec (keys !!! i) cr3) as [<-|_]; [|intros [H1 H2]%IH; split; [by right|done]].
  intros [= ->]. split; [by left|done].
Qed.

Lemma find_loop_hit cr3 keys pre idx post :
  Forall (fun j => keys !!! j <> KEY_EMPTY) pre -> ~ (exists j, j ∈ pre /\ keys !!! j = cr3) ->
  keys !!! idx = cr3 -> cr3 <> KEY_EMPTY -> find_loop cr3 keys (pre ++ idx :: post) = Some idx.
Proof.
  intros Hp Hn Hk Hz. induction pre as [|j pre IH]; cbn.
  - rewrite Hk, (proj2 (Z.eqb_neq _ _)), Z.eqb_refl by done. done.
  - apply Forall_cons_iff in Hp as [Hj Hp]. rewrite (proj2 (Z.eqb_neq _ _)) by done.
    rewrite (proj2 (Z.eqb_neq _ _)); [|intros E; apply Hn; exists j; split; [by left|done]].
    apply IH; [done|]. intros (x & Hx & E). apply Hn. exists x. split; [by right|done].
Qed.

Lemma NoDup_split_unique {A} (p p' q q' : list A) x : NoDup (p ++ x :: q) -> p ++ x :: q = p' ++ x :: q' -> p = p'.
Proof.
  revert p'. induction p as [|y p IH]; intros [|y' p'] Hd; cbn in *; [done| | |].
  - intros [= -> ->]. apply list.NoDup_cons in Hd as [Hx _]. exfalso. apply Hx. set_solver.
  - intros [= -> _]. apply list.NoDup_cons in Hd as [Hx _]. exfalso. apply Hx. set_solver.
  - intros [= -> He]. f_equal. apply IH; [by apply list.NoDup_cons in Hd as [_ Hd]|done].
Qed.

Section table.
Implicit Types (t : Rss) (k : Z).

Lemma key_lookup t idx k : rss_ok t -> (idx < RSS_SLOTS)%nat -> RSS_KEYS t !!! idx = k <-> RSS_KEYS t !! idx = Some k.
Proof.
  intros Hok Hi. destruct (lookup_lt_is_Some_2 (RSS_KEYS t) idx) as [x Hx]; [by rewrite ro_keys|].
  rewrite (list_lookup_total_correct _ _ _ Hx), Hx. naive_solver.
Qed.

(** A search finds a key wherever it is. *)
Lemma find_iff t k idx : rss_ok t -> real_key k -> find k t = Some idx <-> RSS_KEYS t !! idx = Some k.
Proof.
  intros Hok Hk. unfold find. split.
  - intros (Hi & Hv & _)%find_loop_some. apply probe_in in Hi. by apply key_lookup.
  - intros Hl. assert (idx < RSS_SLOTS)%nat as Hi by (rewrite <- (ro_keys _ Hok); by apply lookup_lt_Some in Hl).
    pose proof Hi as Hp. apply (probe_in k) in Hp. apply list_elem_of_split in Hp as (pre & post & Hp). rewrite Hp.
    assert (forall j, j ∈ pre -> (j < RSS_SLOTS)%nat) as Hpre by (intros j Hj; apply (probe_in k); rewrite Hp; set_solver).
    apply find_loop_hit; [by apply (ro_chain _ Hok k idx pre post)| |by apply key_lookup|unfold real_key, KEY_EMPTY in *; lia].
    intros (j & Hj & E). apply key_lookup in E; [|done|by apply Hpre]. rewrite (ro_unique _ Hok _ _ _ Hk E Hl) in Hj.
    pose proof (probe_NoDup k) as Hd. rewrite Hp in Hd. apply list.NoDup_app in Hd as (_ & Hd & _). apply (Hd idx Hj). by left.
Qed.

Lemma find_none t k : rss_ok t -> real_key k -> find k t = None <-> ~ k ∈ RSS_KEYS t.
Proof.
  intros Hok Hk. split.
  - intros Hn (i & Hi)%list_elem_of_lookup. apply find_iff in Hi; [congruence|done|done].
  - intros Hn. destruct (find k t) as [i|] eqn:E; [|done]. apply find_iff in E; [|done|done].
    exfalso. apply Hn. by eapply list_elem_of_lookup_2.
Qed.

Lemma claim_loop_spec keys slots :
  match claim_loop keys slots with
  | Some idx => exists pre post, slots = pre ++ idx :: post /\ Forall (fun j => keys !!! j <> KEY_EMPTY) pre /\
      (keys !!! idx = KEY_EMPTY \/ keys !!! idx = KEY_TOMBSTONE)
  | None => Forall (fun j => keys !!! j <> KEY_EMPTY /\ keys !!! j <> KEY_TOMBSTONE) slots
  end.
Proof.
  induction slots as [|i slots IH]; cbn; [constructor|].
  destruct (Z.eqb_spec (keys !!! i) KEY_EMPTY) as [E|E]; cbn; [exists [], slots; split_and!; [done|constructor|by left]|].
  destruct (Z.eqb_spec (keys !!! i) KEY_TOMBSTONE) as [F|F]; cbn; [exists [], slots; split_and!; [done|constructor|by right]|].
  destruct (claim_loop keys slots) as [idx|].
  - destruct IH as (pre & post & -> & Hp & Hi). exists (i :: pre), post. split_and!; [done|by constructor|done].
  - by constructor.
Qed.

(** Overwriting a slot by a key that is not in the table, or by a tombstone. *)
Lemma rss_ok_insert t idx v n f u :
  rss_ok t -> (idx < RSS_SLOTS)%nat -> v <> KEY_EMPTY ->
  (real_key v -> ~ v ∈ RSS_KEYS t) ->
  (real_key v -> forall pre post, probe v = pre ++ idx :: post -> Forall (fun j => RSS_KEYS t !!! j <> KEY_EMPTY) pre) ->
  rss_ok (mkRss (<[idx := v]> (RSS_KEYS t)) (<[idx := n]> (RSS_PAGES t)) f u).
Proof.
  intros Hok Hi Hv Hnew Hchain. pose proof (ro_keys _ Hok) as Hlen.
  assert (forall j k, <[idx := v]> (RSS_KEYS t) !! j = Some k -> (j = idx /\ k = v) \/ (j <> idx /\ RSS_KEYS t !! j = Some k)) as Hl.
  { intros j k. destruct (decide (j = idx)) as [->|Hn]; [|rewrite list_lookup_insert_ne by done; auto].
    rewrite list_lookup_insert_eq by lia. intros [= <-]. auto. }
  assert (forall l, Forall (fun j => RSS_KEYS t !!! j <> KEY_EMPTY) l ->
    Forall (fun j => <[idx := v]> (RSS_KEYS t) !!! j <> KEY_EMPTY) l) as Hmono.
  { intros l Hl'. apply (list.Forall_impl _ _ _ Hl'). intros j Hj.
    destruct (decide (idx = j)) as [->|Hn]; [rewrite list_lookup_total_insert_eq by lia; done|by rewrite list_lookup_total_insert_ne]. }
  split; cbn.
  - by rewrite length_insert.
  - rewrite length_insert. apply Hok.
  - intros i j k Hk [[-> ->]|[Hi' H1]]%Hl [[-> E]|[Hj' H2]]%Hl.
    + done.
    + exfalso. apply (Hnew Hk). by eapply list_elem_of_lookup_2.
    + subst k. exfalso. apply (Hnew Hk). by eapply list_elem_of_lookup_2.
    + by apply (ro_unique _ Hok i j k).
  - intros k j pre post Hk [[-> ->]|[Hj H1]]%Hl Hp; apply Hmono; [by apply (Hchain Hk pre post)|by apply (ro_chain _ Hok k j pre post)].
Qed.

#[local] Arguments counter : simpl never.

Lemma counter_some t k n :
  rss_ok t -> real_key k -> counter t k = Some n <-> exists idx, RSS_KEYS t !! idx = Some k /\ RSS_PAGES t !!! idx = n.
Proof.
  intros Hok Hk. unfold counter. split.
  - destruct (find k t) as [i|] eqn:E; cbn; [|done]. intros [= <-]. exists i. split; [by apply find_iff|done].
  - intros (i & Hi & <-). apply find_iff in Hi; [|done|done]. by rewrite Hi.
Qed.

Lemma counter_same t t' k :
  rss_ok t -> rss_ok t' -> real_key k ->
  (forall idx, RSS_KEYS t' !! idx = Some k <-> RSS_KEYS t !! idx = Some k) ->
  (forall idx, RSS_KEYS t !! idx = Some k -> RSS_PAGES t' !!! idx = RSS_PAGES t !!! idx) ->
  counter t' k = counter t k.
Proof.
  intros Hok Hok' Hk H1 H2. apply option_eq. intros n. rewrite !counter_some by done.
  split; intros (i & Hi & Hn); exists i; (split; [by apply H1|]).
  - rewrite <- Hn. symmetry. apply H2. by apply H1.
  - by rewrite H2.
Qed.

(** Writing one slot whose key changes from [old] to [v]. *)
Lemma counter_insert t idx old v n f u k :
  rss_ok t -> rss_ok (mkRss (<[idx := v]> (RSS_KEYS t)) (<[idx := n]> (RSS_PAGES t)) f u) -> real_key k ->
  RSS_KEYS t !! idx = Some old -> k <> old ->
  counter (mkRss (<[idx := v]> (RSS_KEYS t)) (<[idx := n]> (RSS_PAGES t)) f u) k = if bool_decide (k = v) then Some n else counter t k.
Proof.
  intros Hok Hok' Hk Ho Hne. assert (idx < length (RSS_KEYS t))%nat as Hi by (by apply lookup_lt_Some in Ho).
  assert (length (RSS_PAGES t) = length (RSS_KEYS t)) as Hlen by (by rewrite (ro_pages _ Hok), (ro_keys _ Hok)).
  destruct (bool_decide_reflect (k = v)) as [->|Hnv].
  - apply counter_some; [done|done|]. exists idx. cbn. split; [by apply list_lookup_insert_eq|]. apply list_lookup_total_insert_eq. lia.
  - apply counter_same; [done..| |]; cbn; intros j.
    + destruct (decide (j = idx)) as [->|Hj]; [|by rewrite list_lookup_insert_ne].
      rewrite list_lookup_insert_eq by done. rewrite Ho. naive_solver.
    + intros Hj. rewrite list_lookup_total_insert_ne; [done|]. intros ->. congruence.
Qed.

Definition has_free_slot t : Prop := KEY_EMPTY ∈ RSS_KEYS t \/ KEY_TOMBSTONE ∈ RSS_KEYS t.

Lemma attach_spec t cr3 :
  rss_ok t -> real_key cr3 ->
  rss_ok (snd (attach cr3 t)) /\
  (fst (attach cr3 t) = true <-> counter t cr3 <> None \/ has_free_slot t) /\
  (forall k, real_key k -> counter (snd (attach cr3 t)) k =
     if fst (attach cr3 t) && bool_decide (k = cr3) then Some (default 0 (counter t cr3)) else counter t k).
Proof.
  intros Hok Hr. unfold attach. rewrite (proj2 (Z.eqb_neq cr3 0)) by (unfold real_key in Hr; lia).
  destruct (find cr3 t) as [i|] eqn:Ef; cbn [fst snd andb].
  { assert (counter t cr3 = Some (RSS_PAGES t !!! i)) as Ec by (unfold counter; by rewrite Ef).
    split; [done|]. split; [split; [intros _; left; by rewrite Ec|done]|].
    intros k Hk. destruct (bool_decide_reflect (k = cr3)) as [->|]; [by rewrite Ec|done]. }
  assert (counter t cr3 = None) as Ec by (unfold counter; by rewrite Ef). rewrite Ec.
  pose proof (claim_loop_spec (RSS_KEYS t) (probe cr3)) as Hc. destruct (claim_loop _ _) as [idx|]; cbn [fst snd andb].
  - destruct Hc as (pre & post & Hp & Hpre & Hkey). assert (idx < RSS_SLOTS)%nat as Hi by (apply (probe_in cr3); rewrite Hp; set_solver).
    assert (exists old, RSS_KEYS t !! idx = Some old /\ ~ real_key old) as (old & Ho & Hold).
    { destruct Hkey as [E|E]; apply key_lookup in E; try done; eexists; (split; [exact E|]);
        unfold real_key, KEY_EMPTY, KEY_TOMBSTONE, KEY_CLAIMING; lia. }
    assert (rss_ok (mkRss (<[idx := cr3]> (RSS_KEYS t)) (<[idx := 0]> (RSS_PAGES t)) (RSS_ATTACH_FAILURES t) (RSS_UNDERFLOWS t))) as Hok'.
    { apply rss_ok_insert; [done|done|unfold real_key, KEY_EMPTY in *; lia|intros _; by apply find_none|].
      intros _ pre' post' Hp'. rewrite Hp in Hp'. pose proof (probe_NoDup cr3) as Hd.
      rewrite Hp in Hd. by rewrite <- (NoDup_split_unique pre pre' post post' idx). }
    split; [done|]. split.
    + split; [|done]. intros _. right. destruct Hkey as [E|E]; [left|right]; rewrite <- E; apply list_elem_of_lookup_2 with idx;
        apply key_lookup; done.
    + intros k Hk. rewrite (counter_insert t idx old cr3 0) by (try done; intros ->; done). by destruct (bool_decide (k = cr3)).
  - split; [by destruct Hok; split|]. split; [|done]. split; [done|]. intros [?|Hfree]; [done|]. exfalso.
    destruct Hfree as [(j & Hj)%list_elem_of_lookup|(j & Hj)%list_elem_of_lookup];
      (assert (j < RSS_SLOTS)%nat as Hlt by (rewrite <- (ro_keys _ Hok); by apply lookup_lt_Some in Hj));
      apply (probe_in cr3) in Hlt as Hin; rewrite list.Forall_forall in Hc; destruct (Hc j Hin) as [C1 C2];
      apply key_lookup in Hj; done.
Qed.

Lemma detach_spec t cr3 :
  rss_ok t -> real_key cr3 ->
  rss_ok (detach cr3 t) /\
  (forall k, real_key k -> counter (detach cr3 t) k = if bool_decide (k = cr3) then None else counter t k).
Proof.
  intros Hok Hr. unfold detach. rewrite (proj2 (Z.eqb_neq cr3 0)) by (unfold real_key in Hr; lia).
  destruct (find cr3 t) as [i|] eqn:Ef.
  - apply find_iff in Ef; [|done|done]. pose proof (lookup_lt_Some _ _ _ Ef) as Hi.
    assert (forall x, real_key x -> x <> KEY_TOMBSTONE) as Ht by (unfold real_key, KEY_TOMBSTONE, KEY_CLAIMING; lia).
    assert (~ real_key KEY_TOMBSTONE) as Htr by (intros Hx; by apply (Ht _ Hx)).
    assert (rss_ok (mkRss (<[i := KEY_TOMBSTONE]> (RSS_KEYS t)) (<[i := 0]> (RSS_PAGES t)) (RSS_ATTACH_FAILURES t) (RSS_UNDERFLOWS t))) as Hok'
      by (apply rss_ok_insert; try done; by rewrite <- (ro_keys _ Hok)).
    split; [done|]. intros k Hk. destruct (bool_decide_reflect (k = cr3)) as [->|Hne].
    + destruct (counter _ cr3) as [n|] eqn:E; [|done]. apply counter_some in E as (j & Hj & _); [|done|done]. cbn in Hj.
      destruct (decide (j = i)) as [->|Hji]; [rewrite list_lookup_insert_eq in Hj by done; injection Hj as Hj; by apply Ht in Hk|].
      rewrite list_lookup_insert_ne in Hj by done. by rewrite (ro_unique _ Hok _ _ _ Hk Hj Ef) in Hji.
    + rewrite (counter_insert t i cr3) by done. by rewrite bool_decide_false by (by apply Ht).
  - split; [done|]. intros k Hk. destruct (bool_decide_reflect (k = cr3)) as [->|]; [|done]. unfold counter. by rewrite Ef.
Qed.

Lemma account_spec t cr3 delta :
  rss_ok t -> real_key cr3 -> (forall n, counter t cr3 = Some n -> - 2 ^ 63 <= n + delta < 2 ^ 63) ->
  rss_ok (account cr3 delta t) /\
  (forall k, real_key k -> counter (account cr3 delta t) k = if bool_decide (k = cr3) then (fun n => n + delta) <$> counter t k else counter t k).
Proof.
  intros Hok Hr Hb. unfold account. rewrite (proj2 (Z.eqb_neq cr3 0)) by (unfold real_key in Hr; lia). cbn [orb].
  destruct (Z.eqb_spec delta 0) as [->|Hd].
  { split; [done|]. intros k _. destruct (bool_decide _), (counter t k); cbn; f_equal; lia. }
  destruct (find cr3 t) as [i|] eqn:Ef.
  - specialize (Hb (RSS_PAGES t !!! i)). unfold counter in Hb. rewrite Ef in Hb. specialize (Hb eq_refl).
    assert (wrap_i64 (RSS_PAGES t !!! i + delta) = RSS_PAGES t !!! i + delta) as Hw by (unfold wrap_i64; rewrite Z.mod_small; lia).
    rewrite Hw. pose proof (proj1 (find_iff t cr3 i Hok Hr) Ef) as Hi. pose proof (lookup_lt_Some _ _ _ Hi) as Hlt.
    set (t' := mkRss _ _ _ _).
    assert (rss_ok t') as Hok' by (destruct Hok; split; cbn; try done; by rewrite length_insert).
    split; [done|]. intros k Hk. destruct (bool_decide_reflect (k = cr3)) as [->|Hne].
    + assert (find cr3 t' = Some i) as Ef' by exact Ef. unfold counter. rewrite Ef', Ef. cbn.
      rewrite list_lookup_total_insert_eq; [done|].
      by rewrite (ro_pages _ Hok), <- (ro_keys _ Hok).
    + apply counter_same; try done; cbn. intros j Hj. rewrite list_lookup_total_insert_ne; [done|]. intros ->. congruence.
  - split; [done|]. intros k _. destruct (bool_decide_reflect (k = cr3)) as [->|]; [|done]. unfold counter. by rewrite Ef.
Qed.

Lemma attach_underflows t cr3 : RSS_UNDERFLOWS (snd (attach cr3 t)) = RSS_UNDERFLOWS t.
Proof. unfold attach. destruct (cr3 =? 0); [done|]. destruct (find _ _); [done|]. by destruct (claim_loop _ _). Qed.

Lemma detach_underflows t cr3 : RSS_UNDERFLOWS (detach cr3 t) = RSS_UNDERFLOWS t.
Proof. unfold detach. destruct (cr3 =? 0); [done|]. by destruct (find _ _). Qed.

Lemma account_no_underflow t cr3 delta :
  (forall n, counter t cr3 = Some n -> 0 <= n + delta < 2 ^ 63) ->
  RSS_UNDERFLOWS (account cr3 delta t) = RSS_UNDERFLOWS t.
Proof.
  intros Hb. unfold account, counter in *. destruct (_ || _); [done|]. destruct (find cr3 t) as [i|]; cbn in *; [|done].
  specialize (Hb _ eq_refl). unfold wrap_i64. rewrite Z.mod_small by lia. by rewrite (proj2 (Z.ltb_ge _ _)) by lia.
Qed.
End table.

(** The resident-set table is a partial map from address spaces to
    counts, however its entries were attached and released: attaching keeps
    the count of a space that is tracked and starts a new one at zero, and
    fails only when every slot is taken by another space; releasing a space
    forgets it and no other, although their probes may have run over its slot;
    accounting adds to the count of its space alone. *)
Theorem rss_is_map t cr3 delta :
  rss_ok t -> real_key cr3 -> (forall n, counter t cr3 = Some n -> - 2 ^ 63 <= n + delta < 2 ^ 63) ->
  let '(ok, ta) := attach cr3 t in
  rss_ok ta /\ rss_ok (detach cr3 t) /\ rss_ok (account cr3 delta t) /\
  (ok = true <-> counter t cr3 <> None \/ has_free_slot t) /\
  (forall k, real_key k ->
     counter ta k = (if ok && bool_decide (k = cr3) then Some (default 0 (counter t cr3)) else counter t k) /\
     counter (detach cr3 t) k = (if bool_decide (k = cr3) then None else counter t k) /\
     counter (account cr3 delta t) k =
       (if bool_decide (k = cr3) then (fun n => n + delta) <$> counter t k else counter t k)).
Proof.
  intros Hok Hr Hb. destruct (attach_spec t cr3 Hok Hr) as (A1 & A2 & A3). destruct (detach_spec t cr3 Hok Hr) as (D1 & D2).
  destruct (account_spec t cr3 delta Hok Hr Hb) as (C1 & C2). destruct (attach cr3 t) as [ok ta]. cbn [fst snd] in *.
  split; [done|]. split; [done|]. split; [done|]. split; [done|]. intros k Hk. by rewrite A3, D2, C2.
Qed.

Lemma rss_static_ok : rss_ok rss_static.
Proof.
  assert (forall i k, real_key k -> ~ RSS_KEYS rss_static !! i = Some k) as Hn.
  { intros i k Hk [-> _]%lookup_replicate. unfold real_key, KEY_EMPTY in Hk. lia. }
  split; [done|done| |].
  - intros i j k Hk Hi. by apply Hn in Hi.
  - intros k i pre post Hk Hi. by apply Hn in Hi.
Qed.

Lemma rss_is_map_witness :
  counter (account 0x300000 5 (snd (attach 0x300000 rss_static))) 0x300000 = Some 5.
Proof.
  destruct (attach_spec rss_static 0x300000 rss_static_ok ltac:(unfold real_key, KEY_CLAIMING, U64_MAX; lia)) as [Hok _].
  pose proof (rss_is_map (snd (attach 0x300000 rss_static)) 0x300000 5 Hok ltac:(unfold real_key, KEY_CLAIMING, U64_MAX; lia)) as Hm.
  assert (counter (snd (attach 0x300000 rss_static)) 0x300000 = Some 0) as E by (vm_compute; reflexivity).
  rewrite E in Hm. specialize (Hm ltac:(intros n [= <-]; lia)).
  destruct (attach 0x300000 (snd (attach 0x300000 rss_static))) as [ok ta]. destruct Hm as (_ & _ & _ & _ & Hm).
  destruct (Hm 0x300000 ltac:(unfold real_key, KEY_CLAIMING, U64_MAX; lia)) as (_ & _ & Hc).
  rewrite Hc, E. reflexivity.
Defined.
