(* ===== verification/PageTable.v ===== *)
(** * Page tables (kernel/src/mm/vmm.rs)

    The four levels of tables in physical memory, the walk that creates and
    splits them, and the operations on leaf entries: map, conditional installs
    of the fault handler, unmap, rewrite. Physical memory is a function from
    word addresses to words, reached in the kernel through its direct map.
    Frames for tables come from an interface, [FrameSource], that the frame
    allocator implements. Several address spaces share one memory. *)

From S2P Require Import Prelude Vma Rss.

Definition PAGE_HUGE : Z := 1 .<< 7.
Definition ADDR_MASK : Z := 0x000FFFFFFFFFF000.
Definition HUGE_MASK : Z := 0x000FFFFFFFE00000.
Definition IDENTITY_WINDOW_TOP : Z := 0x100000000.

(** [e & f != 0]. *)
Definition is_set (e f : Z) : bool := negb (e .& f =? 0).

(** What the tables need of the frame allocator: a page that is in nobody's
    hands, and that the pages in somebody's hands stay there. *)
Class FrameSource (F : Type) := {
  fs_alloc : F -> option Z * F;
  fs_ok : F -> Prop;
  fs_owned : F -> Z -> Prop }.

Definition page_frame (p : Z) : Prop := 0 < p < 2 ^ 52 /\ p mod 4096 = 0.

Class FrameSourceLaws (F : Type) `{FrameSource F} : Prop := {
  fs_alloc_ok f : fs_ok f -> fs_ok (snd (fs_alloc f));
  fs_alloc_keeps f q : fs_ok f -> fs_owned f q -> fs_owned (snd (fs_alloc f)) q;
  fs_alloc_new f p : fs_ok f -> fst (fs_alloc f) = Some p ->
    ~ fs_owned f p /\ fs_owned (snd (fs_alloc f)) p /\ page_frame p }.

(** Physical memory, the frame allocator and the resident-set counters. *)
Record Vmm (F : Type) := mkVmm { pm : Z -> Z; fr : F; rss : Rss }.
Arguments mkVmm {F}.
Arguments pm {F}.
Arguments fr {F}.
Arguments rss {F}.

Section ops.
Context {F : Type} `{FrameSource F}.
Implicit Types (s : Vmm F).

(** [*p2v(table).add(index)]. *)
Definition word (table index : Z) : Z := table + 8 * index.

Definition poke (a v : Z) (m : Z -> Z) : Z -> Z := fun x => if x =? a then v else m x.
Definition store (a v : Z) s : Vmm F := mkVmm (poke a v (pm s)) (fr s) (rss s).

(** All 512 words of a page. *)
Definition fill (p : Z) (f : Z -> Z) (m : Z -> Z) : Z -> Z :=
  fun x => if (p <=? x) && (x <? p + 4096) then f ((x - p) / 8) else m x.
Definition fill_page (p : Z) (f : Z -> Z) s : Vmm F := mkVmm (fill p f (pm s)) (fr s) (rss s).

Definition alloc_table s : option Z * Vmm F :=
  let '(r, f) := fs_alloc (fr s) in (r, mkVmm (pm s) f (rss s)).

(** The four indices of an address. *)
Definition pml4_idx (va : Z) : Z := (va .>> 39) .& 0x1FF.
Definition pdpt_idx (va : Z) : Z := (va .>> 30) .& 0x1FF.
Definition pd_idx (va : Z) : Z := (va .>> 21) .& 0x1FF.
Definition pt_idx (va : Z) : Z := (va .>> 12) .& 0x1FF.

(** Entry [i] of the table a 2 MiB entry is split into. *)
Definition split_entry (entry i : Z) : Z :=
  let huge_base := entry .& HUGE_MASK in
  let per_entry_flags := (entry .& notw 64 ADDR_MASK) .& notw 64 PAGE_HUGE in
  (huge_base + i * 0x1000) .| per_entry_flags.

Definition get_or_create_entry (table_phys index flags : Z) s : option Z * Vmm F :=
  let entry := pm s (word table_phys index) in
  if is_set entry PAGE_PRESENT then
    if is_set entry PAGE_HUGE then
      let '(r, s) := alloc_table s in
      match r with
      | None => (None, s)
      | Some new_pt =>
          let s := fill_page new_pt (split_entry entry) s in
          let new_flags := (entry .& notw 64 ADDR_MASK) .& notw 64 PAGE_HUGE in
          let new_flags := if is_set flags PAGE_USER then new_flags .| PAGE_USER else new_flags in
          (Some new_pt, store (word table_phys index) (new_pt .| new_flags) s)
      end
    else
      let s := if is_set flags PAGE_USER && negb (is_set entry PAGE_USER)
               then store (word table_phys index) (entry .| PAGE_USER) s else s in
      (Some (entry .& ADDR_MASK), s)
  else
    let '(r, s) := alloc_table s in
    match r with
    | None => (None, s)
    | Some new_page =>
        let s := fill_page new_page (fun _ => 0) s in
        (Some new_page, store (word table_phys index) (new_page .| PAGE_PRESENT .| PAGE_WRITABLE .| (flags .& PAGE_USER)) s)
    end.

(** The page table of an address, with the levels above it. *)
Definition get_or_create_pt (pml4_phys virt_addr flags : Z) s : option Z * Vmm F :=
  let '(r, s) := get_or_create_entry pml4_phys (pml4_idx virt_addr) flags s in
  match r with
  | None => (None, s)
  | Some pdpt_phys =>
      let '(r, s) := get_or_create_entry pdpt_phys (pdpt_idx virt_addr) flags s in
      match r with
      | None => (None, s)
      | Some pd_phys => get_or_create_entry pd_phys (pd_idx virt_addr) flags s
      end
  end.

Definition is_user_va (virt_addr : Z) : bool := virt_addr <? 0x800000000000.
Definition is_identity_map_phys (va phys : Z) : bool := (va <? IDENTITY_WINDOW_TOP) && (phys =? va).

Definition account_leaf_pte (pml4_phys virt_addr old_pte new_pte : Z) s : Vmm F :=
  if negb (is_user_va virt_addr) then s
  else
    let was_present := is_set old_pte PAGE_PRESENT in
    let now_present := is_set new_pte PAGE_PRESENT in
    if Bool.eqb was_present now_present then s
    else
      let live_pte := if now_present then new_pte else old_pte in
      if is_identity_map_phys virt_addr (live_pte .& ADDR_MASK) then s
      else mkVmm (pm s) (fr s) (account pml4_phys (if now_present then 1 else -1) (rss s)).

Definition leaf_entry (phys_addr flags : Z) : Z := (phys_addr .& ADDR_MASK) .| flags .| PAGE_PRESENT.

Definition map_page_in_impl (pml4_phys virt_addr phys_addr flags : Z) s : bool * Vmm F :=
  let '(r, s) := get_or_create_pt pml4_phys virt_addr flags s in
  match r with
  | None => (false, s)
  | Some pt_phys =>
      let a := word pt_phys (pt_idx virt_addr) in
      let old_pte := pm s a in
      let new_pte := leaf_entry phys_addr flags in
      (true, account_leaf_pte pml4_phys virt_addr old_pte new_pte (store a new_pte s))
  end.

Definition map_page_in_if_absent (pml4_phys virt_addr phys_addr flags : Z) s : bool * Vmm F :=
  let '(r, s) := get_or_create_pt pml4_phys virt_addr flags s in
  match r with
  | None => (false, s)
  | Some pt_phys =>
      let a := word pt_phys (pt_idx virt_addr) in
      let existing := pm s a in
      if is_set existing PAGE_PRESENT then (false, s)
      else
        let new_pte := leaf_entry phys_addr flags in
        (true, account_leaf_pte pml4_phys virt_addr existing new_pte (store a new_pte s))
  end.

(** The leaf still maps the frame that was sampled. *)
Definition still_maps (existing expected_phys : Z) : bool :=
  negb (negb (is_set existing PAGE_PRESENT) || negb (existing .& ADDR_MASK =? expected_phys .& ADDR_MASK)).

Definition map_page_in_cow_if_unchanged (pml4_phys virt_addr phys_addr flags expected_phys : Z) s : bool * Vmm F :=
  let '(r, s) := get_or_create_pt pml4_phys virt_addr flags s in
  match r with
  | None => (false, s)
  | Some pt_phys =>
      let a := word pt_phys (pt_idx virt_addr) in
      if still_maps (pm s a) expected_phys then (true, store a (leaf_entry phys_addr flags) s) else (false, s)
  end.

(** The three steps of the break-before-make install. [shootdown_page] is
    what the other processors answer; the middle state is what they see while
    they flush. *)
Inductive CowBreak := Installed (flush_acked : bool) | Lost.

Definition cow_break (pml4_phys virt_addr flags expected_phys : Z) s : option Z * Vmm F :=
  let '(r, s) := get_or_create_pt pml4_phys virt_addr flags s in
  match r with
  | None => (None, s)
  | Some pt_phys =>
      let a := word pt_phys (pt_idx virt_addr) in
      if still_maps (pm s a) expected_phys then (Some a, store a 0 s) else (None, s)
  end.

Definition cow_break_if_unchanged (shootdown_page : Vmm F -> bool) (pml4_phys virt_addr new_phys flags expected_phys : Z) s
    : CowBreak * Vmm F :=
  let '(r, s) := cow_break pml4_phys virt_addr flags expected_phys s in
  match r with
  | None => (Lost, s)
  | Some a =>
      let flush_acked := shootdown_page s in
      (Installed flush_acked, store a (leaf_entry new_phys flags) s)
  end.

(** [share_count] is the number of references to the frame under the lock. *)
Definition flip_writable_if_sole_owner (share_count : F -> Z -> Z) (pml4_phys virt_addr expected_phys flags : Z) s
    : bool * Vmm F :=
  let '(r, s) := get_or_create_pt pml4_phys virt_addr flags s in
  match r with
  | None => (false, s)
  | Some pt_phys =>
      let a := word pt_phys (pt_idx virt_addr) in
      if still_maps (pm s a) expected_phys then
        if 1 <? share_count (fr s) expected_phys then (false, s)
        else (true, store a (leaf_entry expected_phys flags) s)
      else (false, s)
  end.

Definition install_not_present_guard (cr3 virt_addr : Z) s : bool * Vmm F :=
  let '(r, s) := get_or_create_pt cr3 virt_addr 0 s in
  match r with
  | None => (false, s)
  | Some pt_phys => (true, store (word pt_phys (pt_idx virt_addr)) 0 s)
  end.

(** The leaf slot the unconditional writers reach; they do not look for huge
    pages on the way. *)
Definition leaf_slot (pml4_phys virt_addr : Z) (m : Z -> Z) : option Z :=
  let pml4_entry := m (word pml4_phys (pml4_idx virt_addr)) in
  if negb (is_set pml4_entry PAGE_PRESENT) then None
  else
    let pdpt_entry := m (word (pml4_entry .& ADDR_MASK) (pdpt_idx virt_addr)) in
    if negb (is_set pdpt_entry PAGE_PRESENT) then None
    else
      let pd_entry := m (word (pdpt_entry .& ADDR_MASK) (pd_idx virt_addr)) in
      if negb (is_set pd_entry PAGE_PRESENT) then None
      else Some (word (pd_entry .& ADDR_MASK) (pt_idx virt_addr)).

Definition write_pte_impl (pml4_phys virt_addr pte : Z) s : Vmm F :=
  match leaf_slot pml4_phys virt_addr (pm s) with
  | None => s
  | Some leaf =>
      let old_pte := pm s leaf in
      account_leaf_pte pml4_phys virt_addr old_pte pte (store leaf pte s)
  end.

Definition unmap_page_in_at (pml4_phys virt_addr : Z) s : Vmm F :=
  match leaf_slot pml4_phys virt_addr (pm s) with
  | None => s
  | Some leaf =>
      let old_pte := pm s leaf in
      account_leaf_pte pml4_phys virt_addr old_pte 0 (store leaf 0 s)
  end.
End ops.

Definition virt_to_phys_in (m : Z -> Z) (pml4_phys virt_addr : Z) : option Z :=
  let pml4_entry := m (word pml4_phys (pml4_idx virt_addr)) in
  if negb (is_set pml4_entry PAGE_PRESENT) then None
  else
    let pdpt_entry := m (word (pml4_entry .& ADDR_MASK) (pdpt_idx virt_addr)) in
    if negb (is_set pdpt_entry PAGE_PRESENT) then None
    else if is_set pdpt_entry PAGE_HUGE then Some ((pdpt_entry .& 0x000FFFFFC0000000) .| (virt_addr .& 0x3FFFFFFF))
    else
      let pd_entry := m (word (pdpt_entry .& ADDR_MASK) (pd_idx virt_addr)) in
      if negb (is_set pd_entry PAGE_PRESENT) then None
      else if is_set pd_entry PAGE_HUGE then Some ((pd_entry .& HUGE_MASK) .| (virt_addr .& 0x1FFFFF))
      else
        let pt_entry := m (word (pd_entry .& ADDR_MASK) (pt_idx virt_addr)) in
        if negb (is_set pt_entry PAGE_PRESENT) then None
        else Some ((pt_entry .& ADDR_MASK) .| (virt_addr .& 0xFFF)).

Definition read_pte (m : Z -> Z) (pml4_phys virt_addr : Z) : Z :=
  let pml4_entry := m (word pml4_phys (pml4_idx virt_addr)) in
  if negb (is_set pml4_entry PAGE_PRESENT) then 0
  else
    let pdpt_entry := m (word (pml4_entry .& ADDR_MASK) (pdpt_idx virt_addr)) in
    if negb (is_set pdpt_entry PAGE_PRESENT) then 0
    else if is_set pdpt_entry PAGE_HUGE then pdpt_entry
    else
      let pd_entry := m (word (pdpt_entry .& ADDR_MASK) (pd_idx virt_addr)) in
      if negb (is_set pd_entry PAGE_PRESENT) then 0
      else if is_set pd_entry PAGE_HUGE then pd_entry
      else m (word (pd_entry .& ADDR_MASK) (pt_idx virt_addr)).

Definition lookup_pte_in (m : Z -> Z) (pml4_phys virt_addr : Z) : option Z :=
  let pml4_entry := m (word pml4_phys (pml4_idx virt_addr)) in
  if negb (is_set pml4_entry PAGE_PRESENT) then None
  else
    let pdpt_entry := m (word (pml4_entry .& ADDR_MASK) (pdpt_idx virt_addr)) in
    if negb (is_set pdpt_entry PAGE_PRESENT) || is_set pdpt_entry PAGE_HUGE then None
    else
      let pd_entry := m (word (pdpt_entry .& ADDR_MASK) (pd_idx virt_addr)) in
      if negb (is_set pd_entry PAGE_PRESENT) || is_set pd_entry PAGE_HUGE then None
      else
        let pt_entry := m (word (pd_entry .& ADDR_MASK) (pt_idx virt_addr)) in
        if negb (is_set pt_entry PAGE_PRESENT) then None else Some pt_entry.

(* ------------------------------------------------------------------ *)
(** ** Bits of entries *)

Lemma is_set_bit e k : 0 <= k -> is_set e (1 .<< k) = Z.testbit e k.
Proof. intros Hk. unfold is_set. by rewrite land_shiftl_1_eqb, negb_involutive. Qed.

Lemma is_set_lor a b k : 0 <= k -> is_set (a .| b) (1 .<< k) = is_set a (1 .<< k) || is_set b (1 .<< k).
Proof. intros Hk. by rewrite !is_set_bit, Z.lor_spec. Qed.

Lemma testbit_ADDR_MASK i : 0 <= i -> Z.testbit ADDR_MASK i = (12 <=? i) && (i <? 52).
Proof.
  intros Hi. change ADDR_MASK with (Z.ones 40 .<< 12). rewrite Z.shiftl_spec by done.
  rewrite Z.testbit_ones by lia. f_equal; [apply Bool.eq_iff_eq_true; rewrite !Z.leb_le; lia|].
  apply Bool.eq_iff_eq_true; rewrite !Z.ltb_lt; lia.
Qed.

(** The bits of a page address. *)
Definition page_bits (p : Z) : Prop := forall i, 0 <= i -> i < 12 \/ 52 <= i -> Z.testbit p i = false.

Lemma page_frame_bits p : 0 <= p < 2 ^ 52 -> p mod 4096 = 0 -> page_bits p.
Proof.
  intros Hp Hm i Hi [Hlo|Hhi]; [|by apply (testbit_word_high 52)].
  change 4096 with (2 ^ 12) in Hm. rewrite <- (Z.mod_pow2_bits_low p 12) by done. by rewrite Hm, Z.bits_0.
Qed.

Lemma page_bits_land p : page_bits p -> p .& ADDR_MASK = p.
Proof.
  intros Hp. apply Z.bits_inj_iff'. intros i Hi. rewrite Z.land_spec, testbit_ADDR_MASK by done.
  destruct (Z.leb_spec 12 i); destruct (Z.ltb_spec i 52); cbn; rewrite ?andb_true_r, ?andb_false_r; try done;
    symmetry; apply Hp; lia.
Qed.

Lemma land_ADDR_MASK_bits e : page_bits (e .& ADDR_MASK).
Proof.
  intros i Hi Hr. rewrite Z.land_spec, testbit_ADDR_MASK by done.
  destruct (Z.leb_spec 12 i), (Z.ltb_spec i 52); cbn; rewrite ?andb_false_r; try done; lia.
Qed.

(** Flags leave the address of an entry alone. *)
Definition flag_bits (f : Z) : Prop := f .& ADDR_MASK = 0.

Lemma addr_lor a b : (a .| b) .& ADDR_MASK = (a .& ADDR_MASK) .| (b .& ADDR_MASK).
Proof. apply Z.land_lor_distr_l. Qed.

Lemma addr_entry p f : page_bits p -> flag_bits f -> (p .| f) .& ADDR_MASK = p.
Proof. intros Hp Hf. by rewrite addr_lor, Hf, Z.lor_0_r, page_bits_land. Qed.

Lemma flag_bits_lor a b : flag_bits a -> flag_bits b -> flag_bits (a .| b).
Proof. unfold flag_bits. intros Ha Hb. by rewrite addr_lor, Ha, Hb. Qed.

Lemma flag_bits_land a b : flag_bits a -> flag_bits (b .& a).
Proof. unfold flag_bits. intros Ha. by rewrite <- Z.land_assoc, Ha, Z.land_0_r. Qed.

Lemma is_set_page p k : page_bits p -> 0 <= k -> k < 12 \/ 52 <= k -> is_set p (1 .<< k) = false.
Proof. intros Hp H1 H2. rewrite is_set_bit by done. by apply Hp. Qed.

(** The flags of a huge entry that go to its parts. *)
Definition keep_flags (e : Z) : Z := (e .& notw 64 ADDR_MASK) .& notw 64 PAGE_HUGE.

Lemma testbit_keep_flags e i :
  0 <= i -> Z.testbit (keep_flags e) i = Z.testbit e i && (i <? 64) && negb ((12 <=? i) && (i <? 52)) && negb (i =? 7).
Proof.
  intros Hi. unfold keep_flags. rewrite !Z.land_spec, !testbit_notw, testbit_ADDR_MASK by lia.
  unfold PAGE_HUGE. rewrite testbit_shiftl_1 by lia.
  assert (bool_decide (i < 64) = (i <? 64)) as -> by (apply Bool.eq_iff_eq_true; by rewrite bool_decide_eq_true, Z.ltb_lt).
  assert (bool_decide (i = 7) = (i =? 7)) as -> by (apply Bool.eq_iff_eq_true; by rewrite bool_decide_eq_true, Z.eqb_eq).
  destruct (Z.testbit e i), (i <? 64), (12 <=? i), (i <? 52), (i =? 7); done.
Qed.

Lemma keep_flags_bits e : flag_bits (keep_flags e).
Proof.
  apply Z.bits_inj_iff'. intros i Hi. rewrite Z.land_spec, testbit_keep_flags, testbit_ADDR_MASK, Z.bits_0 by done.
  destruct (Z.testbit e i), (i <? 64), (12 <=? i), (i <? 52), (i =? 7); done.
Qed.

Lemma keep_flags_set e k : 0 <= k < 12 -> k <> 7 -> is_set (keep_flags e) (1 .<< k) = is_set e (1 .<< k).
Proof.
  intros Hk H7. rewrite !is_set_bit, testbit_keep_flags by lia.
  rewrite (proj2 (Z.ltb_lt k 64)), (proj2 (Z.leb_gt 12 k)), (proj2 (Z.eqb_neq k 7)) by lia. cbn. by rewrite !andb_true_r.
Qed.

Lemma keep_flags_huge e : is_set (keep_flags e) PAGE_HUGE = false.
Proof. unfold PAGE_HUGE. rewrite is_set_bit, testbit_keep_flags by lia. cbn. by rewrite andb_false_r. Qed.

Lemma huge_base_page e i : 0 <= i < 512 -> page_bits (e .& HUGE_MASK + i * 4096) /\ 0 <= e .& HUGE_MASK + i * 4096 < 2 ^ 52.
Proof.
  intros Hi. assert (exists q, e .& HUGE_MASK = q * 2 ^ 21 /\ 0 <= q < 2 ^ 31) as (q & Hq & Hr).
  { exists ((e .>> 21) mod 2 ^ 31). split; [|apply Z.mod_pos_bound; lia].
    rewrite <- Z.land_ones, <- Z.shiftl_mul_pow2 by lia. apply Z.bits_inj_iff'. intros j Hj.
    change HUGE_MASK with (Z.ones 31 .<< 21). rewrite Z.land_spec.
    destruct (Z.le_gt_cases 21 j) as [Hl|Hl]; [|by rewrite !Z.shiftl_spec_low, andb_false_r].
    rewrite !Z.shiftl_spec_high, Z.land_spec, Z.shiftr_spec by lia. f_equal. f_equal. lia. }
  rewrite Hq. split; [|lia]. apply page_frame_bits; [lia|].
  replace (q * 2 ^ 21 + i * 4096) with ((q * 512 + i) * 4096) by lia. by apply Z.mod_mul.
Qed.

Lemma split_entry_present e i : 0 <= i < 512 -> is_set (split_entry e i) PAGE_PRESENT = is_set e PAGE_PRESENT.
Proof.
  intros Hi. unfold split_entry. fold (keep_flags e). unfold PAGE_PRESENT. rewrite is_set_lor by done.
  rewrite (is_set_page _ 0) by (try apply huge_base_page; lia). cbn [orb]. by apply keep_flags_set.
Qed.

Lemma split_entry_addr e i : 0 <= i < 512 -> split_entry e i .& ADDR_MASK = e .& HUGE_MASK + i * 4096.
Proof.
  intros Hi. unfold split_entry. fold (keep_flags e). apply addr_entry; [by apply huge_base_page|apply keep_flags_bits].
Qed.

(* ------------------------------------------------------------------ *)
(** ** Tables and leaves

    [tab m r p] is the table that the entries at the indices [p] lead to from
    the root [r]; [leaf m r va] is the entry that maps the page of [va], where
    a 2 MiB entry counts as the 512 entries it stands for. *)

Definition step_of (e : Z) : option Z :=
  if is_set e PAGE_PRESENT && negb (is_set e PAGE_HUGE) then Some (e .& ADDR_MASK) else None.

Fixpoint tab (m : Z -> Z) (t : Z) (p : list Z) : option Z :=
  match p with [] => Some t | i :: p => t' ← step_of (m (word t i)); tab m t' p end.

Definition huge_leaf (e i : Z) : option Z :=
  if is_set e PAGE_PRESENT && is_set e PAGE_HUGE then Some (split_entry e i) else None.

Definition present (e : Z) : option Z := if is_set e PAGE_PRESENT then Some e else None.

(** The leaf below the entry [e] of a page directory. *)
Definition leaf_of (m : Z -> Z) (e i : Z) : option Z :=
  match step_of e with Some pt => present (m (word pt i)) | None => huge_leaf e i end.

Definition leaf (m : Z -> Z) (r va : Z) : option Z :=
  pd ← tab m r [pml4_idx va; pdpt_idx va]; leaf_of m (m (word pd (pd_idx va))) (pt_idx va).

Definition full_path (va : Z) : list Z := [pml4_idx va; pdpt_idx va; pd_idx va; pt_idx va].

Lemma tab_app m t p q : tab m t (p ++ q) = t' ← tab m t p; tab m t' q.
Proof.
  revert t. induction p as [|i p IH]; intros t; cbn; [done|]. destruct (step_of _); cbn; [apply IH|done].
Qed.

Lemma tab_snoc m t p i : tab m t (p ++ [i]) = t' ← tab m t p; step_of (m (word t' i)).
Proof. rewrite tab_app. destruct (tab m t p); cbn; [|done]. by destruct (step_of _). Qed.

(** A walk depends on the words it reads. *)
Lemma tab_frame m m' r q :
  (forall p i l t, q = p ++ i :: l -> tab m r p = Some t -> m' (word t i) = m (word t i)) -> tab m' r q = tab m r q.
Proof.
  revert r. induction q as [|i q IH]; intros r Hf; cbn; [done|]. rewrite (Hf [] i q r) by done.
  destruct (step_of (m (word r i))) as [t|] eqn:E; cbn; [|done]. apply IH.
  intros p j l t' -> Ht. apply (Hf (i :: p) j l t'); [done|]. cbn. by rewrite E.
Qed.

Lemma leaf_frame m m' r va :
  (forall p i l t, full_path va = p ++ i :: l -> tab m r p = Some t -> m' (word t i) = m (word t i)) ->
  leaf m' r va = leaf m r va.
Proof.
  intros Hf. unfold leaf. rewrite (tab_frame m m').
  2:{ intros p i l t Hp. apply (Hf p i (l ++ [pd_idx va; pt_idx va])). change (full_path va) with ([pml4_idx va; pdpt_idx va] ++ [pd_idx va; pt_idx va]).
      rewrite Hp, <- app_assoc. done. }
  destruct (tab m r _) as [pd|] eqn:E; cbn [mbind option_bind]; [|done].
  rewrite (Hf [pml4_idx va; pdpt_idx va] (pd_idx va) [pt_idx va] pd) by done.
  unfold leaf_of. destruct (step_of (m (word pd (pd_idx va)))) as [pt|] eqn:E2; [|done].
  rewrite (Hf [pml4_idx va; pdpt_idx va; pd_idx va] (pt_idx va) [] pt); [done|done|].
  change [pml4_idx va; pdpt_idx va; pd_idx va] with ([pml4_idx va; pdpt_idx va] ++ [pd_idx va]). by rewrite tab_snoc, E.
Qed.

Lemma word_inj t i t' j :
  t mod 4096 = 0 -> t' mod 4096 = 0 -> 0 <= i < 512 -> 0 <= j < 512 -> word t i = word t' j -> t = t' /\ i = j.
Proof.
  unfold word. intros Ht Ht' Hi Hj He. pose proof (Z.div_mod t 4096). pose proof (Z.div_mod t' 4096).
  assert (t / 4096 = t' / 4096); lia.
Qed.

Lemma word_page t i : t mod 4096 = 0 -> 0 <= i < 512 -> t <= word t i < t + 4096.
Proof. unfold word. lia. Qed.

Lemma pages_apart n t x : n mod 4096 = 0 -> t mod 4096 = 0 -> t <> n -> n <= x < n + 4096 -> ~ t <= x < t + 4096.
Proof. intros Hn Ht Hne H1 H2. pose proof (Z.div_mod t 4096). pose proof (Z.div_mod n 4096). assert (t / 4096 = n / 4096); lia. Qed.

Lemma idx_range x sh : 0 <= (x .>> sh) .& 0x1FF < 512.
Proof. change 0x1FF with (Z.ones 9). rewrite Z.land_ones by lia. apply Z.mod_pos_bound. lia. Qed.

Lemma path_range va : Forall (fun i => 0 <= i < 512) (full_path va).
Proof. repeat constructor; apply idx_range. Qed.

Lemma step_of_bits e t : step_of e = Some t -> page_bits t /\ t mod 4096 = 0.
Proof.
  unfold step_of. destruct (_ && _); [|done]. intros [= <-]. split; [apply land_ADDR_MASK_bits|].
  change 4096 with (2 ^ 12). rewrite <- Z.land_ones, <- Z.land_assoc by lia. apply Z.land_0_r.
Qed.

Lemma fill_in (p : Z) f m i : 0 <= i < 512 -> fill p f m (word p i) = f i.
Proof.
  intros Hi. unfold fill, word. rewrite (proj2 (Z.leb_le _ _)), (proj2 (Z.ltb_lt _ _)) by lia. cbn.
  f_equal. replace (p + 8 * i - p) with (i * 8) by lia. by apply Z.div_mul.
Qed.

Lemma fill_out (p : Z) f m x : ~ p <= x < p + 4096 -> fill p f m x = m x.
Proof. intros Hx. unfold fill. destruct (Z.leb_spec p x), (Z.ltb_spec x (p + 4096)); cbn; try done. lia. Qed.

Lemma prefix_case (p : list Z) i q : (exists l, q = p ++ i :: l) \/ ~ (exists l, q = p ++ i :: l).
Proof.
  destruct (decide ((p ++ [i]) `prefix_of` q)) as [[l ->]|Hn]; [left|right].
  - exists l. by rewrite <- app_assoc.
  - intros [l ->]. apply Hn. exists l. by rewrite <- app_assoc.
Qed.

(** The page of an address: the 36 bits the four indices are taken from. *)
Definition vpage (va : Z) : Z := (va mod 2 ^ 48) / 4096.

Lemma idx_div va k : 0 <= k -> (va .>> k) .& 0x1FF = (va / 2 ^ k) mod 512.
Proof. intros Hk. change 0x1FF with (Z.ones 9). by rewrite Z.land_ones, Z.shiftr_div_pow2 by lia. Qed.

Lemma vpage_idx va : vpage va = pt_idx va + 512 * (pd_idx va + 512 * (pdpt_idx va + 512 * pml4_idx va)).
Proof.
  unfold pt_idx, pd_idx, pdpt_idx, pml4_idx. rewrite !idx_div by lia.
  replace (2 ^ 21) with (2 ^ 12 * 512) by done. replace (2 ^ 30) with (2 ^ 12 * (512 * 512)) by done.
  replace (2 ^ 39) with (2 ^ 12 * (512 * (512 * 512))) by done. rewrite <- !Z.div_div by lia. set (x := va / 2 ^ 12).
  unfold vpage. replace (2 ^ 48) with (2 ^ 12 * 2 ^ 36) by done. rewrite Z.rem_mul_r by lia. fold x.
  change 4096 with (2 ^ 12). rewrite Z.add_comm, Z.mul_comm, Z.div_add_l by lia.
  rewrite (Z.div_small (va mod 2 ^ 12)) by (apply Z.mod_pos_bound; lia). rewrite Z.add_0_r.
  replace (2 ^ 36) with (512 * (512 * (512 * 512))) by done. by rewrite !Z.rem_mul_r by lia.
Qed.

Lemma full_path_vpage va va' : full_path va = full_path va' <-> vpage va = vpage va'.
Proof.
  pose proof (path_range va) as H1. pose proof (path_range va') as H2.
  repeat match goal with H : Forall _ (_ :: _) |- _ => apply Forall_cons_iff in H as [? ?] | H : Forall _ (full_path _) |- _ => unfold full_path in H end.
  rewrite !vpage_idx. split; [by intros [= -> -> -> ->]|]. intros He. unfold full_path.
  assert (pt_idx va = pt_idx va' /\ pd_idx va = pd_idx va' /\ pdpt_idx va = pdpt_idx va' /\ pml4_idx va = pml4_idx va')
    as (-> & -> & -> & ->) by lia. done.
Qed.

Lemma present_leaf_entry pa fl : present (leaf_entry pa fl) = Some (leaf_entry pa fl).
Proof.
  unfold present, leaf_entry, PAGE_PRESENT. by rewrite is_set_lor, orb_true_r.
Qed.

(** The accounting of a change of the leaf from [o] to [n]. *)
Definition account_view (r va : Z) (o n : option Z) (t : Rss) : Rss :=
  if negb (is_user_va va) then t
  else
    match o, n with
    | None, Some e => if is_identity_map_phys va (e .& ADDR_MASK) then t else account r 1 t
    | Some e, None => if is_identity_map_phys va (e .& ADDR_MASK) then t else account r (-1) t
    | _, _ => t
    end.

Lemma account_leaf_pte_spec {F} r va old new (s : Vmm F) :
  pm (account_leaf_pte r va old new s) = pm s /\ fr (account_leaf_pte r va old new s) = fr s /\
  rss (account_leaf_pte r va old new s) = account_view r va (present old) (present new) (rss s).
Proof.
  unfold account_leaf_pte, account_view, present. destruct (is_user_va va); cbn [negb]; [|done].
  destruct (is_set old PAGE_PRESENT), (is_set new PAGE_PRESENT); cbn [Bool.eqb]; try done;
    by destruct (is_identity_map_phys _ _).
Qed.

Lemma lor_add_low a b k : 0 <= k -> a mod 2 ^ k = 0 -> 0 <= b < 2 ^ k -> a .| b = a + b.
Proof.
  intros Hk Ha Hb. rewrite <- Z.add_lor_land. replace (a .& b) with 0; [lia|]. symmetry. apply Z.bits_inj_iff'. intros i Hi.
  rewrite Z.land_spec, Z.bits_0. destruct (Z.lt_ge_cases i k) as [Hlt|Hge].
  - rewrite <- (Z.mod_pow2_bits_low a k) by done. by rewrite Ha, Z.bits_0.
  - rewrite (testbit_word_high k b i) by done. apply andb_false_r.
Qed.

(** The address of a page inside a 2 MiB page. *)
Lemma huge_offset e va :
  (e .& HUGE_MASK) .| (va .& 0x1FFFFF) = (split_entry e (pt_idx va) .& ADDR_MASK) .| (va .& 0xFFF).
Proof.
  rewrite split_entry_addr by apply idx_range. change 0x1FFFFF with (Z.ones 21). change 0xFFF with (Z.ones 12).
  rewrite !Z.land_ones by lia. unfold pt_idx. rewrite idx_div by lia.
  assert ((e .& HUGE_MASK) mod 2 ^ 21 = 0) as Hm.
  { rewrite <- Z.land_ones by lia. change HUGE_MASK with (Z.ones 31 .<< 21). rewrite <- Z.land_assoc.
    replace ((Z.ones 31 .<< 21) .& Z.ones 21) with 0 by done. apply Z.land_0_r. }
  pose proof (Z.mod_pos_bound va (2 ^ 21) ltac:(lia)). pose proof (Z.mod_pos_bound va (2 ^ 12) ltac:(lia)).
  pose proof (Z.mod_pos_bound (va / 2 ^ 12) 512 ltac:(lia)).
  rewrite (lor_add_low _ _ 21) by (done || lia). rewrite (lor_add_low _ _ 12); [|lia| |lia].
  - replace (2 ^ 21) with (2 ^ 12 * 512) by done. rewrite Z.rem_mul_r by lia. lia.
  - pose proof (Z.div_mod (e .& HUGE_MASK) (2 ^ 21) ltac:(lia)) as Hd. rewrite Hd, Hm.
    replace (2 ^ 21 * ((e .& HUGE_MASK) / 2 ^ 21) + 0 + (va / 2 ^ 12) mod 512 * 4096) with
      ((512 * ((e .& HUGE_MASK) / 2 ^ 21) + (va / 2 ^ 12) mod 512) * 2 ^ 12) by lia. apply Z.mod_mul. lia.
Qed.

(* ------------------------------------------------------------------ *)
(** ** Address spaces side by side

    [R] names the roots of the address spaces, [own] the entries of a root
    that belong to the space alone: the lower half of the top-level table for
    processes, which share the upper half, or all of it for the kernel. *)

Section spaces.
Context {F : Type} `{FrameSourceLaws F} (R : Z -> Prop) (own : Z -> bool).
Implicit Types (m : Z -> Z) (f : F) (p q : list Z) (r t : Z).

Definition vpath p : Prop := Forall (fun i => 0 <= i < 512) p /\ match p with [] => True | i :: _ => own i = true end.

(** Tables lie in frames that are taken, no table is reached in two ways, and
    there are no pages larger than 2 MiB. *)
Record spaces_ok m f : Prop := {
  so_src : fs_ok f;
  so_tab r p t : R r -> vpath p -> (length p <= 3)%nat -> tab m r p = Some t -> page_frame t /\ fs_owned f t;
  so_inj r p r' p' t : R r -> vpath p -> (length p <= 3)%nat -> tab m r p = Some t ->
    R r' -> vpath p' -> (length p' <= 3)%nat -> tab m r' p' = Some t -> r = r' /\ p = p';
  so_small r p t i : R r -> vpath (p ++ [i]) -> (length p <= 1)%nat -> tab m r p = Some t ->
    is_set (m (word t i)) PAGE_PRESENT = true -> is_set (m (word t i)) PAGE_HUGE = false }.

Lemma vpath_app p q : vpath (p ++ q) -> vpath p.
Proof. intros [Hr Hh]. apply list.Forall_app in Hr as [Hr _]. split; [done|]. by destruct p. Qed.

Lemma vpath_idx p i q : vpath (p ++ i :: q) -> 0 <= i < 512 /\ vpath (p ++ [i]).
Proof.
  intros Hv. assert (vpath (p ++ [i])) as Hv' by (apply (vpath_app _ q); by rewrite <- app_assoc). split; [|done].
  destruct Hv' as [Hr _]. apply list.Forall_app in Hr as [_ Hr]. by apply Forall_cons_iff in Hr as [? _].
Qed.

(** Each word of a table is read at one place only. *)
Lemma word_place m f r p i t r' p' i' t' :
  spaces_ok m f -> R r -> vpath (p ++ [i]) -> (length p <= 3)%nat -> tab m r p = Some t ->
  R r' -> vpath (p' ++ [i']) -> (length p' <= 3)%nat -> tab m r' p' = Some t' ->
  word t i = word t' i' -> r = r' /\ p = p' /\ i = i'.
Proof.
  intros Hok Hr Hv Hl Ht Hr' Hv' Hl' Ht' He.
  destruct (so_tab _ _ Hok _ _ _ Hr (vpath_app _ _ Hv) Hl Ht) as [[_ Hm] _].
  destruct (so_tab _ _ Hok _ _ _ Hr' (vpath_app _ _ Hv') Hl' Ht') as [[_ Hm'] _].
  destruct (word_inj t i t' i' Hm Hm') as [<- <-]; [by apply (vpath_idx p i [])|by apply (vpath_idx p' i' [])|done|].
  destruct (so_inj _ _ Hok r p r' p' t) as [<- <-]; try done; by eapply vpath_app.
Qed.

(** [m'] differs from [m] at one entry of a table, and on memory that no
    taken frame covers. *)
Definition local_change f t i (fresh : Z -> Prop) m m' : Prop :=
  (forall x, x <> word t i -> ~ fresh x -> m' x = m x) /\
  (forall o x, page_frame o -> fs_owned f o -> o <= x < o + 4096 -> ~ fresh x).

Definition through r p i r' q : Prop := r' = r /\ exists l, q = p ++ i :: l.

Section change.
Context m m' f r p (i : Z) t (fresh : Z -> Prop).
Hypothesis Hok : spaces_ok m f.
Hypothesis Hr : R r.
Hypothesis Hv : vpath (p ++ [i]).
Hypothesis Hl : (length p <= 3)%nat.
Hypothesis Ht : tab m r p = Some t.
Hypothesis Hc : local_change f t i fresh m m'.

Lemma read_other r' q p' i' l t' :
  R r' -> vpath q -> (length q <= 4)%nat -> ~ through r p i r' q ->
  q = p' ++ i' :: l -> tab m r' p' = Some t' -> m' (word t' i') = m (word t' i').
Proof.
  intros Hr' Hq Hlen Hn -> Ht'. destruct (vpath_idx _ _ _ Hq) as [Hi' Hv']. rewrite length_app in Hlen. cbn in Hlen.
  destruct (so_tab _ _ Hok r' p' t') as [[Hp1 Hp2] Ho]; [done|by eapply vpath_app|lia|done|].
  apply Hc; [|apply (proj2 Hc t'); [done|done|by apply word_page]].
  intros He. destruct (word_place m f r p i t r' p' i' t') as (-> & -> & ->); try done; [lia|].
  apply Hn. split; [done|]. by exists l.
Qed.

Lemma tab_other r' q : R r' -> vpath q -> (length q <= 4)%nat -> ~ through r p i r' q -> tab m' r' q = tab m r' q.
Proof. intros Hr' Hq Hlen Hn. apply tab_frame. intros p' i' l t' Hp'. by apply (read_other r' q p' i' l t'). Qed.

Lemma leaf_other r' va : R r' -> vpath (full_path va) -> ~ through r p i r' (full_path va) -> leaf m' r' va = leaf m r' va.
Proof. intros Hr' Hq Hn. apply leaf_frame. intros p' i' l t' Hp'. by apply (read_other r' (full_path va) p' i' l t'). Qed.

Lemma tab_above : tab m' r p = Some t.
Proof.
  rewrite tab_other; [done|done|by eapply vpath_app|lia|].
  intros [_ [l Hx]]. apply (f_equal length) in Hx. rewrite length_app in Hx. cbn in Hx. lia.
Qed.
End change.

(** Rewriting an entry that leads on, so that it still leads to the same
    table, changes neither tables nor leaves. *)
Lemma same_step_ok m f r p i t e' :
  spaces_ok m f -> R r -> vpath (p ++ [i]) -> (length p <= 2)%nat -> tab m r p = Some t ->
  step_of e' = step_of (m (word t i)) -> step_of e' <> None ->
  let m' := poke (word t i) e' m in
  spaces_ok m' f /\ (forall r' q, R r' -> vpath q -> (length q <= 3)%nat -> tab m' r' q = tab m r' q) /\
  (forall r' va, R r' -> vpath (full_path va) -> leaf m' r' va = leaf m r' va).
Proof.
  intros Hok Hr Hv Hl Ht He Hn m'.
  assert (forall x, step_of (m' x) = step_of (m x)) as Hs.
  { intros x. unfold m', poke. destruct (Z.eqb_spec x (word t i)) as [->|]; done. }
  assert (forall r' q, tab m' r' q = tab m r' q) as Htab.
  { intros r' q. revert r'. induction q as [|j q IH]; intros r'; cbn; [done|]. rewrite Hs.
    destruct (step_of (m (word r' j))); cbn; [apply IH|done]. }
  split; [|split; [done|]].
  - destruct Hok as [S1 S2 S3 S4]. split; [done| | |].
    + intros r' q t'. rewrite Htab. apply S2.
    + intros r1 p1 r2 p2 t'. rewrite !Htab. apply S3.
    + intros r' q t' j Hr' Hq Hlen. rewrite Htab. intros Ht' Hp. specialize (Hs (word t' j)). unfold m', poke in *.
      destruct (Z.eqb_spec (word t' j) (word t i)) as [E|]; [|by apply (S4 r' q t' j)].
      unfold step_of in Hn. rewrite Hp in Hn. by destruct (is_set e' PAGE_HUGE).
  - intros r' va Hr' Hva. unfold leaf. rewrite Htab. destruct (tab m r' _) as [pd|] eqn:Epd; cbn [mbind option_bind]; [|done].
    unfold leaf_of. rewrite Hs. destruct (step_of (m (word pd (pd_idx va)))) as [pt|] eqn:Ept.
    + unfold m', poke. destruct (Z.eqb_spec (word pt (pt_idx va)) (word t i)) as [E|]; [exfalso|done].
      destruct (word_place m f r' [pml4_idx va; pdpt_idx va; pd_idx va] (pt_idx va) pt r p i t) as (_ & E2 & _); try done; [|lia|by subst p; cbn in Hl; lia].
      change [pml4_idx va; pdpt_idx va; pd_idx va] with ([pml4_idx va; pdpt_idx va] ++ [pd_idx va]). by rewrite tab_snoc, Epd.
    + unfold m', poke. destruct (Z.eqb_spec (word pd (pd_idx va)) (word t i)) as [E|]; [|done].
      rewrite E, <- He in Ept. done.
Qed.

(** A new table below an entry that leads nowhere. *)
Section link.
Context m m' f f' r p (i : Z) t (n : Z).
Hypothesis Hok : spaces_ok m f.
Hypothesis Hsrc : fs_ok f'.
Hypothesis Hkeep : forall o, fs_owned f o -> fs_owned f' o.
Hypothesis Hnew : ~ fs_owned f n /\ fs_owned f' n /\ page_frame n.
Hypothesis Hr : R r.
Hypothesis Hv : vpath (p ++ [i]).
Hypothesis Hl : (length p <= 2)%nat.
Hypothesis Ht : tab m r p = Some t.
Hypothesis Hnone : step_of (m (word t i)) = None.
Hypothesis Hstep : step_of (m' (word t i)) = Some n.
Hypothesis Hout : forall x, x <> word t i -> ~ n <= x < n + 4096 -> m' x = m x.
Hypothesis Hempty : (length p < 2)%nat -> forall j, 0 <= j < 512 -> is_set (m' (word n j)) PAGE_PRESENT = false.

Lemma link_local : local_change f t i (fun x => n <= x < n + 4096) m m'.
Proof.
  split; [done|]. intros o x [_ Ho] Hown Hx Hfr. destruct Hnew as (Hn & _ & _ & Hp).
  apply (pages_apart n o x); try done. by intros ->.
Qed.

Lemma link_tab : tab m' r (p ++ [i]) = Some n.
Proof. rewrite tab_snoc, (tab_above m m' f r p i t _ Hok Hr Hv ltac:(lia) Ht link_local). done. Qed.

(** The tables are those before and the new one. *)
Lemma link_tabs r' q t' :
  R r' -> vpath q -> (length q <= 3)%nat -> tab m' r' q = Some t' ->
  (r' = r /\ q = p ++ [i] /\ t' = n) \/ (tab m r' q = Some t' /\ ~ through r p i r' q).
Proof.
  intros Hr' Hq Hlen Htq.
  destruct (decide (r' = r)) as [->|Hne].
  2:{ right. assert (~ through r p i r' q) as Hn by (by intros [? _]). split; [|done].
      rewrite <- Htq. symmetry. apply (tab_other m m' f r p i t _ Hok Hr Hv ltac:(lia) Ht link_local); try done. lia. }
  destruct (prefix_case p i q) as [[l ->]|Hp].
  2:{ right. assert (~ through r p i r q) as Hn by (by intros [_ ?]). split; [|done]. rewrite <- Htq. symmetry.
      apply (tab_other m m' f r p i t _ Hok Hr Hv ltac:(lia) Ht link_local); try done. lia. }
  left. rewrite length_app in Hlen. cbn in Hlen. rewrite (cons_middle i p l), app_assoc in Htq, Hq |- *.
  rewrite tab_app, link_tab in Htq. cbn [mbind option_bind] in Htq. destruct l as [|j l].
  - rewrite app_nil_r. cbn in Htq. split_and!; [done|done|congruence].
  - cbn in Htq, Hlen. unfold step_of in Htq. rewrite Hempty in Htq; [done|lia|].
    by apply (vpath_idx (p ++ [i]) j l) in Hq as [? _].
Qed.

Lemma link_ok : spaces_ok m' f'.
Proof.
  destruct Hnew as (N1 & N2 & N3). split; [done| | |].
  - intros r' q t' Hr' Hq Hlen Htq. destruct (link_tabs _ _ _ Hr' Hq Hlen Htq) as [(-> & -> & ->)|[Ho _]]; [done|].
    destruct (so_tab _ _ Hok _ _ _ Hr' Hq Hlen Ho). auto.
  - intros r1 p1 r2 p2 t' Hr1 Hv1 Hl1 Ht1 Hr2 Hv2 Hl2 Ht2.
    destruct (link_tabs _ _ _ Hr1 Hv1 Hl1 Ht1) as [(-> & -> & ->)|[Ho1 _]],
      (link_tabs _ _ _ Hr2 Hv2 Hl2 Ht2) as [(-> & -> & E)|[Ho2 _]]; [done| | |].
    + by destruct (so_tab _ _ Hok _ _ _ Hr2 Hv2 Hl2 Ho2).
    + subst t'. by destruct (so_tab _ _ Hok _ _ _ Hr1 Hv1 Hl1 Ho1).
    + by apply (so_inj _ _ Hok r1 p1 r2 p2 t').
  - intros r' q t' j Hr' Hq Hlen Htq Hp. destruct (vpath_idx q j [] Hq) as [Hj _]. pose proof (vpath_app _ _ Hq) as Hq'.
    destruct (link_tabs _ _ _ Hr' Hq' ltac:(lia) Htq) as [(-> & -> & ->)|[Ho Hth]].
    + rewrite length_app in Hlen. cbn in Hlen. rewrite Hempty in Hp; [done|lia|done].
    + destruct (Z.eq_dec (word t' j) (word t i)) as [E|E].
      * rewrite E. unfold step_of in Hstep. destruct (is_set _ PAGE_PRESENT); [|done]. by destruct (is_set _ PAGE_HUGE).
      * destruct (so_tab _ _ Hok _ _ _ Hr' Hq' ltac:(lia) Ho) as [Hpf Hown].
        assert (m' (word t' j) = m (word t' j)) as Em.
        { apply Hout; [done|]. intros Hx. apply (proj2 link_local t' (word t' j)); try done. apply word_page; [apply Hpf|done]. }
        rewrite Em in Hp |- *. by apply (so_small _ _ Hok r' q t' j).
Qed.

(** The leaves elsewhere are as before. *)
Lemma link_leaf_other r' va :
  R r' -> vpath (full_path va) -> ~ through r p i r' (full_path va) -> leaf m' r' va = leaf m r' va.
Proof. intros Hr' Hva Hth. by apply (leaf_other m m' f r p i t _ Hok Hr Hv ltac:(lia) Ht link_local). Qed.
End link.

Lemma absent_steps e : is_set e PAGE_PRESENT = false -> step_of e = None /\ (forall k, huge_leaf e k = None) /\ present e = None.
Proof. intros He. unfold step_of, huge_leaf, present. by rewrite He. Qed.

(** An entry on the way that is not present leaves a page unmapped. *)
Lemma leaf_none_absent m r va p i l t :
  full_path va = p ++ i :: l -> tab m r p = Some t -> is_set (m (word t i)) PAGE_PRESENT = false -> leaf m r va = None.
Proof.
  intros Hp Ht He. destruct (absent_steps _ He) as (E1 & E2 & E3). unfold leaf, leaf_of.
  destruct p as [|a [|b [|c [|d p]]]]; cbn in Hp, Ht; injection Hp; intros; subst; cbn.
  - injection Ht as ->. by rewrite E1.
  - destruct (step_of (m (word r (pml4_idx va)))) as [t1|]; cbn in *; [|done]. injection Ht as ->. by rewrite E1.
  - destruct (step_of (m (word r (pml4_idx va)))) as [t1|]; cbn in *; [|done].
    destruct (step_of (m (word t1 (pdpt_idx va)))) as [t2|]; cbn in *; [|done]. injection Ht as ->. by rewrite E1.
  - destruct (step_of (m (word r (pml4_idx va)))) as [t1|]; cbn in *; [|done].
    destruct (step_of (m (word t1 (pdpt_idx va)))) as [t2|]; cbn in *; [|done].
    destruct (step_of (m (word t2 (pd_idx va)))) as [t3|]; cbn in *; [|done]. injection Ht as ->. by rewrite E3.
  - by destruct p.
Qed.

(** What the operations that only add tables promise. *)
Definition same_leaves (s s' : Vmm F) : Prop :=
  forall r va, R r -> vpath (full_path va) -> leaf (pm s') r va = leaf (pm s) r va.

Definition extends (s s' : Vmm F) : Prop :=
  spaces_ok (pm s') (fr s') /\ same_leaves s s' /\ rss s' = rss s /\ (forall o, fs_owned (fr s) o -> fs_owned (fr s') o).

Lemma extends_trans s1 s2 s3 : extends s1 s2 -> extends s2 s3 -> extends s1 s3.
Proof.
  intros (A1 & A2 & A3 & A4) (B1 & B2 & B3 & B4). split_and!; [done| |by rewrite B3|auto].
  intros r va Hr Hva. by rewrite B2, A2.
Qed.

Lemma alloc_extends (s : Vmm F) :
  spaces_ok (pm s) (fr s) -> extends s (snd (alloc_table s)) /\ pm (snd (alloc_table s)) = pm s.
Proof.
  intros Hok. unfold alloc_table. pose proof (fs_alloc_ok (fr s) (so_src _ _ Hok)) as A1. pose proof (fs_alloc_keeps (fr s)) as A2.
  destruct (fs_alloc (fr s)) as [res f']. cbn in *. split; [|done]. split_and!; [|done|done|by intros o; apply A2, Hok].
  destruct Hok as [S1 S2 S3 S4]. split; try done. intros r p t Hr Hv Hl Ht. destruct (S2 r p t Hr Hv Hl Ht). auto.
Qed.

(** A new table linked under entry [i] of [t], with the entry rewritten to
    lead to it and the leaves below it kept. *)
Lemma link_extends (s : Vmm F) r p i t n f' (g : Z -> Z) e' :
  spaces_ok (pm s) (fr s) -> R r -> vpath (p ++ [i]) -> (length p <= 2)%nat -> tab (pm s) r p = Some t ->
  fs_alloc (fr s) = (Some n, f') -> step_of (pm s (word t i)) = None -> step_of e' = Some n ->
  ((length p < 2)%nat -> forall j, 0 <= j < 512 -> is_set (g j) PAGE_PRESENT = false) ->
  (forall va l, vpath (full_path va) -> full_path va = p ++ i :: l ->
     let m' := poke (word t i) e' (fill n g (pm s)) in tab m' r (p ++ [i]) = Some n -> (forall j, 0 <= j < 512 -> m' (word n j) = g j) ->
     leaf m' r va = leaf (pm s) r va) ->
  let s' := mkVmm (poke (word t i) e' (fill n g (pm s))) f' (rss s) in
  extends s s' /\ tab (pm s') r (p ++ [i]) = Some n.
Proof.
  intros Hok Hr Hv Hl Ht Ha Hnone Hst Hemp Hleaf s'.
  pose proof (fs_alloc_ok (fr s) (so_src _ _ Hok)) as A1. pose proof (fun o => fs_alloc_keeps (fr s) o (so_src _ _ Hok)) as A2.
  pose proof (fs_alloc_new (fr s) n (so_src _ _ Hok)) as A3. rewrite Ha in A1, A2, A3. cbn in A1, A2, A3. specialize (A3 eq_refl).
  destruct (so_tab _ _ Hok r p t Hr (vpath_app _ _ Hv) ltac:(lia) Ht) as [[_ Hpt] Hown].
  destruct (vpath_idx p i [] Hv) as [Hi _]. destruct A3 as (N1 & N2 & N3).
  assert (t <> n) as Hne by (by intros ->).
  assert (forall j, 0 <= j < 512 -> pm s' (word n j) = g j) as Hin.
  { intros j Hj. cbn. unfold poke. destruct (Z.eqb_spec (word n j) (word t i)) as [E|]; [|by apply fill_in].
    apply word_inj in E as [-> _]; [done|apply N3|done|done|done]. }
  assert (step_of (pm s' (word t i)) = Some n) as Hst' by (cbn; unfold poke; by rewrite Z.eqb_refl).
  assert (forall x, x <> word t i -> ~ n <= x < n + 4096 -> pm s' x = pm s x) as Hout.
  { intros x Hx Hx'. cbn. unfold poke. rewrite (proj2 (Z.eqb_neq _ _)) by done. by apply fill_out. }
  assert ((length p < 2)%nat -> forall j, 0 <= j < 512 -> is_set (pm s' (word n j)) PAGE_PRESENT = false) as Hemp'
    by (intros H2 j Hj; rewrite Hin by done; by apply Hemp).
  assert (tab (pm s') r (p ++ [i]) = Some n) as Htab by (by apply (link_tab (pm s) (pm s') (fr s) f' r p i t n)).
  split; [|done]. split_and!; [by apply (link_ok (pm s) (pm s') (fr s) f' r p i t n)| |done|done].
  intros r' va Hr' Hva. destruct (decide (r' = r)) as [->|Hrr].
  - destruct (prefix_case p i (full_path va)) as [[l Hp]|Hp]; [by apply (Hleaf va l)|].
    apply (link_leaf_other (pm s) (pm s') (fr s) f' r p i t n); try done. by intros [_ ?].
  - apply (link_leaf_other (pm s) (pm s') (fr s) f' r p i t n); try done. by intros [? _].
Qed.

Definition table_path (va : Z) : list Z := [pml4_idx va; pdpt_idx va; pd_idx va].

Lemma leaf_at_pt m r va pt : tab m r (table_path va) = Some pt -> leaf m r va = present (m (word pt (pt_idx va))).
Proof.
  unfold leaf. change (table_path va) with ([pml4_idx va; pdpt_idx va] ++ [pd_idx va]). rewrite tab_snoc.
  destruct (tab m r _) as [pd|]; cbn [mbind option_bind]; [|done]. intros Hs. unfold leaf_of. by rewrite Hs.
Qed.

Lemma entry_step (n fl : Z) :
  page_frame n -> flag_bits fl -> is_set fl PAGE_PRESENT = true -> is_set fl PAGE_HUGE = false -> step_of (n .| fl) = Some n.
Proof.
  intros [Hn1 Hn2] Hf Hp Hh. assert (page_bits n) as Hb by (apply page_frame_bits; lia).
  unfold step_of, PAGE_PRESENT, PAGE_HUGE in *. rewrite !is_set_lor, !(is_set_page n), Hp, Hh by (try done; lia). cbn.
  by rewrite addr_entry.
Qed.

Lemma with_user_flags (b : bool) fl :
  flag_bits fl -> is_set fl PAGE_HUGE = false ->
  let fl' := if b then fl .| PAGE_USER else fl in
  flag_bits fl' /\ is_set fl' PAGE_HUGE = false /\ is_set fl' PAGE_PRESENT = is_set fl PAGE_PRESENT.
Proof.
  intros Hf Hh. destruct b; [|done]. cbv zeta. split_and!.
  - by apply flag_bits_lor.
  - unfold PAGE_HUGE in *. by rewrite is_set_lor, Hh.
  - unfold PAGE_PRESENT. rewrite is_set_lor by done. apply orb_false_r.
Qed.

Lemma get_or_create_spec (s : Vmm F) r p i t flags :
  spaces_ok (pm s) (fr s) -> R r -> vpath (p ++ [i]) -> (length p <= 2)%nat -> tab (pm s) r p = Some t ->
  let '(res, s') := get_or_create_entry t i flags s in
  extends s s' /\
  match res with Some n => tab (pm s') r (p ++ [i]) = Some n | None => fst (fs_alloc (fr s)) = None end.
Proof.
  intros Hok Hr Hv Hl Ht. unfold get_or_create_entry. set (e := pm s (word t i)).
  pose proof (alloc_extends s Hok) as [Hae Hap]. unfold alloc_table in *.
  destruct (is_set e PAGE_PRESENT) eqn:Ep; [destruct (is_set e PAGE_HUGE) eqn:Eh|].
  - assert (length p = 2)%nat as Hl2.
    { destruct (decide (length p <= 1)%nat); [|lia]. pose proof (so_small _ _ Hok r p t i Hr Hv ltac:(lia) Ht Ep). fold e in H1. congruence. }
    destruct (fs_alloc (fr s)) as [[n|] f'] eqn:Ea; cbn in Hae |- *; [|done].
    fold (keep_flags e). destruct (with_user_flags (is_set flags PAGE_USER) (keep_flags e) (keep_flags_bits e) (keep_flags_huge e)) as (F1 & F2 & F3).
    apply (link_extends s r p i t n f'); try done; [|apply entry_step; try done| |].
    + fold e. unfold step_of. by rewrite Ep, Eh.
    + pose proof (fs_alloc_new (fr s) n (so_src _ _ Hok)) as A3. rewrite Ea in A3. by apply A3.
    + rewrite F3. unfold PAGE_PRESENT in *. rewrite keep_flags_set; [done|lia|lia].
    + lia.
    + intros va l Hva Hp m' Htab Hg. destruct p as [|a [|b [|]]]; try done. injection Hp as <- <- <- <-.
      rewrite (leaf_at_pt m' r va n) by done. rewrite Hg by apply idx_range. unfold present, leaf.
      rewrite split_entry_present, Ep, Ht by apply idx_range. cbn [mbind option_bind]. unfold leaf_of, step_of, huge_leaf. fold e. by rewrite Ep, Eh.
  - assert (step_of e = Some (e .& ADDR_MASK)) as Es by (unfold step_of; by rewrite Ep, Eh).
    assert (tab (pm s) r (p ++ [i]) = Some (e .& ADDR_MASK)) as Htab by (rewrite tab_snoc, Ht; exact Es).
    destruct (_ && _); [|split; [by split_and!|done]].
    assert (step_of (e .| PAGE_USER) = step_of e) as Es'.
    { unfold step_of, PAGE_PRESENT, PAGE_HUGE. rewrite !is_set_lor, addr_lor by done.
      change (PAGE_USER .& ADDR_MASK) with 0. rewrite Z.lor_0_r. change (is_set PAGE_USER (1 .<< 0)) with false.
      change (is_set PAGE_USER (1 .<< 7)) with false. by rewrite !orb_false_r. }
    destruct (same_step_ok (pm s) (fr s) r p i t (e .| PAGE_USER)) as (G1 & G2 & G3); try done; [by rewrite Es', Es|].
    split; [by split_and!|]. cbn. rewrite G2; [done|done|done|rewrite length_app; cbn; lia].
  - destruct (fs_alloc (fr s)) as [[n|] f'] eqn:Ea; cbn in Hae |- *; [|done].
    destruct (absent_steps _ Ep) as (E1 & E2 & E3).
    apply (link_extends s r p i t n f'); try done.
    + rewrite <- !Z.lor_assoc. apply entry_step.
      * pose proof (fs_alloc_new (fr s) n (so_src _ _ Hok)) as A3. rewrite Ea in A3. by apply A3.
      * apply flag_bits_lor; [done|]. apply flag_bits_lor; [done|]. by apply flag_bits_land.
      * unfold PAGE_PRESENT at 2. by rewrite is_set_lor.
      * unfold PAGE_HUGE. rewrite !is_set_lor by done.
        assert (is_set (flags .& PAGE_USER) (1 .<< 7) = false) as -> by (rewrite is_set_bit, Z.land_spec by done; apply andb_false_r). done.
    + intros va l Hva Hp m' Htab Hg. rewrite (leaf_none_absent (pm s) r va p i l t Hp Ht Ep).
      destruct l as [|j l].
      { exfalso. apply (f_equal length) in Hp. rewrite length_app in Hp. cbn in Hp. lia. }
      apply (leaf_none_absent m' r va (p ++ [i]) j l n); [by rewrite <- app_assoc|done|].
      rewrite Hg; [done|]. rewrite Hp in Hva. by apply (vpath_idx (p ++ [i]) j l); rewrite <- app_assoc.
Qed.

Lemma get_or_create_pt_spec (s : Vmm F) r va flags :
  spaces_ok (pm s) (fr s) -> R r -> vpath (full_path va) ->
  let '(res, s') := get_or_create_pt r va flags s in
  extends s s' /\
  match res with
  | Some pt => tab (pm s') r (table_path va) = Some pt
  | None => exists s0, extends s s0 /\ fst (fs_alloc (fr s0)) = None
  end.
Proof.
  intros Hok Hr Hva. unfold get_or_create_pt.
  assert (extends s s) as H00 by (by split_and!).
  pose proof (get_or_create_spec s r [] (pml4_idx va) r flags Hok Hr) as Sp1.
  destruct (get_or_create_entry r _ flags s) as [[t1|] s1];
    (destruct Sp1 as [X1 T1]; [by apply (vpath_app _ [pdpt_idx va; pd_idx va; pt_idx va])|cbn; lia|done|]); [|by eauto].
  pose proof (get_or_create_spec s1 r [pml4_idx va] (pdpt_idx va) t1 flags ltac:(apply X1) Hr) as Sp2.
  destruct (get_or_create_entry t1 _ flags s1) as [[t2|] s2];
    (destruct Sp2 as [X2 T2]; [by apply (vpath_app _ [pd_idx va; pt_idx va])|cbn; lia|done|]);
    pose proof (extends_trans _ _ _ X1 X2) as X12; [|by eauto].
  pose proof (get_or_create_spec s2 r [pml4_idx va; pdpt_idx va] (pd_idx va) t2 flags ltac:(apply X2) Hr) as Sp3.
  destruct (get_or_create_entry t2 _ flags s2) as [[t3|] s3];
    (destruct Sp3 as [X3 T3]; [by apply (vpath_app _ [pt_idx va])|cbn; lia|done|]);
    pose proof (extends_trans _ _ _ X12 X3) as X123; by eauto.
Qed.

(** Writing the leaf of a page. *)
Lemma leaf_write m f r va pt e :
  spaces_ok m f -> R r -> vpath (full_path va) -> tab m r (table_path va) = Some pt ->
  let m' := poke (word pt (pt_idx va)) e m in
  spaces_ok m' f /\
  (forall r' q, R r' -> vpath q -> (length q <= 3)%nat -> tab m' r' q = tab m r' q) /\
  (forall r' va', R r' -> vpath (full_path va') ->
     leaf m' r' va' = if bool_decide (r' = r /\ vpage va' = vpage va) then present e else leaf m r' va').
Proof.
  intros Hok Hr Hva Ht m'.
  assert (local_change f pt (pt_idx va) (fun _ => False) m m') as Hc.
  { split; [|by intros o x _ _ _ []]. intros x Hx _. unfold m', poke. by rewrite (proj2 (Z.eqb_neq _ _)). }
  assert (forall r' q, R r' -> vpath q -> (length q <= 3)%nat -> tab m' r' q = tab m r' q) as Htab.
  { intros r' q Hr' Hq Hlen. apply (tab_other m m' f r (table_path va) (pt_idx va) pt (fun _ => False)); try done; [lia|].
    intros [_ [l ->]]. rewrite length_app in Hlen. cbn in Hlen. lia. }
  split; [|split; [done|]].
  - destruct Hok as [S1 S2 S3 S4]. split; [done| | |].
    + intros r' q t' Hr' Hq Hlen. rewrite Htab by done. by apply S2.
    + intros r1 p1 r2 p2 t' Hr1 Hv1 Hl1 Ht1 Hr2 Hv2 Hl2 Ht2. rewrite Htab in Ht1, Ht2 by done. by apply (S3 r1 p1 r2 p2 t').
    + intros r' q t' j Hr' Hq Hlen Ht'. rewrite Htab in Ht'; [|done|by eapply vpath_app|lia].
      unfold m', poke. destruct (Z.eqb_spec (word t' j) (word pt (pt_idx va))) as [E|]; [exfalso|by apply (S4 r' q t' j)].
      destruct (word_place m f r' q j t' r (table_path va) (pt_idx va) pt) as (_ & -> & _); try done; [lia|].
      cbn in Hlen. lia.
  - intros r' va' Hr' Hva'. destruct (bool_decide_reflect (r' = r /\ vpage va' = vpage va)) as [[-> Hp]|Hn].
    + apply full_path_vpage in Hp. injection Hp as E1 E2 E3 E4. assert (table_path va' = table_path va) as Et by (unfold table_path; congruence).
      rewrite (leaf_at_pt m' r va' pt), E4; [|rewrite Htab, Et; [done|done|exact (vpath_app (table_path va') [pt_idx va'] Hva')|cbn; lia]].
      f_equal. unfold m', poke. by rewrite Z.eqb_refl.
    + apply (leaf_other m m' f r (table_path va) (pt_idx va) pt (fun _ => False)); try done.
      intros [-> [l Hl]]. apply Hn. split; [done|]. apply full_path_vpage. rewrite Hl.
      destruct l; [done|]. apply (f_equal length) in Hl. rewrite length_app in Hl. cbn in Hl. lia.
Qed.

(** The state [s'] is [s] with the leaf of one page set to [o] and nothing
    else in any address space. *)
Record sets (s s' : Vmm F) (r va : Z) (o : option Z) : Prop := {
  st_ok : spaces_ok (pm s') (fr s');
  st_leaf r' va' : R r' -> vpath (full_path va') ->
    leaf (pm s') r' va' = if bool_decide (r' = r /\ vpage va' = vpage va) then o else leaf (pm s) r' va';
  st_owned o' : fs_owned (fr s) o' -> fs_owned (fr s') o' }.

Lemma write_sets (s s1 : Vmm F) r va pt e :
  extends s s1 -> R r -> vpath (full_path va) -> tab (pm s1) r (table_path va) = Some pt ->
  sets s (store (word pt (pt_idx va)) e s1) r va (present e) /\ present (pm s1 (word pt (pt_idx va))) = leaf (pm s) r va.
Proof.
  intros (X1 & X2 & X3 & X4) Hr Hva Ht. destruct (leaf_write _ _ r va pt e X1 Hr Hva Ht) as (W1 & W2 & W3).
  split; [split; [done| |done]|].
  - intros r' va' Hr' Hva'. cbn [pm store]. rewrite W3 by done. destruct (bool_decide _); [done|by apply X2].
  - rewrite <- X2 by done. symmetry. by apply leaf_at_pt.
Qed.

Lemma sets_account (s s1 : Vmm F) r va o old new : sets s s1 r va o -> sets s (account_leaf_pte r va old new s1) r va o.
Proof.
  destruct (account_leaf_pte_spec r va old new s1) as (E1 & E2 & _). intros [S1 S2 S3]. split; rewrite ?E1, ?E2; done.
Qed.

(** Exhaustion is the only reason for which tables cannot be had. *)
Definition exhausted (s : Vmm F) : Prop := exists s0, extends s s0 /\ fst (fs_alloc (fr s0)) = None.

Section page.
Context (s : Vmm F) (r va : Z).
Hypothesis Hok : spaces_ok (pm s) (fr s).
Hypothesis Hr : R r.
Hypothesis Hva : vpath (full_path va).

Lemma map_spec pa fl :
  let '(ok, s') := map_page_in_impl r va pa fl s in
  if ok then sets s s' r va (Some (leaf_entry pa fl)) /\
             rss s' = account_view r va (leaf (pm s) r va) (Some (leaf_entry pa fl)) (rss s)
  else extends s s' /\ exhausted s.
Proof.
  unfold map_page_in_impl. pose proof (get_or_create_pt_spec s r va fl Hok Hr Hva) as Hg.
  destruct (get_or_create_pt r va fl s) as [[pt|] s1]; destruct Hg as [X Ht]; [|done].
  destruct (write_sets s s1 r va pt (leaf_entry pa fl) X Hr Hva Ht) as [W1 W2]. rewrite present_leaf_entry in W1.
  split; [by apply sets_account|]. destruct (account_leaf_pte_spec r va (pm s1 (word pt (pt_idx va))) (leaf_entry pa fl) (store (word pt (pt_idx va)) (leaf_entry pa fl) s1)) as (_ & _ & ->).
  rewrite W2, present_leaf_entry. cbn. destruct X as (_ & _ & -> & _). done.
Qed.

Lemma map_if_absent_spec pa fl :
  let '(ok, s') := map_page_in_if_absent r va pa fl s in
  if ok then leaf (pm s) r va = None /\ sets s s' r va (Some (leaf_entry pa fl)) /\
             rss s' = account_view r va None (Some (leaf_entry pa fl)) (rss s)
  else extends s s' /\ (leaf (pm s) r va <> None \/ exhausted s).
Proof.
  unfold map_page_in_if_absent. pose proof (get_or_create_pt_spec s r va fl Hok Hr Hva) as Hg.
  destruct (get_or_create_pt r va fl s) as [[pt|] s1]; destruct Hg as [X Ht]; [|by split; [|right]].
  destruct (write_sets s s1 r va pt (leaf_entry pa fl) X Hr Hva Ht) as [W1 W2]. rewrite present_leaf_entry in W1.
  assert (is_set (pm s1 (word pt (pt_idx va))) PAGE_PRESENT = bool_decide (leaf (pm s) r va <> None)) as Hp.
  { rewrite <- W2. unfold present. by destruct (is_set _ _). }
  rewrite Hp. destruct (bool_decide_reflect (leaf (pm s) r va <> None)) as [Hn|Hn]; [by split; [|left]|].
  assert (leaf (pm s) r va = None) as E by (destruct (leaf (pm s) r va); [exfalso; by apply Hn|done]).
  split_and!; [done|by apply sets_account|].
  destruct (account_leaf_pte_spec r va (pm s1 (word pt (pt_idx va))) (leaf_entry pa fl) (store (word pt (pt_idx va)) (leaf_entry pa fl) s1)) as (_ & _ & ->).
  rewrite W2, present_leaf_entry, E. cbn. destruct X as (_ & _ & -> & _). done.
Qed.

(** The guard of the copy-on-write installs, on the view. *)
Definition maps_frame (o : option Z) (phys : Z) : bool :=
  match o with Some e => e .& ADDR_MASK =? phys .& ADDR_MASK | None => false end.

Lemma still_maps_view e phys : still_maps e phys = maps_frame (present e) phys.
Proof. unfold still_maps, present. destruct (is_set e PAGE_PRESENT); cbn; [|done]. by rewrite negb_involutive. Qed.

Lemma map_cow_spec pa fl expected :
  let '(ok, s') := map_page_in_cow_if_unchanged r va pa fl expected s in
  if ok then maps_frame (leaf (pm s) r va) expected = true /\ sets s s' r va (Some (leaf_entry pa fl)) /\ rss s' = rss s
  else extends s s' /\ (maps_frame (leaf (pm s) r va) expected = false \/ exhausted s).
Proof.
  unfold map_page_in_cow_if_unchanged. pose proof (get_or_create_pt_spec s r va fl Hok Hr Hva) as Hg.
  destruct (get_or_create_pt r va fl s) as [[pt|] s1]; destruct Hg as [X Ht]; [|by split; [|right]].
  destruct (write_sets s s1 r va pt (leaf_entry pa fl) X Hr Hva Ht) as [W1 W2]. rewrite present_leaf_entry in W1.
  rewrite still_maps_view, W2. destruct (maps_frame _ _); [|by split; [|left]]. split_and!; [done|done|]. apply X.
Qed.

Lemma flip_spec share fl expected :
  let '(ok, s') := flip_writable_if_sole_owner share r va expected fl s in
  if ok then maps_frame (leaf (pm s) r va) expected = true /\ share (fr s') expected <= 1 /\
             sets s s' r va (Some (leaf_entry expected fl)) /\ rss s' = rss s
  else extends s s' /\ (maps_frame (leaf (pm s) r va) expected = false \/ 1 < share (fr s') expected \/ exhausted s).
Proof.
  unfold flip_writable_if_sole_owner. pose proof (get_or_create_pt_spec s r va fl Hok Hr Hva) as Hg.
  destruct (get_or_create_pt r va fl s) as [[pt|] s1]; destruct Hg as [X Ht]; [|by split; [|right; right]].
  destruct (write_sets s s1 r va pt (leaf_entry expected fl) X Hr Hva Ht) as [W1 W2]. rewrite present_leaf_entry in W1.
  rewrite still_maps_view, W2. destruct (maps_frame _ _); [|by split; [|left]].
  destruct (Z.ltb_spec 1 (share (fr s1) expected)); [by split; [|right; left]|]. split_and!; [done|done|done|apply X].
Qed.

Lemma sets_twice (s1 s2 : Vmm F) o o' : sets s s1 r va o -> sets s1 s2 r va o' -> sets s s2 r va o'.
Proof.
  intros [A1 A2 A3] [B1 B2 B3]. split; [done| |auto]. intros r' va' Hr' Hva'. rewrite B2, A2 by done. by destruct (bool_decide _).
Qed.

Lemma extends_refl (s1 : Vmm F) : spaces_ok (pm s1) (fr s1) -> extends s1 s1.
Proof. intros Hs. by split_and!. Qed.

Lemma cow_break_spec sd pa fl expected :
  let '(res, s') := cow_break_if_unchanged sd r va pa fl expected s in
  match res with
  | Installed acked => exists mid, sets s mid r va None /\ acked = sd mid /\
      maps_frame (leaf (pm s) r va) expected = true /\ sets mid s' r va (Some (leaf_entry pa fl)) /\
      sets s s' r va (Some (leaf_entry pa fl)) /\ rss s' = rss s
  | Lost => extends s s' /\ (maps_frame (leaf (pm s) r va) expected = false \/ exhausted s)
  end.
Proof.
  unfold cow_break_if_unchanged, cow_break. pose proof (get_or_create_pt_spec s r va fl Hok Hr Hva) as Hg.
  destruct (get_or_create_pt r va fl s) as [[pt|] s1]; destruct Hg as [X Ht]; [|by split; [|right]].
  destruct (write_sets s s1 r va pt 0 X Hr Hva Ht) as [W1 W2].
  rewrite still_maps_view, W2. destruct (maps_frame _ _) eqn:Em; [|by split; [|left]].
  cbv beta iota zeta. exists (store (word pt (pt_idx va)) 0 s1). destruct (leaf_write _ _ r va pt 0 (proj1 X) Hr Hva Ht) as (L1 & L2 & _).
  destruct (write_sets (store (word pt (pt_idx va)) 0 s1) (store (word pt (pt_idx va)) 0 s1) r va pt (leaf_entry pa fl)) as [W3 _].
  - by apply extends_refl.
  - done.
  - done.
  - cbn [pm store]. rewrite L2; [done|done|exact (vpath_app (table_path va) [pt_idx va] Hva)|cbn; lia].
  - rewrite present_leaf_entry in W3. split_and!; [done|done|done|done|by eapply sets_twice|apply X].
Qed.

(** Pages that are not part of a 2 MiB mapping. *)
Definition no_huge (m : Z -> Z) : Prop :=
  forall pd, tab m r [pml4_idx va; pdpt_idx va] = Some pd ->
    is_set (m (word pd (pd_idx va))) PAGE_PRESENT = true -> is_set (m (word pd (pd_idx va))) PAGE_HUGE = false.

Lemma leaf_slot_tab : no_huge (pm s) -> leaf_slot r va (pm s) = (fun pt => word pt (pt_idx va)) <$> tab (pm s) r (table_path va).
Proof.
  intros Hh. unfold leaf_slot, no_huge, table_path in *. cbn in *.
  pose proof (so_small _ _ Hok r [] r (pml4_idx va) Hr (vpath_app [pml4_idx va] [pdpt_idx va; pd_idx va; pt_idx va] Hva) ltac:(cbn; lia) eq_refl) as H4.
  unfold step_of in *. destruct (is_set (pm s (word r (pml4_idx va))) PAGE_PRESENT) eqn:E4; cbn; [|done]. rewrite H4 in * by done. cbn in *.
  set (t1 := pm s (word r (pml4_idx va)) .& ADDR_MASK) in *.
  pose proof (so_small _ _ Hok r [pml4_idx va] t1 (pdpt_idx va) Hr (vpath_app [pml4_idx va; pdpt_idx va] [pd_idx va; pt_idx va] Hva) ltac:(cbn; lia)) as H3.
  cbn in H3. unfold step_of in H3. rewrite E4, H4 in H3 by done. specialize (H3 eq_refl).
  destruct (is_set (pm s (word t1 (pdpt_idx va))) PAGE_PRESENT) eqn:E3; cbn; [|done]. rewrite H3 in * by done. cbn in *.
  set (t2 := pm s (word t1 (pdpt_idx va)) .& ADDR_MASK) in *. specialize (Hh t2 eq_refl).
  destruct (is_set (pm s (word t2 (pd_idx va))) PAGE_PRESENT); cbn; [|done]. by rewrite Hh.
Qed.

Lemma leaf_no_table : no_huge (pm s) -> tab (pm s) r (table_path va) = None -> leaf (pm s) r va = None.
Proof.
  intros Hh Ht. unfold leaf, no_huge in *. change (table_path va) with ([pml4_idx va; pdpt_idx va] ++ [pd_idx va]) in Ht. rewrite tab_snoc in Ht.
  destruct (tab (pm s) r _) as [pd|]; cbn [mbind option_bind] in *; [|done]. unfold leaf_of. rewrite Ht. unfold huge_leaf. specialize (Hh pd eq_refl).
  destruct (is_set _ PAGE_PRESENT); cbn; [|done]. by rewrite Hh.
Qed.

Lemma sets_none_refl : leaf (pm s) r va = None -> sets s s r va None.
Proof.
  intros Hn. split; [done| |done]. intros r' va' Hr' Hva'. destruct (bool_decide_reflect (r' = r /\ vpage va' = vpage va)) as [[-> Hp]|]; [|done].
  apply full_path_vpage in Hp. injection Hp as E1 E2 E3 E4. unfold leaf in *. by rewrite E1, E2, E3, E4.
Qed.

Lemma write_pte_spec pte :
  no_huge (pm s) ->
  let s' := write_pte_impl r va pte s in
  match tab (pm s) r (table_path va) with
  | Some _ => sets s s' r va (present pte) /\ rss s' = account_view r va (leaf (pm s) r va) (present pte) (rss s)
  | None => s' = s /\ leaf (pm s) r va = None
  end.
Proof.
  intros Hh. cbv zeta. unfold write_pte_impl. rewrite leaf_slot_tab by done. pose proof (leaf_no_table Hh) as Hn.
  destruct (tab (pm s) r (table_path va)) as [pt|] eqn:Ht; cbn [fmap option_fmap option_map]; [|by split; [|apply Hn]].
  destruct (write_sets s s r va pt pte (extends_refl s Hok) Hr Hva Ht) as [W1 W2]. split; [by apply sets_account|].
  destruct (account_leaf_pte_spec r va (pm s (word pt (pt_idx va))) pte (store (word pt (pt_idx va)) pte s)) as (_ & _ & ->).
  by rewrite W2.
Qed.

Lemma unmap_spec :
  no_huge (pm s) ->
  let s' := unmap_page_in_at r va s in
  sets s s' r va None /\ rss s' = account_view r va (leaf (pm s) r va) None (rss s).
Proof.
  intros Hh. pose proof (write_pte_spec 0 Hh) as Hw. unfold write_pte_impl in Hw. unfold unmap_page_in_at.
  cbv zeta in *. rewrite leaf_slot_tab in * by done. destruct (tab (pm s) r (table_path va)); cbn [fmap option_fmap option_map] in *; [done|].
  destruct Hw as [_ Hw2]. rewrite Hw2. split; [by apply sets_none_refl|]. unfold account_view. by destruct (negb _).
Qed.

(** The walks of the code read the view. *)
Lemma walk_leaf :
  virt_to_phys_in (pm s) r va = (fun e => (e .& ADDR_MASK) .| (va .& 0xFFF)) <$> leaf (pm s) r va /\
  (no_huge (pm s) -> lookup_pte_in (pm s) r va = leaf (pm s) r va /\ present (read_pte (pm s) r va) = leaf (pm s) r va).
Proof.
  unfold virt_to_phys_in, lookup_pte_in, read_pte, leaf, no_huge, leaf_of. cbn.
  pose proof (so_small _ _ Hok r [] r (pml4_idx va) Hr (vpath_app [pml4_idx va] [pdpt_idx va; pd_idx va; pt_idx va] Hva) ltac:(cbn; lia) eq_refl) as H4.
  unfold step_of in *. destruct (is_set (pm s (word r (pml4_idx va))) PAGE_PRESENT) eqn:E4; cbn; [|done]. rewrite H4 in * by done. cbn in *.
  set (t1 := pm s (word r (pml4_idx va)) .& ADDR_MASK) in *.
  pose proof (so_small _ _ Hok r [pml4_idx va] t1 (pdpt_idx va) Hr (vpath_app [pml4_idx va; pdpt_idx va] [pd_idx va; pt_idx va] Hva) ltac:(cbn; lia)) as H3.
  cbn in H3. unfold step_of in H3. rewrite E4, H4 in H3 by done. specialize (H3 eq_refl).
  destruct (is_set (pm s (word t1 (pdpt_idx va))) PAGE_PRESENT) eqn:E3; cbn; [|done]. rewrite H3 in * by done. cbn in *.
  set (t2 := pm s (word t1 (pdpt_idx va)) .& ADDR_MASK) in *. unfold huge_leaf, present.
  destruct (is_set (pm s (word t2 (pd_idx va))) PAGE_PRESENT) eqn:E2; cbn; [|done].
  destruct (is_set (pm s (word t2 (pd_idx va))) PAGE_HUGE) eqn:Eh; cbn.
  - split; [by rewrite huge_offset|]. intros Hh. specialize (Hh t2 eq_refl E2). congruence.
  - by destruct (is_set (pm s (word (pm s (word t2 (pd_idx va)) .& ADDR_MASK) (pt_idx va))) PAGE_PRESENT).
Qed.
End page.

(** The physical address behind a virtual one, on the leaf. *)
Definition translate (va : Z) (o : option Z) : option Z := (fun e => (e .& ADDR_MASK) .| (va .& 0xFFF)) <$> o.

Lemma translate_sets (s s' : Vmm F) r va o r' va' :
  spaces_ok (pm s) (fr s) -> sets s s' r va o -> R r' -> vpath (full_path va') ->
  virt_to_phys_in (pm s') r' va' =
    if bool_decide (r' = r /\ vpage va' = vpage va) then translate va' o else virt_to_phys_in (pm s) r' va'.
Proof.
  intros Hok Hs Hr' Hva'. destruct (walk_leaf s' r' va' (st_ok _ _ _ _ _ Hs) Hr' Hva') as [-> _].
  destruct (walk_leaf s r' va' Hok Hr' Hva') as [-> _]. rewrite (st_leaf _ _ _ _ _ Hs) by done. by destruct (bool_decide _).
Qed.

Lemma translate_extends (s s' : Vmm F) r' va' :
  spaces_ok (pm s) (fr s) -> extends s s' -> R r' -> vpath (full_path va') ->
  virt_to_phys_in (pm s') r' va' = virt_to_phys_in (pm s) r' va'.
Proof.
  intros Hok (X1 & X2 & _) Hr' Hva'. destruct (walk_leaf s' r' va' X1 Hr' Hva') as [-> _].
  destruct (walk_leaf s r' va' Hok Hr' Hva') as [-> _]. by rewrite X2.
Qed.

Lemma leaf_entry_translate va pa fl : flag_bits fl -> translate va (Some (leaf_entry pa fl)) = Some ((pa .& ADDR_MASK) .| (va .& 0xFFF)).
Proof.
  intros Hf. unfold translate, leaf_entry. cbn. rewrite <- Z.lor_assoc, addr_entry; [done|apply land_ADDR_MASK_bits|by apply flag_bits_lor].
Qed.

(** C9: [map_page_in] refines the update of one translation: on success the page
    translates to the frame asked for, with the flags asked for, and no
    other page of any address space translates differently, whatever tables
    had to be created or 2 MiB pages split on the way; it fails only when
    frames are exhausted, and then no translation changes. *)
Theorem map_page_in_correct (s : Vmm F) r va pa fl :
  spaces_ok (pm s) (fr s) -> R r -> vpath (full_path va) -> flag_bits fl ->
  let '(ok, s') := map_page_in_impl r va pa fl s in
  spaces_ok (pm s') (fr s') /\
  (forall r' va', R r' -> vpath (full_path va') ->
     virt_to_phys_in (pm s') r' va' =
       if ok && bool_decide (r' = r /\ vpage va' = vpage va) then Some ((pa .& ADDR_MASK) .| (va' .& 0xFFF))
       else virt_to_phys_in (pm s) r' va') /\
  (if ok then leaf (pm s') r va = Some (leaf_entry pa fl) else exhausted s).
Proof.
  intros Hok Hr Hva Hf. pose proof (map_spec s r va Hok Hr Hva pa fl) as S. destruct (map_page_in_impl r va pa fl s) as [[] s'].
  - destruct S as [S _]. split_and!; [apply S| |].
    + intros r' va' Hr' Hva'. rewrite (translate_sets s s' r va _ r' va' Hok S Hr' Hva'). cbn [andb]. by rewrite leaf_entry_translate.
    + rewrite (st_leaf _ _ _ _ _ S) by done. by rewrite bool_decide_true.
  - destruct S as [S Hx]. split_and!; [apply S| |done]. intros r' va' Hr' Hva'. by apply translate_extends.
Qed.

(** C31: installs of the fault handler are guarded. A demand-paged frame goes in
    only where nothing is mapped; a copied page only where the frame it was
    copied from is still mapped; a page is made writable in place only by
    its sole owner; and a copy-on-write break takes the old mapping out
    before the flush and puts the new one in after it. A refused install
    changes no translation, and is refused for that reason or for lack of
    frames only. *)
Theorem fault_installs_guarded (s : Vmm F) r va pa fl expected (share : F -> Z -> Z) (shootdown_page : Vmm F -> bool) :
  spaces_ok (pm s) (fr s) -> R r -> vpath (full_path va) ->
  (let '(ok, s') := map_page_in_if_absent r va pa fl s in
   if ok then leaf (pm s) r va = None /\ sets s s' r va (Some (leaf_entry pa fl))
   else same_leaves s s' /\ (leaf (pm s) r va <> None \/ exhausted s)) /\
  (let '(ok, s') := map_page_in_cow_if_unchanged r va pa fl expected s in
   if ok then maps_frame (leaf (pm s) r va) expected = true /\ sets s s' r va (Some (leaf_entry pa fl))
   else same_leaves s s' /\ (maps_frame (leaf (pm s) r va) expected = false \/ exhausted s)) /\
  (let '(ok, s') := flip_writable_if_sole_owner share r va expected fl s in
   if ok then maps_frame (leaf (pm s) r va) expected = true /\ share (fr s') expected <= 1 /\ sets s s' r va (Some (leaf_entry expected fl))
   else same_leaves s s' /\ (maps_frame (leaf (pm s) r va) expected = false \/ 1 < share (fr s') expected \/ exhausted s)) /\
  (let '(res, s') := cow_break_if_unchanged shootdown_page r va pa fl expected s in
   match res with
   | Installed acked => maps_frame (leaf (pm s) r va) expected = true /\
       exists mid, sets s mid r va None /\ acked = shootdown_page mid /\ sets mid s' r va (Some (leaf_entry pa fl))
   | Lost => same_leaves s s' /\ (maps_frame (leaf (pm s) r va) expected = false \/ exhausted s)
   end).
Proof.
  intros Hok Hr Hva. split_and!.
  - pose proof (map_if_absent_spec s r va Hok Hr Hva pa fl) as S. destruct (map_page_in_if_absent _ _ _ _ _) as [[] s']; [tauto|].
    split; [apply S|tauto].
  - pose proof (map_cow_spec s r va Hok Hr Hva pa fl expected) as S. destruct (map_page_in_cow_if_unchanged _ _ _ _ _ _) as [[] s']; [tauto|].
    split; [apply S|tauto].
  - pose proof (flip_spec s r va Hok Hr Hva share fl expected) as S. destruct (flip_writable_if_sole_owner _ _ _ _ _ _) as [[] s']; [tauto|].
    split; [apply S|tauto].
  - pose proof (cow_break_spec s r va Hok Hr Hva shootdown_page pa fl expected) as S.
    destruct (cow_break_if_unchanged _ _ _ _ _ _ _) as [[] s']; [|split; [apply S|tauto]].
    destruct S as (mid & S1 & S2 & S3 & S4 & _). split; [done|]. by exists mid.
Qed.

(** [unmap_page_in] and [write_pte] on a page that is not part of a 2 MiB
    page: the page, and only it, translates to nothing, or to what the
    entry written says if its page table exists. *)
Theorem unmap_write_correct (s : Vmm F) r va pte :
  spaces_ok (pm s) (fr s) -> R r -> vpath (full_path va) -> no_huge r va (pm s) ->
  let su := unmap_page_in_at r va s in
  let sw := write_pte_impl r va pte s in
  let has_table := bool_decide (tab (pm s) r (table_path va) <> None) in
  spaces_ok (pm su) (fr su) /\ spaces_ok (pm sw) (fr sw) /\
  (forall r' va', R r' -> vpath (full_path va') ->
     virt_to_phys_in (pm su) r' va' =
       (if bool_decide (r' = r /\ vpage va' = vpage va) then None else virt_to_phys_in (pm s) r' va') /\
     virt_to_phys_in (pm sw) r' va' =
       (if has_table && bool_decide (r' = r /\ vpage va' = vpage va) then translate va' (present pte) else virt_to_phys_in (pm s) r' va')).
Proof.
  intros Hok Hr Hva Hn su sw. destruct (unmap_spec s r va Hok Hr Hva Hn) as [U _]. fold su in U.
  pose proof (write_pte_spec s r va Hok Hr Hva pte Hn) as W. cbn zeta in W. fold sw in W.
  destruct (tab (pm s) r (table_path va)) as [pt|].
  - rewrite bool_decide_true by done. cbn [andb]. destruct W as [W _]. split_and!; [apply U|apply W|]. intros r' va' Hr' Hva'.
    split; [by rewrite (translate_sets s su r va None)|by apply translate_sets].
  - rewrite bool_decide_false by (intros []; done). destruct W as [W _]. rewrite W. split_and!; [apply U|done|]. intros r' va' Hr' Hva'.
    split; [by rewrite (translate_sets s su r va None)|done].
Qed.
End spaces.

(* ------------------------------------------------------------------ *)
(** ** Larger pages *)

(** A source that pops frames off a list. *)
Definition list_source : FrameSource (list Z) :=
  {| fs_alloc := fun l => match l with [] => (None, []) | p :: l => (Some p, l) end;
     fs_ok := fun _ => True; fs_owned := fun _ _ => True |}.

(** A root at 0x2000 whose first entries lead to the entry [e] of level [n]. *)
Definition demo_root (pdpte pde : Z) (x : Z) : Z :=
  poke (word 0x4000 0) pde (poke (word 0x3000 0) pdpte (poke (word 0x2000 0) (0x3000 .| PAGE_PRESENT) (fun _ => 7))) x.

(** Unmapping a page that lies in a 2 MiB page clears a word of the mapped
    data and leaves the page mapped. *)
Lemma unmap_in_huge_page :
  let m := demo_root (0x4000 .| PAGE_PRESENT) (0x200000 .| PAGE_PRESENT .| PAGE_HUGE) in
  let s' := unmap_page_in_at 0x2000 0x5000 (mkVmm m tt rss_static) in
  m 0x200028 = 7 /\ pm s' 0x200028 = 0 /\ virt_to_phys_in (pm s') 0x2000 0x5000 = Some 0x205000.
Proof. vm_compute. done. Qed.

(** Mapping a page that lies in a 1 GiB page changes the translation of the
    rest of it: the entry is split as a 2 MiB one. *)
Lemma map_in_gib_page :
  let m := demo_root (0x40000000 .| PAGE_PRESENT .| PAGE_HUGE) 0 in
  let '(ok, s') := @map_page_in_impl _ list_source 0x2000 0x1000 0x9000 PAGE_WRITABLE (mkVmm m [0x6000; 0x7000; 0x8000] rss_static) in
  ok = true /\ virt_to_phys_in m 0x2000 0x200000 = Some 0x40200000 /\ virt_to_phys_in (pm s') 0x2000 0x200000 <> Some 0x40200000.
Proof. vm_compute. done. Qed.
