(* ===== verification/Resident.v ===== *)
(** * The resident set against the page tables (kernel/src/mm/rss.rs)

    [walk_resident_pages] counts the pages a process has present by walking
    its tables; the counters of [Rss] are kept beside each write of a leaf
    entry instead. The theorem shows that the two agree in every state that
    the operations of [vm_step] lead to: those of mm/vmm.rs on user pages,
    entry writes and unmappings inside a 2 MiB page and identity mappings
    left out. *)

From S2P Require Import Prelude Vma Rss PageTable.

(** [for i in 0..n], adding up. *)
Fixpoint zsum (f : Z -> Z) (n : nat) : Z :=
  match n with O => 0 | S n => zsum f n + f (Z.of_nat n) end.

Definition pt_resident (m : Z -> Z) (pt va_2m : Z) : Z :=
  zsum (fun pt_idx =>
    let pte := m (word pt pt_idx) in
    if negb (is_set pte PAGE_PRESENT) then 0
    else
      let va := va_2m .| (pt_idx .<< 12) in
      if negb (is_identity_map_phys va (pte .& ADDR_MASK)) then 1 else 0) 512.

Definition pd_resident (m : Z -> Z) (pd va_1g : Z) : Z :=
  zsum (fun pd_idx =>
    let pde := m (word pd pd_idx) in
    if negb (is_set pde PAGE_PRESENT) then 0
    else
      let va_2m := va_1g .| (pd_idx .<< 21) in
      if is_set pde PAGE_HUGE then
        let phys_2m := pde .& HUGE_MASK in
        if negb (is_identity_map_phys va_2m phys_2m) then 512 else 0
      else pt_resident m (pde .& ADDR_MASK) va_2m) 512.

Definition pdpt_resident (m : Z -> Z) (pdpt pml4_idx : Z) : Z :=
  zsum (fun pdpt_idx =>
    let pdpte := m (word pdpt pdpt_idx) in
    if negb (is_set pdpte PAGE_PRESENT) then 0
    else
      let va_1g := (pml4_idx .<< 39) .| (pdpt_idx .<< 30) in
      if is_set pdpte PAGE_HUGE then
        let phys_1g := pdpte .& notw 64 0x3FFFFFFF in
        if negb (is_identity_map_phys va_1g phys_1g) then 512 * 512 else 0
      else pd_resident m (pdpte .& ADDR_MASK) va_1g) 512.

Definition walk_resident_pages (m : Z -> Z) (cr3 : Z) : Z :=
  if cr3 =? 0 then 0
  else
    zsum (fun pml4_idx =>
      let pml4e := m (word cr3 pml4_idx) in
      if negb (is_set pml4e PAGE_PRESENT) then 0
      else pdpt_resident m (pml4e .& ADDR_MASK) pml4_idx) 256.

(* ------------------------------------------------------------------ *)
(** ** Sums *)

Lemma zsum_ext f g n : (forall i, 0 <= i < Z.of_nat n -> f i = g i) -> zsum f n = zsum g n.
Proof. induction n as [|n IH]; intros He; cbn; [done|]. rewrite IH, He by (intros; try apply He; lia). done. Qed.

Lemma zsum_zero f n : (forall i, 0 <= i < Z.of_nat n -> f i = 0) -> zsum f n = 0.
Proof. induction n as [|n IH]; intros He; cbn; [done|]. rewrite IH, He by (intros; try apply He; lia). done. Qed.

Lemma zsum_const c n : zsum (fun _ => c) n = c * Z.of_nat n.
Proof. induction n as [|n IH]; cbn; lia. Qed.

Lemma zsum_bound f n b : (forall i, 0 <= i < Z.of_nat n -> 0 <= f i <= b) -> 0 <= zsum f n <= b * Z.of_nat n.
Proof.
  induction n as [|n IH]; intros He; cbn; [lia|]. specialize (IH ltac:(intros; apply He; lia)). specialize (He (Z.of_nat n) ltac:(lia)). lia.
Qed.

(** Two summands that differ at one index. *)
Lemma zsum_update f g n k d :
  0 <= k < Z.of_nat n -> (forall i, 0 <= i < Z.of_nat n -> f i = g i + (if i =? k then d else 0)) -> zsum f n = zsum g n + d.
Proof.
  induction n as [|n IH]; intros Hk He; cbn; [lia|]. rewrite (He (Z.of_nat n)) by lia.
  destruct (Z.eqb_spec (Z.of_nat n) k) as [<-|Hne].
  - rewrite (zsum_ext f g n); [lia|]. intros i Hi. rewrite He by lia. rewrite (proj2 (Z.eqb_neq _ _)) by lia. lia.
  - rewrite IH; [lia|lia|]. intros i Hi. apply He. lia.
Qed.

(** The pages of the lower half, level by level. *)
Definition sum4 (g : Z -> Z -> Z -> Z -> Z) : Z :=
  zsum (fun a => zsum (fun b => zsum (fun c => zsum (fun d => g a b c d) 512) 512) 512) 256.

Lemma sum4_bound g : (forall a b c d, 0 <= g a b c d <= 1) -> 0 <= sum4 g <= 2 ^ 35.
Proof.
  intros Hg. change (2 ^ 35) with (2 ^ 27 * Z.of_nat 256). apply zsum_bound. intros a _.
  change (2 ^ 27) with (2 ^ 18 * Z.of_nat 512). apply zsum_bound. intros b _.
  change (2 ^ 18) with (2 ^ 9 * Z.of_nat 512). apply zsum_bound. intros c _.
  change (2 ^ 9) with (1 * Z.of_nat 512). apply zsum_bound. intros d _. apply Hg.
Qed.

Lemma sum4_update f g A B C D dlt :
  0 <= A < 256 -> 0 <= B < 512 -> 0 <= C < 512 -> 0 <= D < 512 ->
  (forall a b c d, 0 <= a < 256 -> 0 <= b < 512 -> 0 <= c < 512 -> 0 <= d < 512 ->
     f a b c d = g a b c d + (if bool_decide ([a; b; c; d] = [A; B; C; D]) then dlt else 0)) ->
  sum4 f = sum4 g + dlt.
Proof.
  intros HA HB HC HD Hf. apply zsum_update with A; [lia|]. intros a Ha. cbn beta.
  destruct (Z.eqb_spec a A) as [->|Hne].
  2:{ rewrite Z.add_0_r. do 3 (apply zsum_ext; intros ? ?). rewrite Hf by lia. rewrite bool_decide_false by congruence. lia. }
  apply zsum_update with B; [lia|]. intros b Hb. cbn beta. destruct (Z.eqb_spec b B) as [->|Hne].
  2:{ rewrite Z.add_0_r. do 2 (apply zsum_ext; intros ? ?). rewrite Hf by lia. rewrite bool_decide_false by congruence. lia. }
  apply zsum_update with C; [lia|]. intros c Hc. cbn beta. destruct (Z.eqb_spec c C) as [->|Hne].
  2:{ rewrite Z.add_0_r. apply zsum_ext; intros ? ?. rewrite Hf by lia. rewrite bool_decide_false by congruence. lia. }
  apply zsum_update with D; [lia|]. intros d Hd. cbn beta. rewrite Hf by lia. f_equal.
  destruct (Z.eqb_spec d D) as [->|Hne]; [by rewrite bool_decide_true|by rewrite bool_decide_false by congruence].
Qed.

Definition va_of (a b c d : Z) : Z := (((a * 512 + b) * 512 + c) * 512 + d) * 4096.

Definition in_table (i : Z) : Prop := 0 <= i < 512.

Lemma va_of_idx a b c d :
  in_table a -> in_table b -> in_table c -> in_table d -> full_path (va_of a b c d) = [a; b; c; d].
Proof.
  unfold in_table. intros Ha Hb Hc Hd. pose proof (vpage_idx (va_of a b c d)) as Hv. pose proof (path_range (va_of a b c d)) as Hr.
  unfold full_path in Hr. repeat match goal with H : Forall _ (_ :: _) |- _ => apply Forall_cons_iff in H as [? ?] end.
  assert (vpage (va_of a b c d) = ((a * 512 + b) * 512 + c) * 512 + d) as E.
  { unfold vpage, va_of. rewrite Z.mod_small by lia. by apply Z.div_mul. }
  rewrite E in Hv. unfold full_path.
  assert (pt_idx (va_of a b c d) = d /\ pd_idx (va_of a b c d) = c /\ pdpt_idx (va_of a b c d) = b /\ pml4_idx (va_of a b c d) = a)
    as (-> & -> & -> & ->) by lia. done.
Qed.

Lemma va_of_lor a b c d :
  in_table a -> in_table b -> in_table c -> in_table d ->
  (((a .<< 39) .| (b .<< 30)) .| (c .<< 21)) .| (d .<< 12) = va_of a b c d.
Proof.
  unfold in_table, va_of. intros Ha Hb Hc Hd. rewrite !Z.shiftl_mul_pow2 by lia.
  rewrite (lor_add_low (a * 2 ^ 39) (b * 2 ^ 30) 39); [|lia|by apply Z.mod_mul; lia|lia].
  rewrite (lor_add_low _ (c * 2 ^ 21) 30); [|lia| |lia].
  2:{ replace (a * 2 ^ 39 + b * 2 ^ 30) with ((a * 512 + b) * 2 ^ 30) by lia. apply Z.mod_mul. lia. }
  rewrite (lor_add_low _ (d * 2 ^ 12) 21); [lia|lia| |lia].
  replace (a * 2 ^ 39 + b * 2 ^ 30 + c * 2 ^ 21) with (((a * 512 + b) * 512 + c) * 2 ^ 21) by lia. apply Z.mod_mul. lia.
Qed.

(** One page of the resident set. *)
Definition res (va : Z) (o : option Z) : Z :=
  match o with Some e => if is_identity_map_phys va (e .& ADDR_MASK) then 0 else 1 | None => 0 end.

Lemma res_range va o : 0 <= res va o <= 1.
Proof. unfold res. destruct o; [|lia]. destruct (is_identity_map_phys _ _); lia. Qed.

(* ------------------------------------------------------------------ *)
(** ** The walk is the sum over the leaves *)

Lemma pt_resident_sum m pt va_2m g :
  (forall i, in_table i -> va_2m .| (i .<< 12) = g i) ->
  pt_resident m pt va_2m = zsum (fun i => res (g i) (present (m (word pt i)))) 512.
Proof.
  intros Hg. apply zsum_ext. intros i Hi. cbn zeta. unfold present, res. rewrite Hg by (unfold in_table; lia).
  destruct (is_set _ _); cbn; [|done]. by destruct (is_identity_map_phys _ _).
Qed.

Lemma identity_2m (base va i : Z) :
  in_table i -> va mod 2 ^ 21 = 0 -> is_identity_map_phys (va + i * 4096) (base + i * 4096) = is_identity_map_phys va base.
Proof.
  unfold in_table. intros Hi Hv. pose proof (Z.div_mod va (2 ^ 21) ltac:(lia)) as Hd. rewrite Hv in Hd. unfold is_identity_map_phys. f_equal.
  - apply Bool.eq_iff_eq_true. rewrite !Z.ltb_lt. unfold IDENTITY_WINDOW_TOP. change (2 ^ 21) with 2097152 in *. lia.
  - apply Bool.eq_iff_eq_true. rewrite !Z.eqb_eq. lia.
Qed.

Lemma pde_resident_sum m e va_2m :
  va_2m mod 2 ^ 21 = 0 ->
  (if negb (is_set e PAGE_PRESENT) then 0
   else if is_set e PAGE_HUGE then if negb (is_identity_map_phys va_2m (e .& HUGE_MASK)) then 512 else 0
   else pt_resident m (e .& ADDR_MASK) va_2m)
  = zsum (fun i => res (va_2m + i * 4096) (leaf_of m e i)) 512.
Proof.
  intros Hv. unfold leaf_of, step_of, huge_leaf. destruct (is_set e PAGE_PRESENT); cbn [negb andb]; [|by rewrite zsum_zero].
  destruct (is_set e PAGE_HUGE); cbn [negb andb].
  - rewrite (zsum_ext _ (fun _ => if is_identity_map_phys va_2m (e .& HUGE_MASK) then 0 else 1)).
    + rewrite zsum_const. by destruct (is_identity_map_phys _ _).
    + intros i Hi. unfold res. rewrite split_entry_addr, identity_2m by (unfold in_table; lia || done). done.
  - apply pt_resident_sum. intros i Hi. unfold in_table in Hi. rewrite Z.shiftl_mul_pow2 by lia.
    by rewrite (lor_add_low _ _ 21) by lia.
Qed.

Definition user_half (i : Z) : bool := i <? 256.

Section walk.
Context {F : Type} `{FrameSourceLaws F} (R : Z -> Prop).
Implicit Types (m : Z -> Z) (f : F) (r : Z).

Lemma pd_resident_sum m pd a b :
  in_table a -> in_table b ->
  pd_resident m pd ((a .<< 39) .| (b .<< 30)) =
  zsum (fun c => zsum (fun d => res (va_of a b c d) (leaf_of m (m (word pd c)) d)) 512) 512.
Proof.
  intros Ha Hb. apply zsum_ext. intros c Hc. cbn zeta.
  assert (((a .<< 39) .| (b .<< 30)) .| (c .<< 21) = va_of a b c 0) as Hv.
  { rewrite <- va_of_lor by (unfold in_table in *; lia). by rewrite Z.shiftl_0_l, Z.lor_0_r. }
  rewrite Hv, pde_resident_sum.
  - apply zsum_ext. intros d Hd. f_equal. unfold va_of. lia.
  - unfold va_of. replace ((((a * 512 + b) * 512 + c) * 512 + 0) * 4096) with (((a * 512 + b) * 512 + c) * 2 ^ 21) by lia.
    apply Z.mod_mul. lia.
Qed.

Lemma leaf_va_of m r a b c d :
  in_table a -> in_table b -> in_table c -> in_table d ->
  leaf m r (va_of a b c d) = pd ← tab m r [a; b]; leaf_of m (m (word pd c)) d.
Proof. intros Ha Hb Hc Hd. pose proof (va_of_idx a b c d Ha Hb Hc Hd) as E. unfold full_path in E. injection E as Ea Eb Ec Ed. unfold leaf. by rewrite Ea, Eb, Ec, Ed. Qed.

Definition leaf_sum m r : Z := sum4 (fun a b c d => res (va_of a b c d) (leaf m r (va_of a b c d))).

Lemma walk_leaf_sum m f r :
  spaces_ok R user_half m f -> R r -> r <> 0 -> walk_resident_pages m r = leaf_sum m r.
Proof.
  intros Hok Hr Hz. unfold walk_resident_pages, leaf_sum, sum4. rewrite (proj2 (Z.eqb_neq _ _)) by done.
  apply zsum_ext. intros a Ha. cbn zeta.
  assert (vpath user_half [a]) as Va by (split; [cbn; repeat (apply Forall_cons_iff; split; [lia|]); constructor|unfold user_half; cbn; lia]).
  pose proof (so_small _ _ _ _ Hok r [] r a Hr Va ltac:(cbn; lia) eq_refl) as Sa.
  destruct (is_set (m (word r a)) PAGE_PRESENT) eqn:Pa; cbn [negb].
  - assert (tab m r [a] = Some (m (word r a) .& ADDR_MASK)) as Ta by (cbn; unfold step_of; by rewrite Pa, Sa).
    apply zsum_ext. intros b Hb. cbn zeta.
    assert (vpath user_half ([a] ++ [b])) as Vb by (split; [cbn; repeat (apply Forall_cons_iff; split; [lia|]); constructor|unfold user_half; cbn; lia]).
    pose proof (so_small _ _ _ _ Hok r [a] _ b Hr Vb ltac:(cbn; lia) Ta) as Sb.
    set (e := m (word (m (word r a) .& ADDR_MASK) b)) in *.
    destruct (is_set e PAGE_PRESENT) eqn:Pb; cbn [negb].
    + rewrite Sb by done. rewrite pd_resident_sum by (unfold in_table; lia).
      apply zsum_ext. intros c Hc. apply zsum_ext. intros d Hd. rewrite leaf_va_of by (unfold in_table; lia).
      change [a; b] with ([a] ++ [b]). rewrite tab_app, Ta. cbn [mbind option_bind tab]. fold e. unfold step_of. by rewrite Pb, Sb.
    + symmetry. apply zsum_zero. intros c Hc. apply zsum_zero. intros d Hd. rewrite leaf_va_of by (unfold in_table; lia).
      change [a; b] with ([a] ++ [b]). rewrite tab_app, Ta. cbn [mbind option_bind tab]. fold e. unfold step_of. by rewrite Pb.
  - symmetry. apply zsum_zero. intros b Hb. apply zsum_zero. intros c Hc. apply zsum_zero. intros d Hd.
    rewrite leaf_va_of by (unfold in_table; lia). cbn [tab]. unfold step_of. by rewrite Pa.
Qed.

Lemma leaf_sum_bound m r : 0 <= leaf_sum m r <= 2 ^ 35.
Proof. apply sum4_bound. intros. apply res_range. Qed.

(* ------------------------------------------------------------------ *)
(** ** The counters follow the tables *)

(** The address of a page of the lower half. *)
Definition user_page (va : Z) : Prop := 0 <= va < 2 ^ 47 /\ va mod 4096 = 0.

Lemma user_page_va_of va :
  user_page va -> va = va_of (pml4_idx va) (pdpt_idx va) (pd_idx va) (pt_idx va) /\ 0 <= pml4_idx va < 256.
Proof.
  intros [Hr Hm]. pose proof (vpage_idx va) as Hv. unfold vpage in Hv. rewrite Z.mod_small in Hv by lia.
  pose proof (Z.div_mod va 4096 ltac:(lia)) as Hd. rewrite Hm in Hd. pose proof (path_range va) as Hp. unfold full_path in Hp.
  repeat match goal with H : Forall _ (_ :: _) |- _ => apply Forall_cons_iff in H as [? ?] end. unfold va_of. lia.
Qed.

Lemma user_page_path va : user_page va -> vpath user_half (full_path va) /\ is_user_va va = true.
Proof.
  intros Hu. destruct (user_page_va_of va Hu) as [_ Hi]. split.
  - split; [apply path_range|]. unfold full_path, user_half. lia.
  - unfold is_user_va. destruct Hu. lia.
Qed.

Lemma leaf_sum_sets s s' r va o r' :
  sets R user_half s s' r va o -> R r' -> user_page va ->
  leaf_sum (pm s') r' = leaf_sum (pm s) r' + (if bool_decide (r' = r) then res va o - res va (leaf (pm s) r va) else 0).
Proof.
  intros Hs Hr' Hu. destruct (user_page_va_of va Hu) as [Ev H4]. destruct (user_page_path va Hu) as [Vp _].
  pose proof (path_range va) as Hp. unfold full_path in Hp.
  repeat match goal with H : Forall _ (_ :: _) |- _ => apply Forall_cons_iff in H as [? ?] end.
  apply (sum4_update _ _ (pml4_idx va) (pdpt_idx va) (pd_idx va) (pt_idx va)); try done.
  intros a b c d Ha Hb Hc Hd. pose proof (va_of_idx a b c d ltac:(unfold in_table; lia) ltac:(unfold in_table; lia) ltac:(unfold in_table; lia) ltac:(unfold in_table; lia)) as Ei.
  rewrite (st_leaf _ _ _ _ _ _ _ Hs r' (va_of a b c d)); [|done|].
  2:{ rewrite Ei. split; [repeat (apply Forall_cons_iff; split; [lia|]); constructor|unfold user_half; lia]. }
  fold (full_path va). rewrite <- Ei. destruct (bool_decide_reflect (full_path (va_of a b c d) = full_path va)) as [E|E].
  - assert (va_of a b c d = va) as -> by (rewrite E in Ei; unfold full_path in Ei; injection Ei as <- <- <- <-; done).
    destruct (bool_decide_reflect (r' = r)) as [->|]; [rewrite bool_decide_true by done; lia|].
    rewrite bool_decide_false by naive_solver. lia.
  - rewrite bool_decide_false; [lia|]. intros [_ Hvp]. by apply E, full_path_vpage.
Qed.
End walk.

Section counts.
Context {F : Type} `{FrameSourceLaws F} (R : Z -> Prop).
Implicit Types (s : Vmm F) (r va : Z).

(** A leaf that a process teardown would give back. *)
Definition foreign (va : Z) (o : option Z) : Prop :=
  forall e, o = Some e -> is_identity_map_phys va (e .& ADDR_MASK) = false.

(** Every tracked space's counter is what a walk of its tables finds. *)
Record resident_ok s : Prop := {
  rk_spaces : spaces_ok R user_half (pm s) (fr s);
  rk_rss : rss_ok (rss s);
  rk_count r n : R r -> counter (rss s) r = Some n -> n = walk_resident_pages (pm s) r;
  rk_foreign r va : R r -> user_page va -> foreign va (leaf (pm s) r va);
  rk_tracked r n : real_key r -> counter (rss s) r = Some n -> R r }.

Lemma root_key s r : spaces_ok R user_half (pm s) (fr s) -> R r -> real_key r /\ r <> 0.
Proof.
  intros Hok Hr. destruct (so_tab _ _ _ _ Hok r [] r Hr) as [[Hp _] _]; [by split|cbn; lia|done|].
  unfold real_key, KEY_CLAIMING, U64_MAX. lia.
Qed.

Lemma foreign_res va o : foreign va o -> res va o = match o with Some _ => 1 | None => 0 end.
Proof. intros Hf. unfold res. destruct o as [e|]; [|done]. by rewrite Hf. Qed.

Definition leaf_delta (o n : option Z) : Z :=
  match o, n with None, Some _ => 1 | Some _, None => -1 | _, _ => 0 end.

Lemma account_foreign r va o n t :
  is_user_va va = true -> foreign va o -> foreign va n -> account_view r va o n t = account r (leaf_delta o n) t.
Proof.
  intros Hu Ho Hn. unfold account_view. rewrite Hu. cbn [negb].
  destruct o as [e|], n as [e'|]; cbn; rewrite ?(Ho _ eq_refl), ?(Hn _ eq_refl); try done; unfold account; by rewrite orb_true_r.
Qed.

(** One leaf changes and is accounted for. *)
Lemma resident_change s s' r va o :
  resident_ok s -> R r -> user_page va -> foreign va o ->
  sets R user_half s s' r va o -> rss s' = account_view r va (leaf (pm s) r va) o (rss s) ->
  resident_ok s' /\ RSS_UNDERFLOWS (rss s') = RSS_UNDERFLOWS (rss s).
Proof.
  intros Hk Hr Hu Ho Hs Hrss. pose proof (rk_spaces _ Hk) as Hsp. pose proof (st_ok _ _ _ _ _ _ _ Hs) as Hsp'.
  destruct (user_page_path va Hu) as [Vp Uv]. pose proof (rk_foreign _ Hk r va Hr Hu) as Hl.
  rewrite (account_foreign r va _ o _ Uv Hl Ho) in Hrss.
  assert (forall r', R r' -> walk_resident_pages (pm s') r' = walk_resident_pages (pm s) r' +
            (if bool_decide (r' = r) then leaf_delta (leaf (pm s) r va) o else 0)) as Hw.
  { intros r' Hr'. destruct (root_key _ _ Hsp Hr') as [_ Hz]. rewrite (walk_leaf_sum R (pm s') (fr s')), (walk_leaf_sum R (pm s) (fr s)) by done.
    rewrite (leaf_sum_sets R s s' r va o) by done. rewrite !foreign_res by done. destruct (bool_decide _); [|lia].
    unfold leaf_delta. destruct (leaf (pm s) r va), o; lia. }
  destruct (root_key _ _ Hsp Hr) as [Kr _].
  assert (forall n, counter (rss s) r = Some n -> 0 <= n + leaf_delta (leaf (pm s) r va) o < 2 ^ 63) as Hb.
  { intros n Hn. rewrite (rk_count _ Hk r n Hr Hn). specialize (Hw r Hr). rewrite bool_decide_true in Hw by done. rewrite <- Hw.
    destruct (root_key _ _ Hsp Hr) as [_ Hz]. rewrite (walk_leaf_sum R (pm s') (fr s')) by done. pose proof (leaf_sum_bound (pm s') r). lia. }
  destruct (account_spec (rss s) r (leaf_delta (leaf (pm s) r va) o) (rk_rss _ Hk) Kr) as [A1 A2]; [intros n Hn; specialize (Hb n Hn); lia|].
  rewrite <- Hrss in A1, A2. split; [|rewrite Hrss; by apply account_no_underflow]. split; [done|done| | |].
  - intros r' n Hr' Hn. rewrite A2 in Hn by (by apply (root_key _ _ Hsp)). rewrite Hw by done. destruct (bool_decide_reflect (r' = r)) as [->|].
    + destruct (counter (rss s) r) as [n0|] eqn:E; [|done]. injection Hn as <-. by rewrite (rk_count _ Hk r n0 Hr E).
    + rewrite (rk_count _ Hk r' n Hr' Hn). lia.
  - intros r' va' Hr' Hu'. destruct (user_page_path va' Hu') as [Vp' _]. rewrite (st_leaf _ _ _ _ _ _ _ Hs) by done.
    destruct (bool_decide_reflect (r' = r /\ vpage va' = vpage va)) as [[_ E]|]; [|by apply (rk_foreign _ Hk)].
    assert (va' = va) as ->; [|done]. apply full_path_vpage in E. destruct (user_page_va_of va Hu) as [-> _], (user_page_va_of va' Hu') as [-> _].
    unfold full_path in E. by injection E as -> -> -> ->.
  - intros r' n Kr' Hn. rewrite A2 in Hn by done. destruct (counter (rss s) r') as [n0|] eqn:E; [by apply (rk_tracked _ Hk r' n0)|].
    by destruct (bool_decide _).
Qed.

Lemma resident_extends s s' :
  resident_ok s -> extends R user_half s s' -> resident_ok s' /\ RSS_UNDERFLOWS (rss s') = RSS_UNDERFLOWS (rss s).
Proof.
  intros Hk (X1 & X2 & X3 & _). rewrite X3. split; [|done]. split; [done|rewrite X3; apply Hk| | |].
  - intros r n Hr. rewrite X3. intros Hn. rewrite (rk_count _ Hk r n Hr Hn). destruct (root_key _ _ X1 Hr) as [_ Hz].
    rewrite (walk_leaf_sum R (pm s') (fr s')), (walk_leaf_sum R (pm s) (fr s)) by (done || apply Hk). unfold leaf_sum, sum4.
    apply zsum_ext. intros a Ha. do 3 (apply zsum_ext; intros ? ?). rewrite X2; [done|done|].
    rewrite va_of_idx by (unfold in_table; lia). split; [repeat (apply Forall_cons_iff; split; [lia|]); constructor|unfold user_half; lia].
  - intros r va Hr Hu. rewrite X2; [by apply (rk_foreign _ Hk)|done|by apply user_page_path].
  - intros r n. rewrite X3. apply Hk.
Qed.

Lemma leaf_entry_addr pa fl : flag_bits fl -> leaf_entry pa fl .& ADDR_MASK = pa .& ADDR_MASK.
Proof.
  intros Hf. unfold leaf_entry. rewrite <- Z.lor_assoc. apply addr_entry; [apply land_ADDR_MASK_bits|]. by apply flag_bits_lor.
Qed.

Lemma foreign_leaf_entry va pa fl :
  flag_bits fl -> is_identity_map_phys va (pa .& ADDR_MASK) = false -> foreign va (Some (leaf_entry pa fl)).
Proof. intros Hf Hi e [= <-]. by rewrite leaf_entry_addr. Qed.

Definition with_rss s (t : Rss) : Vmm F := mkVmm (pm s) (fr s) t.

(** The operations on the tables of the lower half, and those on the
    counters' table. A space is attached while it maps nothing. *)
Inductive vm_step s : Vmm F -> Prop :=
| VmMap r va pa fl : R r -> user_page va -> flag_bits fl -> is_identity_map_phys va (pa .& ADDR_MASK) = false ->
    vm_step s (snd (map_page_in_impl r va pa fl s))
| VmMapIfAbsent r va pa fl : R r -> user_page va -> flag_bits fl -> is_identity_map_phys va (pa .& ADDR_MASK) = false ->
    vm_step s (snd (map_page_in_if_absent r va pa fl s))
| VmCow r va pa fl expected : R r -> user_page va -> flag_bits fl -> is_identity_map_phys va (pa .& ADDR_MASK) = false ->
    vm_step s (snd (map_page_in_cow_if_unchanged r va pa fl expected s))
| VmCowBreak sd r va pa fl expected : R r -> user_page va -> flag_bits fl -> is_identity_map_phys va (pa .& ADDR_MASK) = false ->
    vm_step s (snd (cow_break_if_unchanged sd r va pa fl expected s))
| VmFlip share r va fl expected : R r -> user_page va -> flag_bits fl ->
    vm_step s (snd (flip_writable_if_sole_owner share r va expected fl s))
| VmWrite r va pte : R r -> user_page va -> no_huge r va (pm s) -> foreign va (present pte) ->
    vm_step s (write_pte_impl r va pte s)
| VmUnmap r va : R r -> user_page va -> no_huge r va (pm s) -> vm_step s (unmap_page_in_at r va s)
| VmAttach r : R r -> (forall va, user_page va -> leaf (pm s) r va = None) -> vm_step s (with_rss s (snd (attach r (rss s))))
| VmDetach r : R r -> vm_step s (with_rss s (detach r (rss s))).

Definition count_kept s s' : Prop := resident_ok s' /\ RSS_UNDERFLOWS (rss s') = RSS_UNDERFLOWS (rss s).

Lemma leaf_sum_empty (m : Z -> Z) r : (forall va, user_page va -> leaf m r va = None) -> leaf_sum m r = 0.
Proof.
  intros He. apply zsum_zero. intros a Ha. do 3 (apply zsum_zero; intros ? ?). rewrite He; [done|].
  unfold user_page, va_of. split; [lia|]. apply Z.mod_mul. lia.
Qed.

Lemma resident_attach s r :
  resident_ok s -> R r -> (forall va, user_page va -> leaf (pm s) r va = None) -> count_kept s (with_rss s (snd (attach r (rss s)))).
Proof.
  intros Hk Hr He. destruct (root_key _ _ (rk_spaces _ Hk) Hr) as [Kr Hz].
  destruct (attach_spec (rss s) r (rk_rss _ Hk) Kr) as (A1 & _ & A3). split; [|apply attach_underflows].
  split; cbn [with_rss pm fr rss]; [apply Hk|done| |apply Hk|].
  2:{ intros r' n Kr'. rewrite A3 by done. destruct (_ && bool_decide _) eqn:E; [|by apply Hk].
      apply andb_true_iff in E as [_ E]. by apply bool_decide_eq_true in E as ->. }
  intros r' n Hr'. rewrite A3 by (by apply (root_key _ _ (rk_spaces _ Hk))).
  destruct (fst (attach r (rss s))); cbn [andb]; [|by apply Hk]. destruct (bool_decide_reflect (r' = r)) as [->|]; [|by apply Hk].
  intros [= <-]. destruct (counter (rss s) r) as [n|] eqn:E; cbn; [by apply Hk|].
  rewrite (walk_leaf_sum R _ (fr s)) by (done || apply Hk). by rewrite leaf_sum_empty.
Qed.

Lemma resident_detach s r : resident_ok s -> R r -> count_kept s (with_rss s (detach r (rss s))).
Proof.
  intros Hk Hr. destruct (root_key _ _ (rk_spaces _ Hk) Hr) as [Kr Hz]. destruct (detach_spec (rss s) r (rk_rss _ Hk) Kr) as [A1 A2].
  split; [|apply detach_underflows]. split; cbn [with_rss pm fr rss]; [apply Hk|done| |apply Hk|].
  2:{ intros r' n Kr'. rewrite A2 by done. destruct (bool_decide _); [done|by apply Hk]. }
  intros r' n Hr'. rewrite A2 by (by apply (root_key _ _ (rk_spaces _ Hk))). destruct (bool_decide _); [done|by apply Hk].
Qed.

(** A present leaf is replaced and the counters stay as they are. *)
Lemma resident_replace s s' r va phys e :
  resident_ok s -> R r -> user_page va -> foreign va (Some e) -> maps_frame (leaf (pm s) r va) phys = true ->
  sets R user_half s s' r va (Some e) -> rss s' = rss s -> count_kept s s'.
Proof.
  intros Hk Hr Hu Hf Hm Hs Ht. eapply resident_change; [done|done|done|done|done|]. rewrite Ht. unfold account_view.
  destruct (leaf (pm s) r va); [|done]. by destruct (negb _).
Qed.

Lemma vm_step_count s s' : resident_ok s -> vm_step s s' -> count_kept s s'.
Proof.
  intros Hk Hst. pose proof (rk_spaces _ Hk) as Hok.
  destruct Hst as [r va pa fl Hr Hu Hf Hi|r va pa fl Hr Hu Hf Hi|r va pa fl ex Hr Hu Hf Hi|sd r va pa fl ex Hr Hu Hf Hi
                  |share r va fl ex Hr Hu Hf|r va pte Hr Hu Hn Hfo|r va Hr Hu Hn|r Hr He|r Hr];
    try (destruct (user_page_path va Hu) as [Vp Uv]).
  - pose proof (map_spec R user_half s r va Hok Hr Vp pa fl) as S. destruct (map_page_in_impl _ _ _ _ _) as [[] s']; cbn.
    + eapply resident_change; [done|done|done| |apply S|apply S]. by apply foreign_leaf_entry.
    + apply resident_extends; [done|apply S].
  - pose proof (map_if_absent_spec R user_half s r va Hok Hr Vp pa fl) as S. destruct (map_page_in_if_absent _ _ _ _ _) as [[] s']; cbn.
    + destruct S as (S0 & S1 & S2). eapply resident_change; [done|done|done| |apply S1|by rewrite S0]. by apply foreign_leaf_entry.
    + apply resident_extends; [done|apply S].
  - pose proof (map_cow_spec R user_half s r va Hok Hr Vp pa fl ex) as S. destruct (map_page_in_cow_if_unchanged _ _ _ _ _ _) as [[] s']; cbn.
    + destruct S as (S0 & S1 & S2). by eapply resident_replace; [..|apply foreign_leaf_entry| | |].
    + apply resident_extends; [done|apply S].
  - pose proof (cow_break_spec R user_half s r va Hok Hr Vp sd pa fl ex) as S. destruct (cow_break_if_unchanged _ _ _ _ _ _ _) as [[] s']; cbn.
    + destruct S as (mid & _ & _ & S0 & _ & S1 & S2). by eapply resident_replace; [..|apply foreign_leaf_entry| | |].
    + apply resident_extends; [done|apply S].
  - pose proof (flip_spec R user_half s r va Hok Hr Vp share fl ex) as S. destruct (flip_writable_if_sole_owner _ _ _ _ _ _) as [[] s']; cbn.
    + destruct S as (S0 & _ & S1 & S2). eapply resident_replace; [done|done|done| |done|done|done].
      apply foreign_leaf_entry; [done|]. pose proof (rk_foreign _ Hk r va Hr Hu) as Hl. unfold maps_frame in S0.
      destruct (leaf (pm s) r va) as [e|]; [|done]. apply Z.eqb_eq in S0. rewrite <- S0. by apply Hl.
    + apply resident_extends; [done|apply S].
  - pose proof (write_pte_spec R user_half s r va Hok Hr Vp pte Hn) as S. cbn zeta in S. destruct (tab _ _ _).
    + eapply resident_change; [done|done|done|exact Hfo|apply S|apply S].
    + destruct S as [-> _]. by split.
  - pose proof (unmap_spec R user_half s r va Hok Hr Vp Hn) as S. cbn zeta in S.
    eapply resident_change; [done|done|done| |apply S|apply S]. by intros ? ?.
  - by apply resident_attach.
  - by apply resident_detach.
Qed.

Lemma vm_steps_count s s' : rtc vm_step s s' -> resident_ok s -> count_kept s s'.
Proof.
  induction 1 as [s|s s1 s2 Hst _ IH]; intros Hk; [by split|]. destruct (vm_step_count _ _ Hk Hst) as [Hk1 Hu1].
  destruct (IH Hk1) as [Hk2 Hu2]. split; [done|]. by rewrite Hu2.
Qed.

(** C23: the resident-set counters are exact under any mix of the vmm.rs
    operations on pages of the user half that [vm_step] lists: mapping a page,
    also if absent, copy-on-write breaks, write-permission flips; writes of
    entries and unmappings of pages that are not inside a 2 MiB page
    ([unmap_in_huge_page] shows one that is); attaches of spaces that map no
    user page; and detaches. No page is mapped to the frame of its own address
    below the identity window's top, which the counters leave out. From a
    state in which the counters are exact, only these spaces are tracked and
    their tables are owned frames each reached one way: [resident_pages] of
    every tracked space is what [walk_resident_pages] counts in its tables,
    512 for a 2 MiB page that is there, and no counter goes below zero. *)
Theorem resident_pages_exact s s' :
  resident_ok s -> rtc vm_step s s' ->
  resident_ok s' /\ RSS_UNDERFLOWS (rss s') = RSS_UNDERFLOWS (rss s) /\
  forall r, R r -> resident_pages r (rss s') = (fun _ => walk_resident_pages (pm s') r) <$> counter (rss s') r.
Proof.
  intros Hk Hst. destruct (vm_steps_count _ _ Hst Hk) as [Hk' Hu]. split_and!; [done|done|]. intros r Hr.
  pose proof (rk_count _ Hk' r) as Hc. unfold resident_pages, counter in *. destruct (find r (rss s')) as [i|]; cbn in *; [|done].
  specialize (Hc _ Hr eq_refl). destruct (root_key _ _ (rk_spaces _ Hk') Hr) as [_ Hz].
  rewrite (walk_leaf_sum R _ (fr s')) in * by (done || apply Hk'). pose proof (leaf_sum_bound (pm s') r). rewrite Hc.
  f_equal. destruct (Z.ltb_spec 0 (leaf_sum (pm s') r)); lia.
Qed.
End counts.
