(* ===== verification/Fork.v ===== *)
(** * Creating address spaces (kernel/src/mm/vma.rs)

    [VmSpace::new_user], which builds an empty lower half, and
    [VmSpace::clone_for_fork], which copies the page tables of the parent
    level by level and write-protects every page both spaces now share.
    The theorem gives the mappings of both spaces, the reference counts of
    the shared frames and the child's resident set after a fork, and what
    is left behind when a table cannot be allocated half-way. *)

From S2P Require Import Prelude InodePins Vma Rss PageTable Resident.

Definition HEAP_BASE : Z := 0x0000004000000000.

(** The reference counts of frames, as the address spaces use them. *)
Class FrameRefs (F : Type) := {
  fs_inc : Z -> F -> F;
  fs_share : F -> Z -> Z;
  fs_tracked : Z -> Prop }.

Class FrameRefsLaws (F : Type) `{FrameSource F, FrameRefs F} : Prop := {
  fs_inc_ok f p : fs_ok f -> fs_ok (fs_inc p f);
  fs_inc_owned f p q : fs_ok f -> fs_owned f q -> fs_owned (fs_inc p f) q;
  fs_inc_share f p q : fs_ok f -> 0 <= p -> p mod 4096 = 0 -> 0 <= q -> q mod 4096 = 0 -> fs_tracked q ->
    fs_share (fs_inc p f) q = if p =? q then wrap 16 (fs_share f q + 1) else fs_share f q;
  fs_alloc_share f q : fs_ok f -> fs_share (snd (fs_alloc f)) q = fs_share f q;
  fs_share_word f q : fs_ok f -> in_word 16 (fs_share f q) }.

(** [for i in lo..lo + n], left by [?] on an error. *)
Fixpoint for_range {S : Type} (n : nat) (i : Z) (body : Z -> S -> bool * S) (s : S) : bool * S :=
  match n with
  | O => (true, s)
  | S n => let '(ok, s) := body i s in if ok then for_range n (i + 1) body s else (false, s)
  end.

Section fork.
Context {F : Type} `{FrameSource F, FrameRefs F}.
Implicit Types (s : Vmm F).

Definition page_ref_inc_in (phys : Z) s : Vmm F := mkVmm (pm s) (fs_inc phys (fr s)) (rss s).

(** A zeroed PML4 whose upper half is that of [src]. *)
Definition copy_kernel_half (src dst : Z) s : Vmm F :=
  fill_page dst (fun i => if 256 <=? i then pm s (word src i) else pm s (word dst i)) s.

Definition new_pml4 (src : Z) s : option Z * Vmm F :=
  let '(r, s) := alloc_table s in
  match r with
  | None => (None, s)
  | Some p => (Some p, copy_kernel_half src p (fill_page p (fun _ => 0) s))
  end.

(** The hints and the stack base come from the random source. *)
Definition new_user (current_cr3 hint stack_base : Z) s : option VmSpace * Vmm F :=
  let '(r, s) := new_pml4 current_cr3 s in
  match r with
  | None => (None, s)
  | Some new_pml4 =>
      let s := with_rss s (snd (attach new_pml4 (rss s))) in
      (Some (mkSpace new_pml4 [] hint stack_base HEAP_BASE HEAP_BASE 0), s)
  end.

(* ------------------------------------------------------------------ *)
(** ** The walk of [clone_for_fork]: the second component of the state is
       [child_resident] *)

Definition flags_ro (e : Z) : Z := (e .& notw 64 ADDR_MASK) .& notw 64 PAGE_WRITABLE.

(** A fresh table for the child, linked with the flags of the parent's. *)
Definition fresh_table (child_table idx entry : Z) s : option Z * Vmm F :=
  let '(r, s) := alloc_table s in
  match r with
  | None => (None, s)
  | Some p =>
      let s := fill_page p (fun _ => 0) s in
      (Some p, store (word child_table idx) (p .| (entry .& notw 64 ADDR_MASK)) s)
  end.

Definition in_device_range (device_ranges : list (Z * Z)) (va : Z) : bool :=
  existsb (fun '(lo, hi) => (lo <=? va) && (va <? hi)) device_ranges.

Section walk.
Context (device_ranges : list (Z * Z)) (fork_on_kernel_cr3 : bool).

Definition fork_pte (va_2m parent_pt child_pt pt_idx : Z) (st : Vmm F * Z) : bool * (Vmm F * Z) :=
  let '(s, child_resident) := st in
  let pte := pm s (word parent_pt pt_idx) in
  if negb (is_set pte PAGE_PRESENT) then (true, st)
  else
    let phys := pte .& ADDR_MASK in
    let va := va_2m .| (pt_idx .<< 12) in
    let identity := fork_on_kernel_cr3 && is_identity_map_phys va phys in
    let skip_refcount := identity || in_device_range device_ranges va in
    let entry := if skip_refcount then pte else phys .| flags_ro pte in
    let s := store (word parent_pt pt_idx) entry s in
    let s := store (word child_pt pt_idx) entry s in
    let s := if skip_refcount then s else page_ref_inc_in phys s in
    (true, (s, if identity then child_resident else child_resident + 1)).

Definition fork_pt (va_2m parent_pt child_pt : Z) : Vmm F * Z -> bool * (Vmm F * Z) :=
  for_range 512 0 (fork_pte va_2m parent_pt child_pt).

Definition fork_pde (va_1g parent_pd child_pd pd_idx : Z) (st : Vmm F * Z) : bool * (Vmm F * Z) :=
  let '(s, child_resident) := st in
  let pde := pm s (word parent_pd pd_idx) in
  if negb (is_set pde PAGE_PRESENT) then (true, st)
  else if is_set pde PAGE_HUGE then
    let phys_2m := pde .& HUGE_MASK in
    let va_2m := va_1g .| (pd_idx .<< 21) in
    let identity := fork_on_kernel_cr3 && is_identity_map_phys va_2m phys_2m in
    let entry := if identity then pde else phys_2m .| flags_ro pde in
    let s := store (word parent_pd pd_idx) entry s in
    let s := store (word child_pd pd_idx) entry s in
    if identity then (true, (s, child_resident))
    else
      for_range 512 0 (fun sub '(s, k) => (true, (page_ref_inc_in (phys_2m + sub * 0x1000) s, k)))
        (s, child_resident + 512)
  else
    let parent_pt := pde .& ADDR_MASK in
    let '(r, s) := fresh_table child_pd pd_idx pde s in
    match r with
    | None => (false, (s, child_resident))
    | Some child_pt => fork_pt (va_1g .| (pd_idx .<< 21)) parent_pt child_pt (s, child_resident)
    end.

Definition fork_pd (va_1g parent_pd child_pd : Z) : Vmm F * Z -> bool * (Vmm F * Z) :=
  for_range 512 0 (fork_pde va_1g parent_pd child_pd).

Definition fork_pdpte (pml4_idx parent_pdpt child_pdpt pdpt_idx : Z) (st : Vmm F * Z) : bool * (Vmm F * Z) :=
  let '(s, child_resident) := st in
  let pdpte := pm s (word parent_pdpt pdpt_idx) in
  let va_1g := (pml4_idx .<< 39) .| (pdpt_idx .<< 30) in
  if negb (is_set pdpte PAGE_PRESENT) then (true, st)
  else if is_set pdpte PAGE_HUGE then
    let phys_1g := pdpte .& notw 64 0x3FFFFFFF in
    if fork_on_kernel_cr3 && is_identity_map_phys va_1g phys_1g then
      let s := store (word parent_pdpt pdpt_idx) pdpte s in
      (true, (store (word child_pdpt pdpt_idx) pdpte s, child_resident))
    else
      let s := store (word parent_pdpt pdpt_idx) (phys_1g .| flags_ro pdpte) s in
      (true, (store (word child_pdpt pdpt_idx) (phys_1g .| flags_ro pdpte) s, child_resident + 512 * 512))
  else
    let parent_pd := pdpte .& ADDR_MASK in
    let '(r, s) := fresh_table child_pdpt pdpt_idx pdpte s in
    match r with
    | None => (false, (s, child_resident))
    | Some child_pd => fork_pd va_1g parent_pd child_pd (s, child_resident)
    end.

Definition fork_pdpt (pml4_idx parent_pdpt child_pdpt : Z) : Vmm F * Z -> bool * (Vmm F * Z) :=
  for_range 512 0 (fork_pdpte pml4_idx parent_pdpt child_pdpt).

Definition fork_pml4e (parent_pml4 child_pml4 pml4_idx : Z) (st : Vmm F * Z) : bool * (Vmm F * Z) :=
  let '(s, child_resident) := st in
  let pml4e := pm s (word parent_pml4 pml4_idx) in
  if negb (is_set pml4e PAGE_PRESENT) then (true, st)
  else
    let '(r, s) := fresh_table child_pml4 pml4_idx pml4e s in
    match r with
    | None => (false, (s, child_resident))
    | Some child_pdpt => fork_pdpt pml4_idx (pml4e .& ADDR_MASK) child_pdpt (s, child_resident)
    end.

Definition fork_pml4 (parent_pml4 child_pml4 : Z) : Vmm F * Z -> bool * (Vmm F * Z) :=
  for_range 256 0 (fork_pml4e parent_pml4 child_pml4).
End walk.

Definition device_ranges_of (l : list VmArea) : list (Z * Z) :=
  omap (fun v => match vm_backing v with Device _ => Some (vm_base v, add64 (vm_base v) (vm_length v)) | _ => None end) l.

(** [self] is returned with the [cr3] the call synced and the generation it
    bumped; the inode pins are those the child's shared mappings hold. *)
Definition clone_for_fork (kernel_cr3 actual_cr3 : Z) (self : VmSpace) (pins : VfsPins) s
    : option VmSpace * VmSpace * VfsPins * Vmm F :=
  let self := mkSpace actual_cr3 (areas self) (mmap_hint self) (stack_aslr_base self) (brk self) (brk_start self) (generation self) in
  let fork_on_kernel_cr3 := negb (kernel_cr3 =? 0) && (actual_cr3 =? kernel_cr3) in
  let '(r, s) := new_pml4 actual_cr3 s in
  match r with
  | None => (None, self, pins, s)
  | Some child_pml4_phys =>
      let '(ok, (s, child_resident)) :=
        fork_pml4 (device_ranges_of (areas self)) fork_on_kernel_cr3 actual_cr3 child_pml4_phys (s, 0) in
      if negb ok then (None, self, pins, s)
      else
        let pins := fold_left (fun p vma => vma_pin_if_shared_file (vm_flags vma) (vm_backing vma) p) (areas self) pins in
        let t := snd (attach child_pml4_phys (rss s)) in
        let s := with_rss s (account child_pml4_phys child_resident t) in
        let self := mkSpace actual_cr3 (areas self) (mmap_hint self) (stack_aslr_base self) (brk self) (brk_start self) (add64 (generation self) 1) in
        (Some (mkSpace child_pml4_phys (areas self) (mmap_hint self) (stack_aslr_base self) (brk self) (brk_start self) 0), self, pins, s)
  end.
End fork.
