(* ===== verification/ForkWalk.v ===== *)
(** * The walk of a fork (kernel/src/mm/vma.rs, [clone_for_fork])

    Each level of the walk is related to the pages it has dealt with: on
    those the parent's and the child's leaf are the write-protected leaf of
    the parent, elsewhere both spaces are as before. *)

From S2P Require Import Prelude InodePins Vma Rss PageTable Resident Fork.

(* ------------------------------------------------------------------ *)
(** ** Regions of an address space, as sets of paths *)

Definition sub (p q : list Z) : bool := bool_decide (p `prefix_of` q).

(** Paths through the entries below [n] of the table at [p]. *)
Definition under (p : list Z) (n : Z) (q : list Z) : bool :=
  sub p q && match q !! length p with Some i => i <? n | None => false end.

Lemma sub_app p l : sub p (p ++ l) = true.
Proof. apply bool_decide_true. by exists l. Qed.

Lemma sub_true p q : sub p q = true <-> exists l, q = p ++ l.
Proof. unfold sub. rewrite bool_decide_eq_true. done. Qed.

Lemma sub_snoc p n q : sub (p ++ [n]) q = sub p q && match q !! length p with Some i => i =? n | None => false end.
Proof.
  apply Bool.eq_iff_eq_true. rewrite andb_true_iff, !sub_true. split.
  - intros [l ->]. rewrite <- app_assoc. split; [by eexists|]. rewrite lookup_app_r by lia. rewrite Nat.sub_diag. cbn. apply Z.eqb_refl.
  - intros [[l ->] Hi]. rewrite lookup_app_r, Nat.sub_diag in Hi by lia. destruct l as [|i l]; [done|]. cbn in Hi.
    apply Z.eqb_eq in Hi as ->. exists l. by rewrite <- app_assoc.
Qed.

Lemma under_S p n q : under p (n + 1) q = under p n q || sub (p ++ [n]) q.
Proof.
  rewrite sub_snoc. unfold under. destruct (sub p q); cbn; [|done]. destruct (q !! length p) as [i|]; [|done].
  destruct (Z.ltb_spec i (n + 1)), (Z.ltb_spec i n), (Z.eqb_spec i n); cbn; try done; lia.
Qed.

Lemma under_sub_disjoint p n q : under p n q = true -> sub (p ++ [n]) q = true -> False.
Proof.
  rewrite sub_snoc. unfold under. destruct (sub p q); cbn; [|done]. destruct (q !! length p) as [i|]; [|done]. lia.
Qed.

Lemma under_le p n n' q : n <= n' -> under p n q = true -> under p n' q = true.
Proof. intros Hn. unfold under. destruct (sub p q); cbn; [|done]. destruct (q !! length p) as [i|]; [|done]. lia. Qed.

Lemma under_sub p n q : under p n q = true -> sub p q = true.
Proof. unfold under. by destruct (sub p q). Qed.

Section forward.
Context (own : Z -> bool).

Lemma vpath_entry p i l : vpath own (p ++ i :: l) -> 0 <= i < 512.
Proof. intros [Hr _]. apply list.Forall_app in Hr as [_ Hr]. by apply Forall_cons_iff in Hr as [? _]. Qed.

Lemma under_0 p q : vpath own q -> under p 0 q = false.
Proof.
  intros Hv. unfold under. destruct (sub p q) eqn:E; cbn; [|done]. apply sub_true in E as [l ->].
  rewrite lookup_app_r, Nat.sub_diag by lia. destruct l as [|i l]; cbn; [done|]. pose proof (vpath_entry _ _ _ Hv). lia.
Qed.

Lemma under_512 p q : vpath own q -> bool_decide (q = p) || under p 512 q = sub p q.
Proof.
  intros Hv. unfold under. destruct (sub p q) eqn:E; cbn.
  - apply sub_true in E as [l ->]. rewrite lookup_app_r, Nat.sub_diag by lia. destruct l as [|i l]; cbn.
    + rewrite app_nil_r. by rewrite bool_decide_true.
    + pose proof (vpath_entry _ _ _ Hv). rewrite (proj2 (Z.ltb_lt i 512)) by lia. apply orb_true_r.
  - rewrite orb_false_r. apply bool_decide_false. intros ->. rewrite <- (app_nil_r p) in E at 2. by rewrite sub_app in E.
Qed.
End forward.

(* ------------------------------------------------------------------ *)
(** ** Sums over a region *)

Definition tally (P : list Z -> bool) (g : Z -> Z) : Z :=
  sum4 (fun a b c d => if P [a; b; c; d] then g (va_of a b c d) else 0).

Lemma sum4_ext f g :
  (forall a b c d, 0 <= a < 256 -> 0 <= b < 512 -> 0 <= c < 512 -> 0 <= d < 512 -> f a b c d = g a b c d) -> sum4 f = sum4 g.
Proof. intros He. apply zsum_ext. intros a Ha. do 3 (apply zsum_ext; intros ? ?). apply He; lia. Qed.

Lemma zsum_add f g n : zsum (fun i => f i + g i) n = zsum f n + zsum g n.
Proof. induction n as [|n IH]; cbn; lia. Qed.

Lemma sum4_add f g : sum4 (fun a b c d => f a b c d + g a b c d) = sum4 f + sum4 g.
Proof.
  unfold sum4. rewrite <- zsum_add. apply zsum_ext. intros a _. rewrite <- zsum_add. apply zsum_ext. intros b _.
  rewrite <- zsum_add. apply zsum_ext. intros c _. apply zsum_add.
Qed.

Lemma user_va_of a b c d :
  0 <= a < 256 -> 0 <= b < 512 -> 0 <= c < 512 -> 0 <= d < 512 ->
  user_page (va_of a b c d) /\ full_path (va_of a b c d) = [a; b; c; d].
Proof.
  intros Ha Hb Hc Hd. split; [|apply va_of_idx; unfold in_table; lia]. unfold user_page, va_of. split; [lia|]. apply Z.mod_mul. lia.
Qed.

Lemma user_page_path_inj va va' : user_page va -> user_page va' -> full_path va = full_path va' -> va = va'.
Proof.
  intros Hu Hu' E. destruct (user_page_va_of va Hu) as [-> _], (user_page_va_of va' Hu') as [-> _].
  unfold full_path in E. by injection E as -> -> -> ->.
Qed.

Lemma tally_ext P P' g g' :
  (forall va, user_page va -> P (full_path va) = P' (full_path va)) ->
  (forall va, user_page va -> P (full_path va) = true -> g va = g' va) -> tally P g = tally P' g'.
Proof.
  intros HP Hg. apply sum4_ext. intros a b c d Ha Hb Hc Hd. destruct (user_va_of a b c d Ha Hb Hc Hd) as [Hu Hp].
  specialize (HP _ Hu). specialize (Hg _ Hu). rewrite Hp in HP, Hg. rewrite <- HP. destruct (P _); [by apply Hg|done].
Qed.

Lemma tally_none P g : (forall va, user_page va -> P (full_path va) = true -> g va = 0) -> tally P g = 0.
Proof.
  intros Hg. apply zsum_zero. intros a Ha. do 3 (apply zsum_zero; intros ? ?).
  match goal with |- (if P [?a; ?b; ?c; ?d] then _ else _) = 0 => destruct (user_va_of a b c d) as [Hu Hp]; [lia..|] end.
  specialize (Hg _ Hu). rewrite Hp in Hg. destruct (P _); [by apply Hg|done].
Qed.

Lemma tally_union P Q g :
  (forall va, user_page va -> P (full_path va) = true -> Q (full_path va) = true -> False) ->
  tally (fun q => P q || Q q) g = tally P g + tally Q g.
Proof.
  intros Hd. unfold tally. rewrite <- sum4_add. apply sum4_ext. intros a b c d Ha Hb Hc Hd'.
  destruct (user_va_of a b c d Ha Hb Hc Hd') as [Hu Hp]. specialize (Hd _ Hu). rewrite Hp in Hd.
  destruct (P _), (Q _); cbn; try lia; by destruct Hd.
Qed.

Lemma zsum_only f n k : 0 <= k < Z.of_nat n -> (forall i, 0 <= i < Z.of_nat n -> i <> k -> f i = 0) -> zsum f n = f k.
Proof.
  intros Hk Hf. rewrite (zsum_update f (fun _ => 0) n k (f k)); [rewrite zsum_zero by done; lia|done|].
  intros i Hi. destruct (Z.eqb_spec i k) as [->|]; [lia|]. rewrite Hf by done. lia.
Qed.

(** The pages of one page table, and one page. *)
Lemma tally_table a b c g :
  0 <= a < 256 -> 0 <= b < 512 -> 0 <= c < 512 -> tally (sub [a; b; c]) g = zsum (fun d => g (va_of a b c d)) 512.
Proof.
  intros Ha Hb Hc. unfold tally, sum4.
  assert (forall a' b' c' d', sub [a; b; c] [a'; b'; c'; d'] = (a' =? a) && (b' =? b) && (c' =? c)) as Hs.
  { intros. apply Bool.eq_iff_eq_true. rewrite sub_true, !andb_true_iff, !Z.eqb_eq. split.
    - intros [l E]. by injection E.
    - intros [[-> ->] ->]. by exists [d']. }
  rewrite (zsum_only _ 256 a); [|lia|].
  2:{ intros i Hi Hn. do 3 (apply zsum_zero; intros ? ?). rewrite Hs. by rewrite (proj2 (Z.eqb_neq i a)). }
  rewrite (zsum_only _ 512 b); [|lia|].
  2:{ intros i Hi Hn. do 2 (apply zsum_zero; intros ? ?). rewrite Hs. by rewrite (proj2 (Z.eqb_neq i b)), andb_false_r. }
  rewrite (zsum_only _ 512 c); [|lia|].
  2:{ intros i Hi Hn. apply zsum_zero; intros ? ?. rewrite Hs. by rewrite (proj2 (Z.eqb_neq i c)), !andb_false_r. }
  apply zsum_ext. intros d Hd. by rewrite Hs, !Z.eqb_refl.
Qed.

Lemma tally_page a b c d g :
  0 <= a < 256 -> 0 <= b < 512 -> 0 <= c < 512 -> 0 <= d < 512 -> tally (sub [a; b; c; d]) g = g (va_of a b c d).
Proof.
  intros Ha Hb Hc Hd. transitivity (tally (sub [a; b; c]) (fun va => if decide (va = va_of a b c d) then g va else 0)).
  - apply sum4_ext. intros a' b' c' d' Ha' Hb' Hc' Hd'. change [a; b; c; d] with ([a; b; c] ++ [d]). rewrite sub_snoc.
    destruct (sub [a; b; c] [a'; b'; c'; d']) eqn:E; cbn; [|done]. apply sub_true in E as [l E]. injection E as -> -> -> _.
    destruct (Z.eqb_spec d' d) as [->|Hn]; [by rewrite decide_True|]. rewrite decide_False; [done|]. unfold va_of. lia.
  - rewrite tally_table by done. rewrite (zsum_only _ 512 d); [by rewrite decide_True|lia|].
    intros i Hi Hn. rewrite decide_False; [done|]. unfold va_of. lia.
Qed.

(* ------------------------------------------------------------------ *)
(** ** Write-protected entries *)

Definition write_protect (e : Z) : Z := (e .& ADDR_MASK) .| flags_ro e.

Lemma testbit_flags_ro e i :
  0 <= i -> Z.testbit (flags_ro e) i = Z.testbit e i && (i <? 64) && negb ((12 <=? i) && (i <? 52)) && negb (i =? 1).
Proof.
  intros Hi. unfold flags_ro. rewrite !Z.land_spec, !testbit_notw, testbit_ADDR_MASK by lia.
  unfold PAGE_WRITABLE. rewrite testbit_shiftl_1 by lia.
  assert (bool_decide (i < 64) = (i <? 64)) as -> by (apply Bool.eq_iff_eq_true; by rewrite bool_decide_eq_true, Z.ltb_lt).
  assert (bool_decide (i = 1) = (i =? 1)) as -> by (apply Bool.eq_iff_eq_true; by rewrite bool_decide_eq_true, Z.eqb_eq).
  destruct (Z.testbit e i), (i <? 64), (12 <=? i), (i <? 52), (i =? 1); done.
Qed.

Lemma flags_ro_bits e : flag_bits (flags_ro e).
Proof.
  apply Z.bits_inj_iff'. intros i Hi. rewrite Z.land_spec, testbit_flags_ro, testbit_ADDR_MASK, Z.bits_0 by done.
  destruct (Z.testbit e i), (i <? 64), (12 <=? i), (i <? 52), (i =? 1); done.
Qed.

Lemma flags_ro_set e k : 0 <= k < 12 -> k <> 1 -> is_set (flags_ro e) (1 .<< k) = is_set e (1 .<< k).
Proof.
  intros Hk H1. rewrite !is_set_bit, testbit_flags_ro by lia. rewrite (proj2 (Z.ltb_lt k 64)), (proj2 (Z.leb_gt 12 k)), (proj2 (Z.eqb_neq k 1)) by lia.
  cbn. by rewrite !andb_true_r.
Qed.

Lemma testbit_flags e i :
  0 <= i -> Z.testbit (e .& notw 64 ADDR_MASK) i = Z.testbit e i && (i <? 64) && negb ((12 <=? i) && (i <? 52)).
Proof.
  intros Hi. rewrite Z.land_spec, testbit_notw, testbit_ADDR_MASK by lia.
  assert (bool_decide (i < 64) = (i <? 64)) as -> by (apply Bool.eq_iff_eq_true; by rewrite bool_decide_eq_true, Z.ltb_lt).
  by rewrite andb_assoc.
Qed.

(** The child's entry for a table has the parent's flags. *)
Lemma linked_step n e :
  page_frame n -> is_set e PAGE_PRESENT = true -> is_set e PAGE_HUGE = false -> step_of (n .| (e .& notw 64 ADDR_MASK)) = Some n.
Proof.
  intros Hn He Hh. unfold PAGE_PRESENT, PAGE_HUGE in *. rewrite is_set_bit in He, Hh by lia. apply entry_step; [done| | |].
  - apply Z.bits_inj_iff'. intros i Hi. rewrite Z.land_spec, testbit_flags, testbit_ADDR_MASK, Z.bits_0 by done.
    destruct (Z.testbit e i), (i <? 64), (12 <=? i), (i <? 52); done.
  - unfold PAGE_PRESENT. rewrite is_set_bit, testbit_flags, He by lia. done.
  - unfold PAGE_HUGE. rewrite is_set_bit, testbit_flags, Hh by lia. done.
Qed.

(** A page address with the protected flags. *)
Lemma protected_set p e k :
  page_bits p -> 0 <= k < 12 -> k <> 1 -> is_set (p .| flags_ro e) (1 .<< k) = is_set e (1 .<< k).
Proof. intros Hp Hk H1. rewrite is_set_lor, is_set_page, flags_ro_set by (done || lia). done. Qed.

Lemma protected_readonly p e : page_bits p -> is_set (p .| flags_ro e) PAGE_WRITABLE = false.
Proof.
  intros Hp. unfold PAGE_WRITABLE. rewrite is_set_lor, is_set_page by (done || lia). rewrite is_set_bit, testbit_flags_ro by lia.
  cbn. apply andb_false_r.
Qed.

Lemma write_protect_addr e : write_protect e .& ADDR_MASK = e .& ADDR_MASK.
Proof. apply addr_entry; [apply land_ADDR_MASK_bits|apply flags_ro_bits]. Qed.

Lemma write_protect_present e : is_set e PAGE_PRESENT = true -> present (write_protect e) = Some (write_protect e).
Proof.
  intros He. unfold present, write_protect, PAGE_PRESENT in *. rewrite protected_set; [by rewrite He|apply land_ADDR_MASK_bits|lia|lia].
Qed.

Lemma huge_base_bits e : page_bits (e .& HUGE_MASK).
Proof. destruct (huge_base_page e 0 ltac:(lia)) as [Hp _]. by rewrite Z.mul_0_l, Z.add_0_r in Hp. Qed.

Lemma addr_page e : 0 <= e .& ADDR_MASK /\ (e .& ADDR_MASK) mod 4096 = 0.
Proof.
  split; [apply Z.land_nonneg; by right|]. change 4096 with (2 ^ 12).
  rewrite <- Z.land_ones, <- Z.land_assoc by lia. apply Z.land_0_r.
Qed.

(** Protecting a 2 MiB page protects its parts. *)
Lemma split_write_protect e i :
  0 <= i < 512 -> split_entry (e .& HUGE_MASK .| flags_ro e) i = write_protect (split_entry e i).
Proof.
  intros Hi. unfold write_protect. rewrite split_entry_addr by done. unfold split_entry at 1. fold (keep_flags (e .& HUGE_MASK .| flags_ro e)).
  assert ((e .& HUGE_MASK .| flags_ro e) .& HUGE_MASK = e .& HUGE_MASK) as ->.
  { rewrite Z.land_lor_distr_l, <- Z.land_assoc, Z.land_diag. change HUGE_MASK with (ADDR_MASK .& HUGE_MASK) at 2.
    rewrite (Z.land_assoc (flags_ro e)). replace (flags_ro e .& ADDR_MASK) with 0 by (symmetry; apply flags_ro_bits). apply Z.lor_0_r. }
  f_equal. apply Z.bits_inj_iff'. intros j Hj. rewrite testbit_keep_flags, testbit_flags_ro, Z.lor_spec, testbit_flags_ro by done.
  unfold split_entry. fold (keep_flags e). rewrite Z.lor_spec, testbit_keep_flags by done.
  destruct (Z.lt_ge_cases j 12) as [Hl|Hl]; [|destruct (Z.lt_ge_cases j 52) as [Hl'|Hl']].
  - rewrite (huge_base_bits e j) by lia. destruct (huge_base_page e i Hi) as [Hp _]. rewrite (Hp j) by lia.
    destruct (Z.testbit e j), (j <? 64), (12 <=? j), (j <? 52), (j =? 7), (j =? 1); done.
  - rewrite (proj2 (Z.leb_le 12 j)), (proj2 (Z.ltb_lt j 52)) by lia. cbn. by rewrite !andb_false_r.
  - rewrite (huge_base_bits e j) by lia. destruct (huge_base_page e i Hi) as [Hp _]. rewrite (Hp j) by lia.
    destruct (Z.testbit e j), (j <? 64), (12 <=? j), (j <? 52), (j =? 7), (j =? 1); done.
Qed.

(* ------------------------------------------------------------------ *)
(** ** Pages dealt with *)

Section forked.
Context {F : Type} `{FrameSourceLaws F} `{!FrameRefs F} `{!FrameRefsLaws F}.
Context (R : Z -> Prop) (r c : Z) (dev : list (Z * Z)) (onk : bool).
Hypothesis Hr : R r.
Hypothesis Hc : R c.
Hypothesis Hrc : r <> c.
Implicit Types (s : Vmm F) (p q : list Z) (P Q : list Z -> bool) (m : Z -> Z).

Definition kernel_leaf (va e : Z) : bool := onk && is_identity_map_phys va (e .& ADDR_MASK).

(** The leaves a fork leaves as they are; [huge] tells a 2 MiB page. *)
Definition keeps (huge : bool) (va e : Z) : bool := kernel_leaf va e || (negb huge && in_device_range dev va).

Definition in_huge m va : bool := bool_decide (tab m r (table_path va) = None).

Definition fork_leaf m va : option Z :=
  (fun e => if keeps (in_huge m va) va e then e else write_protect e) <$> leaf m r va.

(** References taken on the frame [x], and pages counted, for one page. *)
Definition ref_of m (x va : Z) : Z :=
  match leaf m r va with
  | Some e => if negb (keeps (in_huge m va) va e) && (e .& ADDR_MASK =? x) then 1 else 0
  | None => 0
  end.
Definition count_of m (va : Z) : Z :=
  match leaf m r va with Some e => if kernel_leaf va e then 0 else 1 | None => 0 end.

Record forked P s s' (k k' : Z) : Prop := {
  fk_ok : spaces_ok R user_half (pm s') (fr s');
  fk_parent va : user_page va -> leaf (pm s') r va = if P (full_path va) then fork_leaf (pm s) va else leaf (pm s) r va;
  fk_child va : user_page va -> leaf (pm s') c va = if P (full_path va) then fork_leaf (pm s) va else leaf (pm s) c va;
  fk_other r' va : R r' -> r' <> r -> r' <> c -> user_page va -> leaf (pm s') r' va = leaf (pm s) r' va;
  fk_tab r' q : R r' -> vpath user_half q -> (length q <= 3)%nat -> (r' = c -> P q = false) -> tab (pm s') r' q = tab (pm s) r' q;
  fk_share x : 0 <= x -> x mod 4096 = 0 -> fs_tracked x ->
    fs_share (fr s') x = wrap 16 (fs_share (fr s) x + tally P (ref_of (pm s) x));
  fk_count : k' = k + tally P (count_of (pm s));
  fk_rss : rss s' = rss s;
  fk_owned o : fs_owned (fr s) o -> fs_owned (fr s') o;
  fk_upper r' j : R r' -> 256 <= j < 512 -> pm s' (word r' j) = pm s (word r' j) }.

(** The kernel's half of a root is no word of a table the walk writes. *)
Lemma upper_apart m (f : F) r0 p i t r' j :
  spaces_ok R user_half m f -> R r0 -> vpath user_half (p ++ [i]) -> (length p <= 3)%nat -> tab m r0 p = Some t ->
  R r' -> 256 <= j < 512 -> word r' j <> word t i.
Proof.
  intros Hok R0 Hv Hl Ht R' Hj E.
  destruct (so_tab _ _ _ _ Hok r0 p t R0 (vpath_app _ _ _ Hv) Hl Ht) as [[_ Hm] _].
  destruct (so_tab _ _ _ _ Hok r' [] r' R' ltac:(by split) ltac:(cbn; lia) eq_refl) as [[_ Hm'] _].
  apply word_inj in E as [-> ->]; [|done|done|lia|by apply (vpath_entry user_half p i [])].
  destruct (so_inj _ _ _ _ Hok r0 p t [] t R0 (vpath_app _ _ _ Hv) Hl Ht R' ltac:(by split) ltac:(cbn; lia) eq_refl) as [_ ->].
  destruct Hv as [_ Hh]. cbn in Hh. unfold user_half in Hh. lia.
Qed.

#[local] Opaque tally.

Lemma tally_split P Q (g g' : Z -> Z) :
  (forall va, user_page va -> P (full_path va) = true -> Q (full_path va) = true -> False) ->
  (forall va, user_page va -> Q (full_path va) = true -> g' va = g va) ->
  tally P g + tally Q g' = tally (fun q => P q || Q q) g.
Proof. intros Hd Hg. rewrite tally_union by done. by rewrite (tally_ext Q Q g' g). Qed.

Lemma wrap_wrap_add n a b : 0 <= n -> wrap n (wrap n a + b) = wrap n (a + b).
Proof. intros Hn. unfold wrap. apply Zplus_mod_idemp_l. Qed.

Lemma user_table_path va : user_page va -> vpath user_half (table_path va).
Proof. intros Hu. destruct (user_page_path va Hu) as [Hv _]. exact (vpath_app _ (table_path va) [pt_idx va] Hv). Qed.

Lemma forked_in_huge P s s' k k' va : forked P s s' k k' -> user_page va -> in_huge (pm s') va = in_huge (pm s) va.
Proof.
  intros Hf Hu. unfold in_huge. rewrite (fk_tab _ _ _ _ _ Hf); [done|done|by apply user_table_path|done|done].
Qed.

(** A page not dealt with yet looks to the walk as it did at the start. *)
Lemma forked_leaf_later P s s' k k' va :
  forked P s s' k k' -> user_page va -> P (full_path va) = false ->
  fork_leaf (pm s') va = fork_leaf (pm s) va /\ (forall x, ref_of (pm s') x va = ref_of (pm s) x va) /\ count_of (pm s') va = count_of (pm s) va.
Proof.
  intros Hf Hu HP. unfold fork_leaf, ref_of, count_of. rewrite (forked_in_huge _ _ _ _ _ _ Hf Hu).
  rewrite (fk_parent _ _ _ _ _ Hf va Hu), HP. done.
Qed.

Lemma forked_trans P Q s s1 s2 k k1 k2 :
  (forall q, vpath user_half q -> P q = true -> Q q = true -> False) ->
  forked P s s1 k k1 -> forked Q s1 s2 k1 k2 -> forked (fun q => P q || Q q) s s2 k k2.
Proof.
  intros Hd A B.
  assert (forall va, user_page va -> Q (full_path va) = true -> P (full_path va) = false) as Hx.
  { intros va Hu HQ. destruct (P (full_path va)) eqn:E; [|done]. destruct (Hd (full_path va)); [by apply user_page_path|done|done]. }
  split.
  - apply B.
  - intros va Hu. rewrite (fk_parent _ _ _ _ _ B va Hu), (fk_parent _ _ _ _ _ A va Hu). specialize (Hx va Hu).
    destruct (Q (full_path va)); [|by rewrite orb_false_r]. rewrite Hx by done. cbn.
    by apply (forked_leaf_later _ _ _ _ _ _ A Hu); apply Hx.
  - intros va Hu. rewrite (fk_child _ _ _ _ _ B va Hu), (fk_child _ _ _ _ _ A va Hu). specialize (Hx va Hu).
    destruct (Q (full_path va)); [|by rewrite orb_false_r]. rewrite Hx by done. cbn.
    by apply (forked_leaf_later _ _ _ _ _ _ A Hu); apply Hx.
  - intros r' va R' N1 N2 Hu. by rewrite (fk_other _ _ _ _ _ B), (fk_other _ _ _ _ _ A).
  - intros r' q R' Hv Hl Hn. rewrite (fk_tab _ _ _ _ _ B), (fk_tab _ _ _ _ _ A); try done; intros E; specialize (Hn E);
      by apply orb_false_iff in Hn as [? ?].
  - intros q Hq Hm Ht. rewrite (fk_share _ _ _ _ _ B), (fk_share _ _ _ _ _ A), wrap_wrap_add, <- Z.add_assoc by done.
    rewrite (tally_split P Q (ref_of (pm s) q)); [done|intros va Hu; apply Hd; by apply user_page_path|]. intros va Hu HQ. apply (forked_leaf_later _ _ _ _ _ _ A Hu). by apply Hx.
  - rewrite (fk_count _ _ _ _ _ B), (fk_count _ _ _ _ _ A), <- Z.add_assoc.
    rewrite (tally_split P Q (count_of (pm s))); [done|intros va Hu; apply Hd; by apply user_page_path|]. intros va Hu HQ. apply (forked_leaf_later _ _ _ _ _ _ A Hu). by apply Hx.
  - rewrite (fk_rss _ _ _ _ _ B). apply A.
  - intros o Ho. by apply B, A.
  - intros r' j R' Hj. by rewrite (fk_upper _ _ _ _ _ B), (fk_upper _ _ _ _ _ A).
Qed.

Lemma forked_ext P P' s s' k k' :
  (forall q, vpath user_half q -> P q = P' q) -> forked P s s' k k' -> forked P' s s' k k'.
Proof.
  intros He A.
  assert (forall va, user_page va -> P (full_path va) = P' (full_path va)) as Hu by (intros va Hu; apply He; by apply user_page_path).
  split; try apply A.
  - intros va Hv. rewrite <- Hu by done. by apply A.
  - intros va Hv. rewrite <- Hu by done. by apply A.
  - intros r' q R' Hv Hl Hn. apply A; try done. intros E. rewrite He by done. by apply Hn.
  - intros q Hq Hm Ht. rewrite (fk_share _ _ _ _ _ A) by done. by rewrite (tally_ext P P' _ (ref_of (pm s) q)).
  - rewrite (fk_count _ _ _ _ _ A). by rewrite (tally_ext P P' _ (count_of (pm s))).
Qed.

(** Steps that only change tables of the child or the frame allocator. *)
Lemma forked_none P s s' k :
  spaces_ok R user_half (pm s) (fr s) -> extends R user_half s s' ->
  (forall va, user_page va -> P (full_path va) = true -> leaf (pm s) r va = None /\ leaf (pm s) c va = None) ->
  (forall r' q, R r' -> vpath user_half q -> (length q <= 3)%nat -> (r' = c -> P q = false) -> tab (pm s') r' q = tab (pm s) r' q) ->
  (forall x, fs_share (fr s') x = fs_share (fr s) x) ->
  (forall r' j, R r' -> 256 <= j < 512 -> pm s' (word r' j) = pm s (word r' j)) -> forked P s s' k k.
Proof.
  intros Hok (X1 & X2 & X3 & X4) Hn Ht Hs Hup.
  assert (forall r' va, R r' -> user_page va -> leaf (pm s') r' va = leaf (pm s) r' va) as Hl
    by (intros r' va R' Hu; apply X2; [done|by apply user_page_path]).
  split; try done.
  - intros va Hu. rewrite Hl by done. destruct (P (full_path va)) eqn:E; [|done]. unfold fork_leaf. by destruct (Hn va Hu E) as [-> _].
  - intros va Hu. rewrite Hl by done. destruct (P (full_path va)) eqn:E; [|done]. unfold fork_leaf. by destruct (Hn va Hu E) as [-> ->].
  - intros r' va R' _ _ Hu. by apply Hl.
  - intros q _ _ _. rewrite tally_none; [|intros va Hu E; unfold ref_of; by destruct (Hn va Hu E) as [-> _]].
    rewrite Z.add_0_r, Hs. symmetry. apply wrap_small. apply (fs_share_word (fr s)), Hok.
  - rewrite tally_none; [lia|intros va Hu E; unfold count_of; by destruct (Hn va Hu E) as [-> _]].
Qed.

Lemma if_either {A} (r' : Z) (Q : Prop) `{!Decision Q} (x y : A) :
  (if bool_decide (r' = c /\ Q) then x else if bool_decide (r' = r /\ Q) then x else y) =
  (if bool_decide ((r' = c \/ r' = r) /\ Q) then x else y).
Proof. repeat case_bool_decide; naive_solver. Qed.

Lemma if_root {A} (r' : Z) (Q : Prop) `{!Decision Q} (x y : A) :
  (if bool_decide ((r' = c \/ r' = r) /\ Q) then x else y) =
  (if bool_decide (r' = c \/ r' = r) then if bool_decide Q then x else y else y).
Proof. repeat case_bool_decide; naive_solver. Qed.

Lemma spaces_inc m (f : F) x : spaces_ok R user_half m f -> spaces_ok R user_half m (fs_inc x f).
Proof.
  intros [S1 S2 S3 S4]. split; [by apply fs_inc_ok| |done|done]. intros r' p t R' Hv Hl Ht.
  destruct (S2 r' p t R' Hv Hl Ht). split; [done|]. by apply fs_inc_owned.
Qed.

Lemma sub_page va va' : user_page va -> user_page va' -> sub (full_path va) (full_path va') = bool_decide (va' = va).
Proof.
  intros Hu Hu'. apply Bool.eq_iff_eq_true. rewrite sub_true, bool_decide_eq_true. split.
  - intros [l E]. apply user_page_path_inj; try done. rewrite E. destruct l; [by rewrite app_nil_r|].
    apply (f_equal length) in E. rewrite length_app in E. cbn in E. lia.
  - intros ->. exists []. by rewrite app_nil_r.
Qed.

Lemma vpage_page va va' : user_page va -> user_page va' -> vpage va' = vpage va <-> va' = va.
Proof. intros Hu Hu'. rewrite <- full_path_vpage. split; [by apply user_page_path_inj|by intros ->]. Qed.

Lemma tally_one va g : user_page va -> tally (sub (full_path va)) g = g va.
Proof.
  intros Hu. destruct (user_page_va_of va Hu) as [Ev H4]. pose proof (path_range va) as Hp. unfold full_path in *.
  repeat match goal with H : Forall _ (_ :: _) |- _ => apply Forall_cons_iff in H as [? ?] end.
  rewrite tally_page by lia. by rewrite <- Ev.
Qed.

Lemma ref_nonneg m x va : 0 <= ref_of m x va <= 1.
Proof. unfold ref_of. destruct (leaf m r va); [|lia]. destruct (_ && _); lia. Qed.

(** Both leaves of a 4 KiB page rewritten. *)
Lemma pair_forked s va t t' pte (f : F) k k' :
  let e := if keeps false va pte then pte else write_protect pte in
  spaces_ok R user_half (pm s) (fr s) -> fs_ok f -> (forall o, fs_owned (fr s) o -> fs_owned f o) ->
  user_page va -> tab (pm s) r (table_path va) = Some t -> tab (pm s) c (table_path va) = Some t' ->
  pm s (word t (pt_idx va)) = pte -> is_set pte PAGE_PRESENT = true ->
  (forall x, 0 <= x -> x mod 4096 = 0 -> fs_tracked x -> fs_share f x = wrap 16 (fs_share (fr s) x + ref_of (pm s) x va)) ->
  k' = k + count_of (pm s) va ->
  forked (sub (full_path va)) s (mkVmm (poke (word t' (pt_idx va)) e (poke (word t (pt_idx va)) e (pm s))) f (rss s)) k k'.
Proof.
  intros e Hok Hf Ho Hu Ht Ht' Hpte Hpr Hsh Hk. destruct (user_page_path va Hu) as [Vp _].
  assert (leaf (pm s) r va = Some pte) as El by (rewrite (leaf_at_pt _ _ _ _ Ht), Hpte; unfold present; by rewrite Hpr).
  assert (in_huge (pm s) va = false) as Eh by (unfold in_huge; by rewrite Ht, bool_decide_false).
  assert (present e = fork_leaf (pm s) va) as Ee.
  { unfold fork_leaf. rewrite El, Eh. cbn. unfold e. destruct (keeps false va pte); [|by apply write_protect_present]. unfold present. by rewrite Hpr. }
  destruct (leaf_write R user_half (pm s) (fr s) r va t e Hok Hr Vp Ht) as (W1 & W2 & W3). set (m1 := poke (word t (pt_idx va)) e (pm s)) in *.
  destruct (leaf_write R user_half m1 (fr s) c va t' e W1 Hc Vp) as (V1 & V2 & V3); [rewrite W2; [done|done|by apply user_table_path|cbn; lia]|].
  set (m2 := poke (word t' (pt_idx va)) e m1) in *.
  assert (forall r' va', R r' -> user_page va' -> leaf m2 r' va' =
    if bool_decide ((r' = c \/ r' = r) /\ va' = va) then fork_leaf (pm s) va else leaf (pm s) r' va') as Hleaf.
  { intros r' va' R' Hu'. destruct (user_page_path va' Hu') as [Vp' _]. rewrite V3, W3, Ee by done. pose proof (vpage_page va va' Hu Hu') as Hvp.
    repeat case_bool_decide; naive_solver. }
  split; cbn [pm fr rss]; try done.
  - destruct V1 as [S1 S2 S3 S4]. split; [done| |done|done]. intros r' p t0 R' Hv Hl Ht0. destruct (S2 r' p t0 R' Hv Hl Ht0); auto.
  - intros va' Hu'. rewrite Hleaf, sub_page, if_root, bool_decide_true by auto. by case_bool_decide as E; [rewrite E|].
  - intros va' Hu'. rewrite Hleaf, sub_page, if_root, bool_decide_true by auto. by case_bool_decide as E; [rewrite E|].
  - intros r' va' R' N1 N2 Hu'. rewrite Hleaf, if_root, bool_decide_false by (done || tauto). done.
  - intros r' q R' Hv Hl _. by rewrite V2, W2.
  - intros x H1 H2 H3. rewrite Hsh by done. by rewrite tally_one.
  - by rewrite tally_one.
  - intros r' j R' Hj. unfold m2, m1, poke.
    pose proof (upper_apart (pm s) (fr s) r (table_path va) (pt_idx va) t r' j Hok Hr Vp ltac:(cbn; lia) Ht R' Hj) as U1.
    pose proof (upper_apart (pm s) (fr s) c (table_path va) (pt_idx va) t' r' j Hok Hc Vp ltac:(cbn; lia) Ht' R' Hj) as U2.
    apply Z.eqb_neq in U1, U2. by rewrite U1, U2.
Qed.

Definition idx4 (i4 i3 i2 i1 : Z) : Prop := 0 <= i4 < 256 /\ in_table i3 /\ in_table i2 /\ in_table i1.

Lemma idx4_page i4 i3 i2 i1 :
  idx4 i4 i3 i2 i1 -> let va := va_of i4 i3 i2 i1 in
  user_page va /\ full_path va = [i4; i3; i2; i1] /\ table_path va = [i4; i3; i2] /\ pt_idx va = i1 /\
  (((i4 .<< 39) .| (i3 .<< 30)) .| (i2 .<< 21)) .| (i1 .<< 12) = va.
Proof.
  intros (H4 & H3 & H2 & H1) va. destruct (user_va_of i4 i3 i2 i1 H4 H3 H2 H1) as [Hu Hp]. fold va in Hu, Hp.
  split_and!; [done|done| | |apply va_of_lor; unfold in_table in *; lia]; unfold full_path, table_path in *; congruence.
Qed.

Lemma fork_pte_forked s k i4 i3 i2 i1 t t' :
  idx4 i4 i3 i2 i1 -> spaces_ok R user_half (pm s) (fr s) ->
  tab (pm s) r [i4; i3; i2] = Some t -> tab (pm s) c [i4; i3; i2] = Some t' -> leaf (pm s) c (va_of i4 i3 i2 i1) = None ->
  let '(ok, (s', k')) := fork_pte dev onk (((i4 .<< 39) .| (i3 .<< 30)) .| (i2 .<< 21)) t t' i1 (s, k) in
  ok = true /\ forked (sub [i4; i3; i2; i1]) s s' k k'.
Proof.
  intros Hi Hok Ht Ht' Hcl. destruct (idx4_page _ _ _ _ Hi) as (Hu & Hp & Htp & Hpt & Hva). set (va := va_of i4 i3 i2 i1) in *.
  unfold fork_pte. rewrite Hva, <- Hp. set (pte := pm s (word t i1)).
  rewrite <- Htp in Ht, Ht'. pose proof (leaf_at_pt _ _ _ _ Ht) as El. rewrite Hpt in El. fold pte in El. unfold present in El.
  destruct (is_set pte PAGE_PRESENT) eqn:Ep; cbn [negb].
  2:{ split; [done|]. apply forked_none; try done.
      intros va' Hu' Hs. rewrite sub_page in Hs by done. by apply bool_decide_eq_true in Hs as ->. }
  assert (in_huge (pm s) va = false) as Eh by (unfold in_huge; by rewrite Ht, bool_decide_false).
  fold (kernel_leaf va pte). fold (write_protect pte).
  assert (kernel_leaf va pte || in_device_range dev va = keeps false va pte) as -> by done.
  assert (count_of (pm s) va = if kernel_leaf va pte then 0 else 1) as Ek by (unfold count_of; by rewrite El).
  assert (forall x, ref_of (pm s) x va = if negb (keeps false va pte) && (pte .& ADDR_MASK =? x) then 1 else 0) as Er
    by (intros x; unfold ref_of; by rewrite El, Eh).
  split; [done|]. unfold store, page_ref_inc_in. cbn [pm fr rss].
  destruct (keeps false va pte) eqn:Ekp; cbn [pm fr rss].
  - pose proof (pair_forked s va t t' pte (fr s) k (if kernel_leaf va pte then k else k + 1)) as Pf.
    cbn zeta in Pf. rewrite Hpt, Ekp in Pf. apply Pf; try done; [apply Hok| |rewrite Ek; destruct (kernel_leaf va pte); lia].
    intros x _ _ _. rewrite Er. cbn. rewrite Z.add_0_r. symmetry. apply wrap_small, fs_share_word, Hok.
  - pose proof (pair_forked s va t t' pte (fs_inc (pte .& ADDR_MASK) (fr s)) k (if kernel_leaf va pte then k else k + 1)) as Pf.
    cbn zeta in Pf. rewrite Hpt, Ekp in Pf. apply Pf; try done.
    + apply fs_inc_ok, Hok.
    + intros o Ho. by apply fs_inc_owned; [apply Hok|].
    + intros x Hx Hxm Hxt. destruct (addr_page pte) as [A1 A2]. rewrite fs_inc_share by (done || apply Hok). rewrite Er. cbn.
      destruct (_ =? x); [done|]. rewrite Z.add_0_r. symmetry. apply wrap_small, fs_share_word, Hok.
    + rewrite Ek. destruct (kernel_leaf va pte); lia.
Qed.

(** Nothing of the child below [p] yet. *)
Definition empty_below s p : Prop :=
  (forall q, vpath user_half q -> (length q <= 3)%nat -> sub p q = true -> tab (pm s) c q = None) /\
  (forall va, user_page va -> sub p (full_path va) = true -> leaf (pm s) c va = None).

Lemma empty_later P s s' k k' p :
  forked P s s' k k' -> (forall q, vpath user_half q -> P q = true -> sub p q = true -> False) -> empty_below s p -> empty_below s' p.
Proof.
  intros Hf Hd [E1 E2].
  assert (forall q, vpath user_half q -> sub p q = true -> P q = false) as Hx
    by (intros q Hv Hs; destruct (P q) eqn:E; [by destruct (Hd q)|done]).
  split.
  - intros q Hv Hl Hs. rewrite (fk_tab _ _ _ _ _ Hf); auto.
  - intros va Hu Hs. rewrite (fk_child _ _ _ _ _ Hf va Hu), Hx; [by auto|by apply user_page_path|done].
Qed.

(** A walk of the pages [P] that ran out of frames: some of them are dealt
    with. *)
Definition failed P s s' (k k' : Z) : Prop :=
  (exists P', (forall q, vpath user_half q -> P' q = true -> P q = true) /\ forked P' s s' k k') /\
  exists f : F, fs_ok f /\ fst (fs_alloc f) = None.

Definition outcome P s k (res : bool * (Vmm F * Z)) : Prop :=
  let '(ok, (s', k')) := res in if ok then forked P s s' k k' else failed P s s' k k'.

(** The walk of the table at [p], entry by entry. *)
Lemma loop_outcome p (N : nat) (body : Z -> Vmm F * Z -> bool * (Vmm F * Z)) s k t t' :
  spaces_ok R user_half (pm s) (fr s) -> (length p <= 3)%nat -> vpath user_half p ->
  tab (pm s) r p = Some t -> tab (pm s) c p = Some t' ->
  (forall i, 0 <= i < Z.of_nat N -> empty_below s (p ++ [i])) ->
  (forall s1 k1 i, 0 <= i < Z.of_nat N -> spaces_ok R user_half (pm s1) (fr s1) ->
     tab (pm s1) r p = Some t -> tab (pm s1) c p = Some t' -> empty_below s1 (p ++ [i]) ->
     outcome (sub (p ++ [i])) s1 k1 (body i (s1, k1))) ->
  outcome (under p (Z.of_nat N)) s k (for_range N 0 body (s, k)).
Proof.
  intros Hok Hl Hv Ht Ht' He Hb.
  assert (forall n i s1 k1, 0 <= i -> i + Z.of_nat n = Z.of_nat N -> forked (under p i) s s1 k k1 ->
            outcome (under p (Z.of_nat N)) s k (for_range n i body (s1, k1))) as Hgen.
  { induction n as [|n IH]; intros i s1 k1 Hi Hn Hf; cbn [for_range]. { cbn. by replace (Z.of_nat N) with i by lia. }
    specialize (Hb s1 k1 i ltac:(lia) (fk_ok _ _ _ _ _ Hf)).
    rewrite !(fk_tab _ _ _ _ _ Hf) in Hb; try done.
    2:{ intros _. unfold under. rewrite lookup_ge_None_2 by lia. apply andb_false_r. }
    specialize (Hb Ht Ht' ltac:(apply (empty_later _ _ _ _ _ _ Hf); [intros q _; apply under_sub_disjoint|apply He; lia])).
    destruct (body i (s1, k1)) as [[] [s2 k2]]; cbn in Hb.
    - apply IH; [lia|lia|]. apply (forked_ext (fun q => under p i q || sub (p ++ [i]) q)); [intros q _; by rewrite under_S|].
      apply (forked_trans _ _ s s1 s2 k k1 k2); [intros q _; apply under_sub_disjoint|done|done].
    - destruct Hb as [(P & HP & Hf2) Hx]. split; [|done]. exists (fun q => under p i q || P q). split.
      + intros q Hq HPq. apply (under_le p (i + 1)); [lia|]. rewrite under_S. apply orb_true_iff in HPq as [->|HPq]; [done|].
        rewrite (HP q) by done. apply orb_true_r.
      + apply (forked_trans _ _ s s1 s2 k k1 k2); [|done|done]. intros q Hq H1 H2. apply (under_sub_disjoint p i q H1). by apply HP. }
  apply Hgen; [lia|lia|]. apply (forked_ext (fun _ => false)); [intros q Hq; symmetry; by apply (under_0 user_half)|].
  apply forked_none; done.
Qed.

(** An address stands for its page. *)
Lemma page_of_path va : vpath user_half (full_path va) ->
  exists va', user_page va' /\ full_path va' = full_path va /\ forall m r', leaf m r' va = leaf m r' va'.
Proof.
  intros [Hp Hh]. unfold full_path, user_half in *.
  repeat match goal with H : Forall _ (_ :: _) |- _ => apply Forall_cons_iff in H as [? ?] end. apply Z.ltb_lt in Hh.
  destruct (user_va_of (pml4_idx va) (pdpt_idx va) (pd_idx va) (pt_idx va)) as [Hu Hf]; [lia..|].
  eexists. split; [exact Hu|split; [exact Hf|]]. intros m r'. unfold leaf. unfold full_path in Hf. by injection Hf as -> -> -> ->.
Qed.

Lemma forked_alloc s k : spaces_ok R user_half (pm s) (fr s) -> forked (fun _ => false) s (snd (alloc_table s)) k k.
Proof.
  intros Hok. destruct (alloc_extends R user_half s Hok) as [Hx Hp]. apply forked_none; try done.
  - intros r' q _ _ _ _. by rewrite Hp.
  - intros x. unfold alloc_table. pose proof (fs_alloc_share (fr s) x (so_src _ _ _ _ Hok)) as Hs. destruct (fs_alloc (fr s)). exact Hs.
  - intros r' j _ _. by rewrite Hp.
Qed.

Lemma fresh_outcome s k p i t' e :
  spaces_ok R user_half (pm s) (fr s) -> (length p <= 2)%nat -> vpath user_half (p ++ [i]) -> tab (pm s) c p = Some t' ->
  is_set e PAGE_PRESENT = true -> is_set e PAGE_HUGE = false -> empty_below s (p ++ [i]) ->
  let '(res, s1) := fresh_table t' i e s in
  match res with
  | None => forked (fun _ => false) s s1 k k /\ fst (fs_alloc (fr s)) = None
  | Some n => forked (fun q => bool_decide (q = p ++ [i])) s s1 k k /\ tab (pm s1) c (p ++ [i]) = Some n /\
      forall j, empty_below s1 ((p ++ [i]) ++ [j])
  end.
Proof.
  intros Hok Hl Hv Ht He Hh [E1 E2]. unfold fresh_table. pose proof (forked_alloc s k Hok) as Ha. unfold alloc_table in *.
  pose proof (fs_alloc_new (fr s)) as Hnew. pose proof (fs_alloc_share (fr s)) as Hsh.
  destruct (fs_alloc (fr s)) as [[n|] f'] eqn:Ea; cbn in Ha |- *; [|done].
  specialize (Hnew n (so_src _ _ _ _ Hok) eq_refl). cbn in Hnew, Hsh. destruct Hnew as (N1 & N2 & N3).
  unfold fill_page, store. cbn [pm fr rss]. set (m' := poke _ _ _).
  pose proof (linked_step n e N3 He Hh) as Hst.
  assert (tab (pm s) c (p ++ [i]) = None) as Hn0.
  { apply E1; [done|rewrite length_app; cbn; lia|]. rewrite <- (app_nil_r (p ++ [i])) at 2. apply sub_app. }
  assert (step_of (pm s (word t' i)) = None) as Hnone by (by rewrite tab_snoc, Ht in Hn0).
  destruct (link_extends R user_half s c p i t' n f' (fun _ => 0) (n .| (e .& notw 64 ADDR_MASK))) as [Hx Htab]; try done.
  { intros va l Hva Hp m'' Htab Hg. 
    assert (leaf (pm s) c va = None) as ->.
    { destruct (page_of_path va Hva) as (va' & Hu' & Hf' & ->). apply E2; [done|]. by rewrite Hf', Hp, (cons_middle i p l), app_assoc, sub_app. }
    destruct l as [|j l]; [apply (f_equal length) in Hp; rewrite length_app in Hp; cbn in Hp; lia|].
    apply (leaf_none_absent m'' c va (p ++ [i]) j l n); [by rewrite <- app_assoc|done|]. rewrite Hg; [done|].
    rewrite Hp in Hva. by apply (vpath_entry user_half (p ++ [i]) j l); rewrite <- app_assoc. }
  fold m' in Hx, Htab. cbn in Htab.
  assert (forked (fun q => bool_decide (q = p ++ [i])) s (mkVmm m' f' (rss s)) k k) as Hf.
  { apply forked_none; [done|done| | |intros x; by rewrite Hsh by apply Hok|].
    3:{ intros r' j R' Hj. cbn [pm]. unfold m', poke.
        pose proof (upper_apart (pm s) (fr s) c p i t' r' j Hok Hc Hv ltac:(lia) Ht R' Hj) as U. apply Z.eqb_neq in U. rewrite U.
        destruct (so_tab _ _ _ _ Hok r' [] r' R' ltac:(by split) ltac:(cbn; lia) eq_refl) as [[_ Hm'] Ho'].
        apply fill_out. intros Hx1. apply (pages_apart n r' (word r' j)); try done; [apply N3|by intros ->|apply word_page; [done|lia]]. }
    - intros va Hu Hb. apply bool_decide_eq_true in Hb. apply (f_equal length) in Hb. rewrite length_app in Hb. cbn in Hb. lia.
    - intros r' q R' Hq Hlq HP. cbn [pm].
      assert (forall x, x <> word t' i -> ~ n <= x < n + 4096 -> m' x = pm s x) as Hout.
      { intros x Hx1 Hx2. unfold m', poke. rewrite (proj2 (Z.eqb_neq _ _)) by done. by apply fill_out. }
      pose proof (link_local (pm s) m' (fr s) f' i t' n (conj N1 (conj N2 N3)) Hout) as Hloc.
      assert (~ through c p i r' q \/ through c p i r' q) as [Hth|[-> [l ->]]].
      { unfold through. destruct (decide (r' = c)); [|naive_solver]. destruct (prefix_case p i q); naive_solver. }
      + apply (tab_other R user_half (pm s) m' (fr s) c p i t' _ Hok Hc Hv ltac:(lia) Ht Hloc); try done. lia.
      + rewrite E1; [|done|done|by rewrite (cons_middle i p l), app_assoc, sub_app].
        rewrite (cons_middle i p l), app_assoc in Hq |- *. rewrite tab_app, Htab. cbn [mbind option_bind].
        destruct l as [|j l]; [specialize (HP eq_refl); by apply bool_decide_eq_false in HP|].
        cbn [tab]. unfold m', poke. destruct (Z.eqb_spec (word n j) (word t' i)) as [E|_].
        * apply word_inj in E as [-> _]; [|apply N3| |by apply (vpath_entry user_half (p ++ [i]) j l)|by apply (vpath_entry user_half p i [])].
          -- by destruct (so_tab _ _ _ _ Hok c p t' Hc (vpath_app _ _ _ Hv) ltac:(lia) Ht).
          -- destruct (so_tab _ _ _ _ Hok c p t' Hc (vpath_app _ _ _ Hv) ltac:(lia) Ht) as [[_ ?] _]; done.
        * rewrite fill_in by (by apply (vpath_entry user_half (p ++ [i]) j l)). done. }
  split_and!; [done|done|]. intros j. apply (empty_later _ _ _ _ _ _ Hf).
  - intros q _ Hq1 Hq2. apply bool_decide_eq_true in Hq1 as ->. apply sub_true in Hq2 as [l E].
    apply (f_equal length) in E. rewrite !length_app in E. cbn in E. lia.
  - split; [intros q Hq Hlq Hs; apply E1; try done|intros va Hu Hs; apply E2; try done];
      rewrite sub_snoc in Hs; by apply andb_true_iff in Hs as [? _].
Qed.

(** An entry that leads on: a table for the child, then the walk of both. *)
Lemma descend_outcome s k p i t t' e (inner : Z -> Vmm F * Z -> bool * (Vmm F * Z)) :
  spaces_ok R user_half (pm s) (fr s) -> (length p <= 2)%nat -> vpath user_half (p ++ [i]) ->
  tab (pm s) r p = Some t -> tab (pm s) c p = Some t' -> pm s (word t i) = e ->
  is_set e PAGE_PRESENT = true -> is_set e PAGE_HUGE = false -> empty_below s (p ++ [i]) ->
  (forall s1 n, spaces_ok R user_half (pm s1) (fr s1) -> tab (pm s1) r (p ++ [i]) = Some (e .& ADDR_MASK) ->
     tab (pm s1) c (p ++ [i]) = Some n -> (forall j, empty_below s1 ((p ++ [i]) ++ [j])) ->
     outcome (under (p ++ [i]) 512) s1 k (inner n (s1, k))) ->
  outcome (sub (p ++ [i])) s k
    (let '(res, s) := fresh_table t' i e s in
     match res with None => (false, (s, k)) | Some n => inner n (s, k) end).
Proof.
  intros Hok Hl Hv Ht Ht' Hw He Hh Hem Hin. pose proof (fresh_outcome s k p i t' e Hok Hl Hv Ht' He Hh Hem) as Hfr.
  destruct (fresh_table t' i e s) as [[n|] s1].
  - destruct Hfr as (Hf & Htn & Hem1). specialize (Hin s1 n (fk_ok _ _ _ _ _ Hf)).
    assert (tab (pm s1) r (p ++ [i]) = Some (e .& ADDR_MASK)) as Htr.
    { rewrite (fk_tab _ _ _ _ _ Hf); [|done|done|rewrite length_app; cbn; lia|done]. rewrite tab_snoc, Ht. cbn. rewrite Hw. unfold step_of. by rewrite He, Hh. }
    specialize (Hin Htr Htn Hem1). destruct (inner n (s1, k)) as [[] [s2 k2]]; cbn in Hin |- *.
    + apply (forked_ext (fun q => bool_decide (q = p ++ [i]) || under (p ++ [i]) 512 q)).
      * intros q Hq. by apply (under_512 user_half).
      * apply (forked_trans _ _ s s1 s2 k k k2); [|done|done]. intros q _ Hq. apply bool_decide_eq_true in Hq as ->.
        unfold under. rewrite lookup_ge_None_2 by lia. by rewrite andb_false_r.
    + destruct Hin as [(P & HP & Hf2) Hx]. split; [|done]. exists (fun q => bool_decide (q = p ++ [i]) || P q). split.
      * intros q Hq HPq. rewrite <- (under_512 user_half) by done. apply orb_true_iff in HPq as [->|HPq]; [done|].
        rewrite (HP q) by done. apply orb_true_r.
      * apply (forked_trans _ _ s s1 s2 k k k2); [|done|done]. intros q Hq Hq1 Hq2. apply bool_decide_eq_true in Hq1 as ->.
        specialize (HP _ Hq Hq2). unfold under in HP. rewrite lookup_ge_None_2 in HP by lia. by rewrite andb_false_r in HP.
  - destruct Hfr as [Hf Hx]. split; [|by exists (fr s); split; [apply Hok|]]. exists (fun _ => false). done.
Qed.

Lemma vpath_user p i4 : Forall (fun i => 0 <= i < 512) p -> head p = Some i4 -> i4 < 256 -> vpath user_half p.
Proof. intros Hf Hh Hi. split; [done|]. destruct p as [|i p]; [done|]. injection Hh as ->. unfold user_half. lia. Qed.

Lemma vpath_3 i4 i3 i2 : 0 <= i4 < 256 -> in_table i3 -> in_table i2 -> vpath user_half [i4; i3; i2].
Proof. unfold in_table. intros. apply (vpath_user _ i4); [repeat (apply Forall_cons_iff; split; [lia|]); constructor|done|lia]. Qed.

Lemma fork_pt_outcome s k i4 i3 i2 t t' :
  0 <= i4 < 256 -> in_table i3 -> in_table i2 -> spaces_ok R user_half (pm s) (fr s) ->
  tab (pm s) r [i4; i3; i2] = Some t -> tab (pm s) c [i4; i3; i2] = Some t' -> (forall i, empty_below s ([i4; i3; i2] ++ [i])) ->
  outcome (under [i4; i3; i2] 512) s k (fork_pt dev onk (((i4 .<< 39) .| (i3 .<< 30)) .| (i2 .<< 21)) t t' (s, k)).
Proof.
  intros H4 H3 H2 Hok Ht Ht' He. apply (loop_outcome [i4; i3; i2] 512 _ s k t t'); try done; [by apply vpath_3|].
  intros s1 k1 i1 Hi Hok1 Ht1 Ht1' [_ He1]. assert (idx4 i4 i3 i2 i1) as Hx by (unfold idx4, in_table in *; lia).
  destruct (idx4_page _ _ _ _ Hx) as (Hu & Hp & _).
  pose proof (fork_pte_forked s1 k1 i4 i3 i2 i1 t t' Hx Hok1 Ht1 Ht1') as Hf.
  destruct (fork_pte _ _ _ _ _ _ _) as [ok [s2 k2]]. destruct Hf as [-> Hf]; [|done].
  apply He1; [done|]. rewrite Hp. change ([i4; i3; i2; i1]) with ([i4; i3; i2] ++ [i1]). rewrite <- (app_nil_r ([i4; i3; i2] ++ [i1])) at 2. apply sub_app.
Qed.

(** An entry of a page directory that maps 2 MiB. *)
Lemma huge_write m (f : F) r0 p i t e :
  spaces_ok R user_half m f -> R r0 -> vpath user_half (p ++ [i]) -> length p = 2%nat -> tab m r0 p = Some t ->
  step_of (m (word t i)) = None -> step_of e = None ->
  let m' := poke (word t i) e m in
  spaces_ok R user_half m' f /\ (forall r' q, tab m' r' q = tab m r' q) /\
  (forall r' va, R r' -> vpath user_half (full_path va) ->
     leaf m' r' va = if bool_decide (r' = r0 /\ table_path va = p ++ [i]) then huge_leaf e (pt_idx va) else leaf m r' va).
Proof.
  intros Hok R0 Hv Hl Ht Hn He m'.
  assert (forall x, step_of (m' x) = step_of (m x)) as Hs by (intros x; unfold m', poke; destruct (Z.eqb_spec x (word t i)) as [->|]; congruence).
  assert (forall r' q, tab m' r' q = tab m r' q) as Htab.
  { intros r' q. revert r'. induction q as [|j q IH]; intros r'; cbn; [done|]. rewrite Hs. destruct (step_of (m (word r' j))); cbn; [apply IH|done]. }
  split; [|split; [done|]].
  - destruct Hok as [S1 S2 S3 S4]. split; [done| | |].
    + intros r' q t1. rewrite Htab. apply S2.
    + intros r1 p1 r2 p2 t1. rewrite !Htab. apply S3.
    + intros r' q t1 j R' Hq Hlq. rewrite Htab. intros Ht1. unfold m', poke.
      destruct (Z.eqb_spec (word t1 j) (word t i)) as [E|]; [exfalso|by apply (S4 r' q t1 j)].
      destruct (word_place R user_half m f r' q j t1 r0 p i t) as (_ & -> & _); try done; [lia|lia|]. lia.
  - intros r' va R' Hva. destruct (bool_decide_reflect (r' = r0 /\ table_path va = p ++ [i])) as [[-> E]|Hne].
    + destruct p as [|a [|b [|]]]; try done. injection E as <- <- <-. unfold leaf. rewrite Htab, Ht. cbn [mbind option_bind].
      assert (m' (word t (pd_idx va)) = e) as -> by (unfold m', poke; by rewrite Z.eqb_refl). unfold leaf_of. by rewrite He.
    + apply (leaf_other R user_half m m' f r0 p i t (fun _ => False)); try done; [lia| |].
      * split; [|by intros o x _ _ _ []]. intros x Hx _. unfold m', poke. by rewrite (proj2 (Z.eqb_neq _ _)).
      * intros [-> [l E]]. apply Hne. split; [done|]. destruct p as [|a [|b [|]]]; try done. unfold full_path in E. injection E as <- <- <- _. done.
Qed.

Lemma for_range_snoc {S} n i (body : Z -> S -> bool * S) st :
  for_range (Datatypes.S n) i body st = let '(ok, st) := for_range n i body st in if ok then body (i + Z.of_nat n) st else (false, st).
Proof.
  revert i st. induction n as [|n IH]; intros i st.
  - cbn. rewrite Z.add_0_r. by destruct (body i st) as [[] ?].
  - change (for_range (Datatypes.S (Datatypes.S n)) i body st) with
      (let '(ok, st) := body i st in if ok then for_range (Datatypes.S n) (i + 1) body st else (false, st)).
    change (for_range (Datatypes.S n) i body st) with (let '(ok, st) := body i st in if ok then for_range n (i + 1) body st else (false, st)).
    destruct (body i st) as [[] st1]; [|done]. rewrite IH. replace (i + 1 + Z.of_nat n) with (i + Z.of_nat (Datatypes.S n)) by lia. done.
Qed.

Lemma inc_range base n s (k : Z) :
  fs_ok (fr s) -> 0 <= base -> base mod 4096 = 0 ->
  exists f, for_range n 0 (fun sub '(s, k) => (true, (page_ref_inc_in (base + sub * 0x1000) s, k))) (s, k) = (true, (mkVmm (pm s) f (rss s), k)) /\
    fs_ok f /\ (forall o, fs_owned (fr s) o -> fs_owned f o) /\
    (forall x, 0 <= x -> x mod 4096 = 0 -> fs_tracked x ->
       fs_share f x = wrap 16 (fs_share (fr s) x + zsum (fun d => if base + d * 4096 =? x then 1 else 0) n)).
Proof.
  intros Hok Hb Hm. induction n as [|n (f & E & F1 & F2 & F3)].
  - exists (fr s). cbn. destruct s. split_and!; try done. intros x _ _ _. rewrite Z.add_0_r. symmetry. by apply wrap_small, fs_share_word.
  - rewrite for_range_snoc, E. exists (fs_inc (base + Z.of_nat n * 4096) f). cbn [page_ref_inc_in pm fr rss].
    split_and!; [done|by apply fs_inc_ok|by intros o Ho; apply fs_inc_owned; auto|].
    intros x Hx Hxm Hxt. rewrite fs_inc_share; [|done|lia| |done|done|done].
    2:{ rewrite Z.mod_add by lia. done. }
    rewrite F3 by done. cbn [zsum]. destruct (_ =? x).
    + rewrite wrap_wrap_add by lia. by rewrite Z.add_assoc.
    + by rewrite Z.add_0_r.
Qed.

Lemma sub_table p va : length p = 3%nat -> sub p (full_path va) = bool_decide (table_path va = p).
Proof.
  intros Hl. apply Bool.eq_iff_eq_true. rewrite sub_true, bool_decide_eq_true. split.
  - intros [l E]. destruct p as [|a [|b [|d [|]]]]; try done. unfold full_path in E. by injection E as <- <- <- _.
  - intros <-. by exists [pt_idx va].
Qed.

Lemma table_page va i4 i3 i2 :
  user_page va -> table_path va = [i4; i3; i2] -> in_table (pt_idx va) /\ va = va_of i4 i3 i2 0 + pt_idx va * 4096 /\ va_of i4 i3 i2 0 mod 2 ^ 21 = 0.
Proof.
  intros Hu E. destruct (user_page_va_of va Hu) as [Ev _]. unfold table_path in E. injection E as E4 E3 E2. rewrite E4, E3, E2 in Ev.
  split_and!; [apply idx_range|rewrite Ev at 1; unfold va_of; lia|]. unfold va_of.
  replace ((((i4 * 512 + i3) * 512 + i2) * 512 + 0) * 4096) with (((i4 * 512 + i3) * 512 + i2) * 2 ^ 21) by lia. apply Z.mod_mul. lia.
Qed.

Definition kernel_2m (i4 i3 i2 pde : Z) : bool := onk && is_identity_map_phys (va_of i4 i3 i2 0) (pde .& HUGE_MASK).
Definition fork_2m (i4 i3 i2 pde : Z) : Z := if kernel_2m i4 i3 i2 pde then pde else (pde .& HUGE_MASK) .| flags_ro pde.

(** What the walk makes of a page inside a 2 MiB page. *)
Lemma huge_page_view m i4 i3 i2 t pde va :
  tab m r [i4; i3] = Some t -> m (word t i2) = pde -> is_set pde PAGE_PRESENT = true -> is_set pde PAGE_HUGE = true ->
  user_page va -> table_path va = [i4; i3; i2] ->
  fork_leaf m va = huge_leaf (fork_2m i4 i3 i2 pde) (pt_idx va) /\
  count_of m va = (if kernel_2m i4 i3 i2 pde then 0 else 1) /\
  (forall x, ref_of m x va = if negb (kernel_2m i4 i3 i2 pde) && (pde .& HUGE_MASK + pt_idx va * 4096 =? x) then 1 else 0).
Proof.
  intros Ht Hw Hp Hh Hu E. destruct (table_page va i4 i3 i2 Hu E) as (Hi & Ev & Hm). pose proof E as E'. unfold table_path in E'. injection E' as E4 E3 E2.
  assert (leaf m r va = Some (split_entry pde (pt_idx va))) as El.
  { unfold leaf. rewrite E4, E3, E2, Ht. cbn [mbind option_bind]. rewrite Hw. unfold leaf_of, step_of, huge_leaf. by rewrite Hp, Hh. }
  assert (in_huge m va = true) as Eh.
  { unfold in_huge. rewrite E. change [i4; i3; i2] with ([i4; i3] ++ [i2]). rewrite tab_snoc, Ht. cbn. rewrite Hw. unfold step_of. by rewrite Hp, Hh. }
  assert (kernel_leaf va (split_entry pde (pt_idx va)) = kernel_2m i4 i3 i2 pde) as Ek.
  { unfold kernel_leaf, kernel_2m. rewrite split_entry_addr by exact Hi. rewrite Ev at 1. by rewrite identity_2m. }
  split_and!.
  - unfold fork_leaf, keeps. rewrite El. cbn [fmap option_fmap option_map]. rewrite Eh, Ek. cbn [negb andb]. rewrite orb_false_r. unfold huge_leaf, fork_2m.
    destruct (kernel_2m i4 i3 i2 pde); [by rewrite Hp, Hh|]. unfold PAGE_PRESENT, PAGE_HUGE in *.
    rewrite !protected_set by (apply huge_base_bits || lia). rewrite Hp, Hh. cbn. by rewrite split_write_protect.
  - unfold count_of. by rewrite El, Ek.
  - intros x. unfold ref_of, keeps. rewrite El, Eh, Ek, split_entry_addr by exact Hi. cbn. by rewrite orb_false_r.
Qed.

Lemma fork_2m_step i4 i3 i2 pde : is_set pde PAGE_PRESENT = true -> is_set pde PAGE_HUGE = true -> step_of (fork_2m i4 i3 i2 pde) = None.
Proof.
  intros Hp Hh. unfold fork_2m. destruct (kernel_2m _ _ _ _); [unfold step_of; by rewrite Hp, Hh|].
  unfold step_of, PAGE_PRESENT, PAGE_HUGE in *. rewrite !protected_set by (apply huge_base_bits || lia). by rewrite Hp, Hh.
Qed.

(** Both entries of a 2 MiB page rewritten. *)
Lemma huge_pair_forked s i4 i3 i2 t t' pde (f : F) k k' :
  let e := fork_2m i4 i3 i2 pde in
  0 <= i4 < 256 -> in_table i3 -> in_table i2 -> spaces_ok R user_half (pm s) (fr s) -> fs_ok f ->
  (forall o, fs_owned (fr s) o -> fs_owned f o) ->
  tab (pm s) r [i4; i3] = Some t -> tab (pm s) c [i4; i3] = Some t' -> tab (pm s) c [i4; i3; i2] = None ->
  pm s (word t i2) = pde -> is_set pde PAGE_PRESENT = true -> is_set pde PAGE_HUGE = true ->
  (forall x, 0 <= x -> x mod 4096 = 0 -> fs_tracked x -> fs_share f x = wrap 16 (fs_share (fr s) x +
     zsum (fun d => if negb (kernel_2m i4 i3 i2 pde) && (pde .& HUGE_MASK + d * 4096 =? x) then 1 else 0) 512)) ->
  k' = k + (if kernel_2m i4 i3 i2 pde then 0 else 512) ->
  forked (sub [i4; i3; i2]) s (mkVmm (poke (word t' i2) e (poke (word t i2) e (pm s))) f (rss s)) k k'.
Proof.
  intros e H4 H3 H2 Hok Hf Ho Ht Ht' Hn Hw Hp Hh Hsh Hk. pose proof (vpath_3 i4 i3 i2 H4 H3 H2) as Hv.
  pose proof (fork_2m_step i4 i3 i2 pde Hp Hh) as He. fold e in He.
  assert (step_of (pm s (word t i2)) = None) as Hn1 by (rewrite Hw; unfold step_of; by rewrite Hp, Hh).
  destruct (huge_write (pm s) (fr s) r [i4; i3] i2 t e Hok Hr Hv eq_refl Ht Hn1 He) as (W1 & W2 & W3). set (m1 := poke (word t i2) e (pm s)) in *.
  assert (step_of (m1 (word t' i2)) = None) as Hn2.
  { change [i4; i3; i2] with ([i4; i3] ++ [i2]) in Hn. rewrite <- W2, tab_snoc, W2, Ht' in Hn. exact Hn. }
  destruct (huge_write m1 (fr s) c [i4; i3] i2 t' e W1 Hc Hv eq_refl) as (V1 & V2 & V3); [by rewrite W2|done|done|].
  set (m2 := poke (word t' i2) e m1) in *.
  assert (forall r' va, R r' -> user_page va -> leaf m2 r' va =
    if bool_decide ((r' = c \/ r' = r) /\ table_path va = [i4; i3; i2]) then fork_leaf (pm s) va else leaf (pm s) r' va) as Hleaf.
  { intros r' va R' Hu. destruct (user_page_path va Hu) as [Vp _]. rewrite V3, W3 by done. cbn [app].
    rewrite if_either. destruct (bool_decide_reflect ((r' = c \/ r' = r) /\ table_path va = [i4; i3; i2])) as [[_ E]|]; [|done].
    symmetry. by apply (huge_page_view (pm s) i4 i3 i2 t pde va Ht Hw Hp Hh Hu E). }
  assert (forall d, 0 <= d < 512 -> user_page (va_of i4 i3 i2 d) /\ table_path (va_of i4 i3 i2 d) = [i4; i3; i2] /\ pt_idx (va_of i4 i3 i2 d) = d) as Hd.
  { intros d Hd. assert (idx4 i4 i3 i2 d) as Hx by (unfold idx4, in_table in *; lia). by destruct (idx4_page _ _ _ _ Hx) as (? & _ & ? & ? & _). }
  split; cbn [pm fr rss]; try done.
  - destruct V1 as [S1 S2 S3 S4]. split; [done| |done|done]. intros r' p t0 R' Hvp Hl Ht0. destruct (S2 r' p t0 R' Hvp Hl Ht0); auto.
  - intros va Hu. rewrite Hleaf, sub_table, if_root, bool_decide_true by auto. done.
  - intros va Hu. rewrite Hleaf, sub_table, if_root, bool_decide_true by auto. done.
  - intros r' va R' N1 N2 Hu. rewrite Hleaf, if_root, bool_decide_false by (done || tauto). done.
  - intros r' q R' Hvq Hl _. by rewrite V2, W2.
  - intros x X1 X2 X3. rewrite Hsh by done. rewrite tally_table by (unfold in_table in *; lia).
    rewrite (zsum_ext (fun d => ref_of (pm s) x (va_of i4 i3 i2 d)) (fun d => if negb (kernel_2m i4 i3 i2 pde) && (pde .& HUGE_MASK + d * 4096 =? x) then 1 else 0)); [done|].
    intros d Hdr. destruct (Hd d ltac:(lia)) as (Hu & E & Ei). destruct (huge_page_view (pm s) i4 i3 i2 t pde _ Ht Hw Hp Hh Hu E) as (_ & _ & ->). by rewrite Ei.
  - rewrite Hk, tally_table by (unfold in_table in *; lia).
    rewrite (zsum_ext (fun d => count_of (pm s) (va_of i4 i3 i2 d)) (fun _ => if kernel_2m i4 i3 i2 pde then 0 else 1)).
    + rewrite zsum_const. by destruct (kernel_2m _ _ _ _).
    + intros d Hdr. destruct (Hd d ltac:(lia)) as (Hu & E & Ei). by destruct (huge_page_view (pm s) i4 i3 i2 t pde _ Ht Hw Hp Hh Hu E) as (_ & -> & _).
  - intros r' j R' Hj. unfold m2, m1, poke.
    pose proof (upper_apart (pm s) (fr s) r [i4; i3] i2 t r' j Hok Hr Hv ltac:(cbn; lia) Ht R' Hj) as U1.
    pose proof (upper_apart (pm s) (fr s) c [i4; i3] i2 t' r' j Hok Hc Hv ltac:(cbn; lia) Ht' R' Hj) as U2.
    apply Z.eqb_neq in U1, U2. by rewrite U1, U2.
Qed.

Lemma absent_forked s k p i t :
  spaces_ok R user_half (pm s) (fr s) -> tab (pm s) r p = Some t -> is_set (pm s (word t i)) PAGE_PRESENT = false ->
  empty_below s (p ++ [i]) -> forked (sub (p ++ [i])) s s k k.
Proof.
  intros Hok Ht He [_ E2]. apply forked_none; try done. intros va Hu Hs. split; [|by apply E2].
  apply sub_true in Hs as [l Hs]. rewrite <- app_assoc in Hs. by apply (leaf_none_absent _ _ _ p i l t).
Qed.

Lemma va_2m_lor i4 i3 i2 : 0 <= i4 < 256 -> in_table i3 -> in_table i2 -> ((i4 .<< 39) .| (i3 .<< 30)) .| (i2 .<< 21) = va_of i4 i3 i2 0.
Proof.
  unfold in_table. intros. rewrite <- va_of_lor by (unfold in_table; lia). by rewrite Z.shiftl_0_l, Z.lor_0_r.
Qed.

Lemma fork_pde_outcome s k i4 i3 i2 t t' :
  0 <= i4 < 256 -> in_table i3 -> in_table i2 -> spaces_ok R user_half (pm s) (fr s) ->
  tab (pm s) r [i4; i3] = Some t -> tab (pm s) c [i4; i3] = Some t' -> empty_below s ([i4; i3] ++ [i2]) ->
  outcome (sub ([i4; i3] ++ [i2])) s k (fork_pde dev onk ((i4 .<< 39) .| (i3 .<< 30)) t t' i2 (s, k)).
Proof.
  intros H4 H3 H2 Hok Ht Ht' He. unfold fork_pde. pose proof (vpath_3 i4 i3 i2 H4 H3 H2) as Hv. set (pde := pm s (word t i2)).
  destruct (is_set pde PAGE_PRESENT) eqn:Ep; cbn [negb]; [|by apply (absent_forked s k _ _ t)].
  destruct (is_set pde PAGE_HUGE) eqn:Eh.
  - rewrite va_2m_lor by done. fold (kernel_2m i4 i3 i2 pde). fold (fork_2m i4 i3 i2 pde).
    assert (tab (pm s) c [i4; i3; i2] = None) as Hn by (apply (proj1 He); [done|cbn; lia|apply (sub_app [i4; i3; i2] [])]).
    destruct (kernel_2m i4 i3 i2 pde) eqn:Ek.
    + cbn. unfold store. cbn [pm fr rss]. apply (huge_pair_forked s i4 i3 i2 t t' pde); try done; [apply Hok| |rewrite Ek; lia].
      intros x _ _ _. rewrite Ek. cbn [negb andb]. rewrite zsum_zero by done. rewrite Z.add_0_r. symmetry. apply wrap_small, fs_share_word, Hok.
    + destruct (huge_base_page pde 0 ltac:(lia)) as [_ Hb]. rewrite Z.mul_0_l, Z.add_0_r in Hb.
      destruct (inc_range (pde .& HUGE_MASK) 512 (store (word t' i2) (fork_2m i4 i3 i2 pde) (store (word t i2) (fork_2m i4 i3 i2 pde) s)) (k + 512))
        as (f & E & F1 & F2 & F3); [apply Hok|lia| |].
      { change HUGE_MASK with (HUGE_MASK .& ADDR_MASK). rewrite Z.land_assoc. apply addr_page. }
      rewrite E. cbn. apply (huge_pair_forked s i4 i3 i2 t t' pde); try done; rewrite Ek; [exact F3|lia].
  - apply (descend_outcome s k [i4; i3] i2 t t' pde (fun n => fork_pt dev onk (((i4 .<< 39) .| (i3 .<< 30)) .| (i2 .<< 21)) (pde .& ADDR_MASK) n)); try done.
    intros s1 n Hok1 T1 T2 He1. by apply fork_pt_outcome.
Qed.

Lemma fork_pd_outcome s k i4 i3 t t' :
  0 <= i4 < 256 -> in_table i3 -> spaces_ok R user_half (pm s) (fr s) ->
  tab (pm s) r [i4; i3] = Some t -> tab (pm s) c [i4; i3] = Some t' -> (forall i, empty_below s ([i4; i3] ++ [i])) ->
  outcome (under [i4; i3] 512) s k (fork_pd dev onk ((i4 .<< 39) .| (i3 .<< 30)) t t' (s, k)).
Proof.
  intros H4 H3 Hok Ht Ht' He. apply (loop_outcome [i4; i3] 512 _ s k t t'); try done; [cbn; lia| |].
  - apply (vpath_app user_half [i4; i3] [0]). apply vpath_3; unfold in_table in *; lia.
  - intros s1 k1 i2 Hi Hok1 T1 T2 He1. apply fork_pde_outcome; try done.
Qed.

Lemma fork_pdpte_outcome s k i4 i3 t t' :
  0 <= i4 < 256 -> in_table i3 -> spaces_ok R user_half (pm s) (fr s) ->
  tab (pm s) r [i4] = Some t -> tab (pm s) c [i4] = Some t' -> empty_below s ([i4] ++ [i3]) ->
  outcome (sub ([i4] ++ [i3])) s k (fork_pdpte dev onk i4 t t' i3 (s, k)).
Proof.
  intros H4 H3 Hok Ht Ht' He. unfold fork_pdpte. set (e := pm s (word t i3)).
  assert (vpath user_half ([i4] ++ [i3])) as Hv by (apply (vpath_app user_half [i4; i3] [0]), vpath_3; unfold in_table in *; lia).
  destruct (is_set e PAGE_PRESENT) eqn:Ep; cbn [negb]; [|by apply (absent_forked s k _ _ t)].
  pose proof (so_small _ _ _ _ Hok r [i4] t i3 Hr Hv ltac:(cbn; lia) Ht Ep) as Eh. fold e in Eh. rewrite Eh.
  apply (descend_outcome s k [i4] i3 t t' e (fun n => fork_pd dev onk ((i4 .<< 39) .| (i3 .<< 30)) (e .& ADDR_MASK) n)); try done; [cbn; lia|].
  intros s1 n Hok1 T1 T2 He1. by apply fork_pd_outcome.
Qed.

Lemma fork_pdpt_outcome s k i4 t t' :
  0 <= i4 < 256 -> spaces_ok R user_half (pm s) (fr s) ->
  tab (pm s) r [i4] = Some t -> tab (pm s) c [i4] = Some t' -> (forall i, empty_below s ([i4] ++ [i])) ->
  outcome (under [i4] 512) s k (fork_pdpt dev onk i4 t t' (s, k)).
Proof.
  intros H4 Hok Ht Ht' He. apply (loop_outcome [i4] 512 _ s k t t'); try done; [cbn; lia| |].
  - apply (vpath_app user_half [i4] [0; 0]), vpath_3; unfold in_table in *; lia.
  - intros s1 k1 i3 Hi Hok1 T1 T2 He1. apply fork_pdpte_outcome; try done.
Qed.

Lemma fork_pml4_outcome s k :
  spaces_ok R user_half (pm s) (fr s) -> (forall i, 0 <= i < 256 -> empty_below s ([] ++ [i])) ->
  outcome (fun q => negb (bool_decide (q = []))) s k (fork_pml4 dev onk r c (s, k)).
Proof.
  intros Hok He.
  assert (outcome (under [] 256) s k (fork_pml4 dev onk r c (s, k))) as Ho.
  { apply (loop_outcome [] 256 _ s k r c); try done; [cbn; lia|]. intros s1 k1 i4 Hi Hok1 T1 T2 He1.
    assert (vpath user_half ([] ++ [i4])) as Hv by (apply (vpath_app user_half [i4] [0; 0]), vpath_3; unfold in_table in *; lia).
    unfold fork_pml4e. set (e := pm s1 (word r i4)).
    destruct (is_set e PAGE_PRESENT) eqn:Ep; cbn [negb]; [|by apply (absent_forked s1 k1 [] i4 r)].
    pose proof (so_small _ _ _ _ Hok1 r [] r i4 Hr Hv ltac:(cbn; lia) T1 Ep) as Eh. fold e in Eh.
    apply (descend_outcome s1 k1 [] i4 r c e (fun n => fork_pdpt dev onk i4 (e .& ADDR_MASK) n)); try done; [cbn; lia|].
    intros s2 n Hok2 U1 U2 He2. apply fork_pdpt_outcome; try done. }
  assert (forall q, vpath user_half q -> under [] 256 q = negb (bool_decide (q = []))) as Hu.
  { intros [|i q] [Hf Hh]; [done|]. unfold under. assert (sub [] (i :: q) = true) as -> by apply (sub_app [] (i :: q)). unfold user_half in Hh. cbn. lia. }
  destruct (fork_pml4 dev onk r c (s, k)) as [[] [s' k']]; cbn in Ho |- *; [by apply (forked_ext (under [] 256))|].
  destruct Ho as [(P & HP & Hf) Hx]. split; [|done]. exists P. split; [|done]. intros q Hq HPq. rewrite <- Hu by done. by apply HP.
Qed.
End forked.
