(* ===== verification/AddressSpace.v ===== *)
(** * Address spaces (kernel/src/mm/vma.rs)

    What [new_user] and [clone_for_fork] promise, over any frame source with
    reference counts. *)

From S2P Require Import Prelude InodePins Vma Rss PageTable Resident Fork ForkWalk.

#[local] Arguments find : simpl never.
#[local] Arguments attach : simpl never.
#[local] Arguments account : simpl never.
#[local] Arguments counter : simpl never.

Definition with_root (R : Z -> Prop) (c : Z) : Z -> Prop := fun x => R x \/ x = c.

Section spaces.
Context {F : Type} `{FrameSourceLaws F} `{!FrameRefs F} `{!FrameRefsLaws F}.
Implicit Types (s : Vmm F) (R : Z -> Prop) (r : Z) (q : list Z) (m : Z -> Z).

Lemma spaces_ok_sub (R R' : Z -> Prop) own m (f : F) : (forall r, R r -> R' r) -> spaces_ok R' own m f -> spaces_ok R own m f.
Proof. intros Hs [S1 S2 S3 S4]. split; [done|by eauto|by eauto 20|by eauto]. Qed.

(** Writing a page that is in nobody's hands. *)
Lemma fresh_page_tabs R own m m' (f : F) n :
  spaces_ok R own m f -> ~ fs_owned f n -> page_frame n -> (forall x, ~ n <= x < n + 4096 -> m' x = m x) ->
  (forall r q, R r -> vpath own q -> (length q <= 4)%nat -> tab m' r q = tab m r q) /\
  (forall r va, R r -> vpath own (full_path va) -> leaf m' r va = leaf m r va) /\
  (forall r p i t, R r -> vpath own (p ++ [i]) -> (length p <= 3)%nat -> tab m r p = Some t -> m' (word t i) = m (word t i)).
Proof.
  intros Hok Hn [_ Hp] Ho.
  assert (forall r p i t, R r -> vpath own (p ++ [i]) -> (length p <= 3)%nat -> tab m r p = Some t -> m' (word t i) = m (word t i)) as Hw.
  { intros r p i t Hr Hv Hl Ht. destruct (so_tab _ _ _ _ Hok r p t Hr (vpath_app _ _ _ Hv) Hl Ht) as [[_ Hpt] Hown].
    apply Ho. intros Hx. apply (pages_apart n t (word t i)); try done; [by intros ->|].
    apply word_page; [done|]. by apply (vpath_entry own p i []). }
  split_and!; [| |done].
  - intros r q Hr Hv Hl. apply tab_frame. intros p i l t -> Ht. rewrite length_app in Hl. cbn in Hl. apply (Hw r p i t); try done; [|lia].
    by apply (vpath_idx own p i l).
  - intros r va Hr Hv. apply leaf_frame. intros p i l t E Ht. apply (Hw r p i t); try done; [apply (vpath_idx own p i l); by rewrite <- E|].
    apply (f_equal length) in E. rewrite length_app in E. cbn in E. lia.
Qed.

(** A new root whose private half is empty. *)
Lemma new_root_ok R own m m' (f f' : F) n :
  spaces_ok R own m f -> fs_ok f' -> (forall o, fs_owned f o -> fs_owned f' o) ->
  ~ fs_owned f n -> fs_owned f' n -> page_frame n -> (forall x, ~ n <= x < n + 4096 -> m' x = m x) ->
  (forall i, 0 <= i < 512 -> own i = true -> m' (word n i) = 0) ->
  spaces_ok (with_root R n) own m' f' /\ ~ R n /\ (forall q, vpath own q -> q <> [] -> tab m' n q = None).
Proof.
  intros Hok Hf' Hk Hn1 Hn2 Hp Ho Hz. destruct (fresh_page_tabs R own m m' f n Hok Hn1 Hp Ho) as (T & _ & W).
  assert (~ R n) as HRn by (intros HR; by destruct (so_tab _ _ _ _ Hok n [] n HR ltac:(by split) ltac:(cbn; lia) eq_refl)).
  assert (forall i, 0 <= i < 512 -> own i = true -> step_of (m' (word n i)) = None) as Hst by (intros i Hi Hoi; by rewrite Hz).
  assert (forall q, vpath own q -> q <> [] -> tab m' n q = None) as Hnone.
  { intros [|i q] [Hv Hh] Hq; [done|]. cbn. rewrite Hst; [done|by apply Forall_cons_iff in Hv as [? _]|done]. }
  assert (forall r q t, with_root R n r -> vpath own q -> (length q <= 3)%nat -> tab m' r q = Some t ->
            (r = n /\ q = [] /\ t = n) \/ (R r /\ tab m r q = Some t)) as Hcase.
  { intros r q t [Hr| ->] Hv Hl Ht; [right; split; [done|]; rewrite <- T by (done || lia); done|]. left.
    destruct q as [|i q]; [by injection Ht as <-|]. by rewrite Hnone in Ht. }
  split_and!; [|done|done]. split; [done| | |].
  - intros r q t Hr Hv Hl Ht. destruct (Hcase r q t Hr Hv Hl Ht) as [(-> & -> & ->)|[Hr' Ht']]; [done|].
    destruct (so_tab _ _ _ _ Hok r q t Hr' Hv Hl Ht'); auto.
  - intros r1 p1 r2 p2 t Hr1 Hv1 Hl1 Ht1 Hr2 Hv2 Hl2 Ht2.
    destruct (Hcase _ _ _ Hr1 Hv1 Hl1 Ht1) as [(-> & -> & ->)|[R1 U1]], (Hcase _ _ _ Hr2 Hv2 Hl2 Ht2) as [(-> & -> & E)|[R2 U2]]; [done| | |].
    + by destruct (so_tab _ _ _ _ Hok r2 p2 n R2 Hv2 Hl2 U2).
    + subst t. by destruct (so_tab _ _ _ _ Hok r1 p1 n R1 Hv1 Hl1 U1).
    + by apply (so_inj _ _ _ _ Hok r1 p1 r2 p2 t).
  - intros r q t i Hr Hv Hl Ht Hpr. destruct (Hcase r q t Hr (vpath_app _ _ _ Hv) ltac:(lia) Ht) as [(-> & -> & ->)|[Hr' Ht']].
    + destruct Hv as [Hv Hh]. apply Forall_cons_iff in Hv as [Hi _]. by rewrite Hz in Hpr.
    + rewrite (W r q i t) in Hpr |- * by (done || lia). by apply (so_small _ _ _ _ Hok r q t i).
Qed.

Lemma new_pml4_spec R s src :
  spaces_ok R user_half (pm s) (fr s) ->
  let '(res, s1) := new_pml4 src s in
  rss s1 = rss s /\ (forall o, fs_owned (fr s) o -> fs_owned (fr s1) o) /\ (forall x, fs_share (fr s1) x = fs_share (fr s) x) /\
  (forall r va, R r -> vpath user_half (full_path va) -> leaf (pm s1) r va = leaf (pm s) r va) /\
  (forall r q, R r -> vpath user_half q -> (length q <= 4)%nat -> tab (pm s1) r q = tab (pm s) r q) /\
  match res with
  | None => spaces_ok R user_half (pm s1) (fr s1) /\ fst (fs_alloc (fr s)) = None
  | Some c => ~ R c /\ spaces_ok (with_root R c) user_half (pm s1) (fr s1) /\
      (forall q, vpath user_half q -> q <> [] -> tab (pm s1) c q = None) /\
      (forall va, user_page va -> leaf (pm s1) c va = None) /\
      (page_frame src -> fs_owned (fr s) src -> forall i, 256 <= i < 512 -> pm s1 (word c i) = pm s (word src i))
  end.
Proof.
  intros Hok. unfold new_pml4. destruct (alloc_extends R user_half s Hok) as [(X1 & X2 & X3 & X4) Xp]. unfold alloc_table in *.
  pose proof (fs_alloc_new (fr s)) as Hn. pose proof (fun x => fs_alloc_share (fr s) x (so_src _ _ _ _ Hok)) as Hs.
  destruct (fs_alloc (fr s)) as [[n|] f'] eqn:Ea; cbn in *; [|done].
  destruct (Hn n (so_src _ _ _ _ Hok) eq_refl) as (N1 & N2 & N3). set (m' := fill n _ _).
  assert (forall x, ~ n <= x < n + 4096 -> m' x = pm s x) as Ho by (intros x Hx; unfold m'; by rewrite !fill_out).
  assert (forall i, 0 <= i < 512 -> m' (word n i) = if 256 <=? i then fill n (fun _ => 0) (pm s) (word src i) else 0) as Hin.
  { intros i Hi. unfold m'. rewrite fill_in by done. destruct (256 <=? i); [done|]. by apply fill_in. }
  destruct (fresh_page_tabs R user_half (pm s) m' (fr s) n Hok N1 N3 Ho) as (T & L & _).
  destruct (new_root_ok R user_half (pm s) m' (fr s) f' n) as (K1 & K2 & K3); try done; [apply X1| |].
  { intros i Hi Hu. rewrite Hin by done. unfold user_half in Hu. by rewrite (proj2 (Z.leb_gt _ _)) by lia. }
  split_and!; try done.
  - intros va Hu. destruct (user_page_path va Hu) as [Hv _].
    assert (tab m' n [pml4_idx va; pdpt_idx va] = None) as E; [|cbn in E; by rewrite E].
    apply K3; [|done]. exact (vpath_app _ [pml4_idx va; pdpt_idx va] [pd_idx va; pt_idx va] Hv).
  - intros [_ Hsm] Hso i Hi. rewrite Hin, (proj2 (Z.leb_le _ _)) by lia. apply fill_out. intros Hx.
    apply (pages_apart n src (word src i)); try done; [apply N3|by intros ->|apply word_page; [done|lia]].
Qed.

(** A root joins with its pages counted. *)
Lemma resident_grow R s m' (f' : F) c k :
  resident_ok R s -> spaces_ok (with_root R c) user_half m' f' -> ~ R c ->
  (forall r, R r -> leaf_sum m' r = leaf_sum (pm s) r) ->
  (forall r va, with_root R c r -> user_page va -> foreign va (leaf m' r va)) -> k = leaf_sum m' c ->
  resident_ok (with_root R c) (mkVmm m' f' (account c k (snd (attach c (rss s))))) /\
  (has_free_slot (rss s) -> counter (account c k (snd (attach c (rss s)))) c = Some k).
Proof.
  intros Hk Hok Hc Hs Hf Hkk. assert (with_root R c c) as Rc by (by right).
  destruct (root_key (with_root R c) (mkVmm m' f' (rss s)) c Hok Rc) as [Kc _].
  assert (counter (rss s) c = None) as Hnone by (destruct (counter (rss s) c) as [n|] eqn:E; [by destruct Hc; apply (rk_tracked _ _ Hk c n)|done]).
  destruct (attach_spec (rss s) c (rk_rss _ _ Hk) Kc) as (A1 & A2 & A3). rewrite Hnone in A3. cbn in A3. set (t := snd (attach c (rss s))) in *.
  pose proof (leaf_sum_bound m' c) as Hb. rewrite <- Hkk in Hb.
  destruct (account_spec t c k A1 Kc) as [B1 B2].
  { intros n. rewrite A3, bool_decide_true by done. rewrite andb_true_r, Hnone. destruct (fst (attach c (rss s))); [intros [= <-]; lia|done]. }
  assert (forall r, with_root R c r -> r <> c -> R r) as Hor by (intros r [?|?]; done).
  assert (forall r n, real_key r -> counter (account c k t) r = Some n -> (r = c /\ n = k) \/ (r <> c /\ counter (rss s) r = Some n)) as Hcnt.
  { intros r n Kr Hn. rewrite B2, A3 in Hn by done. destruct (bool_decide_reflect (r = c)) as [->|Hne].
    - left. split; [done|]. rewrite andb_true_r, Hnone in Hn. destruct (fst (attach c (rss s))); [by injection Hn as <-|done].
    - right. by rewrite andb_false_r in Hn. }
  split; [split; cbn [pm fr rss]; [done|done| |done|]|].
  - intros r n Rr Hn. destruct (root_key (with_root R c) (mkVmm m' f' (rss s)) r Hok Rr) as [Kr Hz].
    rewrite (walk_leaf_sum (with_root R c) _ f') by done. destruct (Hcnt r n Kr Hn) as [[-> ->]|[Hne Ho]]; [done|].
    rewrite Hs by auto. rewrite (rk_count _ _ Hk r n) by auto. apply (walk_leaf_sum R _ (fr s)); [apply Hk|by auto|done].
  - intros r n Kr Hn. destruct (Hcnt r n Kr Hn) as [[-> _]|[_ Ho]]; [done|]. left. by apply (rk_tracked _ _ Hk r n).
  - intros Hfree. rewrite B2, A3, !bool_decide_true by done. rewrite (proj2 A2) by (by right). done.
Qed.

Lemma resident_shrink R R' s :
  (forall r, R r -> R' r) -> (forall r n, real_key r -> counter (rss s) r = Some n -> R r) -> resident_ok R' s -> resident_ok R s.
Proof.
  intros Hs Ht Hk. split; [by apply (spaces_ok_sub R R'); [|apply Hk]|apply Hk| |intros r va Hr; apply Hk; by apply Hs|done].
  intros r n Hr. apply Hk. by apply Hs.
Qed.

Lemma leaf_sum_ext m m' r r' :
  (forall va, user_page va -> res va (leaf m' r' va) = res va (leaf m r va)) -> leaf_sum m' r' = leaf_sum m r.
Proof. intros He. apply sum4_ext. intros a b c d Ha Hb Hc Hd. apply He. by apply user_va_of. Qed.

Lemma new_user_resident R s current_cr3 hint stack_base :
  resident_ok R s ->
  let '(res, s') := new_user current_cr3 hint stack_base s in
  (forall r va, R r -> user_page va -> leaf (pm s') r va = leaf (pm s) r va) /\
  match res with
  | Some space => let c := cr3 space in
      ~ R c /\ resident_ok (with_root R c) s' /\ (forall va, user_page va -> leaf (pm s') c va = None) /\
      (has_free_slot (rss s) -> counter (rss s') c = Some 0) /\
      (page_frame current_cr3 -> fs_owned (fr s) current_cr3 -> forall i, 256 <= i < 512 -> pm s' (word c i) = pm s (word current_cr3 i))
  | None => resident_ok R s' /\ fst (fs_alloc (fr s)) = None
  end.
Proof.
  intros Hk. unfold new_user. pose proof (new_pml4_spec R s current_cr3 (rk_spaces _ _ Hk)) as Hn.
  destruct (new_pml4 current_cr3 s) as [[c|] s1]; destruct Hn as (N1 & N2 & N3 & N4 & N5 & N6).
  - destruct N6 as (C1 & C2 & C3 & C4 & C5). cbn [pm with_rss cr3 areas].
    assert (forall r va, R r -> user_page va -> leaf (pm s1) r va = leaf (pm s) r va) as Hl by (intros; apply N4; [done|by apply user_page_path]).
    destruct (resident_grow R s (pm s1) (fr s1) c 0 Hk C2 C1) as [G1 G2].
    { intros r Hr. apply leaf_sum_ext. intros va Hu. by rewrite Hl. }
    { intros r va [Hr| ->] Hu; [rewrite Hl by done; by apply Hk|]. rewrite C4 by done. by intros ? ?. }
    { by rewrite leaf_sum_empty. }
    rewrite N1. assert (account c 0 (snd (attach c (rss s))) = snd (attach c (rss s))) as Ea by (unfold account; by rewrite orb_true_r).
    rewrite Ea in G1, G2. by split_and!.
  - split; [intros; apply N4; [done|by apply user_page_path]|]. destruct N6 as [C1 C2]. split; [|done].
    apply (resident_extends R s s1 Hk). split_and!; try done.
Qed.

(** [new_user] gives an address space that maps nothing in its own half,
    shares the kernel's half, is counted as empty, and disturbs nobody; it
    fails only when there is no frame for the PML4. *)
Theorem new_user_correct R s current_cr3 hint stack_base :
  resident_ok R s -> page_frame current_cr3 -> fs_owned (fr s) current_cr3 ->
  let '(res, s') := new_user current_cr3 hint stack_base s in
  (forall r va, R r -> user_page va -> leaf (pm s') r va = leaf (pm s) r va) /\
  match res with
  | Some space => let c := cr3 space in
      ~ R c /\ resident_ok (with_root R c) s' /\ areas space = [] /\
      (forall va, user_page va -> virt_to_phys_in (pm s') c va = None) /\
      (forall i, 256 <= i < 512 -> pm s' (word c i) = pm s (word current_cr3 i)) /\
      (has_free_slot (rss s) -> resident_pages c (rss s') = Some 0)
  | None => resident_ok R s' /\ fst (fs_alloc (fr s)) = None
  end.
Proof.
  intros Hk Hp Ho. pose proof (new_user_resident R s current_cr3 hint stack_base Hk) as Hn.
  assert (forall space, fst (new_user current_cr3 hint stack_base s) = Some space -> areas space = []) as Ha.
  { unfold new_user. destruct (new_pml4 current_cr3 s) as [[c|] s1]; cbn; [by intros ? [= <-]|done]. }
  destruct (new_user current_cr3 hint stack_base s) as [[space|] s']; [|done]. destruct Hn as (N1 & N2 & N3 & N4 & N5 & N6).
  cbn zeta. split_and!; [done|done|done|by apply Ha| |by apply N6|].
  - intros va Hu. destruct (walk_leaf (with_root R (cr3 space)) user_half s' (cr3 space) va (rk_spaces _ _ N3)) as [-> _]; [by right|by apply user_page_path|].
    by rewrite N4.
  - intros Hfree. specialize (N5 Hfree). unfold counter in N5. unfold resident_pages. destruct (find _ _); cbn [mbind option_bind] in *; [|done]. by injection N5 as ->.
Qed.

(** What a fork makes of a leaf: the same frame, never writable unless the
    page is kept as it is. *)
Lemma fork_leaf_cases r dev onk m va :
  match fork_leaf r dev onk m va with
  | Some e' => exists e, leaf m r va = Some e /\ e' .& ADDR_MASK = e .& ADDR_MASK /\
      (is_set e' PAGE_WRITABLE = false \/ (e' = e /\ (kernel_leaf onk va e = true \/ in_device_range dev va = true)))
  | None => leaf m r va = None
  end.
Proof.
  unfold fork_leaf. destruct (leaf m r va) as [e|]; cbn; [|done]. exists e. destruct (keeps dev onk (in_huge r m va) va e) eqn:Ek.
  - split_and!; [done|done|right; split; [done|]]. unfold keeps in Ek. apply orb_true_iff in Ek as [?|Ek]; [by left|].
    apply andb_true_iff in Ek as [_ ?]. by right.
  - split_and!; [done|apply write_protect_addr|left]. apply protected_readonly, land_ADDR_MASK_bits.
Qed.

Lemma fork_leaf_res r dev onk m va : res va (fork_leaf r dev onk m va) = res va (leaf m r va).
Proof.
  pose proof (fork_leaf_cases r dev onk m va) as Hc. unfold res. destruct (fork_leaf r dev onk m va) as [e'|]; [|by rewrite Hc].
  destruct Hc as (e & -> & -> & _). done.
Qed.

Lemma fork_leaf_foreign r dev onk m va : foreign va (leaf m r va) -> foreign va (fork_leaf r dev onk m va).
Proof.
  intros Hf e' He. pose proof (fork_leaf_cases r dev onk m va) as Hc. rewrite He in Hc. destruct Hc as (e & El & -> & _). by apply Hf.
Qed.

Lemma count_of_res r onk m va : foreign va (leaf m r va) -> count_of r onk m va = res va (leaf m r va).
Proof.
  intros Hf. unfold count_of, res, kernel_leaf. destruct (leaf m r va) as [e|]; [|done]. rewrite (Hf e eq_refl). by rewrite andb_false_r.
Qed.

(** References the fork takes on the frame [x]. *)
Definition shared_refs r dev onk m (x : Z) : Z := tally (fun _ => true) (ref_of r dev onk m x).

(** The state after a walk that dealt with the pages [P]. *)
Lemma forked_resident R s s1 s' c r dev onk P k k' :
  resident_ok R s -> R r -> ~ R c -> spaces_ok (with_root R c) user_half (pm s1) (fr s1) ->
  rss s1 = rss s -> (forall r va, R r -> user_page va -> leaf (pm s1) r va = leaf (pm s) r va) ->
  (forall va, user_page va -> leaf (pm s1) c va = None) ->
  forked (with_root R c) r c dev onk P s1 s' k k' ->
  (forall r', R r' -> leaf_sum (pm s') r' = leaf_sum (pm s) r') /\
  (forall r' va, with_root R c r' -> user_page va -> foreign va (leaf (pm s') r' va)) /\
  (forall r' va, R r' -> r' <> r -> user_page va -> leaf (pm s') r' va = leaf (pm s) r' va).
Proof.
  intros Hk Hr Hc Hok Hrss Hl Hn Hf.
  assert (forall va, user_page va -> foreign va (leaf (pm s1) r va)) as Hfr by (intros va Hu; rewrite Hl by done; by apply Hk).
  assert (forall r' va, R r' -> r' <> r -> user_page va -> leaf (pm s') r' va = leaf (pm s) r' va) as Hoth.
  { intros r' va R' Hne Hu. rewrite (fk_other _ _ _ _ _ _ _ _ _ _ Hf); [by apply Hl|by left|done|by intros ->|done]. }
  split_and!; [| |done].
  - intros r' R'. apply leaf_sum_ext. intros va Hu. destruct (decide (r' = r)) as [->|Hne]; [|by rewrite Hoth].
    rewrite (fk_parent _ _ _ _ _ _ _ _ _ _ Hf va Hu), <- Hl by done. destruct (P (full_path va)); [apply fork_leaf_res|done].
  - intros r' va R' Hu. destruct (decide (r' = r)) as [->|Hne].
    { rewrite (fk_parent _ _ _ _ _ _ _ _ _ _ Hf va Hu). destruct (P (full_path va)); [by apply fork_leaf_foreign, Hfr|by apply Hfr]. }
    destruct R' as [R'| ->]; [rewrite Hoth by done; by apply Hk|].
    rewrite (fk_child _ _ _ _ _ _ _ _ _ _ Hf va Hu), Hn by done. destruct (P (full_path va)); [by apply fork_leaf_foreign, Hfr|by intros ? ?].
Qed.

Lemma fork_view_same r dev onk m m1 va :
  leaf m1 r va = leaf m r va -> tab m1 r (table_path va) = tab m r (table_path va) ->
  fork_leaf r dev onk m1 va = fork_leaf r dev onk m va /\ (forall x, ref_of r dev onk m1 x va = ref_of r dev onk m x va) /\
  count_of r onk m1 va = count_of r onk m va.
Proof. intros El Et. unfold fork_leaf, ref_of, count_of, in_huge. by rewrite El, Et. Qed.

Lemma leaf_sum_count r c dev onk m m' :
  (forall va, user_page va -> leaf m' c va = fork_leaf r dev onk m va) -> (forall va, user_page va -> foreign va (leaf m r va)) ->
  leaf_sum m' c = tally (fun q => negb (bool_decide (q = []))) (count_of r onk m) /\ leaf_sum m' c = leaf_sum m r.
Proof.
  intros Hl Hf.
  assert (leaf_sum m' c = leaf_sum m r) as E by (apply leaf_sum_ext; intros va Hu; rewrite Hl by done; apply fork_leaf_res).
  split; [|done]. rewrite E. apply sum4_ext. intros a b d e Ha Hb Hd He. rewrite bool_decide_false by done. cbn [negb].
  destruct (user_va_of a b d e Ha Hb Hd He) as [Hu _]. by rewrite count_of_res by (by apply Hf).
Qed.

(** From a new, empty child root. *)
Section child.
Context R s s1 (c r : Z) (dev : list (Z * Z)) (onk : bool).
Hypothesis Hk : resident_ok R s.
Hypothesis Hr : R r.
Hypothesis N1 : rss s1 = rss s.
Hypothesis N3 : forall x, fs_share (fr s1) x = fs_share (fr s) x.
Hypothesis N4 : forall r va, R r -> vpath user_half (full_path va) -> leaf (pm s1) r va = leaf (pm s) r va.
Hypothesis N5 : forall r q, R r -> vpath user_half q -> (length q <= 4)%nat -> tab (pm s1) r q = tab (pm s) r q.
Hypothesis C1 : ~ R c.
Hypothesis C2 : spaces_ok (with_root R c) user_half (pm s1) (fr s1).
Hypothesis C4 : forall va, user_page va -> leaf (pm s1) c va = None.
Implicit Types (P : list Z -> bool) (k : Z).

Lemma child_same r' va : R r' -> user_page va -> leaf (pm s1) r' va = leaf (pm s) r' va.
Proof. intros R' Hu. apply N4; [done|by apply user_page_path]. Qed.

Lemma child_view va :
  user_page va -> fork_leaf r dev onk (pm s1) va = fork_leaf r dev onk (pm s) va /\
  (forall x, ref_of r dev onk (pm s1) x va = ref_of r dev onk (pm s) x va) /\ count_of r onk (pm s1) va = count_of r onk (pm s) va.
Proof. intros Hu. apply fork_view_same; [by apply child_same|]. apply N5; [done|by apply user_table_path|cbn; lia]. Qed.

Lemma child_parent P s2 k va :
  forked (with_root R c) r c dev onk P s1 s2 0 k -> user_page va ->
  leaf (pm s2) r va = if P (full_path va) then fork_leaf r dev onk (pm s) va else leaf (pm s) r va.
Proof.
  intros Hf Hu. rewrite (fk_parent _ _ _ _ _ _ _ _ _ _ Hf va Hu), child_same by done. by destruct (child_view va Hu) as (-> & _).
Qed.

(** The walk gave up: the parent and the counters. *)
Lemma fork_undone P s2 k :
  forked (with_root R c) r c dev onk P s1 s2 0 k ->
  resident_ok R s2 /\ (forall r' va, R r' -> r' <> r -> user_page va -> leaf (pm s2) r' va = leaf (pm s) r' va) /\
  (forall va, user_page va -> leaf (pm s2) r va = leaf (pm s) r va \/ leaf (pm s2) r va = fork_leaf r dev onk (pm s) va).
Proof.
  intros Hf. destruct (forked_resident R s s1 s2 c r dev onk P 0 k Hk Hr C1 C2 N1 child_same C4 Hf) as (F1 & F2 & F3).
  pose proof (fk_rss _ _ _ _ _ _ _ _ _ _ Hf) as Er. rewrite N1 in Er. pose proof (fk_ok _ _ _ _ _ _ _ _ _ _ Hf) as Hok2.
  split_and!; [|done|intros va Hu; rewrite (child_parent P s2 k) by done; destruct (P (full_path va)); auto].
  split; rewrite ?Er; try apply Hk; [by apply (spaces_ok_sub R (with_root R c)); [left|]| |by intros r' va R'; apply F2; left].
  intros r' n R' Hn. destruct (root_key R s r' (rk_spaces _ _ Hk) R') as [_ Hz].
  rewrite (walk_leaf_sum (with_root R c) _ (fr s2)), F1 by (done || by left). rewrite (rk_count _ _ Hk r' n R' Hn).
  apply (walk_leaf_sum R _ (fr s)); [apply Hk|done|done].
Qed.

(** The walk is complete and the child is attached. *)
Lemma fork_done s2 k :
  forked (with_root R c) r c dev onk (fun q => negb (bool_decide (q = []))) s1 s2 0 k ->
  let s' := with_rss s2 (account c k (snd (attach c (rss s2)))) in
  resident_ok (with_root R c) s' /\
  (forall r' va, R r' -> r' <> r -> user_page va -> leaf (pm s') r' va = leaf (pm s) r' va) /\
  (forall va, user_page va -> leaf (pm s') r va = fork_leaf r dev onk (pm s) va /\ leaf (pm s') c va = leaf (pm s') r va) /\
  (forall x, 0 <= x -> x mod 4096 = 0 -> fs_tracked x ->
     fs_share (fr s') x = wrap 16 (fs_share (fr s) x + shared_refs r dev onk (pm s) x)) /\
  (has_free_slot (rss s) -> resident_pages c (rss s') = Some (walk_resident_pages (pm s) r)).
Proof.
  intros Hf s'. destruct (forked_resident R s s1 s2 c r dev onk _ 0 k Hk Hr C1 C2 N1 child_same C4 Hf) as (F1 & F2 & F3).
  assert (forall va, user_page va -> negb (bool_decide (full_path va = [])) = true) as Hall by done.
  assert (forall va, user_page va -> leaf (pm s2) c va = fork_leaf r dev onk (pm s) va) as Hc.
  { intros va Hu. rewrite (fk_child _ _ _ _ _ _ _ _ _ _ Hf va Hu), Hall by done. by destruct (child_view va Hu) as (-> & _). }
  destruct (leaf_sum_count r c dev onk (pm s) (pm s2) Hc) as [Hc1 Hc2]; [intros va Hu; by apply Hk|].
  assert (k = leaf_sum (pm s2) c) as Ek.
  { rewrite (fk_count _ _ _ _ _ _ _ _ _ _ Hf), Z.add_0_l, Hc1. apply tally_ext; [done|]. intros va Hu _. by apply child_view. }
  pose proof (fk_rss _ _ _ _ _ _ _ _ _ _ Hf) as Er. rewrite N1 in Er.
  destruct (resident_grow R s (pm s2) (fr s2) c k Hk (fk_ok _ _ _ _ _ _ _ _ _ _ Hf) C1 F1 F2 Ek) as [G1 G2].
  unfold s', with_rss. rewrite Er. cbn [pm fr rss]. split_and!; [done|done| | |].
  - intros va Hu. rewrite Hc, (child_parent _ s2 k va Hf Hu), Hall by done. done.
  - intros x X1 X2 X3. rewrite (fk_share _ _ _ _ _ _ _ _ _ _ Hf), N3 by done. unfold shared_refs.
    rewrite (tally_ext _ (fun _ => true) _ (ref_of r dev onk (pm s) x)); [done|done|]. intros va Hu _. by apply child_view.
  - intros Hfree. specialize (G2 Hfree). destruct (root_key R s r (rk_spaces _ _ Hk) Hr) as [_ Hz].
    rewrite (walk_leaf_sum R _ (fr s)) by (done || apply Hk). rewrite <- Hc2, <- Ek. pose proof (leaf_sum_bound (pm s2) c) as Hb. rewrite <- Ek in Hb.
    unfold counter in G2. unfold resident_pages. destruct (find c _); cbn [mbind option_bind] in *; [|done]. injection G2 as ->.
    f_equal. destruct (Z.ltb_spec 0 k); lia.
Qed.
End child.

(** C3: [clone_for_fork], where the tables of all spaces are owned frames each
    reached one way and the resident counts exact: the child has the parent's
    areas and pages. Each page of the parent is mapped by both to the same
    frame and writable in neither, unless it is kept as it is, being a
    shared-memory attachment or the kernel's own map; every frame that is
    counted gained one reference for each page so shared, on its 16-bit count;
    the child's resident set is the parent's, if the table of counters has a
    free slot; the kernel half is the parent's; no other space changed. When a
    table cannot be allocated the fork fails, other spaces and all resident
    sets are as before, and each page of the parent is as it was or as the
    fork would have left it. *)
Theorem clone_for_fork_correct R s (self : VmSpace) pins kernel_cr3 r :
  resident_ok R s -> R r ->
  let dev := device_ranges_of (areas self) in
  let onk := negb (kernel_cr3 =? 0) && (r =? kernel_cr3) in
  let '(res, self', pins', s') := clone_for_fork kernel_cr3 r self pins s in
  areas self' = areas self /\ cr3 self' = r /\
  (forall r' va, R r' -> r' <> r -> user_page va -> leaf (pm s') r' va = leaf (pm s) r' va) /\
  match res with
  | Some child => let c := cr3 child in
      ~ R c /\ areas child = areas self /\ resident_ok (with_root R c) s' /\
      (forall va, user_page va -> leaf (pm s') r va = fork_leaf r dev onk (pm s) va /\ leaf (pm s') c va = leaf (pm s') r va) /\
      (forall va e, user_page va -> leaf (pm s') c va = Some e ->
         is_set e PAGE_WRITABLE = false \/ onk = true \/ in_device_range dev va = true) /\
      (forall x, 0 <= x -> x mod 4096 = 0 -> fs_tracked x ->
         fs_share (fr s') x = wrap 16 (fs_share (fr s) x + shared_refs r dev onk (pm s) x)) /\
      (forall i, 256 <= i < 512 -> pm s' (word c i) = pm s (word r i)) /\
      (has_free_slot (rss s) -> resident_pages c (rss s') = Some (walk_resident_pages (pm s) r))
  | None => resident_ok R s' /\ pins' = pins /\ (exists f : F, fs_ok f /\ fst (fs_alloc f) = None) /\
      (forall va, user_page va -> leaf (pm s') r va = leaf (pm s) r va \/ leaf (pm s') r va = fork_leaf r dev onk (pm s) va)
  end.
Proof.
  intros Hk Hr dev onk. unfold clone_for_fork. cbn [areas]. fold dev onk.
  destruct (so_tab _ _ _ _ (rk_spaces _ _ Hk) r [] r Hr ltac:(by split) ltac:(cbn; lia) eq_refl) as [Hpf Hown].
  pose proof (new_pml4_spec R s r (rk_spaces _ _ Hk)) as Hn.
  destruct (new_pml4 r s) as [[c|] s1]; destruct Hn as (N1 & N2 & N3 & N4 & N5 & N6).
  2:{ destruct N6 as [C1 C2].
      split_and!; try done; [by intros; apply N4; [|apply user_page_path]|apply (resident_extends R s s1 Hk); by split_and!|by exists (fr s); split; [apply Hk|]|].
      intros va Hu. left. apply N4; [done|by apply user_page_path]. }
  destruct N6 as (C1 & C2 & C3 & C4 & C5). assert (r <> c) as Hrc by (by intros ->).
  pose proof (fork_pml4_outcome (with_root R c) r c dev onk ltac:(by left) ltac:(by right) Hrc s1 0 C2) as Ho.
  destruct (fork_pml4 dev onk r c (s1, 0)) as [[] [s2 k2]]; cbn [negb] in Ho |- *.
  - assert (forked (with_root R c) r c dev onk (fun q => negb (bool_decide (q = []))) s1 s2 0 k2) as Hf.
    { apply Ho. intros i Hi. split; [|by intros; apply C4]. intros q Hq _ Hs. apply C3; [done|]. intros ->. by apply sub_true in Hs as [l ?]. }
    destruct (fork_done R s s1 c r dev onk Hk Hr N1 N3 N4 N5 C1 C2 C4 s2 k2 Hf) as (D1 & D2 & D3 & D4 & D5). cbn [cr3 areas].
    split_and!; try done.
    + intros va e Hu. destruct (D3 va Hu) as [-> ->]. intros He. pose proof (fork_leaf_cases r dev onk (pm s) va) as Hc. rewrite He in Hc.
      destruct Hc as (e0 & _ & _ & [?|[_ [Hkl|?]]]); [by left|right; left|by auto]. unfold kernel_leaf in Hkl. by apply andb_true_iff in Hkl as [? _].
    + intros i Hi. cbn [pm with_rss]. rewrite (fk_upper _ _ _ _ _ _ _ _ _ _ Hf) by (done || by right). by apply C5.
  - destruct Ho as [(P & _ & Hf) Hx].
    { intros i Hi. split; [|by intros; apply C4]. intros q Hq _ Hs. apply C3; [done|]. intros ->. by apply sub_true in Hs as [l ?]. }
    destruct (fork_undone R s s1 c r dev onk Hk Hr N1 N4 N5 C1 C2 C4 P s2 k2 Hf) as (D1 & D2 & D3). by split_and!.
Qed.
End spaces.
