(* ===== verification/Tlb.v ===== *)
(** * TLB shootdown and the quarantine of frames (kernel/src/mm/tlb.rs)

    The table of the CPUs an address space runs on, the per-CPU request
    slots and deferred flushes of the shootdown protocol, and the ring that
    holds frames back until every CPU has flushed its TLB. A CPU's TLB is
    the list of page addresses it has cached for the address space it runs.
    The steps of the sender and of the handler are kept apart, so that they
    interleave as they do on the machine. *)

From S2P Require Import Prelude.

Definition MAX_CPUS : nat := 16.
Definition FULL_FLUSH_PAGES_THRESHOLD : Z := 32.
Definition QUARANTINE_CAPACITY : nat := 256.

Record ShootdownSlot := mkSlot { slot_cr3 : Z; va_lo : Z; va_hi : Z; pending : bool }.
#[global] Instance ShootdownSlot_inhabited : Inhabited ShootdownSlot := populate (mkSlot 0 0 0 false).

Record QuarantineEntry := mkQuarantine { q_phys : Z; enqueue_tick : Z }.

(** The entries of the ring below its length. *)
Definition QuarantineRing : Type := list QuarantineEntry.

Record Tlb := mkTlb {
  SHOOTDOWN_SLOTS : list ShootdownSlot;
  CR3_ACTIVE_CPUS : gmap Z Z;
  FORCE_FLUSH_PENDING : list bool;
  SMP_ACTIVE : bool;
  QUARANTINE : QuarantineRing;
  CPU_LAST_TICK : list Z
}.

Definition tlb_static : Tlb :=
  mkTlb (replicate MAX_CPUS (mkSlot 0 0 0 false)) ∅ (replicate MAX_CPUS false) false [] (replicate MAX_CPUS 0).

Definition with_slots (l : list ShootdownSlot) (t : Tlb) : Tlb :=
  mkTlb l (CR3_ACTIVE_CPUS t) (FORCE_FLUSH_PENDING t) (SMP_ACTIVE t) (QUARANTINE t) (CPU_LAST_TICK t).
Definition with_active (m : gmap Z Z) (t : Tlb) : Tlb :=
  mkTlb (SHOOTDOWN_SLOTS t) m (FORCE_FLUSH_PENDING t) (SMP_ACTIVE t) (QUARANTINE t) (CPU_LAST_TICK t).
Definition with_force (l : list bool) (t : Tlb) : Tlb :=
  mkTlb (SHOOTDOWN_SLOTS t) (CR3_ACTIVE_CPUS t) l (SMP_ACTIVE t) (QUARANTINE t) (CPU_LAST_TICK t).
Definition with_quarantine (q : QuarantineRing) (t : Tlb) : Tlb :=
  mkTlb (SHOOTDOWN_SLOTS t) (CR3_ACTIVE_CPUS t) (FORCE_FLUSH_PENDING t) (SMP_ACTIVE t) q (CPU_LAST_TICK t).
Definition with_last_tick (l : list Z) (t : Tlb) : Tlb :=
  mkTlb (SHOOTDOWN_SLOTS t) (CR3_ACTIVE_CPUS t) (FORCE_FLUSH_PENDING t) (SMP_ACTIVE t) (QUARANTINE t) l.

Definition mark_self_smp_online (t : Tlb) : Tlb :=
  mkTlb (SHOOTDOWN_SLOTS t) (CR3_ACTIVE_CPUS t) (FORCE_FLUSH_PENDING t) true (QUARANTINE t) (CPU_LAST_TICK t).

(* ------------------------------------------------------------------ *)
(** ** The CPUs an address space is loaded on *)

Definition cpu_bit (cpu : nat) : Z := 1 .<< Z.of_nat cpu.

Definition note_cr3_load (cpu : nat) (cr3 : Z) (t : Tlb) : Tlb :=
  if cr3 =? 0 then t
  else if (MAX_CPUS <=? cpu)%nat then t
  else
    let entry := default 0 (CR3_ACTIVE_CPUS t !! cr3) in
    with_active (<[cr3 := entry .| cpu_bit cpu]> (CR3_ACTIVE_CPUS t)) t.

Definition note_cr3_unload (cpu : nat) (cr3 : Z) (t : Tlb) : Tlb :=
  if cr3 =? 0 then t
  else if (MAX_CPUS <=? cpu)%nat then t
  else
    match CR3_ACTIVE_CPUS t !! cr3 with
    | Some entry => with_active (<[cr3 := entry .& notw 64 (cpu_bit cpu)]> (CR3_ACTIVE_CPUS t)) t
    | None => t
    end.

Definition forget_cr3 (cr3 : Z) (t : Tlb) : Tlb :=
  if cr3 =? 0 then t else with_active (delete cr3 (CR3_ACTIVE_CPUS t)) t.

Definition snapshot_active_mask (cr3 : Z) (t : Tlb) : Z :=
  if cr3 =? 0 then 0 else default 0 (CR3_ACTIVE_CPUS t !! cr3).

Definition cr3_active_on_other_cpu (cpu : nat) (cr3 : Z) (t : Tlb) : bool :=
  negb (snapshot_active_mask cr3 t .& notw 64 (cpu_bit cpu) =? 0).

(* ------------------------------------------------------------------ *)
(** ** Invalidation and the handler *)

(** The cached pages left after an invalidation of [[lo, hi)]. *)
Definition local_invlpg_range (lo hi : Z) (tlb : list Z) : list Z :=
  let lo := lo .& notw 64 0xFFF in
  let hi := add64 hi 0xFFF .& notw 64 0xFFF in
  let pages := sat_sub hi lo .>> 12 in
  if FULL_FLUSH_PAGES_THRESHOLD <? pages then []
  else filter (fun p : Z => ~ (lo <= p < hi)) tlb.

Definition set_force (cpu : nat) (b : bool) (t : Tlb) : Tlb := with_force (<[cpu := b]> (FORCE_FLUSH_PENDING t)) t.

Definition drain_pending_force_flush (cpu : nat) (tlb : list Z) (t : Tlb) : list Z * Tlb :=
  if (MAX_CPUS <=? cpu)%nat then (tlb, t)
  else if (FORCE_FLUSH_PENDING t !!! cpu : bool) then ([], set_force cpu false t)
  else (tlb, t).

(** The compare-exchange that claims the slot of [cpu]. *)
Definition service_claim (cpu : nat) (t : Tlb) : bool * Tlb :=
  let slot := SHOOTDOWN_SLOTS t !!! cpu in
  if pending slot
  then (true, with_slots (<[cpu := mkSlot (slot_cr3 slot) (va_lo slot) (va_hi slot) false]> (SHOOTDOWN_SLOTS t)) t)
  else (false, t).

(** What follows a claim that succeeded. *)
Definition service_invalidate (cpu : nat) (cur_cr3 : Z) (tlb : list Z) (t : Tlb) : list Z :=
  let slot := SHOOTDOWN_SLOTS t !!! cpu in
  if cur_cr3 =? slot_cr3 slot then local_invlpg_range (va_lo slot) (va_hi slot) tlb else tlb.

Definition service_incoming_shootdown_and_drain (cpu : nat) (cur_cr3 : Z) (tlb : list Z) (t : Tlb) : list Z * Tlb :=
  if (MAX_CPUS <=? cpu)%nat then (tlb, t)
  else
    let '(claimed, t) := service_claim cpu t in
    let tlb := if claimed then service_invalidate cpu cur_cr3 tlb t else tlb in
    drain_pending_force_flush cpu tlb t.

(* ------------------------------------------------------------------ *)
(** ** The sender *)

(** [u64::trailing_zeros]. *)
Definition trailing_zeros (t : Z) : nat :=
  match List.filter (fun i => Z.testbit t (Z.of_nat i)) (seq 0 64) with i :: _ => i | [] => 64 end.

(** [while t != 0 { bit = t.trailing_zeros(); t &= t - 1; .. }]. *)
Fixpoint mask_loop (fuel : nat) (t : Z) : list nat :=
  match fuel with
  | O => []
  | S fuel => if t =? 0 then [] else trailing_zeros t :: mask_loop fuel (t .& (t - 1))
  end.
Definition mask_bits (t : Z) : list nat := filter (fun b : nat => (b < MAX_CPUS)%nat) (mask_loop 64 t).

Definition shootdown_targets (self_cpu : nat) (cr3 : Z) (t : Tlb) : Z :=
  snapshot_active_mask cr3 t .& notw 64 (cpu_bit self_cpu).

Definition publish (bit : nat) (cr3 lo hi : Z) (t : Tlb) : Tlb :=
  with_slots (<[bit := mkSlot cr3 lo hi true]> (SHOOTDOWN_SLOTS t)) t.

(** One poll of the targets that have not acknowledged yet. *)
Definition poll_acks (remaining : list nat) (t : Tlb) : list nat :=
  filter (fun b : nat => pending (SHOOTDOWN_SLOTS t !!! b) = true) remaining.

Definition post_force_flush (bits : list nat) (t : Tlb) : Tlb := fold_left (fun t b => set_force b true t) bits t.

(** The requests that timed out are withdrawn, and flushes are posted. *)
Definition clear_pending (t : Tlb) (b : nat) : Tlb :=
  let slot := SHOOTDOWN_SLOTS t !!! b in
  with_slots (<[b := mkSlot (slot_cr3 slot) (va_lo slot) (va_hi slot) false]> (SHOOTDOWN_SLOTS t)) t.

(* ------------------------------------------------------------------ *)
(** ** The quarantine *)

(** [tick] is [TICK_COUNT]; the second component is the frame freed at once
    when the ring is full. *)
Definition quarantine_free (tick phys : Z) (t : Tlb) : Tlb * list Z :=
  if phys =? 0 then (t, [])
  else if (length (QUARANTINE t) <? QUARANTINE_CAPACITY)%nat
  then (with_quarantine (QUARANTINE t ++ [mkQuarantine phys tick]) t, [])
  else (t, [phys]).

Definition min_tick (ncpus : nat) (t : Tlb) : Z :=
  fold_left (fun m i => let v := CPU_LAST_TICK t !!! i in if v <? m then v else m) (seq 0 ncpus) U64_MAX.

(** The entries older than [limit] are released, the others keep their
    order. *)
Definition partition_ring (limit : Z) (q : QuarantineRing) : list Z * QuarantineRing :=
  fold_left (fun '(to_free, keep) e =>
    if enqueue_tick e <? limit then (to_free ++ [q_phys e], keep) else (to_free, keep ++ [e])) q ([], []).

(** The timer interrupt of [cpu], after [flush_tlb]: the frames for
    [pmm::free_page]. *)
Definition on_cpu_tick (cpu : nat) (cpu_count : nat) (current_tick : Z) (t : Tlb) : Tlb * list Z :=
  let t := if (cpu <? MAX_CPUS)%nat
           then set_force cpu false (with_last_tick (<[cpu := current_tick]> (CPU_LAST_TICK t)) t) else t in
  if (length (QUARANTINE t) =? 0)%nat then (t, [])
  else
    let ncpus := Nat.max (Nat.min cpu_count MAX_CPUS) 1 in
    let '(to_free, keep) := partition_ring (min_tick ncpus t) (QUARANTINE t) in
    (with_quarantine keep t, to_free).

(* ------------------------------------------------------------------ *)
(** ** Grace period of the quarantine *)

Lemma partition_ring_spec limit q :
  partition_ring limit q =
  (q_phys <$> filter (fun e => enqueue_tick e < limit) q, filter (fun e => ~ enqueue_tick e < limit) q).
Proof.
  unfold partition_ring.
  assert (forall l a b, fold_left (fun '(to_free, keep) e =>
    if enqueue_tick e <? limit then (to_free ++ [q_phys e], keep) else (to_free, keep ++ [e])) l (a, b) =
    (a ++ (q_phys <$> filter (fun e => enqueue_tick e < limit) l), b ++ filter (fun e => ~ enqueue_tick e < limit) l)) as Hg; [|apply Hg].
  induction l as [|e l IH]; intros a b; cbn [fold_left]; [by rewrite !app_nil_r|].
  rewrite !filter_cons. destruct (Z.ltb_spec (enqueue_tick e) limit) as [Hl|Hl]; rewrite IH.
  - rewrite decide_True, decide_False by lia. cbn. by rewrite <- app_assoc.
  - rewrite decide_False, decide_True by lia. by rewrite <- app_assoc.
Qed.

Definition last_tick (t : Tlb) (c : nat) : Z := CPU_LAST_TICK t !!! c.

Lemma min_tick_spec n t e :
  e < U64_MAX -> e < min_tick n t <-> forall c, (c < n)%nat -> e < last_tick t c.
Proof.
  intros He. unfold min_tick.
  assert (forall l m, e < fold_left (fun m i => let v := CPU_LAST_TICK t !!! i in if v <? m then v else m) l m <->
            e < m /\ Forall (fun c => e < last_tick t c) l) as Hg.
  { induction l as [|i l IH]; intros m; cbn [fold_left]; [rewrite list.Forall_nil; tauto|]. rewrite IH, list.Forall_cons. unfold last_tick.
    destruct (Z.ltb_spec (CPU_LAST_TICK t !!! i) m); intuition lia. }
  rewrite Hg, list.Forall_forall. split.
  - intros [_ Hf] c Hc. apply Hf, elem_of_seq. lia.
  - intros Hf. split; [done|]. intros c Hc. apply Hf. apply elem_of_seq in Hc. lia.
Qed.

(** The machine around the ring: the clock, and for each CPU the frames its
    TLB may still lead to. *)
Record QMachine := mkQM { qm_tlb : Tlb; TICK_COUNT : Z; reach : nat -> list Z }.

(** The ring with [n] CPUs online. A CPU caches a translation only while the
    page tables have it, so never to a frame in quarantine; its timer
    interrupt flushes the TLB first. *)
Inductive q_step (n : nat) : QMachine -> QMachine -> Prop :=
  | q_clock t k rc k' : k <= k' -> q_step n (mkQM t k rc) (mkQM t k' rc)
  | q_cache t k rc c x : x ∉ q_phys <$> QUARANTINE t ->
      q_step n (mkQM t k rc) (mkQM t k (fun c' => if decide (c' = c) then x :: rc c' else rc c'))
  | q_free t k rc x : q_step n (mkQM t k rc) (mkQM (fst (quarantine_free k x t)) k rc)
  | q_tick t k rc c tick : (c < n)%nat -> tick <= k ->
      q_step n (mkQM t k rc) (mkQM (fst (on_cpu_tick c n tick t)) k (fun c' => if decide (c' = c) then [] else rc c')).

Record q_inv (n : nat) (s : QMachine) : Prop := {
  qi_len : length (CPU_LAST_TICK (qm_tlb s)) = MAX_CPUS;
  qi_clock c : (c < n)%nat -> last_tick (qm_tlb s) c <= TICK_COUNT s;
  qi_grace e c : e ∈ QUARANTINE (qm_tlb s) -> (c < n)%nat -> enqueue_tick e < last_tick (qm_tlb s) c -> q_phys e ∉ reach s c;
  qi_ticks e : e ∈ QUARANTINE (qm_tlb s) -> enqueue_tick e <= TICK_COUNT s }.

Lemma on_cpu_tick_spec n c tick t :
  (c < n)%nat -> (n <= MAX_CPUS)%nat -> length (CPU_LAST_TICK t) = MAX_CPUS ->
  let '(t', freed) := on_cpu_tick c n tick t in
  let last c' := if decide (c' = c) then tick else last_tick t c' in
  (forall c', (c' < n)%nat -> last_tick t' c' = last c') /\ length (CPU_LAST_TICK t') = MAX_CPUS /\
  (exists limit, freed = q_phys <$> filter (fun e => enqueue_tick e < limit) (QUARANTINE t) /\
     QUARANTINE t' = filter (fun e => ~ enqueue_tick e < limit) (QUARANTINE t) /\
     forall e, e ∈ QUARANTINE t -> enqueue_tick e < U64_MAX -> enqueue_tick e < limit <-> forall c', (c' < n)%nat -> enqueue_tick e < last c').
Proof.
  intros Hc Hn Hl. unfold on_cpu_tick. rewrite (proj2 (Nat.ltb_lt _ _)) by lia.
  set (t1 := set_force c false (with_last_tick (<[c := tick]> (CPU_LAST_TICK t)) t)). cbn zeta.
  assert (forall c', (c' < n)%nat -> last_tick t1 c' = if decide (c' = c) then tick else last_tick t c') as Hlast.
  { intros c' Hc'. unfold last_tick, t1. cbn. destruct (decide (c' = c)) as [->|Hne].
    - apply list_lookup_total_insert_eq. rewrite Hl. lia.
    - by apply list_lookup_total_insert_ne. }
  assert (length (CPU_LAST_TICK t1) = MAX_CPUS) as Hl1 by (unfold t1; cbn; by rewrite length_insert).
  replace (Nat.max (Nat.min n MAX_CPUS) 1) with n by lia. change (QUARANTINE t1) with (QUARANTINE t).
  assert ((if (length (QUARANTINE t) =? 0)%nat then (t1, []) else let '(to_free, keep) := partition_ring (min_tick n t1) (QUARANTINE t) in (with_quarantine keep t1, to_free))
    = (with_quarantine (filter (fun e => ~ enqueue_tick e < min_tick n t1) (QUARANTINE t)) t1, q_phys <$> filter (fun e => enqueue_tick e < min_tick n t1) (QUARANTINE t))) as E.
  { destruct (Nat.eqb_spec (length (QUARANTINE t)) 0) as [E|_]; [|by rewrite partition_ring_spec]. apply nil_length_inv in E.
    rewrite E. cbn. unfold with_quarantine. f_equal. change [] with (@nil QuarantineEntry). rewrite <- E. by destruct t. }
  rewrite E. split_and!; [done|done|]. exists (min_tick n t1). split_and!; [done|done|]. intros e He Hu. rewrite min_tick_spec by done.
  split; intros Hx c' Hc'; specialize (Hx c' Hc'); by rewrite Hlast in * by done.
Qed.

Lemma q_step_inv n s s' : (n <= MAX_CPUS)%nat -> q_inv n s -> q_step n s s' -> q_inv n s'.
Proof.
  intros Hn [I1 I2 I3 I4] Hst. destruct Hst as [t k rc k' Hk|t k rc c x Hx|t k rc x|t k rc c tick Hc Ht]; cbn in *.
  - split; cbn; [done| |done|]; [intros c Hc; specialize (I2 c Hc); lia|intros e He; specialize (I4 e He); lia].
  - split; cbn; [done|done| |done]. intros e c' He Hc' Hlt. destruct (decide (c' = c)) as [->|]; [|by apply I3].
    rewrite not_elem_of_cons. split; [|by apply I3]. intros <-. apply Hx. by apply list_elem_of_fmap_2.
  - unfold quarantine_free. destruct (x =? 0); [by split|]. destruct (_ <? _)%nat; [|by split]. split; cbn; [done|done| |].
    + intros e c He Hc Hlt. apply elem_of_app in He as [He|He]; [by apply I3|]. apply list_elem_of_singleton in He as ->. cbn in Hlt.
      specialize (I2 c Hc). unfold last_tick in *. cbn in *. lia.
    + intros e He. apply elem_of_app in He as [He|He]; [by apply I4|]. by apply list_elem_of_singleton in He as ->.
  - pose proof (on_cpu_tick_spec n c tick t Hc Hn I1) as Hs. destruct (on_cpu_tick c n tick t) as [t' freed]. cbn zeta in Hs.
    destruct Hs as (S1 & S2 & limit & _ & S3 & _). split; cbn; [done| | |].
    + intros c' Hc'. rewrite S1 by done. destruct (decide (c' = c)); [done|by apply I2].
    + intros e c' He Hc' Hlt. rewrite S1 in Hlt by done. destruct (decide (c' = c)); [apply not_elem_of_nil|].
      apply I3; [|done|done]. rewrite S3 in He. by apply list_elem_of_filter in He as [_ ?].
    + intros e He. rewrite S3 in He. apply list_elem_of_filter in He as [_ ?]. by apply I4.
Qed.

Definition q_boot : QMachine := mkQM tlb_static 0 (fun _ => []).

Lemma q_reachable_inv n s : (n <= MAX_CPUS)%nat -> rtc (q_step n) q_boot s -> q_inv n s.
Proof.
  intros Hn Hr. assert (q_inv n q_boot) as H0.
  { split; [done| |by intros e c He%elem_of_nil|by intros e He%elem_of_nil]. intros c Hc. unfold last_tick.
    change (CPU_LAST_TICK (qm_tlb q_boot)) with (replicate MAX_CPUS 0). rewrite lookup_total_replicate_2; [done|lia]. }
  revert H0. induction Hr as [s|s s1 s2 Hst _ IH]; [done|]. intros H0. apply IH. by eapply q_step_inv.
Qed.

(** C28: the quarantine gives its grace period. In every state that sequences of
    enqueues, clock and timer interrupts of [n] CPUs and refills of their
    TLBs lead to, the frames a timer interrupt releases are exactly those
    for which every CPU has had a timer interrupt, and so a flush, at a
    later tick than their enqueue; no other CPU's TLB leads to them; and
    every frame of the ring is released or kept, once. *)
Theorem quarantine_grace_period n s c tick :
  (n <= MAX_CPUS)%nat -> rtc (q_step n) q_boot s -> TICK_COUNT s < U64_MAX -> (c < n)%nat -> tick <= TICK_COUNT s ->
  let '(t', freed) := on_cpu_tick c n tick (qm_tlb s) in
  let ticked e := forall c', (c' < n)%nat -> enqueue_tick e < (if decide (c' = c) then tick else last_tick (qm_tlb s) c') in
  (forall x c', x ∈ freed -> (c' < n)%nat -> c' <> c -> x ∉ reach s c') /\
  (forall e, e ∈ QUARANTINE (qm_tlb s) -> (ticked e -> q_phys e ∈ freed) /\ (e ∈ QUARANTINE t' <-> ~ ticked e)) /\
  freed ++ (q_phys <$> QUARANTINE t') ≡ₚ q_phys <$> QUARANTINE (qm_tlb s).
Proof.
  intros Hn Hr Hu Hc Ht. destruct (q_reachable_inv n s Hn Hr) as [I1 I2 I3 I4].
  pose proof (on_cpu_tick_spec n c tick (qm_tlb s) Hc Hn I1) as Hs. destruct (on_cpu_tick c n tick (qm_tlb s)) as [t' freed]. cbn zeta in *.
  destruct Hs as (S1 & S2 & limit & -> & -> & S4).
  assert (forall e, e ∈ QUARANTINE (qm_tlb s) -> enqueue_tick e < U64_MAX) as Hb by (intros e He; specialize (I4 e He); lia).
  split_and!.
  - intros x c' Hx Hc' Hne. apply list_elem_of_fmap in Hx as (e & -> & He). apply list_elem_of_filter in He as [Hlt He].
    apply I3; [done|done|]. pose proof (proj1 (S4 e He (Hb e He)) Hlt c' Hc') as Hlt'. by rewrite decide_False in Hlt'.
  - intros e He. rewrite <- (S4 e He (Hb e He)). split.
    + intros Hlt. apply list_elem_of_fmap_2, list_elem_of_filter. by split.
    + rewrite list_elem_of_filter. tauto.
  - rewrite <- fmap_app. apply fmap_Permutation. apply filter_app_complement.
Qed.

Definition demo_ring : Tlb := fst (on_cpu_tick 0 2 1 (fst (quarantine_free 0 0x5000 tlb_static))).
Definition demo_machine : QMachine := mkQM demo_ring 1 (fun c' => if decide (c' = 0%nat) then [] else []).

Lemma quarantine_grace_period_witness :
  rtc (q_step 2) q_boot demo_machine /\
  (forall c', (c' < 2)%nat -> c' <> 1%nat -> 0x5000 ∉ reach demo_machine c').
Proof.
  assert (rtc (q_step 2) q_boot demo_machine) as Hr.
  { eapply rtc_l; [apply (q_free _ _ _ _ 0x5000)|]. eapply rtc_l; [apply (q_clock _ _ 0 _ 1); lia|].
    eapply rtc_l; [apply (q_tick _ _ _ _ 0%nat 1); lia|]. apply rtc_refl. }
  split; [exact Hr|]. intros c' Hc' Hne.
  pose proof (quarantine_grace_period 2 demo_machine 1 1 ltac:(unfold MAX_CPUS; lia) Hr ltac:(unfold U64_MAX; cbn; lia) ltac:(lia) ltac:(cbn; lia)) as H.
  assert (snd (on_cpu_tick 1 2 1 (qm_tlb demo_machine)) = [0x5000]) as E by (vm_compute; reflexivity).
  destruct (on_cpu_tick 1 2 1 (qm_tlb demo_machine)) as [t' freed]. cbn [snd] in E. subst freed. cbn zeta in H.
  apply (proj1 H); [apply list_elem_of_singleton; reflexivity|exact Hc'|exact Hne].
Defined.

(* ------------------------------------------------------------------ *)
(** ** The bits of a mask *)

Lemma trailing_zeros_spec t :
  in_word 64 t -> t <> 0 ->
  (trailing_zeros t < 64)%nat /\ Z.testbit t (Z.of_nat (trailing_zeros t)) = true /\
  forall j, (j < trailing_zeros t)%nat -> Z.testbit t (Z.of_nat j) = false.
Proof.
  intros Hw Hn. unfold trailing_zeros.
  assert (forall n lo, (exists j, (lo <= j < lo + n)%nat /\ Z.testbit t (Z.of_nat j) = true) ->
    let k := match List.filter (fun i => Z.testbit t (Z.of_nat i)) (seq lo n) with i :: _ => i | [] => 64%nat end in
    (lo <= k < lo + n)%nat /\ Z.testbit t (Z.of_nat k) = true /\ forall j, (lo <= j < k)%nat -> Z.testbit t (Z.of_nat j) = false) as Hg.
  { induction n as [|n IH]; intros lo (j & Hj & Hb); [lia|]. cbn. destruct (Z.testbit t (Z.of_nat lo)) eqn:E.
    - split_and!; [lia|lia|done|]. lia.
    - destruct (IH (S lo)) as (K1 & K2 & K3); [exists j; split; [|done]; destruct (decide (j = lo)) as [->|]; [congruence|lia]|].
      split_and!; [lia|lia|done|]. intros i Hi. destruct (decide (i = lo)) as [->|]; [done|]. apply K3. lia. }
  destruct (Hg 64%nat 0%nat) as (K1 & K2 & K3).
  - exists (Z.to_nat (Z.log2 t)). assert (0 < t) as Hpos by (unfold in_word in Hw; lia).
    pose proof (Z.log2_nonneg t). assert (Z.log2 t < 64) by (apply Z.log2_lt_pow2; [done|apply Hw]). split; [lia|].
    rewrite Z2Nat.id by lia. by apply Z.bit_log2.
  - split_and!; [lia|done|]. intros j Hj. apply K3. lia.
Qed.

(** [t & (t - 1)] clears the lowest bit that is set. *)
Lemma clear_lowest t k :
  0 <= k -> Z.testbit t k = true -> (forall j, 0 <= j < k -> Z.testbit t j = false) -> t .& (t - 1) = Z.clearbit t k.
Proof.
  intros Hk Hb Hlow.
  assert (t = (t / 2 ^ (k + 1)) * 2 ^ (k + 1) + 2 ^ k) as E.
  { rewrite (Z.div_mod t (2 ^ (k + 1))) at 1 by lia. rewrite Z.mul_comm. f_equal. apply Z.bits_inj_iff'. intros j Hj.
    rewrite Z.pow2_bits_eqb by done. destruct (Z.lt_ge_cases j (k + 1)) as [Hjk|Hjk].
    - rewrite Z.mod_pow2_bits_low by done. destruct (Z.eqb_spec k j) as [<-|Hne]; [done|]. apply Hlow. lia.
    - rewrite Z.mod_pow2_bits_high by lia. destruct (Z.eqb_spec k j); [lia|done]. }
  set (a := t / 2 ^ (k + 1)) in *. apply Z.bits_inj_iff'. intros j Hj. rewrite Z.land_spec, Z.clearbit_eqb by done.
  destruct (Z.lt_ge_cases j (k + 1)) as [Hjk|Hjk].
  - destruct (Z.eqb_spec k j) as [<-|Hne]; cbn; rewrite ?andb_false_r.
    + rewrite Hb. cbn. replace (t - 1) with (Z.ones k + a * 2 ^ (k + 1)) by (rewrite Z.ones_equiv; lia).
      rewrite <- (Z.mod_pow2_bits_low _ (k + 1)), Z.mod_add, Z.mod_pow2_bits_low by lia. apply Z.ones_spec_high. lia.
    + rewrite Hlow by lia. done.
  - rewrite (proj2 (Z.eqb_neq k j)) by lia. cbn. rewrite andb_true_r.
    replace (Z.testbit (t - 1) j) with (Z.testbit t j); [apply andb_diag|].
    assert (0 < 2 ^ k) by lia. assert (2 ^ (k + 1) = 2 * 2 ^ k) as Hp by (rewrite Z.pow_add_r; lia).
    assert ((t - 1) / 2 ^ (k + 1) = a) as Ha by (symmetry; apply (Z.div_unique _ _ _ (2 ^ k - 1)); [left|]; rewrite ?Hp in *; lia).
    replace j with (j - (k + 1) + (k + 1)) by lia. by rewrite <- !Z.div_pow2_bits, Ha by lia.
Qed.

Lemma mask_loop_spec n : forall t b,
  in_word 64 t -> (forall j, (j < 64 - n)%nat -> Z.testbit t (Z.of_nat j) = false) -> (n <= 64)%nat ->
  b ∈ mask_loop n t <-> (b < 64)%nat /\ Z.testbit t (Z.of_nat b) = true.
Proof.
  induction n as [|n IH]; intros t b Hw Hlow Hn; cbn.
  { split; [by intros ?%elem_of_nil|]. intros [Hb Ht]. rewrite Hlow in Ht by lia. done. }
  destruct (Z.eqb_spec t 0) as [->|Ht].
  { rewrite Z.bits_0. split; [by intros ?%elem_of_nil|naive_solver]. }
  destruct (trailing_zeros_spec t Hw Ht) as (K1 & K2 & K3).
  pose proof (in_word_land_l 64 t (t - 1) ltac:(lia) Hw) as Hw'. revert Hw'.
  rewrite (clear_lowest t (Z.of_nat (trailing_zeros t))); [|lia|done|intros j Hj; rewrite <- (Z2Nat.id j) by lia; apply K3; lia]. intros Hw'.
  assert (64 - S n <= trailing_zeros t)%nat as Hge
    by (destruct (decide (64 - S n <= trailing_zeros t)%nat); [done|rewrite Hlow in K2 by lia; done]).
  rewrite elem_of_cons, IH; [|..|lia].
  - rewrite Z.clearbit_eqb by lia. destruct (Z.eqb_spec (Z.of_nat (trailing_zeros t)) (Z.of_nat b)) as [E|E].
    + apply Nat2Z.inj in E as <-. naive_solver.
    + cbn. rewrite andb_true_r. split; [intros [->|?]; [done|done]|by right].
  - done.
  - intros j Hj. rewrite Z.clearbit_eqb by lia. destruct (decide (j = trailing_zeros t)) as [->|Hne].
    + rewrite Z.eqb_refl. apply andb_false_r.
    + rewrite K3 by lia. done.
Qed.

(** The loop over a mask visits exactly the CPUs whose bit is set. *)
Lemma mask_bits_spec t b : in_word 64 t -> b ∈ mask_bits t <-> (b < MAX_CPUS)%nat /\ Z.testbit t (Z.of_nat b) = true.
Proof.
  intros. unfold mask_bits. rewrite list_elem_of_filter, mask_loop_spec by (done || lia).
  unfold MAX_CPUS. intuition lia.
Qed.
