(* ===== verification/Shootdown.v ===== *)
(** * The shootdown protocol, step by step (kernel/src/mm/tlb.rs, sched/mod.rs)

    One sender runs [shootdown_range] while every CPU switches address
    spaces, takes timer interrupts, refills its TLB and serves requests. Each
    access to the shared state is a step of its own, so the theorems hold for
    every interleaving: the sender publishes slot by slot, polls, withdraws
    what timed out and posts flushes; a handler claims, invalidates and
    drains; a context switch marks the new address space, writes CR3 and
    clears the mark of the old one. *)

From S2P Require Import Prelude Tlb.

(** Where a CPU is in [service_incoming_shootdown_and_drain], or in
    [on_cpu_tick] between its flush and its stamp. *)
Inductive Handler := HIdle | HClaimed | HDraining | HTicking.

(** Where a CPU is in a switch of CR3. *)
Inductive Switch := Settled | Loading (new : Z) | Unloading (old : Z).

Record Cpu := mkCpu { cpu_cr3 : Z; cached : list Z; handler : Handler; switch : Switch }.

(** Where the sender is in [shootdown_range]. *)
Inductive Sender :=
  | Ready
  | Publishing (todo targets : list nat)
  | Waiting (remaining : list nat)
  | Posting (remaining : list nat)
  | Returned (clean : bool).

Record Machine := mkMachine { m_tlb : Tlb; m_cpus : nat -> Cpu; m_sender : Sender }.

Definition set_cpu (c : nat) (u : Cpu) (f : nat -> Cpu) : nat -> Cpu := fun c' => if decide (c' = c) then u else f c'.
Definition set_cached (l : list Z) (u : Cpu) : Cpu := mkCpu (cpu_cr3 u) l (handler u) (switch u).
Definition set_handler (h : Handler) (u : Cpu) : Cpu := mkCpu (cpu_cr3 u) (cached u) h (switch u).
Definition set_switch (w : Switch) (u : Cpu) : Cpu := mkCpu (cpu_cr3 u) (cached u) (handler u) w.

Section protocol.

(** CPU [me] has cleared the entries of [[lo, hi)] in the page tables of
    [cr3] and invalidates them. *)
Context (me : nat) (cr3 lo hi : Z).

Definition in_range (p : Z) : Prop := lo <= p < hi.

(** [shootdown_range] up to the snapshot of its targets. *)
Definition begin_shootdown (u : Cpu) (t : Tlb) : Cpu * Sender :=
  let u := set_cached (local_invlpg_range lo hi (cached u)) u in
  (u, if negb (SMP_ACTIVE t) then Returned true
      else if shootdown_targets me cr3 t =? 0 then Returned true
      else Publishing (mask_bits (shootdown_targets me cr3 t)) (mask_bits (shootdown_targets me cr3 t))).

Inductive step : Machine -> Machine -> Prop :=
  | s_begin t f :
      step (mkMachine t f Ready)
           (mkMachine t (set_cpu me (fst (begin_shootdown (f me) t)) f) (snd (begin_shootdown (f me) t)))
  | s_publish t f b todo all :
      step (mkMachine t f (Publishing (b :: todo) all)) (mkMachine (publish b cr3 lo hi t) f (Publishing todo all))
  | s_wait t f all : step (mkMachine t f (Publishing [] all)) (mkMachine t f (Waiting all))
  | s_poll t f r : step (mkMachine t f (Waiting r)) (mkMachine t f (Waiting (poll_acks r t)))
  | s_clean t f : step (mkMachine t f (Waiting [])) (mkMachine t f (Returned true))
  | s_withdraw t f r : r <> [] -> step (mkMachine t f (Waiting r)) (mkMachine (fold_left clear_pending r t) f (Posting r))
  | s_post t f r : step (mkMachine t f (Posting r)) (mkMachine (post_force_flush r t) f (Returned false))
  | h_claim t f x c t' : (c < MAX_CPUS)%nat -> handler (f c) = HIdle -> service_claim c t = (true, t') ->
      step (mkMachine t f x) (mkMachine t' (set_cpu c (set_handler HClaimed (f c)) f) x)
  | h_skip t f x c t' : (c < MAX_CPUS)%nat -> handler (f c) = HIdle -> service_claim c t = (false, t') ->
      step (mkMachine t f x) (mkMachine t' (set_cpu c (set_handler HDraining (f c)) f) x)
  | h_invalidate t f x c : (c < MAX_CPUS)%nat -> handler (f c) = HClaimed ->
      step (mkMachine t f x)
        (mkMachine t (set_cpu c (set_handler HDraining (set_cached (service_invalidate c (cpu_cr3 (f c)) (cached (f c)) t) (f c))) f) x)
  | h_drain t f x c l t' : (c < MAX_CPUS)%nat -> handler (f c) = HDraining ->
      drain_pending_force_flush c (cached (f c)) t = (l, t') ->
      step (mkMachine t f x) (mkMachine t' (set_cpu c (set_handler HIdle (set_cached l (f c))) f) x)
  | c_flush t f x c : (c < MAX_CPUS)%nat -> handler (f c) = HIdle ->
      step (mkMachine t f x) (mkMachine t (set_cpu c (set_handler HTicking (set_cached [] (f c))) f) x)
  | c_stamp t f x c n k : (c < MAX_CPUS)%nat -> handler (f c) = HTicking ->
      step (mkMachine t f x) (mkMachine (fst (on_cpu_tick c n k t)) (set_cpu c (set_handler HIdle (f c)) f) x)
  | c_fill t f x c p : (cpu_cr3 (f c) = cr3 -> ~ in_range p) ->
      step (mkMachine t f x) (mkMachine t (set_cpu c (set_cached (p :: cached (f c)) (f c)) f) x)
  | c_evict t f x c p :
      step (mkMachine t f x) (mkMachine t (set_cpu c (set_cached (filter (fun q : Z => q <> p) (cached (f c))) (f c)) f) x)
  | c_load t f x c new : (c < MAX_CPUS)%nat -> handler (f c) = HIdle -> switch (f c) = Settled -> new <> cpu_cr3 (f c) ->
      step (mkMachine t f x) (mkMachine (note_cr3_load c new t) (set_cpu c (set_switch (Loading new) (f c)) f) x)
  | c_mov t f x c new : (c < MAX_CPUS)%nat -> handler (f c) = HIdle -> switch (f c) = Loading new ->
      step (mkMachine t f x) (mkMachine t (set_cpu c (mkCpu new [] HIdle (Unloading (cpu_cr3 (f c)))) f) x)
  | c_unload t f x c old : (c < MAX_CPUS)%nat -> handler (f c) = HIdle -> switch (f c) = Unloading old ->
      step (mkMachine t f x) (mkMachine (note_cr3_unload c old t) (set_cpu c (set_switch Settled (f c)) f) x)
  | c_online t f x : step (mkMachine t f x) (mkMachine (mark_self_smp_online t) f x).

(** ** The marks of the address space *)

Definition marked (t : Tlb) (c : nat) : Prop := Z.testbit (snapshot_active_mask cr3 t) (Z.of_nat c) = true.

Record t_ok (t : Tlb) : Prop := {
  tk_mask : in_word 64 (snapshot_active_mask cr3 t);
  tk_slots : length (SHOOTDOWN_SLOTS t) = MAX_CPUS;
  tk_force : length (FORCE_FLUSH_PENDING t) = MAX_CPUS }.

Definition stale (u : Cpu) : Prop := cpu_cr3 u = cr3 /\ exists p, p ∈ cached u /\ in_range p.

(** Every CPU that runs the address space, or is about to, is in its mask,
    and one that has flushed for a timer interrupt holds no stale entry. *)
Record c_ok (t : Tlb) (u : Cpu) (c : nat) : Prop := {
  ck_mark : cpu_cr3 u = cr3 -> marked t c;
  ck_loading new : switch u = Loading new -> new <> cpu_cr3 u /\ (new = cr3 -> marked t c);
  ck_unloading old : switch u = Unloading old -> old <> cpu_cr3 u;
  ck_tick : handler u = HTicking -> ~ stale u }.

(** ** What excuses a stale entry *)

Definition requested (t : Tlb) (c : nat) : Prop :=
  let slot := SHOOTDOWN_SLOTS t !!! c in slot_cr3 slot = cr3 /\ va_lo slot = lo /\ va_hi slot = hi.
Definition is_pending (t : Tlb) (c : nat) : Prop := pending (SHOOTDOWN_SLOTS t !!! c) = true.
Definition forced (t : Tlb) (c : nat) : Prop := (FORCE_FLUSH_PENDING t !!! c : bool) = true.

Definition serving (t : Tlb) (u : Cpu) (c : nat) : Prop := handler u = HClaimed /\ requested t c.

Definition excuse (x : Sender) (t : Tlb) (u : Cpu) (c : nat) : Prop :=
  match x with
  | Ready => SMP_ACTIVE t = false -> c = me
  | Publishing todo all => (c ∈ all /\ (c ∈ todo \/ (is_pending t c /\ requested t c))) \/ serving t u c
  | Waiting r => (c ∈ r /\ is_pending t c /\ requested t c) \/ serving t u c
  | Posting r => c ∈ r \/ serving t u c
  | Returned clean => (clean = false /\ forced t c) \/ serving t u c
  end.

Definition targets_ok (x : Sender) : Prop :=
  match x with
  | Publishing todo all => (forall b, b ∈ todo -> b ∈ all) /\ forall b, b ∈ all -> (b < MAX_CPUS)%nat
  | Waiting r | Posting r => forall b, b ∈ r -> (b < MAX_CPUS)%nat
  | _ => True
  end.

Record m_ok (s : Machine) : Prop := {
  mk_tlb : t_ok (m_tlb s);
  mk_cpu c : (c < MAX_CPUS)%nat -> c_ok (m_tlb s) (m_cpus s c) c;
  mk_targets : targets_ok (m_sender s);
  mk_stale c : (c < MAX_CPUS)%nat -> stale (m_cpus s c) -> excuse (m_sender s) (m_tlb s) (m_cpus s c) c }.

(** ** Steps of one CPU *)

(** What the two states have in common for a CPU that takes no part. *)
Record same_at (t t' : Tlb) (c : nat) : Prop := {
  sa_slot : SHOOTDOWN_SLOTS t' !!! c = SHOOTDOWN_SLOTS t !!! c;
  sa_force : (FORCE_FLUSH_PENDING t' !!! c : bool) = FORCE_FLUSH_PENDING t !!! c;
  sa_smp : SMP_ACTIVE t' = false -> SMP_ACTIVE t = false;
  sa_mark : marked t c -> marked t' c }.

Lemma same_at_refl t c : same_at t t c.
Proof. by split. Qed.

Lemma excuse_same x t t' u u' c :
  same_at t t' c -> (handler u = HClaimed -> handler u' = HClaimed) -> excuse x t u c -> excuse x t' u' c.
Proof.
  intros [S1 S2 S3 _] Hh. unfold excuse, serving, is_pending, requested, forced. rewrite S1, S2. destruct x; naive_solver.
Qed.

Lemma c_ok_same t t' u c : same_at t t' c -> c_ok t u c -> c_ok t' u c.
Proof.
  intros [_ _ _ S] [C1 C2 C3 C4]. split; [by intros ?; apply S, C1| |done|done].
  intros new Hn. destruct (C2 new Hn) as [? C2']. split; [done|]. intros ->. by apply S, C2'.
Qed.

Lemma set_cpu_eq c u f : set_cpu c u f c = u.
Proof. unfold set_cpu. by rewrite decide_True. Qed.

Lemma set_cpu_ne c c' u f : c' <> c -> set_cpu c u f c' = f c'.
Proof. intros. unfold set_cpu. by rewrite decide_False. Qed.

Lemma cpu_step c t t' f u' x :
  m_ok (mkMachine t f x) -> t_ok t' -> (forall c', c' <> c -> same_at t t' c') ->
  ((c < MAX_CPUS)%nat -> c_ok t' u' c /\ (stale u' -> excuse x t' u' c)) -> m_ok (mkMachine t' (set_cpu c u' f) x).
Proof.
  intros [M1 M2 M3 M4] Ht Hs Hc. split; cbn in *; [done| |done|].
  - intros c' Hc'. destruct (decide (c' = c)) as [->|Hne]; [rewrite set_cpu_eq; by apply Hc|].
    rewrite set_cpu_ne by done. apply (c_ok_same t); auto.
  - intros c' Hc'. destruct (decide (c' = c)) as [->|Hne]; [rewrite set_cpu_eq; by apply Hc|].
    rewrite set_cpu_ne by done. intros Hst. apply (excuse_same _ t _ (f c')); auto.
Qed.

(** A change of the cached entries that adds none of the range. *)
Lemma cached_step c l h t t' f x :
  m_ok (mkMachine t f x) -> t_ok t' ->
  (forall c', same_at t t' c' \/ (c' = c /\ ~ stale (set_cached l (f c)) /\ (marked t c' -> marked t' c'))) ->
  (forall p, p ∈ l -> cpu_cr3 (f c) = cr3 -> in_range p ->
     p ∈ cached (f c) /\ (handler (f c) = HClaimed -> h = HClaimed) /\ (h = HTicking -> handler (f c) = HTicking)) ->
  m_ok (mkMachine t' (set_cpu c (set_handler h (set_cached l (f c))) f) x).
Proof.
  intros HM Ht Hs Hl. apply (cpu_step c t); [done|done| |].
  { intros c' Hne. destruct (Hs c') as [?|[? _]]; [done|done]. }
  intros Hc. destruct HM as [M1 M2 M3 M4]; cbn in *. destruct (M2 c Hc) as [C1 C2 C3 C4]. assert (marked t c -> marked t' c) as Hm.
  { destruct (Hs c) as [[_ _ _ S]|(_ & _ & S)]; done. }
  assert (forall p, p ∈ l -> cpu_cr3 (f c) = cr3 -> in_range p -> stale (f c)) as Hst.
  { intros p Hp Hcr Hr. split; [done|]. exists p. split; [|done]. by apply Hl. }
  split; [split; cbn; [by auto| |done|]|].
  - intros new Hn. destruct (C2 new Hn); auto.
  - intros -> [Hcr (p & Hp & Hr)]. cbn in *. apply C4; [by apply (Hl p)|]. by apply (Hst p).
  - intros [Hcr (p & Hp & Hr)]. cbn in *.
    destruct (Hs c) as [S|(_ & Hn & _)]; [|destruct Hn; split; [done|by exists p]].
    apply (excuse_same _ t _ (f c)); [done|by apply (Hl p)|]. apply M4; [done|]. by apply (Hst p).
Qed.

(** ** Every step keeps the invariant *)

Context (Hme : (me < MAX_CPUS)%nat) (Hcr3 : cr3 <> 0) (Hlo : 0 <= lo) (Hhi : 0 <= hi) (Htop : hi + 0xFFF <= U64_MAX).

Lemma invlpg_spec l p : p ∈ local_invlpg_range lo hi l -> p ∈ l /\ ~ in_range p.
Proof.
  unfold local_invlpg_range. destruct (_ <? _); [by intros ?%elem_of_nil|]. rewrite list_elem_of_filter. intros [Hn Hp]. split; [done|].
  intros [H1 H2]. apply Hn. rewrite add64_small by lia.
  rewrite !land_page_mask by (unfold in_word, U64_MAX in *; lia).
  pose proof (Z.div_mod lo 4096 ltac:(done)). pose proof (Z.mod_pos_bound lo 4096 ltac:(done)).
  pose proof (Z.div_mod (hi + 4095) 4096 ltac:(done)). pose proof (Z.mod_pos_bound (hi + 4095) 4096 ltac:(done)). lia.
Qed.

Lemma excuse_unrequested x t u u' c : ~ requested t c -> excuse x t u c -> excuse x t u' c.
Proof. unfold excuse, serving. destruct x; naive_solver. Qed.

Lemma slot_update_same t c slot c' : c' <> c -> same_at t (with_slots (<[c := slot]> (SHOOTDOWN_SLOTS t)) t) c'.
Proof. intros Hne. split; cbn; [by rewrite list_lookup_total_insert_ne|done|done|done]. Qed.

Lemma slot_update_ok t c slot : t_ok t -> t_ok (with_slots (<[c := slot]> (SHOOTDOWN_SLOTS t)) t).
Proof. intros [T1 T2 T3]. split; cbn; [done|by rewrite length_insert|done]. Qed.

Lemma force_update_same t c b c' : c' <> c -> same_at t (set_force c b t) c'.
Proof. intros Hne. split; cbn; [done|by rewrite list_lookup_total_insert_ne|done|done]. Qed.

Lemma force_update_ok t c b : t_ok t -> t_ok (set_force c b t).
Proof. intros [T1 T2 T3]. split; cbn; [done|done|by rewrite length_insert]. Qed.

Lemma claim_step c t t' f x :
  m_ok (mkMachine t f x) -> (c < MAX_CPUS)%nat -> handler (f c) = HIdle -> service_claim c t = (true, t') ->
  m_ok (mkMachine t' (set_cpu c (set_handler HClaimed (f c)) f) x).
Proof.
  intros HM Hc Hh Hcl. unfold service_claim in Hcl. destruct (pending _) eqn:Hp; [|done]. injection Hcl as <-.
  destruct HM as [M1 M2 M3 M4] eqn:E; clear E; cbn in *.
  apply (cpu_step c t); [by split|by apply slot_update_ok|intros; by apply slot_update_same|]. intros _.
  set (t' := with_slots _ t). assert (requested t c -> requested t' c) as Hreq.
  { unfold requested, t'. cbn. by rewrite list_lookup_total_insert_eq by (rewrite (tk_slots t M1); done). }
  split; [destruct (M2 c Hc); by split|]. intros Hst. specialize (M4 c Hc Hst).
  unfold excuse, serving in *. cbn. destruct x; naive_solver.
Qed.

Lemma invalidate_step c t f x :
  m_ok (mkMachine t f x) -> (c < MAX_CPUS)%nat ->
  m_ok (mkMachine t (set_cpu c (set_handler HDraining (set_cached (service_invalidate c (cpu_cr3 (f c)) (cached (f c)) t) (f c))) f) x).
Proof.
  intros HM Hc. pose proof HM as [M1 M2 M3 M4]. cbn in *.
  apply (cpu_step c t); [done|done|intros; apply same_at_refl|]. intros _. split; [destruct (M2 c Hc); by split|].
  intros [Hcr (p & Hp & Hr)]. cbn in *. unfold service_invalidate in Hp.
  assert (p ∈ cached (f c) /\ ~ requested t c) as [Hin Hnr].
  { destruct (Z.eqb_spec (cpu_cr3 (f c)) (slot_cr3 (SHOOTDOWN_SLOTS t !!! c))) as [E|E].
    - split.
      + unfold local_invlpg_range in Hp. destruct (_ <? _); [by apply elem_of_nil in Hp|]. by apply list_elem_of_filter in Hp as [_ ?].
      + intros (_ & El & Eh). rewrite El, Eh in Hp. by apply invlpg_spec in Hp as [_ ?].
    - split; [done|]. intros (Ec & _). congruence. }
  apply (excuse_unrequested _ _ (f c)); [done|]. apply M4; [done|]. split; [done|]. by exists p.
Qed.

Lemma drain_step c t t' l f x :
  m_ok (mkMachine t f x) -> (c < MAX_CPUS)%nat -> handler (f c) = HDraining -> drain_pending_force_flush c (cached (f c)) t = (l, t') ->
  m_ok (mkMachine t' (set_cpu c (set_handler HIdle (set_cached l (f c))) f) x).
Proof.
  intros HM Hc Hh Hd. pose proof (mk_tlb _ HM) as HT. cbn in HT. unfold drain_pending_force_flush in Hd. rewrite (proj2 (Nat.leb_gt _ _)) in Hd by lia.
  destruct (FORCE_FLUSH_PENDING t !!! c : bool); injection Hd as <- <-; apply (cached_step c _ _ t).
  - done.
  - by apply force_update_ok.
  - intros c'. destruct (decide (c' = c)) as [->|Hne]; [|left; by apply force_update_same].
    right. split_and!; [done| |done]. by intros [_ (p & ?%elem_of_nil & _)].
  - by intros p ?%elem_of_nil.
  - done.
  - done.
  - intros c'. left. apply same_at_refl.
  - intros p Hp _ _. by rewrite Hh.
Qed.

Lemma on_cpu_tick_frame c n k t :
  (c < MAX_CPUS)%nat -> let t' := fst (on_cpu_tick c n k t) in
  SHOOTDOWN_SLOTS t' = SHOOTDOWN_SLOTS t /\ CR3_ACTIVE_CPUS t' = CR3_ACTIVE_CPUS t /\ SMP_ACTIVE t' = SMP_ACTIVE t /\
  FORCE_FLUSH_PENDING t' = <[c := false]> (FORCE_FLUSH_PENDING t).
Proof.
  intros Hc. unfold on_cpu_tick. rewrite (proj2 (Nat.ltb_lt _ _)) by done. cbn zeta.
  destruct (_ =? _)%nat; [by cbn|]. destruct (partition_ring _ _). by cbn.
Qed.

(** The flag may be cleared without a second flush: the flush of this timer
    interrupt came after the entries were cleared. *)
Lemma stamp_step c n k t f x :
  m_ok (mkMachine t f x) -> (c < MAX_CPUS)%nat -> handler (f c) = HTicking ->
  m_ok (mkMachine (fst (on_cpu_tick c n k t)) (set_cpu c (set_handler HIdle (f c)) f) x).
Proof.
  intros HM Hc Hh. destruct (on_cpu_tick_frame c n k t Hc) as (F1 & F2 & F3 & F4). set (t' := fst _) in *. clearbody t'.
  pose proof (mk_tlb _ HM) as [T1 T2 T3]. cbn in *. pose proof (ck_tick _ _ _ (mk_cpu _ HM c Hc) Hh) as Hst. cbn in Hst.
  assert (snapshot_active_mask cr3 t' = snapshot_active_mask cr3 t) as Em by (unfold snapshot_active_mask; by rewrite F2).
  assert (set_cached (cached (f c)) (f c) = f c) as Eu by (by destruct (f c)). rewrite <- Eu at 1.
  apply (cached_step c _ _ t); [done|split; rewrite ?Em, ?F1, ?F4, ?length_insert; done| |].
  - intros c'. destruct (decide (c' = c)) as [->|Hne].
    + right. rewrite Eu. split_and!; [done|done|]. unfold marked. by rewrite Em.
    + left. split; [by rewrite F1| |by rewrite F3|unfold marked; by rewrite Em]. rewrite F4. by rewrite list_lookup_total_insert_ne.
  - intros p Hp Hcr Hr. by rewrite Hh.
Qed.

Lemma testbit_cpu_bit c i : 0 <= i -> Z.testbit (cpu_bit c) i = bool_decide (i = Z.of_nat c).
Proof.
  intros Hi. unfold cpu_bit. rewrite Z.shiftl_1_l, Z.pow2_bits_eqb by lia. case_bool_decide as E; [apply Z.eqb_eq|apply Z.eqb_neq]; lia.
Qed.

Lemma note_load_spec c new t :
  (c < MAX_CPUS)%nat -> t_ok t ->
  t_ok (note_cr3_load c new t) /\ (forall c', same_at t (note_cr3_load c new t) c') /\ (new = cr3 -> marked (note_cr3_load c new t) c).
Proof.
  intros Hc [T1 T2 T3]. unfold note_cr3_load. destruct (Z.eqb_spec new 0) as [->|Hn].
  { split_and!; [by split|intros; apply same_at_refl|congruence]. }
  rewrite (proj2 (Nat.leb_gt _ _)) by lia. cbn zeta. set (t' := with_active _ t).
  assert (snapshot_active_mask cr3 t' = if decide (new = cr3) then snapshot_active_mask cr3 t .| cpu_bit c else snapshot_active_mask cr3 t) as E.
  { unfold snapshot_active_mask, t'. rewrite (proj2 (Z.eqb_neq cr3 0)) by done. cbn. destruct (decide (new = cr3)) as [->|Hne].
    - by rewrite lookup_insert_eq.
    - by rewrite lookup_insert_ne. }
  assert (in_word 64 (cpu_bit c)) as Hb.
  { unfold cpu_bit, in_word. rewrite Z.shiftl_1_l. unfold MAX_CPUS in Hc. split; [lia|]. apply Z.pow_lt_mono_r; lia. }
  split_and!.
  - split; [|done|done]. rewrite E. case_decide; [by apply in_word_lor|done].
  - intros c'. split; [done|done|done|]. unfold marked. rewrite E. case_decide; [|done]. rewrite Z.lor_spec. by intros ->.
  - intros ->. unfold marked. rewrite E, decide_True, Z.lor_spec, testbit_cpu_bit by (done || lia). by rewrite bool_decide_eq_true_2, orb_true_r.
Qed.

Lemma note_unload_spec c old t :
  (c < MAX_CPUS)%nat -> t_ok t ->
  t_ok (note_cr3_unload c old t) /\ (forall c', c' <> c \/ old <> cr3 -> same_at t (note_cr3_unload c old t) c') /\
  (forall c', SHOOTDOWN_SLOTS (note_cr3_unload c old t) !!! c' = SHOOTDOWN_SLOTS t !!! c').
Proof.
  intros Hc [T1 T2 T3]. unfold note_cr3_unload. destruct (old =? 0); [split_and!; [by split|intros; apply same_at_refl|done]|].
  rewrite (proj2 (Nat.leb_gt _ _)) by lia.
  destruct (CR3_ACTIVE_CPUS t !! old) as [e|] eqn:El; [|split_and!; [by split|intros; apply same_at_refl|done]]. set (t' := with_active _ t).
  assert (snapshot_active_mask cr3 t' = if decide (old = cr3) then snapshot_active_mask cr3 t .& notw 64 (cpu_bit c) else snapshot_active_mask cr3 t) as E.
  { unfold snapshot_active_mask, t'. rewrite (proj2 (Z.eqb_neq cr3 0)) by done. cbn. destruct (decide (old = cr3)) as [->|Hne].
    - by rewrite lookup_insert_eq, El.
    - by rewrite lookup_insert_ne. }
  split_and!; [| |done].
  - split; [|done|done]. rewrite E. case_decide; [by apply in_word_land_l|done].
  - intros c' Hc'. split; [done|done|done|]. unfold marked. rewrite E. case_decide as Ho; [|done]. intros Hb. destruct Hc' as [Hne|]; [|done].
    rewrite Z.land_spec, Hb, testbit_notw, testbit_cpu_bit by lia.
    rewrite (bool_decide_eq_false_2 (_ = _)) by lia. rewrite bool_decide_eq_true_2; [done|].
    destruct (decide (Z.of_nat c' < 64)); [done|]. by rewrite (testbit_word_high 64) in Hb by (done || lia).
Qed.

Lemma load_step c new t f x :
  m_ok (mkMachine t f x) -> (c < MAX_CPUS)%nat -> new <> cpu_cr3 (f c) ->
  m_ok (mkMachine (note_cr3_load c new t) (set_cpu c (set_switch (Loading new) (f c)) f) x).
Proof.
  intros HM Hc Hn. pose proof HM as [M1 M2 M3 M4]. cbn in *. destruct (note_load_spec c new t Hc M1) as (L1 & L2 & L3).
  apply (cpu_step c t); [done|done|auto|]. intros _. destruct (M2 c Hc) as [C1 C2 C3 C4]. split.
  - split; cbn; [by intros ?; apply (sa_mark _ _ _ (L2 c)), C1| |done|done]. by intros new' [= <-].
  - intros Hst. apply (excuse_same _ t _ (f c)); [done|done|]. by apply M4.
Qed.

Lemma mov_step c new t f x :
  m_ok (mkMachine t f x) -> (c < MAX_CPUS)%nat -> switch (f c) = Loading new ->
  m_ok (mkMachine t (set_cpu c (mkCpu new [] HIdle (Unloading (cpu_cr3 (f c)))) f) x).
Proof.
  intros HM Hc Hs. pose proof HM as [M1 M2 M3 M4]. cbn in *. destruct (M2 c Hc) as [C1 C2 C3 C4]. destruct (C2 new Hs) as [Hne Hm].
  apply (cpu_step c t); [done|done|intros; apply same_at_refl|]. intros _. split.
  - split; cbn; [done|done| |done]. by intros old [= <-].
  - intros [_ (p & Hp%elem_of_nil & _)]. done.
Qed.

Lemma unload_step c old t f x :
  m_ok (mkMachine t f x) -> (c < MAX_CPUS)%nat -> switch (f c) = Unloading old ->
  m_ok (mkMachine (note_cr3_unload c old t) (set_cpu c (set_switch Settled (f c)) f) x).
Proof.
  intros HM Hc Hs. pose proof HM as [M1 M2 M3 M4]. cbn in *. destruct (M2 c Hc) as [C1 C2 C3 C4]. pose proof (C3 old Hs) as Hne.
  destruct (note_unload_spec c old t Hc M1) as (U1 & U2 & _). apply (cpu_step c t); [done|done|auto|]. intros _.
  assert (cpu_cr3 (f c) = cr3 -> same_at t (note_cr3_unload c old t) c) as Hsame by (intros E; apply U2; right; congruence).
  split; [split; cbn; [|done|done|done]; intros E; by apply (sa_mark _ _ _ (Hsame E)), C1|].
  intros Hst. pose proof Hst as [E _]. apply (excuse_same _ t _ (f c)); [by apply Hsame|done|]. by apply M4.
Qed.

(** ** Steps of the sender *)

#[local] Opaque mask_bits.

Lemma begin_step t f :
  m_ok (mkMachine t f Ready) ->
  m_ok (mkMachine t (set_cpu me (fst (begin_shootdown (f me) t)) f) (snd (begin_shootdown (f me) t))).
Proof.
  intros [M1 M2 M3 M4]. cbn in *. set (f' := set_cpu me _ f). set (x := if negb _ then _ else _).
  assert (forall c, stale (f' c) -> c <> me /\ stale (f c)) as Hst.
  { intros c. unfold f', set_cpu. case_decide as E; [|done]. intros [_ (p & Hp & Hr)]. by apply invlpg_spec in Hp as [_ ?]. }
  assert (forall c, c_ok t (f c) c -> c_ok t (f' c) c) as Hc.
  { intros c. specialize (Hst c). unfold f', set_cpu in *. case_decide as E; [subst c|done]. intros [? ? ? ?]. split; [done..|].
    intros _ Hs. by destruct (Hst Hs). }
  assert (in_word 64 (shootdown_targets me cr3 t)) as Hw by (apply in_word_land_l; [lia|apply M1]).
  assert (forall c, (c < MAX_CPUS)%nat -> stale (f' c) -> SMP_ACTIVE t = true /\ c ∈ mask_bits (shootdown_targets me cr3 t)) as Ht.
  { intros c Hcm [Hne Hs]%Hst. specialize (M4 c Hcm Hs). split; [by destruct (SMP_ACTIVE t); [|specialize (M4 eq_refl)]|].
    apply mask_bits_spec; [done|]. split; [done|]. unfold shootdown_targets.
    rewrite Z.land_spec, testbit_notw, testbit_cpu_bit by lia. rewrite (bool_decide_eq_false_2 (_ = _)) by lia.
    rewrite bool_decide_eq_true_2 by (unfold MAX_CPUS in Hcm; lia). rewrite (ck_mark _ _ _ (M2 c Hcm)); [done|by destruct Hs]. }
  split; cbn; [done|by intros c ?; apply Hc, M2| |].
  - unfold x. destruct (negb _); [done|]. destruct (_ =? 0); [done|]. split; [done|]. by intros b [? _]%mask_bits_spec.
  - intros c Hcm Hs. destruct (Ht c Hcm Hs) as [Hsmp Hin]. unfold x. rewrite Hsmp. cbn [negb].
    destruct (Z.eqb_spec (shootdown_targets me cr3 t) 0) as [E|_]; [|cbn; by left; split; [|left]].
    rewrite E in Hin. apply mask_bits_spec in Hin as [_ Hb]; [by rewrite Z.bits_0 in Hb|by rewrite <- E].
Qed.

Lemma publish_step t f b todo all :
  m_ok (mkMachine t f (Publishing (b :: todo) all)) -> m_ok (mkMachine (publish b cr3 lo hi t) f (Publishing todo all)).
Proof.
  intros [M1 M2 [M3 M3'] M4]. cbn in *. assert (b < MAX_CPUS)%nat as Hb by (apply M3', M3, list_elem_of_here).
  assert (forall c, c <> b -> same_at t (publish b cr3 lo hi t) c) as Hs by (intros; by apply slot_update_same).
  assert (SHOOTDOWN_SLOTS (publish b cr3 lo hi t) !!! b = mkSlot cr3 lo hi true) as Eb
    by (unfold publish; cbn; apply list_lookup_total_insert_eq; by rewrite (tk_slots _ M1)).
  split; cbn; [by apply slot_update_ok| |split; [set_solver|done]|].
  - intros c Hc. destruct (M2 c Hc); by split.
  - intros c Hc Hst. specialize (M4 c Hc Hst). unfold serving, is_pending, requested in *. destruct (decide (c = b)) as [->|Hne].
    + rewrite Eb. cbn. destruct M4 as [[? _]|[? _]]; [left|right]; by split; [|try right].
    + rewrite (sa_slot _ _ _ (Hs c Hne)). rewrite elem_of_cons in M4. naive_solver.
Qed.

Lemma withdrawn_spec r t c :
  let t' := fold_left clear_pending r t in
  length (SHOOTDOWN_SLOTS t') = length (SHOOTDOWN_SLOTS t) /\ CR3_ACTIVE_CPUS t' = CR3_ACTIVE_CPUS t /\
  FORCE_FLUSH_PENDING t' = FORCE_FLUSH_PENDING t /\ (requested t c -> requested t' c).
Proof.
  revert t. induction r as [|b r IH]; intros t; cbn; [done|]. destruct (IH (clear_pending t b)) as (-> & -> & -> & Hr).
  split_and!; [cbn; apply length_insert|done|done|]. intros Hq. apply Hr. revert Hq. unfold requested, clear_pending. cbn.
  destruct (decide (c = b)) as [->|Hne]; [|by rewrite list_lookup_total_insert_ne].
  destruct (decide (b < length (SHOOTDOWN_SLOTS t))%nat); [by rewrite list_lookup_total_insert_eq|]. by rewrite list_insert_ge by lia.
Qed.

Lemma posted_spec r t :
  (forall b, b ∈ r -> (b < length (FORCE_FLUSH_PENDING t))%nat) ->
  let t' := post_force_flush r t in
  SHOOTDOWN_SLOTS t' = SHOOTDOWN_SLOTS t /\ CR3_ACTIVE_CPUS t' = CR3_ACTIVE_CPUS t /\
  length (FORCE_FLUSH_PENDING t') = length (FORCE_FLUSH_PENDING t) /\
  forall c, c ∈ r \/ forced t c -> forced t' c.
Proof.
  unfold post_force_flush. revert t. induction r as [|b r IH]; intros t Hb; cbn [fold_left].
  { split_and!; [done|done|done|]. by intros c [?%elem_of_nil|?]. }
  destruct (IH (set_force b true t)) as (-> & -> & -> & Hf); [intros b' ?; cbn; rewrite length_insert; by apply Hb, list_elem_of_further|].
  split_and!; [done|done|cbn; apply length_insert|]. intros c Hc. apply Hf. rewrite elem_of_cons in Hc. unfold forced, set_force in *. cbn.
  destruct (decide (c = b)) as [->|Hne]; [right; by apply list_lookup_total_insert_eq, Hb, list_elem_of_here|].
  rewrite list_lookup_total_insert_ne by done. naive_solver.
Qed.

(** A change of the sender and of the requests that leaves the CPUs and the
    marks alone. *)
Lemma sender_step t t' f x x' :
  m_ok (mkMachine t f x) -> t_ok t' -> CR3_ACTIVE_CPUS t' = CR3_ACTIVE_CPUS t -> targets_ok x' ->
  (forall c, (c < MAX_CPUS)%nat -> excuse x t (f c) c -> excuse x' t' (f c) c) -> m_ok (mkMachine t' f x').
Proof.
  intros [M1 M2 M3 M4] Ht Ha Hx He. cbn in *. split; cbn; [done| |done|auto].
  intros c Hc. specialize (M2 c Hc). unfold marked, snapshot_active_mask in *. destruct M2 as [C1 C2 C3 C4].
  split; unfold marked, snapshot_active_mask; rewrite ?Ha; done.
Qed.

Lemma withdraw_step t f r : m_ok (mkMachine t f (Waiting r)) -> m_ok (mkMachine (fold_left clear_pending r t) f (Posting r)).
Proof.
  intros HM. pose proof HM as [[T1 T2 T3] M2 M3 M4]. cbn in *.
  destruct (withdrawn_spec r t 0) as (W1 & W2 & W3 & _). apply (sender_step t _ f (Waiting r)); [done| |done|done|].
  - split; [unfold snapshot_active_mask in *; by rewrite W2|by rewrite W1|by rewrite W3].
  - intros c Hc. destruct (withdrawn_spec r t c) as (_ & _ & _ & Hr). cbn. unfold serving. naive_solver.
Qed.

Lemma post_step t f r : m_ok (mkMachine t f (Posting r)) -> m_ok (mkMachine (post_force_flush r t) f (Returned false)).
Proof.
  intros HM. pose proof HM as [[T1 T2 T3] M2 M3 M4]. cbn in *.
  destruct (posted_spec r t) as (P1 & P2 & P3 & P4); [by rewrite T3|]. apply (sender_step t _ f (Posting r)); [done| |done|done|].
  - split; [unfold snapshot_active_mask in *; by rewrite P2|by rewrite P1|by rewrite P3].
  - intros c Hc. cbn. unfold serving, requested. rewrite P1. naive_solver.
Qed.

Lemma step_ok s s' : m_ok s -> step s s' -> m_ok s'.
Proof.
  intros HM Hst. destruct Hst.
  - by apply begin_step.
  - by apply publish_step.
  - apply (sender_step t _ f _ _ HM); [apply HM|done|exact (proj2 (mk_targets _ HM))|]. intros c Hc. cbn. rewrite elem_of_nil. naive_solver.
  - apply (sender_step t _ f _ _ HM); [apply HM|done| |].
    + intros b [_ Hb]%list_elem_of_filter. by apply (mk_targets _ HM).
    + intros c Hc. cbn. unfold poll_acks. rewrite list_elem_of_filter. unfold is_pending. naive_solver.
  - apply (sender_step t _ f _ _ HM); [apply HM|done|done|]. intros c Hc. cbn. rewrite elem_of_nil. naive_solver.
  - by apply withdraw_step.
  - by apply post_step.
  - by eapply claim_step.
  - assert (t' = t) as -> by (unfold service_claim in *; destruct (pending _); congruence).
    replace (set_handler HDraining (f c)) with (set_handler HDraining (set_cached (cached (f c)) (f c))) by (by destruct (f c)).
    apply (cached_step c _ _ t); [done|apply HM|intros; left; apply same_at_refl|]. intros p Hp _ _. split_and!; [done|congruence|congruence].
  - by apply invalidate_step.
  - by eapply drain_step.
  - apply (cached_step c _ _ t); [done|apply HM|intros; left; apply same_at_refl|]. by intros p ?%elem_of_nil.
  - by apply stamp_step.
  - replace (set_cached (p :: cached (f c)) (f c)) with (set_handler (handler (f c)) (set_cached (p :: cached (f c)) (f c))) by (by destruct (f c)).
    apply (cached_step c _ _ t); [done|apply HM|intros; left; apply same_at_refl|]. intros q Hq. rewrite elem_of_cons in Hq. naive_solver.
  - replace (set_cached (filter (fun q : Z => q <> p) (cached (f c))) (f c))
      with (set_handler (handler (f c)) (set_cached (filter (fun q : Z => q <> p) (cached (f c))) (f c))) by (by destruct (f c)).
    apply (cached_step c _ _ t); [done|apply HM|intros; left; apply same_at_refl|]. intros q [_ Hq]%list_elem_of_filter _ _. by split.
  - by apply load_step.
  - by apply mov_step.
  - by apply unload_step.
  - apply (sender_step t _ f x x); [done| |done|apply HM|].
    + destruct (mk_tlb _ HM). by split.
    + intros c Hc. apply excuse_same; [by split|done].
Qed.

(** C6: One shootdown of a range by one sender, for every interleaving of its
    steps with context switches, timer interrupts, handlers, evictions and TLB
    fills of all CPUs, started where marks and slots are in order and, if SMP
    is not yet on, only the sender's CPU can hold entries of the space. At all
    times, whatever the sender is doing, a CPU that runs the address space is
    named in its mask. When the sender has returned, a CPU holds an entry of
    the range only while its own handler is between the claim of this very
    request and its invalidation or, where the sender reported a timeout,
    while a full flush is posted to it; so a CPU that is in no handler and has
    no flush posted holds none. A second sender at the same time is outside
    the statement: its publication overwrites the slot (overwritten_request).
    *)
Theorem shootdown_protocol s0 s c :
  m_ok s0 -> rtc step s0 s -> (c < MAX_CPUS)%nat ->
  (cpu_cr3 (m_cpus s c) = cr3 -> marked (m_tlb s) c) /\
  forall clean, m_sender s = Returned clean ->
    (stale (m_cpus s c) -> serving (m_tlb s) (m_cpus s c) c \/ (clean = false /\ forced (m_tlb s) c)) /\
    (handler (m_cpus s c) = HIdle -> clean = true \/ ~ forced (m_tlb s) c -> ~ stale (m_cpus s c)).
Proof.
  intros H0 Hr Hc. assert (m_ok s) as [M1 M2 M3 M4].
  { induction Hr as [|s0 s1 s2 Hst _ IH]; [done|]. by apply IH, (step_ok s0). }
  split; [apply (M2 c Hc)|]. intros clean Hs.
  assert (stale (m_cpus s c) -> serving (m_tlb s) (m_cpus s c) c \/ (clean = false /\ forced (m_tlb s) c)) as Hst.
  { intros Hst. specialize (M4 c Hc Hst). rewrite Hs in M4. cbn in M4. tauto. }
  split; [done|]. intros Hi Hcl [[Hh _]|[-> Hf]]%Hst; [congruence|]. by destruct Hcl.
Qed.

End protocol.

(* ------------------------------------------------------------------ *)
(** ** Two CPUs on one address space *)

Definition two_cpus : Tlb := note_cr3_load 1 0x1000 (note_cr3_load 0 0x1000 (mark_self_smp_online tlb_static)).
Definition cpu_on (cr3 : Z) (l : list Z) : Cpu := mkCpu cr3 l HIdle Settled.
Definition both : nat -> Cpu := fun c => if decide (c < 2)%nat then cpu_on 0x1000 [0x5000] else cpu_on 0 [].

Definition claimed_slots : Tlb := snd (service_claim 1 (publish 1 0x1000 0x5000 0x6000 two_cpus)).
Definition returned_early : Machine :=
  mkMachine claimed_slots
    (set_cpu 1 (set_handler HClaimed (cpu_on 0x1000 [0x5000])) (set_cpu 0 (set_cached [] (cpu_on 0x1000 [0x5000])) both))
    (Returned true).

Lemma returned_early_reachable :
  rtc (step 0 0x1000 0x5000 0x6000) (mkMachine two_cpus both Ready) returned_early.
Proof.
  eapply rtc_l; [apply s_begin|].
  replace (begin_shootdown 0 0x1000 0x5000 0x6000 (both 0) two_cpus)
    with (set_cached [] (cpu_on 0x1000 [0x5000]), Publishing [1%nat] [1%nat]) by (vm_compute; reflexivity). cbn [fst snd].
  eapply rtc_l; [apply s_publish|]. eapply rtc_l; [apply s_wait|].
  eapply rtc_l; [apply (h_claim _ _ _ _ _ _ _ 1 claimed_slots); [unfold MAX_CPUS; lia|reflexivity|vm_compute; reflexivity]|].
  eapply rtc_l; [apply s_poll|].
  replace (poll_acks [1%nat] claimed_slots) with (@nil nat) by (vm_compute; reflexivity).
  eapply rtc_l; [apply s_clean|]. apply rtc_refl.
Qed.

(** The acknowledgement is the claim, so it precedes the invalidation: a
    sender may return [true] while a target still holds the entry. *)
Lemma acknowledged_before_invalidated :
  rtc (step 0 0x1000 0x5000 0x6000) (mkMachine two_cpus both Ready) returned_early /\
  m_sender returned_early = Returned true /\ stale 0x1000 0x5000 0x6000 (m_cpus returned_early 1).
Proof.
  split_and!; [apply returned_early_reachable|done|]. split; [done|]. exists 0x5000. split; [apply list_elem_of_here|].
  unfold in_range. lia.
Qed.

(** Two senders to one CPU: the second publication replaces the first before
    the handler runs, and the acknowledgement of the one request left counts
    for both, with the entry of the first still cached. *)
Lemma overwritten_request :
  let t := publish 2 0x1000 0x9000 0xA000 (publish 2 0x1000 0x5000 0x6000 two_cpus) in
  let '(tlb, t) := service_incoming_shootdown_and_drain 2 0x1000 [0x5000; 0x9000] t in
  tlb = [0x5000] /\ poll_acks [2%nat] t = [].
Proof. by vm_compute. Qed.

Lemma both_ok : m_ok 0 0x1000 0x5000 0x6000 (mkMachine two_cpus both Ready).
Proof.
  split; cbn [m_tlb m_cpus m_sender].
  - split; [by vm_compute|reflexivity|reflexivity].
  - intros c Hc. unfold both. case_decide as E; split; cbn; try done. intros _.
    destruct c as [|[|c]]; [by vm_compute|by vm_compute|lia].
  - done.
  - by intros c _ _.
Qed.

Lemma shootdown_protocol_witness :
  rtc (step 0 0x1000 0x5000 0x6000) (mkMachine two_cpus both Ready) returned_early /\
  ~ stale 0x1000 0x5000 0x6000 (m_cpus returned_early 0) /\
  serving 0x1000 0x5000 0x6000 (m_tlb returned_early) (m_cpus returned_early 1) 1.
Proof.
  pose proof (fun c => shootdown_protocol 0 0x1000 0x5000 0x6000 ltac:(unfold MAX_CPUS; lia) ltac:(lia) ltac:(lia) ltac:(lia)
                ltac:(unfold U64_MAX; lia) (mkMachine two_cpus both Ready) returned_early c both_ok returned_early_reachable) as H.
  split_and!; [exact returned_early_reachable| |].
  - destruct (H 0%nat ltac:(unfold MAX_CPUS; lia)) as [_ Hs]. apply (Hs true eq_refl); [reflexivity|left; reflexivity].
  - destruct (H 1%nat ltac:(unfold MAX_CPUS; lia)) as [_ Hs]. destruct (Hs true eq_refl) as [Hx _].
    destruct (Hx (proj2 (proj2 acknowledged_before_invalidated))) as [Hy|[Hy _]]; [exact Hy|discriminate Hy].
Defined.
