(* ===== verification/Teardown.v ===== *)
(** * Taking address spaces apart (kernel/src/proc/mod.rs, mm/vmm.rs)

    [free_vm_space], which drops the references of every mapped page, frees
    the frames nobody else holds and then the tables themselves, and
    [unmap_and_free_range_in], the unmapping of a range in batches with a
    shootdown between the clearing of entries and the release of frames.
    Whether a shootdown was acknowledged by every CPU is an argument; frames
    go to the quarantine of [Tlb] where it was not. The address space's lock
    is taken as held, and the generation counter that tells faults in flight
    to start over is left out. *)

From S2P Require Import Prelude InodePins Vma Rss PageTable Resident Fork Tlb.

(** What the teardown needs of the frame layer, besides references: giving a
    reference up, and giving a frame back. *)
Class FrameRelease (F : Type) := {
  fs_dec : Z -> F -> Z * F;
  fs_free : Z -> F -> F;
  fs_refcountable : Z -> bool }.

Class FrameReleaseLaws (F : Type) `{FrameSource F, FrameRefs F, FrameRelease F} : Prop := {
  fs_owned_tracked f p : fs_ok f -> fs_owned f p -> fs_tracked p;
  fs_dec_ok f p : fs_ok f -> fs_ok (snd (fs_dec p f));
  fs_dec_owned f p q : fs_ok f -> fs_owned (snd (fs_dec p f)) q <-> fs_owned f q;
  fs_dec_value f p : fs_ok f -> 0 <= p -> p mod 4096 = 0 -> fs_tracked p -> fst (fs_dec p f) = Z.max 0 (fs_share f p - 1);
  fs_dec_share f p q : fs_ok f -> 0 <= p -> p mod 4096 = 0 -> 0 <= q -> q mod 4096 = 0 -> fs_tracked q ->
    fs_share (snd (fs_dec p f)) q = if p =? q then Z.max 0 (fs_share f q - 1) else fs_share f q;
  fs_free_ok f p : fs_ok f -> fs_owned f p -> fs_ok (fs_free p f);
  fs_free_share f p q : fs_ok f -> fs_share (fs_free p f) q = fs_share f q;
  fs_free_owned f p q : fs_ok f -> fs_owned f p -> fs_share f p = 0 -> fs_owned (fs_free p f) q <-> fs_owned f q /\ q <> p }.

(** [while addr < end { body(addr); addr += 0x1000 }]. *)
Fixpoint page_loop {S : Type} (fuel : nat) (addr end_ : Z) (body : Z -> S -> S) (s : S) : S :=
  match fuel with
  | O => s
  | S fuel => if addr <? end_ then page_loop fuel (add64 addr 0x1000) end_ body (body addr s) else s
  end.

Definition page_fuel (length : Z) : nat := S (Z.to_nat (length / 4096)).

Definition table_entries : list Z := Z.of_nat <$> seq 0 512.
Definition user_entries : list Z := Z.of_nat <$> seq 0 256.

Section teardown.
Context {F : Type} `{FrameSource F, FrameRefs F, FrameRelease F}.
Implicit Types (f : F) (t : Tlb) (s : Vmm F) (m : Z -> Z).

(** [if shootdown_clean { free_page } else { quarantine_free }]. *)
Definition release (clean : bool) (tick phys : Z) (st : F * Tlb) : F * Tlb :=
  let '(f, t) := st in
  if clean then (fs_free phys f, t)
  else let '(t, now) := quarantine_free tick phys t in (fold_left (fun f p => fs_free p f) now f, t).

Definition drop_frame (clean : bool) (tick phys : Z) (st : F * Tlb) : F * Tlb :=
  let '(f, t) := st in
  if fs_refcountable phys then
    let '(rc, f) := fs_dec phys f in
    if rc =? 0 then release clean tick phys (f, t) else (f, t)
  else (f, t).

Definition teardown_page (clean : bool) (tick : Z) m (cr3 addr : Z) (st : F * Tlb) : F * Tlb :=
  let pte := read_pte m cr3 addr in
  if is_set pte PAGE_PRESENT then drop_frame clean tick (pte .& ADDR_MASK) st else st.

Definition is_device (v : VmArea) : bool := match vm_backing v with Device _ => true | _ => false end.

Definition teardown_area (clean : bool) (tick : Z) m (cr3 : Z) (st : F * Tlb) (vma : VmArea) : F * Tlb :=
  if is_device vma then st
  else page_loop (page_fuel (vm_length vma)) (vm_base vma) (add64 (vm_base vma) (vm_length vma))
         (teardown_page clean tick m cr3) st.

(** ** The tables *)

Definition free_pt m (pd : Z) f (k : Z) : F :=
  let pde := m (word pd k) in
  if negb (is_set pde PAGE_PRESENT) then f
  else if is_set pde PAGE_HUGE then f
  else fs_free (pde .& ADDR_MASK) f.

Definition free_pd m (pdpt : Z) f (j : Z) : F :=
  let pdpte := m (word pdpt j) in
  if negb (is_set pdpte PAGE_PRESENT) then f
  else if is_set pdpte PAGE_HUGE then f
  else
    let pd_phys := pdpte .& ADDR_MASK in
    fs_free pd_phys (fold_left (free_pt m pd_phys) table_entries f).

Definition free_pdpt m (pml4 : Z) f (i : Z) : F :=
  let pml4e := m (word pml4 i) in
  if negb (is_set pml4e PAGE_PRESENT) then f
  else
    let pdpt_phys := pml4e .& ADDR_MASK in
    fs_free pdpt_phys (fold_left (free_pd m pdpt_phys) table_entries f).

Definition free_user_page_tables (kernel_cr3 cr3 : Z) s t : Vmm F * Tlb :=
  if (cr3 =? 0) || (cr3 =? kernel_cr3) then (s, t)
  else
    let t := forget_cr3 cr3 t in
    let r := detach cr3 (rss s) in
    let f := fs_free cr3 (fold_left (free_pdpt (pm s) cr3) user_entries (fr s)) in
    (mkVmm (pm s) f r, t).

(** The exec path; [free_process_memory] does the same to the space it takes
    out of the process. *)
Definition free_vm_space (open : Z -> Z -> bool) (mounted : Z -> bool) (kernel_cr3 : Z) (clean : bool) (tick : Z)
    (vm_space : VmSpace) (pins : VfsPins) s t : VfsPins * Vmm F * Tlb :=
  let cr3 := cr3 vm_space in
  if (cr3 =? 0) || (cr3 =? kernel_cr3) then (pins, s, t)
  else
    let pins := fold_left (fun p vma => vma_unpin_if_shared_file (vm_flags vma) (vm_backing vma) p) (areas vm_space) pins in
    let pins := reap_pending_inodes open mounted pins in
    let '(f, t) := fold_left (teardown_area clean tick (pm s) cr3) (areas vm_space) (fr s, t) in
    let '(s, t) := free_user_page_tables kernel_cr3 cr3 (mkVmm (pm s) f (rss s)) t in
    (pins, s, t).

(** ** Unmapping a range *)

Definition BATCH : nat := 128.

(** One round of the first pass; the frames whose last reference went are
    collected. *)
Definition unmap_one (pml4_phys pg : Z) (st : Vmm F * list Z) : Vmm F * list Z :=
  let '(s, to_free) := st in
  match virt_to_phys_in (pm s) pml4_phys pg with
  | None => (s, to_free)
  | Some phys =>
      let s := unmap_page_in_at pml4_phys pg s in
      let '(new_rc, f) := fs_dec phys (fr s) in
      (mkVmm (pm s) f (rss s), if new_rc =? 0 then to_free ++ [phys] else to_free)
  end.

Fixpoint unmap_batch (fuel : nat) (pml4_phys pg end_ : Z) (st : Vmm F * list Z) : Z * (Vmm F * list Z) :=
  match fuel with
  | O => (pg, st)
  | S fuel =>
      if (pg <? end_) && (length (snd st) <? BATCH)%nat
      then unmap_batch fuel pml4_phys (add64 pg 0x1000) end_ (unmap_one pml4_phys pg st)
      else (pg, st)
  end.

(** [shootdown lo hi]: every CPU acknowledged. *)
Fixpoint unmap_range_loop (fuel : nat) (shootdown : Z -> Z -> bool) (tick pml4_phys pg end_ : Z) s t (freed : Z)
    : Z * Vmm F * Tlb :=
  match fuel with
  | O => (freed, s, t)
  | S fuel =>
      if pg <? end_ then
        let '(batch_end, (s, to_free)) := unmap_batch (page_fuel (end_ - pg)) pml4_phys pg end_ (s, []) in
        let clean := shootdown pg batch_end in
        let '(f, t) := fold_left (fun st phys => release clean tick phys st) to_free (fr s, t) in
        unmap_range_loop fuel shootdown tick pml4_phys batch_end end_ (mkVmm (pm s) f (rss s)) t
          (add64 freed (Z.of_nat (length to_free)))
      else (freed, s, t)
  end.

Definition unmap_and_free_range_in (shootdown : Z -> Z -> bool) (tick pml4_phys base length : Z) s t : Z * Vmm F * Tlb :=
  unmap_range_loop (page_fuel length) shootdown tick pml4_phys base (sat_add64 base length) s t 0.
End teardown.

(* ------------------------------------------------------------------ *)
(** ** Loops over pages *)

Definition pages (base : Z) (n : nat) : list Z := (fun i => base + 4096 * Z.of_nat i) <$> seq 0 n.

Lemma pages_S base n : pages base (S n) = base :: pages (base + 4096) n.
Proof.
  unfold pages. cbn [seq fmap list_fmap]. f_equal; [lia|]. rewrite <- seq_shift, <- list_fmap_compose.
  apply list_fmap_ext. intros i x _. cbn. lia.
Qed.

Lemma page_loop_fold {S} (body : Z -> S -> S) n : forall fuel base s,
  (n < fuel)%nat -> 0 <= base -> base + 4096 * Z.of_nat n <= U64_MAX ->
  page_loop fuel base (base + 4096 * Z.of_nat n) body s = fold_left (fun s a => body a s) (pages base n) s.
Proof.
  induction n as [|n IH]; intros fuel base s Hf Hb Hu; (destruct fuel as [|fuel]; [lia|]).
  - cbn. by rewrite (proj2 (Z.ltb_ge _ _)) by lia.
  - rewrite pages_S. cbn [page_loop fold_left]. rewrite (proj2 (Z.ltb_lt _ _)) by lia. rewrite add64_small by lia.
    replace (base + 4096 * Z.of_nat (Datatypes.S n)) with (base + 4096 + 4096 * Z.of_nat n) by lia. apply IH; lia.
Qed.

Lemma fold_left_omap {A B S} (g : A -> option B) (h : S -> B -> S) l : forall s,
  fold_left (fun s a => match g a with Some b => h s b | None => s end) l s = fold_left h (omap g l) s.
Proof. induction l as [|a l IH]; intros s; cbn; [done|]. destruct (g a); apply IH. Qed.

Lemma fold_left_bind {A B S} (g : A -> list B) (h : S -> B -> S) l : forall s,
  fold_left (fun s a => fold_left h (g a) s) l s = fold_left h (l ≫= g) s.
Proof. induction l as [|a l IH]; intros s; cbn; [done|]. by rewrite IH, fold_left_app. Qed.

Lemma fold_left_ext {A S} (g h : S -> A -> S) l : (forall s a, a ∈ l -> g s a = h s a) -> forall s, fold_left g l s = fold_left h l s.
Proof.
  induction l as [|a l IH]; intros He s; cbn; [done|]. rewrite He by apply list_elem_of_here.
  apply IH. intros s' b Hb. apply He. by apply list_elem_of_further.
Qed.

(* ------------------------------------------------------------------ *)
(** ** References given up *)

Definition occ (x : Z) (l : list Z) : Z := Z.of_nat (count_occ Z.eq_dec l x).

Lemma occ_cons x y l : occ x (y :: l) = (if Z.eqb y x then 1 else 0) + occ x l.
Proof. unfold occ. cbn. destruct (Z.eq_dec y x), (Z.eqb_spec y x); try done; lia. Qed.

Lemma occ_nil x : occ x [] = 0.
Proof. done. Qed.

Lemma occ_one x y : occ x [y] = if Z.eqb y x then 1 else 0.
Proof. rewrite occ_cons, occ_nil. lia. Qed.

Lemma occ_app x l l' : occ x (l ++ l') = occ x l + occ x l'.
Proof. unfold occ. rewrite count_occ_app. lia. Qed.

Lemma occ_nonneg x l : 0 <= occ x l.
Proof. unfold occ. lia. Qed.

Lemma occ_pos x l : 0 < occ x l <-> x ∈ l.
Proof. unfold occ. rewrite list_elem_of_In, (count_occ_In Z.eq_dec). lia. Qed.

Section frames.
Context {F : Type} `{FrameReleaseLaws F}.
Implicit Types (f : F) (t : Tlb).

(** The references [l] stands for are held, and by frames in somebody's
    hands. *)
Definition held f (l : list Z) : Prop :=
  forall x, x ∈ l -> 0 < x /\ x mod 4096 = 0 /\ fs_owned f x /\ occ x l <= fs_share f x.

(** The last references to [x] are among [l]. *)
Definition last_refs f (l : list Z) (x : Z) : Prop := x ∈ l /\ fs_share f x = occ x l.

Definition in_ring t (x : Z) : Prop := x ∈ q_phys <$> QUARANTINE t.

(** The ring has no room: a frame is freed at once. *)
Definition ring_full t : Prop := (QUARANTINE_CAPACITY <= length (QUARANTINE t))%nat.
Definition ring_grows t t' : Prop := exists tail, QUARANTINE t' = QUARANTINE t ++ tail.

Lemma ring_grows_refl t : ring_grows t t.
Proof. exists []. by rewrite app_nil_r. Qed.

Lemma ring_grows_trans t t1 t2 : ring_grows t t1 -> ring_grows t1 t2 -> ring_grows t t2.
Proof. intros [l1 E1] [l2 E2]. exists (l1 ++ l2). by rewrite E2, E1, app_assoc. Qed.

Lemma ring_grows_in t t' x : ring_grows t t' -> in_ring t x -> in_ring t' x.
Proof. intros [l E]. unfold in_ring. rewrite E, fmap_app, elem_of_app. by left. Qed.

Lemma ring_grows_full t t' : ring_grows t t' -> ring_full t -> ring_full t'.
Proof. intros [l E]. unfold ring_full. rewrite E, length_app. lia. Qed.

(** [l] was given up, [C b] for an answer [b] of a shootdown: the counts went
    down by it; a frame whose last references it held was freed, with an
    acknowledged shootdown or for want of room in the ring, or waits in the
    ring; nothing else changed hands. *)
Record given_up (C : bool -> Prop) (l : list Z) (st st' : F * Tlb) : Prop := {
  gu_ok : fs_ok (fst st');
  gu_share q : 0 <= q -> q mod 4096 = 0 -> fs_tracked q -> fs_share (fst st') q = fs_share (fst st) q - occ q l;
  gu_sub q : fs_owned (fst st') q -> fs_owned (fst st) q;
  gu_kept q : fs_owned (fst st) q -> ~ last_refs (fst st) l q -> fs_owned (fst st') q;
  gu_gone q : last_refs (fst st) l q -> fs_owned (fst st') q -> C false /\ in_ring (snd st') q;
  gu_grace q : last_refs (fst st) l q -> ~ fs_owned (fst st') q -> C true \/ ring_full (snd st');
  gu_ring : ring_grows (snd st) (snd st') }.

Lemma release_spec clean tick x f t :
  fs_ok f -> fs_owned f x -> 0 < x -> fs_share f x = 0 ->
  let '(f', t') := release clean tick x (f, t) in
  fs_ok f' /\ (forall q, fs_share f' q = fs_share f q) /\ (forall q, q <> x -> fs_owned f' q <-> fs_owned f q) /\
  (fs_owned f' x -> clean = false /\ in_ring t' x) /\ (~ fs_owned f' x -> clean = true \/ ring_full t') /\ ring_grows t t'.
Proof.
  intros Hok Ho Hx Hs. assert (fs_ok (fs_free x f) /\ (forall q, fs_share (fs_free x f) q = fs_share f q) /\
    (forall q, q <> x -> fs_owned (fs_free x f) q <-> fs_owned f q) /\ ~ fs_owned (fs_free x f) x) as (A1 & A2 & A3 & A4).
  { split_and!; [by apply fs_free_ok|intros; by apply fs_free_share| |].
    - intros q Hq. rewrite fs_free_owned by done. tauto.
    - rewrite fs_free_owned by done. tauto. }
  unfold release. destruct clean; [split_and!; auto using ring_grows_refl; done|]. unfold quarantine_free. rewrite (proj2 (Z.eqb_neq x 0)) by lia.
  destruct (Nat.ltb_spec (length (QUARANTINE t)) QUARANTINE_CAPACITY); cbn [fold_left];
    [|split_and!; auto using ring_grows_refl; done]. split_and!; [done|done|done| |done|by eexists].
  intros _. split; [done|]. unfold in_ring. cbn. rewrite fmap_app. apply elem_of_app. right. by apply list_elem_of_singleton.
Qed.

Lemma given_up_refl C st : fs_ok (fst st) -> given_up C [] st st.
Proof.
  intros Hok. split; [done| |done|done| | |apply ring_grows_refl].
  - intros q _ _ _. rewrite occ_nil. lia.
  - intros q [Hq _]. by apply elem_of_nil in Hq.
  - intros q [Hq _]. by apply elem_of_nil in Hq.
Qed.

Lemma given_up_weaken (C C' : bool -> Prop) l st st' : (forall b, C b -> C' b) -> given_up C l st st' -> given_up C' l st st'.
Proof.
  intros Hc [A1 A2 A3 A4 A5 A6 A7]. split; [done|done|done|done| | |done].
  - intros q Hl Ho. destruct (A5 q Hl Ho). auto.
  - intros q Hl Ho. destruct (A6 q Hl Ho); auto.
Qed.

Lemma held_pages f l q : fs_ok f -> held f l -> q ∈ l -> 0 <= q /\ q mod 4096 = 0 /\ fs_tracked q.
Proof. intros Hok Hh Hq. destruct (Hh q Hq) as (Q1 & Q2 & Q3 & _). split_and!; [lia|done|exact (fs_owned_tracked _ _ Hok Q3)]. Qed.

Lemma held_app f l l' : held f (l ++ l') -> held f l.
Proof.
  intros Hh x Hx. destruct (Hh x) as (X1 & X2 & X3 & X4); [apply elem_of_app; by left|]. rewrite occ_app in X4.
  pose proof (occ_nonneg x l'). split_and!; try done. lia.
Qed.

Section in_turn.
Context (l l' : list Z) (f f1 : F).
Hypothesis Hok : fs_ok f.
Hypothesis Hh : held f (l ++ l').
Hypothesis Hs : forall q, 0 <= q -> q mod 4096 = 0 -> fs_tracked q -> fs_share f1 q = fs_share f q - occ q l.

Lemma last_refs_later q : q ∈ l' -> last_refs f (l ++ l') q <-> last_refs f1 l' q.
Proof.
  intros Hq. assert (q ∈ l ++ l') as Hq' by (apply elem_of_app; by right). destruct (held_pages _ _ _ Hok Hh Hq') as (Q1 & Q2 & Q3).
  unfold last_refs. rewrite Hs, occ_app by done. intuition lia.
Qed.

Lemma last_refs_earlier q : q ∉ l' -> last_refs f (l ++ l') q <-> last_refs f l q.
Proof.
  intros Hq. unfold last_refs. rewrite occ_app, elem_of_app. assert (occ q l' = 0) as -> by (pose proof (occ_nonneg q l'); rewrite <- occ_pos in Hq; lia).
  rewrite Z.add_0_r. tauto.
Qed.

(** Frames that are still to come are not among the last ones yet. *)
Lemma not_last_yet q : q ∈ l' -> ~ last_refs f l q.
Proof.
  intros Hq [Hin Hx]. destruct (Hh q) as (_ & _ & _ & Hle); [apply elem_of_app; by right|]. rewrite occ_app in Hle. apply occ_pos in Hq. lia.
Qed.

(** [L] lists the frames that lost their last reference. *)
Definition lists_last (f' : F) (k L : list Z) : Prop := NoDup L /\ forall x, x ∈ L <-> last_refs f' k x.

Lemma lists_last_app L L' : lists_last f l L -> lists_last f1 l' L' -> lists_last f (l ++ l') (L ++ L').
Proof.
  intros [A1 A2] [B1 B2]. split.
  - apply list.NoDup_app. split_and!; [done| |done]. intros x X1%A2 X2%B2. by apply (not_last_yet x); [apply X2|].
  - intros x. rewrite elem_of_app, A2, B2. destruct (decide (x ∈ l')) as [Hin|Hin].
    + rewrite last_refs_later by done. split; [|by right]. intros [Hx|Hx]; [by destruct (not_last_yet x)|done].
    + rewrite last_refs_earlier by done. split; [|by left]. intros [Hx|Hx]; [done|]. by destruct Hin; apply Hx.
Qed.

Lemma held_rest : (forall q, q ∈ l' -> fs_owned f q -> fs_owned f1 q) -> held f1 l'.
Proof.
  intros Ho y Hy. assert (y ∈ l ++ l') as Hy' by (apply elem_of_app; by right). destruct (Hh y Hy') as (Y1 & Y2 & Y3 & Y4).
  destruct (held_pages _ _ _ Hok Hh Hy') as (Q1 & Q2 & Q3). split_and!; [done|done|by apply Ho|]. rewrite Hs by done. rewrite occ_app in Y4. lia.
Qed.
End in_turn.

(** Giving up some references and then the rest. *)
Lemma given_up_app C l l' st st1 st2 :
  fs_ok (fst st) -> held (fst st) (l ++ l') -> given_up C l st st1 -> given_up C l' st1 st2 -> given_up C (l ++ l') st st2.
Proof.
  intros Hok Hh [A1 A2 A3 A4 A5 A6 A7] [B1 B2 B3 B4 B5 B6 B7].
  pose proof (last_refs_later l l' (fst st) (fst st1) Hok Hh A2) as Hl. pose proof (last_refs_earlier l l' (fst st)) as Hn.
  split; [done| |by auto| | | |by apply (ring_grows_trans _ (snd st1))].
  - intros q Q1 Q2 Q3. rewrite B2, A2, occ_app by done. lia.
  - intros q Ho Hq. apply B4; [apply A4; [done|]|].
    + intros Hx. destruct (decide (q ∈ l')) as [Hin|Hin]; [by apply (not_last_yet l l' (fst st) Hh q)|]. by apply Hq, Hn.
    + intros Hx. apply Hq. by apply Hl; [apply Hx|].
  - intros q Hq Ho. destruct (decide (q ∈ l')) as [Hin|Hin].
    + apply B5; [by apply Hl|done].
    + destruct (A5 q) as [Hc Hr]; [by apply Hn|by apply B3|]. split; [done|by apply (ring_grows_in (snd st1))].
  - intros q Hq Ho. destruct (decide (q ∈ l')) as [Hin|Hin].
    + apply (B6 q); [by apply Hl|done].
    + destruct (A6 q) as [Hc|Hf]; [by apply Hn| |by left|right; by apply (ring_grows_full (snd st1))].
      intros Ho1. apply Ho. apply (B4 q Ho1). by intros [? _].
Qed.

Lemma held_after C l l' st st1 :
  fs_ok (fst st) -> held (fst st) (l ++ l') -> given_up C l st st1 -> held (fst st1) l'.
Proof.
  intros Hok Hh Hg. apply (held_rest l l' (fst st)); [done|done|apply Hg|]. intros q Hq Ho. apply (gu_kept _ _ _ _ Hg); [done|].
  by apply (not_last_yet l l').
Qed.

Lemma drop_frame_spec clean tick x f t :
  fs_ok f -> fs_refcountable x = true -> held f [x] -> given_up (eq clean) [x] (f, t) (drop_frame clean tick x (f, t)).
Proof.
  intros Hok Hr Hh. destruct (Hh x) as (X1 & X2 & X3 & X4); [apply list_elem_of_here|]. unfold drop_frame. rewrite Hr.
  pose proof (fs_owned_tracked _ _ Hok X3) as Ht. assert (occ x [x] = 1) as Eo by (by rewrite occ_one, Z.eqb_refl). rewrite Eo in X4.
  pose proof (fun q => occ_one q x) as Ho.
  pose proof (fs_dec_ok f x Hok) as D1. pose proof (fs_dec_owned f x) as D2. pose proof (fs_dec_value f x Hok ltac:(lia) X2 Ht) as D3.
  pose proof (fs_dec_share f x) as D4. destruct (fs_dec x f) as [rc f1]. cbn [fst snd] in *.
  assert (forall q, 0 <= q -> q mod 4096 = 0 -> fs_tracked q -> fs_share f1 q = fs_share f q - occ q [x]) as D5.
  { intros q Q1 Q2 Q3. rewrite Ho, D4 by (done || lia). destruct (Z.eqb_spec x q) as [<-|]; lia. }
  destruct (Z.eqb_spec rc 0) as [E|E].
  - pose proof (release_spec clean tick x f1 t) as Hre. destruct (release clean tick x (f1, t)) as [f2 t2].
    destruct Hre as (R1 & R2 & R3 & R4 & R5 & R6); [done|by apply D2|done|rewrite D5 by (done || lia); lia|]. split; cbn; [done| | | | | |done].
    + intros q Q1 Q2 Q3. by rewrite R2, D5.
    + intros q. destruct (decide (q = x)) as [->|Hne]; [done|]. rewrite R3, D2 by done. done.
    + intros q Hq Hn. destruct (decide (q = x)) as [->|Hne]; [|by apply R3, D2].
      destruct Hn. split; [apply list_elem_of_here|]. cbn. lia.
    + intros q [Hq _]. apply list_elem_of_singleton in Hq as ->. done.
    + intros q [Hq _]. apply list_elem_of_singleton in Hq as ->. done.
  - split; cbn; [done|done|by intros q; apply D2|by intros q ? _; apply D2| | |apply ring_grows_refl];
      intros q [Hq Hs]; apply list_elem_of_singleton in Hq as ->; cbn in Hs; lia.
Qed.

Lemma drop_frames_spec clean tick l : forall f t,
  fs_ok f -> Forall (fun x => fs_refcountable x = true) l -> held f l ->
  given_up (eq clean) l (f, t) (fold_left (fun st x => drop_frame clean tick x st) l (f, t)).
Proof.
  induction l as [|x l IH]; intros f t Hok Hr Hh; cbn [fold_left]; [by apply given_up_refl|]. apply Forall_cons_iff in Hr as [Hx Hr].
  change (x :: l) with ([x] ++ l) in *. pose proof (drop_frame_spec clean tick x f t Hok Hx (held_app _ _ _ Hh)) as Hg.
  destruct (drop_frame clean tick x (f, t)) as [f1 t1]. apply (given_up_app (eq clean) [x] l _ (f1, t1)); [done|done|done|].
  apply IH; [apply Hg|done|]. by apply (held_after (eq clean) [x] l (f, t) (f1, t1)).
Qed.
End frames.

(* ------------------------------------------------------------------ *)
(** ** The tables of an address space *)

Lemma omap_bind {A B C} (g : A -> list B) (h : B -> option C) l : omap h (l ≫= g) = l ≫= (fun a => omap h (g a)).
Proof. induction l as [|a l IH]; cbn; [done|]. by rewrite omap_app, IH. Qed.

Lemma bind_none {A B} (g : A -> list B) l : (forall a, a ∈ l -> g a = []) -> l ≫= g = [].
Proof.
  induction l as [|a l IH]; intros He; cbn; [done|]. rewrite (He a) by apply list_elem_of_here. apply IH.
  intros b Hb. apply He. by apply list_elem_of_further.
Qed.

Lemma bind_ext {A B} (g h : A -> list B) l : (forall a, a ∈ l -> g a = h a) -> l ≫= g = l ≫= h.
Proof.
  induction l as [|a l IH]; intros He; cbn; [done|]. rewrite (He a) by apply list_elem_of_here. f_equal. apply IH.
  intros b Hb. apply He. by apply list_elem_of_further.
Qed.

Lemma NoDup_omap_inj {A B} (g : A -> option B) l :
  (forall a a' b, a ∈ l -> a' ∈ l -> g a = Some b -> g a' = Some b -> a = a') -> NoDup l -> NoDup (omap g l).
Proof.
  induction l as [|a l IH]; intros Hi Hn; cbn; [constructor|]. apply list.NoDup_cons in Hn as [Ha Hn].
  assert (NoDup (omap g l)) as Hr by (apply IH; [|done]; intros a1 a2 b H1 H2; apply Hi; by apply list_elem_of_further).
  destruct (g a) as [b|] eqn:E; [|done]. constructor; [|done]. intros Hb. apply list_elem_of_omap in Hb as (a' & Ha' & E').
  apply Ha. rewrite (Hi a a' b); [done|apply list_elem_of_here|by apply list_elem_of_further|done|done].
Qed.

Lemma table_entries_in i : i ∈ table_entries <-> 0 <= i < 512.
Proof.
  unfold table_entries. rewrite list_elem_of_fmap. setoid_rewrite elem_of_seq. split; [intros (n & -> & ?); lia|].
  intros Hi. exists (Z.to_nat i). lia.
Qed.

Lemma user_entries_in i : i ∈ user_entries <-> 0 <= i < 256.
Proof.
  unfold user_entries. rewrite list_elem_of_fmap. setoid_rewrite elem_of_seq. split; [intros (n & -> & ?); lia|].
  intros Hi. exists (Z.to_nat i). lia.
Qed.

Lemma entries_NoDup : NoDup table_entries /\ NoDup user_entries.
Proof. split; (apply NoDup_fmap_2; [intros a b; lia|apply NoDup_seq]). Qed.

(** The paths of the lower half, in the order the walk frees their tables. *)
Definition paths3 (i j : Z) : list (list Z) := ((fun k => [i; j; k]) <$> table_entries) ++ [[i; j]].
Definition paths2 (i : Z) : list (list Z) := (table_entries ≫= paths3 i) ++ [[i]].
Definition table_paths : list (list Z) := (user_entries ≫= paths2) ++ [[]].

#[global] Opaque table_entries user_entries.

Lemma paths3_in i j q : q ∈ paths3 i j <-> q = [i; j] \/ exists k, 0 <= k < 512 /\ q = [i; j; k].
Proof.
  unfold paths3. rewrite elem_of_app, list_elem_of_fmap, list_elem_of_singleton. setoid_rewrite table_entries_in. naive_solver.
Qed.

Lemma paths2_in i q : q ∈ paths2 i <-> q = [i] \/ exists j, 0 <= j < 512 /\ q ∈ paths3 i j.
Proof.
  unfold paths2. rewrite elem_of_app, list_elem_of_bind, list_elem_of_singleton. setoid_rewrite table_entries_in. naive_solver.
Qed.

Lemma table_paths_in q : q ∈ table_paths <-> vpath user_half q /\ (length q <= 3)%nat.
Proof.
  unfold table_paths. rewrite elem_of_app, list_elem_of_bind, list_elem_of_singleton. setoid_rewrite user_entries_in.
  setoid_rewrite paths2_in. setoid_rewrite paths3_in. unfold vpath, user_half. split.
  - intros [(i & [->|(j & Hj & [->|(k & Hk & ->)])] & Hi)| ->];
      (split; [split|cbn; lia]); try done; try (repeat constructor; lia); apply Z.ltb_lt; lia.
  - intros [[Hr Hh] Hl]. destruct q as [|i q]; [by right|]. left. apply Z.ltb_lt in Hh.
    apply Forall_cons_iff in Hr as [Hi Hr]. exists i. split; [|lia].
    destruct q as [|j q]; [by left|right]. apply Forall_cons_iff in Hr as [Hj Hr]. exists j. split; [done|].
    destruct q as [|k q]; [by left|right]. apply Forall_cons_iff in Hr as [Hk Hr]. exists k. split; [done|].
    destruct q; [done|cbn in Hl; lia].
Qed.

Lemma table_paths_NoDup : NoDup table_paths.
Proof.
  assert (forall i j, NoDup (paths3 i j)) as N3.
  { intros i j. apply list.NoDup_app. split_and!; [apply NoDup_fmap_2; [congruence|apply (proj1 entries_NoDup)]| |apply NoDup_singleton].
    intros q Hq Hq'. apply list_elem_of_singleton in Hq' as ->. apply list_elem_of_fmap in Hq as (k & E & _). done. }
  assert (forall i, NoDup (paths2 i)) as N2.
  { intros i. apply list.NoDup_app. split_and!; [|intros q Hq Hq'|apply NoDup_singleton].
    - apply NoDup_bind; [|done|apply (proj1 entries_NoDup)]. intros j j' q _ _. rewrite !paths3_in. naive_solver.
    - apply list_elem_of_singleton in Hq' as ->. apply list_elem_of_bind in Hq as (j & Hq & _). rewrite paths3_in in Hq. naive_solver. }
  apply list.NoDup_app. split_and!; [|intros q Hq Hq'|apply NoDup_singleton].
  - apply NoDup_bind; [|done|apply (proj2 entries_NoDup)]. intros i i' q _ _. rewrite !paths2_in. setoid_rewrite paths3_in. naive_solver.
  - apply list_elem_of_singleton in Hq' as ->. apply list_elem_of_bind in Hq as (i & Hq & _). rewrite paths2_in in Hq.
    setoid_rewrite paths3_in in Hq. naive_solver.
Qed.

(** The tables of the lower half, root included. *)
Definition tables (m : Z -> Z) (r : Z) : list Z := omap (tab m r) table_paths.

Lemma tables_in m r t : t ∈ tables m r <-> exists p, vpath user_half p /\ (length p <= 3)%nat /\ tab m r p = Some t.
Proof. unfold tables. rewrite list_elem_of_omap. setoid_rewrite table_paths_in. naive_solver. Qed.

Section tables.
Context {F : Type} `{FrameReleaseLaws F}.
Implicit Types (f : F) (m : Z -> Z) (R : Z -> Prop).

Definition free_all (l : list Z) f : F := fold_left (fun f p => fs_free p f) l f.

(** The page tables of a directory, then the directory. *)
Definition directory m (o : option Z) : list Z :=
  match o with Some pd => omap (fun k => step_of (m (word pd k))) table_entries ++ [pd] | None => [] end.

Lemma free_pd_list m pdpt f j : free_pd m pdpt f j = free_all (directory m (step_of (m (word pdpt j)))) f.
Proof.
  unfold free_pd, directory, step_of at 1. destruct (is_set (m (word pdpt j)) PAGE_PRESENT); cbn [negb andb]; [|done].
  destruct (is_set (m (word pdpt j)) PAGE_HUGE); cbn [negb]; [done|]. set (pd := m (word pdpt j) .& ADDR_MASK).
  unfold free_all. rewrite fold_left_app. cbn [fold_left]. f_equal. rewrite <- fold_left_omap. apply fold_left_ext.
  intros f' k _. unfold free_pt, step_of. destruct (is_set (m (word pd k)) PAGE_PRESENT); cbn [negb andb]; [|done].
  by destruct (is_set (m (word pd k)) PAGE_HUGE).
Qed.

Lemma paths3_tables m r i j : omap (tab m r) (paths3 i j) = directory m (tab m r [i; j]).
Proof.
  unfold paths3, directory. rewrite omap_app. assert (omap (tab m r) [[i; j]] = option_list (tab m r [i; j])) as -> by (cbn; by destruct (mbind _ _)).
  assert (forall l, omap (tab m r) ((fun k => [i; j; k]) <$> l) = omap (fun k => pd ← tab m r [i; j]; step_of (m (word pd k))) l) as ->.
  { induction l as [|k l IH]; [done|]. cbn [omap list_omap fmap list_fmap]. change [i; j; k] with ([i; j] ++ [k]). rewrite tab_snoc.
    by rewrite IH. }
  destruct (tab m r [i; j]) as [pd|]; cbn [mbind option_bind option_list]; [done|]. rewrite app_nil_r.
  induction table_entries as [|k l IH]; cbn; done.
Qed.

Lemma free_tables_list R m f r f0 :
  spaces_ok R user_half m f0 -> R r ->
  fs_free r (fold_left (free_pdpt m r) user_entries f) = free_all (tables m r) f.
Proof.
  intros Hok Hr. unfold tables, table_paths. rewrite omap_app, omap_bind. unfold free_all. rewrite fold_left_app. cbn [omap list_omap tab fold_left].
  f_equal. rewrite <- fold_left_bind. apply fold_left_ext. intros f' i Hi. apply user_entries_in in Hi.
  unfold paths2. rewrite omap_app, omap_bind. rewrite (bind_ext _ (fun j => directory m (tab m r [i; j])) table_entries) by (intros; apply paths3_tables).
  pose proof (so_small _ _ _ _ Hok r [] r i Hr) as Hsm. cbn [app] in Hsm. unfold free_pdpt.
  assert (tab m r [i] = step_of (m (word r i))) as Ei by (cbn; by destruct (step_of _)).
  assert (forall j, tab m r [i; j] = t ← step_of (m (word r i)); step_of (m (word t j))) as Ej
    by (intros j; change [i; j] with ([i] ++ [j]); by rewrite tab_snoc, Ei).
  assert (omap (tab m r) [[i]] = option_list (step_of (m (word r i)))) as -> by (rewrite <- Ei; cbn; by destruct (mbind _ _)).
  destruct (is_set (m (word r i)) PAGE_PRESENT) eqn:Ep; cbn [negb].
  2:{ assert (step_of (m (word r i)) = None) as E by (unfold step_of; by rewrite Ep). rewrite E. cbn [option_list]. rewrite app_nil_r.
      rewrite bind_none; [done|]. intros j _. by rewrite Ej, E. }
  assert (step_of (m (word r i)) = Some (m (word r i) .& ADDR_MASK)) as E.
  { unfold step_of. rewrite Ep, Hsm; [done|split; [by repeat constructor; lia|apply Z.ltb_lt; lia]|cbn; lia|done|done]. }
  rewrite E. cbn [option_list]. rewrite fold_left_app. cbn [fold_left]. f_equal. rewrite <- fold_left_bind. apply fold_left_ext. intros f1 j _.
  rewrite free_pd_list. unfold free_all. rewrite Ej, E. done.
Qed.

Lemma tables_NoDup R m f r : spaces_ok R user_half m f -> R r -> NoDup (tables m r).
Proof.
  intros Hok Hr. apply NoDup_omap_inj; [|apply table_paths_NoDup]. intros p p' t [Hp Hl]%table_paths_in [Hp' Hl']%table_paths_in Ht Ht'.
  by destruct (so_inj _ _ _ _ Hok r p r p' t) as [_ ?].
Qed.

(** Frames in somebody's hands, each once, are given back. *)
Lemma free_all_spec l : forall f,
  fs_ok f -> NoDup l -> (forall p, p ∈ l -> fs_owned f p /\ fs_share f p = 0) ->
  fs_ok (free_all l f) /\ (forall q, fs_share (free_all l f) q = fs_share f q) /\
  (forall q, fs_owned (free_all l f) q <-> fs_owned f q /\ q ∉ l).
Proof.
  induction l as [|p l IH]; intros f Hok Hn Hp; cbn.
  { split_and!; [done|done|]. intros q. split; [|tauto]. intros Ho. split; [done|apply not_elem_of_nil]. }
  apply list.NoDup_cons in Hn as [Hnp Hn]. destruct (Hp p) as [P1 P2]; [apply list_elem_of_here|].
  destruct (IH (fs_free p f)) as (I1 & I2 & I3); [by apply fs_free_ok|done| |].
  - intros q Hq. destruct (Hp q) as [Q1 Q2]; [by apply list_elem_of_further|]. rewrite fs_free_share by done. split; [|done].
    apply fs_free_owned; [done|done|done|]. split; [done|]. by intros ->.
  - split_and!; [done| |].
    + intros q. unfold free_all in I2. by rewrite I2, fs_free_share.
    + intros q. unfold free_all in I3. rewrite I3, fs_free_owned by done. rewrite not_elem_of_cons. tauto.
Qed.
End tables.

(* ------------------------------------------------------------------ *)
(** ** The frames an address space maps *)

Section space.
Context {F : Type} `{FrameReleaseLaws F}.
Implicit Types (f : F) (m : Z -> Z) (s : Vmm F) (t : Tlb).

Definition area_pages (v : VmArea) : list Z := pages (vm_base v) (Z.to_nat (vm_length v / 4096)).

(** The frame behind a page, where it is one that is counted. *)
Definition frame_of (o : option Z) : option Z :=
  e ← o; if fs_refcountable (e .& ADDR_MASK) then Some (e .& ADDR_MASK) else None.

(** One frame for every mapped page of an area that maps a counted frame;
    none for device areas, attached shared memory included. *)
Definition area_frames m r (v : VmArea) : list Z :=
  if is_device v then [] else omap (fun va => frame_of (leaf m r va)) (area_pages v).
Definition space_frames m r (l : list VmArea) : list Z := l ≫= area_frames m r.

(** An area of whole pages below the kernel's half, none of them part of a
    2 MiB page. *)
Definition area_ok m r (v : VmArea) : Prop :=
  0 <= vm_base v /\ vm_base v mod 4096 = 0 /\ 0 <= vm_length v /\ vm_length v mod 4096 = 0 /\
  vm_base v + vm_length v <= 2 ^ 47 /\ forall va, va ∈ area_pages v -> no_huge r va m.

Lemma area_page_user m r v va : area_ok m r v -> va ∈ area_pages v -> user_page va.
Proof.
  intros (A1 & A2 & A3 & A4 & A5 & _). unfold area_pages, pages. rewrite list_elem_of_fmap. setoid_rewrite elem_of_seq.
  intros (i & -> & Hi). pose proof (Z.div_mod (vm_length v) 4096 ltac:(done)). split; [lia|].
  replace (vm_base v + 4096 * Z.of_nat i) with (vm_base v + Z.of_nat i * 4096) by lia. by rewrite Z.mod_add.
Qed.

Lemma frame_of_page o x : frame_of o = Some x -> fs_refcountable x = true /\ 0 <= x /\ x mod 4096 = 0.
Proof.
  unfold frame_of. destruct o as [e|]; cbn; [|done]. destruct (fs_refcountable _) eqn:E; [|done]. intros [= <-]. split; [done|].
  split; [apply Z.land_nonneg; right; done|]. change 4096 with (2 ^ 12). rewrite <- Z.land_ones, <- Z.land_assoc by lia. apply Z.land_0_r.
Qed.

Lemma teardown_area_fold R s r clean tick v st :
  spaces_ok R user_half (pm s) (fr s) -> R r -> area_ok (pm s) r v ->
  teardown_area clean tick (pm s) r st v = fold_left (fun st x => drop_frame clean tick x st) (area_frames (pm s) r v) st.
Proof.
  intros Hok Hr Ha. pose proof Ha as (A1 & A2 & A3 & A4 & A5 & A6). unfold teardown_area, area_frames. destruct (is_device v); [done|].
  pose proof (Z.div_mod (vm_length v) 4096 ltac:(done)) as Hd. rewrite A4 in Hd.
  rewrite add64_small by (unfold U64_MAX; lia).
  replace (vm_base v + vm_length v) with (vm_base v + 4096 * Z.of_nat (Z.to_nat (vm_length v / 4096))) by lia.
  rewrite page_loop_fold by (unfold page_fuel, U64_MAX; lia). fold (area_pages v). rewrite <- fold_left_omap. apply fold_left_ext. intros st' va Hva.
  destruct (walk_leaf R user_half s r va Hok Hr) as [_ Hw]; [by apply user_page_path, (area_page_user (pm s) r v)|].
  destruct (Hw (A6 va Hva)) as [_ <-]. unfold teardown_page, frame_of, present.
  destruct (is_set _ PAGE_PRESENT); cbn; [|done]. unfold drop_frame. destruct (fs_refcountable _) eqn:E; cbn; [|by destruct st'].
  by rewrite E.
Qed.

Lemma teardown_areas_fold R s r clean tick l st :
  spaces_ok R user_half (pm s) (fr s) -> R r -> Forall (area_ok (pm s) r) l ->
  fold_left (teardown_area clean tick (pm s) r) l st = fold_left (fun st x => drop_frame clean tick x st) (space_frames (pm s) r l) st.
Proof.
  intros Hok Hr Ha. unfold space_frames. rewrite <- fold_left_bind. apply fold_left_ext. intros st' v Hv.
  apply (teardown_area_fold R); [done|done|]. by apply (proj1 (list.Forall_forall _ _) Ha).
Qed.

Lemma space_frames_page m r l x : x ∈ space_frames m r l -> fs_refcountable x = true /\ 0 <= x /\ x mod 4096 = 0.
Proof.
  unfold space_frames. rewrite list_elem_of_bind. intros (v & Hx & _). unfold area_frames in Hx. destruct (is_device v); [by apply elem_of_nil in Hx|].
  apply list_elem_of_omap in Hx as (va & _ & E). by apply frame_of_page in E.
Qed.
End space.
