(* ===== verification/Release.v ===== *)
(** * Frames return when their last address space goes

    The theorems on [free_vm_space] and [unmap_and_free_range_in]: which
    references are given up, which frames and tables are freed, and that
    every other address space keeps what it has. *)

From S2P Require Import Prelude InodePins Vma Rss PageTable Resident Fork AddressSpace Tlb Teardown.

#[local] Opaque tables space_frames occ.

Section release.
Context {F : Type} `{FrameSourceLaws F, !FrameRefs F, !FrameRelease F, !FrameReleaseLaws F}.
Implicit Types (f : F) (m : Z -> Z) (s : Vmm F) (t : Tlb) (R : Z -> Prop).

Definition without R (r : Z) : Z -> Prop := fun r' => R r' /\ r' <> r.

(** No table is mapped as a page. *)
Definition unshared R s : Prop := forall r x, R r -> x ∈ tables (pm s) r -> fs_share (fr s) x = 0.

Lemma table_owned R s r x : spaces_ok R user_half (pm s) (fr s) -> R r -> x ∈ tables (pm s) r -> page_frame x /\ fs_owned (fr s) x.
Proof. intros Hok Hr (p & P1 & P2 & P3)%tables_in. by apply (so_tab _ _ _ _ Hok r p). Qed.

Lemma table_apart R s r r' x :
  spaces_ok R user_half (pm s) (fr s) -> R r -> R r' -> x ∈ tables (pm s) r -> x ∈ tables (pm s) r' -> r = r'.
Proof.
  intros Hok Hr Hr' (p & P1 & P2 & P3)%tables_in (p' & P1' & P2' & P3')%tables_in. by apply (so_inj _ _ _ _ Hok r p r' p' x).
Qed.

(** The other spaces keep their tables. *)
Lemma spaces_without R r m f f' :
  spaces_ok R user_half m f -> fs_ok f' ->
  (forall r' x, R r' -> r' <> r -> x ∈ tables m r' -> fs_owned f' x) -> spaces_ok (without R r) user_half m f'.
Proof.
  intros Hok Hf Ho. destruct (spaces_ok_sub (without R r) R user_half m f ltac:(by intros ? []) Hok) as [S1 S2 S3 S4]. split; [done| |done|done].
  intros r' p x [Hr' Hne] Hp Hl Ht. split; [by apply (S2 r' p)|]. apply (Ho r'); [done|done|]. apply tables_in. by exists p.
Qed.

Lemma resident_without R r s f' :
  resident_ok R s -> R r -> spaces_ok (without R r) user_half (pm s) f' ->
  resident_ok (without R r) (mkVmm (pm s) f' (detach r (rss s))) /\ resident_pages r (detach r (rss s)) = None.
Proof.
  intros Hk Hr Hsp. destruct (root_key R s r (rk_spaces _ _ Hk) Hr) as [Hkey Hz].
  destruct (detach_spec (rss s) r (rk_rss _ _ Hk) Hkey) as [D1 D2]. split.
  - split; cbn [pm fr rss]; [done|done| | |].
    + intros r' n [Hr' Hne] Hc. apply (rk_count _ _ Hk r' n Hr'). destruct (root_key R s r' (rk_spaces _ _ Hk) Hr') as [Hkey' _].
      rewrite D2 in Hc by done. by rewrite bool_decide_false in Hc.
    + intros r' va [Hr' _]. by apply (rk_foreign _ _ Hk).
    + intros r' n Hkey' Hc. rewrite D2 in Hc by done. case_bool_decide as E; [done|]. split; [by apply (rk_tracked _ _ Hk r' n)|done].
  - specialize (D2 r Hkey). rewrite bool_decide_true in D2 by done. unfold counter in D2. unfold resident_pages.
    by destruct (find r _).
Qed.

(** C4: [free_vm_space] of a space other than the kernel's, when: tables are
    owned frames, each reached one way and mapped nowhere as a page; resident
    counts are exact; the areas are whole pages of the user half with no 2 MiB
    page in them; and every reference to be given up is counted on an owned
    frame. One reference is then given up for every mapped page of the areas
    whose frame is reference counted; device areas, shared-memory attachments
    included, and frames outside the counted range give up none and stay as
    they are. The frames whose last references these were are freed, or wait
    in the quarantine when some CPU did not acknowledge the shootdown; without
    that acknowledgement a frame is freed only when the quarantine is full.
    Every table of the space is freed, once; no other frame changes hands, so
    the other address spaces keep their tables, pages and resident sets. The
    space is no longer counted and no CPU is marked as running it. *)
Theorem free_vm_space_correct R s t open mounted kernel_cr3 clean tick (space : VmSpace) pins :
  let r := cr3 space in
  let given := space_frames (pm s) r (areas space) in
  resident_ok R s -> R r -> r <> kernel_cr3 -> Forall (area_ok (pm s) r) (areas space) -> unshared R s -> held (fr s) given ->
  let '(_, s', t') := free_vm_space open mounted kernel_cr3 clean tick space pins s t in
  pm s' = pm s /\ resident_ok (without R r) s' /\ unshared (without R r) s' /\
  resident_pages r (rss s') = None /\ snapshot_active_mask r t' = 0 /\
  (forall x, 0 <= x -> x mod 4096 = 0 -> fs_tracked x -> fs_share (fr s') x = fs_share (fr s) x - occ x given) /\
  (forall x, fs_owned (fr s') x -> fs_owned (fr s) x /\ x ∉ tables (pm s) r) /\
  (forall x, fs_owned (fr s) x -> x ∉ tables (pm s) r -> ~ last_refs (fr s) given x -> fs_owned (fr s') x) /\
  (forall x, last_refs (fr s) given x -> fs_owned (fr s') x -> clean = false /\ in_ring t' x) /\
  (forall x, last_refs (fr s) given x -> ~ fs_owned (fr s') x -> clean = true \/ ring_full t').
Proof.
  intros r given Hk Hr Hker Ha Hun Hh. pose proof (rk_spaces _ _ Hk) as Hok. destruct (root_key R s r Hok Hr) as [Hkey Hz].
  unfold free_vm_space, free_user_page_tables. fold r. rewrite (proj2 (Z.eqb_neq r 0)), (proj2 (Z.eqb_neq r kernel_cr3)) by done. cbn [orb].
  rewrite (teardown_areas_fold R) by done. fold given.
  pose proof (drop_frames_spec clean tick given (fr s) t (so_src _ _ _ _ Hok)) as Hd.
  destruct (fold_left _ given (fr s, t)) as [f1 t1]. cbn [pm fr rss].
  destruct Hd as [D1 D2 D3 D4 D5 D6 D7]; [apply list.Forall_forall; intros x Hx; by apply (space_frames_page (pm s) r (areas space) x)|done|]. cbn [fst snd] in *.
  assert (forall r' x, R r' -> x ∈ tables (pm s) r' -> fs_owned f1 x /\ fs_share f1 x = 0) as Htab.
  { intros r' x Hr' Hx. destruct (table_owned R s r' x Hok Hr' Hx) as [[Hp Hm] Ho]. pose proof (Hun r' x Hr' Hx) as Hs0.
    assert (x ∉ given) as Hng.
    { intros Hin. destruct (Hh x Hin) as (_ & _ & _ & Hle). apply occ_pos in Hin. lia. }
    split; [apply D4; [done|]; by intros [? _]|]. rewrite D2; [|lia|done|exact (fs_owned_tracked _ _ (so_src _ _ _ _ Hok) Ho)].
    pose proof (occ_nonneg x given). rewrite <- occ_pos in Hng. lia. }
  rewrite (free_tables_list R (pm s) f1 r (fr s) Hok Hr).
  destruct (free_all_spec (tables (pm s) r) f1 D1 (tables_NoDup R _ _ r Hok Hr) (fun x => Htab r x Hr)) as (A1 & A2 & A3).
  assert (forall r' x, R r' -> r' <> r -> x ∈ tables (pm s) r' -> fs_owned (free_all (tables (pm s) r) f1) x) as Hoth.
  { intros r' x Hr' Hne Hx. apply A3. split; [by apply (Htab r')|]. intros Hx'. apply Hne. symmetry. exact (table_apart R s r r' x Hok Hr Hr' Hx' Hx). }
  destruct (resident_without R r s _ Hk Hr (spaces_without R r _ _ _ Hok A1 Hoth)) as [W1 W2].
  split_and!; [done|done| |done| | | | | |].
  - intros r' x [Hr' Hne] Hx. cbn in *. rewrite A2. by apply (Htab r').
  - unfold snapshot_active_mask, forget_cr3. rewrite (proj2 (Z.eqb_neq r 0)) by done. cbn. by rewrite lookup_delete_eq.
  - intros x X1 X2 X3. cbn. by rewrite A2, D2.
  - intros x Hx. cbn in Hx. apply A3 in Hx as [Hx Hn]. split; [by apply D3|done].
  - intros x Ho Hn Hl. cbn. apply A3. split; [by apply D4|done].
  - intros x Hl Hx. cbn in Hx. apply A3 in Hx as [Hx _]. destruct (D5 x Hl Hx) as [E Hring]. split; [done|].
    unfold in_ring, forget_cr3 in *. by rewrite (proj2 (Z.eqb_neq r 0)).
  - intros x Hl Hx. cbn in Hx. destruct (D6 x Hl) as [E|Hf]; [|by left|].
    + intros Ho. apply Hx, A3. split; [done|]. intros Hin. destruct (Htab r x Hr Hin) as [_ Hs0]. destruct Hl as [Hin' Hs].
      pose proof (Hun r x Hr Hin). apply occ_pos in Hin'. lia.
    + right. unfold ring_full, forget_cr3 in *. by rewrite (proj2 (Z.eqb_neq r 0)).
Qed.

(* ------------------------------------------------------------------ *)
(** ** Unmapping a range *)

(** One frame for every page of [P] that is mapped. *)
Definition range_frames m (r : Z) (P : list Z) : list Z := omap (fun va => (fun e => e .& ADDR_MASK) <$> leaf m r va) P.

(** The pages [P] of [r] have been cleared and their references dropped; [L]
    are the frames without references. *)
Record cleared R (r : Z) (P : list Z) s s' (L : list Z) : Prop := {
  cl_res : resident_ok R s';
  cl_leaf r' va : R r' -> user_page va -> leaf (pm s') r' va = if bool_decide (r' = r /\ va ∈ P) then None else leaf (pm s) r' va;
  cl_tab r' q : R r' -> vpath user_half q -> (length q <= 3)%nat -> tab (pm s') r' q = tab (pm s) r' q;
  cl_huge va : user_page va -> no_huge r va (pm s) -> no_huge r va (pm s');
  cl_share q : 0 <= q -> q mod 4096 = 0 -> fs_tracked q -> fs_share (fr s') q = fs_share (fr s) q - occ q (range_frames (pm s) r P);
  cl_owned q : fs_owned (fr s') q <-> fs_owned (fr s) q;
  cl_last : lists_last (fr s) (range_frames (pm s) r P) L }.

Lemma range_frames_app m r P Q : range_frames m r (P ++ Q) = range_frames m r P ++ range_frames m r Q.
Proof. apply omap_app. Qed.

Lemma range_frames_ext m m' r P : (forall va, va ∈ P -> leaf m' r va = leaf m r va) -> range_frames m' r P = range_frames m r P.
Proof.
  unfold range_frames. induction P as [|va P IH]; intros He; cbn [omap list_omap]; [done|]. rewrite (He va) by apply list_elem_of_here.
  rewrite IH; [done|]. intros va' Hva'. apply He. by apply list_elem_of_further.
Qed.

Lemma range_frames_length m r P : (length (range_frames m r P) <= length P)%nat.
Proof. unfold range_frames. induction P as [|va P IH]; cbn [omap list_omap length]; [lia|]. destruct (_ <$> _); cbn [length]; lia. Qed.

Lemma cleared_app R r P Q s s1 s2 L1 L2 :
  fs_ok (fr s) -> R r -> Forall user_page (P ++ Q) -> (forall va, va ∈ P -> va ∈ Q -> False) -> held (fr s) (range_frames (pm s) r (P ++ Q)) ->
  cleared R r P s s1 L1 -> cleared R r Q s1 s2 L2 -> cleared R r (P ++ Q) s s2 (L1 ++ L2).
Proof.
  intros Hok Hr Hu Hd Hh [A1 A2 A3 A4 A5 A6 A7] [B1 B2 B3 B4 B5 B6 B7]. rewrite list.Forall_forall in Hu.
  assert (range_frames (pm s1) r Q = range_frames (pm s) r Q) as EQ.
  { apply range_frames_ext. intros va Hva. rewrite A2, bool_decide_false; [done| |done|apply Hu, elem_of_app; by right]. intros [_ Hp]. by apply (Hd va). }
  rewrite EQ in *. rewrite range_frames_app in Hh. set (l := range_frames (pm s) r P) in *. set (l' := range_frames (pm s) r Q) in *.
  split; [done| | |by auto| | |].
  - intros r' va Hr' Hva. rewrite B2, A2 by done.
    repeat case_bool_decide; rewrite elem_of_app in *; try done; exfalso; tauto.
  - intros r' q Hr' Hq Hlen. by rewrite B3, A3.
  - intros q Q1 Q2 Q3. rewrite B5, A5, range_frames_app, occ_app by done. fold l l'. lia.
  - intros q. by rewrite B6, A6.
  - rewrite range_frames_app. by apply (lists_last_app l l' _ (fr s1)).
Qed.

Lemma resident_frames R s f' :
  resident_ok R s -> fs_ok f' -> (forall q, fs_owned (fr s) q -> fs_owned f' q) -> resident_ok R (mkVmm (pm s) f' (rss s)).
Proof.
  intros [[S1 S2 S3 S4] K2 K3 K4 K5] Hf Ho. split; [|done|done|done|done]. split; cbn; [done| |done|done].
  intros r p x Hr Hp Hl Ht. destruct (S2 r p x Hr Hp Hl Ht). split; [done|by apply Ho].
Qed.

(** Counting a frame that was not taken yet counts no table. *)
Lemma unshared_frames R s f' p :
  spaces_ok R user_half (pm s) (fr s) -> ~ fs_owned (fr s) p -> (forall q, page_frame q -> q <> p -> fs_share f' q = 0) ->
  unshared R (mkVmm (pm s) f' (rss s)).
Proof.
  intros Hok Hn Hs r x Hr Hx. destruct (table_owned R s r x Hok Hr Hx) as [Hp Ho]. apply Hs; [done|]. by intros ->.
Qed.

(** Clearing an entry leaves the tables as they are. *)
Lemma unmap_tables R s r va :
  spaces_ok R user_half (pm s) (fr s) -> R r -> user_page va -> no_huge r va (pm s) ->
  let s' := unmap_page_in_at r va s in
  fr s' = fr s /\
  (forall r' q, R r' -> vpath user_half q -> (length q <= 3)%nat -> tab (pm s') r' q = tab (pm s) r' q) /\
  (forall va', user_page va' -> no_huge r va' (pm s) -> no_huge r va' (pm s')).
Proof.
  intros Hok Hr Hu Hh. destruct (user_page_path va Hu) as [Vp _]. cbv zeta. unfold unmap_page_in_at. rewrite (leaf_slot_tab R user_half s r va Hok Hr Vp Hh).
  destruct (tab (pm s) r (table_path va)) as [pt|] eqn:Ht; cbn [fmap option_fmap option_map]; [|done].
  destruct (account_leaf_pte_spec r va (pm s (word pt (pt_idx va))) 0 (store (word pt (pt_idx va)) 0 s)) as (E1 & E2 & _). rewrite E1, E2. cbn [pm fr store].
  destruct (leaf_write R user_half (pm s) (fr s) r va pt 0 Hok Hr Vp Ht) as (W1 & W2 & _). split_and!; [done|done|].
  intros va' Hu' Hh' pd. destruct (user_page_path va' Hu') as [Vp' _].
  pose proof (vpath_app _ [pml4_idx va'; pdpt_idx va'] [pd_idx va'; pt_idx va'] Vp') as V2.
  pose proof (vpath_app _ [pml4_idx va'; pdpt_idx va'; pd_idx va'] [pt_idx va'] Vp') as V3.
  rewrite W2 by (done || cbn; lia). intros Hpd. unfold poke.
  destruct (Z.eqb_spec (word pd (pd_idx va')) (word pt (pt_idx va))) as [E|]; [exfalso|by apply Hh'].
  destruct (word_place R user_half (pm s) (fr s) r [pml4_idx va'; pdpt_idx va'] (pd_idx va') pd r (table_path va) (pt_idx va) pt) as (_ & E' & _);
    try done; cbn; lia.
Qed.

Lemma vpage_user va va' : user_page va -> user_page va' -> vpage va' = vpage va -> va' = va.
Proof.
  intros [H1 H2] [H3 H4] E. unfold vpage in E. rewrite !Z.mod_small in E by lia. pose proof (Z.div_mod va 4096). pose proof (Z.div_mod va' 4096). lia.
Qed.

Lemma unmap_one_spec R s r va acc :
  resident_ok R s -> R r -> user_page va -> no_huge r va (pm s) -> held (fr s) (range_frames (pm s) r [va]) ->
  let '(s', acc') := unmap_one r va (s, acc) in exists L, acc' = acc ++ L /\ cleared R r [va] s s' L.
Proof.
  intros Hk Hr Hu Hh Hheld. pose proof (rk_spaces _ _ Hk) as Hok. destruct (user_page_path va Hu) as [Vp _].
  destruct (walk_leaf R user_half s r va Hok Hr Vp) as [Ew _]. unfold unmap_one. rewrite Ew. unfold range_frames in Hheld. cbn [omap list_omap] in Hheld.
  assert (range_frames (pm s) r [va] = match leaf (pm s) r va with Some e => [e .& ADDR_MASK] | None => [] end) as El
    by (unfold range_frames; cbn [omap list_omap]; by destruct (leaf (pm s) r va)).
  destruct (leaf (pm s) r va) as [e|] eqn:Elf; cbn [fmap option_fmap option_map option_list] in *.
  2:{ exists []. split; [by rewrite app_nil_r|]. split; try done.
      - intros r' va' Hr' Hu'. case_bool_decide as E; [|done]. destruct E as [-> ->%list_elem_of_singleton]. done.
      - intros q _ _ _. rewrite El, occ_nil. lia.
      - split; [constructor|]. intros x. rewrite El. split; [by intros ?%elem_of_nil|by intros [?%elem_of_nil _]]. }
  assert (va .& 0xFFF = 0) as Ez by (change 0xFFF with (Z.ones 12); rewrite Z.land_ones by lia; apply Hu). rewrite Ez, Z.lor_0_r.
  set (x := e .& ADDR_MASK) in *. destruct (Hheld x) as (X1 & X2 & X3 & X4); [apply list_elem_of_here|].
  assert (forall q, occ q [x] = if x =? q then 1 else 0) as Ho by (intros; apply occ_one). rewrite Ho, Z.eqb_refl in X4.
  destruct (unmap_tables R s r va Hok Hr Hu Hh) as (U1 & U2 & U3). destruct (unmap_spec R user_half s r va Hok Hr Vp Hh) as [U4 U5].
  destruct (resident_change R s (unmap_page_in_at r va s) r va None Hk Hr Hu ltac:(done) U4 U5) as [U6 _].
  set (s1 := unmap_page_in_at r va s) in *. pose proof (so_src _ _ _ _ Hok) as Hf. rewrite U1.
  pose proof (fs_dec_ok (fr s) x Hf) as D1. pose proof (fs_dec_owned (fr s) x) as D2.
  pose proof (fs_dec_value (fr s) x Hf ltac:(lia) X2 (fs_owned_tracked _ _ Hf X3)) as D3. pose proof (fs_dec_share (fr s) x) as D4.
  destruct (fs_dec x (fr s)) as [rc f1]. cbn [fst snd] in *.
  exists (if rc =? 0 then [x] else []). split; [destruct (rc =? 0); [done|by rewrite app_nil_r]|]. split; cbn [pm fr rss].
  - apply (resident_frames R s1); [done|done|]. intros q. rewrite U1. apply D2. done.
  - intros r' va' Hr' Hu'. rewrite (st_leaf _ _ _ _ _ _ _ U4) by (done || by apply user_page_path).
    assert (va' ∈ [va] <-> vpage va' = vpage va) as Hv by (rewrite list_elem_of_singleton; split; [by intros ->|by apply vpage_user]).
    by rewrite (bool_decide_ext (r' = r /\ va' ∈ [va]) (r' = r /\ vpage va' = vpage va)) by (by rewrite Hv).
  - done.
  - done.
  - intros q Q1 Q2 Q3. rewrite El, Ho, D4 by (done || lia). destruct (Z.eqb_spec x q) as [<-|]; lia.
  - intros q. by apply D2.
  - split; [destruct (rc =? 0); [apply NoDup_singleton|constructor]|]. intros q. rewrite El. unfold last_refs. rewrite Ho. destruct (Z.eqb_spec rc 0) as [E|E]; rewrite ?list_elem_of_singleton.
    + split; [|tauto]. intros ->. rewrite Z.eqb_refl. split; [done|lia].
    + split; [by intros ?%elem_of_nil|]. intros [-> Hx]. rewrite Z.eqb_refl in Hx. lia.
Qed.

(** The first pass goes over a prefix of the pages, all of them unless the
    batch is full, and over one at least. *)
Lemma unmap_batch_spec R r n : forall fuel base s acc,
  (n < fuel)%nat -> 0 <= base -> base mod 4096 = 0 -> base + 4096 * Z.of_nat n <= 2 ^ 47 ->
  resident_ok R s -> R r -> (forall va, va ∈ pages base n -> no_huge r va (pm s)) -> held (fr s) (range_frames (pm s) r (pages base n)) ->
  let '(pg, (s', acc')) := unmap_batch fuel r base (base + 4096 * Z.of_nat n) (s, acc) in
  exists k L, (k <= n)%nat /\ (0 < n -> length acc < BATCH -> 0 < k)%nat /\ pg = base + 4096 * Z.of_nat k /\
    acc' = acc ++ L /\ cleared R r (pages base k) s s' L.
Proof.
  assert (forall s, resident_ok R s -> cleared R r [] s s []) as Hrefl.
  { intros s Hk. split; try done.
    - intros r' va _ _. case_bool_decide as E; [|done]. by destruct E as [_ ?%elem_of_nil].
    - intros q _ _ _. change (range_frames (pm s) r []) with (@nil Z). rewrite occ_nil. lia.
    - split; [constructor|]. intros x. split; [by intros ?%elem_of_nil|by intros [?%elem_of_nil _]]. }
  induction n as [|n IH]; intros fuel base s acc Hf Hb Hm Ht Hk Hr Hh Hheld; (destruct fuel as [|fuel]; [lia|]); cbn [unmap_batch snd].
  { rewrite (proj2 (Z.ltb_ge _ _)) by lia. cbn [andb]. exists 0%nat, []. rewrite app_nil_r. split_and!; [lia|lia|lia|done|by apply Hrefl]. }
  rewrite (proj2 (Z.ltb_lt _ _)) by lia. cbn [andb]. destruct (Nat.ltb_spec (length acc) BATCH) as [Hl|Hl].
  2:{ exists 0%nat, []. rewrite app_nil_r. split_and!; [lia|lia|lia|done|by apply Hrefl]. }
  rewrite add64_small by (unfold U64_MAX; lia). rewrite pages_S in Hh, Hheld. change (base :: pages (base + 4096) n) with ([base] ++ pages (base + 4096) n) in Hh, Hheld.
  assert (user_page base) as Hu by (split; [lia|done]). pose proof Hheld as Hheld1. rewrite range_frames_app in Hheld1.
  pose proof (unmap_one_spec R s r base acc Hk Hr Hu ltac:(apply Hh, elem_of_app; left; apply list_elem_of_here) (held_app _ _ _ Hheld1)) as H1.
  destruct (unmap_one r base (s, acc)) as [s1 acc1]. destruct H1 as (L1 & -> & C1).
  pose proof (cl_res _ _ _ _ _ _ C1) as Hk1. pose proof (so_src _ _ _ _ (rk_spaces _ _ Hk)) as Hfok.
  assert (forall va, va ∈ pages (base + 4096) n -> user_page va /\ va <> base) as Hin.
  { intros va Hva. unfold pages in Hva. rewrite list_elem_of_fmap in Hva. setoid_rewrite elem_of_seq in Hva. destruct Hva as (i & -> & Hi). split; [|lia].
    split; [lia|]. replace (base + 4096 + 4096 * Z.of_nat i) with (base + (Z.of_nat i + 1) * 4096) by lia. by rewrite Z.mod_add. }
  assert (range_frames (pm s1) r (pages (base + 4096) n) = range_frames (pm s) r (pages (base + 4096) n)) as Efr.
  { apply range_frames_ext. intros va Hva. destruct (Hin va Hva) as [Hu' Hne]. rewrite (cl_leaf _ _ _ _ _ _ C1) by done.
    rewrite bool_decide_false; [done|]. by intros [_ ?%list_elem_of_singleton]. }
  specialize (IH fuel (base + 4096) s1 (acc ++ L1)).
  replace (base + 4096 * Z.of_nat (S n)) with (base + 4096 + 4096 * Z.of_nat n) by lia.
  destruct (unmap_batch fuel r (base + 4096) _ (s1, acc ++ L1)) as [pg [s2 acc2]].
  destruct IH as (k & L2 & K1 & K2 & -> & -> & C2); [lia|lia| |lia|done|done| | |].
  - replace (base + 4096) with (base + 1 * 4096) by lia. by rewrite Z.mod_add.
  - intros va Hva. destruct (Hin va Hva) as [Hu' Hne]. apply (cl_huge _ _ _ _ _ _ C1); [done|]. apply Hh, elem_of_app. by right.
  - rewrite Efr. apply (held_rest (range_frames (pm s) r [base]) _ (fr s)); [done|done|apply C1|]. intros q _. apply C1.
  - exists (S k), (L1 ++ L2). split_and!; [lia|lia|lia|by rewrite app_assoc|]. rewrite pages_S.
    assert (pages (base + 4096) n = pages (base + 4096) k ++ drop k (pages (base + 4096) n)) as Esp.
    { rewrite <- (take_drop k (pages (base + 4096) n)) at 1. f_equal. unfold pages. by rewrite <- fmap_take, take_seq, Nat.min_l by lia. }
    apply (cleared_app R r [base] (pages (base + 4096) k) s s1 s2 L1 L2); [done|done| | | |done|done].
    + apply list.Forall_cons. split; [done|]. apply list.Forall_forall. intros va Hva. apply Hin. rewrite Esp. apply elem_of_app. by left.
    + intros va ->%list_elem_of_singleton Hva. apply (Hin base); [rewrite Esp; apply elem_of_app; by left|done].
    + rewrite Esp, app_assoc, range_frames_app in Hheld. by apply held_app in Hheld.
Qed.

Lemma release_all_spec clean tick L : forall f t,
  fs_ok f -> NoDup L -> (forall x, x ∈ L -> 0 < x /\ fs_owned f x /\ fs_share f x = 0) ->
  let '(f', t') := fold_left (fun st x => release clean tick x st) L (f, t) in
  fs_ok f' /\ (forall q, fs_share f' q = fs_share f q) /\ (forall q, q ∉ L -> fs_owned f' q <-> fs_owned f q) /\
  (forall q, q ∈ L -> fs_owned f' q -> clean = false /\ in_ring t' q) /\
  (forall q, q ∈ L -> ~ fs_owned f' q -> clean = true \/ ring_full t') /\ ring_grows t t'.
Proof.
  induction L as [|x L IH]; intros f t Hok Hn HL; cbn [fold_left]; [split_and!; auto using ring_grows_refl; by intros q ?%elem_of_nil|].
  apply list.NoDup_cons in Hn as [Hx Hn]. destruct (HL x) as (X1 & X2 & X3); [apply list_elem_of_here|].
  pose proof (release_spec clean tick x f t Hok X2 X1 X3) as Hr. destruct (release clean tick x (f, t)) as [f1 t1]. destruct Hr as (R1 & R2 & R3 & R4 & R5 & R6).
  specialize (IH f1 t1 R1 Hn). destruct (fold_left _ L (f1, t1)) as [f2 t2]. destruct IH as (I1 & I2 & I3 & I4 & I5 & I6).
  { intros y Hy. destruct (HL y) as (Y1 & Y2 & Y3); [by apply list_elem_of_further|]. rewrite R2. split_and!; [done|apply R3; [by intros ->|done]|done]. }
  split_and!; [done|by intros q; rewrite I2| | | |by apply (ring_grows_trans _ t1)].
  - intros q Hq. apply not_elem_of_cons in Hq as [Hq1 Hq2]. by rewrite I3, R3.
  - intros q Hq Ho. apply elem_of_cons in Hq as [->|Hq]; [|by apply I4]. rewrite I3 in Ho by done. destruct (R4 Ho) as [E Hring].
    split; [done|by apply (ring_grows_in t1)].
  - intros q Hq Ho. apply elem_of_cons in Hq as [->|Hq]; [|by apply (I5 q)]. rewrite I3 in Ho by done.
    destruct (R5 Ho); [by left|right; by apply (ring_grows_full t1)].
Qed.

Lemma cleared_released R r P s s1 L clean tick t :
  fs_ok (fr s) -> held (fr s) (range_frames (pm s) r P) -> cleared R r P s s1 L ->
  given_up (eq clean) (range_frames (pm s) r P) (fr s, t) (fold_left (fun st x => release clean tick x st) L (fr s1, t)).
Proof.
  intros Hok Hh [C1 C2 C3 C4 C5 C6 [C7 C8]]. set (l := range_frames (pm s) r P) in *.
  pose proof (release_all_spec clean tick L (fr s1) t (so_src _ _ _ _ (rk_spaces _ _ C1)) C7) as Hr.
  destruct (fold_left _ L (fr s1, t)) as [f2 t2]. destruct Hr as (R1 & R2 & R3 & R4 & R5 & R6).
  { intros x [Hx Hs]%C8. destruct (Hh x Hx) as (X1 & X2 & X3 & X4). destruct (held_pages _ _ _ Hok Hh Hx) as (Y1 & Y2 & Y3).
    split_and!; [done|by apply C6|]. rewrite C5 by done. fold l. lia. }
  split; cbn [fst snd]; [done| | | | | |done].
  - intros q Q1 Q2 Q3. by rewrite R2, C5.
  - intros q Ho. apply C6. destruct (decide (q ∈ L)) as [Hin|Hin]; [|by apply R3].
    apply C8 in Hin as [Hin _]. apply C6. by apply (Hh q).
  - intros q Ho Hl. apply R3; [by rewrite C8|]. by apply C6.
  - intros q Hl Ho. apply R4; [by apply C8|done].
  - intros q Hl Ho. apply (R5 q); [by apply C8|done].
Qed.

(** What a range unmap has done to the pages [P]. *)
Record unmapped R (r : Z) (P L : list Z) (C : bool -> Prop) s t s' t' : Prop := {
  um_res : resident_ok R s';
  um_leaf r' va : R r' -> user_page va -> leaf (pm s') r' va = if bool_decide (r' = r /\ va ∈ P) then None else leaf (pm s) r' va;
  um_tab r' q : R r' -> vpath user_half q -> (length q <= 3)%nat -> tab (pm s') r' q = tab (pm s) r' q;
  um_huge va : user_page va -> no_huge r va (pm s) -> no_huge r va (pm s');
  um_given : given_up C (range_frames (pm s) r P) (fr s, t) (fr s', t');
  um_last : lists_last (fr s) (range_frames (pm s) r P) L }.

(** A batch in which no table is freed: the frames given back are pages. *)
Lemma batch_unmapped R r P s s1 L clean tick t :
  resident_ok R s -> unshared R s -> held (fr s) (range_frames (pm s) r P) -> cleared R r P s s1 L ->
  let '(f', t') := fold_left (fun st x => release clean tick x st) L (fr s1, t) in
  unmapped R r P L (eq clean) s t (mkVmm (pm s1) f' (rss s1)) t'.
Proof.
  intros Hk Hun Hh Hc. pose proof (rk_spaces _ _ Hk) as Hsp. pose proof (so_src _ _ _ _ Hsp) as Hok.
  pose proof (cleared_released R r P s s1 L clean tick t Hok Hh Hc) as Hg.
  destruct (fold_left _ L (fr s1, t)) as [f' t']. pose proof Hc as [C1 C2 C3 C4 C5 C6 [C7 C8]]. pose proof Hg as [G1 G2 G3 G4 G5 G6 G7]. cbn [fst snd] in *.
  split; cbn [pm fr rss]; [|done|done|done|done|done].
  destruct C1 as [[S1 S2 S3 S4] K2 K3 K4 K5]. split; [|done|done|done|done]. split; cbn [pm fr]; [done| |done|done].
  intros r' p x Hr' Hp Hl Ht. destruct (S2 r' p x Hr' Hp Hl Ht) as [Hpf Ho]. split; [done|]. apply G4; [by apply C6|].
  intros [Hx Hs]. rewrite C3 in Ht by done. assert (x ∈ tables (pm s) r') as Hxt by (apply tables_in; by exists p).
  pose proof (Hun r' x Hr' Hxt). apply occ_pos in Hx. lia.
Qed.

Lemma unmapped_app R r P Q L L' (c c' C : bool -> Prop) s t s1 t1 s2 t2 :
  (forall b, c b -> C b) -> (forall b, c' b -> C b) ->
  fs_ok (fr s) -> Forall user_page (P ++ Q) -> R r -> (forall va, va ∈ P -> va ∈ Q -> False) -> held (fr s) (range_frames (pm s) r (P ++ Q)) ->
  unmapped R r P L c s t s1 t1 -> unmapped R r Q L' c' s1 t1 s2 t2 -> unmapped R r (P ++ Q) (L ++ L') C s t s2 t2.
Proof.
  intros Hc Hc' Hok Hu Hr Hd Hh [A1 A2 A3 A4 A5 A6] [B1 B2 B3 B4 B5 B6]. rewrite list.Forall_forall in Hu.
  assert (range_frames (pm s1) r Q = range_frames (pm s) r Q) as EQ.
  { apply range_frames_ext. intros va Hva. rewrite A2, bool_decide_false; [done| |done|apply Hu, elem_of_app; by right]. intros [_ Hp]. by apply (Hd va). }
  rewrite EQ in B5, B6. rewrite range_frames_app in Hh. split; [done| | |by auto| |].
  - intros r' va Hr' Hva. rewrite B2, A2 by done. repeat case_bool_decide; rewrite elem_of_app in *; try done; exfalso; tauto.
  - intros r' q Hr' Hq Hlen. by rewrite B3, A3.
  - rewrite range_frames_app. apply (given_up_app _ _ _ _ (fr s1, t1)); [done|done| |].
    + by apply (given_up_weaken c).
    + by apply (given_up_weaken c').
  - rewrite range_frames_app. apply (lists_last_app _ _ _ (fr s1)); [done|done|apply A5|done|done].
Qed.

Lemma unmapped_unshared R r P L C s t s' t' :
  spaces_ok R user_half (pm s) (fr s) -> unshared R s -> held (fr s) (range_frames (pm s) r P) -> unmapped R r P L C s t s' t' -> unshared R s'.
Proof.
  intros Hok Hun Hh [A1 A2 A3 A4 A5 A6] r' x Hr' Hx. apply tables_in in Hx as (p & P1 & P2 & P3). rewrite A3 in P3 by done.
  assert (x ∈ tables (pm s) r') as Hxt by (apply tables_in; by exists p). pose proof (Hun r' x Hr' Hxt) as E.
  destruct (table_owned R s r' x Hok Hr' Hxt) as [[Hp Hm] Ho].
  pose proof (gu_share _ _ _ _ A5 x ltac:(lia) Hm (fs_owned_tracked _ _ (so_src _ _ _ _ Hok) Ho)) as Hs. cbn [fst] in Hs. rewrite Hs.
  pose proof (occ_nonneg x (range_frames (pm s) r P)). destruct (decide (x ∈ range_frames (pm s) r P)) as [Hin|Hin].
  - destruct (Hh x Hin) as (_ & _ & _ & Hle). apply occ_pos in Hin. lia.
  - rewrite <- occ_pos in Hin. lia.
Qed.

Lemma pages_app base n k : (k <= n)%nat -> pages base n = pages base k ++ pages (base + 4096 * Z.of_nat k) (n - k).
Proof.
  revert base k. induction n as [|n IH]; intros base [|k] Hk; try lia.
  - done.
  - cbn [app]. replace (base + 4096 * Z.of_nat 0) with base by lia. done.
  - rewrite !pages_S, (IH _ k) by lia. cbn [app Nat.sub]. do 3 f_equal. lia.
Qed.

Lemma pages_in base n va : va ∈ pages base n <-> exists i, (i < n)%nat /\ va = base + 4096 * Z.of_nat i.
Proof. unfold pages. rewrite list_elem_of_fmap. setoid_rewrite elem_of_seq. split; intros (i & A & B); exists i; split; (done || lia). Qed.

Lemma pages_user base n : 0 <= base -> base mod 4096 = 0 -> base + 4096 * Z.of_nat n <= 2 ^ 47 -> Forall user_page (pages base n).
Proof.
  intros Hb Hm Ht. apply list.Forall_forall. intros va (i & Hi & ->)%pages_in. split; [lia|].
  replace (base + 4096 * Z.of_nat i) with (base + Z.of_nat i * 4096) by lia. by rewrite Z.mod_add.
Qed.

Lemma unmapped_refl R r C s t : resident_ok R s -> unmapped R r [] [] C s t s t.
Proof.
  intros Hk. split; try done.
  - intros r' va _ _. case_bool_decide as E; [|done]. by destruct E as [_ ?%elem_of_nil].
  - apply given_up_refl. apply Hk.
  - split; [constructor|]. intros x. split; [by intros ?%elem_of_nil|by intros [?%elem_of_nil _]].
Qed.

(** A shootdown within [lo..hi] was answered with [b]. *)
Definition answered (shootdown : Z -> Z -> bool) (lo hi : Z) (b : bool) : Prop :=
  exists x y, lo <= x /\ x < y /\ y <= hi /\ shootdown x y = b.

Lemma unmap_range_spec R r shootdown tick n : forall fuel base s t freed,
  (n < fuel)%nat -> 0 <= base -> base mod 4096 = 0 -> base + 4096 * Z.of_nat n <= 2 ^ 47 -> in_word 64 freed ->
  resident_ok R s -> R r -> unshared R s -> (forall va, va ∈ pages base n -> no_huge r va (pm s)) ->
  held (fr s) (range_frames (pm s) r (pages base n)) ->
  let '(freed', s', t') := unmap_range_loop fuel shootdown tick r base (base + 4096 * Z.of_nat n) s t freed in
  exists L, unmapped R r (pages base n) L (answered shootdown base (base + 4096 * Z.of_nat n)) s t s' t' /\
    freed' = wrap 64 (freed + Z.of_nat (length L)).
Proof.
  induction n as [n IH] using lt_wf_ind. intros fuel base s t freed Hf Hb Hm Ht Hfr Hk Hr Hun Hh Hheld.
  destruct fuel as [|fuel]; [lia|]. cbn [unmap_range_loop]. destruct n as [|n'].
  { rewrite (proj2 (Z.ltb_ge _ _)) by lia. exists []. split; [by apply unmapped_refl|]. rewrite Z.add_0_r. by rewrite wrap_small. }
  set (n := S n') in *. rewrite (proj2 (Z.ltb_lt _ _)) by lia.
  pose proof (unmap_batch_spec R r n (page_fuel (base + 4096 * Z.of_nat n - base)) base s []) as Hbt.
  destruct (unmap_batch _ r base _ (s, [])) as [pg [s1 acc]].
  destruct Hbt as (k & L1 & K1 & K2 & -> & -> & C); try done.
  { unfold page_fuel. replace (base + 4096 * Z.of_nat n - base) with (Z.of_nat n * 4096) by lia. rewrite Z.div_mul by lia. lia. }
  assert (0 < k)%nat as Hk0 by (apply K2; [lia|cbn; unfold BATCH; lia]). clear K2. cbn [app].
  pose proof (pages_app base n k K1) as Ep. pose proof (pages_user base n Hb Hm Ht) as Hus. rewrite Ep in Hus.
  pose proof Hheld as Hheld'. rewrite Ep in Hheld'. pose proof Hheld' as Hh1. rewrite range_frames_app in Hh1. apply held_app in Hh1.
  set (clean := shootdown base (base + 4096 * Z.of_nat k)).
  pose proof (batch_unmapped R r (pages base k) s s1 L1 clean tick t Hk Hun Hh1 C) as U.
  destruct (fold_left _ L1 (fr s1, t)) as [f2 t2]. set (s2 := mkVmm (pm s1) f2 (rss s1)) in *.
  assert (forall va, va ∈ pages base k -> va ∈ pages (base + 4096 * Z.of_nat k) (n - k) -> False) as Hdis
    by (intros va (i & Hi & ->)%pages_in (j & Hj & E)%pages_in; lia).
  assert (range_frames (pm s2) r (pages (base + 4096 * Z.of_nat k) (n - k)) = range_frames (pm s) r (pages (base + 4096 * Z.of_nat k) (n - k))) as Er.
  { apply range_frames_ext. intros va Hva. rewrite (um_leaf _ _ _ _ _ _ _ _ _ U); [|done|apply (proj1 (list.Forall_forall _ _) Hus), elem_of_app; by right].
    rewrite bool_decide_false; [done|]. intros [_ Hp]. by apply (Hdis va). }
  pose proof (so_src _ _ _ _ (rk_spaces _ _ Hk)) as Hfok.
  specialize (IH (n - k)%nat ltac:(lia) fuel (base + 4096 * Z.of_nat k) s2 t2 (add64 freed (Z.of_nat (length L1)))).
  replace (base + 4096 * Z.of_nat k + 4096 * Z.of_nat (n - k)) with (base + 4096 * Z.of_nat n) in IH by lia.
  destruct (unmap_range_loop fuel _ _ _ _ _ s2 t2 _) as [[freed' s3] t3].
  destruct IH as (L2 & U2 & ->); [lia|lia| |lia|apply wrap_range; lia|apply U|done| | | |].
  - replace (base + 4096 * Z.of_nat k) with (base + Z.of_nat k * 4096) by lia. by rewrite Z.mod_add.
  - by apply (unmapped_unshared R r (pages base k) L1 (eq clean) s t s2 t2); [apply Hk|..].
  - intros va Hva. apply (um_huge _ _ _ _ _ _ _ _ _ U); [apply (proj1 (list.Forall_forall _ _) Hus), elem_of_app; by right|].
    apply Hh. rewrite Ep. apply elem_of_app. by right.
  - rewrite Er. rewrite range_frames_app in Hheld'. exact (held_after (eq clean) _ _ (fr s, t) (f2, t2) Hfok Hheld' (um_given _ _ _ _ _ _ _ _ _ U)).
  - exists (L1 ++ L2). split.
    + rewrite Ep. refine (unmapped_app R r _ _ _ _ (eq clean) _ _ s t s2 t2 s3 t3 _ _ Hfok Hus Hr Hdis Hheld' U U2).
      * intros b <-. exists base, (base + 4096 * Z.of_nat k). split_and!; [lia|lia|lia|done].
      * intros b (x & y & X1 & X2 & X3 & X4). exists x, y. split_and!; [lia|lia|lia|done].
    + rewrite length_app. unfold add64, wrap. rewrite Zplus_mod_idemp_l. f_equal. lia.
Qed.

End release.
