(* ===== verification/KernelFrames.v ===== *)
(** * The frame allocator as the source of page tables

    The frame layer of [Frames] implements the interfaces the page tables
    and the fork are written against: [pmm::alloc_page] with the drain of
    deferred frees in front of it, and the reference counts. *)

From S2P Require Import Prelude Vma Pmm Refcount Frames Rss PageTable Resident Fork Teardown.

(** Frames that wait for their release: pages that are still taken, each
    once. *)
Definition ring_ok (s : Frames) : Prop :=
  (forall k e, DEFERRED s !! k = Some e -> e <> 0 -> 0 < e /\ e mod 4096 = 0 /\ used s (pfn e) = true) /\
  (forall j k e, DEFERRED s !! j = Some e -> DEFERRED s !! k = Some e -> e <> 0 -> j = k).

Definition refs_ok `{PmmConfig} (s : Frames) : Prop :=
  exists t, REFCOUNTS s = Some t /\ length t = MAX_PAGES /\ Forall (in_word 16) t.

(** The frames of the kernel image are never handed out, nor are those whose
    release waits for a pin. *)
Record kernel_ok `{PmmConfig} (managed : nat -> bool) (s : Frames) : Prop := {
  kf_inv : frames_inv managed s;
  kf_zero : used s 0 = true;
  kf_ring : ring_ok s;
  kf_refs : refs_ok s;
  kf_static p : 0 <= p -> p mod 4096 = 0 -> (pfn p < MAX_PAGES)%nat -> is_kernel_static_phys (pmm s) p = true -> used s (pfn p) = true;
  kf_pending q : wpending (pin_word s q) = true -> used s q = true }.

(** A page somebody holds: taken from the frames that are handed out, and
    not about to be released. *)
Record kernel_owned `{PmmConfig} (managed : nat -> bool) (s : Frames) (p : Z) : Prop := {
  ko_frame : page_frame p;
  ko_range : (pfn p < MAX_PAGES)%nat;
  ko_used : used s (pfn p) = true;
  ko_ring : p ∉ DEFERRED s;
  ko_pending : wpending (pin_word s (pfn p)) = false;
  ko_static : is_kernel_static_phys (pmm s) p = false;
  ko_managed : managed (pfn p) = true }.

(** The out-of-memory killer as the allocation sees it: the victim gives its
    memory back in its own exit path. *)
Definition oom_quiet `{PmmConfig} (managed : nat -> bool) (oom : Frames -> bool * Frames) : Prop :=
  forall s, kernel_ok managed s ->
    kernel_ok managed (snd (oom s)) /\ REFCOUNTS (snd (oom s)) = REFCOUNTS s /\
    (forall p, kernel_owned managed s p -> kernel_owned managed (snd (oom s)) p).

Section source.
Context `{PmmConfig} (managed : nat -> bool) (oom : Frames -> bool * Frames) (now : Z).
Hypothesis Hsmall : Z.of_nat MAX_PAGES * 4096 <= 2 ^ 52.
Hypothesis Hoom : oom_quiet managed oom.
Implicit Types (s : Frames) (p q : Z).

Definition kernel_frames : FrameSource Frames :=
  {| fs_alloc := alloc_page oom now; fs_ok := kernel_ok managed; fs_owned := kernel_owned managed |}.

Lemma pfn_inj p q : 0 <= p -> 0 <= q -> p mod 4096 = 0 -> q mod 4096 = 0 -> pfn p = pfn q -> p = q.
Proof.
  intros Hp Hq Mp Mq. unfold pfn, PAGE_SIZE. intros E.
  assert (p / 4096 = q / 4096) as E' by (apply Z2Nat.inj; [apply Z.div_pos; lia|apply Z.div_pos; lia|done]).
  pose proof (Z.div_mod p 4096). pose proof (Z.div_mod q 4096). lia.
Qed.

(** Both sides of the drain agree on everything but the released frames. *)
Definition drained s s' : Prop :=
  kernel_ok managed s' /\ REFCOUNTS s' = REFCOUNTS s /\ (forall q, kernel_owned managed s q -> kernel_owned managed s' q).

Lemma static_free p e s : pins_ok s -> is_kernel_static_phys (pmm (free_page e s)) p = is_kernel_static_phys (pmm s) p.
Proof.
  intros Hp. destruct (free_page_spec e s Hp) as (_ & _ & _ & (_ & _ & _ & _ & Eb & Ee) & _). unfold is_kernel_static_phys. rewrite Eb, Ee.
  destruct (free_passes e s); [|done]. destruct (clear_page_alloc (pfn e) (pmm s)) as (_ & _ & _ & _ & -> & ->).
  by destruct (is_page_used_locked _ _), (pmm s).
Qed.

(** Freeing a frame that is taken: it goes if nothing stands in the way, and
    waits for its pins otherwise. *)
Lemma free_taken s s1 e :
  kernel_ok managed s -> 0 < e -> e mod 4096 = 0 -> used s (pfn e) = true -> e ∉ DEFERRED s1 ->
  pmm s1 = pmm s -> REFCOUNTS s1 = REFCOUNTS s -> PINS s1 = PINS s ->
  (forall k x, DEFERRED s1 !! k = Some x -> x <> 0 -> DEFERRED s !! k = Some x) ->
  frames_inv managed (free_page e s1) ->
  kernel_ok managed (free_page e s1) /\ REFCOUNTS (free_page e s1) = REFCOUNTS s /\
  (forall q, kernel_owned managed s q -> q <> e -> kernel_owned managed (free_page e s1) q).
Proof.
  intros Hok He Em Eu Hnr Ep Er Epi Hd Hi. destruct (kf_ring _ _ Hok) as [R1 R2].
  assert (pins_ok s1) as Hpins by (unfold pins_ok; rewrite Epi; apply Hok).
  assert (forall n, pin_word s1 n = pin_word s n) as Epw by (intros n; unfold pin_word; by rewrite Epi).
  destruct (free_page_spec e s1 Hpins) as (_ & Fr & Fd & _ & _ & Fp).
  assert (forall n, used (free_page e s1) n = used s n && negb (free_passes e s1 && bool_decide (n = pfn e))) as Hu.
  { intros n. unfold used. rewrite free_page_used, Ep; [done|done|]. rewrite Ep. apply (ledger_ok _ _ _ (accounted_ledger _ _ (fi_alloc _ _ (kf_inv _ _ Hok)))). }
  assert (forall p, is_kernel_static_phys (pmm (free_page e s1)) p = is_kernel_static_phys (pmm s) p) as Hst by (intros; rewrite static_free, Ep; done).
  assert (forall x, 0 <= x -> x mod 4096 = 0 -> x <> e -> pfn x <> pfn e) as Hinj by (intros x X1 X2 X3 E; apply X3; apply pfn_inj; (done || lia)).
  assert (forall n, n <> pfn e -> used (free_page e s1) n = used s n) as Huo by (intros n Hn; rewrite Hu, bool_decide_false, andb_false_r by done; apply andb_true_r).
  split_and!; [split| |].
  - done.
  - rewrite Huo; [apply Hok|]. specialize (Hinj 0 ltac:(lia) eq_refl ltac:(lia)). done.
  - split; rewrite Fd; [|intros j k x Hj Hk Hx; by apply (R2 j k x); [apply Hd|apply Hd|]]. intros k x Hk Hx. destruct (R1 k x (Hd k x Hk Hx) Hx) as (X1 & X2 & X3).
    split_and!; [done|done|]. rewrite Huo; [done|]. apply Hinj; [lia|done|]. intros ->. apply Hnr. by eapply list_elem_of_lookup_2.
  - destruct (kf_refs _ _ Hok) as (t & T1 & T2). exists t. by rewrite Fr, Er.
  - intros p P1 P2 P3. rewrite Hst. intros Hs. destruct (decide (p = e)) as [->|Hne]; [|rewrite Huo by (by apply Hinj); by apply Hok].
    rewrite Hu, Eu. unfold free_passes, free_gate. rewrite Ep, Hs. by destruct (pfn e <? MAX_PAGES)%nat.
  - intros q. rewrite Fp, Epw. intros [Hq|Hq]%orb_true_iff.
    + rewrite Hu, (kf_pending _ _ Hok q Hq). destruct (bool_decide_reflect (q = pfn e)) as [->|]; [|by rewrite andb_false_r].
      unfold free_passes. rewrite Epw. destruct (Z.eqb_spec (wcount (pin_word s (pfn e))) 0) as [E|]; [|by rewrite andb_false_r].
      rewrite word_ok_pending in Hq; [done| |done]. apply pin_word_ok, (fi_pins _ _ (kf_inv _ _ Hok)).
    + apply andb_true_iff in Hq as [Hq ->%bool_decide_eq_true]. apply andb_true_iff in Hq as [_ Hq]. rewrite Hu, Eu. unfold free_passes. rewrite Epw in *.
      destruct (wcount (pin_word s (pfn e)) =? 0); [done|]. by rewrite andb_false_r.
  - by rewrite Fr, Er.
  - intros q [Q1 Q2 Q3 Q4 Q5 Q6 Q7] Hne. pose proof Q1 as [Qa Qb]. assert (pfn q <> pfn e) as Hn by (apply Hinj; (done || lia)). split; [done|done| | | | |done].
    + by rewrite Huo.
    + rewrite Fd. intros Hin. apply list_elem_of_lookup in Hin as [j Hj]. apply Q4. eapply list_elem_of_lookup_2. apply Hd; [done|lia].
    + rewrite Fp, Epw, Q5, bool_decide_false by done. by rewrite andb_false_r.
    + by rewrite Hst.
Qed.

Lemma free_ring_entry s s1 k e :
  kernel_ok managed s -> (k < DEFERRED_CAP)%nat -> DEFERRED s !!! k = e -> e <> 0 ->
  pmm s1 = pmm s -> REFCOUNTS s1 = REFCOUNTS s -> PINS s1 = PINS s -> DEFERRED s1 = <[k := 0]> (DEFERRED s) ->
  frames_inv managed (free_page e s1) -> drained s (free_page e s1).
Proof.
  intros Hok Hkl Ee Hnz Ep Er Epi Ed Hi.
  assert (DEFERRED s !! k = Some e) as Hk by (rewrite <- Ee; apply list_lookup_lookup_total_lt; rewrite (fi_ring_len _ _ (kf_inv _ _ Hok)); done).
  destruct (kf_ring _ _ Hok) as [R1 R2]. destruct (R1 k e Hk Hnz) as (E1 & E2 & E3).
  destruct (free_taken s s1 e) as (F1 & F2 & F3); try done.
  - rewrite Ed. intros Hin. apply list_elem_of_lookup in Hin as [j Hj]. apply list_lookup_insert_Some in Hj as [(_ & <- & _)|[Hne Hj]]; [lia|].
    apply Hne. by apply (R2 k j e).
  - intros j x Hj Hx. rewrite Ed in Hj. apply list_lookup_insert_Some in Hj as [(_ & <- & _)|[Hne Hj]]; done.
  - split_and!; [done|done|]. intros q Hq. apply F3; [done|]. intros ->. apply (ko_ring _ _ _ Hq). by eapply list_elem_of_lookup_2.
Qed.

Lemma drained_refl s : kernel_ok managed s -> drained s s.
Proof. intros Hok. by split_and!. Qed.

Lemma drained_trans s1 s2 s3 : drained s1 s2 -> drained s2 s3 -> drained s1 s3.
Proof. intros (A1 & A2 & A3) (B1 & B2 & B3). split_and!; [done|by rewrite B2|auto]. Qed.

Lemma drain_slot_drained s k : kernel_ok managed s -> (k < DEFERRED_CAP)%nat -> drained s (drain_slot s k).
Proof.
  intros Hok Hk. destruct (Z.eq_dec (DEFERRED s !!! k) 0) as [E|E].
  - unfold drain_slot. rewrite E. by apply drained_refl.
  - destruct (drain_slot_eq s k E) as (s1 & Eq & E1 & E2 & E3 & E4).
    destruct (no_new_pin_drain_slot managed s k Hk (kf_inv _ _ Hok)) as [Hi _]. rewrite Eq in Hi |- *.
    by apply (free_ring_entry s s1 k (DEFERRED s !!! k)).
Qed.

Lemma drain_deferred_drained s : kernel_ok managed s -> drained s (drain_deferred s).
Proof.
  intros Hok. unfold drain_deferred. assert (Forall (fun i => (i < DEFERRED_CAP)%nat) (seq 0 DEFERRED_CAP)) as Hf.
  { apply list.Forall_forall. intros i Hi. apply elem_of_seq in Hi. lia. }
  revert s Hok Hf. generalize (seq 0 DEFERRED_CAP) as l. induction l as [|k l IH]; intros s Hok Hf; cbn; [by apply drained_refl|].
  apply Forall_cons_iff in Hf as [Hk Hf]. pose proof (drain_slot_drained s k Hok Hk) as Hd.
  apply (drained_trans _ (drain_slot s k)); [done|]. apply IH; [apply Hd|done].
Qed.

Lemma drain_if_due_drained s : kernel_ok managed s -> drained s (drain_deferred_if_due now s).
Proof.
  intros Hok. unfold drain_deferred_if_due. destruct (_ <? _); [by apply drained_refl|].
  set (s1 := with_LAST_IDLE_DRAIN_TICK now s). assert (kernel_ok managed s1 /\ REFCOUNTS s1 = REFCOUNTS s /\ (forall q, kernel_owned managed s q -> kernel_owned managed s1 q)) as (K1 & K2 & K3).
  { unfold s1. destruct s. cbn. split_and!; [|done|]; [|intros q []; by split]. destruct Hok as [[? ? ? ? ?] ? ? ? ? ?]. by split; [split|..]. }
  destruct (drain_deferred_drained s1 K1) as (D1 & D2 & D3). split_and!; [done|by rewrite D2|auto].
Qed.

(** Taking a frame off the bitmap. *)
Lemma take_frame s :
  kernel_ok managed s ->
  let '(r, p) := alloc_page_locked (pmm s) in
  drained s (with_pmm p s) /\
  (forall a, r = Some a -> ~ kernel_owned managed s a /\ kernel_owned managed (with_pmm p s) a) /\
  (r = None -> forall n, (n < MAX_PAGES)%nat -> used s n = true).
Proof.
  intros Hok. pose proof (fi_alloc _ _ (kf_inv _ _ Hok)) as Hacc. pose proof (alloc_scan_spec (pmm s) (accounted_cursor _ _ Hacc)) as Hsc.
  pose proof (no_new_pin_alloc_page managed s (kf_inv _ _ Hok)) as [Hi _]. unfold alloc_page_locked in *.
  destruct (alloc_scan (pmm s)) as [n|]; cbn [snd] in Hi |- *.
  2:{ split_and!; [|done|].
      - replace (with_pmm (pmm s) s) with s by (by destruct s). by apply drained_refl.
      - intros _ n Hn. specialize (Hsc n Hn). unfold page_free in Hsc. unfold used. by apply negb_false_iff. }
  destruct Hsc as [Hn Hfree]. set (p' := with_NEXT_FIT_BYTE _ _) in *. apply page_free_used in Hfree. change (used s n = false) in Hfree.
  assert (forall i, used (with_pmm p' s) i = bool_decide (i = n) || used s i) as Hu.
  { intros i. unfold used. replace (BITMAP (pmm (with_pmm p' s))) with (mark_page_used (BITMAP (pmm s)) n) by (by destruct s as [[] ? ? ? ? ? ? ? ?]).
    apply is_page_used_mark_used; [apply Hacc|done]. }
  assert (REFCOUNTS (with_pmm p' s) = REFCOUNTS s /\ DEFERRED (with_pmm p' s) = DEFERRED s) as [Er Ed] by (by destruct s).
  assert (n <> 0%nat) as Hn0 by (intros ->; by rewrite (kf_zero _ _ Hok) in Hfree).
  assert (forall a, is_kernel_static_phys (pmm (with_pmm p' s)) a = is_kernel_static_phys (pmm s) a) as Hst by (intros; by destruct s as [[] ? ? ? ? ? ? ? ?]).
  assert (forall n : nat, pin_word (with_pmm p' s) n = pin_word s n) as Hpw by (intros; by destruct s).
  destruct (kf_ring _ _ Hok) as [R1 R2]. split_and!; [split_and!; [split| |]| |done].
  - done.
  - by rewrite Hu, (kf_zero _ _ Hok), orb_true_r.
  - split; rewrite Ed; [|done]. intros k e Hk He. destruct (R1 k e Hk He) as (X1 & X2 & X3). split_and!; [done|done|]. by rewrite Hu, X3, orb_true_r.
  - destruct (kf_refs _ _ Hok) as (t & T1 & T2). exists t. by rewrite Er.
  - intros a A1 A2 A3. rewrite Hst, Hu. intros Hs. by rewrite (kf_static _ _ Hok a), orb_true_r.
  - intros q. rewrite Hpw, Hu. intros Hq. by rewrite (kf_pending _ _ Hok q), orb_true_r.
  - done.
  - intros q [Q1 Q2 Q3 Q4 Q5 Q6 Q7]. split; [done|done|by rewrite Hu, Q3, orb_true_r|by rewrite Ed|by rewrite Hpw|by rewrite Hst|done].
  - intros a [= <-]. split; [intros Hx; apply ko_used in Hx; rewrite pfn_page in Hx; congruence|].
    assert (page_frame (Z.of_nat n * PAGE_SIZE)) as Hpf by (split; unfold PAGE_SIZE; [lia|by apply Z.mod_mul]).
    split; rewrite ?Hu, ?Ed, ?Hpw, ?Hst, ?pfn_page; [done|done|by rewrite bool_decide_true| | | |].
    + intros Hin. apply list_elem_of_lookup in Hin as [k Hk]. destruct (R1 k _ Hk) as (_ & _ & Hx); [destruct Hpf; lia|].
      rewrite pfn_page in Hx. congruence.
    + destruct (wpending (pin_word s n)) eqn:E; [|done]. apply (kf_pending _ _ Hok) in E. congruence.
    + destruct (is_kernel_static_phys _ _) eqn:E; [|done]. apply (kf_static _ _ Hok) in E; rewrite ?pfn_page in *; [congruence|destruct Hpf; lia|apply Hpf|done].
    + apply (ledger_dom _ _ _ (accounted_ledger _ _ Hacc)); [done|]. by apply page_free_used.
Qed.

Lemma with_exhausted_drained s : kernel_ok managed s -> drained s (with_pmm (bump_EXHAUSTED (pmm s)) s).
Proof.
  intros Hok. destruct s as [[] ? ? ? ? ? ? ? ?]. split_and!; [|done|intros q []; by split]. destruct Hok as [[[] ? ? ? ?] ? ? ? ? ?]. by split; [split; [split|..]|..].
Qed.

Lemma kernel_alloc s :
  kernel_ok managed s -> let '(r, s') := alloc_page oom now s in
  drained s s' /\ (forall a, r = Some a -> ~ kernel_owned managed s a /\ kernel_owned managed s' a).
Proof.
  intros Hok. unfold alloc_page, try_alloc_page. pose proof (drain_if_due_drained s Hok) as D. pose proof (proj1 D) as Hok1.
  set (s1 := drain_deferred_if_due now s) in *. pose proof (take_frame s1 Hok1) as T. destruct (alloc_page_locked (pmm s1)) as [[a|] p].
  - destruct T as (T1 & T2 & _). split; [by eapply drained_trans|]. intros a' [= <-]. destruct (T2 a eq_refl) as [U1 U2].
    split; [|done]. intros Ho. by apply U1, D.
  - destruct T as (T1 & _). pose proof (drained_trans _ _ _ D T1) as D1. set (s2 := with_pmm p s1) in *.
    pose proof (drained_trans _ _ _ D1 (with_exhausted_drained s2 (proj1 D1))) as D2. set (s3 := with_pmm (bump_EXHAUSTED (pmm s2)) s2) in *.
    destruct (Hoom s3 (proj1 D2)) as (O1 & O2 & O3). destruct (oom s3) as [killed s4]. cbn in O1, O2, O3.
    assert (drained s s4) as D3 by (apply (drained_trans _ s3); [done|by split_and!]).
    destruct killed; [|by split]. pose proof (take_frame s4 O1) as T4. destruct (alloc_page_locked (pmm s4)) as [r' p'].
    destruct T4 as (V1 & V2 & _). split; [by eapply drained_trans|]. intros a Ha. destruct (V2 a Ha) as [U1 U2]. split; [|done].
    intros Ho. by apply U1, D3.
Qed.

Lemma kernel_frames_laws : @FrameSourceLaws Frames kernel_frames.
Proof.
  split; cbn.
  - intros s Hok. pose proof (kernel_alloc s Hok) as K. destruct (alloc_page oom now s). apply K.
  - intros s q Hok Ho. pose proof (kernel_alloc s Hok) as K. destruct (alloc_page oom now s). destruct K as [(_ & _ & K) _]. by apply K.
  - intros s a Hok Ha. pose proof (kernel_alloc s Hok) as K. destruct (alloc_page oom now s) as [r s']. cbn in *. destruct K as [_ K].
    destruct (K a Ha) as [U1 U2]. split_and!; [done|done|apply U2].
Qed.

(** The reference counts; a count before [refcount::init] cannot be taken. *)
Definition kernel_refs : FrameRefs Frames :=
  {| fs_inc := fun p s => match page_ref_inc p (REFCOUNTS s) with Some r => with_REFCOUNTS r s | None => s end;
     fs_share := fun s p => page_ref_count p (REFCOUNTS s);
     fs_tracked := fun p => (pfn p < MAX_PAGES)%nat |}.

Lemma refs_update s t' :
  kernel_ok managed s -> length t' = MAX_PAGES -> Forall (in_word 16) t' ->
  kernel_ok managed (with_REFCOUNTS (Some t') s) /\ (forall q, kernel_owned managed s q -> kernel_owned managed (with_REFCOUNTS (Some t') s) q).
Proof.
  intros Hok Hl Hw. destruct s. split; [|intros q []; by split]. destruct Hok as [[? ? ? ? ?] ? ? ? ? ?]. split; [by split|done|done| |done|done]. by exists t'.
Qed.

Lemma inc_table s p :
  kernel_ok managed s -> exists t t', REFCOUNTS s = Some t /\ page_ref_inc p (REFCOUNTS s) = Some (Some t') /\
    length t = MAX_PAGES /\ length t' = MAX_PAGES /\ Forall (in_word 16) t /\ Forall (in_word 16) t' /\
    t' = (if (pfn p <? length t)%nat then <[pfn p := wrap 16 (t !!! pfn p + 1)]> t else t).
Proof.
  intros Hok. destruct (kf_refs _ _ Hok) as (t & T1 & T2 & T3). exists t. eexists. rewrite T1. split_and!; [done|done|done| |done| |done].
  - destruct (_ <? _)%nat; [by rewrite length_insert|done].
  - destruct (_ <? _)%nat; [|done]. apply Forall_insert; [done|]. apply wrap_range. lia.
Qed.

Lemma kernel_refs_laws : @FrameRefsLaws Frames kernel_frames kernel_refs.
Proof.
  split; cbn [fs_alloc fs_ok fs_owned fs_inc fs_share fs_tracked kernel_frames kernel_refs].
  - intros s p Hok. destruct (inc_table s p Hok) as (t & t' & E1 & -> & L1 & L2 & _ & L3 & _). by apply refs_update.
  - intros s p q Hok Ho. destruct (inc_table s p Hok) as (t & t' & E1 & -> & L1 & L2 & _ & L3 & _). by apply refs_update.
  - intros s p q Hok Hp Mp Hq Mq Ht. destruct (inc_table s p Hok) as (t & t' & E1 & -> & L1 & L2 & _ & L3 & Et).
    replace (REFCOUNTS (with_REFCOUNTS (Some t') s)) with (Some t') by (by destruct s). rewrite E1. unfold page_ref_count.
    rewrite L1, L2, (proj2 (Nat.ltb_lt _ _)) by done. subst t'. destruct (Z.eqb_spec p q) as [->|Hne].
    + rewrite L1, (proj2 (Nat.ltb_lt _ _)) by done. apply list_lookup_total_insert_eq. by rewrite L1.
    + destruct (_ <? _)%nat; [|done]. apply list_lookup_total_insert_ne. intros E. apply Hne. by apply pfn_inj.
  - intros s q Hok. pose proof (kernel_alloc s Hok) as K. destruct (alloc_page oom now s) as [r s']. destruct K as [(_ & K & _) _]. cbn [snd]. by rewrite K.
  - intros s q Hok. destruct (kf_refs _ _ Hok) as (t & -> & T2 & T3). unfold page_ref_count. destruct (Nat.ltb_spec (pfn q) (length t)); [|unfold in_word; lia].
    apply (Forall_lookup_1 _ _ _ _ T3 (list_lookup_lookup_total_lt _ _ H0)).
Qed.

(** Giving references and frames back. *)
Definition kernel_release : FrameRelease Frames :=
  {| fs_dec := fun p s => match page_ref_dec p (REFCOUNTS s) with Some (rc, r) => (rc, with_REFCOUNTS r s) | None => (0, s) end;
     fs_free := free_page;
     fs_refcountable := is_refcountable_frame |}.

Lemma refs_owned s r q : kernel_owned managed (with_REFCOUNTS r s) q <-> kernel_owned managed s q.
Proof. destruct s. split; intros []; by split. Qed.

Lemma dec_table s p :
  kernel_ok managed s -> exists t t', REFCOUNTS s = Some t /\
    page_ref_dec p (REFCOUNTS s) = Some (Z.max 0 ((if (pfn p <? length t)%nat then t !!! pfn p else 0) - 1), Some t') /\
    length t = MAX_PAGES /\ length t' = MAX_PAGES /\ Forall (in_word 16) t' /\
    t' = (if (pfn p <? length t)%nat then <[pfn p := Z.max 0 (t !!! pfn p - 1)]> t else t).
Proof.
  intros Hok. destruct (kf_refs _ _ Hok) as (t & T1 & T2 & T3).
  exists t, (if (pfn p <? length t)%nat then <[pfn p := Z.max 0 (t !!! pfn p - 1)]> t else t). rewrite T1. unfold page_ref_dec.
  destruct (Nat.ltb_spec (pfn p) (length t)) as [Hlt|Hge].
  - rewrite (proj2 (Nat.leb_gt _ _)) by lia. pose proof (list_lookup_lookup_total_lt t (pfn p) Hlt) as Hl.
    pose proof (Forall_lookup_1 _ _ _ _ T3 Hl) as Hw. unfold in_word in Hw. split_and!; [done| |done|by rewrite length_insert| |done].
    + destruct (Z.eqb_spec (t !!! pfn p) 0) as [E|E]; [|by rewrite Z.max_r by lia]. rewrite E in *. change (0 `max` (0 - 1)) with 0. by rewrite list_insert_id.
    + apply Forall_insert; [done|]. unfold in_word. lia.
  - rewrite (proj2 (Nat.leb_le _ _)) by lia. by split_and!.
Qed.

Lemma free_owned s p q :
  kernel_ok managed s -> kernel_owned managed s p -> page_ref_count p (REFCOUNTS s) = 0 ->
  kernel_owned managed (free_page p s) q <-> kernel_owned managed s q /\ q <> p.
Proof.
  intros Hok Hp Hs. destruct Hp as [[P1 P1'] P2 P3 P4 P5 P6 P7] eqn:E0; clear E0.
  pose proof (frames_inv_free managed p s (kf_inv _ _ Hok) P7) as Hi. pose proof (fi_pins _ _ (kf_inv _ _ Hok)) as Hpins.
  destruct (free_taken s s p) as (_ & _ & F3); try done; [lia|]. split; [|intros [H1 H2]; by apply F3].
  destruct (free_page_spec p s Hpins) as (_ & _ & Fd & _ & _ & Fp). intros [Q1 Q2 Q3 Q4 Q5 Q6 Q7].
  assert (used (free_page p s) (pfn q) = used s (pfn q) && negb (free_passes p s && bool_decide (pfn q = pfn p))) as Hu
    by (unfold used; apply free_page_used; [done|apply (ledger_ok _ _ _ (accounted_ledger _ _ (fi_alloc _ _ (kf_inv _ _ Hok))))]).
  rewrite Hu in Q3. apply andb_true_iff in Q3 as [Q3 Q3']. rewrite Fp in Q5. apply orb_false_iff in Q5 as [Q5 Q5'].
  rewrite static_free in Q6 by done. rewrite Fd in Q4. split; [by split|]. intros ->.
  assert (free_gate p s = true) as Hg.
  { unfold free_gate. rewrite (proj2 (Nat.ltb_lt _ _)), P6 by done. unfold pte_share_count. by rewrite Hs. }
  unfold free_passes in Q3'. rewrite Hg, bool_decide_true in * by done. cbn [andb] in *. destruct (_ =? 0); done.
Qed.

Lemma kernel_release_laws : @FrameReleaseLaws Frames kernel_frames kernel_refs kernel_release.
Proof.
  split; cbn [fs_alloc fs_ok fs_owned fs_inc fs_share fs_tracked fs_dec fs_free fs_refcountable kernel_frames kernel_refs kernel_release].
  - intros s p _ Ho. apply Ho.
  - intros s p Hok. destruct (dec_table s p Hok) as (t & t' & E1 & -> & L1 & L2 & L3 & _). by apply refs_update.
  - intros s p q Hok. destruct (dec_table s p Hok) as (t & t' & E1 & -> & L1 & L2 & L3 & _). apply refs_owned.
  - intros s p Hok Hp Mp Ht. destruct (dec_table s p Hok) as (t & t' & E1 & -> & L1 & L2 & L3 & _). cbn [fst]. rewrite E1. unfold page_ref_count.
    done.
  - intros s p q Hok Hp Mp Hq Mq Ht. destruct (dec_table s p Hok) as (t & t' & E1 & -> & L1 & L2 & L3 & Et). cbn [snd].
    replace (REFCOUNTS (with_REFCOUNTS (Some t') s)) with (Some t') by (by destruct s). rewrite E1. unfold page_ref_count.
    rewrite L1, L2, (proj2 (Nat.ltb_lt _ _)) by done. subst t'. destruct (Z.eqb_spec p q) as [->|Hne].
    + rewrite L1, (proj2 (Nat.ltb_lt _ _)) by done. apply list_lookup_total_insert_eq. by rewrite L1.
    + destruct (_ <? _)%nat; [|done]. apply list_lookup_total_insert_ne. intros E. apply Hne. by apply pfn_inj.
  - intros s p Hok [[P1 P1'] P2 P3 P4 P5 P6 P7]. pose proof (frames_inv_free managed p s (kf_inv _ _ Hok) P7). destruct (free_taken s s p); try done. lia.
  - intros s p q Hok. by destruct (free_page_spec p s (fi_pins _ _ (kf_inv _ _ Hok))) as (_ & -> & _).
  - intros s p q Hok Ho Hs. by apply free_owned.
Qed.
End source.
