(* ===== verification/SpaceDemo.v ===== *)
(** * Address spaces over the kernel's frames: a small run

    A machine of 512 frames with the kernel's root and one user address space
    that maps two pages, on which the theorems about page tables, resident
    sets and forks are applied. *)

From S2P Require Import Prelude Pmm Refcount Frames InodePins Vma Rss PageTable Resident Fork ForkWalk AddressSpace KernelFrames.

#[local] Existing Instance small_pmm.

Definition demo_managed : nat -> bool := firmware_available demo_boot_info.
Definition no_victim (s : Frames) : bool * Frames := (false, s).

#[local] Instance demo_source : FrameSource Frames := kernel_frames demo_managed no_victim 0.
#[local] Instance demo_refs : FrameRefs Frames := kernel_refs.

Lemma demo_small : Z.of_nat MAX_PAGES * 4096 <= 2 ^ 52.
Proof. vm_compute. discriminate. Qed.

Lemma no_victim_quiet : oom_quiet demo_managed no_victim.
Proof. intros s Hok. by split_and!. Qed.

#[local] Instance demo_source_laws : FrameSourceLaws Frames.
Proof. exact (kernel_frames_laws demo_managed no_victim 0 demo_small no_victim_quiet). Qed.

#[local] Instance demo_refs_laws : FrameRefsLaws Frames.
Proof. exact (kernel_refs_laws demo_managed no_victim 0 demo_small no_victim_quiet). Qed.

(** After boot: the counts are there and the kernel's root is taken. *)
Definition demo_boot : Frames := with_REFCOUNTS (Some (replicate MAX_PAGES 0)) (demo_alloc (frames_boot demo_pmm)).
Definition kernel_root : Z := 0x100000.

(** No kernel image is recorded and no frame is pinned. *)
Lemma demo_static p : is_kernel_static_phys (pmm demo_boot) p = false.
Proof. unfold is_kernel_static_phys. by replace (KERNEL_IMAGE_PHYS_BASE (pmm demo_boot)) with 0 by (vm_compute; reflexivity). Qed.

Lemma demo_pins q : pin_word demo_boot q = 0.
Proof. unfold pin_word. by replace (PINS demo_boot) with (@None (list Z)) by (vm_compute; reflexivity). Qed.

Lemma demo_boot_ok : kernel_ok demo_managed demo_boot.
Proof.
  split.
  - eapply frames_reachable_inv; [apply frames_boot_inv, demo_accounted|].
    eapply rtc_l; [apply fs_alloc_retry|]. eapply rtc_l; [apply fs_refcount_init|apply rtc_refl].
  - vm_compute. reflexivity.
  - assert (DEFERRED demo_boot = replicate DEFERRED_CAP 0) as E by reflexivity.
    split; rewrite E; [intros k e Hk He|intros j k e Hj Hk He]; apply lookup_replicate in Hk as [-> _]; done.
  - exists (replicate MAX_PAGES 0). split_and!; [reflexivity|apply length_replicate|]. apply Forall_replicate. unfold in_word. lia.
  - intros p _ _ _. by rewrite demo_static.
  - intros q. by rewrite demo_pins.
Qed.

Definition zero_memory : Z -> Z := fun _ => 0.
Definition demo0 : Vmm Frames := mkVmm zero_memory demo_boot rss_static.
Definition no_roots (r : Z) : Prop := False.

Lemma demo0_resident : resident_ok no_roots demo0.
Proof.
  split; [split; [exact demo_boot_ok|by intros ? ? ? []..]|exact rss_static_ok|by intros ? ? []|by intros ? ? []|].
  intros r n Hr Hn. exfalso. change (rss demo0) with rss_static in Hn. unfold counter in Hn. destruct (find r rss_static) as [i|] eqn:E; [|done].
  apply (find_iff rss_static r i rss_static_ok Hr) in E. apply lookup_replicate in E as [-> _]. unfold real_key, KEY_EMPTY in Hr. lia.
Qed.

Lemma kernel_root_owned : page_frame kernel_root /\ fs_owned (fr demo0) kernel_root.
Proof.
  assert (page_frame kernel_root) as Hp by (split; [unfold kernel_root; lia|reflexivity]). split; [done|].
  split; [done|vm_compute; lia|vm_compute; reflexivity| |by rewrite demo_pins|apply demo_static|vm_compute; reflexivity].
  assert (DEFERRED demo_boot = replicate DEFERRED_CAP 0) as E by reflexivity. cbn [fr demo0]. rewrite E.
  intros Hin. apply elem_of_replicate_inv in Hin. done.
Qed.

(** One user space, then two pages in it. *)
Definition user_root : Z := 0x108000.
Definition users : Z -> Prop := with_root no_roots user_root.
Definition demo_flags : Z := PAGE_WRITABLE .| PAGE_USER.
Definition demo1 : Vmm Frames := snd (new_user kernel_root 0 0 demo0).
Definition demo2 : Vmm Frames := snd (map_page_in_impl user_root 0x400000 0x130000 demo_flags demo1).
Definition demo3 : Vmm Frames := snd (map_page_in_impl user_root 0x7fff0000 0x131000 demo_flags demo2).

Lemma user_root_in : users user_root.
Proof. by right. Qed.

Lemma demo_page va : 0 <= va < 2 ^ 47 -> va mod 4096 = 0 -> user_page va /\ vpath user_half (full_path va).
Proof. intros Hr Hm. assert (user_page va) as Hu by done. split; [done|]. by apply user_page_path. Qed.

Lemma demo1_resident : resident_ok users demo1.
Proof.
  pose proof (new_user_resident no_roots demo0 kernel_root 0 0 demo0_resident) as Hn.
  assert (option_map cr3 (fst (new_user kernel_root 0 0 demo0)) = Some user_root) as Hc by (vm_compute; reflexivity).
  unfold demo1. destruct (new_user kernel_root 0 0 demo0) as [[sp|] s']; [|discriminate Hc]. cbn [fst snd option_map] in *.
  injection Hc as Hc. destruct Hn as (_ & _ & Hn & _). unfold users. by rewrite <- Hc.
Qed.

Lemma demo_step2 : vm_step users demo1 demo2.
Proof. unfold demo2. apply VmMap; [exact user_root_in|by apply demo_page|reflexivity|reflexivity]. Qed.

Lemma demo_step3 : vm_step users demo2 demo3.
Proof. unfold demo3. apply VmMap; [exact user_root_in|by apply demo_page|reflexivity|reflexivity]. Qed.

Lemma demo_steps : rtc (vm_step users) demo1 demo3.
Proof. exact (rtc_l _ _ _ _ demo_step2 (rtc_once _ _ demo_step3)). Qed.

Lemma demo3_resident : resident_ok users demo3.
Proof. apply (vm_steps_count users demo1 demo3 demo_steps demo1_resident). Qed.

(* ------------------------------------------------------------------ *)
(** ** Witnesses *)

Lemma map_page_in_correct_witness : virt_to_phys_in (pm demo2) user_root 0x400abc = Some 0x130abc.
Proof.
  pose proof (map_page_in_correct users user_half demo1 user_root 0x400000 0x130000 demo_flags
    (rk_spaces _ _ demo1_resident) user_root_in (proj2 (demo_page 0x400000 ltac:(lia) eq_refl)) eq_refl) as W.
  assert (fst (map_page_in_impl user_root 0x400000 0x130000 demo_flags demo1) = true) as E by (vm_compute; reflexivity).
  unfold demo2. destruct (map_page_in_impl user_root 0x400000 0x130000 demo_flags demo1) as [ok s']. cbn [fst snd] in *. subst ok.
  destruct W as (_ & W & _). rewrite (W user_root 0x400abc); [reflexivity|exact user_root_in|apply (demo_page 0x400000); [lia|reflexivity]].
Defined.

Lemma fault_installs_guarded_witness : fst (map_page_in_if_absent user_root 0x400000 0x132000 demo_flags demo2) = false.
Proof.
  pose proof (proj1 (vm_step_count users demo1 demo2 demo1_resident demo_step2)) as Hk.
  pose proof (fault_installs_guarded users user_half demo2 user_root 0x400000 0x132000 demo_flags 0 (fun _ _ => 1) (fun _ => true)
    (rk_spaces _ _ Hk) user_root_in (proj2 (demo_page 0x400000 ltac:(lia) eq_refl))) as (W & _).
  assert (is_Some (leaf (pm demo2) user_root 0x400000)) as [e E] by (eexists; vm_compute; reflexivity).
  destruct (map_page_in_if_absent _ _ _ _ _) as [[] s']; [|reflexivity]. destruct W as [W _]. rewrite E in W. discriminate W.
Defined.

Lemma unmap_write_correct_witness : virt_to_phys_in (pm (unmap_page_in_at user_root 0x400000 demo3)) user_root 0x400123 = None.
Proof.
  assert (no_huge user_root 0x400000 (pm demo3)) as Hn.
  { intros pd Hpd _. vm_compute in Hpd. injection Hpd as <-. vm_compute. reflexivity. }
  pose proof (unmap_write_correct users user_half demo3 user_root 0x400000 0
    (rk_spaces _ _ demo3_resident) user_root_in (proj2 (demo_page 0x400000 ltac:(lia) eq_refl)) Hn) as (_ & _ & W).
  destruct (W user_root 0x400123 user_root_in (proj2 (demo_page 0x400000 ltac:(lia) eq_refl))) as [-> _].
  rewrite bool_decide_true; [reflexivity|]. split; reflexivity.
Defined.

Lemma resident_pages_exact_witness : resident_pages user_root (rss demo3) = Some (walk_resident_pages (pm demo3) user_root).
Proof.
  destruct (resident_pages_exact users demo1 demo3 demo1_resident demo_steps) as (_ & _ & W). rewrite (W user_root user_root_in).
  assert (is_Some (counter (rss demo3) user_root)) as [n ->] by (eexists; vm_compute; reflexivity). reflexivity.
Defined.

Lemma new_user_correct_witness : virt_to_phys_in (pm demo1) user_root 0 = None /\ resident_pages user_root (rss demo1) = Some 0.
Proof.
  pose proof (new_user_correct no_roots demo0 kernel_root 0 0 demo0_resident (proj1 kernel_root_owned) (proj2 kernel_root_owned)) as W.
  assert (option_map cr3 (fst (new_user kernel_root 0 0 demo0)) = Some user_root) as Hc by (vm_compute; reflexivity).
  unfold demo1. destruct (new_user kernel_root 0 0 demo0) as [[sp|] s']; [|discriminate Hc]. cbn [fst snd option_map] in *.
  injection Hc as Hc. rewrite Hc in W. destruct W as (_ & _ & _ & _ & W1 & _ & W2). split; [apply W1; split; [lia|reflexivity]|].
  apply W2. left. change (RSS_KEYS (rss demo0)) with (replicate 256 0). apply list_elem_of_lookup. exists 0%nat. reflexivity.
Defined.

Definition demo_self : VmSpace :=
  mkSpace user_root [mkArea 0x400000 0x1000 3 0 Anonymous "elf"; mkArea 0x7fff0000 0x1000 3 0 (Device 0x131000) "shm"] 0 0 HEAP_BASE HEAP_BASE 0.
Definition demo_fork := clone_for_fork kernel_root user_root demo_self (mkVfsPins [] [] [] []) demo3.

Definition child_of (x : option VmSpace * VmSpace * VfsPins * Vmm Frames) : option VmSpace := fst (fst (fst x)).

Lemma demo_fork_eq : clone_for_fork kernel_root user_root demo_self (mkVfsPins [] [] [] []) demo3 = demo_fork.
Proof. unfold demo_fork. reflexivity. Qed.

Lemma demo_fork_succeeds : match child_of demo_fork with Some _ => true | None => false end = true.
Proof. vm_compute. reflexivity. Qed.

Lemma clone_for_fork_correct_witness :
  exists child, child_of demo_fork = Some child /\
    leaf (pm (snd demo_fork)) (cr3 child) 0x400000 = Some (0x130000 .| PAGE_USER .| PAGE_PRESENT) /\
    leaf (pm (snd demo_fork)) (cr3 child) 0x7fff0000 = leaf (pm demo3) user_root 0x7fff0000.
Proof.
  pose proof (clone_for_fork_correct users demo3 demo_self (mkVfsPins [] [] [] []) kernel_root user_root demo3_resident user_root_in) as W.
  pose proof demo_fork_succeeds as Hc. pose proof demo_fork_eq as Hd. rewrite Hd in W. clear Hd.
  destruct demo_fork as [[[[child|] self'] pins'] s']; [|discriminate Hc]. destruct W as (_ & _ & _ & _ & _ & _ & W & _).
  exists child. split; [reflexivity|]. cbn [snd].
  destruct (W 0x400000 (proj1 (demo_page 0x400000 ltac:(lia) eq_refl))) as [E1 ->].
  destruct (W 0x7fff0000 (proj1 (demo_page 0x7fff0000 ltac:(lia) eq_refl))) as [E2 ->]. rewrite E1, E2. split; vm_compute; reflexivity.
Defined.
