(* ===== verification/ReleaseDemo.v ===== *)
(** * Giving memory back: a small run

    The address space of [SpaceDemo] gets one page of its own, counted as the
    fault path counts it; the theorems on unmapping a range and on tearing
    the space down are applied to it. *)

From S2P Require Import Prelude Pmm Refcount Frames InodePins Vma Rss PageTable Resident Fork AddressSpace Tlb Teardown Release KernelFrames SpaceDemo.

#[local] Existing Instances small_pmm demo_source demo_refs demo_source_laws demo_refs_laws.
#[local] Instance demo_release : FrameRelease Frames := kernel_release.
#[local] Instance demo_release_laws : FrameReleaseLaws Frames.
Proof. exact (kernel_release_laws demo_managed no_victim 0). Qed.

(** A third page, and the frame behind it taken and counted once. *)
Definition own_frame : Z := 0x138000.
Definition own_page : Z := 0x500000.
Definition demo4 : Vmm Frames := snd (map_page_in_impl user_root own_page own_frame demo_flags demo3).
Definition frames5 : Frames := fs_inc own_frame (snd (fs_alloc (fr demo4))).
Definition demo5 : Vmm Frames := mkVmm (pm demo4) frames5 (rss demo4).

Lemma demo5_eq : demo5 = mkVmm (pm demo4) frames5 (rss demo4).
Proof. reflexivity. Qed.

Lemma demo5_fr : fr demo5 = frames5.
Proof. by rewrite demo5_eq. Qed.

Lemma demo4_resident : resident_ok users demo4.
Proof.
  apply (vm_step_count users demo3 demo4 demo3_resident). unfold demo4.
  apply VmMap; [exact user_root_in|by apply demo_page|reflexivity|reflexivity].
Qed.

Lemma taken_own : fst (fs_alloc (fr demo4)) = Some own_frame.
Proof. vm_compute. reflexivity. Qed.

Lemma demo5_frames :
  fs_ok frames5 /\ fs_owned frames5 own_frame /\ ~ fs_owned (fr demo4) own_frame /\
  forall q, fs_owned (fr demo4) q -> fs_owned frames5 q.
Proof.
  pose proof (so_src _ _ _ _ (rk_spaces _ _ demo4_resident)) as Hok. pose proof (fs_alloc_ok (fr demo4) Hok) as Hok'.
  destruct (fs_alloc_new (fr demo4) own_frame Hok taken_own) as (Hn & Ho & _).
  exact (conj (fs_inc_ok _ own_frame Hok') (conj (fs_inc_owned _ own_frame _ Hok' Ho)
    (conj Hn (fun q Hq => fs_inc_owned _ own_frame q Hok' (fs_alloc_keeps _ q Hok Hq))))).
Qed.

Lemma demo5_shares q : fs_share frames5 q = if decide (pfn q = pfn own_frame) then 1 else 0.
Proof.
  assert (REFCOUNTS frames5 = Some (<[pfn own_frame := 1]> (replicate MAX_PAGES 0))) as E by (vm_compute; reflexivity).
  cbn [fs_share demo_refs kernel_refs]. unfold page_ref_count. rewrite E, length_insert, length_replicate. destruct (decide _) as [->|Hne].
  - vm_compute. reflexivity.
  - destruct (Nat.ltb_spec (pfn q) MAX_PAGES); [|done]. rewrite list_lookup_total_insert_ne by done. by rewrite lookup_total_replicate_2.
Qed.

Lemma demo5_resident : resident_ok users demo5.
Proof. destruct demo5_frames as (F1 & _ & _ & F2). exact (resident_frames users demo4 frames5 demo4_resident F1 F2). Qed.

Lemma demo5_unshared : unshared users demo5.
Proof.
  destruct demo5_frames as (_ & _ & Hn & _). apply (unshared_frames users demo4 frames5 own_frame (rk_spaces _ _ demo4_resident) Hn).
  intros q [Hp Hm] Hq. rewrite demo5_shares. destruct (decide _) as [E|]; [|reflexivity]. exfalso. apply Hq.
  apply pfn_inj; [lia|unfold own_frame; lia|exact Hm|reflexivity|exact E].
Qed.

(* ------------------------------------------------------------------ *)
(** ** Witnesses *)

Definition demo_space : VmSpace := mkSpace user_root [mkArea own_page 0x1000 3 0 Anonymous "heap"] 0 0 HEAP_BASE HEAP_BASE 0.

Lemma own_leaf : leaf (pm demo5) user_root own_page = Some (own_frame .| demo_flags .| PAGE_PRESENT).
Proof. vm_compute. reflexivity. Qed.

Lemma own_no_huge : no_huge user_root own_page (pm demo5).
Proof. intros pd Hpd _. vm_compute in Hpd. injection Hpd as <-. vm_compute. reflexivity. Qed.

Lemma own_space_frames : space_frames (pm demo5) user_root (areas demo_space) = [own_frame].
Proof.
  assert (area_pages (mkArea own_page 0x1000 3 0 Anonymous "heap") = [own_page]) as E by reflexivity.
  unfold space_frames, demo_space. cbn [areas mbind list_bind]. rewrite app_nil_r. unfold area_frames.
  cbn [is_device vm_backing]. rewrite E. cbn [omap list_omap]. rewrite own_leaf. reflexivity.
Qed.

Lemma own_held : held frames5 [own_frame].
Proof.
  intros x ->%list_elem_of_singleton. destruct demo5_frames as (_ & Ho & _).
  split_and!; [unfold own_frame; lia|reflexivity|exact Ho|]. rewrite demo5_shares. vm_compute. discriminate.
Qed.

Lemma own_last : last_refs frames5 [own_frame] own_frame.
Proof. split; [by left|]. rewrite demo5_shares. vm_compute. reflexivity. Qed.

Lemma own_area_ok : Forall (area_ok (pm demo5) user_root) (areas demo_space).
Proof.
  apply list.Forall_singleton. split_and!; [vm_compute; discriminate|reflexivity|vm_compute; discriminate|reflexivity|vm_compute; discriminate|].
  intros va Hva. replace va with own_page; [exact own_no_huge|]. symmetry. apply list_elem_of_singleton. exact Hva.
Qed.

#[local] Opaque tables space_frames.

(** The space goes: its one frame is no longer taken and counts nothing. *)
Definition demo_exit :=
  free_vm_space (fun _ _ => false) (fun _ => true) kernel_root true 0 demo_space (mkVfsPins [] [] [] []) demo5 tlb_static.

Lemma demo_exit_eq :
  free_vm_space (fun _ _ => false) (fun _ => true) kernel_root true 0 demo_space (mkVfsPins [] [] [] []) demo5 tlb_static = demo_exit.
Proof. unfold demo_exit. reflexivity. Qed.

Lemma free_vm_space_correct_witness :
  let '(_, s', _) := demo_exit in
  ~ fs_owned (fr s') own_frame /\ fs_share (fr s') own_frame = 0 /\ resident_pages user_root (rss s') = None.
Proof.
  pose proof (free_vm_space_correct users demo5 tlb_static (fun _ _ => false) (fun _ => true) kernel_root true 0 demo_space (mkVfsPins [] [] [] [])
    demo5_resident user_root_in ltac:(discriminate) own_area_ok demo5_unshared) as W.
  change (cr3 demo_space) with user_root in W. rewrite own_space_frames, demo_exit_eq, demo5_fr in W. specialize (W own_held).
  destruct demo_exit as [[pins' s'] t']. destruct W as (_ & _ & _ & W1 & _ & W2 & _ & _ & W3 & _).
  split_and!; [|rewrite (W2 own_frame ltac:(unfold own_frame; lia) eq_refl ltac:(vm_compute; lia)), demo5_shares; vm_compute; reflexivity|exact W1].
  intros Ho. destruct (W3 own_frame own_last Ho) as [E _]. discriminate E.
Defined.

(** The range goes: the frame is released and the other pages stay. *)
Definition acked (_ _ : Z) : bool := true.
Definition demo_unmap := unmap_and_free_range_in acked 0 user_root own_page 0x1000 demo5 tlb_static.

Lemma demo_unmap_eq : unmap_and_free_range_in acked 0 user_root own_page 0x1000 demo5 tlb_static = demo_unmap.
Proof. unfold demo_unmap. reflexivity. Qed.

Lemma own_range : pages own_page (Z.to_nat (0x1000 / 4096)) = [own_page].
Proof. reflexivity. Qed.

Lemma own_range_frames : range_frames (pm demo5) user_root [own_page] = [own_frame].
Proof. unfold range_frames. cbn [omap list_omap]. rewrite own_leaf. reflexivity. Qed.

Lemma demo5_kept : virt_to_phys_in (pm demo5) user_root 0x400000 = Some 0x130000.
Proof. vm_compute. reflexivity. Qed.


(** A frame that the tables map without a reference, as the attachment of a
    shared-memory segment does, is freed with the first range that covers
    it although its owner still holds it. *)
Definition uncounted : Vmm Frames := mkVmm (pm demo4) (snd (fs_alloc (fr demo4))) (rss demo4).

Lemma uncounted_frame_freed :
  fs_owned (fr uncounted) own_frame /\ used (fr uncounted) (pfn own_frame) = true /\
  let '(freed, s', _) := unmap_and_free_range_in acked 0 user_root own_page 0x1000 uncounted tlb_static in
  freed = 1 /\ used (fr s') (pfn own_frame) = false.
Proof.
  pose proof (so_src _ _ _ _ (rk_spaces _ _ demo4_resident)) as Hok.
  destruct (fs_alloc_new (fr demo4) own_frame Hok taken_own) as (_ & Ho & _). split; [exact Ho|]. vm_compute. by split_and!.
Qed.
