(* ===== verification/Dispatcher.v ===== *)
(** * Dispatcher objects and waits (kernel/src/ke/)

    Events, mutants, semaphores and timers with their wait lists, the
    registry that names them, the timer registry with the queue of deferred
    calls, and the phases of the wait functions of wait.rs. The thread table
    is the one of [WaitList]. A wait is cut where the source gives up its
    locks; [DispatcherRun] puts the pieces together. *)

From S2P Require Import Prelude WaitList.

(** [i32] arithmetic of the release build. *)
Definition swrap32 (x : Z) : Z := (x + 2 ^ 31) mod 2 ^ 32 - 2 ^ 31.

Lemma swrap32_small x : - 2 ^ 31 <= x < 2 ^ 31 -> swrap32 x = x.
Proof. intros Hx. unfold swrap32. rewrite Z.mod_small by lia. lia. Qed.

Lemma swrap32_range x : - 2 ^ 31 <= swrap32 x < 2 ^ 31.
Proof. unfold swrap32. pose proof (Z.mod_pos_bound (x + 2 ^ 31) (2 ^ 32) ltac:(lia)). lia. Qed.

(* ------------------------------------------------------------------ *)
(** ** Headers (dispatcher.rs) *)

Inductive DispatcherObjectType := OtEvent | OtMutant | OtSemaphore | OtTimer.
Inductive WaitType := WaitAll | WaitAny.

Record WaitBlock := mkWB { wb_thread : Z; wb_type : WaitType; wb_key : Z; satisfied : bool }.

Definition satisfy (w : WaitBlock) : WaitBlock := mkWB (wb_thread w) (wb_type w) (wb_key w) true.

Record DispatcherHeader := mkHeader {
  object_type : DispatcherObjectType;
  signal_state : Z;
  wait_list : list WaitBlock }.

Definition new_header (t : DispatcherObjectType) (initial_signal : Z) : DispatcherHeader := mkHeader t initial_signal [].
Definition is_signaled (h : DispatcherHeader) : bool := 0 <? signal_state h.
Definition set_signal (x : Z) (h : DispatcherHeader) : DispatcherHeader := mkHeader (object_type h) x (wait_list h).
Definition set_waiters (l : list WaitBlock) (h : DispatcherHeader) : DispatcherHeader := mkHeader (object_type h) (signal_state h) l.

(** Unlike [ready_thread] of the wait lists, the deadline stays. *)
Definition ready_waiter (t : Thread) : Thread :=
  apply_wake_boost (mkThread (tid t) Ready (wake_tick t) (priority t) (ctx_rsp_valid t)).

Definition wake_waiter (threads : list Thread) (w : WaitBlock) : list Thread :=
  match find_thread (wb_thread w) threads with
  | Some t => if bool_decide (state t = Blocked) then update_thread (wb_thread w) ready_waiter threads else threads
  | None => threads
  end.

Definition wake_blocked_waiters (h : DispatcherHeader) (threads : list Thread) : list Thread :=
  fold_left wake_waiter (List.filter satisfied (wait_list h)) threads.

(** [iter_mut().find(|wb| !wb.satisfied)]. *)
Definition first_unsatisfied (l : list WaitBlock) : option WaitBlock := List.find (fun w => negb (satisfied w)) l.
Definition satisfy_first (l : list WaitBlock) : list WaitBlock := update_first (fun w => negb (satisfied w)) satisfy l.
Definition satisfy_all (h : DispatcherHeader) : DispatcherHeader := set_waiters (map satisfy (wait_list h)) h.

(* ------------------------------------------------------------------ *)
(** ** Events (event.rs) *)

Inductive EventType := NotificationEvent | SynchronizationEvent.
Record KeEvent := mkEvent { ev_header : DispatcherHeader; event_type : EventType }.

Definition new_event (t : EventType) : KeEvent := mkEvent (new_header OtEvent 0) t.

(** The operations return the previous state of the signal, the object and
    the thread table. *)
Definition set_event (e : KeEvent) (threads : list Thread) : Z * KeEvent * list Thread :=
  let prev := signal_state (ev_header e) in
  let h := set_signal 1 (ev_header e) in
  let h :=
    match event_type e with
    | NotificationEvent => satisfy_all h
    | SynchronizationEvent =>
        match first_unsatisfied (wait_list h) with
        | Some _ => set_signal 0 (set_waiters (satisfy_first (wait_list h)) h)
        | None => h
        end
    end in
  (prev, mkEvent h (event_type e), wake_blocked_waiters h threads).

Definition reset_event (e : KeEvent) : Z * KeEvent :=
  (signal_state (ev_header e), mkEvent (set_signal 0 (ev_header e)) (event_type e)).

Definition pulse_event (e : KeEvent) (threads : list Thread) : Z * KeEvent * list Thread :=
  let prev := signal_state (ev_header e) in
  let h := set_signal 0 (satisfy_all (ev_header e)) in
  (prev, mkEvent h (event_type e), wake_blocked_waiters h threads).

(* ------------------------------------------------------------------ *)
(** ** Mutants (mutant.rs) *)

Record KeMutant := mkMutant { mu_header : DispatcherHeader; owner_thread : option Z; recursion_count : Z; abandoned : bool }.

Definition new_mutant : KeMutant := mkMutant (new_header OtMutant 1) None 0 false.

Definition take_mutant (thread_id : Z) (m : KeMutant) : KeMutant :=
  mkMutant (set_signal 0 (mu_header m)) (Some thread_id) 1 (abandoned m).
Definition enter_again (m : KeMutant) : KeMutant :=
  mkMutant (mu_header m) (owner_thread m) (wrap 32 (recursion_count m + 1)) (abandoned m).

Definition acquire_mutant (m : KeMutant) (thread_id : Z) : bool * KeMutant :=
  match owner_thread m with
  | None => (true, take_mutant thread_id m)
  | Some owner => if owner =? thread_id then (true, enter_again m) else (false, m)
  end.

Definition release_mutant (m : KeMutant) (thread_id : Z) (threads : list Thread) : bool * KeMutant * list Thread :=
  match owner_thread m with
  | Some owner =>
      if owner =? thread_id then
        let n := wrap 32 (recursion_count m - 1) in
        if n =? 0 then
          let h := set_signal 1 (mu_header m) in
          let m :=
            match first_unsatisfied (wait_list h) with
            | Some w => mkMutant (set_signal 0 (set_waiters (satisfy_first (wait_list h)) h)) (Some (wb_thread w)) 1 (abandoned m)
            | None => mkMutant h None n (abandoned m)
            end in
          (true, m, wake_blocked_waiters (mu_header m) threads)
        else (true, mkMutant (mu_header m) (owner_thread m) n (abandoned m), threads)
      else (false, m, threads)
  | None => (false, m, threads)
  end.

(* ------------------------------------------------------------------ *)
(** ** Semaphores (semaphore.rs) *)

Record KeSemaphore := mkSemaphore { se_header : DispatcherHeader; limit : Z }.

Definition new_semaphore (initial_count limit : Z) : KeSemaphore := mkSemaphore (new_header OtSemaphore initial_count) limit.

(** The wake loop: at most [n] waiters, in their order. *)
Fixpoint satisfy_upto (n : Z) (woken : Z) (l : list WaitBlock) : list WaitBlock * Z :=
  match l with
  | [] => ([], woken)
  | w :: l =>
      let '(w, woken) := if negb (satisfied w) && (woken <? n) then (satisfy w, woken + 1) else (w, woken) in
      let '(l, woken) := satisfy_upto n woken l in
      (w :: l, woken)
  end.

Definition release_semaphore (s : KeSemaphore) (adjustment : Z) (threads : list Thread) : Z * KeSemaphore * list Thread :=
  let prev := signal_state (se_header s) in
  let new_count := swrap32 (prev + adjustment) in
  if limit s <? new_count then (-1, s, threads)
  else
    let h := set_signal new_count (se_header s) in
    let h :=
      if 0 <? new_count then
        let '(l, woken) := satisfy_upto new_count 0 (wait_list h) in
        set_signal (new_count - woken) (set_waiters l h)
      else h in
    (prev, mkSemaphore h (limit s), wake_blocked_waiters h threads).

(* ------------------------------------------------------------------ *)
(** ** Timers and deferred calls (timer.rs, dpc.rs)

    A deferred call is its routine and context; routines are addresses. *)

Inductive DpcImportance := DpcLow | DpcMedium | DpcHigh.
Record Dpc := mkDpc { dpc_routine : Z; dpc_context : Z; importance : DpcImportance; enqueued : bool }.

Definition queue_dpc (d : Dpc) (q : list Dpc) : list Dpc :=
  let d := mkDpc (dpc_routine d) (dpc_context d) (importance d) true in
  match importance d with DpcHigh => d :: q | _ => q ++ [d] end.

Record KeTimer := mkTimer { ti_header : DispatcherHeader; timer_id : Z; ti_active : bool }.

Definition new_timer : KeTimer := mkTimer (new_header OtTimer 0) 0 false.

Record TimerEntry := mkEntry {
  te_id : Z;
  due_time : Z;
  period : Z;
  te_signaled : bool;
  te_active : bool;
  te_dpc : option Z;
  te_context : Z }.

Record Timers := mkTimers { TIMER_REGISTRY : option (list TimerEntry); NEXT_TIMER_ID : Z }.

Definition set_timer (t : KeTimer) (due_ticks period : Z) (dpc : option Dpc) (r : Timers) : KeTimer * Timers :=
  let id := NEXT_TIMER_ID r in
  let '(routine, context) := match dpc with Some d => (Some (dpc_routine d), dpc_context d) | None => (None, 0) end in
  (mkTimer (set_signal 0 (ti_header t)) id true,
   mkTimers ((fun l => l ++ [mkEntry id due_ticks period false true routine context]) <$> TIMER_REGISTRY r) (add64 id 1)).

Definition cancel_timer (t : KeTimer) (r : Timers) : bool * KeTimer * Timers :=
  (ti_active t, mkTimer (ti_header t) (timer_id t) false,
   mkTimers (List.filter (fun e => negb (te_id e =? timer_id t)) <$> TIMER_REGISTRY r) (NEXT_TIMER_ID r)).

(** The scan of [check_timers]: the entries, and what is to fire. *)
Definition expire (now : Z) (e : TimerEntry) : TimerEntry * option (Z * option Z * Z) :=
  if te_active e && (due_time e <=? now) then
    (if 0 <? period e
     then mkEntry (te_id e) (add64 now (period e)) (period e) false true (te_dpc e) (te_context e)
     else mkEntry (te_id e) (due_time e) (period e) true false (te_dpc e) (te_context e),
     Some (te_id e, te_dpc e, te_context e))
  else (e, None).

Definition scan_timers (now : Z) (r : Timers) : Timers * list (Z * option Z * Z) :=
  match TIMER_REGISTRY r with
  | Some l => (mkTimers (Some (map (fun e => fst (expire now e)) l)) (NEXT_TIMER_ID r), omap (fun e => snd (expire now e)) l)
  | None => (r, [])
  end.

Definition is_timer_signaled (id : Z) (r : Timers) : bool :=
  match TIMER_REGISTRY r with
  | Some l => match List.find (fun e => te_id e =? id) l with Some e => te_signaled e | None => false end
  | None => false
  end.

(** The expiry of a timer, as its waiters see it. *)
Definition fire_timer (t : KeTimer) (threads : list Thread) : KeTimer * list Thread :=
  let h := satisfy_all (set_signal 1 (ti_header t)) in
  (mkTimer h (timer_id t) (ti_active t), wake_blocked_waiters h threads).

(* ------------------------------------------------------------------ *)
(** ** The registry (dispatcher.rs) *)

Inductive DispatcherEntry :=
| EEvent (e : KeEvent)
| EMutant (m : KeMutant)
| ESemaphore (s : KeSemaphore)
| ETimer (t : KeTimer).

Definition header (e : DispatcherEntry) : DispatcherHeader :=
  match e with
  | EEvent e => ev_header e
  | EMutant m => mu_header m
  | ESemaphore s => se_header s
  | ETimer t => ti_header t
  end.

(** Writing through [dispatcher_header_mut]. *)
Definition with_header (h : DispatcherHeader) (e : DispatcherEntry) : DispatcherEntry :=
  match e with
  | EEvent e => EEvent (mkEvent h (event_type e))
  | EMutant m => EMutant (mkMutant h (owner_thread m) (recursion_count m) (abandoned m))
  | ESemaphore s => ESemaphore (mkSemaphore h (limit s))
  | ETimer t => ETimer (mkTimer h (timer_id t) (ti_active t))
  end.

Definition Registry := gmap Z DispatcherEntry.

Record Ke := mkKe {
  DISPATCHER_REGISTRY : option Registry;
  NEXT_DISPATCHER_ID : Z;
  timers : Timers;
  DPC_QUEUE : list Dpc;
  threads : list Thread }.

Definition ke_static (threads : list Thread) : Ke := mkKe None 1 (mkTimers None 1) [] threads.

Definition with_registry (r : option Registry) (s : Ke) : Ke := mkKe r (NEXT_DISPATCHER_ID s) (timers s) (DPC_QUEUE s) (threads s).
Definition with_threads_ke (l : list Thread) (s : Ke) : Ke := mkKe (DISPATCHER_REGISTRY s) (NEXT_DISPATCHER_ID s) (timers s) (DPC_QUEUE s) l.
Definition with_timers (t : Timers) (s : Ke) : Ke := mkKe (DISPATCHER_REGISTRY s) (NEXT_DISPATCHER_ID s) t (DPC_QUEUE s) (threads s).
Definition with_dpcs (q : list Dpc) (s : Ke) : Ke := mkKe (DISPATCHER_REGISTRY s) (NEXT_DISPATCHER_ID s) (timers s) q (threads s).

(** [ke::init], the dispatcher's and the timers' part. *)
Definition ke_init (s : Ke) : Ke :=
  with_timers (mkTimers (Some []) (NEXT_TIMER_ID (timers s))) (with_registry (Some ∅) s).

Definition lookup_object (id : Z) (s : Ke) : option DispatcherEntry := m ← DISPATCHER_REGISTRY s; m !! id.

(** A store to an object that is there. *)
Definition put_object (id : Z) (e : DispatcherEntry) (s : Ke) : Ke :=
  with_registry ((fun m : Registry => <[id := e]> m) <$> DISPATCHER_REGISTRY s) s.

Definition create_object (e : DispatcherEntry) (s : Ke) : Z * Ke :=
  let id := NEXT_DISPATCHER_ID s in
  let s := mkKe (DISPATCHER_REGISTRY s) (add64 id 1) (timers s) (DPC_QUEUE s) (threads s) in
  (id, put_object id e s).

Definition create_event (t : EventType) : Ke -> Z * Ke := create_object (EEvent (new_event t)).
Definition create_mutant : Ke -> Z * Ke := create_object (EMutant new_mutant).
Definition create_semaphore (initial_count limit : Z) : Ke -> Z * Ke := create_object (ESemaphore (new_semaphore initial_count limit)).
Definition create_timer : Ke -> Z * Ke := create_object (ETimer new_timer).

Definition destroy_object (id : Z) (s : Ke) : Ke :=
  with_registry ((fun m : Registry => delete id m) <$> DISPATCHER_REGISTRY s) s.

(** [with_event(id, |e| ...)] and its siblings: nothing happens to an object
    of another kind. *)
Definition with_event {R} (id : Z) (f : KeEvent -> list Thread -> R * KeEvent * list Thread) (s : Ke) : option R * Ke :=
  match lookup_object id s with
  | Some (EEvent e) => let '(r, e, l) := f e (threads s) in (Some r, with_threads_ke l (put_object id (EEvent e) s))
  | _ => (None, s)
  end.

Definition with_mutant {R} (id : Z) (f : KeMutant -> list Thread -> R * KeMutant * list Thread) (s : Ke) : option R * Ke :=
  match lookup_object id s with
  | Some (EMutant m) => let '(r, m, l) := f m (threads s) in (Some r, with_threads_ke l (put_object id (EMutant m) s))
  | _ => (None, s)
  end.

Definition with_semaphore {R} (id : Z) (f : KeSemaphore -> list Thread -> R * KeSemaphore * list Thread) (s : Ke) : option R * Ke :=
  match lookup_object id s with
  | Some (ESemaphore x) => let '(r, x, l) := f x (threads s) in (Some r, with_threads_ke l (put_object id (ESemaphore x) s))
  | _ => (None, s)
  end.

Definition with_timer {R} (id : Z) (f : KeTimer -> Timers -> R * KeTimer * Timers) (s : Ke) : option R * Ke :=
  match lookup_object id s with
  | Some (ETimer t) => let '(r, t, l) := f t (timers s) in (Some r, with_timers l (put_object id (ETimer t) s))
  | _ => (None, s)
  end.

Definition read_signal_state (id : Z) (s : Ke) : option Z := (fun e => signal_state (header e)) <$> lookup_object id s.

(** [map.iter_mut()] runs through the keys in order. *)
Definition keys_in_order (m : Registry) : list Z := merge_sort Z.le (elements (dom m)).

Definition timer_with (tid : Z) (m : Registry) (id : Z) : bool :=
  match m !! id with Some (ETimer t) => timer_id t =? tid | _ => false end.

Definition signal_timer_in_registry (tid : Z) (s : Ke) : Ke :=
  match DISPATCHER_REGISTRY s with
  | Some m =>
      match List.find (timer_with tid m) (keys_in_order m) with
      | Some id =>
          match m !! id with
          | Some (ETimer t) => let '(t, l) := fire_timer t (threads s) in with_threads_ke l (put_object id (ETimer t) s)
          | _ => s
          end
      | None => s
      end
  | None => s
  end.

(** Each expired timer is signalled and its deferred call queued. *)
Definition check_timers (now : Z) (s : Ke) : Ke :=
  let '(r, to_fire) := scan_timers now (timers s) in
  fold_left (fun s '(id, routine, context) =>
    let s := signal_timer_in_registry id s in
    match routine with
    | Some f => with_dpcs (queue_dpc (mkDpc f context DpcMedium false) (DPC_QUEUE s)) s
    | None => s
    end) to_fire (with_timers r s).

(* ------------------------------------------------------------------ *)
(** ** Waits (wait.rs) *)

Inductive WaitStatus := Satisfied (key : Z) | Timeout | Abandoned | WaitFailed.

#[global] Instance WaitStatus_eq_dec : EqDecision WaitStatus.
Proof. solve_decision. Defined.

(** One object, looked at for the thread [me]: the status if the wait is
    over, and the object afterwards. *)
Definition satisfy_object (me : Z) (e : DispatcherEntry) : option WaitStatus * DispatcherEntry :=
  match e with
  | EEvent ev =>
      if 0 <? signal_state (ev_header ev) then
        (Some (Satisfied 0),
         match event_type ev with
         | SynchronizationEvent => EEvent (mkEvent (set_signal 0 (ev_header ev)) (event_type ev))
         | NotificationEvent => e
         end)
      else (None, e)
  | EMutant m =>
      if abandoned m then (Some Abandoned, e)
      else if 0 <? signal_state (mu_header m) then (Some (Satisfied 0), EMutant (take_mutant me m))
      else if bool_decide (owner_thread m = Some me) then (Some (Satisfied 0), EMutant (enter_again m))
      else (None, e)
  | ESemaphore s =>
      if 0 <? signal_state (se_header s)
      then (Some (Satisfied 0), ESemaphore (mkSemaphore (set_signal (signal_state (se_header s) - 1) (se_header s)) (limit s)))
      else (None, e)
  | ETimer t => (if 0 <? signal_state (ti_header t) then Some (Satisfied 0) else None, e)
  end.

Definition try_satisfy_single (me id : Z) (s : Ke) : option WaitStatus * Ke :=
  match lookup_object id s with
  | None => (Some WaitFailed, s)
  | Some e => let '(r, e) := satisfy_object me e in (r, put_object id e s)
  end.

Definition consume_signal (me : Z) (e : DispatcherEntry) : DispatcherEntry :=
  match e with
  | EEvent ev =>
      match event_type ev with
      | SynchronizationEvent => EEvent (mkEvent (set_signal 0 (ev_header ev)) (event_type ev))
      | NotificationEvent => e
      end
  | EMutant m => EMutant (take_mutant me m)
  | ESemaphore s => ESemaphore (mkSemaphore (set_signal (swrap32 (signal_state (se_header s) - 1)) (se_header s)) (limit s))
  | ETimer _ => e
  end.

Definition consume (me : Z) (s : Ke) (id : Z) : Ke :=
  match lookup_object id s with Some e => put_object id (consume_signal me e) s | None => s end.

(** The check of [WaitAll]: [None] when the loop ran through. *)
Fixpoint all_signaled (ids : list Z) (s : Ke) : option (option WaitStatus) :=
  match ids with
  | [] => None
  | id :: ids =>
      match lookup_object id s with
      | None => Some (Some WaitFailed)
      | Some e => if is_signaled (header e) then all_signaled ids s else Some None
      end
  end.

Fixpoint any_signaled (me idx : Z) (ids : list Z) (s : Ke) : option WaitStatus * Ke :=
  match ids with
  | [] => (None, s)
  | id :: ids =>
      match lookup_object id s with
      | None => (Some WaitFailed, s)
      | Some e =>
          if is_signaled (header e) then (Some (Satisfied (wrap 32 idx)), put_object id (consume_signal me e) s)
          else any_signaled me (idx + 1) ids s
      end
  end.

Definition try_satisfy_multiple (me : Z) (ids : list Z) (w : WaitType) (s : Ke) : option WaitStatus * Ke :=
  match DISPATCHER_REGISTRY s with
  | None => (Some WaitFailed, s)
  | Some _ =>
      match w with
      | WaitAll =>
          match all_signaled ids s with
          | Some r => (r, s)
          | None => (Some (Satisfied 0), fold_left (consume me) ids s)
          end
      | WaitAny => any_signaled me 0 ids s
      end
  end.

Definition add_block (w : WaitBlock) (e : DispatcherEntry) : DispatcherEntry :=
  with_header (set_waiters (wait_list (header e) ++ [w]) (header e)) e.

(** The enqueueing of [wait_for_single_object]; [false] is a failed wait. *)
Definition enqueue_single (me id : Z) (s : Ke) : bool * Ke :=
  match lookup_object id s with
  | Some e => (true, put_object id (add_block (mkWB me WaitAny 0 false) e) s)
  | None => (false, s)
  end.

Definition retain_others (me : Z) (s : Ke) (id : Z) : Ke :=
  match lookup_object id s with
  | Some e => put_object id (with_header (set_waiters (List.filter (fun w => negb (wb_thread w =? me)) (wait_list (header e))) (header e)) e) s
  | None => s
  end.

(** That of [wait_for_multiple_objects]: a missing object takes the blocks
    of the ones before it out again. *)
Fixpoint enqueue_any (me idx : Z) (before ids : list Z) (s : Ke) : bool * Ke :=
  match ids with
  | [] => (true, s)
  | id :: ids =>
      match lookup_object id s with
      | Some e => enqueue_any me (idx + 1) (before ++ [id]) ids (put_object id (add_block (mkWB me WaitAny (wrap 32 idx) false) e) s)
      | None => (false, fold_left (retain_others me) before s)
      end
  end.

Definition enqueue_multiple (me : Z) (ids : list Z) (s : Ke) : bool * Ke :=
  match DISPATCHER_REGISTRY s with
  | None => (false, s)
  | Some _ => enqueue_any me 0 [] ids s
  end.

Definition park (me wake : Z) (s : Ke) : Ke := with_threads_ke (update_thread me (block_thread wake) (threads s)) s.

(** [position] and [remove]: the thread's first block leaves the list. *)
Fixpoint take_block (me : Z) (l : list WaitBlock) : option WaitBlock * list WaitBlock :=
  match l with
  | [] => (None, [])
  | w :: l => if wb_thread w =? me then (Some w, l) else let '(r, l) := take_block me l in (r, w :: l)
  end.

Definition remove_block (me id : Z) (s : Ke) : option WaitBlock * Ke :=
  match lookup_object id s with
  | Some e => let '(r, l) := take_block me (wait_list (header e)) in (r, put_object id (with_header (set_waiters l (header e)) e) s)
  | None => (None, s)
  end.

Definition finish_single (me id : Z) (s : Ke) : WaitStatus * Ke :=
  match remove_block me id s with
  | (Some w, s) => (if satisfied w then Satisfied 0 else Timeout, s)
  | (None, s) => (Timeout, s)
  end.

Definition finish_one (me : Z) (acc : WaitStatus * Ke) (id : Z) : WaitStatus * Ke :=
  let '(result, s) := acc in
  match remove_block me id s with
  | (Some w, s) => (if satisfied w && bool_decide (result = Timeout) then Satisfied (wb_key w) else result, s)
  | (None, s) => (result, s)
  end.

Definition finish_any (me : Z) (ids : list Z) (s : Ke) : WaitStatus * Ke := fold_left (finish_one me) ids (Timeout, s).

(** The timeout pass of the scheduler (sched/mod.rs). *)
Definition due_wake (now : Z) (t : Thread) : Thread :=
  let ready := mkThread (tid t) Ready (wake_tick t) (priority t) (ctx_rsp_valid t) in
  if bool_decide (state t = Sleeping) && (wake_tick t <=? now) then ready
  else if bool_decide (state t = Blocked) && negb (wake_tick t =? U64_MAX) && (wake_tick t <=? now) then ready
  else t.

Definition due_wake_scan (now : Z) (l : list Thread) : list Thread := map (due_wake now) l.
