(* ===== verification/DispatcherRun.v ===== *)
(** * Dispatcher objects under concurrent waits

    The wait functions of ke/wait.rs as steps of the threads that call them,
    interleaved with every operation on the objects. A step is what happens
    under the registry's lock, or under that of the thread table; between
    them other threads run. The theorems say what a client may conclude from
    the results of its calls, and when a wake-up can be lost. *)

From S2P Require Import Prelude WaitList Dispatcher.

(* ------------------------------------------------------------------ *)
(** ** Threads inside a wait *)

Inductive Call := CSingle (id : Z) | CAny (ids : list Z) | CAll (ids : list Z).

Definition call_ids (c : Call) : list Z := match c with CSingle id => [id] | CAny ids => ids | CAll ids => ids end.

(** Where a thread is: after a poll without success, with its blocks in the
    lists, parked, or in the loop of [WaitAll]. *)
Inductive Pc :=
| PcPolled (c : Call) (start : Z) (timeout : option Z)
| PcQueued (c : Call) (wake : Z)
| PcParked (c : Call) (wake : Z)
| PcAll (ids : list Z) (deadline : option Z)
| PcAllParked (ids : list Z) (deadline : option Z).

(** What the callers see. *)
Inductive Obs :=
| OReturn (t : Z) (c : Call) (r : WaitStatus)
| OAcquire (t id : Z)
| ORelease (t id : Z)
| OMake (id n limit : Z)
| OSupply (id prev n : Z).

Record Sys := mkSys { ke : Ke; now : Z; pcs : gmap Z Pc; log : list Obs }.

Definition with_ke (k : Ke) (s : Sys) : Sys := mkSys k (now s) (pcs s) (log s).
Definition at_pc (t : Z) (p : Pc) (s : Sys) : Sys := mkSys (ke s) (now s) (<[t := p]> (pcs s)) (log s).
Definition observe (o : Obs) (s : Sys) : Sys := mkSys (ke s) (now s) (pcs s) (o :: log s).
Definition returns (t : Z) (c : Call) (r : WaitStatus) (s : Sys) : Sys :=
  mkSys (ke s) (now s) (delete t (pcs s)) (OReturn t c r :: log s).

Definition poll (t : Z) (c : Call) (k : Ke) : option WaitStatus * Ke :=
  match c with
  | CSingle id => try_satisfy_single t id k
  | CAny ids => try_satisfy_multiple t ids WaitAny k
  | CAll ids => try_satisfy_multiple t ids WaitAll k
  end.

(** The call up to the first point where it gives the lock up. *)
Definition call (t : Z) (c : Call) (timeout : option Z) (s : Sys) : Sys :=
  let '(r, k) := poll t c (ke s) in
  let s := with_ke k s in
  match r with
  | Some r => returns t c r s
  | None =>
      if bool_decide (timeout = Some 0) then returns t c Timeout s
      else match c with
           | CAll ids => at_pc t (PcAll ids (add64 (now s) <$> timeout)) s
           | _ => at_pc t (PcPolled c (now s) timeout) s
           end
  end.

(** [deadline.unwrap_or(u64::MAX)]. *)
Definition wake_of (deadline : option Z) : Z := match deadline with Some d => d | None => U64_MAX end.

Definition enqueue (t : Z) (c : Call) (start : Z) (timeout : option Z) (s : Sys) : Sys :=
  let '(ok, k, from) :=
    match c with
    | CSingle id => (enqueue_single t id (ke s), now s)
    | _ => (enqueue_multiple t (call_ids c) (ke s), start)
    end in
  let s := with_ke k s in
  if (ok : bool) then at_pc t (PcQueued c (wake_of (add64 from <$> timeout))) s else returns t c WaitFailed s.

Definition finish (t : Z) (c : Call) (s : Sys) : Sys :=
  let '(r, k) := match c with CSingle id => finish_single t id (ke s) | _ => finish_any t (call_ids c) (ke s) end in
  returns t c r (with_ke k s).

(** One round of the loop of [WaitAll]. *)
Definition recheck (t : Z) (ids : list Z) (deadline : option Z) (s : Sys) : Sys :=
  let '(r, k) := try_satisfy_multiple t ids WaitAll (ke s) in
  let s := with_ke k s in
  match r with
  | Some r => returns t (CAll ids) r s
  | None =>
      if match deadline with Some d => d <=? now s | None => false end then returns t (CAll ids) Timeout s
      else
        let short := add64 (now s) 10 in
        let wake := match deadline with Some d => if d <? short then d else short | None => short end in
        at_pc t (PcAllParked ids deadline) (with_ke (park t wake (ke s)) s)
  end.

(** The operations whose outcome the caller learns. *)
Definition acquires (t id : Z) (s : Sys) : Sys :=
  let '(ok, k) := with_mutant id (fun m l => (acquire_mutant m t, l)) (ke s) in
  if bool_decide (ok = Some true) then observe (OAcquire t id) (with_ke k s) else with_ke k s.

Definition releases (t id : Z) (s : Sys) : Sys :=
  let '(ok, k) := with_mutant id (fun m l => release_mutant m t l) (ke s) in
  if bool_decide (ok = Some true) then observe (ORelease t id) (with_ke k s) else with_ke k s.

Definition supplies (id n : Z) (s : Sys) : Sys :=
  let '(prev, k) := with_semaphore id (fun x l => release_semaphore x n l) (ke s) in
  match prev with
  | Some p => if p =? -1 then with_ke k s else observe (OSupply id p n) (with_ke k s)
  | None => with_ke k s
  end.

Definition creates_semaphore (n limit : Z) (s : Sys) : Sys :=
  let '(id, k) := create_semaphore n limit (ke s) in observe (OMake id n limit) (with_ke k s).

Definition blocked (t : Z) (k : Ke) : Prop := exists th, find_thread t (threads k) = Some th /\ state th = Blocked.

(* ------------------------------------------------------------------ *)
(** ** Steps

    A thread inside a wait does nothing else. Identifiers do not run out, and
    the objects of one call are distinct. The numbers of a semaphore are any
    of an [i32]. *)

Definition is_i32 (n : Z) : Prop := - 2 ^ 31 <= n < 2 ^ 31.

Inductive ke_step (s : Sys) : Sys -> Prop :=
| StCall t c timeout :
    pcs s !! t = None -> NoDup (call_ids c) -> Z.of_nat (length (call_ids c)) < 2 ^ 32 -> ke_step s (call t c timeout s)
| StEnqueue t c start timeout : pcs s !! t = Some (PcPolled c start timeout) -> ke_step s (enqueue t c start timeout s)
| StPark t c wake :
    pcs s !! t = Some (PcQueued c wake) -> ke_step s (at_pc t (PcParked c wake) (with_ke (park t wake (ke s)) s))
| StResume t c wake : pcs s !! t = Some (PcParked c wake) -> ~ blocked t (ke s) -> ke_step s (finish t c s)
| StRecheck t ids deadline :
    pcs s !! t = Some (PcAll ids deadline) \/ (pcs s !! t = Some (PcAllParked ids deadline) /\ ~ blocked t (ke s)) ->
    ke_step s (recheck t ids deadline s)
| StSet id : ke_step s (with_ke (snd (with_event id set_event (ke s))) s)
| StReset id : ke_step s (with_ke (snd (with_event id (fun e l => (reset_event e, l)) (ke s))) s)
| StPulse id : ke_step s (with_ke (snd (with_event id pulse_event (ke s))) s)
| StAcquire t id : pcs s !! t = None -> ke_step s (acquires t id s)
| StRelease t id : pcs s !! t = None -> ke_step s (releases t id s)
| StSemaphore id n : is_i32 n -> ke_step s (supplies id n s)
| StSetTimer id due period dpc :
    ke_step s (with_ke (snd (with_timer id (fun t r => let '(t, r) := set_timer t due period dpc r in (tt, t, r)) (ke s))) s)
| StCancel id : ke_step s (with_ke (snd (with_timer id cancel_timer (ke s))) s)
| StTimers : ke_step s (with_ke (check_timers (now s) (ke s)) s)
| StCreateEvent t : NEXT_DISPATCHER_ID (ke s) < U64_MAX -> ke_step s (with_ke (snd (create_event t (ke s))) s)
| StCreateMutant : NEXT_DISPATCHER_ID (ke s) < U64_MAX -> ke_step s (with_ke (snd (create_mutant (ke s))) s)
| StCreateSemaphore n limit :
    NEXT_DISPATCHER_ID (ke s) < U64_MAX -> is_i32 n -> is_i32 limit -> ke_step s (creates_semaphore n limit s)
| StCreateTimer : NEXT_DISPATCHER_ID (ke s) < U64_MAX -> ke_step s (with_ke (snd (create_timer (ke s))) s)
| StDestroy id : ke_step s (with_ke (destroy_object id (ke s)) s)
| StTick : ke_step s (mkSys (with_threads_ke (due_wake_scan (now s) (threads (ke s))) (ke s)) (add64 (now s) 1) (pcs s) (log s)).

Definition sys_boot (threads : list Thread) : Sys := mkSys (ke_init (ke_static threads)) 0 ∅ [].

(* ------------------------------------------------------------------ *)
(** ** What the callers may conclude *)

(** A result [Satisfied k] of the call [c] is about the object [id]. *)
Definition grants (c : Call) (k id : Z) : bool :=
  match c with
  | CSingle i => i =? id
  | CAny ids => bool_decide (ids !! Z.to_nat k = Some id)
  | CAll ids => bool_decide (id ∈ ids)
  end.

(** How often the thread [t] holds the mutant [id], judging by the results. *)
Definition gain (t id : Z) (o : Obs) : Z :=
  match o with
  | OReturn t' c (Satisfied k) => Z.b2z ((t' =? t) && grants c k id)
  | OAcquire t' i => Z.b2z ((t' =? t) && (i =? id))
  | ORelease t' i => - Z.b2z ((t' =? t) && (i =? id))
  | _ => 0
  end.

(** Successful waits on the semaphore [id], and units put into it. *)
Definition serve (id : Z) (o : Obs) : Z := match o with OReturn _ c (Satisfied k) => Z.b2z (grants c k id) | _ => 0 end.
Definition supply (id : Z) (o : Obs) : Z := match o with OMake i n _ | OSupply i _ n => if i =? id then n else 0 | _ => 0 end.

(** The semaphore [id] was created with a count between zero and its limit,
    and each release it accepted was of a number not negative, with a sum
    within an [i32]. *)
Definition sound (id : Z) (o : Obs) : bool :=
  match o with
  | OMake i n limit => negb (i =? id) || ((0 <=? n) && (n <=? limit))
  | OSupply i prev n => negb (i =? id) || ((0 <=? n) && (prev + n <? 2 ^ 31))
  | _ => true
  end.
Definition well_used (id : Z) (l : list Obs) : bool := forallb (sound id) l.

Definition total (f : Obs -> Z) (l : list Obs) : Z := foldr (fun o z => f o + z) 0 l.
Definition held (t id : Z) (l : list Obs) : Z := total (gain t id) l.
Definition served (id : Z) (l : list Obs) : Z := total (serve id) l.
Definition supplied (id : Z) (l : list Obs) : Z := total (supply id) l.

(** Blocks of a list with a property. *)
Definition tally (f : WaitBlock -> bool) (l : list WaitBlock) : Z := Z.of_nat (length (List.filter f l)).
Definition mine (t : Z) (w : WaitBlock) : bool := satisfied w && (wb_thread w =? t).

(** A thread with a block in a list is inside the wait the block is for. *)
Definition inside (P : gmap Z Pc) (id : Z) (w : WaitBlock) : Prop :=
  exists c wake, (P !! wb_thread w = Some (PcQueued c wake) \/ P !! wb_thread w = Some (PcParked c wake)) /\ grants c (wb_key w) id = true.

Definition blocks_ok (P : gmap Z Pc) (id : Z) (l : list WaitBlock) : Prop :=
  NoDup (wb_thread <$> l) /\ forall w, w ∈ l -> inside P id w.

Definition mutant_ok (L : list Obs) (id : Z) (m : KeMutant) : Prop :=
  abandoned m = false /\
  match owner_thread m with
  | None => signal_state (mu_header m) = 1 /\ recursion_count m = 0
  | Some _ => signal_state (mu_header m) = 0 /\ 1 <= recursion_count m <= Z.of_nat (length L) + 1
  end /\
  forall t, held t id L + tally (mine t) (wait_list (mu_header m)) <= if bool_decide (owner_thread m = Some t) then recursion_count m else 0.

Definition semaphore_ok (L : list Obs) (id : Z) (x : KeSemaphore) : Prop :=
  is_i32 (signal_state (se_header x)) /\ is_i32 (limit x) /\
  (well_used id L = true ->
   0 <= signal_state (se_header x) <= limit x /\
   signal_state (se_header x) + tally satisfied (wait_list (se_header x)) + served id L <= supplied id L).

Definition object_ok (P : gmap Z Pc) (L : list Obs) (id : Z) (e : DispatcherEntry) : Prop :=
  blocks_ok P id (wait_list (header e)) /\
  match e with EMutant m => mutant_ok L id m | ESemaphore x => semaphore_ok L id x | _ => True end.

Definition pc_ids (p : Pc) : list Z :=
  match p with PcPolled c _ _ | PcQueued c _ | PcParked c _ => call_ids c | PcAll ids _ | PcAllParked ids _ => ids end.

(** The call of a thread that is not in the loop of [WaitAll] is another. *)
Definition pc_ok (p : Pc) : Prop :=
  NoDup (pc_ids p) /\ Z.of_nat (length (pc_ids p)) < 2 ^ 32 /\
  match p with PcPolled c _ _ | PcQueued c _ | PcParked c _ => match c with CAll _ => False | _ => True end | _ => True end.

Definition live (k : Ke) : Prop := is_Some (DISPATCHER_REGISTRY k).

Record sys_ok (s : Sys) : Prop := {
  ok_live : live (ke s);
  ok_next : 0 <= NEXT_DISPATCHER_ID (ke s);
  ok_objects id e : lookup_object id (ke s) = Some e -> id < NEXT_DISPATCHER_ID (ke s) /\ object_ok (pcs s) (log s) id e;
  ok_fresh id : NEXT_DISPATCHER_ID (ke s) <= id -> (forall t, held t id (log s) = 0) /\ served id (log s) = 0 /\ supplied id (log s) = 0;
  ok_pcs t p : pcs s !! t = Some p -> pc_ok p }.

(* ------------------------------------------------------------------ *)
(** ** Lookups and counts *)

Lemma lookup_put i id e k : live k -> lookup_object i (put_object id e k) = if decide (i = id) then Some e else lookup_object i k.
Proof.
  intros [m Hm]. unfold lookup_object, put_object, with_registry. cbn [DISPATCHER_REGISTRY]. rewrite Hm. cbn.
  destruct (decide (i = id)) as [->|Hne]; [apply lookup_insert_eq|by apply lookup_insert_ne].
Qed.

Lemma live_put id e k : live (put_object id e k) <-> live k.
Proof. unfold live, put_object. cbn. apply fmap_is_Some. Qed.

Lemma lookup_live id e k : lookup_object id k = Some e -> live k.
Proof. unfold lookup_object, live. by destruct (DISPATCHER_REGISTRY k). Qed.

Lemma lookup_threads i l k : lookup_object i (with_threads_ke l k) = lookup_object i k.
Proof. done. Qed.

Lemma lookup_destroy i id k : lookup_object i (destroy_object id k) = if decide (i = id) then None else lookup_object i k.
Proof.
  unfold lookup_object, destroy_object, with_registry. cbn [DISPATCHER_REGISTRY]. destruct (DISPATCHER_REGISTRY k) as [m|]; cbn; [|by destruct (decide _)].
  destruct (decide (i = id)) as [->|Hne]; [apply lookup_delete_eq|by apply lookup_delete_ne].
Qed.

Lemma header_with h e : header (with_header h e) = h.
Proof. by destruct e. Qed.

Lemma with_header_eta e : with_header (header e) e = e.
Proof. by destruct e as [[]|[]|[]|[]]. Qed.

Lemma tally_cons f w l : tally f (w :: l) = Z.b2z (f w) + tally f l.
Proof. unfold tally. cbn. destruct (f w); cbn [length Z.b2z]; lia. Qed.

Lemma tally_app f l l' : tally f (l ++ l') = tally f l + tally f l'.
Proof. unfold tally. rewrite filter_app, length_app. lia. Qed.

Lemma ke_tally_nonneg f l : 0 <= tally f l.
Proof. unfold tally. lia. Qed.

Lemma ke_tally_none f l : (forall w, w ∈ l -> f w = false) -> tally f l = 0.
Proof.
  induction l as [|w l IH]; intros Hf; [done|]. rewrite tally_cons, (Hf w) by apply list_elem_of_here.
  rewrite IH; [done|]. intros x Hx. apply Hf. by apply list_elem_of_further.
Qed.

Lemma tally_single t l : NoDup (wb_thread <$> l) -> tally (mine t) l <= 1.
Proof.
  induction l as [|w l IH]; [unfold tally; cbn; lia|]. cbn [fmap list_fmap]. rewrite list.NoDup_cons. intros [Hw Hn]. rewrite tally_cons.
  specialize (IH Hn). destruct (mine t w) eqn:E; cbn [Z.b2z]; [|lia]. rewrite ke_tally_none; [lia|].
  intros x Hx. unfold mine in *. apply andb_true_iff in E as [_ E]. apply andb_false_iff. right. apply Z.eqb_neq. intros Ex.
  apply Hw. apply list_elem_of_fmap. exists x. split; [lia|done].
Qed.

(** The same blocks, more of them satisfied perhaps. *)
Definition same_block (w w' : WaitBlock) : Prop :=
  wb_thread w' = wb_thread w /\ wb_key w' = wb_key w /\ (satisfied w = true -> satisfied w' = true).

Lemma same_block_refl l : Forall2 same_block l l.
Proof. induction l; constructor; [by split_and!|done]. Qed.

Lemma same_satisfy_first l : Forall2 same_block l (satisfy_first l).
Proof.
  unfold satisfy_first. induction l as [|w l IH]; [constructor|]. cbn [update_first]. destruct (negb (satisfied w)).
  - constructor; [by split_and!|apply same_block_refl].
  - constructor; [by split_and!|done].
Qed.

Lemma same_satisfy_all l : Forall2 same_block l (map satisfy l).
Proof. induction l; constructor; [by split_and!|done]. Qed.

Lemma same_satisfy_upto n : forall l k, Forall2 same_block l (fst (satisfy_upto n k l)).
Proof.
  induction l as [|w l IH]; intros k; [constructor|]. cbn [satisfy_upto].
  destruct (negb (satisfied w) && (k <? n)).
  - specialize (IH (k + 1)). destruct (satisfy_upto n (k + 1) l). constructor; [by split_and!|done].
  - specialize (IH k). destruct (satisfy_upto n k l). constructor; [by split_and!|done].
Qed.

Lemma same_threads l l' : Forall2 same_block l l' -> wb_thread <$> l' = wb_thread <$> l.
Proof. induction 1 as [|w w' l l' (E & _) _ IH]; [done|]. cbn. by rewrite E, IH. Qed.

Lemma same_blocks_ok P id l l' : Forall2 same_block l l' -> blocks_ok P id l -> blocks_ok P id l'.
Proof.
  intros Hs [Hn Hi]. split; [by rewrite (same_threads l l')|]. intros w' Hw'. apply list_elem_of_lookup in Hw' as [i Hw'].
  destruct (Forall2_lookup_r _ _ _ _ _ Hs Hw') as (w & Hw & E1 & E2 & _). unfold inside. rewrite E1, E2. apply Hi. by apply list_elem_of_lookup_2 in Hw.
Qed.

Lemma tally_satisfy_first f l w :
  first_unsatisfied l = Some w -> f w = false ->
  tally f (satisfy_first l) = tally f l + Z.b2z (f (satisfy w)) /\ w ∈ l.
Proof.
  unfold first_unsatisfied, satisfy_first. induction l as [|x l IH]; [done|]. cbn [List.find update_first].
  destruct (negb (satisfied x)) eqn:E.
  - intros [= ->] Hf. rewrite !tally_cons, Hf. cbn [Z.b2z]. split; [lia|apply list_elem_of_here].
  - intros Hw Hf. destruct (IH Hw Hf) as [IH1 IH2]. rewrite !tally_cons. split; [lia|by apply list_elem_of_further].
Qed.

Lemma first_unsatisfied_spec l w : first_unsatisfied l = Some w -> satisfied w = false.
Proof. intros [_ H]%List.find_some. by apply negb_true_iff. Qed.

Lemma tally_satisfy_upto n : forall l k, k <= n ->
  let '(l', k') := satisfy_upto n k l in tally satisfied l' = tally satisfied l + (k' - k) /\ k <= k' <= n.
Proof.
  induction l as [|w l IH]; intros k Hk; cbn [satisfy_upto]; [split; [unfold tally; cbn; lia|lia]|].
  destruct (satisfied w) eqn:E; cbn [negb andb].
  - specialize (IH k Hk). destruct (satisfy_upto n k l) as [l' k']. rewrite !tally_cons, E. destruct IH. lia.
  - destruct (Z.ltb_spec k n).
    + specialize (IH (k + 1) ltac:(lia)). destruct (satisfy_upto n (k + 1) l) as [l' k']. rewrite !tally_cons, E. cbn [satisfied satisfy Z.b2z]. destruct IH. lia.
    + specialize (IH k Hk). destruct (satisfy_upto n k l) as [l' k']. rewrite !tally_cons, E. destruct IH. lia.
Qed.

Lemma object_frame P P' L L' id e :
  object_ok P L id e -> (forall w, w ∈ wait_list (header e) -> inside P id w -> inside P' id w) ->
  (forall t, held t id L' <= held t id L) -> served id L' <= served id L -> supplied id L <= supplied id L' /\ (well_used id L' = true -> well_used id L = true) -> (length L <= length L')%nat ->
  object_ok P' L' id e.
Proof.
  intros [[B1 B2] Hk] Hi Hh Hs [Hp Hu] Hl. split; [split; [done|]; intros w Hw; apply Hi; [done|by apply B2]|]. destruct e as [|m|x|]; [done| | |done].
  - destruct Hk as (K1 & K2 & K3). split_and!; [done| |].
    + destruct (owner_thread m); [|done]. destruct K2. split; [done|lia].
    + intros t. specialize (K3 t). specialize (Hh t). lia.
  - destruct Hk as (K1 & K2 & K3). split_and!; [done|done|]. intros U%Hu. destruct (K3 U). lia.
Qed.

(* ------------------------------------------------------------------ *)
(** ** The operations, object by object *)

Lemma held_cons t id o L : held t id (o :: L) = gain t id o + held t id L.
Proof. done. Qed.

Lemma served_cons id o L : served id (o :: L) = serve id o + served id L.
Proof. done. Qed.

Lemma supplied_cons id o L : supplied id (o :: L) = supply id o + supplied id L.
Proof. done. Qed.

Lemma mine_satisfy t w : mine t (satisfy w) = (wb_thread w =? t).
Proof. done. Qed.

Section operations.
Context (P : gmap Z Pc) (L : list Obs) (id : Z).
Hypothesis Hlen : Z.of_nat (length L) + 2 < 2 ^ 32.

Lemma event_ok h t h' : object_ok P L id (EEvent (mkEvent h t)) -> Forall2 same_block (wait_list h) (wait_list h') -> object_ok P L id (EEvent (mkEvent h' t)).
Proof. intros [Hb _] Hs. split; [|done]. by apply (same_blocks_ok P id (wait_list h)). Qed.

Lemma set_event_ok e l : object_ok P L id (EEvent e) -> object_ok P L id (EEvent (snd (fst (set_event e l)))).
Proof.
  intros He. destruct e as [h t]. eapply event_ok; [exact He|]. cbn [ev_header event_type wait_list set_signal]. destruct t; [apply same_satisfy_all|].
  destruct (first_unsatisfied (wait_list h)); [apply same_satisfy_first|apply same_block_refl].
Qed.

Lemma pulse_event_ok e l : object_ok P L id (EEvent e) -> object_ok P L id (EEvent (snd (fst (pulse_event e l)))).
Proof. intros He. destruct e as [h t]. eapply event_ok; [exact He|]. apply same_satisfy_all. Qed.

Lemma acquire_mutant_ok m t :
  object_ok P L id (EMutant m) ->
  let '(ok, m') := acquire_mutant m t in
  if (ok : bool) then object_ok P (OAcquire t id :: L) id (EMutant m') else m' = m.
Proof.
  intros [Hb (K1 & K2 & K3)]. unfold acquire_mutant. destruct (owner_thread m) as [o|] eqn:Eo.
  - destruct (Z.eqb_spec o t) as [->|Hne]; [|done]. destruct K2 as [K2 K4]. split; [done|].
    assert (wrap 32 (recursion_count m + 1) = recursion_count m + 1) as Ew by (apply wrap_small; unfold in_word; lia).
    split_and!; [done| |]; cbn [owner_thread mu_header recursion_count enter_again]; rewrite Eo, Ew.
    + split; [done|]. cbn [length]. lia.
    + intros x. specialize (K3 x). rewrite held_cons. cbn [gain]. rewrite Z.eqb_refl, andb_true_r.
      destruct (Z.eqb_spec t x) as [->|Hx]; cbn [Z.b2z]; [|rewrite bool_decide_false in * by congruence; lia].
      rewrite bool_decide_true in * by done. lia.
  - destruct K2 as [K2 K4]. split; [done|]. split_and!; [done| |]; cbn [owner_thread mu_header recursion_count take_mutant wait_list set_signal].
    + split; [done|]. lia.
    + intros x. specialize (K3 x). rewrite held_cons. cbn [gain]. rewrite Z.eqb_refl, andb_true_r. rewrite (bool_decide_false (None = Some x)) in K3 by done.
      destruct (Z.eqb_spec t x) as [->|Hx]; cbn [Z.b2z]; [rewrite bool_decide_true by done|rewrite bool_decide_false by congruence]; lia.
Qed.

Lemma release_mutant_ok m t l :
  object_ok P L id (EMutant m) ->
  let '(ok, m', _) := release_mutant m t l in
  if (ok : bool) then object_ok P (ORelease t id :: L) id (EMutant m') else m' = m.
Proof.
  intros [Hb (K1 & K2 & K3)]. unfold release_mutant. destruct (owner_thread m) as [o|] eqn:Eo; [|done]. destruct (Z.eqb_spec o t) as [->|Hne]; [|done].
  destruct K2 as [K2 K4]. rewrite wrap_small by (unfold in_word; lia).
  assert (forall x, held x id (ORelease t id :: L) + tally (mine x) (wait_list (mu_header m)) <=
    if bool_decide (Some t = Some x) then recursion_count m - 1 else 0) as Hh.
  { intros x. specialize (K3 x). rewrite held_cons. cbn [gain]. rewrite Z.eqb_refl, andb_true_r.
    destruct (Z.eqb_spec t x) as [->|Hx]; cbn [Z.b2z]; [rewrite bool_decide_true in * by done; lia|rewrite bool_decide_false in * by congruence; lia]. }
  destruct (Z.eqb_spec (recursion_count m - 1) 0) as [E|E].
  - cbn [wait_list set_signal]. destruct (first_unsatisfied (wait_list (mu_header m))) as [w|] eqn:Ew.
    + split; [apply (same_blocks_ok P id (wait_list (mu_header m))); [apply same_satisfy_first|done]|].
      split_and!; [done|cbn; split; [done|lia]|]. intros x. cbn [owner_thread mu_header recursion_count wait_list set_signal set_waiters].
      pose proof (first_unsatisfied_spec _ _ Ew) as Hun. destruct (tally_satisfy_first (mine x) _ w Ew) as [-> _]; [unfold mine; by rewrite Hun|].
      specialize (Hh x). rewrite mine_satisfy. destruct (Z.eqb_spec (wb_thread w) x) as [->|Hx]; cbn [Z.b2z].
      * rewrite bool_decide_true by done. destruct (bool_decide _); lia.
      * rewrite (bool_decide_false (Some (wb_thread w) = Some x)) by congruence. destruct (bool_decide _); lia.
    + split; [done|]. split_and!; [done|cbn; by rewrite E|]. intros x. cbn [owner_thread mu_header recursion_count wait_list set_signal].
      rewrite bool_decide_false by done. specialize (Hh x). destruct (bool_decide _); lia.
  - split; [done|]. split_and!; [done| |]; cbn [owner_thread mu_header recursion_count].
    + split; [done|]. cbn [length]. lia.
    + done.
Qed.

Lemma release_semaphore_ok x n l :
  object_ok P L id (ESemaphore x) -> is_i32 n ->
  let '(prev, x', _) := release_semaphore x n l in
  object_ok P (if prev =? -1 then L else OSupply id prev n :: L) id (ESemaphore x').
Proof.
  intros Ho Hn. pose proof Ho as [Hb (K1 & K2 & K3)]. unfold release_semaphore. set (s := signal_state (se_header x)) in *.
  pose proof (swrap32_range (s + n)) as Hc. destruct (Z.ltb_spec (limit x) (swrap32 (s + n))); [done|].
  assert (forall s' k l', (0 < swrap32 (s + n) -> s' = swrap32 (s + n) - k) -> (swrap32 (s + n) <= 0 -> s' = swrap32 (s + n) /\ k = 0) ->
    0 <= k -> (0 < swrap32 (s + n) -> k <= swrap32 (s + n)) -> tally satisfied l' = tally satisfied (wait_list (se_header x)) + k ->
    is_i32 s' /\ (well_used id (if s =? -1 then L else OSupply id s n :: L) = true ->
      0 <= s' <= limit x /\ s' + tally satisfied l' + served id (if s =? -1 then L else OSupply id s n :: L) <= supplied id (if s =? -1 then L else OSupply id s n :: L))) as Hgo.
  { intros s' k l' H1 H2 H3 H4 H5. unfold is_i32 in *. split; [lia|]. destruct (Z.eqb_spec s (-1)) as [E|E]; [intros U; destruct (K3 U); lia|].
    cbn [well_used forallb sound]. rewrite Z.eqb_refl. intros [[U1%Z.leb_le U2%Z.ltb_lt]%andb_true_iff U3]%andb_true_iff. destruct (K3 U3) as [K4 K5].
    rewrite swrap32_small in * by lia. rewrite served_cons, supplied_cons, H5. cbn [serve supply]. rewrite Z.eqb_refl. lia. }
  cbn [wait_list set_signal]. destruct (Z.ltb_spec 0 (swrap32 (s + n))) as [Hp|Hp].
  - pose proof (tally_satisfy_upto (swrap32 (s + n)) (wait_list (se_header x)) 0 ltac:(lia)) as Hu.
    pose proof (same_satisfy_upto (swrap32 (s + n)) (wait_list (se_header x)) 0) as Hs.
    destruct (satisfy_upto (swrap32 (s + n)) 0 (wait_list (se_header x))) as [l' k]. destruct Hu as [U1 U2]. cbn [fst] in Hs.
    split; [by apply (same_blocks_ok P id (wait_list (se_header x)))|]. destruct (Hgo (swrap32 (s + n) - k) k l') as [G1 G2]; [lia..|]. by split_and!.
  - split; [done|]. destruct (Hgo (swrap32 (s + n)) 0 (wait_list (se_header x))) as [G1 G2]; [lia..|]. by split_and!.
Qed.

(** A look at an object that ends a wait. *)
Lemma satisfy_object_ok t e r c k :
  object_ok P L id e -> fst (satisfy_object t e) = Some r -> grants c k id = true ->
  r = Satisfied 0 /\ object_ok P (OReturn t c (Satisfied k) :: L) id (snd (satisfy_object t e)).
Proof.
  intros He Hr Hg. destruct e as [ev|m|x|ti]; cbn [satisfy_object] in *.
  - destruct (0 <? _); [|done]. injection Hr as <-. split; [done|]. destruct He as [Hb _]. destruct (event_type ev); by split.
  - pose proof (acquire_mutant_ok m t He) as Ha. destruct He as [Hb (K1 & K2 & K3)]. rewrite K1 in *.
    assert (forall x, gain x id (OReturn t c (Satisfied k)) = gain x id (OAcquire t id)) as Eg by (intros x; cbn; by rewrite Hg, Z.eqb_refl).
    unfold acquire_mutant in Ha. destruct (owner_thread m) as [o|] eqn:Eo.
    + destruct K2 as [K2 K4]. rewrite K2 in *. cbn [Z.ltb Z.compare] in *. destruct (Z.eqb_spec o t) as [->|Hne].
      * rewrite bool_decide_true in * by done. injection Hr as <-. split; [done|]. destruct Ha as [B (A1 & A2 & A3)]. split; [done|].
        split_and!; [done|done|]. intros x. specialize (A3 x). rewrite held_cons in *. by rewrite Eg.
      * rewrite bool_decide_false in * by congruence. done.
    + destruct K2 as [K2 K4]. rewrite K2 in *. cbn [Z.ltb Z.compare] in *. injection Hr as <-. split; [done|]. destruct Ha as [B (A1 & A2 & A3)]. split; [done|].
      split_and!; [done|done|]. intros x. specialize (A3 x). rewrite held_cons in *. by rewrite Eg.
  - destruct (Z.ltb_spec 0 (signal_state (se_header x))); [|done]. injection Hr as <-. split; [done|]. destruct He as [Hb (K1 & K2 & K3)]. split; [done|].
    unfold semaphore_ok, is_i32 in *. cbn [snd se_header limit signal_state wait_list set_signal]. split_and!; [lia..|]. intros U. destruct (K3 U).
    rewrite served_cons, supplied_cons. cbn [serve supply]. rewrite Hg. cbn [Z.b2z]. lia.
  - destruct (0 <? _); [|done]. injection Hr as <-. split; [done|]. destruct He as [Hb _]. by split.
Qed.
End operations.

(* ------------------------------------------------------------------ *)
(** ** Looking at the objects of a call *)

Lemma consume_satisfy P L id t e :
  object_ok P L id e -> is_signaled (header e) = true ->
  fst (satisfy_object t e) = Some (Satisfied 0) /\ consume_signal t e = snd (satisfy_object t e).
Proof.
  intros [_ He] Hs. unfold is_signaled in Hs. destruct e as [ev|m|x|ti]; cbn [satisfy_object consume_signal header] in *.
  - by rewrite Hs.
  - destruct He as (-> & _). by rewrite Hs.
  - rewrite Hs. destruct He as (K1 & K2 & _). unfold is_i32 in *. apply Z.ltb_lt in Hs. rewrite swrap32_small by lia. done.
  - by rewrite Hs.
Qed.

Lemma all_signaled_none ids k :
  all_signaled ids k = None -> forall id, id ∈ ids -> exists e, lookup_object id k = Some e /\ is_signaled (header e) = true.
Proof.
  induction ids as [|i ids IH]; cbn [all_signaled]; intros Ha id Hin; [by apply elem_of_nil in Hin|].
  destruct (lookup_object i k) as [e|] eqn:E; [|done]. destruct (is_signaled (header e)) eqn:Es; [|done].
  apply elem_of_cons in Hin as [->|Hin]; [by exists e|by apply IH].
Qed.

Lemma all_signaled_some ids k r : all_signaled ids k = Some r -> r = None \/ r = Some WaitFailed.
Proof.
  induction ids as [|i ids IH]; cbn [all_signaled]; [done|]. destruct (lookup_object i k) as [e|]; [|intros [= <-]; by right].
  destruct (is_signaled _); [done|]. intros [= <-]. by left.
Qed.

(** Changing the objects of a list, one by one. *)
Definition alter_object (f : DispatcherEntry -> DispatcherEntry) (k : Ke) (id : Z) : Ke :=
  match lookup_object id k with Some e => put_object id (f e) k | None => k end.

Lemma alter_spec f k id :
  live k -> live (alter_object f k id) /\ NEXT_DISPATCHER_ID (alter_object f k id) = NEXT_DISPATCHER_ID k /\
  forall i, lookup_object i (alter_object f k id) = if decide (i = id) then f <$> lookup_object i k else lookup_object i k.
Proof.
  intros Hl. unfold alter_object. destruct (lookup_object id k) as [e|] eqn:E; split_and!; try done.
  - by apply live_put.
  - intros i. rewrite lookup_put by done. destruct (decide (i = id)) as [->|]; [by rewrite E|done].
  - intros i. destruct (decide (i = id)) as [->|]; [by rewrite E|done].
Qed.

Lemma alter_fold f ids : forall k, live k -> NoDup ids ->
  let k' := fold_left (alter_object f) ids k in
  live k' /\ NEXT_DISPATCHER_ID k' = NEXT_DISPATCHER_ID k /\
  forall id, lookup_object id k' = if decide (id ∈ ids) then f <$> lookup_object id k else lookup_object id k.
Proof.
  induction ids as [|i ids IH]; intros k Hl Hn; cbn [fold_left]; [split_and!; [done|done|]; intros id; by rewrite decide_False by apply not_elem_of_nil|].
  apply list.NoDup_cons in Hn as [Hi Hn]. destruct (alter_spec f k i Hl) as (C1 & C2 & C3).
  destruct (IH (alter_object f k i) C1 Hn) as (A1 & A2 & A3). split_and!; [done|by rewrite A2|]. intros id. rewrite A3, C3.
  destruct (decide (id = i)) as [->|Hne].
  - rewrite decide_False by done. by rewrite decide_True by apply list_elem_of_here.
  - destruct (decide (id ∈ ids)) as [Hin|Hin]; [by rewrite decide_True by (by apply list_elem_of_further)|].
    rewrite decide_False; [done|]. by intros [?|?]%elem_of_cons.
Qed.

Lemma any_signaled_spec t ids : forall idx k, live k ->
  match any_signaled t idx ids k with
  | (Some (Satisfied n), k') => exists i id e, ids !! i = Some id /\ n = wrap 32 (idx + Z.of_nat i) /\ lookup_object id k = Some e /\
      is_signaled (header e) = true /\ k' = put_object id (consume_signal t e) k
  | (r, k') => k' = k /\ (r = None \/ r = Some WaitFailed)
  end.
Proof.
  induction ids as [|i ids IH]; intros idx k Hl; cbn [any_signaled]; [by auto|]. destruct (lookup_object i k) as [e|] eqn:E; [|by auto].
  destruct (is_signaled (header e)) eqn:Es.
  - exists 0%nat, i, e. rewrite Z.add_0_r. by split_and!.
  - specialize (IH (idx + 1) k Hl). destruct (any_signaled t (idx + 1) ids k) as [[[]|] k']; try done.
    destruct IH as (j & id & e' & H1 & -> & H3). exists (S j), id, e'. split; [done|]. split; [f_equal; lia|done].
Qed.

Definition untouched (k k' : Ke) : Prop :=
  live k' /\ NEXT_DISPATCHER_ID k' = NEXT_DISPATCHER_ID k /\ forall id, lookup_object id k' = lookup_object id k.

(** The objects a result is about are taken, the others are left. *)
Definition obtained (t : Z) (c : Call) (n : Z) (k k' : Ke) : Prop :=
  live k' /\ NEXT_DISPATCHER_ID k' = NEXT_DISPATCHER_ID k /\
  (forall id, grants c n id = true -> exists e, lookup_object id k = Some e /\ fst (satisfy_object t e) = Some (Satisfied 0) /\
     lookup_object id k' = Some (snd (satisfy_object t e))) /\
  (forall id, grants c n id = false -> lookup_object id k' = lookup_object id k).

Lemma untouched_refl k : live k -> untouched k k.
Proof. intros Hl. unfold untouched. by split_and!. Qed.

Lemma obtained_one t c n id e k e' :
  lookup_object id k = Some e -> fst (satisfy_object t e) = Some (Satisfied 0) -> e' = snd (satisfy_object t e) ->
  (forall i, grants c n i = true <-> i = id) -> obtained t c n k (put_object id e' k).
Proof.
  intros El Ef -> Hg. pose proof (lookup_live _ _ _ El) as Hl. unfold obtained. split_and!; [by apply live_put|done| |].
  - intros i ->%Hg. exists e. split_and!; [done|done|]. by rewrite lookup_put, decide_True by done.
  - intros i Hi. rewrite lookup_put, decide_False; [done| |done]. intros ->. by rewrite (proj2 (Hg id) eq_refl) in Hi.
Qed.

Lemma satisfy_object_cases t e :
  fst (satisfy_object t e) = Some (Satisfied 0) \/
  (fst (satisfy_object t e) = None \/ fst (satisfy_object t e) = Some Abandoned) /\ snd (satisfy_object t e) = e.
Proof. destruct e as [ev|m|x|ti]; cbn [satisfy_object]; repeat case_match; by auto. Qed.

Lemma poll_spec P L t c k :
  live k -> NoDup (call_ids c) -> Z.of_nat (length (call_ids c)) < 2 ^ 32 ->
  (forall id e, lookup_object id k = Some e -> object_ok P L id e) ->
  match poll t c k with
  | (Some (Satisfied n), k') => obtained t c n k k'
  | (_, k') => untouched k k'
  end.
Proof.
  intros Hl Hn Hlen Hok. destruct c as [id|ids|ids]; cbn [poll call_ids] in *.
  - unfold try_satisfy_single. destruct (lookup_object id k) as [e|] eqn:E; [|by apply untouched_refl].
    destruct (satisfy_object t e) as [r e'] eqn:Es.
    destruct (satisfy_object_cases t e) as [Er|[Er Ee]]; rewrite Es in *; cbn [fst snd] in *.
    + subst r. apply (obtained_one t (CSingle id) 0 id e k e' E); [by rewrite Es|by rewrite Es|]. intros i. cbn. rewrite Z.eqb_eq. naive_solver.
    + assert (untouched k (put_object id e' k)) as Hun.
      { unfold untouched. split_and!; [by apply live_put|done|]. intros i. rewrite lookup_put by done. destruct (decide _) as [->|]; [by rewrite Ee|done]. }
      by destruct Er as [-> | ->].
  - unfold try_satisfy_multiple. destruct Hl as [m Em]. rewrite Em. assert (live k) as Hl by (by exists m).
    pose proof (any_signaled_spec t ids 0 k Hl) as Ha. destruct (any_signaled t 0 ids k) as [[[n| | |]|] k']; try (destruct Ha as [-> _]; by apply untouched_refl).
    destruct Ha as (i & id & e & Hi & -> & El & Es & ->). destruct (consume_satisfy P L id t e (Hok _ _ El) Es) as [E1 E2].
    apply (obtained_one t _ _ id e k _ El E1 E2). intros j. cbn [grants]. rewrite bool_decide_eq_true. pose proof (lookup_lt_Some _ _ _ Hi).
    rewrite Z.add_0_l, wrap_small by (unfold in_word; lia). rewrite Nat2Z.id, Hi. naive_solver.
  - unfold try_satisfy_multiple. destruct Hl as [m Em]. rewrite Em. assert (live k) as Hl by (by exists m).
    destruct (all_signaled ids k) as [r|] eqn:Ea.
    + destruct (all_signaled_some _ _ _ Ea) as [-> | ->]; by apply untouched_refl.
    + destruct (alter_fold (consume_signal t) ids k Hl Hn) as (F1 & F2 & F3). unfold obtained. split_and!; [done|done| |].
      * intros id. cbn [grants]. rewrite bool_decide_eq_true. intros Hin. destruct (all_signaled_none _ _ Ea id Hin) as (e & El & Es).
        destruct (consume_satisfy P L id t e (Hok _ _ El) Es) as [E1 E2]. exists e. split_and!; [done|done|]. rewrite F3, decide_True, El by done. cbn. by rewrite E2.
      * intros id. cbn [grants]. rewrite bool_decide_eq_false. intros Hin. by rewrite F3, decide_False.
Qed.

(* ------------------------------------------------------------------ *)
(** ** Blocks going in and out *)

(** The object without the blocks of a thread. *)
Definition strip (t : Z) (e : DispatcherEntry) : DispatcherEntry :=
  with_header (set_waiters (List.filter (fun w => negb (wb_thread w =? t)) (wait_list (header e))) (header e)) e.

Definition no_block (t : Z) (e : DispatcherEntry) : Prop := forall w, w ∈ wait_list (header e) -> wb_thread w <> t.

Lemma filter_others t l : (forall w, w ∈ l -> wb_thread w <> t) -> List.filter (fun w => negb (wb_thread w =? t)) l = l.
Proof.
  induction l as [|w l IH]; intros Hw; [done|]. cbn. rewrite (proj2 (Z.eqb_neq _ _)) by (apply Hw; apply list_elem_of_here). cbn.
  rewrite IH; [done|]. intros x Hx. apply Hw. by apply list_elem_of_further.
Qed.

Lemma set_waiters_eta h : set_waiters (wait_list h) h = h.
Proof. by destruct h. Qed.

Lemma strip_none t e : no_block t e -> strip t e = e.
Proof. intros Hn. unfold strip. by rewrite filter_others, set_waiters_eta, with_header_eta. Qed.

Lemma strip_add t w e : wb_thread w = t -> no_block t e -> strip t (add_block w e) = e.
Proof.
  intros Hw Hn. unfold strip, add_block. rewrite header_with. cbn [wait_list set_waiters]. rewrite filter_app, filter_others by done. cbn. rewrite Hw, Z.eqb_refl. cbn.
  rewrite app_nil_r. by destruct e as [[[]]|[[]]|[[]]|[[]]].
Qed.

Lemma enqueue_any_spec t : forall ids idx before k,
  live k -> NoDup (before ++ ids) -> (forall id e, id ∈ ids -> lookup_object id k = Some e -> no_block t e) ->
  let '(ok, k') := enqueue_any t idx before ids k in
  live k' /\ NEXT_DISPATCHER_ID k' = NEXT_DISPATCHER_ID k /\
  if (ok : bool) then
    (forall i id, ids !! i = Some id -> exists e, lookup_object id k = Some e /\
       lookup_object id k' = Some (add_block (mkWB t WaitAny (wrap 32 (idx + Z.of_nat i)) false) e)) /\
    (forall id, id ∉ ids -> lookup_object id k' = lookup_object id k)
  else forall id, lookup_object id k' = if decide (id ∈ before) then strip t <$> lookup_object id k else lookup_object id k.
Proof.
  induction ids as [|i ids IH]; intros idx before k Hl Hn Hb; cbn [enqueue_any]; [by split_and!|].
  destruct (lookup_object i k) as [e|] eqn:E.
  2:{ apply (alter_fold (strip t) before k Hl). by apply list.NoDup_app in Hn as [? _]. }
  set (w := mkWB t WaitAny (wrap 32 idx) false). set (k1 := put_object i (add_block w e) k).
  assert (live k1) as Hl1 by (by apply live_put). pose proof Hn as Hn'. rewrite (cons_middle i before ids), app_assoc in Hn'.
  apply list.NoDup_app in Hn as (N1 & N2 & N3). apply list.NoDup_cons in N3 as [N3 N4].
  assert (forall id, lookup_object id k1 = if decide (id = i) then Some (add_block w e) else lookup_object id k) as H1 by (intros id; by apply lookup_put).
  specialize (IH (idx + 1) (before ++ [i]) k1 Hl1 Hn'). destruct (enqueue_any t (idx + 1) (before ++ [i]) ids k1) as [ok k'].
  destruct IH as (A1 & A2 & A3).
  { intros id e' Hin. rewrite H1, decide_False by (by intros ->). apply Hb. by apply list_elem_of_further. }
  split_and!; [done|done|]. destruct ok.
  - destruct A3 as [A3 A4]. split.
    + intros [|j] id Hj.
      * injection Hj as <-. exists e. split; [done|]. rewrite A4, H1, decide_True by done. by rewrite Z.add_0_r.
      * destruct (A3 j id Hj) as (e' & E1 & E2). rewrite H1, decide_False in E1; [|intros ->; apply N3; exact (list_elem_of_lookup_2 ids j i Hj)].
        exists e'. split; [done|]. rewrite E2. do 3 f_equal. f_equal. lia.
    + intros id Hin. apply not_elem_of_cons in Hin as [Hne Hin]. by rewrite A4, H1, decide_False.
  - intros id. rewrite A3, H1. destruct (decide (id = i)) as [->|Hne].
    + rewrite decide_True by (apply elem_of_app; right; by apply list_elem_of_singleton).
      destruct (decide (i ∈ before)) as [Hi|_]; [destruct (N2 i Hi); apply list_elem_of_here|].
      cbn. rewrite E, strip_add; [done|done|]. by apply (Hb i); [apply list_elem_of_here|].
    + destruct (decide (id ∈ before)) as [Hin|Hin].
      * by rewrite decide_True by (apply elem_of_app; by left).
      * rewrite decide_False; [done|]. intros [?|?%list_elem_of_singleton]%elem_of_app; done.
Qed.

Lemma take_block_spec t l :
  NoDup (wb_thread <$> l) ->
  take_block t l = (List.find (fun w => wb_thread w =? t) l, List.filter (fun w => negb (wb_thread w =? t)) l).
Proof.
  induction l as [|w l IH]; [done|]. cbn [fmap list_fmap]. rewrite list.NoDup_cons. intros [Hw Hn]. cbn [take_block List.find List.filter].
  destruct (Z.eqb_spec (wb_thread w) t) as [E|E]; cbn [negb].
  - f_equal. symmetry. apply filter_others. intros x Hx Ex. apply Hw, list_elem_of_fmap. exists x. split; [by rewrite Ex|done].
  - by rewrite IH.
Qed.

(** The block of a thread in an object. *)
Definition block_of (t : Z) (e : DispatcherEntry) : option WaitBlock := List.find (fun w => wb_thread w =? t) (wait_list (header e)).

Lemma block_of_some t e w : block_of t e = Some w -> w ∈ wait_list (header e) /\ wb_thread w = t.
Proof. intros [H1 H2]%List.find_some. split; [by apply list_elem_of_In|by apply Z.eqb_eq]. Qed.

Lemma block_of_unique t e w : NoDup (wb_thread <$> wait_list (header e)) -> w ∈ wait_list (header e) -> wb_thread w = t -> block_of t e = Some w.
Proof.
  unfold block_of. induction (wait_list (header e)) as [|x l IH]; [by intros _ ?%elem_of_nil|]. cbn [fmap list_fmap]. rewrite list.NoDup_cons.
  intros [Hx Hn] Hw Ht. cbn [List.find]. apply elem_of_cons in Hw as [->|Hw]; [by rewrite Ht, Z.eqb_refl|].
  destruct (Z.eqb_spec (wb_thread x) t) as [E|E]; [|by apply IH]. destruct Hx. apply list_elem_of_fmap. exists w. split; [congruence|done].
Qed.

Lemma remove_block_spec t id k e :
  lookup_object id k = Some e -> NoDup (wb_thread <$> wait_list (header e)) ->
  remove_block t id k = (block_of t e, alter_object (strip t) k id).
Proof. intros E Hn. unfold remove_block, alter_object. rewrite E, take_block_spec by done. done. Qed.

(** The result a thread finds when it looks for its blocks. *)
Definition outcome (t : Z) (ids : list Z) (k : Ke) (r : WaitStatus) : Prop :=
  (r = Timeout /\ forall id e w, id ∈ ids -> lookup_object id k = Some e -> block_of t e = Some w -> satisfied w = false) \/
  (exists id e w, id ∈ ids /\ lookup_object id k = Some e /\ block_of t e = Some w /\ satisfied w = true /\ r = Satisfied (wb_key w)).

Definition stripped (t : Z) (ids : list Z) (k k' : Ke) : Prop :=
  live k' /\ NEXT_DISPATCHER_ID k' = NEXT_DISPATCHER_ID k /\
  forall id, lookup_object id k' = if decide (id ∈ ids) then strip t <$> lookup_object id k else lookup_object id k.

Lemma finish_one_spec t r0 k i :
  (forall e, lookup_object i k = Some e -> NoDup (wb_thread <$> wait_list (header e))) ->
  exists r1, finish_one t (r0, k) i = (r1, alter_object (strip t) k i) /\
    (r0 <> Timeout -> r1 = r0) /\ (r0 = Timeout -> outcome t [i] k r1).
Proof.
  intros Hw. unfold finish_one. destruct (lookup_object i k) as [e|] eqn:E.
  - rewrite (remove_block_spec t i k e E) by (by apply Hw). destruct (block_of t e) as [w|] eqn:Eb.
    + exists (if satisfied w && bool_decide (r0 = Timeout) then Satisfied (wb_key w) else r0). split_and!; [done| |].
      * intros Hne. by rewrite bool_decide_false, andb_false_r.
      * intros ->. rewrite bool_decide_true, andb_true_r by done. destruct (satisfied w) eqn:Es.
        -- right. exists i, e, w. split_and!; [apply list_elem_of_here|done|done|done|done].
        -- left. split; [done|]. intros id e' w' ->%list_elem_of_singleton E' Eb'. congruence.
    + exists r0. split_and!; [done|done|]. intros ->. left. split; [done|]. intros id e' w' ->%list_elem_of_singleton E' Eb'. congruence.
  - exists r0. unfold remove_block, alter_object. rewrite E. split_and!; [done|done|]. intros ->. left. split; [done|].
    intros id e' w' ->%list_elem_of_singleton E'. congruence.
Qed.

Lemma finish_fold t : forall ids r0 k, live k -> NoDup ids ->
  (forall id e, id ∈ ids -> lookup_object id k = Some e -> NoDup (wb_thread <$> wait_list (header e))) ->
  let '(r, k') := fold_left (finish_one t) ids (r0, k) in
  k' = fold_left (alter_object (strip t)) ids k /\ (r0 = Timeout -> outcome t ids k r) /\ (r0 <> Timeout -> r = r0).
Proof.
  induction ids as [|i ids IH]; intros r0 k Hl Hn Hw; cbn [fold_left].
  { split_and!; [done| |done]. intros ->. left. split; [done|]. by intros ? ? ? ?%elem_of_nil. }
  apply list.NoDup_cons in Hn as [Hi Hn]. destruct (alter_spec (strip t) k i Hl) as (C1 & C2 & C3).
  destruct (finish_one_spec t r0 k i (fun e => Hw i e (list_elem_of_here _ _))) as (r1 & -> & Hr1 & Hr1').
  specialize (IH r1 (alter_object (strip t) k i) C1 Hn).
  assert (forall id, id ∈ ids -> lookup_object id (alter_object (strip t) k i) = lookup_object id k) as Hsame
    by (intros id Hin; rewrite C3, decide_False; [done|by intros ->]).
  destruct (fold_left (finish_one t) ids (r1, alter_object (strip t) k i)) as [r k']. destruct IH as (-> & I1 & I2).
  { intros id e Hin. rewrite Hsame by done. apply Hw. by apply list_elem_of_further. }
  split_and!; [done| |].
  - intros E0. destruct (Hr1' E0) as [[-> Ho]|(id & e & w & H1 & H2 & H3 & H4 & ->)].
    + destruct (I1 eq_refl) as [[-> Hall]|(id & e & w & H1 & H2 & H3)].
      * left. split; [done|]. intros id e w [->|Hin]%elem_of_cons E'; [apply (Ho _ _ _ (list_elem_of_here _ _) E')|].
        apply (Hall id e w Hin). by rewrite Hsame.
      * right. exists id, e, w. rewrite Hsame in H2 by done. split; [by apply list_elem_of_further|done].
    + rewrite I2 by done. right. apply list_elem_of_singleton in H1 as ->. exists i, e, w. split; [apply list_elem_of_here|done].
  - intros Hne. pose proof (Hr1 Hne) as ->. by apply I2.
Qed.

Lemma finish_any_spec t ids k :
  live k -> NoDup ids -> (forall id e, lookup_object id k = Some e -> NoDup (wb_thread <$> wait_list (header e))) ->
  let '(r, k') := finish_any t ids k in stripped t ids k k' /\ outcome t ids k r.
Proof.
  intros Hl Hn Hw. unfold finish_any. pose proof (finish_fold t ids Timeout k Hl Hn ltac:(by eauto)) as Hgen.
  destruct (fold_left (finish_one t) ids (Timeout, k)) as [r k']. destruct Hgen as (-> & H2 & _). split; [by apply alter_fold|by apply H2].
Qed.

(* ------------------------------------------------------------------ *)
(** ** The invariant, step by step *)

Definition quiet (id : Z) (L L' : list Obs) : Prop :=
  (forall t, held t id L' = held t id L) /\ served id L' = served id L /\ supplied id L' = supplied id L /\ well_used id L' = well_used id L.

Lemma quiet_refl id L : quiet id L L.
Proof. by split_and!. Qed.

Lemma sys_ok_intro s s' :
  sys_ok s -> live (ke s') -> NEXT_DISPATCHER_ID (ke s') = NEXT_DISPATCHER_ID (ke s) ->
  (forall t p, pcs s' !! t = Some p -> pc_ok p) ->
  (forall id e', lookup_object id (ke s') = Some e' -> exists e, lookup_object id (ke s) = Some e /\
     (object_ok (pcs s) (log s) id e -> object_ok (pcs s') (log s') id e')) ->
  (forall id, lookup_object id (ke s) = None -> quiet id (log s) (log s')) -> sys_ok s'.
Proof.
  intros [S1 S2 S3 S4 S5] Hl Hn Hp Ho Hq. split; [done|by rewrite Hn| | |done].
  - intros id e' He'. destruct (Ho id e' He') as (e & He & Hok). destruct (S3 id e He) as [A B]. rewrite Hn. split; [done|by apply Hok].
  - intros id Hid. rewrite Hn in Hid. destruct (Hq id) as (Q1 & Q2 & Q3).
    { destruct (lookup_object id (ke s)) as [e|] eqn:E; [|done]. destruct (S3 id e E) as [A _]. lia. }
    destruct (S4 id Hid) as (F1 & F2 & F3). split_and!; [intros t; by rewrite Q1|by rewrite Q2|by rewrite (proj1 Q3)].
Qed.

(** One object is replaced. *)
Definition puts (id : Z) (e : DispatcherEntry) (k k' : Ke) : Prop :=
  live k' /\ NEXT_DISPATCHER_ID k' = NEXT_DISPATCHER_ID k /\ forall i, lookup_object i k' = if decide (i = id) then Some e else lookup_object i k.

Lemma puts_put id e k : live k -> puts id e k (put_object id e k).
Proof. intros Hl. split; [by apply live_put|]. split; [done|]. intros i. by apply lookup_put. Qed.

Lemma sys_ok_put s id e e' k' :
  sys_ok s -> lookup_object id (ke s) = Some e -> puts id e' (ke s) k' ->
  (object_ok (pcs s) (log s) id e -> object_ok (pcs s) (log s) id e') -> sys_ok (with_ke k' s).
Proof.
  intros Hs He (P1 & P2 & P3) Ho. apply (sys_ok_intro s); [done|done|done|apply Hs| |intros; apply quiet_refl].
  intros i e1. cbn [ke with_ke pcs log]. rewrite P3. destruct (decide (i = id)) as [->|Hne]; [|by eauto]. intros [= <-]. by exists e.
Qed.

Lemma sys_ok_observe s id e e' k' o :
  sys_ok s -> lookup_object id (ke s) = Some e -> puts id e' (ke s) k' ->
  (object_ok (pcs s) (log s) id e -> object_ok (pcs s) (o :: log s) id e') ->
  (forall i, i <> id -> quiet i (log s) (o :: log s)) -> sys_ok (observe o (with_ke k' s)).
Proof.
  intros Hs He (P1 & P2 & P3) Ho Hq. apply (sys_ok_intro s); [done|done|done|apply Hs| |].
  - intros i e1. cbn [ke with_ke observe pcs log]. rewrite P3. destruct (decide (i = id)) as [->|Hne]; [intros [= <-]; by exists e|].
    intros E. exists e1. split; [done|]. intros Hok. destruct (Hq i Hne) as (Q1 & Q2 & Q3).
    apply (object_frame (pcs s) _ (log s)); [done|done|intros; by rewrite Q1|by rewrite Q2|by rewrite (proj1 Q3), (proj2 Q3)|cbn; lia].
  - intros i Hi. apply Hq. intros ->. congruence.
Qed.

Lemma sys_ok_same s k' : sys_ok s -> untouched (ke s) k' -> sys_ok (with_ke k' s).
Proof.
  intros Hs (U1 & U2 & U3). apply (sys_ok_intro s); [done|done|done|apply Hs| |intros; apply quiet_refl].
  intros i e1. cbn [ke with_ke pcs log]. rewrite U3. by eauto.
Qed.

(** A thread that is not queued has no block. *)
Definition idle (s : Sys) (t : Z) : Prop :=
  match pcs s !! t with Some (PcQueued _ _) | Some (PcParked _ _) => False | _ => True end.

Lemma idle_no_block s t id e : sys_ok s -> idle s t -> lookup_object id (ke s) = Some e -> no_block t e.
Proof.
  intros Hs Hi He w Hw <-. destruct (ok_objects _ Hs id e He) as [_ [[_ Hb] _]]. destruct (Hb w Hw) as (c & wake & [E|E] & _); unfold idle in Hi; by rewrite E in Hi.
Qed.

Lemma inside_other (P P' : gmap Z Pc) id w t : (forall x, x <> t -> P' !! x = P !! x) -> wb_thread w <> t -> inside P id w -> inside P' id w.
Proof. intros Hp Hw (c & wake & Hi). exists c, wake. by rewrite (Hp _ Hw). Qed.

(** An idle thread moves within its call. *)
Lemma sys_ok_pc s t (P' : gmap Z Pc) k' :
  sys_ok s -> idle s t -> untouched (ke s) k' -> (forall x, x <> t -> P' !! x = pcs s !! x) -> (forall p, P' !! t = Some p -> pc_ok p) ->
  sys_ok (mkSys k' (now s) P' (log s)).
Proof.
  intros Hs Hi (U1 & U2 & U3) Hp Ht. apply (sys_ok_intro s); [done|done|done| | |intros; apply quiet_refl].
  - intros x p Hx. cbn [pcs] in Hx. destruct (decide (x = t)) as [->|Hne]; [by apply Ht|]. rewrite Hp in Hx by done. by apply (ok_pcs _ Hs x).
  - intros i e1. cbn [ke pcs log]. rewrite U3. intros E. exists e1. split; [done|]. intros Hok.
    apply (object_frame (pcs s) _ (log s)); [done| |done|done|done|done].
    intros w Hw. apply (inside_other _ _ i w t Hp). by apply (idle_no_block s t i e1).
Qed.

(** It returns with a result that is about nothing. *)
Lemma sys_ok_return s t c r k' :
  sys_ok s -> idle s t -> untouched (ke s) k' -> (forall n, r <> Satisfied n) -> sys_ok (returns t c r (with_ke k' s)).
Proof.
  intros Hs Hi (U1 & U2 & U3) Hr. assert (forall i, quiet i (log s) (OReturn t c r :: log s)) as Hq.
  { intros i. destruct r; try (by split_and!). by destruct (Hr key). }
  apply (sys_ok_intro s); [done|done|done| | |by auto].
  - intros x p Hx. cbn [pcs returns] in Hx. apply lookup_delete_Some in Hx as [_ Hx]. by apply (ok_pcs _ Hs x).
  - intros i e1. cbn [ke with_ke returns pcs log]. rewrite U3. intros E. exists e1. split; [done|]. intros Hok. destruct (Hq i) as (Q1 & Q2 & Q3).
    apply (object_frame (pcs s) _ (log s)); [done| |intros; by rewrite Q1|by rewrite Q2|by rewrite (proj1 Q3), (proj2 Q3)|cbn; lia].
    intros w Hw. apply (inside_other _ _ i w t); [intros x Hx; by apply lookup_delete_ne|]. by apply (idle_no_block s t i e1).
Qed.

(** It returns with what it obtained. *)
Lemma sys_ok_obtain s t c n k' :
  sys_ok s -> Z.of_nat (length (log s)) + 2 < 2 ^ 32 -> idle s t -> obtained t c n (ke s) k' -> sys_ok (returns t c (Satisfied n) (with_ke k' s)).
Proof.
  intros Hs Hlen Hi (O1 & O2 & O3 & O4).
  assert (forall i, grants c n i = false -> quiet i (log s) (OReturn t c (Satisfied n) :: log s)) as Hq.
  { intros i Hg. split_and!; [intros x|..]; rewrite ?held_cons, ?served_cons, ?supplied_cons; cbn [gain serve supply]; rewrite ?Hg, ?andb_false_r; done. }
  assert (forall i e w, lookup_object i (ke s) = Some e -> w ∈ wait_list (header e) -> inside (pcs s) i w -> inside (delete t (pcs s)) i w) as Hin.
  { intros i e w E Hw. apply (inside_other _ _ i w t); [intros x Hx; by apply lookup_delete_ne|]. by apply (idle_no_block s t i e). }
  apply (sys_ok_intro s); [done|done|done| | |].
  - intros x p Hx. cbn [pcs returns] in Hx. apply lookup_delete_Some in Hx as [_ Hx]. by apply (ok_pcs _ Hs x).
  - intros i e1. cbn [ke with_ke returns pcs log]. destruct (grants c n i) eqn:Hg.
    + destruct (O3 i Hg) as (e & E & Ef & E'). rewrite E'. intros [= <-]. exists e. split; [done|]. intros Hok.
      assert (object_ok (delete t (pcs s)) (log s) i e) as Hok' by (apply (object_frame (pcs s) _ (log s)); [done|intros w; by apply (Hin i e w)|done|done|done|done]).
      by apply (satisfy_object_ok _ _ i Hlen t e (Satisfied 0) c n Hok').
    + rewrite O4 by done. intros E. exists e1. split; [done|]. intros Hok. destruct (Hq i Hg) as (Q1 & Q2 & Q3).
      apply (object_frame (pcs s) _ (log s)); [done|intros w; by apply (Hin i e1 w)|intros; by rewrite Q1|by rewrite Q2|by rewrite (proj1 Q3), (proj2 Q3)|cbn; lia].
  - intros i Hi0. apply Hq. destruct (grants c n i) eqn:Hg; [|done]. destruct (O3 i Hg) as (e & E & _). congruence.
Qed.

(** Changes outside the registry. *)
Lemma untouched_rest k k' :
  live k -> DISPATCHER_REGISTRY k' = DISPATCHER_REGISTRY k -> NEXT_DISPATCHER_ID k' = NEXT_DISPATCHER_ID k -> untouched k k'.
Proof. intros Hl Er En. unfold untouched, live, lookup_object. by rewrite Er. Qed.

Lemma call_ok t c timeout s :
  sys_ok s -> Z.of_nat (length (log s)) + 2 < 2 ^ 32 -> pcs s !! t = None -> NoDup (call_ids c) -> Z.of_nat (length (call_ids c)) < 2 ^ 32 ->
  sys_ok (call t c timeout s).
Proof.
  intros Hs Hlen Ht Hn Hl. assert (idle s t) as Hi by (unfold idle; by rewrite Ht). unfold call.
  pose proof (poll_spec (pcs s) (log s) t c (ke s) (ok_live _ Hs) Hn Hl (fun id e E => proj2 (ok_objects _ Hs id e E))) as Hp.
  destruct (poll t c (ke s)) as [[[n| | |]|] k']; [by apply sys_ok_obtain|by apply sys_ok_return..|].
  destruct (bool_decide (timeout = Some 0)); [by apply sys_ok_return|].
  assert (forall p, pc_ok p -> sys_ok (at_pc t p (with_ke k' s))) as Hat.
  { intros p Hpc. apply (sys_ok_pc s t); [done|done|done|intros x Hx; by apply lookup_insert_ne|]. intros p'. cbn [pcs with_ke]. rewrite lookup_insert_eq. by intros [= <-]. }
  destruct c; apply Hat; by split_and!.
Qed.

Lemma recheck_ok t ids deadline s :
  sys_ok s -> Z.of_nat (length (log s)) + 2 < 2 ^ 32 -> idle s t -> NoDup ids -> Z.of_nat (length ids) < 2 ^ 32 -> sys_ok (recheck t ids deadline s).
Proof.
  intros Hs Hlen Hi Hn Hl. unfold recheck.
  pose proof (poll_spec (pcs s) (log s) t (CAll ids) (ke s) (ok_live _ Hs) Hn Hl (fun id e E => proj2 (ok_objects _ Hs id e E))) as Hp. cbn [poll] in Hp.
  destruct (try_satisfy_multiple t ids WaitAll (ke s)) as [[[n| | |]|] k']; [by apply sys_ok_obtain|by apply sys_ok_return..|].
  destruct (match deadline with Some _ => _ | None => _ end); [by apply sys_ok_return|].
  apply (sys_ok_pc s t); [done|done|exact Hp|intros x Hx; by apply lookup_insert_ne|]. intros p. cbn [pcs with_ke]. rewrite lookup_insert_eq. intros [= <-]. by split_and!.
Qed.

Lemma add_block_ok (P P' : gmap Z Pc) L id e t w :
  object_ok P L id e -> no_block t e -> wb_thread w = t -> satisfied w = false -> (forall x, x <> t -> P' !! x = P !! x) -> inside P' id w ->
  object_ok P' L id (add_block w e).
Proof.
  intros [[B1 B2] Hk] Hn Hw Hu Hp Hi. split.
  - unfold add_block. rewrite header_with. cbn [wait_list set_waiters]. split.
    + rewrite fmap_app. apply list.NoDup_app. split_and!; [done| |by apply list.NoDup_singleton]. cbn.
      intros x (y & -> & Hy)%list_elem_of_fmap Hx%list_elem_of_singleton. apply (Hn y Hy). congruence.
    + intros x [Hx|Hx]%elem_of_app; [|by apply list_elem_of_singleton in Hx as ->]. apply (inside_other P P' id x t Hp); [by apply Hn|by apply B2].
  - destruct e as [|m|x|]; [done| | |done].
    + destruct Hk as (K1 & K2 & K3). split_and!; [done|done|]. intros y. cbn [add_block with_header header wait_list set_waiters mu_header owner_thread recursion_count].
      rewrite tally_app, tally_cons. unfold mine at 2. rewrite Hu. specialize (K3 y). unfold tally at 2. cbn. lia.
    + destruct Hk as (K1 & K2 & K3). split_and!; [done|done|]. intros U. cbn [add_block with_header header wait_list set_waiters se_header signal_state limit].
      destruct (K3 U). split; [done|].
      rewrite tally_app, tally_cons, Hu. unfold tally at 2. cbn. lia.
Qed.

(** The blocks of a call have gone in. *)
Definition queued_in (t : Z) (c : Call) (k k' : Ke) : Prop :=
  live k' /\ NEXT_DISPATCHER_ID k' = NEXT_DISPATCHER_ID k /\ threads k' = threads k /\
  (forall id, id ∈ call_ids c -> exists e w, lookup_object id k = Some e /\ lookup_object id k' = Some (add_block w e) /\
     wb_thread w = t /\ satisfied w = false /\ grants c (wb_key w) id = true) /\
  (forall id, id ∉ call_ids c -> lookup_object id k' = lookup_object id k).

Lemma enqueue_any_threads t : forall ids idx before k, threads (snd (enqueue_any t idx before ids k)) = threads k.
Proof.
  induction ids as [|i ids IH]; intros idx before k; cbn [enqueue_any]; [done|]. destruct (lookup_object i k); [by rewrite IH|]. cbn [snd].
  revert k. induction before as [|b before IHb]; intros k; cbn [fold_left]; [done|]. rewrite IHb. unfold retain_others. by destruct (lookup_object b k).
Qed.

Lemma enqueue_cases t c start timeout s :
  sys_ok s -> pcs s !! t = Some (PcPolled c start timeout) ->
  exists k' wake, (enqueue t c start timeout s = at_pc t (PcQueued c wake) (with_ke k' s) /\ queued_in t c (ke s) k') \/
    (enqueue t c start timeout s = returns t c WaitFailed (with_ke k' s) /\ untouched (ke s) k' /\ threads k' = threads (ke s)).
Proof.
  intros Hs Ht. assert (idle s t) as Hi by (unfold idle; by rewrite Ht). destruct (ok_pcs _ Hs t _ Ht) as (Hn & Hl & Hc). cbn [pc_ids] in Hn, Hl.
  pose proof (fun id e => idle_no_block s t id e Hs Hi) as Hnb. pose proof (ok_live _ Hs) as Hli. unfold enqueue, queued_in.
  destruct c as [id|ids|ids]; [| |done]; cbn [call_ids] in *.
  - unfold enqueue_single. destruct (lookup_object id (ke s)) as [e|] eqn:E; [eexists _, _; left|exists (ke s), 0; right; split; [done|]; by split; [apply untouched_refl|]].
    split; [done|]. split_and!; [by apply live_put|done|done| |].
    + intros i ->%list_elem_of_singleton. exists e, (mkWB t WaitAny 0 false). rewrite lookup_put, decide_True by done. cbn. by rewrite Z.eqb_refl.
    + intros i Hi'. rewrite lookup_put, decide_False; [done| |done]. intros ->. apply Hi'. by apply list_elem_of_singleton.
  - unfold enqueue_multiple. destruct (ok_live _ Hs) as [m Em]. rewrite Em. pose proof (enqueue_any_threads t ids 0 [] (ke s)) as Hth.
    pose proof (enqueue_any_spec t ids 0 [] (ke s) Hli Hn (fun id e _ => Hnb id e)) as He.
    destruct (enqueue_any t 0 [] ids (ke s)) as [ok k']. destruct He as (A1 & A2 & A3). cbn [snd] in Hth. destruct ok; [eexists k', _; left|exists k', 0; right].
    + destruct A3 as [A3 A4]. split; [done|]. split_and!; [done|done|done| |done]. intros id [i Hi']%list_elem_of_lookup_1.
      destruct (A3 i id Hi') as (e & E & E'). eexists e, _. split_and!; [done|exact E'|done|done|]. cbn [wb_key grants]. apply bool_decide_eq_true.
      pose proof (lookup_lt_Some _ _ _ Hi'). rewrite Z.add_0_l, wrap_small by (unfold in_word; lia). by rewrite Nat2Z.id.
    + split; [done|]. split; [|done]. split; [done|]. split; [done|]. intros id. rewrite A3, decide_False; [done|]. apply not_elem_of_nil.
Qed.

Lemma enqueue_ok t c start timeout s : sys_ok s -> pcs s !! t = Some (PcPolled c start timeout) -> sys_ok (enqueue t c start timeout s).
Proof.
  intros Hs Ht. assert (idle s t) as Hi by (unfold idle; by rewrite Ht). destruct (ok_pcs _ Hs t _ Ht) as (Hn & Hl & Hc). cbn [pc_ids] in Hn, Hl.
  pose proof (fun id e => idle_no_block s t id e Hs Hi) as Hnb.
  destruct (enqueue_cases t c start timeout s Hs Ht) as (k' & wake & [[-> (A1 & A2 & _ & A3 & A4)]|[-> [Hu _]]]); [|by apply sys_ok_return].
  assert (forall x, x <> t -> <[t := PcQueued c wake]> (pcs s) !! x = pcs s !! x) as Hx by (intros x Hx; by apply lookup_insert_ne).
  apply (sys_ok_intro s); [done|done|done| | |intros; apply quiet_refl].
  - intros x p. cbn [pcs at_pc with_ke]. destruct (decide (x = t)) as [->|Hne]; [rewrite lookup_insert_eq; intros [= <-]; by split_and!|].
    rewrite Hx by done. by apply (ok_pcs _ Hs).
  - intros id e'. cbn [ke at_pc with_ke pcs log]. destruct (decide (id ∈ call_ids c)) as [Hin|Hin].
    + destruct (A3 id Hin) as (e & w & E & E' & W1 & W2 & W3). rewrite E'. intros [= <-]. exists e. split; [done|]. intros Hok.
      apply (add_block_ok (pcs s) _ _ id e t); [done|by apply (Hnb id)|done|done|done|]. exists c, wake. rewrite W1, lookup_insert_eq. by auto.
    + rewrite A4 by done. intros E. exists e'. split; [done|]. intros Hok. apply (object_frame (pcs s) _ (log s)); [done| |done|done|done|done].
      intros w Hw. apply (inside_other _ _ id w t Hx). by apply (Hnb id e').
Qed.

Lemma mine_eq t w : mine t w = satisfied w && (wb_thread w =? t).
Proof. done. Qed.

Lemma tally_strip t x l :
  tally (mine x) (List.filter (fun w => negb (wb_thread w =? t)) l) = (if x =? t then 0 else tally (mine x) l) /\
  tally satisfied l = tally satisfied (List.filter (fun w => negb (wb_thread w =? t)) l) + tally (mine t) l.
Proof.
  induction l as [|w l [IH1 IH2]]; [split; [by destruct (x =? t)|done]|]. cbn [List.filter]. rewrite !tally_cons.
  rewrite (mine_eq t w), (mine_eq x w). destruct (Z.eqb_spec (wb_thread w) t) as [Et|Hne]; cbn [negb].
  - rewrite IH1, andb_true_r. split; [|lia]. destruct (Z.eqb_spec x t) as [->|Hx]; [done|].
    rewrite (proj2 (Z.eqb_neq (wb_thread w) x)), andb_false_r by congruence. done.
  - rewrite !tally_cons, IH1, andb_false_r, (mine_eq x w). split; [|cbn [Z.b2z]; lia].
    destruct (Z.eqb_spec x t) as [->|Hx]; [|done]. by rewrite (proj2 (Z.eqb_neq (wb_thread w) t)), andb_false_r by done.
Qed.

Lemma serve_gain t id c r : serve id (OReturn t c r) = gain t id (OReturn t c r).
Proof. cbn. destruct r; try done. by rewrite Z.eqb_refl. Qed.

(** A thread takes its block out and counts it for what it was. *)
Lemma strip_ok (P : gmap Z Pc) L id e t c r :
  object_ok P L id e -> gain t id (OReturn t c r) <= tally (mine t) (wait_list (header e)) ->
  object_ok (delete t P) (OReturn t c r :: L) id (strip t e).
Proof.
  intros [[B1 B2] Hk] Hg. split.
  - unfold strip. rewrite header_with. cbn [wait_list set_waiters]. split.
    + revert B1. generalize (wait_list (header e)). induction l as [|w l IH]; [done|]. cbn [fmap list_fmap List.filter]. rewrite list.NoDup_cons. intros [Hw Hn].
      destruct (negb _); [|by apply IH]. cbn [fmap list_fmap]. apply list.NoDup_cons. split; [|by apply IH].
      intros (y & Ey & Hy)%list_elem_of_fmap. apply Hw, list_elem_of_fmap. exists y. split; [done|]. apply list_elem_of_In in Hy. apply List.filter_In in Hy as [Hy _]. by apply list_elem_of_In.
    + intros w Hw. apply list_elem_of_In in Hw. apply List.filter_In in Hw as [Hw Hne]. apply list_elem_of_In in Hw. apply negb_true_iff, Z.eqb_neq in Hne.
      apply (inside_other P _ id w t); [intros x Hx; by apply lookup_delete_ne|done|by apply B2].
  - assert (forall x, x <> t -> gain x id (OReturn t c r) = 0) as Hgx.
    { intros x Hx. cbn. destruct r; try done. by rewrite (proj2 (Z.eqb_neq t x)) by congruence. }
    destruct e as [|m|x|]; [done| | |done]; cbn [strip with_header header] in *.
    + destruct Hk as (K1 & K2 & K3). split_and!; [done| |]; cbn [mu_header owner_thread recursion_count wait_list set_waiters signal_state].
      * destruct (owner_thread m); [|done]. destruct K2. split; [done|]. cbn [length]. lia.
      * intros y. specialize (K3 y). rewrite held_cons. destruct (tally_strip t y (wait_list (mu_header m))) as [-> _].
        destruct (Z.eqb_spec y t) as [->|Hy]; [lia|]. rewrite Hgx by done. lia.
    + destruct Hk as (K1 & K2 & K3). split_and!; [done|done|]. intros U. cbn [se_header wait_list set_waiters signal_state limit]. destruct (K3 U). split; [done|].
      rewrite served_cons, supplied_cons. destruct (tally_strip t t (wait_list (se_header x))) as [_ Et].
      rewrite (serve_gain t). cbn [supply]. lia.
Qed.

Lemma finish_single_any t id k :
  finish_single t id k = (match fst (finish_any t [id] k) with Satisfied _ => Satisfied 0 | r => r end, snd (finish_any t [id] k)).
Proof.
  unfold finish_single, finish_any. cbn [fold_left]. unfold finish_one. destruct (remove_block t id k) as [[w|] k']; [|done].
  rewrite bool_decide_true, andb_true_r by done. by destruct (satisfied w).
Qed.

Lemma block_tally t e w : block_of t e = Some w -> satisfied w = true -> 1 <= tally (mine t) (wait_list (header e)).
Proof.
  intros [Hw Ht]%block_of_some Hs. destruct (tally (mine t) (wait_list (header e)) =? 0) eqn:E; [|apply Z.eqb_neq in E; pose proof (ke_tally_nonneg (mine t) (wait_list (header e))); lia].
  exfalso. apply Z.eqb_eq in E. unfold tally in E. assert (In w (List.filter (mine t) (wait_list (header e)))) as Hin.
  { apply List.filter_In. split; [by apply list_elem_of_In|]. unfold mine. by rewrite Hs, Ht, Z.eqb_refl. }
  destruct (List.filter _ _); [done|]. cbn in E. lia.
Qed.

Section parked.
Context (s : Sys) (t : Z) (c : Call) (wake : Z).
Hypothesis Hs : sys_ok s.
Hypothesis Ht : pcs s !! t = Some (PcParked c wake).

Lemma parked_distinct id e : lookup_object id (ke s) = Some e -> NoDup (wb_thread <$> wait_list (header e)).
Proof. intros E. by destruct (ok_objects _ Hs id e E) as [_ [[? _] _]]. Qed.

Lemma parked_grants id e w : lookup_object id (ke s) = Some e -> block_of t e = Some w -> grants c (wb_key w) id = true.
Proof.
  intros E [Hw Hwt]%block_of_some. destruct (ok_objects _ Hs id e E) as [_ [[_ Hb] _]]. destruct (Hb w Hw) as (c' & wk & Hi & Hg).
  rewrite Hwt, Ht in Hi. destruct Hi as [Hi|Hi]; [done|]. by injection Hi as <- <-.
Qed.

Lemma grants_inj n i j : grants c n i = true -> grants c n j = true -> i = j.
Proof.
  destruct (ok_pcs _ Hs t _ Ht) as (_ & _ & Hc). destruct c as [x|ids|ids]; cbn [grants]; [rewrite !Z.eqb_eq; congruence| |done].
  rewrite !bool_decide_eq_true. congruence.
Qed.

Lemma parked_outside id e : lookup_object id (ke s) = Some e -> id ∉ call_ids c -> no_block t e.
Proof.
  intros E Hin w Hw Ew. pose proof (block_of_unique t e w (parked_distinct _ _ E) Hw Ew) as Hb. pose proof (parked_grants id e w E Hb) as Hg. apply Hin.
  destruct (ok_pcs _ Hs t _ Ht) as (_ & _ & Hc). destruct c as [i|ids|ids]; cbn [grants call_ids] in *; [|apply bool_decide_eq_true in Hg; by apply list_elem_of_lookup_2 in Hg|done].
  apply Z.eqb_eq in Hg as ->. by apply list_elem_of_singleton.
Qed.

(** The wait ends; what its result counts for was counted by a block. *)
Lemma finish_return r k' :
  stripped t (call_ids c) (ke s) k' ->
  (forall id e, lookup_object id (ke s) = Some e -> gain t id (OReturn t c r) <= tally (mine t) (wait_list (header e))) ->
  (forall id, lookup_object id (ke s) = None -> gain t id (OReturn t c r) = 0) -> sys_ok (returns t c r (with_ke k' s)).
Proof.
  intros (A1 & A2 & A3) Hg Hz.
  assert (forall id x, x <> t -> gain x id (OReturn t c r) = 0) as Hx.
  { intros id x Hne. cbn. destruct r; try done. by rewrite (proj2 (Z.eqb_neq t x)) by congruence. }
  apply (sys_ok_intro s); [done|done|done| | |].
  - intros x p Hp. cbn [pcs returns] in Hp. apply lookup_delete_Some in Hp as [_ Hp]. by apply (ok_pcs _ Hs x).
  - intros id e'. cbn [ke with_ke returns pcs log]. rewrite A3. intros E'. assert (exists e, lookup_object id (ke s) = Some e /\ e' = strip t e) as (e & E & ->).
    { destruct (decide (id ∈ call_ids c)) as [Hin|Hin].
      - destruct (lookup_object id (ke s)) as [e|]; [|done]. injection E' as <-. by exists e.
      - exists e'. split; [done|]. symmetry. apply strip_none. by apply (parked_outside id). }
    exists e. split; [done|]. intros Hok. apply strip_ok; [done|by apply (Hg id)].
  - intros id E. specialize (Hz id E). split_and!; [intros x|..]; cbn [log returns].
    + rewrite held_cons. destruct (decide (x = t)) as [->|Hne]; [by rewrite Hz|by rewrite Hx].
    + by rewrite served_cons, (serve_gain t), Hz.
    + done.
    + done.
Qed.

Lemma outcome_gain r r' id :
  outcome t (call_ids c) (ke s) r -> (forall n, r = Satisfied n -> exists n', r' = Satisfied n' /\ forall i, grants c n' i = grants c n i) ->
  (r = Timeout -> r' = Timeout) ->
  match lookup_object id (ke s) with
  | Some e => gain t id (OReturn t c r') <= tally (mine t) (wait_list (header e))
  | None => gain t id (OReturn t c r') = 0
  end.
Proof.
  intros [[-> _]|(i & e & w & I1 & I2 & I3 & I4 & ->)] Hr Hr0.
  - rewrite Hr0 by done. destruct (lookup_object id (ke s)); [apply ke_tally_nonneg|done].
  - destruct (Hr _ eq_refl) as (n' & -> & Hn). cbn [gain]. rewrite Z.eqb_refl, Hn. cbn [andb].
    destruct (grants c (wb_key w) id) eqn:Hg; cbn [Z.b2z]; [|destruct (lookup_object id (ke s)); [apply ke_tally_nonneg|done]].
    rewrite (grants_inj _ id i Hg (parked_grants i e w I2 I3)), I2. by apply (block_tally t e w).
Qed.

Lemma finish_ok : sys_ok (finish t c s).
Proof.
  destruct (ok_pcs _ Hs t _ Ht) as (Hn & Hl & Hc). cbn [pc_ids] in Hn, Hl.
  pose proof (finish_any_spec t (call_ids c) (ke s) (ok_live _ Hs) Hn parked_distinct) as Hf.
  assert (forall r' , (forall n, fst (finish_any t (call_ids c) (ke s)) = Satisfied n -> exists n', r' = Satisfied n' /\ forall i, grants c n' i = grants c n i) ->
    (fst (finish_any t (call_ids c) (ke s)) = Timeout -> r' = Timeout) -> sys_ok (returns t c r' (with_ke (snd (finish_any t (call_ids c) (ke s))) s))) as Hgo.
  { intros r' H1 H2. destruct (finish_any t (call_ids c) (ke s)) as [r k']. destruct Hf as [F1 F2]. cbn [fst snd] in *.
    pose proof (fun id => outcome_gain r r' id F2 H1 H2) as Hg. apply finish_return; [done| |]; intros id; specialize (Hg id).
    - intros e E. by rewrite E in Hg.
    - intros E. by rewrite E in Hg. }
  unfold finish. destruct c as [id|ids|ids]; [| |done]; cbn [call_ids] in *.
  - rewrite finish_single_any. apply Hgo.
    + intros n ->. by exists 0.
    + by intros ->.
  - destruct (finish_any t ids (ke s)) as [r k']. apply Hgo; [|done]. intros n Hr. exists n. split; [done|by intros i].
Qed.
End parked.

Lemma puts_threads id e l k : live k -> puts id e k (with_threads_ke l (put_object id e k)).
Proof. intros Hl. destruct (puts_put id e k Hl) as (A1 & A2 & A3). by split_and!. Qed.

Lemma puts_timers id e r k : live k -> puts id e k (with_timers r (put_object id e k)).
Proof. intros Hl. destruct (puts_put id e k Hl) as (A1 & A2 & A3). by split_and!. Qed.

Lemma sys_ok_refl s : sys_ok s -> sys_ok (with_ke (ke s) s).
Proof. intros Hs. apply sys_ok_same; [done|]. apply untouched_refl, Hs. Qed.

Lemma with_event_ok {R} id (f : KeEvent -> list Thread -> R * KeEvent * list Thread) s :
  sys_ok s -> (forall e l, object_ok (pcs s) (log s) id (EEvent e) -> object_ok (pcs s) (log s) id (EEvent (snd (fst (f e l))))) ->
  sys_ok (with_ke (snd (with_event id f (ke s))) s).
Proof.
  intros Hs Hf. unfold with_event. destruct (lookup_object id (ke s)) as [[e| | |]|] eqn:E; try (by apply sys_ok_refl).
  specialize (Hf e (threads (ke s))). destruct (f e (threads (ke s))) as [[r e'] l]. cbn [snd fst] in *.
  apply (sys_ok_put s id (EEvent e) (EEvent e')); [done|done| |done]. apply puts_threads, Hs.
Qed.

Lemma with_timer_ok {R} id (f : KeTimer -> Timers -> R * KeTimer * Timers) s :
  sys_ok s -> (forall t r, wait_list (ti_header (snd (fst (f t r)))) = wait_list (ti_header t)) ->
  sys_ok (with_ke (snd (with_timer id f (ke s))) s).
Proof.
  intros Hs Hf. unfold with_timer. destruct (lookup_object id (ke s)) as [[| | |t]|] eqn:E; try (by apply sys_ok_refl).
  specialize (Hf t (timers (ke s))). destruct (f t (timers (ke s))) as [[r t'] l]. cbn [snd fst] in *.
  apply (sys_ok_put s id (ETimer t) (ETimer t')); [done|done|apply puts_timers, Hs|]. intros [Hb _]. split; [|done]. cbn [header] in *. by rewrite Hf.
Qed.

Lemma acquires_ok t id s : sys_ok s -> Z.of_nat (length (log s)) + 2 < 2 ^ 32 -> sys_ok (acquires t id s).
Proof.
  intros Hs Hlen. unfold acquires, with_mutant. destruct (lookup_object id (ke s)) as [[|m| |]|] eqn:E; try (by apply sys_ok_refl).
  pose proof (acquire_mutant_ok (pcs s) (log s) id Hlen m t (proj2 (ok_objects _ Hs id _ E))) as Ha. destruct (acquire_mutant m t) as [ok m'].
  pose proof (puts_threads id (EMutant m') (threads (ke s)) (ke s) (ok_live _ Hs)) as Hp. destruct ok.
  - rewrite bool_decide_true by done. apply (sys_ok_observe s id (EMutant m) (EMutant m')); [done|done|done|done|].
    intros i Hi. split_and!; [|done|done|done]. intros x. rewrite held_cons. cbn [gain]. by rewrite (proj2 (Z.eqb_neq id i)), andb_false_r by done.
  - rewrite bool_decide_false by done. subst m'. by apply (sys_ok_put s id (EMutant m) (EMutant m)).
Qed.

Lemma releases_ok t id s : sys_ok s -> Z.of_nat (length (log s)) + 2 < 2 ^ 32 -> sys_ok (releases t id s).
Proof.
  intros Hs Hlen. unfold releases, with_mutant. destruct (lookup_object id (ke s)) as [[|m| |]|] eqn:E; try (by apply sys_ok_refl).
  pose proof (release_mutant_ok (pcs s) (log s) id Hlen m t (threads (ke s)) (proj2 (ok_objects _ Hs id _ E))) as Ha.
  destruct (release_mutant m t (threads (ke s))) as [[ok m'] l]. pose proof (puts_threads id (EMutant m') l (ke s) (ok_live _ Hs)) as Hp. destruct ok.
  - rewrite bool_decide_true by done. apply (sys_ok_observe s id (EMutant m) (EMutant m')); [done|done|done|done|].
    intros i Hi. split_and!; [|done|done|done]. intros x. rewrite held_cons. cbn [gain]. by rewrite (proj2 (Z.eqb_neq id i)), andb_false_r by done.
  - rewrite bool_decide_false by done. subst m'. by apply (sys_ok_put s id (EMutant m) (EMutant m)).
Qed.

Lemma supplies_ok id n s : sys_ok s -> is_i32 n -> sys_ok (supplies id n s).
Proof.
  intros Hs Hn. unfold supplies, with_semaphore. destruct (lookup_object id (ke s)) as [[| |x|]|] eqn:E; try (by apply sys_ok_refl).
  pose proof (release_semaphore_ok (pcs s) (log s) id x n (threads (ke s)) (proj2 (ok_objects _ Hs id _ E)) Hn) as Ha.
  destruct (release_semaphore x n (threads (ke s))) as [[prev x'] l]. pose proof (puts_threads id (ESemaphore x') l (ke s) (ok_live _ Hs)) as Hp.
  destruct (prev =? -1); [by apply (sys_ok_put s id (ESemaphore x) (ESemaphore x'))|]. apply (sys_ok_observe s id (ESemaphore x) (ESemaphore x')); [done|done|done|done|].
  intros i Hi. apply Z.eqb_neq in Hi. rewrite Z.eqb_sym in Hi. split_and!; [done|done|rewrite supplied_cons|]; cbn [supply well_used forallb sound]; by rewrite Hi.
Qed.

(** Timers: the object found last looks like the one before, its blocks
    satisfied. *)
Lemma signal_timer_ok tid s : sys_ok s -> sys_ok (with_ke (signal_timer_in_registry tid (ke s)) s).
Proof.
  intros Hs. unfold signal_timer_in_registry. destruct (DISPATCHER_REGISTRY (ke s)) as [m|] eqn:Em; [|by apply sys_ok_refl].
  destruct (List.find _ _) as [id|]; [|by apply sys_ok_refl]. destruct (m !! id) as [[| | |t]|] eqn:Et; try (by apply sys_ok_refl).
  assert (lookup_object id (ke s) = Some (ETimer t)) as E by (unfold lookup_object; by rewrite Em).
  unfold fire_timer. apply (sys_ok_put s id (ETimer t) (ETimer (mkTimer (satisfy_all (set_signal 1 (ti_header t))) (timer_id t) (ti_active t))));
    [done|done|apply puts_threads, Hs|]. intros [Hb _]. split; [|done]. apply (same_blocks_ok _ id (wait_list (ti_header t))); [apply same_satisfy_all|done].
Qed.

Lemma check_timers_ok time s : sys_ok s -> sys_ok (with_ke (check_timers time (ke s)) s).
Proof.
  intros Hs. unfold check_timers. destruct (scan_timers time (timers (ke s))) as [r fire].
  assert (sys_ok (with_ke (with_timers r (ke s)) s)) as H0 by (apply sys_ok_same; [done|]; apply untouched_rest; [apply Hs|done|done]).
  revert H0. generalize (with_timers r (ke s)). induction fire as [|[[id routine] context] fire IH]; intros k Hk; cbn [fold_left]; [done|]. apply IH.
  pose proof (signal_timer_ok id (with_ke k s) Hk) as H1. cbn [ke with_ke] in H1. destruct routine as [f|]; [|done].
  apply (sys_ok_same _ (with_dpcs (queue_dpc (mkDpc f context DpcMedium false) (DPC_QUEUE (signal_timer_in_registry id k))) (signal_timer_in_registry id k)) H1).
  apply untouched_rest; [apply H1|done|done].
Qed.

(** A new object under a number that nobody has seen. *)
Lemma create_ok s e (o : list Obs) :
  sys_ok s -> NEXT_DISPATCHER_ID (ke s) < U64_MAX -> wait_list (header e) = [] ->
  (forall i, i <> NEXT_DISPATCHER_ID (ke s) -> quiet i (log s) (o ++ log s)) ->
  match e with
  | EMutant m => mutant_ok (o ++ log s) (NEXT_DISPATCHER_ID (ke s)) m
  | ESemaphore x => semaphore_ok (o ++ log s) (NEXT_DISPATCHER_ID (ke s)) x
  | _ => True
  end -> sys_ok (mkSys (snd (create_object e (ke s))) (now s) (pcs s) (o ++ log s)).
Proof.
  intros Hs Hn Hw Hq Hk. set (id := NEXT_DISPATCHER_ID (ke s)) in *. pose proof (ok_next _ Hs) as H0.
  assert (NEXT_DISPATCHER_ID (snd (create_object e (ke s))) = id + 1) as En by (cbn; apply add64_small; fold id; unfold U64_MAX in *; lia).
  assert (live (snd (create_object e (ke s))) /\ forall i, lookup_object i (snd (create_object e (ke s))) = if decide (i = id) then Some e else lookup_object i (ke s)) as [Hl Hlk].
  { split; [by apply live_put, Hs|]. intros i. unfold create_object. cbn [snd]. rewrite lookup_put; [done|apply Hs]. }
  split; cbn [ke pcs log]; rewrite ?En; [done|fold id in H0; lia| | |apply Hs].
  - intros i e1. rewrite Hlk. destruct (decide (i = id)) as [->|Hne].
    + intros [= <-]. split; [lia|]. split; [|done]. rewrite Hw. split; [constructor|by intros w ?%elem_of_nil].
    + intros E. destruct (ok_objects _ Hs i e1 E) as [A B]. split; [fold id in A; lia|]. destruct (Hq i Hne) as (Q1 & Q2 & Q3).
      apply (object_frame (pcs s) _ (log s)); [done|done|intros; by rewrite Q1|by rewrite Q2|by rewrite (proj1 Q3), (proj2 Q3)|rewrite length_app; lia].
  - intros i Hi. destruct (Hq i ltac:(lia)) as (Q1 & Q2 & Q3). destruct (ok_fresh _ Hs i) as (F1 & F2 & F3); [fold id; lia|].
    split_and!; [intros t; by rewrite Q1|by rewrite Q2|by rewrite (proj1 Q3)].
Qed.

Lemma destroy_ok id s : sys_ok s -> sys_ok (with_ke (destroy_object id (ke s)) s).
Proof.
  intros Hs. apply (sys_ok_intro s); [done| |done|apply Hs| |intros; apply quiet_refl].
  - destruct (ok_live _ Hs) as [m Em]. unfold live. cbn. rewrite Em. by eexists.
  - intros i e1. cbn [ke with_ke pcs log]. rewrite lookup_destroy. destruct (decide (i = id)); [done|]. by eauto.
Qed.

Lemma park_ok t c wake s :
  sys_ok s -> pcs s !! t = Some (PcQueued c wake) -> sys_ok (at_pc t (PcParked c wake) (with_ke (park t wake (ke s)) s)).
Proof.
  intros Hs Ht. apply (sys_ok_intro s); [done|apply Hs|done| | |intros; apply quiet_refl].
  - intros x p. cbn [pcs at_pc with_ke]. destruct (decide (x = t)) as [->|Hne]; [|rewrite lookup_insert_ne by done; apply Hs].
    rewrite lookup_insert_eq. intros [= <-]. by apply (ok_pcs _ Hs t _ Ht).
  - intros i e1 E. exists e1. split; [done|]. intros Hok. apply (object_frame (pcs s) _ (log s)); [done| |done|done|done|done].
    intros w Hw (c' & wk & Hi & Hg). cbn [pcs at_pc with_ke]. destruct (decide (wb_thread w = t)) as [Ew|Hne].
    + rewrite Ew, Ht in Hi. exists c', wk. rewrite Ew, lookup_insert_eq. destruct Hi as [Hi|Hi]; [|done]. injection Hi as <- <-. by auto.
    + exists c', wk. by rewrite lookup_insert_ne.
Qed.

Lemma boot_ok l : sys_ok (sys_boot l).
Proof. split; [by eexists|cbn; lia| |intros id _; by split_and!|done]. intros id e He. pose proof (lookup_empty (M := gmap Z) (A := DispatcherEntry) id) as H0. discriminate (eq_trans (eq_sym H0) He). Qed.

Lemma ke_step_ok s s' : ke_step s s' -> Z.of_nat (length (log s)) + 2 < 2 ^ 32 -> sys_ok s -> sys_ok s'.
Proof.
  intros Hst Hlen Hs. destruct Hst as [t c timeout Ht Hn Hl|t c start timeout Ht|t c wake Ht|t c wake Ht _|t ids deadline Ht|id|id|id|t id _|t id _|id n Hn|id due per dpc|id| |et Hn|Hn|n lim Hn Hl Hl'|Hn|id|].
  - by apply call_ok.
  - by apply enqueue_ok.
  - by apply park_ok.
  - by apply (finish_ok s t c wake).
  - assert (idle s t /\ pc_ok (PcAll ids deadline)) as [Hi (P1 & P2 & _)].
    { unfold idle. destruct Ht as [Ht|[Ht _]]; rewrite Ht; (split; [done|]); by apply (ok_pcs _ Hs t _ Ht). }
    by apply recheck_ok.
  - apply with_event_ok; [done|]. intros e l He. by apply set_event_ok.
  - apply with_event_ok; [done|]. intros e l He. destruct e. eapply event_ok; [exact He|]. apply same_block_refl.
  - apply with_event_ok; [done|]. intros e l He. by apply pulse_event_ok.
  - by apply acquires_ok.
  - by apply releases_ok.
  - by apply supplies_ok.
  - apply with_timer_ok; [done|]. intros t r. unfold set_timer. by destruct dpc.
  - by apply with_timer_ok.
  - by apply check_timers_ok.
  - by apply (create_ok s (EEvent (new_event et)) []).
  - apply (create_ok s (EMutant new_mutant) []); [done|done|done|done|]. split; [done|]. split; [done|]. intros t. cbn [app].
    destruct (ok_fresh _ Hs _ (Z.le_refl _)) as (F1 & _). by rewrite F1.
  - apply (create_ok s (ESemaphore (new_semaphore n lim)) [OMake (NEXT_DISPATCHER_ID (ke s)) n lim]); [done|done|done| |].
    + intros i Hi. apply Z.eqb_neq in Hi. rewrite Z.eqb_sym in Hi. cbn [app]. split_and!; [done|done|rewrite supplied_cons|]; cbn [supply well_used forallb sound]; by rewrite Hi.
    + destruct (ok_fresh _ Hs _ (Z.le_refl _)) as (_ & F2 & F3). cbn [app]. split_and!; [done|done|]. cbn [well_used forallb sound]. rewrite Z.eqb_refl.
      intros [[U1%Z.leb_le U2%Z.leb_le]%andb_true_iff _]%andb_true_iff. split; [done|].
      rewrite served_cons, supplied_cons, F2, F3. cbn [serve supply new_semaphore se_header new_header signal_state wait_list]. rewrite Z.eqb_refl. unfold tally. cbn [List.filter length]. lia.
  - by apply (create_ok s (ETimer new_timer) []).
  - by apply destroy_ok.
  - apply (sys_ok_intro s); [done|apply Hs|done|apply Hs| |intros; apply quiet_refl]. intros i e1 E. by exists e1.
Qed.

Lemma log_grows s s' : ke_step s s' -> (length (log s) <= length (log s'))%nat.
Proof.
  destruct 1; cbn [log with_ke at_pc]; try lia; unfold call, enqueue, finish, recheck, acquires, releases, supplies;
    repeat (case_match || destruct (bool_decide _) || destruct (_ || _)); cbn; lia.
Qed.

Lemma reachable_ok l s : rtc ke_step (sys_boot l) s -> Z.of_nat (length (log s)) + 2 < 2 ^ 32 -> sys_ok s.
Proof.
  revert s. refine (rtc_ind_r (fun s => _ -> sys_ok s) (sys_boot l) _ _); [intros _; apply boot_ok|]. intros x y _ Hst IH Hlen.
  pose proof (log_grows _ _ Hst). apply (ke_step_ok x y Hst); [lia|]. apply IH. lia.
Qed.

(* ------------------------------------------------------------------ *)
(** ** What the results say *)

(** C20: mutual exclusion, from the callers' side: a thread that by the
    results of its waits, acquisitions and releases holds a mutant is the
    owner the mutant records, with a recursion count that covers its
    acquisitions; so of two threads at most one holds it, however waits,
    hand-overs, timeouts and the other operations interleave. The objects of
    one wait are distinct, identifiers do not run out, and fewer than 2^32 - 2
    results have been reported. *)
Theorem mutant_exclusion l s id m :
  rtc ke_step (sys_boot l) s -> Z.of_nat (length (log s)) + 2 < 2 ^ 32 -> lookup_object id (ke s) = Some (EMutant m) ->
  (forall t, 0 < held t id (log s) -> owner_thread m = Some t /\ held t id (log s) <= recursion_count m) /\
  (forall t t', 0 < held t id (log s) -> 0 < held t' id (log s) -> t = t').
Proof.
  intros Hr Hlen E. destruct (ok_objects _ (reachable_ok l s Hr Hlen) id _ E) as [_ [_ (K1 & K2 & K3)]].
  assert (forall t, 0 < held t id (log s) -> owner_thread m = Some t /\ held t id (log s) <= recursion_count m) as H1.
  { intros t Ht. specialize (K3 t). pose proof (ke_tally_nonneg (mine t) (wait_list (mu_header m))). case_bool_decide as Eo; [|lia]. split; [done|lia]. }
  split; [done|]. intros t t' Ht Ht'. destruct (H1 t Ht) as [E1 _], (H1 t' Ht') as [E2 _]. congruence.
Qed.

(** C33: a semaphore that was created with a count between zero and its limit,
    and each of whose accepted releases was of a number not negative with a
    sum within an i32, is never oversold: however the calls interleave, its
    count lies between zero and its limit, and the waits that succeeded on it,
    those granted to threads that have not returned yet and the units it still
    has are no more than what it was created with and released by. The code
    checks neither condition, so other counts and releases are steps of the
    runs too, and [well_used] of the log is a hypothesis
    ([semaphore_release_wraps] shows a sum that is not within an i32). The
    objects of one wait are distinct, identifiers do not run out, and fewer
    than 2^32 - 2 results have been reported. *)
Theorem semaphore_conserved l s id x :
  rtc ke_step (sys_boot l) s -> Z.of_nat (length (log s)) + 2 < 2 ^ 32 -> lookup_object id (ke s) = Some (ESemaphore x) ->
  well_used id (log s) = true ->
  0 <= signal_state (se_header x) <= limit x /\
  signal_state (se_header x) + tally satisfied (wait_list (se_header x)) + served id (log s) <= supplied id (log s).
Proof. intros Hr Hlen E U. destruct (ok_objects _ (reachable_ok l s Hr Hlen) id _ E) as [_ [_ (_ & _ & K)]]. by apply K. Qed.

(* ------------------------------------------------------------------ *)
(** ** A small run

    Two threads; thread 7 takes a mutant and a unit of a semaphore. *)

Definition demo_threads : list Thread := [mkThread 7 Running 0 8 true; mkThread 8 Running 0 8 true].
Definition demo_ke1 : Sys := let s := sys_boot demo_threads in with_ke (snd (create_mutant (ke s))) s.
Definition demo_ke2 : Sys := creates_semaphore 1 2 demo_ke1.
Definition demo_ke3 : Sys := call 7 (CSingle 1) None demo_ke2.
Definition demo_ke4 : Sys := call 7 (CAny [1; 2]) None demo_ke3.

Lemma demo_ke_run : rtc ke_step (sys_boot demo_threads) demo_ke4.
Proof.
  eapply rtc_l; [apply (StCreateMutant (sys_boot demo_threads)); vm_compute; reflexivity|].
  eapply rtc_l; [apply (StCreateSemaphore demo_ke1 1 2); [vm_compute; reflexivity|unfold is_i32; lia..]|].
  eapply rtc_l; [apply (StCall demo_ke2 7 (CSingle 1) None); [vm_compute; reflexivity|by apply list.NoDup_singleton|vm_compute; reflexivity]|].
  eapply rtc_l; [apply (StCall demo_ke3 7 (CAny [1; 2]) None); [vm_compute; reflexivity| |vm_compute; reflexivity]|apply rtc_refl].
  apply list.NoDup_cons. split; [by intros ?%list_elem_of_singleton|by apply list.NoDup_singleton].
Qed.

Lemma mutant_exclusion_witness :
  exists m, lookup_object 1 (ke demo_ke4) = Some (EMutant m) /\ owner_thread m = Some 7 /\ forall t, 0 < held t 1 (log demo_ke4) -> t = 7.
Proof.
  assert (exists m, lookup_object 1 (ke demo_ke4) = Some (EMutant m)) as [m E] by (eexists; vm_compute; reflexivity). exists m.
  assert (0 < held 7 1 (log demo_ke4)) as H7 by (vm_compute; reflexivity).
  destruct (mutant_exclusion demo_threads demo_ke4 1 m demo_ke_run ltac:(vm_compute; reflexivity) E) as [W1 W2].
  split; [exact E|]. split; [apply (W1 7 H7)|]. intros t Ht. apply (W2 t 7 Ht H7).
Defined.

Lemma semaphore_conserved_witness : exists x, lookup_object 2 (ke demo_ke4) = Some (ESemaphore x) /\ signal_state (se_header x) = 0.
Proof.
  assert (exists x, lookup_object 2 (ke demo_ke4) = Some (ESemaphore x)) as [x E] by (eexists; vm_compute; reflexivity). exists x. split; [exact E|].
  destruct (semaphore_conserved demo_threads demo_ke4 2 x demo_ke_run ltac:(vm_compute; reflexivity) E ltac:(vm_compute; reflexivity)) as [[W0 _] W].
  assert (served 2 (log demo_ke4) = 1) as Es by (vm_compute; reflexivity). assert (supplied 2 (log demo_ke4) = 1) as Ep by (vm_compute; reflexivity).
  pose proof (ke_tally_nonneg satisfied (wait_list (se_header x))). lia.
Defined.

(** A wait for any of two objects that are both signalled before the thread
    runs uses a unit of each and reports one. *)
Definition both : Sys :=
  let s := creates_semaphore 0 2 (creates_semaphore 0 2 (sys_boot demo_threads)) in
  let s := enqueue 7 (CAny [1; 2]) 0 None (call 7 (CAny [1; 2]) None s) in
  let s := at_pc 7 (PcParked (CAny [1; 2]) U64_MAX) (with_ke (park 7 U64_MAX (ke s)) s) in
  supplies 2 1 (supplies 1 1 s).

Lemma wait_any_swallows :
  log (finish 7 (CAny [1; 2]) both) = OReturn 7 (CAny [1; 2]) (Satisfied 0) :: log both /\
  read_signal_state 2 (ke (finish 7 (CAny [1; 2]) both)) = Some 0 /\ supplied 2 (log both) = 1.
Proof. vm_compute. by split_and!. Qed.

(** The sum of a release is computed before it is compared with the limit,
    and wraps. *)
Lemma semaphore_release_wraps :
  release_semaphore (new_semaphore 1 0x7fffffff) 0x7fffffff [] = (1, mkSemaphore (new_header OtSemaphore (- 2 ^ 31)) 0x7fffffff, []).
Proof. reflexivity. Qed.

(** A thread that owns a mutant and waits for any of several objects with it
    is not let in again, unlike one that waits for the mutant alone. *)
Lemma multiple_wait_not_recursive :
  fst (try_satisfy_single 7 1 (ke demo_ke3)) = Some (Satisfied 0) /\ fst (try_satisfy_multiple 7 [1] WaitAny (ke demo_ke3)) = None.
Proof. vm_compute. by split. Qed.
