(* ===== verification/DispatcherWake.v ===== *)
(** * When a wake-up of the dispatcher can be lost

    A wait polls, enters its blocks and parks in three separate steps. Here:
    as long as no object of a call is signalled between its poll and its
    blocks going in, and none of the blocks is satisfied between that and
    the park, no thread in a single wait or WaitAny sleeps on a signalled
    object; and two runs that show why both conditions are needed. *)

From S2P Require Import Prelude WaitList Dispatcher DispatcherRun.

(** The two windows in which a signal goes unnoticed. *)
Definition timely (s s' : Sys) : Prop :=
  (forall t c start timeout wake, pcs s !! t = Some (PcPolled c start timeout) -> pcs s' !! t = Some (PcQueued c wake) ->
     forall id e, id ∈ call_ids c -> lookup_object id (ke s) = Some e -> is_signaled (header e) = false) /\
  (forall t c wake, pcs s !! t = Some (PcQueued c wake) -> pcs s' !! t = Some (PcParked c wake) ->
     forall id e w, lookup_object id (ke s) = Some e -> block_of t e = Some w -> satisfied w = false).

Definition prompt_step (s s' : Sys) : Prop := ke_step s s' /\ timely s s'.

(** A signalled object has no waiter left to serve. *)
Definition settled (e : DispatcherEntry) : Prop := is_signaled (header e) = true -> forall w, w ∈ wait_list (header e) -> satisfied w = true.

Definition waiting (s : Sys) (t : Z) (c : Call) : Prop := exists wake, pcs s !! t = Some (PcQueued c wake) \/ pcs s !! t = Some (PcParked c wake).

Record tidy (s : Sys) : Prop := {
  td_settled id e : lookup_object id (ke s) = Some e -> settled e;
  td_blocks t c id : waiting s t c -> id ∈ call_ids c -> id < NEXT_DISPATCHER_ID (ke s) /\
    forall e, lookup_object id (ke s) = Some e -> t ∈ wb_thread <$> wait_list (header e);
  td_awake t c wake id e w : pcs s !! t = Some (PcParked c wake) -> lookup_object id (ke s) = Some e ->
    block_of t e = Some w -> satisfied w = true -> ~ blocked t (ke s) }.

(* ------------------------------------------------------------------ *)
(** ** Waking *)

Definition blocked_in (t : Z) (l : list Thread) : Prop := exists th, find_thread t l = Some th /\ state th = Blocked.

Lemma find_update t x f l :
  (forall th, tid (f th) = tid th) -> find_thread t (update_thread x f l) = if t =? x then f <$> find_thread t l else find_thread t l.
Proof.
  intros Hf. unfold find_thread, update_thread. induction l as [|th l IH]; cbn [List.find update_first]; [by destruct (t =? x)|].
  destruct (Z.eqb_spec (tid th) x) as [Ex|Ex]; cbn [List.find].
  - rewrite Hf, Ex. destruct (Z.eqb_spec x t) as [->|Hne]; [by rewrite Z.eqb_refl|]. by rewrite (proj2 (Z.eqb_neq t x)) by congruence.
  - destruct (Z.eqb_spec (tid th) t) as [Et|Et]; [|done]. by rewrite (proj2 (Z.eqb_neq t x)) by congruence.
Qed.

Lemma wake_waiter_spec l w t :
  (blocked_in t (wake_waiter l w) -> blocked_in t l) /\ ~ blocked_in (wb_thread w) (wake_waiter l w).
Proof.
  unfold wake_waiter, blocked_in. destruct (find_thread (wb_thread w) l) as [th|] eqn:E.
  - case_bool_decide as Eb.
    + rewrite !find_update by done. split.
      * destruct (Z.eqb_spec t (wb_thread w)) as [->|Hne]; [|done]. rewrite E. by intros (x & [= <-] & ?).
      * rewrite Z.eqb_refl, E. by intros (x & [= <-] & ?).
    + split; [done|]. rewrite E. intros (x & [= <-] & ?). done.
  - split; [done|]. rewrite E. by intros (x & ? & _).
Qed.

Lemma ke_wake_fold ws : forall l t,
  (blocked_in t (fold_left wake_waiter ws l) -> blocked_in t l) /\
  (forall w, w ∈ ws -> ~ blocked_in (wb_thread w) (fold_left wake_waiter ws l)).
Proof.
  induction ws as [|x ws IH]; intros l t; cbn [fold_left]; [split; [done|by intros w ?%elem_of_nil]|]. split.
  - intros Hb. apply (wake_waiter_spec l x t). by apply IH.
  - intros w [->|Hw]%elem_of_cons; [|by apply IH]. intros Hb.
    exact (proj2 (wake_waiter_spec l x 0) (proj1 (IH (wake_waiter l x) (wb_thread x)) Hb)).
Qed.

Lemma wake_blocked_spec h l t :
  (blocked_in t (wake_blocked_waiters h l) -> blocked_in t l) /\
  (forall w, w ∈ wait_list h -> satisfied w = true -> ~ blocked_in (wb_thread w) (wake_blocked_waiters h l)).
Proof.
  unfold wake_blocked_waiters. destruct (ke_wake_fold (List.filter satisfied (wait_list h)) l t) as [A B]. split; [done|]. intros w Hw Hs. apply B.
  apply list_elem_of_In, List.filter_In. split; [by apply list_elem_of_In|done].
Qed.

Lemma due_wake_blocked time l t : blocked_in t (due_wake_scan time l) -> blocked_in t l.
Proof.
  unfold blocked_in, due_wake_scan, find_thread. induction l as [|th l IH]; cbn [map List.find]; [done|].
  assert (tid (due_wake time th) = tid th) as -> by (unfold due_wake; repeat case_match; done).
  destruct (tid th =? t); [|done]. intros (x & [= <-] & Hb). exists th. split; [done|]. revert Hb. unfold due_wake. repeat case_match; done.
Qed.

Lemma park_blocked x wake k t : t <> x -> blocked t (park x wake k) <-> blocked t k.
Proof. intros Hne. unfold blocked, park. cbn [threads with_threads_ke]. rewrite find_update by done. by rewrite (proj2 (Z.eqb_neq t x)). Qed.

(* ------------------------------------------------------------------ *)
(** ** What a step does to the objects *)

Definition members (e : DispatcherEntry) : list Z := wb_thread <$> wait_list (header e).

Lemma tidy_intro s s' :
  tidy s -> NEXT_DISPATCHER_ID (ke s) <= NEXT_DISPATCHER_ID (ke s') ->
  (forall id e', lookup_object id (ke s') = Some e' ->
     (NEXT_DISPATCHER_ID (ke s) <= id /\ wait_list (header e') = []) \/
     exists e, lookup_object id (ke s) = Some e /\ (settled e -> settled e') /\
       (forall t c, waiting s' t c -> t ∈ members e -> t ∈ members e') /\
       (forall t c wake w', pcs s' !! t = Some (PcParked c wake) -> blocked t (ke s') -> block_of t e' = Some w' -> satisfied w' = true ->
          exists w, pcs s !! t = Some (PcParked c wake) /\ blocked t (ke s) /\ block_of t e = Some w /\ satisfied w = true)) ->
  (forall t c, waiting s' t c -> waiting s t c \/
     forall id, id ∈ call_ids c -> id < NEXT_DISPATCHER_ID (ke s') /\ forall e', lookup_object id (ke s') = Some e' -> t ∈ members e') ->
  tidy s'.
Proof.
  intros [T1 T2 T3] Hn Ho Hw. split.
  - intros id e' E'. destruct (Ho id e' E') as [[_ Hnil]|(e & E & Hs & _)]; [intros _ w; rewrite Hnil; by intros ?%elem_of_nil|]. by apply Hs, (T1 id).
  - intros t c id Hwt Hin. destruct (Hw t c Hwt) as [Hold|Hnew]; [|by apply Hnew]. destruct (T2 t c id Hold Hin) as [A B]. split; [lia|].
    intros e' E'. destruct (Ho id e' E') as [[? _]|(e & E & _ & Hm & _)]; [lia|]. apply (Hm t c Hwt). by apply B.
  - intros t c wake id e' w' Hp E' Hb Hs Hbl. destruct (Ho id e' E') as [[_ Hnil]|(e & E & _ & _ & Ha)]; [unfold block_of in Hb; by rewrite Hnil in Hb|].
    destruct (Ha t c wake w' Hp Hbl Hb Hs) as (w & P & Bl & Bo & Sa). by apply (T3 t c wake id e w).
Qed.

Definition evolves (k' : Ke) (e e' : DispatcherEntry) : Prop :=
  Forall2 same_block (wait_list (header e)) (wait_list (header e')) /\ (settled e -> settled e') /\
  (wait_list (header e') = wait_list (header e) \/ forall w, w ∈ wait_list (header e') -> satisfied w = true -> ~ blocked (wb_thread w) k').

Lemma evolves_refl k e : evolves k e e.
Proof. split; [apply same_block_refl|]. split; [done|by left]. Qed.

Lemma tidy_evolve s s' :
  tidy s -> NEXT_DISPATCHER_ID (ke s') = NEXT_DISPATCHER_ID (ke s) -> (forall t c, waiting s' t c -> waiting s t c) ->
  (forall t c wake, pcs s' !! t = Some (PcParked c wake) -> pcs s !! t = Some (PcParked c wake) /\ (blocked t (ke s') -> blocked t (ke s))) ->
  (forall id e', lookup_object id (ke s') = Some e' -> exists e, lookup_object id (ke s) = Some e /\ evolves (ke s') e e') -> tidy s'.
Proof.
  intros Ht Hn Hw Hp Ho. apply (tidy_intro s); [done|lia| |by auto]. intros id e' E'. right. destruct (Ho id e' E') as (e & E & V1 & V2 & V3).
  exists e. split_and!; [done|done| |].
  - intros t c _. unfold members. by rewrite (same_threads _ _ V1).
  - intros t c wake w' P Bl Bo Sa. destruct (Hp t c wake P) as [P0 Bl0]. destruct V3 as [V3|V3].
    + exists w'. unfold block_of in *. rewrite V3 in Bo. by auto.
    + exfalso. destruct (block_of_some t e' w' Bo) as [Hin <-]. by apply (V3 w').
Qed.

Lemma settled_unsignaled e : is_signaled (header e) = false -> settled e.
Proof. intros Hn. unfold settled. by rewrite Hn. Qed.

Lemma settled_all e h : settled (with_header (satisfy_all h) e).
Proof. unfold settled. rewrite header_with. intros _ w. cbn. intros (x & <- & _)%list_elem_of_In%in_map_iff. done. Qed.

Lemma first_unsatisfied_none l : first_unsatisfied l = None -> forall w, w ∈ l -> satisfied w = true.
Proof.
  intros Hf w Hw. apply list_elem_of_In in Hw. pose proof (List.find_none _ _ Hf w Hw) as Hs. cbn in Hs. by apply negb_false_iff.
Qed.

Lemma satisfy_upto_all n : forall l k, k <= n -> let '(l', k') := satisfy_upto n k l in k' < n -> forall w, w ∈ l' -> satisfied w = true.
Proof.
  induction l as [|x l IH]; intros k Hk; cbn [satisfy_upto]; [by intros _ w ?%elem_of_nil|].
  pose proof (tally_satisfy_upto n l) as Ht. destruct (satisfied x) eqn:E; cbn [negb andb].
  - specialize (IH k Hk). destruct (satisfy_upto n k l) as [l' k']. intros Hlt w [->|Hw]%elem_of_cons; [done|by apply IH].
  - destruct (Z.ltb_spec k n) as [Hlt|Hge].
    + specialize (IH (k + 1) ltac:(lia)). destruct (satisfy_upto n (k + 1) l) as [l' k']. intros Hlt' w [->|Hw]%elem_of_cons; [done|by apply IH].
    + specialize (Ht k Hk). destruct (satisfy_upto n k l) as [l' k']. lia.
Qed.

Lemma tidy_put s id e e' k' L' :
  tidy s -> lookup_object id (ke s) = Some e -> puts id e' (ke s) k' -> (forall t, blocked t k' -> blocked t (ke s)) -> evolves k' e e' ->
  tidy (mkSys k' (now s) (pcs s) L').
Proof.
  intros Ht E (P1 & P2 & P3) Hb Hv. apply (tidy_evolve s); [done|done|done| |]; cbn [ke pcs].
  - intros t c wake P. split; [done|apply Hb].
  - intros i e1. rewrite P3. destruct (decide (i = id)) as [->|Hne]; [intros [= <-]; by exists e|]. intros E1. exists e1. split; [done|apply evolves_refl].
Qed.

(** Signalling: the blocks of one object are satisfied and their threads
    woken. *)
Lemma tidy_woken s id e e' L' :
  tidy s -> live (ke s) -> lookup_object id (ke s) = Some e ->
  Forall2 same_block (wait_list (header e)) (wait_list (header e')) -> (settled e -> settled e') ->
  tidy (mkSys (with_threads_ke (wake_blocked_waiters (header e') (threads (ke s))) (put_object id e' (ke s))) (now s) (pcs s) L').
Proof.
  intros Ht Hl E Hs Hse. apply (tidy_put s id e e'); [done|done|by apply puts_threads| |].
  - intros t. by apply wake_blocked_spec.
  - split; [done|]. split; [done|]. right. intros w Hw Sa. by apply (wake_blocked_spec (header e') (threads (ke s)) 0).
Qed.

Lemma tidy_kept s id e e' L' :
  tidy s -> live (ke s) -> lookup_object id (ke s) = Some e -> wait_list (header e') = wait_list (header e) -> (settled e -> settled e') ->
  tidy (mkSys (with_threads_ke (threads (ke s)) (put_object id e' (ke s))) (now s) (pcs s) L').
Proof.
  intros Ht Hl E Hw Hse. apply (tidy_put s id e e'); [done|done|by apply puts_threads|done|]. split; [rewrite Hw; apply same_block_refl|]. split; [done|by left].
Qed.

Lemma tidy_log s L' : tidy s -> tidy (mkSys (ke s) (now s) (pcs s) L').
Proof. by intros [A B C]. Qed.

Lemma set_tidy s id : tidy s -> live (ke s) -> tidy (with_ke (snd (with_event id set_event (ke s))) s).
Proof.
  intros Ht Hl. unfold with_event. destruct (lookup_object id (ke s)) as [[e| | |]|] eqn:E; try (by apply tidy_log).
  unfold set_event. cbn [snd fst]. set (h := match event_type e with NotificationEvent => _ | SynchronizationEvent => _ end).
  apply (tidy_woken s id (EEvent e) (EEvent (mkEvent h (event_type e))) (log s)); [done|done|done| |]; subst h; cbn [header ev_header].
  - destruct (event_type e); [apply same_satisfy_all|]. cbn [wait_list set_signal]. destruct (first_unsatisfied _); [apply same_satisfy_first|apply same_block_refl].
  - intros _. destruct (event_type e); [apply (settled_all (EEvent e))|]. cbn [wait_list set_signal].
    destruct (first_unsatisfied (wait_list (ev_header e))) eqn:Ef; [by apply settled_unsignaled|]. intros _. by apply first_unsatisfied_none.
Qed.

Lemma pulse_tidy s id : tidy s -> live (ke s) -> tidy (with_ke (snd (with_event id pulse_event (ke s))) s).
Proof.
  intros Ht Hl. unfold with_event. destruct (lookup_object id (ke s)) as [[e| | |]|] eqn:E; try (by apply tidy_log). unfold pulse_event. cbn [snd fst].
  apply (tidy_woken s id (EEvent e) (EEvent (mkEvent (set_signal 0 (satisfy_all (ev_header e))) (event_type e))) (log s)); [done|done|done|apply same_satisfy_all|].
  intros _. by apply settled_unsignaled.
Qed.

Lemma reset_tidy s id : tidy s -> live (ke s) -> tidy (with_ke (snd (with_event id (fun e l => (reset_event e, l)) (ke s))) s).
Proof.
  intros Ht Hl. unfold with_event. destruct (lookup_object id (ke s)) as [[e| | |]|] eqn:E; try (by apply tidy_log). cbn [snd fst reset_event].
  apply (tidy_kept s id (EEvent e) _ (log s)); [done|done|done|done|]. intros _. by apply settled_unsignaled.
Qed.

Lemma acquires_tidy s t id : tidy s -> live (ke s) -> tidy (acquires t id s).
Proof.
  intros Ht Hl. unfold acquires, with_mutant. destruct (lookup_object id (ke s)) as [[|m| |]|] eqn:E; try (by apply tidy_log).
  assert (forall m', (m' = m \/ m' = take_mutant t m \/ m' = enter_again m) -> forall L, tidy (mkSys (with_threads_ke (threads (ke s)) (put_object id (EMutant m') (ke s))) (now s) (pcs s) L)) as Hgo.
  { intros m' Hm L. apply (tidy_kept s id (EMutant m)); [done|done|done|by destruct Hm as [->|[->| ->]]|]. destruct Hm as [->|[->| ->]]; [done|intros _; by apply settled_unsignaled|done]. }
  unfold acquire_mutant. destruct (owner_thread m) as [o|]; [destruct (o =? t)|]; [rewrite bool_decide_true by done|rewrite bool_decide_false by done|rewrite bool_decide_true by done];
    apply Hgo; auto.
Qed.

Lemma releases_tidy s t id : tidy s -> live (ke s) -> tidy (releases t id s).
Proof.
  intros Ht Hl. unfold releases, with_mutant. destruct (lookup_object id (ke s)) as [[|m| |]|] eqn:E; try (by apply tidy_log).
  unfold release_mutant. destruct (owner_thread m) as [o|]; [destruct (o =? t)|].
  2,3: rewrite bool_decide_false by done; by apply (tidy_kept s id (EMutant m)).
  destruct (_ =? 0); rewrite bool_decide_true by done; [|by apply (tidy_kept s id (EMutant m))]. cbn [wait_list set_signal].
  destruct (first_unsatisfied (wait_list (mu_header m))) as [w|] eqn:Ef;
    match goal with |- context [put_object id (EMutant ?m') _] => apply (tidy_woken s id (EMutant m) (EMutant m') (ORelease t id :: log s) Ht Hl E) end.
  - apply same_satisfy_first.
  - intros _. by apply settled_unsignaled.
  - apply same_block_refl.
  - intros _ _. by apply first_unsatisfied_none.
Qed.

Lemma supplies_tidy s id n : tidy s -> live (ke s) -> tidy (supplies id n s).
Proof.
  intros Ht Hl. unfold supplies, with_semaphore. destruct (lookup_object id (ke s)) as [[| |x|]|] eqn:E; try (by apply tidy_log).
  assert (forall r x' l, release_semaphore x n (threads (ke s)) = (r, x', l) -> forall L, tidy (mkSys (with_threads_ke l (put_object id (ESemaphore x') (ke s))) (now s) (pcs s) L)) as Hgo.
  { intros r x' l Hr L. unfold release_semaphore in Hr. set (c := swrap32 _) in *. destruct (limit x <? c).
    { injection Hr as <- <- <-. by apply (tidy_kept s id (ESemaphore x)). }
    injection Hr as <- <- <-. apply (tidy_woken s id (ESemaphore x) (ESemaphore (mkSemaphore _ (limit x))) L); [done|done|done| |]; cbn [header se_header].
    - destruct (0 <? c); [|apply same_block_refl]. pose proof (same_satisfy_upto c (wait_list (se_header x)) 0) as Hs. cbn [wait_list set_signal].
      by destruct (satisfy_upto c 0 (wait_list (se_header x))).
    - intros _. destruct (Z.ltb_spec 0 c); [|apply settled_unsignaled; unfold is_signaled; cbn; apply Z.ltb_ge; lia].
      cbn [wait_list set_signal]. pose proof (satisfy_upto_all c (wait_list (se_header x)) 0 ltac:(lia)) as Hs. destruct (satisfy_upto c 0 (wait_list (se_header x))) as [l' k].
      unfold settled, is_signaled. cbn. intros Hlt%Z.ltb_lt. apply Hs. lia. }
  destruct (release_semaphore x n (threads (ke s))) as [[r x'] l] eqn:Er. destruct (r =? -1); by apply (Hgo r x' l).
Qed.

Lemma with_timer_tidy {R} s id (f : KeTimer -> Timers -> R * KeTimer * Timers) :
  tidy s -> live (ke s) ->
  (forall t r, wait_list (ti_header (snd (fst (f t r)))) = wait_list (ti_header t) /\
     (0 < signal_state (ti_header (snd (fst (f t r)))) -> 0 < signal_state (ti_header t))) ->
  tidy (with_ke (snd (with_timer id f (ke s))) s).
Proof.
  intros Ht Hl Hf. unfold with_timer. destruct (lookup_object id (ke s)) as [[| | |t]|] eqn:E; try (by apply tidy_log).
  destruct (Hf t (timers (ke s))) as [F1 F2]. destruct (f t (timers (ke s))) as [[r t'] l]. cbn [snd fst] in *.
  apply (tidy_put s id (ETimer t) (ETimer t') _ (log s)); [done|done|by apply puts_timers|done|]. split; [cbn; rewrite F1; apply same_block_refl|]. split; [|by left].
  unfold settled, is_signaled. cbn [header]. rewrite F1, !Z.ltb_lt. auto.
Qed.

Lemma signal_timer_tidy s tid : tidy s -> live (ke s) -> tidy (with_ke (signal_timer_in_registry tid (ke s)) s).
Proof.
  intros Ht Hl. unfold signal_timer_in_registry. destruct (DISPATCHER_REGISTRY (ke s)) as [m|] eqn:Em; [|by apply tidy_log].
  destruct (List.find _ _) as [id|]; [|by apply tidy_log]. destruct (m !! id) as [[| | |t]|] eqn:Et; try (by apply tidy_log).
  assert (lookup_object id (ke s) = Some (ETimer t)) as E by (unfold lookup_object; by rewrite Em).
  apply (tidy_woken s id (ETimer t) (ETimer (mkTimer (satisfy_all (set_signal 1 (ti_header t))) (timer_id t) (ti_active t))) (log s)); [done|done|done|apply same_satisfy_all|].
  intros _. apply (settled_all (ETimer t)).
Qed.

Lemma tidy_rest s k' : tidy s -> DISPATCHER_REGISTRY k' = DISPATCHER_REGISTRY (ke s) -> NEXT_DISPATCHER_ID k' = NEXT_DISPATCHER_ID (ke s) ->
  threads k' = threads (ke s) -> tidy (with_ke k' s).
Proof.
  intros [A B C] E1 E2 E3. assert (forall id, lookup_object id k' = lookup_object id (ke s)) as E by (intros id; unfold lookup_object; by rewrite E1).
  split; cbn [ke with_ke pcs].
  - intros id e. rewrite E. apply A.
  - intros t c id. rewrite E, E2. apply B.
  - intros t c wake id e w. rewrite E. unfold blocked. rewrite E3. apply C.
Qed.

Lemma live_signal_timer tid k : live k -> live (signal_timer_in_registry tid k).
Proof. intros Hl. unfold signal_timer_in_registry. repeat case_match; try done. unfold fire_timer in *. simplify_eq. by apply (live_put _ _ k). Qed.

Lemma check_timers_tidy s time : tidy s -> live (ke s) -> tidy (with_ke (check_timers time (ke s)) s).
Proof.
  intros Ht Hl. unfold check_timers. destruct (scan_timers time (timers (ke s))) as [r fire].
  assert (tidy (with_ke (with_timers r (ke s)) s) /\ live (with_timers r (ke s))) as H0 by (split; [by apply tidy_rest|done]).
  revert H0. generalize (with_timers r (ke s)). induction fire as [|[[id routine] context] fire IH]; intros k [Hk Hkl]; cbn [fold_left]; [done|]. apply IH.
  pose proof (signal_timer_tidy (with_ke k s) id Hk Hkl) as H1. pose proof (live_signal_timer id k Hkl) as H2. cbn [ke with_ke] in H1.
  destruct routine as [f|]; [|done]. split; [|done]. by apply (tidy_rest _ (with_dpcs (queue_dpc (mkDpc f context DpcMedium false) (DPC_QUEUE (signal_timer_in_registry id k))) (signal_timer_in_registry id k)) H1).
Qed.

Lemma create_tidy s e L' : sys_ok s -> tidy s -> NEXT_DISPATCHER_ID (ke s) < U64_MAX -> wait_list (header e) = [] ->
  tidy (mkSys (snd (create_object e (ke s))) (now s) (pcs s) L').
Proof.
  intros Hs Ht Hn Hw. pose proof (ok_next _ Hs) as H0.
  assert (NEXT_DISPATCHER_ID (snd (create_object e (ke s))) = NEXT_DISPATCHER_ID (ke s) + 1) as En by (cbn; apply add64_small; unfold U64_MAX in *; lia).
  assert (forall i, lookup_object i (snd (create_object e (ke s))) = if decide (i = NEXT_DISPATCHER_ID (ke s)) then Some e else lookup_object i (ke s)) as Hlk.
  { intros i. unfold create_object. cbn [snd]. rewrite lookup_put; [done|apply Hs]. }
  apply (tidy_intro s); [done|cbn [ke]; lia| |by auto]. intros id e'. cbn [ke pcs]. rewrite Hlk. destruct (decide (id = _)) as [->|Hne].
  - intros [= <-]. left. split; [lia|done].
  - intros E. right. exists e'. split_and!; [done|done|done|]. intros t c wake w' P Bl Bo Sa. by exists w'.
Qed.

Lemma destroy_tidy s id : tidy s -> tidy (with_ke (destroy_object id (ke s)) s).
Proof.
  intros Ht. apply (tidy_evolve s); [done|done|done|done|]. intros i e'. cbn [ke with_ke]. rewrite lookup_destroy. destruct (decide (i = id)); [done|].
  intros E. exists e'. split; [done|apply evolves_refl].
Qed.

(** A thread leaves its call, or moves on in it, without being queued. *)
Lemma tidy_moved s t k' (P' : gmap Z Pc) L' :
  tidy s -> NEXT_DISPATCHER_ID k' = NEXT_DISPATCHER_ID (ke s) -> (forall x, x <> t -> P' !! x = pcs s !! x) ->
  match P' !! t with Some (PcQueued _ _) | Some (PcParked _ _) => False | _ => True end ->
  (forall x, x <> t -> blocked x k' -> blocked x (ke s)) ->
  (forall id e', lookup_object id k' = Some e' -> exists e, lookup_object id (ke s) = Some e /\
     wait_list (header e') = wait_list (header e) /\ (settled e -> settled e')) -> tidy (mkSys k' (now s) P' L').
Proof.
  intros Ht Hn Hp Hm Hb Ho.
  assert (forall x c, (exists wake, P' !! x = Some (PcQueued c wake) \/ P' !! x = Some (PcParked c wake)) -> x <> t) as Hx.
  { intros x c (wake & Hq) ->. destruct Hq as [E|E]; by rewrite E in Hm. }
  apply (tidy_evolve s); [done|done| | |]; cbn [ke pcs].
  - intros x c (wake & Hq). exists wake. cbn [pcs] in Hq. rewrite <- (Hp x) by (apply (Hx x c); by exists wake). done.
  - intros x c wake E. assert (x <> t) as Hne by (apply (Hx x c); exists wake; by right). rewrite <- (Hp x) by done. split; [done|by apply Hb].
  - intros id e' E'. destruct (Ho id e' E') as (e & E & Ew & Es). exists e. split; [done|]. split; [rewrite Ew; apply same_block_refl|]. split; [done|by left].
Qed.

Lemma satisfy_object_kept t e : wait_list (header (snd (satisfy_object t e))) = wait_list (header e) /\ (settled e -> settled (snd (satisfy_object t e))).
Proof.
  destruct e as [ev|m|x|ti]; cbn [satisfy_object].
  - destruct (0 <? _); [|done]. destruct (event_type ev); [done|]. split; [done|]. intros _. by apply settled_unsignaled.
  - repeat case_match; done.
  - destruct (Z.ltb_spec 0 (signal_state (se_header x))); [|done]. split; [done|]. unfold settled, is_signaled. cbn. rewrite !Z.ltb_lt. intros Hs _. by apply Hs.
  - done.
Qed.

(** What a poll leaves behind. *)
Lemma poll_kept s t c :
  sys_ok s -> NoDup (call_ids c) -> Z.of_nat (length (call_ids c)) < 2 ^ 32 ->
  NEXT_DISPATCHER_ID (snd (poll t c (ke s))) = NEXT_DISPATCHER_ID (ke s) /\
  forall id e', lookup_object id (snd (poll t c (ke s))) = Some e' -> exists e, lookup_object id (ke s) = Some e /\
    wait_list (header e') = wait_list (header e) /\ (settled e -> settled e').
Proof.
  intros Hs Hn Hl. pose proof (poll_spec (pcs s) (log s) t c (ke s) (ok_live _ Hs) Hn Hl (fun id e E => proj2 (ok_objects _ Hs id e E))) as Hp.
  assert (forall k', untouched (ke s) k' -> NEXT_DISPATCHER_ID k' = NEXT_DISPATCHER_ID (ke s) /\
    forall id e', lookup_object id k' = Some e' -> exists e, lookup_object id (ke s) = Some e /\ wait_list (header e') = wait_list (header e) /\ (settled e -> settled e')) as Hu.
  { intros k' (U1 & U2 & U3). split; [done|]. intros id e'. rewrite U3. intros E. by exists e'. }
  destruct (poll t c (ke s)) as [[[n| | |]|] k']; cbn [snd]; try (by apply Hu).
  destruct Hp as (O1 & O2 & O3 & O4). split; [done|]. intros id e' E'. destruct (grants c n id) eqn:Eg.
  - destruct (O3 id Eg) as (e & E & _ & E1). rewrite E1 in E'. injection E' as <-. exists e. split; [done|]. apply satisfy_object_kept.
  - rewrite O4 in E' by done. by exists e'.
Qed.

Lemma poll_threads t c k : threads (snd (poll t c k)) = threads k.
Proof.
  assert (forall ids k, threads (fold_left (consume t) ids k) = threads k) as Hf.
  { induction ids as [|i ids IH]; intros k0; cbn [fold_left]; [done|]. rewrite IH. unfold consume. by destruct (lookup_object i k0). }
  assert (forall ids idx k, threads (snd (any_signaled t idx ids k)) = threads k) as Ha.
  { induction ids as [|i ids IH]; intros idx k0; cbn [any_signaled]; [done|]. destruct (lookup_object i k0); [|done]. by destruct (is_signaled _). }
  destruct c; cbn [poll]; unfold try_satisfy_single, try_satisfy_multiple.
  - destruct (lookup_object id k) as [e|]; [|done]. by destruct (satisfy_object t e).
  - destruct (DISPATCHER_REGISTRY k); [apply Ha|done].
  - destruct (DISPATCHER_REGISTRY k); [|done]. destruct (all_signaled ids k); [done|apply Hf].
Qed.

Lemma call_tidy t c timeout s :
  sys_ok s -> tidy s -> NoDup (call_ids c) -> Z.of_nat (length (call_ids c)) < 2 ^ 32 -> tidy (call t c timeout s).
Proof.
  intros Hs Ht Hn Hl. destruct (poll_kept s t c Hs Hn Hl) as [P1 P2]. pose proof (poll_threads t c (ke s)) as P3. unfold call.
  destruct (poll t c (ke s)) as [r k']. cbn [snd] in *. assert (forall x, blocked x k' -> blocked x (ke s)) as Hb by (intros x; unfold blocked; by rewrite P3).
  assert (forall L', tidy (mkSys k' (now s) (delete t (pcs s)) L')) as Hret.
  { intros L'. apply (tidy_moved s t); [done|done|intros x Hx; by apply lookup_delete_ne|by rewrite lookup_delete_eq|by auto|done]. }
  assert (forall p, match p with PcQueued _ _ | PcParked _ _ => False | _ => True end -> tidy (mkSys k' (now s) (<[t := p]> (pcs s)) (log s))) as Hat.
  { intros p Hp. apply (tidy_moved s t); [done|done|intros x Hx; by apply lookup_insert_ne|rewrite lookup_insert_eq; by destruct p|by auto|done]. }
  destruct r; [apply Hret|]. destruct (bool_decide _); [apply Hret|]. by destruct c; apply Hat.
Qed.

Lemma recheck_tidy t ids deadline s :
  sys_ok s -> tidy s -> NoDup ids -> Z.of_nat (length ids) < 2 ^ 32 -> tidy (recheck t ids deadline s).
Proof.
  intros Hs Ht Hn Hl. destruct (poll_kept s t (CAll ids) Hs Hn Hl) as [P1 P2]. pose proof (poll_threads t (CAll ids) (ke s)) as P3. unfold recheck. cbn [poll] in *.
  destruct (try_satisfy_multiple t ids WaitAll (ke s)) as [r k']. cbn [snd] in *. assert (forall x, blocked x k' -> blocked x (ke s)) as Hb by (intros x; unfold blocked; by rewrite P3).
  assert (forall L', tidy (mkSys k' (now s) (delete t (pcs s)) L')) as Hret.
  { intros L'. apply (tidy_moved s t); [done|done|intros x Hx; by apply lookup_delete_ne|by rewrite lookup_delete_eq|by auto|done]. }
  destruct r; [apply Hret|]. destruct (match deadline with Some _ => _ | None => _ end); [apply Hret|].
  apply (tidy_moved s t); [done|done|intros x Hx; by apply lookup_insert_ne|by rewrite lookup_insert_eq| |done].
  intros x Hx Hbl. apply Hb. exact (proj1 (park_blocked t _ k' x Hx) Hbl).
Qed.

Lemma block_of_add t e w : wb_thread w <> t -> block_of t (add_block w e) = block_of t e.
Proof.
  intros Hw. unfold block_of, add_block. rewrite header_with. cbn [wait_list set_waiters]. induction (wait_list (header e)) as [|x l IH]; cbn; [by rewrite (proj2 (Z.eqb_neq _ _))|].
  by destruct (wb_thread x =? t).
Qed.

Lemma block_of_strip x t e : x <> t -> block_of x (strip t e) = block_of x e.
Proof.
  intros Hx. unfold block_of, strip. rewrite header_with. cbn [wait_list set_waiters]. induction (wait_list (header e)) as [|w l IH]; cbn; [done|].
  destruct (Z.eqb_spec (wb_thread w) t) as [Et|Et]; cbn [negb List.find]; destruct (Z.eqb_spec (wb_thread w) x); congruence.
Qed.

Lemma strip_members t e x : x ∈ members (strip t e) <-> x ∈ members e /\ x <> t.
Proof.
  unfold members, strip. rewrite header_with. cbn [wait_list set_waiters]. rewrite !list_elem_of_fmap. split.
  - intros (w & -> & [Hw Hn]%list_elem_of_In%List.filter_In). apply negb_true_iff, Z.eqb_neq in Hn. split; [|done]. exists w. split; [done|by apply list_elem_of_In].
  - intros [(w & -> & Hw) Hn]. exists w. split; [done|]. apply list_elem_of_In, List.filter_In. split; [by apply list_elem_of_In|]. by apply negb_true_iff, Z.eqb_neq.
Qed.

Lemma enqueue_tidy t c start timeout s :
  sys_ok s -> tidy s -> pcs s !! t = Some (PcPolled c start timeout) -> timely s (enqueue t c start timeout s) -> tidy (enqueue t c start timeout s).
Proof.
  intros Hs Ht Hp [Hti _]. destruct (enqueue_cases t c start timeout s Hs Hp) as (k' & wake & [[E (A1 & A2 & A3 & A4 & A5)]|[-> [(U1 & U2 & U3) U4]]]).
  2:{ apply (tidy_moved s t); [done|done|intros x Hx; by apply lookup_delete_ne|by rewrite lookup_delete_eq|intros x _; unfold blocked; cbn; by rewrite U4|].
      cbn [ke with_ke]. intros id e'. rewrite U3. intros E. by exists e'. }
  rewrite E in *. assert (pcs (at_pc t (PcQueued c wake) (with_ke k' s)) !! t = Some (PcQueued c wake)) as Eq by apply lookup_insert_eq.
  specialize (Hti t c start timeout wake Hp Eq). apply (tidy_intro s); [done|cbn; lia| |]; cbn [ke with_ke at_pc].
  - intros id e' E'. right. destruct (decide (id ∈ call_ids c)) as [Hin|Hin].
    + destruct (A4 id Hin) as (e & w & Ee & Ee' & W1 & W2 & W3). rewrite Ee' in E'. injection E' as <-. exists e. split_and!; [done| | |].
      * intros _. apply settled_unsignaled. unfold add_block. rewrite header_with. apply (Hti id e Hin Ee).
      * intros x c' _ Hx. unfold members, add_block. rewrite header_with. cbn. rewrite fmap_app. apply elem_of_app. by left.
      * intros x c' wk w' Px Bl Bo Sa. cbn [pcs at_pc with_ke] in Px. destruct (decide (x = t)) as [->|Hne]; [by rewrite lookup_insert_eq in Px|].
        rewrite lookup_insert_ne in Px by done. rewrite block_of_add in Bo by congruence. exists w'. split_and!; [done| |done|done].
        unfold blocked in *. cbn in Bl. by rewrite A3 in Bl.
    + rewrite A5 in E' by done. exists e'. split_and!; [done|done|done|]. intros x c' wk w' Px Bl Bo Sa. cbn [pcs at_pc with_ke] in Px.
      destruct (decide (x = t)) as [->|Hne]; [by rewrite lookup_insert_eq in Px|]. rewrite lookup_insert_ne in Px by done. exists w'. split_and!; [done| |done|done].
      unfold blocked in *. cbn in Bl. by rewrite A3 in Bl.
  - intros x c' (wk & Hx). cbn [pcs at_pc with_ke] in Hx. destruct (decide (x = t)) as [->|Hne].
    + rewrite lookup_insert_eq in Hx. assert (c' = c) as -> by (destruct Hx as [Hx|Hx]; by simplify_eq). right. intros id Hin.
      destruct (A4 id Hin) as (e & w & Ee & Ee' & W1 & _). split; [rewrite A2; by apply (ok_objects _ Hs id e)|]. intros e'. rewrite Ee'. intros [= <-].
      unfold members, add_block. rewrite header_with. cbn. rewrite fmap_app. apply elem_of_app. right. apply list_elem_of_singleton. by rewrite W1.
    + left. exists wk. by rewrite lookup_insert_ne in Hx.
Qed.

Lemma park_tidy t c wake s :
  tidy s -> pcs s !! t = Some (PcQueued c wake) ->
  timely s (at_pc t (PcParked c wake) (with_ke (park t wake (ke s)) s)) -> tidy (at_pc t (PcParked c wake) (with_ke (park t wake (ke s)) s)).
Proof.
  intros Ht Hp [_ Hti]. specialize (Hti t c wake Hp (lookup_insert_eq _ _ _)). apply (tidy_intro s); [done|done| |]; cbn [ke with_ke at_pc].
  - intros id e' E. right. exists e'. split_and!; [done|done|done|]. intros x c' wk w' Px Bl Bo Sa. cbn [pcs at_pc with_ke] in Px.
    destruct (decide (x = t)) as [->|Hne]; [by rewrite (Hti id e' w' E Bo) in Sa|]. rewrite lookup_insert_ne in Px by done.
    exists w'. split_and!; [done| |done|done]. exact (proj1 (park_blocked t wake (ke s) x Hne) Bl).
  - intros x c' (wk & Hx). left. cbn [pcs at_pc with_ke] in Hx. destruct (decide (x = t)) as [->|Hne]; [|exists wk; by rewrite lookup_insert_ne in Hx].
    rewrite lookup_insert_eq in Hx. destruct Hx as [Hx|Hx]; [done|]. injection Hx as <- <-. exists wake. by left.
Qed.

Lemma finish_cases t c wake s :
  sys_ok s -> pcs s !! t = Some (PcParked c wake) ->
  exists r k', finish t c s = returns t c r (with_ke k' s) /\ stripped t (call_ids c) (ke s) k' /\ threads k' = threads (ke s) /\
    ((r = Timeout /\ forall id e w, id ∈ call_ids c -> lookup_object id (ke s) = Some e -> block_of t e = Some w -> satisfied w = false) \/
     exists n, r = Satisfied n).
Proof.
  intros Hs Ht. destruct (ok_pcs _ Hs t _ Ht) as (Hn & _ & Hc). cbn [pc_ids] in Hn.
  pose proof (finish_any_spec t (call_ids c) (ke s) (ok_live _ Hs) Hn (parked_distinct s Hs)) as Hf.
  assert (threads (snd (finish_any t (call_ids c) (ke s))) = threads (ke s)) as Hth.
  { unfold finish_any. generalize Timeout, (ke s), (call_ids c). intros r k ids. revert r k. induction ids as [|i ids IH]; intros r k; cbn [fold_left]; [done|].
    assert (exists r', finish_one t (r, k) i = (r', snd (remove_block t i k))) as [r' ->] by (unfold finish_one; destruct (remove_block t i k) as [[]]; by eexists).
    rewrite IH. unfold remove_block. destruct (lookup_object i k) as [e|]; [|done]. by destruct (take_block t (wait_list (header e))). }
  destruct (finish_any t (call_ids c) (ke s)) as [r k'] eqn:Ef. destruct Hf as [F1 F2]. cbn [snd] in Hth. unfold finish.
  destruct c as [id|ids|ids]; [| |done]; cbn [call_ids] in *.
  - rewrite finish_single_any, Ef. cbn [fst snd]. eexists _, k'. split; [done|]. split_and!; [done|done|].
    destruct F2 as [[-> F2]|(i & e & w & _ & _ & _ & _ & ->)]; [by left|right; by eexists].
  - rewrite Ef. exists r, k'. split_and!; [done|done|done|]. destruct F2 as [[-> F2]|(i & e & w & _ & _ & _ & _ & ->)]; [by left|right; by eexists].
Qed.

Lemma finish_tidy t c wake s : sys_ok s -> tidy s -> pcs s !! t = Some (PcParked c wake) -> tidy (finish t c s).
Proof.
  intros Hs Ht Hp. destruct (finish_cases t c wake s Hs Hp) as (r & k' & -> & (S1 & S2 & S3) & Hth & _).
  assert (forall x c', waiting (returns t c r (with_ke k' s)) x c' -> x <> t) as Hx.
  { intros x c' (wk & Hq) ->. cbn [pcs returns] in Hq. rewrite lookup_delete_eq in Hq. by destruct Hq. }
  apply (tidy_intro s); [done|cbn; lia| |]; cbn [ke returns with_ke].
  - intros id e' E'. right. rewrite S3 in E'. assert (exists e, lookup_object id (ke s) = Some e /\ e' = strip t e) as (e & E & ->).
    { destruct (decide (id ∈ call_ids c)) as [Hin|Hin]; [destruct (lookup_object id (ke s)) as [e|]; [|done]; injection E' as <-; by exists e|].
      exists e'. split; [done|]. symmetry. apply strip_none. by apply (parked_outside s t c wake Hs Hp id). }
    exists e. split_and!; [done| | |].
    + unfold settled, strip. rewrite header_with. cbn. intros Hse Hsig w [Hw _]%list_elem_of_In%List.filter_In. apply Hse; [done|by apply list_elem_of_In].
    + intros x c' Hw Hm. apply strip_members. split; [done|by apply (Hx x c')].
    + intros x c' wk w' Px Bl Bo Sa. assert (x <> t) as Hne by (apply (Hx x c'); exists wk; by right). rewrite block_of_strip in Bo by done.
      cbn [pcs returns] in Px. rewrite lookup_delete_ne in Px by done. exists w'. split_and!; [done| |done|done]. unfold blocked in *. cbn in Bl. by rewrite Hth in Bl.
  - intros x c' Hw. left. pose proof (Hx x c' Hw) as Hne. destruct Hw as (wk & Hq). exists wk. cbn [pcs returns] in Hq. by rewrite lookup_delete_ne in Hq.
Qed.

Lemma boot_tidy l : tidy (sys_boot l).
Proof.
  assert (forall id e, lookup_object id (ke (sys_boot l)) = Some e -> False) as He.
  { intros id e He. pose proof (lookup_empty (M := gmap Z) (A := DispatcherEntry) id) as H0. discriminate (eq_trans (eq_sym H0) He). }
  assert (forall t p, pcs (sys_boot l) !! t = Some p -> False) as Hp by (intros t p; cbn; by rewrite lookup_empty).
  split; [intros id e E; destruct (He id e E)|intros t c id (wk & [E|E]); destruct (Hp _ _ E)|intros t c wk id e w E; destruct (Hp _ _ E)].
Qed.

Lemma step_tidy s s' : prompt_step s s' -> sys_ok s -> tidy s -> tidy s'.
Proof.
  intros [Hst Hti] Hs Ht. pose proof (ok_live _ Hs) as Hl.
  destruct Hst as [t c timeout Hp Hn Hlen|t c start timeout Hp|t c wake Hp|t c wake Hp _|t ids deadline Hp|id|id|id|t id _|t id _|id n Hn|id due per dpc|id| |et Hn|Hn|n lim Hn Hb Hb'|Hn|id|].
  - by apply call_tidy.
  - by apply enqueue_tidy.
  - by apply park_tidy.
  - by apply (finish_tidy t c wake).
  - assert (pc_ok (PcAll ids deadline)) as (P1 & P2 & _) by (destruct Hp as [Hp|[Hp _]]; by apply (ok_pcs _ Hs t _ Hp)). by apply recheck_tidy.
  - by apply set_tidy.
  - by apply reset_tidy.
  - by apply pulse_tidy.
  - by apply acquires_tidy.
  - by apply releases_tidy.
  - by apply supplies_tidy.
  - apply with_timer_tidy; [done|done|]. intros t r. unfold set_timer. by destruct dpc.
  - by apply with_timer_tidy.
  - by apply check_timers_tidy.
  - by apply (create_tidy s (EEvent (new_event et)) (log s)).
  - by apply (create_tidy s (EMutant new_mutant) (log s)).
  - by apply (create_tidy s (ESemaphore (new_semaphore n lim))).
  - by apply (create_tidy s (ETimer new_timer) (log s)).
  - by apply destroy_tidy.
  - apply (tidy_evolve s); [done|done|done| |]; cbn [ke pcs].
    + intros t c wake P. split; [done|]. apply due_wake_blocked.
    + intros id e' E. exists e'. split; [done|apply evolves_refl].
Qed.

Lemma prompt_reachable l s : rtc prompt_step (sys_boot l) s -> Z.of_nat (length (log s)) + 2 < 2 ^ 32 -> rtc ke_step (sys_boot l) s /\ tidy s.
Proof.
  revert s. refine (rtc_ind_r (fun s => _ -> rtc ke_step _ s /\ tidy s) (sys_boot l) _ _); [intros _; split; [done|apply boot_tidy]|].
  intros x y _ Hst IH Hlen. pose proof (log_grows _ _ (proj1 Hst)). destruct (IH ltac:(lia)) as [Hr Ht].
  split; [eapply rtc_r; [done|apply Hst]|]. apply (step_tidy x y Hst); [|done]. apply (reachable_ok l x Hr). lia.
Qed.

(** C21: waits for a single object and WaitAny, as long as no object of a wait
    is signalled between its poll and its blocks going in, and no block is
    satisfied between that and the park: no wake-up is lost. A thread is
    blocked in such a wait only while every object of the call that is still
    there is unsignalled; and a thread one of whose blocks has been satisfied
    is not blocked, and its wait returns [Satisfied], not a timeout.
    [stale_poll_sleeps] and [late_park_sleeps] show that both conditions are
    needed. WaitAll enters no blocks and is not covered: it sleeps ten ticks
    at a time and polls again, and may sleep while some of its objects are
    signalled. The objects of one wait are distinct, identifiers do not run
    out, and fewer than 2^32 - 2 results have been reported. *)
Theorem no_lost_dispatcher_wakeup l s :
  rtc prompt_step (sys_boot l) s -> Z.of_nat (length (log s)) + 2 < 2 ^ 32 ->
  forall t c wake id e, pcs s !! t = Some (PcParked c wake) -> id ∈ call_ids c -> lookup_object id (ke s) = Some e ->
  (blocked t (ke s) -> is_signaled (header e) = false) /\
  (forall w, block_of t e = Some w -> satisfied w = true ->
     ~ blocked t (ke s) /\ exists n, log (finish t c s) = OReturn t c (Satisfied n) :: log s).
Proof.
  intros Hr Hlen t c wake id e Hp Hin E. destruct (prompt_reachable l s Hr Hlen) as [Hr' [T1 T2 T3]]. pose proof (reachable_ok l s Hr' Hlen) as Hs. split.
  - intros Hb. destruct (is_signaled (header e)) eqn:Es; [|done]. exfalso. destruct (T2 t c id ltac:(exists wake; by right) Hin) as [_ Hm]. specialize (Hm e E).
    apply list_elem_of_fmap in Hm as (w & Ew & Hw). pose proof (parked_distinct s Hs id e E) as Hd.
    apply (T3 t c wake id e w Hp E (block_of_unique t e w Hd Hw (eq_sym Ew)) (T1 id e E Es w Hw) Hb).
  - intros w Hb Hsat. split; [by apply (T3 t c wake id e w)|].
    destruct (finish_cases t c wake s Hs Hp) as (r & k' & -> & _ & _ & [[_ Hf]|[n ->]]); [by rewrite (Hf id e w Hin E Hb) in Hsat|by exists n].
Qed.

(* ------------------------------------------------------------------ *)
(** ** Runs

    An event, thread 7 waiting for it without a deadline. *)

Definition ev0 : Sys := let s := sys_boot demo_threads in with_ke (snd (create_event NotificationEvent (ke s))) s.
Definition ev1 : Sys := call 7 (CSingle 1) None ev0.
Definition ev2 : Sys := enqueue 7 (CSingle 1) 0 None ev1.
Definition ev3 : Sys := at_pc 7 (PcParked (CSingle 1) U64_MAX) (with_ke (park 7 U64_MAX (ke ev2)) ev2).

Lemma ev_step0 : prompt_step (sys_boot demo_threads) ev0.
Proof.
  split; [by apply StCreateEvent|]. split; intros t c; cbn.
  - intros start timeout wake E. by rewrite lookup_empty in E.
  - intros wake E. by rewrite lookup_empty in E.
Qed.

Lemma ev_step1 : prompt_step ev0 ev1.
Proof.
  split; [apply StCall; [reflexivity|by apply list.NoDup_singleton|vm_compute; reflexivity]|].
  assert (pcs ev0 = ∅) as E0 by reflexivity. split; intros t c; rewrite E0.
  - intros start timeout wake E. by rewrite lookup_empty in E.
  - intros wake E. by rewrite lookup_empty in E.
Qed.

Lemma ev_step2 : prompt_step ev1 ev2.
Proof.
  split; [apply StEnqueue; vm_compute; reflexivity|]. assert (pcs ev1 = {[7 := PcPolled (CSingle 1) 0 None]}) as E1 by reflexivity. split; intros t c; rewrite E1.
  - intros start timeout wake [<- Hp]%lookup_singleton_Some _ id e Hin. simplify_eq. apply list_elem_of_singleton in Hin as ->.
    assert (lookup_object 1 (ke ev1) = Some (EEvent (new_event NotificationEvent))) as -> by (vm_compute; reflexivity). by intros [= <-].
  - intros wake [<- Hp]%lookup_singleton_Some. done.
Qed.

Lemma ev_step3 : prompt_step ev2 ev3.
Proof.
  split; [apply StPark; vm_compute; reflexivity|]. assert (pcs ev2 = {[7 := PcQueued (CSingle 1) U64_MAX]}) as E2 by (vm_compute; reflexivity). split; intros t c; rewrite E2.
  - intros start timeout wake [<- Hp]%lookup_singleton_Some. done.
  - intros wake [<- Hp]%lookup_singleton_Some _ id e w El Hb. destruct (decide (id = 1)) as [->|Hne].
    + assert (lookup_object 1 (ke ev2) = Some (EEvent (mkEvent (mkHeader OtEvent 0 [mkWB 7 WaitAny 0 false]) NotificationEvent))) as E by (vm_compute; reflexivity).
      rewrite E in El. injection El as <-. vm_compute in Hb. by injection Hb as <-.
    + assert (DISPATCHER_REGISTRY (ke ev2) = Some {[1 := EEvent (mkEvent (mkHeader OtEvent 0 [mkWB 7 WaitAny 0 false]) NotificationEvent)]}) as Er by (vm_compute; reflexivity).
      unfold lookup_object in El. rewrite Er in El. cbn [mbind option_bind] in El. apply lookup_singleton_Some in El as [? _]. congruence.
Qed.

Lemma ev_run : rtc prompt_step (sys_boot demo_threads) ev3.
Proof. exact (rtc_l _ _ _ _ ev_step0 (rtc_l _ _ _ _ ev_step1 (rtc_l _ _ _ _ ev_step2 (rtc_once _ _ ev_step3)))). Qed.

Lemma no_lost_dispatcher_wakeup_witness :
  exists e, lookup_object 1 (ke ev3) = Some e /\ blocked 7 (ke ev3) /\ is_signaled (header e) = false.
Proof.
  assert (exists e, lookup_object 1 (ke ev3) = Some e) as [e E] by (eexists; vm_compute; reflexivity). exists e.
  assert (blocked 7 (ke ev3)) as Hb by (eexists; split; vm_compute; reflexivity). split; [exact E|]. split; [exact Hb|].
  apply (no_lost_dispatcher_wakeup demo_threads ev3 ev_run ltac:(vm_compute; reflexivity) 7 (CSingle 1) U64_MAX 1 e);
    [vm_compute; reflexivity|apply list_elem_of_singleton; reflexivity|exact E|exact Hb].
Defined.

(** The event is set after the poll and before the block goes in: nobody is
    marked, and the thread parks on a signalled event. *)
Definition stale0 : Sys := with_ke (snd (with_event 1 set_event (ke ev1))) ev1.
Definition stale1 : Sys := enqueue 7 (CSingle 1) 0 None stale0.
Definition stale2 : Sys := at_pc 7 (PcParked (CSingle 1) U64_MAX) (with_ke (park 7 U64_MAX (ke stale1)) stale1).

Lemma stale_poll_sleeps :
  rtc ke_step (sys_boot demo_threads) stale2 /\ blocked 7 (ke stale2) /\ read_signal_state 1 (ke stale2) = Some 1.
Proof.
  split; [|split; [eexists; split; vm_compute; reflexivity|vm_compute; reflexivity]].
  refine (rtc_l _ _ _ _ (proj1 ev_step0) (rtc_l _ _ _ _ (proj1 ev_step1) (rtc_l _ _ stale0 _ _ (rtc_l _ _ stale1 _ _ (rtc_once _ stale2 _))))).
  - apply StSet.
  - apply StEnqueue. vm_compute. reflexivity.
  - apply StPark. vm_compute. reflexivity.
Qed.

(** The event is set after the block went in and before the park: the block
    is marked while the thread still runs, nobody is woken, and it parks. *)
Definition late0 : Sys := with_ke (snd (with_event 1 set_event (ke ev2))) ev2.
Definition late1 : Sys := at_pc 7 (PcParked (CSingle 1) U64_MAX) (with_ke (park 7 U64_MAX (ke late0)) late0).

Lemma late_park_sleeps :
  rtc ke_step (sys_boot demo_threads) late1 /\ blocked 7 (ke late1) /\ read_signal_state 1 (ke late1) = Some 1.
Proof.
  split; [|split; [eexists; split; vm_compute; reflexivity|vm_compute; reflexivity]].
  refine (rtc_l _ _ _ _ (proj1 ev_step0) (rtc_l _ _ _ _ (proj1 ev_step1) (rtc_l _ _ _ _ (proj1 ev_step2) (rtc_l _ _ late0 _ _ (rtc_once _ late1 _))))).
  - apply StSet.
  - apply StPark. vm_compute. reflexivity.
Qed.

(** Destroying an object wakes nobody: its waiters have no deadline and no
    block any more. *)
Lemma destroyed_object_strands : blocked 7 (destroy_object 1 (ke ev3)) /\ lookup_object 1 (destroy_object 1 (ke ev3)) = None.
Proof. split; [eexists; split; vm_compute; reflexivity|vm_compute; reflexivity]. Qed.
