(* ===== verification/Ob.v ===== *)
(** * The object manager (kernel/src/ob/mod.rs, ob/handle.rs)

    The namespace of kernel objects, a tree of directories searched by path,
    the reference counts in the headers of its objects, and the handle
    tables of processes, whose handles hold those references. *)

From Stdlib Require Import Ascii.
From S2P Require Import Prelude Security.

(* ------------------------------------------------------------------ *)
(** ** Objects *)

Inductive ObjectType :=
  | TDirectory | TDevice | TDriver | TSymbolicLink | TEvent | TMutex | TSemaphore | TSection | TPort | TProcess | TThread | TFile | TKey | TType.

#[global] Instance ObjectType_eq_dec : EqDecision ObjectType.
Proof. solve_decision. Defined.

(** The typed body of an object, which nothing sets, is left out. *)
Record ObjectHeader := mkObject {
  ob_name : string;
  ob_type : ObjectType;
  ref_count : Z;
  security_descriptor : option SecurityDescriptor;
  link_target : option string }.

Definition with_ref_count (n : Z) (h : ObjectHeader) : ObjectHeader :=
  mkObject (ob_name h) (ob_type h) n (security_descriptor h) (link_target h).

(** A directory is its [BTreeMap], by name. *)
Inductive NamespaceEntry :=
  | NDirectory (entries : list (string * NamespaceEntry))
  | NObject (h : ObjectHeader).

Definition Directory := list (string * NamespaceEntry).

Fixpoint dir_get (name : string) (d : Directory) : option NamespaceEntry :=
  match d with
  | [] => None
  | (n, e) :: d => if bool_decide (n = name) then Some e else dir_get name d
  end.

Definition dir_remove (name : string) (d : Directory) : Directory := List.filter (fun '(n, _) => negb (bool_decide (n = name))) d.
Definition dir_insert (name : string) (e : NamespaceEntry) (d : Directory) : Directory := (name, e) :: dir_remove name d.

(* ------------------------------------------------------------------ *)
(** ** Paths *)

Definition separator (c : Ascii.ascii) : bool := bool_decide (c = "\"%char) || bool_decide (c = "/"%char).

Fixpoint trim_start (c : Ascii.ascii) (s : string) : string :=
  match s with
  | String x s' => if bool_decide (x = c) then trim_start c s' else s
  | EmptyString => EmptyString
  end.

(** [split]: the pieces between separators. *)
Fixpoint split_path (s : string) : list string :=
  match s with
  | EmptyString => [EmptyString]
  | String c s =>
      let pieces := split_path s in
      if separator c then EmptyString :: pieces
      else match pieces with p :: ps => String c p :: ps | [] => [String c EmptyString] end
  end.

Definition parse_path (path : string) : list string :=
  List.filter (fun p => negb (bool_decide (p = ""%string))) (split_path (trim_start "/" (trim_start "\" path))).

(* ------------------------------------------------------------------ *)
(** ** The namespace *)

Fixpoint walk (d : Directory) (parts : list string) : option NamespaceEntry :=
  match parts with
  | [] => None
  | [p] => dir_get p d
  | p :: ps => match dir_get p d with Some (NDirectory sub) => walk sub ps | _ => None end
  end.

Definition walk_namespace (root : Directory) (path : string) : option NamespaceEntry := walk root (parse_path path).

(** The directory of that name, created where nothing has the name. *)
Definition open_dir (p : string) (d : Directory) : Directory :=
  match dir_get p d with None => dir_insert p (NDirectory []) d | Some _ => d end.

Fixpoint insert_at (d : Directory) (parts : list string) (leaf : string -> NamespaceEntry) : bool * Directory :=
  match parts with
  | [] => (false, d)
  | [name] => (true, dir_insert name (leaf name) d)
  | p :: ps =>
      let d := open_dir p d in
      match dir_get p d with
      | Some (NDirectory sub) => let '(ok, sub) := insert_at sub ps leaf in (ok, dir_insert p (NDirectory sub) d)
      | _ => (false, d)
      end
  end.

Definition insert_inner (root : Directory) (path : string) (obj_type : ObjectType) (sd : option SecurityDescriptor) (target : option string) : bool * Directory :=
  insert_at root (parse_path path) (fun name => NObject (mkObject name obj_type 1 sd target)).

(** A change to the object a path names; [None] where it names none. *)
Fixpoint alter_at {R} (f : ObjectHeader -> R * ObjectHeader) (d : Directory) (parts : list string) : option R * Directory :=
  match parts with
  | [] => (None, d)
  | [name] =>
      match dir_get name d with
      | Some (NObject h) => let '(r, h) := f h in (Some r, dir_insert name (NObject h) d)
      | _ => (None, d)
      end
  | p :: ps =>
      match dir_get p d with
      | Some (NDirectory sub) => let '(r, sub) := alter_at f sub ps in (r, dir_insert p (NDirectory sub) d)
      | _ => (None, d)
      end
  end.

Fixpoint remove_at (d : Directory) (parts : list string) : bool * Directory :=
  match parts with
  | [] => (false, d)
  | [name] => (match dir_get name d with Some _ => true | None => false end, dir_remove name d)
  | p :: ps =>
      match dir_get p d with
      | Some (NDirectory sub) => let '(ok, sub) := remove_at sub ps in (ok, dir_insert p (NDirectory sub) d)
      | _ => (false, d)
      end
  end.

Definition NAMESPACE := option Directory.

(** [init]: the standard directories, the object types, the devices and the
    links. *)
Definition leaf_of (t : ObjectType) (name : string) : string * NamespaceEntry := (name, NObject (mkObject name t 1 None None)).
Definition link_of (name target : string) : string * NamespaceEntry := (name, NObject (mkObject name TSymbolicLink 1 None (Some target))).

Definition ob_init : NAMESPACE := Some
  (("ObjectTypes", NDirectory (map (leaf_of TType)
     ["Directory"; "Device"; "Driver"; "SymbolicLink"; "Event"; "Mutant"; "Semaphore"; "Section"; "Port"; "Process"; "Thread"; "File"; "Key"; "Type"])) ::
   ("Device", NDirectory (map (leaf_of TDevice) ["Null"; "Console"; "Serial0"; "Framebuffer0"; "E1000"])) ::
   ("GLOBAL??", NDirectory [link_of "C:" "\Device\HarddiskVolume1"; link_of "NUL" "\Device\Null"; link_of "CON" "\Device\Console"]) ::
   map (fun name => (name, NDirectory []))
     ["Driver"; "BaseNamedObjects"; "FileSystem"; "Callback"; "Sessions"; "KernelObjects"; "Security"])%string.

Definition insert_object_with_sd (path : string) (t : ObjectType) (sd : option SecurityDescriptor) (ns : NAMESPACE) : bool * NAMESPACE :=
  match ns with
  | Some root => let '(ok, root) := insert_inner root path t sd None in (ok, Some root)
  | None => (false, ns)
  end.

Definition insert_object (path : string) (t : ObjectType) (ns : NAMESPACE) : bool * NAMESPACE := insert_object_with_sd path t None ns.

Definition insert_symlink (path target : string) (ns : NAMESPACE) : bool * NAMESPACE :=
  match ns with
  | Some root => let '(ok, root) := insert_inner root path TSymbolicLink None (Some target) in (ok, Some root)
  | None => (false, ns)
  end.

Definition lookup_object_type (path : string) (ns : NAMESPACE) : option ObjectType :=
  root ← ns; e ← walk_namespace root path; Some match e with NDirectory _ => TDirectory | NObject h => ob_type h end.

Definition has_object (path : string) (ns : NAMESPACE) : bool :=
  match ns with Some root => match walk_namespace root path with Some _ => true | None => false end | None => false end.

Definition resolve_symlink (path : string) (ns : NAMESPACE) : option string :=
  root ← ns; e ← walk_namespace root path;
  match e with NObject h => if bool_decide (ob_type h = TSymbolicLink) then link_target h else None | NDirectory _ => None end.

Definition obref_inc (path : string) (ns : NAMESPACE) : option Z * NAMESPACE :=
  match ns with
  | Some root =>
      let '(r, root) := alter_at (fun h => let n := add64 (ref_count h) 1 in (n, with_ref_count n h)) root (parse_path path) in (r, Some root)
  | None => (None, ns)
  end.

(** The compare-exchange loop: a count of zero stays. *)
Definition obref_dec (path : string) (ns : NAMESPACE) : option Z * NAMESPACE :=
  match ns with
  | Some root =>
      let '(r, root) := alter_at (fun h => if ref_count h =? 0 then (0, h) else (ref_count h - 1, with_ref_count (ref_count h - 1) h)) root (parse_path path) in
      (r, Some root)
  | None => (None, ns)
  end.

Definition get_object_security_descriptor (path : string) (ns : NAMESPACE) : option SecurityDescriptor :=
  root ← ns; e ← walk_namespace root path; match e with NObject h => security_descriptor h | NDirectory _ => None end.

Definition peek_object_refcount (path : string) (ns : NAMESPACE) : option Z :=
  root ← ns; e ← walk_namespace root path; match e with NObject h => Some (ref_count h) | NDirectory _ => None end.

Definition remove_object (path : string) (ns : NAMESPACE) : bool * NAMESPACE :=
  match ns with
  | Some root => let '(ok, root) := remove_at root (parse_path path) in (ok, Some root)
  | None => (false, ns)
  end.

Inductive RemoveOutcome := Removed | RefusedRefcount | NotFoundObject.

#[global] Instance RemoveOutcome_eq_dec : EqDecision RemoveOutcome.
Proof. solve_decision. Defined.

Definition remove_object_if_unreferenced (path : string) (ns : NAMESPACE) : RemoveOutcome * NAMESPACE :=
  match ns with
  | Some root =>
      match walk root (parse_path path) with
      | Some (NObject h) =>
          if 1 <? ref_count h then (RefusedRefcount, ns)
          else let '(ok, root) := remove_at root (parse_path path) in (if ok then Removed else NotFoundObject, Some root)
      | _ => (NotFoundObject, ns)
      end
  | None => (NotFoundObject, ns)
  end.

(* ------------------------------------------------------------------ *)
(** ** Handle tables *)

Record HandleEntry := mkHandle {
  object_path : string;
  handle_type : ObjectType;
  granted_access : Z;
  inheritable : bool }.

Record HandleTable := mkHandles { handles : gmap Z HandleEntry; next_handle : Z }.

Definition new_handle_table : HandleTable := mkHandles ∅ 4.

Definition grant (e : HandleEntry) (t : HandleTable) : Z * HandleTable :=
  let handle := next_handle t in (handle, mkHandles (<[handle := e]> (handles t)) (wrap 32 (handle + 4))).

Definition allocate (e : HandleEntry) (t : HandleTable) (ns : NAMESPACE) : Z * HandleTable * NAMESPACE :=
  let '(_, ns) := obref_inc (object_path e) ns in
  let '(handle, t) := grant e t in (handle, t, ns).

Definition lookup_handle (handle : Z) (t : HandleTable) : option HandleEntry := handles t !! handle.

Definition close_handle (handle : Z) (t : HandleTable) (ns : NAMESPACE) : bool * HandleTable * NAMESPACE :=
  match handles t !! handle with
  | Some e =>
      let '(_, ns) := obref_dec (object_path e) ns in
      (true, mkHandles (delete handle (handles t)) (next_handle t), ns)
  | None => (false, t, ns)
  end.

Definition duplicate (src_handle desired_access : Z) (t : HandleTable) (ns : NAMESPACE) : option Z * HandleTable * NAMESPACE :=
  match handles t !! src_handle with
  | Some src =>
      let e := mkHandle (object_path src) (handle_type src) desired_access (inheritable src) in
      let '(_, ns) := obref_inc (object_path e) ns in
      let '(handle, t) := grant e t in (Some handle, t, ns)
  | None => (None, t, ns)
  end.

Definition handle_count (t : HandleTable) : nat := size (handles t).

Definition by_handle (x y : Z * HandleEntry) : Prop := x.1 <= y.1.

#[global] Instance by_handle_dec : RelDecision by_handle.
Proof. intros x y. unfold by_handle. apply _. Defined.

(** [Drop]: every handle still open releases its reference, in key order. *)
Definition drop_table (t : HandleTable) (ns : NAMESPACE) : NAMESPACE :=
  fold_left (fun ns '(_, e) => (obref_dec (object_path e) ns).2) (merge_sort by_handle (map_to_list (handles t))) ns.

(* ------------------------------------------------------------------ *)
(** ** Directories *)

Lemma dir_get_remove name d n : dir_get n (dir_remove name d) = if bool_decide (name = n) then None else dir_get n d.
Proof.
  induction d as [| [m e] d IH]; simpl; [by case_bool_decide |].
  destruct (bool_decide_reflect (m = name)) as [-> |]; simpl.
  - rewrite IH. by case_bool_decide.
  - rewrite IH. repeat case_bool_decide; congruence.
Qed.

Lemma dir_get_insert name e d n : dir_get n (dir_insert name e d) = if bool_decide (name = n) then Some e else dir_get n d.
Proof. unfold dir_insert. simpl. rewrite dir_get_remove. by case_bool_decide. Qed.

#[local] Opaque dir_insert.

(** The object a path names. *)
Definition object_of (e : option NamespaceEntry) : option ObjectHeader := match e with Some (NObject h) => Some h | _ => None end.
Definition obj_at (d : Directory) (p : list string) : option ObjectHeader := object_of (walk d p).

Lemma walk_cons d p ps : ps <> [] -> walk d (p :: ps) = match dir_get p d with Some (NDirectory sub) => walk sub ps | _ => None end.
Proof. by destruct ps. Qed.

Lemma obj_at_cons d p ps : ps <> [] -> obj_at d (p :: ps) = match dir_get p d with Some (NDirectory sub) => obj_at sub ps | _ => None end.
Proof. intros H. unfold obj_at. rewrite (walk_cons _ _ _ H). by destruct (dir_get p d) as [[] |]. Qed.

Lemma obj_at_one d p : obj_at d [p] = object_of (dir_get p d).
Proof. reflexivity. Qed.

(** Replacing the contents of a directory changes what lies below it. *)
Lemma obj_at_below d p sub q :
  (forall h, dir_get p d <> Some (NObject h)) ->
  obj_at (dir_insert p (NDirectory sub) d) q =
  match q with
  | p' :: (_ :: _) as q' => if bool_decide (p = p') then obj_at sub (tail q) else obj_at d q
  | _ => obj_at d q
  end.
Proof.
  intros Hdir. destruct q as [| p' [| p'' q]]; [done | |].
  - rewrite !obj_at_one, dir_get_insert. case_bool_decide as H; [| done]. subst. destruct (dir_get p' d) as [[] |] eqn:E; [done | by destruct (Hdir h) | done].
  - rewrite !obj_at_cons by done. rewrite dir_get_insert. by case_bool_decide.
Qed.

Lemma obj_at_nil q : obj_at [] q = None.
Proof. by destruct q as [| ? []]. Qed.

Lemma obj_at_open_dir p d q : obj_at (open_dir p d) q = obj_at d q.
Proof.
  unfold open_dir. destruct (dir_get p d) eqn:E; [done |].
  rewrite obj_at_below by (intros h; by rewrite E).
  destruct q as [| x [| y q]]; [done | done |]. case_bool_decide; [| done]. subst. by rewrite obj_at_nil, obj_at_cons, E.
Qed.

(** An operation at a path leaves the objects of the paths it is no prefix
    of. *)
Lemma below_frame d a sub sub' q p :
  dir_get a d = Some (NDirectory sub) -> (forall p', ~ prefix q p' -> obj_at sub' p' = obj_at sub p') ->
  ~ prefix (a :: q) p -> obj_at (dir_insert a (NDirectory sub') d) p = obj_at d p.
Proof.
  intros Ha IH Hp. rewrite obj_at_below by (intros h; by rewrite Ha).
  destruct p as [| x [| y p]]; [done | done |]. case_bool_decide; [| done]. subst. simpl.
  rewrite (obj_at_cons d), Ha by done. apply IH. intros Hq. apply Hp. by apply prefix_cons.
Qed.

Lemma entry_frame d d' name p :
  (forall n, n <> name -> dir_get n d' = dir_get n d) -> ~ prefix [name] p -> obj_at d' p = obj_at d p.
Proof.
  intros Hd Hp. destruct p as [| x [| y p]]; [done | |].
  - rewrite !obj_at_one, Hd; [done |]. intros ->. by apply Hp.
  - rewrite !obj_at_cons, Hd by first [done | intros ->; apply Hp; by eexists]. done.
Qed.

Lemma insert_at_cons d a q leaf :
  q <> [] ->
  insert_at d (a :: q) leaf =
  match dir_get a (open_dir a d) with
  | Some (NDirectory sub) => let '(ok, sub) := insert_at sub q leaf in (ok, dir_insert a (NDirectory sub) (open_dir a d))
  | _ => (false, open_dir a d)
  end.
Proof. by destruct q. Qed.

Lemma insert_at_frame d q leaf p : ~ prefix q p -> obj_at (insert_at d q leaf).2 p = obj_at d p.
Proof.
  revert d p. induction q as [| a q IH]; intros d p Hp; [by destruct Hp; apply prefix_nil |]. destruct q as [| b q].
  - apply (entry_frame d _ a); [| done]. intros n Hn. simpl. rewrite dir_get_insert. by rewrite bool_decide_false by congruence.
  - rewrite <- (obj_at_open_dir a d). rewrite insert_at_cons by done. destruct (dir_get a (open_dir a d)) as [[sub |] |] eqn:Ha; [| done | done].
    specialize (IH sub). destruct (insert_at sub (b :: q) leaf) as [ok sub']. by apply (below_frame _ _ sub _ (b :: q)).
Qed.

Lemma insert_at_here d q leaf : (insert_at d q leaf).1 = true -> walk (insert_at d q leaf).2 q = Some (leaf (List.last q "")).
Proof.
  revert d. induction q as [| a q IH]; intros d H; [done |]. destruct q as [| b q].
  - simpl. by rewrite dir_get_insert, bool_decide_true.
  - rewrite insert_at_cons in * by done. destruct (dir_get a (open_dir a d)) as [[sub |] |] eqn:Ha; [| done | done].
    specialize (IH sub). destruct (insert_at sub (b :: q) leaf) as [ok sub']. simpl in H. subst ok.
    rewrite walk_cons by done. cbn -[walk List.last]. rewrite dir_get_insert, bool_decide_true by done. by apply IH.
Qed.

Lemma alter_at_cons {R} (f : ObjectHeader -> R * ObjectHeader) d a q :
  q <> [] ->
  alter_at f d (a :: q) =
  match dir_get a d with
  | Some (NDirectory sub) => let '(r, sub) := alter_at f sub q in (r, dir_insert a (NDirectory sub) d)
  | _ => (None, d)
  end.
Proof. by destruct q. Qed.

Lemma alter_at_result {R} (f : ObjectHeader -> R * ObjectHeader) d q : (alter_at f d q).1 = (fun h => (f h).1) <$> obj_at d q.
Proof.
  revert d. induction q as [| a q IH]; intros d; [done |]. destruct q as [| b q].
  - rewrite obj_at_one. simpl. destruct (dir_get a d) as [[| h] |]; simpl; [done | by destruct (f h) | done].
  - rewrite alter_at_cons, obj_at_cons by done. destruct (dir_get a d) as [[sub |] |]; [| done | done].
    specialize (IH sub). by destruct (alter_at f sub (b :: q)).
Qed.

Lemma obj_at_alter_at {R} (f : ObjectHeader -> R * ObjectHeader) d q p :
  obj_at (alter_at f d q).2 p = if bool_decide (p = q) then (fun h => (f h).2) <$> obj_at d p else obj_at d p.
Proof.
  revert d p. induction q as [| a q IH]; intros d p; [case_bool_decide; by subst |]. destruct q as [| b q].
  - simpl. destruct (dir_get a d) as [[| h] |] eqn:Ha; simpl; try (case_bool_decide; [subst; by rewrite obj_at_one, Ha | done]).
    destruct (f h) as [r h'] eqn:Hf. simpl. case_bool_decide as E.
    + subst. rewrite !obj_at_one, dir_get_insert, bool_decide_true, Ha by done. simpl. by rewrite Hf.
    + destruct p as [| x [| y p]]; [done | |].
      * rewrite !obj_at_one, dir_get_insert, bool_decide_false by congruence. done.
      * rewrite !obj_at_cons, dir_get_insert by done. case_bool_decide; [subst; by rewrite Ha | done].
  - rewrite alter_at_cons by done. destruct (dir_get a d) as [[sub |] |] eqn:Ha;
      cbn [snd]; try (case_bool_decide; [subst; by rewrite obj_at_cons, Ha | done]).
    specialize (IH sub (tail p)). destruct (alter_at f sub (b :: q)) as [r sub']. simpl in *.
    rewrite obj_at_below by (intros h; by rewrite Ha). destruct p as [| x [| y p]]; [done | by rewrite bool_decide_false |].
    destruct (bool_decide_reflect (a = x)) as [<- | Hx]; [| by rewrite bool_decide_false by congruence].
    rewrite IH, obj_at_cons, Ha by done. simpl. repeat case_bool_decide; congruence.
Qed.

Lemma remove_at_cons d a q :
  q <> [] ->
  remove_at d (a :: q) =
  match dir_get a d with
  | Some (NDirectory sub) => let '(ok, sub) := remove_at sub q in (ok, dir_insert a (NDirectory sub) d)
  | _ => (false, d)
  end.
Proof. by destruct q. Qed.

Lemma remove_at_frame d q p : ~ prefix q p -> obj_at (remove_at d q).2 p = obj_at d p.
Proof.
  revert d p. induction q as [| a q IH]; intros d p Hp; [by destruct Hp; apply prefix_nil |]. destruct q as [| b q].
  - apply (entry_frame d _ a); [| done]. intros n Hn. simpl. rewrite dir_get_remove. by rewrite bool_decide_false by congruence.
  - rewrite remove_at_cons by done. destruct (dir_get a d) as [[sub |] |] eqn:Ha; [| done | done].
    specialize (IH sub). destruct (remove_at sub (b :: q)) as [ok sub']. by apply (below_frame _ _ sub _ (b :: q)).
Qed.

Lemma remove_at_here d q : (remove_at d q).1 = (if walk d q then true else false) /\ walk (remove_at d q).2 q = None.
Proof.
  revert d. induction q as [| a q IH]; intros d; [done |]. destruct q as [| b q].
  - simpl. rewrite dir_get_remove, bool_decide_true by done. by destruct (dir_get a d).
  - rewrite remove_at_cons, walk_cons by done. destruct (dir_get a d) as [[sub | h] |] eqn:Ha; [| by rewrite (walk_cons d), Ha | by rewrite (walk_cons d), Ha].
    specialize (IH sub). destruct (remove_at sub (b :: q)) as [ok sub']. simpl snd in *.
    rewrite (walk_cons (dir_insert _ _ _)), dir_get_insert, bool_decide_true by done. exact IH.
Qed.

(** Nothing is named below an object. *)
Lemma obj_at_prefix d q p h : obj_at d q = Some h -> prefix q p -> p <> q -> obj_at d p = None.
Proof.
  revert d p. induction q as [| a q IH]; intros d p Hq [k ->] Hne; [done |]. destruct q as [| b q].
  - destruct k as [| x k]; [by rewrite app_nil_r in Hne |]. rewrite obj_at_one in Hq. simpl.
    rewrite obj_at_cons by done. by destruct (dir_get a d) as [[] |].
  - rewrite obj_at_cons in Hq by done. simpl. rewrite obj_at_cons by done.
    destruct (dir_get a d) as [[sub |] |]; [| done | done]. apply (IH sub ((b :: q) ++ k)); [done | by eexists |].
    intros E. apply Hne. simpl in *. by rewrite E.
Qed.

Lemma walk_app_none d q k : q <> [] -> walk d q = None -> walk d (q ++ k) = None.
Proof.
  revert d. induction q as [| a q IH]; intros d Hq H; [done |]. destruct q as [| b q].
  - destruct k as [| x k]; [done |]. simpl app. rewrite walk_cons by done. simpl in H. by rewrite H.
  - rewrite walk_cons in H by done. simpl app. rewrite walk_cons by done.
    destruct (dir_get a d) as [[sub |] |]; [| done | done]. by apply (IH sub).
Qed.
