(* ===== verification/ObRun.v ===== *)
(** * Named objects and their handles (kernel/src/ob/)

    The calls of the object manager in any order, over the namespace and the
    handle tables of all processes, and the lifetime of a named object: its
    count is one for the name and one for each open handle, and the name
    goes only when no handle is open on it. *)

From S2P Require Import Prelude Security Ob.

(* ------------------------------------------------------------------ *)
(** ** Calls *)

Inductive ObCall :=
  | CInsert (path : string) (t : ObjectType) (sd : option SecurityDescriptor)
  | CSymlink (path target : string)
  | CRemove (path : string)
  | CRemoveIf (path : string)
  | CProcess (pid : Z)
  | COpen (pid : Z) (e : HandleEntry)
  | CClose (pid handle : Z)
  | CDuplicate (pid handle access : Z)
  | CExit (pid : Z).

Record ObSys := mkObSys { namespace : NAMESPACE; tables : gmap Z HandleTable }.

Definition exec (c : ObCall) (s : ObSys) : ObSys :=
  match c with
  | CInsert path t sd => mkObSys (insert_object_with_sd path t sd (namespace s)).2 (tables s)
  | CSymlink path target => mkObSys (insert_symlink path target (namespace s)).2 (tables s)
  | CRemove path => mkObSys (remove_object path (namespace s)).2 (tables s)
  | CRemoveIf path => mkObSys (remove_object_if_unreferenced path (namespace s)).2 (tables s)
  | CProcess pid =>
      match tables s !! pid with Some _ => s | None => mkObSys (namespace s) (<[pid := new_handle_table]> (tables s)) end
  | COpen pid e =>
      match tables s !! pid with
      | Some t => let '(_, t, ns) := allocate e t (namespace s) in mkObSys ns (<[pid := t]> (tables s))
      | None => s
      end
  | CClose pid handle =>
      match tables s !! pid with
      | Some t => let '(_, t, ns) := close_handle handle t (namespace s) in mkObSys ns (<[pid := t]> (tables s))
      | None => s
      end
  | CDuplicate pid handle access =>
      match tables s !! pid with
      | Some t => let '(_, t, ns) := duplicate handle access t (namespace s) in mkObSys ns (<[pid := t]> (tables s))
      | None => s
      end
  | CExit pid =>
      match tables s !! pid with
      | Some t => mkObSys (drop_table t (namespace s)) (delete pid (tables s))
      | None => s
      end
  end.

Definition run (cs : list ObCall) (s : ObSys) : ObSys := fold_left (fun s c => exec c s) cs s.

Definition ob_boot : ObSys := mkObSys ob_init ∅.

(** The object at a path, and the handles open on it. *)
Definition named (p : list string) (ns : NAMESPACE) : option ObjectHeader := root ← ns; obj_at root p.

Definition on (p : list string) (e : HandleEntry) : bool := bool_decide (parse_path (object_path e) = p).
Definition count_on (p : list string) (es : list (Z * HandleEntry)) : Z := Z.of_nat (length (List.filter (fun '(_, e) => on p e) es)).
Definition open_in (p : list string) (t : HandleTable) : Z := count_on p (map_to_list (handles t)).
Definition open_on (p : list string) (ts : gmap Z HandleTable) : Z := map_fold (fun _ t n => open_in p t + n) 0 ts.

(** The calls that put another object in the place of the path, or take the
    place away whatever the count. *)
Definition replaces (p : list string) (c : ObCall) : bool :=
  match c with
  | CInsert q _ _ | CSymlink q _ | CRemove q => bool_decide (prefix (parse_path q) p)
  | _ => false
  end.

(** Room for [n] more calls: handle values and counts do not wrap. *)
Record roomy (p : list string) (n : Z) (s : ObSys) : Prop := mkRoomy {
  rm_n : 0 <= n < 2 ^ 30 - 1;
  rm_next : forall pid t, tables s !! pid = Some t -> 0 <= next_handle t /\ next_handle t + 4 * n < 2 ^ 32;
  rm_fresh : forall pid t h, tables s !! pid = Some t -> next_handle t <= h -> handles t !! h = None;
  rm_open : 1 + open_on p (tables s) + n < 2 ^ 64 }.

(** The state of the name: the object with its count, or gone. *)
Definition counted (p : list string) (h : ObjectHeader) (s : ObSys) : Prop :=
  named p (namespace s) = Some (with_ref_count (1 + open_on p (tables s)) h).

(* ------------------------------------------------------------------ *)
(** ** Counting handles *)

Lemma count_on_nonneg p es : 0 <= count_on p es.
Proof. unfold count_on. lia. Qed.

#[global] Instance count_on_perm p : Proper (Permutation ==> eq) (count_on p).
Proof.
  intros es es' H. unfold count_on. f_equal. induction H as [| [] | [] [] |]; simpl; repeat case_match; simpl; try done; congruence.
Qed.

Lemma count_on_cons p h e es : count_on p ((h, e) :: es) = (if on p e then 1 else 0) + count_on p es.
Proof. unfold count_on. simpl. destruct (on p e); simpl; lia. Qed.

Lemma open_in_insert p t h e n : handles t !! h = None -> open_in p (mkHandles (<[h := e]> (handles t)) n) = (if on p e then 1 else 0) + open_in p t.
Proof. intros H. unfold open_in. simpl. by rewrite (map_to_list_insert _ _ _ H), count_on_cons. Qed.

Lemma open_in_delete p t h e n : handles t !! h = Some e -> open_in p t = (if on p e then 1 else 0) + open_in p (mkHandles (delete h (handles t)) n).
Proof. intros H. unfold open_in. simpl. by rewrite <- (map_to_list_delete _ _ _ H), count_on_cons. Qed.

Lemma open_in_new p : open_in p new_handle_table = 0.
Proof. unfold open_in, new_handle_table. simpl. by rewrite map_to_list_empty. Qed.

Lemma open_on_fresh p ts pid t : ts !! pid = None -> open_on p (<[pid := t]> ts) = open_in p t + open_on p ts.
Proof. intros H. unfold open_on. rewrite map_fold_insert_L; [done | | done]. intros; lia. Qed.

Lemma open_on_delete p ts pid t : ts !! pid = Some t -> open_on p ts = open_in p t + open_on p (delete pid ts).
Proof. intros H. rewrite <- (insert_delete_id ts pid t H) at 1. apply open_on_fresh. apply lookup_delete_eq. Qed.

Lemma open_on_insert p ts pid t t' : ts !! pid = Some t -> open_on p (<[pid := t']> ts) = open_on p ts - open_in p t + open_in p t'.
Proof.
  intros H. rewrite (open_on_delete p ts pid t H), <- (insert_delete_eq ts pid t'), open_on_fresh by apply lookup_delete_eq. lia.
Qed.

Lemma open_on_nonneg p ts : 0 <= open_on p ts.
Proof.
  induction ts as [| pid t ts H IH] using map_ind; [done |]. rewrite open_on_fresh by done. pose proof (count_on_nonneg p (map_to_list (handles t))). unfold open_in. lia.
Qed.

(* ------------------------------------------------------------------ *)
(** ** The name under each operation *)

Lemma named_inc p q ns :
  named p (obref_inc q ns).2 = if bool_decide (parse_path q = p) then (fun h => with_ref_count (add64 (ref_count h) 1) h) <$> named p ns else named p ns.
Proof.
  destruct ns as [root |]; [| by case_bool_decide]. unfold obref_inc.
  pose proof (obj_at_alter_at (fun h => let n := add64 (ref_count h) 1 in (n, with_ref_count n h)) root (parse_path q) p) as H.
  destruct (alter_at _ root _) as [r root']. simpl in *. rewrite H. repeat case_bool_decide; congruence.
Qed.

Definition released (h : ObjectHeader) : ObjectHeader := if ref_count h =? 0 then h else with_ref_count (ref_count h - 1) h.

Lemma named_dec p q ns : named p (obref_dec q ns).2 = if bool_decide (parse_path q = p) then released <$> named p ns else named p ns.
Proof.
  destruct ns as [root |]; [| by case_bool_decide]. unfold obref_dec.
  pose proof (obj_at_alter_at (fun h => if ref_count h =? 0 then (0, h) else (ref_count h - 1, with_ref_count (ref_count h - 1) h)) root (parse_path q) p) as H.
  destruct (alter_at _ root _) as [r root']. simpl in *. rewrite H.
  destruct (bool_decide_reflect (p = parse_path q)) as [-> |]; [rewrite bool_decide_true by done | by rewrite bool_decide_false by congruence].
  destruct (obj_at root (parse_path q)) as [h |]; [| done]. simpl. unfold released. by destruct (ref_count h =? 0).
Qed.

Lemma named_insert p q t sd target root : ~ prefix (parse_path q) p -> obj_at (insert_inner root q t sd target).2 p = obj_at root p.
Proof. apply insert_at_frame. Qed.

Lemma named_remove p q ns : ~ prefix (parse_path q) p -> named p (remove_object q ns).2 = named p ns.
Proof.
  intros H. destruct ns as [root |]; [| done]. unfold remove_object. pose proof (remove_at_frame root _ _ H) as E.
  by destruct (remove_at root (parse_path q)).
Qed.

Lemma remove_if_outcome p q ns :
  parse_path q = p ->
  (remove_object_if_unreferenced q ns).1 = match named p ns with Some h => if 1 <? ref_count h then RefusedRefcount else Removed | None => NotFoundObject end.
Proof.
  intros Hq. destruct ns as [root |]; [| done]. unfold remove_object_if_unreferenced. simpl. rewrite Hq. unfold obj_at.
  pose proof (remove_at_here root p) as [H _]. destruct (walk root p) as [[| h] |]; [done | | done]. simpl.
  destruct (1 <? ref_count h); [done |]. destruct (remove_at root p) as [ok root']. simpl in *. by rewrite H.
Qed.

(** The refusal changes nothing; the removal takes the name and no other. *)
Lemma named_remove_if p q ns :
  named p (remove_object_if_unreferenced q ns).2 =
  if bool_decide (parse_path q = p) then match named p ns with Some h => if 1 <? ref_count h then Some h else None | None => None end
  else named p ns.
Proof.
  destruct ns as [root |]; [| by case_bool_decide]. unfold remove_object_if_unreferenced. simpl.
  assert (obj_at root (parse_path q) = object_of (walk root (parse_path q))) as Ho by done.
  pose proof (remove_at_here root (parse_path q)) as [_ Hhere]. pose proof (remove_at_frame root (parse_path q) p) as Hframe.
  destruct (walk root (parse_path q)) as [[| h] |] eqn:Hw; simpl in Ho; try (case_bool_decide; [subst; by rewrite Ho | done]).
  destruct (1 <? ref_count h) eqn:Hc; [case_bool_decide; [subst; simpl; by rewrite Ho, Hc | done] |].
  destruct (remove_at root (parse_path q)) as [ok root']. simpl in *. case_bool_decide as E.
  - subst. rewrite Ho, Hc. unfold obj_at. by rewrite Hhere.
  - destruct (decide (prefix (parse_path q) p)) as [Hp |]; [| by apply Hframe].
    (* nothing is below the removed object, before or after *)
    rewrite (obj_at_prefix root _ _ _ Ho Hp) by congruence. destruct Hp as [k ->].
    unfold obj_at. rewrite walk_app_none; [done | | done]. intros Hnil. by rewrite Hnil in Hw.
Qed.

(* ------------------------------------------------------------------ *)
(** ** The name under each call *)

Definition decs (es : list (Z * HandleEntry)) (ns : NAMESPACE) : NAMESPACE := fold_left (fun ns '(_, e) => (obref_dec (object_path e) ns).2) es ns.

Lemma decs_gone p es ns : named p ns = None -> named p (decs es ns) = None.
Proof.
  revert ns. induction es as [| [h e] es IH]; intros ns H; [done |]. apply IH. rewrite named_dec, H. by case_bool_decide.
Qed.

Lemma decs_counted p es ns h k :
  0 <= k -> named p ns = Some (with_ref_count (1 + (count_on p es + k)) h) -> named p (decs es ns) = Some (with_ref_count (1 + k) h).
Proof.
  intros Hk. revert ns. induction es as [| [i e] es IH]; intros ns H; [done |]. apply IH. rewrite count_on_cons in H. rewrite named_dec, H.
  unfold on. pose proof (count_on_nonneg p es). case_bool_decide; simpl.
  - f_equal. unfold released. simpl. rewrite (proj2 (Z.eqb_neq _ _)) by lia. unfold with_ref_count. simpl. f_equal. lia.
  - by rewrite Z.add_0_l.
Qed.

Lemma not_replaced p q : bool_decide (prefix (parse_path q) p) = false -> ~ prefix (parse_path q) p.
Proof. apply bool_decide_eq_false_1. Qed.

(** Calls on other names, and new processes. *)
Definition aside (c : ObCall) : bool := match c with CInsert _ _ _ | CSymlink _ _ | CRemove _ | CProcess _ => true | _ => false end.

Lemma exec_aside p c s :
  aside c = true -> replaces p c = false ->
  named p (namespace (exec c s)) = named p (namespace s) /\ open_on p (tables (exec c s)) = open_on p (tables s).
Proof.
  intros Ha Hr. destruct c as [q t sd | q target | q | | pid | | | |]; try done; simpl in *.
  - split; [| done]. destruct (namespace s) as [root |]; [| done]. unfold insert_object_with_sd.
    pose proof (named_insert p q t sd None root (not_replaced _ _ Hr)) as E. by destruct (insert_inner root q t sd None).
  - split; [| done]. destruct (namespace s) as [root |]; [| done]. unfold insert_symlink.
    pose proof (named_insert p q TSymbolicLink None (Some target) root (not_replaced _ _ Hr)) as E. by destruct (insert_inner root q _ _ _).
  - split; [| done]. by apply named_remove, not_replaced.
  - case_match eqn:E; [done |]. simpl. split; [done |]. by rewrite open_on_fresh, open_in_new.
Qed.

(** A name that is gone stays so. *)
Lemma exec_gone p c s : replaces p c = false -> named p (namespace s) = None -> named p (namespace (exec c s)) = None.
Proof.
  intros Hr H. destruct (aside c) eqn:Ha; [by rewrite (proj1 (exec_aside p c s Ha Hr)) |].
  destruct c as [| | | q | | pid e | pid x | pid x acc | pid]; try done; simpl in *; try (destruct (tables s !! pid) as [t |] eqn:Ht; [| done]).
  - rewrite named_remove_if, H. by case_bool_decide.
  - unfold allocate. pose proof (named_inc p (object_path e) (namespace s)) as E. destruct (obref_inc _ _). simpl in *. rewrite E, H. by case_bool_decide.
  - unfold close_handle. destruct (handles t !! x) as [e |]; [| done]. pose proof (named_dec p (object_path e) (namespace s)) as E. destruct (obref_dec _ _). simpl in *. rewrite E, H. by case_bool_decide.
  - unfold duplicate. destruct (handles t !! x) as [e |]; [| done]. simpl. pose proof (named_inc p (object_path e) (namespace s)) as E. destruct (obref_inc _ _). simpl in *. rewrite E, H. by case_bool_decide.
  - by apply decs_gone.
Qed.

(** One more handle in a table of the system. *)
Lemma grant_counted p n h s pid t e :
  0 <= n -> tables s !! pid = Some t -> roomy p (n + 1) s -> counted p h s ->
  counted p h (mkObSys (obref_inc (object_path e) (namespace s)).2 (<[pid := (grant e t).2]> (tables s))).
Proof.
  intros Hn0 Ht [Hn Hnext Hfresh Hopen] Hc. unfold counted. simpl. rewrite named_inc, (open_on_insert p _ _ t _ Ht). unfold grant. simpl.
  rewrite open_in_insert by (apply (Hfresh pid); [done | lia]). unfold on, counted in *. rewrite Hc. pose proof (open_on_nonneg p (tables s)).
  case_bool_decide; simpl; f_equal; unfold with_ref_count; simpl; f_equal; [| lia].
  unfold add64. rewrite wrap_small by (unfold in_word; lia). lia.
Qed.

Lemma close_counted p h s pid t x e n :
  tables s !! pid = Some t -> handles t !! x = Some e -> counted p h s ->
  counted p h (mkObSys (obref_dec (object_path e) (namespace s)).2 (<[pid := mkHandles (delete x (handles t)) n]> (tables s))).
Proof.
  intros Ht Hx Hc. unfold counted. simpl. rewrite named_dec, (open_on_insert p _ _ t _ Ht), (open_in_delete p t x e n Hx). unfold on, counted in *. rewrite Hc.
  pose proof (open_on_delete p _ _ _ Ht) as Hd. pose proof (open_on_nonneg p (delete pid (tables s))). rewrite (open_in_delete p t x e n Hx) in Hd. unfold on in Hd.
  pose proof (count_on_nonneg p (map_to_list (delete x (handles t)))). unfold open_in in *. simpl in *.
  case_bool_decide; simpl; f_equal; unfold released, with_ref_count; simpl; [rewrite (proj2 (Z.eqb_neq _ _)) by lia |]; f_equal; lia.
Qed.

Lemma exit_counted p h s pid t :
  tables s !! pid = Some t -> counted p h s -> counted p h (mkObSys (drop_table t (namespace s)) (delete pid (tables s))).
Proof.
  intros Ht Hc. unfold counted in *. simpl. apply decs_counted; [apply open_on_nonneg |].
  rewrite Hc, (open_on_delete p _ _ _ Ht), merge_sort_Permutation. done.
Qed.

(** The name keeps its count, or goes when no handle is open on it. *)
Lemma exec_counted p n h c s :
  0 <= n -> roomy p (n + 1) s -> counted p h s -> replaces p c = false ->
  counted p h (exec c s) \/
  (named p (namespace (exec c s)) = None /\ open_on p (tables s) = 0 /\ exists q, c = CRemoveIf q /\ parse_path q = p).
Proof.
  intros Hn Hrm Hc Hr. destruct (aside c) eqn:Ha.
  { left. unfold counted. destruct (exec_aside p c s Ha Hr) as [-> ->]. exact Hc. }
  destruct c as [| | | q | | pid e | pid x | pid x acc | pid]; try done; simpl in *; try (destruct (tables s !! pid) as [t |] eqn:Ht; [| by left]).
  - rewrite named_remove_if. unfold counted in *. simpl. rewrite named_remove_if, Hc. simpl. pose proof (open_on_nonneg p (tables s)).
    case_bool_decide; [| by left]. destruct (Z.ltb_spec 1 (1 + open_on p (tables s))); [by left |].
    right. split_and!; [done | lia | by exists q].
  - left. unfold allocate. pose proof (grant_counted p n h s pid t e Hn Ht Hrm Hc) as E. by destruct (obref_inc _ _).
  - left. unfold close_handle. destruct (handles t !! x) as [e |] eqn:Hx; [| by rewrite insert_id; [destruct s |]].
    pose proof (close_counted p h s pid _ x _ (next_handle t) Ht Hx Hc) as E. by destruct (obref_dec _ _).
  - left. unfold duplicate. destruct (handles t !! x) as [e |] eqn:Hx; [| by rewrite insert_id; [destruct s |]].
    pose proof (grant_counted p n h s pid t (mkHandle (object_path e) (handle_type e) acc (inheritable e)) Hn Ht Hrm Hc) as E.
    simpl in *. by destruct (obref_inc _ _).
  - left. by apply exit_counted.
Qed.

(* ------------------------------------------------------------------ *)
(** ** Room for the calls *)

Lemma roomy_insert p n s pid t t' ns :
  0 <= n -> roomy p (n + 1) s -> tables s !! pid = Some t ->
  (0 <= next_handle t' <= next_handle t + 4) -> (forall h, next_handle t' <= h -> handles t' !! h = None) -> open_in p t' <= open_in p t + 1 ->
  roomy p n (mkObSys ns (<[pid := t']> (tables s))).
Proof.
  intros Hn0 [Hn Hnext Hfresh Hopen] Ht Hle Hf Ho. constructor; simpl; [lia | | |].
  - intros pid' t'' H. destruct (decide (pid = pid')) as [<- | Hne].
    + rewrite lookup_insert_eq in H. injection H as <-. specialize (Hnext _ _ Ht). lia.
    + rewrite lookup_insert_ne in H by done. specialize (Hnext _ _ H). lia.
  - intros pid' t'' h H. destruct (decide (pid = pid')) as [<- | Hne].
    + rewrite lookup_insert_eq in H. injection H as <-. apply Hf.
    + rewrite lookup_insert_ne in H by done. by apply (Hfresh pid').
  - rewrite (open_on_insert p _ _ t _ Ht). lia.
Qed.

Lemma roomy_grant p n s pid t e ns :
  0 <= n -> roomy p (n + 1) s -> tables s !! pid = Some t -> roomy p n (mkObSys ns (<[pid := (grant e t).2]> (tables s))).
Proof.
  intros Hn0 Hrm Ht. pose proof Hrm as [Hn Hnext Hfresh Hopen]. specialize (Hnext _ _ Ht).
  apply (roomy_insert p n s pid t); unfold grant; simpl; [done | done | done | | |]; rewrite ?wrap_small by (unfold in_word; lia).
  - lia.
  - intros h Hh. rewrite lookup_insert_ne by lia. apply (Hfresh pid); [done | lia].
  - rewrite open_in_insert by (apply (Hfresh pid); [done | lia]). destruct (on p e); lia.
Qed.

Lemma roomy_close p n s pid t x ns :
  0 <= n -> roomy p (n + 1) s -> tables s !! pid = Some t ->
  roomy p n (mkObSys ns (<[pid := mkHandles (delete x (handles t)) (next_handle t)]> (tables s))).
Proof.
  intros Hn0 Hrm Ht. pose proof Hrm as [Hn Hnext Hfresh Hopen]. specialize (Hnext _ _ Ht).
  apply (roomy_insert p n s pid t); simpl; [done | done | done | lia | |].
  - intros h Hh. rewrite lookup_delete_None. right. by apply (Hfresh pid).
  - destruct (handles t !! x) as [e |] eqn:Hx; [rewrite (open_in_delete p t x e (next_handle t) Hx); destruct (on p e); lia |].
    rewrite delete_id by done. destruct t; simpl; lia.
Qed.

Lemma roomy_same p n s ns : 0 <= n -> roomy p (n + 1) s -> roomy p n (mkObSys ns (tables s)).
Proof.
  intros Hn0 [Hn Hnext Hfresh Hopen]. constructor; simpl; [lia | | done | lia]. intros pid t H. specialize (Hnext _ _ H). lia.
Qed.

Lemma roomy_delete p n s ns pid t : 0 <= n -> roomy p (n + 1) s -> tables s !! pid = Some t -> roomy p n (mkObSys ns (delete pid (tables s))).
Proof.
  intros Hn0 [Hn Hnext Hfresh Hopen] Ht. constructor; simpl; [lia | | |].
  - intros pid' t' [_ H]%lookup_delete_Some. specialize (Hnext _ _ H). lia.
  - intros pid' t' h [_ H]%lookup_delete_Some. by apply (Hfresh pid').
  - rewrite (open_on_delete p _ _ _ Ht) in Hopen. pose proof (count_on_nonneg p (map_to_list (handles t))). unfold open_in in Hopen. lia.
Qed.

Lemma roomy_process p n s ns pid : 0 <= n -> roomy p (n + 1) s -> tables s !! pid = None -> roomy p n (mkObSys ns (<[pid := new_handle_table]> (tables s))).
Proof.
  intros Hn0 [Hn Hnext Hfresh Hopen] Ht. constructor; simpl; [lia | | |].
  - intros pid' t' [[<- <-] | [_ H]]%lookup_insert_Some; [simpl; lia | specialize (Hnext _ _ H); lia].
  - intros pid' t' h [[<- <-] | [_ H]]%lookup_insert_Some; [done | by apply (Hfresh pid')].
  - rewrite open_on_fresh, open_in_new by done. lia.
Qed.

Lemma exec_roomy p n c s : 0 <= n -> roomy p (n + 1) s -> roomy p n (exec c s).
Proof.
  intros Hn Hrm. destruct s as [ns ts]. destruct c as [q t sd | q target | q | q | pid | pid e | pid x | pid x acc | pid]; simpl; try by apply (roomy_same p n (mkObSys ns ts)).
  all: destruct (ts !! pid) as [t |] eqn:Ht; try by apply (roomy_same p n (mkObSys ns ts)).
  - by apply (roomy_process p n (mkObSys ns ts)).
  - unfold allocate. destruct (obref_inc _ _) as [r ns']. by apply (roomy_grant p n (mkObSys ns ts) pid t e ns').
  - unfold close_handle. destruct (handles t !! x) as [e |] eqn:Hx; [| rewrite insert_id by done; by apply (roomy_same p n (mkObSys ns ts))].
    destruct (obref_dec _ _) as [r ns']. by apply (roomy_close p n (mkObSys ns ts)).
  - unfold duplicate. destruct (handles t !! x) as [e |] eqn:Hx; [| rewrite insert_id by done; by apply (roomy_same p n (mkObSys ns ts))].
    simpl. destruct (obref_inc _ _) as [r ns']. by apply (roomy_grant p n (mkObSys ns ts) pid t (mkHandle (object_path e) (handle_type e) acc (inheritable e)) ns').
  - by apply (roomy_delete p n (mkObSys ns ts) _ pid t).
Qed.

(* ------------------------------------------------------------------ *)
(** ** The lifetime of a name *)

Lemma run_gone p cs s : forallb (fun c => negb (replaces p c)) cs = true -> named p (namespace s) = None -> named p (namespace (run cs s)) = None.
Proof.
  revert s. induction cs as [| c cs IH]; intros s Hr H; [done |]. simpl in Hr. apply andb_true_iff in Hr as [Hc Hr]. apply negb_true_iff in Hc.
  apply IH; [done |]. by apply exec_gone.
Qed.

(** C32: a named object of the object manager lives exactly as long as its
    references.  Take an object at a path whose count is one for the name
    and one for each handle open on it, and let processes start, open,
    duplicate and close handles, exit with handles open, and insert, link,
    remove and remove-if-unreferenced objects, in any order and number that
    leaves handle values to give; only no insertion or forcible removal
    is at the path or at a directory above it.  Then either the object is
    still at the path, unchanged but for a count of one plus the handles
    open on it in all processes, and remove-if-unreferenced would take it
    exactly when no handle is open; or the path names no object, and it was
    such a removal that took it, at a moment when no handle was open. *)
Theorem named_object_lifetime p h s cs :
  counted p h s -> roomy p (Z.of_nat (length cs)) s -> forallb (fun c => negb (replaces p c)) cs = true ->
  (counted p h (run cs s) /\
   forall q, parse_path q = p ->
     (remove_object_if_unreferenced q (namespace (run cs s))).1 = if open_on p (tables (run cs s)) =? 0 then Removed else RefusedRefcount) \/
  (named p (namespace (run cs s)) = None /\
   exists before q after, cs = before ++ CRemoveIf q :: after /\ parse_path q = p /\ counted p h (run before s) /\ open_on p (tables (run before s)) = 0).
Proof.
  revert s. induction cs as [| c cs IH]; intros s Hc Hrm Hr.
  - left. split; [done |]. intros q Hq. cbn [run fold_left]. unfold counted in Hc. rewrite (remove_if_outcome p q _ Hq), Hc. cbn [ref_count with_ref_count].
    pose proof (open_on_nonneg p (tables s)). destruct (Z.ltb_spec 1 (1 + open_on p (tables s))), (Z.eqb_spec (open_on p (tables s)) 0); first [done | lia].
  - simpl in Hr. apply andb_true_iff in Hr as [Hnc Hr]. apply negb_true_iff in Hnc.
    assert (roomy p (Z.of_nat (length cs) + 1) s) as Hrm' by (simpl in Hrm; by rewrite Nat2Z.inj_succ in Hrm).
    destruct (exec_counted p (Z.of_nat (length cs)) h c s ltac:(lia) Hrm' Hc Hnc) as [Hc' | (Hgone & Hzero & q & -> & Hq)].
    + destruct (IH (exec c s) Hc' (exec_roomy p (Z.of_nat (length cs)) c s ltac:(lia) Hrm') Hr) as [H | (H & before & q & after & -> & Hq & Hb)]; [by left |].
      right. split; [done |]. by exists (c :: before), q, after.
    + right. split; [exact (run_gone p cs _ Hr Hgone) |]. by exists [], q, cs.
Qed.

(* ------------------------------------------------------------------ *)
(** ** Two processes and an event *)

Definition event_path : string := "\BaseNamedObjects\Ready".
Definition event_header : ObjectHeader := mkObject "Ready" TEvent 1 None None.
Definition event_handle (path : string) : HandleEntry := mkHandle path TEvent 0 false.

Definition event_named : ObSys := run [CProcess 1; CProcess 2; CInsert event_path TEvent None] ob_boot.

(** The second process names the event with other separators. *)
Definition event_calls : list ObCall :=
  [COpen 1 (event_handle event_path); COpen 2 (event_handle "/BaseNamedObjects//Ready"); CDuplicate 2 4 1; CInsert "\BaseNamedObjects\Other" TEvent None;
   CRemoveIf event_path; CClose 1 4; CExit 2; CRemoveIf "\BaseNamedObjects\Other"].

Lemma event_named_counted : counted (parse_path event_path) event_header event_named.
Proof. vm_compute. reflexivity. Qed.

Lemma event_named_roomy n : 0 <= n < 1000 -> roomy (parse_path event_path) n event_named.
Proof.
  intros Hn. assert (tables event_named = {[1 := new_handle_table; 2 := new_handle_table]}) as Ht by (vm_compute; reflexivity).
  constructor; rewrite ?Ht; [lia | | |].
  - intros pid t [[<- <-] | [_ [_ <-]%lookup_singleton_Some]]%lookup_insert_Some; simpl; lia.
  - intros pid t h [[<- <-] | [_ [_ <-]%lookup_singleton_Some]]%lookup_insert_Some; done.
  - assert (open_on (parse_path event_path) {[1 := new_handle_table; 2 := new_handle_table]} = 0) as -> by (vm_compute; reflexivity). lia.
Qed.

(** The refusal while three handles are open, and the name at the end. *)
Lemma named_object_lifetime_witness :
  (counted (parse_path event_path) event_header (run event_calls event_named) /\
   forall q, parse_path q = parse_path event_path ->
     (remove_object_if_unreferenced q (namespace (run event_calls event_named))).1 =
     if open_on (parse_path event_path) (tables (run event_calls event_named)) =? 0 then Removed else RefusedRefcount) \/
  (named (parse_path event_path) (namespace (run event_calls event_named)) = None /\
   exists before q after, event_calls = before ++ CRemoveIf q :: after /\ parse_path q = parse_path event_path /\
     counted (parse_path event_path) event_header (run before event_named) /\ open_on (parse_path event_path) (tables (run before event_named)) = 0).
Proof.
  apply (named_object_lifetime (parse_path event_path) event_header event_named event_calls).
  - apply event_named_counted.
  - apply event_named_roomy. simpl. lia.
  - vm_compute. reflexivity.
Defined.

(* ------------------------------------------------------------------ *)
(** ** Where the counts and the handles part *)

(** Inserting over a named object with an open handle starts its count
    again: the next removal takes the name with the handle still open. *)
Lemma insert_over_live_handle :
  let s := run [COpen 1 (event_handle event_path); CInsert event_path TEvent None] event_named in
  open_on (parse_path event_path) (tables s) = 1 /\ (remove_object_if_unreferenced event_path (namespace s)).1 = Removed.
Proof. vm_compute. split; reflexivity. Qed.

(** A handle opened before its path was inserted took no reference, and its
    close gives one back: the handle opened since then no longer counts. *)
Lemma early_handle_releases :
  let s := run [COpen 1 (event_handle "\Late"); CInsert "\Late" TEvent None; COpen 2 (event_handle "\Late"); CClose 1 4] event_named in
  open_on (parse_path "\Late") (tables s) = 1 /\ (remove_object_if_unreferenced "\Late" (namespace s)).1 = Removed.
Proof. vm_compute. split; reflexivity. Qed.

(** An insertion at the path of a directory takes all that it holds. *)
Lemma insert_over_directory :
  let s := run [COpen 1 (event_handle event_path); CInsert "\BaseNamedObjects" TEvent None] event_named in
  open_on (parse_path event_path) (tables s) = 1 /\ has_object event_path (namespace s) = false.
Proof. vm_compute. split; reflexivity. Qed.
