(* ===== verification/Futex.v ===== *)
(** * Futexes (kernel/src/syscall/mod.rs, subsys/linux/syscall.rs)

    The wait queues of futex(2), their keys, and the operations: the check
    of the word and the enqueueing of FUTEX_WAIT under one lock, the way out
    of a wait, FUTEX_WAKE, FUTEX_REQUEUE, FUTEX_WAKE_OP, the wake of an
    exiting thread and the sweep of an exiting process.  What a call does
    between two acquisitions of the queue lock is one definition. *)

From S2P Require Import Prelude WaitList Vma Dispatcher.

(* ------------------------------------------------------------------ *)
(** ** Keys *)

Abbreviation FutexKey := (Z * Z)%type.
Definition FUTEX_SHARED_NS : Z := U64_MAX.

Definition futex_shared_key_from_phys (phys : Z) : FutexKey := (FUTEX_SHARED_NS, phys).

(** [vs] is the address space of the caller, [translate] the translation of
    its page tables. *)
Definition futex_shared_phys (vs : option VmSpace) (translate : Z -> option Z) (uaddr : Z) : option Z :=
  s ← vs; vma ← find_vma s (page_align_down uaddr);
  if vm_flags vma .& MAP_SHARED =? 0 then None else translate uaddr.

(** [phys] is what [futex_shared_phys] gives. *)
Definition futex_key (private : bool) (pid uaddr : Z) (phys : option Z) : FutexKey :=
  if private then (pid, uaddr)
  else match phys with Some phys => futex_shared_key_from_phys phys | None => (pid, uaddr) end.

(* ------------------------------------------------------------------ *)
(** ** State *)

Record Futexes := mkFutexes {
  FUTEX_WAITERS : gmap FutexKey (list Z);
  FUTEX_REQUEUE_DEST : gmap (Z * Z) FutexKey;
  THREAD_TABLE : list Thread;
  resched : bool }.

Definition with_waiters (w : gmap FutexKey (list Z)) (f : Futexes) : Futexes := mkFutexes w (FUTEX_REQUEUE_DEST f) (THREAD_TABLE f) (resched f).
Definition with_threads (l : list Thread) (f : Futexes) : Futexes := mkFutexes (FUTEX_WAITERS f) (FUTEX_REQUEUE_DEST f) l (resched f).

(** A bucket is kept only while it has waiters. *)
Definition put_bucket (key : FutexKey) (l : list Z) (w : gmap FutexKey (list Z)) : gmap FutexKey (list Z) :=
  match l with [] => delete key w | _ => <[key := l]> w end.

Definition priority_of (id : Z) (threads : list Thread) : Z := match find_thread id threads with Some t => priority t | None => 0 end.

Definition is_blocked (threads : list Thread) (id : Z) : bool :=
  match find_thread id threads with Some t => bool_decide (state t = Blocked) | None => false end.

(* ------------------------------------------------------------------ *)
(** ** Waking *)

(** The scan of a bucket: [woken] so far, the waiters left, the threads and
    the highest priority woken. *)
Fixpoint wake_scan (max_wake : Z) (l woken : list Z) (threads : list Thread) (prio : Z) : list Z * list Z * list Thread * Z :=
  match l with
  | [] => (woken, [], threads, prio)
  | id :: rest =>
      if Z.of_nat (length woken) <? max_wake then
        if is_blocked threads id then
          let threads := update_thread id ready_thread threads in
          wake_scan max_wake rest (woken ++ [id]) threads (Z.max prio (priority_of id threads))
        else wake_scan max_wake rest woken threads prio
      else (woken, l, threads, prio)
  end.

Definition futex_wake_bucket_live (key : FutexKey) (max_wake cur_tid : Z) (f : Futexes) : list Z * Futexes :=
  let cur_prio := priority_of cur_tid (THREAD_TABLE f) in
  match FUTEX_WAITERS f !! key with
  | None => ([], f)
  | Some l =>
      let '(woken, rest, threads, prio) := wake_scan max_wake l [] (THREAD_TABLE f) 0 in
      (woken, mkFutexes (put_bucket key rest (FUTEX_WAITERS f)) (FUTEX_REQUEUE_DEST f) threads (resched f || (cur_prio <? prio)))
  end.

(** FUTEX_WAKE: no count means all. *)
Definition wake_budget (val : Z) : Z := if val =? 0 then U64_MAX else val.

Definition futex_wake (key : FutexKey) (val cur_tid : Z) (f : Futexes) : list Z * Futexes := futex_wake_bucket_live key (wake_budget val) cur_tid f.

(* ------------------------------------------------------------------ *)
(** ** Waiting *)

Inductive FutexWaitOutcome := Enqueued | ValueMismatch | Fault.

#[global] Instance FutexWaitOutcome_eq_dec : EqDecision FutexWaitOutcome.
Proof. solve_decision. Defined.

Definition futex_block (wake : Z) (t : Thread) : Thread := mkThread (tid t) Blocked wake (priority t) (ctx_rsp_valid t).

(** [rposition] and [remove]: the last occurrence goes. *)
Definition remove_last (id : Z) (l : list Z) : list Z :=
  reverse (match list_find (fun x => x = id) (reverse l) with Some (i, _) => delete i (reverse l) | None => reverse l end).

(** [read] is what the word at the address reads, under the lock. *)
Definition futex_wait_check_and_enqueue (key : FutexKey) (val id wake_tick : Z) (read : option Z) (f : Futexes) : FutexWaitOutcome * Futexes :=
  match read with
  | None => (Fault, f)
  | Some current =>
      if negb (current =? wrap 32 val) then (ValueMismatch, f)
      else
        let l := default [] (FUTEX_WAITERS f !! key) ++ [id] in
        match find_thread id (THREAD_TABLE f) with
        | Some t =>
            if bool_decide (state t = Dead) then (Enqueued, with_waiters (put_bucket key (remove_last id l) (FUTEX_WAITERS f)) f)
            else (Enqueued, with_threads (update_thread id (futex_block wake_tick) (THREAD_TABLE f)) (with_waiters (<[key := l]> (FUTEX_WAITERS f)) f))
        | None => (Enqueued, with_waiters (<[key := l]> (FUTEX_WAITERS f)) f)
        end
  end.

(** The way out of a wait: whether it was still queued. *)
Definition futex_wait_leave (pid id : Z) (wait_key : FutexKey) (f : Futexes) : bool * Futexes :=
  let key := default wait_key (FUTEX_REQUEUE_DEST f !! (pid, id)) in
  let dest := delete (pid, id) (FUTEX_REQUEUE_DEST f) in
  match FUTEX_WAITERS f !! key with
  | Some l =>
      let l' := List.filter (fun x => negb (x =? id)) l in
      ((length l' <? length l)%nat, mkFutexes (put_bucket key l' (FUTEX_WAITERS f)) dest (THREAD_TABLE f) (resched f))
  | None => (false, mkFutexes (FUTEX_WAITERS f) dest (THREAD_TABLE f) (resched f))
  end.

(* ------------------------------------------------------------------ *)
(** ** Requeueing *)

(** FUTEX_CMP_REQUEUE looks at the word first, outside the lock. *)
Definition futex_requeue_check (op val3 : Z) (read : option Z) : option Z :=
  if op =? 4 then
    match read with
    | None => Some (-14)
    | Some current => if negb (current =? wrap 32 val3) then Some (-11) else None
    end
  else None.

Definition any_blocked (threads : list Thread) (id : Z) : bool := existsb (fun t => (tid t =? id) && bool_decide (state t = Blocked)) threads.

(** The waiters of the source, in order, to wake or to move. *)
Fixpoint requeue_split (threads : list Thread) (max_wake max_requeue : Z) (l wakes moves : list Z) : list Z * list Z :=
  match l with
  | [] => (wakes, moves)
  | id :: rest =>
      if Z.of_nat (length wakes) <? max_wake then
        if any_blocked threads id then requeue_split threads max_wake max_requeue rest (wakes ++ [id]) moves
        else requeue_split threads max_wake max_requeue rest wakes moves
      else if Z.of_nat (length moves) <? max_requeue then requeue_split threads max_wake max_requeue rest wakes (moves ++ [id])
      else requeue_split threads max_wake max_requeue rest wakes moves
  end.

(** Under the queue lock: the threads to wake, taken off the queue. *)
Definition futex_requeue_pick (pid : Z) (src_key dst_key : FutexKey) (max_wake max_requeue : Z) (f : Futexes) : list Z * Futexes :=
  let src := default [] (FUTEX_WAITERS f !! src_key) in
  let waiters := delete src_key (FUTEX_WAITERS f) in
  let '(wakes, moves) := requeue_split (THREAD_TABLE f) max_wake max_requeue src [] [] in
  match moves with
  | [] => (wakes, with_waiters waiters f)
  | _ =>
      (wakes, mkFutexes (<[dst_key := default [] (waiters !! dst_key) ++ moves]> waiters)
                (fold_left (fun d id => <[(pid, id) := dst_key]> d) moves (FUTEX_REQUEUE_DEST f)) (THREAD_TABLE f) (resched f))
  end.

(** Under the thread-table lock alone: they are made ready. *)
Definition futex_requeue_wake (cur_tid : Z) (ids : list Z) (f : Futexes) : Futexes :=
  let cur_prio := priority_of cur_tid (THREAD_TABLE f) in
  let '(threads, prio, _) := fold_left wake_one ids (THREAD_TABLE f, 0, false) in
  mkFutexes (FUTEX_WAITERS f) (FUTEX_REQUEUE_DEST f) threads (resched f || (cur_prio <? prio)).

(* ------------------------------------------------------------------ *)
(** ** FUTEX_WAKE_OP *)

(** An [i32] of 12 bits. *)
Definition sext12 (v : Z) : Z := let v := v .& 0xFFF in if v .& 0x800 =? 0 then v else v - 0x1000.

Record FutexOp := mkFutexOp { op_field : Z; oparg : Z; cmp_field : Z; cmparg : Z }.

Definition decode_op (val3 : Z) : FutexOp :=
  let encoded := val3 .& 0xFFFFFFFF in
  let oparg := sext12 ((encoded .>> 12) .& 0xFFF) in
  mkFutexOp ((encoded .>> 28) .& 0x7)
    (if encoded .& 0x80000000 =? 0 then oparg
     else let oparg := if (0 <=? oparg) && (oparg <=? 31) then oparg else oparg .& 31 in swrap32 (1 .<< (oparg .& 31)))
    ((encoded .>> 24) .& 0xF) (sext12 (encoded .& 0xFFF)).

Definition apply_op (o : FutexOp) (oldval : Z) : option Z :=
  if op_field o =? 0 then Some (oparg o)
  else if op_field o =? 1 then Some (swrap32 (oldval + oparg o))
  else if op_field o =? 2 then Some (Z.lor oldval (oparg o))
  else if op_field o =? 3 then Some (Z.land oldval (Z.lnot (oparg o)))
  else if op_field o =? 4 then Some (Z.lxor oldval (oparg o))
  else None.

Definition compare_op (o : FutexOp) (oldval : Z) : option bool :=
  if cmp_field o =? 0 then Some (oldval =? cmparg o)
  else if cmp_field o =? 1 then Some (negb (oldval =? cmparg o))
  else if cmp_field o =? 2 then Some (oldval <? cmparg o)
  else if cmp_field o =? 3 then Some (oldval <=? cmparg o)
  else if cmp_field o =? 4 then Some (cmparg o <? oldval)
  else if cmp_field o =? 5 then Some (cmparg o <=? oldval)
  else None.

(** The result, the word written, the threads woken.  [read] is the word at
    the second address, [writable] whether it can be stored to; the queue
    lock is held throughout. *)
Definition futex_wake_op (key1 key2 : FutexKey) (val val2 val3 cur_tid : Z) (read : option Z) (writable : bool) (f : Futexes)
    : Z * option Z * list Z * Futexes :=
  let o := decode_op val3 in
  match read with
  | None => (-14, None, [], f)
  | Some word =>
      let oldval := swrap32 word in
      match apply_op o oldval with
      | None => (-22, None, [], f)
      | Some newval =>
          if negb writable then (-14, None, [], f)
          else
            let word := Some (wrap 32 newval) in
            let '(woken1, f) := futex_wake_bucket_live key1 (wake_budget val) cur_tid f in
            match compare_op o oldval with
            | None => (-22, word, woken1, f)
            | Some false => (Z.of_nat (length woken1), word, woken1, f)
            | Some true =>
                let '(woken2, f) := futex_wake_bucket_live key2 (wake_budget val2) cur_tid f in
                (Z.of_nat (length (woken1 ++ woken2)), word, woken1 ++ woken2, f)
            end
      end
  end.

(* ------------------------------------------------------------------ *)
(** ** Exits *)

(** [futex_wake_for_exit]: the waiters taken off under the queue lock, and
    made ready under the thread-table lock. *)
Definition futex_exit_pick (pid uaddr max_wake : Z) (f : Futexes) : list Z * Futexes :=
  match FUTEX_WAITERS f !! (pid, uaddr) with
  | Some l =>
      let n := Z.to_nat (Z.min max_wake (Z.of_nat (length l))) in
      (take n l, with_waiters (put_bucket (pid, uaddr) (drop n l) (FUTEX_WAITERS f)) f)
  | None => ([], f)
  end.

Definition exit_ready (t : Thread) : Thread :=
  if bool_decide (state t = Blocked) then mkThread (tid t) Ready (wake_tick t) (priority t) (ctx_rsp_valid t) else t.

Definition futex_exit_wake (ids : list Z) (f : Futexes) : Futexes :=
  with_threads (fold_left (fun l id => update_thread id exit_ready l) ids (THREAD_TABLE f)) f.

(** [futex_drain_pid]; [pid_of] is the process of a thread. *)
Definition evict (dying : list Z) (key : FutexKey) (l : list Z) : option (list Z) :=
  if key.1 =? FUTEX_SHARED_NS then
    match List.filter (fun t => negb (existsb (Z.eqb t) dying)) l with [] => None | l => Some l end
  else Some l.

Definition futex_drain_pid (pid_of : Z -> Z) (pid : Z) (f : Futexes) : Futexes :=
  let waiters := filter (fun '(k, _) => negb ((k.1 =? pid) && negb (k.1 =? FUTEX_SHARED_NS)) = true) (FUTEX_WAITERS f) in
  let dying := tid <$> List.filter (fun t => pid_of (tid t) =? pid) (THREAD_TABLE f) in
  let waiters := match dying with [] => waiters | _ => map_imap (evict dying) waiters end in
  mkFutexes waiters (filter (fun '(k, _) => negb (k.1 =? pid) = true) (FUTEX_REQUEUE_DEST f)) (THREAD_TABLE f) (resched f).

(* ------------------------------------------------------------------ *)
(** ** Timeouts *)

Inductive TimeoutNs := Indefinite | Relative (ns : Z) | AlreadyExpired.

Definition sat_mul64 (a b : Z) : Z := Z.min (a * b) U64_MAX.

(** Now, on the wall clock: the time-stamp counter where it is calibrated,
    the ticks before that. *)
Definition wall_now_ns (monotonic_ns ticks wall_secs_at_boot : Z) : Z :=
  let '(mono_secs, sub_nsecs) :=
    if negb (monotonic_ns =? 0) then (monotonic_ns / 1000000000, monotonic_ns mod 1000000000)
    else (ticks / 100, (ticks mod 100) * 10000000) in
  sat_add64 (sat_mul64 (sat_add64 wall_secs_at_boot mono_secs) 1000000000) sub_nsecs.

(** The timeout argument: [None] for a null pointer or an operation that
    takes none, [Some None] for one that cannot be read. *)
Definition futex_timeout (timeout : option (option (Z * Z))) (abs_realtime : bool) (now_ns : Z) : TimeoutNs + Z :=
  match timeout with
  | None => inl Indefinite
  | Some None => inr (-14)
  | Some (Some (tv_sec, tv_nsec)) =>
      if 1000000000 <=? tv_nsec then inr (-22)
      else
        let raw_ns := sat_add64 (sat_mul64 tv_sec 1000000000) tv_nsec in
        if abs_realtime then if raw_ns <=? now_ns then inl AlreadyExpired else inl (Relative (raw_ns - now_ns))
        else inl (Relative raw_ns)
  end.

(** [get_ticks]: the published count, or the counter's where that is ahead. *)
Definition get_ticks (published tsc_per_tick tsc_at_boot tsc : Z) : Z :=
  if tsc_per_tick =? 0 then published
  else let tsc_floor := sub64 tsc tsc_at_boot / tsc_per_tick in if published <? tsc_floor then tsc_floor else published.

Definition div_ceil (a b : Z) : Z := a / b + (if a mod b =? 0 then 0 else 1).

(** [relative_ns_to_wake_tick]: [tsc] is the counter, [ticks] the tick the
    fallback reads. *)
Definition relative_ns_to_wake_tick (tsc_per_tick tsc_at_boot tsc ticks ns : Z) : Z :=
  if tsc_per_tick =? 0 then sat_add64 ticks (sat_add64 (div_ceil ns 10000000) 1)
  else
    let ns_cycles := wrap 64 (Z.min (ns * tsc_per_tick) (2 ^ 128 - 1) / 10000000) in
    let elapsed_now := sub64 tsc tsc_at_boot in
    div_ceil (sat_add64 elapsed_now ns_cycles) tsc_per_tick.

(** Where a wait begins: the errors before the queue is touched, or the tick
    its deadline falls on.  [valid] is the check of the pointer. *)
Definition futex_wait_begin (uaddr : Z) (valid : bool) (t : TimeoutNs) (tsc_per_tick tsc_at_boot tsc ticks : Z) : Z + Z :=
  match t with
  | AlreadyExpired => inl (-110)
  | _ =>
      if negb valid || negb (uaddr .& 3 =? 0) then inl (-14)
      else inr match t with Relative ns => relative_ns_to_wake_tick tsc_per_tick tsc_at_boot tsc ticks ns | _ => U64_MAX end
  end.

(** Where the call goes after its arguments are read. *)
Inductive FutexCall := GoWait (wake_tick : Z) | GoWake | GoRequeue | GoWakeOp | GoReturn (r : Z).

Definition FUTEX_PRIVATE_FLAG : Z := 0x80.
Definition FUTEX_CLOCK_REALTIME : Z := 0x100.
Definition FUTEX_OPS_WITH_TIMEOUT : list Z := [0; 9; 6; 8; 11].

(** [timespec] is what the timeout pointer reads, [valid] the check of the
    futex address, [now_ns] the wall clock. *)
Definition sys_futex_linux (uaddr futex_op timeout_ptr : Z) (timespec : option (Z * Z)) (valid : bool)
    (now_ns tsc_per_tick tsc_at_boot tsc ticks : Z) : FutexCall :=
  let op := futex_op .& 0x7F in
  let abs_realtime := negb (futex_op .& FUTEX_CLOCK_REALTIME =? 0) in
  let consumed := existsb (Z.eqb op) FUTEX_OPS_WITH_TIMEOUT in
  match futex_timeout (if (timeout_ptr =? 0) || negb consumed then None else Some timespec) abs_realtime now_ns with
  | inr e => GoReturn e
  | inl t =>
      if (op =? 0) || (op =? 9) then
        match futex_wait_begin uaddr valid t tsc_per_tick tsc_at_boot tsc ticks with inl r => GoReturn r | inr wake => GoWait wake end
      else if (op =? 1) || (op =? 10) then GoWake
      else if (op =? 3) || (op =? 4) then GoRequeue
      else if op =? 5 then GoWakeOp
      else GoReturn (-38)
  end.
