(* ===== verification/FutexRun.v ===== *)
(** * Futexes under concurrency (kernel/src/syscall/mod.rs,
      subsys/linux/syscall.rs)

    The futex calls of all threads, interleaved with each other, with stores
    to the futex words, with the deadline scan of the scheduler, with wakes
    that come from elsewhere ([unblock_process]) and with exits. A call is cut
    where it lets go of the queue lock. Which requeues are made is a
    parameter of the steps; the invariant needs those of [covered]. *)

From S2P Require Import Prelude WaitList Dispatcher Futex.

(* ------------------------------------------------------------------ *)
(** ** Threads in calls *)

(** A thread is parked in FUTEX_WAIT, with its key, the word and the value
    it found there, or between the two halves of a requeue or of an exit's
    wake. *)
Inductive FPc :=
  | FParked (wait_key : FutexKey) (a v : Z)
  | FWaking (ids : list Z) (exiting : bool).

(** Taken off its queue by a wake; back from a wait, timed out or not. *)
Inductive FObs := OWoken (t : Z) | OLeft (t : Z) (timed_out : bool).

Record Fx := mkFx { fx : Futexes; words : gmap Z Z; fpcs : gmap Z FPc; flog : list FObs }.

Definition st_of (l : list Thread) (t : Z) : option ThreadState := state <$> find_thread t l.

Definition set_state (st : ThreadState) (th : Thread) : Thread := mkThread (tid th) st (wake_tick th) (priority th) (ctx_rsp_valid th).

Definition bucket (f : Futexes) (k : FutexKey) : list Z := default [] (FUTEX_WAITERS f !! k).

Section run.
(** The process of a thread. *)
Context (pid_of : Z -> Z).

Definition kill (pid : Z) (th : Thread) : Thread := if pid_of (tid th) =? pid then set_state Dead th else th.

(** A requeue by [t] has room for all waiters, and they are of the caller's
    process. *)
Definition covered (t : Z) (src : list Z) (max_wake max_requeue : Z) : Prop :=
  0 <= max_wake /\ 0 <= max_requeue /\ Z.of_nat (length src) <= max_wake + max_requeue /\ Forall (fun x => pid_of x = pid_of t) src.

(** The steps of all threads. [requeues] says which requeues are made: of a
    queue [src] by [t], with its two limits. *)
Inductive fx_step (requeues : Z -> list Z -> Z -> Z -> Prop) (s : Fx) : Fx -> Prop :=
| FxStore a v : fx_step requeues s (mkFx (fx s) (<[a := v]> (words s)) (fpcs s) (flog s))
| FxSpawn th : find_thread (tid th) (THREAD_TABLE (fx s)) = None -> fpcs s !! tid th = None ->
    fx_step requeues s (mkFx (with_threads (THREAD_TABLE (fx s) ++ [th]) (fx s)) (words s) (fpcs s) (flog s))
| FxOther t st : (forall wk a v, fpcs s !! t <> Some (FParked wk a v)) -> st_of (THREAD_TABLE (fx s)) t <> Some Dead ->
    fx_step requeues s (mkFx (with_threads (update_thread t (set_state st) (THREAD_TABLE (fx s))) (fx s)) (words s) (fpcs s) (flog s))
| FxUnblock t : st_of (THREAD_TABLE (fx s)) t = Some Blocked ->
    fx_step requeues s (mkFx (with_threads (update_thread t (set_state Ready) (THREAD_TABLE (fx s))) (fx s)) (words s) (fpcs s) (flog s))
| FxTick now :
    fx_step requeues s (mkFx (with_threads (due_wake_scan now (THREAD_TABLE (fx s))) (fx s)) (words s) (fpcs s) (flog s))
| FxWait t a uaddr val private phys wake f' : fpcs s !! t = None -> is_Some (find_thread t (THREAD_TABLE (fx s))) ->
    let key := futex_key private (pid_of t) uaddr phys in
    futex_wait_check_and_enqueue key val t wake (words s !! a) (fx s) = (Enqueued, f') ->
    fx_step requeues s (mkFx f' (words s) (<[t := FParked key a (wrap 32 val)]> (fpcs s)) (flog s))
| FxLeave t wk a v timed_out f : fpcs s !! t = Some (FParked wk a v) -> st_of (THREAD_TABLE (fx s)) t = Some Ready ->
    futex_wait_leave (pid_of t) t wk (fx s) = (timed_out, f) ->
    fx_step requeues s (mkFx (with_threads (update_thread t (set_state Running) (THREAD_TABLE f)) f) (words s) (delete t (fpcs s)) (OLeft t timed_out :: flog s))
| FxWake t key val ids f : fpcs s !! t = None ->
    futex_wake key val t (fx s) = (ids, f) ->
    fx_step requeues s (mkFx f (words s) (fpcs s) (map OWoken ids ++ flog s))
| FxWakeOp t key1 key2 val val2 val3 a writable r w ids f : fpcs s !! t = None ->
    futex_wake_op key1 key2 val val2 val3 t (words s !! a) writable (fx s) = (r, w, ids, f) ->
    fx_step requeues s (mkFx f (match w with Some x => <[a := x]> (words s) | None => words s end) (fpcs s) (map OWoken ids ++ flog s))
| FxRequeue t uaddr uaddr2 private phys phys2 max_wake max_requeue ids f : fpcs s !! t = None ->
    let src := futex_key private (pid_of t) uaddr phys in
    let dst := futex_key private (pid_of t) uaddr2 phys2 in
    requeues t (bucket (fx s) src) max_wake max_requeue ->
    futex_requeue_pick (pid_of t) src dst max_wake max_requeue (fx s) = (ids, f) ->
    fx_step requeues s (mkFx f (words s) (<[t := FWaking ids false]> (fpcs s)) (map OWoken ids ++ flog s))
| FxRequeueWake t ids : fpcs s !! t = Some (FWaking ids false) ->
    fx_step requeues s (mkFx (futex_requeue_wake t ids (fx s)) (words s) (delete t (fpcs s)) (flog s))
| FxExit t uaddr max_wake ids f : fpcs s !! t = None ->
    futex_exit_pick (pid_of t) uaddr max_wake (fx s) = (ids, f) ->
    fx_step requeues s (mkFx f (words s) (<[t := FWaking ids true]> (fpcs s)) (map OWoken ids ++ flog s))
| FxExitWake t ids : fpcs s !! t = Some (FWaking ids true) ->
    fx_step requeues s (mkFx (futex_exit_wake ids (fx s)) (words s) (delete t (fpcs s)) (flog s))
| FxKill pid :
    fx_step requeues s (mkFx (with_threads (map (kill pid) (THREAD_TABLE (fx s))) (fx s)) (words s) (fpcs s) (flog s))
| FxDrain pid : (forall t, pid_of t = pid -> forall st, st_of (THREAD_TABLE (fx s)) t = Some st -> st = Dead) ->
    fx_step requeues s (mkFx (futex_drain_pid pid_of pid (fx s)) (words s) (fpcs s) (flog s)).

Definition fx_boot (threads : list Thread) : Fx := mkFx (mkFutexes ∅ ∅ threads false) ∅ ∅ [].

(** The queue a parked thread is on: where a requeue has moved it, or where
    it went. *)
Definition cur_key (f : Futexes) (t : Z) (wk : FutexKey) : FutexKey := default wk (FUTEX_REQUEUE_DEST f !! (pid_of t, t)).

(** Taken off a queue by a wake that has its second half before it. *)
Definition flying (P : gmap Z FPc) (t : Z) : Prop := exists u ids e, P !! u = Some (FWaking ids e) /\ t ∈ ids.

(** Woken since the last time it left a wait. *)
Fixpoint owed (t : Z) (l : list FObs) : bool :=
  match l with
  | [] => false
  | OWoken u :: l => if u =? t then true else owed t l
  | OLeft u _ :: l => if u =? t then false else owed t l
  end.

(** A wake takes a thread that owes no return, and a thread that was woken
    does not report a timeout. *)
Fixpoint log_ok (l : list FObs) : Prop :=
  match l with
  | [] => True
  | OWoken t :: l => owed t l = false /\ log_ok l
  | OLeft t timed_out :: l => (owed t l = true -> timed_out = false) /\ log_ok l
  end.

Record fx_ok (s : Fx) : Prop := mkFxOk {
  ok_nodup : forall k, NoDup (bucket (fx s) k);
  ok_queued : forall k t, t ∈ bucket (fx s) k -> exists wk a v, fpcs s !! t = Some (FParked wk a v) /\ cur_key (fx s) t wk = k;
  ok_private : forall k t, t ∈ bucket (fx s) k -> k.1 = FUTEX_SHARED_NS \/ k.1 = pid_of t;
  ok_table : forall t wk a v, fpcs s !! t = Some (FParked wk a v) -> is_Some (st_of (THREAD_TABLE (fx s)) t);
  ok_asleep : forall t wk a v, fpcs s !! t = Some (FParked wk a v) -> st_of (THREAD_TABLE (fx s)) t = Some Blocked ->
    t ∈ bucket (fx s) (cur_key (fx s) t wk) \/ flying (fpcs s) t;
  ok_dest : forall p t k, FUTEX_REQUEUE_DEST (fx s) !! (p, t) = Some k -> p = pid_of t /\ exists wk a v, fpcs s !! t = Some (FParked wk a v);
  ok_owed : forall t, owed t (flog s) = true -> (exists wk a v, fpcs s !! t = Some (FParked wk a v)) /\ forall k, t ∉ bucket (fx s) k;
  ok_log : log_ok (flog s) }.
End run.

(* ------------------------------------------------------------------ *)
(** ** Thread states and buckets *)

Lemma st_of_update l t f u : (forall th, tid (f th) = tid th) -> st_of (update_thread t f l) u = if u =? t then (fun th => state (f th)) <$> find_thread t l else st_of l u.
Proof.
  intros Hf. unfold st_of, update_thread, find_thread. rewrite (find_update_first tid) by done.
  destruct (u =? t); [| done]. by destruct (List.find _ l).
Qed.

Lemma st_of_map l f u : (forall th, tid (f th) = tid th) -> st_of (map f l) u = (fun th => state (f th)) <$> find_thread u l.
Proof.
  intros Hf. unfold st_of, find_thread. induction l as [| th l IH]; simpl; [done |]. rewrite Hf. by destruct (tid th =? u).
Qed.

Lemma st_of_app l l' u : is_Some (st_of l u) -> st_of (l ++ l') u = st_of l u.
Proof.
  unfold st_of, find_thread. induction l as [| x l IH]; simpl; [by intros [? ?] |]. destruct (tid x =? u); [done |]. apply IH.
Qed.

Lemma is_blocked_st l t : is_blocked l t = bool_decide (st_of l t = Some Blocked).
Proof. unfold is_blocked, st_of. destruct (find_thread t l); simpl; [| done]. apply bool_decide_ext. split; congruence. Qed.

Lemma any_blocked_st l t : st_of l t = Some Blocked -> any_blocked l t = true.
Proof.
  unfold st_of, find_thread. intros H. apply fmap_Some in H as (th & Hf & Hs). apply find_some in Hf as [Hin Ht].
  apply existsb_exists. exists th. rewrite Ht. split; [done |]. simpl. by rewrite <- Hs.
Qed.

Lemma bucket_put k l w k' : default [] (put_bucket k l w !! k') = if decide (k = k') then l else default [] (w !! k').
Proof.
  unfold put_bucket. destruct l; case_decide; subst; by rewrite ?lookup_delete_eq, ?lookup_insert_eq, ?lookup_delete_ne, ?lookup_insert_ne by done.
Qed.

Definition ready_set (ids : list Z) (l l' : list Thread) : Prop :=
  forall t, st_of l' t = if bool_decide (t ∈ ids) then Some Ready else st_of l t.

Lemma filter_agree (p q : Z -> bool) (l : list Z) : (forall t, t ∈ l -> p t = q t) -> filter (fun t => p t = true) l = filter (fun t => q t = true) l.
Proof.
  induction l as [| x l IH]; intros H; [done |]. rewrite !filter_cons, (H x) by set_solver. by rewrite IH by set_solver.
Qed.

(** What the scan of a bucket does. *)
Lemma wake_scan_spec max l : forall woken th p w r th' p',
  NoDup l -> wake_scan max l woken th p = (w, r, th', p') ->
  exists gone, l = gone ++ r /\ w = woken ++ filter (fun t => is_blocked th t = true) gone /\
    ready_set (filter (fun t => is_blocked th t = true) gone) th th' /\ (r = [] \/ max <= Z.of_nat (length w)).
Proof.
  induction l as [| id l IH]; intros woken th p w r th' p' Hnd H; simpl in H.
  - injection H as <- <- <- <-. exists []. rewrite filter_nil, !app_nil_r. split_and!; [done | done | | by left]. intros t. by rewrite bool_decide_false by set_solver.
  - apply list.NoDup_cons in Hnd as [Hni Hnd]. destruct (Z.ltb_spec (Z.of_nat (length woken)) max) as [Hlt | Hge].
    + destruct (is_blocked th id) eqn:Hb.
      * apply IH in H as (gone & -> & -> & Hst & Hr); [| done]. exists (id :: gone).
        assert (Hsame : forall t, t <> id -> st_of (update_thread id ready_thread th) t = st_of th t).
        { intros t Ht. rewrite st_of_update by done. by rewrite (proj2 (Z.eqb_neq _ _) Ht). }
        assert (Heq : filter (fun t => is_blocked (update_thread id ready_thread th) t = true) gone = filter (fun t => is_blocked th t = true) gone).
        { apply filter_agree. intros t Ht. rewrite !is_blocked_st, Hsame; [done |]. intros ->. apply Hni. set_solver. }
        rewrite Heq in Hst |- *. rewrite filter_cons_True by done. split_and!; [done | by rewrite <- app_assoc | | by rewrite <- Heq].
        intros t. rewrite (Hst t). destruct (decide (t = id)) as [-> | Hne].
        -- rewrite (bool_decide_true (id ∈ id :: _)) by set_solver. case_bool_decide; [done |]. rewrite st_of_update, Z.eqb_refl by done.
           unfold is_blocked in Hb. by destruct (find_thread id th).
        -- rewrite (Hsame t Hne). erewrite bool_decide_ext; [done |]. set_solver.
      * apply IH in H as (gone & -> & -> & Hst & Hr); [| done]. exists (id :: gone). rewrite filter_cons_False by congruence. by split_and!.
    + injection H as <- <- <- <-. exists []. rewrite filter_nil, !app_nil_r. split_and!; [done | done | | by right]. intros t. by rewrite bool_decide_false by set_solver.
Qed.

Lemma wake_bucket_spec k max cur f ids f' :
  NoDup (bucket f k) -> futex_wake_bucket_live k max cur f = (ids, f') ->
  exists gone r, bucket f k = gone ++ r /\ ids = filter (fun t => is_blocked (THREAD_TABLE f) t = true) gone /\
    (r = [] \/ max <= Z.of_nat (length ids)) /\
    (forall k', bucket f' k' = if decide (k = k') then r else bucket f k') /\
    FUTEX_REQUEUE_DEST f' = FUTEX_REQUEUE_DEST f /\ ready_set ids (THREAD_TABLE f) (THREAD_TABLE f').
Proof.
  unfold futex_wake_bucket_live, bucket. intros Hnd H. destruct (FUTEX_WAITERS f !! k) as [l |] eqn:Hk; simpl in Hnd.
  - destruct (wake_scan max l [] (THREAD_TABLE f) 0) as [[[w r] th'] p'] eqn:Hs. injection H as <- <-.
    apply wake_scan_spec in Hs as (gone & -> & -> & Hst & Hr); [| done]. exists gone, r. simpl.
    split_and!; [done | done | done | | done | done]. intros k'. apply bucket_put.
  - injection H as <- <-. exists [], []. rewrite filter_nil. split_and!; [done | done | by left | | done |].
    + intros k'. case_decide; [subst; by rewrite Hk | done].
    + intros t. by rewrite bool_decide_false by set_solver.
Qed.

Lemma ready_set_compose a b l l' l'' : ready_set a l l' -> ready_set b l' l'' -> ready_set (a ++ b) l l''.
Proof. intros H H' t. rewrite (H' t), (H t). repeat case_bool_decide; set_solver. Qed.

(** Waking in two halves. *)
Lemma wake_one_st th p b id t : st_of (wake_one (th, p, b) id).1.1 t = if bool_decide (t = id) && is_blocked th id then Some Ready else st_of th t.
Proof.
  unfold wake_one, is_blocked. destruct (find_thread id th) as [x |] eqn:E; [| by rewrite andb_false_r].
  destruct (bool_decide (state x = Blocked)); simpl; [| by rewrite andb_false_r]. rewrite andb_true_r, st_of_update by done.
  destruct (Z.eqb_spec t id) as [-> |]; [by rewrite E, bool_decide_true | by rewrite bool_decide_false].
Qed.

(** No thread becomes blocked, and none of the list stays so. *)
Definition roused (ids : list Z) (l l' : list Thread) : Prop :=
  (forall t, is_Some (st_of l t) -> is_Some (st_of l' t)) /\ forall t, st_of l' t = Some Blocked -> st_of l t = Some Blocked /\ t ∉ ids.

Lemma roused_one (l l' : list Thread) id :
  (forall t, st_of l' t = if bool_decide (t = id) && is_blocked l id then Some Ready else st_of l t) -> roused [id] l l'.
Proof.
  intros H. split; intros t; rewrite (H t).
  - by destruct (bool_decide (t = id) && is_blocked l id).
  - destruct (bool_decide_reflect (t = id)) as [-> |]; simpl; [| intros; set_solver].
    rewrite is_blocked_st. case_bool_decide; [done |]. congruence.
Qed.

Lemma roused_app a b l l' l'' : roused a l l' -> roused b l' l'' -> roused (a ++ b) l l''.
Proof. intros [H1 H2] [H1' H2']. split; [auto |]. intros t [H Hb]%H2'. apply H2 in H as [H Ha]. split; [done | set_solver]. Qed.

Lemma roused_nil l : roused [] l l.
Proof. split; [done |]. intros. split; [done | set_solver]. Qed.

Lemma wake_fold_roused ids : forall th p b, roused ids th (fold_left wake_one ids (th, p, b)).1.1.
Proof.
  induction ids as [| id ids IH]; intros th p b; [apply roused_nil |]. cbn [fold_left].
  destruct (wake_one (th, p, b) id) as [[th' p'] b'] eqn:E. apply (roused_app [id] ids th th'); [| apply IH].
  apply roused_one. intros t. pose proof (wake_one_st th p b id t) as H. by rewrite E in H.
Qed.

Lemma exit_fold_roused ids : forall th, roused ids th (fold_left (fun l id => update_thread id exit_ready l) ids th).
Proof.
  induction ids as [| id ids IH]; intros th; [apply roused_nil |]. cbn [fold_left].
  apply (roused_app [id] ids th (update_thread id exit_ready th)); [| apply IH]. apply roused_one. intros t.
  rewrite st_of_update by (intros x; unfold exit_ready; by destruct (bool_decide (state x = Blocked))). unfold st_of, is_blocked.
  destruct (Z.eqb_spec t id) as [-> |]; [rewrite bool_decide_true by done | by rewrite bool_decide_false by done].
  destruct (find_thread id th) as [x |]; [| done]. simpl. unfold exit_ready. by destruct (bool_decide (state x = Blocked)).
Qed.

(* ------------------------------------------------------------------ *)
(** ** The invariant, step by step *)

Section invariant.
Context (pid_of : Z -> Z).

Abbreviation fx_ok := (fx_ok pid_of).
Abbreviation cur_key := (cur_key pid_of).

Definition parked (P : gmap Z FPc) (t : Z) : Prop := exists wk a v, P !! t = Some (FParked wk a v).
Definition same_parked (P P' : gmap Z FPc) : Prop := forall t wk a v, P' !! t = Some (FParked wk a v) <-> P !! t = Some (FParked wk a v).

Lemma owed_woken t ids l : owed t (map OWoken ids ++ l) = bool_decide (t ∈ ids) || owed t l.
Proof.
  induction ids as [| x ids IH]; [by rewrite bool_decide_false by set_solver |]. cbn [map app owed]. rewrite IH.
  destruct (Z.eqb_spec x t) as [-> |]; [by rewrite bool_decide_true by set_solver |]. f_equal. apply bool_decide_ext. set_solver.
Qed.

Lemma log_woken ids l : NoDup ids -> (forall t, t ∈ ids -> owed t l = false) -> log_ok l -> log_ok (map OWoken ids ++ l).
Proof.
  intros Hnd. induction Hnd as [| x ids Hx Hnd IH]; intros H Hl; [done |]. cbn [map app log_ok].
  rewrite owed_woken, bool_decide_false, H by set_solver. split; [done |]. apply IH; [set_solver | done].
Qed.

(** Queues lose some of their threads, none of them asleep unless a wake is
    under way. *)
Lemma thin_ok s f' w P' ids :
  fx_ok s -> (forall k, sublist (bucket f' k) (bucket (fx s) k)) -> FUTEX_REQUEUE_DEST f' = FUTEX_REQUEUE_DEST (fx s) ->
  same_parked (fpcs s) P' ->
  (forall t, parked (fpcs s) t -> is_Some (st_of (THREAD_TABLE (fx s)) t) -> is_Some (st_of (THREAD_TABLE f') t)) ->
  (forall t, parked (fpcs s) t -> st_of (THREAD_TABLE f') t = Some Blocked ->
     st_of (THREAD_TABLE (fx s)) t = Some Blocked /\ (flying (fpcs s) t -> flying P' t) /\ forall k, t ∈ bucket (fx s) k -> t ∈ bucket f' k \/ flying P' t) ->
  (forall t, t ∈ ids -> exists k, t ∈ bucket (fx s) k /\ t ∉ bucket f' k) -> NoDup ids ->
  fx_ok (mkFx f' w P' (map OWoken ids ++ flog s)).
Proof.
  intros [Hnd Hq Hp Ht Ha Hd Ho Hl] Hsub HD HP Hin Hbl Hids Hni.
  assert (Hel : forall k t, t ∈ bucket f' k -> t ∈ bucket (fx s) k) by (intros k t Hk; exact (elem_of_sublist _ _ _ Hk (Hsub k))).
  constructor; simpl.
  - intros k. exact (sublist_NoDup _ _ (Hnd k) (Hsub k)).
  - intros k t Hk. apply Hel in Hk. destruct (Hq k t Hk) as (wk & a & v & Hpc & Hc).
    exists wk, a, v. split; [by apply HP |]. unfold FutexRun.cur_key. by rewrite HD.
  - intros k t Hk. apply (Hp k t). by apply Hel.
  - intros t wk a v Hpc%HP. apply Hin; [by exists wk, a, v | by apply (Ht t wk a v)].
  - intros t wk a v Hpc%HP Hb. destruct (Hbl t) as (Hb0 & Hf & Hk); [by exists wk, a, v | done |].
    unfold FutexRun.cur_key. rewrite HD. destruct (Ha t wk a v Hpc Hb0) as [Hq0 | Hf0]; [| by right; apply Hf]. by apply Hk.
  - intros p t k Hk. rewrite HD in Hk. destruct (Hd p t k Hk) as [-> (wk & a & v & Hpc)]. split; [done |]. exists wk, a, v. by apply HP.
  - intros t. rewrite owed_woken. destruct (bool_decide_reflect (t ∈ ids)) as [Hi | _]; simpl; intros Hw.
    + destruct (Hids t Hi) as (k & Hk & Hnk). destruct (Hq k t Hk) as (wk & a & v & Hpc & Hc). split; [exists wk, a, v; by apply HP |].
      intros k' Hk'. pose proof (Hel k' t Hk') as Hk2. destruct (Hq k' t Hk2) as (wk' & a' & v' & Hpc' & Hc'). congruence.
    + destruct (Ho t Hw) as [(wk & a & v & Hpc) Hno]. split; [exists wk, a, v; by apply HP |].
      intros k Hk. apply (Hno k). by apply Hel.
  - apply log_woken; [done | | done]. intros t Hi. apply not_true_is_false. intros Hw. destruct (Hids t Hi) as (k & Hk & _). by apply (Ho t Hw) in Hk.
Qed.

Lemma same_parked_refl P : same_parked P P.
Proof. done. Qed.

Lemma queued_once s k k' t : fx_ok s -> t ∈ bucket (fx s) k -> t ∈ bucket (fx s) k' -> k = k'.
Proof.
  intros Hok Hk Hk'. destruct (ok_queued _ _ Hok k t Hk) as (wk & a & v & Hp & Hc). destruct (ok_queued _ _ Hok k' t Hk') as (? & ? & ? & Hp' & Hc'). congruence.
Qed.

(** A wake under the queue lock, once or twice. *)
Record thinned (f f' : Futexes) (ids : list Z) : Prop := mkThinned {
  tn_sub : forall k, sublist (bucket f' k) (bucket f k);
  tn_dest : FUTEX_REQUEUE_DEST f' = FUTEX_REQUEUE_DEST f;
  tn_table : forall t, is_Some (st_of (THREAD_TABLE f) t) -> is_Some (st_of (THREAD_TABLE f') t);
  tn_asleep : forall t, st_of (THREAD_TABLE f') t = Some Blocked ->
    st_of (THREAD_TABLE f) t = Some Blocked /\ forall k, t ∈ bucket f k -> t ∈ bucket f' k;
  tn_ids : forall t, t ∈ ids -> exists k, t ∈ bucket f k /\ t ∉ bucket f' k;
  tn_nodup : NoDup ids }.

Lemma thinned_refl f : thinned f f [].
Proof. constructor; try done; [set_solver | by apply list.NoDup_nil]. Qed.

Lemma thinned_trans f f1 f2 a b :
  (forall k k' t, t ∈ bucket f k -> t ∈ bucket f k' -> k = k') -> thinned f f1 a -> thinned f1 f2 b -> thinned f f2 (a ++ b).
Proof.
  intros Hu [S1 D1 T1 A1 I1 N1] [S2 D2 T2 A2 I2 N2]. constructor.
  - intros k. exact (transitivity (S2 k) (S1 k)).
  - congruence.
  - auto.
  - intros t H. apply A2 in H as [H K2]. apply A1 in H as [H K1]. auto.
  - intros t [Ht | Ht]%list.elem_of_app.
    + destruct (I1 t Ht) as (k & Hk & Hn). exists k. split; [done |]. intros Hk2. apply Hn. by apply (elem_of_sublist _ _ _ Hk2 (S2 k)).
    + destruct (I2 t Ht) as (k & Hk & Hn). exists k. split; [by apply (elem_of_sublist _ _ _ Hk (S1 k)) | done].
  - apply list.NoDup_app. split_and!; [done | | done]. intros t Ha Hb. destruct (I1 t Ha) as (k & Hk & Hn). destruct (I2 t Hb) as (k' & Hk' & _).
    apply Hn. rewrite (Hu k k' t Hk); [done |]. by apply (elem_of_sublist _ _ _ Hk' (S1 k')).
Qed.

Lemma thinned_ok s f' w ids : fx_ok s -> thinned (fx s) f' ids -> fx_ok (mkFx f' w (fpcs s) (map OWoken ids ++ flog s)).
Proof.
  intros Hok [S D T A I N]. apply thin_ok; try done.
  - intros t _. apply T.
  - intros t _ Hb. destruct (A t Hb) as [H Hk]. split_and!; [done | done |]. intros k Hq. left. by apply Hk.
Qed.

Lemma thinned_wake k max cur f ids f' :
  NoDup (bucket f k) -> (forall k k' t, t ∈ bucket f k -> t ∈ bucket f k' -> k = k') ->
  futex_wake_bucket_live k max cur f = (ids, f') -> thinned f f' ids.
Proof.
  intros Hnd Hu H. apply wake_bucket_spec in H as (gone & r & Hk & -> & Hr & Hb & HD & Hst); [| done].
  rewrite Hk in Hnd. apply list.NoDup_app in Hnd as (Hg & Hdis & Hrd). constructor.
  - intros k'. rewrite Hb. case_decide; [subst; rewrite Hk; by apply sublist_inserts_l | done].
  - done.
  - intros t Ht. rewrite (Hst t). by case_bool_decide.
  - intros t. rewrite (Hst t). case_bool_decide as Hi; [done |]. intros Ht. split; [done |]. intros k' Hq. rewrite Hb. case_decide; [| done].
    subst k'. rewrite Hk in Hq. apply list.elem_of_app in Hq as [Hq | Hq]; [| done]. destruct Hi. apply list_elem_of_filter. split; [| done].
    rewrite is_blocked_st. by apply bool_decide_true.
  - intros t [_ Ht]%list_elem_of_filter. exists k. rewrite Hb, Hk. split; [set_solver |]. case_decide; [| done]. by apply Hdis.
  - by apply list.NoDup_filter.
Qed.

Lemma thinned_wake_op k1 k2 val val2 val3 cur read writable f r w ids f' :
  (forall k, NoDup (bucket f k)) -> (forall k k' t, t ∈ bucket f k -> t ∈ bucket f k' -> k = k') ->
  futex_wake_op k1 k2 val val2 val3 cur read writable f = (r, w, ids, f') -> thinned f f' ids.
Proof.
  intros Hnd Hu H. unfold futex_wake_op in H. destruct read as [word |]; [| injection H as <- <- <- <-; apply thinned_refl].
  destruct (apply_op _ _) as [newval |]; [| injection H as <- <- <- <-; apply thinned_refl].
  destruct writable; cbn [negb] in H; [| injection H as <- <- <- <-; apply thinned_refl].
  destruct (futex_wake_bucket_live k1 _ _ f) as [w1 f1] eqn:H1. apply thinned_wake in H1 as T1; [| done | done].
  destruct (compare_op _ _) as [[] |]; [| injection H as <- <- <- <-; done | injection H as <- <- <- <-; done].
  destruct (futex_wake_bucket_live k2 _ _ f1) as [w2 f2] eqn:H2. injection H as <- <- <- <-. pose proof (tn_sub _ _ _ T1) as S.
  apply (thinned_trans f f1); [done | done |]. apply (thinned_wake k2 (wake_budget val2) cur).
  - exact (sublist_NoDup _ _ (Hnd k2) (S k2)).
  - intros k k' t Hk Hk'. apply (Hu k k' t); [exact (elem_of_sublist _ _ _ Hk (S k)) | exact (elem_of_sublist _ _ _ Hk' (S k'))].
  - done.
Qed.

(** Steps that leave queues alone and put no parked thread to sleep. *)
Lemma threads_ok s l w :
  fx_ok s -> (forall t, parked (fpcs s) t -> is_Some (st_of (THREAD_TABLE (fx s)) t) -> is_Some (st_of l t)) ->
  (forall t, parked (fpcs s) t -> st_of l t = Some Blocked -> st_of (THREAD_TABLE (fx s)) t = Some Blocked) ->
  fx_ok (mkFx (with_threads l (fx s)) w (fpcs s) (flog s)).
Proof.
  intros Hok Ht Hb. apply (thin_ok s (with_threads l (fx s)) w (fpcs s) []); simpl; try done; [| set_solver | by apply list.NoDup_nil].
  intros t Hp H. split_and!; [by apply Hb | done |]. intros k Hk. by left.
Qed.

Lemma flying_delete P t ids e u : P !! t = Some (FWaking ids e) -> u ∉ ids -> flying P u -> flying (delete t P) u.
Proof.
  intros Ht Hu (x & ids' & e' & Hx & Hi). exists x, ids', e'. split; [| done]. apply lookup_delete_Some. split; [| done]. intros ->. congruence.
Qed.

Lemma flying_insert P t pc u : P !! t = None -> flying P u -> flying (<[t := pc]> P) u.
Proof. intros Ht (x & ids & e & Hx & Hi). exists x, ids, e. split; [| done]. rewrite lookup_insert_ne; [done |]. congruence. Qed.

(** The second half of a wake. *)
Lemma roused_ok s t ids e f' :
  fx_ok s -> fpcs s !! t = Some (FWaking ids e) -> FUTEX_WAITERS f' = FUTEX_WAITERS (fx s) -> FUTEX_REQUEUE_DEST f' = FUTEX_REQUEUE_DEST (fx s) ->
  roused ids (THREAD_TABLE (fx s)) (THREAD_TABLE f') -> fx_ok (mkFx f' (words s) (delete t (fpcs s)) (flog s)).
Proof.
  intros Hok Ht HW HD [R1 R2].
  assert (Hb : forall k, bucket f' k = bucket (fx s) k) by (intros k; unfold bucket; by rewrite HW).
  apply (thin_ok s f' (words s) (delete t (fpcs s)) []); try done.
  - intros k. by rewrite Hb.
  - intros u wk a v. rewrite lookup_delete_Some. split; [by intros [_ H] |]. intros H. split; [congruence | done].
  - intros u _. apply R1.
  - intros u Hp [Hu Hi]%R2. split_and!; [done | by apply (flying_delete _ _ ids e) |]. intros k Hk. left. by rewrite Hb.
  - set_solver.
  - by apply list.NoDup_nil.
Qed.

Lemma exit_pick_ok s t uaddr max ids f' :
  fx_ok s -> fpcs s !! t = None -> futex_exit_pick (pid_of t) uaddr max (fx s) = (ids, f') ->
  fx_ok (mkFx f' (words s) (<[t := FWaking ids true]> (fpcs s)) (map OWoken ids ++ flog s)).
Proof.
  intros Hok Ht H.
  assert (exists n, ids = take n (bucket (fx s) (pid_of t, uaddr)) /\ THREAD_TABLE f' = THREAD_TABLE (fx s) /\ FUTEX_REQUEUE_DEST f' = FUTEX_REQUEUE_DEST (fx s) /\
            forall k, bucket f' k = if decide ((pid_of t, uaddr) = k) then drop n (bucket (fx s) k) else bucket (fx s) k) as (n & -> & HT & HD & Hb).
  { unfold futex_exit_pick, bucket in *. destruct (FUTEX_WAITERS (fx s) !! (pid_of t, uaddr)) as [l |] eqn:E.
    - exists (Z.to_nat (Z.min max (Z.of_nat (length l)))). injection H as <- <-. split_and!; [done | done | done |]. intros k. simpl. rewrite bucket_put. case_decide; [subst; by rewrite E | done].
    - exists 0%nat. injection H as <- <-. split_and!; [done | done | done |]. intros k. case_decide; [subst; by rewrite E | done]. }
  clear H. set (q := bucket (fx s) (pid_of t, uaddr)) in *.
  assert (Hq : NoDup q) by apply Hok. rewrite <- (take_drop n q) in Hq. apply list.NoDup_app in Hq as (Hn1 & Hdis & Hn2).
  apply thin_ok; try done.
  - intros k. rewrite Hb. case_decide; [apply sublist_drop | done].
  - intros u wk a v. rewrite lookup_insert_Some. split; [intros [[_ H] | [_ H]]; [done | done] |]. intros H. right. split; [congruence | done].
  - intros u _. by rewrite HT.
  - intros u _. rewrite HT. intros Hu. split_and!; [done | by apply flying_insert |]. intros k Hk. rewrite Hb. case_decide; [| by left].
    subst k. fold q in Hk |- *. rewrite <- (take_drop n q) in Hk. apply list.elem_of_app in Hk as [Hk | Hk]; [right | by left].
    exists t, (take n q), true. by rewrite lookup_insert_eq.
  - intros u Hu. exists (pid_of t, uaddr). fold q. rewrite Hb, decide_True by done. split; [| by apply Hdis].
    rewrite <- (take_drop n q). set_solver.
Qed.

Lemma futex_key_side private pid uaddr phys : (futex_key private pid uaddr phys).1 = FUTEX_SHARED_NS \/ (futex_key private pid uaddr phys).1 = pid.
Proof. unfold futex_key. destruct private; [by right |]. destruct phys; [by left | by right]. Qed.

Lemma remove_last_snoc l id : remove_last id (l ++ [id]) = l.
Proof.
  unfold remove_last. rewrite reverse_snoc. simpl. rewrite decide_True by done. simpl. by rewrite reverse_involutive.
Qed.

(** What a wait that parks does to the queues. *)
Lemma enqueue_spec key val id wake read f f' :
  futex_wait_check_and_enqueue key val id wake read f = (Enqueued, f') ->
  read = Some (wrap 32 val) /\ FUTEX_REQUEUE_DEST f' = FUTEX_REQUEUE_DEST f /\
  (forall u, u <> id -> st_of (THREAD_TABLE f') u = st_of (THREAD_TABLE f) u) /\
  (st_of (THREAD_TABLE f) id = Some Dead /\ st_of (THREAD_TABLE f') id = Some Dead /\ (forall k, bucket f' k = bucket f k) \/
   (is_Some (find_thread id (THREAD_TABLE f)) -> st_of (THREAD_TABLE f') id = Some Blocked) /\
   forall k, bucket f' k = if decide (key = k) then bucket f k ++ [id] else bucket f k).
Proof.
  unfold futex_wait_check_and_enqueue. destruct read as [cur |]; [| done]. destruct (Z.eqb_spec cur (wrap 32 val)) as [-> |]; [| done]. cbn [negb].
  destruct (find_thread id (THREAD_TABLE f)) as [t |] eqn:Hf.
  - assert (Hst : st_of (THREAD_TABLE f) id = Some (state t)) by (unfold st_of; by rewrite Hf). case_bool_decide as Hd; intros H; injection H as <-.
    + split_and!; [done | done | done |]. left. rewrite Hst, Hd. split_and!; [done | by rewrite <- Hd |]. intros k. unfold bucket. simpl.
      rewrite remove_last_snoc, bucket_put. case_decide; by subst.
    + split_and!; [done | done | |].
      * intros u Hu. simpl. rewrite st_of_update by done. by rewrite (proj2 (Z.eqb_neq _ _) Hu).
      * right. split; [intros _; simpl; rewrite st_of_update, Z.eqb_refl, Hf by done; done |].
        intros k. unfold bucket. simpl. case_decide; [subst; by rewrite lookup_insert_eq | by rewrite lookup_insert_ne].
  - intros H. injection H as <-. split_and!; [done | done | done |]. right. split; [by intros [? ?] |].
    intros k. unfold bucket. simpl. case_decide; [subst; by rewrite lookup_insert_eq | by rewrite lookup_insert_ne].
Qed.

Lemma wait_ok s t a uaddr val private phys wake f' :
  fx_ok s -> fpcs s !! t = None -> is_Some (find_thread t (THREAD_TABLE (fx s))) ->
  futex_wait_check_and_enqueue (futex_key private (pid_of t) uaddr phys) val t wake (words s !! a) (fx s) = (Enqueued, f') ->
  fx_ok (mkFx f' (words s) (<[t := FParked (futex_key private (pid_of t) uaddr phys) a (wrap 32 val)]> (fpcs s)) (flog s)).
Proof.
  intros [Hnd Hq Hp Ht Ha Hd Ho Hl] Hpc Hin H. set (key := futex_key private (pid_of t) uaddr phys) in *.
  apply enqueue_spec in H as (_ & HD & Hst & Hcase).
  assert (Hnk : forall k, t ∉ bucket (fx s) k) by (intros k Hk; destruct (Hq k t Hk) as (? & ? & ? & ? & _); congruence).
  assert (HDt : FUTEX_REQUEUE_DEST (fx s) !! (pid_of t, t) = None).
  { destruct (FUTEX_REQUEUE_DEST (fx s) !! (pid_of t, t)) eqn:E; [| done]. destruct (Hd _ _ _ E) as [_ (? & ? & ? & ?)]. congruence. }
  assert (Hother : forall u, u <> t -> <[t := FParked key a (wrap 32 val)]> (fpcs s) !! u = fpcs s !! u) by (intros u Hu; by rewrite lookup_insert_ne).
  assert (Hbk : forall k u, u ∈ bucket f' k -> u ∈ bucket (fx s) k \/ u = t /\ k = key).
  { destruct Hcase as [(_ & _ & Hb) | [_ Hb]]; intros k u; rewrite Hb; [by left |]. case_decide; [subst; set_solver | by left]. }
  constructor; simpl.
  - intros k. destruct Hcase as [(_ & _ & Hb) | [_ Hb]]; rewrite Hb; [apply Hnd |]. case_decide; [| apply Hnd].
    apply list.NoDup_app. split_and!; [apply Hnd | set_solver | by apply list.NoDup_singleton].
  - intros k u [Hk | [-> ->]]%Hbk.
    + assert (u <> t) by (intros ->; by apply (Hnk k)). destruct (Hq k u Hk) as (wk & a' & v' & Hpu & Hc). exists wk, a', v'.
      rewrite Hother by done. split; [done |]. unfold FutexRun.cur_key. by rewrite HD.
    + exists key, a, (wrap 32 val). rewrite lookup_insert_eq. split; [done |]. unfold FutexRun.cur_key. by rewrite HD, HDt.
  - intros k u [Hk | [-> ->]]%Hbk; [by apply Hp | apply futex_key_side].
  - intros u wk a' v' Hpu. destruct (decide (u = t)) as [-> | Hne]; [| rewrite Hst by done; rewrite Hother in Hpu by done; by apply (Ht u wk a' v')].
    destruct Hcase as [(_ & -> & _) | [Hb _]]; [done |]. by rewrite Hb.
  - intros u wk a' v' Hpu Hbl. destruct (decide (u = t)) as [-> | Hne].
    + rewrite lookup_insert_eq in Hpu. injection Hpu as <- <- <-. left. unfold FutexRun.cur_key. rewrite HD, HDt. simpl.
      destruct Hcase as [(_ & Hdead & _) | [_ Hb]]; [congruence |]. rewrite Hb, decide_True by done. set_solver.
    + rewrite Hother in Hpu by done. rewrite Hst in Hbl by done. destruct (Ha u wk a' v' Hpu Hbl) as [Hk | Hf]; [left | right; by apply flying_insert].
      unfold FutexRun.cur_key in *. rewrite HD. destruct Hcase as [(_ & _ & Hb) | [_ Hb]]; rewrite Hb; [done |]. case_decide; set_solver.
  - intros p u k Hk. rewrite HD in Hk. destruct (Hd p u k Hk) as [-> (wk & a' & v' & Hpu)]. split; [done |]. exists wk, a', v'. rewrite Hother; [done | congruence].
  - intros u Hw. destruct (Ho u Hw) as [(wk & a' & v' & Hpu) Hno]. assert (u <> t) by congruence. split; [exists wk, a', v'; by rewrite Hother |].
    intros k [Hk | [-> _]]%Hbk; [by apply (Hno k) | done].
  - done.
Qed.

Lemma filter_other_length (t : Z) (l : list Z) : Nat.ltb (length (List.filter (fun x => negb (x =? t)) l)) (length l) = bool_decide (t ∈ l).
Proof.
  induction l as [| x l IH]; [done |]. simpl. pose proof (List.filter_length_le (fun x => negb (x =? t)) l).
  destruct (Z.eqb_spec x t) as [-> | Hne]; simpl.
  - rewrite bool_decide_true by set_solver. apply Nat.ltb_lt. lia.
  - transitivity (Nat.ltb (length (List.filter (fun x => negb (x =? t)) l)) (length l)); [done |]. rewrite IH. apply bool_decide_ext. set_solver.
Qed.

Lemma elem_of_filter_other (t u : Z) (l : list Z) : u ∈ List.filter (fun x => negb (x =? t)) l <-> u ∈ l /\ u <> t.
Proof. rewrite !list_elem_of_In, filter_In. destruct (Z.eqb_spec u t); naive_solver. Qed.

(** The way out of a wait. *)
Lemma leave_spec t wk f b f' :
  futex_wait_leave (pid_of t) t wk f = (b, f') ->
  FUTEX_REQUEUE_DEST f' = delete (pid_of t, t) (FUTEX_REQUEUE_DEST f) /\ THREAD_TABLE f' = THREAD_TABLE f /\
  b = bool_decide (t ∈ bucket f (cur_key f t wk)) /\
  forall k, bucket f' k = if decide (cur_key f t wk = k) then List.filter (fun x => negb (x =? t)) (bucket f k) else bucket f k.
Proof.
  unfold futex_wait_leave, FutexRun.cur_key, bucket. set (k0 := default wk _). destruct (FUTEX_WAITERS f !! k0) as [l |] eqn:E; intros H; injection H as <- <-; simpl.
  - split_and!; [done | done | apply filter_other_length |]. intros k. rewrite bucket_put. case_decide; [subst; by rewrite E | done].
  - split_and!; [done | done | done |]. intros k. case_decide; [subst; by rewrite E | done].
Qed.

Lemma leave_ok s t wk a v b f' :
  fx_ok s -> fpcs s !! t = Some (FParked wk a v) -> futex_wait_leave (pid_of t) t wk (fx s) = (b, f') ->
  fx_ok (mkFx (with_threads (update_thread t (set_state Running) (THREAD_TABLE f')) f') (words s) (delete t (fpcs s)) (OLeft t b :: flog s)).
Proof.
  intros Hok Hpc H. pose proof Hok as [Hnd Hq Hp Ht Ha Hd Ho Hl]. apply leave_spec in H as (HD & HT & -> & Hb).
  assert (Hbk : forall k u, u ∈ bucket f' k <-> u ∈ bucket (fx s) k /\ u <> t).
  { intros k u. rewrite Hb. case_decide as Hk; [apply elem_of_filter_other |]. split; [| by intros [? _]]. intros Hu. split; [done |]. intros ->.
    destruct (Hq k t Hu) as (wk' & ? & ? & Hpc' & Hc). congruence. }
  assert (Hother : forall u, u <> t -> delete t (fpcs s) !! u = fpcs s !! u) by (intros u Hu; by rewrite lookup_delete_ne).
  assert (HDu : forall u k, u <> t -> FutexRun.cur_key pid_of f' u k = cur_key (fx s) u k) by (intros u k Hu; unfold FutexRun.cur_key; rewrite HD, lookup_delete_ne by congruence; done).
  assert (Hst : forall u, u <> t -> st_of (update_thread t (set_state Running) (THREAD_TABLE f')) u = st_of (THREAD_TABLE (fx s)) u).
  { intros u Hu. rewrite st_of_update by done. by rewrite (proj2 (Z.eqb_neq _ _) Hu), HT. }
  assert (Hgone : forall u wk' a' v', delete t (fpcs s) !! u = Some (FParked wk' a' v') -> u <> t /\ fpcs s !! u = Some (FParked wk' a' v')).
  { intros u wk' a' v' [H1 H2]%lookup_delete_Some. done. }
  constructor; simpl.
  - intros k. change (bucket (with_threads _ f') k) with (bucket f' k). rewrite Hb. case_decide; [by apply NoDup_ListNoDup, List.NoDup_filter, NoDup_ListNoDup | apply Hnd].
  - intros k u [Hk Hu]%Hbk. destruct (Hq k u Hk) as (wk' & a' & v' & Hpu & Hc). exists wk', a', v'. rewrite Hother by done. split; [done |]. by rewrite <- Hc, <- HDu.
  - intros k u [Hk Hu]%Hbk. by apply Hp.
  - intros u wk' a' v' [Hu Hpu]%Hgone. rewrite Hst by done. by apply (Ht u wk' a' v').
  - intros u wk' a' v' [Hu Hpu]%Hgone Hbl. rewrite Hst in Hbl by done. destruct (Ha u wk' a' v' Hpu Hbl) as [Hk | (x & ids & e & Hx & Hi)].
    + left. apply Hbk. by rewrite <- HDu in Hk.
    + right. exists x, ids, e. split; [| done]. rewrite Hother; [done | congruence].
  - intros p u k Hk. rewrite HD in Hk. apply lookup_delete_Some in Hk as [Hne Hk]. destruct (Hd p u k Hk) as [-> (wk' & a' & v' & Hpu)].
    split; [done |]. exists wk', a', v'. rewrite Hother; [done | congruence].
  - intros u Hw. destruct (Z.eqb_spec t u) as [E | Hu]; [discriminate |]. destruct (Ho u Hw) as [(wk' & a' & v' & Hpu) Hno].
    split; [exists wk', a', v'; by rewrite Hother |]. intros k [Hk _]%Hbk. by apply (Hno k).
  - split; [| done]. intros Hw. apply bool_decide_false. apply (Ho t Hw).
Qed.

(** The waiters a requeue goes through: woken or moved in their order, and
    with room for all, none that sleeps left out. *)
Lemma requeue_split_spec th mw mr l : forall w0 m0 w m,
  NoDup l -> requeue_split th mw mr l w0 m0 = (w, m) ->
  exists dw dm, w = w0 ++ dw /\ m = m0 ++ dm /\ sublist dw l /\ sublist dm l /\ (forall t, t ∈ dw -> t ∉ dm) /\
    (Z.of_nat (length w0) <= mw -> Z.of_nat (length m0) <= mr -> Z.of_nat (length w0) + Z.of_nat (length m0) + Z.of_nat (length l) <= mw + mr ->
     forall t, t ∈ l -> st_of th t = Some Blocked -> t ∈ dw \/ t ∈ dm).
Proof.
  induction l as [| id l IH]; intros w0 m0 w m Hnd H; simpl in H.
  - injection H as <- <-. exists [], []. rewrite !app_nil_r. split_and!; [done | done | done | done | set_solver | set_solver].
  - apply list.NoDup_cons in Hnd as [Hni Hnd].
    destruct (Z.ltb_spec (Z.of_nat (length w0)) mw) as [Hlt | Hge]; [destruct (any_blocked th id) eqn:Hb |
      destruct (Z.ltb_spec (Z.of_nat (length m0)) mr) as [Hm | Hm]]; apply IH in H as (dw & dm & -> & -> & Hs & Hs' & Hdis & Hall); try done.
    + exists (id :: dw), dm. rewrite <- app_assoc. split_and!; [done | done | by apply sublist_skip | by apply sublist_cons | |].
      * intros t [-> | Ht]%list.elem_of_cons; [| by apply Hdis]. intros Hd. apply Hni. exact (elem_of_sublist _ _ _ Hd Hs').
      * rewrite length_app in Hall. simpl in Hall |- *. intros Hw Hm Hsum t [-> | Ht]%list.elem_of_cons Hbl; [left; set_solver |].
        destruct (Hall ltac:(lia) ltac:(lia) ltac:(lia) t Ht Hbl); set_solver.
    + exists dw, dm. split_and!; [done | done | by apply sublist_cons | by apply sublist_cons | done |].
      simpl. intros Hw Hm Hsum t [-> | Ht]%list.elem_of_cons Hbl; [apply any_blocked_st in Hbl; congruence |]. apply Hall; [lia | lia | lia | done | done].
    + exists dw, (id :: dm). rewrite <- app_assoc. split_and!; [done | done | by apply sublist_cons | by apply sublist_skip | |].
      * intros t Ht [-> | Hd]%list.elem_of_cons; [| by apply (Hdis t)]. apply Hni. exact (elem_of_sublist _ _ _ Ht Hs).
      * rewrite length_app in Hall. simpl in Hall |- *. intros Hw Hm' Hsum t [-> | Ht]%list.elem_of_cons Hbl; [right; set_solver |].
        destruct (Hall ltac:(lia) ltac:(lia) ltac:(lia) t Ht Hbl); set_solver.
    + exists dw, dm. split_and!; [done | done | by apply sublist_cons | by apply sublist_cons | done |]. simpl. intros. lia.
Qed.

Lemma dest_fold pid dst ids : forall (d : gmap (Z * Z) FutexKey) p t,
  fold_left (fun d id => <[(pid, id) := dst]> d) ids d !! (p, t) = if bool_decide (p = pid /\ t ∈ ids) then Some dst else d !! (p, t).
Proof.
  induction ids as [| x ids IH]; intros d p t; cbn [fold_left]; [by rewrite bool_decide_false by set_solver |]. rewrite IH.
  destruct (decide ((pid, x) = (p, t))) as [[= -> ->] | Hne].
  - rewrite (bool_decide_true (p = p /\ t ∈ t :: ids)) by set_solver. case_bool_decide; [done |]. by rewrite lookup_insert_eq.
  - rewrite lookup_insert_ne by done. erewrite bool_decide_ext; [done |]. set_solver.
Qed.

(** What the first half of a requeue does. *)
Lemma requeue_pick_spec pid src dst mw mr f ids f' :
  NoDup (bucket f src) -> 0 <= mw -> 0 <= mr -> Z.of_nat (length (bucket f src)) <= mw + mr ->
  futex_requeue_pick pid src dst mw mr f = (ids, f') ->
  exists moves, sublist ids (bucket f src) /\ sublist moves (bucket f src) /\ (forall t, t ∈ ids -> t ∉ moves) /\
    (forall t, t ∈ bucket f src -> st_of (THREAD_TABLE f) t = Some Blocked -> t ∈ ids \/ t ∈ moves) /\
    (forall k, bucket f' k = (if decide (src = k) then [] else bucket f k) ++ (if decide (dst = k) then moves else [])) /\
    (forall p t, FUTEX_REQUEUE_DEST f' !! (p, t) = if bool_decide (p = pid /\ t ∈ moves) then Some dst else FUTEX_REQUEUE_DEST f !! (p, t)) /\
    THREAD_TABLE f' = THREAD_TABLE f.
Proof.
  intros Hnd Hw Hr Hlen H. unfold futex_requeue_pick in H. change (default [] (FUTEX_WAITERS f !! src)) with (bucket f src) in H.
  destruct (requeue_split (THREAD_TABLE f) mw mr (bucket f src) [] []) as [w m] eqn:Hs.
  apply requeue_split_spec in Hs as (dw & dm & -> & -> & S1 & S2 & Hdis & Hall); [| done]. simpl in *. exists dm.
  assert (Hdel : forall k, default [] (delete src (FUTEX_WAITERS f) !! k) = if decide (src = k) then [] else bucket f k).
  { intros k. case_decide; [subst; by rewrite lookup_delete_eq | by rewrite lookup_delete_ne]. }
  destruct dm as [| x dm]; injection H as <- <-; (split_and!; [done | done | done | intros t; apply Hall; lia | | | done]); simpl.
  - intros k. unfold bucket at 1. simpl. rewrite Hdel. destruct (decide (dst = k)); by rewrite app_nil_r.
  - intros p t. by rewrite bool_decide_false by set_solver.
  - intros k. unfold bucket at 1. simpl. destruct (decide (dst = k)) as [-> |]; [by rewrite lookup_insert_eq, Hdel | by rewrite lookup_insert_ne, Hdel, app_nil_r].
  - intros p t. rewrite dest_fold. destruct (decide ((pid, x) = (p, t))) as [[= -> ->] | Hne].
    + rewrite (bool_decide_true (p = p /\ t ∈ t :: dm)) by set_solver. case_bool_decide; [done |]. by rewrite lookup_insert_eq.
    + rewrite lookup_insert_ne by done. erewrite bool_decide_ext; [done |]. set_solver.
Qed.

(** The threads of the source that are moved, and where everyone is then. *)
Lemma requeue_effect s t src dst mw mr ids f' :
  fx_ok s -> covered pid_of t (bucket (fx s) src) mw mr -> futex_requeue_pick (pid_of t) src dst mw mr (fx s) = (ids, f') ->
  exists moves : list Z, (forall k, NoDup (bucket f' k)) /\ NoDup ids /\ (forall u, u ∈ ids -> u ∈ bucket (fx s) src /\ u ∉ moves) /\
    (forall u, u ∈ moves -> u ∈ bucket (fx s) src /\ pid_of u = pid_of t) /\
    (forall k u, u ∈ bucket f' k <-> (u ∈ bucket (fx s) k /\ k <> src) \/ (u ∈ moves /\ k = dst)) /\
    (forall k u, u ∈ bucket (fx s) k -> k <> src -> u ∉ moves) /\
    (forall u wk, cur_key f' u wk = if bool_decide (u ∈ moves) then dst else cur_key (fx s) u wk) /\
    (forall p u k, FUTEX_REQUEUE_DEST f' !! (p, u) = Some k -> (p = pid_of u /\ u ∈ moves) \/ FUTEX_REQUEUE_DEST (fx s) !! (p, u) = Some k) /\
    (forall u, u ∈ bucket (fx s) src -> st_of (THREAD_TABLE (fx s)) u = Some Blocked -> u ∈ ids \/ u ∈ moves) /\
    THREAD_TABLE f' = THREAD_TABLE (fx s).
Proof.
  intros Hok (Hw & Hr & Hlen & Hown) H. pose proof (ok_nodup _ _ Hok) as Hnd.
  apply requeue_pick_spec in H as (moves & S1 & S2 & Hdis & Hall & Hb & HD & HT); try done. exists moves.
  assert (Hmv : forall u, u ∈ moves -> u ∈ bucket (fx s) src) by (intros u Hu; exact (elem_of_sublist _ _ _ Hu S2)).
  assert (Hown' : forall u, u ∈ moves -> pid_of u = pid_of t) by (intros u Hu; rewrite list.Forall_forall in Hown; by apply Hown, Hmv).
  assert (Hnm : forall k u, u ∈ bucket (fx s) k -> k <> src -> u ∉ moves).
  { intros k u Hk Hne Hm. apply Hne. apply (queued_once s k src u); auto. }
  split_and!; auto.
  - intros k. rewrite Hb. apply list.NoDup_app. split_and!.
    + case_decide; [by apply list.NoDup_nil | apply Hnd].
    + intros u Hu Hm. destruct (decide (src = k)); [by apply list.not_elem_of_nil in Hu |].
      destruct (decide (dst = k)); [by apply (Hnm k u) | by apply list.not_elem_of_nil in Hm].
    + case_decide; [exact (sublist_NoDup _ _ (Hnd src) S2) | by apply list.NoDup_nil].
  - exact (sublist_NoDup _ _ (Hnd src) S1).
  - intros u Hu. split; [exact (elem_of_sublist _ _ _ Hu S1) | by apply Hdis].
  - intros k u. rewrite Hb, list.elem_of_app. clear -src dst. repeat case_decide; subst; set_solver.
  - intros u wk. unfold FutexRun.cur_key. rewrite HD. destruct (bool_decide_reflect (u ∈ moves)) as [Hm | Hm].
    + by rewrite bool_decide_true by (split; [by apply Hown' | done]).
    + by rewrite bool_decide_false by naive_solver.
  - intros p u k. rewrite HD. case_bool_decide as Hm; [left | by right]. destruct Hm as [-> Hm]. split; [symmetry; by apply Hown' | done].
Qed.

Lemma requeue_ok s t uaddr uaddr2 private phys phys2 mw mr ids f' :
  fx_ok s -> fpcs s !! t = None -> covered pid_of t (bucket (fx s) (futex_key private (pid_of t) uaddr phys)) mw mr ->
  futex_requeue_pick (pid_of t) (futex_key private (pid_of t) uaddr phys) (futex_key private (pid_of t) uaddr2 phys2) mw mr (fx s) = (ids, f') ->
  fx_ok (mkFx f' (words s) (<[t := FWaking ids false]> (fpcs s)) (map OWoken ids ++ flog s)).
Proof.
  intros Hok Hpc Hcov H. pose proof (futex_key_side private (pid_of t) uaddr2 phys2) as Hside.
  apply (requeue_effect s t) in H as (moves & Hnd' & Hndi & Hids & Hmv & Hbk & Hnm & HK & HD & Hall & HT); [| done | done].
  pose proof Hok as [Hnd Hq Hp Ht Ha Hd Ho Hl].
  set (src := futex_key private (pid_of t) uaddr phys) in *. set (dst := futex_key private (pid_of t) uaddr2 phys2) in *.
  assert (Hpar : forall u wk a v, <[t := FWaking ids false]> (fpcs s) !! u = Some (FParked wk a v) <-> fpcs s !! u = Some (FParked wk a v)).
  { intros u wk a v. rewrite lookup_insert_Some. split; [by intros [[_ ?] | [_ ?]] |]. intros ?. right. split; [congruence | done]. }
  constructor; simpl.
  - done.
  - intros k u [[Hk Hne] | [Hm ->]]%Hbk.
    + destruct (Hq k u Hk) as (wk & a & v & Hpu & Hc). exists wk, a, v. by rewrite Hpar, HK, bool_decide_false by (by apply (Hnm k)).
    + destruct (Hq src u (proj1 (Hmv u Hm))) as (wk & a & v & Hpu & Hc). exists wk, a, v. by rewrite Hpar, HK, bool_decide_true.
  - intros k u [[Hk Hne] | [Hm ->]]%Hbk; [by apply Hp |]. by rewrite (proj2 (Hmv u Hm)).
  - intros u wk a v Hpu%Hpar. rewrite HT. by apply (Ht u wk a v).
  - intros u wk a v Hpu%Hpar Hbl. rewrite HT in Hbl. rewrite HK. destruct (Ha u wk a v Hpu Hbl) as [Hk | Hf]; [| right; by apply flying_insert].
    destruct (decide (cur_key (fx s) u wk = src)) as [E | Hne].
    + rewrite E in Hk. destruct (Hall u Hk Hbl) as [Hi | Hm]; [right; exists t, ids, false; by rewrite lookup_insert_eq |].
      left. rewrite bool_decide_true by done. apply Hbk. by right.
    + left. rewrite bool_decide_false by (by apply (Hnm _ _ Hk)). apply Hbk. by left.
  - intros p u k [[-> Hm] | Hk]%HD.
    + split; [done |]. destruct (Hq src u (proj1 (Hmv u Hm))) as (wk & a & v & Hpu & _). exists wk, a, v. by apply Hpar.
    + destruct (Hd p u k Hk) as [-> (wk & a & v & Hpu)]. split; [done |]. exists wk, a, v. by apply Hpar.
  - intros u. rewrite owed_woken. destruct (bool_decide_reflect (u ∈ ids)) as [Hi | _]; simpl; intros Hw'.
    + destruct (Hids u Hi) as [Hsrc Hn]. destruct (Hq src u Hsrc) as (wk & a & v & Hpu & _). split; [exists wk, a, v; by apply Hpar |].
      intros k [[Hk Hne] | [Hm _]]%Hbk; [apply Hne; by apply (queued_once s k src u) | done].
    + destruct (Ho u Hw') as [(wk & a & v & Hpu) Hno]. split; [exists wk, a, v; by apply Hpar |].
      intros k [[Hk _] | [Hm _]]%Hbk; [by apply (Hno k) | by apply (Hno src), Hmv].
  - apply log_woken; [done | | done]. intros u Hu. apply not_true_is_false. intros Hw'. by apply (proj2 (Ho u Hw') src), Hids.
Qed.

(** The sweep of an exiting process. *)
Definition dying (pid : Z) (f : Futexes) : list Z := tid <$> List.filter (fun t => pid_of (tid t) =? pid) (THREAD_TABLE f).
Definition spared (ids l : list Z) : list Z := List.filter (fun t => negb (existsb (Z.eqb t) ids)) l.

Lemma spared_nil l : spared [] l = l.
Proof. unfold spared. induction l as [| x l IH]; simpl; [done |]. by f_equal. Qed.

Lemma elem_of_spared ids l t : t ∈ spared ids l <-> t ∈ l /\ t ∉ ids.
Proof.
  unfold spared. rewrite !list_elem_of_In, filter_In, negb_true_iff. split; intros [H1 H2]; (split; [done |]).
  - intros Hi. apply not_true_iff_false in H2. apply H2. apply existsb_exists. exists t. split; [done | apply Z.eqb_refl].
  - apply not_true_iff_false. intros (x & Hx & <-%Z.eqb_eq)%existsb_exists. by apply H2.
Qed.

Lemma drain_bucket pid f k :
  bucket (futex_drain_pid pid_of pid f) k =
  if (k.1 =? pid) && negb (k.1 =? FUTEX_SHARED_NS) then []
  else if k.1 =? FUTEX_SHARED_NS then spared (dying pid f) (bucket f k) else bucket f k.
Proof.
  unfold bucket, futex_drain_pid. cbn [FUTEX_WAITERS]. change (tid <$> _) with (dying pid f).
  assert (Hf : forall P `{!forall x, Decision (P x)}, P = (fun '(k, _) => negb ((k.1 =? pid) && negb (k.1 =? FUTEX_SHARED_NS)) = true) ->
    (filter P (FUTEX_WAITERS f)) !! k = if (k.1 =? pid) && negb (k.1 =? FUTEX_SHARED_NS) then None else FUTEX_WAITERS f !! k).
  { intros P HP ->. rewrite map_lookup_filter. destruct (FUTEX_WAITERS f !! k) as [l |]; simpl; [| by destruct (_ && _)].
    case_guard as Hg; simpl in Hg; by destruct ((k.1 =? pid) && negb (k.1 =? FUTEX_SHARED_NS)). }
  destruct (dying pid f) as [| x d].
  - rewrite (Hf _ _ eq_refl). destruct (_ && _); [done |]. destruct (_ =? _); [| done]. by rewrite spared_nil.
  - rewrite map_lookup_imap, (Hf _ _ eq_refl). destruct (_ && _); [done |]. destruct (FUTEX_WAITERS f !! k) as [l |]; simpl.
    + unfold evict. destruct (k.1 =? FUTEX_SHARED_NS); [| done]. fold (spared (x :: d) l). by destruct (spared (x :: d) l).
    + by destruct (_ =? _).
Qed.

Lemma drain_ok s pid :
  fx_ok s -> (forall t, pid_of t = pid -> forall st, st_of (THREAD_TABLE (fx s)) t = Some st -> st = Dead) ->
  fx_ok (mkFx (futex_drain_pid pid_of pid (fx s)) (words s) (fpcs s) (flog s)).
Proof.
  intros [Hnd Hq Hp Ht Ha Hd Ho Hl] Hdead. set (f' := futex_drain_pid pid_of pid (fx s)).
  assert (Hdy : forall t, pid_of t = pid -> is_Some (st_of (THREAD_TABLE (fx s)) t) -> t ∈ dying pid (fx s)).
  { intros t Hpid [st Hst]. unfold st_of, find_thread in Hst. apply fmap_Some in Hst as (th & Hf & _). apply find_some in Hf as [Hin Heq%Z.eqb_eq].
    unfold dying. apply list_elem_of_fmap. exists th. split; [done |]. apply list_elem_of_In, filter_In. split; [done |]. rewrite Heq. by apply Z.eqb_eq. }
  assert (Hbk : forall k t, t ∈ bucket f' k -> t ∈ bucket (fx s) k /\ pid_of t <> pid).
  { intros k t. unfold f'. rewrite drain_bucket. destruct (Z.eqb_spec k.1 FUTEX_SHARED_NS) as [Hs | Hs]; simpl.
    - rewrite andb_false_r, elem_of_spared. intros [Hk Hn]. split; [done |]. intros Hpid. apply Hn, Hdy; [done |].
      destruct (Hq k t Hk) as (wk & a & v & Hpc & _). by apply (Ht t wk a v).
    - rewrite andb_true_r. destruct (Z.eqb_spec k.1 pid); [set_solver |]. intros Hk. split; [done |]. destruct (Hp k t Hk); congruence. }
  assert (HD : forall t, pid_of t <> pid -> forall wk, FutexRun.cur_key pid_of f' t wk = cur_key (fx s) t wk).
  { intros t Hpid wk. unfold FutexRun.cur_key, f', futex_drain_pid. simpl. f_equal. rewrite map_lookup_filter.
    destruct (FUTEX_REQUEUE_DEST (fx s) !! (pid_of t, t)); [| done]. simpl. case_guard as Hg; [done |]. by rewrite (proj2 (Z.eqb_neq _ _) Hpid) in Hg. }
  constructor; simpl.
  - intros k. unfold f'. rewrite drain_bucket. destruct (_ && _); [by apply list.NoDup_nil |]. destruct (_ =? _); [| apply Hnd].
    by apply NoDup_ListNoDup, List.NoDup_filter, NoDup_ListNoDup.
  - intros k t [Hk Hpid]%Hbk. destruct (Hq k t Hk) as (wk & a & v & Hpc & Hc). exists wk, a, v. by rewrite HD.
  - intros k t [Hk _]%Hbk. by apply Hp.
  - done.
  - intros t wk a v Hpc Hb. assert (pid_of t <> pid) as Hpid by (intros Hpid; by discriminate (Hdead t Hpid _ Hb)).
    rewrite HD by done. destruct (Ha t wk a v Hpc Hb) as [Hk | Hf]; [left | by right]. unfold f'. rewrite drain_bucket.
    assert (t ∉ dying pid (fx s)) as Hn.
    { unfold dying. intros (th & Heq & Hin)%list_elem_of_fmap. apply list_elem_of_In, filter_In in Hin as [_ Hin%Z.eqb_eq]. congruence. }
    destruct (Z.eqb_spec (cur_key (fx s) t wk).1 FUTEX_SHARED_NS); [rewrite andb_false_r; by apply elem_of_spared |]. rewrite andb_true_r.
    destruct (Z.eqb_spec (cur_key (fx s) t wk).1 pid); [destruct (Hp _ t Hk); congruence | done].
  - intros p t k Hk. unfold futex_drain_pid in Hk. simpl in Hk. apply map_lookup_filter_Some in Hk as [Hk _]. by apply (Hd p t k).
  - intros t Hw. destruct (Ho t Hw) as [Hpc Hno]. split; [done |]. intros k [Hk _]%Hbk. by apply (Hno k).
  - done.
Qed.

Lemma map_threads_ok s g :
  fx_ok s -> (forall th, tid (g th) = tid th) -> (forall th, state (g th) = Blocked -> state th = Blocked) ->
  fx_ok (mkFx (with_threads (map g (THREAD_TABLE (fx s))) (fx s)) (words s) (fpcs s) (flog s)).
Proof.
  intros Hok Hg Hb. apply threads_ok; [done | |]; intros t _; rewrite st_of_map by done; unfold st_of; destruct (find_thread t _) as [th |]; simpl; try done.
  - intros [= H]. by rewrite (Hb th H).
Qed.

Lemma update_threads_ok s t st :
  fx_ok s -> (parked (fpcs s) t -> st <> Blocked) ->
  fx_ok (mkFx (with_threads (update_thread t (set_state st) (THREAD_TABLE (fx s))) (fx s)) (words s) (fpcs s) (flog s)).
Proof.
  intros Hok Hst. apply threads_ok; [done | |]; intros u Hu; rewrite st_of_update by done; destruct (Z.eqb_spec u t) as [-> |]; try done.
  - unfold st_of. by destruct (find_thread t _).
  - destruct (find_thread t _); [| done]. intros [= H]. by apply Hst in H.
Qed.

Lemma spawn_ok s th :
  fx_ok s -> find_thread (tid th) (THREAD_TABLE (fx s)) = None ->
  fx_ok (mkFx (with_threads (THREAD_TABLE (fx s) ++ [th]) (fx s)) (words s) (fpcs s) (flog s)).
Proof.
  intros Hok Hn.
  apply threads_ok; [done | |].
  - intros t _ Hs. by rewrite st_of_app.
  - intros t (wk & a & v & Hp) Hb. rewrite st_of_app in Hb; [done |]. by apply (ok_table _ _ Hok t wk a v).
Qed.

Lemma fx_step_ok s s' : fx_ok s -> fx_step pid_of (covered pid_of) s s' -> fx_ok s'.
Proof.
  intros Hok Hs. destruct Hs as [a v | th Hn Hpc | t st Hnp Hnd | t Hb | now | t a uaddr val private phys wake f' Hpc Hin key H | t wk a v b f Hpc Hst H
    | t key val ids f Hpc H | t key1 key2 val val2 val3 a writable r w ids f Hpc H | t uaddr uaddr2 private phys phys2 mw mr ids f Hpc src dst Hcov H
    | t ids Hpc | t uaddr mw ids f Hpc H | t ids Hpc | pid | pid Hdead].
  - destruct Hok. by constructor.
  - by apply spawn_ok.
  - apply update_threads_ok; [done |]. intros (wk & a & v & H). by destruct (Hnp wk a v).
  - by apply update_threads_ok.
  - apply map_threads_ok; [done | |]; intros th; unfold due_wake; repeat case_match; done.
  - by apply (wait_ok s t a uaddr val private phys wake).
  - by apply (leave_ok s t wk a v).
  - apply thinned_ok; [done |]. apply (thinned_wake key (wake_budget val) t); [apply Hok | intros; by eapply queued_once | done].
  - apply thinned_ok; [done |]. apply (thinned_wake_op key1 key2 val val2 val3 t (words s !! a) writable (fx s) r w); [apply Hok | intros; by eapply queued_once | done].
  - by apply (requeue_ok s t uaddr uaddr2 private phys phys2 mw mr).
  - apply (roused_ok s t ids false); [done | done | | |]; unfold futex_requeue_wake;
      pose proof (wake_fold_roused ids (THREAD_TABLE (fx s)) 0 false) as R; by destruct (fold_left wake_one ids _) as [[l p] b].
  - by apply (exit_pick_ok s t uaddr mw).
  - apply (roused_ok s t ids true); [done | done | done | done |]. apply exit_fold_roused.
  - apply map_threads_ok; [done | |]; intros th; unfold kill; by destruct (_ =? _).
  - by apply drain_ok.
Qed.

Lemma fx_boot_ok threads : fx_ok (fx_boot threads).
Proof.
  assert (forall k, bucket (fx (fx_boot threads)) k = []) as Hb by (intros k; unfold bucket, fx_boot; simpl; by rewrite lookup_empty).
  constructor; try (intros *; rewrite ?Hb); simpl; try done; try (rewrite lookup_empty; done); try set_solver. by apply list.NoDup_nil.
Qed.

Lemma fx_reach_ok s0 s : fx_ok s0 -> rtc (fx_step pid_of (covered pid_of)) s0 s -> fx_ok s.
Proof. intros H0 Hr. revert H0. induction Hr as [| s1 s2 s3 Hs _ IH]; [done |]. intros H. apply IH. by apply (fx_step_ok s1). Qed.
End invariant.
