(* ===== verification/FutexWake.v ===== *)
(** * What futex wakes promise (kernel/src/syscall/mod.rs,
      subsys/linux/syscall.rs)

    Theorems on the steps of [FutexRun]: a wake reaches the threads that
    sleep under its key, nobody goes on sleeping for a value that has been
    replaced, a wake that was counted is a wait that does not time out, and a
    timeout does not end a wait early, as long as requeues are [covered]; and
    the places where the code falls short, other requeues among them. *)

From S2P Require Import Prelude WaitList Dispatcher Futex FutexRun.

Section theorems.
Context (pid_of : Z -> Z).

Abbreviation cur_key := (cur_key pid_of).
Abbreviation fx_step := (fx_step pid_of).
Abbreviation covered := (covered pid_of).

(** Asleep in a wait that no wake has picked and no requeue has moved. *)
Definition asleep (s : Fx) (k : FutexKey) (a v t : Z) : Prop :=
  fpcs s !! t = Some (FParked k a v) /\ st_of (THREAD_TABLE (fx s)) t = Some Blocked /\
  FUTEX_REQUEUE_DEST (fx s) !! (pid_of t, t) = None /\ ~ flying (fpcs s) t.

Lemma wake_first_enough (p : Z -> bool) (before gone r after : list Z) t n :
  gone ++ r = before ++ t :: after -> t ∉ before -> r = [] \/ n <= Z.of_nat (length (filter (fun x => p x = true) gone)) ->
  Z.of_nat (length (filter (fun x => p x = true) before)) < n -> t ∈ gone.
Proof.
  intros Heq Hnb Hr Hlt. destruct (decide (t ∈ gone)) as [| Hng]; [done |]. destruct Hr as [-> | Hr].
  { rewrite app_nil_r in Heq. rewrite Heq in Hng. set_solver. }
  assert (exists k, before = gone ++ k) as [k ->].
  { clear Hr Hlt Hnb. revert before Heq. induction gone as [| x gone IH]; intros before Heq; [by exists before |].
    destruct before as [| y before]; [injection Heq as -> _; set_solver |]. injection Heq as -> Heq.
    destruct (IH ltac:(set_solver) before Heq) as [k ->]. by exists k. }
  rewrite list.filter_app, length_app in Hlt. lia.
Qed.

(** C12: a futex wake finds the thread that sleeps. In every state that
    stores, waits, wakes, [covered] requeues, deadlines, exits and the sweeps
    of processes whose threads are dead can reach in any interleaving, a
    thread parked in FUTEX_WAIT and blocked, which no wake under way has
    taken, is on exactly one queue and there once: that of the address it
    waits on, or of the one it was requeued to. A FUTEX_WAKE under that key
    for more threads than are blocked in front of it makes it ready, counts it
    and takes it off the queue. A requeue is covered when its two limits,
    non-negative, have room for all threads of the queue it takes from and
    these are of the caller's process: a smaller one drops waiters
    ([requeue_drops_waiters]), and one across processes records the new key
    under the wrong process ([requeue_across_processes]). *)
Theorem futex_wake_reaches threads s t wk a v :
  rtc (fx_step covered) (fx_boot threads) s -> fpcs s !! t = Some (FParked wk a v) -> st_of (THREAD_TABLE (fx s)) t = Some Blocked -> ~ flying (fpcs s) t ->
  exists before after, bucket (fx s) (cur_key (fx s) t wk) = before ++ t :: after /\ t ∉ before /\ t ∉ after /\
    (forall k, k <> cur_key (fx s) t wk -> t ∉ bucket (fx s) k) /\
    forall val caller ids f', futex_wake (cur_key (fx s) t wk) val caller (fx s) = (ids, f') ->
      Z.of_nat (length (filter (fun x => is_blocked (THREAD_TABLE (fx s)) x = true) before)) < wake_budget val ->
      t ∈ ids /\ st_of (THREAD_TABLE f') t = Some Ready /\ forall k, t ∉ bucket f' k.
Proof.
  intros Hr Hpc Hb Hnf. pose proof (fx_reach_ok pid_of _ s (fx_boot_ok pid_of threads) Hr) as Hok.
  set (k := cur_key (fx s) t wk). destruct (ok_asleep _ _ Hok t wk a v Hpc Hb) as [Hk | ?]; [| done]. fold k in Hk.
  assert (Huniq : forall k', k' <> k -> t ∉ bucket (fx s) k') by (intros k' Hne Hk'; apply Hne; by apply (queued_once pid_of s k' k t)).
  pose proof (ok_nodup _ _ Hok k) as Hnd. apply list_elem_of_split in Hk as (before & after & Hk). exists before, after. rewrite Hk in Hnd.
  apply list.NoDup_app in Hnd as (Hnb & Hdis & Hna). apply list.NoDup_cons in Hna as [Hta Hna].
  assert (t ∉ before) as Htb by (intros Hi; by apply (Hdis t Hi); left). split_and!; [done | done | done | done |].
  intros val caller ids f' Hw Hlt. apply wake_bucket_spec in Hw as (gone & r & Hg & -> & Hr' & Hbk & _ & Hst); [| apply Hok].
  rewrite Hk in Hg. assert (t ∈ gone) as Htg by (eapply (wake_first_enough _ before gone r after); done).
  assert (t ∈ filter (fun x => is_blocked (THREAD_TABLE (fx s)) x = true) gone) as Hti.
  { apply list_elem_of_filter. split; [| done]. rewrite is_blocked_st. by apply bool_decide_true. }
  split_and!; [done | by rewrite (Hst t), bool_decide_true |]. intros k'. rewrite Hbk. case_decide; [| by apply Huniq].
  pose proof (ok_nodup _ _ Hok k) as Hnd. rewrite Hk, Hg in Hnd. apply list.NoDup_app in Hnd as (_ & Hdis' & _). by apply Hdis'.
Qed.

(* ------------------------------------------------------------------ *)
(** ** Falling asleep *)

(** A step that does not change what is parked puts nobody to sleep, if it
    blocks no parked thread and hides no wake. *)
Lemma asleep_same s s' k a v t :
  same_parked (fpcs s) (fpcs s') -> FUTEX_REQUEUE_DEST (fx s') !! (pid_of t, t) = FUTEX_REQUEUE_DEST (fx s) !! (pid_of t, t) ->
  (parked (fpcs s) t -> st_of (THREAD_TABLE (fx s')) t = Some Blocked -> st_of (THREAD_TABLE (fx s)) t = Some Blocked /\ (flying (fpcs s) t -> flying (fpcs s') t)) ->
  asleep s' k a v t -> asleep s k a v t.
Proof.
  intros HP HD Hb (Hpc & Hst & Hd & Hf). apply HP in Hpc. destruct (Hb ltac:(by exists k, a, v) Hst) as [Hst0 Hf0].
  split_and!; [done | done | congruence | auto].
Qed.

Lemma waking_parked P t pc : P !! t = None \/ (exists ids e, P !! t = Some (FWaking ids e)) -> (forall wk a v, pc <> FParked wk a v) -> same_parked P (<[t := pc]> P).
Proof.
  intros Ht Hpc u wk a v. rewrite lookup_insert_Some. split.
  - intros [[_ H] | [_ H]]; [by destruct (Hpc wk a v) | done].
  - intros H. right. split; [| done]. intros ->. destruct Ht as [? | (ids & e & ?)]; congruence.
Qed.

Lemma woken_parked P t ids e : P !! t = Some (FWaking ids e) -> same_parked P (delete t P).
Proof. intros Ht u wk a v. rewrite lookup_delete_Some. split; [by intros [_ ?] |]. intros H. split; [congruence | done]. Qed.

Lemma roused_asleep s t ids e f' k a v u :
  fpcs s !! t = Some (FWaking ids e) -> FUTEX_REQUEUE_DEST f' = FUTEX_REQUEUE_DEST (fx s) -> roused ids (THREAD_TABLE (fx s)) (THREAD_TABLE f') ->
  asleep (mkFx f' (words s) (delete t (fpcs s)) (flog s)) k a v u -> asleep s k a v u.
Proof.
  intros Ht HD [_ R]. apply asleep_same; [by apply (woken_parked _ _ ids e) | by rewrite <- HD |]. simpl. intros _ [Hu Hi]%R.
  split; [done |]. by apply (flying_delete _ _ ids e).
Qed.

Lemma thinned_asleep s f' w l ids k a v t :
  thinned (fx s) f' ids -> asleep (mkFx f' w (fpcs s) l) k a v t -> asleep s k a v t.
Proof. intros [S D T A I N]. apply asleep_same; [done | by rewrite <- D |]. simpl. intros _ Hb. by destruct (A t Hb). Qed.

Lemma leave_asleep s t wk b f' l k a v u :
  parked (fpcs s) t -> futex_wait_leave (pid_of t) t wk (fx s) = (b, f') ->
  asleep (mkFx (with_threads (update_thread t (set_state Running) (THREAD_TABLE f')) f') (words s) (delete t (fpcs s)) l) k a v u -> asleep s k a v u.
Proof.
  intros (wk' & a' & v' & Ht) H (Hpc & Hst & Hd & Hf). simpl in *. apply leave_spec in H as (HD & HT & _ & _). apply lookup_delete_Some in Hpc as [Hne Hpc].
  rewrite st_of_update, (proj2 (Z.eqb_neq u t)), HT in Hst by first [done | congruence]. rewrite HD, lookup_delete_ne in Hd by congruence.
  split_and!; [done | done | done |]. intros (x & ids & e & Hx & Hi). apply Hf. exists x, ids, e. split; [| done].
  rewrite lookup_delete_ne; [done | congruence].
Qed.

Lemma requeue_asleep s t src dst mw mr ids f' l k a v u :
  fx_ok pid_of s -> fpcs s !! t = None -> covered t (bucket (fx s) src) mw mr -> futex_requeue_pick (pid_of t) src dst mw mr (fx s) = (ids, f') ->
  asleep (mkFx f' (words s) (<[t := FWaking ids false]> (fpcs s)) l) k a v u -> asleep s k a v u.
Proof.
  intros Hok Ht (Hw & Hr & Hlen & _) H. apply requeue_pick_spec in H as (moves & _ & _ & _ & _ & _ & HD & HT); try done; [| apply Hok].
  intros (Hpc & Hst & Hd & Hf). simpl in *. rewrite HD in Hd. case_bool_decide; [done |]. rewrite HT in Hst.
  apply (waking_parked (fpcs s) t (FWaking ids false) (or_introl Ht) ltac:(done)) in Hpc. split_and!; [done | done | done |]. intros Hfl. apply Hf. by apply flying_insert.
Qed.

Lemma exit_asleep s t uaddr mw ids f' l k a v u :
  fpcs s !! t = None -> futex_exit_pick (pid_of t) uaddr mw (fx s) = (ids, f') ->
  asleep (mkFx f' (words s) (<[t := FWaking ids true]> (fpcs s)) l) k a v u -> asleep s k a v u.
Proof.
  intros Ht H. assert (THREAD_TABLE f' = THREAD_TABLE (fx s) /\ FUTEX_REQUEUE_DEST f' = FUTEX_REQUEUE_DEST (fx s)) as [HT HD].
  { unfold futex_exit_pick in H. destruct (FUTEX_WAITERS (fx s) !! _); by injection H as <- <-. }
  apply asleep_same; simpl; [apply waking_parked; [by left | done] | by rewrite HD |].
  rewrite HT. intros _ Hb. split; [done |]. by apply flying_insert.
Qed.

Lemma drain_asleep s pid k a v u :
  (forall t, pid_of t = pid -> forall st, st_of (THREAD_TABLE (fx s)) t = Some st -> st = Dead) ->
  asleep (mkFx (futex_drain_pid pid_of pid (fx s)) (words s) (fpcs s) (flog s)) k a v u -> asleep s k a v u.
Proof.
  intros Hdead (Hpc & Hst & Hd & Hf). simpl in *. split_and!; [done | done | | done]. rewrite map_lookup_filter in Hd.
  destruct (FUTEX_REQUEUE_DEST (fx s) !! (pid_of u, u)) as [k' |]; [| done]. simpl in Hd. case_guard as Hg; [done |]. simpl in Hg.
  destruct (Z.eqb_spec (pid_of u) pid) as [E |]; [by discriminate (Hdead u E _ Hst) | done].
Qed.

(** Only a thread that finds the value in the word goes to sleep for it. *)
Lemma asleep_back s s' k a v t : fx_ok pid_of s -> fx_step covered s s' -> asleep s' k a v t -> asleep s k a v t \/ words s !! a = Some v.
Proof.
  intros Hok Hs. destruct Hs as [a' v' | th Hn Hpc | u st Hnp Hnd | u Hb | now | u a' uaddr val private phys wake f' Hpc Hin key H | u wk a' v' b f Hpc Hst H
    | u key val ids f Hpc H | u key1 key2 val val2 val3 a' writable r w ids f Hpc H | u uaddr uaddr2 private phys phys2 mw mr ids f Hpc src dst Hcov H
    | u ids Hpc | u uaddr mw ids f Hpc H | u ids Hpc | pid | pid Hdead].
  - by left.
  - intros Ha. left. revert Ha. apply asleep_same; [done | done |]. simpl. intros (wk & a' & v' & Hp) Hb. split; [| done].
    rewrite st_of_app in Hb; [done |]. by apply (ok_table _ _ Hok t wk a' v').
  - intros Ha. left. revert Ha. apply asleep_same; [done | done |]. simpl. intros (wk & a' & v' & Hp). rewrite st_of_update by done.
    destruct (Z.eqb_spec t u) as [-> |]; [by destruct (Hnp wk a' v') | done].
  - intros Ha. left. revert Ha. apply asleep_same; [done | done |]. simpl. intros _. rewrite st_of_update by done. destruct (Z.eqb_spec t u) as [-> |]; [| done].
    by destruct (find_thread u _).
  - intros Ha. left. revert Ha. apply asleep_same; [done | done |]. simpl. intros _. unfold due_wake_scan. rewrite st_of_map by (intros th; unfold due_wake; repeat case_match; done).
    unfold st_of. destruct (find_thread t _) as [th |]; [| done]. simpl. unfold due_wake. repeat case_match; simpl; intros [= Hb]; by rewrite ?Hb.
  - apply enqueue_spec in H as (Hread & HD & Hst & Hcase). intros (Hp & Hb & Hd & Hf). simpl in *. destruct (decide (u = t)) as [-> | Hne].
    + rewrite lookup_insert_eq in Hp. injection Hp as <- <- <-. by right.
    + left. rewrite lookup_insert_ne in Hp by done. rewrite Hst in Hb by done. rewrite HD in Hd. split_and!; [done | done | done |].
      intros Hfl. apply Hf. by apply flying_insert.
  - left. apply (leave_asleep s u wk b f (OLeft u b :: flog s)); [by exists wk, a', v' | done | done].
  - left. apply (thinned_asleep s f (words s) (map OWoken ids ++ flog s) ids); [| done].
    apply (thinned_wake pid_of key (wake_budget val) u); [apply Hok | intros; by eapply queued_once | done].
  - left. eapply (thinned_asleep s f _ _ ids); [| done].
    apply (thinned_wake_op pid_of key1 key2 val val2 val3 u (words s !! a') writable (fx s) r w); [apply Hok | intros; by eapply queued_once | done].
  - left. by eapply (requeue_asleep s u src dst mw mr).
  - left. apply (roused_asleep s u ids false (futex_requeue_wake u ids (fx s))); [done | | | done]; unfold futex_requeue_wake;
      pose proof (wake_fold_roused ids (THREAD_TABLE (fx s)) 0 false) as R; by destruct (fold_left wake_one ids _) as [[l p] b].
  - left. by eapply (exit_asleep s u uaddr mw).
  - left. apply (roused_asleep s u ids true (futex_exit_wake ids (fx s))); [done | done | apply exit_fold_roused | done].
  - intros Ha. left. revert Ha. apply asleep_same; [done | done |]. simpl. intros _. rewrite st_of_map by (intros th; unfold kill; by destruct (_ =? _)).
    unfold st_of. destruct (find_thread t _) as [th |]; [| done]. simpl. unfold kill. by destruct (_ =? _).
  - left. by apply (drain_asleep s pid).
Qed.

(** A step while the word does not hold [v]. *)
Definition unless (step : relation Fx) (a v : Z) (x y : Fx) : Prop := step x y /\ words x !! a <> Some v.

Lemma nobody_asleep k a v s s' : fx_ok pid_of s -> rtc (unless (fx_step covered) a v) s s' -> (forall t, ~ asleep s k a v t) -> forall t, ~ asleep s' k a v t.
Proof.
  intros Hok Hr. revert Hok. induction Hr as [| s1 s2 s3 [Hs Hw] _ IH]; [done |]. intros Hok Hn. apply IH; [by apply (fx_step_ok pid_of s1) |].
  intros t Ha. destruct (asleep_back _ _ _ _ _ _ Hok Hs Ha) as [H |]; [by apply (Hn t) | done].
Qed.

(** C11: the comparison of FUTEX_WAIT closes the window for lost wake-ups. A
    thread that finds a futex word replaced wakes as many threads as wait
    under the key: from then on, in every interleaving and until the word
    holds the old value again, no thread sleeps under that key for the old
    value, neither one that was about to sleep when the word was replaced nor
    one that calls later, apart from threads that a requeue has moved to
    another address or that a wake under way is about to make ready. The runs
    are those in which every requeue is [covered]: it has room, in its two
    non-negative limits together, for all threads of the queue it takes from,
    and these are of the caller's process ([requeue_drops_waiters] and
    [requeue_across_processes] show what other requeues do); and the queues of
    an exiting process are swept once its threads are dead. *)
Theorem futex_no_stale_sleeper threads s k val caller ids f' a v s' :
  rtc (fx_step covered) (fx_boot threads) s -> fpcs s !! caller = None -> words s !! a <> Some v ->
  futex_wake k val caller (fx s) = (ids, f') -> Z.of_nat (length (bucket (fx s) k)) <= wake_budget val ->
  rtc (unless (fx_step covered) a v) (mkFx f' (words s) (fpcs s) (map OWoken ids ++ flog s)) s' ->
  forall t, ~ asleep s' k a v t.
Proof.
  intros Hr Hc Hw H Hall Hrun. pose proof (fx_reach_ok pid_of _ s (fx_boot_ok pid_of threads) Hr) as Hok.
  assert (fx_ok pid_of (mkFx f' (words s) (fpcs s) (map OWoken ids ++ flog s))) as Hok1.
  { apply (fx_step_ok pid_of s); [done |]. by apply (FxWake pid_of _ s caller k val). }
  apply (nobody_asleep k a v _ s' Hok1 Hrun). intros t (Hpc & Hb & Hd & Hf). simpl in *.
  destruct (ok_asleep _ _ Hok1 t k a v Hpc Hb) as [Hk | ?]; [| done]. simpl in Hk. unfold FutexRun.cur_key in Hk. rewrite Hd in Hk. simpl in Hk.
  apply wake_bucket_spec in H as (gone & r & Hg & -> & Hr' & Hbk & _ & _); [| apply Hok]. rewrite Hbk, decide_True in Hk by done.
  destruct Hr' as [-> | Hr']; [by apply list.not_elem_of_nil in Hk |]. pose proof (length_filter (fun x => is_blocked (THREAD_TABLE (fx s)) x = true) gone) as Hlen.
  rewrite Hg, length_app in Hall. destruct r as [| x r]; [by apply list.not_elem_of_nil in Hk |]. simpl in Hall. lia.
Qed.

(** C13: no counted wake is wasted. In every interleaving in which each
    requeue is [covered] (its two limits, non-negative, have room for all
    threads of the queue it takes from, which are of the caller's process) and
    processes are swept once their threads are dead: a thread that a
    FUTEX_WAKE, FUTEX_WAKE_OP or FUTEX_REQUEUE has counted as woken, or an
    exiting thread has woken, and that returns from its wait, returns with
    success, not with a timeout, even if its deadline passed before it ran;
    and it is not counted again before it has returned. So each unit of the
    numbers that wakes return stands for a wait of its own that does not time
    out. Requeues that are not covered are outside: [requeue_drops_waiters]
    and [requeue_across_processes] show what they do. *)
Theorem futex_wakes_not_wasted threads s :
  rtc (fx_step covered) (fx_boot threads) s ->
  (forall newer t timed_out older, flog s = newer ++ OLeft t timed_out :: older -> owed t older = true -> timed_out = false) /\
  (forall newer t older, flog s = newer ++ OWoken t :: older -> owed t older = false) /\
  (forall t, owed t (flog s) = true -> exists wk a v, fpcs s !! t = Some (FParked wk a v) /\ (futex_wait_leave (pid_of t) t wk (fx s)).1 = false).
Proof.
  intros Hr. pose proof (fx_reach_ok pid_of _ s (fx_boot_ok pid_of threads) Hr) as Hok. pose proof (ok_log _ _ Hok) as Hl.
  assert (Hsuf : forall newer l, flog s = newer ++ l -> log_ok l).
  { intros newer l E. rewrite E in Hl. clear -Hl. induction newer as [| [t | t b] newer IH]; [done | |]; apply IH, Hl. }
  split_and!.
  - intros newer t b older H. by apply Hsuf in H as [H _].
  - intros newer t older H. by apply Hsuf in H as [H _].
  - intros t Hw. destruct (ok_owed _ _ Hok t Hw) as [(wk & a & v & Hpc) Hno]. exists wk, a, v. split; [done |].
    destruct (futex_wait_leave (pid_of t) t wk (fx s)) as [b f'] eqn:E. apply leave_spec in E as (_ & _ & -> & _). by apply bool_decide_false.
Qed.
End theorems.

(* ------------------------------------------------------------------ *)
(** ** Deadlines *)

Lemma div_ceil_spec a b : 0 < b -> (div_ceil a b - 1) * b < a <= div_ceil a b * b.
Proof.
  intros Hb. unfold div_ceil. pose proof (Z.div_mod a b ltac:(lia)) as E. pose proof (Z.mod_pos_bound a b Hb) as M.
  destruct (Z.eqb_spec (a mod b) 0); nia.
Qed.

(** A relative timeout is neither cut short nor stretched by more than a
    tick.  Once the time-stamp counter is calibrated, and for a timeout whose
    length in counter cycles fits a word, the tick at which the scheduler
    wakes the thread is not reached before the cycles of the timeout have
    passed since the call, and is reached when one more tick has. *)
Theorem wake_tick_not_early tsc_per_tick tsc_at_boot tsc published ticks ns tsc' :
  0 < tsc_per_tick -> 0 <= ns -> ns * tsc_per_tick / 10000000 <= U64_MAX - sub64 tsc tsc_at_boot ->
  published <= sub64 tsc' tsc_at_boot / tsc_per_tick ->
  let wake := relative_ns_to_wake_tick tsc_per_tick tsc_at_boot tsc ticks ns in
  let deadline := sub64 tsc tsc_at_boot + ns * tsc_per_tick / 10000000 in
  let now := get_ticks published tsc_per_tick tsc_at_boot tsc' in
  (wake <= now -> deadline <= sub64 tsc' tsc_at_boot) /\ (deadline + tsc_per_tick <= sub64 tsc' tsc_at_boot -> wake <= now).
Proof.
  intros Htpt Hns Hfit Hpub wake deadline now.
  assert (0 <= sub64 tsc tsc_at_boot) as He by (apply wrap_range; lia).
  assert (now = sub64 tsc' tsc_at_boot / tsc_per_tick) as ->.
  { unfold now, get_ticks. rewrite (proj2 (Z.eqb_neq _ _)) by lia. destruct (Z.ltb_spec published (sub64 tsc' tsc_at_boot / tsc_per_tick)); lia. }
  assert (0 <= ns * tsc_per_tick / 10000000) as Hc by (apply Z.div_pos; nia).
  assert (wake = div_ceil deadline tsc_per_tick) as ->.
  { unfold wake, relative_ns_to_wake_tick. rewrite (proj2 (Z.eqb_neq _ _)) by lia. f_equal. unfold deadline.
    assert (ns * tsc_per_tick < 2 ^ 128) as Hbig.
    { pose proof (Z.mod_pos_bound (ns * tsc_per_tick) 10000000 ltac:(lia)). pose proof (Z.div_mod (ns * tsc_per_tick) 10000000 ltac:(lia)). unfold U64_MAX in Hfit. lia. }
    rewrite Z.min_l by lia. rewrite wrap_small by (unfold in_word, U64_MAX in *; lia). unfold sat_add64. lia. }
  pose proof (div_ceil_spec deadline tsc_per_tick Htpt) as Hd. pose proof (Z.div_mod (sub64 tsc' tsc_at_boot) tsc_per_tick ltac:(lia)) as E.
  pose proof (Z.mod_pos_bound (sub64 tsc' tsc_at_boot) tsc_per_tick Htpt) as M. split; intros H; nia.
Qed.

(* ------------------------------------------------------------------ *)
(** ** A wait and its wake *)

Definition three_threads : list Thread := [mkThread 1 Running 0 8 true; mkThread 2 Running 0 8 true; mkThread 3 Running 0 8 true].
Definition one_process (t : Z) : Z := 7.
Definition demo_key : FutexKey := (7, 4096).

Definition store_word (a v : Z) (s : Fx) : Fx := mkFx (fx s) (<[a := v]> (words s)) (fpcs s) (flog s).
Definition do_wait (t a uaddr val wake : Z) (s : Fx) : Fx :=
  mkFx (futex_wait_check_and_enqueue (7, uaddr) val t wake (words s !! a) (fx s)).2 (words s) (<[t := FParked (7, uaddr) a (wrap 32 val)]> (fpcs s)) (flog s).
Definition do_wake (t : Z) (key : FutexKey) (val : Z) (s : Fx) : Fx :=
  mkFx (futex_wake key val t (fx s)).2 (words s) (fpcs s) (map OWoken (futex_wake key val t (fx s)).1 ++ flog s).
Definition do_leave (t : Z) (wk : FutexKey) (s : Fx) : Fx :=
  let '(b, f) := futex_wait_leave 7 t wk (fx s) in
  mkFx (with_threads (update_thread t (set_state Running) (THREAD_TABLE f)) f) (words s) (delete t (fpcs s)) (OLeft t b :: flog s).

Definition slept : Fx := do_wait 1 8192 4096 0 U64_MAX (store_word 8192 0 (fx_boot three_threads)).
Definition replaced : Fx := store_word 8192 1 slept.
Definition woken_up : Fx := do_leave 1 demo_key (do_wake 2 demo_key 1 replaced).

Lemma do_wait_step t a uaddr val wake s :
  fpcs s !! t = None -> is_Some (find_thread t (THREAD_TABLE (fx s))) ->
  (futex_wait_check_and_enqueue (7, uaddr) val t wake (words s !! a) (fx s)).1 = Enqueued -> fx_step one_process (covered one_process) s (do_wait t a uaddr val wake s).
Proof.
  intros Hpc Hin H. refine (FxWait one_process _ s t a uaddr val true None wake _ Hpc Hin _). unfold futex_key, one_process.
  destruct (futex_wait_check_and_enqueue _ _ _ _ _ _) as [r f]. simpl in *. by subst.
Qed.

Lemma do_wake_step t key val s : fpcs s !! t = None -> fx_step one_process (covered one_process) s (do_wake t key val s).
Proof. intros Hpc. refine (FxWake one_process _ s t key val _ _ Hpc _). by destruct (futex_wake key val t (fx s)). Qed.

Lemma do_leave_step t wk a v s :
  fpcs s !! t = Some (FParked wk a v) -> st_of (THREAD_TABLE (fx s)) t = Some Ready -> fx_step one_process (covered one_process) s (do_leave t wk s).
Proof.
  intros Hpc Hst. unfold do_leave. destruct (futex_wait_leave 7 t wk (fx s)) as [b f] eqn:E. by apply (FxLeave one_process _ s t wk a v b f).
Qed.

Lemma slept_reached : rtc (fx_step one_process (covered one_process)) (fx_boot three_threads) slept.
Proof.
  eapply rtc_l; [apply (FxStore one_process _ (fx_boot three_threads) 8192 0) |]. eapply rtc_l; [| apply rtc_refl].
  apply (do_wait_step 1 8192 4096 0 U64_MAX); [reflexivity | vm_compute; eauto | vm_compute; reflexivity].
Qed.

Lemma replaced_reached : rtc (fx_step one_process (covered one_process)) (fx_boot three_threads) replaced.
Proof. eapply rtc_r; [apply slept_reached | apply (FxStore one_process _ slept 8192 1)]. Qed.

Lemma woken_up_reached : rtc (fx_step one_process (covered one_process)) (fx_boot three_threads) woken_up.
Proof.
  eapply rtc_r; [eapply rtc_r; [apply replaced_reached | apply (do_wake_step 2 demo_key 1); reflexivity] |].
  apply (do_leave_step 1 demo_key 8192 0); vm_compute; reflexivity.
Qed.

Lemma none_flying P t : (forall u pc, P !! u = Some pc -> exists wk a v, pc = FParked wk a v) -> ~ flying P t.
Proof. intros H (u & ids & e & Hu & _). by destruct (H u _ Hu) as (? & ? & ? & ?). Qed.

Lemma futex_wake_reaches_witness :
  exists before after, bucket (fx slept) (cur_key one_process (fx slept) 1 demo_key) = before ++ 1 :: after /\ 1 ∉ before /\ 1 ∉ after /\
    (forall k, k <> cur_key one_process (fx slept) 1 demo_key -> 1 ∉ bucket (fx slept) k) /\
    forall val caller ids f', futex_wake (cur_key one_process (fx slept) 1 demo_key) val caller (fx slept) = (ids, f') ->
      Z.of_nat (length (filter (fun x => is_blocked (THREAD_TABLE (fx slept)) x = true) before)) < wake_budget val ->
      1 ∈ ids /\ st_of (THREAD_TABLE f') 1 = Some Ready /\ forall k, 1 ∉ bucket f' k.
Proof.
  apply (futex_wake_reaches one_process three_threads slept 1 demo_key 8192 0).
  - apply slept_reached.
  - vm_compute. reflexivity.
  - vm_compute. reflexivity.
  - apply none_flying. assert (fpcs slept = {[1 := FParked demo_key 8192 0]}) as -> by (vm_compute; reflexivity).
    intros u pc [_ <-]%lookup_singleton_Some. by exists demo_key, 8192, 0.
Defined.

Lemma futex_no_stale_sleeper_witness :
  (futex_wake demo_key 1 2 (fx replaced)).1 = [1] /\
  forall t, ~ asleep one_process (do_wake 2 demo_key 1 replaced) demo_key 8192 0 t.
Proof.
  split; [vm_compute; reflexivity |].
  apply (futex_no_stale_sleeper one_process three_threads replaced demo_key 1 2 (futex_wake demo_key 1 2 (fx replaced)).1 (futex_wake demo_key 1 2 (fx replaced)).2).
  - apply replaced_reached.
  - vm_compute. reflexivity.
  - vm_compute. congruence.
  - apply surjective_pairing.
  - vm_compute. congruence.
  - apply rtc_refl.
Defined.

Lemma futex_wakes_not_wasted_witness :
  flog woken_up = [OLeft 1 false; OWoken 1] /\
  (forall newer t timed_out older, flog woken_up = newer ++ OLeft t timed_out :: older -> owed t older = true -> timed_out = false) /\
  (forall newer t older, flog woken_up = newer ++ OWoken t :: older -> owed t older = false) /\
  (forall t, owed t (flog woken_up) = true -> exists wk a v, fpcs woken_up !! t = Some (FParked wk a v) /\ (futex_wait_leave (one_process t) t wk (fx woken_up)).1 = false).
Proof. split; [vm_compute; reflexivity |]. apply (futex_wakes_not_wasted one_process three_threads woken_up). apply woken_up_reached. Defined.

(** Ten milliseconds at 3 GHz, asked for in the middle of a tick. *)
Lemma wake_tick_not_early_witness :
  let wake := relative_ns_to_wake_tick 30000000 1000 45001000 1 10000000 in
  let deadline := 45000000 + 30000000 in
  wake = 3 /\ (wake <= get_ticks 2 30000000 1000 90001000 -> deadline <= 90000000) /\ (deadline + 30000000 <= 90000000 -> wake <= get_ticks 2 30000000 1000 90001000).
Proof.
  split; [vm_compute; reflexivity |]. apply (wake_tick_not_early 30000000 1000 45001000 2 1 10000000 90001000); vm_compute; congruence.
Defined.

(* ------------------------------------------------------------------ *)
(** ** Where the code falls short *)

Definition three_asleep : Fx := do_wait 3 8192 4096 0 U64_MAX (do_wait 2 8192 4096 0 U64_MAX slept).

(** A requeue without room for all waiters drops the rest: they stay blocked
    and are on no queue. *)
Lemma requeue_drops_waiters :
  let '(ids, f) := futex_requeue_pick 7 demo_key (7, 4100) 0 1 (fx three_asleep) in
  ids = [] /\ FUTEX_WAITERS f = {[(7, 4100) := [1]]} /\
  st_of (THREAD_TABLE f) 2 = Some Blocked /\ st_of (THREAD_TABLE f) 3 = Some Blocked.
Proof. vm_compute. repeat split. Qed.

(** A requeue by process 7 of a waiter of process 8 on a shared word: the
    waiter, timed out, looks under its old key, reports success and stays on
    the new queue. *)
Lemma requeue_across_processes :
  let f := (futex_wait_check_and_enqueue (futex_shared_key_from_phys 8192) 0 1 100 (Some 0) (mkFutexes ∅ ∅ three_threads false)).2 in
  let f := (futex_requeue_pick 7 (futex_shared_key_from_phys 8192) (futex_shared_key_from_phys 8196) 0 1 f).2 in
  let '(timed_out, f) := futex_wait_leave 8 1 (futex_shared_key_from_phys 8192) f in
  timed_out = false /\ bucket f (futex_shared_key_from_phys 8196) = [1].
Proof. vm_compute. repeat split. Qed.

(** A wake in two halves, of a thread whose deadline passes in between and
    which then waits elsewhere: the second half ends the new wait, which
    reports a timeout although it has no deadline. *)
Lemma late_half_reports_timeout :
  let s := do_wait 1 8192 4096 0 50 (store_word 8192 0 (fx_boot three_threads)) in
  let '(ids, f) := futex_exit_pick 7 4096 1 (fx s) in
  let f := with_threads (due_wake_scan 50 (THREAD_TABLE f)) f in
  let '(timed_out1, f) := futex_wait_leave 7 1 demo_key f in
  let f := (futex_wait_check_and_enqueue (7, 4100) 0 1 U64_MAX (Some 0) f).2 in
  let f := futex_exit_wake ids f in
  timed_out1 = false /\ st_of (THREAD_TABLE f) 1 = Some Ready /\ (futex_wait_leave 7 1 (7, 4100) f).1 = true.
Proof. vm_compute. repeat split. Qed.

(** The wake of an exiting thread spends its unit on a dead thread. *)
Lemma exit_wake_spent_on_dead :
  let f := with_threads [mkThread 1 Dead 0 8 true; mkThread 2 Blocked U64_MAX 8 true] (with_waiters {[demo_key := [1; 2]]} (fx slept)) in
  let '(ids, f) := futex_exit_pick 7 4096 1 f in
  ids = [1] /\ st_of (THREAD_TABLE (futex_exit_wake ids f)) 2 = Some Blocked.
Proof. vm_compute. repeat split. Qed.

(** A wake of no thread wakes all. *)
Lemma wake_none_wakes_all : (futex_wake demo_key 0 9 (fx three_asleep)).1 = [1; 2; 3].
Proof. vm_compute. reflexivity. Qed.

(** FUTEX_WAKE_OP with an unknown comparison fails after it has stored and
    woken. *)
Lemma wake_op_fails_late :
  (futex_wake_op demo_key (7, 4100) 1 1 0x0F001000 9 (Some 0) true (fx slept)).1 = (-22, Some 1, [1]).
Proof. vm_compute. reflexivity. Qed.

(** At 3 GHz a timeout of about 195 years is over at once. *)
Lemma long_timeout_wraps : relative_ns_to_wake_tick 30000000 0 30000000 1 6148914691236517206 = 2.
Proof. vm_compute. reflexivity. Qed.
