(* ===== verification/Unix.v ===== *)
(** * AF_UNIX sockets (kernel/src/net/unix.rs)

    The table of local sockets: naming, connection, the receive ring of each
    endpoint with its message boundaries, half-close, reference counts and the
    readiness predicates.  Every operation runs its changes of the table under
    the one [TABLE] lock and rings the poll bell after releasing it, so an
    operation is one atomic change of the table.  A socket id is an index of
    the table; [u64::MAX] as a peer or as the result of an allocation is
    [None].  The sizes of the table and of its arrays are a class, whose
    instance [unix_sizes] holds the kernel's constants. *)

From S2P Require Import Prelude WaitList Pipe.

(* ------------------------------------------------------------------ *)
(** ** Sizes, kinds and states *)

Class UnixSizes := {
  MAX_UNIX_SOCKETS : nat;
  UNIX_PATH_MAX : nat;
  RECV_BUF_CAP : nat;
  BACKLOG_CAP : nat;
  SEQ_QUEUE_CAP : nat;
  recv_cap_ok : (1 < RECV_BUF_CAP)%nat;
  recv_cap_u32 : Z.of_nat RECV_BUF_CAP < 2 ^ 32;
  seq_cap_ok : (1 < SEQ_QUEUE_CAP)%nat
}.

Lemma kernel_recv_cap : (1 < Z.to_nat 32768)%nat.
Proof. lia. Qed.
Lemma kernel_recv_cap_u32 : Z.of_nat (Z.to_nat 32768) < 2 ^ 32.
Proof. lia. Qed.
Lemma kernel_seq_cap : (1 < 64)%nat.
Proof. lia. Qed.

(** The kernel's constants. *)
Definition unix_sizes : UnixSizes :=
  Build_UnixSizes 64 108 (Z.to_nat 32768) 8 64 kernel_recv_cap kernel_recv_cap_u32 kernel_seq_cap.

Inductive SockKind := Stream | SeqPacket.
Inductive UnixState := Free | Unbound | Bound | Listening | Connected.

#[global] Instance SockKind_eq_dec : EqDecision SockKind.
Proof. solve_decision. Defined.
#[global] Instance UnixState_eq_dec : EqDecision UnixState.
Proof. solve_decision. Defined.

Record PeerCreds := mkPeerCreds { pid : Z; uid : Z; gid : Z }.

(* ------------------------------------------------------------------ *)
(** ** One socket *)

Record UnixSocket := mkUnixSocket {
  state : UnixState;
  kind : SockKind;
  path : list Z;
  path_len : nat;
  peer_id : option nat;
  recv_buf : list Z;
  recv_head : nat;
  recv_tail : nat;
  recv_pushed : Z;
  recv_popped : Z;
  seq_lens : list Z;
  seq_head : nat;
  seq_tail : nat;
  backlog : list (option nat);
  backlog_len : nat;
  shut_rd : bool;
  shut_wr : bool;
  rx_eof : bool;
  peer_closed : bool;
  ref_count : Z;
  creator_pid : Z;
  creator_uid : Z;
  creator_gid : Z
}.

Definition with_state (state' : UnixState) (s : UnixSocket) : UnixSocket :=
  mkUnixSocket
    state' (kind s) (path s) (path_len s) (peer_id s) (recv_buf s) (recv_head s) (recv_tail s)
    (recv_pushed s) (recv_popped s) (seq_lens s) (seq_head s) (seq_tail s) (backlog s)
    (backlog_len s) (shut_rd s) (shut_wr s) (rx_eof s) (peer_closed s) (ref_count s)
    (creator_pid s) (creator_uid s) (creator_gid s).
Definition with_path (path' : list Z) (path_len' : nat) (s : UnixSocket) : UnixSocket :=
  mkUnixSocket
    (state s) (kind s) path' path_len' (peer_id s) (recv_buf s) (recv_head s) (recv_tail s)
    (recv_pushed s) (recv_popped s) (seq_lens s) (seq_head s) (seq_tail s) (backlog s)
    (backlog_len s) (shut_rd s) (shut_wr s) (rx_eof s) (peer_closed s) (ref_count s)
    (creator_pid s) (creator_uid s) (creator_gid s).
Definition with_peer (peer_id' : option nat) (s : UnixSocket) : UnixSocket :=
  mkUnixSocket
    (state s) (kind s) (path s) (path_len s) peer_id' (recv_buf s) (recv_head s) (recv_tail s)
    (recv_pushed s) (recv_popped s) (seq_lens s) (seq_head s) (seq_tail s) (backlog s)
    (backlog_len s) (shut_rd s) (shut_wr s) (rx_eof s) (peer_closed s) (ref_count s)
    (creator_pid s) (creator_uid s) (creator_gid s).
Definition with_pushed (recv_buf' : list Z) (recv_tail' : nat) (recv_pushed' : Z) (s : UnixSocket) : UnixSocket :=
  mkUnixSocket
    (state s) (kind s) (path s) (path_len s) (peer_id s) recv_buf' (recv_head s) recv_tail'
    recv_pushed' (recv_popped s) (seq_lens s) (seq_head s) (seq_tail s) (backlog s)
    (backlog_len s) (shut_rd s) (shut_wr s) (rx_eof s) (peer_closed s) (ref_count s)
    (creator_pid s) (creator_uid s) (creator_gid s).
Definition with_popped (recv_head' : nat) (recv_popped' : Z) (s : UnixSocket) : UnixSocket :=
  mkUnixSocket
    (state s) (kind s) (path s) (path_len s) (peer_id s) (recv_buf s) recv_head' (recv_tail s)
    (recv_pushed s) recv_popped' (seq_lens s) (seq_head s) (seq_tail s) (backlog s)
    (backlog_len s) (shut_rd s) (shut_wr s) (rx_eof s) (peer_closed s) (ref_count s)
    (creator_pid s) (creator_uid s) (creator_gid s).
Definition with_seq_push (seq_lens' : list Z) (seq_tail' : nat) (s : UnixSocket) : UnixSocket :=
  mkUnixSocket
    (state s) (kind s) (path s) (path_len s) (peer_id s) (recv_buf s) (recv_head s) (recv_tail s)
    (recv_pushed s) (recv_popped s) seq_lens' (seq_head s) seq_tail' (backlog s) (backlog_len s)
    (shut_rd s) (shut_wr s) (rx_eof s) (peer_closed s) (ref_count s) (creator_pid s)
    (creator_uid s) (creator_gid s).
Definition with_seq_head (seq_head' : nat) (s : UnixSocket) : UnixSocket :=
  mkUnixSocket
    (state s) (kind s) (path s) (path_len s) (peer_id s) (recv_buf s) (recv_head s) (recv_tail s)
    (recv_pushed s) (recv_popped s) (seq_lens s) seq_head' (seq_tail s) (backlog s)
    (backlog_len s) (shut_rd s) (shut_wr s) (rx_eof s) (peer_closed s) (ref_count s)
    (creator_pid s) (creator_uid s) (creator_gid s).
Definition with_backlog (backlog' : list (option nat)) (backlog_len' : nat) (s : UnixSocket) : UnixSocket :=
  mkUnixSocket
    (state s) (kind s) (path s) (path_len s) (peer_id s) (recv_buf s) (recv_head s) (recv_tail s)
    (recv_pushed s) (recv_popped s) (seq_lens s) (seq_head s) (seq_tail s) backlog' backlog_len'
    (shut_rd s) (shut_wr s) (rx_eof s) (peer_closed s) (ref_count s) (creator_pid s)
    (creator_uid s) (creator_gid s).
Definition with_shut (shut_rd' : bool) (shut_wr' : bool) (s : UnixSocket) : UnixSocket :=
  mkUnixSocket
    (state s) (kind s) (path s) (path_len s) (peer_id s) (recv_buf s) (recv_head s) (recv_tail s)
    (recv_pushed s) (recv_popped s) (seq_lens s) (seq_head s) (seq_tail s) (backlog s)
    (backlog_len s) shut_rd' shut_wr' (rx_eof s) (peer_closed s) (ref_count s) (creator_pid s)
    (creator_uid s) (creator_gid s).
Definition with_rx_eof (rx_eof' : bool) (s : UnixSocket) : UnixSocket :=
  mkUnixSocket
    (state s) (kind s) (path s) (path_len s) (peer_id s) (recv_buf s) (recv_head s) (recv_tail s)
    (recv_pushed s) (recv_popped s) (seq_lens s) (seq_head s) (seq_tail s) (backlog s)
    (backlog_len s) (shut_rd s) (shut_wr s) rx_eof' (peer_closed s) (ref_count s) (creator_pid s)
    (creator_uid s) (creator_gid s).
Definition with_peer_closed (peer_closed' : bool) (s : UnixSocket) : UnixSocket :=
  mkUnixSocket
    (state s) (kind s) (path s) (path_len s) (peer_id s) (recv_buf s) (recv_head s) (recv_tail s)
    (recv_pushed s) (recv_popped s) (seq_lens s) (seq_head s) (seq_tail s) (backlog s)
    (backlog_len s) (shut_rd s) (shut_wr s) (rx_eof s) peer_closed' (ref_count s) (creator_pid s)
    (creator_uid s) (creator_gid s).
Definition with_ref_count (ref_count' : Z) (s : UnixSocket) : UnixSocket :=
  mkUnixSocket
    (state s) (kind s) (path s) (path_len s) (peer_id s) (recv_buf s) (recv_head s) (recv_tail s)
    (recv_pushed s) (recv_popped s) (seq_lens s) (seq_head s) (seq_tail s) (backlog s)
    (backlog_len s) (shut_rd s) (shut_wr s) (rx_eof s) (peer_closed s) ref_count' (creator_pid s)
    (creator_uid s) (creator_gid s).

Section operations.
Context `{UnixSizes}.

Definition zeroed : UnixSocket :=
  mkUnixSocket Free Stream (replicate UNIX_PATH_MAX 0) 0 None (replicate RECV_BUF_CAP 0) 0 0 0 0
    (replicate SEQ_QUEUE_CAP 0) 0 0 (replicate BACKLOG_CAP None) 0
    false false false false 0 0 0 0.

#[global] Instance UnixSocket_inhabited : Inhabited UnixSocket := populate zeroed.

(** [reset] leaves the arrays as they are. *)
Definition reset (s : UnixSocket) : UnixSocket :=
  mkUnixSocket Free Stream (path s) 0 None (recv_buf s) 0 0 0 0 (seq_lens s) 0 0 (backlog s) 0
    false false false false 0 0 0 0.

(** A slot taken from the free ones: [reset] and the assignments after it. *)
Definition claim (st : UnixState) (k : SockKind) (peer : option nat) (creds : PeerCreds)
    (s : UnixSocket) : UnixSocket :=
  mkUnixSocket st k (path s) 0 peer (recv_buf s) 0 0 0 0 (seq_lens s) 0 0 (backlog s) 0
    false false false false 1 (pid creds) (uid creds) (gid creds).

Definition recv_available (s : UnixSocket) : nat :=
  ((recv_tail s + RECV_BUF_CAP - recv_head s) mod RECV_BUF_CAP)%nat.
Definition recv_space (s : UnixSocket) : nat := (RECV_BUF_CAP - 1 - recv_available s)%nat.

Definition push (data : list Z) (s : UnixSocket) : nat * UnixSocket :=
  let n := Nat.min (length data) (recv_space s) in
  let '(buf, tail) := write_loop (take n data) (recv_buf s) (recv_tail s) in
  (n, with_pushed buf tail (add64 (recv_pushed s) (Z.of_nat n)) s).

(** [pop] into a buffer of [len] bytes: the bytes copied. *)
Definition pop (len : nat) (s : UnixSocket) : list Z * UnixSocket :=
  let n := Nat.min len (recv_available s) in
  let '(out, head) := read_loop n (recv_buf s) (recv_head s) in
  (out, with_popped head (add64 (recv_popped s) (Z.of_nat n)) s).

Definition enqueue_offset (s : UnixSocket) : Z := recv_pushed s.

Definition seq_queued (s : UnixSocket) : nat :=
  ((seq_tail s + SEQ_QUEUE_CAP - seq_head s) mod SEQ_QUEUE_CAP)%nat.

(** [&s.path[..s.path_len]]. *)
Definition sock_name (s : UnixSocket) : list Z := take (path_len s) (path s).

(* ------------------------------------------------------------------ *)
(** ** The table and the names *)

(** The socket table with its high-water mark, and the wake state the poll
    bell acts on. *)
Record UnixSys := mkUnixSys {
  TABLE : list UnixSocket;
  UNIX_HIGH_WATER : nat;
  uwk : Wake
}.

Definition with_table (t : list UnixSocket) (u : UnixSys) : UnixSys :=
  mkUnixSys t (UNIX_HIGH_WATER u) (uwk u).
Definition ring_unix (b : PollBellSource) (u : UnixSys) : UnixSys :=
  mkUnixSys (TABLE u) (UNIX_HIGH_WATER u) (ring_poll_bell_for b (uwk u)).

Definition unix_boot (w : Wake) : UnixSys := mkUnixSys (replicate MAX_UNIX_SOCKETS zeroed) 0 w.

Definition is_free (s : UnixSocket) : bool := bool_decide (state s = Free).
Definition is_connected (s : UnixSocket) : bool := bool_decide (state s = Connected).

Definition note_occupancy (u : UnixSys) : UnixSys :=
  let live := length (List.filter (fun s => negb (is_free s)) (TABLE u)) in
  mkUnixSys (TABLE u) (Nat.max (UNIX_HIGH_WATER u) live) (uwk u).

(** The bytes of an address that name the socket. *)
Definition unix_name (addr : list Z) : list Z :=
  match addr with
  | 0 :: _ => take (Nat.min (length addr) UNIX_PATH_MAX) addr
  | _ =>
      let raw_len := default (length addr) (position (fun b => b =? 0) addr) in
      take (Nat.min raw_len UNIX_PATH_MAX) addr
  end.

Definition is_abstract (name : list Z) : bool :=
  match name with 0 :: _ => true | _ => false end.

Definition bad_id (id : nat) : bool := (MAX_UNIX_SOCKETS <=? id)%nat.

Definition create (k : SockKind) (creds : PeerCreds) (u : UnixSys) : option nat * UnixSys :=
  match position is_free (TABLE u) with
  | Some i => (Some i, note_occupancy (with_table (alter (claim Unbound k None creds) i (TABLE u)) u))
  | None => (None, u)
  end.

(** Another slot that is bound or listening under the name. *)
Definition name_taken (id : nat) (name : list Z) (t : list UnixSocket) : bool :=
  existsb (fun '(i, s) =>
    negb (i =? id)%nat &&
    (bool_decide (state s = Bound) || bool_decide (state s = Listening)) &&
    bool_decide (sock_name s = name)) (imap pair t).

Definition bind (id : nat) (addr : list Z) (u : UnixSys) : Z * UnixSys :=
  if bad_id id then (-9, u)
  else
    let new_path := unix_name addr in
    let plen := length new_path in
    if (plen =? 0)%nat then (-22, u)
    else if name_taken id new_path (TABLE u) then (-98, u)
    else
      let s := TABLE u !!! id in
      match state s with
      | Free => (-9, u)
      | Unbound =>
          (0, with_table (<[id := with_state Bound
                 (with_path (new_path ++ drop plen (path s)) plen s)]> (TABLE u)) u)
      | _ => (-22, u)
      end.

Definition listen (id : nat) (u : UnixSys) : Z * UnixSys :=
  if bad_id id then (-9, u)
  else
    match state (TABLE u !!! id) with
    | Bound | Unbound => (0, with_table (alter (with_state Listening) id (TABLE u)) u)
    | Listening => (0, u)
    | _ => (-22, u)
    end.

(** The first listening slot under the name. *)
Definition find_listener (name : list Z) (t : list UnixSocket) : option nat :=
  position (fun s => bool_decide (state s = Listening) && bool_decide (sock_name s = name)) t.

(** The first free slot other than [id]. *)
Definition find_free_but (id : nat) (t : list UnixSocket) : option nat :=
  position (fun '(i, s) => negb (i =? id)%nat && is_free s) (imap pair t).

Definition backlog_push (p : nat) (srv : UnixSocket) : UnixSocket :=
  if (backlog_len srv <? BACKLOG_CAP)%nat
  then with_backlog (<[backlog_len srv := Some p]> (backlog srv)) (backlog_len srv + 1) srv
  else srv.

Definition creds_of (s : UnixSocket) : PeerCreds :=
  mkPeerCreds (creator_pid s) (creator_uid s) (creator_gid s).

Definition connect (id : nat) (addr : list Z) (u : UnixSys) : Z * UnixSys :=
  if bad_id id then (-9, u)
  else
    let search := unix_name addr in
    match search with
    | [] => (-22, u)
    | _ =>
        let t := TABLE u in
        match find_listener search t with
        | None =>
            if is_abstract search then (-111, u)
            else
              let exists_ := existsb (fun s =>
                (bool_decide (state s = Bound) || bool_decide (state s = Connected)) &&
                negb (is_abstract (sock_name s)) && bool_decide (sock_name s = search)) t in
              (if exists_ then -111 else -2, u)
        | Some server_id =>
            let server := t !!! server_id in
            if bool_decide (kind (t !!! id) <> kind server) then (-91, u)
            else
              match find_free_but id t with
              | None => (-24, u)
              | Some peer =>
                  let t := alter (claim Connected (kind server) (Some id) (creds_of server)) peer t in
                  let t := alter (fun s => with_peer (Some peer) (with_state Connected s)) id t in
                  let t := alter (backlog_push peer) server_id t in
                  (0, ring_unix BellUnixShutdown (note_occupancy (with_table t u)))
              end
        end
    end.

(** [for i in 0..backlog_len - 1 { backlog[i] = backlog[i + 1] }]. *)
Definition backlog_shift (n : nat) (b : list (option nat)) : list (option nat) :=
  fold_left (fun b i => <[i := b !!! (i + 1)%nat]> b) (seq 0 (n - 1)) b.

Definition accept (id : nat) (u : UnixSys) : Z * UnixSys :=
  if bad_id id then (-9, u)
  else
    let s := TABLE u !!! id in
    if negb (bool_decide (state s = Listening)) then (-22, u)
    else if (backlog_len s =? 0)%nat then (-11, u)
    else
      let peer := backlog s !!! 0%nat in
      let s := with_backlog (backlog_shift (backlog_len s) (backlog s)) (backlog_len s - 1) s in
      (match peer with Some p => Z.of_nat p | None => -1 end,
       ring_unix BellUnixShutdown (with_table (<[id := s]> (TABLE u)) u)).

Definition socketpair (k : SockKind) (creds : PeerCreds) (u : UnixSys)
    : option (nat * nat) * UnixSys :=
  match position is_free (TABLE u) with
  | None => (None, u)
  | Some a =>
      let t := alter (claim Connected k None creds) a (TABLE u) in
      match position is_free t with
      | None => (None, with_table (alter (with_state Free) a t) u)
      | Some b =>
          let t := alter (claim Connected k None creds) b t in
          let t := alter (with_peer (Some b)) a t in
          let t := alter (with_peer (Some a)) b t in
          (Some (a, b), note_occupancy (with_table t u))
      end
  end.

(* ------------------------------------------------------------------ *)
(** ** Data *)

(** A slot that is connected and points back at [id]. *)
Definition paired_with (id : nat) (peer : UnixSocket) : bool :=
  is_connected peer && bool_decide (peer_id peer = Some id).

(** The message-length queue takes one more entry. *)
Definition seq_note (n : nat) (s : UnixSocket) : UnixSocket :=
  with_seq_push (<[seq_tail s := wrap 32 (Z.of_nat n)]> (seq_lens s))
    ((seq_tail s + 1) mod SEQ_QUEUE_CAP)%nat s.

Definition write (id : nat) (data : list Z) (u : UnixSys) : Z * UnixSys :=
  if bad_id id then (-9, u)
  else
    let t := TABLE u in
    let s := t !!! id in
    if negb (is_connected s) then (-32, u)
    else if shut_wr s then (-32, u)
    else if peer_closed s then (-32, u)
    else
      match peer_id s with
      | None => (-32, u)
      | Some p =>
          if bad_id p then (-32, u)
          else
            let peer := t !!! p in
            if negb (paired_with id peer) then (-32, u)
            else
              match kind s with
              | SeqPacket =>
                  if (SEQ_QUEUE_CAP - 1 <=? seq_queued peer)%nat then (-11, u)
                  else if (recv_space peer <? length data)%nat then (-11, u)
                  else
                    let '(n, peer) := push data peer in
                    (Z.of_nat n,
                     ring_unix BellUnixWrite (with_table (<[p := seq_note n peer]> t) u))
              | Stream =>
                  let '(n, peer) := push data peer in
                  let u := with_table (<[p := peer]> t) u in
                  if (n =? 0)%nat then (-11, u)
                  else (Z.of_nat n, ring_unix BellUnixWrite u)
              end
      end.

(** The SEQPACKET branch of [read_msg]: one message leaves the ring, its tail
    beyond [len] bytes discarded. *)
Definition dequeue_msg (len : nat) (s : UnixSocket) : list Z * nat * UnixSocket :=
  let msg_len := Z.to_nat (seq_lens s !!! seq_head s) in
  let s := with_seq_head ((seq_head s + 1) mod SEQ_QUEUE_CAP)%nat s in
  let want := Nat.min len msg_len in
  let '(out, s) := if (0 <? want)%nat then pop want s else ([], s) in
  let discard := (msg_len - length out)%nat in
  (out, discard,
   with_popped (Nat.iter discard (fun h => (h + 1) mod RECV_BUF_CAP)%nat (recv_head s))
     (add64 (recv_popped s) (Z.of_nat discard)) s).

(** [read_msg] into a buffer of [len] bytes: the bytes copied and how many
    bytes of the message were discarded, or an errno. *)
Definition read_msg (id len : nat) (u : UnixSys) : ((list Z * nat) + Z) * UnixSys :=
  if bad_id id then (inr (-9), u)
  else
    let t := TABLE u in
    let s := t !!! id in
    if is_free s then (inr (-9), u)
    else if shut_rd s then (inl ([], 0%nat), u)
    else
      match kind s with
      | SeqPacket =>
          if (seq_head s =? seq_tail s)%nat then
            (if rx_eof s then inl ([], 0%nat) else inr (-11), u)
          else
            let '(out, discard, s) := dequeue_msg len s in
            let u := with_table (<[id := s]> t) u in
            (inl (out, discard),
             if (0 <? length out + discard)%nat then ring_unix BellUnixRead u else u)
      | Stream =>
          if (recv_available s =? 0)%nat then
            (if rx_eof s then inl ([], 0%nat) else inr (-11), u)
          else
            let '(out, s) := pop len s in
            let u := with_table (<[id := s]> t) u in
            (inl (out, 0%nat), if (0 <? length out)%nat then ring_unix BellUnixRead u else u)
      end.

Definition read (id len : nat) (u : UnixSys) : Z * list Z * UnixSys :=
  match read_msg id len u with
  | (inl (out, _), u) => (Z.of_nat (length out), out, u)
  | (inr e, u) => (e, [], u)
  end.

(* ------------------------------------------------------------------ *)
(** ** Half-close, references and close *)

Definition shutdown (id : nat) (rd wr : bool) (u : UnixSys) : Z * UnixSys :=
  if bad_id id then (-9, u)
  else
    let s := TABLE u !!! id in
    match state s with
    | Free => (-9, u)
    | Connected =>
        let t := <[id := with_shut (rd || shut_rd s) (wr || shut_wr s) s]> (TABLE u) in
        let t :=
          match peer_id s with
          | Some p =>
              if wr && negb (bad_id p) && paired_with id (t !!! p)
              then alter (with_rx_eof true) p t else t
          | None => t
          end in
        (0, ring_unix BellUnixShutdown (with_table t u))
    | _ => (-107, u)
    end.

Definition inc_ref (id : nat) (u : UnixSys) : UnixSys :=
  if bad_id id then u
  else if is_free (TABLE u !!! id) then u
  else with_table (alter (fun s => with_ref_count (sat_add32 (ref_count s) 1) s) id (TABLE u)) u.

(** What the survivor of a closed pair is left with. *)
Definition hang_up (peer : UnixSocket) : UnixSocket :=
  with_peer None (with_peer_closed true (with_rx_eof true peer)).

(** [close] while it holds the lock: the table, whether the slot was torn
    down, and whether the peer was told. *)
Definition close_slot (id : nat) (t : list UnixSocket) : list UnixSocket * bool * bool :=
  if bad_id id then (t, false, false)
  else
    let s := t !!! id in
    if is_free s then (t, false, false)
    else if 1 <? ref_count s then (<[id := with_ref_count (ref_count s - 1) s]> t, false, false)
    else
      let t := <[id := reset s]> t in
      match peer_id s with
      | Some p =>
          if negb (bad_id p) && paired_with id (t !!! p)
          then (alter hang_up p t, true, true) else (t, true, false)
      | None => (t, true, false)
      end.

(* ------------------------------------------------------------------ *)
(** ** Readiness and inspection *)

Definition has_data (id : nat) (u : UnixSys) : bool :=
  if bad_id id then false
  else
    let s := TABLE u !!! id in
    match kind s with
    | SeqPacket => negb (seq_head s =? seq_tail s)%nat
    | Stream => (0 <? recv_available s)%nat
    end.

Definition read_shutdown (id : nat) (u : UnixSys) : bool :=
  if bad_id id then false
  else
    let s := TABLE u !!! id in
    if is_free s then true else shut_rd s || rx_eof s.

Definition fully_hung_up (id : nat) (u : UnixSys) : bool :=
  if bad_id id then false
  else
    let s := TABLE u !!! id in
    if is_free s then true
    else if shut_rd s && shut_wr s then true
    else if peer_closed s then true
    else
      match peer_id s with
      | None => false
      | Some p => if bad_id p then false else is_free (TABLE u !!! p)
      end.

Definition writable (id : nat) (u : UnixSys) : bool :=
  if bad_id id then false
  else
    let s := TABLE u !!! id in
    if is_free s then true
    else if negb (is_connected s) then true
    else if shut_wr s then true
    else if peer_closed s then true
    else
      match peer_id s with
      | None => true
      | Some p =>
          if bad_id p then true
          else
            let peer := TABLE u !!! p in
            if is_free peer then true
            else
              match kind s with
              | SeqPacket =>
                  if (SEQ_QUEUE_CAP - 1 <=? seq_queued peer)%nat then false
                  else (0 <? recv_space peer)%nat
              | Stream => (0 <? recv_space peer)%nat
              end
      end.

Definition bytes_available (id : nat) (u : UnixSys) : nat :=
  if bad_id id then 0%nat
  else
    let s := TABLE u !!! id in
    match kind s with
    | SeqPacket =>
        if (seq_head s =? seq_tail s)%nat then 0%nat else Z.to_nat (seq_lens s !!! seq_head s)
    | Stream => recv_available s
    end.

Definition enqueue_offset_for (id : nat) (u : UnixSys) : Z :=
  if bad_id id then 0 else enqueue_offset (TABLE u !!! id).
Definition recv_consumed (id : nat) (u : UnixSys) : Z :=
  if bad_id id then 0 else recv_popped (TABLE u !!! id).
Definition unix_kind (id : nat) (u : UnixSys) : SockKind :=
  if bad_id id then Stream else kind (TABLE u !!! id).

Definition peer_creds (id : nat) (u : UnixSys) : option PeerCreds :=
  if bad_id id then None
  else
    let s := TABLE u !!! id in
    if is_free s then None
    else
      match peer_id s with
      | None => None
      | Some p =>
          if bad_id p then None
          else if is_free (TABLE u !!! p) then None else Some (creds_of (TABLE u !!! p))
      end.

Definition has_pending (id : nat) (u : UnixSys) : bool :=
  if bad_id id then false else (0 <? backlog_len (TABLE u !!! id))%nat.
Definition unix_state (id : nat) (u : UnixSys) : UnixState :=
  if bad_id id then Free else state (TABLE u !!! id).
Definition get_peer (id : nat) (u : UnixSys) : option nat :=
  if bad_id id then None else peer_id (TABLE u !!! id).
End operations.

(* ------------------------------------------------------------------ *)
(** ** Rings by head and tail *)

Section ring_lemmas.
Implicit Types (b data : list Z) (h t n cap : nat).

(** The number of entries between a head and a tail. *)
Definition rcount (cap h t : nat) : nat := ((t + cap - h) mod cap)%nat.

Lemma rcount_lt cap h t : (0 < cap)%nat -> (rcount cap h t < cap)%nat.
Proof. intros. apply Nat.mod_upper_bound. lia. Qed.

Lemma rcount_tail cap h t : (h < cap)%nat -> (t < cap)%nat -> t = ((h + rcount cap h t) mod cap)%nat.
Proof.
  intros Hh Ht. unfold rcount. rewrite Nat.Div0.add_mod_idemp_r.
  replace (h + (t + cap - h))%nat with (t + 1 * cap)%nat by lia.
  by rewrite Nat.Div0.mod_add, Nat.mod_small.
Qed.

Lemma rcount_of cap h n : (h < cap)%nat -> (n < cap)%nat -> rcount cap h ((h + n) mod cap) = n.
Proof.
  intros Hh Hn. unfold rcount.
  destruct (decide (h + n < cap)%nat).
  - rewrite (Nat.mod_small (h + n)) by done.
    replace (h + n + cap - h)%nat with (n + 1 * cap)%nat by lia.
    by rewrite Nat.Div0.mod_add, Nat.mod_small.
  - assert ((h + n) mod cap = h + n - cap)%nat as ->.
    { replace (h + n)%nat with ((h + n - cap) + 1 * cap)%nat at 1 by lia.
      rewrite Nat.Div0.mod_add. apply Nat.mod_small. lia. }
    rewrite Nat.mod_small; lia.
Qed.

Lemma rcount_push cap h t n :
  (h < cap)%nat -> (t < cap)%nat -> (rcount cap h t + n < cap)%nat ->
  rcount cap h ((t + n) mod cap) = (rcount cap h t + n)%nat.
Proof.
  intros Hh Ht Hn. rewrite (rcount_tail cap h t) at 1 by done.
  rewrite Nat.Div0.add_mod_idemp_l, <- Nat.add_assoc. by apply rcount_of.
Qed.

Lemma rcount_pop cap h t n :
  (h < cap)%nat -> (t < cap)%nat -> (n <= rcount cap h t)%nat ->
  rcount cap ((h + n) mod cap) t = (rcount cap h t - n)%nat.
Proof.
  intros Hh Ht Hn. pose proof (rcount_lt cap h t ltac:(lia)).
  rewrite (rcount_tail cap h t) at 1 by done.
  replace (h + rcount cap h t)%nat with (h + n + (rcount cap h t - n))%nat at 1 by lia.
  rewrite <- (Nat.Div0.add_mod_idemp_l (h + n)). apply rcount_of; [apply Nat.mod_upper_bound|]; lia.
Qed.

Lemma rcount_zero cap h t : (h < cap)%nat -> (t < cap)%nat -> rcount cap h t = 0%nat <-> h = t.
Proof.
  intros Hh Ht. split; [intros E|intros ->].
  - rewrite (rcount_tail cap h t), E by done. by rewrite Nat.add_0_r, Nat.mod_small.
  - rewrite <- (rcount_of cap t 0) by lia. by rewrite Nat.add_0_r, (Nat.mod_small t cap) at 1.
Qed.

(** A ring seen as the buffer of a pipe that holds its entries. *)
Lemma ring_push b h t data :
  (h < length b)%nat -> (t < length b)%nat -> (rcount (length b) h t + length data < length b)%nat ->
  let '(b', t') := write_loop data b t in
  length b' = length b /\ t' = ((t + length data) mod length b)%nat /\
  ring_bytes b' h (rcount (length b) h t + length data) = ring_bytes b h (rcount (length b) h t) ++ data.
Proof.
  intros Hh Ht Hl.
  pose proof (Pipe.write_spec data (mkPipe 0 b h t (rcount (length b) h t) 0 0 false)) as Hw.
  unfold Pipe.write, space, capacity in Hw. cbn [buffer count] in Hw.
  rewrite Nat.min_l in Hw by lia. rewrite take_ge in Hw by lia. cbn [buffer write_pos] in Hw.
  pose proof (write_loop_spec data b t Ht ltac:(lia)) as Hs.
  destruct (write_loop data b t) as [b' t'].
  destruct Hs as (H1 & H2 & _). split_and!; [done|done|].
  destruct Hw as (_ & _ & Hc & _); [|by rewrite take_ge in Hc by lia].
  split; unfold capacity; cbn; [lia|done|lia|by apply rcount_tail].
Qed.

Lemma ring_pop b h t n :
  (h < length b)%nat -> (n <= rcount (length b) h t)%nat ->
  ring_bytes b h n = take n (ring_bytes b h (rcount (length b) h t)) /\
  ring_bytes b ((h + n) mod length b) (rcount (length b) h t - n) =
    drop n (ring_bytes b h (rcount (length b) h t)).
Proof.
  intros Hh Hn. set (c := rcount (length b) h t) in *.
  replace c with (n + (c - n))%nat at 1 3 by lia. rewrite ring_bytes_app.
  rewrite take_app_length', drop_app_length' by (by rewrite ring_bytes_length). done.
Qed.

Lemma iter_mod_add cap h n :
  (h < cap)%nat -> Nat.iter n (fun h => (h + 1) mod cap)%nat h = ((h + n) mod cap)%nat.
Proof.
  intros Hh. induction n as [|n IH]; [by rewrite Nat.add_0_r, Nat.mod_small|].
  simpl. rewrite IH.
  rewrite Nat.Div0.add_mod_idemp_l. f_equal. lia.
Qed.
End ring_lemmas.

(* ------------------------------------------------------------------ *)
(** ** What a receive ring holds *)

(** [bs] cut into pieces of the given lengths. *)
Fixpoint chop (lens : list nat) (bs : list Z) : list (list Z) :=
  match lens with
  | [] => []
  | n :: lens => take n bs :: chop lens (drop n bs)
  end.

Lemma chop_snoc lens bs d :
  sum_list lens = length bs -> chop (lens ++ [length d]) (bs ++ d) = chop lens bs ++ [d].
Proof.
  revert bs. induction lens as [|n lens IH]; intros bs Hs; simpl in *.
  - destruct bs; [|done]. simpl. by rewrite take_ge by lia.
  - rewrite take_app_le, drop_app_le by lia. f_equal. apply IH. rewrite length_drop. lia.
Qed.

Section socket_lemmas.
Context `{UnixSizes}.
Implicit Types (s : UnixSocket) (data : list Z) (n len : nat).

Definition contents (s : UnixSocket) : list Z :=
  ring_bytes (recv_buf s) (recv_head s) (recv_available s).
Definition queued_lens (s : UnixSocket) : list nat :=
  map Z.to_nat (ring_bytes (seq_lens s) (seq_head s) (seq_queued s)).
Definition messages (s : UnixSocket) : list (list Z) := chop (queued_lens s) (contents s).

(** The indices are in range, the byte counters agree with the ring, and the
    queued message lengths of a SEQPACKET socket add up to its bytes. *)
Record ring_ok (s : UnixSocket) : Prop := {
  ro_buf : length (recv_buf s) = RECV_BUF_CAP;
  ro_head : (recv_head s < RECV_BUF_CAP)%nat;
  ro_tail : (recv_tail s < RECV_BUF_CAP)%nat;
  ro_lens : length (seq_lens s) = SEQ_QUEUE_CAP;
  ro_shead : (seq_head s < SEQ_QUEUE_CAP)%nat;
  ro_stail : (seq_tail s < SEQ_QUEUE_CAP)%nat;
  ro_pop : in_word 64 (recv_popped s);
  ro_count : recv_pushed s = add64 (recv_popped s) (Z.of_nat (recv_available s));
  ro_sum : kind s = SeqPacket -> sum_list (queued_lens s) = recv_available s
}.

(** All but the sum of the message lengths. *)
Record bytes_ok (s : UnixSocket) : Prop := {
  bo_buf : length (recv_buf s) = RECV_BUF_CAP;
  bo_head : (recv_head s < RECV_BUF_CAP)%nat;
  bo_tail : (recv_tail s < RECV_BUF_CAP)%nat;
  bo_pop : in_word 64 (recv_popped s);
  bo_count : recv_pushed s = add64 (recv_popped s) (Z.of_nat (recv_available s))
}.

Lemma ring_ok_bytes s : ring_ok s -> bytes_ok s.
Proof. intros []. by split. Qed.

Lemma available_lt s : (recv_available s < RECV_BUF_CAP)%nat.
Proof. pose proof recv_cap_ok. apply rcount_lt. lia. Qed.

Lemma unread_length s : length (contents s) = recv_available s.
Proof. apply ring_bytes_length. Qed.

Lemma push_spec data s :
  bytes_ok s ->
  let '(n, s') := push data s in
  n = Nat.min (length data) (recv_space s) /\ bytes_ok s' /\
  contents s' = contents s ++ take n data /\
  recv_available s' = (recv_available s + n)%nat /\
  s' = with_pushed (recv_buf s') (recv_tail s') (add64 (recv_pushed s) (Z.of_nat n)) s.
Proof.
  intros [Hb Hh Ht Hw Hc]. unfold push. set (n := Nat.min _ _).
  pose proof (available_lt s) as Ha.
  assert (n <= recv_space s)%nat as Hn by lia. unfold recv_space in Hn.
  assert (length (take n data) = n) as Hl by (rewrite length_take; lia).
  pose proof (ring_push (recv_buf s) (recv_head s) (recv_tail s) (take n data)) as Hr.
  rewrite Hb, Hl in Hr. change (rcount RECV_BUF_CAP (recv_head s) (recv_tail s)) with (recv_available s) in Hr.
  specialize (Hr Hh Ht ltac:(lia)). destruct (write_loop (take n data) _ _) as [b t].
  destruct Hr as (H1 & -> & H3). cbn [recv_buf recv_tail].
  assert (rcount RECV_BUF_CAP (recv_head s) ((recv_tail s + n) mod RECV_BUF_CAP) =
          recv_available s + n)%nat as Hcnt by (apply rcount_push; [done|done|change (recv_available s + n < RECV_BUF_CAP)%nat; lia]).
  split_and!; [done| | |exact Hcnt|reflexivity].
  - split; cbn [with_pushed recv_buf recv_head recv_tail recv_pushed recv_popped];
      [done|done|apply Nat.mod_upper_bound; lia|done|].
    change (recv_available _) with (rcount RECV_BUF_CAP (recv_head s) ((recv_tail s + n) mod RECV_BUF_CAP)).
    rewrite Hcnt, Hc. unfold add64, wrap. rewrite Zplus_mod_idemp_l. f_equal. lia.
  - unfold contents at 1.
    change (recv_available _) with (rcount RECV_BUF_CAP (recv_head s) ((recv_tail s + n) mod RECV_BUF_CAP)) at 1.
    rewrite Hcnt. exact H3.
Qed.

(** [n] bytes leave the ring: what [pop] and the discard loop do. *)
Lemma advance_spec n s :
  bytes_ok s -> (n <= recv_available s)%nat ->
  let s' := with_popped ((recv_head s + n) mod RECV_BUF_CAP) (add64 (recv_popped s) (Z.of_nat n)) s in
  bytes_ok s' /\ contents s' = drop n (contents s) /\ recv_available s' = (recv_available s - n)%nat.
Proof.
  intros [Hb Hh Ht Hw Hc] Hn s'. pose proof (available_lt s).
  assert (recv_available s' = recv_available s - n)%nat as Ha by (by apply rcount_pop).
  split_and!; [|..|done].
  - split; cbn [s' with_popped recv_buf recv_head recv_tail recv_pushed recv_popped];
      [done|apply Nat.mod_upper_bound; lia|done|by apply wrap_range|].
    fold s'. rewrite Ha, Hc. unfold add64, wrap. rewrite Zplus_mod_idemp_l. f_equal. lia.
  - unfold contents at 1. rewrite Ha. cbn [s' with_popped recv_buf recv_head].
    pose proof (ring_pop (recv_buf s) (recv_head s) (recv_tail s) n) as Hr. rewrite Hb in Hr.
    by apply Hr.
Qed.

Lemma pop_spec len s :
  bytes_ok s ->
  let '(out, s') := pop len s in
  out = take len (contents s) /\ bytes_ok s' /\ contents s' = drop len (contents s) /\
  s' = with_popped ((recv_head s + length out) mod RECV_BUF_CAP)
         (add64 (recv_popped s) (Z.of_nat (length out))) s.
Proof.
  intros Hok. pose proof Hok as [Hb Hh Ht Hw Hc]. unfold pop. set (n := Nat.min _ _).
  rewrite read_loop_eq by lia. rewrite Hb.
  assert (n <= recv_available s)%nat as Hn by lia.
  destruct (advance_spec n s Hok Hn) as (H1 & H2 & H3).
  pose proof (ring_pop (recv_buf s) (recv_head s) (recv_tail s) n) as Hr. rewrite Hb in Hr.
  destruct (Hr Hh Hn) as [Ho _]. change (rcount _ _ _) with (recv_available s) in Ho. fold (contents s) in Ho.
  assert (take n (contents s) = take len (contents s) /\ drop n (contents s) = drop len (contents s)) as [E1 E2].
  { destruct (decide (len <= recv_available s)%nat); [by replace n with len by lia|].
    rewrite !take_ge, !drop_ge by (rewrite unread_length; lia). done. }
  split_and!; [by rewrite Ho|done|by rewrite H2|].
  by rewrite ring_bytes_length.
Qed.

Lemma seq_note_lens n s :
  length (seq_lens s) = SEQ_QUEUE_CAP -> (seq_head s < SEQ_QUEUE_CAP)%nat ->
  (seq_tail s < SEQ_QUEUE_CAP)%nat -> (seq_queued s < SEQ_QUEUE_CAP - 1)%nat -> Z.of_nat n < 2 ^ 32 ->
  queued_lens (seq_note n s) = queued_lens s ++ [n] /\
  length (seq_lens (seq_note n s)) = SEQ_QUEUE_CAP /\ (seq_tail (seq_note n s) < SEQ_QUEUE_CAP)%nat.
Proof.
  intros Hl Hh Ht Hq Hn.
  pose proof (ring_push (seq_lens s) (seq_head s) (seq_tail s) [wrap 32 (Z.of_nat n)]) as Hr.
  rewrite Hl in Hr. cbn [length write_loop] in Hr. rewrite Hl in Hr.
  change (rcount SEQ_QUEUE_CAP (seq_head s) (seq_tail s)) with (seq_queued s) in Hr.
  destruct (Hr Hh Ht ltac:(lia)) as (H1 & _ & H3).
  assert (seq_queued (seq_note n s) = seq_queued s + 1)%nat as Hq'.
  { apply (rcount_push SEQ_QUEUE_CAP (seq_head s) (seq_tail s) 1); [done|done|].
    change (seq_queued s + 1 < SEQ_QUEUE_CAP)%nat. lia. }
  split_and!; [|done|apply Nat.mod_upper_bound; lia].
  unfold queued_lens at 1. rewrite Hq'. cbn [seq_note with_seq_push seq_lens seq_head].
  rewrite H3, map_app. f_equal. cbn [map]. rewrite wrap_small by (split; lia). by rewrite Nat2Z.id.
Qed.

(** A SEQPACKET write that fits appends one message. *)
Lemma enqueue_msg_spec data s :
  ring_ok s -> kind s = SeqPacket -> (seq_queued s < SEQ_QUEUE_CAP - 1)%nat ->
  (length data <= recv_space s)%nat ->
  let '(n, s') := push data s in
  n = length data /\ ring_ok (seq_note n s') /\ messages (seq_note n s') = messages s ++ [data] /\
  contents (seq_note n s') = contents s ++ data /\
  seq_note n s' = with_seq_push (seq_lens (seq_note n s')) (seq_tail (seq_note n s'))
    (with_pushed (recv_buf s') (recv_tail s') (add64 (recv_pushed s) (Z.of_nat n)) s).
Proof.
  intros Hok Hk Hq Hl. pose proof (push_spec data s (ring_ok_bytes _ Hok)) as Hp.
  destruct Hok as [Hb Hh Ht Hsl Hsh Hst Hw Hc Hs]. destruct (push data s) as [n s'].
  destruct Hp as (En & Hok' & Hcont & Hav & E). rewrite Nat.min_l in En by done. subst n.
  rewrite take_ge in Hcont by done.
  assert (Z.of_nat (length data) < 2 ^ 32) as H32.
  { pose proof recv_cap_u32. unfold recv_space in Hl. lia. }
  assert (seq_lens s' = seq_lens s /\ seq_head s' = seq_head s /\ seq_tail s' = seq_tail s) as (E1 & E2 & E3)
    by (by rewrite E).
  assert (seq_queued s' = seq_queued s) as E4 by (unfold seq_queued; by rewrite E2, E3).
  assert (queued_lens s' = queued_lens s) as E5 by (unfold queued_lens; by rewrite E1, E2, E4).
  destruct (seq_note_lens (length data) s') as (Hn1 & Hn2 & Hn3);
    [by rewrite E1|by rewrite E2|by rewrite E3|by rewrite E4|done|]. rewrite E5 in Hn1.
  assert (contents (seq_note (length data) s') = contents s ++ data) as Hcont' by exact Hcont.
  split_and!; [done| | |exact Hcont|by rewrite E].
  - destruct Hok' as [B1 B2 B3 B4 B5]. split; [exact B1|exact B2|exact B3|done|by rewrite E|done|exact B4|exact B5|].
    intros _. rewrite Hn1.
    change (recv_available (seq_note (length data) s')) with (recv_available s'). rewrite Hav.
    rewrite <- (Hs Hk). clear. induction (queued_lens s); simpl; lia.
  - unfold messages. rewrite Hn1, Hcont'. apply chop_snoc. rewrite (Hs Hk). by rewrite unread_length.
Qed.

Lemma queued_lens_cons s :
  ring_ok s -> seq_head s <> seq_tail s ->
  queued_lens s = Z.to_nat (seq_lens s !!! seq_head s) ::
    queued_lens (with_seq_head ((seq_head s + 1) mod SEQ_QUEUE_CAP)%nat s).
Proof.
  intros [] Hne. unfold queued_lens.
  assert (seq_queued s <> 0)%nat as Hq.
  { intros E. apply Hne. by apply (rcount_zero SEQ_QUEUE_CAP). }
  assert (seq_queued (with_seq_head ((seq_head s + 1) mod SEQ_QUEUE_CAP) s) = seq_queued s - 1)%nat as ->.
  { apply (rcount_pop SEQ_QUEUE_CAP (seq_head s) (seq_tail s) 1); [done|done|].
    change (1 <= seq_queued s)%nat. lia. }
  replace (seq_queued s) with (S (seq_queued s - 1)) at 1 by lia.
  rewrite ring_bytes_S by lia. cbn [map]. by rewrite ro_lens0.
Qed.

(** A SEQPACKET read takes the oldest message, and returns a prefix of it. *)
Lemma dequeue_spec len s :
  ring_ok s -> kind s = SeqPacket -> seq_head s <> seq_tail s ->
  exists m rest, messages s = m :: rest /\ contents s = m ++ contents (dequeue_msg len s).2 /\
  let '(out, discard, s') := dequeue_msg len s in
  out = take len m /\ (length out + discard = length m)%nat /\ ring_ok s' /\ messages s' = rest /\
  s' = with_popped ((recv_head s + length m) mod RECV_BUF_CAP) (add64 (recv_popped s) (Z.of_nat (length m)))
         (with_seq_head ((seq_head s + 1) mod SEQ_QUEUE_CAP) s).
Proof.
  intros Hok Hk Hne. pose proof (queued_lens_cons s Hok Hne) as Hq.
  set (s1 := with_seq_head ((seq_head s + 1) mod SEQ_QUEUE_CAP) s) in *.
  set (ml := Z.to_nat (seq_lens s !!! seq_head s)) in *.
  pose proof (ro_sum s Hok Hk) as Hsum. rewrite Hq in Hsum. simpl in Hsum.
  assert (bytes_ok s1) as Hb1 by (destruct Hok; by split).
  assert (ml <= recv_available s1)%nat as Hml by (change (recv_available s1) with (recv_available s); lia).
  destruct (advance_spec ml s1 Hb1 Hml) as (Hb2 & Hc2 & Ha2).
  set (s2 := with_popped ((recv_head s1 + ml) mod RECV_BUF_CAP) (add64 (recv_popped s1) (Z.of_nat ml)) s1) in *.
  set (m := take ml (contents s)).
  assert (length m = ml) as Hm by (unfold m; rewrite length_take, unread_length; change (recv_available s) with (recv_available s1); lia).
  assert (dequeue_msg len s = (take len m, (ml - Nat.min len ml)%nat, s2)) as ->.
  { unfold dequeue_msg. fold ml s1. pose proof (pop_spec (Nat.min len ml) s1 Hb1) as Hp.
    assert (length (take len m) = Nat.min len ml) as Hlo by (rewrite length_take; lia).
    destruct (Nat.ltb_spec 0 (Nat.min len ml)) as [Hw|Hw].
    - destruct (pop (Nat.min len ml) s1) as [out s'] eqn:E. destruct Hp as (-> & _ & _ & ->).
      change (contents s1) with (contents s).
      assert (take (Nat.min len ml) (contents s) = take len m) as -> by (unfold m; by rewrite take_take).
      rewrite Hlo. f_equal. cbn [with_popped recv_head recv_popped].
      pose proof (bo_head _ Hb1). rewrite iter_mod_add by (apply Nat.mod_upper_bound; lia).
      unfold s2, add64, wrap. cbv [with_popped].
      rewrite Nat.Div0.add_mod_idemp_l, Zplus_mod_idemp_l. f_equal; f_equal; lia.
    - assert (take len m = []) as -> by (apply length_zero_iff_nil; lia).
      cbn [length]. replace (ml - Nat.min len ml)%nat with ml by lia. rewrite Nat.sub_0_r. f_equal.
      rewrite iter_mod_add by apply Hb1. done. }
  exists m, (chop (queued_lens s1) (drop ml (contents s))). cbn [snd].
  split_and!.
  - unfold messages. by rewrite Hq.
  - rewrite Hc2. change (contents s1) with (contents s). unfold m. by rewrite take_drop.
  - done.
  - rewrite length_take. lia.
  - destruct Hb2 as [B1 B2 B3 B4 B5]. destruct Hok. split; try done.
    + apply Nat.mod_upper_bound. lia.
    + intros _. rewrite Ha2. change (recv_available s1) with (recv_available s).
      change (queued_lens s2) with (queued_lens s1). lia.
  - unfold messages. by rewrite Hc2.
  - by rewrite Hm.
Qed.
End socket_lemmas.
