(* ===== verification/UnixRun.v ===== *)
(** * Local sockets: what travels between endpoints (kernel/src/net/unix.rs)

    Runs of the socket operations by descriptor holders, in which only sockets
    neither connected nor listening are connected.  Slots of the table
    are recycled, so a run numbers the endpoints: each time a slot is taken the
    endpoint in it gets a fresh number.  The run records which endpoints were
    connected to each other, what was accepted from a writer for a reader and
    what a reader got.  The theorems: an endpoint hears one other endpoint in
    its whole life and gets what that one sent, in order and unaltered; a slot
    stays with its holders until the last of them closes it; the readiness
    predicates say when a call would block. *)

From S2P Require Import Prelude WaitList Pipe Unix.

(* ------------------------------------------------------------------ *)
(** ** Runs *)

Inductive Event :=
  | ESent (w g : nat) (data : list Z)
  | EGot (g : nat) (data : list Z) (discarded : nat).

(** [gens]: the endpoint in each slot; [opens]: the descriptors open on each
    slot; [kinds]: the kind of every endpoint so far. *)
Record Run := mkRun {
  sys : UnixSys;
  gens : list nat;
  opens : list nat;
  kinds : list SockKind;
  pairs : list (nat * nat);
  log : list Event
}.

Inductive Op :=
  | OCreate (k : SockKind) (creds : PeerCreds)
  | OBind (id : nat) (addr : list Z)
  | OListen (id : nat)
  | OConnect (id : nat) (addr : list Z)
  | OAccept (id : nat)
  | OPair (k : SockKind) (creds : PeerCreds)
  | OWrite (id : nat) (data : list Z)
  | ORead (id len : nat)
  | OShutdown (id : nat) (rd wr : bool)
  | ODup (id : nat)
  | OClose (id : nat).

(** The slot is in use. *)
Abbreviation live t i := (state (t !!! i) <> Free).

Section runs.
Context `{UnixSizes}.
Implicit Types (r : Run) (t : list UnixSocket) (u : UnixSys) (i j p g : nat).

Definition start (w : Wake) : Run :=
  mkRun (unix_boot w) (replicate MAX_UNIX_SOCKETS 0%nat) (replicate MAX_UNIX_SOCKETS 0%nat) [] [] [].

Definition with_sys u r : Run := mkRun u (gens r) (opens r) (kinds r) (pairs r) (log r).
Definition with_opens (o : list nat) r : Run := mkRun (sys r) (gens r) o (kinds r) (pairs r) (log r).
Definition say (e : Event) r : Run :=
  mkRun (sys r) (gens r) (opens r) (kinds r) (pairs r) (log r ++ [e]).

(** A fresh endpoint of kind [k] in slot [i], with [o] descriptors on it. *)
Definition enter i (k : SockKind) (o : nat) r : Run :=
  mkRun (sys r) (<[i := length (kinds r)]> (gens r)) (<[i := o]> (opens r)) (kinds r ++ [k])
    (pairs r) (log r).
Definition join i p r : Run :=
  mkRun (sys r) (gens r) (opens r) (kinds r) (pairs r ++ [(gens r !!! i, gens r !!! p)]) (log r).

Definition holds r i : bool := (0 <? opens r !!! i)%nat.

(** [close] as far as the table and the bell go. *)
Definition close_unix (id : nat) u : UnixSys :=
  let '(t, _, told) := close_slot id (TABLE u) in
  let u := with_table t u in
  if told then ring_unix BellUnixShutdown u else u.

Definition connectable (s : UnixSocket) : bool :=
  bool_decide (state s = Unbound) || bool_decide (state s = Bound).

(** One operation.  The caller holds a descriptor of the socket it names; it
    connects a socket that is neither connected nor listening; a socket has
    fewer than [u32::MAX] descriptors when one more is made. *)
Definition ustep (o : Op) r : option Run :=
  let u := sys r in
  match o with
  | OCreate k creds =>
      let '(res, u) := create k creds u in
      Some (match res with
            | Some i => enter i k 1 (with_sys u r)
            | None => with_sys u r
            end)
  | OBind id addr => if holds r id then Some (with_sys (bind id addr u).2 r) else None
  | OListen id => if holds r id then Some (with_sys (listen id u).2 r) else None
  | OConnect id addr =>
      if holds r id && connectable (TABLE u !!! id) then
        let '(res, u) := connect id addr u in
        Some (if res =? 0 then
                match get_peer id u with
                | Some p => join id p (enter p (unix_kind p u) 0 (with_sys u r))
                | None => with_sys u r
                end
              else with_sys u r)
      else None
  | OAccept id =>
      if holds r id then
        let '(res, u) := accept id u in
        Some (if 0 <=? res then with_opens (alter S (Z.to_nat res) (opens r)) (with_sys u r)
              else with_sys u r)
      else None
  | OPair k creds =>
      let '(res, u) := socketpair k creds u in
      Some (match res with
            | Some (a, b) => join a b (enter b k 1 (enter a k 1 (with_sys u r)))
            | None => with_sys u r
            end)
  | OWrite id data =>
      if holds r id then
        let '(n, u') := write id data u in
        Some (match get_peer id u with
              | Some p =>
                  if 0 <=? n
                  then say (ESent (gens r !!! id) (gens r !!! p) (take (Z.to_nat n) data)) (with_sys u' r)
                  else with_sys u' r
              | None => with_sys u' r
              end)
      else None
  | ORead id len =>
      if holds r id then
        let '(res, u') := read_msg id len u in
        Some (match res with
              | inl (out, d) =>
                  if has_data id u && negb (shut_rd (TABLE u !!! id))
                  then say (EGot (gens r !!! id) out d) (with_sys u' r)
                  else with_sys u' r
              | inr _ => with_sys u' r
              end)
      else None
  | OShutdown id rd wr => if holds r id then Some (with_sys (shutdown id rd wr u).2 r) else None
  | ODup id =>
      if holds r id && (Z.of_nat (opens r !!! id) <? U32_MAX)
      then Some (with_opens (alter S id (opens r)) (with_sys (inc_ref id u) r)) else None
  | OClose id =>
      if holds r id
      then Some (with_opens (alter pred id (opens r)) (with_sys (close_unix id u) r)) else None
  end.

Fixpoint urun (os : list Op) r : option Run :=
  match os with
  | [] => Some r
  | o :: os => r ← ustep o r; urun os r
  end.

(* ------------------------------------------------------------------ *)
(** ** What was sent to an endpoint and what it got *)

Definition sent_to g (l : list Event) : list (list Z) :=
  omap (fun e => match e with ESent _ g' d => if (g' =? g)%nat then Some d else None | _ => None end) l.
Definition got_by g (l : list Event) : list (list Z * nat) :=
  omap (fun e => match e with EGot g' d c => if (g' =? g)%nat then Some (d, c) else None | _ => None end) l.

(** A message and what a read returned of it: a prefix, the rest counted. *)
Definition read_as (m : list Z) (x : list Z * nat) : Prop :=
  x.1 = take (length x.1) m /\ (length x.1 + x.2 = length m)%nat.

(** Of what was sent, [rest] is still to be read: as a byte stream, or
    message by message. *)
Definition in_order (k : SockKind) (sent : list (list Z)) (got : list (list Z * nat))
    (rest : list (list Z)) : Prop :=
  match k with
  | Stream => concat sent = concat (map fst got) ++ concat rest
  | SeqPacket => exists ms, sent = ms ++ rest /\ Forall2 read_as ms got
  end.

(** What waits in a socket. *)
Definition inbox (s : UnixSocket) : list (list Z) :=
  match kind s with Stream => [contents s] | SeqPacket => messages s end.

Definition both (l : list (nat * nat)) : list nat := concat (map (fun '(a, b) => [a; b]) l).
Definition linked (l : list (nat * nat)) (a b : nat) : Prop := (a, b) ∈ l \/ (b, a) ∈ l.

(* ------------------------------------------------------------------ *)
(** ** The invariant of a run *)

(** The endpoints: numbered apart, paired both ways, and paired once. *)
Record ends_ok t (gs : list nat) (ks : list SockKind) (ps : list (nat * nat)) : Prop := {
  eo_len : length t = MAX_UNIX_SOCKETS;
  eo_gens : length gs = MAX_UNIX_SOCKETS;
  eo_kind : forall i, (i < MAX_UNIX_SOCKETS)%nat -> live t i -> ks !! (gs !!! i) = Some (kind (t !!! i));
  eo_inj : forall i j, (i < MAX_UNIX_SOCKETS)%nat -> (j < MAX_UNIX_SOCKETS)%nat ->
    live t i -> live t j -> gs !!! i = gs !!! j -> i = j;
  eo_peer : forall i p, (i < MAX_UNIX_SOCKETS)%nat -> peer_id (t !!! i) = Some p ->
    (p < MAX_UNIX_SOCKETS)%nat /\ p <> i /\ state (t !!! i) = Connected /\ state (t !!! p) = Connected /\
    peer_id (t !!! p) = Some i /\ kind (t !!! p) = kind (t !!! i) /\ linked ps (gs !!! i) (gs !!! p);
  eo_single : forall i, (i < MAX_UNIX_SOCKETS)%nat -> live t i -> state (t !!! i) <> Connected ->
    gs !!! i ∉ both ps;
  eo_known : forall g, g ∈ both ps -> (g < length ks)%nat;
  eo_once : NoDup (both ps)
}.

Definition pend (s : UnixSocket) : list (option nat) := take (backlog_len s) (backlog s).

(** The references: one per descriptor, and one for an endpoint that no one
    has accepted yet; the endpoints that wait to be accepted. *)
Record refs_ok t (os : list nat) : Prop := {
  ko_len : length os = MAX_UNIX_SOCKETS;
  ko_ref : forall i, (i < MAX_UNIX_SOCKETS)%nat ->
    if is_free (t !!! i) then os !!! i = 0%nat
    else ref_count (t !!! i) = Z.max 1 (Z.of_nat (os !!! i)) /\ Z.of_nat (os !!! i) <= U32_MAX;
  ko_backlog : forall i, (i < MAX_UNIX_SOCKETS)%nat ->
    length (backlog (t !!! i)) = BACKLOG_CAP /\ (backlog_len (t !!! i) <= BACKLOG_CAP)%nat;
  ko_pend : forall i q, (i < MAX_UNIX_SOCKETS)%nat -> q ∈ pend (t !!! i) ->
    exists p, q = Some p /\ (p < MAX_UNIX_SOCKETS)%nat /\ os !!! p = 0%nat /\ state (t !!! p) = Connected;
  ko_once : forall i j a b q, (i < MAX_UNIX_SOCKETS)%nat -> (j < MAX_UNIX_SOCKETS)%nat ->
    pend (t !!! i) !! a = Some q -> pend (t !!! j) !! b = Some q -> i = j /\ a = b
}.

Definition event_ok (ks : list SockKind) (ps : list (nat * nat)) (e : Event) : Prop :=
  match e with
  | ESent w g _ => (g < length ks)%nat /\ linked ps w g
  | EGot g _ _ => (g < length ks)%nat
  end.

(** The data: rings in order, the byte counter of an endpoint at what was sent
    to it, and every endpoint behind by what waits in its socket. *)
Record data_ok t (gs : list nat) (ks : list SockKind) (ps : list (nat * nat)) (l : list Event) : Prop := {
  do_ring : forall i, (i < MAX_UNIX_SOCKETS)%nat -> ring_ok (t !!! i);
  do_pushed : forall i, (i < MAX_UNIX_SOCKETS)%nat -> live t i ->
    recv_pushed (t !!! i) = wrap 64 (Z.of_nat (length (concat (sent_to (gs !!! i) l))));
  do_events : Forall (event_ok ks ps) l;
  do_order : forall g k, ks !! g = Some k ->
    exists rest, in_order k (sent_to g l) (got_by g l) rest /\
      forall i, (i < MAX_UNIX_SOCKETS)%nat -> live t i -> gs !!! i = g -> rest = inbox (t !!! i)
}.

Record run_ok r : Prop := {
  rk_ends : ends_ok (TABLE (sys r)) (gens r) (kinds r) (pairs r);
  rk_refs : refs_ok (TABLE (sys r)) (opens r);
  rk_data : data_ok (TABLE (sys r)) (gens r) (kinds r) (pairs r) (log r)
}.

(* ------------------------------------------------------------------ *)
(** ** Updates of one slot *)

Lemma upd_at `{Inhabited A} (l : list A) (i j : nat) (x : A) :
  (i < length l)%nat -> (<[i := x]> l) !!! j = if decide (j = i) then x else l !!! j.
Proof.
  intros Hi. case_decide; [subst; by apply list_lookup_total_insert_eq|by apply list_lookup_total_insert_ne].
Qed.

Lemma alter_upd `{Inhabited A} (f : A -> A) (i : nat) (l : list A) :
  (i < length l)%nat -> alter f i l = <[i := f (l !!! i)]> l.
Proof.
  intros Hi. apply list_eq. intros j. destruct (decide (i = j)) as [->|Hne].
  - rewrite list_lookup_alter_eq, list_lookup_insert_eq by done.
    by rewrite (list_lookup_lookup_total_lt l j Hi).
  - by rewrite list_lookup_alter_ne, list_lookup_insert_ne.
Qed.

(** The part of a socket the endpoints depend on is unchanged. *)
Definition same_end (s s' : UnixSocket) : Prop :=
  (state s' = Free <-> state s = Free) /\ (state s' = Connected <-> state s = Connected) /\
  (state s' <> Free -> kind s' = kind s) /\ peer_id s' = peer_id s.

Lemma ends_same t gs ks ps i s' :
  ends_ok t gs ks ps -> (i < MAX_UNIX_SOCKETS)%nat -> same_end (t !!! i) s' ->
  ends_ok (<[i := s']> t) gs ks ps.
Proof.
  intros [] Hi (Hf & Hc & Hk & Hp). split; try done.
  - by rewrite length_insert.
  - intros j Hj. rewrite upd_at by lia. case_decide; [subst|by apply eo_kind0].
    intros L. rewrite Hk by done. apply eo_kind0; tauto.
  - intros j j' Hj Hj'. rewrite !upd_at by lia. intros L L'. apply eo_inj0; try done; repeat case_decide; subst; tauto.
  - intros j p Hj. rewrite !upd_at by lia. intros E.
    assert (peer_id (t !!! j) = Some p) as E' by (case_decide; subst; congruence).
    destruct (eo_peer0 j p Hj E') as (P1 & P2 & P3 & P4 & P5 & P6 & P7).
    split_and!; try done; repeat case_decide; subst; try done; try tauto; try congruence;
      rewrite ?Hk by (rewrite Hf; congruence); done.
  - intros j Hj. rewrite upd_at by lia. intros L C. apply eo_single0; [done|..]; case_decide; subst; tauto.
Qed.

(** So are the bytes. *)
Definition same_data (s s' : UnixSocket) : Prop := inbox s' = inbox s /\ recv_pushed s' = recv_pushed s.

Lemma data_same t gs ks ps l i s' :
  data_ok t gs ks ps l -> length t = MAX_UNIX_SOCKETS -> (i < MAX_UNIX_SOCKETS)%nat ->
  (live t i \/ state s' = Free) ->
  (state s' <> Free -> same_data (t !!! i) s') -> ring_ok s' ->
  data_ok (<[i := s']> t) gs ks ps l.
Proof.
  intros [] Hlen Hi Hl Hin Hr. split; [| |done|].
  - intros j Hj. rewrite upd_at by lia. case_decide; [done|by apply do_ring0].
  - intros j Hj. rewrite upd_at by lia. case_decide; [subst|by apply do_pushed0].
    intros L. rewrite (proj2 (Hin L)). apply do_pushed0; tauto.
  - intros g k Hg. destruct (do_order0 g k Hg) as (rest & Ho & Hrest). exists rest. split; [done|].
    intros j Hj. rewrite upd_at by lia. case_decide; [subst|by apply Hrest].
    intros L E. rewrite (proj1 (Hin L)). apply Hrest; [done|tauto|done].
Qed.

Lemma refs_same t os i s' :
  refs_ok t os -> length t = MAX_UNIX_SOCKETS -> (i < MAX_UNIX_SOCKETS)%nat ->
  (state s' = Free <-> state (t !!! i) = Free) ->
  (state (t !!! i) = Connected -> state s' = Connected) ->
  (state s' <> Free -> ref_count s' = ref_count (t !!! i)) ->
  length (backlog s') = BACKLOG_CAP -> (backlog_len s' <= BACKLOG_CAP)%nat ->
  pend s' = pend (t !!! i) \/ pend s' = [] ->
  refs_ok (<[i := s']> t) os.
Proof.
  intros [] Hlen Hi Hf Hc Hr Hb Hbl Hp.
  assert (forall j a q, pend (<[i := s']> t !!! j) !! a = Some q -> pend (t !!! j) !! a = Some q) as Hsub.
  { intros j a q. rewrite upd_at by lia. case_decide; [subst|done]. by destruct Hp as [-> | ->]. }
  split; [done|..].
  - intros j Hj. rewrite upd_at by lia. specialize (ko_ref0 j Hj). case_decide; [subst|done].
    unfold is_free in *. repeat case_bool_decide; try tauto. by rewrite Hr.
  - intros j Hj. rewrite upd_at by lia. specialize (ko_backlog0 j Hj). by case_decide.
  - intros j q Hj [a Ha]%list_elem_of_lookup. apply Hsub in Ha.
    destruct (ko_pend0 j q Hj) as (p & -> & Hp1 & Hp2 & Hp3); [apply list_elem_of_lookup; eauto|].
    exists p. split_and!; try done. rewrite upd_at by lia. case_decide; [subst; auto|done].
  - intros j j' a b q Hj Hj' Ha%Hsub Hb'%Hsub. by eapply ko_once0.
Qed.

(* ------------------------------------------------------------------ *)
(** ** A slot is taken *)

Lemma peer_not_free t gs ks ps i j :
  ends_ok t gs ks ps -> (j < MAX_UNIX_SOCKETS)%nat -> state (t !!! i) = Free -> peer_id (t !!! j) <> Some i.
Proof. intros [] Hj Hf E. destruct (eo_peer0 j i Hj E) as (_ & _ & _ & Hc & _). congruence. Qed.

Lemma gens_known t gs ks ps i :
  ends_ok t gs ks ps -> (i < MAX_UNIX_SOCKETS)%nat -> live t i -> (gs !!! i < length ks)%nat.
Proof. intros [] Hi L. apply lookup_lt_is_Some. by rewrite eo_kind0. Qed.

Lemma ends_enter t gs ks ps i st k c :
  ends_ok t gs ks ps -> (i < MAX_UNIX_SOCKETS)%nat -> state (t !!! i) = Free -> st <> Free ->
  ends_ok (<[i := claim st k None c (t !!! i)]> t) (<[i := length ks]> gs) (ks ++ [k]) ps.
Proof.
  intros Hok Hi Hf Hst. pose proof (fun j Hj L => gens_known t gs ks ps j Hok Hj L) as Hgs.
  pose proof (fun j Hj => peer_not_free t gs ks ps i j Hok Hj Hf) as Hnp.
  destruct Hok. assert (length ks ∉ both ps) as Hfresh by (intros Hin%eo_known0; lia).
  split; rewrite ?length_insert; try done.
  - intros j Hj. rewrite !upd_at by lia. case_decide.
    + intros _. by rewrite lookup_app_r, Nat.sub_diag by lia.
    + intros L. rewrite lookup_app_l; [by apply eo_kind0|by apply Hgs].
  - intros j j' Hj Hj'. rewrite !upd_at by lia. repeat case_decide; subst; try done.
    + intros _ L. pose proof (Hgs j' Hj' L). lia.
    + intros L _. pose proof (Hgs j Hj L). lia.
    + by apply eo_inj0.
  - intros j p Hj. rewrite !upd_at by lia. case_decide; [subst; done|]. intros E.
    destruct (eo_peer0 j p Hj E) as (P1 & P2 & P3 & P4 & P5 & P6 & P7).
    assert (p <> i) by (intros ->; by apply (Hnp j)). by rewrite !decide_False by done.
  - intros j Hj. rewrite !upd_at by lia. case_decide; [done|]. by apply eo_single0.
  - intros g Hg%eo_known0. rewrite length_app. simpl. lia.
Qed.

Lemma sent_to_app g l l' : sent_to g (l ++ l') = sent_to g l ++ sent_to g l'.
Proof. apply omap_app. Qed.
Lemma got_by_app g l l' : got_by g (l ++ l') = got_by g l ++ got_by g l'.
Proof. apply omap_app. Qed.

Lemma no_fresh_events ks ps l :
  Forall (event_ok ks ps) l -> sent_to (length ks) l = [] /\ got_by (length ks) l = [].
Proof.
  induction 1 as [|e l He Hl [IH1 IH2]]; [done|]. change (e :: l) with ([e] ++ l).
  rewrite sent_to_app, got_by_app, IH1, IH2, !app_nil_r. unfold sent_to, got_by.
  destruct e; simpl in *; rewrite (proj2 (Nat.eqb_neq _ _)) by lia; done.
Qed.

Lemma claim_ring st k q c s : ring_ok s -> ring_ok (claim st k q c s).
Proof.
  intros []. pose proof recv_cap_ok. pose proof seq_cap_ok.
  assert (recv_available (claim st k q c s) = 0)%nat as E by (apply (rcount_zero RECV_BUF_CAP 0 0); lia).
  assert (seq_queued (claim st k q c s) = 0)%nat as E' by (apply (rcount_zero SEQ_QUEUE_CAP 0 0); lia).
  split; simpl; try done; try lia.
  - by rewrite E.
  - intros _. unfold queued_lens. by rewrite E, E'.
Qed.

Lemma claim_inbox st k q c s : inbox (claim st k q c s) = match k with Stream => [[]] | SeqPacket => [] end.
Proof.
  pose proof recv_cap_ok. pose proof seq_cap_ok.
  assert (recv_available (claim st k q c s) = 0)%nat as E by (apply (rcount_zero RECV_BUF_CAP 0 0); lia).
  assert (seq_queued (claim st k q c s) = 0)%nat as E' by (apply (rcount_zero SEQ_QUEUE_CAP 0 0); lia).
  unfold inbox, messages, queued_lens, contents. rewrite E, E'. by destruct k.
Qed.

Lemma event_mono ks ks' ps ps' e :
  (length ks <= length ks')%nat -> ps ⊆ ps' -> event_ok ks ps e -> event_ok ks' ps' e.
Proof.
  intros Hk Hp. destruct e; simpl; [|lia]. intros [? [?|?]]; split; try lia; [left|right]; by apply Hp.
Qed.

Lemma data_enter t gs ks ps l i st k c :
  data_ok t gs ks ps l -> ends_ok t gs ks ps -> (i < MAX_UNIX_SOCKETS)%nat -> state (t !!! i) = Free ->
  data_ok (<[i := claim st k None c (t !!! i)]> t) (<[i := length ks]> gs) (ks ++ [k]) ps l.
Proof.
  intros [] Hends Hi Hf. pose proof (eo_len _ _ _ _ Hends). pose proof (eo_gens _ _ _ _ Hends). split.
  - intros j Hj. rewrite upd_at by lia. case_decide; [apply claim_ring|]; by apply do_ring0.
  - intros j Hj. rewrite !upd_at by lia. case_decide; [|by apply do_pushed0].
    intros _. by rewrite (proj1 (no_fresh_events ks ps l do_events0)).
  - eapply List.Forall_impl; [|exact do_events0]. intros e. apply event_mono; [rewrite length_app; lia|done].
  - intros g k' Hk. destruct (decide (g = length ks)) as [->|Hne].
    + rewrite lookup_app_r, Nat.sub_diag in Hk by lia. injection Hk as <-.
      destruct (no_fresh_events ks ps l do_events0) as [-> ->].
      exists (inbox (claim st k None c (t !!! i))). split.
      * rewrite claim_inbox. destruct k; [done|by exists []].
      * intros j Hj. rewrite !upd_at by lia. case_decide; [done|]. intros L E.
        pose proof (gens_known _ _ _ _ _ Hends Hj L). lia.
    + assert (g < length ks)%nat as Hlt.
      { apply lookup_lt_Some in Hk. rewrite length_app in Hk. simpl in Hk. lia. }
      rewrite lookup_app_l in Hk by done. destruct (do_order0 g k' Hk) as (rest & Ho & Hrest).
      exists rest. split; [done|]. intros j Hj. rewrite !upd_at by lia. case_decide; [lia|]. by apply Hrest.
Qed.

Lemma is_free_spec s : is_free s = true <-> state s = Free.
Proof. unfold is_free. by rewrite bool_decide_eq_true. Qed.
Lemma is_free_false s : is_free s = false <-> state s <> Free.
Proof. unfold is_free. by rewrite bool_decide_eq_false. Qed.

Lemma refs_enter t os i st k q c (o : nat) :
  refs_ok t os -> length t = MAX_UNIX_SOCKETS -> (i < MAX_UNIX_SOCKETS)%nat -> state (t !!! i) = Free ->
  st <> Free -> (o <= 1)%nat ->
  refs_ok (<[i := claim st k q c (t !!! i)]> t) (<[i := o]> os).
Proof.
  intros [] Hlen Hi Hf Hst Ho.
  assert (forall j, pend (<[i := claim st k q c (t !!! i)]> t !!! j) = if decide (j = i) then [] else pend (t !!! j)) as Hp.
  { intros j. rewrite upd_at by lia. by case_decide. }
  split; rewrite ?length_insert; [done|..].
  - intros j Hj. specialize (ko_ref0 j Hj). rewrite !upd_at by lia. case_decide; [|done].
    rewrite (proj2 (is_free_false _)) by done. simpl. unfold U32_MAX. lia.
  - intros j Hj. specialize (ko_backlog0 j Hj). rewrite upd_at by lia. case_decide; [subst; simpl; lia|done].
  - intros j q' Hj. rewrite Hp. case_decide; [by intros ?%list.not_elem_of_nil|]. intros Hq.
    destruct (ko_pend0 j q' Hj Hq) as (p & -> & Hp1 & Hp2 & Hp3). exists p. 
    rewrite !upd_at by lia. assert (p <> i) by congruence. by rewrite !decide_False.
  - intros j j' a b q' Hj Hj'. rewrite !Hp. repeat case_decide; try done. by apply ko_once0.
Qed.

(* ------------------------------------------------------------------ *)
(** ** Two endpoints are connected *)

Lemma both_app l l' : both (l ++ l') = both l ++ both l'.
Proof. unfold both. by rewrite map_app, concat_app. Qed.

Lemma elem_of_both_snoc l a b g : g ∈ both (l ++ [(a, b)]) <-> g ∈ both l \/ g = a \/ g = b.
Proof.
  rewrite both_app, list.elem_of_app. unfold both. simpl.
  by rewrite list.elem_of_cons, list_elem_of_singleton.
Qed.

Lemma linked_app l l' a b : linked l a b -> linked (l ++ l') a b.
Proof. intros [?|?]; [left|right]; apply list.elem_of_app; by left. Qed.

Lemma linked_sym l a b : linked l a b -> linked l b a.
Proof. intros [?|?]; [by right|by left]. Qed.

Lemma linked_new l a b : linked (l ++ [(a, b)]) a b.
Proof. left. apply list.elem_of_app. right. by apply list_elem_of_singleton. Qed.

Lemma ends_join t gs ks ps a b sa sb :
  ends_ok t gs ks ps -> (a < MAX_UNIX_SOCKETS)%nat -> (b < MAX_UNIX_SOCKETS)%nat -> a <> b ->
  live t a -> live t b -> peer_id (t !!! a) = None -> peer_id (t !!! b) = None ->
  kind (t !!! a) = kind (t !!! b) -> gs !!! a ∉ both ps -> gs !!! b ∉ both ps ->
  state sa = Connected -> state sb = Connected -> peer_id sa = Some b -> peer_id sb = Some a ->
  kind sa = kind (t !!! a) -> kind sb = kind (t !!! b) ->
  ends_ok (<[a := sa]> (<[b := sb]> t)) gs ks (ps ++ [(gs !!! a, gs !!! b)]).
Proof.
  intros Hok Ha Hb Hab La Lb Pa Pb Hk Na Nb Sa Sb Qa Qb Ka Kb.
  pose proof (gens_known _ _ _ _ _ Hok Ha La). pose proof (gens_known _ _ _ _ _ Hok Hb Lb).
  assert (gs !!! a <> gs !!! b) as Hg by (intros E; apply Hab; by apply (eo_inj _ _ _ _ Hok)).
  destruct Hok.
  assert (forall j, <[a := sa]> (<[b := sb]> t) !!! j = if decide (j = a) then sa else if decide (j = b) then sb else t !!! j) as Hat.
  { intros j. rewrite !upd_at by (rewrite ?length_insert; lia). done. }
  assert (forall j, live (<[a := sa]> (<[b := sb]> t)) j -> live t j) as Hlive.
  { intros j. rewrite Hat. repeat case_decide; subst; done. }
  split; rewrite ?length_insert; try done.
  - intros j Hj L%Hlive. rewrite eo_kind0, Hat by done. repeat case_decide; subst; congruence.
  - intros j j' Hj Hj' L%Hlive L'%Hlive. by apply eo_inj0.
  - intros j p Hj. rewrite (Hat j). case_decide; [subst j|case_decide; [subst j|]].
    + intros E. assert (p = b) as -> by congruence. rewrite !Hat.
      rewrite decide_False, decide_True by done. split_and!; try done; try congruence.
      apply linked_new.
    + intros E. assert (p = a) as -> by congruence. rewrite !Hat.
      rewrite decide_True by done. split_and!; try done; try congruence. apply linked_sym, linked_new.
    + intros E. destruct (eo_peer0 j p Hj E) as (P1 & P2 & P3 & P4 & P5 & P6 & P7).
      assert (p <> a) by congruence. assert (p <> b) by congruence.
      rewrite (Hat p), !decide_False by done. split_and!; try done. by apply linked_app.
  - intros j Hj L. pose proof (Hlive j L) as L'. rewrite Hat. case_decide; [done|]. case_decide; [done|].
    intros C. rewrite elem_of_both_snoc.
    intros [Hin|[E|E]]; [by apply (eo_single0 j)|apply eo_inj0 in E; done..].
  - intros g. rewrite elem_of_both_snoc. intros [Hin|[->| ->]]; [by apply eo_known0|done..].
  - rewrite both_app. apply list.NoDup_app. split_and!; [done| |].
    + intros g Hg1 Hg2. unfold both in Hg2. simpl in Hg2.
      rewrite list.elem_of_cons, list_elem_of_singleton in Hg2. destruct Hg2 as [->| ->]; done.
    + unfold both. simpl. apply list.NoDup_cons. split; [|apply list.NoDup_singleton].
      by rewrite list_elem_of_singleton.
Qed.

Lemma data_links t gs ks ps ps' l : data_ok t gs ks ps l -> data_ok t gs ks (ps ++ ps') l.
Proof.
  intros []. split; [done|done| |done]. eapply List.Forall_impl; [|exact do_events0].
  intros e. apply event_mono; [done|]. intros x Hx. apply list.elem_of_app. by left.
Qed.

(* ------------------------------------------------------------------ *)
(** ** Data arrives and leaves *)

Definition grew (k : SockKind) (box box' : list (list Z)) (d : list Z) : Prop :=
  match k with Stream => concat box' = concat box ++ d | SeqPacket => box' = box ++ [d] end.
Definition shrank (k : SockKind) (box box' : list (list Z)) (x : list Z * nat) : Prop :=
  match k with
  | Stream => concat box = x.1 ++ concat box'
  | SeqPacket => exists m, box = m :: box' /\ read_as m x
  end.

Lemma in_order_sent k sent got box box' d :
  in_order k sent got box -> grew k box box' d -> in_order k (sent ++ [d]) got box'.
Proof.
  destruct k; simpl.
  - intros E G. rewrite concat_app, E, G. simpl. by rewrite app_nil_r, app_assoc.
  - intros (ms & -> & Hms) ->. exists ms. by rewrite app_assoc.
Qed.

Lemma in_order_got k sent got box box' x :
  in_order k sent got box -> shrank k box box' x -> in_order k sent (got ++ [x]) box'.
Proof.
  destruct k; simpl.
  - intros -> ->. rewrite map_app, concat_app. simpl. by rewrite app_nil_r, app_assoc.
  - intros (ms & -> & Hms) (m & -> & Hm). exists (ms ++ [m]). rewrite <- app_assoc. split; [done|].
    apply Forall2_app; [done|]. constructor; [done|constructor].
Qed.

(** The log grows by an event about the endpoint in slot [p], whose inbox
    changes with it. *)
Lemma data_event t gs ks ps l p s' e :
  data_ok t gs ks ps l -> ends_ok t gs ks ps -> (p < MAX_UNIX_SOCKETS)%nat -> live t p ->
  event_ok ks ps e -> ring_ok s' ->
  recv_pushed s' = add64 (recv_pushed (t !!! p)) (Z.of_nat (length (concat (sent_to (gs !!! p) [e])))) ->
  (forall g, g <> gs !!! p -> sent_to g [e] = [] /\ got_by g [e] = []) ->
  (forall sent got, in_order (kind (t !!! p)) sent got (inbox (t !!! p)) ->
    in_order (kind (t !!! p)) (sent ++ sent_to (gs !!! p) [e]) (got ++ got_by (gs !!! p) [e]) (inbox s')) ->
  data_ok (<[p := s']> t) gs ks ps (l ++ [e]).
Proof.
  intros [] Hends Hp L He Hr Hpu Hother Hstep. pose proof (eo_len _ _ _ _ Hends).
  split.
  - intros j Hj. rewrite upd_at by lia. case_decide; [done|by apply do_ring0].
  - intros j Hj. rewrite upd_at, sent_to_app, concat_app, length_app by lia. case_decide; [subst j|].
    + intros _. rewrite Hpu, do_pushed0 by done. unfold add64, wrap. rewrite Zplus_mod_idemp_l. f_equal. lia.
    + intros L'. destruct (Hother (gs !!! j)) as [-> _]; [|rewrite do_pushed0 by done; do 2 f_equal; simpl; lia].
      intros E. by apply (eo_inj _ _ _ _ Hends) in E.
  - apply Forall_app. split; [done|]. by apply Forall_singleton.
  - intros g k Hg. destruct (do_order0 g k Hg) as (rest & Ho & Hrest).
    rewrite sent_to_app, got_by_app. destruct (decide (g = gs !!! p)) as [->|Hne].
    + rewrite (eo_kind _ _ _ _ Hends p Hp L) in Hg. injection Hg as <-.
      rewrite (Hrest p Hp L eq_refl) in Ho. exists (inbox s'). split; [by apply Hstep|].
      intros j Hj. rewrite upd_at by lia. case_decide; [done|]. intros L' E.
      by apply (eo_inj _ _ _ _ Hends) in E.
    + destruct (Hother g Hne) as [-> ->]. rewrite !app_nil_r. exists rest. split; [done|].
      intros j Hj. rewrite upd_at by lia. case_decide; [subst; congruence|]. by apply Hrest.
Qed.

Lemma data_sent t gs ks ps l w p s' d :
  data_ok t gs ks ps l -> ends_ok t gs ks ps -> (p < MAX_UNIX_SOCKETS)%nat -> live t p ->
  linked ps w (gs !!! p) -> ring_ok s' ->
  recv_pushed s' = add64 (recv_pushed (t !!! p)) (Z.of_nat (length d)) -> grew (kind (t !!! p)) (inbox (t !!! p)) (inbox s') d ->
  data_ok (<[p := s']> t) gs ks ps (l ++ [ESent w (gs !!! p) d]).
Proof.
  intros Hd Hends Hp L Hlink Hr Hpu Hg. apply data_event; try done.
  - split; [by apply (gens_known _ _ _ _ _ Hends)|done].
  - rewrite Hpu. unfold sent_to. simpl. by rewrite Nat.eqb_refl; simpl; rewrite app_nil_r.
  - intros g Hne. unfold sent_to, got_by. simpl. by rewrite (proj2 (Nat.eqb_neq _ _)) by congruence.
  - intros sent got Ho. unfold sent_to, got_by. simpl. rewrite Nat.eqb_refl, app_nil_r. by eapply in_order_sent.
Qed.

Lemma data_got t gs ks ps l p s' out c :
  data_ok t gs ks ps l -> ends_ok t gs ks ps -> (p < MAX_UNIX_SOCKETS)%nat -> live t p ->
  ring_ok s' -> recv_pushed s' = recv_pushed (t !!! p) -> shrank (kind (t !!! p)) (inbox (t !!! p)) (inbox s') (out, c) ->
  data_ok (<[p := s']> t) gs ks ps (l ++ [EGot (gs !!! p) out c]).
Proof.
  intros Hd Hends Hp L Hr Hpu Hg. apply data_event; try done.
  - by apply (gens_known _ _ _ _ _ Hends).
  - rewrite Hpu, (do_pushed _ _ _ _ _ Hd p Hp L). unfold add64, wrap. simpl. by rewrite Z.add_0_r, Zmod_mod.
  - intros g Hne. unfold sent_to, got_by. simpl. by rewrite (proj2 (Nat.eqb_neq _ _)) by congruence.
  - intros sent got Ho. unfold sent_to, got_by. simpl. rewrite Nat.eqb_refl, app_nil_r. by eapply in_order_got.
Qed.

(* ------------------------------------------------------------------ *)
(** ** References *)

(** A slot with a descriptor on it changes. *)
Lemma refs_set t os i s' (o' : nat) :
  refs_ok t os -> length t = MAX_UNIX_SOCKETS -> (i < MAX_UNIX_SOCKETS)%nat -> (0 < os !!! i)%nat ->
  (if is_free s' then o' = 0%nat else ref_count s' = Z.max 1 (Z.of_nat o') /\ Z.of_nat o' <= U32_MAX) ->
  length (backlog s') = BACKLOG_CAP -> (backlog_len s' <= BACKLOG_CAP)%nat ->
  pend s' = pend (t !!! i) \/ pend s' = [] ->
  refs_ok (<[i := s']> t) (<[i := o']> os).
Proof.
  intros [] Hlen Hi Ho Hs Hb Hbl Hp.
  assert (forall j a q, pend (<[i := s']> t !!! j) !! a = Some q -> pend (t !!! j) !! a = Some q) as Hsub.
  { intros j a q. rewrite upd_at by lia. case_decide; [subst|done]. by destruct Hp as [-> | ->]. }
  split; rewrite ?length_insert; [done|..].
  - intros j Hj. specialize (ko_ref0 j Hj). rewrite !upd_at by lia. by case_decide.
  - intros j Hj. specialize (ko_backlog0 j Hj). rewrite upd_at by lia. by case_decide.
  - intros j q Hj [a Ha]%list_elem_of_lookup. apply Hsub in Ha.
    destruct (ko_pend0 j q Hj) as (p & -> & Hp1 & Hp2 & Hp3); [apply list_elem_of_lookup; eauto|].
    exists p. rewrite !upd_at by lia. assert (p <> i) by (intros ->; lia). by rewrite !decide_False.
  - intros j j' a b q Hj Hj' Ha%Hsub Hb'%Hsub. by eapply ko_once0.
Qed.

Lemma pend_push p s :
  length (backlog s) = BACKLOG_CAP ->
  pend (backlog_push p s) = if (backlog_len s <? BACKLOG_CAP)%nat then pend s ++ [Some p] else pend s.
Proof.
  intros Hb. unfold backlog_push. destruct (Nat.ltb_spec (backlog_len s) BACKLOG_CAP); [|done].
  unfold pend. cbn [with_backlog backlog backlog_len].
  rewrite Nat.add_1_r, (take_S_r _ _ (Some p)) by (rewrite list_lookup_insert_eq by lia; done).
  by rewrite take_insert_ge by lia.
Qed.

Lemma refs_push t os i p :
  refs_ok t os -> length t = MAX_UNIX_SOCKETS -> (i < MAX_UNIX_SOCKETS)%nat -> (p < MAX_UNIX_SOCKETS)%nat ->
  os !!! p = 0%nat -> state (t !!! p) = Connected ->
  (forall j, (j < MAX_UNIX_SOCKETS)%nat -> Some p ∉ pend (t !!! j)) ->
  refs_ok (<[i := backlog_push p (t !!! i)]> t) os.
Proof.
  intros [] Hlen Hi Hp Ho Hc Hnew. pose proof (ko_backlog0 i Hi) as [Hb Hbl].
  assert (state (backlog_push p (t !!! i)) = state (t !!! i) /\
    ref_count (backlog_push p (t !!! i)) = ref_count (t !!! i) /\
    length (backlog (backlog_push p (t !!! i))) = BACKLOG_CAP /\
    (backlog_len (backlog_push p (t !!! i)) <= BACKLOG_CAP)%nat) as (E1 & E2 & E3 & E4).
  { unfold backlog_push. destruct (Nat.ltb_spec (backlog_len (t !!! i)) BACKLOG_CAP); [|done].
    simpl. rewrite length_insert. split_and!; try done. lia. }
  assert (forall j a q, pend (<[i := backlog_push p (t !!! i)]> t !!! j) !! a = Some q ->
    pend (t !!! j) !! a = Some q \/ (j = i /\ q = Some p /\ a = length (pend (t !!! i)))) as Hsub.
  { intros j a q. rewrite upd_at by lia. case_decide; [subst|by left]. rewrite pend_push by done.
    case_match; [|by left]. intros [?|[? [Hz <-]%list_lookup_singleton_Some]]%lookup_app_Some; [by left|right].
    split_and!; [done|done|lia]. }
  split; [done|..].
  - intros j Hj. specialize (ko_ref0 j Hj). rewrite upd_at by lia. case_decide; [subst|done].
    unfold is_free in *. by rewrite E1, E2.
  - intros j Hj. specialize (ko_backlog0 j Hj). rewrite upd_at by lia. by case_decide.
  - intros j q Hj [a Ha]%list_elem_of_lookup.
    assert (exists p', q = Some p' /\ (p' < MAX_UNIX_SOCKETS)%nat /\ os !!! p' = 0%nat /\ state (t !!! p') = Connected) as (p' & -> & F1 & F2 & F3).
    { destruct (Hsub _ _ _ Ha) as [Ha'|(-> & -> & _)]; [|by exists p].
      apply (ko_pend0 j q Hj). apply list_elem_of_lookup. eauto. }
    exists p'. split_and!; try done. rewrite upd_at by lia. case_decide; subst; congruence.
  - intros j j' a b q Hj Hj' Ha Hb'. 
    destruct (Hsub _ _ _ Ha) as [Ha'|(-> & -> & ->)], (Hsub _ _ _ Hb') as [Hb''|(-> & ? & ->)]; try done.
    + by eapply ko_once0.
    + exfalso. subst q. apply (Hnew j Hj), list_elem_of_lookup. eauto.
    + exfalso. apply (Hnew j' Hj'), list_elem_of_lookup. eauto.
Qed.

Lemma backlog_shift_spec n b :
  (n <= length b)%nat ->
  length (backlog_shift n b) = length b /\ take (n - 1) (backlog_shift n b) = drop 1 (take n b).
Proof.
  intros Hn. unfold backlog_shift.
  assert (forall k, (k <= n - 1)%nat ->
    let b' := fold_left (fun b i => <[i := b !!! (i + 1)%nat]> b) (seq 0 k) b in
    length b' = length b /\ forall j, b' !!! j = if (j <? k)%nat then b !!! (j + 1)%nat else b !!! j) as Hk.
  { induction k as [|k IH]; intros Hle; [done|]. rewrite seq_S, fold_left_app. simpl.
    destruct (IH ltac:(lia)) as [IH1 IH2]. rewrite length_insert. split; [done|].
    intros j. rewrite upd_at by lia. case_decide as E.
    - subst. rewrite IH2, (proj2 (Nat.ltb_ge _ _)), (proj2 (Nat.ltb_lt _ _)) by lia. done.
    - rewrite IH2. destruct (Nat.ltb_spec j k), (Nat.ltb_spec j (S k)); try done; lia. }
  destruct (Hk (n - 1)%nat ltac:(lia)) as [H1 H2]. split; [done|].
  apply list_eq_same_length with (n := (n - 1)%nat).
  - rewrite ?length_drop, length_take. lia.
  - rewrite ?length_drop, length_take. lia.
  - intros j x y Hj. rewrite lookup_take_lt, lookup_drop, lookup_take_lt by lia.
    intros Hx%list_lookup_total_correct Hy%list_lookup_total_correct. subst x y.
    rewrite H2, (proj2 (Nat.ltb_lt _ _)) by done. f_equal. lia.
Qed.

(** The endpoint at the head of a backlog gets its descriptor. *)
Lemma refs_accept t os i p rest s' :
  refs_ok t os -> length t = MAX_UNIX_SOCKETS -> (i < MAX_UNIX_SOCKETS)%nat ->
  pend (t !!! i) = Some p :: rest -> pend s' = rest ->
  state s' = state (t !!! i) -> ref_count s' = ref_count (t !!! i) ->
  length (backlog s') = BACKLOG_CAP -> (backlog_len s' <= BACKLOG_CAP)%nat ->
  refs_ok (<[i := s']> t) (<[p := 1%nat]> os).
Proof.
  intros [] Hlen Hi Hpd Hrest E1 E2 E3 E4.
  destruct (ko_pend0 i (Some p) Hi) as (? & [= <-] & Hp & Ho & Hc); [rewrite Hpd; by left|].
  assert (forall j a q, pend (<[i := s']> t !!! j) !! a = Some q ->
    pend (t !!! j) !! (if decide (j = i) then S a else a) = Some q) as Hsub.
  { intros j a q. rewrite upd_at by lia. case_decide; [subst|done]. by rewrite Hpd. }
  assert (forall j, state (<[i := s']> t !!! j) = state (t !!! j)) as Est.
  { intros j. rewrite upd_at by lia. case_decide; congruence. }
  assert (forall j, ref_count (<[i := s']> t !!! j) = ref_count (t !!! j)) as Erc.
  { intros j. rewrite upd_at by lia. case_decide; congruence. }
  split; rewrite ?length_insert; [done|..].
  - intros j Hj. specialize (ko_ref0 j Hj). unfold is_free in *. rewrite Est, Erc.
    rewrite (upd_at os) by lia. destruct (decide (j = p)) as [->|]; [|done]. rewrite Hc, bool_decide_eq_false_2 in * by done.
    rewrite Ho in ko_ref0. unfold U32_MAX. lia.
  - intros j Hj. specialize (ko_backlog0 j Hj). rewrite upd_at by lia. by case_decide.
  - intros j q Hj [a Ha]%list_elem_of_lookup. apply Hsub in Ha.
    destruct (ko_pend0 j q Hj) as (p' & -> & F1 & F2 & F3); [apply list_elem_of_lookup; eauto|].
    exists p'. rewrite Est, (upd_at os) by lia. split_and!; try done.
    destruct (decide (p' = p)) as [->|]; [|done]. exfalso.
    destruct (ko_once0 j i (if decide (j = i) then S a else a) 0%nat (Some p) Hj Hi Ha) as [-> E];
      [by rewrite Hpd|]. by rewrite decide_True in E.
  - intros j j' a b q Hj Hj' Ha%Hsub Hb%Hsub. destruct (ko_once0 _ _ _ _ _ Hj Hj' Ha Hb) as [-> E].
    split; [done|]. case_decide; congruence.
Qed.

(* ------------------------------------------------------------------ *)
(** ** The operations keep the invariant *)

Lemma holder r id :
  run_ok r -> holds r id = true ->
  (id < MAX_UNIX_SOCKETS)%nat /\ live (TABLE (sys r)) id /\ bad_id id = false /\ (0 < opens r !!! id)%nat.
Proof.
  intros [He Hk _] Ho%Nat.ltb_lt.
  assert (id < MAX_UNIX_SOCKETS)%nat as Hi.
  { destruct (decide (id < length (opens r))%nat) as [Hl|Hl]; [by rewrite (ko_len _ _ Hk) in Hl|].
    rewrite list_lookup_total_alt, lookup_ge_None_2 in Ho by lia. simpl in Ho. lia. }
  split_and!; try done; [|by apply Nat.leb_gt].
  pose proof (ko_ref _ _ Hk id Hi) as Hr. destruct (is_free _) eqn:E; [lia|by apply is_free_false].
Qed.

(** Only the fields that a held slot's endpoint does not depend on change. *)
Lemma run_same r u i s' :
  run_ok r -> (i < MAX_UNIX_SOCKETS)%nat -> live (TABLE (sys r)) i -> TABLE u = <[i := s']> (TABLE (sys r)) ->
  state s' <> Free -> (state s' = Connected <-> state (TABLE (sys r) !!! i) = Connected) ->
  kind s' = kind (TABLE (sys r) !!! i) -> peer_id s' = peer_id (TABLE (sys r) !!! i) ->
  ref_count s' = ref_count (TABLE (sys r) !!! i) ->
  backlog s' = backlog (TABLE (sys r) !!! i) -> backlog_len s' = backlog_len (TABLE (sys r) !!! i) ->
  ring_ok s' -> same_data (TABLE (sys r) !!! i) s' ->
  run_ok (with_sys u r).
Proof.
  intros [He Hk Hd] Hi L Hu Hf Hc Hkind Hp Hr Hb Hbl Hring Hin. pose proof (eo_len _ _ _ _ He).
  pose proof (ko_backlog _ _ Hk i Hi) as [Hb1 Hb2].
  split; cbn [with_sys sys gens opens kinds pairs log]; rewrite Hu.
  - apply ends_same; [done|done|]. by split_and!.
  - apply refs_same; try done; [tauto|by rewrite Hb|by rewrite Hbl|left; unfold pend; by rewrite Hb, Hbl].
  - apply data_same; auto.
Qed.

Lemma run_same_table r u : run_ok r -> TABLE u = TABLE (sys r) -> run_ok (with_sys u r).
Proof. intros [] E. split; cbn [with_sys sys gens opens kinds pairs log]; by rewrite E. Qed.

(** A socket that differs in fields its ring does not use. *)
Lemma ring_ok_cong s s' :
  ring_ok s -> recv_buf s' = recv_buf s -> recv_head s' = recv_head s -> recv_tail s' = recv_tail s ->
  recv_pushed s' = recv_pushed s -> recv_popped s' = recv_popped s -> seq_lens s' = seq_lens s ->
  seq_head s' = seq_head s -> seq_tail s' = seq_tail s -> kind s' = kind s ->
  ring_ok s' /\ same_data s s'.
Proof.
  intros [] E1 E2 E3 E4 E5 E6 E7 E8 E9.
  assert (recv_available s' = recv_available s) as E by (unfold recv_available; by rewrite E2, E3).
  assert (queued_lens s' = queued_lens s) as E' by (unfold queued_lens, seq_queued; by rewrite E6, E7, E8).
  assert (contents s' = contents s) as E'' by (unfold contents; by rewrite E, E1, E2).
  split; [split; rewrite ?E, ?E', ?E1, ?E2, ?E3, ?E4, ?E5, ?E6, ?E7, ?E8, ?E9; done|]. split; [|done]. unfold inbox, messages. by rewrite E9, E', E''.
Qed.

Lemma free_slot t i : position is_free t = Some i -> (i < length t)%nat /\ state (t !!! i) = Free.
Proof.
  intros ((s & Hs & Hf%is_free_spec) & _)%position_some. split; [by eapply lookup_lt_Some|].
  by rewrite (list_lookup_total_correct _ _ _ Hs).
Qed.

Lemma run_enter r u i st k c (o : nat) :
  run_ok r -> (i < MAX_UNIX_SOCKETS)%nat -> state (TABLE (sys r) !!! i) = Free -> st <> Free -> (o <= 1)%nat ->
  TABLE u = <[i := claim st k None c (TABLE (sys r) !!! i)]> (TABLE (sys r)) ->
  run_ok (enter i k o (with_sys u r)).
Proof.
  intros [He Hk Hd] Hi Hf Hst Ho Ht. pose proof (eo_len _ _ _ _ He).
  split; cbn [enter with_sys sys gens opens kinds pairs log]; rewrite Ht.
  - by apply ends_enter.
  - by apply refs_enter.
  - by apply data_enter.
Qed.

Lemma step_create k creds r r' : run_ok r -> ustep (OCreate k creds) r = Some r' -> run_ok r'.
Proof.
  intros Hok. unfold ustep, create. destruct (position is_free (TABLE (sys r))) as [i|] eqn:E;
    intros [= <-]; [|by apply run_same_table].
  apply free_slot in E as [Hi Hf]. pose proof (eo_len _ _ _ _ (rk_ends _ Hok)) as Hlen.
  apply (run_enter r _ i Unbound k creds); try done; [lia|by apply alter_upd].
Qed.

Lemma step_bind id addr r r' : run_ok r -> ustep (OBind id addr) r = Some r' -> run_ok r'.
Proof.
  intros Hok Hst. unfold ustep in Hst. destruct (holds r id) eqn:Ho; [|done]. injection Hst as <-.
  destruct (holder r id Hok Ho) as (Hi & L & Hbad & _). unfold bind. rewrite Hbad.
  destruct (length (unix_name addr) =? 0)%nat; [by apply run_same_table|].
  destruct (name_taken _ _ _); [by apply run_same_table|].
  destruct (state (TABLE (sys r) !!! id)) eqn:Es; try by apply run_same_table.
  pose proof (do_ring _ _ _ _ _ (rk_data _ Hok) id Hi) as Hr.
  match goal with |- context [<[id := ?s]> _] => destruct (ring_ok_cong _ s Hr) as [Hr' Hin]; try done end.
  eapply (run_same r _ id); try done; simpl; rewrite ?Es; done.
Qed.

Lemma step_listen id r r' : run_ok r -> ustep (OListen id) r = Some r' -> run_ok r'.
Proof.
  intros Hok Hst. unfold ustep in Hst. destruct (holds r id) eqn:Ho; [|done]. injection Hst as <-.
  destruct (holder r id Hok Ho) as (Hi & L & Hbad & _). unfold listen. rewrite Hbad.
  pose proof (do_ring _ _ _ _ _ (rk_data _ Hok) id Hi) as Hr.
  destruct (ring_ok_cong _ (with_state Listening (TABLE (sys r) !!! id)) Hr) as [Hr' Hin]; try done.
  pose proof (eo_len _ _ _ _ (rk_ends _ Hok)) as Hlen.
  destruct (state (TABLE (sys r) !!! id)) eqn:Es; try by apply run_same_table.
  all: apply (run_same r _ id (with_state Listening (TABLE (sys r) !!! id))); try done;
    [by rewrite Es|by apply alter_upd; lia|simpl; by rewrite Es].
Qed.

(* ------------------------------------------------------------------ *)
(** ** Connecting *)

Lemma free_slot_but id t p :
  find_free_but id t = Some p -> (p < length t)%nat /\ p <> id /\ state (t !!! p) = Free.
Proof.
  intros (([i s] & Hs & [Hne Hf%is_free_spec]%andb_true_iff) & _)%position_some.
  rewrite list_lookup_imap in Hs. apply fmap_Some in Hs as (s' & Hs & [= -> ->]).
  split_and!; [by eapply lookup_lt_Some| |by rewrite (list_lookup_total_correct _ _ _ Hs)].
  intros ->. by rewrite Nat.eqb_refl in Hne.
Qed.

Lemma listener_slot name t i :
  find_listener name t = Some i -> (i < length t)%nat /\ state (t !!! i) = Listening.
Proof.
  intros ((s & Hs & [Hl%bool_decide_eq_true _]%andb_true_iff) & _)%position_some.
  split; [by eapply lookup_lt_Some|]. by rewrite (list_lookup_total_correct _ _ _ Hs).
Qed.

(** The client's end of the new connection. *)
Definition client_end p (s : UnixSocket) : UnixSocket := with_peer (Some p) (with_state Connected s).

Section connecting.
Context (t : list UnixSocket) (gs os : list nat) (ks : list SockKind) (ps : list (nat * nat)) (l : list Event).
Context (id p : nat) (k : SockKind) (creds : PeerCreds).
Hypothesis Hends : ends_ok t gs ks ps.
Hypothesis Hid : (id < MAX_UNIX_SOCKETS)%nat.
Hypothesis Hp : (p < MAX_UNIX_SOCKETS)%nat.
Hypothesis Hne : p <> id.
Hypothesis Hfree : state (t !!! p) = Free.
Hypothesis Hlive : live t id.
Hypothesis Hunc : state (t !!! id) <> Connected.
Hypothesis Hkind : kind (t !!! id) = k.

Let srv := claim Connected k (Some id) creds (t !!! p).
Let t2 := <[id := client_end p (t !!! id)]> (<[p := srv]> t).
Let gs2 := <[p := length ks]> gs.

Lemma connect_ends : ends_ok t2 gs2 (ks ++ [k]) (ps ++ [(gs2 !!! id, gs2 !!! p)]).
Proof.
  assert (live (<[p := claim Connected k None creds (t !!! p)]> t) id) as L.
  { rewrite upd_at by (rewrite (eo_len _ _ _ _ Hends); lia). by rewrite decide_False. }
  pose proof (ends_enter t gs ks ps p Connected k creds Hends Hp Hfree ltac:(done)) as H1.
  assert (<[p := claim Connected k None creds (t !!! p)]> t !!! id = t !!! id) as Eid.
  { rewrite upd_at by (rewrite (eo_len _ _ _ _ Hends); lia). by rewrite decide_False. }
  assert (<[p := claim Connected k None creds (t !!! p)]> t !!! p = claim Connected k None creds (t !!! p)) as Ep.
  { rewrite upd_at by (rewrite (eo_len _ _ _ _ Hends); lia). by rewrite decide_True. }
  assert (peer_id (t !!! id) = None) as Hpn.
  { destruct (peer_id (t !!! id)) as [q|] eqn:E; [|done].
    destruct (eo_peer _ _ _ _ Hends id q Hid E) as (_ & _ & Hc & _). done. }
  pose proof (eo_gens _ _ _ _ Hends) as Hg.
  unfold t2, gs2. rewrite <- (list_insert_insert_eq t p srv (claim Connected k None creds (t !!! p))).
  apply ends_join; try done; rewrite ?Eid, ?Ep; try done.
  - rewrite upd_at, decide_False by (done || lia). by apply (eo_single _ _ _ _ Hends).
  - rewrite upd_at, decide_True by (done || lia). intros Hin%(eo_known _ _ _ _ Hends). lia.
Qed.

Lemma connect_data : data_ok t gs ks ps l -> data_ok t2 gs2 (ks ++ [k]) (ps ++ [(gs2 !!! id, gs2 !!! p)]) l.
Proof.
  intros Hd. pose proof (eo_len _ _ _ _ Hends) as Hlen.
  apply data_links. unfold t2. rewrite <- (list_insert_insert_eq t p srv (claim Connected k None creds (t !!! p))).
  destruct (ring_ok_cong _ (client_end p (t !!! id)) (do_ring _ _ _ _ _ Hd id Hid)) as [Hr Hin]; try done.
  assert (data_ok (<[p := srv]> (<[p := claim Connected k None creds (t !!! p)]> t)) gs2 (ks ++ [k]) ps l) as Hd1.
  { pose proof (claim_ring Connected k (Some id) creds _ (do_ring _ _ _ _ _ Hd p Hp)).
    apply data_same; rewrite ?length_insert; try done.
    - by apply data_enter.
    - left. rewrite upd_at, decide_True by (done || lia). done.
    - intros _. rewrite upd_at, decide_True by (done || lia). unfold srv. split; [by rewrite !claim_inbox|done]. }
  apply data_same; rewrite ?length_insert; try done;
    rewrite !upd_at, !decide_False by (rewrite ?length_insert; done || lia); auto.
Qed.

Lemma connect_refs : refs_ok t os -> refs_ok t2 (<[p := 0%nat]> os).
Proof.
  intros Hk. pose proof (eo_len _ _ _ _ Hends) as Hlen. pose proof (ko_backlog _ _ Hk id Hid) as [Hb1 Hb2].
  unfold t2, srv. apply refs_same; rewrite ?length_insert; try done.
  1: apply refs_enter; done || lia.
  all: rewrite upd_at, decide_False by (done || lia); try done. by left.
Qed.
End connecting.

(** [connect] by a socket that is neither connected nor listening: an error
    that changes nothing, or a new endpoint for the listener it found. *)
Lemma connect_cases id addr u :
  length (TABLE u) = MAX_UNIX_SOCKETS -> (id < MAX_UNIX_SOCKETS)%nat ->
  state (TABLE u !!! id) <> Connected -> state (TABLE u !!! id) <> Listening -> live (TABLE u) id ->
  (exists e, e <> 0 /\ connect id addr u = (e, u)) \/
  exists sv p u', connect id addr u = (0, u') /\
    (sv < MAX_UNIX_SOCKETS)%nat /\ (p < MAX_UNIX_SOCKETS)%nat /\ p <> id /\ sv <> id /\ sv <> p /\
    state (TABLE u !!! sv) = Listening /\ state (TABLE u !!! p) = Free /\
    kind (TABLE u !!! id) = kind (TABLE u !!! sv) /\
    TABLE u' = <[sv := backlog_push p (TABLE u !!! sv)]> (<[id := client_end p (TABLE u !!! id)]>
      (<[p := claim Connected (kind (TABLE u !!! sv)) (Some id) (creds_of (TABLE u !!! sv)) (TABLE u !!! p)]>
        (TABLE u))).
Proof.
  intros Hlen Hi Hnc Hnl L. unfold connect. rewrite (proj2 (Nat.leb_gt _ _) Hi : bad_id id = false).
  destruct (unix_name addr) as [|x name]; [left; eexists; (split; [|reflexivity]); done|]. set (t := TABLE u) in *.
  destruct (find_listener _ t) as [sv|] eqn:Esv.
  2: { left. destruct (is_abstract _); [|destruct (existsb _ _)]; eexists; (split; [|reflexivity]); done. }
  apply listener_slot in Esv as [Hsv Hsl].
  destruct (bool_decide _) eqn:Ek; [left; eexists; (split; [|reflexivity]); done|].
  apply bool_decide_eq_false, dec_stable in Ek.
  destruct (find_free_but id t) as [p|] eqn:Ep; [|left; eexists; (split; [|reflexivity]); done].
  apply free_slot_but in Ep as (Hp & Hpi & Hpf).
  right. exists sv, p. eexists. split; [done|]. rewrite Hlen in *.
  assert (sv <> id) by congruence. assert (sv <> p) by (intros ->; congruence). split_and!; try done.
  cbn [ring_unix note_occupancy with_table TABLE].
  rewrite !alter_upd by (rewrite ?length_alter, ?length_insert; lia).
  rewrite !upd_at by (rewrite ?length_insert; lia). by rewrite !decide_False by done.
Qed.

Lemma push_same_end p s :
  (ring_ok s -> ring_ok (backlog_push p s) /\ same_data s (backlog_push p s)) /\
  state (backlog_push p s) = state s /\ kind (backlog_push p s) = kind s /\ peer_id (backlog_push p s) = peer_id s.
Proof.
  unfold backlog_push. case_match; [|done]. split_and!; try done. intros Hr. by apply (ring_ok_cong s).
Qed.

Lemma step_connect id addr r r' : run_ok r -> ustep (OConnect id addr) r = Some r' -> run_ok r'.
Proof.
  intros Hok. unfold ustep. destruct (holds r id && _) eqn:Hg; [|done].
  apply andb_true_iff in Hg as [Ho Hc].
  destruct (holder r id Hok Ho) as (Hi & L & Hbad & Hop). pose proof Hok as [He Hk Hd].
  pose proof (eo_len _ _ _ _ He) as Hlen.
  assert (state (TABLE (sys r) !!! id) <> Connected /\ state (TABLE (sys r) !!! id) <> Listening) as [Hnc Hnl].
  { unfold connectable in Hc. apply orb_true_iff in Hc as [Hc|Hc]; apply bool_decide_eq_true in Hc; by rewrite Hc. }
  destruct (connect_cases id addr (sys r) Hlen Hi Hnc Hnl L) as
    [(e & Hne & ->)|(sv & p & u' & -> & Hsv & Hp & Hpi & Hsi & Hsp & Hsl & Hpf & Ek & Ht)].
  { rewrite (proj2 (Z.eqb_neq _ _) Hne). intros [= <-]. by apply run_same_table. }
  set (t := TABLE (sys r)) in *. set (k := kind (t !!! sv)) in *. set (creds := creds_of (t !!! sv)) in *.
  set (t2 := <[id := _]> _) in Ht.
  assert (length t2 = MAX_UNIX_SOCKETS) as Hlen2 by (unfold t2; by rewrite !length_insert).
  assert (forall j, t2 !!! j = if decide (j = id) then client_end p (t !!! id) else
    if decide (j = p) then claim Connected k (Some id) creds (t !!! p) else t !!! j) as Hat.
  { intros j. unfold t2. by rewrite !upd_at by (rewrite ?length_insert; lia). }
  assert (get_peer id u' = Some p) as ->.
  { unfold get_peer. rewrite Hbad, Ht, upd_at, decide_False, Hat, decide_True by (done || lia). done. }
  assert (unix_kind p u' = k) as ->.
  { unfold unix_kind. rewrite (proj2 (Nat.leb_gt _ _) Hp : bad_id p = false), Ht, upd_at, decide_False, Hat by (done || lia).
    by rewrite decide_False, decide_True by done. }
  intros [= <-].
  pose proof (connect_ends t (gens r) (kinds r) (pairs r) id p k creds He Hi Hp Hpi Hpf L Hnc Ek) as Ce.
  pose proof (connect_data t (gens r) (kinds r) (pairs r) (log r) id p k creds He Hi Hp Hpi Hpf L Hd) as Cd.
  assert (refs_ok t2 (<[p := 0%nat]> (opens r))) as Cr by (by eapply connect_refs).
  assert (t2 !!! sv = t !!! sv) as E2 by (by rewrite Hat, !decide_False by done).
  assert (t2 !!! p = claim Connected k (Some id) creds (t !!! p)) as E2p
    by (by rewrite Hat, decide_False, decide_True by done).
  destruct (push_same_end p (t2 !!! sv)) as (Hbr & Hb1 & Hb2 & Hb3). rewrite <- E2 in Ht, Hsl.
  split; cbn [join enter with_sys sys gens opens kinds pairs log]; rewrite Ht.
  - apply ends_same; [exact Ce|done|]. split_and!; rewrite ?Hb1; done.
  - apply refs_push; try done.
    + rewrite upd_at, decide_True by (rewrite ?(ko_len _ _ Hk); done). done.
    + by rewrite E2p.
    + intros j Hj Hin. destruct (decide (j = p)) as [->|Hjp]; [rewrite E2p in Hin; by apply list.not_elem_of_nil in Hin|].
      assert (Some p ∈ pend (t !!! j)) as Hin'.
      { rewrite Hat, (decide_False (P := j = p)) in Hin by done. case_decide; subst; done. }
      destruct (ko_pend _ _ Hk j _ Hj Hin') as (? & [= <-] & _ & _ & ?). congruence.
  - pose proof (Hbr (do_ring _ _ _ _ _ Cd sv Hsv)) as [? ?].
    apply data_same; try done; [left; by rewrite Hsl].
Qed.

Lemma step_accept id r r' : run_ok r -> ustep (OAccept id) r = Some r' -> run_ok r'.
Proof.
  intros Hok. unfold ustep. destruct (holds r id) eqn:Ho; [|done].
  destruct (holder r id Hok Ho) as (Hi & L & Hbad & Hop). pose proof Hok as [He Hk Hd].
  unfold accept. rewrite Hbad. set (s := TABLE (sys r) !!! id) in *.
  destruct (negb _) eqn:El; [intros [= <-]; by apply run_same_table|].
  apply negb_false_iff, bool_decide_eq_true in El.
  destruct (Nat.eqb_spec (backlog_len s) 0) as [|Hbl]; [intros [= <-]; by apply run_same_table|].
  destruct (ko_backlog _ _ Hk id Hi) as [Hb1 Hb2]. fold s in Hb1, Hb2.
  assert (exists q rest, backlog s = q :: rest) as (q & rest & Eb).
  { destruct (backlog s) as [|q rest]; [simpl in *; lia|eauto]. }
  destruct (backlog_shift_spec (backlog_len s) (backlog s) ltac:(lia)) as [Hs1 Hs2].
  assert (pend s = q :: drop 1 (take (backlog_len s) (backlog s))) as Hpd.
  { unfold pend. rewrite Eb. by destruct (backlog_len s). }
  destruct (ko_pend _ _ Hk id q Hi) as (p & -> & Hp & Hop' & Hpc); [fold s; rewrite Hpd; by left|].
  assert (backlog s !!! 0%nat = Some p) as -> by (by rewrite Eb).
  rewrite (proj2 (Z.leb_le _ _)) by lia. rewrite Nat2Z.id. intros [= <-].
  set (s' := with_backlog _ _ s).
  destruct (ring_ok_cong s s' (do_ring _ _ _ _ _ Hd id Hi)) as [Hr Hin]; try done.
  split; cbn [with_opens with_sys sys gens opens kinds pairs log ring_unix with_table TABLE].
  - by apply ends_same.
  - rewrite alter_upd by (rewrite (ko_len _ _ Hk); done). rewrite Hop'.
    eapply refs_accept; try done; [by apply (eo_len _ _ _ _ He)|..].
    + cbn [s' with_backlog backlog]. lia.
    + cbn [s' with_backlog backlog_len]. lia.
  - apply data_same; try done; [by apply (eo_len _ _ _ _ He)|by left].
Qed.

Lemma run_join r u a b :
  run_ok r -> (a < MAX_UNIX_SOCKETS)%nat -> (b < MAX_UNIX_SOCKETS)%nat -> a <> b ->
  state (TABLE (sys r) !!! a) = Connected -> state (TABLE (sys r) !!! b) = Connected ->
  peer_id (TABLE (sys r) !!! a) = None -> peer_id (TABLE (sys r) !!! b) = None ->
  kind (TABLE (sys r) !!! a) = kind (TABLE (sys r) !!! b) ->
  gens r !!! a ∉ both (pairs r) -> gens r !!! b ∉ both (pairs r) ->
  TABLE u = <[a := with_peer (Some b) (TABLE (sys r) !!! a)]>
              (<[b := with_peer (Some a) (TABLE (sys r) !!! b)]> (TABLE (sys r))) ->
  run_ok (join a b (with_sys u r)).
Proof.
  intros [He Hk Hd] Ha Hb Hab Sa Sb Pa Pb Hkind Na Nb Ht. pose proof (eo_len _ _ _ _ He).
  set (t := TABLE (sys r)) in *.
  pose proof (ko_backlog _ _ Hk a Ha) as [? ?]. pose proof (ko_backlog _ _ Hk b Hb) as [? ?].
  destruct (ring_ok_cong _ (with_peer (Some b) (t !!! a)) (do_ring _ _ _ _ _ Hd a Ha)) as [Ra Ia]; try done.
  destruct (ring_ok_cong _ (with_peer (Some a) (t !!! b)) (do_ring _ _ _ _ _ Hd b Hb)) as [Rb Ib]; try done.
  split; cbn [join enter with_sys sys gens opens kinds pairs log]; rewrite Ht.
  - apply ends_join; try done; by rewrite ?Sa, ?Sb.
  - apply refs_same; rewrite ?length_insert; try done;
      rewrite ?upd_at by lia; rewrite ?decide_False by done; try done; [|by left].
    apply refs_same; try done. by left.
  - apply data_links. apply data_same; rewrite ?length_insert; try done.
    + apply data_same; try done. left. by rewrite Sb.
    + left. rewrite upd_at, decide_False, Sa by (done || lia). done.
    + rewrite upd_at, decide_False by (done || lia). done.
Qed.

(** [socketpair] that finds one free slot only puts it back. *)
Lemma run_unclaim r u a k creds :
  run_ok r -> (a < MAX_UNIX_SOCKETS)%nat -> state (TABLE (sys r) !!! a) = Free ->
  TABLE u = <[a := with_state Free (claim Connected k None creds (TABLE (sys r) !!! a))]> (TABLE (sys r)) ->
  run_ok (with_sys u r).
Proof.
  intros [He Hk Hd] Ha Hf Ht. pose proof (eo_len _ _ _ _ He). set (t := TABLE (sys r)) in *.
  pose proof (claim_ring Connected k None creds _ (do_ring _ _ _ _ _ Hd a Ha)) as Hr.
  pose proof (ko_backlog _ _ Hk a Ha) as [? ?].
  assert (peer_id (t !!! a) = None) as Hpn.
  { destruct (peer_id (t !!! a)) as [q|] eqn:E; [|done].
    destruct (eo_peer _ _ _ _ He a q Ha E) as (_ & _ & ? & _). congruence. }
  split; cbn [with_sys sys gens opens kinds pairs log]; rewrite Ht.
  - apply ends_same; try done. split_and!; try done; by rewrite Hf.
  - apply refs_same; try done; [congruence|simpl; lia|by right].
  - apply data_same; try done; [by right|]. by apply (ring_ok_cong _ _ Hr).
Qed.

Lemma step_pair k creds r r' : run_ok r -> ustep (OPair k creds) r = Some r' -> run_ok r'.
Proof.
  intros Hok. unfold ustep, socketpair. pose proof (eo_len _ _ _ _ (rk_ends _ Hok)) as Hlen.
  pose proof (eo_gens _ _ _ _ (rk_ends _ Hok)) as Hg.
  destruct (position is_free (TABLE (sys r))) as [a|] eqn:Ea; [|intros [= <-]; by apply run_same_table].
  apply free_slot in Ea as [Ha Hfa]. rewrite (alter_upd _ a (TABLE (sys r))) by done. rewrite Hlen in Ha.
  set (t1 := <[a := _]> (TABLE (sys r))).
  assert (length t1 = MAX_UNIX_SOCKETS) as Hlen1 by (unfold t1; by rewrite length_insert).
  assert (t1 !!! a = claim Connected k None creds (TABLE (sys r) !!! a)) as E1a
    by (unfold t1; rewrite upd_at, decide_True by (done || lia); done).
  destruct (position is_free t1) as [b|] eqn:Eb.
  2: { intros [= <-]. apply (run_unclaim r _ a k creds); try done. cbn [with_table TABLE].
    rewrite alter_upd, E1a by lia. apply list_insert_insert_eq. }
  apply free_slot in Eb as [Hb Hfb]. rewrite Hlen1 in Hb.
  assert (a <> b) as Hab by (intros ->; by rewrite E1a in Hfb).
  pose proof (run_enter r (with_table t1 (sys r)) a Connected k creds 1 Hok Ha Hfa ltac:(done) ltac:(lia) eq_refl) as Hok1.
  rewrite (alter_upd _ b t1) by lia. set (t2 := <[b := _]> t1).
  assert (length t2 = MAX_UNIX_SOCKETS) as Hlen2 by (unfold t2; by rewrite length_insert).
  assert (t2 !!! b = claim Connected k None creds (t1 !!! b)) as E2b
    by (unfold t2; by rewrite upd_at, decide_True by (done || lia)).
  assert (t2 !!! a = t1 !!! a) as E2a by (unfold t2; by rewrite upd_at, decide_False by (done || lia)).
  pose proof (run_enter _ (with_table t2 (sys r)) b Connected k creds 1 Hok1 Hb Hfb ltac:(done) ltac:(lia) eq_refl) as Hok2.
  intros [= <-]. eapply (run_join _ _ a b Hok2 Ha Hb Hab);
    cbn [enter with_sys sys gens opens kinds pairs log with_table TABLE note_occupancy];
    rewrite ?E2b, ?E2a, ?E1a; try done; rewrite ?upd_at by (rewrite ?length_insert; lia).
  - rewrite decide_False, decide_True by done. intros F%(eo_known _ _ _ _ (rk_ends _ Hok)). lia.
  - rewrite decide_True by done. intros F%(eo_known _ _ _ _ (rk_ends _ Hok)). rewrite length_app in F. lia.
  - rewrite (alter_upd _ a t2), alter_upd by (rewrite ?length_insert; lia).
    rewrite (upd_at t2), decide_False, E2b, E2a, E1a by (done || lia). by apply list_insert_insert_ne.
Qed.

(* ------------------------------------------------------------------ *)
(** ** Data, half-close and close *)

(** Everything but the ring and the half-close flags is as it was. *)
Definition same_ctl (s s' : UnixSocket) : Prop :=
  state s' = state s /\ kind s' = kind s /\ peer_id s' = peer_id s /\ ref_count s' = ref_count s /\
  backlog s' = backlog s /\ backlog_len s' = backlog_len s.

Lemma ctl_ends t gs ks ps i s' :
  ends_ok t gs ks ps -> (i < MAX_UNIX_SOCKETS)%nat -> same_ctl (t !!! i) s' -> ends_ok (<[i := s']> t) gs ks ps.
Proof.
  intros He Hi (E1 & E2 & E3 & _). apply ends_same; [done|done|]. split_and!; rewrite ?E1; done.
Qed.

Lemma ctl_refs t os i s' :
  refs_ok t os -> length t = MAX_UNIX_SOCKETS -> (i < MAX_UNIX_SOCKETS)%nat -> same_ctl (t !!! i) s' ->
  refs_ok (<[i := s']> t) os.
Proof.
  intros Hk Hlen Hi (E1 & E2 & E3 & E4 & E5 & E6). pose proof (ko_backlog _ _ Hk i Hi) as [? ?].
  apply refs_same; try done; rewrite ?E1, ?E5, ?E6; try done. left. unfold pend. by rewrite E5, E6.
Qed.

Lemma run_said r u i s' e :
  run_ok r -> (i < MAX_UNIX_SOCKETS)%nat -> TABLE u = <[i := s']> (TABLE (sys r)) ->
  same_ctl (TABLE (sys r) !!! i) s' ->
  data_ok (<[i := s']> (TABLE (sys r))) (gens r) (kinds r) (pairs r) (log r ++ [e]) ->
  run_ok (say e (with_sys u r)).
Proof.
  intros [He Hk Hd] Hi Hu Hc Hd'. pose proof (eo_len _ _ _ _ He).
  split; cbn [say with_sys sys gens opens kinds pairs log]; rewrite Hu;
    [by apply ctl_ends|by apply ctl_refs|done].
Qed.

(** A change of a live slot that leaves its inbox alone. *)
Lemma run_quiet r u i s' :
  run_ok r -> (i < MAX_UNIX_SOCKETS)%nat -> live (TABLE (sys r)) i -> TABLE u = <[i := s']> (TABLE (sys r)) ->
  same_ctl (TABLE (sys r) !!! i) s' -> ring_ok s' -> same_data (TABLE (sys r) !!! i) s' ->
  run_ok (with_sys u r).
Proof.
  intros [He Hk Hd] Hi L Hu Hc Hr Hin. pose proof (eo_len _ _ _ _ He).
  split; cbn [with_sys sys gens opens kinds pairs log]; rewrite Hu;
    [by apply ctl_ends|by apply ctl_refs|apply data_same; try done; by left].
Qed.

Lemma push_ring data s n s' :
  ring_ok s -> kind s = Stream -> push data s = (n, s') ->
  n = Nat.min (length data) (recv_space s) /\ ring_ok s' /\ contents s' = contents s ++ take n data /\ same_ctl s s' /\
  recv_pushed s' = add64 (recv_pushed s) (Z.of_nat n).
Proof.
  intros Hok Hk E. pose proof (push_spec data s (ring_ok_bytes _ Hok)) as Hp. rewrite E in Hp.
  destruct Hp as (Hn & [B1 B2 B3 B4 B5] & Hc & _ & Es). destruct Hok.
  split_and!; [done| |done|by rewrite Es..].
  split; try done; rewrite Es; try done. cbn [with_pushed kind]. congruence.
Qed.

Lemma pop_ring len s out s' :
  ring_ok s -> kind s = Stream -> pop len s = (out, s') ->
  out = take len (contents s) /\ ring_ok s' /\ contents s' = drop len (contents s) /\ same_ctl s s' /\
  recv_pushed s' = recv_pushed s.
Proof.
  intros Hok Hk E. pose proof (pop_spec len s (ring_ok_bytes _ Hok)) as Hp. rewrite E in Hp.
  destruct Hp as (Hn & [B1 B2 B3 B4 B5] & Hc & Es). destruct Hok.
  split_and!; [done| |done|by rewrite Es..].
  split; try done; rewrite Es; try done. cbn [with_popped kind]. congruence.
Qed.

Lemma paired_true id s : state s = Connected -> peer_id s = Some id -> paired_with id s = true.
Proof. intros E1 E2. unfold paired_with, is_connected. by rewrite E1, E2, !bool_decide_eq_true_2. Qed.

Lemma step_write id data r r' : run_ok r -> ustep (OWrite id data) r = Some r' -> run_ok r'.
Proof.
  intros Hok. unfold ustep. destruct (holds r id) eqn:Ho; [|done].
  destruct (holder r id Hok Ho) as (Hi & L & Hbad & _). pose proof Hok as [He Hk Hd].
  unfold write, get_peer. rewrite Hbad. set (t := TABLE (sys r)) in *.
  destruct (negb _); [case_match; intros [= <-]; by apply run_same_table|].
  destruct (shut_wr _); [case_match; intros [= <-]; by apply run_same_table|].
  destruct (peer_closed _); [case_match; intros [= <-]; by apply run_same_table|].
  destruct (peer_id (t !!! id)) as [p|] eqn:Ep; [|intros [= <-]; by apply run_same_table].
  destruct (eo_peer _ _ _ _ He id p Hi Ep) as (Hp & Hne & Sc & Pc & Pp & Hkind & Hlink).
  rewrite (proj2 (Nat.leb_gt _ _) Hp : bad_id p = false), (paired_true id (t !!! p) Pc Pp), <- Hkind. cbn [negb].
  assert (live t p) as Lp by (by rewrite Pc). pose proof (do_ring _ _ _ _ _ Hd p Hp) as Hr.
  destruct (kind (t !!! p)) eqn:Ek.
  - destruct (push data (t !!! p)) as [n s'] eqn:E.
    destruct (push_ring _ _ _ _ Hr Ek E) as (Hn & Hr' & Hc & Hctl & Hpu).
    assert (inbox (t !!! p) = [contents (t !!! p)] /\ inbox s' = [contents s']) as [I1 I2].
    { unfold inbox. destruct Hctl as (_ & -> & _). by rewrite Ek. }
    destruct (Nat.eqb_spec n 0) as [->|Hn0]; intros [= <-].
    + apply (run_quiet r _ p s'); try done. fold t. split.
      * rewrite I1, I2, Hc. simpl. by rewrite app_nil_r.
      * rewrite Hpu, (ro_count _ Hr). unfold add64, wrap. by rewrite Z.add_0_r, Zmod_mod.
    + rewrite (proj2 (Z.leb_le _ _)) by lia. rewrite Nat2Z.id. apply (run_said r _ p s'); try done.
      apply data_sent; try done; [rewrite Hpu, length_take; do 2 f_equal; lia|]. fold t. rewrite I1, I2, Ek, Hc. simpl. by rewrite !app_nil_r.
  - destruct (Nat.leb_spec (SEQ_QUEUE_CAP - 1) (seq_queued (t !!! p))); [intros [= <-]; by apply run_same_table|].
    destruct (Nat.ltb_spec (recv_space (t !!! p)) (length data)); [intros [= <-]; by apply run_same_table|].
    pose proof (enqueue_msg_spec data (t !!! p) Hr Ek ltac:(lia) ltac:(lia)) as Hq.
    destruct (push data (t !!! p)) as [n s'] eqn:E. destruct Hq as (-> & Hr' & Hm & _ & Es).
    intros [= <-]. rewrite (proj2 (Z.leb_le _ _)) by lia. rewrite Nat2Z.id, take_ge by lia.
    apply (run_said r _ p (seq_note (length data) s')); try done; [by rewrite Es|].
    apply data_sent; try done; [by rewrite Es|]. fold t. unfold inbox. rewrite Es at 1. cbn [with_seq_push with_pushed kind].
    rewrite Ek. exact Hm.
Qed.

Lemma step_read id len r r' : run_ok r -> ustep (ORead id len) r = Some r' -> run_ok r'.
Proof.
  intros Hok. unfold ustep. destruct (holds r id) eqn:Ho; [|done].
  destruct (holder r id Hok Ho) as (Hi & L & Hbad & _). pose proof Hok as [He Hk Hd].
  unfold read_msg, has_data. rewrite Hbad. set (t := TABLE (sys r)) in *.
  rewrite (proj2 (is_free_false _) L). pose proof (do_ring _ _ _ _ _ Hd id Hi) as Hr.
  destruct (shut_rd (t !!! id)); [rewrite andb_false_r; intros [= <-]; by apply run_same_table|].
  rewrite andb_true_r. destruct (kind (t !!! id)) eqn:Ek.
  - destruct (Nat.eqb_spec (recv_available (t !!! id)) 0) as [Ha|Ha].
    { rewrite Ha. destruct (rx_eof _); intros [= <-]; by apply run_same_table. }
    rewrite (proj2 (Nat.ltb_lt _ _)) by lia. destruct (pop len (t !!! id)) as [out s'] eqn:E.
    destruct (pop_ring _ _ _ _ Hr Ek E) as (Hout & Hr' & Hc & Hctl & Hpu). intros [= <-].
    apply (run_said r _ id s'); try done; [by case_match|].
    apply data_got; try done. fold t. unfold inbox. rewrite (proj1 (proj2 Hctl)), Ek. simpl.
    by rewrite !app_nil_r, Hout, Hc, take_drop.
  - destruct (Nat.eqb_spec (seq_head (t !!! id)) (seq_tail (t !!! id))) as [Ha|Ha].
    { cbn [negb]. destruct (rx_eof _); intros [= <-]; by apply run_same_table. }
    cbn [negb]. destruct (dequeue_spec len (t !!! id) Hr Ek Ha) as (m & rest & Hm & _ & Hq).
    destruct (dequeue_msg len (t !!! id)) as [[out d] s']. destruct Hq as (Hout & Hlen & Hr' & Hm' & Es).
    intros [= <-]. apply (run_said r _ id s'); try done; [by case_match|by rewrite Es|].
    apply data_got; try done; [by rewrite Es|]. fold t. unfold inbox. rewrite Es at 1. cbn [with_popped with_seq_head kind]. rewrite Ek.
    exists m. rewrite Hm, <- Hm'. split; [done|]. split; [|done]. simpl.
    rewrite Hout, length_take.
    destruct (decide (len <= length m)%nat); [by rewrite Nat.min_l|]. rewrite Nat.min_r, !take_ge by lia. done.
Qed.

Lemma step_shutdown id rd wr r r' : run_ok r -> ustep (OShutdown id rd wr) r = Some r' -> run_ok r'.
Proof.
  intros Hok. unfold ustep. destruct (holds r id) eqn:Ho; [|done]. intros [= <-].
  destruct (holder r id Hok Ho) as (Hi & L & Hbad & _). pose proof Hok as [He Hk Hd].
  unfold shutdown. rewrite Hbad. set (t := TABLE (sys r)) in *.
  destruct (state (t !!! id)) eqn:Es; try by apply run_same_table.
  set (s1 := with_shut _ _ (t !!! id)). set (t1 := <[id := s1]> t).
  destruct (ring_ok_cong _ s1 (do_ring _ _ _ _ _ Hd id Hi)) as [R1 I1]; try done.
  assert (run_ok (with_sys (with_table t1 (sys r)) r)) as Hok1.
  { apply (run_quiet r _ id s1); try done. fold t. by rewrite Es. }
  destruct (peer_id (t !!! id)) as [p|] eqn:Ep; cbn [snd]; [|by apply (run_same_table _ _ Hok1)].
  destruct (wr && negb (bad_id p) && paired_with id (t1 !!! p)) eqn:Eb; [|by apply (run_same_table _ _ Hok1)].
  apply andb_true_iff in Eb as [Eb [Hc%bool_decide_eq_true _]%andb_true_iff].
  destruct (eo_peer _ _ _ _ He id p Hi Ep) as (Hp & _).
  destruct (ring_ok_cong _ (with_rx_eof true (t1 !!! p)) (do_ring _ _ _ _ _ (rk_data _ Hok1) p Hp)) as [R2 I2]; try done.
  apply (run_quiet (with_sys (with_table t1 (sys r)) r)
    (ring_unix BellUnixShutdown (with_table (alter (with_rx_eof true) p t1) (sys r))) p (with_rx_eof true (t1 !!! p)));
    try done; cbn [with_sys sys with_table TABLE]; [by rewrite Hc|].
  apply alter_upd. unfold t1. rewrite length_insert. by rewrite (eo_len _ _ _ _ He).
Qed.

Lemma step_dup id r r' : run_ok r -> ustep (ODup id) r = Some r' -> run_ok r'.
Proof.
  intros Hok. unfold ustep. destruct (holds r id && _) eqn:Hg; [|done]. intros [= <-].
  apply andb_true_iff in Hg as [Ho Hmax%Z.ltb_lt].
  destruct (holder r id Hok Ho) as (Hi & L & Hbad & Hop). destruct Hok as [He Hk Hd].
  pose proof (eo_len _ _ _ _ He) as Hlen. pose proof (ko_ref _ _ Hk id Hi) as Href.
  pose proof (ko_backlog _ _ Hk id Hi) as [? ?]. set (t := TABLE (sys r)) in *.
  unfold inc_ref. rewrite Hbad. fold t. rewrite (proj2 (is_free_false _) L) in *.
  set (s' := with_ref_count (sat_add32 (ref_count (t !!! id)) 1) (t !!! id)).
  destruct (ring_ok_cong _ s' (do_ring _ _ _ _ _ Hd id Hi)) as [R1 I1]; try done.
  split; cbn [with_opens with_sys sys gens opens kinds pairs log with_table TABLE];
    rewrite (alter_upd _ id t) by lia.
  - by apply ends_same.
  - rewrite alter_upd by (rewrite (ko_len _ _ Hk); done). apply refs_set; try done; [|by left].
    rewrite (proj2 (is_free_false _)) by done. cbn [s' with_ref_count ref_count]. unfold sat_add32. lia.
  - apply data_same; try done. by left.
Qed.

(** Slot [i] is freed and whoever was paired with it is cut loose. *)
Lemma ends_drop t t' gs ks ps i :
  ends_ok t gs ks ps -> length t' = MAX_UNIX_SOCKETS ->
  state (t' !!! i) = Free -> peer_id (t' !!! i) = None ->
  (forall j, j <> i -> state (t' !!! j) = state (t !!! j) /\ kind (t' !!! j) = kind (t !!! j) /\
    peer_id (t' !!! j) = if decide (peer_id (t !!! j) = Some i) then None else peer_id (t !!! j)) ->
  ends_ok t' gs ks ps.
Proof.
  intros [] Hlen Hf Hn Hother.
  assert (forall j, live t' j -> j <> i /\ live t j) as Hl.
  { intros j L. assert (j <> i) as Hj by congruence. destruct (Hother j Hj) as (E & _). split; congruence. }
  split; try done.
  - intros j Hj [Hji L]%Hl. destruct (Hother j Hji) as (_ & -> & _). by apply eo_kind0.
  - intros j j' Hj Hj' [_ L]%Hl [_ L']%Hl. by apply eo_inj0.
  - intros j p Hj E. assert (j <> i) as Hji by congruence. destruct (Hother j Hji) as (S1 & K1 & P1).
    rewrite P1 in E. case_decide as D; [done|]. destruct (eo_peer0 j p Hj E) as (Q1 & Q2 & Q3 & Q4 & Q5 & Q6 & Q7).
    assert (p <> i) as Hpi by congruence. destruct (Hother p Hpi) as (S2 & K2 & P2).
    rewrite decide_False in P2 by congruence. split_and!; congruence.
  - intros j Hj L C. destruct (Hl j L) as [Hji L']. destruct (Hother j Hji) as (E & _).
    apply eo_single0; congruence.
Qed.

Lemma step_close_last t gs os ks ps l id :
  ends_ok t gs ks ps -> refs_ok t os -> data_ok t gs ks ps l -> (id < MAX_UNIX_SOCKETS)%nat ->
  live t id -> (0 < os !!! id)%nat -> ref_count (t !!! id) <= 1 ->
  let t' := (close_slot id t).1.1 in
  ends_ok t' gs ks ps /\ refs_ok t' (<[id := 0%nat]> os) /\ data_ok t' gs ks ps l.
Proof.
  intros He Hk Hd Hi L Ho Hrc t'. subst t'. pose proof (eo_len _ _ _ _ He) as Hlen.
  pose proof (ko_backlog _ _ Hk id Hi) as [? ?].
  unfold close_slot. rewrite (proj2 (Nat.leb_gt _ _) Hi : bad_id id = false), (proj2 (is_free_false _) L).
  rewrite (proj2 (Z.ltb_ge _ _)) by done. set (t1 := <[id := reset (t !!! id)]> t).
  assert (length t1 = MAX_UNIX_SOCKETS) as Hlen1 by (unfold t1; by rewrite length_insert).
  assert (forall j, j <> id -> t1 !!! j = t !!! j) as E1.
  { intros j Hj. unfold t1. by rewrite upd_at, decide_False by (done || lia). }
  assert (t1 !!! id = reset (t !!! id)) as E1i by (unfold t1; by rewrite upd_at, decide_True by (done || lia)).
  assert (ring_ok (reset (t !!! id))) as Hr.
  { pose proof (claim_ring Free Stream None (mkPeerCreds 0 0 0) _ (do_ring _ _ _ _ _ Hd id Hi)) as Hr.
    by apply (ring_ok_cong _ _ Hr). }
  assert (refs_ok t1 (<[id := 0%nat]> os)) as Hk1 by (apply refs_set; try done; [simpl; lia|by right]).
  assert (data_ok t1 gs ks ps l) as Hd1 by (apply data_same; try done; by right).
  destruct (peer_id (t !!! id)) as [p|] eqn:Ep; cbn [fst].
  - destruct (eo_peer _ _ _ _ He id p Hi Ep) as (Hp & Hne & _ & Pc & Pp & _).
    rewrite (proj2 (Nat.leb_gt _ _) Hp : bad_id p = false), E1, (paired_true id (t !!! p) Pc Pp) by done.
    cbn [negb andb fst]. rewrite alter_upd, E1 by (done || lia). set (t2 := <[p := _]> t1).
    assert (forall j, t2 !!! j = if decide (j = p) then hang_up (t !!! p) else t1 !!! j) as E2
      by (intros j; unfold t2; by rewrite upd_at by lia).
    destruct (ring_ok_cong _ (hang_up (t !!! p)) (do_ring _ _ _ _ _ Hd p Hp)) as [R I]; try done.
    pose proof (ko_backlog _ _ Hk p Hp) as [? ?]. split_and!.
    + apply (ends_drop t _ _ _ _ id He); [unfold t2; by rewrite length_insert|by rewrite E2, decide_False, E1i by done..|].
      intros j Hj. rewrite E2. case_decide as D; [subst j; by rewrite Pp, decide_True by done|].
      rewrite E1 by done. split_and!; try done. rewrite decide_False; [done|]. intros Ej.
      destruct (decide (j < MAX_UNIX_SOCKETS)%nat) as [Hjl|Hjl].
      * destruct (eo_peer _ _ _ _ He j id Hjl Ej) as (_ & _ & _ & _ & Ej' & _). congruence.
      * rewrite list_lookup_total_alt, lookup_ge_None_2 in Ej by lia. done.
    + apply refs_same; rewrite ?E1 by done; try done. by left.
    + apply data_same; rewrite ?E1 by done; try done. left. by rewrite Pc.
  - split_and!; try done. apply (ends_drop t _ _ _ _ id He); [done|by rewrite E1i..|].
    intros j Hj. rewrite E1 by done. split_and!; try done. rewrite decide_False; [done|]. intros Ej.
    destruct (decide (j < MAX_UNIX_SOCKETS)%nat) as [Hjl|Hjl].
    + destruct (eo_peer _ _ _ _ He j id Hjl Ej) as (_ & _ & _ & _ & Ej' & _). congruence.
    + rewrite list_lookup_total_alt, lookup_ge_None_2 in Ej by lia. done.
Qed.

Lemma close_unix_table id u : TABLE (close_unix id u) = (close_slot id (TABLE u)).1.1.
Proof. unfold close_unix. destruct (close_slot id (TABLE u)) as [[t b] []]; done. Qed.

Lemma step_close id r r' : run_ok r -> ustep (OClose id) r = Some r' -> run_ok r'.
Proof.
  intros Hok. unfold ustep. destruct (holds r id) eqn:Ho; [|done]. intros [= <-].
  destruct (holder r id Hok Ho) as (Hi & L & Hbad & Hop). destruct Hok as [He Hk Hd].
  pose proof (eo_len _ _ _ _ He) as Hlen. pose proof (ko_ref _ _ Hk id Hi) as Href.
  pose proof (ko_backlog _ _ Hk id Hi) as [? ?]. rewrite (proj2 (is_free_false _) L) in Href.
  destruct (decide (1 < ref_count (TABLE (sys r) !!! id))) as [Hr1|Hr1].
  - set (s' := with_ref_count (ref_count (TABLE (sys r) !!! id) - 1) (TABLE (sys r) !!! id)).
    destruct (ring_ok_cong _ s' (do_ring _ _ _ _ _ Hd id Hi)) as [R1 I1]; try done.
    assert (TABLE (close_unix id (sys r)) = <[id := s']> (TABLE (sys r))) as Et.
    { rewrite close_unix_table. unfold close_slot. rewrite Hbad, (proj2 (is_free_false _) L).
      by rewrite (proj2 (Z.ltb_lt _ _)). }
    split; cbn [with_opens with_sys sys gens opens kinds pairs log]; rewrite Et.
    + by apply ends_same.
    + rewrite alter_upd by (rewrite (ko_len _ _ Hk); done). apply refs_set; try done; [|by left].
      rewrite (proj2 (is_free_false _)) by done. cbn [s' with_ref_count ref_count]. lia.
    + apply data_same; try done. by left.
  - destruct (step_close_last _ _ _ _ _ _ id He Hk Hd Hi L Hop ltac:(lia)) as (C1 & C2 & C3).
    assert (opens r !!! id = 1)%nat as E1 by lia.
    split; cbn [with_opens with_sys sys gens opens kinds pairs log]; rewrite close_unix_table; try done.
    rewrite alter_upd by (rewrite (ko_len _ _ Hk); done). by rewrite E1.
Qed.

Lemma unix_step_ok o r r' : run_ok r -> ustep o r = Some r' -> run_ok r'.
Proof.
  destruct o; [apply step_create|apply step_bind|apply step_listen|apply step_connect|apply step_accept|
    apply step_pair|apply step_write|apply step_read|apply step_shutdown|apply step_dup|apply step_close].
Qed.

Lemma replicate_total `{Inhabited A} n (x : A) i : (i < n)%nat -> replicate n x !!! i = x.
Proof. intros Hi. by apply lookup_total_replicate_2. Qed.

Lemma zeroed_ring : ring_ok zeroed.
Proof.
  pose proof recv_cap_ok. pose proof seq_cap_ok.
  split; cbn [zeroed recv_buf recv_head recv_tail seq_lens seq_head seq_tail recv_pushed recv_popped kind];
    rewrite ?length_replicate; try done; try lia.
  assert (recv_available zeroed = 0)%nat as -> by (apply (rcount_zero RECV_BUF_CAP 0 0); lia). done.
Qed.

Lemma start_ok w : run_ok (start w).
Proof.
  assert (forall i, (i < MAX_UNIX_SOCKETS)%nat -> replicate MAX_UNIX_SOCKETS zeroed !!! i = zeroed) as E
    by (intros; by apply replicate_total).
  split; cbn [start sys gens opens kinds pairs log unix_boot TABLE].
  - split; try done; rewrite ?length_replicate; try done; try (intros i j Hi Hj; rewrite ?E by done; done);
      try (intros i Hi; rewrite ?E by done; done); [|intros g []%list.not_elem_of_nil|apply base.NoDup_nil_2].
    intros i p Hi. rewrite E by done. done.
  - split; rewrite ?length_replicate; try done.
    + intros i Hi. rewrite E by done. cbn. by apply replicate_total.
    + intros i Hi. rewrite E by done. cbn. rewrite length_replicate. lia.
    + intros i q Hi. rewrite E by done. by intros ?%list.not_elem_of_nil.
    + intros i j a b q Hi Hj. rewrite E by done. done.
  - split; [| |done|done]; intros i Hi; rewrite E by done; [apply zeroed_ring|done].
Qed.

Lemma run_reach os r r' : run_ok r -> urun os r = Some r' -> run_ok r'.
Proof.
  revert r. induction os as [|o os IH]; intros r Hok; simpl; [by intros [= <-]|].
  intros (r1 & H1 & H2)%bind_Some. eapply IH; [|done]. by eapply unix_step_ok.
Qed.
End runs.
