(* ===== verification/UnixChan.v ===== *)
(** * Local sockets: the theorems of the runs, and runs of note

    What the invariant of UnixRun.v says about a run: the order of the data,
    the lifetime of endpoints, the readiness predicates; and small runs that
    show where the code departs from its documentation. *)

From S2P Require Import Prelude WaitList Pipe Unix UnixRun.

Section theorems.
Context `{UnixSizes}.
Implicit Types (r : Run) (i p g : nat).

(* ------------------------------------------------------------------ *)
(** ** Lifetime of an endpoint *)

Lemma step_gens o r r' i :
  run_ok r -> ustep o r = Some r' -> (i < MAX_UNIX_SOCKETS)%nat -> live (TABLE (sys r)) i ->
  gens r' !!! i = gens r !!! i.
Proof.
  intros Hok Hst Hi L. pose proof (eo_len _ _ _ _ (rk_ends _ Hok)) as Hlen.
  pose proof (eo_gens _ _ _ _ (rk_ends _ Hok)) as Hg.
  destruct o; unfold ustep in Hst; try (case_match; [|done]); try (by injection Hst as <-).
  - unfold create in Hst. destruct (position is_free _) as [a|] eqn:E; injection Hst as <-; [|done].
    apply free_slot in E as [Ha Hf]. cbn [enter with_sys gens]. rewrite upd_at, decide_False by (congruence || lia). done.
  - match goal with Hh : _ && _ = true |- _ => apply andb_true_iff in Hh as [Ho Hc] end.
    destruct (holder r id Hok Ho) as (Hid & Lid & Hbad & _).
    assert (state (TABLE (sys r) !!! id) <> Connected /\ state (TABLE (sys r) !!! id) <> Listening) as [Hnc Hnl].
    { unfold connectable in Hc. apply orb_true_iff in Hc as [Hc|Hc]; apply bool_decide_eq_true in Hc; by rewrite Hc. }
    destruct (connect_cases id addr (sys r) Hlen Hid Hnc Hnl Lid) as
      [(e & Hne & E)|(sv & p & u' & E & Hsv & Hp & Hpi & Hsi & Hsp & Hsl & Hpf & Ek & Ht)]; rewrite E in Hst.
    { rewrite (proj2 (Z.eqb_neq _ _) Hne) in Hst. by injection Hst as <-. }
    assert (get_peer id u' = Some p) as Eg.
    { unfold get_peer. rewrite Hbad, Ht, upd_at, decide_False by (done || rewrite !length_insert; lia).
      rewrite upd_at, decide_True by (done || rewrite !length_insert; lia). done. }
    rewrite Eg in Hst. cbn [Z.eqb] in Hst. injection Hst as <-. cbn [join enter with_sys gens].
    rewrite upd_at, decide_False by (congruence || lia). done.
  - destruct (accept id (sys r)) as [res u]. injection Hst as <-. by case_match.
  - unfold socketpair in Hst. destruct (position is_free (TABLE (sys r))) as [a|] eqn:Ea; [|by injection Hst as <-].
    apply free_slot in Ea as [Ha Hfa]. rewrite (alter_upd _ a (TABLE (sys r))) in Hst by done.
    destruct (position is_free (<[a := _]> _)) as [b|] eqn:Eb; [|by injection Hst as <-].
    apply free_slot in Eb as [Hb Hfb]. rewrite length_insert in Hb.
    rewrite upd_at in Hfb by done. destruct (decide (b = a)) as [Eba|Hba]; [done|]. injection Hst as <-.
    cbn [join enter with_sys gens]. rewrite !upd_at, !decide_False by (rewrite ?length_insert; congruence || lia). done.
  - destruct (write id data (sys r)) as [n u]. injection Hst as <-. by repeat case_match.
  - destruct (read_msg id len (sys r)) as [res u]. injection Hst as <-. by repeat case_match.
Qed.

(** What the last [close] of a descriptor does. *)
Lemma close_last_effect id r r' :
  run_ok r -> ustep (OClose id) r = Some r' -> holds r' id = false ->
  state (TABLE (sys r') !!! id) = Free /\
  forall p, peer_id (TABLE (sys r) !!! id) = Some p ->
    TABLE (sys r') !!! p = hang_up (TABLE (sys r) !!! p).
Proof.
  intros Hok Hst Hno. pose proof (step_close _ _ _ Hok Hst) as Hok'. unfold ustep in Hst.
  destruct (holds r id) eqn:Ho; [|done]. injection Hst as <-.
  destruct (holder r id Hok Ho) as (Hi & L & Hbad & Hop). destruct Hok as [He Hk Hd].
  pose proof (eo_len _ _ _ _ He) as Hlen. pose proof (ko_ref _ _ Hk id Hi) as Href.
  rewrite (proj2 (is_free_false _) L) in Href. unfold holds in Hno.
  cbn [with_opens with_sys opens sys] in *. rewrite alter_upd, upd_at, decide_True in Hno
    by (done || rewrite (ko_len _ _ Hk); done). apply Nat.ltb_ge in Hno.
  rewrite close_unix_table. unfold close_slot. rewrite Hbad, (proj2 (is_free_false _) L).
  rewrite (proj2 (Z.ltb_ge _ _)) by lia.
  destruct (peer_id (TABLE (sys r) !!! id)) as [p|] eqn:Ep.
  - destruct (eo_peer _ _ _ _ He id p Hi Ep) as (Hp & Hne & _ & Pc & Pp & _).
    rewrite (proj2 (Nat.leb_gt _ _) Hp : bad_id p = false).
    rewrite (upd_at _ id p), decide_False, (paired_true id _ Pc Pp) by (done || lia). cbn [negb andb fst].
    rewrite alter_upd by (rewrite length_insert; lia).
    rewrite !upd_at, (decide_False (P := p = id)), (decide_True (P := id = id)), (decide_False (P := id = p))
      by (rewrite ?length_insert; done || lia).
    split; [done|]. intros p' [= <-]. by rewrite upd_at, decide_True by (rewrite ?length_insert; done || lia).
  - cbn [fst]. by rewrite upd_at, decide_True by (done || lia).
Qed.

(** C14: any sequence of socket calls, each by a caller that holds a
    descriptor of the socket it names, connecting only sockets that are
    neither connected nor listening and duplicating only sockets with fewer
    than u32::MAX descriptors; slots of the table may be reused any number of
    times. An endpoint is connected to at most one other endpoint in its life;
    every write that is accepted goes to the endpoint the writer is connected
    to; and what an endpoint has read is a beginning of what was sent to it,
    in order, the remainder being exactly what waits in its socket while it
    has one. For a stream this is a statement about bytes, for SEQPACKET about
    whole messages, of which a short read returns a prefix and counts the
    rest. The code itself does not refuse the connects left out: a socket that
    connects again mixes streams ([reconnect_mixes_streams]) and takes another
    peer's credentials ([reconnect_forges_credentials]). *)
Theorem unix_channel_fifo (w : Wake) (os : list Op) (r : Run) :
  urun os (start w) = Some r ->
  NoDup (both (pairs r)) /\
  (forall x g d, ESent x g d ∈ log r -> linked (pairs r) x g) /\
  (forall g k, kinds r !! g = Some k ->
    exists rest, in_order k (sent_to g (log r)) (got_by g (log r)) rest /\
      forall i, (i < MAX_UNIX_SOCKETS)%nat -> state (TABLE (sys r) !!! i) <> Free -> gens r !!! i = g ->
        rest = inbox (TABLE (sys r) !!! i)).
Proof.
  intros Hrun. destruct (run_reach _ _ _ (start_ok w) Hrun) as [He _ [_ _ Hev Hord]].
  split_and!; [by apply (eo_once _ _ _ _ He)| |done].
  intros x g d Hin. by apply (proj1 (list.Forall_forall _ _) Hev) in Hin as [_ ?].
Qed.

(** C15: after any sequence of socket calls, each by a caller that holds a
    descriptor of the socket it names, connecting only sockets that are
    neither connected nor listening (connect itself does not refuse the
    others, see [reconnect_mixes_streams]) and duplicating only sockets with
    fewer than u32::MAX descriptors: a slot with a descriptor open on it is in
    use, counts exactly its descriptors, and keeps its endpoint whatever such
    call is made next, by anyone; closing the last descriptor frees it and
    leaves the other end, if there is one, with what it had not read yet, at
    end of file and cut off from the freed slot. A close is one step here. *)
Theorem unix_endpoint_lifetime (w : Wake) (os : list Op) (r : Run) (i : nat) :
  urun os (start w) = Some r -> holds r i = true ->
  state (TABLE (sys r) !!! i) <> Free /\
  ref_count (TABLE (sys r) !!! i) = Z.of_nat (opens r !!! i) /\
  (forall o r', ustep o r = Some r' -> gens r' !!! i = gens r !!! i) /\
  (forall r', ustep (OClose i) r = Some r' -> holds r' i = false ->
    state (TABLE (sys r') !!! i) = Free /\
    forall p, peer_id (TABLE (sys r) !!! i) = Some p ->
      TABLE (sys r') !!! p = hang_up (TABLE (sys r) !!! p)).
Proof.
  intros Hrun Ho. pose proof (run_reach _ _ _ (start_ok w) Hrun) as Hok.
  destruct (holder r i Hok Ho) as (Hi & L & _ & Hop). split_and!; [done| |..].
  - pose proof (ko_ref _ _ (rk_refs _ Hok) i Hi) as Hr. rewrite (proj2 (is_free_false _) L) in Hr. lia.
  - intros o r' Hst. by apply (step_gens o).
  - intros r' Hst Hno. by apply close_last_effect.
Qed.

(* ------------------------------------------------------------------ *)
(** ** Readiness *)

Lemma write_blocks r id p data :
  run_ok r -> (id < MAX_UNIX_SOCKETS)%nat -> peer_id (TABLE (sys r) !!! id) = Some p -> data <> [] ->
  shut_wr (TABLE (sys r) !!! id) = false -> peer_closed (TABLE (sys r) !!! id) = false ->
  (write id data (sys r)).1 = -11 <->
  recv_space (TABLE (sys r) !!! p) = 0%nat \/
  kind (TABLE (sys r) !!! id) = SeqPacket /\
    ((SEQ_QUEUE_CAP - 1 <= seq_queued (TABLE (sys r) !!! p))%nat \/
     (recv_space (TABLE (sys r) !!! p) < length data)%nat).
Proof.
  intros [He Hk Hd] Hi Ep Hdata Hw Hc. destruct (eo_peer _ _ _ _ He id p Hi Ep) as (Hp & Hne & Sc & Pc & Pp & Hkind & _).
  assert (length data <> 0)%nat by (by destruct data).
  unfold write, is_connected. rewrite (proj2 (Nat.leb_gt _ _) Hi : bad_id id = false), Sc, Hw, Hc, Ep.
  rewrite bool_decide_eq_true_2 by done. cbn [negb].
  rewrite (proj2 (Nat.leb_gt _ _) Hp : bad_id p = false), (paired_true id _ Pc Pp). cbn [negb].
  pose proof (push_spec data _ (ring_ok_bytes _ (do_ring _ _ _ _ _ Hd p Hp))) as Hps.
  destruct (push data (TABLE (sys r) !!! p)) as [n s']. destruct Hps as (-> & _).
  destruct (kind (TABLE (sys r) !!! id)).
  - destruct (Nat.eqb_spec (Nat.min (length data) (recv_space (TABLE (sys r) !!! p))) 0); cbn [fst];
      split; try lia; intros [?|[? _]]; done || lia.
  - destruct (Nat.leb_spec (SEQ_QUEUE_CAP - 1) (seq_queued (TABLE (sys r) !!! p))); [cbn [fst]; tauto|].
    destruct (Nat.ltb_spec (recv_space (TABLE (sys r) !!! p)) (length data)); [cbn [fst]; tauto|].
    cbn [fst]. split; [lia|]. intros [?|[_ [?|?]]]; lia.
Qed.

Lemma read_blocks r id len :
  bad_id id = false -> live (TABLE (sys r)) id ->
  (read_msg id len (sys r)).1 = inr (-11) <-> has_data id (sys r) || read_shutdown id (sys r) = false.
Proof.
  intros Hbad L. unfold read_msg, has_data, read_shutdown. rewrite Hbad, (proj2 (is_free_false _) L).
  destruct (shut_rd _); [rewrite orb_true_r; by split|]. destruct (kind _).
  - destruct (Nat.eqb_spec (recv_available (TABLE (sys r) !!! id)) 0) as [E|E].
    + rewrite E. by destruct (rx_eof _).
    + rewrite (proj2 (Nat.ltb_lt _ _)) by lia. by destruct (pop _ _).
  - destruct (_ =? _)%nat; [by destruct (rx_eof _)|]. by destruct (dequeue_msg _ _) as [[? ?] ?].
Qed.

(** C19: the readiness predicates that poll and epoll use agree with the
    calls, for a socket with a descriptor open on it, after any sequence of
    socket calls by descriptor holders in which only sockets neither connected
    nor listening connect (connect itself does not refuse the others, see
    [reconnect_mixes_streams]) and no socket gets more than u32::MAX
    descriptors. A read would return EAGAIN exactly when neither data nor an
    end of file is reported. A write of at least one byte to a stream would
    return EAGAIN exactly when the socket is not reported writable; on a
    SEQPACKET socket it would do so exactly when the socket is not reported
    writable or the message is longer than the space left in the connected
    peer's ring, neither side having shut the channel down. *)
Theorem unix_readiness_exact (w : Wake) (os : list Op) (r : Run) (id len : nat) (data : list Z) :
  urun os (start w) = Some r -> holds r id = true -> data <> [] ->
  ((read_msg id len (sys r)).1 = inr (-11) <-> has_data id (sys r) || read_shutdown id (sys r) = false) /\
  (unix_kind id (sys r) = Stream ->
    (write id data (sys r)).1 = -11 <-> writable id (sys r) = false) /\
  (unix_kind id (sys r) = SeqPacket ->
    (write id data (sys r)).1 = -11 <->
    writable id (sys r) = false \/
    exists p, get_peer id (sys r) = Some p /\ shut_wr (TABLE (sys r) !!! id) = false /\
      peer_closed (TABLE (sys r) !!! id) = false /\ (recv_space (TABLE (sys r) !!! p) < length data)%nat).
Proof.
  intros Hrun Ho Hdata. pose proof (run_reach _ _ _ (start_ok w) Hrun) as Hok.
  destruct (holder r id Hok Ho) as (Hi & L & Hbad & _).
  split; [by apply read_blocks|].
  unfold unix_kind, writable, get_peer. rewrite Hbad, (proj2 (is_free_false _) L).
  destruct (is_connected (TABLE (sys r) !!! id)) eqn:Ec; cbn [negb].
  2: { unfold write. rewrite Hbad, Ec. cbn [negb fst]. split; intros _; (split; [done|]); [done|].
    intros [?|(p & Ep & _)]; [done|]. destruct (eo_peer _ _ _ _ (rk_ends _ Hok) id p Hi Ep) as (_ & _ & Hc & _).
    apply bool_decide_eq_false in Ec. done. }
  destruct (shut_wr _) eqn:Ew.
  { unfold write. rewrite Hbad, Ec, Ew. cbn [negb fst]. split; intros _; (split; [done|]); [done|].
    by intros [?|(p & _ & ? & _)]. }
  destruct (peer_closed _) eqn:Epc.
  { unfold write. rewrite Hbad, Ec, Ew, Epc. cbn [negb fst]. split; intros _; (split; [done|]); [done|].
    by intros [?|(p & _ & _ & ? & _)]. }
  destruct (peer_id _) as [p|] eqn:Ep.
  2: { unfold write. rewrite Hbad, Ec, Ew, Epc, Ep. cbn [negb fst]. split; intros _; (split; [done|]); [done|].
    by intros [?|(p & ? & _)]. }
  destruct (eo_peer _ _ _ _ (rk_ends _ Hok) id p Hi Ep) as (Hp & _ & _ & Pc & _).
  rewrite (proj2 (Nat.leb_gt _ _) Hp : bad_id p = false), (proj2 (is_free_false (TABLE (sys r) !!! p))) by (by rewrite Pc).
  rewrite (write_blocks r id p data Hok Hi Ep Hdata Ew Epc).
  split; intros ->; [rewrite Nat.ltb_ge; split; [intros [?|[? _]]; done || lia|left; lia]|].
  assert (length data <> 0)%nat by (by destruct data).
  destruct (Nat.leb_spec (SEQ_QUEUE_CAP - 1) (seq_queued (TABLE (sys r) !!! p))); [tauto|].
  rewrite Nat.ltb_ge. split.
  - intros [?|[_ [?|?]]]; [left; lia|lia|right; by exists p].
  - intros [?|(p' & [= <-] & _ & _ & ?)]; [left; lia|right; split; [done|by right]].
Qed.
End theorems.

(* ------------------------------------------------------------------ *)
(** ** A small table *)

Lemma small_recv_cap : (1 < 5)%nat.
Proof. lia. Qed.
Lemma small_recv_u32 : Z.of_nat 5 < 2 ^ 32.
Proof. lia. Qed.
Lemma small_seq_cap : (1 < 4)%nat.
Proof. lia. Qed.

(** Five slots, names of four bytes, rings of five bytes, a backlog of one,
    four message lengths. *)
#[local] Instance small_sizes : UnixSizes :=
  Build_UnixSizes 5 4 5 1 4 small_recv_cap small_recv_u32 small_seq_cap.

Definition no_wake : Wake := mkWake [] 0 [] (replicate 12 0) 0 0 0.
Definition alice : PeerCreds := mkPeerCreds 1 1000 1000.
Definition bob : PeerCreds := mkPeerCreds 2 1001 1001.
Definition mallory : PeerCreds := mkPeerCreds 3 1002 1002.

(** A server in slot 0 and a client in slot 1; the endpoint made for the
    server is slot 2.  Five bytes are offered, four fit, and three are read. *)
Definition talk : list Op :=
  [OCreate Stream alice; OBind 0 [47; 115]; OListen 0; OCreate Stream bob; OConnect 1 [47; 115];
   OAccept 0; OWrite 1 [1; 2; 3; 4; 5]; ORead 2 3].

Definition talked : Run := default (start no_wake) (urun talk (start no_wake)).

Lemma unix_channel_fifo_witness :
  log talked = [ESent 1 2 [1; 2; 3; 4]; EGot 2 [1; 2; 3] 0] /\ pairs talked = [(1, 2)%nat] /\
  NoDup (both (pairs talked)) /\
  (forall x g d, ESent x g d ∈ log talked -> linked (pairs talked) x g) /\
  (forall g k, kinds talked !! g = Some k ->
    exists rest, in_order k (sent_to g (log talked)) (got_by g (log talked)) rest /\
      forall i, (i < MAX_UNIX_SOCKETS)%nat -> state (TABLE (sys talked) !!! i) <> Free -> gens talked !!! i = g ->
        rest = inbox (TABLE (sys talked) !!! i)).
Proof.
  split; [vm_compute; reflexivity|]. split; [vm_compute; reflexivity|].
  apply (unix_channel_fifo no_wake talk talked). vm_compute. reflexivity.
Defined.

Lemma unix_endpoint_lifetime_witness :
  state (TABLE (sys talked) !!! 1%nat) = Connected /\
  ref_count (TABLE (sys talked) !!! 1%nat) = Z.of_nat (opens talked !!! 1%nat).
Proof.
  split; [vm_compute; reflexivity|].
  apply (unix_endpoint_lifetime no_wake talk talked 1%nat); vm_compute; reflexivity.
Defined.

(** The ring of slot 2 has one byte in it and room for three. *)
Lemma unix_readiness_exact_witness :
  writable 1 (sys talked) = true /\
  ((read_msg 2 8 (sys talked)).1 = inr (-11) <-> has_data 2 (sys talked) || read_shutdown 2 (sys talked) = false).
Proof.
  split; [vm_compute; reflexivity|].
  apply (unix_readiness_exact no_wake talk talked 2%nat 8%nat [7]); [vm_compute; reflexivity..|congruence].
Defined.

(* ------------------------------------------------------------------ *)
(** ** Runs of note *)

(** Two clients connect to a listener whose backlog holds one: both calls
    return 0, and the endpoint made for the second is in no backlog. *)
Definition crowd : list Op :=
  [OCreate Stream alice; OBind 0 [47; 115]; OListen 0; OCreate Stream bob; OConnect 1 [47; 115];
   OCreate Stream bob].
Definition crowded : Run := default (start no_wake) (urun crowd (start no_wake)).

Lemma connect_past_full_backlog :
  let '(res, u) := connect 3 [47; 115] (sys crowded) in
  res = 0 /\ get_peer 3 u = Some 4%nat /\ unix_state 4 u = Connected /\
  concat (map pend (TABLE u)) = [Some 2%nat] /\
  (accept 0 (accept 0 u).2).1 = -11 /\ writable 3 u = true.
Proof. vm_compute. repeat split. Qed.

(** The listener closes while a connection waits in its backlog: the client
    is not told, and the endpoint that nobody can accept any more stays. *)
Lemma close_listener_strands_client :
  let u := close_unix 0 (sys crowded) in
  unix_state 0 u = Free /\ unix_state 2 u = Connected /\ fully_hung_up 1 u = false /\
  read_shutdown 1 u = false /\ (write 1 [7] u).1 = 1.
Proof. vm_compute. repeat split. Qed.

(** [connect] by a socket that is connected already: one end of a pair moves
    to a listener, the other end keeps the old slot number.  When that slot
    has been closed and taken by another process, the credentials reported
    for the peer are those of the new owner. *)
Definition reconnected : UnixSys :=
  let u := (socketpair Stream alice (unix_boot no_wake)).2 in
  let u := (create Stream bob u).2 in
  let u := (listen 2 (bind 2 [47; 115] u).2).2 in
  (connect 0 [47; 115] u).2.

Lemma reconnect_forges_credentials :
  get_peer 0 reconnected = Some 3%nat /\ get_peer 1 reconnected = Some 0%nat /\
  let u := (create Stream mallory (close_unix 0 reconnected)).2 in
  peer_creds 1 reconnected = Some alice /\ peer_creds 1 u = Some mallory /\
  fully_hung_up 1 u = false.
Proof. vm_compute. repeat split. Qed.

(** And bytes the old peer had sent are read as if the new one had. *)
Lemma reconnect_mixes_streams :
  let u := (write 1 [1; 2] (socketpair Stream alice (unix_boot no_wake)).2).2 in
  let u := (create Stream bob u).2 in
  let u := (listen 2 (bind 2 [47; 115] u).2).2 in
  let u := (connect 0 [47; 115] u).2 in
  let u := (write 3 [8] u).2 in
  get_peer 0 u = Some 3%nat /\ (read 0 4 u).1 = (3, [1; 2; 8]).
Proof. vm_compute. repeat split. Qed.

(** A write of no bytes to a connected stream reports EAGAIN, at any time. *)
Lemma empty_write_eagain :
  writable 1 (sys talked) = true /\ (write 1 [] (sys talked)).1 = -11.
Proof. vm_compute. by split. Qed.

(** A SEQPACKET socket with an empty ring is reported writable, and a message
    that the ring can never hold is refused with EAGAIN each time. *)
Lemma oversized_message_eagain :
  let u := (socketpair SeqPacket alice (unix_boot no_wake)).2 in
  writable 0 u = true /\ write 0 [1; 2; 3; 4; 5] u = (-11, u).
Proof. vm_compute. by split. Qed.

(** Names longer than the field are cut, so two of them can be one. *)
Lemma long_names_collide :
  let u := (create Stream bob (create Stream alice (unix_boot no_wake)).2).2 in
  let u := (bind 0 [47; 97; 98; 99; 49] u).2 in
  (bind 1 [47; 97; 98; 99; 50] u).1 = -98.
Proof. vm_compute. reflexivity. Qed.
