(* ===== verification/UnixScm.v ===== *)
(** * Descriptors passed over local sockets (SCM_RIGHTS)

    kernel/src/syscall/mod.rs: the queue of passed descriptors;
    kernel/src/subsys/linux/syscall.rs: the AF_UNIX arms of sendmsg(2) and
    recvmsg(2); kernel/src/net/unix.rs: [close], which releases what a dead
    receive queue held and so can close further sockets.

    The calls that sendmsg, recvmsg and close make are recorded in order: those
    on local sockets change the socket table, those on pipes, inodes and
    eventfds go to other components.  Pointer validation and the parsing of
    the control buffers come before what is modelled: the vectors of a message
    are byte lists, the descriptors sent are the entries of the sender's table
    that [gather_fds] finds, those received are put into the receiver's table
    by [install_fds], and of the receiver's control buffer only its length
    matters, 0 for one that is absent or rejected. *)

From S2P Require Import Prelude WaitList Pipe Vfs Unix UnixRun.

(* ------------------------------------------------------------------ *)
(** ** Descriptors and the objects they refer to *)

Record FileDescriptor := mkFileDescriptor {
  inode : Z;
  mount_idx : Z;
  offset : Z;
  flags : Z;
  file_type : FileType;
  is_console : bool;
  cloexec : bool;
  open_path : list Z
}.

Definition UNIX_SOCKET_FLAG : Z := 0x800000.
Definition PIPE_FLAG : Z := 0x80000000.

Inductive ObjRef :=
  | RSocket (id : nat)
  | RPipe (writer : bool) (id : Z)
  | RInode (mount ino : Z)
  | REvent (id : Z)
  | RNone.

(** The dispatch of [scm_drop_fds] and of the reference taken in sendmsg. *)
Definition object_ref (fd : FileDescriptor) : ObjRef :=
  if bool_decide (file_type fd = Socket) && negb (Z.land (flags fd) UNIX_SOCKET_FLAG =? 0)
  then RSocket (Z.to_nat (inode fd))
  else if bool_decide (file_type fd = PipeFd) && (mount_idx fd =? U64_MAX) &&
          negb (Z.land (flags fd) PIPE_FLAG =? 0)
  then RPipe (Z.land (flags fd) 1 =? 1) (inode fd)
  else if bool_decide (file_type fd = RegularFile) && negb (mount_idx fd =? U64_MAX)
  then RInode (mount_idx fd) (inode fd)
  else if bool_decide (file_type fd = EventFdFile) then REvent (inode fd)
  else RNone.

(** The calls into the socket, pipe, inode and eventfd code. *)
Inductive Call :=
  | CUnix (o : Op)
  | CPipeAdd (writer : bool) (id : Z)
  | CPipeClose (writer : bool) (id : Z)
  | CPin (mount ino : Z)
  | CUnpin (mount ino : Z)
  | CEventInc (id : Z)
  | CEventClose (id : Z).

Record ScmBatch := mkScmBatch {
  receiver_id : nat;
  byte_offset : Z;
  fds : list FileDescriptor
}.

Record ScmSys := mkScmSys {
  ux : UnixSys;
  PENDING_SCM : list ScmBatch;
  calls : list Call
}.

Definition with_ux (u : UnixSys) (s : ScmSys) : ScmSys := mkScmSys u (PENDING_SCM s) (calls s).
Definition with_pending (q : list ScmBatch) (s : ScmSys) : ScmSys := mkScmSys (ux s) q (calls s).
Definition call (c : Call) (s : ScmSys) : ScmSys := mkScmSys (ux s) (PENDING_SCM s) (calls s ++ [c]).

(* ------------------------------------------------------------------ *)
(** ** The queue *)

Definition deliverable (receiver : nat) (consumed : Z) (b : ScmBatch) : bool :=
  (receiver_id b =? receiver)%nat && (byte_offset b <=? consumed).

Definition scm_queue (receiver : nat) (offset : Z) (l : list FileDescriptor) (q : list ScmBatch) : list ScmBatch :=
  q ++ [mkScmBatch receiver offset l].

Definition remove_at {A} (i : nat) (l : list A) : list A := take i l ++ drop (S i) l.

(** The most recent batch of the receiver at the offset. *)
Definition scm_revoke (receiver : nat) (offset : Z) (q : list ScmBatch)
    : option (list FileDescriptor) * list ScmBatch :=
  match position (fun b => (receiver_id b =? receiver)%nat && (byte_offset b =? offset)) (rev q) with
  | Some k =>
      let pos := (length q - 1 - k)%nat in
      (fds <$> q !! pos, remove_at pos q)
  | None => (None, q)
  end.

Definition has_scm_deliverable (receiver : nat) (consumed : Z) (q : list ScmBatch) : bool :=
  existsb (deliverable receiver consumed) q.

Fixpoint scm_next_batch_offset (receiver : nat) (consumed : Z) (q : list ScmBatch) : option Z :=
  match q with
  | [] => None
  | b :: q =>
      let rest := scm_next_batch_offset receiver consumed q in
      if (receiver_id b =? receiver)%nat && (consumed <? byte_offset b)
      then Some (match rest with Some o => Z.min (byte_offset b) o | None => byte_offset b end)
      else rest
  end.

(** [min_by_key]: the first of the deliverable batches with the least offset. *)
Fixpoint earliest (receiver : nat) (consumed : Z) (q : list ScmBatch) : option (nat * Z) :=
  match q with
  | [] => None
  | b :: q =>
      let rest := (fun '(i, o) => (S i, o)) <$> earliest receiver consumed q in
      if deliverable receiver consumed b then
        match rest with
        | Some (i, o) => if o <? byte_offset b then rest else Some (0%nat, byte_offset b)
        | None => Some (0%nat, byte_offset b)
        end
      else rest
  end.

Definition scm_dequeue_with_offset (receiver : nat) (consumed : Z) (q : list ScmBatch)
    : option (Z * list FileDescriptor) * list ScmBatch :=
  match earliest receiver consumed q with
  | Some (pos, _) => ((fun b => (byte_offset b, fds b)) <$> q !! pos, remove_at pos q)
  | None => (None, q)
  end.

Definition scm_drain_receiver (receiver : nat) (q : list ScmBatch) : list FileDescriptor * list ScmBatch :=
  (concat (map fds (List.filter (fun b => (receiver_id b =? receiver)%nat) q)),
   List.filter (fun b => negb (receiver_id b =? receiver)%nat) q).

Section operations.
Context `{UnixSizes}.

(* ------------------------------------------------------------------ *)
(** ** References and close *)

Definition take_ref (s : ScmSys) (fd : FileDescriptor) : ScmSys :=
  match object_ref fd with
  | RSocket id => call (CUnix (ODup id)) (with_ux (inc_ref id (ux s)) s)
  | RPipe w id => call (CPipeAdd w id) s
  | RInode m i => call (CPin m i) s
  | REvent id => call (CEventInc id) s
  | RNone => s
  end.

(** One turn of the loop of [scm_drop_fds]. *)
Definition drop_ref (close : nat -> ScmSys -> option ScmSys) (fd : FileDescriptor) (s : ScmSys) : option ScmSys :=
  match object_ref fd with
  | RSocket id => close id s
  | RPipe w id => Some (call (CPipeClose w id) s)
  | RInode m i => Some (call (CUnpin m i) s)
  | REvent id => Some (call (CEventClose id) s)
  | RNone => Some s
  end.

Fixpoint drop_refs (close : nat -> ScmSys -> option ScmSys) (l : list FileDescriptor) (s : ScmSys) : option ScmSys :=
  match l with
  | [] => Some s
  | fd :: l => s ← drop_ref close fd s; drop_refs close l s
  end.

(** [close]: the slot, then the batches queued for it, then the bell.
    Releasing a batch may close further sockets; [None] when the fuel does
    not cover that. *)
Fixpoint close_fuel (fuel id : nat) (s : ScmSys) : option ScmSys :=
  match fuel with
  | O => None
  | S fuel =>
      let '(t, torn, told) := close_slot id (TABLE (ux s)) in
      let s := call (CUnix (OClose id)) (with_ux (with_table t (ux s)) s) in
      if torn then
        let '(orphaned, q) := scm_drain_receiver id (PENDING_SCM s) in
        s ← drop_refs (close_fuel fuel) orphaned (with_pending q s);
        Some (if told then with_ux (ring_unix BellUnixShutdown (ux s)) s else s)
      else Some s
  end.

(** The descriptors in flight. *)
Definition in_flight (q : list ScmBatch) : list FileDescriptor := concat (map fds q).

(** Each nested close is for a descriptor taken out of the queue, so one more
    than the descriptors in flight is enough. *)
Definition close (id : nat) (s : ScmSys) : option ScmSys :=
  close_fuel (S (length (in_flight (PENDING_SCM s)))) id s.
Definition scm_drop_fds (l : list FileDescriptor) (s : ScmSys) : option ScmSys :=
  drop_refs (close_fuel (S (length (in_flight (PENDING_SCM s))))) l s.

(* ------------------------------------------------------------------ *)
(** ** sendmsg *)

(** The numbers of the control message, looked up in the sender's table. *)
Definition gather_fds (nums : list Z) (tab : list (option FileDescriptor)) : list FileDescriptor :=
  omap (fun n => if (0 <=? n) && (n <? Z.of_nat (length tab))
                 then mjoin (tab !! Z.to_nat n) else None) nums.

(** The loop over the vectors: the bytes accepted, or the error that came
    before the first byte. *)
Fixpoint send_iovs (id : nat) (iovs : list (list Z)) (total : Z) (s : ScmSys) : (Z + Z) * ScmSys :=
  match iovs with
  | [] => (inl total, s)
  | data :: iovs =>
      if (length data =? 0)%nat then send_iovs id iovs total s
      else
        let '(n, u) := write id data (ux s) in
        let s := call (CUnix (OWrite id data)) (with_ux u s) in
        if 0 <=? n then
          if n <? Z.of_nat (length data) then (inl (total + n), s) else send_iovs id iovs (total + n) s
        else if 0 <? total then (inl total, s) else (inr n, s)
  end.

(** The queued batch is taken back and its references dropped. *)
Definition revoke_queued (queued : option (nat * Z)) (s : ScmSys) : option ScmSys :=
  match queued with
  | Some (receiver, offset) =>
      match scm_revoke receiver offset (PENDING_SCM s) with
      | (Some l, q) => scm_drop_fds l (with_pending q s)
      | (None, _) => Some s
      end
  | None => Some s
  end.

(** The end of the call: a queued batch stays only when a byte was taken. *)
Definition conclude (queued : option (nat * Z)) (res : Z + Z) (s : ScmSys) : option (Z * ScmSys) :=
  match res with
  | inr e => s ← revoke_queued queued s; Some (e, s)
  | inl total =>
      if total =? 0 then
        match queued with
        | Some _ => s ← revoke_queued queued s; Some (-11, s)
        | None => Some (0, s)
        end
      else Some (total, s)
  end.

(** The batch is queued for the peer before any byte; what is returned is the
    batch to take back when no byte follows. *)
Definition bind_batch (bind_peer : option nat) (bind_offset : Z) (frame_has_data : bool)
    (sender_fds : list FileDescriptor) (s : ScmSys) : option (option (nat * Z) * ScmSys) :=
  match sender_fds with
  | [] => Some (None, s)
  | _ =>
      match bind_peer with
      | Some p =>
          let offset := if frame_has_data then add64 bind_offset 1 else bind_offset in
          let s := with_pending (scm_queue p offset sender_fds (PENDING_SCM s)) s in
          Some (if frame_has_data then Some (p, offset) else None,
                with_ux (ring_unix BellUnixWrite (ux s)) s)
      | None => s ← scm_drop_fds sender_fds s; Some (None, s)
      end
  end.

Definition sendmsg (id : nat) (iovs : list (list Z)) (sender_fds : list FileDescriptor) (s : ScmSys)
    : option (Z * ScmSys) :=
  if (length iovs =? 0)%nat then Some (0, s)
  else if (1024 <? length iovs)%nat then Some (-22, s)
  else
    let bind_peer := get_peer id (ux s) in
    let bind_offset := match bind_peer with Some p => enqueue_offset_for p (ux s) | None => 0 end in
    let frame_has_data := existsb (fun d => negb (length d =? 0)%nat) iovs in
    let s := fold_left take_ref sender_fds s in
    '(queued, s) ← bind_batch bind_peer bind_offset frame_has_data sender_fds s;
    let '(res, s) := send_iovs id iovs 0 s in
    conclude queued res s.

(* ------------------------------------------------------------------ *)
(** ** recvmsg *)

Definition MSG_TRUNC : Z := 0x20.
Definition MSG_CTRUNC : Z := 0x8.

(** The first empty entry, or one more at the end. *)
Definition install_fd (acc : list Z * list (option FileDescriptor)) (fd : FileDescriptor)
    : list Z * list (option FileDescriptor) :=
  let '(nums, tab) := acc in
  let slot := default (length tab) (position (fun e => bool_decide (e = None)) tab) in
  (nums ++ [Z.of_nat slot],
   if (slot =? length tab)%nat then tab ++ [Some fd] else <[slot := Some fd]> tab).

Definition install_fds (l : list FileDescriptor) (tab : list (option FileDescriptor))
    : list Z * list (option FileDescriptor) :=
  fold_left install_fd l ([], tab).

Definition unpin_installed (s : ScmSys) (fd : FileDescriptor) : ScmSys :=
  match object_ref fd with RInode m i => call (CUnpin m i) s | _ => s end.

Record Received := mkReceived {
  rc_result : Z;
  rc_data : list Z;
  rc_fds : list FileDescriptor;
  rc_flags : Z
}.

(** How many bytes the read may take: up to the next batch of a stream. *)
Definition read_cap (id cap : nat) (s : ScmSys) : nat :=
  match unix_kind id (ux s) with
  | Stream =>
      let consumed := recv_consumed id (ux s) in
      match scm_next_batch_offset id consumed (PENDING_SCM s) with
      | Some next => Nat.min cap (Z.to_nat (next - consumed))
      | None => cap
      end
  | SeqPacket => cap
  end.

(** Batch delivery: the descriptors that fit are handed over, the others go
    back to the queue at the same offset. *)
Definition deliver (id : nat) (ctrl_len : Z) (s : ScmSys) : list FileDescriptor * Z * ScmSys :=
  let consumed := recv_consumed id (ux s) in
  match scm_dequeue_with_offset id consumed (PENDING_SCM s) with
  | (Some (batch_off, scm_fds), q) =>
      let s := with_pending q s in
      let nfds := length scm_fds in
      let fits := Nat.min (Z.to_nat ((ctrl_len - 16) / 4)) nfds in
      let remainder := drop fits scm_fds in
      let installed := take fits scm_fds in
      let s := fold_left unpin_installed installed s in
      let s := match remainder with
               | [] => s
               | _ => with_pending (scm_queue id batch_off remainder (PENDING_SCM s)) s
               end in
      (installed, if (length installed <? nfds)%nat then MSG_CTRUNC else 0, s)
  | (None, _) => ([], 0, s)
  end.

(** recvmsg on a socket that does not block, or once the wait before the read
    is over. *)
Definition recvmsg (id cap : nat) (ctrl_len : Z) (s : ScmSys) : Received * ScmSys :=
  let eff_cap := read_cap id cap s in
  let '(res, u) := read_msg id eff_cap (ux s) in
  let s := call (CUnix (ORead id eff_cap)) (with_ux u s) in
  let got :=
    match res with
    | inl (out, discarded) => inl (out, if (0 <? discarded)%nat then MSG_TRUNC else 0)
    | inr e =>
        if (e =? -11) && has_scm_deliverable id (recv_consumed id u) (PENDING_SCM s)
        then inl ([], 0) else inr e
    end in
  match got with
  | inr e => (mkReceived e [] [] 0, s)
  | inl (out, fl) =>
      let '(installed, ctrunc, s) := deliver id ctrl_len s in
      (mkReceived (Z.of_nat (length out)) out installed (Z.lor fl ctrunc), s)
  end.

(** Descriptors received get numbers that were not in use, in order, and
    every number in use keeps its descriptor. *)
Lemma install_fds_spec l tab :
  let '(nums, tab') := install_fds l tab in
  length nums = length l /\
  (forall k fd, l !! k = Some fd -> exists n, nums !! k = Some (Z.of_nat n) /\ tab' !! n = Some (Some fd)) /\
  (forall n, Z.of_nat n ∈ nums -> mjoin (tab !! n) = None) /\
  (forall n fd, tab !! n = Some (Some fd) -> tab' !! n = Some (Some fd)).
Proof.
  unfold install_fds. induction l as [|fd l IH] using rev_ind.
  { split_and!; try done. intros n Hn. by apply list.not_elem_of_nil in Hn. }
  rewrite fold_left_app. cbn [fold_left]. destruct (fold_left install_fd l ([], tab)) as [nums tab'].
  destruct IH as (H1 & H2 & H3 & H4). unfold install_fd.
  set (slot := default _ _). set (tab2 := if (slot =? length tab')%nat then _ else _).
  assert (tab2 !! slot = Some (Some fd) /\ mjoin (tab' !! slot) = None /\
    forall n x, tab' !! n = Some (Some x) -> tab2 !! n = Some (Some x)) as (S1 & S2 & S3).
  { subst slot tab2. destruct (position _ tab') as [i|] eqn:E; cbn [from_option id].
    - apply position_some in E as [(x & Hx & Hn%bool_decide_eq_true) _]. subst x. pose proof (lookup_lt_Some _ _ _ Hx).
      rewrite (proj2 (Nat.eqb_neq _ _)) by lia. split_and!; [by rewrite list_lookup_insert_eq|by rewrite Hx|].
      intros n x Hn. rewrite list_lookup_insert_ne by congruence. done.
    - rewrite Nat.eqb_refl. split_and!; [by rewrite list_lookup_middle|by rewrite lookup_ge_None_2|].
      intros n x Hn. by apply lookup_app_l_Some. }
  rewrite !length_app, H1. split_and!; [done|..].
  - intros k x [Hk|[Hk Hx]]%lookup_app_Some.
    + destruct (H2 k x Hk) as (n & N1 & N2). exists n. split; [by apply lookup_app_l_Some|by apply S3].
    + assert (k = length l) as -> by (apply lookup_lt_Some in Hx; simpl in Hx; lia). rewrite Nat.sub_diag in Hx.
      injection Hx as ->. exists slot. split; [by rewrite lookup_app_r, H1, Nat.sub_diag by lia|done].
  - intros n [Hn|Hn]%elem_of_app; [by apply H3|]. apply list_elem_of_singleton, Nat2Z.inj in Hn as ->.
    destruct (tab !! slot) as [[x|]|] eqn:E; try done. apply H4 in E. by rewrite E in S2.
  - intros n x Hn. by apply S3, H4.
Qed.

(* ------------------------------------------------------------------ *)
(** ** Closing terminates *)

Lemma in_flight_filter (f : ScmBatch -> bool) (q : list ScmBatch) :
  (length (in_flight (List.filter f q)) + length (in_flight (List.filter (fun b => negb (f b)) q)) =
   length (in_flight q))%nat.
Proof.
  induction q as [|b q IH]; [done|]. unfold in_flight in *. cbn [List.filter].
  destruct (f b); cbn [negb map concat]; rewrite ?length_app; cbn [map concat]; rewrite ?length_app; lia.
Qed.

Lemma drain_in_flight id q :
  let '(l, q') := scm_drain_receiver id q in
  (length l + length (in_flight q') = length (in_flight q))%nat.
Proof. apply (in_flight_filter (fun b => (receiver_id b =? id)%nat)). Qed.

Section totality.
Context (close_ : nat -> ScmSys -> option ScmSys) (bound : nat).
Hypothesis Hclose : forall id s, (length (in_flight (PENDING_SCM s)) <= bound)%nat ->
  exists s', close_ id s = Some s' /\ (length (in_flight (PENDING_SCM s')) <= length (in_flight (PENDING_SCM s)))%nat.

Lemma drop_refs_total l s :
  (length (in_flight (PENDING_SCM s)) <= bound)%nat ->
  exists s', drop_refs close_ l s = Some s' /\
    (length (in_flight (PENDING_SCM s')) <= length (in_flight (PENDING_SCM s)))%nat.
Proof.
  revert s. induction l as [|fd l IH]; intros s Hs; [by exists s|]. simpl.
  assert (exists s1, drop_ref close_ fd s = Some s1 /\
    (length (in_flight (PENDING_SCM s1)) <= length (in_flight (PENDING_SCM s)))%nat) as (s1 & E1 & H1).
  { unfold drop_ref. destruct (object_ref fd); [by apply Hclose|by eexists..]. }
  rewrite E1. simpl. destruct (IH s1 ltac:(lia)) as (s2 & E2 & H2). exists s2. split; [done|lia].
Qed.
End totality.

Lemma close_fuel_total fuel id s :
  (length (in_flight (PENDING_SCM s)) < fuel)%nat ->
  exists s', close_fuel fuel id s = Some s' /\
    (length (in_flight (PENDING_SCM s')) <= length (in_flight (PENDING_SCM s)))%nat.
Proof.
  revert id s. induction fuel as [|fuel IH]; intros id s Hf; [lia|]. cbn [close_fuel].
  destruct (close_slot id (TABLE (ux s))) as [[t torn] told]. destruct torn; [|by eexists].
  pose proof (drain_in_flight id (PENDING_SCM s)) as Hdr.
  cbn [call with_ux PENDING_SCM]. destruct (scm_drain_receiver id (PENDING_SCM s)) as [l q].
  destruct l as [|fd l].
  - cbn [drop_refs mbind option_bind]. eexists. split; [done|]. destruct told; simpl in *; lia.
  - simpl in Hdr. destruct (drop_refs_total (close_fuel fuel) (length (in_flight q))) with
      (l := fd :: l) (s := with_pending q (call (CUnix (OClose id)) (with_ux (with_table t (ux s)) s)))
      as (s' & E & Hs'); [|done|].
    { intros id' s' Hs'. apply IH. lia. }
    rewrite E. eexists. split; [reflexivity|]. cbn [with_pending PENDING_SCM] in Hs'.
    destruct told; cbn [with_ux PENDING_SCM]; lia.
Qed.

Lemma drop_refs_mono (c c' : nat -> ScmSys -> option ScmSys) l s s' :
  (forall id s s', c id s = Some s' -> c' id s = Some s') ->
  drop_refs c l s = Some s' -> drop_refs c' l s = Some s'.
Proof.
  intros Hc. revert s. induction l as [|fd l IH]; intros s; simpl; [done|].
  intros (s1 & H1 & H2)%bind_Some. apply bind_Some. exists s1. split; [|by apply IH].
  revert H1. unfold drop_ref. destruct (object_ref fd); try done. apply Hc.
Qed.

(** More fuel changes nothing. *)
Lemma close_fuel_mono fuel fuel' id s s' :
  (fuel <= fuel')%nat -> close_fuel fuel id s = Some s' -> close_fuel fuel' id s = Some s'.
Proof.
  revert fuel' id s s'. induction fuel as [|fuel IH]; intros [|fuel'] id s s' Hle; try done; [lia|].
  cbn [close_fuel]. destruct (close_slot id (TABLE (ux s))) as [[t torn] told]. destruct torn; [|done].
  destruct (scm_drain_receiver _ _) as [l q].
  intros (s1 & H1 & H2)%bind_Some. apply bind_Some. exists s1. split; [|done].
  eapply drop_refs_mono; [|done]. intros id' s2 s2'. apply IH. lia.
Qed.
End operations.
