(* ===== verification/UnixRights.v ===== *)
(** * Passed descriptors: the invariant, closing and sending

    The recorded calls drive a run of the socket table (UnixRun.v) beside the
    state of UnixScm.v.  The invariant: every descriptor in flight has a
    reference of its own, and every batch stands on a byte its receiver, a
    connected stream, has not read.  Closing, taking references and the writes
    of a message keep it. *)

From S2P Require Import Prelude WaitList Pipe Vfs Unix UnixRun UnixScm.

(* ------------------------------------------------------------------ *)
(** ** What a step leaves alone *)

Section frame.
Context `{UnixSizes}.
Implicit Types (r : Run) (u : UnixSys) (i p : nat).

(** A connected socket and the bytes unread in it are as they were. *)
Definition undisturbed (s s' : UnixSocket) : Prop :=
  state s' = Connected /\ kind s' = kind s /\ recv_popped s' = recv_popped s /\ contents s' = contents s.

Lemma undisturbed_refl s : state s = Connected -> undisturbed s s.
Proof. by split. Qed.

Lemma frame_create k creds u i :
  state (TABLE u !!! i) = Connected -> undisturbed (TABLE u !!! i) (TABLE (create k creds u).2 !!! i).
Proof.
  intros Hc. unfold create. destruct (position is_free (TABLE u)) as [a|] eqn:E; [|by apply undisturbed_refl].
  apply free_slot in E as [Ha Hf]. cbn [snd note_occupancy with_table TABLE].
  rewrite alter_upd, upd_at, decide_False by (done || congruence). by apply undisturbed_refl.
Qed.

Lemma frame_pair k creds u i :
  state (TABLE u !!! i) = Connected -> undisturbed (TABLE u !!! i) (TABLE (socketpair k creds u).2 !!! i).
Proof.
  intros Hc. unfold socketpair. destruct (position is_free (TABLE u)) as [a|] eqn:E; [|by apply undisturbed_refl].
  apply free_slot in E as [Ha Hf]. rewrite (alter_upd _ a (TABLE u)) by done.
  assert (i <> a) as Hia by congruence.
  destruct (position is_free (<[a := _]> _)) as [b|] eqn:Eb; cbn [snd note_occupancy with_table TABLE].
  - apply free_slot in Eb as [Hb Hfb]. rewrite length_insert in Hb. rewrite upd_at in Hfb by done.
    destruct (decide (b = a)) as [|Hba]; [done|]. assert (i <> b) by congruence.
    rewrite !alter_upd by (rewrite ?length_alter, ?length_insert; done).
    rewrite !upd_at by (rewrite ?length_insert; done). rewrite !decide_False by done. by apply undisturbed_refl.
  - rewrite alter_upd, upd_at, decide_False, upd_at, decide_False by (rewrite ?length_insert; done).
    by apply undisturbed_refl.
Qed.

Lemma frame_connect id addr u i :
  length (TABLE u) = MAX_UNIX_SOCKETS -> (id < MAX_UNIX_SOCKETS)%nat -> connectable (TABLE u !!! id) = true ->
  state (TABLE u !!! i) = Connected -> undisturbed (TABLE u !!! i) (TABLE (connect id addr u).2 !!! i).
Proof.
  intros Hlen Hi Hcn Hc.
  assert (state (TABLE u !!! id) <> Connected /\ state (TABLE u !!! id) <> Listening /\ live (TABLE u) id) as (H1 & H2 & H3).
  { unfold connectable in Hcn. apply orb_true_iff in Hcn as [E|E]; apply bool_decide_eq_true in E; by rewrite E. }
  destruct (connect_cases id addr u Hlen Hi H1 H2 H3) as [(e & _ & ->)|
    (sv & p & u' & -> & Hsv & Hp & Hpi & Hsi & Hsp & Hsl & Hpf & Ek & Ht)]; [by apply undisturbed_refl|].
  cbn [snd]. rewrite Ht, !upd_at by (rewrite ?length_insert; lia).
  rewrite !decide_False by congruence. by apply undisturbed_refl.
Qed.

Lemma frame_slot u i j s' :
  (j < length (TABLE u))%nat -> state (TABLE u !!! i) = Connected ->
  (i = j -> undisturbed (TABLE u !!! i) s') -> undisturbed (TABLE u !!! i) (<[j := s']> (TABLE u) !!! i).
Proof.
  intros Hj Hc Hs. rewrite upd_at by done. case_decide; [by apply Hs|by apply undisturbed_refl].
Qed.

Definition reads_slot (o : Op) (i : nat) (u : UnixSys) : Prop :=
  match o with
  | ORead id _ | OClose id => i = id
  | OWrite id _ => get_peer id u = Some i
  | _ => False
  end.

Lemma frame_shutdown id rd wr u i :
  length (TABLE u) = MAX_UNIX_SOCKETS -> (id < MAX_UNIX_SOCKETS)%nat ->
  state (TABLE u !!! i) = Connected -> undisturbed (TABLE u !!! i) (TABLE (shutdown id rd wr u).2 !!! i).
Proof.
  intros Hlen Hi Hc. unfold shutdown. rewrite (proj2 (Nat.leb_gt _ _) Hi : bad_id id = false).
  destruct (state (TABLE u !!! id)) eqn:Es; try by apply undisturbed_refl.
  cbn [snd ring_unix with_table TABLE].
  assert (undisturbed (TABLE u !!! i) (<[id := with_shut (rd || shut_rd (TABLE u !!! id))
    (wr || shut_wr (TABLE u !!! id)) (TABLE u !!! id)]> (TABLE u) !!! i)) as H1.
  { apply frame_slot; [lia|done|]. intros ->. by split. }
  destruct (peer_id (TABLE u !!! id)) as [p|]; [|done].
  destruct (wr && negb (bad_id p) && _) eqn:Eb; [|done].
  apply andb_true_iff in Eb as [[_ Hp%negb_true_iff%Nat.leb_gt]%andb_true_iff _].
  rewrite alter_upd, upd_at by (rewrite length_insert; lia). case_decide; [subst p|done]. exact H1.
Qed.

Lemma close_slot_frame id t i :
  length t = MAX_UNIX_SOCKETS -> (id < MAX_UNIX_SOCKETS)%nat -> i <> id -> state (t !!! i) = Connected ->
  undisturbed (t !!! i) ((close_slot id t).1.1 !!! i).
Proof.
  intros Hlen Hi Hne Hc. unfold close_slot. rewrite (proj2 (Nat.leb_gt _ _) Hi : bad_id id = false).
  destruct (is_free _); [by apply undisturbed_refl|].
  destruct (1 <? _); cbn [fst]; [rewrite upd_at, decide_False by (done || lia); by apply undisturbed_refl|].
  destruct (peer_id (t !!! id)) as [p|]; cbn [fst]; [|rewrite upd_at, decide_False by (done || lia); by apply undisturbed_refl].
  destruct (negb (bad_id p) && _) eqn:Eb; cbn [fst]; [|rewrite upd_at, decide_False by (done || lia); by apply undisturbed_refl].
  apply andb_true_iff in Eb as [Hp%negb_true_iff%Nat.leb_gt _].
  rewrite alter_upd, !upd_at, (decide_False (P := i = id)) by (rewrite ?length_insert; done || lia).
  case_decide; [subst p|by apply undisturbed_refl]. rewrite decide_False by done. by split.
Qed.

Lemma frame_write id data r i :
  run_ok r -> (id < MAX_UNIX_SOCKETS)%nat -> get_peer id (sys r) <> Some i ->
  state (TABLE (sys r) !!! i) = Connected ->
  undisturbed (TABLE (sys r) !!! i) (TABLE (write id data (sys r)).2 !!! i).
Proof.
  intros [He Hk Hd] Hi Hnp Hc. unfold get_peer in Hnp. unfold write.
  rewrite (proj2 (Nat.leb_gt _ _) Hi : bad_id id = false) in *. set (t := TABLE (sys r)) in *.
  assert (undisturbed (t !!! i) (t !!! i)) by (by apply undisturbed_refl).
  repeat (case_match; [done|]). destruct (peer_id (t !!! id)) as [p|] eqn:Ep; [|done].
  destruct (eo_peer _ _ _ _ He id p Hi Ep) as (Hp & _). pose proof (eo_len _ _ _ _ He).
  assert (i <> p) by congruence. repeat (case_match; try done); cbn [snd ring_unix with_table TABLE];
    rewrite upd_at, decide_False by (done || lia); done.
Qed.

Lemma frame_read id len r i :
  run_ok r -> (id < MAX_UNIX_SOCKETS)%nat -> i <> id -> state (TABLE (sys r) !!! i) = Connected ->
  undisturbed (TABLE (sys r) !!! i) (TABLE (read_msg id len (sys r)).2 !!! i).
Proof.
  intros [He Hk Hd] Hi Hne Hc. unfold read_msg. rewrite (proj2 (Nat.leb_gt _ _) Hi : bad_id id = false).
  pose proof (eo_len _ _ _ _ He).
  assert (undisturbed (TABLE (sys r) !!! i) (TABLE (sys r) !!! i)) by (by apply undisturbed_refl).
  repeat (case_match; try done); cbn [snd ring_unix with_table TABLE];
    rewrite upd_at, decide_False by (done || lia); done.
Qed.

(** The bytes of an accepted write are appended for the peer. *)
Lemma write_grows id data r p :
  run_ok r -> (id < MAX_UNIX_SOCKETS)%nat -> get_peer id (sys r) = Some p ->
  let t := TABLE (sys r) in
  let '(n, u) := write id data (sys r) in
  state (TABLE u !!! p) = Connected /\ kind (TABLE u !!! p) = kind (t !!! p) /\
  recv_popped (TABLE u !!! p) = recv_popped (t !!! p) /\
  contents (TABLE u !!! p) = contents (t !!! p) ++ take (Z.to_nat n) data /\ n <= Z.of_nat (length data).
Proof.
  intros [He Hk Hd] Hi Hp t. unfold get_peer in Hp. unfold write.
  rewrite (proj2 (Nat.leb_gt _ _) Hi : bad_id id = false) in *. fold t in Hp |- *.
  destruct (eo_peer _ _ _ _ He id p Hi Hp) as (Hpm & Hne & Sc & Pc & Pp & Hkind & _). fold t in Sc, Pc, Pp, Hkind.
  pose proof (eo_len _ _ _ _ He) as Hlen. fold t in Hlen.
  assert (forall n, n < 0 -> state (t !!! p) = Connected /\ kind (t !!! p) = kind (t !!! p) /\
    recv_popped (t !!! p) = recv_popped (t !!! p) /\ contents (t !!! p) = contents (t !!! p) ++ take (Z.to_nat n) data /\
    n <= Z.of_nat (length data)) as Herr.
  { intros n Hn. replace (Z.to_nat n) with 0%nat by lia. rewrite take_0, app_nil_r. split_and!; try done. lia. }
  destruct (negb _); [by apply Herr|]. destruct (shut_wr _); [by apply Herr|].
  destruct (peer_closed _); [by apply Herr|]. rewrite Hp.
  rewrite (proj2 (Nat.leb_gt _ _) Hpm : bad_id p = false), (paired_true id (t !!! p) Pc Pp). cbn [negb].
  pose proof (ring_ok_bytes _ (do_ring _ _ _ _ _ Hd p Hpm)) as Hb. fold t in Hb.
  pose proof (push_spec data (t !!! p) Hb) as Hps. destruct (kind (t !!! id)).
  - destruct (push data (t !!! p)) as [n s']. destruct Hps as (-> & _ & Hcont & _ & Es).
    destruct (Nat.eqb_spec (Nat.min (length data) (recv_space (t !!! p))) 0) as [E0|E0];
      cbn [ring_unix with_table TABLE]; rewrite upd_at, decide_True by (done || lia).
    + rewrite E0, take_0 in Hcont. rewrite Hcont. change (Z.to_nat (-11)) with 0%nat.
      rewrite take_0, Es. split_and!; try done. lia.
    + rewrite Nat2Z.id, Hcont, Es. split_and!; try done. lia.
  - destruct (_ <=? _)%nat; [by apply Herr|]. destruct (Nat.ltb_spec (recv_space (t !!! p)) (length data)); [by apply Herr|].
    destruct (push data (t !!! p)) as [n s']. destruct Hps as (-> & _ & Hcont & _ & Es).
    cbn [ring_unix with_table TABLE]. rewrite upd_at, decide_True by (done || lia).
    change (contents (seq_note _ s')) with (contents s'). rewrite Nat2Z.id, Hcont, Es. split_and!; try done. lia.
Qed.

Lemma frame_step o r r' i :
  run_ok r -> ustep o r = Some r' -> ~ reads_slot o i (sys r) -> (i < MAX_UNIX_SOCKETS)%nat ->
  state (TABLE (sys r) !!! i) = Connected -> undisturbed (TABLE (sys r) !!! i) (TABLE (sys r') !!! i).
Proof.
  intros Hok Hst Hr Hi Hc. pose proof (eo_len _ _ _ _ (rk_ends _ Hok)) as Hlen.
  destruct o; unfold ustep in Hst; cbn [reads_slot] in Hr;
    try (match type of Hst with context [holds r ?j] => destruct (holds r j) eqn:Ho; [|done];
           destruct (holder r j Hok Ho) as (Hj & Lj & Hbad & _) end).
  - pose proof (frame_create k creds (sys r) i Hc) as Hf. destruct (create k creds (sys r)) as [[j|] u]; by injection Hst as <-.
  - injection Hst as <-. cbn [with_sys sys]. unfold bind. rewrite Hbad. repeat (case_match; try by apply undisturbed_refl).
    apply frame_slot; [lia|done|]. intros ->. congruence.
  - injection Hst as <-. cbn [with_sys sys]. unfold listen. rewrite Hbad.
    destruct (state (TABLE (sys r) !!! id)) eqn:Es; try by apply undisturbed_refl.
    all: cbn [snd with_table TABLE]; rewrite alter_upd by lia; apply frame_slot; [lia|done|]; intros ->; congruence.
  - cbn [andb] in Hst. destruct (connectable _) eqn:Ecn; [|done].
    pose proof (frame_connect id addr (sys r) i Hlen Hj Ecn Hc) as Hf.
    destruct (connect id addr (sys r)) as [res u]. injection Hst as <-. by repeat case_match.
  - assert (undisturbed (TABLE (sys r) !!! i) (TABLE (accept id (sys r)).2 !!! i)) as Hf.
    { unfold accept. rewrite Hbad. repeat (case_match; try by apply undisturbed_refl);
        (apply frame_slot; [lia|done|]; intros ->; by split). }
    destruct (accept id (sys r)) as [res u]. injection Hst as <-. by case_match.
  - pose proof (frame_pair k creds (sys r) i Hc) as Hf.
    destruct (socketpair k creds (sys r)) as [[[a b]|] u]; by injection Hst as <-.
  - pose proof (frame_write id data r i Hok Hj Hr Hc) as Hf. destruct (write id data (sys r)) as [n u].
    injection Hst as <-. by repeat case_match.
  - pose proof (frame_read id len r i Hok Hj Hr Hc) as Hf. destruct (read_msg id len (sys r)) as [res u].
    injection Hst as <-. by repeat case_match.
  - injection Hst as <-. by apply frame_shutdown.
  - cbn [andb] in Hst. case_match; [|done]. injection Hst as <-. cbn [with_opens with_sys sys].
    unfold inc_ref. rewrite Hbad. case_match; [by apply undisturbed_refl|].
    cbn [with_table TABLE]. rewrite alter_upd by lia. apply frame_slot; [lia|done|]. intros ->. by split.
  - injection Hst as <-. cbn [with_opens with_sys sys]. rewrite close_unix_table. by apply close_slot_frame.
Qed.
End frame.

(* ------------------------------------------------------------------ *)
(** ** Runs with passed descriptors *)

Section rights.
Context `{UnixSizes}.
Implicit Types (r : Run) (c : ScmSys) (q : list ScmBatch) (i j id : nat) (l : list FileDescriptor).

Definition is_ref i (fd : FileDescriptor) : bool :=
  match object_ref fd with RSocket j => (j =? i)%nat | _ => false end.

(** How many of the descriptors refer to slot [i]. *)
Definition sock_count i l : nat := length (List.filter (is_ref i) l).
Definition inflight i q : nat := sock_count i (in_flight q).

Definition batches i q : list ScmBatch := List.filter (fun b => (receiver_id b =? i)%nat) q.

Definition unix_ops (cs : list Call) : list Op :=
  omap (fun x => match x with CUnix o => Some o | _ => None end) cs.

(** The recorded calls take the run of the table along. *)
Definition tracks r c r' c' : Prop :=
  exists cs, calls c' = calls c ++ cs /\ urun (unix_ops cs) r = Some r'.

(** The batches stand on the [n] bytes from position [pos] on, in order. *)
Definition stands (pos : Z) (bs : list ScmBatch) (n : nat) : Prop :=
  StronglySorted (fun b b' => byte_offset b < byte_offset b') bs /\
  Forall (fun b => pos < byte_offset b <= pos + Z.of_nat n) bs.

(** The queued batches of a receiver stand on bytes it has not read. *)
Definition standing (s : UnixSocket) (bs : list ScmBatch) : Prop :=
  stands (recv_popped s) bs (length (contents s)).

(** [owed i]: descriptors of slot [i] that are not in flight. *)
Record rights_ok r c (owed : nat -> nat) : Prop := {
  ri_run : run_ok r;
  ri_table : TABLE (ux c) = TABLE (sys r);
  ri_refs : forall i, (owed i + inflight i (PENDING_SCM c) <= opens r !!! i)%nat;
  ri_recv : forall b, b ∈ PENDING_SCM c -> (receiver_id b < MAX_UNIX_SOCKETS)%nat /\ fds b <> [] /\
    state (TABLE (sys r) !!! receiver_id b) = Connected /\ kind (TABLE (sys r) !!! receiver_id b) = Stream;
  ri_pos : forall i, (i < MAX_UNIX_SOCKETS)%nat -> standing (TABLE (sys r) !!! i) (batches i (PENDING_SCM c))
}.

(** Connected sockets were connected before, with the same unread bytes and
    the same batches. *)
Definition keeps r c r' c' : Prop :=
  forall j, (j < MAX_UNIX_SOCKETS)%nat -> state (TABLE (sys r') !!! j) = Connected ->
    state (TABLE (sys r) !!! j) = Connected /\ undisturbed (TABLE (sys r) !!! j) (TABLE (sys r') !!! j) /\
    batches j (PENDING_SCM c') = batches j (PENDING_SCM c).

(** No peer is gained. *)
Definition severs r r' : Prop :=
  forall j, peer_id (TABLE (sys r') !!! j) = peer_id (TABLE (sys r) !!! j) \/ peer_id (TABLE (sys r') !!! j) = None.

Lemma severs_refl r : severs r r.
Proof. by left. Qed.

Lemma severs_trans r r1 r2 : severs r r1 -> severs r1 r2 -> severs r r2.
Proof. intros S1 S2 j. destruct (S2 j) as [->| ->]; auto. Qed.

Lemma unix_ops_app cs cs' : unix_ops (cs ++ cs') = unix_ops cs ++ unix_ops cs'.
Proof. apply omap_app. Qed.

Lemma urun_app os os' r r1 r2 : urun os r = Some r1 -> urun os' r1 = Some r2 -> urun (os ++ os') r = Some r2.
Proof.
  revert r. induction os as [|o os IH]; intros r; simpl; [by intros [= ->]|].
  intros (r0 & H0 & H1)%bind_Some H2. rewrite H0. simpl. by apply IH.
Qed.

Lemma tracks_refl r c : tracks r c r c.
Proof. exists []. by rewrite app_nil_r. Qed.

Lemma tracks_trans r c r1 c1 r2 c2 : tracks r c r1 c1 -> tracks r1 c1 r2 c2 -> tracks r c r2 c2.
Proof.
  intros (cs & E1 & U1) (cs' & E2 & U2). exists (cs ++ cs'). rewrite E2, E1, app_assoc. split; [done|].
  rewrite unix_ops_app. by eapply urun_app.
Qed.

(** A recorded call on the table. *)
Lemma tracks_call r c r' c' o :
  ustep o r = Some r' -> calls c' = calls c ++ [CUnix o] -> tracks r c r' c'.
Proof. intros Hs E. exists [CUnix o]. split; [done|]. simpl. by rewrite Hs. Qed.

(** Something else was recorded, or nothing. *)
Lemma tracks_other r c c' cs : unix_ops cs = [] -> calls c' = calls c ++ cs -> tracks r c r c'.
Proof. intros Hs E. exists cs. split; [done|]. by rewrite Hs. Qed.

Lemma keeps_refl r c : keeps r c r c.
Proof. intros j Hj Hc. split_and!; [done|by apply undisturbed_refl|done]. Qed.

Lemma kept_trans r c r1 c1 r2 c2 : keeps r c r1 c1 -> keeps r1 c1 r2 c2 -> keeps r c r2 c2.
Proof.
  intros K1 K2 j Hj Hc. destruct (K2 j Hj Hc) as (S1 & (A1 & A2 & A3 & A4) & B1).
  destruct (K1 j Hj S1) as (S0 & (C1 & C2 & C3 & C4) & B0).
  split_and!; [done|split_and!; congruence|congruence].
Qed.

Lemma sock_count_app i l l' : sock_count i (l ++ l') = (sock_count i l + sock_count i l')%nat.
Proof. unfold sock_count. by rewrite List.filter_app, length_app. Qed.

Lemma inflight_app i q q' : inflight i (q ++ q') = (inflight i q + inflight i q')%nat.
Proof. unfold inflight, in_flight. by rewrite map_app, concat_app, sock_count_app. Qed.

Lemma inflight_filter i (f : ScmBatch -> bool) q :
  (inflight i (List.filter f q) + inflight i (List.filter (fun b => negb (f b)) q) = inflight i q)%nat.
Proof.
  unfold inflight, in_flight. induction q as [|b q IH]; [done|]. cbn [List.filter map concat].
  destruct (f b); cbn [negb map concat]; rewrite !sock_count_app; lia.
Qed.

Lemma standing_undisturbed s s' bs : undisturbed s s' -> standing s bs -> standing s' bs.
Proof. intros (_ & _ & E1 & E2). unfold standing. by rewrite E1, E2. Qed.

Lemma standing_nil s : standing s [].
Proof. split; constructor. Qed.

Lemma batches_filter i (f : ScmBatch -> bool) q :
  batches i (List.filter f q) = List.filter f (batches i q).
Proof.
  unfold batches. induction q as [|b q IH]; [done|]. simpl.
  destruct (f b) eqn:Ef, (receiver_id b =? i)%nat eqn:Ei; simpl; rewrite ?Ef, ?Ei, ?IH; done.
Qed.

Lemma elem_of_batches i q b : b ∈ batches i q <-> b ∈ q /\ receiver_id b = i.
Proof.
  unfold batches. rewrite !list_elem_of_In, filter_In. by rewrite Nat.eqb_eq.
Qed.

Lemma batches_nil i q : (forall b, b ∈ q -> receiver_id b <> i) -> batches i q = [].
Proof.
  intros Hq. destruct (batches i q) as [|b bs] eqn:E; [done|].
  assert (b ∈ batches i q) as Hb by (rewrite E; by left).
  apply elem_of_batches in Hb as [Hb Hr]. by apply Hq in Hb.
Qed.

(** A socket that is not connected has no batches. *)
Lemma batches_connected r c owed i :
  rights_ok r c owed -> state (TABLE (sys r) !!! i) <> Connected -> batches i (PENDING_SCM c) = [].
Proof. intros [] Hn. apply batches_nil. intros b Hb <-. by destruct (ri_recv0 b Hb) as (_ & _ & ? & _). Qed.

(* ------------------------------------------------------------------ *)
(** ** Closing *)

Definition less_one id (owed : nat -> nat) : nat -> nat :=
  fun i => if (i =? id)%nat then (owed i - 1)%nat else owed i.

(** What [close_slot] does to the slot itself, and that it connects nobody. *)
Lemma close_slot_self id t :
  length t = MAX_UNIX_SOCKETS -> (id < MAX_UNIX_SOCKETS)%nat -> live t id ->
  let '(t', torn, _) := close_slot id t in
  (if torn then state (t' !!! id) = Free
   else state (t !!! id) = Connected -> undisturbed (t !!! id) (t' !!! id)) /\
  forall j, (state (t' !!! j) = Connected -> state (t !!! j) = Connected) /\
    (peer_id (t' !!! j) = peer_id (t !!! j) \/ peer_id (t' !!! j) = None).
Proof.
  intros Hlen Hi L. unfold close_slot.
  rewrite (proj2 (Nat.leb_gt _ _) Hi : bad_id id = false), (proj2 (is_free_false _) L).
  destruct (1 <? ref_count (t !!! id)).
  { rewrite upd_at, decide_True by (done || lia). split.
    - intros Hc. by split.
    - intros j. rewrite upd_at by lia. case_decide; subst; auto. }
  assert (forall j, (state (<[id := reset (t !!! id)]> t !!! j) = Connected -> state (t !!! j) = Connected) /\
    (peer_id (<[id := reset (t !!! id)]> t !!! j) = peer_id (t !!! j) \/
     peer_id (<[id := reset (t !!! id)]> t !!! j) = None)) as Hback.
  { intros j. rewrite upd_at by lia. case_decide; [by split; [|right]|auto]. }
  destruct (peer_id (t !!! id)) as [p|]; [|by rewrite upd_at, decide_True by (done || lia)].
  destruct (negb (bad_id p) && _) eqn:Eb; [|by rewrite upd_at, decide_True by (done || lia)].
  apply andb_true_iff in Eb as [Hp%negb_true_iff%Nat.leb_gt [Hc _]%andb_true_iff].
  apply bool_decide_eq_true in Hc.
  assert (p <> id) as Hne by (intros ->; rewrite upd_at, decide_True in Hc by (done || lia); done).
  rewrite alter_upd by (rewrite length_insert; lia).
  split; [by rewrite !upd_at, decide_False, decide_True by (rewrite ?length_insert; done || lia)|].
  intros j. rewrite upd_at by (rewrite length_insert; lia). case_decide; [subst j|by apply Hback].
  split; [intros _; by apply Hback|by right].
Qed.

Lemma owed_holds r c owed id : rights_ok r c owed -> (0 < owed id)%nat -> holds r id = true.
Proof. intros [] Ho. apply Nat.ltb_lt. specialize (ri_refs0 id). lia. Qed.

(** The slot, and the batches queued for it when it was torn down. *)
Definition after_close id c : ScmSys * list FileDescriptor * bool :=
  let '(t, torn, told) := close_slot id (TABLE (ux c)) in
  let c1 := call (CUnix (OClose id)) (with_ux (with_table t (ux c)) c) in
  if torn then
    let '(l, q) := scm_drain_receiver id (PENDING_SCM c1) in (with_pending q c1, l, told)
  else (c1, [], false).

Lemma batches_drain id j q :
  batches j (scm_drain_receiver id q).2 = if decide (j = id) then [] else batches j q.
Proof.
  cbn [scm_drain_receiver snd]. rewrite batches_filter. unfold batches.
  case_decide as Hj; [subst j|]; induction q as [|b q IH]; try done; simpl.
  - destruct (receiver_id b =? id)%nat eqn:E; simpl; rewrite ?E; simpl; done.
  - destruct (Nat.eqb_spec (receiver_id b) j) as [E|]; [|done]. simpl.
    rewrite (proj2 (Nat.eqb_neq _ _)) by congruence. simpl. by rewrite IH.
Qed.

(** Fewer batches, and nothing disturbed where one is left. *)
Lemma rights_shrunk r c owed r1 c1 owed1 :
  rights_ok r c owed -> run_ok r1 -> TABLE (ux c1) = TABLE (sys r1) ->
  (forall i, (owed1 i + inflight i (PENDING_SCM c1) <= opens r1 !!! i)%nat) ->
  (forall b, b ∈ PENDING_SCM c1 -> b ∈ PENDING_SCM c /\
    undisturbed (TABLE (sys r) !!! receiver_id b) (TABLE (sys r1) !!! receiver_id b)) ->
  (forall i, batches i (PENDING_SCM c1) = batches i (PENDING_SCM c) \/ batches i (PENDING_SCM c1) = []) ->
  rights_ok r1 c1 owed1.
Proof.
  intros [Hrun Htab Hrefs Hrecv Hpos] Hrun1 Htab1 Hrefs1 Hq Hb. split; [done|done|done|..].
  - intros b (Hin & F1 & F2 & _)%Hq. destruct (Hrecv b Hin) as (R1 & R2 & R3 & R4). split_and!; congruence.
  - intros i Hi. destruct (batches i (PENDING_SCM c1)) as [|b bs] eqn:E; [apply standing_nil|].
    assert (b ∈ batches i (PENDING_SCM c1)) as [Hin <-]%elem_of_batches by (rewrite E; by left).
    destruct (Hb (receiver_id b)) as [E'|E']; [|by rewrite E' in E]. rewrite <- E, E'.
    eapply standing_undisturbed; [by apply Hq|by apply Hpos].
Qed.

Lemma close_step id r c owed :
  rights_ok r c owed -> (0 < owed id)%nat ->
  let '(c1, l, _) := after_close id c in
  exists r1, tracks r c r1 c1 /\ keeps r c r1 c1 /\ severs r r1 /\
    rights_ok r1 c1 (fun i => (less_one id owed i + sock_count i l)%nat).
Proof.
  intros Hok Ho. pose proof (owed_holds _ _ _ _ Hok Ho) as Hh.
  destruct (holder r id (ri_run _ _ _ Hok) Hh) as (Hi & L & _ & _). pose proof Hok as [Hrun Htab Hrefs Hrecv _].
  pose proof (eo_len _ _ _ _ (rk_ends _ Hrun)) as Hlen.
  assert (ustep (OClose id) r = Some (with_opens (alter pred id (opens r)) (with_sys (close_unix id (sys r)) r))) as Hst.
  { unfold ustep. by rewrite Hh. }
  set (r1 := with_opens _ _) in Hst. pose proof (unix_step_ok _ _ _ Hrun Hst) as Hrun1.
  assert (TABLE (sys r1) = (close_slot id (TABLE (sys r))).1.1) as Ht1 by apply close_unix_table.
  assert (forall i, (less_one id owed i + inflight i (PENDING_SCM c) <= opens r1 !!! i)%nat) as Hrefs1.
  { intros i. specialize (Hrefs i). cbn [r1 with_opens opens]. unfold less_one.
    rewrite alter_upd, upd_at by (rewrite (ko_len _ _ (rk_refs _ Hrun)); done).
    destruct (Nat.eqb_spec i id), (decide (i = id)); subst; lia. }
  pose proof (close_slot_self id (TABLE (sys r)) Hlen Hi L) as Hself.
  pose proof (fun i => close_slot_frame id (TABLE (sys r)) i Hlen Hi) as Hframe.
  unfold after_close. rewrite Htab. destruct (close_slot id (TABLE (sys r))) as [[t torn] told].
  cbn [fst] in Ht1, Hframe. destruct Hself as [Hs Hself].
  assert (forall j, state (t !!! j) = Connected -> state (TABLE (sys r) !!! j) = Connected) as Hback by (intros j; apply Hself).
  assert (severs r r1) as Hsev by (intros j; rewrite Ht1; apply Hself). clear Hself. destruct torn.
  - pose proof (fun j => batches_drain id j (PENDING_SCM c)) as Hbd.
    cbn [call with_ux PENDING_SCM]. destruct (scm_drain_receiver id (PENDING_SCM c)) as [l q] eqn:Edr.
    cbn [snd] in Hbd. exists r1. split_and!; [by eapply tracks_call| |done|].
    + intros j Hj. rewrite Ht1. intros Hc. assert (j <> id) as Hne by congruence.
      split_and!; [by apply Hback|apply Hframe; [done|by apply Hback]|]. cbn [with_pending PENDING_SCM].
      by rewrite Hbd, decide_False.
    + eapply rights_shrunk; [exact Hok|done|by rewrite Ht1|..]; cbn [with_pending PENDING_SCM].
      * intros i. specialize (Hrefs1 i). pose proof (inflight_filter i (fun b => (receiver_id b =? id)%nat) (PENDING_SCM c)) as Hsp.
        injection Edr as <- <-. unfold inflight, in_flight in *. lia.
      * injection Edr as <- <-. intros b [Hb Hne%negb_true_iff%Nat.eqb_neq]%list_elem_of_In%filter_In.
        apply list_elem_of_In in Hb. split; [done|]. rewrite Ht1. apply Hframe; [done|]. by apply Hrecv.
      * intros i. rewrite Hbd. case_decide; auto.
  - assert (forall j, state (t !!! j) = Connected -> undisturbed (TABLE (sys r) !!! j) (t !!! j)) as Hund.
    { intros j Hc. destruct (decide (j = id)) as [->|Hne]; [by apply Hs, Hback|by apply Hframe, Hback]. }
    exists r1. split_and!; [by eapply tracks_call| |done|].
    + intros j Hj. rewrite Ht1. intros Hc. split_and!; [by apply Hback|by apply Hund|done].
    + eapply rights_shrunk; [exact Hok|done|by rewrite Ht1|..]; cbn [call with_ux PENDING_SCM].
      * intros i. specialize (Hrefs1 i). change (sock_count i []) with 0%nat. lia.
      * intros b Hb. split; [done|]. rewrite Ht1. destruct (Hrecv b Hb) as (R1 & _ & R3 & _).
        destruct (decide (receiver_id b = id)) as [E|Hne]; [|by apply Hframe].
        rewrite E in *. by apply Hs.
      * intros i. by left.
Qed.

Lemma close_fuel_eq fuel id c :
  close_fuel (S fuel) id c =
  (let '(c1, l, told) := after_close id c in
   c2 ← drop_refs (close_fuel fuel) l c1;
   Some (if told then with_ux (ring_unix BellUnixShutdown (ux c2)) c2 else c2)).
Proof.
  cbn [close_fuel]. unfold after_close. destruct (close_slot id (TABLE (ux c))) as [[t torn] told].
  destruct torn; [|done]. by destruct (scm_drain_receiver id _).
Qed.

Lemma after_close_flight id c :
  let '(c1, l, _) := after_close id c in
  (length l + length (in_flight (PENDING_SCM c1)) <= length (in_flight (PENDING_SCM c)))%nat.
Proof.
  unfold after_close. destruct (close_slot id (TABLE (ux c))) as [[t torn] told]. destruct torn; [|simpl; lia].
  pose proof (drain_in_flight id (PENDING_SCM c)) as Hd. cbn [call with_ux PENDING_SCM].
  destruct (scm_drain_receiver id (PENDING_SCM c)). cbn [with_pending PENDING_SCM]. lia.
Qed.

(** A change of the wake state or of the record of other calls. *)
Lemma rights_same_table r c c' owed :
  rights_ok r c owed -> TABLE (ux c') = TABLE (ux c) -> PENDING_SCM c' = PENDING_SCM c -> rights_ok r c' owed.
Proof. intros [] E1 E2. split; try done; by rewrite ?E1, ?E2. Qed.

Lemma rights_ext r c owed owed' :
  rights_ok r c owed -> (forall i, owed' i = owed i) -> rights_ok r c owed'.
Proof. intros [] E. split; try done. intros i. by rewrite E. Qed.

Lemma keeps_same_queue r c c' : PENDING_SCM c' = PENDING_SCM c -> keeps r c r c'.
Proof. intros E j Hj Hc. rewrite E. split_and!; [done|by apply undisturbed_refl|done]. Qed.

(** [closes cl n]: closing with [cl] works on states with at most [n]
    descriptors in flight. *)
Definition closes (cl : nat -> ScmSys -> option ScmSys) (n : nat) : Prop :=
  forall id r c owed, (length (in_flight (PENDING_SCM c)) <= n)%nat -> rights_ok r c owed -> (0 < owed id)%nat ->
  exists r' c', cl id c = Some c' /\ tracks r c r' c' /\ keeps r c r' c' /\ severs r r' /\
    rights_ok r' c' (less_one id owed) /\
    (length (in_flight (PENDING_SCM c')) <= length (in_flight (PENDING_SCM c)))%nat.

Lemma drop_one_ok cl n fd r c owed :
  closes cl n -> (length (in_flight (PENDING_SCM c)) <= n)%nat -> rights_ok r c owed ->
  (forall i, (sock_count i [fd] <= owed i)%nat) ->
  exists r' c', drop_ref cl fd c = Some c' /\ tracks r c r' c' /\ keeps r c r' c' /\ severs r r' /\
    rights_ok r' c' (fun i => (owed i - sock_count i [fd])%nat) /\
    (length (in_flight (PENDING_SCM c')) <= length (in_flight (PENDING_SCM c)))%nat.
Proof.
  intros Hcl Hn Hok Ho. unfold drop_ref, sock_count in *. unfold is_ref in *. cbn [List.filter] in *.
  destruct (object_ref fd) as [id|w id|m ino|id|] eqn:E.
  - destruct (Hcl id r c owed Hn Hok) as (r' & c' & H1 & H2 & H3 & Hv & H4 & H5).
    { specialize (Ho id). rewrite Nat.eqb_refl in Ho. simpl in Ho. lia. }
    exists r', c'. split_and!; try done. eapply rights_ext; [done|]. intros i. unfold less_one.
    rewrite Nat.eqb_sym. destruct (i =? id)%nat; simpl; lia.
  - exists r, (call (CPipeClose w id) c). split_and!; [done|by apply (tracks_other r c _ [CPipeClose w id])|by apply keeps_same_queue|apply severs_refl| |done].
    eapply rights_ext; [by eapply rights_same_table|]. intros i. simpl. lia.
  - exists r, (call (CUnpin m ino) c). split_and!; [done|by apply (tracks_other r c _ [CUnpin m ino])|by apply keeps_same_queue|apply severs_refl| |done].
    eapply rights_ext; [by eapply rights_same_table|]. intros i. simpl. lia.
  - exists r, (call (CEventClose id) c). split_and!; [done|by apply (tracks_other r c _ [CEventClose id])|by apply keeps_same_queue|apply severs_refl| |done].
    eapply rights_ext; [by eapply rights_same_table|]. intros i. simpl. lia.
  - exists r, c. split_and!; [done|apply tracks_refl|apply keeps_refl|apply severs_refl| |done].
    eapply rights_ext; [done|]. intros i. simpl. lia.
Qed.

Lemma drop_all_ok cl n l r c owed :
  closes cl n -> (length (in_flight (PENDING_SCM c)) <= n)%nat -> rights_ok r c owed ->
  (forall i, (sock_count i l <= owed i)%nat) ->
  exists r' c', drop_refs cl l c = Some c' /\ tracks r c r' c' /\ keeps r c r' c' /\ severs r r' /\
    rights_ok r' c' (fun i => (owed i - sock_count i l)%nat) /\
    (length (in_flight (PENDING_SCM c')) <= length (in_flight (PENDING_SCM c)))%nat.
Proof.
  intros Hcl. revert r c owed. induction l as [|fd l IH]; intros r c owed Hn Hok Ho.
  { exists r, c. split_and!; [done|apply tracks_refl|apply keeps_refl|apply severs_refl| |done].
    eapply rights_ext; [done|]. intros i. unfold sock_count. simpl. lia. }
  assert (forall i, sock_count i (fd :: l) = sock_count i [fd] + sock_count i l)%nat as Esum
    by (intros i; apply (sock_count_app i [fd] l)).
  destruct (drop_one_ok cl n fd r c owed Hcl Hn Hok) as (r1 & c1 & H1 & T1 & K1 & V1 & R1 & L1).
  { intros i. specialize (Ho i). rewrite Esum in Ho. lia. }
  destruct (IH r1 c1 _ ltac:(lia) R1) as (r2 & c2 & H2 & T2 & K2 & V2 & R2 & L2).
  { intros i. specialize (Ho i). rewrite Esum in Ho. lia. }
  exists r2, c2. cbn [drop_refs]. rewrite H1. cbn [mbind option_bind].
  split_and!; [done|by eapply tracks_trans|by eapply kept_trans|by eapply severs_trans| |lia].
  eapply rights_ext; [exact R2|]. intros i. cbv beta. rewrite Esum. lia.
Qed.

Lemma close_fuel_ok fuel : closes (close_fuel (S fuel)) fuel.
Proof.
  induction fuel as [fuel IH] using lt_wf_ind. intros id r c owed Hn Hok Ho.
  rewrite close_fuel_eq. pose proof (close_step id r c owed Hok Ho) as Hst.
  pose proof (after_close_flight id c) as Hfl. destruct (after_close id c) as [[c1 l] told].
  destruct Hst as (r1 & T1 & K1 & V1 & R1).
  assert (exists r2 c2, drop_refs (close_fuel fuel) l c1 = Some c2 /\ tracks r1 c1 r2 c2 /\ keeps r1 c1 r2 c2 /\ severs r1 r2 /\
    rights_ok r2 c2 (less_one id owed) /\
    (length (in_flight (PENDING_SCM c2)) <= length (in_flight (PENDING_SCM c1)))%nat) as (r2 & c2 & H2 & T2 & K2 & V2 & R2 & L2).
  { destruct l as [|fd l].
    { exists r1, c1. split_and!; [done|apply tracks_refl|apply keeps_refl|apply severs_refl| |done].
      eapply rights_ext; [exact R1|]. intros i. cbv beta. change (sock_count i []) with 0%nat. lia. }
    destruct fuel as [|fuel]; [simpl in Hfl; lia|].
    edestruct (drop_all_ok (close_fuel (S fuel)) fuel (fd :: l) r1 c1) as (r2 & c2 & H2 & T2 & K2 & V2 & R2 & L2);
      [apply IH; lia|simpl in Hfl; lia|exact R1|intros i; cbv beta; lia|].
    exists r2, c2. split_and!; try done. eapply rights_ext; [exact R2|]. intros i. cbv beta. lia. }
  rewrite H2. cbn [mbind option_bind].
  exists r2, (if told then with_ux (ring_unix BellUnixShutdown (ux c2)) c2 else c2). split_and!; [done| | |by eapply severs_trans| |].
  - eapply tracks_trans; [exact T1|]. destruct T2 as (cs & E & U). exists cs. by destruct told.
  - eapply kept_trans; [exact K1|]. eapply kept_trans; [exact K2|]. apply keeps_same_queue. by destruct told.
  - eapply rights_same_table; [exact R2|by destruct told..].
  - destruct told; cbn [with_ux PENDING_SCM]; lia.
Qed.

Lemma drop_fds_ok l r c owed :
  rights_ok r c owed -> (forall i, (sock_count i l <= owed i)%nat) ->
  exists r' c', scm_drop_fds l c = Some c' /\ tracks r c r' c' /\ keeps r c r' c' /\ severs r r' /\
    rights_ok r' c' (fun i => (owed i - sock_count i l)%nat).
Proof.
  intros Hok Ho. destruct (drop_all_ok _ _ l r c owed (close_fuel_ok _) (Nat.le_refl _) Hok Ho) as (r' & c' & H1 & H2 & H3 & H4 & H5 & _).
  by exists r', c'.
Qed.

(* ------------------------------------------------------------------ *)
(** ** Taking references *)

(** Connected sockets are left alone and peers stay peers. *)
Definition steady r r' : Prop :=
  (forall j, (j < MAX_UNIX_SOCKETS)%nat -> state (TABLE (sys r) !!! j) = Connected ->
    undisturbed (TABLE (sys r) !!! j) (TABLE (sys r') !!! j)) /\
  forall j, peer_id (TABLE (sys r') !!! j) = peer_id (TABLE (sys r) !!! j).

Lemma steady_refl r : steady r r.
Proof. split; [|done]. intros j Hj Hc. by apply undisturbed_refl. Qed.

Lemma steady_trans r r1 r2 : steady r r1 -> steady r1 r2 -> steady r r2.
Proof.
  intros [U1 P1] [U2 P2]. split; [|congruence]. intros j Hj Hc. pose proof (U1 j Hj Hc) as (A1 & A2 & A3 & A4).
  destruct (U2 j Hj A1) as (B1 & B2 & B3 & B4). split_and!; congruence.
Qed.

Lemma inc_ref_table id u u' : TABLE u = TABLE u' -> TABLE (inc_ref id u) = TABLE (inc_ref id u').
Proof. intros E. unfold inc_ref. rewrite E. by repeat case_match. Qed.

Lemma take_one_ok fd r c owed (room : nat) :
  rights_ok r c owed -> (forall i, (sock_count i [fd] <= owed i)%nat) ->
  (forall i, Z.of_nat (opens r !!! i) + Z.of_nat (S room) <= U32_MAX) ->
  exists r', tracks r c r' (take_ref c fd) /\ keeps r c r' (take_ref c fd) /\
    rights_ok r' (take_ref c fd) (fun i => (owed i + sock_count i [fd])%nat) /\
    PENDING_SCM (take_ref c fd) = PENDING_SCM c /\ steady r r' /\
    (forall i, Z.of_nat (opens r' !!! i) + Z.of_nat room <= U32_MAX).
Proof.
  intros Hok Ho Hroom. unfold take_ref, sock_count, is_ref in *. cbn [List.filter] in *.
  destruct (object_ref fd) as [id|w id|m ino|id|] eqn:E.
  2-5: exists r; split_and!; [|by apply keeps_same_queue|eapply rights_ext; [by eapply rights_same_table|intros i; simpl; lia]|done|apply steady_refl|
         intros i; specialize (Hroom i); lia].
  2: by apply (tracks_other r c _ [CPipeAdd w id]).
  2: by apply (tracks_other r c _ [CPin m ino]).
  2: by apply (tracks_other r c _ [CEventInc id]).
  2: apply tracks_refl.
  pose proof (Ho id) as Hid. rewrite Nat.eqb_refl in Hid. simpl in Hid.
  pose proof (owed_holds r c owed id Hok ltac:(lia)) as Hh. pose proof Hok as [Hrun Htab Hrefs Hrecv _].
  destruct (holder r id Hrun Hh) as (Hi & L & Hbad & Hop).
  assert (ustep (ODup id) r = Some (with_opens (alter S id (opens r)) (with_sys (inc_ref id (sys r)) r))) as Hst.
  { unfold ustep. rewrite Hh, (proj2 (Z.ltb_lt _ _)) by (specialize (Hroom id); lia). done. }
  set (r' := with_opens _ _) in Hst. exists r'. pose proof (unix_step_ok _ _ _ Hrun Hst) as Hrun'.
  assert (forall i, opens r' !!! i = opens r !!! i + (if id =? i then 1 else 0))%nat as Eo.
  { intros i. cbn [r' with_opens opens]. rewrite alter_upd, upd_at by (rewrite (ko_len _ _ (rk_refs _ Hrun)); done).
    rewrite Nat.eqb_sym. destruct (Nat.eqb_spec i id), (decide (i = id)); subst; try done; lia. }
  assert (forall j, (j < MAX_UNIX_SOCKETS)%nat -> state (TABLE (sys r) !!! j) = Connected ->
    undisturbed (TABLE (sys r) !!! j) (TABLE (sys r') !!! j)) as Hund.
  { intros j Hj Hc. apply (frame_step _ _ _ _ Hrun Hst); try done. by intros []. }
  assert (forall j, (j < MAX_UNIX_SOCKETS)%nat -> state (TABLE (sys r') !!! j) = Connected -> state (TABLE (sys r) !!! j) = Connected) as Hback.
  { intros j Hj. cbn [r' with_opens with_sys sys]. unfold inc_ref. rewrite Hbad. case_match; [done|].
    cbn [with_table TABLE]. rewrite alter_upd, upd_at by (rewrite (eo_len _ _ _ _ (rk_ends _ Hrun)); done).
    by case_decide; subst. }
  split_and!; [by eapply tracks_call| | |done| |].
  - intros j Hj Hc. split_and!; [by apply Hback|by apply Hund, Hback|done].
  - eapply rights_shrunk; [exact Hok|done| | | |].
    + cbn [call with_ux ux r' with_opens with_sys sys]. by apply inc_ref_table.
    + intros i. specialize (Hrefs i). rewrite Eo. cbn [call with_ux PENDING_SCM]. destruct (id =? i)%nat; simpl; lia.
    + intros b Hb. split; [done|]. destruct (Hrecv b Hb) as (? & _ & ? & _). by apply Hund.
    + intros i. by left.
  - split; [done|]. intros j. cbn [r' with_opens with_sys sys]. unfold inc_ref. rewrite Hbad. case_match; [done|].
    cbn [with_table TABLE]. rewrite alter_upd, upd_at by (rewrite (eo_len _ _ _ _ (rk_ends _ Hrun)); done).
    by case_decide; subst.
  - intros i. rewrite Eo. specialize (Hroom i). case_match; lia.
Qed.

Lemma take_all_ok l r c owed :
  rights_ok r c owed -> (forall i, (0 < sock_count i l)%nat -> (0 < owed i)%nat) ->
  (forall i, Z.of_nat (opens r !!! i) + Z.of_nat (length l) <= U32_MAX) ->
  let c' := fold_left take_ref l c in
  exists r', tracks r c r' c' /\ keeps r c r' c' /\
    rights_ok r' c' (fun i => (owed i + sock_count i l)%nat) /\ PENDING_SCM c' = PENDING_SCM c /\
    steady r r'.
Proof.
  revert r c owed. induction l as [|fd l IH]; intros r c owed Hok Ho Hroom; cbn [fold_left].
  { exists r. split_and!; [apply tracks_refl|apply keeps_refl| |done|apply steady_refl].
    eapply rights_ext; [done|]. intros i. change (sock_count i []) with 0%nat. lia. }
  assert (forall i, sock_count i (fd :: l) = sock_count i [fd] + sock_count i l)%nat as Esum
    by (intros i; apply (sock_count_app i [fd] l)).
  assert (forall i, sock_count i [fd] <= 1)%nat as Hone.
  { intros i. unfold sock_count. cbn [List.filter]. destruct (is_ref i fd); simpl; lia. }
  destruct (take_one_ok fd r c owed (length l) Hok) as (r1 & T1 & K1 & R1 & E1 & S1 & B1); [|done|].
  { intros i. specialize (Ho i). specialize (Hone i). rewrite Esum in Ho. lia. }
  destruct (IH r1 (take_ref c fd) _ R1) as (r2 & T2 & K2 & R2 & E2 & S2); [|done|].
  { intros i Hi. specialize (Ho i). rewrite Esum in Ho. lia. }
  exists r2. split_and!; [by eapply tracks_trans|by eapply kept_trans| |by rewrite E2|by eapply steady_trans].
  eapply rights_ext; [exact R2|]. intros i. cbv beta. rewrite Esum. lia.
Qed.

(* ------------------------------------------------------------------ *)
(** ** Bytes with descriptors on them *)

(** The unread bytes from stream position [pos] on, each with the descriptors
    of the batch that stands on it. *)
Fixpoint mark (pos : Z) (bs : list ScmBatch) (bytes : list Z) : list (Z * list FileDescriptor) :=
  match bytes with
  | [] => []
  | x :: bytes =>
      match bs with
      | b :: bs' =>
          if byte_offset b =? pos + 1 then (x, fds b) :: mark (pos + 1) bs' bytes
          else (x, []) :: mark (pos + 1) bs bytes
      | [] => (x, []) :: mark (pos + 1) [] bytes
      end
  end.

Definition plain (bytes : list Z) : list (Z * list FileDescriptor) := map (fun x => (x, [])) bytes.

(** A message: its descriptors ride on the first byte. *)
Definition carrying l (bytes : list Z) : list (Z * list FileDescriptor) :=
  match bytes with [] => [] | x :: bytes => (x, l) :: plain bytes end.

Lemma mark_nil pos bytes : mark pos [] bytes = plain bytes.
Proof. revert pos. induction bytes as [|x bytes IH]; intros pos; [done|]. simpl. by rewrite IH. Qed.

Lemma stands_after pos b bs n :
  stands pos (b :: bs) (S n) -> byte_offset b = pos + 1 -> stands (pos + 1) bs n.
Proof.
  intros [[Hs Hf]%StronglySorted_inv Hb] E. apply Forall_inv_tail in Hb. split; [done|].
 rewrite List.Forall_forall in Hf. rewrite List.Forall_forall in Hb. apply List.Forall_forall. intros b' Hin.
  specialize (Hf b' Hin). specialize (Hb b' Hin). simpl in *. lia.
Qed.

Lemma stands_skip pos b bs n :
  stands pos (b :: bs) (S n) -> byte_offset b <> pos + 1 -> stands (pos + 1) (b :: bs) n.
Proof.
  intros [Hs Hb] E. split; [done|]. pose proof (Forall_inv Hb) as Hb0. cbv beta in Hb0.
  apply StronglySorted_inv in Hs as [_ Hf]. rewrite List.Forall_forall in Hf.
  rewrite List.Forall_forall in Hb. apply List.Forall_forall. intros b' Hin. specialize (Hb b' Hin).
  destruct Hin as [<-|Hin]; [lia|]. specialize (Hf b' Hin). simpl in *. lia.
Qed.

Lemma stands_empty pos b bs : ~ stands pos (b :: bs) 0.
Proof. intros [_ Hb%Forall_inv]. lia. Qed.

(** New bytes are unmarked; a new batch marks the first of them. *)
Lemma mark_grow pos bs bytes extra :
  stands pos bs (length bytes) -> mark pos bs (bytes ++ extra) = mark pos bs bytes ++ plain extra.
Proof.
  revert pos bs. induction bytes as [|x bytes IH]; intros pos bs Hs; cbn [length] in Hs.
  { destruct bs as [|b bs]; [by rewrite mark_nil|by apply stands_empty in Hs]. }
  cbn [app mark]. destruct bs as [|b bs]; [rewrite !mark_nil; unfold plain; by rewrite map_app|].
  destruct (Z.eqb_spec (byte_offset b) (pos + 1)) as [E|E]; cbn [app]; f_equal; apply IH;
    [by eapply stands_after|by apply stands_skip].
Qed.

Lemma mark_send pos bs b bytes extra :
  stands pos bs (length bytes) -> byte_offset b = pos + Z.of_nat (length bytes) + 1 -> extra <> [] ->
  mark pos (bs ++ [b]) (bytes ++ extra) = mark pos bs bytes ++ carrying (fds b) extra.
Proof.
  revert pos bs. induction bytes as [|x bytes IH]; intros pos bs Hs Hb He; cbn [length] in Hs, Hb.
  { destruct bs as [|b' bs]; [|by apply stands_empty in Hs]. destruct extra as [|x extra]; [done|]. simpl.
    rewrite (proj2 (Z.eqb_eq _ _)) by lia. by rewrite mark_nil. }
  cbn [app mark]. destruct bs as [|b' bs]; cbn [app].
  - rewrite (proj2 (Z.eqb_neq _ _)) by lia. f_equal. apply (IH (pos + 1) []); [|lia|done]. split; constructor.
  - destruct (Z.eqb_spec (byte_offset b') (pos + 1)) as [E|E]; cbn [app]; f_equal.
    + apply IH; [by eapply stands_after|lia|done].
    + apply (IH (pos + 1) (b' :: bs)); [by apply stands_skip|lia|done].
Qed.

(** Reading up to the first marked byte. *)
Lemma mark_read pos bs bytes n :
  stands pos bs (length bytes) -> (n <= length bytes)%nat ->
  (forall b bs', bs = b :: bs' -> Z.of_nat n <= byte_offset b - pos) ->
  let hit := match bs with b :: _ => byte_offset b =? pos + Z.of_nat n | [] => false end in
  take n (mark pos bs bytes) =
    (match bs with
     | b :: _ => if hit then plain (take (n - 1) bytes) ++ carrying (fds b) (take 1 (drop (n - 1) bytes)) else plain (take n bytes)
     | [] => plain (take n bytes)
     end) /\
  drop n (mark pos bs bytes) = mark (pos + Z.of_nat n) (if hit then tail bs else bs) (drop n bytes).
Proof.
  revert pos bs bytes. induction n as [|n IH]; intros pos bs bytes Hs Hn Hb hit; subst hit.
  { rewrite take_0, !drop_0. rewrite Z.add_0_r. destruct bs as [|b bs]; [done|].
    pose proof (Forall_inv (proj2 Hs)) as Hb0. cbv beta in Hb0. rewrite (proj2 (Z.eqb_neq _ _)) by lia. done. }
  destruct bytes as [|x bytes]; [simpl in Hn; lia|]. cbn [length] in Hs, Hn. destruct bs as [|b bs].
  { rewrite !mark_nil. unfold plain. cbn [tail]. by rewrite firstn_map, skipn_map. }
  specialize (Hb b bs eq_refl). cbn [mark tail]. destruct (Z.eqb_spec (byte_offset b) (pos + 1)) as [E|E].
  - assert (n = 0)%nat as -> by lia. rewrite (proj2 (Z.eqb_eq _ _)) by lia.
    cbn [take drop]. rewrite !take_0, !drop_0. by split.
  - cbn [take drop]. destruct (IH (pos + 1) (b :: bs) bytes) as [IH1 IH2]; [by apply stands_skip|lia|..].
    { intros b' bs' [= <- <-]. lia. }
    rewrite IH1, IH2. replace (pos + 1 + Z.of_nat n) with (pos + Z.of_nat (S n)) by lia.
    destruct (Z.eqb_spec (byte_offset b) (pos + Z.of_nat (S n))) as [E'|E']; [|done].
    destruct n as [|n]; [lia|]. rewrite Nat.sub_succ, Nat.sub_0_r. cbn [take drop].
    replace (S n - 1)%nat with n by lia. by split.
Qed.

(* ------------------------------------------------------------------ *)
(** ** Counters that have not wrapped *)

Definition sent_bytes g r : Z := Z.of_nat (length (concat (sent_to g (log r)))).

(** Fewer than [u64::MAX] bytes have gone to any endpoint. *)
Definition bounded r : Prop := forall g, sent_bytes g r < U64_MAX.

Lemma counters_exact r i :
  run_ok r -> bounded r -> (i < MAX_UNIX_SOCKETS)%nat -> live (TABLE (sys r)) i ->
  kind (TABLE (sys r) !!! i) = Stream ->
  recv_pushed (TABLE (sys r) !!! i) < U64_MAX /\
  recv_popped (TABLE (sys r) !!! i) + Z.of_nat (length (contents (TABLE (sys r) !!! i))) =
    recv_pushed (TABLE (sys r) !!! i).
Proof.
  intros [He Hk [Hring Hpu _ Hord]] Hb Hi L Hs. specialize (Hb (gens r !!! i)). unfold sent_bytes in Hb.
  destruct (Hord _ _ (eo_kind _ _ _ _ He i Hi L)) as (rest & Ho & Hrest).
  rewrite (Hrest i Hi L eq_refl) in Ho. unfold inbox in Ho. rewrite Hs in Ho. simpl in Ho. rewrite app_nil_r in Ho.
  rewrite (Hpu i Hi L). apply (f_equal length) in Ho. rewrite length_app in Ho.
  pose proof (ro_pop _ (Hring i Hi)) as Hw. pose proof (ro_count _ (Hring i Hi)) as Hc.
  rewrite (Hpu i Hi L) in Hc. unfold U64_MAX in Hb. rewrite unread_length in Ho |- *.
  rewrite wrap_small in Hc |- * by (split; lia). split; [unfold U64_MAX; lia|].
  unfold add64, wrap, in_word in *.
  set (n := Z.of_nat (length (concat (sent_to (gens r !!! i) (log r))))) in *.
  set (a := Z.of_nat (recv_available (TABLE (sys r) !!! i))) in *.
  set (w := recv_popped (TABLE (sys r) !!! i)) in *.
  assert (0 <= a <= n) by (unfold a, n; lia). rewrite Hc.
  destruct (Z_lt_ge_dec (w + a) (2 ^ 64)) as [Hlt|Hge]; [by rewrite Z.mod_small by lia|].
  rewrite <- (Z.mod_unique (w + a) (2 ^ 64) 1 (w + a - 2 ^ 64)) in Hc by lia. lia.
Qed.

(* ------------------------------------------------------------------ *)
(** ** Sending *)

Lemma write_table id data u u' :
  TABLE u = TABLE u' ->
  (write id data u).1 = (write id data u').1 /\ TABLE (write id data u).2 = TABLE (write id data u').2.
Proof.
  intros E. unfold write. rewrite E. repeat (case_match; try done).
Qed.

Lemma read_table id len u u' :
  TABLE u = TABLE u' ->
  (read_msg id len u).1 = (read_msg id len u').1 /\ TABLE (read_msg id len u).2 = TABLE (read_msg id len u').2.
Proof.
  intros E. unfold read_msg. rewrite E. repeat (case_match; try done).
Qed.

(** A connected socket with more unread bytes than before. *)
Definition grown (s s' : UnixSocket) (x : list Z) : Prop :=
  state s' = Connected /\ kind s' = kind s /\ recv_popped s' = recv_popped s /\ contents s' = contents s ++ x.

Lemma undisturbed_grown s s' : undisturbed s s' <-> grown s s' [].
Proof. unfold undisturbed, grown. by rewrite app_nil_r. Qed.

Lemma grown_trans s s1 s2 x y : grown s s1 x -> grown s1 s2 y -> grown s s2 (x ++ y).
Proof. intros (A1 & A2 & A3 & A4) (B1 & B2 & B3 & B4). split_and!; try congruence. by rewrite B4, A4, app_assoc. Qed.

Lemma stands_more pos bs n m : (n <= m)%nat -> stands pos bs n -> stands pos bs m.
Proof.
  intros Hn [Hs Hb]. split; [done|]. eapply List.Forall_impl; [|exact Hb]. intros b Hbb. cbv beta in *. lia.
Qed.

Lemma rights_grown r c owed r1 c1 :
  rights_ok r c owed -> run_ok r1 -> TABLE (ux c1) = TABLE (sys r1) -> opens r1 = opens r ->
  PENDING_SCM c1 = PENDING_SCM c ->
  (forall j, (j < MAX_UNIX_SOCKETS)%nat -> state (TABLE (sys r) !!! j) = Connected ->
    exists x, grown (TABLE (sys r) !!! j) (TABLE (sys r1) !!! j) x) ->
  rights_ok r1 c1 owed.
Proof.
  intros Hok Hrun1 Htab1 Ho Hq Hg. pose proof Hok as [Hrun Htab Hrefs Hrecv Hpos].
  split; [done|done|by intros i; rewrite Ho, Hq|..].
  - intros b. rewrite Hq. intros Hb. destruct (Hrecv b Hb) as (R1 & R2 & R3 & R4).
    destruct (Hg _ R1 R3) as (x & G1 & G2 & _). split_and!; congruence.
  - intros i Hi. rewrite Hq. destruct (decide (state (TABLE (sys r) !!! i) = Connected)) as [Hc|Hc].
    + destruct (Hg i Hi Hc) as (x & _ & _ & G3 & G4). unfold standing. rewrite G3, G4, length_app.
      eapply stands_more; [|by apply Hpos]. lia.
    + rewrite (batches_connected r c owed) by done. apply standing_nil.
Qed.

Lemma push_ends data s : state (push data s).2 = state s /\ peer_id (push data s).2 = peer_id s.
Proof. unfold push. by destruct (write_loop _ _ _). Qed.

Lemma write_ends id data u j :
  length (TABLE u) = MAX_UNIX_SOCKETS ->
  state (TABLE (write id data u).2 !!! j) = state (TABLE u !!! j) /\
  peer_id (TABLE (write id data u).2 !!! j) = peer_id (TABLE u !!! j).
Proof.
  intros Hlen. unfold write. repeat (case_match; try done); cbn [snd ring_unix with_table TABLE];
    match goal with E : bad_id ?p = false, Hp : push data (TABLE u !!! ?p) = (_, _) |- _ =>
      apply Nat.leb_gt in E; rewrite upd_at by lia; case_decide; [subst j|done];
      pose proof (push_ends data (TABLE u !!! p)) as He; rewrite Hp in He; exact He end.
Qed.

(** What one recorded write does. *)
Record wrote id (data : list Z) (n : Z) r c r' c' : Prop := {
  wr_tracks : tracks r c r' c';
  wr_queue : PENDING_SCM c' = PENDING_SCM c;
  wr_opens : opens r' = opens r;
  wr_peer : get_peer id (sys r') = get_peer id (sys r);
  wr_back : forall j, state (TABLE (sys r') !!! j) = Connected -> state (TABLE (sys r) !!! j) = Connected;
  wr_grown : forall j, (j < MAX_UNIX_SOCKETS)%nat -> state (TABLE (sys r) !!! j) = Connected ->
    grown (TABLE (sys r) !!! j) (TABLE (sys r') !!! j)
      (if decide (get_peer id (sys r) = Some j) then take (Z.to_nat n) data else [])
}.

Lemma write_step_ok id data r c owed :
  rights_ok r c owed -> holds r id = true ->
  let '(n, u) := write id data (ux c) in
  let c' := call (CUnix (OWrite id data)) (with_ux u c) in
  exists r', wrote id data n r c r' c' /\ rights_ok r' c' owed /\ n <= Z.of_nat (length data) /\
    (get_peer id (sys r) = None -> n < 0).
Proof.
  intros Hok Hh. pose proof Hok as [Hrun Htab Hrefs Hrecv _].
  destruct (holder r id Hrun Hh) as (Hi & L & Hbad & _). pose proof (eo_len _ _ _ _ (rk_ends _ Hrun)) as Hlen.
  destruct (write_table id data (ux c) (sys r) Htab) as [En Et].
  pose proof (fun j => write_ends id data (sys r) j Hlen) as Hends.
  pose proof (fun p => write_grows id data r p Hrun Hi) as Hgrow.
  pose proof (fun i => frame_write id data r i Hrun Hi) as Hframe.
  destruct (write id data (ux c)) as [n u]. cbn [fst snd] in En, Et.
  destruct (write id data (sys r)) as [n' u'] eqn:Ew. cbn [fst snd] in *. subst n'.
  assert (exists r', ustep (OWrite id data) r = Some r' /\ sys r' = u' /\ opens r' = opens r) as (r' & Hst & Es & Eo).
  { unfold ustep. rewrite Hh, Ew. repeat case_match; by eexists. }
  assert (n <= Z.of_nat (length data) /\ (get_peer id (sys r) = None -> n < 0)) as [Hn Hneg].
  { destruct (get_peer id (sys r)) as [p|] eqn:Ep; [split; [by apply (Hgrow p)|done]|].
    assert (n = -32) as ->; [|split; [lia|done]]. unfold get_peer in Ep. rewrite Hbad in Ep.
    unfold write in Ew. rewrite Hbad, Ep in Ew. repeat (case_match; simplify_eq; try done). }
  assert (wrote id data n r c r' (call (CUnix (OWrite id data)) (with_ux u c))) as Hw.
  { split; [by eapply tracks_call|done|done|..].
    - unfold get_peer. rewrite Hbad, Es. apply Hends.
    - intros j. rewrite Es. by rewrite (proj1 (Hends j)).
    - intros j Hj Hc. rewrite Es. case_decide as D; [|by apply undisturbed_grown, Hframe].
      destruct (Hgrow j D) as (G1 & G2 & G3 & G4 & _). by split_and!. }
  exists r'. split_and!; [done| |done|done].
  eapply rights_grown; [exact Hok|by eapply unix_step_ok|by rewrite Es|done|done|].
  intros j Hj Hc. eexists. by apply (wr_grown _ _ _ _ _ _ _ Hw).
Qed.

(** A run of recorded writes of one call. *)
Record sent_on id (x : list Z) r c r' c' : Prop := {
  so_tracks : tracks r c r' c';
  so_queue : PENDING_SCM c' = PENDING_SCM c;
  so_opens : opens r' = opens r;
  so_back : forall j, state (TABLE (sys r') !!! j) = Connected -> state (TABLE (sys r) !!! j) = Connected;
  so_grown : forall j, (j < MAX_UNIX_SOCKETS)%nat -> state (TABLE (sys r) !!! j) = Connected ->
    grown (TABLE (sys r) !!! j) (TABLE (sys r') !!! j) (if decide (get_peer id (sys r) = Some j) then x else [])
}.

Lemma sent_nothing id r c : sent_on id [] r c r c.
Proof.
  split; try done; [apply tracks_refl|]. intros j Hj Hc. case_decide; apply undisturbed_grown, undisturbed_refl; done.
Qed.

Lemma sent_more id data n x r c r1 c1 r2 c2 :
  wrote id data n r c r1 c1 -> sent_on id x r1 c1 r2 c2 -> sent_on id (take (Z.to_nat n) data ++ x) r c r2 c2.
Proof.
  intros [W1 W2 W3 W4 W5 W6] [S1 S2 S3 S4 S5]. split; [by eapply tracks_trans|congruence|congruence|auto|].
  intros j Hj Hc. pose proof (W6 j Hj Hc) as G1. assert (state (TABLE (sys r1) !!! j) = Connected) as Hc1 by apply G1.
  pose proof (S5 j Hj Hc1) as G2. rewrite W4 in G2. pose proof (grown_trans _ _ _ _ _ G1 G2) as G. by case_decide.
Qed.

(** The bytes a sendmsg accepts are a beginning of its vectors. *)
Lemma send_ok id iovs total r c owed :
  rights_ok r c owed -> holds r id = true -> 0 <= total ->
  let '(res, c') := send_iovs id iovs total c in
  exists r' n, sent_on id (take n (concat iovs)) r c r' c' /\ rights_ok r' c' owed /\
    (n <= length (concat iovs))%nat /\ (get_peer id (sys r) = None -> n = 0%nat) /\
    match res with inl t => t = total + Z.of_nat n | inr e => e < 0 /\ n = 0%nat /\ total = 0 end.
Proof.
  revert total r c. induction iovs as [|data iovs IH]; intros total r c Hok Hh Ht; cbn [send_iovs concat].
  { exists r, 0%nat. split_and!; try done; [apply sent_nothing|lia]. }
  destruct (Nat.eqb_spec (length data) 0) as [E0|E0].
  { destruct data; [|done]. by apply IH. }
  pose proof (write_step_ok id data r c owed Hok Hh) as Hw. destruct (write id data (ux c)) as [n u].
  destruct Hw as (r1 & Hw & Hok1 & Hn & Hnone). set (c1 := call _ _) in *.
  pose proof (sent_more id data n [] r c r1 c1 r1 c1 Hw (sent_nothing id r1 c1)) as Hs1. rewrite app_nil_r in Hs1.
  assert (take (Z.to_nat n) data = take (Z.to_nat n) (data ++ concat iovs)) as Etk by (rewrite take_app_le by lia; done).
  destruct (Z.leb_spec 0 n) as [Hn0|Hn0].
  - destruct (Z.ltb_spec n (Z.of_nat (length data))) as [Hlt|Hge].
    + exists r1, (Z.to_nat n). rewrite <- Etk. split_and!; try done; [rewrite length_app; lia|intros E; specialize (Hnone E); lia|lia].
    + assert (holds r1 id = true) as Hh1 by (unfold holds; by rewrite (wr_opens _ _ _ _ _ _ _ Hw)).
      specialize (IH (total + n) r1 c1 Hok1 Hh1 ltac:(lia)). destruct (send_iovs id iovs (total + n) c1) as [res c2].
      destruct IH as (r2 & m & Hs2 & Hok2 & Hm & Hmn & Hres). exists r2, (length data + m)%nat.
      pose proof (sent_more _ _ _ _ _ _ _ _ _ _ Hw Hs2) as Hs. rewrite take_ge in Hs by lia.
      rewrite take_app_add. split_and!; [done|done|rewrite length_app; lia|intros E; specialize (Hnone E); lia|].
      destruct res; lia.
  - destruct (Z.ltb_spec 0 total); exists r1, 0%nat;
      (replace (Z.to_nat n) with 0%nat in Hs1 by lia); rewrite take_0 in *; split_and!; try done; lia.
Qed.
End rights.
