(* ===== verification/UnixPass.v ===== *)
(** * Passed descriptors: sendmsg and recvmsg as operations on marked bytes

    The unread bytes of a socket, each with the descriptors that ride on it,
    are a queue: sendmsg appends its bytes with its descriptors on the first
    one, recvmsg takes a beginning of the queue that ends at the first byte
    with descriptors on it at the latest, and hands exactly those over. *)

From S2P Require Import Prelude WaitList Pipe Vfs Unix UnixRun UnixScm UnixRights.

Section passing.
Context `{UnixSizes}.
Implicit Types (r : Run) (c d : ScmSys) (q : list ScmBatch) (i j id p : nat) (l : list FileDescriptor).

(** Descriptors of slot [i] that are not in flight. *)
Definition spare r c i : nat := (opens r !!! i - inflight i (PENDING_SCM c))%nat.

(** The unread bytes of a slot and what rides on them. *)
Definition marked c i : list (Z * list FileDescriptor) :=
  let s := TABLE (ux c) !!! i in mark (recv_popped s) (batches i (PENDING_SCM c)) (contents s).

Lemma rights_le r c owed owed' :
  rights_ok r c owed -> (forall i, (owed' i <= owed i)%nat) -> rights_ok r c owed'.
Proof. intros [] Hle. split; try done. intros i. specialize (ri_refs i). specialize (Hle i). lia. Qed.

Lemma rights_spare r c owed : rights_ok r c owed -> rights_ok r c (spare r c).
Proof. intros []. split; try done. intros i. specialize (ri_refs i). unfold spare. lia. Qed.

Lemma spare_covers r c owed i : rights_ok r c owed -> (owed i <= spare r c i)%nat.
Proof. intros []. specialize (ri_refs i). unfold spare. lia. Qed.

Lemma marked_undisturbed c c' i :
  undisturbed (TABLE (ux c) !!! i) (TABLE (ux c') !!! i) ->
  batches i (PENDING_SCM c') = batches i (PENDING_SCM c) -> marked c' i = marked c i.
Proof. intros (_ & _ & E1 & E2) E3. unfold marked. by rewrite E1, E2, E3. Qed.

Lemma keeps_marked r c r' c' owed owed' j :
  rights_ok r c owed -> rights_ok r' c' owed' -> keeps r c r' c' -> (j < MAX_UNIX_SOCKETS)%nat ->
  state (TABLE (sys r') !!! j) = Connected -> state (TABLE (sys r) !!! j) = Connected /\ marked c' j = marked c j.
Proof.
  intros R R' K Hj Hc. destruct (K j Hj Hc) as (H1 & H2 & H3). split; [done|].
  apply marked_undisturbed; [|done]. by rewrite (ri_table _ _ _ R), (ri_table _ _ _ R').
Qed.

(* ------------------------------------------------------------------ *)
(** ** Sending *)

(** States that agree on the table and on the record of calls. *)
Definition alike c d : Prop := TABLE (ux d) = TABLE (ux c) /\ calls d = calls c.

Lemma send_alike id iovs total c d :
  alike c d ->
  (send_iovs id iovs total d).1 = (send_iovs id iovs total c).1 /\
  alike (send_iovs id iovs total c).2 (send_iovs id iovs total d).2 /\
  PENDING_SCM (send_iovs id iovs total d).2 = PENDING_SCM d.
Proof.
  revert total c d. induction iovs as [|data iovs IH]; intros total c d Hcd; [done|]. cbn [send_iovs].
  destruct (length data =? 0)%nat; [by apply IH|].
  destruct (write_table id data (ux d) (ux c) (proj1 Hcd)) as [E1 E2].
  destruct (write id data (ux c)) as [n u], (write id data (ux d)) as [n' u']. cbn [fst snd] in E1, E2. subst n'.
  assert (alike (call (CUnix (OWrite id data)) (with_ux u c)) (call (CUnix (OWrite id data)) (with_ux u' d))) as Ha.
  { split; [done|]. cbn. by rewrite (proj2 Hcd). }
  destruct (0 <=? n); [|by destruct (0 <? total)].
  destruct (n <? _); [done|]. by destruct (IH (total + n) _ _ Ha) as (? & ? & ->).
Qed.

Lemma stands_snoc pos bs b n m :
  stands pos bs n -> pos + Z.of_nat n < byte_offset b <= pos + Z.of_nat m -> stands pos (bs ++ [b]) m.
Proof.
  intros [Hs Hb] Hm. split.
  - induction bs as [|b0 bs IH]; [repeat constructor|]. apply StronglySorted_inv in Hs as [Hs Hf].
    pose proof (Forall_inv Hb) as H0. cbv beta in H0. apply Forall_inv_tail in Hb. cbn [app]. constructor; [by apply IH|].
    apply Forall_app_2; [done|]. repeat constructor. lia.
  - apply Forall_app_2; [|repeat constructor; lia]. eapply List.Forall_impl; [|exact Hb]. intros b0 H0. cbv beta in *. lia.
Qed.

Lemma batches_snoc i q b :
  batches i (q ++ [b]) = batches i q ++ (if decide (i = receiver_id b) then [b] else []).
Proof.
  unfold batches. rewrite List.filter_app. f_equal. cbn [List.filter].
  destruct (Nat.eqb_spec (receiver_id b) i), (decide (i = receiver_id b)); done || congruence.
Qed.

(** The references of a message move into the queue. *)
Lemma rights_queue r c owed b d :
  rights_ok r c (fun i => (owed i + sock_count i (fds b))%nat) -> alike c d -> PENDING_SCM d = PENDING_SCM c ++ [b] ->
  (receiver_id b < MAX_UNIX_SOCKETS)%nat -> fds b <> [] ->
  state (TABLE (sys r) !!! receiver_id b) = Connected -> kind (TABLE (sys r) !!! receiver_id b) = Stream ->
  standing (TABLE (sys r) !!! receiver_id b) (batches (receiver_id b) (PENDING_SCM c) ++ [b]) ->
  rights_ok r d owed.
Proof.
  intros [Hrun Htab Hrefs Hrecv Hpos] [Ht _] Hq Hr Hf Hs Hk Hst. split; [done|by rewrite Ht|..]; rewrite Hq.
  - intros i. specialize (Hrefs i). rewrite inflight_app.
    assert (inflight i [b] = sock_count i (fds b)) as -> by (unfold inflight, in_flight; simpl; by rewrite app_nil_r). lia.
  - intros b' [Hb'|Hb']%elem_of_app; [by apply Hrecv|]. apply list_elem_of_singleton in Hb' as ->. done.
  - intros i Hi. rewrite batches_snoc. case_decide; [by subst i|]. rewrite app_nil_r. by apply Hpos.
Qed.

Lemma revoke_last p off l q : scm_revoke p off (q ++ [mkScmBatch p off l]) = (Some l, q).
Proof.
  unfold scm_revoke. rewrite rev_app_distr. cbn [rev app].
  assert (forall f (x : ScmBatch) xs, f x = true -> position f (x :: xs) = Some 0%nat) as Hp by (intros f x xs E; simpl; by rewrite E).
  rewrite Hp by (cbn; by rewrite Nat.eqb_refl, Z.eqb_refl). rewrite length_app. cbn [length].
  replace (length q + 1 - 1 - 0)%nat with (length q) by lia. rewrite list_lookup_middle by done. cbn. f_equal.
  unfold remove_at. rewrite take_app_le, take_ge by lia. rewrite drop_ge by (rewrite length_app; simpl; lia). by rewrite app_nil_r.
Qed.

(** A message of [l] with the bytes [x] has reached the peer of [id]. *)
Definition reached id l (x : list Z) r c r' c' : Prop :=
  (forall j, (j < MAX_UNIX_SOCKETS)%nat -> state (TABLE (sys r') !!! j) = Connected ->
    state (TABLE (sys r) !!! j) = Connected /\
    marked c' j = marked c j ++ (if decide (get_peer id (sys r) = Some j) then carrying l x else [])) /\
  (x <> [] -> exists p, (p < MAX_UNIX_SOCKETS)%nat /\ get_peer id (sys r) = Some p /\
    state (TABLE (sys r') !!! p) = Connected).

Lemma peer_connected r id p :
  run_ok r -> holds r id = true -> get_peer id (sys r) = Some p ->
  (p < MAX_UNIX_SOCKETS)%nat /\ state (TABLE (sys r) !!! p) = Connected.
Proof.
  intros Hok Hh Hp. destruct (holder r id Hok Hh) as (Hi & _ & Hbad & _). unfold get_peer in Hp. rewrite Hbad in Hp.
  by destruct (eo_peer _ _ _ _ (rk_ends _ Hok) id p Hi Hp) as (? & _ & _ & ? & _).
Qed.

Lemma reached_none id l r c r' c' owed owed' :
  rights_ok r c owed -> rights_ok r' c' owed' -> keeps r c r' c' -> reached id l [] r c r' c'.
Proof.
  intros R R' K. split; [|done]. intros j Hj Hc. destruct (keeps_marked _ _ _ _ _ _ j R R' K Hj Hc) as [H1 ->]. split; [done|].
  case_decide; by rewrite app_nil_r.
Qed.

(** Bytes on which no new batch stands. *)
Lemma sent_plain id x r c r' c' owed owed' :
  rights_ok r c owed -> rights_ok r' c' owed' -> holds r id = true -> sent_on id x r c r' c' ->
  (x <> [] -> get_peer id (sys r) <> None) -> reached id [] x r c r' c'.
Proof.
  intros R R' Hh [_ Hq _ Hb Hg] Hx. split.
  2: { intros Hne. destruct (get_peer id (sys r)) as [p|] eqn:Ep; [|by apply Hx in Hne].
    destruct (peer_connected r id p (ri_run _ _ _ R) Hh Ep) as [Hp Pc]. exists p. split_and!; [done|done|by apply Hg]. }
  intros j Hj Hc. split; [by apply Hb|]. destruct (Hg j Hj (Hb j Hc)) as (_ & _ & G1 & G2).
  unfold marked. rewrite (ri_table _ _ _ R'), (ri_table _ _ _ R), G1, G2, Hq.
  rewrite mark_grow by apply (ri_pos _ _ _ R j Hj). f_equal. case_decide; [|done]. by destruct x.
Qed.

Lemma sent_keeps id r c r' c' : sent_on id [] r c r' c' -> keeps r c r' c'.
Proof.
  intros [_ Hq _ Hb Hg] j Hj Hc. split_and!; [by apply Hb| |by rewrite Hq].
  pose proof (Hg j Hj (Hb j Hc)) as G. apply undisturbed_grown. by case_decide.
Qed.

(** Bytes with a new batch on the first of them. *)
Lemma sent_marked id x p off l r c r' c' d' owed owed' :
  rights_ok r c owed -> rights_ok r' c' owed' -> holds r id = true -> sent_on id x r c r' c' -> get_peer id (sys r) = Some p ->
  off = recv_popped (TABLE (sys r) !!! p) + Z.of_nat (length (contents (TABLE (sys r) !!! p))) + 1 -> x <> [] ->
  alike c' d' -> PENDING_SCM d' = PENDING_SCM c' ++ [mkScmBatch p off l] -> reached id l x r c r' d'.
Proof.
  intros R R' Hh [_ Hq _ Hb Hg] Hp Hoff Hx [Ht _] Hd. split.
  2: { intros _. destruct (peer_connected r id p (ri_run _ _ _ R) Hh Hp) as [Hpm Pc]. exists p.
    split_and!; [done|done|by apply Hg]. }
  intros j Hj Hc. split; [by apply Hb|].
  destruct (Hg j Hj (Hb j Hc)) as (_ & _ & G1 & G2).
  unfold marked. rewrite Ht, (ri_table _ _ _ R'), (ri_table _ _ _ R), G1, G2, Hd, Hq, batches_snoc. cbn [receiver_id].
  destruct (decide (j = p)) as [->|Hne].
  - rewrite !decide_True by done. apply (mark_send _ _ (mkScmBatch p off l)); [apply (ri_pos _ _ _ R p Hj)|done|done].
  - rewrite !decide_False by congruence. by rewrite !app_nil_r.
Qed.

(** The end of a sendmsg whose batch was queued before its first byte. *)
Lemma queued_ok id iovs p off l r c owed :
  rights_ok r c (fun i => (owed i + sock_count i l)%nat) -> (0 < owed id)%nat -> l <> [] ->
  get_peer id (sys r) = Some p -> kind (TABLE (sys r) !!! p) = Stream ->
  off = recv_popped (TABLE (sys r) !!! p) + Z.of_nat (length (contents (TABLE (sys r) !!! p))) + 1 ->
  forall d, alike c d -> PENDING_SCM d = PENDING_SCM c ++ [mkScmBatch p off l] ->
  let '(res, d1) := send_iovs id iovs 0 d in
  exists n d' r', conclude (Some (p, off)) res d1 = Some (n, d') /\ tracks r c r' d' /\ rights_ok r' d' owed /\
    n <= Z.of_nat (length (concat iovs)) /\ reached id l (take (Z.to_nat n) (concat iovs)) r c r' d'.
Proof.
  intros R Ho Hl Hp Hk Hoff d Hcd Hqd. assert (holds r id = true) as Hh by (eapply owed_holds; [exact R|simpl; lia]).
  destruct (peer_connected r id p (ri_run _ _ _ R) Hh Hp) as [Hpm Pc].
  pose proof (send_ok id iovs 0 r c _ R Hh ltac:(lia)) as Hs.
  pose proof (send_alike id iovs 0 c d Hcd) as Ha. destruct (send_iovs id iovs 0 c) as [res c1].
  destruct (send_iovs id iovs 0 d) as [res' d1]. cbn [fst snd] in Ha. destruct Ha as (-> & Ha & Hq1).
  destruct Hs as (r1 & n & Hs & R1 & Hn & _ & Hres).
  pose proof (so_queue _ _ _ _ _ _ Hs) as Hq. rewrite <- Hq in Hqd. rewrite Hqd in Hq1.
  assert (tracks r c r1 d1) as T1.
  { destruct (so_tracks _ _ _ _ _ _ Hs) as (cs & E & U). exists cs. by rewrite (proj2 Ha), E. }
  assert (n = 0%nat \/ (exists m, res = inl (Z.of_nat m) /\ m = n /\ (0 < n)%nat)) as Hcase.
  { destruct res as [t|e]; [|left; lia]. destruct n; [by left|]. right. exists (S n). split; [f_equal; lia|]. split; [done|lia]. }
  destruct Hcase as [->|(m & -> & -> & Hn0)].
  - assert (exists n d' r', conclude (Some (p, off)) res d1 = Some (n, d') /\ n < 0 /\ tracks r1 d1 r' d' /\
      rights_ok r' d' owed /\ keeps r1 c1 r' d') as (e & d' & r' & E & He & T & R' & K).
    { edestruct (drop_fds_ok l r1 (with_pending (PENDING_SCM c1) d1)) as (r' & d' & E & T & K & _ & R');
        [apply (rights_same_table _ _ _ _ R1); [apply Ha|done]|intros i; cbv beta; lia|].
      exists (match res with inl _ => -11 | inr e => e end), d', r'. split_and!.
      - unfold conclude. destruct res as [t|e]; [rewrite (proj2 (Z.eqb_eq _ _)) by lia|];
          unfold revoke_queued; rewrite Hq1, revoke_last, E; done.
      - destruct res; lia.
      - exact T.
      - eapply rights_le; [exact R'|]. intros i. cbv beta. lia.
      - intros j Hj Hc. destruct (K j Hj Hc) as (A & B & C). split_and!; [done|done|exact C]. }
    exists e, d', r'. replace (Z.to_nat e) with 0%nat by lia. rewrite take_0 in *. split_and!; [done| |done|lia|].
    + by eapply tracks_trans.
    + eapply reached_none; [exact R|exact R'|]. eapply kept_trans; [by eapply sent_keeps|done].
  - exists (Z.of_nat n), d1, r1. unfold conclude. rewrite (proj2 (Z.eqb_neq _ _)), Nat2Z.id by lia.
    assert (take n (concat iovs) <> []) as Hx by (intros E%(f_equal length); rewrite length_take in E; simpl in E; lia).
    split_and!; [done|done| |lia|by eapply sent_marked].
    destruct (so_grown _ _ _ _ _ _ Hs p Hpm Pc) as (G1 & G2 & G3 & G4). rewrite decide_True in G4 by done.
    eapply (rights_queue r1 c1 owed (mkScmBatch p off l)); cbn [fds receiver_id]; try done; [congruence|].
    unfold standing. rewrite G3, G4, Hq. eapply stands_snoc; [apply (ri_pos _ _ _ R p Hpm)|]. cbn [byte_offset].
    rewrite Hoff, length_app, length_take. lia.
Qed.

(** The end of a sendmsg without a queued batch. *)
Lemma unqueued_ok id iovs l r c owed :
  rights_ok r c owed -> (0 < owed id)%nat -> (l = [] \/ get_peer id (sys r) = None) ->
  let '(res, c1) := send_iovs id iovs 0 c in
  exists n c' r', conclude None res c1 = Some (n, c') /\ tracks r c r' c' /\ rights_ok r' c' owed /\
    n <= Z.of_nat (length (concat iovs)) /\ reached id l (take (Z.to_nat n) (concat iovs)) r c r' c'.
Proof.
  intros R Ho Hl. pose proof (owed_holds _ _ _ _ R Ho) as Hh. pose proof (send_ok id iovs 0 r c _ R Hh ltac:(lia)) as Hs.
  destruct (send_iovs id iovs 0 c) as [res c1]. destruct Hs as (r1 & n & Hs & R1 & Hn & Hnone & Hres).
  exists (match res with inl t => t | inr e => e end), c1, r1.
  assert (Z.to_nat (match res with inl t => t | inr e => e end) = n) as -> by (destruct res; lia).
  split_and!; [|apply Hs|done|destruct res; lia|].
  - unfold conclude. destruct res as [t|]; [|done]. by destruct (Z.eqb_spec t 0) as [->|].
  - destruct Hl as [->|Hp]; [eapply sent_plain; try done; intros Hx Hp; by rewrite (Hnone Hp) in Hx|]. rewrite (Hnone Hp), take_0 in *.
    eapply reached_none; [exact R|exact R1|by eapply sent_keeps].
Qed.

(** A change that left the connected sockets and the queue alone comes first. *)
Lemma reached_after id l x r c r1 c1 r2 c2 owed owed1 :
  rights_ok r c owed -> rights_ok r1 c1 owed1 -> keeps r c r1 c1 ->
  get_peer id (sys r1) = get_peer id (sys r) -> reached id l x r1 c1 r2 c2 -> reached id l x r c r2 c2.
Proof.
  intros R R1 K Ep [Hr Hx]. rewrite Ep in Hx. split; [|done]. intros j Hj Hc. destruct (Hr j Hj Hc) as [Hc1 ->].
  destruct (keeps_marked _ _ _ _ _ _ j R R1 K Hj Hc1) as [Hc0 ->]. by rewrite Ep.
Qed.

Lemma steady_peer id r r' : steady r r' -> get_peer id (sys r') = get_peer id (sys r).
Proof. intros [_ Hp]. unfold get_peer. by rewrite Hp. Qed.

Lemma severs_peer id r r' : severs r r' -> get_peer id (sys r) = None -> get_peer id (sys r') = None.
Proof. intros Hs. unfold get_peer. case_match; [done|]. destruct (Hs id); congruence. Qed.

Lemma has_data_concat (iovs : list (list Z)) :
  existsb (fun v => negb (length v =? 0)%nat) iovs = negb (length (concat iovs) =? 0)%nat.
Proof.
  induction iovs as [|v iovs IH]; [done|]. simpl. rewrite IH, length_app. by destruct (length v), (length (concat iovs)).
Qed.

Lemma offset_exact r c owed id p :
  rights_ok r c owed -> bounded r -> (0 < owed id)%nat -> get_peer id (ux c) = Some p ->
  kind (TABLE (ux c) !!! id) = Stream ->
  kind (TABLE (sys r) !!! p) = Stream /\ (p < MAX_UNIX_SOCKETS)%nat /\ state (TABLE (sys r) !!! p) = Connected /\
  add64 (enqueue_offset_for p (ux c)) 1 =
    recv_popped (TABLE (sys r) !!! p) + Z.of_nat (length (contents (TABLE (sys r) !!! p))) + 1.
Proof.
  intros R Hb Ho Hp Hk. destruct (holder r id (ri_run _ _ _ R) (owed_holds _ _ _ _ R Ho)) as (Hi & _ & Hbad & _).
  unfold get_peer in Hp. rewrite Hbad, (ri_table _ _ _ R) in Hp. rewrite (ri_table _ _ _ R) in Hk.
  destruct (eo_peer _ _ _ _ (rk_ends _ (ri_run _ _ _ R)) id p Hi Hp) as (Hpm & _ & _ & Pc & _ & Ek & _).
  assert (kind (TABLE (sys r) !!! p) = Stream) as Hkp by congruence.
  destruct (counters_exact r p (ri_run _ _ _ R) Hb Hpm ltac:(congruence) Hkp) as [Hlt Hsum].
  split_and!; [done|done|done|]. unfold enqueue_offset_for, enqueue_offset.
  rewrite (proj2 (Nat.leb_gt _ _) Hpm : bad_id p = false), (ri_table _ _ _ R), <- Hsum.
  pose proof (ro_pop _ (do_ring _ _ _ _ _ (rk_data _ (ri_run _ _ _ R)) p Hpm)) as Hw. unfold in_word in Hw.
  unfold add64. apply wrap_small. unfold U64_MAX in Hlt. split; lia.
Qed.

(** sendmsg: the bytes accepted reach the peer with the descriptors on the
    first of them; when none is accepted nothing reaches anyone. *)
Lemma sendmsg_ok id iovs l r c :
  rights_ok r c (spare r c) -> bounded r -> (0 < spare r c id)%nat ->
  (forall i, (0 < sock_count i l)%nat -> (0 < spare r c i)%nat) ->
  (forall i, Z.of_nat (opens r !!! i) + Z.of_nat (length l) <= U32_MAX) ->
  (l <> [] -> kind (TABLE (ux c) !!! id) = Stream /\ concat iovs <> []) ->
  exists n c' r', sendmsg id iovs l c = Some (n, c') /\ tracks r c r' c' /\ rights_ok r' c' (spare r' c') /\
    (spare r c id <= spare r' c' id)%nat /\ n <= Z.of_nat (length (concat iovs)) /\
    reached id l (take (Z.to_nat n) (concat iovs)) r c r' c'.
Proof.
  intros R Hb Ho Hl Hroom Hmsg. assert (forall e, e <= 0 -> exists n c' r', Some (e, c) = Some (n, c') /\ tracks r c r' c' /\
    rights_ok r' c' (spare r' c') /\ (spare r c id <= spare r' c' id)%nat /\ n <= Z.of_nat (length (concat iovs)) /\
    reached id l (take (Z.to_nat n) (concat iovs)) r c r' c') as Hnop.
  { intros e He. exists e, c, r. replace (Z.to_nat e) with 0%nat by lia. rewrite take_0.
    split_and!; [done|apply tracks_refl|done|done|lia|eapply reached_none; [done|done|apply keeps_refl]]. }
  unfold sendmsg, bind_batch. destruct (length iovs =? 0)%nat; [by apply Hnop|]. destruct (1024 <? length iovs)%nat; [by apply Hnop|].
  destruct (take_all_ok l r c _ R Hl Hroom) as (r1 & T1 & K1 & R1 & E1 & S1). set (c1 := fold_left take_ref l c) in *.
  pose proof (steady_peer id _ _ S1) as Ep1.
  assert (get_peer id (ux c) = get_peer id (sys r)) as Epc by (unfold get_peer; by rewrite (ri_table _ _ _ R)).
  assert (forall n c' r', tracks r1 c1 r' c' -> rights_ok r' c' (spare r c) ->
    n <= Z.of_nat (length (concat iovs)) -> reached id l (take (Z.to_nat n) (concat iovs)) r1 c1 r' c' ->
    tracks r c r' c' /\ rights_ok r' c' (spare r' c') /\ (spare r c id <= spare r' c' id)%nat /\
    n <= Z.of_nat (length (concat iovs)) /\ reached id l (take (Z.to_nat n) (concat iovs)) r c r' c') as Hdone.
  { intros n c' r' T R' Hn Hr. split_and!; [by eapply tracks_trans|by eapply rights_spare|by apply spare_covers|done|exact (reached_after _ _ _ _ _ _ _ _ _ _ _ R R1 K1 Ep1 Hr)]. }
  destruct l as [|fd l']; cbn [mbind option_bind].
  - assert (rights_ok r1 c1 (spare r c)) as R1' by (eapply rights_le; [exact R1|intros i; cbv beta; lia]).
    pose proof (unqueued_ok id iovs [] r1 c1 _ R1' Ho (or_introl eq_refl)) as Hu.
    destruct (send_iovs id iovs 0 c1) as [res c2]. destruct Hu as (n & c' & r' & E & T & R' & Hn & Hr).
    exists n, c', r'. split; [done|]. by apply Hdone.
  - destruct (Hmsg ltac:(done)) as [Hk Hdata]. rewrite has_data_concat.
    rewrite (proj2 (Nat.eqb_neq _ _)) by (by destruct (concat iovs)). cbn [negb].
    destruct (get_peer id (ux c)) as [p|] eqn:Ep.
    + destruct (offset_exact r c _ id p R Hb Ho Ep Hk) as (Hkp & Hpm & Pc & ->).
      destruct (proj1 S1 p Hpm Pc) as (_ & U2 & U3 & U4). set (off := _ + 1).
      pose proof (queued_ok id iovs p off (fd :: l') r1 c1 (spare r c) R1 Ho ltac:(done) ltac:(congruence) ltac:(congruence)
        ltac:(subst off; by rewrite U3, U4) (with_ux (ring_unix BellUnixWrite (ux c1)) (with_pending (scm_queue p off (fd :: l') (PENDING_SCM c1)) c1))
        (conj eq_refl eq_refl) eq_refl) as Hq. cbn [mbind option_bind].
      destruct (send_iovs id iovs 0 _) as [res d1] in Hq |- *. destruct Hq as (n & c' & r' & E & T & R' & Hn & Hr).
      exists n, c', r'. split; [done|]. by apply Hdone.
    + edestruct (drop_fds_ok (fd :: l') r1 c1) as (r2 & c2 & E2 & T2 & K2 & V2 & R2); [exact R1|intros i; cbv beta; lia|].
      rewrite E2. cbn [mbind option_bind]. 
      assert (rights_ok r2 c2 (spare r c)) as R2' by (eapply rights_le; [exact R2|intros i; cbv beta; lia]).
      assert (get_peer id (sys r2) = None) as Ep2 by (eapply severs_peer; [exact V2|congruence]).
      pose proof (unqueued_ok id iovs (fd :: l') r2 c2 _ R2' Ho (or_intror Ep2)) as Hu.
      destruct (send_iovs id iovs 0 c2) as [res c3]. destruct Hu as (n & c' & r' & E & T & R' & Hn & Hr).
      exists n, c', r'. split; [done|]. apply Hdone; [by eapply tracks_trans|done|done|].
      eapply reached_after; [exact R1|exact R2|done|congruence|done].
Qed.

(* ------------------------------------------------------------------ *)
(** ** The queue of one receiver *)

Abbreviation sorted bs := (StronglySorted (fun b b' => byte_offset b < byte_offset b') bs).

Lemma next_offset i (pos : Z) q :
  sorted (batches i q) -> Forall (fun b => pos < byte_offset b) (batches i q) ->
  scm_next_batch_offset i pos q = byte_offset <$> head (batches i q).
Proof.
  unfold batches. induction q as [|b q IH]; [done|]. cbn [List.filter scm_next_batch_offset].
  destruct (receiver_id b =? i)%nat; cbn [andb]; [|done].
  intros [Hs Hf]%StronglySorted_inv Hp. pose proof (Forall_inv Hp) as Hb. apply Forall_inv_tail in Hp. cbv beta in Hb.
  rewrite (IH Hs Hp), (proj2 (Z.ltb_lt _ _) Hb). cbn [head fmap option_fmap option_map].
  destruct (List.filter _ q) as [|b' bs]; [done|]. apply Forall_inv in Hf. simpl. f_equal. lia.
Qed.

Lemma none_deliverable i (pos : Z) q :
  Forall (fun b => pos < byte_offset b) (batches i q) -> has_scm_deliverable i pos q = false.
Proof.
  unfold batches, has_scm_deliverable, deliverable. induction q as [|b q IH]; [done|]. cbn [List.filter existsb].
  destruct (receiver_id b =? i)%nat; cbn [andb orb]; [|done]. intros Hp. rewrite IH by (by apply Forall_inv_tail in Hp).
  apply Forall_inv in Hp. cbv beta in Hp. by rewrite (proj2 (Z.leb_gt _ _) Hp).
Qed.

Lemma earliest_in i (pos : Z) q k o :
  earliest i pos q = Some (k, o) -> exists b, b ∈ batches i q /\ byte_offset b = o /\ o <= pos.
Proof.
  revert k o. induction q as [|b q IH]; intros k o; [done|]. cbn [earliest batches List.filter].
  unfold deliverable. destruct (receiver_id b =? i)%nat eqn:Er; cbn [andb].
  2: { destruct (earliest i pos q) as [[k' o']|]; [|done]. intros [= <- <-]. by apply (IH k'). }
  assert (forall k' o', earliest i pos q = Some (k', o') -> exists b0, b0 ∈ b :: batches i q /\ byte_offset b0 = o' /\ o' <= pos) as IH'.
  { intros k' o' E. destruct (IH _ _ E) as (b0 & Hb & E0). exists b0. split; [by right|done]. }
  destruct (Z.leb_spec (byte_offset b) pos) as [Hle|]; destruct (earliest i pos q) as [[k' o']|]; try done; cbn [fmap option_fmap option_map].
  - destruct (o' <? byte_offset b); intros [= <- <-]; [by eapply IH'|]. exists b. split; [by left|done].
  - intros [= <- <-]. exists b. split; [by left|done].
  - intros [= <- <-]. by eapply IH'.
Qed.

(** The batch that is dequeued is the receiver's first. *)
Lemma earliest_head i (pos : Z) q :
  sorted (batches i q) ->
  match batches i q with
  | b :: bs =>
      if byte_offset b <=? pos then
        exists q1 q2, q = q1 ++ b :: q2 /\ earliest i pos q = Some (length q1, byte_offset b) /\
          batches i (q1 ++ q2) = bs
      else earliest i pos q = None
  | [] => earliest i pos q = None
  end.
Proof.
  induction q as [|b q IH]; [done|]. cbn [batches List.filter earliest]. unfold deliverable.
  destruct (receiver_id b =? i)%nat eqn:Er; cbn [andb].
  - intros [Hs Hf]%StronglySorted_inv. rewrite List.Forall_forall in Hf.
    destruct (Z.leb_spec (byte_offset b) pos) as [Hle|Hgt].
    + exists [], q. split_and!; [done| |done]. destruct (earliest i pos q) as [[k o]|] eqn:E; [|done].
      apply earliest_in in E as (b' & Hb%list_elem_of_In%Hf & <- & _). cbv beta in Hb. cbn.
      by rewrite (proj2 (Z.ltb_ge _ _)) by lia.
    + destruct (earliest i pos q) as [[k o]|] eqn:E; [|done].
      apply earliest_in in E as (b' & Hb%list_elem_of_In%Hf & <- & Hle). lia.
  - intros Hs. specialize (IH Hs). fold (batches i q) in *. destruct (batches i q) as [|b0 bs]; [by rewrite IH|].
    destruct (byte_offset b0 <=? pos); [|by rewrite IH]. destruct IH as (q1 & q2 & -> & E & Hb).
    exists (b :: q1), q2. rewrite E. split_and!; [done|done|]. cbn. by rewrite Er.
Qed.

Lemma dequeue_head i (pos : Z) q :
  sorted (batches i q) ->
  match batches i q with
  | b :: bs =>
      if byte_offset b <=? pos then
        exists q1 q2, q = q1 ++ b :: q2 /\ batches i (q1 ++ q2) = bs /\
          scm_dequeue_with_offset i pos q = (Some (byte_offset b, fds b), q1 ++ q2)
      else scm_dequeue_with_offset i pos q = (None, q)
  | [] => scm_dequeue_with_offset i pos q = (None, q)
  end.
Proof.
  intros Hs. pose proof (earliest_head i pos q Hs) as He. unfold scm_dequeue_with_offset.
  destruct (batches i q) as [|b bs]; [by rewrite He|]. destruct (byte_offset b <=? pos); [|by rewrite He].
  destruct He as (q1 & q2 & -> & -> & Hb). exists q1, q2. split_and!; [done|done|].
  rewrite list_lookup_middle by done. unfold remove_at. rewrite take_app_length. cbn [fmap option_fmap option_map].
  replace (S (length q1)) with (length (q1 ++ [b])) by (rewrite length_app; simpl; lia).
  by rewrite (cons_middle b q1 q2), app_assoc, drop_app_length.
Qed.

(* ------------------------------------------------------------------ *)
(** ** Receiving *)

(** Does the read of [n] bytes end on the byte of the first batch? *)
Definition hit (pos : Z) (bs : list ScmBatch) (n : nat) : bool :=
  match bs with b :: _ => byte_offset b =? pos + Z.of_nat n | [] => false end.

Definition within (pos : Z) (bs : list ScmBatch) (n : nat) : Prop :=
  forall b bs', bs = b :: bs' -> Z.of_nat n <= byte_offset b - pos.

Lemma mark_bytes pos bs bytes : map fst (mark pos bs bytes) = bytes.
Proof.
  revert pos bs. induction bytes as [|x bytes IH]; intros pos [|b bs]; cbn [mark]; try done; [|case_match];
    cbn [map fst]; by rewrite IH.
Qed.

Lemma plain_free bytes : concat (map snd (plain bytes)) = [].
Proof. by induction bytes. Qed.

Lemma carried_fds l x : concat (map snd (carrying l [x])) = l.
Proof. cbn. by rewrite app_nil_r. Qed.

Lemma taken_fds pos bs bytes n :
  stands pos bs (length bytes) -> (n <= length bytes)%nat -> within pos bs n ->
  concat (map snd (take n (mark pos bs bytes))) =
    if hit pos bs n then match bs with b :: _ => fds b | [] => [] end else [].
Proof.
  intros Hs Hn Hw. destruct (mark_read pos bs bytes n Hs Hn Hw) as [-> _]. unfold hit.
  destruct bs as [|b bs]; [apply plain_free|]. destruct (Z.eqb_spec (byte_offset b) (pos + Z.of_nat n)) as [E|]; [|apply plain_free].
  pose proof (Forall_inv (proj2 Hs)) as Hb. cbv beta in Hb. rewrite map_app, concat_app, plain_free.
  assert (length (take 1 (drop (n - 1) bytes)) = 1)%nat as Hl by (rewrite length_take, length_drop; lia).
  destruct (take 1 (drop (n - 1) bytes)) as [|x [|]]; try done. apply carried_fds.
Qed.

(** Only the last byte taken has descriptors on it. *)
Lemma taken_early pos bs bytes n :
  stands pos bs (length bytes) -> (n <= length bytes)%nat -> within pos bs n ->
  concat (map snd (take (n - 1) (mark pos bs bytes))) = [].
Proof.
  intros Hs Hn Hw. rewrite taken_fds; [|done|lia|intros b bs' E; specialize (Hw b bs' E); lia].
  unfold hit. destruct bs as [|b bs]; [done|]. specialize (Hw b bs eq_refl). pose proof (Forall_inv (proj2 Hs)) as Hb.
  cbv beta in Hb. by rewrite (proj2 (Z.eqb_neq _ _)) by lia.
Qed.

Lemma stands_read pos bs len n :
  stands pos bs len -> (n <= len)%nat -> within pos bs n ->
  stands (pos + Z.of_nat n) (if hit pos bs n then tail bs else bs) (len - n).
Proof.
  intros [Hs Hb] Hn Hw. destruct bs as [|b bs]; [by split; constructor|]. specialize (Hw b bs eq_refl). cbn [hit tail].
  pose proof (StronglySorted_inv Hs) as [Hs' Hf]. rewrite List.Forall_forall in Hf. rewrite List.Forall_forall in Hb.
  destruct (Z.eqb_spec (byte_offset b) (pos + Z.of_nat n)) as [E|E]; (split; [done|]); apply List.Forall_forall;
    intros b' Hin; [specialize (Hf b' Hin); specialize (Hb b' (or_intror Hin)); simpl in *; lia|].
  specialize (Hb b' Hin). destruct Hin as [<-|Hin]; [lia|]. specialize (Hf b' Hin). simpl in *. lia.
Qed.

(** The read in recvmsg takes some bytes off the front. *)
Record took id (n : nat) r r' : Prop := {
  tk_run : run_ok r';
  tk_opens : opens r' = opens r;
  tk_other : forall j, j <> id -> TABLE (sys r') !!! j = TABLE (sys r) !!! j;
  tk_state : state (TABLE (sys r') !!! id) = state (TABLE (sys r) !!! id);
  tk_kind : kind (TABLE (sys r') !!! id) = kind (TABLE (sys r) !!! id);
  tk_popped : recv_popped (TABLE (sys r') !!! id) = recv_popped (TABLE (sys r) !!! id) + Z.of_nat n;
  tk_contents : contents (TABLE (sys r') !!! id) = drop n (contents (TABLE (sys r) !!! id))
}.

Lemma read_step_ok id len r c owed :
  rights_ok r c owed -> bounded r -> holds r id = true -> kind (TABLE (sys r) !!! id) = Stream ->
  let bytes := contents (TABLE (sys r) !!! id) in
  let '(res, u) := read_msg id len (ux c) in
  exists r' n, ustep (ORead id len) r = Some r' /\ TABLE u = TABLE (sys r') /\ took id n r r' /\
    (n <= length bytes)%nat /\ (n <= len)%nat /\
    (shut_rd (TABLE (sys r) !!! id) = false -> n = Nat.min len (length bytes)) /\
    match res with inl (out, lost) => out = take n bytes /\ lost = 0%nat | inr _ => n = 0%nat end.
Proof.
  intros R Hb Hh Hk bytes. destruct (holder r id (ri_run _ _ _ R) Hh) as (Hi & L & Hbad & _).
  destruct (read_table id len (ux c) (sys r) (ri_table _ _ _ R)) as [En Et].
  destruct (read_msg id len (ux c)) as [res u]. cbn [fst snd] in En, Et.
  assert (exists r', ustep (ORead id len) r = Some r' /\ sys r' = (read_msg id len (sys r)).2 /\ opens r' = opens r) as (r' & Hst & Es & Eo).
  { unfold ustep. rewrite Hh. destruct (read_msg id len (sys r)) as [rs u']. cbn [fst snd] in *.
    repeat case_match; by eexists. }
  pose proof (unix_step_ok _ _ _ (ri_run _ _ _ R) Hst) as Hrun'. exists r'.
  pose proof (do_ring _ _ _ _ _ (rk_data _ (ri_run _ _ _ R)) id Hi) as Hring.
  pose proof (counters_exact r id (ri_run _ _ _ R) Hb Hi L Hk) as [Hlt Hsum].
  assert (TABLE (sys r') = TABLE (sys r) -> took id 0 r r') as Hsame.
  { intros E. split; rewrite ?E; try done. lia. }
  rewrite <- Es in Et. rewrite En. revert En Es. unfold read_msg. rewrite Hbad, (proj2 (is_free_false _) L), Hk.
  destruct (shut_rd (TABLE (sys r) !!! id)) eqn:Esh.
  { intros _ Es. exists 0%nat. cbn [fst]. split_and!; try done; [apply Hsame; by rewrite Es|lia|lia]. }
  destruct (Nat.eqb_spec (recv_available (TABLE (sys r) !!! id)) 0) as [Ha|Ha].
  { intros _ Es. exists 0%nat. assert (length bytes = 0)%nat as E0 by (subst bytes; by rewrite unread_length).
    cbn [fst snd] in *. split_and!; try done; [apply Hsame; by rewrite Es|lia|lia|lia|by destruct (rx_eof _)]. }
  destruct (pop len (TABLE (sys r) !!! id)) as [out s'] eqn:Ep. cbn [fst snd]. intros _ Es.
  pose proof (pop_spec len (TABLE (sys r) !!! id) (ring_ok_bytes _ Hring)) as Hpop. rewrite Ep in Hpop.
  destruct Hpop as (Hout & _ & Hcont & Es'). fold bytes in Hout, Hcont, Hsum.
  assert (TABLE (sys r') = <[id := s']> (TABLE (sys r))) as Et' by (rewrite Es; by case_match).
  exists (length out). assert (length out = Nat.min len (length bytes)) as Hlo by (by rewrite Hout, length_take).
  pose proof (ro_pop _ Hring) as Hw. unfold in_word in Hw. unfold U64_MAX in Hlt.
  pose proof (eo_len _ _ _ _ (rk_ends _ (ri_run _ _ _ R))) as Hlen.
  split_and!; try done; [|lia|lia|rewrite Hout, length_take; by rewrite <- firstn_firstn, firstn_all].
  split; try done; rewrite Et'; [by intros j Hj; rewrite upd_at, decide_False by (done || lia)|..];
    rewrite upd_at, decide_True by (done || lia).
  - by rewrite Es'.
  - by rewrite Es'.
  - rewrite Es'. cbn [with_popped recv_popped]. unfold add64. apply wrap_small. split; lia.
  - rewrite Hcont, Hlo. fold bytes. destruct (Nat.min_dec len (length bytes)) as [->|E]; [done|].
    rewrite E, drop_all. by rewrite drop_ge by lia.
Qed.

Lemma unpin_installed_ok l c :
  exists cs, fold_left unpin_installed l c = mkScmSys (ux c) (PENDING_SCM c) (calls c ++ cs) /\ unix_ops cs = [].
Proof.
  revert c. induction l as [|fd l IH]; intros c; cbn [fold_left].
  { exists []. rewrite app_nil_r. by destruct c. }
  destruct (IH (unpin_installed c fd)) as (cs & -> & Hcs). unfold unpin_installed.
  destruct (object_ref fd) as [| |m ino| |]; try (by exists cs).
  exists (CUnpin m ino :: cs). cbn [call ux PENDING_SCM calls]. by rewrite <- app_assoc.
Qed.

(** A batch that fits is handed over whole. *)
Lemma deliver_whole id (ctrl_len off : Z) l q c :
  scm_dequeue_with_offset id (recv_consumed id (ux c)) (PENDING_SCM c) = (Some (off, l), q) ->
  Z.of_nat (length l) <= (ctrl_len - 16) / 4 ->
  exists cs, deliver id ctrl_len c = (l, 0, mkScmSys (ux c) q (calls c ++ cs)) /\ unix_ops cs = [].
Proof.
  intros E Hfit. unfold deliver. rewrite E. rewrite Nat.min_r by lia.
  rewrite drop_all, firstn_all, Nat.ltb_irrefl.
  destruct (unpin_installed_ok l (with_pending q c)) as (cs & -> & Hcs). by exists cs.
Qed.

(** The state after the read, less the batch it uncovered. *)
Lemma rights_taken id n r c owed r1 c1 owed1 :
  rights_ok r c owed -> took id n r r1 -> (n <= length (contents (TABLE (sys r) !!! id)))%nat ->
  TABLE (ux c1) = TABLE (sys r1) ->
  let s := TABLE (sys r) !!! id in
  let bs := batches id (PENDING_SCM c) in
  within (recv_popped s) bs n ->
  (forall i, (owed1 i + inflight i (PENDING_SCM c1) <= owed i + inflight i (PENDING_SCM c))%nat) ->
  (forall b, b ∈ PENDING_SCM c1 -> b ∈ PENDING_SCM c) ->
  (forall j, batches j (PENDING_SCM c1) =
    if decide (j = id) then (if hit (recv_popped s) bs n then tail bs else bs) else batches j (PENDING_SCM c)) ->
  rights_ok r1 c1 owed1 /\ marked c1 id = drop n (marked c id) /\
  forall j, j <> id -> marked c1 j = marked c j.
Proof.
  intros R T Hn Ht s bs Hw Href Hsub Hbs. pose proof R as [Hrun Htab Hrefs Hrecv Hpos]. destruct T as [T1 T2 T3 T4 T5 T6 T7].
  fold s in T4, T5, T6, T7, Hn. split_and!.
  - split; [done|done|..].
    + intros i. specialize (Hrefs i). specialize (Href i). rewrite T2. lia.
    + intros b Hb%Hsub. destruct (Hrecv b Hb) as (A & B & C & D). destruct (decide (receiver_id b = id)) as [E|Hne].
      * rewrite E in *. fold s in C, D. split_and!; congruence.
      * rewrite T3 by done. done.
    + intros j Hj. rewrite Hbs. case_decide; [subst j|by rewrite T3 by done; apply Hpos].
      unfold standing. rewrite T6, T7, length_drop. apply stands_read; [by apply Hpos|done|done].
  - unfold marked. rewrite Ht, Htab, T6, T7, Hbs, decide_True by done. fold s bs.
    destruct (decide (id < MAX_UNIX_SOCKETS)%nat) as [Hi|Hi].
    + destruct (mark_read (recv_popped s) bs (contents s) n (Hpos id Hi) Hn Hw) as [_ ->]. done.
    + assert (bs = []) as ->; [|by rewrite !mark_nil; unfold plain; rewrite skipn_map].
      apply batches_nil. intros b Hb <-. by destruct (Hrecv b Hb) as (? & _).
  - intros j Hj. unfold marked. rewrite Ht, Htab, T3, Hbs, decide_False by done. done.
Qed.

Lemma batches_remove j q1 b q2 : receiver_id b <> j -> batches j (q1 ++ b :: q2) = batches j (q1 ++ q2).
Proof.
  intros Hne. unfold batches. rewrite !List.filter_app. cbn [List.filter].
  by rewrite (proj2 (Nat.eqb_neq _ _) Hne).
Qed.

Lemma inflight_remove i q1 b q2 : inflight i (q1 ++ b :: q2) = (inflight i (q1 ++ q2) + sock_count i (fds b))%nat.
Proof.
  rewrite !inflight_app. unfold inflight, in_flight. cbn [map concat]. rewrite sock_count_app. lia.
Qed.

(** What a receive hands over: the first [n] marked bytes, of which only the
    last may have descriptors on it. *)
Record handed id (cap n : nat) (rc : Received) c c' : Prop := {
  hd_data : rc_data rc = map fst (take n (marked c id));
  hd_fds : rc_fds rc = concat (map snd (take n (marked c id)));
  hd_rest : marked c' id = drop n (marked c id);
  hd_other : forall j, j <> id -> marked c' j = marked c j;
  hd_early : concat (map snd (take (n - 1) (marked c id))) = [];
  hd_cap : (n <= cap)%nat;
  hd_full : shut_rd (TABLE (ux c) !!! id) = false -> (n < Nat.min cap (length (marked c id)))%nat ->
    concat (map snd (take n (marked c id))) <> []
}.

Lemma read_cap_spec id cap r c owed :
  rights_ok r c owed -> (id < MAX_UNIX_SOCKETS)%nat -> kind (TABLE (sys r) !!! id) = Stream ->
  let s := TABLE (sys r) !!! id in
  let bs := batches id (PENDING_SCM c) in
  (read_cap id cap c <= cap)%nat /\ within (recv_popped s) bs (read_cap id cap c) /\
  ((read_cap id cap c < cap)%nat -> hit (recv_popped s) bs (read_cap id cap c) = true).
Proof.
  intros R Hi Hk s bs. pose proof (ri_pos _ _ _ R id Hi) as [Hs Hb]. fold s bs in Hs, Hb.
  assert (scm_next_batch_offset id (recv_popped s) (PENDING_SCM c) = byte_offset <$> head bs) as En.
  { apply next_offset; [done|]. eapply List.Forall_impl; [|exact Hb]. intros b ?. cbv beta in *. lia. }
  assert (read_cap id cap c = match head bs with
    | Some b => Nat.min cap (Z.to_nat (byte_offset b - recv_popped s)) | None => cap end) as ->.
  { unfold read_cap, unix_kind, recv_consumed. rewrite (proj2 (Nat.leb_gt _ _) Hi : bad_id id = false).
    rewrite (ri_table _ _ _ R), Hk. fold s. rewrite En. by destruct (head bs). }
  destruct bs as [|b bs']; cbn [head]; [split_and!; [lia|by intros b bs'|lia]|].
  apply Forall_inv in Hb. split_and!; [lia|intros b' bs'' [= <- <-]; lia|]. intros Hlt. cbn [hit]. apply Z.eqb_eq. lia.
Qed.

(** The descriptors under the last byte read, if any. *)
Definition uncovered (pos : Z) (bs : list ScmBatch) (n : nat) : list FileDescriptor :=
  if hit pos bs n then match bs with b :: _ => fds b | [] => [] end else [].

Lemma deliver_ok id n (ctrl_len : Z) r c owed r1 c1 :
  rights_ok r c owed -> took id n r r1 -> (n <= length (contents (TABLE (sys r) !!! id)))%nat ->
  (id < MAX_UNIX_SOCKETS)%nat -> TABLE (ux c1) = TABLE (sys r1) -> PENDING_SCM c1 = PENDING_SCM c ->
  let s := TABLE (sys r) !!! id in
  let bs := batches id (PENDING_SCM c) in
  within (recv_popped s) bs n -> Forall (fun b => Z.of_nat (length (fds b)) <= (ctrl_len - 16) / 4) bs ->
  exists cs c', deliver id ctrl_len c1 = (uncovered (recv_popped s) bs n, 0, c') /\
    calls c' = calls c1 ++ cs /\ unix_ops cs = [] /\
    rights_ok r1 c' (fun i => (owed i + sock_count i (uncovered (recv_popped s) bs n))%nat) /\
    (forall i, inflight i (PENDING_SCM c) = inflight i (PENDING_SCM c') + sock_count i (uncovered (recv_popped s) bs n))%nat /\
    marked c' id = drop n (marked c id) /\ (forall j, j <> id -> marked c' j = marked c j).
Proof.
  intros R T Hn Hi Ht Hq s bs Hw Hfit. pose proof (ri_pos _ _ _ R id Hi) as [Hs Hb]. fold s bs in Hs, Hb.
  assert (recv_consumed id (ux c1) = recv_popped s + Z.of_nat n) as Hcons.
  { unfold recv_consumed. rewrite (proj2 (Nat.leb_gt _ _) Hi : bad_id id = false), Ht. apply T. }
  pose proof (dequeue_head id (recv_popped s + Z.of_nat n) (PENDING_SCM c) Hs) as Hd. fold bs in Hd.
  pose proof (fun c' owed' => rights_taken id n r c owed r1 c' owed' R T Hn) as Hr. cbv zeta in Hr. fold s bs in Hr.
  assert (forall b, b ∈ bs -> receiver_id b = id) as Hrid by (intros b [_ ?]%elem_of_batches; done).
  unfold uncovered in *. destruct (hit (recv_popped s) bs n) eqn:Eh.
  - unfold hit in Eh. destruct bs as [|b bs']; [done|]. apply Z.eqb_eq in Eh. rewrite (proj2 (Z.leb_le _ _)) in Hd by lia.
    destruct Hd as (q1 & q2 & Eq & Ebs & Ed).
    pose proof (Hrid b ltac:(by left)) as Er.
    edestruct (deliver_whole id ctrl_len (byte_offset b) (fds b) (q1 ++ q2) c1) as (cs & E & Hcs);
      [by rewrite Hcons, Hq|by apply Forall_inv in Hfit|].
    exists cs, (mkScmSys (ux c1) (q1 ++ q2) (calls c1 ++ cs)). split; [done|]. split; [done|]. split; [done|].
    edestruct (Hr (mkScmSys (ux c1) (q1 ++ q2) (calls c1 ++ cs)) (fun i => (owed i + sock_count i (fds b))%nat)) as (R1 & M1 & M2);
      cbn [ux PENDING_SCM]; try done.
    + intros i. rewrite Eq, inflight_remove. lia.
    + intros b'. rewrite Eq. set_solver.
    + intros j. case_decide as Ej; [by subst j|]. rewrite Eq. by rewrite batches_remove by congruence.
    + split_and!; try done. intros i. rewrite Eq. apply inflight_remove.
  - assert (scm_dequeue_with_offset id (recv_popped s + Z.of_nat n) (PENDING_SCM c) = (None, PENDING_SCM c)) as Ed.
    { destruct bs as [|b bs']; [done|]. cbn [hit] in Eh. apply Z.eqb_neq in Eh. specialize (Hw b bs' eq_refl).
      by rewrite (proj2 (Z.leb_gt _ _)) in Hd by lia. }
    exists [], c1. unfold deliver. rewrite Hcons, Hq, Ed, app_nil_r.
    destruct (Hr c1 (fun i => (owed i + sock_count i [])%nat)) as (R1 & M1 & M2); rewrite ?Hq; try done.
    + intros i. change (sock_count i []) with 0%nat. lia.
    + intros j. case_decide; [by subst j|done].
Qed.

Lemma deliver_nothing id (ctrl_len : Z) c :
  Forall (fun b => recv_consumed id (ux c) < byte_offset b) (batches id (PENDING_SCM c)) ->
  deliver id ctrl_len c = ([], 0, c).
Proof.
  intros Hf. unfold deliver, scm_dequeue_with_offset. destruct (earliest _ _ _) as [[k o]|] eqn:E; [|done].
  apply earliest_in in E as (b & Hb%list_elem_of_In & <- & Hle). rewrite List.Forall_forall in Hf.
  specialize (Hf b Hb). lia.
Qed.

(** recvmsg hands over a beginning of the marked bytes; the descriptors it
    hands over leave the queue and become the receiver's. *)
Lemma recvmsg_ok id cap (ctrl_len : Z) r c :
  rights_ok r c (spare r c) -> bounded r -> (0 < spare r c id)%nat -> kind (TABLE (ux c) !!! id) = Stream ->
  Forall (fun b => Z.of_nat (length (fds b)) <= (ctrl_len - 16) / 4) (batches id (PENDING_SCM c)) ->
  let '(rc, c') := recvmsg id cap ctrl_len c in
  exists r' n, tracks r c r' c' /\ rights_ok r' c' (spare r' c') /\ handed id cap n rc c c' /\
    forall i, spare r' c' i = (spare r c i + sock_count i (rc_fds rc))%nat.
Proof.
  intros R Hb Ho Hk Hfit. pose proof (owed_holds _ _ _ _ R Ho) as Hh. rewrite (ri_table _ _ _ R) in Hk.
  destruct (holder r id (ri_run _ _ _ R) Hh) as (Hi & _ & _ & _).
  destruct (read_cap_spec id cap r c _ R Hi Hk) as (Hc1 & Hc2 & Hc3).
  pose proof (read_step_ok id (read_cap id cap c) r c _ R Hb Hh Hk) as Hrd. cbv zeta in Hrd.
  unfold recvmsg. set (eff := read_cap id cap c) in *. destruct (read_msg id eff (ux c)) as [res u].
  destruct Hrd as (r1 & n & Hst & Et & T & Hn1 & Hn2 & Hfull & Hres).
  set (c1 := call (CUnix (ORead id eff)) (with_ux u c)). set (s := TABLE (sys r) !!! id) in *.
  set (bs := batches id (PENDING_SCM c)) in *.
  pose proof (ri_pos _ _ _ R id Hi : stands (recv_popped s) bs (length (contents s))) as Hstd.
  assert (within (recv_popped s) bs n) as Hw by (intros b bs' E; specialize (Hc2 b bs' E); lia).
  assert (marked c id = mark (recv_popped s) bs (contents s)) as Em by (unfold marked; by rewrite (ri_table _ _ _ R)).
  assert (concat (map snd (take n (marked c id))) = uncovered (recv_popped s) bs n) as Eu by (rewrite Em; by apply taken_fds).
  destruct (deliver_ok id n ctrl_len r c _ r1 c1 R T Hn1 Hi Et eq_refl Hw Hfit) as (cs & c' & E & Ecs & Hcs & R1 & Hinf & M1 & M2).
  fold s bs in E, R1, Hinf.
  assert (forall rc : Received, rc_data rc = take n (contents s) -> rc_fds rc = uncovered (recv_popped s) bs n ->
    exists r' n, tracks r c r' c' /\ rights_ok r' c' (spare r' c') /\ handed id cap n rc c c' /\
    forall i, spare r' c' i = (spare r c i + sock_count i (rc_fds rc))%nat) as Hok.
  { intros rc E1 E2. exists r1, n. split_and!; [|by eapply rights_spare| |].
    - eapply tracks_trans; [by eapply (tracks_call r c r1 c1)|]. by eapply tracks_other.
    - split; [|by rewrite Eu|done|done| |lia|].
      + by rewrite Em, <- firstn_map, mark_bytes.
      + rewrite Em. by apply taken_early.
      + rewrite (ri_table _ _ _ R). intros Esh Hlt. specialize (Hfull Esh).
        rewrite <- (length_map fst), Em, mark_bytes in Hlt. rewrite Eu. unfold uncovered.
        assert (n = eff) as -> by lia. rewrite Hc3 by lia. specialize (Hc3 ltac:(lia)).
        destruct bs as [|b bs'] eqn:Ebs; [done|]. apply (ri_recv _ _ _ R b).
        apply (elem_of_batches id). fold bs. rewrite Ebs. by left.
    - intros i. pose proof (ri_refs _ _ _ R i) as Hr. unfold spare in *. rewrite (tk_opens _ _ _ _ T), E2.
      specialize (Hinf i). lia. }
  destruct res as [[out lost]|e].
  - destruct Hres as [-> ->]. rewrite E. by apply Hok.
  - assert (Forall (fun b => recv_consumed id u < byte_offset b) bs) as Hlate.
    { unfold recv_consumed. rewrite (proj2 (Nat.leb_gt _ _) Hi : bad_id id = false), Et, (tk_popped _ _ _ _ T), Hres.
      fold s. eapply List.Forall_impl; [|exact (proj2 Hstd)]. intros b ?. cbv beta in *. lia. }
    change (PENDING_SCM c1) with (PENDING_SCM c). rewrite none_deliverable, andb_false_r by done.
    rewrite (deliver_nothing id ctrl_len c1 Hlate) in E. injection E as Eu0 <-. apply Hok; cbn [rc_data rc_fds].
    + by rewrite Hres, take_0.
    + done.
Qed.
End passing.
