(* ===== verification/UnixMsg.v ===== *)
(** * Runs of socket calls with passed descriptors

    The states that socket calls, sendmsg, recvmsg and close reach when every
    caller holds the descriptors it names, descriptors are sent with data on
    streams and received by recvmsg with room for them, and each call is one
    step ([mstep]); and what they keep: descriptors ride on the first byte of
    their message, a socket in flight stays open, and closing returns and
    gives back everything it held. Runs outside these show what then happens
    to the descriptors. *)

From S2P Require Import Prelude WaitList Pipe Vfs Unix UnixRun UnixScm UnixRights UnixPass UnixChan.

Section runs.
Context `{UnixSizes}.
Implicit Types (r : Run) (c : ScmSys) (i j id : nat) (l : list FileDescriptor).

(** A call of net/unix.rs other than close. *)
Definition exec (o : Op) (u : UnixSys) : UnixSys :=
  match o with
  | OCreate k creds => (create k creds u).2
  | OBind id addr => (bind id addr u).2
  | OListen id => (listen id u).2
  | OConnect id addr => (connect id addr u).2
  | OAccept id => (accept id u).2
  | OPair k creds => (socketpair k creds u).2
  | OWrite id data => (write id data u).2
  | ORead id len => (read_msg id len u).2
  | OShutdown id rd wr => (shutdown id rd wr u).2
  | ODup id => inc_ref id u
  | OClose id => close_unix id u
  end.

Definition scm_boot (w : Wake) : ScmSys := mkScmSys (sys (start w)) [] [].

(** The run of the table that the recorded calls make. *)
Definition ghost (w : Wake) c : option Run := urun (unix_ops (calls c)) (start w).

(** Closing is a step of its own; read(2) is used where no descriptors wait. *)
Definition plain_op c (o : Op) : Prop :=
  match o with
  | OClose _ => False
  | ORead id _ => batches id (PENDING_SCM c) = []
  | _ => True
  end.

(** The sender holds its socket and the sockets it passes, has room for one
    more reference on each, and sends descriptors with data on a stream. *)
Definition may_send r c id (iovs : list (list Z)) l : Prop :=
  (0 < spare r c id)%nat /\ (forall i, (0 < sock_count i l)%nat -> (0 < spare r c i)%nat) /\
  (forall i, Z.of_nat (opens r !!! i) + Z.of_nat (length l) <= U32_MAX) /\
  (l <> [] -> kind (TABLE (ux c) !!! id) = Stream /\ concat iovs <> []).

(** The receiver holds its stream socket, and its control buffer has room for
    each batch that waits. *)
Definition may_recv r c id (ctrl_len : Z) : Prop :=
  (0 < spare r c id)%nat /\ kind (TABLE (ux c) !!! id) = Stream /\
  Forall (fun b => Z.of_nat (length (fds b)) <= (ctrl_len - 16) / 4) (batches id (PENDING_SCM c)).

Inductive mstep (w : Wake) : ScmSys -> ScmSys -> Prop :=
  | step_plain c r r' o :
      ghost w c = Some r -> plain_op c o -> ustep o r = Some r' ->
      mstep w c (call (CUnix o) (with_ux (exec o (ux c)) c))
  | step_send c r n c' id iovs l :
      ghost w c = Some r -> bounded r -> may_send r c id iovs l -> sendmsg id iovs l c = Some (n, c') ->
      mstep w c c'
  | step_recv c r rc c' id cap ctrl_len :
      ghost w c = Some r -> bounded r -> may_recv r c id ctrl_len -> recvmsg id cap ctrl_len c = (rc, c') ->
      mstep w c c'
  | step_shut c r c' id :
      ghost w c = Some r -> (0 < spare r c id)%nat -> close id c = Some c' -> mstep w c c'.

Definition reach (w : Wake) c : Prop := rtc (mstep w) (scm_boot w) c.

(* ------------------------------------------------------------------ *)
(** ** The steps keep the invariant *)

Lemma ghost_tracks w r c r' c' : ghost w c = Some r -> tracks r c r' c' -> ghost w c' = Some r'.
Proof. intros Hg (cs & E & Hu). unfold ghost. rewrite E, unix_ops_app. by eapply urun_app. Qed.

Lemma exec_table o r r' u :
  ustep o r = Some r' -> TABLE u = TABLE (sys r) -> TABLE (exec o u) = TABLE (sys r').
Proof.
  intros Hst E.
  assert (TABLE (exec o u) = TABLE (exec o (sys r))) as ->.
  { destruct o; cbn [exec]; unfold create, bind, listen, connect, accept, socketpair, write, read_msg, shutdown, inc_ref, close_unix;
      rewrite E; repeat (case_match; simplify_eq; try done). }
  destruct o; unfold ustep in Hst; cbn [exec]; repeat (case_match; try done); simplify_eq; done.
Qed.

(** A fresh endpoint is in another slot than one that keeps its endpoint. *)
Lemma opens_enter a k (o : nat) r i :
  (i < length (gens r))%nat -> (gens (enter a k o r) !!! i < length (kinds r))%nat ->
  opens (enter a k o r) !!! i = opens r !!! i /\ gens (enter a k o r) !!! i = gens r !!! i.
Proof.
  intros Hi. cbn [enter gens opens]. destruct (decide (i = a)) as [->|Hne].
  - rewrite upd_at, decide_True by done. lia.
  - intros _. by rewrite !list_lookup_total_insert_ne by done.
Qed.

Lemma opens_alter a r i : (opens r !!! i <= alter S a (opens r) !!! i)%nat.
Proof.
  rewrite !list_lookup_total_alt. destruct (decide (i = a)) as [->|Hne].
  - rewrite list_lookup_alter_eq. destruct (opens r !! a); simpl; lia.
  - by rewrite list_lookup_alter_ne by done.
Qed.

(** Only a close takes a descriptor away. *)
Lemma opens_mono o r r' i :
  run_ok r -> ustep o r = Some r' -> (forall id, o <> OClose id) -> (opens r !!! i <= opens r' !!! i)%nat.
Proof.
  intros Hok Hst Hno. destruct (holds r i) eqn:Hh; [|apply Nat.ltb_ge in Hh; lia].
  destruct (holder r i Hok Hh) as (Hi & L & _). pose proof (step_gens o r r' i Hok Hst Hi L) as Hg.
  pose proof (eo_gens _ _ _ _ (rk_ends _ Hok)) as Hlen.
  pose proof (gens_known _ _ _ _ i (rk_ends _ Hok) Hi L) as Hk.
  destruct o; try (by exfalso; eapply Hno); unfold ustep in Hst;
    repeat (case_match; try done); simplify_eq;
    cbn [join opens gens] in Hg |- *; first [done|apply opens_alter|idtac].
  all: repeat match goal with
    | E : gens (enter ?a ?k ?o ?r0) !!! ?x = _ |- context [opens (enter ?a ?k ?o ?r0) !!! ?x] =>
        let E1 := fresh in let E2 := fresh in
        destruct (opens_enter a k o r0 x) as [E1 E2];
          [simpl; rewrite ?length_insert; lia|rewrite E; simpl; rewrite ?length_app; lia|rewrite E1; rewrite E2 in E]
    end; done.
Qed.

(** A receiver with a batch waiting only gets more bytes. *)
Lemma plain_grown o r r' c owed b :
  rights_ok r c owed -> ustep o r = Some r' -> plain_op c o -> b ∈ PENDING_SCM c ->
  exists x, grown (TABLE (sys r) !!! receiver_id b) (TABLE (sys r') !!! receiver_id b) x.
Proof.
  intros R Hst Hpl Hb. destruct (ri_recv _ _ _ R b Hb) as (Hi & _ & Hc & _). set (i := receiver_id b) in *.
  pose proof (frame_step o r r' i (ri_run _ _ _ R) Hst) as Hf.
  assert ((exists id data, o = OWrite id data /\ get_peer id (sys r) = Some i) \/ ~ reads_slot o i (sys r)) as [Hw|Hn].
  { destruct o; try (right; by intros []); cbn [plain_op reads_slot] in *.
    - destruct (decide (get_peer id (sys r) = Some i)); [left; by eexists _, _|by right].
    - right. intros E. rewrite <- E in Hpl. assert (b ∈ batches i (PENDING_SCM c)) as Hin by (by apply elem_of_batches).
      rewrite Hpl in Hin. by apply list.not_elem_of_nil in Hin. }
  - destruct Hw as (id & data & -> & Hp). unfold ustep in Hst. destruct (holds r id) eqn:Hh; [|done].
    destruct (holder r id (ri_run _ _ _ R) Hh) as (Hid & _).
    pose proof (write_grows id data r i (ri_run _ _ _ R) Hid Hp) as Hg. rewrite Hp in Hst.
    destruct (write id data (sys r)) as [n u]. exists (take (Z.to_nat n) data). destruct Hg as (G1 & G2 & G3 & G4 & _).
    case_match; injection Hst as <-; by split_and!.
  - exists []. by apply undisturbed_grown, Hf.
Qed.

Lemma plain_ok o r r' c :
  rights_ok r c (spare r c) -> ustep o r = Some r' -> plain_op c o ->
  let c' := call (CUnix o) (with_ux (exec o (ux c)) c) in
  tracks r c r' c' /\ rights_ok r' c' (spare r' c').
Proof.
  intros R Hst Hpl c'. pose proof (fun b => plain_grown o r r' c _ b R Hst Hpl) as Hg. pose proof R as [Hrun Htab Hrefs Hrecv Hpos].
  split; [by eapply tracks_call|]. apply (rights_spare _ _ (fun _ => 0%nat)).
  split; [by eapply unix_step_ok|by apply (exec_table o r)|..]; cbn [c' call with_ux PENDING_SCM].
  - intros i. specialize (Hrefs i). pose proof (opens_mono o r r' i Hrun Hst) as Hm.
    assert (opens r !!! i <= opens r' !!! i)%nat by (apply Hm; intros id ->; done). lia.
  - intros b Hb. destruct (Hrecv b Hb) as (A & B & C & D). destruct (Hg b Hb) as (x & G1 & G2 & _). split_and!; congruence.
  - intros i Hi. destruct (batches i (PENDING_SCM c)) as [|b bs] eqn:E; [apply standing_nil|].
    assert (b ∈ batches i (PENDING_SCM c)) as [Hb <-]%elem_of_batches by (rewrite E; by left). rewrite <- E.
    destruct (Hg b Hb) as (x & _ & _ & G3 & G4). unfold standing. rewrite G3, G4, length_app.
    eapply stands_more; [|by apply Hpos]. lia.
Qed.

Lemma scm_boot_ok w : rights_ok (start w) (scm_boot w) (spare (start w) (scm_boot w)).
Proof.
  split; [apply start_ok|done|..].
  - intros i. unfold spare, inflight. cbn. lia.
  - intros b Hb. by apply list.not_elem_of_nil in Hb.
  - intros i Hi. apply standing_nil.
Qed.

Lemma shut_ok id r c :
  rights_ok r c (spare r c) -> (0 < spare r c id)%nat ->
  exists r' c', close id c = Some c' /\ tracks r c r' c' /\ keeps r c r' c' /\ rights_ok r' c' (less_one id (spare r c)).
Proof.
  intros R Ho. destruct (close_fuel_ok _ id r c _ (Nat.le_refl _) R Ho) as (r' & c' & H1 & H2 & H3 & _ & H4 & _).
  by exists r', c'.
Qed.

Lemma step_rights w c c' r :
  ghost w c = Some r -> rights_ok r c (spare r c) -> mstep w c c' ->
  exists r', ghost w c' = Some r' /\ rights_ok r' c' (spare r' c').
Proof.
  intros Hg R Hst. assert (forall r', tracks r c r' c' -> ghost w c' = Some r') as Ht by (intros r'; by apply ghost_tracks).
  inversion Hst as [c0 r0 r1 o G P U|c0 r0 n c1 id iovs l G B M S|c0 r0 rc c1 id cap ctrl G B M S|c0 r0 c1 id G M S]; subst;
    rewrite Hg in G; injection G as <-.
  - destruct (plain_ok o r r1 c R U P) as [T R1]. exists r1. split; [by apply Ht|done].
  - destruct M as (M1 & M2 & M3 & M4). destruct (sendmsg_ok id iovs l r c R B M1 M2 M3 M4) as (n' & c1 & r1 & E & T & R1 & _).
    rewrite E in S. injection S as -> ->. exists r1. split; [by apply Ht|done].
  - destruct M as (M1 & M2 & M3). pose proof (recvmsg_ok id cap ctrl r c R B M1 M2 M3) as Hr. rewrite S in Hr.
    destruct Hr as (r1 & n & T & R1 & _). exists r1. split; [by apply Ht|done].
  - destruct (shut_ok id r c R M) as (r1 & c1 & E & T & _ & R1). rewrite E in S. injection S as ->.
    exists r1. split; [by apply Ht|by eapply rights_spare].
Qed.

Lemma reach_rights w c : reach w c -> exists r, ghost w c = Some r /\ rights_ok r c (spare r c).
Proof.
  apply (rtc_ind_r (fun c => exists r, ghost w c = Some r /\ rights_ok r c (spare r c)));
    [exists (start w); split; [done|apply scm_boot_ok]|].
  intros c1 c2 _ Hst (r & Hg & R). by eapply step_rights.
Qed.

Lemma reach_ghost w c r : reach w c -> ghost w c = Some r -> rights_ok r c (spare r c).
Proof. intros (r' & E & R)%reach_rights Hg. rewrite Hg in E. by injection E as <-. Qed.

Lemma reach_step w c c' : reach w c -> mstep w c c' -> reach w c'.
Proof. apply rtc_r. Qed.

(* ------------------------------------------------------------------ *)
(** ** Theorems *)

(** C16: a sendmsg returns; the bytes it accepted are a beginning of its
    vectors and are appended to what its connected peer has not read, the
    first of them carrying the descriptors of the message, all the others
    none; no other connected socket's unread bytes or descriptors change, and
    when no byte is accepted none do. This is of a caller that holds its
    socket and those it passes, with references to spare, and sends
    descriptors only on a stream and with data ([may_send];
    [control_only_shifts_fds] shows a message without data). The states
    ([reach]) are those of runs of such sends, of recvmsg on streams with
    control buffers that have room for every waiting batch, of read(2) where
    no descriptors wait, of connects by sockets neither connected nor
    listening, and of calls on held descriptors, each call, close included,
    one step and fewer than u64::MAX bytes sent to an endpoint
    ([truncation_shifts_fds], [read_leaves_fds_behind],
    [close_drains_next_owner] show what happens outside). *)
Theorem scm_send_marks_first_byte (w : Wake) (c : ScmSys) (r : Run) (id : nat) (iovs : list (list Z))
    (l : list FileDescriptor) :
  reach w c -> ghost w c = Some r -> bounded r -> may_send r c id iovs l ->
  exists n c', sendmsg id iovs l c = Some (n, c') /\ reach w c' /\ n <= Z.of_nat (length (concat iovs)) /\
    (0 < n -> exists p, (p < MAX_UNIX_SOCKETS)%nat /\ get_peer id (ux c) = Some p /\
      state (TABLE (ux c') !!! p) = Connected) /\
    forall j, (j < MAX_UNIX_SOCKETS)%nat -> state (TABLE (ux c') !!! j) = Connected ->
      state (TABLE (ux c) !!! j) = Connected /\
      marked c' j = marked c j ++
        (if decide (get_peer id (ux c) = Some j) then carrying l (take (Z.to_nat n) (concat iovs)) else []).
Proof.
  intros Hre Hg Hb M. pose proof (reach_ghost w c r Hre Hg) as R. pose proof M as (M1 & M2 & M3 & M4).
  destruct (sendmsg_ok id iovs l r c R Hb M1 M2 M3 M4) as (n & c' & r' & E & T & R' & _ & Hn & Hr & Hx).
  assert (get_peer id (ux c) = get_peer id (sys r)) as Ep by (unfold get_peer; by rewrite (ri_table _ _ _ R)).
  exists n, c'. rewrite Ep, (ri_table _ _ _ R'), (ri_table _ _ _ R). split_and!; [done| |done| |exact Hr].
  - eapply reach_step; [done|]. by eapply step_send.
  - intros Hn0. apply Hx. intros E0%(f_equal length). rewrite length_take in E0. simpl in E0. lia.
Qed.

(** C17: a recvmsg on a stream takes a beginning of the socket's unread bytes,
    at most the buffer's length and in order, and exactly the descriptors that
    ride on them. It stops at the first byte with descriptors on it, so a call
    gets those of one message only; it stops early for no other reason than a
    full buffer, the last unread byte or a reader that was shut down. What it
    hands over leaves the queue and becomes the receiver's. This is of a
    receiver that holds the socket and whose control buffer has room for every
    batch that waits ([may_recv]; [truncation_shifts_fds] shows a smaller
    one), in the states ([reach]) of runs of such receives, of sends of
    descriptors with data on streams, of read(2) where no descriptors wait, of
    connects by sockets neither connected nor listening, and of calls on held
    descriptors, each call, close included, one step and fewer than u64::MAX
    bytes sent to an endpoint ([control_only_shifts_fds],
    [read_leaves_fds_behind], [close_drains_next_owner] show the rest). *)
Theorem scm_recv_hands_over_with_byte (w : Wake) (c : ScmSys) (r : Run) (id cap : nat) (ctrl_len : Z) :
  reach w c -> ghost w c = Some r -> bounded r -> may_recv r c id ctrl_len ->
  let '(rc, c') := recvmsg id cap ctrl_len c in
  reach w c' /\ exists n r', ghost w c' = Some r' /\ (n <= cap)%nat /\
    rc_data rc = map fst (take n (marked c id)) /\ rc_fds rc = concat (map snd (take n (marked c id))) /\
    marked c' id = drop n (marked c id) /\ (forall j, j <> id -> marked c' j = marked c j) /\
    concat (map snd (take (n - 1) (marked c id))) = [] /\
    (shut_rd (TABLE (ux c) !!! id) = false -> (n < Nat.min cap (length (marked c id)))%nat -> rc_fds rc <> []) /\
    forall i, spare r' c' i = (spare r c i + sock_count i (rc_fds rc))%nat.
Proof.
  intros Hre Hg Hb M. pose proof (reach_ghost w c r Hre Hg) as R. pose proof M as (M1 & M2 & M3).
  pose proof (recvmsg_ok id cap ctrl_len r c R Hb M1 M2 M3) as Hr.
  destruct (recvmsg id cap ctrl_len c) as [rc c'] eqn:E. destruct Hr as (r' & n & T & R' & [H1 H2 H3 H4 H5 H6 H7] & Hs).
  split; [eapply reach_step; [done|by eapply step_recv]|].
  exists n, r'. split_and!; try done; [by eapply ghost_tracks|]. intros Es Hlt. rewrite H2. by apply H7.
Qed.

(** C18: a socket that descriptors in flight refer to is in use, with one
    reference for each of them and one for each descriptor held; what waits
    for a receiver waits on bytes that a connected stream has not read, so
    nothing is left queued for a socket that was freed. Closing a held
    descriptor returns, however deep sockets are queued on sockets, takes no
    other held descriptor away, and leaves every socket still connected its
    unread bytes and the descriptors on them. The states ([reach]) are those
    of runs with each call, close included, one step (between its two halves a
    new owner's descriptors can be drained, [close_drains_next_owner]), on
    held descriptors, where descriptors are sent with data on streams, control
    buffers have room for every waiting batch, read(2) is used where no
    descriptors wait, only sockets neither connected nor listening connect,
    and fewer than u64::MAX bytes go to an endpoint
    ([control_only_shifts_fds], [truncation_shifts_fds],
    [read_leaves_fds_behind] show the rest). *)
Theorem scm_in_flight_stays_open (w : Wake) (c : ScmSys) (r : Run) :
  reach w c -> ghost w c = Some r ->
  (forall i, (0 < inflight i (PENDING_SCM c))%nat ->
    state (TABLE (ux c) !!! i) <> Free /\
    ref_count (TABLE (ux c) !!! i) = Z.of_nat (spare r c i + inflight i (PENDING_SCM c))) /\
  (forall b, b ∈ PENDING_SCM c ->
    let s := TABLE (ux c) !!! receiver_id b in
    state s = Connected /\ kind s = Stream /\
    recv_popped s < byte_offset b <= recv_popped s + Z.of_nat (length (contents s))) /\
  (forall id, (0 < spare r c id)%nat ->
    exists c' r', close id c = Some c' /\ reach w c' /\ ghost w c' = Some r' /\
      (forall i, (less_one id (spare r c) i <= spare r' c' i)%nat) /\
      forall j, (j < MAX_UNIX_SOCKETS)%nat -> state (TABLE (ux c') !!! j) = Connected ->
        state (TABLE (ux c) !!! j) = Connected /\ marked c' j = marked c j).
Proof.
  intros Hre Hg. pose proof (reach_ghost w c r Hre Hg) as R. rewrite (ri_table _ _ _ R). split_and!.
  - intros i Hi. pose proof (ri_refs _ _ _ R i) as Hr.
    destruct (holder r i (ri_run _ _ _ R)) as (Him & L & _ & _); [apply Nat.ltb_lt; unfold spare in Hr; lia|].
    split; [done|]. pose proof (ko_ref _ _ (rk_refs _ (ri_run _ _ _ R)) i Him) as Hk.
    rewrite (proj2 (is_free_false _) L) in Hk. unfold spare in *. lia.
  - intros b Hb s. destruct (ri_recv _ _ _ R b Hb) as (Hi & _ & Hc & Hk). split_and!; try done;
      pose proof (proj2 (ri_pos _ _ _ R _ Hi)) as Hp; rewrite List.Forall_forall in Hp;
      (assert (In b (batches (receiver_id b) (PENDING_SCM c))) as Hin by (by apply list_elem_of_In, elem_of_batches));
      specialize (Hp b Hin); unfold s; lia.
  - intros id Ho. destruct (shut_ok id r c R Ho) as (r' & c' & E & T & K & R'). exists c', r'. split_and!; [done|..].
    + eapply reach_step; [done|]. by eapply step_shut.
    + by eapply ghost_tracks.
    + intros i. by apply spare_covers.
    + intros j Hj Hc. rewrite (ri_table _ _ _ R') in Hc. by eapply keeps_marked.
Qed.
End runs.

(* ------------------------------------------------------------------ *)
(** ** A run *)

Section checks.
Context `{UnixSizes}.

Lemma bounded_log (r : Run) :
  Z.of_nat (length (concat (map (fun e => match e with ESent _ _ d => d | EGot _ _ _ => [] end) (log r)))) < U64_MAX ->
  bounded r.
Proof.
  intros Hl g. unfold sent_bytes.
  assert (forall es, (length (concat (sent_to g es)) <=
    length (concat (map (fun e => match e with ESent _ _ d => d | EGot _ _ _ => [] end) es)))%nat) as Hle.
  { induction es as [|e es IH]; [done|]. change (e :: es) with ([e] ++ es) at 1. rewrite sent_to_app, concat_app. cbn [map concat]. rewrite !length_app.
    apply Nat.add_le_mono; [|done]. unfold sent_to. destruct e; simpl; [|done]. destruct (_ =? g)%nat; simpl; rewrite ?length_app; simpl; lia. }
  specialize (Hle (log r)). lia.
Qed.

(** [may_send], decided. *)
Definition may_send_b (r : Run) (c : ScmSys) (id : nat) (iovs : list (list Z)) (l : list FileDescriptor) : bool :=
  (0 <? spare r c id)%nat &&
  forallb (fun fd => match object_ref fd with RSocket i => (0 <? spare r c i)%nat | _ => true end) l &&
  forallb (fun o => Z.of_nat o + Z.of_nat (length l) <=? U32_MAX) (0%nat :: opens r) &&
  match l with
  | [] => true
  | _ => bool_decide (kind (TABLE (ux c) !!! id) = Stream) && negb (length (concat iovs) =? 0)%nat
  end.

Lemma may_send_spec r c id iovs l : may_send_b r c id iovs l = true -> may_send r c id iovs l.
Proof.
  intros [[[H1%Nat.ltb_lt H2]%andb_true_iff H3]%andb_true_iff H4]%andb_true_iff. split_and!; [done|..].
  - intros i Hi. unfold sock_count in Hi. destruct (List.filter (is_ref i) l) as [|fd fs] eqn:E; [simpl in Hi; lia|].
    assert (In fd l /\ is_ref i fd = true) as [Hin Hr] by (apply filter_In; rewrite E; by left).
    rewrite forallb_forall in H2. specialize (H2 fd Hin). unfold is_ref in Hr. destruct (object_ref fd); try done.
    apply Nat.eqb_eq in Hr as ->. by apply Nat.ltb_lt.
  - intros i. rewrite forallb_forall in H3. apply Z.leb_le, H3. rewrite list_lookup_total_alt.
    destruct (opens r !! i) as [o|] eqn:E; [|by left]. right. simpl. apply list_elem_of_In. by eapply list_elem_of_lookup_2.
  - intros Hl. destruct l as [|fd l]; [done|]. apply andb_true_iff in H4 as [Hk%bool_decide_eq_true Hc]. split; [done|].
    by intros E; rewrite E in Hc.
Qed.
End checks.

#[local] Existing Instance small_sizes.

Definition socket_fd (i : Z) : FileDescriptor := mkFileDescriptor i 0 0 UNIX_SOCKET_FLAG Socket false false [].

Definition ghost_run (c : ScmSys) : Run := default (start no_wake) (ghost no_wake c).
Definition plain_step (o : Op) (c : ScmSys) : ScmSys := call (CUnix o) (with_ux (exec o (ux c)) c).
Definition sent_state (id : nat) (iovs : list (list Z)) (l : list FileDescriptor) (c : ScmSys) : ScmSys :=
  default c (snd <$> sendmsg id iovs l c).

(** Slots 0 and 1 are a pair of streams, 2 and 3 another. *)
Definition two_pairs : ScmSys := plain_step (OPair Stream bob) (plain_step (OPair Stream alice) (scm_boot no_wake)).
(** Socket 2 goes to socket 1 with two bytes, and then its sender closes it. *)
Definition passed : ScmSys := sent_state 0 [[10]; [11]] [socket_fd 2] two_pairs.
Definition dropped : ScmSys := default passed (close 2 passed).

Lemma plain_reach c o r r' :
  reach no_wake c -> ghost no_wake c = Some r -> plain_op c o -> ustep o r = Some r' -> reach no_wake (plain_step o c).
Proof. intros Hr Hg Hp Hs. eapply reach_step; [exact Hr|]. by eapply step_plain. Qed.

Lemma two_pairs_reach : reach no_wake two_pairs.
Proof.
  apply (plain_reach _ _ (ghost_run (plain_step (OPair Stream alice) (scm_boot no_wake))) (ghost_run two_pairs));
    [|vm_compute; reflexivity|exact I|vm_compute; reflexivity].
  apply (plain_reach _ _ (start no_wake) (ghost_run (plain_step (OPair Stream alice) (scm_boot no_wake))));
    [apply rtc_refl|vm_compute; reflexivity|exact I|vm_compute; reflexivity].
Qed.

Lemma passed_reach : reach no_wake passed.
Proof.
  eapply reach_step; [apply two_pairs_reach|].
  eapply (step_send no_wake _ (ghost_run two_pairs) 2 _ 0 [[10]; [11]] [socket_fd 2]);
    [vm_compute; reflexivity|apply bounded_log; vm_compute; reflexivity|apply may_send_spec; vm_compute; reflexivity|].
  vm_compute. reflexivity.
Qed.

Lemma dropped_reach : reach no_wake dropped.
Proof.
  eapply reach_step; [apply passed_reach|].
  eapply (step_shut no_wake _ (ghost_run passed) _ 2); [vm_compute; reflexivity|vm_compute; lia|vm_compute; reflexivity].
Qed.

(** Two of three bytes fit, the first with socket 3 on it. *)
Lemma scm_send_marks_first_byte_witness :
  marked passed 1 = [(10, [socket_fd 2]); (11, [])] /\
  fst <$> sendmsg 0 [[12]; [20; 21]] [socket_fd 3] passed = Some 2 /\
  exists n c', sendmsg 0 [[12]; [20; 21]] [socket_fd 3] passed = Some (n, c') /\ reach no_wake c' /\ n <= Z.of_nat (length (concat [[12]; [20; 21]])) /\
    (0 < n -> exists p, (p < MAX_UNIX_SOCKETS)%nat /\ get_peer 0 (ux passed) = Some p /\ state (TABLE (ux c') !!! p) = Connected) /\
    forall j, (j < MAX_UNIX_SOCKETS)%nat -> state (TABLE (ux c') !!! j) = Connected ->
      state (TABLE (ux passed) !!! j) = Connected /\
      marked c' j = marked passed j ++
        (if decide (get_peer 0 (ux passed) = Some j) then carrying [socket_fd 3] (take (Z.to_nat n) (concat [[12]; [20; 21]])) else []).
Proof.
  split; [vm_compute; reflexivity|]. split; [vm_compute; reflexivity|].
  apply (scm_send_marks_first_byte no_wake passed (ghost_run passed) 0 [[12]; [20; 21]] [socket_fd 3]);
    [apply passed_reach|vm_compute; reflexivity|apply bounded_log; vm_compute; reflexivity|apply may_send_spec; vm_compute; reflexivity].
Defined.

Lemma scm_recv_hands_over_with_byte_witness :
  rc_data (recvmsg 1 4 20 dropped).1 = [10] /\ rc_fds (recvmsg 1 4 20 dropped).1 = [socket_fd 2] /\
  let '(rc, c') := recvmsg 1 4 20 dropped in
  reach no_wake c' /\ exists n r', ghost no_wake c' = Some r' /\ (n <= 4)%nat /\
    rc_data rc = map fst (take n (marked dropped 1)) /\ rc_fds rc = concat (map snd (take n (marked dropped 1))) /\
    marked c' 1 = drop n (marked dropped 1) /\ (forall j, j <> 1%nat -> marked c' j = marked dropped j) /\
    concat (map snd (take (n - 1) (marked dropped 1))) = [] /\
    (shut_rd (TABLE (ux dropped) !!! 1%nat) = false -> (n < Nat.min 4 (length (marked dropped 1)))%nat -> rc_fds rc <> []) /\
    forall i, spare r' c' i = (spare (ghost_run dropped) dropped i + sock_count i (rc_fds rc))%nat.
Proof.
  split; [vm_compute; reflexivity|]. split; [vm_compute; reflexivity|].
  apply (scm_recv_hands_over_with_byte no_wake dropped (ghost_run dropped) 1 4 20);
    [apply dropped_reach|vm_compute; reflexivity|apply bounded_log; vm_compute; reflexivity|].
  split; [vm_compute; lia|]. split; [vm_compute; reflexivity|]. repeat constructor; vm_compute; congruence.
Defined.

(** Nobody holds socket 2; the message that carries it keeps it open. *)
Lemma scm_in_flight_stays_open_witness :
  spare (ghost_run dropped) dropped 2 = 0%nat /\ inflight 2 (PENDING_SCM dropped) = 1%nat /\
  (forall i, (0 < inflight i (PENDING_SCM dropped))%nat ->
    state (TABLE (ux dropped) !!! i) <> Free /\
    ref_count (TABLE (ux dropped) !!! i) =
      Z.of_nat (spare (ghost_run dropped) dropped i + inflight i (PENDING_SCM dropped))).
Proof.
  split; [vm_compute; reflexivity|]. split; [vm_compute; reflexivity|].
  apply (scm_in_flight_stays_open no_wake dropped (ghost_run dropped)); [apply dropped_reach|vm_compute; reflexivity].
Defined.

(* ------------------------------------------------------------------ *)
(** ** Calls of note *)

Definition recv_state (id cap : nat) (ctrl_len : Z) (c : ScmSys) : ScmSys := (recvmsg id cap ctrl_len c).2.
Definition got (id cap : nat) (ctrl_len : Z) (c : ScmSys) : list Z * list FileDescriptor :=
  (rc_data (recvmsg id cap ctrl_len c).1, rc_fds (recvmsg id cap ctrl_len c).1).

(** A message without data, then [10] with socket 3, then [11] with nothing:
    [10] comes with the descriptors of the first message and [11] with
    socket 3. *)
Lemma control_only_shifts_fds :
  let c := sent_state 0 [[11]] [] (sent_state 0 [[10]] [socket_fd 3] (sent_state 0 [[]] [socket_fd 2] two_pairs)) in
  got 1 4 64 c = ([10], [socket_fd 2]) /\ got 1 4 64 (recv_state 1 4 64 c) = ([11], [socket_fd 3]).
Proof. split; vm_compute; reflexivity. Qed.

(** Two sockets on [10] and room for one: the other one comes with [11], and
    what was sent on [11] with [12]. *)
Lemma truncation_shifts_fds :
  let c := sent_state 0 [[12]] [] (sent_state 0 [[11]] [socket_fd 2]
             (sent_state 0 [[10]] [socket_fd 2; socket_fd 3] two_pairs)) in
  let c1 := recv_state 1 4 20 c in
  let c2 := recv_state 1 4 20 c1 in
  got 1 4 20 c = ([10], [socket_fd 2]) /\ got 1 4 20 c1 = ([11], [socket_fd 3]) /\ got 1 4 20 c2 = ([12], [socket_fd 2]).
Proof. split_and!; vm_compute; reflexivity. Qed.

(** read(2) takes [10]; its descriptor comes with the next message. *)
Lemma read_leaves_fds_behind :
  let c := plain_step (ORead 1 4) (sent_state 0 [[10]] [socket_fd 2] two_pairs) in
  got 1 4 20 (sent_state 0 [[11]] [] c) = ([11], [socket_fd 2]).
Proof. vm_compute. reflexivity. Qed.

(** Slot 1 is freed, and before its queue is drained a new pair takes it and
    is sent a socket: the drain takes that one. *)
Definition half_closed : ScmSys :=
  let c := default two_pairs (close 0 two_pairs) in
  with_ux (with_table (close_slot 1 (TABLE (ux c))).1.1 (ux c)) c.
Definition reused : ScmSys := sent_state 0 [[10]] [socket_fd 2] (plain_step (OPair Stream bob) half_closed).

Lemma close_drains_next_owner :
  state (TABLE (ux half_closed) !!! 1%nat) = Free /\ marked reused 1 = [(10, [socket_fd 2])] /\
  scm_drain_receiver 1 (PENDING_SCM reused) = ([socket_fd 2], []).
Proof. split_and!; vm_compute; reflexivity. Qed.

(** A socket sent to itself stays in use after its last descriptor is closed. *)
Lemma self_passed_socket_leaks :
  let c := sent_state 0 [[10]] [socket_fd 1] two_pairs in
  let c := default c (close 0 c) in
  let c := default c (close 1 c) in
  spare (ghost_run c) c 0 = 0%nat /\ spare (ghost_run c) c 1 = 0%nat /\ state (TABLE (ux c) !!! 1%nat) = Connected.
Proof. split_and!; vm_compute; reflexivity. Qed.

(** One sendmsg of two vectors on a SOCK_SEQPACKET socket is two records. *)
Lemma vectors_split_record :
  let c := sent_state 0 [[10]; [11]] [] (plain_step (OPair SeqPacket alice) (scm_boot no_wake)) in
  got 1 4 0 c = ([10], []) /\ got 1 4 0 (recv_state 1 4 0 c) = ([11], []).
Proof. split; vm_compute; reflexivity. Qed.

(** Descriptors sent without a vector are not sent. *)
Lemma no_vectors_no_fds : sendmsg 0 [] [socket_fd 2] two_pairs = Some (0, two_pairs).
Proof. reflexivity. Qed.
